(* ===== verification/_CoqProject ===== *)
-Q . S2P
Prelude.v
BinarySearch.v
HashTable.v
HashTableFacts.v
HashMap.v
Time.v
InsertionSort.v
QuickSort.v
CharacterTypes.v
Utf8.v
Utf16.v
MemMem.v
Strings.v
Tokens.v
Wtf8.v
CodeUnits.v
Lexer.v
TextCodec.v
Decoders.v
DecoderSafety.v
DecoderRoundtrip.v
Http.v
HttpFacts.v
MimeType.v
MimeSniff.v
HeaderListFacts.v
Percent.v
FormUrlencoded.v
Ipv4.v
Ipv6.v
Host.v
PublicSuffix.v
Origin.v
Url.v
Cookies.v
CookieDates.v
CookieFacts.v
CookieJar.v
CookieJarFacts.v
CookieJarTheorems.v
SearchParams.v
UrlParser.v
UrlFacts.v
UrlSafety.v
UrlTheorems.v
UrlRoundtrip.v
QueryText.v
DomUrl.v
BlobEntry.v
UrlSetters.v
UrlFit.v
DomUrlTheorems.v
PatternTokenizer.v
PatternParts.v
PatternCanonicalization.v
PatternFacts.v
PatternComponent.v
PatternInit.v
PatternConstructor.v
PatternCuts.v
PatternConstructorFacts.v
UrlPattern.v
FloatTables.v
FloatToDecimal.v
FloatFacts.v
FloatExact.v
FloatTheorems.v
FloatFormat.v
Json.v
JsonFacts.v
JsonRoundtrip.v
CssTokens.v
CssTokenizer.v
CssTokenizerFacts.v
CssRoundtrip.v
CssSyntax.v
CssSyntaxFacts.v
CssSyntaxTheorems.v
