(* ===== verification/Prelude.v ===== *)
(** * Verification of the URL, cookie, HTTP, JSON and CSS syntax core of CryFox

    CryFox is a web browser whose engine is written in C++.  Every resource
    load, navigation, cookie and storage access goes through the code that is
    modelled here: the containers, text primitives, number conversions and JSON of
    [AK], the encoders and decoders of [LibTextCodec], the URL library [LibURL]
    with the [URL] and [URLSearchParams] interfaces of [LibWeb], the cookie jar of
    [LibWebView], the header lists of [LibHTTP], MIME types and their sniffing, and
    the tokenizer and the syntax parser of style sheets.  The functions of the
    source are executable Rocq functions, and the theorems say what that code
    guarantees.

    ** How the code is modelled

    - Bytes, code units and code points are [Z]; a string or a view is the list
      of its bytes.  A width matters only where the code can leave it: [u8],
      [u16], [u32] and [size_t] write out the wrap-around.
    - A function that can stop the process ([VERIFY], [MUST], an index out of
      range, a null dereference) returns [res]: [Ret v], or [Crash].  [Optional]
      and [ErrorOr] with an unused error are [option].  Allocation never fails.
    - A mutable argument or member is a value that is passed and returned.  The
      URL that a [URL] object shares with its [searchParams] is one record that
      both update.
    - Third-party code, generated data and the regular expressions of [LibRegex]
      are parameters, given by a class with, where a theorem relies on anything, a
      second class for it, and an instance that shows that the laws can hold: [Simdutf] (UTF-8 and ASCII validation, which may
      admit encoded surrogates), [SimdutfUtf16] and [SimdutfFromUtf8] (the
      conversions), [FastFloat] and [FastFloatSigned] ([from_chars], which reads
      the longest prefix of digits), [LookupTables] (the index tables of the
      Encoding Standard), [Icu] (UTS #46 ToASCII), [IcuCase] (lower-casing),
      [PublicSuffixList], [Allocator] ([kmalloc_good_size]), [SimdutfCount] (the
      number of code points), [FastFloatDouble] ([from_chars] of a double, which
      is correctly rounded and accepts decimal numbers), [IcuIdentifiers] (ID_Start and ID_Continue) and
      [RegexEngine] (compiling and running a regular expression).  The clock and
      the rows of the cookie database are arguments.

    ** The files and what they model

    Containers and algorithms of [AK]:
    - [Prelude]: literals, machine widths, [res], the tactics and the lemmas
      that all files share.
    - [BinarySearch], [InsertionSort], [QuickSort]: the headers of these names;
      both quick sorts, on collections and on iterators.
    - [HashTable], [HashTableFacts]: [AK/HashTable.h], open addressing with Robin
      Hood probing and deletion by shifting back, and its invariant.
    - [HashMap]: [AK/HashMap.h] over it; the class [MapInterface] with its laws
      [MapLaws] is what the cookie jar uses of a map.
    - [Time]: the calendar arithmetic and [Duration] of [AK/Time.h].

    Text:
    - [CharacterTypes]: [AK/CharacterTypes.h].
    - [Utf8]: [code_point_to_utf8] ([AK/UnicodeUtils.h]), [append_code_point]
      ([AK/StringBuilder.cpp]), [Utf8View] and its iterator ([AK/Utf8View.h],
      [AK/Utf8View.cpp]), [String::from_utf8_with_replacement_character].
      An iterator is the list of the bytes in front of it.
    - [Wtf8]: the strings that [Utf8View::validate] accepts, and
      [Utf8View::trim].
    - [Utf16], [CodeUnits]: the conversions from UTF-16 and the order of strings
      by code units.
    - [MemMem]: the bitap search of [AK/MemMem.h].
    - [Strings], [Tokens]: [AK/StringUtils.cpp], [AK/StringView.cpp], the integer
      formatter of [AK/Format.cpp] and the integer parser of
      [AK/StringConversions.cpp].
    - [Lexer]: [AK/GenericLexer.h].

    Numbers and JSON:
    - [FloatTables]: the two lookup tables for doubles of
      [AK/StringFloatingPointConversions.cpp], with certificates of them.
    - [FloatToDecimal]: the conversion of a double to its shortest decimal in the
      same file (Ryu), with [FloatExtractor<f64>] and [count_trailing_zeroes].  A
      double is its 64 bits.  [FloatFacts] is the arithmetic of
      [multiply_and_shift] and of the table entries, [FloatExact] that the digits
      that are removed are the exact ones, [FloatTheorems] the result as a
      rational number.
    - [FloatFormat]: how [AK/Format.cpp] prints a double for ["{}"], and how
      [AK/StringConversions.cpp] reads one.
    - [Json]: [AK/JsonValue], [JsonObject], [JsonArray], their serializers and
      [JsonParser.cpp]; [JsonFacts] that the parser is total, [JsonRoundtrip]
      parsing what was serialized.

    Encodings:
    - [TextCodec]: every encoder of [LibTextCodec/Encoder.cpp] as the sequence of
      its callbacks, the labels and output encodings of
      [LibTextCodec/Decoder.cpp], and the lookups the table generator writes.
    - [Decoders], [DecoderSafety], [DecoderRoundtrip]: every decoder of
      [LibTextCodec/Decoder.cpp], their safety, and decoding after encoding.

    HTTP and MIME:
    - [Http]: [LibHTTP/HTTP.cpp], [Method.cpp], [Header.cpp] and
      [HeaderList.cpp]; [HttpFacts] and [HeaderListFacts] their theorems.
    - [MimeType]: [LibWeb/MimeSniff/MimeType.cpp].
    - [MimeSniff]: [LibWeb/MimeSniff/Resource.cpp], tables included.

    URLs:
    - [Percent]: percent-encode sets, encoding and decoding ([LibURL/URL.cpp]),
      and encoding after an encoder ([LibURL/Parser.cpp]).
    - [Ipv4], [Ipv6]: the address parsers of [LibURL/Parser.cpp] and serializers
      of [LibURL/Host.cpp].
    - [Host]: [LibURL/Host.h], the host parser and [domain_to_ascii]
      ([LibURL/Parser.cpp]), [LibUnicode/IDNA.cpp].
    - [PublicSuffix]: the lookups of the generated public suffix data, and
      [Host::public_suffix] and [Host::registrable_domain].
    - [Origin]: [LibURL/Origin.h], [Origin.cpp] and [Site.cpp], with the hash.
    - [Url]: [LibURL/URL.h] and [URL.cpp]: the record, its accessors and
      mutators, and the serializers.
    - [UrlParser]: [LibURL/Parser.cpp], [Parser::basic_parse]: the local
      variables as the record [parser], one definition for each case of the
      [switch], the loop [run], and the entry points, with [URL::complete_url]
      and [URL::origin] on top.
    - [UrlFacts]: the invariant [url_ok] of URL records, and the serializers.
    - [UrlSafety]: the invariant of the state machine; each state keeps it.
    - [UrlTheorems], [UrlRoundtrip]: what follows for the parser and its callers,
      and parsing what the serializer writes.
    - [FormUrlencoded], [SearchParams], [QueryText]: form-urlencoded text and
      [URLSearchParams] ([LibWeb/DOMURL/URLSearchParams.cpp]).
    - [DomUrl]: [LibWeb/DOMURL/DOMURL.cpp]; [BlobEntry] (neither the parser nor
      the interface sets a blob entry), [UrlSetters] and [UrlFit] are the parser
      under a state override, [DomUrlTheorems] sequences of changes.

    URL patterns ([LibURL/Pattern]):
    - [PatternTokenizer]: [Tokenizer.cpp], with the lengths and substrings of
      [Utf8View] that it uses.
    - [PatternParts]: [Part], [Options], [String.cpp] (escaping, and generating a
      pattern string from parts) and [PatternParser.cpp]; [PatternFacts] its
      theorems.
    - [PatternCanonicalization]: [Canonicalization.cpp], the encoding callbacks
      of the components, which call the URL parser.
    - [PatternComponent]: [Component.cpp]: compiling parts to a regular
      expression and reading the groups of a match.
    - [PatternInit]: [Init.cpp], the dictionaries and their base URLs.
    - [PatternConstructor]: [ConstructorStringParser.cpp], the state machine over
      the tokens; [PatternCuts] what a constructor string says, as a relation
      between the tokens and the components; [PatternConstructorFacts] that the
      machine computes it.
    - [UrlPattern]: [Pattern.cpp]: [create], [match] and [has_regexp_groups].

    Cookies:
    - [Cookies], [CookieDates], [CookieFacts]: [LibWeb/Cookie/ParsedCookie.cpp]
      and [Cookie.cpp]: parsing, dates, matching.
    - [CookieJar], [CookieJarFacts], [CookieJarTheorems]:
      [LibWebView/CookieJar.cpp] over any map with [MapLaws].

    Style sheets ([LibWeb/CSS]):
    - [CssTokens]: [CharacterTypes.h], [Parser/Token.cpp], and the escapes,
      identifiers, strings and URLs of [Serialize.cpp].
    - [CssTokenizer]: [Parser/Tokenizer.cpp].  A method is a function in a state
      monad over [res], and its [goto]s and loops have a definition each.
    - [CssTokenizerFacts]: a program logic for the methods ([spec f cps Q a]: in
      front of [cps], after the bytes [a], [f] returns, having consumed some [x], a
      [v] with [Q x v]), a specification of each method, and of the whole.
    - [CssRoundtrip]: tokenizing what a token prints as.
    - [CssSyntax]: [Parser/TokenStream.h], [ComponentValue], [Types], the rule
      contexts, and the algorithms of [Parser/Parser.cpp] that consume component
      values, declarations, blocks and rules.  The template parameter of a stream is
      the class [StreamItem], its component values the class [ComponentSource].
    - [CssSyntaxFacts]: a program logic for the parser and the specification of each
      method, proved against [ComponentSourceLaws], which both kinds of streams
      implement; [CssSyntaxTheorems]: whole style sheets, and the methods that
      discard their result.

    The files call each other the way the code does: the URL parser calls the
    host parser, percent-encoding and the encoders; URL patterns call the URL
    parser for each component; the host parser calls the
    address parsers, percent-decoding and IDNA; the jar calls the cookie parser,
    the URL record and the map; sniffing calls the MIME parser, which calls the
    lexer; the CSS tokenizer calls the decoders and the reader of doubles; all of
    them use the string primitives.

    ** What the theorems show

    - Containers: both quick sorts (of fewer than 2^31 elements) and the
      insertion sort leave a sorted permutation; a hash map answers like a finite map under any operations.
    - Text: UTF-8 decoding inverts encoding and is safe on every byte string;
      replacement yields well-formed UTF-8; the bitap search finds the first
      occurrence; splitting and number formatting are exact; the lexer reads
      escaped code points and integers exactly.
    - Numbers: for every finite double the conversion to decimal reads its tables
      in range, ends, and returns a decimal that rounds to the double, that has
      no digit too many and is the closest of its length; the error of the table
      entries never shows, which the certificates reduce to one computation for
      each of the 326 and 291 entries.  What is printed of a double reads back as
      the double.
    - JSON: the parser returns on every UTF-8 text, with an error or a
      well-formed value, and gives back every value that the serializer wrote;
      only numbers can come back as another alternative, and doubles from 2^53 on
      as another number that rounds to them.
    - Encodings: each encoder and decoder returns on every input and stays in its
      tables (the UTF-16BE decoder unless its input is well-formed in the wrong
      byte order only), ASCII is unchanged, labels resolve idempotently, and
      decoding inverts encoding up to the substitutions of the encoder.
    - Percent-encoding: what is written is outside the set, decoding inverts it,
      and the two encoders agree on UTF-8.
    - Hosts: the address parsers are total (the IPv4 parser but for the empty
      string) and exact, the IPv6 serializer
      compresses the first longest run, and parsing inverts serializing for
      IPv4, IPv6 and all hosts; registrable domains, origins and sites are
      characterised.
    - The URL parser: it terminates, never stops the process and returns
      well-formed URLs only, from every byte string and base URL; special URLs
      have a host and a path; empty, query-only and fragment-only references
      resolve to what they should; serializing and computing the origin of a
      parsed URL never stop the process; a parsed URL is parsed back from its
      serialization.
    - The [URL] interface: no sequence of setters and of changes through
      [searchParams] stops the process, every getter returns, the two stay in
      step (but for tabs and newlines assigned to [search]), and the [href] parses
      back (but for an opaque path that ends in a space).
    - URL patterns: tokens cover the input without gaps; parsing a pattern string
      terminates with well-formed parts and distinct names; escaped text parses
      as itself; a compiled component has a name for each group; the constructor
      string parser is total on strings without a closing bracket, and cuts them
      up in order, completely and at the right delimiters; a pattern matches a URL
      iff the expression of every component matches its part of the URL, whatever
      the engine answers.
    - Cookies: parsing is total on UTF-8, for URLs whose path decodes to UTF-8,
      and keeps the limits, dates are exact, the jar keeps the rules of the
      storage model under every sequence of operations (of which only an expiry
      that moves entries stops the process), and lists what the retrieval model
      admits.
    - HTTP: a header list refines a map from names to lists of values; splitting
      respects quoted strings; ranges and lengths are read exactly.
    - MIME types: parsing is total, serializing round-trips; sniffing returns a
      well-formed type and respects [nosniff].
    - CSS: every byte string is decoded and tokenized, and the tokens are, in
      order and with their positions, the whole text; strings, identifiers,
      keywords and punctuation read back as what they were printed from.  Parsing
      a style sheet always returns, and what it returns is valid in its context;
      component values keep their text; the methods that discard their result read
      what the others do.
    - Places where the code does not do what it means to are theorems as well:
      overlong UTF-8, the ISO-2022-JP escape, U+FFFD in single-byte encodings, a
      trailing dot in [registrable_domain], the public suffix test of the cookie
      jar, the hash of origins, the byte order of [from_utf16_be], cookies that a
      script overwrites, cookies whose default path does not match, clients of the
      jar that are told of no cookies, expiry during a rehash, collections too
      large for the indices of a sort, ranges that overflow, a
      resource of whitespace that stops the sniffer, URL patterns that stop the
      process (a stray bracket, a port of a file URL, a capture of the pattern's
      own), generated pattern strings that do not stand for their parts, JSON
      strings that are not UTF-8 and stop the process, doubles that JSON gives
      back as another integer, infinities in JSON, the sign of a negative zero,
      CSS comments that are not closed, a carriage return at the end of a style
      sheet, CSS identifiers and hashes that are printed without the escapes they
      need, a closing brace in a list of component values, which can stop the
      process, a value that is only "!important", and the case of the names of
      nested at-rules.

    ** Bounds and fuel

    Loops that are not structural have fuel, and running out of it is [Crash] or
    a value that a theorem excludes.  The URL parser gets [parse_fuel n = 13 * (n
    + 2)] iterations for [n] bytes: there are 13 ranks of states, a step lowers
    the rank or moves the iterator, and going back lowers the rank
    ([run_terminates]).  Iterating over [n] bytes of UTF-8 takes at most [n]
    steps; splitting takes one more than the bytes; the ISO-2022-JP encoder puts
    an item back at most twice, so 8 is enough ([iso_2022_jp_item_total]); a
    decoder gets [4 * n + 8] steps, as it can put back at most three bytes for
    each it keeps; the IPv6 parser consumes a code point per step; the digits of
    a 64-bit number fit in its buffer of 128.  Inputs of the URL parser are
    shorter than 2^62 bytes, so that offsets into the decoded text do not wrap
    around.  The quick sorts recurse into parts that leave out a pivot, so the
    length of the collection is enough; their indices are 32-bit [int]s with the
    wrap-around written out; a probe of a hash table visits each
    bucket once; the loops of cookies, header values, MIME parameters and MP4
    brands move forward in each step, and the WebM loop stops at offset 38.
    The tokenizer and the parser of patterns move forward in each step, so the
    lengths of the input and of the token list are enough; the constructor
    string parser gets [constructor_fuel], six steps for each token: there
    are five ranks of states, and a step lowers the rank or moves forward.
    Pattern strings are shorter than 2^32 bytes, as the indices of the source have
    32 bits.  The digit loops of a double divide a 64-bit number by ten, so
    [digit_fuel = 21] is enough; the JSON parser gets [json_fuel n = 2 * n + 3]
    calls and iterations for [n] bytes, as each but the first follows a character.
    A loop of the CSS tokenizer gets one more than the bytes that are left, as each
    iteration but the last consumes a code point; a loop of the syntax parser, and
    the nesting of blocks, gets two more than the tokens.

    ** What is not modelled

    Validation errors only reach the debug log.  The depth of the native stack
    is not modelled; the parsers of JSON and of CSS blocks recurse with the
    nesting of their input and do not guard it.  [create_with_file_scheme] and
    [create_with_url_or_path] need [LexicalPath].  The Knuth-Morris-Pratt branch
    of [memmem] is for needles that no modelled caller has.  Ordered hash tables,
    which chain their buckets, are left out; the parameters of a MIME type are a
    list of entries instead.  [is_header_name] and [is_method] only run a regular
    expression.  The cookie database, the IPC encodings and the blob URL store
    are services around the modelled code.  [LibRegex] is a class, so what a
    regular expression matches is the engine's answer.  Of
    JSON, [JsonValue::equals] and the conversions to integer types, which cast
    doubles that the type cannot hold, and the overloads of [add] for basic types
    are left out; of the formatter, the 32-bit instance and formats with a
    precision, a width or another base.  The HTML tokenizer is a larger state
    machine over the same text primitives, with a token type, an entity table and
    a tree builder of its own.  Of CSS, what is built from the parsed rules
    (selectors, conditions, property values, the cascade) is left out, and with it
    the rest of [Serialize.cpp] and the transactions of token streams.  The rest of the browser (markup, scripts, layout, media, the
    user interface) is outside this core. *)

From stdpp Require Export base list list_numbers numbers option decidable tactics.
From stdpp Require Export strings.
From Stdlib Require Export ZArith Lia.
From Stdlib Require Ascii String.

#[export] Set Default Goal Selector "!".
#[global] Open Scope Z_scope.

(** ** Bytes and string literals

    A byte, a code unit and a code point are [Z]; every width the C++ code
    gives them is written out where it matters.  [ch] and [sv] turn a character
    or string literal of the C++ source (['x'], ["..."sv]) into its numeric
    value when the file is parsed. *)

Definition Z_of_ascii (a : Ascii.ascii) : Z := Z.of_N (Ascii.N_of_ascii a).

Definition bytes_of_string (s : string) : list Z :=
  Z_of_ascii <$> String.list_ascii_of_string s.

Definition Z_of_char (s : string) : Z := hd 0 (bytes_of_string s).

Declare Scope ak_scope.
Delimit Scope ak_scope with ak.
#[global] Open Scope ak_scope.

Notation "'ch' c" :=
  (ltac:(let v := eval vm_compute in (Z_of_char c%string) in exact v))
  (at level 1, c at level 0, only parsing) : ak_scope.
Notation "'sv' s" :=
  (ltac:(let v := eval vm_compute in (bytes_of_string s%string) in exact v))
  (at level 1, s at level 0, only parsing) : ak_scope.

Abbreviation bytes := (list Z).

(** A list whose elements all fit in a byte. *)
Definition is_byte (b : Z) : bool := (0 <=? b) && (b <? 256).
Abbreviation all_bytes := (Forall (fun b : Z => is_byte b = true)).

(** ** Fixed-width arithmetic: the wrap-around of the unsigned C++ types. *)

Definition u8 (z : Z) : Z := z mod 2 ^ 8.
Definition u16 (z : Z) : Z := z mod 2 ^ 16.
Definition u32 (z : Z) : Z := z mod 2 ^ 32.
Definition size_t (z : Z) : Z := z mod 2 ^ 64.

(** ** [VERIFY] as a value

    A C++ function that can stop the process ([VERIFY], [VERIFY_NOT_REACHED],
    [MUST], an out-of-range [Vector]/[Array] index) returns [res]: [Ret] is a
    normal return, [Crash] the aborted process. [Optional] stays [option]. *)

Inductive res (A : Type) : Type :=
| Ret (a : A)
| Crash.
Arguments Ret {A} a.
Arguments Crash {A}.

Definition res_bind {A B} (r : res A) (k : A -> res B) : res B :=
  match r with Ret a => k a | Crash => Crash end.

Definition verify {A} (b : bool) (k : res A) : res A := if b then k else Crash.

Definition unwrap {A} (o : option A) : res A :=
  match o with Some a => Ret a | None => Crash end.

Notation "'let*' x ':=' e 'in' k" := (res_bind e (fun x => k))
  (at level 10, x pattern, e at level 200, k at level 200)
  : ak_scope.

(** [Vector]/[Array] subscript: in range or the process stops. *)
Definition at_index {A} (l : list A) (i : nat) : res A := unwrap (l !! i).

(** ** Tactics *)

(** Break the innermost [match]/[if] of the goal. *)
Ltac break_match :=
  match goal with
  | |- context [match ?x with _ => _ end] =>
      lazymatch x with
      | context [match _ with _ => _ end] => fail
      | _ => destruct x eqn:?
      end
  end.

Ltac break_match_hyp H :=
  match type of H with
  | context [match ?x with _ => _ end] =>
      lazymatch x with
      | context [match _ with _ => _ end] => fail
      | _ => destruct x eqn:?
      end
  end.

(** Turn boolean arithmetic hypotheses into propositions and finish. *)
Ltac bool_to_prop :=
  repeat match goal with
  | H : _ && _ = true |- _ => apply andb_prop in H as [? ?]
  | H : _ || _ = false |- _ => apply orb_false_elim in H as [? ?]
  | H : negb _ = true |- _ => apply negb_true_iff in H
  | H : negb _ = false |- _ => apply negb_false_iff in H
  end.

Ltac blia := bool_to_prop; lia.

Create HintDb ak.
Create Rewrite HintDb ak.

(** ** Generic lemmas on lists, options and integers *)

Lemma forallb_Forall_iff {A} (p : A -> bool) (l : list A) :
  forallb p l = true <-> Forall (fun x => p x = true) l.
Proof. rewrite forallb_forall, List.Forall_forall. done. Qed.

Lemma forallb_app_iff {A} (p : A -> bool) (l1 l2 : list A) :
  forallb p (l1 ++ l2) = forallb p l1 && forallb p l2.
Proof. apply forallb_app. Qed.

Lemma drop_length_lt {A} (l : list A) (n : nat) :
  l <> [] -> (0 < n)%nat -> (length (drop n l) < length l)%nat.
Proof. intros Hl Hn. rewrite length_drop. destruct l; [done|]. simpl. lia. Qed.

(** Induction on the length of a list. *)
Lemma list_length_ind {A} (P : list A -> Prop) :
  (forall l, (forall l', (length l' < length l)%nat -> P l') -> P l) -> forall l, P l.
Proof.
  intros Hstep l. remember (length l) as n eqn:Hn. revert l Hn.
  induction n as [n IH] using lt_wf_ind. intros l ->. apply Hstep. eauto.
Qed.

Lemma drop_app_exact {A} (l1 l2 : list A) n :
  n = length l1 -> drop n (l1 ++ l2) = l2.
Proof. intros ->. apply drop_app_length. Qed.

Lemma at_index_ok {A} (l : list A) i : (i < length l)%nat -> exists x, at_index l i = Ret x.
Proof. intros [x Hx]%lookup_lt_is_Some. exists x. unfold at_index. by rewrite Hx. Qed.

Lemma existsb_false_forall {A} (p : A -> bool) (l : list A) :
  existsb p l = false <-> Forall (fun x => p x = false) l.
Proof.
  induction l as [|x l IH]; simpl; [by split|].
  rewrite Forall_cons, <- IH, orb_false_iff. done.
Qed.

Lemma u8_id z : 0 <= z < 256 -> u8 z = z.
Proof. intros. unfold u8. apply Z.mod_small. lia. Qed.

Lemma u16_id z : 0 <= z < 65536 -> u16 z = z.
Proof. intros. unfold u16. apply Z.mod_small. lia. Qed.

Lemma u32_id z : 0 <= z < 2 ^ 32 -> u32 z = z.
Proof. intros. unfold u32. apply Z.mod_small. lia. Qed.

Lemma u8_range z : 0 <= u8 z < 256.
Proof. unfold u8. apply Z.mod_pos_bound. lia. Qed.

Lemma u16_range z : 0 <= u16 z < 65536.
Proof. unfold u16. apply Z.mod_pos_bound. lia. Qed.

Lemma u32_range z : 0 <= u32 z < 2 ^ 32.
Proof. unfold u32. apply Z.mod_pos_bound. lia. Qed.

Lemma res_bind_ret {A B} (r : res A) (k : A -> res B) b :
  res_bind r k = Ret b -> exists a, r = Ret a /\ k a = Ret b.
Proof. destruct r; simpl; [eauto|done]. Qed.

(** A low part and a shifted high part do not overlap: [lor] is addition. *)
Lemma lor_shiftl_add hi lo n :
  0 <= n -> 0 <= lo < 2 ^ n -> Z.lor (Z.shiftl hi n) lo = hi * 2 ^ n + lo.
Proof.
  intros Hn Hlo. rewrite <- Z.shiftl_mul_pow2 by lia.
  rewrite <- (Z.add_lor_land (Z.shiftl hi n) lo).
  replace (Z.land (Z.shiftl hi n) lo) with 0; [lia|].
  symmetry. apply Z.bits_inj'. intros i Hi.
  rewrite Z.land_spec, Z.bits_0.
  destruct (Z.ltb_spec i n).
  - rewrite Z.shiftl_spec_low by lia. done.
  - rewrite <- (Z.mod_small lo (2 ^ n)) by lia.
    rewrite Z.mod_pow2_bits_high by lia. apply andb_false_r.
Qed.

Lemma land_ones_mod a n : 0 <= n -> Z.land a (2 ^ n - 1) = a mod 2 ^ n.
Proof. intros. rewrite <- Z.land_ones by lia. rewrite Z.ones_equiv, Z.sub_1_r. done. Qed.

#[export] Hint Rewrite @length_drop @length_app : ak.
