(* ===== verification/BinarySearch.v ===== *)
(** * Binary search: [AK/BinarySearch.h]

    The comparator is applied to the needle already; indices are natural
    numbers, the wrap-around of [middle - 1] being guarded by the code. *)

From S2P Require Import Prelude.

(** The loop of [AK::binary_search]; the result is whether an equal
    element was found, and [*nearby_index]. *)
Fixpoint binary_search_loop {A} (fuel : nat) (comparator : A -> Z) (haystack : list A)
    (low high : nat) : res (bool * nat) :=
  if (high <? low)%nat then Ret (false, Nat.min low high)
  else
    match fuel with
    | O => Crash
    | S fuel =>
        let middle := (low + (high - low) / 2)%nat in
        let* entry := at_index haystack middle in
        let comparison := comparator entry in
        if comparison <? 0 then
          if negb (middle =? 0)%nat then binary_search_loop fuel comparator haystack low (middle - 1)
          else Ret (false, Nat.min low high)
        else if 0 <? comparison then binary_search_loop fuel comparator haystack (middle + 1) high
        else Ret (true, middle)
    end.

Definition binary_search {A} (comparator : A -> Z) (haystack : list A) : res (bool * nat) :=
  match length haystack with
  | O => Ret (false, 0%nat)
  | S last => binary_search_loop (S last) comparator haystack 0 last
  end.

(** ** Facts *)

Section binary_search.
Context {A : Type} (comparator : A -> Z) (haystack : list A).

(** The haystack is sorted for the comparator: it goes from positive (the
    needle is greater) through at most one zero to negative. *)
Hypothesis sorted : forall i j x y,
  (i < j)%nat -> haystack !! i = Some x -> haystack !! j = Some y ->
  0 <= comparator y -> 0 < comparator x.

(** The position of the last element that is not greater than the needle. *)
Definition last_not_above (i : nat) : Prop :=
  (exists x, haystack !! i = Some x /\ 0 <= comparator x)
  /\ forall y, haystack !! S i = Some y -> comparator y < 0.

(** What the search promises of its two results. *)
Definition search_result (found : bool) (i : nat) : Prop :=
  (if found then exists x, haystack !! i = Some x /\ comparator x = 0
   else Forall (fun x => comparator x <> 0) haystack)
  /\ ((forall x, haystack !! 0%nat = Some x -> 0 <= comparator x) -> haystack <> [] -> last_not_above i).

(** The loop invariant: everything outside [low..high] is decided. *)
Definition decided (low high : nat) : Prop :=
  (forall i x, (i < low)%nat -> haystack !! i = Some x -> 0 < comparator x)
  /\ (forall i x, (high < i)%nat -> haystack !! i = Some x -> comparator x < 0).

Lemma decided_not_found low high : (high < low)%nat -> decided low high ->
  Forall (fun x => comparator x <> 0) haystack.
Proof.
  intros Hlt [Hb Ha]. apply Forall_lookup_2. intros i x Hx.
  destruct (decide (i < low)%nat).
  - specialize (Hb i x ltac:(lia) Hx). lia.
  - specialize (Ha i x ltac:(lia) Hx). lia.
Qed.

Lemma binary_search_loop_ok fuel low high :
  (S high - low <= fuel)%nat -> (low <= S high)%nat -> (high < length haystack)%nat ->
  decided low high ->
  exists found i, binary_search_loop fuel comparator haystack low high = Ret (found, i)
    /\ search_result found i.
Proof.
  revert low high. induction fuel as [|fuel IH]; intros low high Hfuel Hlow Hhigh Hdec;
    cbn [binary_search_loop]; destruct (Nat.ltb_spec high low) as [Hdone|Hgo]; [|lia| |].
  1, 2: eexists _, _; split; [done|]; split; [by eapply decided_not_found|]; intros Hfirst _;
    replace (Nat.min low high) with high by lia; destruct Hdec as [Hb Ha];
    destruct (lookup_lt_is_Some_2 haystack high Hhigh) as [x Hx];
    (split; [exists x; split; [done|]; specialize (Hb high x ltac:(lia) Hx); lia|]);
    intros y Hy; apply (Ha (S high)); [lia|done].
  cbv zeta. set (middle := (low + (high - low) / 2)%nat).
  assert (Hmid : (low <= middle <= high)%nat).
  { unfold middle. pose proof (Nat.Div0.div_le_upper_bound (high - low) 2 (high - low)). lia. }
  clearbody middle. destruct Hdec as [Hb Ha].
  destruct (lookup_lt_is_Some_2 haystack middle ltac:(lia)) as [x Hx].
  unfold at_index. rewrite Hx. cbn [unwrap res_bind].
  destruct (Z.ltb_spec (comparator x) 0) as [Hneg|Hpos].
  - assert (Hdec : forall i y, (middle <= i)%nat -> haystack !! i = Some y -> comparator y < 0).
    { intros i y Hi Hy. destruct (decide (i = middle)) as [->|]; [by simplify_eq|].
      pose proof (sorted middle i x y ltac:(lia) Hx Hy). lia. }
    destruct (Nat.eqb_spec middle 0) as [->|Hne]; cbn [negb].
    + eexists _, _. split; [done|]. split.
      * apply Forall_lookup_2. intros i y Hy. specialize (Hdec i y ltac:(lia) Hy). lia.
      * intros Hfirst. specialize (Hfirst x Hx). lia.
    + apply IH; [lia..|]. split; [done|]. intros i y Hi Hy. apply (Hdec i); [lia|done].
  - destruct (Z.ltb_spec 0 (comparator x)).
    + apply IH; [lia..|]. split; [|done]. intros i y Hi Hy.
      destruct (decide (i = middle)) as [->|]; [by simplify_eq|].
      apply (sorted i middle y x); [lia|done|done|lia].
    + assert (comparator x = 0) by lia. eexists _, _. split; [done|]. split; [by exists x|].
      intros _ _. split; [exists x; split; [done|lia]|]. intros y Hy.
      pose proof (sorted middle (S middle) x y ltac:(lia) Hx Hy). lia.
Qed.

Lemma binary_search_ok :
  exists found i, binary_search comparator haystack = Ret (found, i) /\ search_result found i.
Proof.
  unfold binary_search. destruct (length haystack) as [|last] eqn:Hlen.
  - apply nil_length_inv in Hlen. eexists _, _. split; [done|]. split; [by rewrite Hlen|done].
  - apply binary_search_loop_ok; [lia|lia|lia|]. split; [lia|]. intros i x Hi Hx.
    apply lookup_lt_Some in Hx. lia.
Qed.

(** Membership: an element equal to the needle is found exactly when there is one. *)
Lemma binary_search_found :
  exists found i, binary_search comparator haystack = Ret (found, i)
    /\ (found = true <-> Exists (fun x => comparator x = 0) haystack).
Proof.
  destruct binary_search_ok as (found & i & Heq & Hres & _). exists found, i. split; [done|].
  destruct found.
  - split; [|done]. intros _. destruct Hres as (x & Hx & Hz). apply Exists_exists. exists x.
    split; [by eapply list_elem_of_lookup_2|done].
  - split; [done|]. intros Hex. exfalso. apply Exists_exists in Hex as (x & Hin & Hz).
    rewrite Forall_forall in Hres. by apply (Hres x).
Qed.
End binary_search.
