(* ===== verification/HashTable.v ===== *)
(** * Hash tables: [AK/HashTable.h]

    [HashTable] without ordered iteration: a closed hash table with Robin Hood
    probing.  Buckets, the stored hash and the probe lengths in the bucket state
    are modelled as they are laid out; a pointer to a bucket is its index.  The
    element type comes with its [TraitsForT] as a class, the allocator's rounding
    [kmalloc_good_size] is a parameter.  A table that fits in memory has fewer
    than 2^56 buckets, so the arithmetic on sizes does not wrap around and is on
    [nat].  An endless loop, a read of a slot that holds no value and an index
    outside of the buckets are [Crash]. *)

From S2P Require Import Prelude.

(** [TraitsForT]: the hash is a [u32]. *)
Class HashTraits (T : Type) := {
  traits_hash : T -> Z;
  traits_equals : T -> T -> bool;
  may_have_slow_equality_check : bool
}.

(** What a table relies on: an equivalence that the hash respects. *)
Class HashTraitsLaws (T : Type) `{HashTraits T} : Prop := {
  traits_equals_refl x : traits_equals x x = true;
  traits_equals_sym x y : traits_equals x y = true -> traits_equals y x = true;
  traits_equals_trans x y z :
    traits_equals x y = true -> traits_equals y z = true -> traits_equals x z = true;
  traits_hash_equals x y : traits_equals x y = true -> traits_hash x = traits_hash y
}.

(** The allocator: [kmalloc_good_size] rounds up, and [sizeof(BucketType)]. *)
Class Allocator := { kmalloc_good_size : nat -> nat; sizeof_bucket : nat }.
Class AllocatorLaws `{Allocator} : Prop := {
  good_size_ge n : (n <= kmalloc_good_size n)%nat;
  sizeof_bucket_pos : (0 < sizeof_bucket)%nat
}.

Inductive HashSetResult := InsertedNewEntry | ReplacedExistingEntry | KeptExistingEntry.
Inductive HashSetExistingEntryBehavior := ExistingEntry_Keep | ExistingEntry_Replace.

(** [BucketState], a byte: free, the probe length plus one, or a probe length
    that has to be calculated. *)
Definition BucketState_Free : Z := 0.
Definition BucketState_CalculateLength : Z := 255.

Definition grow_capacity_at_least : nat := 8.
Definition grow_at_load_factor_percent : nat := 80.
Definition grow_capacity_increase_percent : nat := 60.

(** [slot] is the storage: a value, or bytes that are no value. *)
Record Bucket (T : Type) := mkBucket { b_state : Z; b_hash : Z; b_slot : option T }.
Arguments mkBucket {T}.
Arguments b_state {T}.
Arguments b_hash {T}.
Arguments b_slot {T}.

Record HashTable (T : Type) := mkTable {
  m_buckets : list (Bucket T);
  m_size : nat;
  m_capacity : nat
}.
Arguments mkTable {T}.
Arguments m_buckets {T}.
Arguments m_size {T}.
Arguments m_capacity {T}.

Section table.
Context {T : Type} `{HashTraits T} `{Allocator}.
Implicit Types (t : HashTable T) (b : Bucket T) (v : T).

Definition empty_table : HashTable T := mkTable [] 0 0.

(** A bucket of memory that [kcalloc] returns *)
Definition zeroed_bucket : Bucket T := mkBucket 0 0 None.

Definition is_free b : bool := b_state b =? BucketState_Free.

(** [StoredHash::set], [StoredHash::check] *)
Definition hash_set b (h : Z) : Z := if may_have_slow_equality_check then h else b_hash b.
Definition hash_check b (h : Z) : bool := if may_have_slow_equality_check then b_hash b =? h else true.

Definition table_is_empty t : bool := (m_size t =? 0)%nat.

(** [if (++index == m_capacity) index = 0] *)
Definition next_index (capacity index : nat) : nat :=
  if (S index =? capacity)%nat then 0%nat else S index.

(** [hash % m_capacity] *)
Definition bucket_index_of (capacity : nat) (hash : Z) : nat := Z.to_nat (hash mod Z.of_nat capacity).

Definition bucket_state_for_probe_length (probe_length : nat) : Z :=
  if (253 <? probe_length)%nat then BucketState_CalculateLength else Z.of_nat probe_length + 1.

Definition used_bucket_probe_length (capacity index : nat) b : res nat :=
  verify (negb (is_free b))
    (if b_state b =? BucketState_CalculateLength then
       let* v := unwrap (b_slot b) in
       let ideal_bucket_index := bucket_index_of capacity (traits_hash v) in
       if (index <? ideal_bucket_index)%nat then Ret (capacity + index - ideal_bucket_index)%nat
       else Ret (index - ideal_bucket_index)%nat
     else Ret (Z.to_nat (b_state b - 1))).

(** ** Looking up *)

Fixpoint lookup_loop (fuel : nat) t (hash : Z) (predicate : T -> bool) (index : nat)
    : res (option nat) :=
  match fuel with
  | O => Crash
  | S fuel =>
      let* bucket := at_index (m_buckets t) index in
      if is_free bucket then Ret None
      else
        let* v := unwrap (b_slot bucket) in
        if hash_check bucket hash && predicate v then Ret (Some index)
        else lookup_loop fuel t hash predicate (next_index (m_capacity t) index)
  end.

Definition lookup_with_hash t (hash : Z) (predicate : T -> bool) : res (option nat) :=
  if table_is_empty t then Ret None
  else lookup_loop (m_capacity t) t hash predicate (bucket_index_of (m_capacity t) hash).

(** [find(T const&)]; the iterator is the index of its bucket, [end()] is [None]. *)
Definition table_find t v : res (option nat) :=
  if table_is_empty t then Ret None
  else lookup_with_hash t (traits_hash v) (fun entry => traits_equals entry v).

Definition contains_value t v : res bool :=
  let* it := table_find t v in Ret (match it with Some _ => true | None => false end).

(** Iteration: the values of the used buckets, in the order of the buckets. *)
Definition used_value b : option T := if is_free b then None else b_slot b.
Definition table_values t : list T := omap used_value (m_buckets t).

(** ** Writing *)

(** The loop that finds a new bucket for the one that was displaced. *)
Fixpoint displace (fuel capacity : nat) (buckets : list (Bucket T)) (bucket_index probe_length : nat)
    (bucket_to_move : Bucket T) : res (list (Bucket T)) :=
  match fuel with
  | O => Crash
  | S fuel =>
      let bucket_index := next_index capacity bucket_index in
      let* bucket := at_index buckets bucket_index in
      let probe_length := S probe_length in
      let moved := mkBucket (bucket_state_for_probe_length probe_length)
                     (b_hash bucket_to_move) (b_slot bucket_to_move) in
      if is_free bucket then Ret (<[bucket_index := moved]> buckets)
      else
        let* target_probe_length := used_bucket_probe_length capacity bucket_index bucket in
        if (target_probe_length <? probe_length)%nat then
          displace fuel capacity (<[bucket_index := moved]> buckets) bucket_index
            target_probe_length bucket
        else displace fuel capacity buckets bucket_index probe_length bucket_to_move
  end.

Fixpoint lookup_for_writing_loop (fuel : nat) t (hash : Z) (predicate : T -> bool)
    (existing_entry_behavior : HashSetExistingEntryBehavior) (bucket_index probe_length : nat)
    : res (HashSetResult * nat * HashTable T) :=
  match fuel with
  | O => Crash
  | S fuel =>
      let* bucket := at_index (m_buckets t) bucket_index in
      let claimed := mkBucket (bucket_state_for_probe_length probe_length)
                       (hash_set bucket hash) (b_slot bucket) in
      let buckets := <[bucket_index := claimed]> (m_buckets t) in
      if is_free bucket then
        Ret (InsertedNewEntry, bucket_index, mkTable buckets (S (m_size t)) (m_capacity t))
      else
        let* v := unwrap (b_slot bucket) in
        if hash_check bucket hash && predicate v then
          Ret (match existing_entry_behavior with
               | ExistingEntry_Replace => ReplacedExistingEntry
               | ExistingEntry_Keep => KeptExistingEntry
               end, bucket_index, t)
        else
          let* target_probe_length := used_bucket_probe_length (m_capacity t) bucket_index bucket in
          if (target_probe_length <? probe_length)%nat then
            let* buckets :=
              displace (m_capacity t) (m_capacity t) buckets bucket_index target_probe_length bucket in
            Ret (InsertedNewEntry, bucket_index, mkTable buckets (S (m_size t)) (m_capacity t))
          else
            lookup_for_writing_loop fuel t hash predicate existing_entry_behavior
              (next_index (m_capacity t) bucket_index) (S probe_length)
  end.

Definition lookup_for_writing t (hash : Z) (predicate : T -> bool)
    (existing_entry_behavior : HashSetExistingEntryBehavior) : res (HashSetResult * nat * HashTable T) :=
  lookup_for_writing_loop (m_capacity t) t hash predicate existing_entry_behavior
    (bucket_index_of (m_capacity t) hash) 0.

(** Construct or assign the value in the slot of a bucket. *)
Definition write_slot t (index : nat) v : HashTable T :=
  mkTable (alter (fun b => mkBucket (b_state b) (b_hash b) (Some v)) index (m_buckets t))
    (m_size t) (m_capacity t).

Definition write_value t v (existing_entry_behavior : HashSetExistingEntryBehavior)
    : res (HashSetResult * HashTable T) :=
  let* (result, index, t) :=
    lookup_for_writing t (traits_hash v) (fun candidate => traits_equals candidate v)
      existing_entry_behavior in
  match result with
  | ReplacedExistingEntry | InsertedNewEntry => Ret (result, write_slot t index v)
  | KeptExistingEntry => Ret (result, t)
  end.

(** ** Growing *)

Definition should_grow t : bool :=
  (m_capacity t * grow_at_load_factor_percent <=? (m_size t + 1) * 100)%nat.

Fixpoint write_values t (values : list T) : res (HashTable T) :=
  match values with
  | [] => Ret t
  | v :: values => let* (_, t) := write_value t v ExistingEntry_Keep in write_values t values
  end.

(** [try_rehash]; memory for the new buckets is always available. *)
Definition rehash t (new_capacity : nat) : res (HashTable T) :=
  let new_capacity := max new_capacity (m_capacity t + grow_capacity_at_least) in
  let new_capacity := (kmalloc_good_size (sizeof_bucket * new_capacity) / sizeof_bucket)%nat in
  verify (m_size t <=? new_capacity)%nat
    (let new_buckets := replicate new_capacity zeroed_bucket in
     match m_buckets t with
     | [] => Ret (mkTable new_buckets (m_size t) new_capacity)
     | _ => write_values (mkTable new_buckets 0 new_capacity) (table_values t)
     end).

Definition ensure_capacity t (capacity : nat) : res (HashTable T) :=
  let required_capacity := (capacity * 100 / grow_at_load_factor_percent + 1)%nat in
  if (required_capacity <=? m_capacity t)%nat then Ret t else rehash t required_capacity.

Definition grow t : res (HashTable T) :=
  if should_grow t then rehash t (m_capacity t * (100 + grow_capacity_increase_percent) / 100)
  else Ret t.

Definition table_set t v (existing_entry_behavior : HashSetExistingEntryBehavior)
    : res (HashSetResult * HashTable T) :=
  let* t := grow t in write_value t v existing_entry_behavior.

(** [ensure(hash, predicate, initialization_callback, behavior)] *)
Definition table_ensure t (hash : Z) (predicate : T -> bool) (initialization_callback : unit -> T)
    (existing_entry_behavior : HashSetExistingEntryBehavior) : res (nat * HashTable T) :=
  let* t := grow t in
  let* (result, index, t) := lookup_for_writing t hash predicate existing_entry_behavior in
  match result with
  | InsertedNewEntry | ReplacedExistingEntry => Ret (index, write_slot t index (initialization_callback tt))
  | KeptExistingEntry => Ret (index, t)
  end.

(** ** Deleting *)

(** The loop that shifts the following buckets up; the last bucket becomes free. *)
Fixpoint shift_up (fuel capacity : nat) (buckets : list (Bucket T)) (shift_to_index : nat)
    : res (list (Bucket T)) :=
  match fuel with
  | O => Crash
  | S fuel =>
      let shift_from_index := next_index capacity shift_to_index in
      let free_last := alter (fun b => mkBucket BucketState_Free (b_hash b) (b_slot b)) shift_to_index buckets in
      let* bucket := at_index buckets shift_from_index in
      if is_free bucket then Ret free_last
      else
        let* shift_from_probe_length := used_bucket_probe_length capacity shift_from_index bucket in
        if (shift_from_probe_length =? 0)%nat then Ret free_last
        else
          shift_up fuel capacity
            (<[shift_to_index := mkBucket (bucket_state_for_probe_length (shift_from_probe_length - 1))
                                   (b_hash bucket) (b_slot bucket)]> buckets) shift_from_index
  end.

Definition delete_bucket t (index : nat) : res (HashTable T) :=
  let* bucket := at_index (m_buckets t) index in
  verify (negb (is_free bucket))
    (let* buckets := shift_up (m_capacity t) (m_capacity t) (m_buckets t) index in
     Ret (mkTable buckets (m_size t - 1) (m_capacity t))).

Definition table_remove t v : res (bool * HashTable T) :=
  let* it := table_find t v in
  match it with
  | Some index => let* t := delete_bucket t index in Ret (true, t)
  | None => Ret (false, t)
  end.

(** The loop of [take_all_matching]: an index is evaluated again when a bucket
    was shifted up to it. *)
Fixpoint take_all_loop (fuel : nat) t (predicate : T -> bool) (i : nat) (values : list T)
    : res (list T * HashTable T) :=
  match fuel with
  | O => Crash
  | S fuel =>
      if (i <? m_capacity t)%nat then
        let* bucket := at_index (m_buckets t) i in
        if is_free bucket then take_all_loop fuel t predicate (S i) values
        else
          let* v := unwrap (b_slot bucket) in
          if negb (predicate v) then take_all_loop fuel t predicate (S i) values
          else
            let* t := delete_bucket t i in
            let* bucket := at_index (m_buckets t) i in
            take_all_loop fuel t predicate (if is_free bucket then S i else i) (values ++ [v])
      else Ret (values, t)
  end.

Definition take_all_matching t (predicate : T -> bool) : res (list T * HashTable T) :=
  take_all_loop (m_capacity t + m_size t + 1) t predicate 0 [].

Definition table_remove_all_matching t (predicate : T -> bool) : res (bool * HashTable T) :=
  let* (values, t) := take_all_matching t predicate in
  Ret (match values with [] => false | _ => true end, t).

Definition clear_with_capacity t : HashTable T :=
  if (m_capacity t =? 0)%nat then t
  else mkTable (replicate (m_capacity t) zeroed_bucket) 0 (m_capacity t).

(** The copy constructor *)
Definition table_copy t : res (HashTable T) :=
  let* fresh := rehash empty_table (m_capacity t) in
  foldl (fun acc v => let* acc := acc in let* (_, acc) := table_set acc v ExistingEntry_Replace in Ret acc)
    (Ret fresh) (table_values t).

End table.
