(* ===== verification/HashTableFacts.v ===== *)
(** * Hash tables: the invariant and the correctness of every operation

    The invariant [wf_table] says that each used bucket knows its probe length,
    that no two buckets hold equal values, and the Robin Hood property: the rank
    of a bucket (the probe length plus one, 0 for a free bucket) exceeds that of
    its predecessor by at most one.  Every operation keeps it, terminates, and
    does to the collection of values what it should. *)

From S2P Require Import Prelude HashTable.
From stdpp Require Import sorting.
Local Open Scope nat_scope.

(** ** Positions on the ring of buckets *)

(** The probe length of a value with ideal index [h] in bucket [i] *)
Definition dist (cap h i : nat) : nat := if i <? h then cap + i - h else i - h.

(** The bucket that is reached from [i] after [k] steps *)
Definition pos (cap i k : nat) : nat := if i + k <? cap then i + k else i + k - cap.

Ltac ring_lia :=
  unfold dist, pos, next_index in *;
  repeat match goal with
  | |- context [(?a <? ?b)] => destruct (Nat.ltb_spec a b)
  | |- context [(?a =? ?b)] => destruct (Nat.eqb_spec a b)
  | H : context [(?a <? ?b)] |- _ => destruct (Nat.ltb_spec a b)
  | H : context [(?a =? ?b)] |- _ => destruct (Nat.eqb_spec a b)
  end; try lia.

Section ring.
Context (cap : nat).

Lemma next_lt i : i < cap -> next_index cap i < cap.
Proof. intros. ring_lia. Qed.

Lemma dist_lt h i : h < cap -> i < cap -> dist cap h i < cap.
Proof. intros. ring_lia. Qed.

Lemma pos_lt i k : i < cap -> k < cap -> pos cap i k < cap.
Proof. intros. ring_lia. Qed.

Lemma pos_0 i : i < cap -> pos cap i 0 = i.
Proof. intros. ring_lia. Qed.

Lemma pos_S i k : i < cap -> S k < cap -> pos cap i (S k) = next_index cap (pos cap i k).
Proof. intros. ring_lia. Qed.

Lemma pos_next i k : i < cap -> S k < cap -> pos cap (next_index cap i) k = pos cap i (S k).
Proof. intros. ring_lia. Qed.

Lemma dist_self h : dist cap h h = 0.
Proof. ring_lia. Qed.

Lemma dist_next h i :
  h < cap -> i < cap -> S (dist cap h i) < cap -> dist cap h (next_index cap i) = S (dist cap h i).
Proof. intros. ring_lia. Qed.

Lemma dist_next_0 h i : h < cap -> i < cap -> S (dist cap h i) = cap -> next_index cap i = h.
Proof. intros. ring_lia. Qed.

Lemma dist_next_pos h i :
  h < cap -> i < cap -> 0 < dist cap h (next_index cap i) ->
  S (dist cap h i) = dist cap h (next_index cap i).
Proof. intros. ring_lia. Qed.

Lemma dist_pos h k : h < cap -> k < cap -> dist cap h (pos cap h k) = k.
Proof. intros. ring_lia. Qed.

Lemma pos_dist h i : h < cap -> i < cap -> pos cap h (dist cap h i) = i.
Proof. intros. ring_lia. Qed.

Lemma pos_inj i k k' : i < cap -> k < cap -> k' < cap -> pos cap i k = pos cap i k' -> k = k'.
Proof. intros. ring_lia. Qed.

Lemma next_inj i j : i < cap -> j < cap -> next_index cap i = next_index cap j -> i = j.
Proof. intros. ring_lia. Qed.

Lemma next_neq i : i < cap -> 1 < cap -> next_index cap i <> i.
Proof. intros. ring_lia. Qed.

(** Every bucket has a predecessor. *)
Lemma prev_exists i : i < cap -> exists j, j < cap /\ next_index cap j = i.
Proof. intros Hi. exists (if i =? 0 then cap - 1 else i - 1). ring_lia. Qed.

End ring.

Lemma bucket_index_lt cap h : 0 < cap -> bucket_index_of cap h < cap.
Proof. intros. unfold bucket_index_of. pose proof (Z.mod_pos_bound h (Z.of_nat cap)). lia. Qed.

Section facts.
Context {T : Type} `{HashTraitsLaws T} `{AllocatorLaws}.
Implicit Types (B : list (Bucket T)) (b : Bucket T) (v w : T) (t : HashTable T).

(** ** The invariant *)

Definition values_of B : list T := omap used_value B.
Definition value_at B (i : nat) : option T := B !! i ≫= used_value.

Definition probe (cap : nat) v (i : nat) : nat := dist cap (bucket_index_of cap (traits_hash v)) i.

Definition rank B (i : nat) : nat :=
  match value_at B i with Some v => S (probe (length B) v i) | None => 0 end.

(** Bucket [b] stores [v] and is fit for index [i]. *)
Record holds (cap i : nat) b v : Prop := {
  holds_slot : b_slot b = Some v;
  holds_state : b_state b = bucket_state_for_probe_length (probe cap v i);
  holds_hash : may_have_slow_equality_check = true -> b_hash b = traits_hash v
}.

Definition bucket_ok (cap i : nat) b : Prop := is_free b = true \/ exists v, holds cap i b v.

(** No two values of a list are equal. *)
Fixpoint distinct (l : list T) : Prop :=
  match l with
  | [] => True
  | v :: l => Forall (fun w => traits_equals v w = false) l /\ distinct l
  end.

Record wf_buckets B : Prop := {
  wf_ok i b : B !! i = Some b -> bucket_ok (length B) i b;
  wf_robin i : i < length B -> rank B (next_index (length B) i) <= S (rank B i)
}.

Record wf_table t : Prop := {
  wf_capacity : m_capacity t = length (m_buckets t);
  wf_inner : wf_buckets (m_buckets t);
  wf_distinct : distinct (table_values t);
  wf_size : m_size t = length (table_values t);
  wf_room : m_size t < m_capacity t \/ m_capacity t = 0
}.

(** ** Buckets *)

Lemma state_for_probe_length n : bucket_state_for_probe_length n <> 0%Z.
Proof. unfold bucket_state_for_probe_length, BucketState_CalculateLength. destruct (_ <? _); lia. Qed.

Lemma holds_used cap i b v : holds cap i b v -> is_free b = false.
Proof. intros [_ Hs _]. unfold is_free. rewrite Hs. apply Z.eqb_neq, state_for_probe_length. Qed.

Lemma holds_value cap i b v : holds cap i b v -> used_value b = Some v.
Proof. intros Hb. unfold used_value. rewrite (holds_used _ _ _ _ Hb). apply (holds_slot _ _ _ _ Hb). Qed.

Lemma holds_probe_length cap i b v :
  holds cap i b v -> used_bucket_probe_length cap i b = Ret (probe cap v i).
Proof.
  intros Hb. pose proof (holds_used _ _ _ _ Hb) as Hf. destruct Hb as [Hsl Hst _].
  unfold used_bucket_probe_length. rewrite Hf, Hst, Hsl. simpl.
  assert (Hp : (if i <? bucket_index_of cap (traits_hash v)
                then Ret (cap + i - bucket_index_of cap (traits_hash v))
                else Ret (i - bucket_index_of cap (traits_hash v))) = Ret (probe cap v i)).
  { unfold probe, dist. by destruct (_ <? _). }
  rewrite Hp. generalize (probe cap v i). intros p.
  unfold bucket_state_for_probe_length, BucketState_CalculateLength.
  destruct (Nat.ltb_spec 253 p); [done|].
  replace (Z.of_nat p + 1 =? 255)%Z with false by (symmetry; apply Z.eqb_neq; lia).
  f_equal. lia.
Qed.

Lemma holds_check cap i b v h : holds cap i b v -> h = traits_hash v -> hash_check b h = true.
Proof.
  intros [_ _ Hh] ->. unfold hash_check. destruct may_have_slow_equality_check eqn:E; [|done].
  rewrite Hh by done. apply Z.eqb_refl.
Qed.

Lemma bucket_ok_used cap i b v : bucket_ok cap i b -> used_value b = Some v -> holds cap i b v.
Proof.
  unfold used_value. intros [->|[w Hw]]; [done|].
  rewrite (holds_used _ _ _ _ Hw), (holds_slot _ _ _ _ Hw). by intros [= ->].
Qed.

Lemma bucket_ok_not_free cap i b : bucket_ok cap i b -> is_free b = false -> exists v, holds cap i b v.
Proof. intros [->|?]; done. Qed.

(** ** Updating one bucket *)

Lemma value_at_lookup B i v :
  value_at B i = Some v <-> exists b, B !! i = Some b /\ used_value b = Some v.
Proof. unfold value_at. apply bind_Some. Qed.

Lemma value_at_insert B i b j :
  i < length B -> value_at (<[i := b]> B) j = if decide (i = j) then used_value b else value_at B j.
Proof.
  intros Hi. unfold value_at. case_decide as E.
  - subst. by rewrite list_lookup_insert_eq by done.
  - by rewrite list_lookup_insert_ne by done.
Qed.

Lemma rank_insert B i b j :
  i < length B ->
  rank (<[i := b]> B) j =
    if decide (i = j)
    then match used_value b with Some v => S (probe (length B) v i) | None => 0 end
    else rank B j.
Proof.
  intros Hi. unfold rank. rewrite value_at_insert, length_insert by done.
  case_decide; [subst|]; done.
Qed.

Lemma values_of_middle B i b0 b :
  B !! i = Some b0 ->
  exists l1 l2, values_of B = l1 ++ option_list (used_value b0) ++ l2
    /\ values_of (<[i := b]> B) = l1 ++ option_list (used_value b) ++ l2.
Proof.
  intros Hi. exists (values_of (take i B)), (values_of (drop (S i) B)).
  unfold values_of. split.
  - rewrite <- (take_drop_middle B i b0 Hi) at 1. rewrite omap_app. simpl. by destruct (used_value b0).
  - rewrite insert_take_drop by (by eapply lookup_lt_Some). rewrite omap_app. simpl. by destruct (used_value b).
Qed.

Lemma values_insert_free B i b0 b v :
  B !! i = Some b0 -> used_value b0 = None -> used_value b = Some v ->
  values_of (<[i := b]> B) ≡ₚ v :: values_of B.
Proof.
  intros Hi Hb0 Hb. destruct (values_of_middle B i b0 b Hi) as (l1 & l2 & -> & ->).
  rewrite Hb0, Hb. simpl. by rewrite Permutation_middle.
Qed.

Lemma values_insert_used B i b0 b v w :
  B !! i = Some b0 -> used_value b0 = Some w -> used_value b = Some v ->
  w :: values_of (<[i := b]> B) ≡ₚ v :: values_of B.
Proof.
  intros Hi Hb0 Hb. destruct (values_of_middle B i b0 b Hi) as (l1 & l2 & -> & ->).
  rewrite Hb0, Hb. simpl. rewrite <- !Permutation_middle. apply Permutation_swap.
Qed.

Lemma values_delete B i b0 b w :
  B !! i = Some b0 -> used_value b0 = Some w -> used_value b = None ->
  values_of B ≡ₚ w :: values_of (<[i := b]> B).
Proof.
  intros Hi Hb0 Hb. destruct (values_of_middle B i b0 b Hi) as (l1 & l2 & -> & ->).
  rewrite Hb0, Hb. simpl. by rewrite Permutation_middle.
Qed.

(** A bucket that is fit for its place and keeps the Robin Hood property may be
    written to it. *)
Lemma wf_insert B i b v :
  wf_buckets B -> i < length B -> holds (length B) i b v -> rank B i <= S (probe (length B) v i) ->
  (forall j, j < length B -> next_index (length B) j = i -> j <> i -> probe (length B) v i <= rank B j) ->
  wf_buckets (<[i := b]> B).
Proof.
  intros [Hok Hrobin] Hi Hb Hge Hprev. pose proof (holds_value _ _ _ _ Hb) as Hv. split.
  - intros j b' Hj. rewrite length_insert. destruct (decide (i = j)) as [->|Hne].
    + rewrite list_lookup_insert_eq in Hj by done. injection Hj as <-. right. eauto.
    + rewrite list_lookup_insert_ne in Hj by done. eauto.
  - intros j. rewrite length_insert. intros Hj. rewrite !rank_insert by done. rewrite Hv.
    specialize (Hrobin j Hj). case_decide as E1; case_decide as E2.
    + lia.
    + apply le_n_S. apply Hprev; congruence || lia.
    + subst j. lia.
    + done.
Qed.

(** ** The Robin Hood property along the ring *)

Definition free_at B (i : nat) : Prop := exists b, B !! i = Some b /\ is_free b = true.

Lemma free_at_value B i : free_at B i -> value_at B i = None.
Proof. intros (b & Hb & Hf). unfold value_at, used_value. rewrite Hb. simpl. by rewrite Hf. Qed.

Lemma free_at_rank B i : free_at B i -> rank B i = 0.
Proof. intros Hf. unfold rank. by rewrite free_at_value. Qed.

Lemma robin_back B i n k :
  wf_buckets B -> i < length B -> n + k < length B ->
  rank B (pos (length B) i (n + k)) <= rank B (pos (length B) i n) + k.
Proof.
  intros Hwf Hi. induction k as [|k IH]; intros Hk; [rewrite Nat.add_0_r; lia|].
  rewrite Nat.add_succ_r, pos_S by lia.
  assert (Hn : n + k < length B) by lia.
  pose proof (wf_robin _ Hwf _ (pos_lt _ _ _ Hi Hn)). specialize (IH Hn). lia.
Qed.

(** A free bucket bounds the ranks in front of it. *)
Lemma free_bound B i k :
  wf_buckets B -> i < length B -> 0 < k < length B -> free_at B (pos (length B) i k) ->
  rank B i <= length B - k.
Proof.
  intros Hwf Hi Hk Hf. set (cap := length B) in *.
  pose proof (robin_back B (next_index cap i) (k - 1) (cap - k) Hwf (next_lt _ _ Hi)) as Hr.
  fold cap in Hr. replace (k - 1 + (cap - k)) with (cap - 1) in Hr by lia.
  rewrite (pos_next cap i (k - 1)) in Hr by lia. replace (S (k - 1)) with k in Hr by lia.
  replace (pos cap (next_index cap i) (cap - 1)) with i in Hr by ring_lia.
  rewrite (free_at_rank _ _ Hf) in Hr. lia.
Qed.

(** A value that is [p] steps from its ideal index is preceded by used buckets. *)
Lemma rank_before B i v k :
  wf_buckets B -> value_at B i = Some v -> k <= probe (length B) v i ->
  S k <= rank B (pos (length B) (bucket_index_of (length B) (traits_hash v)) k).
Proof.
  intros Hwf Hv Hk. pose proof Hv as (b & Hb & _)%value_at_lookup.
  apply lookup_lt_Some in Hb. set (cap := length B) in *. set (h := bucket_index_of cap _) in *.
  assert (Hh : h < cap) by (apply bucket_index_lt; lia).
  assert (Hp : probe cap v i < cap) by (by apply dist_lt).
  pose proof (robin_back B h k (probe cap v i - k) Hwf Hh ltac:(fold cap; lia)) as Hr. fold cap in Hr.
  replace (k + (probe cap v i - k)) with (probe cap v i) in Hr by lia.
  unfold probe in Hr at 1. fold h in Hr. rewrite pos_dist in Hr by done.
  unfold rank in Hr at 1. rewrite Hv in Hr. fold cap in Hr. lia.
Qed.

(** ** Displacing buckets *)

(** The bucket in hand stores [v]; its state is written when it is put down. *)
Definition carries b v : Prop :=
  b_slot b = Some v /\ (may_have_slow_equality_check = true -> b_hash b = traits_hash v).

Lemma holds_carries cap i b v : holds cap i b v -> carries b v.
Proof. intros [? _ ?]. by split. Qed.

Lemma carries_holds cap i b v p :
  carries b v -> p = probe cap v i ->
  holds cap i (mkBucket (bucket_state_for_probe_length p) (b_hash b) (b_slot b)) v.
Proof. intros [Hs Hh] ->. by split. Qed.

Lemma free_at_insert B i b j : free_at B j -> i <> j -> free_at (<[i := b]> B) j.
Proof. intros (f & Hf & ?) ?. exists f. by rewrite list_lookup_insert_ne. Qed.

Lemma displace_spec fuel B i p b v k :
  wf_buckets B -> i < length B -> carries b v -> p = probe (length B) v i -> S p <= rank B i ->
  0 < k < length B -> free_at B (pos (length B) i k) -> k <= fuel ->
  exists B', displace fuel (length B) B i p b = Ret B' /\ wf_buckets B' /\ length B' = length B
    /\ values_of B' ≡ₚ v :: values_of B.
Proof.
  revert B i p b v k. induction fuel as [|fuel IH]; intros B i p b v k Hwf Hi Hc Hp Hrank Hk Hfree Hfuel; [lia|].
  simpl. set (cap := length B) in *. set (ni := next_index cap i).
  assert (Hni : ni < cap) by (by apply next_lt).
  pose proof (free_bound B i k Hwf Hi Hk Hfree) as Hbound. fold cap in Hbound.
  assert (Hh : bucket_index_of cap (traits_hash v) < cap) by (apply bucket_index_lt; lia).
  assert (Hpn : S p = probe cap v ni) by (subst p; symmetry; apply dist_next; unfold probe in *; lia).
  pose proof (carries_holds cap ni b v (S p) Hc Hpn) as Hm. set (moved := mkBucket _ _ _) in *.
  assert (Hprev : forall j, j < cap -> next_index cap j = ni -> j <> ni -> probe cap v ni <= rank B j).
  { intros j Hj E _. apply next_inj in E; [subst j; lia|done|done]. }
  destruct (lookup_lt_is_Some_2 B ni Hni) as [bucket Hbucket].
  unfold at_index. rewrite Hbucket. simpl. destruct (is_free bucket) eqn:Hf.
  - exists (<[ni := moved]> B). rewrite length_insert. split_and!; try done.
    + apply wf_insert with v; try done. rewrite (free_at_rank B ni); [lia|]. by exists bucket.
    + eapply values_insert_free; [done| |by apply (holds_value cap ni)]. unfold used_value. by rewrite Hf.
  - destruct (bucket_ok_not_free cap ni bucket) as [w Hw]; [by apply (wf_ok _ Hwf)|done|].
    rewrite (holds_probe_length _ _ _ _ Hw). simpl.
    assert (Hrw : rank B ni = S (probe cap w ni)).
    { unfold rank, value_at. rewrite Hbucket. simpl. by rewrite (holds_value _ _ _ _ Hw). }
    assert (Hk1 : k <> 1).
    { intros ->. rewrite pos_S, pos_0 in Hfree by lia. destruct Hfree as (f & Ef & ?). fold cap ni in Ef. congruence. }
    replace k with (S (k - 1)) in Hfree by lia. rewrite <- pos_next in Hfree by (fold cap; lia). fold cap ni in Hfree.
    destruct (Nat.ltb_spec (probe cap w ni) (S p)) as [Hlt|Hge].
    + destruct (IH (<[ni := moved]> B) ni (probe cap w ni) bucket w (k - 1)) as (B' & HB & Hwf' & Hlen & Hperm);
        rewrite ?length_insert; fold cap; try done; try lia.
      * apply wf_insert with v; try done. fold cap. lia.
      * by apply holds_carries in Hw.
      * rewrite rank_insert by done. rewrite decide_True by done. rewrite (holds_value _ _ _ _ Hm). fold cap. lia.
      * apply free_at_insert; [done|]. ring_lia.
      * rewrite length_insert in *. exists B'. split_and!; try done. rewrite Hperm.
        eapply values_insert_used; [done|by eapply holds_value|by eapply holds_value].
    + destruct (IH B ni (S p) b v (k - 1)) as (B' & HB & Hwf' & Hlen & Hperm); fold cap; try done; try lia.
      exists B'. done.
Qed.

(** The bucket that was claimed is not touched. *)
Lemma displace_alter fuel cap B i p b i0 f B' k :
  length B = cap -> i < cap -> 0 < k < cap -> free_at B (pos cap i k) ->
  (forall m, 0 < m <= k -> pos cap i m <> i0) ->
  displace fuel cap B i p b = Ret B' -> displace fuel cap (alter f i0 B) i p b = Ret (alter f i0 B').
Proof.
  revert B i p b k. induction fuel as [|fuel IH]; intros B i p b k Hlen Hi Hk Hfree Hne; [done|].
  simpl. set (ni := next_index cap i).
  assert (Hni : ni < cap) by (by apply next_lt).
  assert (Hn0 : ni <> i0). { specialize (Hne 1 ltac:(lia)). rewrite pos_S, pos_0 in Hne by lia. done. }
  unfold at_index. rewrite list_lookup_alter_ne by done.
  destruct (B !! ni) as [bucket|] eqn:Hbucket; [|done]. simpl.
  destruct (is_free bucket) eqn:Hf.
  - intros [= <-]. by rewrite !list_insert_alter, list_alter_alter_ne.
  - assert (Hk1 : k <> 1).
    { intros ->. rewrite pos_S, pos_0 in Hfree by lia. destruct Hfree as (f' & Ef & ?). fold ni in Ef. congruence. }
    assert (Hne' : forall m, 0 < m <= k - 1 -> pos cap ni m <> i0).
    { intros m Hm. unfold ni. rewrite pos_next by lia. apply Hne. lia. }
    replace k with (S (k - 1)) in Hfree by lia. rewrite <- pos_next in Hfree by lia. fold ni in Hfree.
    destruct (used_bucket_probe_length cap ni bucket) as [target|]; [|done]. simpl.
    destruct (target <? S p).
    + intros HB. rewrite list_insert_alter, list_alter_alter_ne, <- list_insert_alter by done.
      apply IH with (k - 1); rewrite ?length_insert; try done; try lia.
      apply free_at_insert; [done|]. ring_lia.
    + intros HB. by apply IH with (k - 1); try lia.
Qed.

(** ** Looking up *)

(** A predicate selects one value of a given hash. *)
Record selects (P : T -> bool) (h : Z) : Prop := {
  selects_hash w : P w = true -> traits_hash w = h;
  selects_equal w w' : P w = true -> P w' = true -> traits_equals w w' = true
}.

Lemma selects_value v : selects (fun entry => traits_equals entry v) (traits_hash v).
Proof.
  split.
  - intros w Hw. by apply traits_hash_equals.
  - intros w w' Hw Hw'. eapply traits_equals_trans; [done|]. by apply traits_equals_sym.
Qed.

(** The first [k] buckets that a search visits hold other values. *)
Definition passed (P : T -> bool) (h : Z) B (k : nat) : Prop :=
  forall m, m < k ->
  exists w, value_at B (pos (length B) (bucket_index_of (length B) h) m) = Some w /\ P w = false.

Lemma passed_S P h B k w :
  passed P h B k -> value_at B (pos (length B) (bucket_index_of (length B) h) k) = Some w -> P w = false ->
  passed P h B (S k).
Proof.
  intros Hk Hw HP m Hm. destruct (decide (m = k)) as [->|]; [eauto|]. apply Hk. lia.
Qed.

(** A search may stop at a bucket that is closer to its ideal index. *)
Lemma absent_if P h B k :
  wf_buckets B -> selects P h -> k < length B -> passed P h B k ->
  rank B (pos (length B) (bucket_index_of (length B) h) k) <= k ->
  forall i w, value_at B i = Some w -> P w = false.
Proof.
  intros Hwf Hsel Hk Hpassed Hrank i w Hw. destruct (P w) eqn:HP; [|done]. exfalso.
  pose proof Hw as (b & Hb & _)%value_at_lookup. apply lookup_lt_Some in Hb.
  pose proof (selects_hash _ _ Hsel w HP) as <-.
  destruct (decide (probe (length B) w i < k)) as [Hlt|Hge].
  - destruct (Hpassed _ Hlt) as (w' & Hw' & HP'). unfold probe in Hw'. rewrite pos_dist in Hw';
      [congruence|apply bucket_index_lt; lia|done].
  - pose proof (rank_before B i w k Hwf Hw ltac:(lia)). lia.
Qed.

Lemma values_of_elem B v : v ∈ values_of B <-> exists i, value_at B i = Some v.
Proof.
  unfold values_of. rewrite list_elem_of_omap. split.
  - intros (b & [i Hi]%list_elem_of_lookup & Hb). exists i. apply value_at_lookup. eauto.
  - intros [i (b & Hb & Hu)%value_at_lookup]. exists b. split; [|done]. by eapply list_elem_of_lookup_2.
Qed.

Definition found_by (P : T -> bool) B (o : option nat) : Prop :=
  match o with
  | Some i => exists w, value_at B i = Some w /\ P w = true
  | None => Forall (fun w => P w = false) (values_of B)
  end.

(** Something is free as long as there are more buckets than values. *)
Lemma free_exists t :
  wf_table t -> m_size t < m_capacity t -> exists i, i < m_capacity t /\ free_at (m_buckets t) i.
Proof.
  intros Hwf Hlt. destruct Hwf as [Hcap [Hok _] _ Hsize _]. rewrite Hcap, Hsize in *.
  destruct (existsb is_free (m_buckets t)) eqn:E.
  - apply existsb_exists in E as (b & [i Hi]%list_elem_of_In%list_elem_of_lookup & Hb).
    exists i. split; [by eapply lookup_lt_Some|]. by exists b.
  - apply existsb_false_forall in E. exfalso.
    assert (Hs : Forall (fun b => is_Some (used_value b)) (m_buckets t)).
    { apply Forall_lookup. intros i b Hb. rewrite Forall_lookup in E. specialize (E i b Hb).
      destruct (bucket_ok_not_free _ _ _ (Hok i b Hb) E) as [v Hv]. rewrite (holds_value _ _ _ _ Hv). eauto. }
    assert (Heq : length (table_values t) = length (m_buckets t)); [|lia].
    unfold table_values. clear -Hs. induction Hs as [|b l [v Hv] _ IH]; [done|].
    simpl. rewrite Hv. exact (f_equal S IH).
Qed.

Lemma lookup_loop_spec t P h f fuel k :
  wf_table t -> selects P h -> f < m_capacity t ->
  let start := bucket_index_of (m_capacity t) h in
  free_at (m_buckets t) (pos (m_capacity t) start f) -> k <= f -> f - k < fuel ->
  passed P h (m_buckets t) k ->
  exists o, lookup_loop fuel t h P (pos (m_capacity t) start k) = Ret o /\ found_by P (m_buckets t) o.
Proof.
  intros [Hcap Hwf _ _ _] Hsel. rewrite Hcap. set (B := m_buckets t) in *. intros Hf start Hfree. revert k.
  assert (Hstart : start < length B) by (apply bucket_index_lt; lia).
  induction fuel as [|fuel IH]; intros k Hk Hfuel Hpassed; [lia|]. simpl. fold B. rewrite Hcap.
  set (i := pos (length B) start k). assert (Hi : i < length B) by (apply pos_lt; lia).
  destruct (lookup_lt_is_Some_2 B i Hi) as [b Hb]. unfold at_index. rewrite Hb. simpl.
  destruct (is_free b) eqn:Hfb.
  - exists None. split; [done|]. apply Forall_forall. intros w [j Hj]%values_of_elem.
    apply (absent_if P h B k) with j; try done; [lia|]. fold start i. rewrite free_at_rank; [lia|]. by exists b.
  - destruct (bucket_ok_not_free (length B) i b) as [w Hw]; [by apply (wf_ok _ Hwf)|done|].
    rewrite (holds_slot _ _ _ _ Hw). simpl.
    assert (Hval : value_at B i = Some w).
    { apply value_at_lookup. exists b. split; [done|]. by eapply holds_value. }
    destruct (P w) eqn:HP.
    + rewrite (holds_check _ _ _ _ h Hw) by (symmetry; by apply (selects_hash _ _ Hsel)).
      exists (Some i). simpl. eauto.
    + rewrite andb_false_r. unfold i.
      assert (k <> f). { intros ->. destruct Hfree as (b' & Hb' & ?). fold i in Hb'. congruence. }
      rewrite <- pos_S by lia. apply IH; [lia|lia|]. by eapply passed_S.
Qed.

Lemma lookup_with_hash_spec t P h :
  wf_table t -> selects P h ->
  exists o, lookup_with_hash t h P = Ret o /\ found_by P (m_buckets t) o.
Proof.
  intros Hwf Hsel. unfold lookup_with_hash, table_is_empty. destruct (Nat.eqb_spec (m_size t) 0) as [E|E].
  - exists None. split; [done|]. simpl. rewrite (wf_size _ Hwf) in E. apply nil_length_inv in E.
    unfold values_of. unfold table_values in E. rewrite E. done.
  - destruct (wf_room _ Hwf) as [Hroom|Hzero].
    2:{ rewrite (wf_size _ Hwf) in E. rewrite (wf_capacity _ Hwf) in Hzero. apply nil_length_inv in Hzero.
        unfold table_values in E. by rewrite Hzero in E. }
    destruct (free_exists t Hwf Hroom) as (i & Hi & Hfree).
    assert (Hs : bucket_index_of (m_capacity t) h < m_capacity t) by (apply bucket_index_lt; lia).
    rewrite <- (pos_dist _ (bucket_index_of (m_capacity t) h) i) in Hfree by done.
    pose proof (dist_lt _ _ i Hs Hi) as Hd.
    destruct (lookup_loop_spec t P h _ (m_capacity t) 0 Hwf Hsel Hd Hfree) as (o & Ho & Hby);
      [lia|lia|intros m Hm; lia|]. rewrite pos_0 in Ho by done. eauto.
Qed.

(** ** Writing *)

(** [t'] is [t] with one more value, in bucket [i]. *)
Record added t v i t' : Prop := {
  added_buckets : wf_buckets (m_buckets t');
  added_length : length (m_buckets t') = length (m_buckets t);
  added_at : value_at (m_buckets t') i = Some v;
  added_values : table_values t' ≡ₚ v :: table_values t;
  added_size : m_size t' = S (m_size t);
  added_capacity : m_capacity t' = m_capacity t
}.

(** A bucket that is claimed with probe length [p] and then filled with [v] *)
Lemma claimed_holds cap i b v p :
  p = probe cap v i ->
  holds cap i (mkBucket (bucket_state_for_probe_length p) (hash_set b (traits_hash v)) (Some v)) v.
Proof. intros ->. split; [done|done|]. simpl. unfold hash_set. by intros ->. Qed.

Lemma write_slot_insert B i st h sl v n cap :
  i < length B ->
  write_slot (mkTable (<[i := mkBucket st h sl]> B) n cap) i v =
  mkTable (<[i := mkBucket st h (Some v)]> B) n cap.
Proof.
  intros Hi. unfold write_slot. simpl. f_equal.
  by rewrite !list_insert_alter, list_alter_alter_eq.
Qed.

(** A search that stops at its [k]-th bucket may claim it. *)
Lemma claim_wf B v b k :
  let i := pos (length B) (bucket_index_of (length B) (traits_hash v)) k in
  wf_buckets B -> k < length B -> rank B i <= k ->
  (forall m, m < k -> S m <= rank B (pos (length B) (bucket_index_of (length B) (traits_hash v)) m)) ->
  k = probe (length B) v i /\
  wf_buckets (<[i := mkBucket (bucket_state_for_probe_length k) (hash_set b (traits_hash v)) (Some v)]> B).
Proof.
  intros i Hwf Hk Hrank Hbefore. set (start := bucket_index_of _ _) in *.
  assert (Hs : start < length B) by (apply bucket_index_lt; lia).
  assert (Hi : i < length B) by (by apply pos_lt).
  assert (Hp : k = probe (length B) v i) by (unfold probe, i; by rewrite dist_pos).
  split; [done|]. apply wf_insert with v; try done; [by apply claimed_holds|lia|].
  intros j Hj Hnext _. rewrite <- Hp. destruct k as [|k]; [lia|].
  unfold i in Hnext. rewrite pos_S in Hnext by done.
  apply next_inj in Hnext; [|done|apply pos_lt; lia]. subst j. apply Hbefore. lia.
Qed.

Lemma claim_free t v b k :
  wf_table t -> k < m_capacity t ->
  let i := pos (m_capacity t) (bucket_index_of (m_capacity t) (traits_hash v)) k in
  (forall m, m < k ->
     S m <= rank (m_buckets t) (pos (m_capacity t) (bucket_index_of (m_capacity t) (traits_hash v)) m)) ->
  m_buckets t !! i = Some b -> is_free b = true ->
  added t v i (write_slot (mkTable (<[i := mkBucket (bucket_state_for_probe_length k)
     (hash_set b (traits_hash v)) (b_slot b)]> (m_buckets t)) (S (m_size t)) (m_capacity t)) i v).
Proof.
  intros Hwf. rewrite (wf_capacity _ Hwf). intros Hk i Hbefore Hb Hf.
  assert (Hi : i < length (m_buckets t)) by (by eapply lookup_lt_Some).
  set (filled := mkBucket (bucket_state_for_probe_length k) (hash_set b (traits_hash v)) (Some v)).
  assert (Hv : used_value filled = Some v).
  { eapply (holds_value (length (m_buckets t)) i). apply claimed_holds.
    unfold probe, i. rewrite dist_pos; [done|apply bucket_index_lt; lia|done]. }
  rewrite write_slot_insert by done. fold filled. split; simpl; try done.
  - apply claim_wf; try done; [apply (wf_inner _ Hwf)|]. fold i. rewrite free_at_rank; [lia|by exists b].
  - apply length_insert.
  - by rewrite value_at_insert, decide_True.
  - eapply values_insert_free; [done| |done]. unfold used_value. by rewrite Hf.
  - symmetry. apply (wf_capacity _ Hwf).
Qed.

Lemma claim_steal t v b w k f :
  wf_table t -> k < f < m_capacity t ->
  let start := bucket_index_of (m_capacity t) (traits_hash v) in
  let i := pos (m_capacity t) start k in
  free_at (m_buckets t) (pos (m_capacity t) start f) ->
  (forall m, m < k -> S m <= rank (m_buckets t) (pos (m_capacity t) start m)) ->
  m_buckets t !! i = Some b -> holds (m_capacity t) i b w -> probe (m_capacity t) w i < k ->
  let claimed := mkBucket (bucket_state_for_probe_length k) (hash_set b (traits_hash v)) (b_slot b) in
  exists B', displace (m_capacity t) (m_capacity t) (<[i := claimed]> (m_buckets t)) i
               (probe (m_capacity t) w i) b = Ret B'
    /\ added t v i (write_slot (mkTable B' (S (m_size t)) (m_capacity t)) i v).
Proof.
  intros Hwf. rewrite (wf_capacity _ Hwf). set (B := m_buckets t). intros Hk start i Hfree Hbefore Hb Hw Hp claimed.
  assert (Hi : i < length B) by (by eapply lookup_lt_Some).
  assert (Hs : start < length B) by (apply bucket_index_lt; lia).
  set (filled := mkBucket (b_state claimed) (b_hash claimed) (Some v)).
  destruct (claim_wf B v b k) as [Hprobe Hwf']; [apply (wf_inner _ Hwf)|lia| |done|].
  { fold start i. unfold rank, value_at. rewrite Hb. simpl. rewrite (holds_value _ _ _ _ Hw). lia. }
  fold start i filled in Hprobe, Hwf'.
  assert (Hfilled : used_value filled = Some v) by (by apply (holds_value (length B) i), claimed_holds).
  assert (Hpos : pos (length B) start f = pos (length B) i (f - k)) by (unfold i; ring_lia).
  assert (Hfree' : free_at (<[i := filled]> B) (pos (length B) i (f - k))).
  { rewrite <- Hpos. apply free_at_insert; [done|]. rewrite Hpos. ring_lia. }
  destruct (displace_spec (length B) (<[i := filled]> B) i (probe (length B) w i) b w (f - k))
    as (B' & HB & HwfB & Hlen & Hperm); rewrite ?length_insert; try done; try lia.
  { by eapply holds_carries. }
  { rewrite rank_insert by done. rewrite decide_True by done. rewrite Hfilled. lia. }
  rewrite length_insert in *.
  assert (Hswap : forall g, displace (length B) (length B) (alter g i (<[i := filled]> B)) i
                              (probe (length B) w i) b = Ret (alter g i B')).
  { intros g. apply displace_alter with (f - k); rewrite ?length_insert; try done; try lia.
    intros m Hm. ring_lia. }
  pose proof (Hswap (fun _ => claimed)) as Hclaimed. pose proof (Hswap (fun _ => filled)) as Hsame.
  rewrite list_insert_alter, list_alter_alter_eq in Hclaimed, Hsame.
  rewrite list_insert_alter in HB. unfold compose in Hclaimed, Hsame. rewrite HB in Hsame.
  injection Hsame as Hsame. exists (alter (fun _ => claimed) i B').
  rewrite list_insert_alter. split; [done|].
  unfold write_slot. simpl. rewrite list_alter_alter_eq. unfold compose. simpl. change (mkBucket _ _ (Some v)) with filled. rewrite <- Hsame.
  split; simpl; try done; [| |symmetry; apply (wf_capacity _ Hwf)].
  { destruct (lookup_lt_is_Some_2 B' i) as [x Hx]; [lia|].
    rewrite Hsame. unfold value_at. by rewrite list_lookup_alter_eq, Hx. }
  change (values_of B' ≡ₚ v :: values_of B). rewrite Hperm.
  eapply values_insert_used; [done|by eapply holds_value|done].
Qed.

Definition existing_result (behavior : HashSetExistingEntryBehavior) : HashSetResult :=
  match behavior with
  | ExistingEntry_Replace => ReplacedExistingEntry
  | ExistingEntry_Keep => KeptExistingEntry
  end.

(** What a search for a bucket to write to finds *)
Definition writes (P : T -> bool) v (behavior : HashSetExistingEntryBehavior) t
    (r : res (HashSetResult * nat * HashTable T)) : Prop :=
  (exists i w, r = Ret (existing_result behavior, i, t) /\ value_at (m_buckets t) i = Some w /\ P w = true)
  \/ (exists i t', r = Ret (InsertedNewEntry, i, t') /\ Forall (fun w => P w = false) (table_values t)
      /\ added t v i (write_slot t' i v)).

Lemma lookup_for_writing_loop_spec t P v behavior f fuel k :
  let h := traits_hash v in
  wf_table t -> selects P h -> f < m_capacity t ->
  let start := bucket_index_of (m_capacity t) h in
  free_at (m_buckets t) (pos (m_capacity t) start f) -> k <= f -> f - k < fuel ->
  passed P h (m_buckets t) k ->
  (forall m, m < k -> S m <= rank (m_buckets t) (pos (m_capacity t) start m)) ->
  writes P v behavior t
    (lookup_for_writing_loop fuel t h P behavior (pos (m_capacity t) start k) k).
Proof.
  intros h Hwf Hsel Hf start Hfree. revert k. pose proof (wf_capacity _ Hwf) as Hcap.
  assert (Hs : start < m_capacity t) by (apply bucket_index_lt; lia).
  induction fuel as [|fuel IH]; intros k Hk Hfuel Hpassed Hbefore; [lia|].
  cbn [lookup_for_writing_loop]. set (i := pos (m_capacity t) start k).
  assert (Hi : i < m_capacity t) by (apply pos_lt; lia).
  assert (Habsent : rank (m_buckets t) i <= k -> Forall (fun w => P w = false) (table_values t)).
  { intros Hr. apply Forall_forall. intros w [j Hj]%values_of_elem.
    apply (absent_if P h (m_buckets t) k) with j; try done; rewrite <- ?Hcap; try done; [|lia]. apply (wf_inner _ Hwf). }
  destruct (lookup_lt_is_Some_2 (m_buckets t) i) as [b Hb]; [lia|].
  unfold at_index. rewrite Hb. simpl. destruct (is_free b) eqn:Hfb.
  - right. do 2 eexists. split; [done|]. split; [apply Habsent; rewrite free_at_rank; [lia|by exists b]|].
    apply claim_free; try done. lia.
  - destruct (bucket_ok_not_free (m_capacity t) i b) as [w Hw]; [|done|].
    { rewrite Hcap. by apply (wf_ok _ (wf_inner _ Hwf)). }
    rewrite (holds_slot _ _ _ _ Hw). simpl.
    assert (Hval : value_at (m_buckets t) i = Some w).
    { apply value_at_lookup. exists b. split; [done|]. by eapply holds_value. }
    destruct (P w) eqn:HP.
    + rewrite (holds_check _ _ _ _ h Hw) by (symmetry; by apply (selects_hash _ _ Hsel)).
      left. exists i, w. by destruct behavior.
    + rewrite andb_false_r. rewrite (holds_probe_length _ _ _ _ Hw). simpl.
      assert (Hkf : k <> f). { intros ->. destruct Hfree as (b' & Hb' & ?). fold i in Hb'. congruence. }
      assert (Hrank : rank (m_buckets t) i = S (probe (m_capacity t) w i)).
      { unfold rank. by rewrite Hval, Hcap. }
      destruct (Nat.ltb_spec (probe (m_capacity t) w i) k) as [Hlt|Hge].
      * right. destruct (claim_steal t v b w k f) as (B' & HB & Hadded); try done; try lia.
        fold h start i in HB. rewrite (holds_slot _ _ _ _ Hw) in HB. rewrite HB. simpl. do 2 eexists. split; [done|].
        split; [apply Habsent; lia|done].
      * unfold i. rewrite <- pos_S by lia. apply IH; [lia|lia| |].
        -- eapply passed_S; rewrite <- ?Hcap; done.
        -- intros m Hm. destruct (decide (m = k)) as [->|]; [fold i; lia|]. apply Hbefore. lia.
Qed.

Lemma distinct_perm (l l' : list T) : l ≡ₚ l' -> distinct l -> distinct l'.
Proof.
  induction 1 as [|v l l' Hp IH|v w l|l l' l'' _ IH1 _ IH2]; simpl; [done| | |auto].
  - intros [Hv Hd]. split; [by rewrite <- Hp|auto].
  - rewrite !Forall_cons. intros ([Hwv Hw] & Hv & Hd). split_and!; try done.
    destruct (traits_equals v w) eqn:E; [|done]. apply traits_equals_sym in E. congruence.
Qed.

#[global] Instance distinct_proper : Proper ((≡ₚ) ==> iff) distinct.
Proof. intros l l' Hp. split; apply distinct_perm; [done|by symmetry]. Qed.

(** Two buckets do not hold equal values. *)
Lemma distinct_positions B i j v w :
  distinct (values_of B) -> value_at B i = Some v -> value_at B j = Some w ->
  traits_equals v w = true -> i = j.
Proof.
  intros Hd Hi Hj E. destruct (decide (i = j)) as [|Hne]; [done|exfalso].
  apply value_at_lookup in Hi as (bi & Hbi & Hi), Hj as (bj & Hbj & Hj).
  set (hole := zeroed_bucket (T := T)).
  assert (Hli : values_of B ≡ₚ v :: values_of (<[i := hole]> B)) by (by eapply values_delete).
  assert (Hlj : values_of (<[i := hole]> B) ≡ₚ w :: values_of (<[j := hole]> (<[i := hole]> B))).
  { eapply values_delete; [|done|done]. by rewrite list_lookup_insert_ne. }
  rewrite Hli, Hlj in Hd. simpl in Hd. destruct Hd as [Hd _]. apply Forall_cons in Hd as [Hd _]. congruence.
Qed.

(** What writing [v] to a collection [l] does *)
Definition set_effect (behavior : HashSetExistingEntryBehavior) (l : list T) v (r : HashSetResult)
    (l' : list T) : Prop :=
  (r = InsertedNewEntry /\ Forall (fun w => traits_equals w v = false) l /\ l' ≡ₚ v :: l)
  \/ (exists w rest, traits_equals w v = true /\ l ≡ₚ w :: rest /\ r = existing_result behavior
      /\ l' ≡ₚ match behavior with ExistingEntry_Replace => v :: rest | ExistingEntry_Keep => w :: rest end).

#[global] Instance set_effect_proper behavior :
  Proper ((≡ₚ) ==> eq ==> eq ==> (≡ₚ) ==> iff) (set_effect behavior).
Proof.
  intros l1 l1' H1' v ? <- r ? <- l2 l2' H2'. unfold set_effect. rewrite H1'.
  setoid_rewrite H2'. setoid_rewrite H1'. done.
Qed.

(** Assigning an equal value to a used bucket *)
Lemma replace_spec t i w v :
  wf_table t -> value_at (m_buckets t) i = Some w -> traits_equals w v = true ->
  exists rest, wf_table (write_slot t i v) /\ table_values t ≡ₚ w :: rest
    /\ table_values (write_slot t i v) ≡ₚ v :: rest.
Proof.
  intros Hwf Hw E. pose proof Hw as (b & Hb & Hu)%value_at_lookup.
  pose proof (lookup_lt_Some _ _ _ Hb) as Hi. pose proof (wf_ok _ (wf_inner _ Hwf) _ _ Hb) as Hok.
  apply (bucket_ok_used _ _ _ _ Hok) in Hu as Hh. set (B := m_buckets t) in *.
  set (b' := mkBucket (b_state b) (b_hash b) (Some v)).
  assert (Hprobe : forall cap j, probe cap v j = probe cap w j).
  { intros. unfold probe. by rewrite (traits_hash_equals _ _ E). }
  assert (Hh' : holds (length B) i b' v).
  { destruct Hh as [_ Hst Hha]. split; [done|by rewrite Hprobe|]. intros Hs. rewrite <- (traits_hash_equals _ _ E). auto. }
  assert (HB : write_slot t i v = mkTable (<[i := b']> B) (m_size t) (m_capacity t)).
  { unfold write_slot. f_equal. rewrite list_insert_alter. fold B.
    apply list_alter_ext; [|done]. intros x Hx. by simplify_eq. }
  destruct (values_of_middle B i b b' Hb) as (l1 & l2 & E1 & E2).
  rewrite Hu in E1. rewrite (holds_value _ _ _ _ Hh') in E2. simpl in E1, E2.
  rewrite HB. assert (Hrank : rank B i = S (probe (length B) w i)) by (unfold rank; by rewrite Hw).
  assert (Hv1 : table_values t = l1 ++ w :: l2) by done.
  assert (Hv2 : table_values (mkTable (<[i := b']> B) (m_size t) (m_capacity t)) = l1 ++ v :: l2) by done.
  exists (l1 ++ l2). rewrite Hv1, Hv2. split_and!; try (by rewrite Permutation_middle).
  split; rewrite ?Hv2; simpl; rewrite ?length_insert.
  - apply (wf_capacity _ Hwf).
  - apply wf_insert with v; try done; [apply (wf_inner _ Hwf)|rewrite Hprobe; lia|].
    intros j Hj Hn _. pose proof (wf_robin _ (wf_inner _ Hwf) j Hj) as Hr. fold B in Hr.
    rewrite Hn in Hr. rewrite Hprobe. lia.
  - pose proof (wf_distinct _ Hwf) as Hd. rewrite Hv1, <- Permutation_middle in Hd.
    rewrite <- Permutation_middle. destruct Hd as [Hd1 Hd2].
    split; [|done]. eapply Forall_impl; [exact Hd1|]. intros x Hx. simpl in Hx.
    destruct (traits_equals v x) eqn:Evx; [|done]. by rewrite (traits_equals_trans w v x E Evx) in Hx.
  - by rewrite (wf_size _ Hwf), Hv1, !length_app.
  - apply (wf_room _ Hwf).
Qed.

Lemma lookup_for_writing_spec t P v behavior :
  wf_table t -> m_size t < m_capacity t -> selects P (traits_hash v) ->
  writes P v behavior t (lookup_for_writing t (traits_hash v) P behavior).
Proof.
  intros Hwf Hroom Hsel. destruct (free_exists t Hwf Hroom) as (i & Hi & Hfree).
  assert (Hs : bucket_index_of (m_capacity t) (traits_hash v) < m_capacity t) by (apply bucket_index_lt; lia).
  rewrite <- (pos_dist _ (bucket_index_of (m_capacity t) (traits_hash v)) i) in Hfree by done.
  pose proof (dist_lt _ _ i Hs Hi) as Hd.
  pose proof (lookup_for_writing_loop_spec t P v behavior _ (m_capacity t) 0 Hwf Hsel Hd Hfree) as Hw.
  rewrite pos_0 in Hw by done. apply Hw; try lia; intros m Hm; lia.
Qed.

Lemma added_wf t v i t' :
  wf_table t -> Forall (fun w => traits_equals w v = false) (table_values t) ->
  S (m_size t) < m_capacity t -> added t v i t' -> wf_table t'.
Proof.
  intros Hwf Hnew Hroom [HB Hlen _ Hvals Hsize Hcap]. split.
  - by rewrite Hcap, Hlen, (wf_capacity _ Hwf).
  - done.
  - rewrite Hvals. split; [|apply (wf_distinct _ Hwf)]. eapply Forall_impl; [exact Hnew|].
    intros w Hw. destruct (traits_equals v w) eqn:E; [|done]. apply traits_equals_sym in E. congruence.
  - by rewrite Hsize, Hvals, (wf_size _ Hwf).
  - left. by rewrite Hsize, Hcap.
Qed.

(** [write_value] on a table with room for one more value *)
Lemma write_value_spec t v behavior :
  wf_table t -> S (m_size t) < m_capacity t ->
  exists r t', write_value t v behavior = Ret (r, t') /\ wf_table t' /\ m_capacity t' = m_capacity t
    /\ set_effect behavior (table_values t) v r (table_values t').
Proof.
  intros Hwf Hroom. unfold write_value.
  destruct (lookup_for_writing_spec t (fun candidate => traits_equals candidate v) v behavior)
    as [(i & w & -> & Hw & E)|(i & t' & -> & Hnew & Hadded)]; [done|lia|apply selects_value| |]; simpl.
  - destruct (replace_spec t i w v Hwf Hw E) as (rest & Hwf' & H1' & H2'). destruct behavior; simpl.
    + do 2 eexists. split_and!; try done. right. exists w, rest. done.
    + do 2 eexists. split_and!; try done. right. exists w, rest. done.
  - do 2 eexists. split; [done|]. split_and!; [by eapply added_wf|apply (added_capacity _ _ _ _ Hadded)|].
    left. split_and!; try done. apply (added_values _ _ _ _ Hadded).
Qed.

(** ** Growing *)

Lemma write_values_spec t l :
  wf_table t -> distinct (l ++ table_values t) -> length l + m_size t < m_capacity t ->
  exists t', write_values t l = Ret t' /\ wf_table t' /\ m_capacity t' = m_capacity t
    /\ table_values t' ≡ₚ l ++ table_values t.
Proof.
  revert t. induction l as [|v l IH]; intros t Hwf Hd Hlen; [eauto|]. simpl in *.
  destruct Hd as [Hv Hd]. pose proof Hv as [_ Hvt]%Forall_app.
  destruct (write_value_spec t v ExistingEntry_Keep Hwf) as (r & t1 & -> & Hwf1 & Hcap1 & Heff); [lia|]. simpl.
  destruct Heff as [(_ & _ & Hvals)|(w & rest & E & Hperm & _)].
  - destruct (IH t1) as (t' & -> & Hwf' & Hcap' & Hvals'); [done| | |].
    + rewrite Hvals, <- Permutation_middle. done.
    + rewrite (wf_size _ Hwf1), Hvals, Hcap1. simpl. rewrite <- (wf_size _ Hwf). lia.
    + exists t'. split_and!; try done; [congruence|]. rewrite Hvals', Hvals. by rewrite Permutation_middle.
  - exfalso. rewrite Hperm in Hvt. apply Forall_cons in Hvt as [Hvt _].
    apply traits_equals_sym in E. congruence.
Qed.

Lemma empty_buckets_wf n : wf_table (mkTable (replicate n zeroed_bucket) 0 n).
Proof.
  assert (Hval : forall i, value_at (replicate n (zeroed_bucket (T := T))) i = None).
  { intros i. unfold value_at. destruct (replicate n zeroed_bucket !! i) as [b|] eqn:E; [|done].
    by apply lookup_replicate in E as [-> _]. }
  assert (Hnil : values_of (replicate n (zeroed_bucket (T := T))) = []).
  { clear Hval. induction n as [|n IH]; [done|exact IH]. }
  split; simpl; rewrite ?length_replicate; try done.
  - split.
    + intros i b [-> _]%lookup_replicate. by left.
    + intros i Hi. unfold rank. rewrite !Hval. lia.
  - unfold table_values. simpl. change (distinct (values_of (replicate n zeroed_bucket))). by rewrite Hnil.
  - unfold table_values. simpl. change (0 = length (values_of (replicate n zeroed_bucket))). by rewrite Hnil.
  - lia.
Qed.

Lemma good_capacity_ge n : n <= kmalloc_good_size (sizeof_bucket * n) / sizeof_bucket.
Proof.
  pose proof (good_size_ge (sizeof_bucket * n)). pose proof sizeof_bucket_pos.
  apply Nat.div_le_lower_bound; lia.
Qed.

Lemma rehash_spec t n :
  wf_table t ->
  exists t', rehash t n = Ret t' /\ wf_table t' /\ table_values t' ≡ₚ table_values t
    /\ n <= m_capacity t' /\ m_capacity t + 8 <= m_capacity t'.
Proof.
  intros Hwf. unfold rehash, grow_capacity_at_least.
  pose proof (good_capacity_ge (max n (m_capacity t + 8))) as Hge. set (cap := _ / _) in *.
  assert (Hsize : m_size t <= m_capacity t).
  { destruct (wf_room _ Hwf) as [|Hz]; [lia|]. rewrite (wf_size _ Hwf). rewrite (wf_capacity _ Hwf) in *.
    apply nil_length_inv in Hz. unfold table_values. by rewrite Hz. }
  replace (m_size t <=? cap) with true by (symmetry; apply Nat.leb_le; lia). simpl.
  destruct (m_buckets t) as [|b0 bs] eqn:EB.
  - assert (Hv : table_values t = []) by (unfold table_values; by rewrite EB).
    rewrite (wf_size _ Hwf), Hv. simpl. eexists. split; [done|]. pose proof (empty_buckets_wf cap) as Hwf'.
    split_and!; [done| |simpl; lia|simpl; lia]. pose proof (wf_size _ Hwf') as Hs. simpl in Hs.
    symmetry in Hs. apply nil_length_inv in Hs. by rewrite Hs.
  - pose proof (empty_buckets_wf cap) as Hwf'. pose proof (wf_size _ Hwf') as Hs. simpl in Hs.
    symmetry in Hs. apply nil_length_inv in Hs.
    destruct (write_values_spec (mkTable (replicate cap zeroed_bucket) 0 cap) (table_values t))
      as (t' & -> & Hwft & Hcap & Hvals); [done| | |].
    + rewrite Hs, app_nil_r. apply (wf_distinct _ Hwf).
    + simpl. rewrite <- (wf_size _ Hwf). lia.
    + rewrite Hs, app_nil_r in Hvals. simpl in Hcap. exists t'. split_and!; try done; lia.
Qed.

Lemma grow_spec t :
  wf_table t ->
  exists t', grow t = Ret t' /\ wf_table t' /\ table_values t' ≡ₚ table_values t
    /\ S (m_size t') < m_capacity t'.
Proof.
  intros Hwf. unfold grow, should_grow, grow_at_load_factor_percent. destruct (Nat.leb_spec (m_capacity t * 80) ((m_size t + 1) * 100)).
  - destruct (rehash_spec t (m_capacity t * (100 + grow_capacity_increase_percent) / 100) Hwf)
      as (t' & -> & Hwf' & Hvals & _ & Hcap).
    exists t'. split_and!; try done. rewrite (wf_size _ Hwf'), Hvals, <- (wf_size _ Hwf).
    destruct (wf_room _ Hwf) as [|Hz]; [lia|]. rewrite (wf_size _ Hwf). rewrite (wf_capacity _ Hwf) in Hz.
    apply nil_length_inv in Hz. unfold table_values. rewrite Hz. simpl. lia.
  - exists t. split_and!; try done. lia.
Qed.

Lemma table_set_spec t v behavior :
  wf_table t ->
  exists r t', table_set t v behavior = Ret (r, t') /\ wf_table t'
    /\ set_effect behavior (table_values t) v r (table_values t').
Proof.
  intros Hwf. unfold table_set. destruct (grow_spec t Hwf) as (t1 & -> & Hwf1 & Hvals & Hroom). simpl.
  destruct (write_value_spec t1 v behavior Hwf1 Hroom) as (r & t' & -> & Hwf' & _ & Heff).
  rewrite Hvals in Heff. eauto.
Qed.

(** ** Deleting *)

Definition mark_free b : Bucket T := mkBucket BucketState_Free (b_hash b) (b_slot b).

(** The buckets without the one at the gap *)
Definition with_gap B (gap : nat) : list (Bucket T) := alter mark_free gap B.

Lemma with_gap_value B gap i :
  value_at (with_gap B gap) i = if decide (gap = i) then None else value_at B i.
Proof.
  unfold with_gap, value_at. case_decide as E.
  - subst. rewrite list_lookup_alter_eq. by destruct (B !! i).
  - by rewrite list_lookup_alter_ne.
Qed.

Lemma with_gap_rank B gap i :
  rank (with_gap B gap) i = if decide (gap = i) then 0 else rank B i.
Proof.
  unfold rank. rewrite with_gap_value. unfold with_gap. rewrite length_alter. by case_decide.
Qed.

(** The state of the loop: everything is in order but for the gap, which fits
    between its neighbours with rank [r]. *)
Record gap_ok B (gap r : nat) : Prop := {
  gap_lt : gap < length B;
  gap_buckets i b : i <> gap -> B !! i = Some b -> bucket_ok (length B) i b;
  gap_robin i :
    i < length B -> i <> gap -> next_index (length B) i <> gap ->
    rank B (next_index (length B) i) <= S (rank B i);
  gap_prev i : i < length B -> i <> gap -> next_index (length B) i = gap -> r <= S (rank B i);
  gap_next : next_index (length B) gap <> gap -> rank B (next_index (length B) gap) <= S r
}.

Lemma wf_gap_ok B i : wf_buckets B -> i < length B -> gap_ok B i (rank B i).
Proof.
  intros [Hok Hr] Hi. split; eauto.
  intros j Hj Hne <-. auto.
Qed.

(** The gap may be closed when the next bucket is at its ideal index. *)
Lemma gap_close B gap r :
  gap_ok B gap r -> rank (with_gap B gap) (next_index (length B) gap) <= 1 ->
  wf_buckets (with_gap B gap).
Proof.
  intros Hg Hnext. pose proof (length_alter mark_free B gap) as Hlen. fold (with_gap B gap) in Hlen. split.
  - rewrite Hlen. intros i b Hb. unfold with_gap in Hb. destruct (decide (gap = i)) as [->|Hne].
    + rewrite list_lookup_alter_eq in Hb. destruct (B !! i); [|done]. injection Hb as <-. by left.
    + rewrite list_lookup_alter_ne in Hb by done. by apply (gap_buckets _ _ _ Hg).
  - rewrite Hlen. intros i Hi. destruct (decide (gap = i)) as [->|Hne].
    + rewrite (with_gap_rank B i i), decide_True by done. done.
    + rewrite !with_gap_rank, (decide_False (P := gap = i)) by done. case_decide; [lia|].
      by apply (gap_robin _ _ _ Hg).
Qed.

Lemma gap_move B gap r bucket w :
  let from := next_index (length B) gap in
  gap_ok B gap r -> from <> gap -> B !! from = Some bucket -> holds (length B) from bucket w ->
  0 < probe (length B) w from ->
  let moved := mkBucket (bucket_state_for_probe_length (probe (length B) w from - 1))
                 (b_hash bucket) (b_slot bucket) in
  gap_ok (<[gap := moved]> B) from (rank B from)
  /\ value_at (<[gap := moved]> B) gap = Some w
  /\ values_of (with_gap (<[gap := moved]> B) from) ≡ₚ values_of (with_gap B gap).
Proof.
  intros from Hg Hne Hb Hw Hp moved. pose proof (gap_lt _ _ _ Hg) as Hgap.
  assert (Hfrom : from < length B) by (by eapply lookup_lt_Some).
  assert (Hh : bucket_index_of (length B) (traits_hash w) < length B) by (apply bucket_index_lt; lia).
  assert (Hprobe : S (probe (length B) w gap) = probe (length B) w from) by (by apply dist_next_pos).
  assert (Hm : holds (length B) gap moved w).
  { apply carries_holds; [by eapply holds_carries|lia]. }
  assert (Hval : value_at B from = Some w).
  { apply value_at_lookup. exists bucket. split; [done|by eapply holds_value]. }
  assert (Hrank : rank B from = S (probe (length B) w from)) by (unfold rank; by rewrite Hval).
  assert (Hrank' : forall j, rank (<[gap := moved]> B) j = if decide (gap = j) then probe (length B) w from else rank B j).
  { intros j. rewrite rank_insert by done. rewrite (holds_value _ _ _ _ Hm), Hprobe. done. }
  split_and!.
  - split; rewrite ?length_insert; [done|..].
    + intros i b Hi Hbi. destruct (decide (gap = i)) as [->|Hne'].
      * rewrite list_lookup_insert_eq in Hbi by done. injection Hbi as <-. right. eauto.
      * rewrite list_lookup_insert_ne in Hbi by done. by apply (gap_buckets _ _ _ Hg).
    + intros i Hi Hif Hnf. assert (i <> gap) by (intros ->; done). rewrite !Hrank', (decide_False (P := gap = i)) by done.
      case_decide as E; [|by apply (gap_robin _ _ _ Hg)].
      pose proof (gap_prev _ _ _ Hg i Hi ltac:(done) ltac:(done)).
      pose proof (gap_next _ _ _ Hg Hne) as Hgn. fold from in Hgn. lia.
    + intros i Hi _ E. apply next_inj in E; [|done|done]. subst i. rewrite Hrank', decide_True by done. lia.
    + intros Hnf. rewrite Hrank'. case_decide as E; [lia|]. by apply (gap_robin _ _ _ Hg).
  - rewrite value_at_insert, decide_True by done. by apply (holds_value (length B) gap).
  - assert (HX : <[gap := moved]> (with_gap B gap) = <[gap := moved]> B).
    { unfold with_gap. by rewrite !list_insert_alter, list_alter_alter_eq. }
    assert (HY : with_gap (<[gap := moved]> B) from = <[from := mark_free bucket]> (<[gap := moved]> B)).
    { unfold with_gap. rewrite (list_insert_alter _ from). apply list_alter_ext; [|done].
      intros x. rewrite list_lookup_insert_ne by done. intros Hx. by simplify_eq. }
    destruct (lookup_lt_is_Some_2 B gap Hgap) as [b0 Hb0].
    apply (Permutation_cons_inv (a := w)). rewrite HY.
    rewrite <- (values_delete _ from bucket (mark_free bucket) w); [| |by eapply holds_value|done].
    + rewrite <- HX. eapply (values_insert_free _ gap (mark_free b0)); [|done|by eapply holds_value].
      unfold with_gap. by rewrite list_lookup_alter_eq, Hb0.
    + by rewrite list_lookup_insert_ne.
Qed.

(** A value stays in its bucket or moves up by one. *)
Definition moved_up B (gap f : nat) B' : Prop :=
  forall i w, value_at B' i = Some w ->
  value_at (with_gap B gap) i = Some w
  \/ exists m, m < f /\ i = pos (length B) gap m
       /\ value_at (with_gap B gap) (next_index (length B) i) = Some w.

Lemma shift_up_spec fuel B gap r f :
  gap_ok B gap r -> 0 < f < length B -> free_at B (pos (length B) gap f) -> f <= fuel ->
  exists B', shift_up fuel (length B) B gap = Ret B' /\ wf_buckets B' /\ length B' = length B
    /\ values_of B' ≡ₚ values_of (with_gap B gap) /\ moved_up B gap f B'.
Proof.
  revert B gap r f. induction fuel as [|fuel IH]; intros B gap r f Hg Hf Hfree Hfuel; [lia|].
  simpl. pose proof (gap_lt _ _ _ Hg) as Hgap. set (from := next_index (length B) gap).
  assert (Hne : from <> gap) by (apply next_neq; lia).
  destruct (lookup_lt_is_Some_2 B from) as [bucket Hb]; [by apply next_lt|].
  assert (Hstop : rank B from <= 1 ->
    exists B', Ret (with_gap B gap) = Ret B' /\ wf_buckets B' /\ length B' = length B
    /\ values_of B' ≡ₚ values_of (with_gap B gap) /\ moved_up B gap f B').
  { intros Hr. exists (with_gap B gap). split_and!; try done.
    - apply gap_close with r; [done|]. fold from. rewrite with_gap_rank. case_decide; lia.
    - apply length_alter.
    - intros i w Hw. by left. }
  unfold at_index. rewrite Hb. simpl. destruct (is_free bucket) eqn:Hfb.
  { apply Hstop. rewrite free_at_rank; [lia|by exists bucket]. }
  destruct (bucket_ok_not_free (length B) from bucket) as [w Hw]; [by apply (gap_buckets _ _ _ Hg)|done|].
  rewrite (holds_probe_length _ _ _ _ Hw). simpl.
  assert (Hval : value_at B from = Some w).
  { apply value_at_lookup. exists bucket. split; [done|by eapply holds_value]. }
  destruct (Nat.eqb_spec (probe (length B) w from) 0) as [E|Hp].
  { apply Hstop. unfold rank. rewrite Hval. lia. }
  destruct (gap_move B gap r bucket w Hg Hne Hb Hw ltac:(unfold from in *; lia)) as (Hg' & Hgv & Hperm).
  fold from in Hg', Hgv, Hperm. set (moved := mkBucket _ _ _) in *.
  assert (Hf1 : f <> 1).
  { intros ->. rewrite pos_S, pos_0 in Hfree by lia. destruct Hfree as (f' & Ef & ?). fold from in Ef. congruence. }
  replace f with (S (f - 1)) in Hfree by lia. rewrite <- pos_next in Hfree by lia. fold from in Hfree.
  destruct (IH (<[gap := moved]> B) from (rank B from) (f - 1)) as (B' & HB & Hwf & Hlen & Hvals & Hup);
    rewrite ?length_insert; try done; try lia.
  { apply free_at_insert; [done|]. unfold from. rewrite pos_next by lia. ring_lia. }
  rewrite length_insert in *. exists B'. split_and!; try done; [by rewrite Hvals|].
  intros i x Hx. rewrite !with_gap_value. destruct (Hup i x Hx) as [Hi|(m & Hm & -> & Hi)].
  - rewrite with_gap_value in Hi. case_decide; [done|]. destruct (decide (gap = i)) as [<-|Hgi].
    + right. exists 0. rewrite Hgv in Hi. injection Hi as <-.
      split_and!; [lia|by rewrite pos_0|]. fold from. by rewrite decide_False.
    + left. by rewrite value_at_insert, decide_False in Hi.
  - right. exists (S m). rewrite length_insert in *. unfold from at 1. rewrite pos_next by lia. split_and!; [lia|done|].
    rewrite with_gap_value in *. revert Hi. unfold from. rewrite pos_next by lia. case_decide; [done|].
    rewrite value_at_insert by done. rewrite <- pos_S by lia.
    destruct (decide (gap = pos (length B) gap (S (S m)))) as [E|]; [exfalso; revert E; ring_lia|done].
Qed.

Lemma delete_bucket_spec t i w :
  wf_table t -> value_at (m_buckets t) i = Some w ->
  exists t', delete_bucket t i = Ret t' /\ wf_table t' /\ m_capacity t' = m_capacity t
    /\ table_values t ≡ₚ w :: table_values t'
    /\ forall j x, j < i -> value_at (m_buckets t') j = Some x ->
         exists k, k < i /\ value_at (m_buckets t) k = Some x.
Proof.
  intros Hwf Hw. pose proof Hw as (b & Hb & Hu)%value_at_lookup. pose proof (wf_capacity _ Hwf) as Hcap.
  pose proof (lookup_lt_Some _ _ _ Hb) as Hi. set (B := m_buckets t) in *.
  assert (Hroom : m_size t < m_capacity t) by (destruct (wf_room _ Hwf); lia).
  destruct (free_exists t Hwf Hroom) as (f & Hf & Hfree). fold B in Hfree.
  assert (Hfi : f <> i). { intros ->. apply free_at_value in Hfree. congruence. }
  rewrite <- (pos_dist (length B) i f) in Hfree by lia.
  assert (Hd : 0 < dist (length B) i f < length B) by ring_lia.
  destruct (shift_up_spec (length B) B i (rank B i) (dist (length B) i f)) as (B' & HB & HwfB & Hlen & Hvals & Hup).
  { apply wf_gap_ok; [apply (wf_inner _ Hwf)|done]. }
  { done. } { done. } { lia. }
  assert (Hperm : values_of B ≡ₚ w :: values_of B').
  { rewrite Hvals. destruct (values_of_middle B i b (mark_free b) Hb) as (l1 & l2 & E1 & E2).
    replace (with_gap B i) with (<[i := mark_free b]> B).
    - rewrite E1, E2, Hu. simpl. by rewrite Permutation_middle.
    - unfold with_gap. rewrite list_insert_alter. apply list_alter_ext; [|done]. intros x Hx. by simplify_eq. }
  assert (Hsize : m_size t = S (length (values_of B'))).
  { rewrite (wf_size _ Hwf). change (table_values t) with (values_of B). by rewrite Hperm. }
  unfold delete_bucket, at_index. fold B. rewrite Hb. simpl. unfold used_value in Hu.
  destruct (is_free b); [done|]. simpl. rewrite Hcap, HB. simpl. eexists. split; [done|].
  split_and!; simpl; try done.
  - split; simpl; try done.
    + pose proof (wf_distinct _ Hwf) as Hdis. change (table_values t) with (values_of B) in Hdis.
      rewrite Hperm in Hdis. apply Hdis.
    + change (m_size t - 1 = length (values_of B')). lia.
    + left. lia.
  - intros j x Hj Hx. destruct (Hup j x Hx) as [Hv|(m & _ & _ & Hv)]; rewrite with_gap_value in Hv.
    + case_decide; [done|]. eauto.
    + case_decide as E; [done|]. exists (next_index (length B) j). split; [ring_lia|done].
Qed.

Lemma find_spec t v :
  wf_table t ->
  exists o, table_find t v = Ret o /\ found_by (fun entry => traits_equals entry v) (m_buckets t) o.
Proof.
  intros Hwf. unfold table_find. destruct (table_is_empty t) eqn:E.
  - pose proof (lookup_with_hash_spec t _ _ Hwf (selects_value v)) as (o & Ho & Hby).
    unfold lookup_with_hash in Ho. rewrite E in Ho. eauto.
  - apply lookup_with_hash_spec; [done|apply selects_value].
Qed.

Lemma table_remove_spec t v :
  wf_table t ->
  exists r t', table_remove t v = Ret (r, t') /\ wf_table t'
    /\ if r then exists w, traits_equals w v = true /\ table_values t ≡ₚ w :: table_values t'
       else t' = t /\ Forall (fun w => traits_equals w v = false) (table_values t).
Proof.
  intros Hwf. unfold table_remove. destruct (find_spec t v Hwf) as ([i|] & -> & Hby); simpl.
  - destruct Hby as (w & Hw & E).
    destruct (delete_bucket_spec t i w Hwf Hw) as (t' & -> & Hwf' & _ & Hperm & _). simpl. eauto 10.
  - eauto 10.
Qed.

Lemma take_all_loop_spec fuel t P i acc :
  wf_table t -> m_capacity t - i + m_size t < fuel ->
  (forall j x, j < i -> value_at (m_buckets t) j = Some x -> P x = false) ->
  exists taken t', take_all_loop fuel t P i acc = Ret (acc ++ taken, t') /\ wf_table t'
    /\ m_capacity t' = m_capacity t /\ table_values t ≡ₚ taken ++ table_values t'
    /\ Forall (fun x => P x = true) taken /\ Forall (fun x => P x = false) (table_values t').
Proof.
  revert t i acc. induction fuel as [|fuel IH]; intros t i acc Hwf Hfuel Hdone; [lia|].
  simpl. destruct (Nat.ltb_spec i (m_capacity t)) as [Hi|Hi].
  2:{ exists [], t. rewrite app_nil_r. split_and!; try done. apply Forall_forall.
      intros x [j Hj]%values_of_elem. apply (Hdone j); [|done].
      pose proof Hj as (b & Hb & _)%value_at_lookup. apply lookup_lt_Some in Hb. pose proof (wf_capacity _ Hwf). lia. }
  pose proof (wf_capacity _ Hwf) as Hcap.
  destruct (lookup_lt_is_Some_2 (m_buckets t) i) as [b Hb]; [lia|]. unfold at_index. rewrite Hb. simpl.
  assert (Hskip : (forall x, value_at (m_buckets t) i = Some x -> P x = false) ->
    forall j x, j < S i -> value_at (m_buckets t) j = Some x -> P x = false).
  { intros Hx j x Hj Hv. destruct (decide (j = i)) as [->|]; [auto|]. apply (Hdone j); [lia|done]. }
  destruct (is_free b) eqn:Hfb.
  { apply IH; [done|lia|]. apply Hskip. intros x. rewrite free_at_value; [done|by exists b]. }
  destruct (bucket_ok_not_free (length (m_buckets t)) i b) as [w Hw]; [by apply (wf_ok _ (wf_inner _ Hwf))|done|].
  assert (Hval : value_at (m_buckets t) i = Some w).
  { apply value_at_lookup. exists b. split; [done|by eapply holds_value]. }
  rewrite (holds_slot _ _ _ _ Hw). simpl. destruct (P w) eqn:HP; simpl.
  2:{ apply IH; [done|lia|]. apply Hskip. rewrite Hval. by intros x [= <-]. }
  destruct (delete_bucket_spec t i w Hwf Hval) as (t1 & -> & Hwf1 & Hcap1 & Hperm & Hprov). simpl.
  assert (Hsize : m_size t = S (m_size t1)) by (by rewrite (wf_size _ Hwf), (wf_size _ Hwf1), Hperm).
  destruct (lookup_lt_is_Some_2 (m_buckets t1) i) as [b1 Hb1]; [rewrite <- (wf_capacity _ Hwf1); lia|].
  rewrite Hb1. simpl.
  assert (Hdone1 : forall j x, j < i -> value_at (m_buckets t1) j = Some x -> P x = false).
  { intros j x Hj Hv. destruct (Hprov j x Hj Hv) as (k & Hk & Hkv). eauto. }
  destruct (IH t1 (if is_free b1 then S i else i) (acc ++ [w])) as (taken & t' & -> & Hwf' & Hcap' & Hvals & Ht & Hrest).
  { done. } { destruct (is_free b1); lia. }
  { destruct (is_free b1) eqn:Hfb1; [|done]. intros j x Hj Hv. destruct (decide (j = i)) as [->|].
    - rewrite free_at_value in Hv; [done|by exists b1].
    - apply (Hdone1 j); [lia|done]. }
  exists (w :: taken), t'. rewrite <- app_assoc. split_and!; try done; [congruence| |by constructor].
  rewrite Hperm, Hvals. done.
Qed.

Lemma take_all_matching_spec t P :
  wf_table t ->
  exists taken t', take_all_matching t P = Ret (taken, t') /\ wf_table t'
    /\ table_values t ≡ₚ taken ++ table_values t'
    /\ Forall (fun x => P x = true) taken /\ Forall (fun x => P x = false) (table_values t').
Proof.
  intros Hwf. unfold take_all_matching.
  destruct (take_all_loop_spec (m_capacity t + m_size t + 1) t P 0 []) as (taken & t' & -> & ? & _ & ?);
    [done|lia|lia|eauto].
Qed.

Lemma empty_table_wf : wf_table empty_table.
Proof. apply (empty_buckets_wf 0). Qed.

Lemma ensure_capacity_wf t n t' : wf_table t -> ensure_capacity t n = Ret t' -> wf_table t'.
Proof.
  intros Hwf. unfold ensure_capacity. destruct (_ <=? _); [by intros [= <-]|].
  destruct (rehash_spec t (n * 100 / grow_at_load_factor_percent + 1) Hwf) as (t1 & -> & Hwf1 & _). by intros [= <-].
Qed.

Lemma clear_with_capacity_wf t : wf_table t -> wf_table (clear_with_capacity t).
Proof. intros Hwf. unfold clear_with_capacity. destruct (_ =? _); [done|apply empty_buckets_wf]. Qed.

(** ** Reachable tables *)

(** The tables that the operations build from an empty one *)
Inductive reachable : HashTable T -> Prop :=
| reachable_empty : reachable empty_table
| reachable_set t v behavior r t' :
    reachable t -> table_set t v behavior = Ret (r, t') -> reachable t'
| reachable_remove t v r t' : reachable t -> table_remove t v = Ret (r, t') -> reachable t'
| reachable_take t P taken t' : reachable t -> take_all_matching t P = Ret (taken, t') -> reachable t'
| reachable_ensure t n t' : reachable t -> ensure_capacity t n = Ret t' -> reachable t'
| reachable_clear t : reachable t -> reachable (clear_with_capacity t).

Lemma reachable_wf t : reachable t -> wf_table t.
Proof.
  induction 1 as [|t v behavior r t' _ IH E|t v r t' _ IH E|t P taken t' _ IH E|t n t' _ IH E|t _ IH].
  - apply empty_table_wf.
  - destruct (table_set_spec t v behavior IH) as (r1 & t1 & E1 & Hwf & _). congruence.
  - destruct (table_remove_spec t v IH) as (r1 & t1 & E1 & Hwf & _). congruence.
  - destruct (take_all_matching_spec t P IH) as (r1 & t1 & E1 & Hwf & _). congruence.
  - by eapply ensure_capacity_wf.
  - by apply clear_with_capacity_wf.
Qed.

(** In every table that the operations of [HashTable] can build, [find]
    terminates without touching raw memory and returns the one bucket that holds
    an equal value, or [end()] when there is none; the size is the number of
    used buckets, a bucket is always free, and each probe length is at most one
    more than that of the bucket before it. *)
Theorem hash_table_finds t v :
  reachable t ->
  (exists o, table_find t v = Ret o
     /\ forall i, o = Some i <-> exists w, value_at (m_buckets t) i = Some w /\ traits_equals w v = true)
  /\ m_size t = length (table_values t)
  /\ (m_capacity t <> 0 -> exists i, free_at (m_buckets t) i)
  /\ forall i, i < m_capacity t -> rank (m_buckets t) (next_index (m_capacity t) i) <= S (rank (m_buckets t) i).
Proof.
  intros Hwf%reachable_wf. split_and!.
  - destruct (find_spec t v Hwf) as (o & Ho & Hby). exists o. split; [done|]. intros i. split.
    + intros ->. exact Hby.
    + intros (w & Hw & E). destruct o as [j|]; simpl in Hby.
      * destruct Hby as (w' & Hw' & E'). f_equal.
        eapply distinct_positions; [apply (wf_distinct _ Hwf)|done|done|].
        by eapply (selects_equal _ _ (selects_value v)).
      * rewrite Forall_forall in Hby. rewrite Hby in E; [done|]. apply values_of_elem. eauto.
  - apply (wf_size _ Hwf).
  - intros Hcap. destruct (wf_room _ Hwf) as [Hroom|]; [|done].
    destruct (free_exists t Hwf Hroom) as (i & _ & ?). eauto.
  - intros i. rewrite (wf_capacity _ Hwf). apply (wf_robin _ (wf_inner _ Hwf)).
Qed.

End facts.

(** A table of numbers whose hashes collide *)
Module CollidingNumbers.

#[export] Instance traits : HashTraits Z := {|
  traits_hash := fun z => (z mod 3)%Z;
  traits_equals := Z.eqb;
  may_have_slow_equality_check := false
|}.

#[export] Instance traits_laws : HashTraitsLaws Z.
Proof.
  split; simpl; intros; rewrite ?Z.eqb_eq in *; congruence.
Qed.

#[export] Instance allocator : Allocator := {| kmalloc_good_size := fun n => n; sizeof_bucket := 16 |}.

#[export] Instance allocator_laws : AllocatorLaws.
Proof. split; simpl; lia. Qed.

End CollidingNumbers.
Import CollidingNumbers.

Lemma hash_table_finds_witness :
  exists t, table_find t 5%Z = Ret (Some 3)
  /\ (exists o, table_find t 5%Z = Ret o
       /\ forall i, o = Some i <-> exists w, value_at (m_buckets t) i = Some w /\ traits_equals w 5%Z = true).
Proof.
  assert (Hr : reachable (mkTable
    [mkBucket 0 0 None; mkBucket 1 0 (Some 4%Z); mkBucket 1 0 (Some 2%Z); mkBucket 2 0 (Some 5%Z);
     mkBucket 0 0 None; mkBucket 0 0 None; mkBucket 0 0 None; mkBucket 0 0 None] 3 8)).
  { eapply (reachable_set _ 5%Z ExistingEntry_Replace InsertedNewEntry).
    - eapply (reachable_set _ 2%Z ExistingEntry_Replace InsertedNewEntry).
      + eapply (reachable_set _ 4%Z ExistingEntry_Replace InsertedNewEntry); [apply reachable_empty|reflexivity].
      + reflexivity.
    - reflexivity. }
  eexists. split; [|exact (proj1 (hash_table_finds _ 5%Z Hr))]. reflexivity.
Defined.
