(* ===== verification/HashMap.v ===== *)
(** * Hash maps: [AK/HashMap.h]

    A [HashMap] is a hash table of entries that are hashed and compared by their
    key.  The abstract specification is stdpp's finite map: [to_map] is the map
    a table stands for, and every operation refines the one of [gmap].

    [MapInterface] is what the clients of a hash map rely on; [HashMap] is an
    instance of it. *)

From S2P Require Import Prelude HashTable HashTableFacts.
From stdpp Require Import gmap sorting.
Local Open Scope Z_scope.

(** [KeyTraits], for keys that are compared with [==] *)
Class KeyTraits (K : Type) := { key_hash : K -> Z; key_slow_equality : bool }.

Section map.
Context {K V : Type} `{Countable K} `{KeyTraits K} `{Allocator}.

(** [Entry] and [EntryTraits] *)
Definition Entry : Type := K * V.

#[global] Instance EntryTraits : HashTraits Entry := {|
  traits_hash := fun entry => key_hash entry.1;
  traits_equals := fun a b => bool_decide (a.1 = b.1);
  may_have_slow_equality_check := key_slow_equality
|}.

Definition HashMap : Type := HashTable Entry.

Definition map_empty : HashMap := empty_table.

Definition map_set (m : HashMap) (key : K) (value : V) (behavior : HashSetExistingEntryBehavior)
    : res (HashSetResult * HashMap) :=
  table_set m (key, value) behavior.

Definition map_find (m : HashMap) (key : K) : res (option nat) :=
  if table_is_empty m then Ret None
  else lookup_with_hash m (key_hash key) (fun entry => bool_decide (entry.1 = key)).

(** [*it] of an iterator that is not [end()] *)
Definition map_entry_at (m : HashMap) (index : nat) : res Entry :=
  let* bucket := at_index (m_buckets m) index in unwrap (b_slot bucket).

Definition map_get (m : HashMap) (key : K) : res (option V) :=
  let* it := map_find m key in
  match it with
  | None => Ret None
  | Some index => let* entry := map_entry_at m index in Ret (Some entry.2)
  end.

Definition map_contains (m : HashMap) (key : K) : res bool :=
  let* it := map_find m key in Ret (match it with Some _ => true | None => false end).

Definition map_remove (m : HashMap) (key : K) : res (bool * HashMap) :=
  let* it := map_find m key in
  match it with
  | Some index => let* m := delete_bucket m index in Ret (true, m)
  | None => Ret (false, m)
  end.

Definition map_take (m : HashMap) (key : K) : res (option V * HashMap) :=
  let* it := map_find m key in
  match it with
  | Some index =>
      let* entry := map_entry_at m index in
      let* m := delete_bucket m index in
      Ret (Some entry.2, m)
  | None => Ret (None, m)
  end.

Definition map_take_all_matching (m : HashMap) (predicate : K -> V -> bool) : res (list Entry * HashMap) :=
  take_all_matching m (fun entry => predicate entry.1 entry.2).

Definition map_remove_all_matching (m : HashMap) (predicate : K -> V -> bool) : res (bool * HashMap) :=
  table_remove_all_matching m (fun entry => predicate entry.1 entry.2).

(** [ensure(key, initialization_callback, behavior)]: the value in the map *)
Definition map_ensure (m : HashMap) (key : K) (initialization_callback : unit -> V)
    (behavior : HashSetExistingEntryBehavior) : res (V * HashMap) :=
  let* (index, m) :=
    table_ensure m (key_hash key) (fun entry => bool_decide (entry.1 = key))
      (fun u => (key, initialization_callback u)) behavior in
  let* entry := map_entry_at m index in Ret (entry.2, m).

(** The entries in the order of iteration *)
Definition map_entries (m : HashMap) : list Entry := table_values m.

Definition map_keys (m : HashMap) : list K := (map_entries m).*1.

Fixpoint set_entries (m : HashMap) (entries : list Entry) : res HashMap :=
  match entries with
  | [] => Ret m
  | (key, value) :: entries =>
      let* (_, m) := map_set m key value ExistingEntry_Replace in set_entries m entries
  end.

(** [update(other)] *)
Definition map_update (m other : HashMap) : res HashMap := set_entries m (map_entries other).

(** [clone()] *)
Definition map_clone (m : HashMap) : res HashMap :=
  let* hash_map_clone := ensure_capacity map_empty (m_size m) in
  set_entries hash_map_clone (map_entries m).

(** [for (auto& [key, value] : map) value = f(key, value)] *)
Definition map_modify (m : HashMap) (f : K -> V -> V) : HashMap :=
  mkTable ((fun b => mkBucket (b_state b) (b_hash b)
              ((fun entry : Entry => (entry.1, f entry.1 entry.2)) <$> b_slot b)) <$> m_buckets m)
    (m_size m) (m_capacity m).

(** [operator==] with the comparison of the value traits *)
Fixpoint entries_in (value_equals : V -> V -> bool) (entries : list Entry) (other : HashMap) : res bool :=
  match entries with
  | [] => Ret true
  | (key, value) :: entries =>
      let* it := map_find other key in
      match it with
      | None => Ret false
      | Some index =>
          let* entry := map_entry_at other index in
          if negb (value_equals value entry.2) then Ret false
          else entries_in value_equals entries other
      end
  end.

Definition map_equals (value_equals : V -> V -> bool) (m other : HashMap) : res bool :=
  if negb (m_size m =? m_size other)%nat then Ret false
  else if table_is_empty m then Ret true
  else entries_in value_equals (map_entries m) other.

(** ** The map that a table stands for *)

Definition to_map (m : HashMap) : gmap K V := list_to_map (table_values m).

End map.
Arguments Entry : clear implicits.
Arguments HashMap : clear implicits.

Section facts.
Context {K V : Type} `{Countable K} `{KeyTraits K} `{AllocatorLaws}.
Implicit Types (m : HashMap K V) (l : list (Entry K V)).

#[global] Instance EntryTraits_laws : HashTraitsLaws (Entry K V).
Proof.
  split; simpl; intros.
  - by apply bool_decide_eq_true.
  - rewrite bool_decide_eq_true in *. done.
  - rewrite bool_decide_eq_true in *. congruence.
  - rewrite bool_decide_eq_true in *. congruence.
Qed.

Lemma distinct_keys l : distinct l <-> NoDup l.*1.
Proof.
  induction l as [|e l IH]; simpl; [by split; [constructor|]|].
  rewrite NoDup_cons, <- IH, Forall_forall. f_equiv. split.
  - intros Hall (e' & E & Hin)%list_elem_of_fmap. specialize (Hall e' Hin).
    rewrite bool_decide_eq_false in Hall. done.
  - intros Hni e' Hin. apply bool_decide_eq_false. intros E. apply Hni. apply list_elem_of_fmap. eauto.
Qed.

Lemma wf_keys m : wf_table m -> NoDup (table_values m).*1.
Proof. intros Hwf. apply distinct_keys, wf_distinct, Hwf. Qed.

Lemma to_map_perm l l' : NoDup l.*1 -> l ≡ₚ l' -> list_to_map (M := gmap K V) l = list_to_map l'.
Proof. apply list_to_map_proper. Qed.

Lemma to_map_lookup m key value :
  wf_table m -> to_map m !! key = Some value <-> (key, value) ∈ table_values m.
Proof. intros Hwf. unfold to_map. symmetry. apply elem_of_list_to_map, wf_keys, Hwf. Qed.

Lemma absent_key m key :
  Forall (fun w : Entry K V => bool_decide (w.1 = key) = false) (table_values m) -> to_map m !! key = None.
Proof.
  intros Hall. apply not_elem_of_list_to_map_1. intros (e & -> & Hin)%list_elem_of_fmap.
  rewrite Forall_forall in Hall. specialize (Hall e Hin). by rewrite bool_decide_eq_false in Hall.
Qed.

Lemma selects_key key : selects (fun entry : Entry K V => bool_decide (entry.1 = key)) (key_hash key).
Proof.
  split.
  - intros w Hw%bool_decide_eq_true. simpl. congruence.
  - intros w w' Hw%bool_decide_eq_true Hw'%bool_decide_eq_true. apply bool_decide_eq_true. congruence.
Qed.

Lemma map_find_spec m key :
  wf_table m ->
  exists o, map_find m key = Ret o
    /\ match o with
       | Some i => exists value, value_at (m_buckets m) i = Some (key, value) /\ to_map m !! key = Some value
       | None => to_map m !! key = None
       end.
Proof.
  intros Hwf. unfold map_find.
  destruct (lookup_with_hash_spec m _ _ Hwf (selects_key key)) as (o & Ho & Hby).
  exists o. split.
  - destruct (table_is_empty m) eqn:E; [|done]. unfold lookup_with_hash in Ho. by rewrite E in Ho.
  - destruct o as [i|]; [|by apply absent_key].
    destruct Hby as ([k value] & Hv & E%bool_decide_eq_true). simpl in E. subst k.
    exists value. split; [done|]. apply to_map_lookup; [done|]. apply values_of_elem. eauto.
Qed.

Lemma map_entry_at_spec m i e : value_at (m_buckets m) i = Some e -> map_entry_at m i = Ret e.
Proof.
  intros (b & Hb & Hu)%value_at_lookup. unfold map_entry_at, at_index. rewrite Hb. simpl.
  unfold used_value in Hu. destruct (is_free b); [done|]. by rewrite Hu.
Qed.

Lemma map_get_spec m key : wf_table m -> map_get m key = Ret (to_map m !! key).
Proof.
  intros Hwf. unfold map_get. destruct (map_find_spec m key Hwf) as ([i|] & -> & Hby); simpl.
  - destruct Hby as (value & Hv & ->). by rewrite (map_entry_at_spec _ _ _ Hv).
  - by rewrite Hby.
Qed.

Lemma map_contains_spec m key :
  wf_table m -> map_contains m key = Ret (bool_decide (is_Some (to_map m !! key))).
Proof.
  intros Hwf. unfold map_contains. destruct (map_find_spec m key Hwf) as ([i|] & -> & Hby); simpl; f_equal; symmetry.
  - destruct Hby as (value & _ & ->). apply bool_decide_eq_true. eauto.
  - rewrite Hby. apply bool_decide_eq_false. by intros [].
Qed.

Definition set_map (behavior : HashSetExistingEntryBehavior) (key : K) (value : V) (g : gmap K V) : gmap K V :=
  match behavior, g !! key with ExistingEntry_Keep, Some _ => g | _, _ => <[key := value]> g end.

Definition set_result (behavior : HashSetExistingEntryBehavior) (key : K) (g : gmap K V) : HashSetResult :=
  match g !! key with None => InsertedNewEntry | Some _ => existing_result behavior end.

Lemma set_effect_map m m' key value behavior r :
  wf_table m -> wf_table m' -> set_effect behavior (table_values m) (key, value) r (table_values m') ->
  r = set_result behavior key (to_map m) /\ to_map m' = set_map behavior key value (to_map m).
Proof.
  intros Hwf Hwf' [(-> & Hnew & Hvals)|([k old] & rest & E%bool_decide_eq_true & Hvals & -> & Hvals')].
  - pose proof (absent_key m key Hnew) as Hnone. unfold set_result, set_map. rewrite Hnone. split; [done|].
    transitivity (<[key := value]> (to_map m)); [|by destruct behavior].
    unfold to_map. by rewrite (to_map_perm _ _ (wf_keys _ Hwf') Hvals).
  - simpl in E. subst k. assert (Hm : to_map m = <[key := old]> (list_to_map rest)).
    { unfold to_map. by rewrite (to_map_perm _ _ (wf_keys _ Hwf) Hvals). }
    unfold set_result, set_map. rewrite Hm, lookup_insert_eq. split; [done|].
    unfold to_map. rewrite (to_map_perm _ _ (wf_keys _ Hwf') Hvals').
    destruct behavior; simpl; [done|]. by rewrite insert_insert_eq.
Qed.

Lemma map_set_spec m key value behavior :
  wf_table m ->
  exists m', map_set m key value behavior = Ret (set_result behavior key (to_map m), m') /\ wf_table m'
    /\ to_map m' = set_map behavior key value (to_map m).
Proof.
  intros Hwf. unfold map_set.
  destruct (table_set_spec m (key, value) behavior Hwf) as (r & m' & Hr & Hwf' & Heff).
  apply set_effect_map in Heff as [-> Hm']; try done. eauto.
Qed.

Lemma to_map_delete m m' key value :
  wf_table m -> table_values m ≡ₚ (key, value) :: table_values m' -> to_map m' = delete key (to_map m).
Proof.
  intros Hwf Hvals. pose proof (wf_keys _ Hwf) as Hnd. unfold to_map. rewrite (to_map_perm _ _ Hnd Hvals).
  rewrite Hvals in Hnd. simpl in Hnd. apply NoDup_cons in Hnd as [Hni _]. simpl.
  rewrite delete_insert_id; [done|]. by apply not_elem_of_list_to_map_1.
Qed.

Lemma map_remove_spec m key :
  wf_table m ->
  exists m', map_remove m key = Ret (bool_decide (is_Some (to_map m !! key)), m') /\ wf_table m'
    /\ to_map m' = delete key (to_map m).
Proof.
  intros Hwf. unfold map_remove. destruct (map_find_spec m key Hwf) as ([i|] & -> & Hby); simpl.
  - destruct Hby as (value & Hv & ->).
    destruct (delete_bucket_spec m i _ Hwf Hv) as (m' & -> & Hwf' & _ & Hvals & _). simpl.
    exists m'. split_and!; try done. by eapply to_map_delete.
  - exists m. rewrite Hby. split_and!; try done. by rewrite delete_id.
Qed.

Lemma map_take_spec m key :
  wf_table m ->
  exists m', map_take m key = Ret (to_map m !! key, m') /\ wf_table m' /\ to_map m' = delete key (to_map m).
Proof.
  intros Hwf. unfold map_take. destruct (map_find_spec m key Hwf) as ([i|] & -> & Hby); simpl.
  - destruct Hby as (value & Hv & ->). rewrite (map_entry_at_spec _ _ _ Hv). simpl.
    destruct (delete_bucket_spec m i _ Hwf Hv) as (m' & -> & Hwf' & _ & Hvals & _). simpl.
    exists m'. split_and!; try done. by eapply to_map_delete.
  - exists m. rewrite Hby. split_and!; try done. by rewrite delete_id.
Qed.

(** Splitting the entries by a predicate splits the map. *)
Lemma to_map_filter (p : K -> V -> bool) l kept dropped :
  NoDup l.*1 -> l ≡ₚ dropped ++ kept ->
  Forall (fun e : Entry K V => p e.1 e.2 = true) dropped ->
  Forall (fun e : Entry K V => p e.1 e.2 = false) kept ->
  list_to_map (M := gmap K V) kept = filter (fun e => p e.1 e.2 = false) (list_to_map (M := gmap K V) l).
Proof.
  intros Hnd Hl Hd Hk. rewrite (to_map_perm _ _ Hnd Hl).
  assert (Hall : NoDup (dropped ++ kept).*1) by (by rewrite <- Hl).
  assert (Hkept : NoDup kept.*1) by (rewrite fmap_app in Hall; by apply NoDup_app in Hall as (_ & _ & ?)).
  apply map_eq. intros key. apply option_eq. intros value.
  rewrite map_lookup_filter_Some, <- !elem_of_list_to_map, elem_of_app by done.
  rewrite Forall_forall in Hd, Hk. split.
  - intros Hin. split; [by right|]. by apply (Hk (key, value)).
  - intros [[Hin|Hin] Hp]; [|done]. specialize (Hd _ Hin). simpl in *. congruence.
Qed.

Lemma map_take_all_matching_spec m p :
  wf_table m ->
  exists taken m', map_take_all_matching m p = Ret (taken, m') /\ wf_table m'
    /\ to_map m' = filter (fun e => p e.1 e.2 = false) (to_map m)
    /\ table_values m ≡ₚ taken ++ table_values m'
    /\ Forall (fun e : Entry K V => p e.1 e.2 = true) taken.
Proof.
  intros Hwf. unfold map_take_all_matching.
  destruct (take_all_matching_spec m (fun entry => p entry.1 entry.2) Hwf)
    as (taken & m' & -> & Hwf' & Hvals & Ht & Hk).
  exists taken, m'. split_and!; try done. eapply to_map_filter; [by apply wf_keys|done|done|done].
Qed.

Lemma map_ensure_spec m key callback behavior :
  wf_table m ->
  exists m' value, map_ensure m key callback behavior = Ret (value, m') /\ wf_table m'
    /\ to_map m' = set_map behavior key (callback tt) (to_map m) /\ to_map m' !! key = Some value.
Proof.
  intros Hwf. unfold map_ensure, table_ensure.
  destruct (grow_spec m Hwf) as (m1 & -> & Hwf1 & Hvals & Hroom). simpl.
  assert (Hm1 : to_map m1 = to_map m) by (apply to_map_perm; [by apply wf_keys|done]).
  set (v := (key, callback tt) : Entry K V). change (key_hash key) with (traits_hash v).
  destruct (lookup_for_writing_spec m1 (fun entry : Entry K V => bool_decide (entry.1 = key)) v behavior)
    as [(i & [k w] & -> & Hw & E%bool_decide_eq_true)|(i & m2 & -> & Hnew & Hadded)]; [done|lia|apply selects_key| |]; simpl.
  - simpl in E. subst k. assert (Hold : to_map m1 !! key = Some w).
    { apply to_map_lookup; [done|]. apply values_of_elem. eauto. }
    unfold set_map. rewrite <- Hm1, Hold. destruct behavior; simpl.
    + rewrite (map_entry_at_spec _ _ _ Hw). simpl. eauto 10.
    + destruct (replace_spec m1 i (key, w) v Hwf1 Hw) as (rest & Hwf' & Hp1 & Hp2); [by apply bool_decide_eq_true|].
      assert (Hat : value_at (m_buckets (write_slot m1 i v)) i = Some v).
      { pose proof Hw as (b & Hb & Hu)%value_at_lookup. unfold value_at, write_slot. simpl.
        rewrite list_lookup_alter_eq, Hb. simpl. unfold used_value, is_free in *. simpl.
        by destruct (b_state b =? BucketState_Free). }
      rewrite (map_entry_at_spec _ _ _ Hat). simpl. do 2 eexists. split; [done|]. split; [done|].
      assert (Hm' : to_map (write_slot m1 i v) = <[key := callback tt]> (to_map m1)).
      { unfold to_map. rewrite (to_map_perm _ _ (wf_keys _ Hwf') Hp2), (to_map_perm _ _ (wf_keys _ Hwf1) Hp1).
        simpl. by rewrite insert_insert_eq. }
      split; [done|]. by rewrite Hm', lookup_insert_eq.
  - pose proof (added_wf m1 v _ _ Hwf1 Hnew Hroom Hadded) as Hwf'.
    pose proof (absent_key m1 key Hnew) as Hnone.
    assert (Hm' : to_map (write_slot m2 i v) = <[key := callback tt]> (to_map m1)).
    { unfold to_map. by rewrite (to_map_perm _ _ (wf_keys _ Hwf') (added_values _ _ _ _ Hadded)). }
    rewrite (map_entry_at_spec _ _ _ (added_at _ _ _ _ Hadded)). simpl. do 2 eexists. split; [done|].
    split; [done|]. rewrite Hm', lookup_insert_eq. split; [|done].
    unfold set_map. rewrite <- Hm1, Hnone. by destruct behavior.
Qed.

Lemma set_entries_spec m l :
  wf_table m ->
  exists m', set_entries m l = Ret m' /\ wf_table m'
    /\ to_map m' = foldl (fun g (e : Entry K V) => <[e.1 := e.2]> g) (to_map m) l.
Proof.
  revert m. induction l as [|[key value] l IH]; intros m Hwf; simpl; [eauto|].
  destruct (map_set_spec m key value ExistingEntry_Replace Hwf) as (m1 & -> & Hwf1 & Hm1). simpl.
  destruct (IH m1 Hwf1) as (m' & -> & Hwf' & Hm'). exists m'. rewrite Hm', Hm1. done.
Qed.

(** Entries with distinct keys, set one after the other, take precedence. *)
Lemma foldl_set_union l (g : gmap K V) :
  NoDup l.*1 -> foldl (fun g (e : Entry K V) => <[e.1 := e.2]> g) g l = list_to_map l ∪ g.
Proof.
  revert g. induction l as [|[key value] l IH]; intros g Hnd; simpl; [by rewrite (left_id_L ∅ (∪))|].
  simpl in Hnd. apply NoDup_cons in Hnd as [Hni Hnd]. rewrite IH by done.
  rewrite <- insert_union_l, insert_union_r; [done|]. by apply not_elem_of_list_to_map_1.
Qed.

Lemma map_update_spec m other :
  wf_table m -> wf_table other ->
  exists m', map_update m other = Ret m' /\ wf_table m' /\ to_map m' = to_map other ∪ to_map m.
Proof.
  intros Hwf Hwfo. destruct (set_entries_spec m (map_entries other) Hwf) as (m' & Hm & Hwf' & Hmap).
  exists m'. split_and!; try done. rewrite Hmap. apply foldl_set_union. by apply wf_keys.
Qed.

Lemma ensure_capacity_spec m n :
  wf_table m -> exists m', ensure_capacity m n = Ret m' /\ wf_table m' /\ to_map m' = to_map m.
Proof.
  intros Hwf. unfold ensure_capacity. destruct (_ <=? _)%nat; [eauto|].
  destruct (rehash_spec m (n * 100 / grow_at_load_factor_percent + 1) Hwf) as (m' & -> & Hwf' & Hvals & _).
  exists m'. split_and!; try done. apply to_map_perm; [by apply wf_keys|done].
Qed.

Lemma map_clone_spec m :
  wf_table m -> exists m', map_clone m = Ret m' /\ wf_table m' /\ to_map m' = to_map m.
Proof.
  intros Hwf. unfold map_clone.
  destruct (ensure_capacity_spec map_empty (m_size m)) as (m1 & -> & Hwf1 & Hm1); [apply empty_table_wf|]. simpl.
  destruct (set_entries_spec m1 (map_entries m) Hwf1) as (m' & -> & Hwf' & Hmap).
  exists m'. split_and!; try done. rewrite Hmap, Hm1, foldl_set_union by (by apply wf_keys).
  apply (right_id_L ∅ (∪)).
Qed.

Lemma to_map_size m : wf_table m -> m_size m = size (to_map m).
Proof.
  intros Hwf. rewrite (wf_size _ Hwf). unfold to_map. rewrite <- (length_fmap fst).
  rewrite <- (size_list_to_set (C := gset K)) by (by apply wf_keys).
  rewrite <- size_dom. by rewrite dom_list_to_map_L.
Qed.

Lemma entries_in_spec veq l other :
  wf_table other ->
  entries_in veq l other =
  Ret (forallb (fun e : Entry K V => match to_map other !! e.1 with Some v => veq e.2 v | None => false end) l).
Proof.
  intros Hwf. induction l as [|[key value] l IH]; simpl; [done|].
  destruct (map_find_spec other key Hwf) as ([i|] & -> & Hby); simpl.
  - destruct Hby as (v & Hv & ->). rewrite (map_entry_at_spec _ _ _ Hv). simpl. by destruct (veq value v).
  - by rewrite Hby.
Qed.

(** [operator==] decides equality of the maps. *)
Lemma map_equals_spec veq m other :
  (forall a b : V, veq a b = true <-> a = b) -> wf_table m -> wf_table other ->
  exists b, map_equals veq m other = Ret b /\ (b = true <-> to_map m = to_map other).
Proof.
  intros Hveq Hwf Hwfo. unfold map_equals.
  rewrite (to_map_size m Hwf), (to_map_size other Hwfo).
  destruct (Nat.eqb_spec (size (to_map m)) (size (to_map other))) as [Hsize|Hsize]; simpl.
  2:{ exists false. split; [done|]. split; [done|congruence]. }
  unfold table_is_empty. rewrite (to_map_size m Hwf). destruct (Nat.eqb_spec (size (to_map m)) 0) as [Hz|_].
  { exists true. split; [done|]. split; [|done]. intros _.
    rewrite (map_size_empty_inv _ Hz). rewrite Hz in Hsize. by rewrite (map_size_empty_inv (to_map other)). }
  rewrite entries_in_spec by done. eexists. split; [done|]. rewrite forallb_forall. split.
  - intros Hall. apply map_subseteq_size_eq; [|lia]. apply map_subseteq_spec. intros key value Hin.
    apply to_map_lookup in Hin; [|done]. apply list_elem_of_In in Hin. specialize (Hall _ Hin). simpl in Hall.
    destruct (to_map other !! key) as [v|]; [|done]. apply Hveq in Hall. congruence.
  - intros Heq [key value] Hin%list_elem_of_In. simpl. apply to_map_lookup in Hin; [|done].
    rewrite <- Heq, Hin. by apply Hveq.
Qed.

(** ** Changing the values in place *)

Lemma map_modify_values m f :
  table_values (map_modify m f) = (fun e : Entry K V => (e.1, f e.1 e.2)) <$> table_values m.
Proof.
  unfold table_values, map_modify. simpl. induction (m_buckets m) as [|b l IH]; [done|].
  destruct b as [st h sl]. simpl. unfold used_value, is_free in *. simpl.
  destruct (st =? BucketState_Free), sl; simpl; first [exact IH|f_equal; exact IH].
Qed.

Lemma map_modify_value_at m f i :
  value_at (m_buckets (map_modify m f)) i =
  (fun e : Entry K V => (e.1, f e.1 e.2)) <$> value_at (m_buckets m) i.
Proof.
  unfold value_at, map_modify. simpl. rewrite list_lookup_fmap. destruct (m_buckets m !! i) as [b|]; [|done].
  simpl. unfold used_value, is_free. simpl. by destruct (b_state b =? BucketState_Free).
Qed.

Lemma map_modify_spec m f :
  wf_table m ->
  wf_table (map_modify m f) /\ to_map (map_modify m f) = map_imap (fun k v => Some (f k v)) (to_map m).
Proof.
  intros Hwf. assert (Hwf' : wf_table (map_modify m f)).
  { destruct Hwf as [Hcap [Hok Hrobin] Hd Hsize Hroom].
    assert (Hlen : length (m_buckets (map_modify m f)) = length (m_buckets m)) by (simpl; apply length_fmap).
    assert (Hrank : forall i, rank (m_buckets (map_modify m f)) i = rank (m_buckets m) i).
    { intros i. unfold rank. rewrite map_modify_value_at, Hlen. by destruct (value_at (m_buckets m) i). }
    split; [by rewrite Hlen| | | |done].
    - split; rewrite Hlen.
      + intros i b Hb. simpl in Hb. rewrite list_lookup_fmap in Hb.
        destruct (m_buckets m !! i) as [b0|] eqn:Hb0; [|done]. injection Hb as <-.
        destruct (Hok i b0 Hb0) as [Hf|[e [Hs Hst Hh]]]; [by left|]. right.
        exists (e.1, f e.1 e.2). split; [simpl; by rewrite Hs|done|done].
      + intros i Hi. rewrite !Hrank. auto.
    - rewrite map_modify_values. apply distinct_keys. rewrite <- list_fmap_compose.
      by apply distinct_keys in Hd.
    - by rewrite map_modify_values, length_fmap. }
  split; [done|]. apply map_eq. intros key. apply option_eq. intros value.
  rewrite to_map_lookup, map_modify_values, map_lookup_imap, list_elem_of_fmap by done. split.
  - intros ([k v] & [= -> ->] & Hin). apply to_map_lookup in Hin; [|done]. simpl. by rewrite Hin.
  - intros (v & Hv & [= <-])%bind_Some. exists (key, v). split; [done|]. by apply to_map_lookup.
Qed.

(** ** Refinement of finite maps *)

(** The operations, what a caller sees of each, and their effect on a map *)
Inductive map_operation :=
| OpSet (key : K) (value : V) (behavior : HashSetExistingEntryBehavior)
| OpGet (key : K)
| OpContains (key : K)
| OpRemove (key : K)
| OpTake (key : K)
| OpTakeAll (predicate : K -> V -> bool)
| OpEnsure (key : K) (value : V)
| OpModify (f : K -> V -> V)
| OpUpdate (entries : list (Entry K V))
| OpReserve (capacity : nat)
| OpClone.

Inductive observation :=
| SawResult (result : HashSetResult)
| SawBool (b : bool)
| SawValue (value : option V)
| SawEntries (entries : gmap K V)
| SawNothing.

Definition map_step (m : HashMap K V) (op : map_operation) : res (observation * HashMap K V) :=
  match op with
  | OpSet key value behavior => let* (r, m) := map_set m key value behavior in Ret (SawResult r, m)
  | OpGet key => let* value := map_get m key in Ret (SawValue value, m)
  | OpContains key => let* b := map_contains m key in Ret (SawBool b, m)
  | OpRemove key => let* (b, m) := map_remove m key in Ret (SawBool b, m)
  | OpTake key => let* (value, m) := map_take m key in Ret (SawValue value, m)
  | OpTakeAll predicate =>
      let* (taken, m) := map_take_all_matching m predicate in Ret (SawEntries (list_to_map taken), m)
  | OpEnsure key value =>
      let* (value, m) := map_ensure m key (fun _ => value) ExistingEntry_Keep in Ret (SawValue (Some value), m)
  | OpModify f => Ret (SawNothing, map_modify m f)
  | OpUpdate entries => let* m := set_entries m entries in Ret (SawNothing, m)
  | OpReserve capacity => let* m := ensure_capacity m capacity in Ret (SawNothing, m)
  | OpClone => let* m := map_clone m in Ret (SawNothing, m)
  end.

Definition abstract_step (g : gmap K V) (op : map_operation) : observation * gmap K V :=
  match op with
  | OpSet key value behavior => (SawResult (set_result behavior key g), set_map behavior key value g)
  | OpGet key => (SawValue (g !! key), g)
  | OpContains key => (SawBool (bool_decide (is_Some (g !! key))), g)
  | OpRemove key => (SawBool (bool_decide (is_Some (g !! key))), delete key g)
  | OpTake key => (SawValue (g !! key), delete key g)
  | OpTakeAll p => (SawEntries (filter (fun e => p e.1 e.2 = true) g), filter (fun e => p e.1 e.2 = false) g)
  | OpEnsure key value =>
      (SawValue (Some (default value (g !! key))), set_map ExistingEntry_Keep key value g)
  | OpModify f => (SawNothing, map_imap (fun k v => Some (f k v)) g)
  | OpUpdate entries => (SawNothing, foldl (fun g (e : Entry K V) => <[e.1 := e.2]> g) g entries)
  | OpReserve _ | OpClone => (SawNothing, g)
  end.

Fixpoint run_map (m : HashMap K V) (ops : list map_operation) : res (list observation * HashMap K V) :=
  match ops with
  | [] => Ret ([], m)
  | op :: ops =>
      let* (seen, m) := map_step m op in
      let* (rest, m) := run_map m ops in
      Ret (seen :: rest, m)
  end.

Fixpoint abstract_run (g : gmap K V) (ops : list map_operation) : list observation * gmap K V :=
  match ops with
  | [] => ([], g)
  | op :: ops =>
      let (seen, g) := abstract_step g op in
      let (rest, g) := abstract_run g ops in
      (seen :: rest, g)
  end.

Lemma taken_map (p : K -> V -> bool) l kept taken :
  NoDup l.*1 -> l ≡ₚ taken ++ kept ->
  Forall (fun e : Entry K V => p e.1 e.2 = true) taken ->
  Forall (fun e : Entry K V => p e.1 e.2 = false) kept ->
  list_to_map (M := gmap K V) taken = filter (fun e => p e.1 e.2 = true) (list_to_map (M := gmap K V) l).
Proof.
  intros Hnd Hl Ht Hk. rewrite (to_map_filter (fun k v => negb (p k v)) l taken kept).
  - apply map_filter_ext. intros k v _. simpl. destruct (p k v); done.
  - done.
  - by rewrite (comm (++)).
  - eapply Forall_impl; [exact Hk|]. by intros e ->.
  - eapply Forall_impl; [exact Ht|]. by intros e ->.
Qed.

Lemma map_step_refines m op :
  wf_table m ->
  exists seen m', map_step m op = Ret (seen, m') /\ wf_table m' /\ abstract_step (to_map m) op = (seen, to_map m').
Proof.
  intros Hwf. destruct op as [k v behavior|k|k|k|k|p|k v|f|l|n|]; simpl.
  - destruct (map_set_spec m k v behavior Hwf) as (m' & -> & ? & Hm). simpl. rewrite <- Hm. eauto.
  - rewrite map_get_spec by done. simpl. eauto.
  - rewrite map_contains_spec by done. simpl. eauto.
  - destruct (map_remove_spec m k Hwf) as (m' & -> & ? & Hm). simpl. rewrite <- Hm. eauto.
  - destruct (map_take_spec m k Hwf) as (m' & -> & ? & Hm). simpl. rewrite <- Hm. eauto.
  - unfold map_take_all_matching.
    destruct (take_all_matching_spec m (fun e => p e.1 e.2) Hwf) as (taken & m' & -> & Hwf' & Hvals & Ht & Hk). simpl.
    do 2 eexists. split; [done|]. split; [done|]. pose proof (wf_keys m Hwf) as Hnd. unfold to_map. f_equal.
    + f_equal. symmetry. by eapply taken_map.
    + symmetry. by eapply to_map_filter.
  - destruct (map_ensure_spec m k (fun _ => v) ExistingEntry_Keep Hwf) as (m' & value & -> & ? & Hm & Hv). simpl.
    do 2 eexists. split; [done|]. split; [done|]. rewrite Hm. do 3 f_equal.
    rewrite Hm in Hv. unfold set_map in Hv. destruct (to_map m !! k) as [old|] eqn:E; simpl; [congruence|].
    rewrite lookup_insert_eq in Hv. congruence.
  - destruct (map_modify_spec m f Hwf) as [? Hm]. rewrite <- Hm. eauto.
  - destruct (set_entries_spec m l Hwf) as (m' & -> & ? & Hm). simpl. rewrite <- Hm. eauto.
  - destruct (ensure_capacity_spec m n Hwf) as (m' & -> & ? & Hm). simpl. rewrite <- Hm. eauto.
  - destruct (map_clone_spec m Hwf) as (m' & -> & ? & Hm). simpl. rewrite <- Hm. eauto.
Qed.

Lemma run_map_refines ops m :
  wf_table m ->
  exists m', run_map m ops = Ret ((abstract_run (to_map m) ops).1, m') /\ wf_table m'
    /\ to_map m' = (abstract_run (to_map m) ops).2.
Proof.
  revert m. induction ops as [|op ops IH]; intros m Hwf; simpl; [eauto|].
  destruct (map_step_refines m op Hwf) as (seen & m1 & -> & Hwf1 & ->). simpl.
  destruct (IH m1 Hwf1) as (m' & -> & Hwf' & Hm). simpl.
  destruct (abstract_run (to_map m1) ops) as [rest g]. simpl in *. eauto.
Qed.

(** C22: a [HashMap] implements a finite map.  For every hash function, every
    rounding of the allocator and every sequence of operations (set, get,
    contains, remove, take, take_all_matching, ensure, changing values in place,
    setting many entries, reserving, cloning), starting from an empty map, the
    code terminates, reads no raw bucket, returns what the operations on finite
    maps return, and ends with the map that they end with. *)
Theorem hash_map_refines (ops : list map_operation) :
  exists m, run_map map_empty ops = Ret ((abstract_run ∅ ops).1, m)
    /\ to_map m = (abstract_run ∅ ops).2 /\ m_size m = size (to_map m).
Proof.
  destruct (run_map_refines ops map_empty empty_table_wf) as (m & Hrun & Hwf & Hm).
  exists m. split_and!; [done|done|]. by apply to_map_size.
Qed.

End facts.

Section witness.
Import CollidingNumbers.

#[local] Instance number_keys : KeyTraits Z := {| key_hash := fun z => z mod 3; key_slow_equality := true |}.

Lemma hash_map_refines_witness :
  let ops : list (map_operation (K := Z) (V := Z)) :=
    [OpSet 1 10 ExistingEntry_Replace; OpSet 4 40 ExistingEntry_Replace; OpSet 2 20 ExistingEntry_Replace;
     OpRemove 1; OpTakeAll (fun k v => v =? 20); OpGet 4] in
  (abstract_run ∅ ops).2 = {[4 := 40]} /\
  exists m, run_map map_empty ops = Ret ((abstract_run ∅ ops).1, m)
    /\ to_map m = (abstract_run ∅ ops).2 /\ m_size m = size (to_map m).
Proof. intros ops. split; [reflexivity|]. apply (hash_map_refines ops). Defined.

End witness.

(** ** The interface of maps

    What the clients of a map use and rely on.  [entries] is the order of
    iteration; [reallocates] tells whether [set] moves the entries, which
    invalidates iterators; [modify] changes the values while iterating. *)

Class MapInterface (K V M : Type) := {
  mi_empty : M;
  mi_entries : M -> list (K * V);
  mi_size : M -> nat;
  mi_get : M -> K -> res (option V);
  mi_contains : M -> K -> res bool;
  mi_set : M -> K -> V -> res M;
  mi_reallocates : M -> bool;
  mi_take_all_matching : M -> (K -> V -> bool) -> res (list (K * V) * M);
  mi_modify : M -> (K -> V -> V) -> M
}.

(** The map that the entries stand for *)
Definition mi_map {K V M} `{Countable K} `{MapInterface K V M} (m : M) : gmap K V :=
  list_to_map (mi_entries m).

Class MapLaws (K V M : Type) `{Countable K} `{MapInterface K V M} := {
  mi_ok : M -> Prop;
  mi_empty_ok : mi_ok mi_empty;
  mi_empty_entries : mi_entries mi_empty = [];
  mi_keys m : mi_ok m -> NoDup (mi_entries m).*1;
  mi_size_ok m : mi_ok m -> mi_size m = length (mi_entries m);
  mi_get_ok m k : mi_ok m -> mi_get m k = Ret (mi_map m !! k);
  mi_contains_ok m k : mi_ok m -> mi_contains m k = Ret (bool_decide (is_Some (mi_map m !! k)));
  mi_set_ok m k v : mi_ok m ->
    exists m', mi_set m k v = Ret m' /\ mi_ok m' /\ mi_map m' = <[k := v]> (mi_map m);
  mi_set_in_place m k v : mi_ok m -> mi_reallocates m = false -> is_Some (mi_map m !! k) ->
    exists m', mi_set m k v = Ret m' /\ mi_ok m' /\ mi_reallocates m' = false
      /\ mi_entries m' = (fun e : K * V => (e.1, if decide (e.1 = k) then v else e.2)) <$> mi_entries m;
  mi_take_all_ok m p : mi_ok m ->
    exists taken m', mi_take_all_matching m p = Ret (taken, m') /\ mi_ok m'
      /\ mi_entries m ≡ₚ taken ++ mi_entries m'
      /\ Forall (fun e : K * V => p e.1 e.2 = true) taken
      /\ Forall (fun e : K * V => p e.1 e.2 = false) (mi_entries m');
  mi_modify_ok m f : mi_ok m ->
    mi_ok (mi_modify m f) /\ mi_reallocates (mi_modify m f) = mi_reallocates m
    /\ mi_entries (mi_modify m f) = (fun e : K * V => (e.1, f e.1 e.2)) <$> mi_entries m
}.

Section instance.
Context {K V : Type} `{Countable K} `{KeyTraits K} `{AllocatorLaws}.

#[global] Instance hash_map_interface : MapInterface K V (HashMap K V) := {|
  mi_empty := map_empty;
  mi_entries := map_entries;
  mi_size := m_size;
  mi_get := map_get;
  mi_contains := map_contains;
  mi_set := fun m k v => let* (_, m) := map_set m k v ExistingEntry_Replace in Ret m;
  mi_reallocates := should_grow;
  mi_take_all_matching := map_take_all_matching;
  mi_modify := map_modify
|}.

(** Replacing the value of a key leaves the other entries where they are. *)
Lemma set_in_place (m : HashMap K V) k v :
  wf_table m -> should_grow m = false -> is_Some (to_map m !! k) ->
  exists m', map_set m k v ExistingEntry_Replace = Ret (ReplacedExistingEntry, m') /\ wf_table m'
    /\ should_grow m' = false
    /\ table_values m' = (fun e : Entry K V => (e.1, if decide (e.1 = k) then v else e.2)) <$> table_values m.
Proof.
  intros Hwf Hgrow [old Hold]. unfold map_set, table_set, grow. rewrite Hgrow. simpl.
  assert (Hroom : (S (m_size m) < m_capacity m)%nat).
  { unfold should_grow, grow_at_load_factor_percent in Hgrow. apply Nat.leb_gt in Hgrow. lia. }
  unfold write_value.
  destruct (lookup_for_writing_spec m (fun c => traits_equals c (k, v)) (k, v) ExistingEntry_Replace)
    as [(i & [k' w] & -> & Hw & E)|(i & t' & -> & Hnew & _)]; [done|lia|apply selects_value| |]; simpl.
  2:{ apply absent_key in Hnew. simpl in Hnew. congruence. }
  destruct (replace_spec m i (k', w) (k, v) Hwf Hw E) as (rest & Hwf' & _).
  exists (write_slot m i (k, v)). split_and!; [done|done|done|].
  apply bool_decide_eq_true in E. simpl in E. subst k'.
  pose proof Hw as (b & Hb & Hu)%value_at_lookup.
  set (b' := mkBucket (T := Entry K V) (b_state b) (b_hash b) (Some (k, v))).
  assert (Hu' : used_value b' = Some (k, v)).
  { unfold used_value, is_free in *. simpl. by destruct (b_state b =? BucketState_Free). }
  assert (HB : m_buckets (write_slot m i (k, v)) = <[i := b']> (m_buckets m)).
  { simpl. rewrite list_insert_alter. apply list_alter_ext; [|done]. intros x Hx. by simplify_eq. }
  destruct (values_of_middle (m_buckets m) i b b' Hb) as (l1 & l2 & E1 & E2).
  rewrite Hu in E1. rewrite Hu' in E2. simpl in E1, E2.
  unfold table_values. rewrite HB. unfold values_of in E1, E2. rewrite E1, E2.
  pose proof (wf_keys m Hwf) as Hnd. unfold table_values in Hnd. rewrite E1, fmap_app in Hnd. simpl in Hnd.
  apply NoDup_app in Hnd as (_ & Hdisj & Hnd2). apply NoDup_cons in Hnd2 as [Hni _].
  assert (Hsame : forall l : list (Entry K V), k ∉ l.*1 ->
    (fun e : Entry K V => (e.1, if decide (e.1 = k) then v else e.2)) <$> l = l).
  { induction l as [|[k'' v''] l IH]; intros Hl; [done|]. rewrite fmap_cons in *. apply not_elem_of_cons in Hl as [Hne Hl].
    rewrite IH by done. simpl. by rewrite decide_False. }
  rewrite fmap_app, fmap_cons, (Hsame l1), (Hsame l2); [|done|intros Hin; eapply Hdisj; [exact Hin|left]].
  simpl. by rewrite decide_True.
Qed.

#[global] Instance hash_map_laws : MapLaws K V (HashMap K V).
Proof.
  refine {| mi_ok := wf_table |}.
  - apply empty_table_wf.
  - done.
  - intros m Hwf. by apply wf_keys.
  - intros m Hwf. apply (wf_size _ Hwf).
  - intros m k Hwf. by apply map_get_spec.
  - intros m k Hwf. by apply map_contains_spec.
  - intros m k v Hwf. destruct (map_set_spec m k v ExistingEntry_Replace Hwf) as (m' & Hset & Hwf' & Hm).
    exists m'. cbn [mi_set hash_map_interface]. rewrite Hset. done.
  - intros m k v Hwf Hgrow Hk. destruct (set_in_place m k v Hwf Hgrow Hk) as (m' & Hset & ?).
    exists m'. cbn [mi_set hash_map_interface]. rewrite Hset. done.
  - intros m p Hwf. apply (take_all_matching_spec m (fun e => p e.1 e.2) Hwf).
  - intros m f Hwf. split_and!; [by apply map_modify_spec|done|apply map_modify_values].
Defined.

End instance.
