(* ===== verification/Time.v ===== *)
(** * Time: [AK/Time.h] and [AK/Time.cpp]

    The proleptic Gregorian calendar of [AK], [Duration] with its saturating
    arithmetic, and [UnixDateTime], which is a duration since the epoch.  An
    [int], [i64] or [u32] is a [Z]; C++ division truncates, so it is [Z.quot] and
    [Z.rem].  [seconds_per_day] is a [double]: the product with it is rounded to
    53 significant bits ([f64_of_integer]). *)

From S2P Require Import Prelude.

(** ** The calendar *)

Definition is_leap_year (year : Z) : bool :=
  (Z.rem year 4 =? 0) && (negb (Z.rem year 100 =? 0) || (Z.rem year 400 =? 0)).

Definition days_in_year (year : Z) : Z := 365 + (if is_leap_year year then 1 else 0).

Definition days_in_month (year month : Z) : res Z :=
  verify ((1 <=? month) && (month <=? 12))
    (if month =? 2 then Ret (if is_leap_year year then 29 else 28)
     else
       let is_long_month := existsb (Z.eqb month) [1; 3; 5; 7; 8; 10; 12] in
       Ret (if is_long_month then 31 else 30)).

(** [day_of_year] when it is not evaluated at compile time *)
Definition day_of_year_table : list Z := [0; 31; 59; 90; 120; 151; 181; 212; 243; 273; 304; 334].

Definition day_of_year (year month day : Z) : Z :=
  if negb ((1 <=? month) && (month <=? 12)) then 0
  else
    let day_of_year := nth (Z.to_nat (month - 1)) day_of_year_table 0 + day - 1 in
    if is_leap_year year && (3 <=? month) then day_of_year + 1 else day_of_year.

Definition day_of_week_table : list Z := [0; 3; 2; 5; 0; 3; 5; 1; 4; 6; 2; 4].

(** The sum is an [int] that is converted to [unsigned]. *)
Definition day_of_week (year month day : Z) : res Z :=
  verify ((1 <=? month) && (month <=? 12))
    (let year := if month <? 3 then year - 1 else year in
     Ret (u32 (Z.rem (year + Z.quot year 4 - Z.quot year 100 + Z.quot year 400
                      + nth (Z.to_nat (month - 1)) day_of_week_table 0 + day) 7))).

Definition floor_div_by (divisor dividend : Z) : Z :=
  let is_negative := if dividend <? 0 then 1 else 0 in
  Z.quot (dividend + is_negative) divisor - is_negative.

Definition mod_zeros_in_range (positive_mod begin_ end_ : Z) : Z :=
  floor_div_by positive_mod (end_ - 1) - floor_div_by positive_mod (begin_ - 1).

Definition years_to_days_since_epoch (year : Z) : Z :=
  let '(begin_year, end_year, leap_sign) :=
    if year <? 1970 then (year, 1970, -1) else (1970, year, 1) in
  let days := 365 * (year - 1970) in
  let extra_leap_days :=
    mod_zeros_in_range 4 begin_year end_year
    - mod_zeros_in_range 100 begin_year end_year
    + mod_zeros_in_range 400 begin_year end_year in
  days + extra_leap_days * leap_sign.

Definition days_since_epoch (year month day : Z) : Z :=
  years_to_days_since_epoch year + day_of_year year month day.

(** ** [Duration] *)

Definition i64_min : Z := - 2 ^ 63.
Definition i64_max : Z := 2 ^ 63 - 1.

Record Duration := mkDuration { m_seconds : Z; m_nanoseconds : Z }.

(** [(i64)z] for a [u64] or an [i64] computation *)
Definition i64 (z : Z) : Z := (z + 2 ^ 63) mod 2 ^ 64 - 2 ^ 63.

Definition Duration_from_seconds (seconds : Z) : Duration := mkDuration seconds 0.
Definition Duration_min : Duration := mkDuration i64_min 0.
Definition Duration_zero : Duration := mkDuration 0 0.
Definition Duration_max : Duration := mkDuration i64_max 999999999.

(** [sane_mod]: the quotient, and the numerator it leaves *)
Definition sane_mod (numerator denominator : Z) : res (Z * Z) :=
  verify ((2 <=? denominator) && (denominator <=? 1000000000))
    (let dividend := Z.quot numerator denominator in
     let numerator := Z.rem numerator denominator in
     if numerator <? 0 then Ret (dividend - 1, numerator + denominator) else Ret (dividend, numerator)).

Definition Duration_from_nanoseconds (nanoseconds : Z) : res Duration :=
  let* (seconds, nanoseconds) := sane_mod nanoseconds 1000000000 in
  Ret (mkDuration seconds (u32 nanoseconds)).

Definition Duration_from_microseconds (microseconds : Z) : res Duration :=
  let* (seconds, microseconds) := sane_mod microseconds 1000000 in
  Ret (mkDuration seconds (u32 (microseconds * 1000))).

Definition Duration_from_milliseconds (milliseconds : Z) : res Duration :=
  let* (seconds, milliseconds) := sane_mod milliseconds 1000 in
  Ret (mkDuration seconds (u32 (milliseconds * 1000000))).

(** [Checked<i64>]: a value that is outside of the type has overflown. *)
Definition in_i64 (z : Z) : bool := (i64_min <=? z) && (z <=? i64_max).

Definition normal (d : Duration) : bool := m_nanoseconds d <? 1000000000.

(** [operator+] *)
Definition Duration_add (a b : Duration) : res Duration :=
  verify (normal a) (verify (normal b)
    (let new_nsecs := u32 (m_nanoseconds a + m_nanoseconds b) in
     let extra_secs := new_nsecs / 1000000000 in
     let new_nsecs := new_nsecs mod 1000000000 in
     let add (this_secs other_secs : Z) : Duration :=
       let new_secs := this_secs + other_secs in
       if in_i64 new_secs then mkDuration new_secs new_nsecs
       else if 0 <? other_secs then Duration_max else Duration_min in
     if extra_secs =? 0 then Ret (add (m_seconds a) (m_seconds b))
     else
       verify (extra_secs =? 1)
         (if negb (m_seconds a =? i64_max) then Ret (add (m_seconds a + 1) (m_seconds b))
          else if negb (m_seconds b =? i64_max) then Ret (add (m_seconds a) (m_seconds b + 1))
          else Ret Duration_max))).

(** [operator-] *)
Definition Duration_sub (a b : Duration) : res Duration :=
  verify (normal a) (verify (normal b)
    (if negb (m_nanoseconds b =? 0) then
       Duration_add a (mkDuration (i64 (Z.lnot (m_seconds b))) (1000000000 - m_nanoseconds b))
     else if negb (m_seconds b =? i64_min) then Duration_add a (mkDuration (- m_seconds b) 0)
     else if 0 <=? m_seconds a then Ret Duration_max
     else Ret (mkDuration (m_seconds a + 0x4000000000000000 + 0x4000000000000000) (m_nanoseconds a)))).

(** [operator<=>] *)
Definition Duration_compare (a b : Duration) : Z :=
  let cmp := if m_seconds b <? m_seconds a then 1 else if m_seconds a <? m_seconds b then -1 else 0 in
  if negb (cmp =? 0) then cmp
  else if m_nanoseconds b <? m_nanoseconds a then 1
  else if m_nanoseconds a <? m_nanoseconds b then -1 else 0.

Definition Duration_lt (a b : Duration) : bool := Duration_compare a b <? 0.

Definition to_truncated_seconds (d : Duration) : res Z :=
  verify (normal d)
    (Ret (if (m_seconds d <? 0) && negb (m_nanoseconds d =? 0) then m_seconds d + 1 else m_seconds d)).

Definition to_seconds (d : Duration) : res Z :=
  verify (normal d)
    (Ret (if (0 <=? m_seconds d) && negb (m_nanoseconds d =? 0)
          then if in_i64 (m_seconds d + 1) then m_seconds d + 1 else i64_max
          else m_seconds d)).

(** [Checked<i64>] remembers an overflow: the steps of a computation, in order. *)
Definition checked (steps : list Z) (limit result : Z) : Z :=
  if forallb in_i64 steps then result else limit.

Definition saturation_limit (d : Duration) : Z := if m_seconds d <? 0 then i64_min else i64_max.

(** [to_milliseconds], [to_microseconds] ([per_second] units of [unit]
    nanoseconds): round up, away from the epoch when positive. *)
Definition to_units (per_second unit : Z) (d : Duration) : res Z :=
  verify (normal d)
    (let start := if m_seconds d <? 0 then m_seconds d + 1 else m_seconds d in
     let scaled := start * per_second in
     let total := scaled + m_nanoseconds d / unit in
     let rounded := if (0 <=? m_seconds d) && negb (m_nanoseconds d mod unit =? 0) then total + 1 else total in
     let result := if m_seconds d <? 0 then rounded - per_second else rounded in
     Ret (checked [scaled; total; rounded; result] (saturation_limit d) result)).

Definition to_milliseconds (d : Duration) : res Z := to_units 1000 1000000 d.
Definition to_microseconds (d : Duration) : res Z := to_units 1000000 1000 d.

Definition to_nanoseconds (d : Duration) : res Z :=
  verify (normal d)
    (let start := if m_seconds d <? 0 then m_seconds d + 1 else m_seconds d in
     let scaled := start * 1000000000 in
     let total := scaled + m_nanoseconds d in
     let result := if m_seconds d <? 0 then total - 1000000000 else total in
     Ret (checked [scaled; total; result] (saturation_limit d) result)).

(** ** [UnixDateTime] *)

Abbreviation UnixDateTime := Duration.

Definition UnixDateTime_earliest : UnixDateTime := Duration_min.
Definition UnixDateTime_latest : UnixDateTime := Duration_max.
Definition seconds_since_epoch (t : UnixDateTime) : res Z := to_seconds t.

(** The [double] nearest to an integer, ties to even *)
Definition f64_of_integer (z : Z) : Z :=
  let magnitude := Z.abs z in
  let shift := Z.max 0 (Z.log2 magnitude - 52) in
  let quotient := magnitude / 2 ^ shift in
  let remainder := magnitude mod 2 ^ shift in
  let half := 2 ^ shift / 2 in
  let rounded :=
    if shift =? 0 then quotient
    else if remainder <? half then quotient
    else if half <? remainder then quotient + 1
    else if Z.even quotient then quotient else quotient + 1 in
  Z.sgn z * (rounded * 2 ^ shift).

(** [days * seconds_per_day] as an [i64] *)
Definition days_to_seconds (days : Z) : Z := i64 (f64_of_integer (f64_of_integer days * 86400)).

Definition from_unix_time_parts (year month day hour minute second millisecond : Z) : res UnixDateTime :=
  let days := days_since_epoch year month day in
  let seconds := days_to_seconds days in
  let seconds := seconds + hour * 3600 in
  let seconds := seconds + minute * 60 in
  let seconds := seconds + second in
  let* rest := Duration_from_milliseconds millisecond in
  Duration_add (Duration_from_seconds seconds) rest.

(** ** Facts: the calendar *)

Lemma floor_div_by_spec d x : 1 < d -> floor_div_by d x = x / d.
Proof.
  intros Hd. unfold floor_div_by. destruct (Z.ltb_spec x 0).
  - apply Z.div_unique with (x - (Z.quot (x + 1) d - 1) * d); [left|lia].
    assert (Hneg : - d < Z.rem (x + 1) d <= 0) by (apply Z.rem_bound_pos_neg; lia).
    pose proof (Z.quot_rem' (x + 1) d). nia.
  - rewrite Z.add_0_r, Z.sub_0_r. by apply Z.quot_div_nonneg; lia.
Qed.

Lemma is_leap_year_mod year :
  is_leap_year year = ((year mod 4 =? 0) && (negb (year mod 100 =? 0) || (year mod 400 =? 0))).
Proof.
  assert (Hrem : forall d, 0 < d -> (Z.rem year d =? 0) = (year mod d =? 0)).
  { intros d Hd. apply eq_true_iff_eq. rewrite !Z.eqb_eq, Z.rem_divide, Z.mod_divide by lia. done. }
  unfold is_leap_year. by rewrite !Hrem by lia.
Qed.

(** Years up to [year], from year 0 on, that a number divides: the closed form
    is the sum of the lengths of the years. *)
Lemma years_to_days_closed year :
  years_to_days_since_epoch year =
  365 * (year - 1970) + ((year - 1) / 4 - 492) - ((year - 1) / 100 - 19) + ((year - 1) / 400 - 4).
Proof.
  unfold years_to_days_since_epoch, mod_zeros_in_range.
  destruct (Z.ltb_spec year 1970); rewrite !floor_div_by_spec by lia;
    change ((1970 - 1) / 4) with 492; change ((1970 - 1) / 100) with 19; change ((1970 - 1) / 400) with 4; lia.
Qed.

Lemma years_to_days_step year :
  years_to_days_since_epoch (year + 1) = years_to_days_since_epoch year + days_in_year year.
Proof.
  rewrite !years_to_days_closed. unfold days_in_year. rewrite is_leap_year_mod.
  replace (year + 1 - 1) with year by lia.
  destruct (Z.eqb_spec (year mod 4) 0), (Z.eqb_spec (year mod 100) 0), (Z.eqb_spec (year mod 400) 0);
    cbn [andb orb negb]; Z.to_euclidean_division_equations; lia.
Qed.

(** ** Dates *)

Record date := mkDate { d_year : Z; d_month : Z; d_day : Z }.

(** The length of a month, for months from 1 to 12 *)
Definition month_length (year month : Z) : Z :=
  match days_in_month year month with Ret n => n | Crash => 0 end.

Definition valid_date (d : date) : Prop :=
  1 <= d_month d <= 12 /\ 1 <= d_day d <= month_length (d_year d) (d_month d).

(** The day after a date *)
Definition next_date (d : date) : date :=
  if d_day d <? month_length (d_year d) (d_month d) then mkDate (d_year d) (d_month d) (d_day d + 1)
  else if d_month d <? 12 then mkDate (d_year d) (d_month d + 1) 1
  else mkDate (d_year d + 1) 1 1.

Definition date_to_days (d : date) : Z := days_since_epoch (d_year d) (d_month d) (d_day d).

Lemma month_cases (P : Z -> Prop) :
  Forall P [1; 2; 3; 4; 5; 6; 7; 8; 9; 10; 11; 12] -> forall m, 1 <= m <= 12 -> P m.
Proof.
  intros HP m Hm. repeat (apply Forall_cons in HP as [? HP]).
  assert (m = 1 \/ m = 2 \/ m = 3 \/ m = 4 \/ m = 5 \/ m = 6 \/ m = 7 \/ m = 8 \/ m = 9 \/ m = 10
    \/ m = 11 \/ m = 12) as Hcases by lia.
  destruct_or! Hcases; by subst.
Qed.

Lemma days_in_month_total year month :
  1 <= month <= 12 -> days_in_month year month = Ret (month_length year month).
Proof.
  revert month. apply month_cases. repeat constructor; unfold month_length; simpl; by destruct (is_leap_year year).
Qed.

Lemma month_length_bounds year month : 1 <= month <= 12 -> 28 <= month_length year month <= 31.
Proof.
  revert month. apply month_cases. repeat constructor; unfold month_length; simpl; destruct (is_leap_year year); lia.
Qed.

(** Consecutive months *)
Lemma day_of_year_month year month :
  1 <= month < 12 -> day_of_year year (month + 1) 1 = day_of_year year month (month_length year month) + 1.
Proof.
  intros Hm. assert (Hall : 1 <= month <= 12) by lia. revert Hm.
  pattern month. revert month Hall. apply month_cases.
  repeat apply Forall_cons_2; [..|apply Forall_nil_2]; intros Hm; try lia; clear Hm;
    unfold day_of_year, month_length; simpl; by destruct (is_leap_year year).
Qed.

Lemma day_of_year_day year month day k :
  1 <= month <= 12 -> day_of_year year month (day + k) = day_of_year year month day + k.
Proof.
  intros Hm. unfold day_of_year. replace ((1 <=? month) && (month <=? 12)) with true by lia.
  cbn [negb]. destruct (_ && _); lia.
Qed.

Lemma day_of_year_last year : day_of_year year 12 31 = days_in_year year - 1.
Proof. unfold day_of_year, days_in_year. simpl. by destruct (is_leap_year year). Qed.

Lemma day_of_year_first year : day_of_year year 1 1 = 0.
Proof. unfold day_of_year. simpl. by rewrite andb_false_r. Qed.

Lemma next_date_valid d : valid_date d -> valid_date (next_date d).
Proof.
  intros [Hm Hd]. unfold next_date. destruct (Z.ltb_spec (d_day d) (month_length (d_year d) (d_month d))).
  - split; simpl; lia.
  - destruct (Z.ltb_spec (d_month d) 12); split; simpl; try lia.
    + pose proof (month_length_bounds (d_year d) (d_month d + 1)). lia.
    + pose proof (month_length_bounds (d_year d + 1) 1). lia.
Qed.

(** The calendar of [AK].  The epoch has number 0, and the day after a
    valid date, by the lengths of months and leap years, has the next number:
    [days_since_epoch] counts the days of the proleptic Gregorian calendar, for
    every year, before the epoch as well. *)
Theorem days_since_epoch_counts d :
  valid_date d ->
  date_to_days (mkDate 1970 1 1) = 0 /\ valid_date (next_date d)
  /\ date_to_days (next_date d) = date_to_days d + 1.
Proof.
  intros Hd. split; [reflexivity|]. split; [by apply next_date_valid|]. destruct Hd as [Hm Hday].
  unfold next_date, date_to_days, days_since_epoch.
  destruct (Z.ltb_spec (d_day d) (month_length (d_year d) (d_month d))); simpl.
  - rewrite day_of_year_day by done. lia.
  - replace (d_day d) with (month_length (d_year d) (d_month d)) by lia.
    destruct (Z.ltb_spec (d_month d) 12); simpl.
    + rewrite day_of_year_month by lia. lia.
    + replace (d_month d) with 12 by lia. change (month_length (d_year d) 12) with 31.
      rewrite years_to_days_step, day_of_year_first, day_of_year_last. lia.
Qed.

Lemma days_since_epoch_counts_witness :
  valid_date (mkDate 1900 2 28)
  /\ date_to_days (mkDate 1970 1 1) = 0 /\ valid_date (next_date (mkDate 1900 2 28))
  /\ date_to_days (next_date (mkDate 1900 2 28)) = date_to_days (mkDate 1900 2 28) + 1.
Proof.
  assert (Hv : valid_date (mkDate 1900 2 28)) by (split; vm_compute; split; discriminate).
  split; [exact Hv|]. exact (days_since_epoch_counts _ Hv).
Defined.

(** ** Facts: durations *)

(** A duration in normal form, in nanoseconds *)
Definition valid_duration (d : Duration) : Prop :=
  i64_min <= m_seconds d <= i64_max /\ 0 <= m_nanoseconds d < 1000000000.

Definition in_nanoseconds (d : Duration) : Z := m_seconds d * 1000000000 + m_nanoseconds d.

Definition clamp (z : Z) : Z := Z.max (in_nanoseconds Duration_min) (Z.min z (in_nanoseconds Duration_max)).

Lemma valid_normal d : valid_duration d -> normal d = true.
Proof. intros [_ Hn]. unfold normal. lia. Qed.

Lemma valid_nanoseconds d :
  valid_duration d -> in_nanoseconds Duration_min <= in_nanoseconds d <= in_nanoseconds Duration_max.
Proof.
  unfold valid_duration, in_nanoseconds, Duration_min, Duration_max, i64_min, i64_max.
  cbn [m_seconds m_nanoseconds]. lia.
Qed.

Ltac duration_lia :=
  unfold valid_duration, clamp, in_nanoseconds, Duration_max, Duration_min, in_i64, i64_min, i64_max in *;
  cbn [m_seconds m_nanoseconds] in *; lia.

Lemma duration_add_saturating a b :
  valid_duration a -> valid_duration b ->
  exists d, Duration_add a b = Ret d /\ valid_duration d
    /\ in_nanoseconds d = clamp (in_nanoseconds a + in_nanoseconds b).
Proof.
  intros Ha Hb. unfold Duration_add. rewrite !valid_normal by done. cbn [verify].
  destruct a as [sa na], b as [sb nb]. cbn [m_seconds m_nanoseconds] in *.
  assert (Hn : 0 <= na < 1000000000 /\ 0 <= nb < 1000000000) by duration_lia.
  rewrite (u32_id (na + nb)) by lia. set (n := (na + nb) mod 1000000000). set (extra := (na + nb) / 1000000000).
  assert (Hdiv : na + nb = 1000000000 * extra + n) by (apply Z.div_mod; lia).
  assert (Hmod : 0 <= n < 1000000000) by (apply Z.mod_pos_bound; lia).
  assert (Hadd : forall s1 s2, i64_min <= s1 <= i64_max -> i64_min <= s2 <= i64_max -> s1 + s2 = sa + sb + extra ->
    exists d, Ret (if in_i64 (s1 + s2) then mkDuration (s1 + s2) n
                   else if 0 <? s2 then Duration_max else Duration_min) = Ret d /\ valid_duration d
      /\ in_nanoseconds d = clamp (in_nanoseconds (mkDuration sa na) + in_nanoseconds (mkDuration sb nb))).
  { intros s1 s2 H1 H2 Hsum. destruct (in_i64 (s1 + s2)) eqn:E.
    - eexists. split; [done|]. clearbody n extra. duration_lia.
    - destruct (Z.ltb_spec 0 s2); eexists; (split; [done|]); clearbody n extra; duration_lia. }
  assert (Hextra : extra = 0 \/ extra = 1) by (clearbody n extra; lia).
  destruct Hextra as [E|E]; rewrite E in *; cbn [Z.eqb verify Pos.eqb].
  - apply Hadd; duration_lia.
  - destruct (Z.eqb_spec sa i64_max) as [Ea|Ea]; cbn [negb].
    + destruct (Z.eqb_spec sb i64_max) as [Eb|Eb]; cbn [negb]; [|apply Hadd; duration_lia].
      eexists. split; [done|]. clearbody n. duration_lia.
    + apply Hadd; duration_lia.
Qed.

Lemma duration_sub_saturating a b :
  valid_duration a -> valid_duration b ->
  exists d, Duration_sub a b = Ret d /\ valid_duration d
    /\ in_nanoseconds d = clamp (in_nanoseconds a - in_nanoseconds b).
Proof.
  intros Ha Hb. unfold Duration_sub. rewrite !valid_normal by done. cbn [verify].
  assert (Hvia : forall b', valid_duration b' -> in_nanoseconds b' = - in_nanoseconds b ->
    exists d, Duration_add a b' = Ret d /\ valid_duration d /\ in_nanoseconds d = clamp (in_nanoseconds a - in_nanoseconds b)).
  { intros b' Hb' E. destruct (duration_add_saturating a b' Ha Hb') as (d & Hd & Hv & Hns).
    exists d. split_and!; try done. rewrite Hns. f_equal. lia. }
  destruct a as [sa na], b as [sb nb]. cbn [m_seconds m_nanoseconds] in *.
  assert (Hnot : i64 (Z.lnot sb) = - sb - 1).
  { unfold i64. rewrite Z.mod_small by (unfold Z.lnot; duration_lia). unfold Z.lnot. lia. }
  destruct (Z.eqb_spec nb 0) as [E|E]; cbn [negb].
  - destruct (Z.eqb_spec sb i64_min) as [Es|Es]; cbn [negb].
    + destruct (Z.leb_spec 0 sa); eexists; (split; [done|]); duration_lia.
    + apply Hvia; duration_lia.
  - rewrite Hnot. apply Hvia; duration_lia.
Qed.

(** [Duration] arithmetic is exact, and saturates: the sum and the
    difference of two durations in normal form are in normal form and are the
    exact result, or the closest duration that [i64] seconds can hold. *)
Theorem duration_arithmetic_saturates a b :
  valid_duration a -> valid_duration b ->
  (exists d, Duration_add a b = Ret d /\ valid_duration d
     /\ in_nanoseconds d = clamp (in_nanoseconds a + in_nanoseconds b))
  /\ (exists d, Duration_sub a b = Ret d /\ valid_duration d
     /\ in_nanoseconds d = clamp (in_nanoseconds a - in_nanoseconds b)).
Proof. intros Ha Hb. split; [by apply duration_add_saturating|by apply duration_sub_saturating]. Qed.

Lemma duration_arithmetic_saturates_witness :
  let a := mkDuration i64_max 500000000 in
  let b := mkDuration 0 600000000 in
  Duration_add a b = Ret Duration_max /\
  (exists d, Duration_add a b = Ret d /\ valid_duration d
     /\ in_nanoseconds d = clamp (in_nanoseconds a + in_nanoseconds b)).
Proof.
  intros a b. assert (Ha : valid_duration a) by (vm_compute; repeat split; discriminate).
  assert (Hb : valid_duration b) by (vm_compute; repeat split; discriminate).
  split; [reflexivity|]. exact (proj1 (duration_arithmetic_saturates a b Ha Hb)).
Defined.

(** The order of durations is the order of the nanoseconds. *)
Lemma duration_lt_iff a b :
  valid_duration a -> valid_duration b -> Duration_lt a b = true <-> in_nanoseconds a < in_nanoseconds b.
Proof.
  intros Ha Hb. unfold Duration_lt, Duration_compare.
  destruct (Z.ltb_spec (m_seconds b) (m_seconds a)); [simpl; split; duration_lia|].
  destruct (Z.ltb_spec (m_seconds a) (m_seconds b)); [simpl; split; duration_lia|]. simpl.
  destruct (Z.ltb_spec (m_nanoseconds b) (m_nanoseconds a)); [split; duration_lia|].
  destruct (Z.ltb_spec (m_nanoseconds a) (m_nanoseconds b)); split; duration_lia.
Qed.

(** ** Facts: points in time *)

Lemma f64_exact z : Z.abs z < 2 ^ 53 -> f64_of_integer z = z.
Proof.
  intros Hz. unfold f64_of_integer. destruct (Z.eq_dec z 0) as [->|Hnz]; [reflexivity|].
  assert (Hlog : Z.log2 (Z.abs z) <= 52).
  { assert (Z.log2 (Z.abs z) < 53) by (apply Z.log2_lt_pow2; lia). lia. }
  rewrite Z.max_l by lia. cbn [Z.eqb]. change (2 ^ 0) with 1. rewrite Z.div_1_r. lia.
Qed.

Lemma days_to_seconds_exact days : Z.abs days < 2 ^ 36 -> days_to_seconds days = days * 86400.
Proof.
  intros Hd. unfold days_to_seconds. rewrite (f64_exact days) by lia. rewrite f64_exact by lia.
  unfold i64. rewrite Z.mod_small by lia. lia.
Qed.

(** Years with at most seven digits *)
Lemma days_since_epoch_bound year month day :
  -9999999 <= year <= 9999999 -> 1 <= month <= 12 -> 1 <= day <= 31 ->
  Z.abs (days_since_epoch year month day) < 2 ^ 33.
Proof.
  intros Hy Hm Hd. unfold days_since_epoch. rewrite years_to_days_closed.
  assert (0 <= day_of_year year month day <= 366).
  { revert Hd. unfold day_of_year. replace ((1 <=? month) && (month <=? 12)) with true by lia. cbn [negb].
    intros Hd. assert (0 <= nth (Z.to_nat (month - 1)) day_of_year_table 0 <= 334); [|destruct (_ && _); lia].
    revert month Hm. apply month_cases. repeat constructor; simpl; lia. }
  Z.to_euclidean_division_equations. lia.
Qed.

Lemma from_unix_time_parts_exact year month day hour minute second :
  -9999999 <= year <= 9999999 -> 1 <= month <= 12 -> 1 <= day <= 31 ->
  0 <= hour < 24 -> 0 <= minute < 60 -> 0 <= second < 60 ->
  from_unix_time_parts year month day hour minute second 0 =
  Ret (mkDuration (days_since_epoch year month day * 86400 + hour * 3600 + minute * 60 + second) 0).
Proof.
  intros Hy Hm Hd Hh Hmin Hs. unfold from_unix_time_parts.
  pose proof (days_since_epoch_bound year month day Hy Hm Hd) as Hdays.
  rewrite days_to_seconds_exact by lia. set (s := _ * 86400 + _ + _ + _).
  change (Duration_from_milliseconds 0) with (Ret (mkDuration 0 0)). cbn [res_bind].
  assert (Hsr : - 2 ^ 52 <= s <= 2 ^ 52) by lia. clearbody s.
  unfold Duration_add, Duration_from_seconds. cbn [m_seconds m_nanoseconds normal Z.ltb Z.compare verify].
  change (u32 (0 + 0)) with 0. cbn [Z.div Z.div_eucl fst snd Z.eqb]. change (0 mod 1000000000) with 0. rewrite Z.add_0_r.
  replace (in_i64 s) with true; [done|]. symmetry. duration_lia.
Qed.
