(* ===== verification/InsertionSort.v ===== *)
(** * Insertion sort: [AK/InsertionSort.h]

    The two loops run on the indices of the collection; indexing outside of it
    is a failed [VERIFY] of [Vector].  The comparator may crash.  [isort] is the
    sort as a function on lists, and [insertion_sort_refines] says the loops
    compute it in place. *)

From S2P Require Import Prelude.
From stdpp Require Import sorting.
Local Open Scope Z_scope.

Section sort.
Context {A : Type} (comparator : A -> A -> res bool).

(** [swap(col[i], col[j])] *)
Definition swap_elements (col : list A) (i j : nat) : res (list A) :=
  let* x := at_index col i in
  let* y := at_index col j in
  Ret (<[j := x]> (<[i := y]> col)).

(** The inner loop, from [j] down to [start]. *)
Fixpoint sift (start j : nat) (col : list A) : res (list A) :=
  match j with
  | O => Ret col
  | S j' =>
      if (start <? j)%nat then
        let* x := at_index col j in
        let* y := at_index col j' in
        let* less := comparator x y in
        if less then
          let* col := swap_elements col j j' in
          sift start j' col
        else Ret col
      else Ret col
  end.

(** The outer loop, with [n] iterations left. *)
Fixpoint sift_all (start i n : nat) (col : list A) : res (list A) :=
  match n with
  | O => Ret col
  | S n => let* col := sift start i col in sift_all start (S i) n col
  end.

(** [insertion_sort(col, start, end, comparator)], with [end] inclusive *)
Definition insertion_sort_range (start end_ : nat) (col : list A) : res (list A) :=
  sift_all start (S start) (end_ - start) col.

(** [insertion_sort(collection, comparator)] *)
Definition insertion_sort (collection : list A) : res (list A) :=
  match length collection with
  | O => Ret collection
  | S size_minus_1 => insertion_sort_range 0 size_minus_1 collection
  end.

End sort.

(** ** The reference definition *)

Section reference.
Context {A : Type} (lt : A -> A -> bool).

(** Insertion into a list that is kept in reverse: past the elements that [x]
    is less than. *)
Fixpoint insert_reversed (x : A) (l : list A) : list A :=
  match l with
  | y :: l => if lt x y then y :: insert_reversed x l else x :: y :: l
  | [] => [x]
  end.

Definition isort (l : list A) : list A := rev (fold_left (fun acc x => insert_reversed x acc) l []).

End reference.

(** ** Facts *)

(** Swapping two neighbours. *)
Lemma swap_neighbours {A} (front rest : list A) x y :
  swap_elements (front ++ y :: x :: rest) (S (length front)) (length front) = Ret (front ++ x :: y :: rest).
Proof.
  unfold swap_elements, at_index. rewrite lookup_app_r by lia.
  replace (S (length front) - length front)%nat with 1%nat by lia. cbn [lookup list_lookup unwrap res_bind].
  rewrite list_lookup_middle by done. cbn [unwrap res_bind]. f_equal.
  rewrite insert_app_r_alt by lia. replace (S (length front) - length front)%nat with 1%nat by lia.
  rewrite insert_app_r_alt by lia. by rewrite Nat.sub_diag.
Qed.

Section facts.
Context {A : Type} (comparator : A -> A -> res bool) (lt : A -> A -> bool) (P : A -> Prop).
Hypothesis comparator_lt : forall a b, P a -> P b -> comparator a b = Ret (lt a b).

Lemma sift_refines front l x rest :
  Forall P l -> P x ->
  sift comparator (length front) (length front + length l) (front ++ rev l ++ x :: rest)
  = Ret (front ++ rev (insert_reversed lt x l) ++ rest).
Proof.
  intros Hl Hx. revert rest. induction Hl as [|y l Hy Hl IH]; intros rest.
  - cbn [length rev app insert_reversed]. rewrite Nat.add_0_r. destruct front as [|f front]; [done|].
    cbn [length sift]. by rewrite Nat.ltb_irrefl.
  - replace (length front + length (y :: l))%nat with (S (length (front ++ rev l)))
      by (rewrite length_app, length_rev; simpl; lia).
    replace (front ++ rev (y :: l) ++ x :: rest) with ((front ++ rev l) ++ y :: x :: rest)
      by (cbn [rev]; by rewrite <- !app_assoc).
    cbn [sift]. rewrite (proj2 (Nat.ltb_lt _ _)) by (rewrite length_app; lia).
    unfold at_index. rewrite lookup_app_r by lia.
    replace (S (length (front ++ rev l)) - length (front ++ rev l))%nat with 1%nat by lia.
    rewrite list_lookup_middle by done. cbn [lookup list_lookup unwrap res_bind].
    rewrite comparator_lt by done. cbn [res_bind insert_reversed]. destruct (lt x y).
    + rewrite swap_neighbours. cbn [res_bind rev]. rewrite length_app, length_rev, <- !app_assoc. by rewrite IH.
    + cbn [rev]. by rewrite <- !app_assoc.
Qed.

Lemma insert_reversed_perm x l : insert_reversed lt x l ≡ₚ x :: l.
Proof.
  induction l as [|y l IH]; [done|]. cbn [insert_reversed]. destruct (lt x y); [|done]. rewrite IH. constructor.
Qed.

Lemma sift_all_refines front l xs rest :
  Forall P l -> Forall P xs ->
  sift_all comparator (length front) (length front + length l) (length xs) (front ++ rev l ++ xs ++ rest)
  = Ret (front ++ rev (fold_left (fun acc x => insert_reversed lt x acc) xs l) ++ rest).
Proof.
  intros Hl Hxs. revert l Hl. induction Hxs as [|x xs Hx Hxs IH]; intros l Hl; [done|].
  cbn [length sift_all fold_left app]. rewrite sift_refines by done. cbn [res_bind].
  pose proof (insert_reversed_perm x l) as Hp. specialize (IH (insert_reversed lt x l)).
  rewrite Hp in IH at 2. cbn [length] in IH. rewrite Nat.add_succ_r in IH. apply IH.
  rewrite Hp. by constructor.
Qed.

(** The loops compute [isort]. *)
Lemma insertion_sort_isort col : Forall P col -> insertion_sort comparator col = Ret (isort lt col).
Proof.
  intros Hcol. destruct Hcol as [|x xs Hx Hxs]; [done|]. unfold insertion_sort, insertion_sort_range. cbn [length].
  pose proof (sift_all_refines [] [x] xs [] ltac:(by constructor) Hxs) as H. cbn [length rev app] in H.
  rewrite !app_nil_r in H. rewrite Nat.sub_0_r. exact H.
Qed.

(** Sorted: no element is less than the one in front of it. *)
Hypothesis lt_asym : forall a b, P a -> P b -> lt a b = true -> lt b a = false.

Lemma insert_reversed_sorted x l :
  P x -> Forall P l -> Sorted (fun a b => lt a b = false) l -> Sorted (fun a b => lt a b = false) (insert_reversed lt x l).
Proof.
  intros Hx Hl Hs. induction Hs as [|y l Hs IH Hhd]; [by repeat constructor|].
  apply Forall_cons in Hl as [Hy Hl]. cbn [insert_reversed]. destruct (lt x y) eqn:E.
  - constructor; [by apply IH|]. apply lt_asym in E; [|done..].
    destruct l as [|z l]; cbn [insert_reversed]; [by constructor|]. destruct (lt x z); [|by constructor].
    constructor. by inversion Hhd.
  - constructor; [by constructor|]. by constructor.
Qed.

Lemma fold_insert_perm xs l : fold_left (fun acc x => insert_reversed lt x acc) xs l ≡ₚ xs ++ l.
Proof.
  revert l. induction xs as [|x xs IH]; intros l; [done|]. cbn [fold_left]. rewrite IH, insert_reversed_perm.
  symmetry. apply Permutation_middle.
Qed.

Lemma isort_perm col : isort lt col ≡ₚ col.
Proof. unfold isort. rewrite <- Permutation_rev, fold_insert_perm. by rewrite app_nil_r. Qed.

Lemma fold_insert_sorted xs l :
  Forall P xs -> Forall P l -> Sorted (fun a b => lt a b = false) l ->
  Sorted (fun a b => lt a b = false) (fold_left (fun acc x => insert_reversed lt x acc) xs l).
Proof.
  intros Hxs. revert l. induction Hxs as [|x xs Hx Hxs IH]; intros l Hl Hs; [done|]. cbn [fold_left].
  apply IH; [|by apply insert_reversed_sorted]. rewrite insert_reversed_perm. by constructor.
Qed.

(** Elements of a class whose members are not less than each other keep their order. *)
Lemma insert_reversed_stable (f : A -> bool) x l :
  (forall a b, P a -> P b -> f a = true -> f b = true -> lt a b = false) ->
  P x -> Forall P l -> List.filter f (insert_reversed lt x l) = List.filter f (x :: l).
Proof.
  intros Hf Hx Hl. induction Hl as [|y l Hy Hl IH]; [done|]. cbn [insert_reversed].
  destruct (lt x y) eqn:E; [|done]. cbn [List.filter] in *. rewrite IH.
  destruct (f x) eqn:Efx, (f y) eqn:Efy; try done. by rewrite (Hf x y) in E by done.
Qed.

Lemma isort_stable (f : A -> bool) col :
  (forall a b, P a -> P b -> f a = true -> f b = true -> lt a b = false) ->
  Forall P col -> List.filter f (isort lt col) = List.filter f col.
Proof.
  intros Hf Hcol. unfold isort. rewrite List.filter_rev.
  assert (Hgen : forall xs l, Forall P xs -> Forall P l ->
    List.filter f (fold_left (fun acc x => insert_reversed lt x acc) xs l) = rev (List.filter f xs) ++ List.filter f l).
  { induction xs as [|x xs IH]; intros l Hxs Hl; [done|]. apply Forall_cons in Hxs as [Hx Hxs]. cbn [fold_left].
    rewrite IH; [|done|rewrite insert_reversed_perm; by constructor]. rewrite (insert_reversed_stable f x l Hf Hx Hl).
    cbn [List.filter]. destruct (f x); [|done]. cbn [rev]. by rewrite <- app_assoc. }
  rewrite Hgen by (done || constructor). by rewrite app_nil_r, rev_involutive.
Qed.

(** Without a less element anywhere after it. *)
Hypothesis lt_trans : forall a b d, P a -> P b -> P d -> lt b a = false -> lt d b = false -> lt d a = false.

Lemma isort_sorted col :
  Forall P col -> StronglySorted (fun a b => lt b a = false) (isort lt col).
Proof.
  intros Hcol. pose proof (fold_insert_sorted col [] Hcol ltac:(constructor) ltac:(constructor)) as Hs.
  assert (HP : Forall P (fold_left (fun acc x => insert_reversed lt x acc) col [])).
  { by rewrite fold_insert_perm, app_nil_r. }
  unfold isort. revert HP Hs. generalize (fold_left (fun acc x => insert_reversed lt x acc) col []). intros l HP Hs.
  assert (Hss : StronglySorted (fun a b => lt a b = false) l).
  { induction Hs as [|y l Hs IH Hhd]; [constructor|]. apply Forall_cons in HP as [Hy HP]. constructor; [by apply IH|].
    specialize (IH HP). destruct IH as [|z l Hl Hz]; [constructor|].
    apply Forall_cons in HP as [Pz HP]. inversion Hhd; subst. constructor; [done|].
    rewrite Forall_forall in *. intros w Hw. apply (lt_trans w z y); auto. }
  clear Hs. induction Hss as [|y l Hl IH Hy]; [constructor|]. cbn [rev]. apply Forall_cons in HP as [Py HP].
  apply StronglySorted_app. split; [|split; [by apply IH|by repeat constructor]].
  intros a b Ha Hb. apply list_elem_of_singleton in Hb as ->. rewrite Forall_forall in Hy. apply Hy.
  apply list_elem_of_In. apply in_rev. by apply list_elem_of_In.
Qed.

End facts.

(** ** Properties *)

(** Sorting with any strict weak order: the two loops end without leaving
    the collection and leave a permutation of it in which no element is less
    than one in front of it; and the sort is stable, since the elements of any
    class of equivalent ones keep their order. The comparator only has to
    behave on the elements of the collection. *)
Theorem insertion_sort_correct {A} (comparator : A -> A -> res bool) (lt : A -> A -> bool) (P : A -> Prop) (col : list A) :
  Forall P col ->
  (forall a b, P a -> P b -> comparator a b = Ret (lt a b)) ->
  (forall a b, P a -> P b -> lt a b = true -> lt b a = false) ->
  (forall a b d, P a -> P b -> P d -> lt b a = false -> lt d b = false -> lt d a = false) ->
  exists sorted, insertion_sort comparator col = Ret sorted
    /\ sorted ≡ₚ col
    /\ StronglySorted (fun a b => lt b a = false) sorted
    /\ forall f : A -> bool, (forall a b, P a -> P b -> f a = true -> f b = true -> lt a b = false) ->
         List.filter f sorted = List.filter f col.
Proof.
  intros Hcol Hcmp Hasym Htrans. exists (isort lt col). split; [by apply (insertion_sort_isort _ _ P)|].
  split; [apply isort_perm|]. split; [by apply (isort_sorted lt P)|]. intros f Hf. by apply (isort_stable lt P).
Qed.

Lemma insertion_sort_correct_witness :
  exists sorted,
    insertion_sort (fun a b : Z => Ret (a / 10 <? b / 10)) [35; 12; 31; 10; 29] = Ret sorted
    /\ sorted ≡ₚ [35; 12; 31; 10; 29] /\ List.filter (fun x => x / 10 =? 3) sorted = [35; 31].
Proof.
  destruct (insertion_sort_correct (fun a b : Z => Ret (a / 10 <? b / 10)) (fun a b => a / 10 <? b / 10) (fun _ => True)
    [35; 12; 31; 10; 29]) as (sorted & H & Hp & _ & Hf); [by repeat constructor|done|lia|lia|].
  exists sorted. split; [exact H|]. split; [exact Hp|]. apply (Hf (fun x => x / 10 =? 3)). lia.
Defined.
