(* ===== verification/QuickSort.v ===== *)
(** * Quick sort: [AK/QuickSort.h]

    The dual-pivot sort of a collection and the single-pivot sort of a range of
    iterators.  Indices are [int]s of 32 bits, whose arithmetic wraps around here
    (in C++ an overflow is undefined); a negative index, or one past the end, is
    a failed [VERIFY] of [Vector].  The comparator may crash.  The pivots are
    references into the collection and are read again for every comparison. *)

From S2P Require Import Prelude InsertionSort.
From stdpp Require Import sorting.
Local Open Scope Z_scope.

(** The conversion of a number to [int] *)
Definition to_int (z : Z) : Z := (z + 2 ^ 31) mod 2 ^ 32 - 2 ^ 31.

Lemma to_int_id z : - 2 ^ 31 <= z < 2 ^ 31 -> to_int z = z.
Proof. intros Hz. unfold to_int. rewrite Z.mod_small by lia. lia. Qed.

(** Indices in range *)
Ltac ints := rewrite ?to_int_id by lia.

Section sort.
Context {A : Type} (less_than : A -> A -> res bool).

Definition INSERTION_SORT_CUTOFF : Z := 7.

(** [col[i]] and [swap(col[i], col[j])] *)
Definition col_at (col : list A) (i : Z) : res A := if i <? 0 then Crash else at_index col (Z.to_nat i).

Definition col_swap (col : list A) (i j : Z) : res (list A) :=
  if (i <? 0) || (j <? 0) then Crash else swap_elements col (Z.to_nat i) (Z.to_nat j).

Definition col_less (col : list A) (i j : Z) : res bool :=
  let* x := col_at col i in
  let* y := col_at col j in
  less_than x y.

(** The pivots are moved to both ends, the smaller one to the start. *)
Definition choose_pivots (start end_ : Z) (col : list A) : res (list A) :=
  let size := to_int (to_int (end_ - start) + 1) in
  if 3 <? size then
    let third := size / 3 in
    let* less := col_less col (to_int (start + third)) (to_int (end_ - third)) in
    if less : bool then
      let* col := col_swap col (to_int (start + third)) start in
      col_swap col (to_int (end_ - third)) end_
    else
      let* col := col_swap col (to_int (start + third)) end_ in
      col_swap col (to_int (end_ - third)) start
  else
    let* less := col_less col start end_ in
    if negb less then col_swap col start end_ else Ret col.

(** [while (!less_than(col[g], right_pivot) && k < g) g--;] *)
Fixpoint retreat (fuel : nat) (end_ k g : Z) (col : list A) : res Z :=
  match fuel with
  | O => Crash
  | S fuel =>
      let* less := col_less col g end_ in
      if negb less && (k <? g) then retreat fuel end_ k (to_int (g - 1)) col else Ret g
  end.

(** The loop that partitions: [j], [g] and the collection behind it *)
Fixpoint partition_loop (fuel : nat) (start end_ j k g : Z) (col : list A) : res (Z * Z * list A) :=
  match fuel with
  | O => Crash
  | S fuel =>
      if k <=? g then
        let* below := col_less col k start in
        if below : bool then
          let* col := col_swap col k j in
          partition_loop fuel start end_ (to_int (j + 1)) (to_int (k + 1)) g col
        else
          let* less := col_less col k end_ in
          if negb less then
            let* g := retreat (S (length col)) end_ k g col in
            let* col := col_swap col k g in
            let g := to_int (g - 1) in
            let* below := col_less col k start in
            if below : bool then
              let* col := col_swap col k j in
              partition_loop fuel start end_ (to_int (j + 1)) (to_int (k + 1)) g col
            else partition_loop fuel start end_ j (to_int (k + 1)) g col
          else partition_loop fuel start end_ j (to_int (k + 1)) g col
      else Ret (j, g, col)
  end.

(** The loop of [dual_pivot_quick_sort], with the calls of the function *)
Fixpoint dual_pivot_loop (fuel : nat) (start end_ : Z) (col : list A) : res (list A) :=
  match fuel with
  | O => Crash
  | S fuel =>
      let recur (start end_ : Z) (col : list A) : res (list A) :=
        if to_int (to_int (end_ + 1) - start) <=? INSERTION_SORT_CUTOFF
        then insertion_sort_range less_than (Z.to_nat start) (Z.to_nat end_) col
        else dual_pivot_loop fuel start end_ col in
      if start <? end_ then
        let* col := choose_pivots start end_ col in
        let* (pointers, col) := partition_loop (S (length col)) start end_ (to_int (start + 1)) (to_int (start + 1)) (to_int (end_ - 1)) col in
        let (j, g) := (pointers : Z * Z) in
        let left_pointer := to_int (j - 1) in
        let right_pointer := to_int (g + 1) in
        let* col := col_swap col start left_pointer in
        let* col := col_swap col end_ right_pointer in
        let left_size := to_int (left_pointer - start) in
        let middle_size := to_int (right_pointer - to_int (left_pointer + 1)) in
        let right_size := to_int (to_int (end_ + 1) - to_int (right_pointer + 1)) in
        if (middle_size <=? left_size) && (right_size <=? left_size) then
          let* col := recur (to_int (left_pointer + 1)) (to_int (right_pointer - 1)) col in
          let* col := recur (to_int (right_pointer + 1)) end_ col in
          dual_pivot_loop fuel start (to_int (left_pointer - 1)) col
        else if right_size <=? middle_size then
          let* col := recur start (to_int (left_pointer - 1)) col in
          let* col := recur (to_int (right_pointer + 1)) end_ col in
          dual_pivot_loop fuel (to_int (left_pointer + 1)) (to_int (right_pointer - 1)) col
        else
          let* col := recur start (to_int (left_pointer - 1)) col in
          let* col := recur (to_int (left_pointer + 1)) (to_int (right_pointer - 1)) col in
          dual_pivot_loop fuel (to_int (right_pointer + 1)) end_ col
      else Ret col
  end.

Definition dual_pivot_quick_sort (fuel : nat) (start end_ : Z) (col : list A) : res (list A) :=
  if to_int (to_int (end_ + 1) - start) <=? INSERTION_SORT_CUTOFF
  then insertion_sort_range less_than (Z.to_nat start) (Z.to_nat end_) col
  else dual_pivot_loop fuel start end_ col.

(** [quick_sort(collection, less_than)] *)
Definition quick_sort (collection : list A) : res (list A) :=
  dual_pivot_quick_sort (S (length collection)) 0 (to_int (size_t (Z.of_nat (length collection) - 1))) collection.

(** The inner loop of [single_pivot_quick_sort]: [j] up to [size], the elements
    below the pivot at [start] moved in front of [i] *)
Fixpoint single_pivot_partition (n : nat) (start i j : Z) (col : list A) : res (Z * list A) :=
  match n with
  | O => Ret (i, col)
  | S n =>
      let* less := col_less col (start + j) start in
      if less : bool then
        let* col := col_swap col (start + j) (start + i) in
        single_pivot_partition n start (to_int (i + 1)) (to_int (j + 1)) col
      else single_pivot_partition n start i (to_int (j + 1)) col
  end.

(** [single_pivot_quick_sort(start, end, less_than)], with iterators as indices
    and [end_] exclusive *)
Fixpoint single_pivot_quick_sort (fuel : nat) (start end_ : Z) (col : list A) : res (list A) :=
  match fuel with
  | O => Crash
  | S fuel =>
      let size := to_int (end_ - start) in
      if size <=? 1 then Ret col
      else
        let pivot_point := size / 2 in
        let* col := col_swap col (start + pivot_point) start in
        let* (i, col) := single_pivot_partition (Z.to_nat (size - 1)) start 1 1 col in
        let* col := col_swap col start (start + i - 1) in
        if size / 2 <? i then
          let* col := single_pivot_quick_sort fuel (start + i) end_ col in
          single_pivot_quick_sort fuel start (start + i - 1) col
        else
          let* col := single_pivot_quick_sort fuel start (start + i - 1) col in
          single_pivot_quick_sort fuel (start + i) end_ col
  end.

(** [quick_sort(begin(collection), end(collection), less_than)] *)
Definition quick_sort_iterators (collection : list A) : res (list A) :=
  single_pivot_quick_sort (S (length collection)) 0 (Z.of_nat (length collection)) collection.

End sort.

(** ** Facts: swapping *)

Section swapping.
Context {A : Type}.
Implicit Types (a b c : list A) (x y : A).

Lemma col_at_middle a x b i : i = Z.of_nat (length a) -> col_at (a ++ x :: b) i = Ret x.
Proof.
  intros ->. unfold col_at. rewrite (proj2 (Z.ltb_ge _ _)) by lia. rewrite Nat2Z.id.
  unfold at_index. by rewrite list_lookup_middle.
Qed.

Lemma col_swap_self a x b i : i = Z.of_nat (length a) -> col_swap (a ++ x :: b) i i = Ret (a ++ x :: b).
Proof.
  intros ->. unfold col_swap. rewrite (proj2 (Z.ltb_ge _ _)) by lia. cbn [orb]. rewrite Nat2Z.id.
  unfold swap_elements, at_index. rewrite list_lookup_middle by done. cbn [unwrap res_bind].
  rewrite list_insert_insert_eq, list_insert_id; [done|]. by rewrite list_lookup_middle.
Qed.

Lemma col_swap_middle a x b y c i j :
  i = Z.of_nat (length a) -> j = i + 1 + Z.of_nat (length b) ->
  col_swap (a ++ x :: b ++ y :: c) i j = Ret (a ++ y :: b ++ x :: c)
  /\ col_swap (a ++ x :: b ++ y :: c) j i = Ret (a ++ y :: b ++ x :: c).
Proof.
  intros -> ->. unfold col_swap. rewrite !(proj2 (Z.ltb_ge _ _)) by lia. cbn [orb]. rewrite Nat2Z.id.
  replace (Z.to_nat _) with (length a + S (length b))%nat by lia.
  assert (Hx : (a ++ x :: b ++ y :: c) !! length a = Some x) by (by rewrite list_lookup_middle).
  assert (Hy : (a ++ x :: b ++ y :: c) !! (length a + S (length b))%nat = Some y).
  { rewrite lookup_app_r by lia. replace (length a + S (length b) - length a)%nat with (S (length b)) by lia.
    cbn [lookup list_lookup]. by apply list_lookup_middle. }
  unfold swap_elements, at_index. rewrite Hx, Hy. cbn [unwrap res_bind].
  assert (Hins : forall u v, <[(length a + S (length b))%nat := v]> (<[length a := u]> (a ++ x :: b ++ y :: c)) = a ++ u :: b ++ v :: c).
  { intros u v. rewrite (insert_app_r_alt a _ (length a)), Nat.sub_diag by lia. cbn [insert list_insert].
    rewrite insert_app_r_alt by lia. replace (length a + S (length b) - length a)%nat with (S (length b)) by lia.
    cbn [insert list_insert]. rewrite (insert_app_r_alt b _ (length b)), Nat.sub_diag by lia. done. }
  split; f_equal; [apply Hins|]. rewrite list_insert_insert_ne by lia. apply Hins.
Qed.

End swapping.

(** ** Facts: the dual-pivot partition *)

Section facts.
Context {A : Type} (less_than : A -> A -> res bool) (lt : A -> A -> bool) (P : A -> Prop).
Hypothesis less_than_lt : forall a b, P a -> P b -> less_than a b = Ret (lt a b).
Hypothesis lt_asym : forall a b, P a -> P b -> lt a b = true -> lt b a = false.
Hypothesis lt_trans : forall a b d, P a -> P b -> P d -> lt b a = false -> lt d b = false -> lt d a = false.

Lemma col_less_at col i j x y :
  col_at col i = Ret x -> col_at col j = Ret y -> P x -> P y -> col_less less_than col i j = Ret (lt x y).
Proof. intros Hi Hj Hx Hy. unfold col_less. rewrite Hi, Hj. cbn [res_bind]. by apply less_than_lt. Qed.

Lemma retreat_spec (a : list A) x R rp rest V0 : forall fuel k g end_,
  (length V0 < fuel)%nat -> k = Z.of_nat (length a) -> g = k + Z.of_nat (length V0) ->
  end_ = g + 1 + Z.of_nat (length R) -> end_ < 2 ^ 31 - 1 -> Forall P (x :: V0) -> P rp -> lt x rp = false ->
  exists g', retreat less_than fuel end_ k g (a ++ x :: V0 ++ R ++ rp :: rest) = Ret g'
    /\ ((g' = k /\ Forall (fun v => lt v rp = false) V0)
        \/ exists W y V, V0 = W ++ y :: V /\ lt y rp = true /\ Forall (fun v => lt v rp = false) V
            /\ g' = k + 1 + Z.of_nat (length W)).
Proof.
  revert R. induction V0 as [|z V0 IH] using rev_ind; intros R fuel k g end_ Hfuel Hk Hg Hend Hint HP Hrp Hx;
    (destruct fuel as [|fuel]; [lia|]); cbn [retreat]; cbn [app length] in *.
  - rewrite (col_less_at _ g end_ x rp); [|apply col_at_middle; lia| |by inversion HP|done].
    + cbn [res_bind]. rewrite Hx. cbn [negb andb]. rewrite (proj2 (Z.ltb_ge _ _)) by lia. exists g. split; [done|]. left.
      split; [lia|constructor].
    + replace (a ++ x :: R ++ rp :: rest) with ((a ++ x :: R) ++ rp :: rest) by (by rewrite <- app_assoc).
      apply col_at_middle. rewrite length_app. cbn [length]. lia.
  - rewrite length_app in *. cbn [length] in *. apply Forall_cons in HP as [Px HP]. apply Forall_app in HP as [PV Pz].
    apply Forall_cons in Pz as [Pz _].
    assert (Hcol : a ++ x :: (V0 ++ [z]) ++ R ++ rp :: rest = (a ++ x :: V0) ++ z :: R ++ rp :: rest).
    { by rewrite <- !app_assoc. }
    rewrite (col_less_at _ g end_ z rp); [| | |done|done].
    2:{ rewrite Hcol. apply col_at_middle. rewrite length_app. cbn [length]. lia. }
    2:{ rewrite Hcol. replace ((a ++ x :: V0) ++ z :: R ++ rp :: rest) with ((a ++ x :: V0 ++ z :: R) ++ rp :: rest)
          by (by rewrite <- !app_assoc; cbn; rewrite <- !app_assoc).
        apply col_at_middle. rewrite !length_app. cbn [length]. rewrite length_app. cbn [length]. lia. }
    cbn [res_bind]. destruct (lt z rp) eqn:Ez; cbn [negb andb].
    + exists g. split; [done|]. right. exists V0, z, []. split_and!; [done|done|constructor|lia].
    + rewrite (proj2 (Z.ltb_lt _ _)) by lia. ints.
      replace (a ++ x :: (V0 ++ [z]) ++ R ++ rp :: rest) with (a ++ x :: V0 ++ (z :: R) ++ rp :: rest)
        by (by rewrite <- !app_assoc).
      destruct (IH (z :: R) fuel k (g - 1) end_) as (g' & -> & Hcase); [lia|lia|lia|cbn [length]; lia|lia|by constructor|done|done|].
      exists g'. split; [done|]. destruct Hcase as [[-> HV]|(W & y & V & -> & Hy & HV & ->)].
      * left. split; [done|]. apply Forall_app. split; [done|by constructor].
      * right. exists W, y, (V ++ [z]). split_and!; [by rewrite <- app_assoc|done| |done].
        apply Forall_app. split; [done|by constructor].
Qed.

(** Moving an element that is below the left pivot in front of the middle *)
Lemma swap_into_left (a : list A) Mid x tail j k :
  j = Z.of_nat (length a) -> k = j + Z.of_nat (length Mid) ->
  exists Mid', Mid' ≡ₚ Mid /\ col_swap (a ++ Mid ++ x :: tail) k j = Ret (a ++ x :: Mid' ++ tail).
Proof.
  intros Hj Hk. destruct Mid as [|m Mid].
  - exists []. split; [done|]. cbn [app length] in *. replace k with j by lia. by apply col_swap_self.
  - exists (Mid ++ [m]). split; [symmetry; apply Permutation_cons_append|].
    destruct (col_swap_middle a m Mid x tail j k) as [_ E]; [done|cbn [length] in Hk; lia|].
    cbn [app]. rewrite E. by rewrite <- app_assoc.
Qed.

(** The three classes: below the left pivot, between the pivots, and not below
    the right pivot *)
Record classes (lp rp : A) (L Mid R : list A) : Prop := {
  class_left : Forall (fun x => lt x lp = true) L;
  class_middle : Forall (fun x => lt x lp = false /\ lt x rp = true) Mid;
  class_right : Forall (fun x => lt x rp = false) R
}.

Definition partitioned (front rest : list A) (lp rp : A) (L Mid R all : list A) (j g : Z) : Prop :=
  classes lp rp L Mid R /\ L ++ Mid ++ R ≡ₚ all
  /\ j = Z.of_nat (length front) + 1 + Z.of_nat (length L) /\ g = j + Z.of_nat (length Mid) - 1.

(** The collection during the partition *)
Definition layout (front : list A) (lp : A) (L Mid U R : list A) (rp : A) (rest : list A) : list A :=
  front ++ lp :: L ++ Mid ++ U ++ R ++ rp :: rest.

Lemma layout_start front lp L Mid U R rp rest :
  col_at (layout front lp L Mid U R rp rest) (Z.of_nat (length front)) = Ret lp.
Proof. by apply col_at_middle. Qed.

Lemma layout_next front lp L Mid x U R rp rest k :
  k = Z.of_nat (length front) + 1 + Z.of_nat (length L) + Z.of_nat (length Mid) ->
  col_at (layout front lp L Mid (x :: U) R rp rest) k = Ret x.
Proof.
  intros Hk. unfold layout.
  replace (front ++ lp :: L ++ Mid ++ (x :: U) ++ R ++ rp :: rest)
    with ((front ++ lp :: L ++ Mid) ++ x :: U ++ R ++ rp :: rest) by (rewrite <- !app_assoc; cbn; by rewrite <- !app_assoc).
  apply col_at_middle. rewrite length_app. cbn [length]. rewrite length_app. lia.
Qed.

Lemma layout_end front lp L Mid U R rp rest i :
  i = Z.of_nat (length front) + 1 + Z.of_nat (length L) + Z.of_nat (length Mid) + Z.of_nat (length U) + Z.of_nat (length R) ->
  col_at (layout front lp L Mid U R rp rest) i = Ret rp.
Proof.
  intros Hi. unfold layout.
  replace (front ++ lp :: L ++ Mid ++ U ++ R ++ rp :: rest)
    with ((front ++ lp :: L ++ Mid ++ U ++ R) ++ rp :: rest) by (rewrite <- !app_assoc; cbn; by rewrite <- !app_assoc).
  apply col_at_middle. rewrite length_app. cbn [length]. rewrite !length_app. lia.
Qed.

Lemma layout_swap_left front lp L Mid x U R rp rest j k :
  j = Z.of_nat (length front) + 1 + Z.of_nat (length L) -> k = j + Z.of_nat (length Mid) ->
  exists Mid', Mid' ≡ₚ Mid
    /\ col_swap (layout front lp L Mid (x :: U) R rp rest) k j = Ret (layout front lp (L ++ [x]) Mid' U R rp rest).
Proof.
  intros Hj Hk. unfold layout.
  destruct (swap_into_left (front ++ lp :: L) Mid x (U ++ R ++ rp :: rest) j k) as (Mid' & Hp & E);
    [rewrite length_app; cbn [length]; lia|done|].
  exists Mid'. split; [done|]. rewrite <- !app_assoc in E. cbn [app] in E. rewrite <- !app_assoc in *. exact E.
Qed.

Lemma classes_left lp rp L Mid Mid' R x :
  classes lp rp L Mid R -> Mid' ≡ₚ Mid -> lt x lp = true -> classes lp rp (L ++ [x]) Mid' R.
Proof.
  intros [] Hp Hx. split; [apply Forall_app; split; [done|by constructor]|by rewrite Hp|done].
Qed.

Lemma classes_middle lp rp L Mid R x :
  classes lp rp L Mid R -> lt x lp = false -> lt x rp = true -> classes lp rp L (Mid ++ [x]) R.
Proof. intros [] Hl Hr. split; [done|apply Forall_app; split; [done|by constructor]|done]. Qed.

Lemma classes_right lp rp L Mid R x V :
  classes lp rp L Mid R -> lt x rp = false -> Forall (fun v => lt v rp = false) V -> classes lp rp L Mid (x :: V ++ R).
Proof. intros [] Hx HV. split; [done|done|]. constructor; [done|]. by apply Forall_app. Qed.

(** The element at [k] joins the left or the middle class. *)
Lemma layout_place front lp L Mid x U R rp rest j k :
  j = Z.of_nat (length front) + 1 + Z.of_nat (length L) -> k = j + Z.of_nat (length Mid) -> k < 2 ^ 31 - 1 ->
  classes lp rp L Mid R -> P x -> P lp -> lt x rp = true ->
  exists L' Mid' j', classes lp rp L' Mid' R /\ L' ++ Mid' ≡ₚ L ++ Mid ++ [x]
    /\ j' = Z.of_nat (length front) + 1 + Z.of_nat (length L') /\ k + 1 = j' + Z.of_nat (length Mid')
    /\ forall (B : Type) (next : Z -> list A -> res B),
      (let* below := col_less less_than (layout front lp L Mid (x :: U) R rp rest) k (Z.of_nat (length front)) in
       if below : bool then
         let* col := col_swap (layout front lp L Mid (x :: U) R rp rest) k j in next (to_int (j + 1)) col
       else next j (layout front lp L Mid (x :: U) R rp rest))
      = next j' (layout front lp L' Mid' U R rp rest).
Proof.
  intros Hj Hk Hint Hcl Px Plp Hr.
  assert (Hless : col_less less_than (layout front lp L Mid (x :: U) R rp rest) k (Z.of_nat (length front)) = Ret (lt x lp)).
  { apply col_less_at; [apply layout_next; lia|apply layout_start|done|done]. }
  destruct (lt x lp) eqn:El.
  - destruct (layout_swap_left front lp L Mid x U R rp rest j k Hj Hk) as (Mid' & Hp & Eswap).
    exists (L ++ [x]), Mid', (j + 1). split; [by eapply classes_left|]. rewrite length_app. cbn [length].
    pose proof (Permutation_length Hp). split_and!; [|lia|lia|].
    + rewrite Hp. rewrite <- app_assoc. apply Permutation_app_head. cbn. apply Permutation_cons_append.
    + intros B next. rewrite Hless. cbn [res_bind]. rewrite Eswap. cbn [res_bind]. by ints.
  - exists L, (Mid ++ [x]), j. split; [by apply classes_middle|]. rewrite length_app. cbn [length].
    split_and!; [done|lia|lia|]. intros B next. rewrite Hless. cbn [res_bind]. f_equal. unfold layout. by rewrite <- !app_assoc.
Qed.

Lemma retreat_layout front lp L Mid x U R rp rest k g end_ :
  k = Z.of_nat (length front) + 1 + Z.of_nat (length L) + Z.of_nat (length Mid) -> g = k + Z.of_nat (length U) ->
  end_ = g + 1 + Z.of_nat (length R) -> end_ < 2 ^ 31 - 1 -> P x -> Forall P U -> P rp -> lt x rp = false ->
  exists g', retreat less_than (S (length (layout front lp L Mid (x :: U) R rp rest))) end_ k g
               (layout front lp L Mid (x :: U) R rp rest) = Ret g'
    /\ ((g' = k /\ Forall (fun v => lt v rp = false) U)
        \/ exists W y V, U = W ++ y :: V /\ lt y rp = true /\ Forall (fun v => lt v rp = false) V
            /\ g' = k + 1 + Z.of_nat (length W)).
Proof.
  intros Hk Hg Hend Hint Px PU Prp Hx.
  assert (El : layout front lp L Mid (x :: U) R rp rest = (front ++ lp :: L ++ Mid) ++ x :: U ++ R ++ rp :: rest).
  { unfold layout. rewrite <- !app_assoc. cbn. by rewrite <- !app_assoc. }
  rewrite El. apply retreat_spec; [|rewrite length_app; cbn [length]; rewrite length_app; lia|lia|lia|lia|by constructor|done|done].
  rewrite !length_app. cbn [length]. rewrite !length_app. lia.
Qed.

Lemma layout_swap_self front lp L Mid x U R rp rest k :
  k = Z.of_nat (length front) + 1 + Z.of_nat (length L) + Z.of_nat (length Mid) ->
  col_swap (layout front lp L Mid (x :: U) R rp rest) k k = Ret (layout front lp L Mid (x :: U) R rp rest).
Proof.
  intros Hk.
  assert (El : layout front lp L Mid (x :: U) R rp rest = (front ++ lp :: L ++ Mid) ++ x :: U ++ R ++ rp :: rest).
  { unfold layout. rewrite <- !app_assoc. cbn. by rewrite <- !app_assoc. }
  rewrite El. apply col_swap_self. rewrite length_app. cbn [length]. rewrite length_app. lia.
Qed.

Lemma layout_swap_right front lp L Mid x W y V R rp rest k g :
  k = Z.of_nat (length front) + 1 + Z.of_nat (length L) + Z.of_nat (length Mid) -> g = k + 1 + Z.of_nat (length W) ->
  col_swap (layout front lp L Mid (x :: W ++ y :: V) R rp rest) k g
  = Ret (layout front lp L Mid (y :: W) (x :: V ++ R) rp rest).
Proof.
  intros Hk Hg.
  assert (El : layout front lp L Mid (x :: W ++ y :: V) R rp rest
               = (front ++ lp :: L ++ Mid) ++ x :: W ++ y :: V ++ R ++ rp :: rest).
  { unfold layout. by repeat (rewrite <- !app_assoc; cbn [app]). }
  rewrite El. destruct (col_swap_middle (front ++ lp :: L ++ Mid) x W y (V ++ R ++ rp :: rest) k g) as [-> _];
    [rewrite length_app; cbn [length]; rewrite length_app; lia|done|]. f_equal.
  unfold layout. by repeat (rewrite <- !app_assoc; cbn [app]).
Qed.

Lemma partition_spec (front rest : list A) lp rp : forall fuel L Mid U R j k g end_,
  (length U < fuel)%nat -> j = Z.of_nat (length front) + 1 + Z.of_nat (length L) ->
  k = j + Z.of_nat (length Mid) -> g = k + Z.of_nat (length U) - 1 -> end_ = g + 1 + Z.of_nat (length R) ->
  end_ < 2 ^ 31 - 1 -> P lp -> P rp -> Forall P U -> lt rp lp = false -> classes lp rp L Mid R ->
  exists L' Mid' R' j' g',
    partition_loop less_than fuel (Z.of_nat (length front)) end_ j k g (layout front lp L Mid U R rp rest)
    = Ret (j', g', layout front lp L' Mid' [] R' rp rest)
    /\ partitioned front rest lp rp L' Mid' R' (L ++ Mid ++ U ++ R) j' g'.
Proof.
  induction fuel as [|fuel IH]; intros L Mid U R j k g end_ Hfuel Hj Hk Hg Hend Hint Plp Prp PU Hpp Hcl; [lia|].
  cbn [partition_loop]. destruct U as [|x U].
  { cbn [length] in *. rewrite (proj2 (Z.leb_gt _ _)) by lia. exists L, Mid, R, j, g. 
    split; [done|]. split_and!; try done. lia. }
  cbn [length] in *. rewrite (proj2 (Z.leb_le _ _)) by lia. apply Forall_cons in PU as [Px PU].
  assert (Eless : col_less less_than (layout front lp L Mid (x :: U) R rp rest) k end_ = Ret (lt x rp)).
  { apply col_less_at; [apply layout_next; lia|apply layout_end; cbn [length]; lia|done|done]. }
  destruct (lt x rp) eqn:Er.
  - destruct (layout_place front lp L Mid x U R rp rest j k Hj Hk ltac:(lia) Hcl Px Plp Er)
      as (L' & Mid' & j' & Hcl' & Hp' & Hj' & Hk' & Hnext).
    rewrite Eless. cbn [res_bind negb]. rewrite (to_int_id (k + 1)) by lia.
    rewrite (Hnext _ (fun j col => partition_loop less_than fuel (Z.of_nat (length front)) end_ j (k + 1) g col)).
    destruct (IH L' Mid' U R j' (k + 1) g end_) as (L2 & Mid2 & R2 & j2 & g2 & -> & Hcl2 & Hp2 & ?); [lia..|done|done|done|done|done|].
    exists L2, Mid2, R2, j2, g2. split; [done|]. split; [done|]. split; [|done]. rewrite Hp2.
    rewrite (app_assoc L'), Hp', <- !app_assoc. done.
  - assert (El : lt x lp = false) by (by apply (lt_trans lp rp x)).
    assert (Ebelow : col_less less_than (layout front lp L Mid (x :: U) R rp rest) k (Z.of_nat (length front)) = Ret false).
    { rewrite <- El. apply col_less_at; [apply layout_next; lia|apply layout_start|done|done]. }
    rewrite Ebelow. cbn [res_bind]. rewrite Eless. cbn [res_bind negb].
    destruct (retreat_layout front lp L Mid x U R rp rest k g end_) as (g' & -> & Hcase); [lia|lia|done..|].
    cbn [res_bind]. rewrite (to_int_id (k + 1)) by lia. destruct Hcase as [[-> HU]|(W & y & V & -> & Hy & HV & ->)].
    + rewrite layout_swap_self by lia. cbn [res_bind]. rewrite Ebelow. cbn [res_bind]. ints.
      destruct fuel as [|fuel]; [lia|]. cbn [partition_loop]. rewrite (proj2 (Z.leb_gt _ _)) by lia.
      exists L, Mid, (x :: U ++ R), j, (k - 1). split; [unfold layout; cbn [app]; by rewrite <- app_assoc|]. split; [by apply classes_right|].
      split_and!; [done|lia|lia].
    + rewrite layout_swap_right by lia. cbn [res_bind]. rewrite length_app in *. cbn [length] in *.
      rewrite (to_int_id (k + 1 + Z.of_nat (length W) - 1)) by lia. apply Forall_app in PU as [PW PyV]. apply Forall_cons in PyV as [Py PV].
      assert (Hcl1 : classes lp rp L Mid (x :: V ++ R)) by (by apply classes_right).
      destruct (layout_place front lp L Mid y W (x :: V ++ R) rp rest j k Hj Hk ltac:(lia) Hcl1 Py Plp Hy)
        as (L' & Mid' & j' & Hcl' & Hp' & Hj' & Hk' & Hnext).
      rewrite (Hnext _ (fun j col => partition_loop less_than fuel (Z.of_nat (length front)) end_ j (k + 1) _ col)).
      destruct (IH L' Mid' W (x :: V ++ R) j' (k + 1) (k + 1 + Z.of_nat (length W) - 1) end_)
        as (L2 & Mid2 & R2 & j2 & g2 & -> & Hcl2 & Hp2 & ?); [lia..|cbn [length]; rewrite length_app; lia|lia|done|done|done|done|done|].
      exists L2, Mid2, R2, j2, g2. split; [done|]. split; [done|]. split; [|done]. rewrite Hp2.
      rewrite (app_assoc L'), Hp', <- !app_assoc. apply Permutation_app_head, Permutation_app_head. cbn [app].
      rewrite <- app_assoc. cbn [app]. rewrite <- !Permutation_middle. apply Permutation_swap.
Qed.

(** ** The pivots *)

Lemma split_at (l : list A) i : (i < length l)%nat -> exists a x b, l = a ++ x :: b /\ length a = i.
Proof.
  intros Hi. destruct (lookup_lt_is_Some_2 l i Hi) as [x Hx]. exists (take i l), x, (drop (S i) l).
  split; [symmetry; by apply take_drop_middle|]. rewrite length_take. lia.
Qed.

(** Four elements at [start], [start + third], [end - third] and [end] *)
Definition spread (front : list A) u X v Y w Z z (rest : list A) : list A := front ++ u :: X ++ v :: Y ++ w :: Z ++ z :: rest.

Lemma spread_regroup front u X v Y w Z z rest :
  spread front u X v Y w Z z rest = (front ++ u :: X) ++ v :: Y ++ w :: Z ++ z :: rest
  /\ spread front u X v Y w Z z rest = (front ++ u :: X ++ v :: Y) ++ w :: Z ++ z :: rest
  /\ spread front u X v Y w Z z rest = front ++ u :: (X ++ v :: Y) ++ w :: Z ++ z :: rest
  /\ spread front u X v Y w Z z rest = (front ++ u :: X) ++ v :: (Y ++ w :: Z) ++ z :: rest.
Proof. unfold spread. split_and!; by repeat (rewrite <- !app_assoc; cbn [app]). Qed.

Lemma spread_at front u X v Y w Z z rest i k :
  i = Z.of_nat (length front) + 1 + Z.of_nat (length X) -> k = i + 1 + Z.of_nat (length Y) ->
  col_at (spread front u X v Y w Z z rest) i = Ret v /\ col_at (spread front u X v Y w Z z rest) k = Ret w.
Proof.
  intros Hi Hk. destruct (spread_regroup front u X v Y w Z z rest) as (E1 & E2 & _).
  split; [rewrite E1|rewrite E2]; apply col_at_middle; rewrite length_app; cbn [length]; [lia|].
  rewrite length_app. cbn [length]. lia.
Qed.

(** The swaps of the two branches *)
Lemma spread_swaps front u X v Y w Z z rest h i k e :
  h = Z.of_nat (length front) -> i = h + 1 + Z.of_nat (length X) -> k = i + 1 + Z.of_nat (length Y) ->
  e = k + 1 + Z.of_nat (length Z) ->
  col_swap (spread front u X v Y w Z z rest) i h = Ret (spread front v X u Y w Z z rest)
  /\ col_swap (spread front u X v Y w Z z rest) k e = Ret (spread front u X v Y z Z w rest)
  /\ col_swap (spread front u X v Y w Z z rest) i e = Ret (spread front u X z Y w Z v rest)
  /\ col_swap (spread front u X v Y w Z z rest) k h = Ret (spread front w X v Y u Z z rest).
Proof.
  intros Hh Hi Hk He. destruct (spread_regroup front u X v Y w Z z rest) as (E1 & E2 & E3 & E4).
  assert (Hlen : forall m : list A, length (front ++ u :: m) = (S (length front) + length m)%nat) by (intros m; rewrite length_app; cbn; lia).
  split_and!.
  - destruct (col_swap_middle front u X v (Y ++ w :: Z ++ z :: rest) h i) as [_ E]; [done|done|]. exact E.
  - rewrite E2. destruct (col_swap_middle (front ++ u :: X ++ v :: Y) w Z z rest k e) as [-> _].
    + rewrite Hlen, length_app. cbn [length]. lia.
    + lia.
    + f_equal. symmetry. apply spread_regroup.
  - rewrite E4. destruct (col_swap_middle (front ++ u :: X) v (Y ++ w :: Z) z rest i e) as [-> _].
    + rewrite Hlen. lia.
    + rewrite length_app. cbn [length]. lia.
    + f_equal. symmetry. apply spread_regroup.
  - rewrite E3. destruct (col_swap_middle front u (X ++ v :: Y) w (Z ++ z :: rest) h k) as [_ ->].
    + done.
    + rewrite length_app. cbn [length]. lia.
    + f_equal. symmetry. apply spread_regroup.
Qed.

Lemma choose_pivots_thirds front a X x Y y Z1 b rest start end_ :
  let third := Z.of_nat (length X) + 1 in
  start = Z.of_nat (length front) -> length Z1 = length X ->
  end_ = start + third + 1 + Z.of_nat (length Y) + third -> (end_ - start + 1) / 3 = third -> end_ < 2 ^ 31 - 1 ->
  Forall P [a; x; y; b] ->
  exists lp U rp, choose_pivots less_than start end_ (spread front a X x Y y Z1 b rest) = Ret (layout front lp [] [] U [] rp rest)
    /\ lp :: U ++ [rp] ≡ₚ a :: X ++ x :: Y ++ y :: Z1 ++ [b] /\ lt rp lp = false.
Proof.
  intros third Hstart HZ Hend Hthird Hint HP. rewrite !Forall_cons in HP. destruct HP as (Pa & Px & Py & Pb & _).
  unfold choose_pivots. cbv zeta. rewrite (to_int_id (end_ - start)), (to_int_id (end_ - start + 1)) by lia.
  rewrite (proj2 (Z.ltb_lt _ _)) by lia. rewrite Hthird. ints.
  destruct (spread_at front a X x Y y Z1 b rest (start + third) (end_ - third)) as [Ex Ey]; [lia..|].
  rewrite (col_less_at _ _ _ x y Ex Ey Px Py). cbn [res_bind].
  assert (Hswaps := fun u v w z => spread_swaps front u X v Y w Z1 z rest start (start + third) (end_ - third) end_
    Hstart ltac:(lia) ltac:(lia) ltac:(lia)).
  assert (Hlayout : forall u v w z, spread front u X v Y w Z1 z rest = layout front u [] [] (X ++ v :: Y ++ w :: Z1) [] z rest).
  { intros u v w z. unfold spread, layout. by repeat (cbn [app]; rewrite <- !app_assoc). }
  destruct (lt x y) eqn:E.
  - rewrite (proj1 (Hswaps a x y b)). cbn [res_bind]. rewrite (proj1 (proj2 (Hswaps x a y b))), Hlayout.
    exists x, (X ++ a :: Y ++ b :: Z1), y. split; [done|]. split; [|by apply lt_asym].
    repeat (cbn [app]; rewrite <- ?app_assoc). solve_Permutation.
  - rewrite (proj1 (proj2 (proj2 (Hswaps a x y b)))). cbn [res_bind]. rewrite (proj2 (proj2 (proj2 (Hswaps a b y x)))), Hlayout.
    exists y, (X ++ b :: Y ++ a :: Z1), x. split; [done|]. split; [|done].
    repeat (cbn [app]; rewrite <- ?app_assoc). solve_Permutation.
Qed.

Lemma choose_pivots_spec front seg rest start end_ :
  (2 <= length seg)%nat -> start = Z.of_nat (length front) -> end_ = start + Z.of_nat (length seg) - 1 ->
  end_ < 2 ^ 31 - 1 -> Forall P seg ->
  exists lp U rp, choose_pivots less_than start end_ (front ++ seg ++ rest) = Ret (layout front lp [] [] U [] rp rest)
    /\ lp :: U ++ [rp] ≡ₚ seg /\ lt rp lp = false.
Proof.
  intros Hlen Hstart Hend Hint HP. unfold choose_pivots. rewrite (to_int_id (end_ - start)), (to_int_id (end_ - start + 1)) by lia.
  replace (end_ - start + 1) with (Z.of_nat (length seg)) by lia.
  assert (Hends : exists a m b, seg = a :: m ++ [b]).
  { destruct seg as [|a seg]; [cbn in Hlen; lia|]. destruct (exists_last (l := seg)) as (m & b & ->); [|by exists a, m, b].
    intros ->. cbn in Hlen. lia. }
  destruct Hends as (a & m & b & ->). cbn [length] in *. rewrite length_app in *. cbn [length] in *.
  apply Forall_cons in HP as [Pa HP]. apply Forall_app in HP as [Pm Pb]. apply Forall_cons in Pb as [Pb _].
  destruct (3 <? _) eqn:E3.
  - apply Z.ltb_lt in E3. assert (Hsize : end_ - start + 1 = Z.of_nat (S (length m + 1))) by lia.
    set (n := Z.of_nat (S (length m + 1))) in *. assert (Hn : n = Z.of_nat (length m) + 2) by lia. clearbody n. set (t := n / 3) in *.
    assert (0 < t /\ 3 * t <= n) as [H1 H2] by (split; [apply Z.div_str_pos; lia|apply Z.mul_div_le; lia]).
    destruct (split_at m (Z.to_nat (n - 2 - t))) as (m1 & y & Z1 & -> & Hm1); [lia|]. rewrite length_app in *. cbn [length] in *.
    destruct (split_at m1 (Z.to_nat (t - 1))) as (X & x & Y & -> & HX); [lia|]. rewrite length_app in *. cbn [length] in *.
    apply Forall_app in Pm as [Pm Py]. apply Forall_cons in Py as [Py PZ].
    apply Forall_app in Pm as [PX Px]. apply Forall_cons in Px as [Px PY].
    destruct (choose_pivots_thirds front a X x Y y Z1 b rest start end_) as (lp & U & rp & E & Hp & Hle);
      [done|lia|lia|rewrite Hsize; unfold t in HX; lia|lia|by repeat constructor|].
    exists lp, U, rp. split; [|split; [rewrite Hp|done]].
    + unfold choose_pivots in E. rewrite (to_int_id (end_ - start)), (to_int_id (end_ - start + 1)) in E by lia. rewrite Hsize in E. cbv zeta in E. rewrite (proj2 (Z.ltb_lt _ _) E3) in E. fold t in E.
      unfold spread in E. repeat (cbn [app]; rewrite <- ?app_assoc). exact E.
    + by repeat (cbn [app]; rewrite <- ?app_assoc).
  - clear E3. cbn [app]. rewrite <- app_assoc. cbn [app]. 
    rewrite (col_less_at _ start end_ a b); [|by apply col_at_middle| |done|done].
    2:{ replace (front ++ a :: m ++ b :: rest) with ((front ++ a :: m) ++ b :: rest) by (by rewrite <- app_assoc).
        apply col_at_middle. rewrite length_app. cbn [length]. lia. }
    cbn [res_bind]. destruct (lt a b) eqn:E; cbn [negb].
    + exists a, m, b. split; [done|]. split; [done|by apply lt_asym].
    + destruct (col_swap_middle front a m b rest start end_) as [-> _]; [done|lia|].
      exists b, m, a. split; [done|]. split; [solve_Permutation|done].
Qed.

(** ** The pivots move between their classes *)

Lemma place_left_pivot (front : list A) lp L tail start j :
  start = Z.of_nat (length front) -> j = start + Z.of_nat (length L) ->
  exists L', L' ≡ₚ L /\ col_swap (front ++ lp :: L ++ tail) start j = Ret (front ++ L' ++ lp :: tail).
Proof.
  intros Hs Hj. destruct L as [|l L0 _] using rev_ind.
  - exists []. split; [done|]. replace j with start by (cbn in Hj; lia). by apply col_swap_self.
  - exists (l :: L0). split; [apply Permutation_cons_append|]. rewrite length_app in Hj. cbn [length] in Hj.
    destruct (col_swap_middle front lp L0 l tail start j) as [E _]; [done|lia|]. rewrite <- app_assoc. exact E.
Qed.

Lemma place_right_pivot (front : list A) R rp rest end_ g :
  g = Z.of_nat (length front) -> end_ = g + Z.of_nat (length R) ->
  exists R', R' ≡ₚ R /\ col_swap (front ++ R ++ rp :: rest) end_ g = Ret (front ++ rp :: R' ++ rest).
Proof. intros Hg He. by apply swap_into_left. Qed.

(** The collection after the partition *)
Definition parts (front L : list A) (lp : A) (Mid : list A) (rp : A) (R rest : list A) : list A :=
  front ++ L ++ lp :: Mid ++ rp :: R ++ rest.

Lemma place_pivots front lp L Mid R rp rest start end_ j g :
  start = Z.of_nat (length front) -> j = start + Z.of_nat (length L) -> g = j + 1 + Z.of_nat (length Mid) ->
  end_ = g + Z.of_nat (length R) ->
  exists L' R', L' ≡ₚ L /\ R' ≡ₚ R
    /\ (let* col := col_swap (layout front lp L Mid [] R rp rest) start j in col_swap col end_ g)
       = Ret (parts front L' lp Mid rp R' rest).
Proof.
  intros Hs Hj Hg He. unfold layout. cbn [app].
  destruct (place_left_pivot front lp L (Mid ++ R ++ rp :: rest) start j Hs Hj) as (L' & HL & ->). cbn [res_bind].
  pose proof (Permutation_length HL).
  destruct (place_right_pivot (front ++ L' ++ lp :: Mid) R rp rest end_ g) as (R' & HR & E); [rewrite !length_app; cbn [length]; lia|done|].
  exists L', R'. split; [done|]. split; [done|]. unfold parts. rewrite <- !app_assoc in E. cbn [app] in E. exact E.
Qed.

(** ** The sort of a segment *)

Definition le (a b : A) : Prop := lt b a = false.

Lemma int_of_size n : Z.of_nat n < 2 ^ 31 -> to_int (size_t (Z.of_nat n - 1)) = Z.of_nat n - 1.
Proof.
  intros Hn. unfold size_t. destruct n as [|n]; [reflexivity|]. rewrite Z.mod_small by lia. by ints.
Qed.

(** [sort] sorts every segment of at most [n] elements, and only the segment,
    as far as its indices are [int]s. *)
Definition sorts (n : nat) (sort : Z -> Z -> list A -> res (list A)) : Prop :=
  forall front seg rest start end_, (length seg <= n)%nat -> start = Z.of_nat (length front) ->
    end_ = start + Z.of_nat (length seg) - 1 -> end_ < 2 ^ 31 - 1 -> Forall P seg ->
    exists seg', sort start end_ (front ++ seg ++ rest) = Ret (front ++ seg' ++ rest)
      /\ seg' ≡ₚ seg /\ StronglySorted le seg'.

Lemma sorts_insertion n :
  sorts n (fun start end_ col => insertion_sort_range less_than (Z.to_nat start) (Z.to_nat end_) col).
Proof.
  intros front seg rest start end_ _ Hs He _ HP. exists (isort lt seg).
  split; [|split; [apply isort_perm|by apply (isort_sorted lt P)]].
  unfold insertion_sort_range. destruct HP as [|x seg Px HP].
  - cbn [length] in He. by replace (Z.to_nat end_ - Z.to_nat start)%nat with 0%nat by lia.
  - pose proof (sift_all_refines less_than lt P less_than_lt front [x] seg rest ltac:(by constructor) HP) as H.
    cbn [length rev app] in *. replace (Z.to_nat end_ - Z.to_nat start)%nat with (length seg) by lia.
    replace (Z.to_nat start) with (length front) by lia. rewrite Nat.add_1_r in H. exact H.
Qed.

Lemma sorts_left n sort front L lp Mid rp R rest start end_ :
  sorts n sort -> (length L <= n)%nat -> Forall P L -> start = Z.of_nat (length front) -> end_ = start + Z.of_nat (length L) - 1 ->
  end_ < 2 ^ 31 - 1 ->
  exists L', sort start end_ (parts front L lp Mid rp R rest) = Ret (parts front L' lp Mid rp R rest)
    /\ L' ≡ₚ L /\ StronglySorted le L'.
Proof. intros Hsort Hn HP Hs He Hint. by apply Hsort. Qed.

Lemma sorts_middle n sort front L lp Mid rp R rest start end_ :
  sorts n sort -> (length Mid <= n)%nat -> Forall P Mid -> start = Z.of_nat (length front) + Z.of_nat (length L) + 1 ->
  end_ = start + Z.of_nat (length Mid) - 1 -> end_ < 2 ^ 31 - 1 ->
  exists Mid', sort start end_ (parts front L lp Mid rp R rest) = Ret (parts front L lp Mid' rp R rest)
    /\ Mid' ≡ₚ Mid /\ StronglySorted le Mid'.
Proof.
  intros Hsort Hn HP Hs He Hint.
  destruct (Hsort (front ++ L ++ [lp]) Mid (rp :: R ++ rest) start end_) as (Mid' & E & HM);
    [done|rewrite !length_app; cbn [length]; lia|done|done|done|].
  exists Mid'. split; [|done]. unfold parts. rewrite <- !app_assoc in E. exact E.
Qed.

Lemma sorts_right n sort front L lp Mid rp R rest start end_ :
  sorts n sort -> (length R <= n)%nat -> Forall P R ->
  start = Z.of_nat (length front) + Z.of_nat (length L) + Z.of_nat (length Mid) + 2 -> end_ = start + Z.of_nat (length R) - 1 ->
  end_ < 2 ^ 31 - 1 ->
  exists R', sort start end_ (parts front L lp Mid rp R rest) = Ret (parts front L lp Mid rp R' rest)
    /\ R' ≡ₚ R /\ StronglySorted le R'.
Proof.
  intros Hsort Hn HP Hs He Hint.
  destruct (Hsort (front ++ L ++ lp :: Mid ++ [rp]) R rest start end_) as (R' & E & HR);
    [done|rewrite !length_app; cbn [length]; rewrite length_app; cbn [length]; lia|done|done|done|].
  exists R'. split; [|done]. unfold parts. repeat (rewrite <- ?app_assoc in E; cbn [app] in E). exact E.
Qed.

Lemma sorted_parts lp rp L Mid R :
  classes lp rp L Mid R -> Forall P (lp :: rp :: L ++ Mid ++ R) -> lt rp lp = false ->
  StronglySorted le L -> StronglySorted le Mid -> StronglySorted le R -> StronglySorted le (L ++ lp :: Mid ++ rp :: R).
Proof.
  intros [HL HM HR] HP Hpp SL SM SR. rewrite !Forall_cons, !Forall_app in HP. destruct HP as (Plp & Prp & PL & PM & PR).
  assert (Le : forall a b d, P a -> P b -> P d -> le a b -> le b d -> le a d) by (unfold le; eauto).
  rewrite !Forall_forall in *.
  assert (HL' : forall x, x ∈ L -> le x lp) by (intros x Hx; apply lt_asym; auto).
  assert (HM' : forall x, x ∈ Mid -> le lp x /\ le x rp) by (intros x Hx; destruct (HM x Hx); split; [done|apply lt_asym; auto]).
  assert (HR' : forall x, x ∈ R -> le rp x) by (intros x Hx; by apply HR).
  assert (Hlr : forall x, x ∈ R -> le lp x) by (intros x Hx; apply (Le lp rp x); auto).
  apply StronglySorted_app. split; [|split; [done|]].
  - intros x y Hx Hy. apply (Le x lp y); auto.
    + rewrite elem_of_cons, elem_of_app, elem_of_cons in Hy. destruct Hy as [-> | [?|[-> | ?]]]; auto.
    + rewrite elem_of_cons, elem_of_app, elem_of_cons in Hy. destruct Hy as [-> | [?|[-> | ?]]]; [|apply HM'; done|done|auto].
      unfold le. destruct (lt lp lp) eqn:E; [|done]. by rewrite (lt_asym lp lp) in E.
  - constructor.
    + apply StronglySorted_app. split; [|split; [done|constructor; [done|by apply Forall_forall]]].
      intros x y Hx Hy. rewrite elem_of_cons in Hy. destruct Hy as [-> |Hy]; [by apply HM'|].
      apply (Le x rp y); auto. by apply HM'.
    + apply Forall_forall. intros y Hy. rewrite elem_of_app, elem_of_cons in Hy.
      destruct Hy as [?|[-> | ?]]; [by apply HM'|done|auto].
Qed.

(** One round: the segment becomes three parts around the pivots. *)
Lemma round_spec front seg rest start end_ :
  (2 <= length seg)%nat -> start = Z.of_nat (length front) -> end_ = start + Z.of_nat (length seg) - 1 ->
  end_ < 2 ^ 31 - 1 -> Forall P seg ->
  exists L lp Mid rp R, classes lp rp L Mid R /\ L ++ lp :: Mid ++ rp :: R ≡ₚ seg /\ lt rp lp = false
    /\ forall (B : Type) (next : Z -> Z -> list A -> res B),
      (let* col := choose_pivots less_than start end_ (front ++ seg ++ rest) in
       let* (pointers, col) := partition_loop less_than (S (length col)) start end_ (to_int (start + 1)) (to_int (start + 1)) (to_int (end_ - 1)) col in
       let (j, g) := (pointers : Z * Z) in
       let* col := col_swap col start (to_int (j - 1)) in
       let* col := col_swap col end_ (to_int (g + 1)) in
       next (to_int (j - 1)) (to_int (g + 1)) col)
      = next (start + Z.of_nat (length L)) (start + Z.of_nat (length L) + 1 + Z.of_nat (length Mid))
             (parts front L lp Mid rp R rest).
Proof.
  intros Hlen Hs He Hint HP. destruct (choose_pivots_spec front seg rest start end_ Hlen Hs He Hint HP) as (lp & U & rp & Ep & Hp & Hpp).
  pose proof (Permutation_length Hp) as Hl. cbn [length] in Hl. rewrite length_app in Hl. cbn [length] in Hl.
  assert (HPs : Forall P (lp :: U ++ [rp])) by (by rewrite Hp).
  apply Forall_cons in HPs as [Plp HPs]. apply Forall_app in HPs as [PU Prp]. apply Forall_cons in Prp as [Prp _].
  destruct (partition_spec front rest lp rp (S (length (layout front lp [] [] U [] rp rest))) [] [] U []
    (start + 1) (start + 1) (end_ - 1) end_) as (L & Mid & R & j & g & Eq & Hcl & Hperm & Hj & Hg).
  1: unfold layout; rewrite !length_app; cbn [length app]; rewrite !length_app; cbn [length]; lia.
  1-5: cbn [length]; lia.
  1-5: done || (by split; constructor).
  pose proof (Permutation_length Hperm) as Hl'. rewrite !length_app in Hl'. cbn [app length] in Hl', Hperm.
  rewrite app_nil_r in Hperm.
  destruct (place_pivots front lp L Mid R rp rest start end_ (j - 1) (g + 1)) as (L' & R' & HL & HR & Es); [lia..|].
  exists L', lp, Mid, rp, R'. split; [|split; [|split; [done|]]].
  - destruct Hcl. split; [by rewrite HL|done|by rewrite HR].
  - rewrite <- Hp, HL, HR, <- Hperm, <- !app_assoc. solve_Permutation.
  - intros B next. rewrite Ep. cbn [res_bind]. ints. subst start. rewrite Eq. cbn [res_bind]. ints.
    pose proof (Permutation_length HL) as HLl. rewrite HLl.
    destruct (col_swap _ (Z.of_nat (length front)) (j - 1)) as [c|]; cbn [res_bind] in Es |- *; [|done]. rewrite Es. cbn [res_bind].
    f_equal; lia.
Qed.

(** The three parts: [recur] for two of them, [again] for the largest *)
Definition sort_parts (recur again : Z -> Z -> list A -> res (list A)) (start end_ left_pointer right_pointer : Z) (col : list A)
  : res (list A) :=
  let left_size := to_int (left_pointer - start) in
  let middle_size := to_int (right_pointer - to_int (left_pointer + 1)) in
  let right_size := to_int (to_int (end_ + 1) - to_int (right_pointer + 1)) in
  if (middle_size <=? left_size) && (right_size <=? left_size) then
    let* col := recur (to_int (left_pointer + 1)) (to_int (right_pointer - 1)) col in
    let* col := recur (to_int (right_pointer + 1)) end_ col in
    again start (to_int (left_pointer - 1)) col
  else if right_size <=? middle_size then
    let* col := recur start (to_int (left_pointer - 1)) col in
    let* col := recur (to_int (right_pointer + 1)) end_ col in
    again (to_int (left_pointer + 1)) (to_int (right_pointer - 1)) col
  else
    let* col := recur start (to_int (left_pointer - 1)) col in
    let* col := recur (to_int (left_pointer + 1)) (to_int (right_pointer - 1)) col in
    again (to_int (right_pointer + 1)) end_ col.

Lemma dual_pivot_loop_round fuel start end_ col :
  start < end_ ->
  dual_pivot_loop less_than (S fuel) start end_ col
  = (let* col := choose_pivots less_than start end_ col in
     let* (pointers, col) := partition_loop less_than (S (length col)) start end_ (to_int (start + 1)) (to_int (start + 1)) (to_int (end_ - 1)) col in
     let (j, g) := (pointers : Z * Z) in
     let* col := col_swap col start (to_int (j - 1)) in
     let* col := col_swap col end_ (to_int (g + 1)) in
     sort_parts (dual_pivot_quick_sort less_than fuel) (dual_pivot_loop less_than fuel) start end_ (to_int (j - 1)) (to_int (g + 1)) col).
Proof.
  intros H. cbn [dual_pivot_loop]. rewrite (proj2 (Z.ltb_lt _ _) H). unfold sort_parts, dual_pivot_quick_sort. reflexivity.
Qed.

Lemma sort_parts_spec n recur again front L lp Mid rp R rest start end_ left_pointer right_pointer :
  sorts n recur -> sorts n again -> (length L + length Mid + length R <= n)%nat ->
  start = Z.of_nat (length front) -> left_pointer = start + Z.of_nat (length L) ->
  right_pointer = left_pointer + 1 + Z.of_nat (length Mid) -> end_ = right_pointer + Z.of_nat (length R) ->
  end_ < 2 ^ 31 - 1 -> classes lp rp L Mid R -> Forall P (lp :: rp :: L ++ Mid ++ R) -> lt rp lp = false ->
  exists seg, sort_parts recur again start end_ left_pointer right_pointer (parts front L lp Mid rp R rest)
              = Ret (front ++ seg ++ rest)
    /\ seg ≡ₚ L ++ lp :: Mid ++ rp :: R /\ StronglySorted le seg.
Proof.
  intros Hr Ha Hn Hs Hlp Hrp He Hint Hcl HP Hpp. pose proof HP as HP'.
  rewrite !Forall_cons, !Forall_app in HP'. destruct HP' as (_ & _ & PL & PM & PR).
  assert (Hdone : forall L' Mid' R', L' ≡ₚ L -> Mid' ≡ₚ Mid -> R' ≡ₚ R -> StronglySorted le L' -> StronglySorted le Mid' ->
    StronglySorted le R' -> exists seg, Ret (parts front L' lp Mid' rp R' rest) = Ret (front ++ seg ++ rest)
      /\ seg ≡ₚ L ++ lp :: Mid ++ rp :: R /\ StronglySorted le seg).
  { intros L' Mid' R' EL EM ER SL SM SR. exists (L' ++ lp :: Mid' ++ rp :: R'). split; [|split].
    - unfold parts. by repeat (rewrite <- ?app_assoc; cbn [app]).
    - by rewrite EL, EM, ER.
    - apply sorted_parts; try done; [|by rewrite EL, EM, ER]. destruct Hcl. split; [by rewrite EL|by rewrite EM|by rewrite ER]. }
  unfold sort_parts. cbv zeta.
  rewrite (to_int_id (left_pointer + 1)), (to_int_id (right_pointer + 1)), (to_int_id (left_pointer - 1)), (to_int_id (right_pointer - 1)) by lia.
  destruct (_ && _); [|destruct (_ <=? _)].
  - destruct (sorts_middle n recur front L lp Mid rp R rest (left_pointer + 1) (right_pointer - 1)) as (Mid' & -> & EM & SM); [done|lia|done|lia..|].
    cbn [res_bind]. pose proof (Permutation_length EM) as HM.
    destruct (sorts_right n recur front L lp Mid' rp R rest (right_pointer + 1) end_) as (R' & -> & ER & SR); [done|lia|done|lia..|].
    cbn [res_bind]. destruct (sorts_left n again front L lp Mid' rp R' rest start (left_pointer - 1)) as (L' & -> & EL & SL); [done|lia|done|lia..|].
    by apply Hdone.
  - destruct (sorts_left n recur front L lp Mid rp R rest start (left_pointer - 1)) as (L' & -> & EL & SL); [done|lia|done|lia..|].
    cbn [res_bind]. pose proof (Permutation_length EL) as HL.
    destruct (sorts_right n recur front L' lp Mid rp R rest (right_pointer + 1) end_) as (R' & -> & ER & SR); [done|lia|done|lia..|].
    cbn [res_bind]. destruct (sorts_middle n again front L' lp Mid rp R' rest (left_pointer + 1) (right_pointer - 1)) as (Mid' & -> & EM & SM); [done|lia|done|lia..|].
    by apply Hdone.
  - destruct (sorts_left n recur front L lp Mid rp R rest start (left_pointer - 1)) as (L' & -> & EL & SL); [done|lia|done|lia..|].
    cbn [res_bind]. pose proof (Permutation_length EL) as HL.
    destruct (sorts_middle n recur front L' lp Mid rp R rest (left_pointer + 1) (right_pointer - 1)) as (Mid' & -> & EM & SM); [done|lia|done|lia..|].
    cbn [res_bind]. pose proof (Permutation_length EM) as HM.
    destruct (sorts_right n again front L' lp Mid' rp R rest (right_pointer + 1) end_) as (R' & -> & ER & SR); [done|lia|done|lia..|].
    by apply Hdone.
Qed.

Lemma sorts_dual_pivot n fuel : sorts n (dual_pivot_loop less_than fuel) -> sorts n (dual_pivot_quick_sort less_than fuel).
Proof.
  intros H front seg rest start end_ Hn Hs He Hint HP. unfold dual_pivot_quick_sort. destruct (_ <=? _); [|by apply H].
  by apply (sorts_insertion n).
Qed.

Lemma sorts_dual_pivot_loop fuel : forall n, (n < fuel)%nat -> sorts n (dual_pivot_loop less_than fuel).
Proof.
  induction fuel as [|fuel IH]; [lia|]. intros n Hn front seg rest start end_ Hseg Hs He Hint HP.
  destruct (Nat.le_gt_cases 2 (length seg)) as [Hlen|Hlen].
  - rewrite dual_pivot_loop_round by lia.
    destruct (round_spec front seg rest start end_ Hlen Hs He Hint HP) as (L & lp & Mid & rp & R & Hcl & Hp & Hpp & Hnext).
    rewrite Hnext. pose proof (Permutation_length Hp) as Hl. rewrite length_app in Hl. cbn [length] in Hl.
    rewrite length_app in Hl. cbn [length] in Hl.
    assert (Hp' : lp :: rp :: L ++ Mid ++ R ≡ₚ seg) by (rewrite <- Hp; solve_Permutation).
    destruct (sort_parts_spec (length L + length Mid + length R) (dual_pivot_quick_sort less_than fuel) (dual_pivot_loop less_than fuel)
      front L lp Mid rp R rest start end_ (start + Z.of_nat (length L)) (start + Z.of_nat (length L) + 1 + Z.of_nat (length Mid)))
      as (seg' & -> & Hp2 & Hsorted); [apply sorts_dual_pivot, IH; lia|apply IH; lia|lia..|done|by rewrite Hp'|done|].
    exists seg'. split; [done|]. split; [by rewrite Hp2|done].
  - exists seg. cbn [dual_pivot_loop]. rewrite (proj2 (Z.ltb_ge _ _)) by lia. split; [done|]. split; [done|].
    destruct seg as [|x [|y seg]]; [constructor|by repeat constructor|cbn in Hlen; lia].
Qed.

Lemma quick_sort_spec col : Z.of_nat (length col) < 2 ^ 31 -> Forall P col ->
  exists sorted, quick_sort less_than col = Ret sorted /\ sorted ≡ₚ col /\ StronglySorted le sorted.
Proof.
  intros Hint HP. destruct (sorts_dual_pivot (length col) (S (length col)) (sorts_dual_pivot_loop _ _ (Nat.lt_succ_diag_r _))
    [] col [] 0 (Z.of_nat (length col) - 1)) as (sorted & E & H); [done|done|lia|lia|done|].
  exists sorted. cbn [app] in E. rewrite !app_nil_r in E. unfold quick_sort. by rewrite int_of_size.
Qed.

(** ** The single-pivot sort *)

Lemma single_pivot_partition_spec front p rest U : forall Lo Hi i j,
  i = 1 + Z.of_nat (length Lo) -> j = i + Z.of_nat (length Hi) -> j + Z.of_nat (length U) < 2 ^ 31 -> P p -> Forall P U ->
  Forall (fun x => lt x p = true) Lo -> Forall (fun x => lt x p = false) Hi ->
  exists Lo' Hi', Lo' ++ Hi' ≡ₚ Lo ++ Hi ++ U
    /\ Forall (fun x => lt x p = true) Lo' /\ Forall (fun x => lt x p = false) Hi'
    /\ single_pivot_partition less_than (length U) (Z.of_nat (length front)) i j (front ++ p :: Lo ++ Hi ++ U ++ rest)
       = Ret (1 + Z.of_nat (length Lo'), front ++ p :: Lo' ++ Hi' ++ rest).
Proof.
  induction U as [|x U IH]; intros Lo Hi i j Hi_ Hj Hint Pp PU HLo HHi.
  { exists Lo, Hi. rewrite app_nil_r. split_and!; [done..|]. by rewrite Hi_. }
  apply Forall_cons in PU as [Px PU]. cbn [length single_pivot_partition app] in *. rewrite (to_int_id (i + 1)), (to_int_id (j + 1)) by lia.
  assert (Eless : col_less less_than (front ++ p :: Lo ++ Hi ++ x :: U ++ rest) (Z.of_nat (length front) + j) (Z.of_nat (length front))
                  = Ret (lt x p)).
  { apply col_less_at; [|by apply col_at_middle|done|done].
    replace (front ++ p :: Lo ++ Hi ++ x :: U ++ rest) with ((front ++ p :: Lo ++ Hi) ++ x :: U ++ rest)
      by (by repeat (rewrite <- ?app_assoc; cbn [app])).
    apply col_at_middle. rewrite length_app. cbn [length]. rewrite length_app. lia. }
  rewrite Eless. cbn [res_bind]. destruct (lt x p) eqn:E.
  - destruct (swap_into_left (front ++ p :: Lo) Hi x (U ++ rest) (Z.of_nat (length front) + i) (Z.of_nat (length front) + j))
      as (Hi2 & Hp2 & Es); [rewrite length_app; cbn [length]; lia|lia|].
    rewrite <- !app_assoc in Es. cbn [app] in Es. rewrite Es. cbn [res_bind]. pose proof (Permutation_length Hp2).
    destruct (IH (Lo ++ [x]) Hi2 (i + 1) (j + 1)) as (Lo3 & Hi3 & Hp3 & HLo3 & HHi3 & E3);
      [rewrite length_app; cbn [length]; lia|lia|lia|done|done|apply Forall_app; by repeat constructor|by rewrite Hp2|].
    exists Lo3, Hi3. split; [rewrite Hp3, Hp2; solve_Permutation|]. split; [done|]. split; [done|].
    rewrite <- app_assoc in E3. exact E3.
  - destruct (IH Lo (Hi ++ [x]) i (j + 1)) as (Lo3 & Hi3 & Hp3 & HLo3 & HHi3 & E3);
      [done|rewrite length_app; cbn [length]; lia|lia|done|done|done|apply Forall_app; by repeat constructor|].
    exists Lo3, Hi3. split; [rewrite Hp3; solve_Permutation|]. split; [done|]. split; [done|].
    rewrite <- app_assoc in E3. exact E3.
Qed.

Lemma single_pivot_round front seg rest start size :
  (2 <= length seg)%nat -> start = Z.of_nat (length front) -> size = Z.of_nat (length seg) -> size < 2 ^ 31 -> Forall P seg ->
  exists Lo p Hi, Lo ++ p :: Hi ≡ₚ seg
    /\ Forall (fun x => lt x p = true) Lo /\ Forall (fun x => lt x p = false) Hi
    /\ forall (B : Type) (next : Z -> list A -> res B),
      (let* col := col_swap (front ++ seg ++ rest) (start + size / 2) start in
       let* (i, col) := single_pivot_partition less_than (Z.to_nat (size - 1)) start 1 1 col in
       let* col := col_swap col start (start + i - 1) in
       next i col)
      = next (1 + Z.of_nat (length Lo)) (front ++ Lo ++ p :: Hi ++ rest).
Proof.
  intros Hlen Hs Hsize Hint HP.
  assert (1 <= size / 2 < size) as [H1 H2] by (split; [apply Z.div_le_lower_bound; lia|apply Z.div_lt_upper_bound; lia]).
  destruct (split_at seg (Z.to_nat (size / 2))) as (a & p & b & -> & Ha); [lia|].
  destruct a as [|h a]; [cbn in Ha; lia|]. rewrite length_app in *. cbn [length app] in *.
  apply Forall_cons in HP as [Ph HP]. apply Forall_app in HP as [Pa HP]. apply Forall_cons in HP as [Pp Pb].
  destruct (col_swap_middle front h a p (b ++ rest) start (start + size / 2)) as [_ E1]; [done|lia|].
  destruct (single_pivot_partition_spec front p rest (a ++ h :: b) [] [] 1 1) as (Lo & Hi & Hp & HLo & HHi & E2);
    [done|done|rewrite length_app; cbn [length]; lia|done|apply Forall_app; by repeat constructor|constructor|constructor|].
  destruct (place_left_pivot front p Lo (Hi ++ rest) start (start + (1 + Z.of_nat (length Lo)) - 1)) as (Lo' & HL & E3); [done|lia|].
  exists Lo', p, Hi. split; [rewrite HL, <- Permutation_middle, Hp; cbn [app]; solve_Permutation|].
  split; [by rewrite HL|]. split; [done|]. intros B next.
  replace (front ++ (h :: a ++ p :: b) ++ rest) with (front ++ h :: a ++ p :: b ++ rest) by (by repeat (cbn [app]; rewrite <- ?app_assoc)).
  rewrite <- !app_assoc. cbn [app]. rewrite E1. cbn [res_bind].
  replace (Z.to_nat (size - 1)) with (length (a ++ h :: b)) by (rewrite length_app; cbn [length]; lia).
  cbn [app] in E2. rewrite <- app_assoc in E2. cbn [app] in E2. subst start. rewrite E2. cbn [res_bind]. rewrite E3. cbn [res_bind].
  by rewrite (Permutation_length HL).
Qed.

Lemma sorted_around p Lo Hi :
  P p -> Forall P Lo -> Forall P Hi -> Forall (fun x => lt x p = true) Lo -> Forall (fun x => lt x p = false) Hi ->
  StronglySorted le Lo -> StronglySorted le Hi -> StronglySorted le (Lo ++ p :: Hi).
Proof.
  intros Pp PL PH HL HH SL SH. rewrite !Forall_forall in *. apply StronglySorted_app.
  split; [|split; [done|constructor; [done|by apply Forall_forall]]].
  intros x y Hx Hy. assert (le x p) by (apply lt_asym; auto).
  apply elem_of_cons in Hy as [-> |Hy]; [done|]. unfold le in *. apply (lt_trans x p y); auto.
Qed.

Lemma sorts_single_pivot fuel : forall n, (n < fuel)%nat ->
  sorts n (fun start end_ => single_pivot_quick_sort less_than fuel start (end_ + 1)).
Proof.
  induction fuel as [|fuel IH]; [lia|]. intros n Hn front seg rest start end_ Hseg Hs He Hint HP. cbn [single_pivot_quick_sort].
  rewrite (to_int_id (end_ + 1 - start)) by lia.
  replace (end_ + 1 - start) with (Z.of_nat (length seg)) by lia. cbv zeta.
  destruct (Z.of_nat (length seg) <=? 1) eqn:Esize.
  { exists seg. split; [done|]. split; [done|]. apply Z.leb_le in Esize.
    destruct seg as [|x [|y seg]]; [constructor|by repeat constructor|cbn in Esize; lia]. }
  apply Z.leb_gt in Esize.
  destruct (single_pivot_round front seg rest start (Z.of_nat (length seg))) as (Lo & p & Hi & Hp & HLo & HHi & Hnext); [lia|done|done|lia|done|].
  rewrite (Hnext _ (fun i col => if _ <? i then _ else _)). clear Hnext.
  assert (HPs : Forall P (Lo ++ p :: Hi)) by (by rewrite Hp). apply Forall_app in HPs as [PL PH]. apply Forall_cons in PH as [Pp PH].
  pose proof (Permutation_length Hp) as Hl. rewrite length_app in Hl. cbn [length] in Hl.
  assert (Hhi : forall Lo', length Lo' = length Lo -> exists Hi',
    single_pivot_quick_sort less_than fuel (start + (1 + Z.of_nat (length Lo))) (end_ + 1) (front ++ Lo' ++ p :: Hi ++ rest)
    = Ret (front ++ Lo' ++ p :: Hi' ++ rest) /\ Hi' ≡ₚ Hi /\ StronglySorted le Hi').
  { intros Lo' HLo'. destruct (IH (length Hi) ltac:(lia) (front ++ Lo' ++ [p]) Hi rest (start + (1 + Z.of_nat (length Lo))) end_)
      as (Hi' & E & H); [done|rewrite !length_app; cbn [length]; lia|lia|lia|done|].
    exists Hi'. split; [|done]. rewrite <- !app_assoc in E. exact E. }
  assert (Hlo : forall Hi', exists Lo',
    single_pivot_quick_sort less_than fuel start (start + (1 + Z.of_nat (length Lo)) - 1) (front ++ Lo ++ p :: Hi' ++ rest)
    = Ret (front ++ Lo' ++ p :: Hi' ++ rest) /\ Lo' ≡ₚ Lo /\ StronglySorted le Lo').
  { intros Hi'. destruct (IH (length Lo) ltac:(lia) front Lo (p :: Hi' ++ rest) start (start + Z.of_nat (length Lo) - 1))
      as (Lo' & E & H); [done|done|lia|lia|done|]. exists Lo'. split; [|done]. rewrite <- E. f_equal. lia. }
  assert (Hdone : forall Lo' Hi', Lo' ≡ₚ Lo -> Hi' ≡ₚ Hi -> StronglySorted le Lo' -> StronglySorted le Hi' ->
    exists seg', Ret (front ++ Lo' ++ p :: Hi' ++ rest) = Ret (front ++ seg' ++ rest) /\ seg' ≡ₚ seg /\ StronglySorted le seg').
  { intros Lo' Hi' EL EH SL SH. exists (Lo' ++ p :: Hi'). split; [by rewrite <- app_assoc|]. split; [by rewrite EL, EH|].
    apply sorted_around; rewrite ?EL, ?EH; done. }
  destruct (_ <? _).
  - destruct (Hhi Lo eq_refl) as (Hi' & -> & EH & SH). cbn [res_bind]. destruct (Hlo Hi') as (Lo' & -> & EL & SL). by apply Hdone.
  - destruct (Hlo Hi) as (Lo' & -> & EL & SL). cbn [res_bind].
    destruct (Hhi Lo' (Permutation_length EL)) as (Hi' & -> & EH & SH). by apply Hdone.
Qed.

Lemma quick_sort_iterators_spec col : Z.of_nat (length col) < 2 ^ 31 -> Forall P col ->
  exists sorted, quick_sort_iterators less_than col = Ret sorted /\ sorted ≡ₚ col /\ StronglySorted le sorted.
Proof.
  intros Hint HP. destruct (sorts_single_pivot (S (length col)) (length col) (Nat.lt_succ_diag_r _)
    [] col [] 0 (Z.of_nat (length col) - 1)) as (sorted & E & H); [done|done|lia|lia|done|].
  exists sorted. cbn [app] in E. rewrite !app_nil_r in E. split; [|done]. rewrite <- E. unfold quick_sort_iterators. f_equal. lia.
Qed.

End facts.

(** ** Properties *)

(** C28: both quick sorts, the dual-pivot one of a collection and the
    single-pivot one of a range of iterators, end without leaving the
    collection and leave a permutation of it in which no element is less than
    one in front of it, for any comparator that is a strict weak order on the
    elements of the collection, if the collection has fewer than 2^31 elements,
    so that its indices are [int]s. *)
Theorem quick_sort_correct {A} (less_than : A -> A -> res bool) (lt : A -> A -> bool) (P : A -> Prop) (col : list A) :
  Z.of_nat (length col) < 2 ^ 31 -> Forall P col ->
  (forall a b, P a -> P b -> less_than a b = Ret (lt a b)) ->
  (forall a b, P a -> P b -> lt a b = true -> lt b a = false) ->
  (forall a b d, P a -> P b -> P d -> lt b a = false -> lt d b = false -> lt d a = false) ->
  (exists sorted, quick_sort less_than col = Ret sorted /\ sorted ≡ₚ col
    /\ StronglySorted (fun a b => lt b a = false) sorted)
  /\ exists sorted, quick_sort_iterators less_than col = Ret sorted /\ sorted ≡ₚ col
    /\ StronglySorted (fun a b => lt b a = false) sorted.
Proof.
  intros Hint HP Hlt Hasym Htrans. split; [by apply (quick_sort_spec less_than lt P)|by apply (quick_sort_iterators_spec less_than lt P)].
Qed.

Lemma quick_sort_correct_witness :
  (exists sorted, quick_sort (fun a b : Z => Ret (a <? b)) [35; 12; 31; 10; 29; 7; 7; 90; 2; 31] = Ret sorted
     /\ sorted ≡ₚ [35; 12; 31; 10; 29; 7; 7; 90; 2; 31])
  /\ quick_sort (fun a b : Z => Ret (a <? b)) [35; 12; 31; 10; 29; 7; 7; 90; 2; 31] = Ret [2; 7; 7; 10; 12; 29; 31; 31; 35; 90].
Proof.
  split; [|reflexivity].
  destruct (quick_sort_correct (fun a b : Z => Ret (a <? b)) Z.ltb (fun _ => True) [35; 12; 31; 10; 29; 7; 7; 90; 2; 31])
    as [(sorted & H & Hp & _) _]; [simpl; lia|by repeat constructor|done|lia|lia|].
  exists sorted. split; [exact H|exact Hp].
Defined.

(** More elements, up to 2^32: the last index is a negative [int], and the
    collection is left as it is. *)
Lemma quick_sort_too_large {A} (less_than : A -> A -> res bool) (col : list A)
    (Hlen : 2 ^ 31 < Z.of_nat (length col) <= 2 ^ 32) :
  quick_sort less_than col = Ret col.
Proof.
  unfold quick_sort, dual_pivot_quick_sort, size_t. rewrite (Z.mod_small (_ - 1)) by lia.
  assert (Hend : to_int (Z.of_nat (length col) - 1) = Z.of_nat (length col) - 1 - 2 ^ 32).
  { unfold to_int. rewrite <- (Z_mod_plus_full _ (-1)), Z.mod_small by lia. lia. }
  rewrite Hend, (to_int_id (Z.of_nat (length col) - 1 - 2 ^ 32 + 1)), to_int_id by lia. rewrite (proj2 (Z.leb_le _ _)) by (unfold INSERTION_SORT_CUTOFF; lia).
  unfold insertion_sort_range. replace (Z.to_nat (_ - 2 ^ 32)) with 0%nat by lia. done.
Qed.
