(* ===== verification/CharacterTypes.v ===== *)
(** * [AK/CharacterTypes.h]: ASCII and Unicode character classes

    One boolean function per predicate of the header, on a code point of type
    [u32] (a [Z]), the ASCII case maps and the digit conversions, whose
    [VERIFY_NOT_REACHED] branch is [Crash]. *)

From S2P Require Import Prelude.

Definition is_ascii (code_point : Z) : bool := code_point <? 0x80.

Definition is_ascii_digit (code_point : Z) : bool :=
  (ch "0" <=? code_point) && (code_point <=? ch "9").

Definition is_ascii_upper_alpha (code_point : Z) : bool :=
  (ch "A" <=? code_point) && (code_point <=? ch "Z").

Definition is_ascii_lower_alpha (code_point : Z) : bool :=
  (ch "a" <=? code_point) && (code_point <=? ch "z").

Definition is_ascii_alpha (code_point : Z) : bool :=
  is_ascii_lower_alpha code_point || is_ascii_upper_alpha code_point.

Definition is_ascii_alphanumeric (code_point : Z) : bool :=
  is_ascii_alpha code_point || is_ascii_digit code_point.

Definition is_ascii_octal_digit (code_point : Z) : bool :=
  (ch "0" <=? code_point) && (code_point <=? ch "7").

Definition is_ascii_uppercase_hex_digit (code_point : Z) : bool :=
  is_ascii_digit code_point || ((ch "A" <=? code_point) && (code_point <=? ch "F")).

Definition is_ascii_hex_digit (code_point : Z) : bool :=
  is_ascii_uppercase_hex_digit code_point
  || ((ch "a" <=? code_point) && (code_point <=? ch "f")).

Definition is_ascii_space (code_point : Z) : bool :=
  (code_point =? 32) || (code_point =? 9) || (code_point =? 10)
  || (code_point =? 11) || (code_point =? 12) || (code_point =? 13).

Definition is_ascii_c0_control (code_point : Z) : bool := code_point <? 0x20.

Definition is_ascii_c0_control_or_space (code_point : Z) : bool := code_point <=? 0x20.

Definition is_unicode (code_point : Z) : bool := code_point <=? 0x10FFFF.

Definition is_unicode_surrogate (code_point : Z) : bool :=
  (0xD800 <=? code_point) && (code_point <=? 0xDFFF).

Definition is_unicode_scalar_value (code_point : Z) : bool :=
  is_unicode code_point && negb (is_unicode_surrogate code_point).

Definition is_unicode_noncharacter (code_point : Z) : bool :=
  is_unicode code_point
  && (((0xFDD0 <=? code_point) && (code_point <=? 0xFDEF))
      || (Z.land code_point 0xFFFE =? 0xFFFE)
      || (Z.land code_point 0xFFFF =? 0xFFFF)).

Definition to_ascii_lowercase (code_point : Z) : Z :=
  if is_ascii_upper_alpha code_point then code_point + 0x20 else code_point.

Definition to_ascii_uppercase (code_point : Z) : Z :=
  if is_ascii_lower_alpha code_point then code_point - 0x20 else code_point.

Definition parse_ascii_digit (code_point : Z) : res Z :=
  if is_ascii_digit code_point then Ret (code_point - ch "0") else Crash.

Definition parse_ascii_hex_digit (code_point : Z) : res Z :=
  if is_ascii_digit code_point then parse_ascii_digit code_point
  else if (ch "A" <=? code_point) && (code_point <=? ch "F")
  then Ret (code_point - ch "A" + 10)
  else if (ch "a" <=? code_point) && (code_point <=? ch "f")
  then Ret (code_point - ch "a" + 10)
  else Crash.

(** ** Facts *)

(** [unfold_ascii] exposes every character class to [lia]. *)
Ltac unfold_ascii :=
  unfold is_ascii_c0_control_or_space, is_ascii_c0_control, is_ascii_space,
    is_ascii_hex_digit, is_ascii_uppercase_hex_digit, is_ascii_octal_digit,
    is_ascii_alphanumeric, is_ascii_alpha, is_ascii_lower_alpha,
    is_ascii_upper_alpha, is_ascii_digit, is_ascii, is_unicode_scalar_value,
    is_unicode_surrogate, is_unicode, is_byte in *.

Ltac ascii_lia := unfold_ascii; blia.

Lemma is_ascii_digit_hex c : is_ascii_digit c = true -> is_ascii_hex_digit c = true.
Proof. ascii_lia. Qed.

Lemma is_ascii_octal_hex c : is_ascii_octal_digit c = true -> is_ascii_hex_digit c = true.
Proof. ascii_lia. Qed.

(** The value of a hexadecimal digit, without the unreachable branch. *)
Definition hex_value (c : Z) : Z :=
  if is_ascii_digit c then c - 48
  else if (65 <=? c) && (c <=? 70) then c - 55 else c - 87.

Lemma parse_ascii_hex_digit_ok c :
  is_ascii_hex_digit c = true -> parse_ascii_hex_digit c = Ret (hex_value c).
Proof.
  intros H. unfold parse_ascii_hex_digit, parse_ascii_digit, hex_value.
  destruct (is_ascii_digit c) eqn:Hd; [done|].
  destruct ((65 <=? c) && (c <=? 70)) eqn:Hu; [f_equal; lia|].
  destruct ((97 <=? c) && (c <=? 102)) eqn:Hl; [f_equal; lia|].
  ascii_lia.
Qed.

Lemma parse_ascii_digit_ok c :
  is_ascii_digit c = true -> parse_ascii_digit c = Ret (hex_value c).
Proof. intros H. unfold parse_ascii_digit, hex_value. by rewrite H. Qed.

Lemma hex_value_range c : is_ascii_hex_digit c = true -> 0 <= hex_value c < 16.
Proof. unfold hex_value. repeat break_match; ascii_lia. Qed.

Lemma hex_value_digit_range c : is_ascii_digit c = true -> 0 <= hex_value c < 10.
Proof. intros H. unfold hex_value. rewrite H. ascii_lia. Qed.

Lemma to_ascii_lowercase_idemp c :
  to_ascii_lowercase (to_ascii_lowercase c) = to_ascii_lowercase c.
Proof. unfold to_ascii_lowercase. repeat break_match; try done. ascii_lia. Qed.

Lemma to_ascii_lowercase_not_upper c :
  is_ascii_upper_alpha (to_ascii_lowercase c) = false.
Proof. unfold to_ascii_lowercase. break_match; ascii_lia. Qed.

Lemma to_ascii_lowercase_id c :
  is_ascii_upper_alpha c = false -> to_ascii_lowercase c = c.
Proof. intros H. unfold to_ascii_lowercase. by rewrite H. Qed.

#[export] Hint Resolve is_ascii_digit_hex is_ascii_octal_hex hex_value_range : ak.
