(* ===== verification/Utf8.v ===== *)
(** * UTF-8: [AK/UnicodeUtils.h], [AK/Utf8View.h], [AK/Utf8View.cpp] and the
      code-point appenders of [AK/StringBuilder.cpp]

    An [Utf8CodePointIterator] is the pair [m_ptr], [m_length]; it is modelled
    by the bytes it still has in front of it, so [m_length] is the length of
    that list, [done()] is emptiness and [it - begin] a difference of lengths.
    [VERIFY(m_length > 0)] is [Crash] on the empty list. *)

From S2P Require Import Prelude CharacterTypes.

(** ** Encoding *)

Definition REPLACEMENT_CODE_POINT : Z := 0xfffd.

(** [code_point_to_utf8]: the bytes passed to the callback, in order, and the
    returned count ([-1] when nothing is written). *)
Definition code_point_to_utf8 (code_point : Z) : bytes * Z :=
  if code_point <=? 0x7f then
    ([u8 code_point], 1)
  else if code_point <=? 0x07ff then
    ([u8 (Z.lor (Z.land (Z.shiftr code_point 6) 0x1f) 0xc0);
      u8 (Z.lor (Z.land (Z.shiftr code_point 0) 0x3f) 0x80)], 2)
  else if code_point <=? 0xffff then
    ([u8 (Z.lor (Z.land (Z.shiftr code_point 12) 0x0f) 0xe0);
      u8 (Z.lor (Z.land (Z.shiftr code_point 6) 0x3f) 0x80);
      u8 (Z.lor (Z.land (Z.shiftr code_point 0) 0x3f) 0x80)], 3)
  else if code_point <=? 0x10ffff then
    ([u8 (Z.lor (Z.land (Z.shiftr code_point 18) 0x07) 0xf0);
      u8 (Z.lor (Z.land (Z.shiftr code_point 12) 0x3f) 0x80);
      u8 (Z.lor (Z.land (Z.shiftr code_point 6) 0x3f) 0x80);
      u8 (Z.lor (Z.land (Z.shiftr code_point 0) 0x3f) 0x80)], 4)
  else ([], -1).

Definition bytes_to_store_code_point_in_utf8 (code_point : Z) : Z :=
  if code_point <=? 0x7f then 1
  else if code_point <=? 0x7ff then 2
  else if code_point <=? 0xffff then 3
  else if code_point <=? 0x10ffff then 4
  else 0.

(** [StringBuilder::try_append_code_point] of a UTF-8 builder. *)
Definition try_append_code_point (builder : bytes) (code_point : Z) : bytes :=
  if negb (is_unicode code_point)
  then builder ++ (code_point_to_utf8 REPLACEMENT_CODE_POINT).1
  else builder ++ (code_point_to_utf8 code_point).1.

(** [StringBuilder::append_code_point] of a UTF-8 builder, which has its own
    copy of the encoder; the recursive call is on the replacement character. *)
Definition append_code_point_valid (builder : bytes) (code_point : Z) : bytes :=
  if code_point <=? 0x7f then
    builder ++ [u8 code_point]
  else if code_point <=? 0x07ff then
    builder ++ [u8 (Z.lor (Z.land (Z.shiftr code_point 6) 0x1f) 0xc0);
                u8 (Z.lor (Z.land (Z.shiftr code_point 0) 0x3f) 0x80)]
  else if code_point <=? 0xffff then
    builder ++ [u8 (Z.lor (Z.land (Z.shiftr code_point 12) 0x0f) 0xe0);
                u8 (Z.lor (Z.land (Z.shiftr code_point 6) 0x3f) 0x80);
                u8 (Z.lor (Z.land (Z.shiftr code_point 0) 0x3f) 0x80)]
  else
    builder ++ [u8 (Z.lor (Z.land (Z.shiftr code_point 18) 0x07) 0xf0);
                u8 (Z.lor (Z.land (Z.shiftr code_point 12) 0x3f) 0x80);
                u8 (Z.lor (Z.land (Z.shiftr code_point 6) 0x3f) 0x80);
                u8 (Z.lor (Z.land (Z.shiftr code_point 0) 0x3f) 0x80)].

Definition append_code_point (builder : bytes) (code_point : Z) : bytes :=
  if negb (is_unicode code_point)
  then append_code_point_valid builder REPLACEMENT_CODE_POINT
  else append_code_point_valid builder code_point.

(** ** Decoding *)

Record Utf8EncodedByteData := {
  byte_length : nat;
  encoding_bits : Z;
  encoding_mask : Z;
  first_code_point : Z;
  last_code_point : Z
}.

Definition utf8_encoded_byte_data : list Utf8EncodedByteData :=
  [ {| byte_length := 1; encoding_bits := 0; encoding_mask := 128;
       first_code_point := 0x0000; last_code_point := 0x007F |};
    {| byte_length := 2; encoding_bits := 192; encoding_mask := 224;
       first_code_point := 0x0080; last_code_point := 0x07FF |};
    {| byte_length := 3; encoding_bits := 224; encoding_mask := 240;
       first_code_point := 0x0800; last_code_point := 0xFFFF |};
    {| byte_length := 4; encoding_bits := 240; encoding_mask := 248;
       first_code_point := 0x10000; last_code_point := 0x10FFFF |} ].

(** [Utf8View::decode_leading_byte]: [Some (byte_length, code_point_bits)] for
    [is_valid], [None] otherwise. *)
Fixpoint decode_leading_byte_in (table : list Utf8EncodedByteData) (byte : Z) : option (nat * Z) :=
  match table with
  | [] => None
  | data :: rest =>
      if negb (Z.land byte (encoding_mask data) =? encoding_bits data)
      then decode_leading_byte_in rest byte
      else Some (byte_length data, Z.land byte (Z.lnot (encoding_mask data)))
  end.

Definition decode_leading_byte (byte : Z) : option (nat * Z) :=
  decode_leading_byte_in utf8_encoded_byte_data byte.

(** [Utf8CodePointIterator::underlying_code_point_length_in_bytes] on the
    bytes [b0 :: rest] at [m_ptr]. *)
Definition length_at (b0 : Z) (rest : bytes) : nat :=
  match decode_leading_byte b0 with
  | None => 1%nat
  | Some (code_point_length_in_bytes, _) =>
      if (S (length rest) <? code_point_length_in_bytes)%nat then 1%nat
      else if forallb (fun byte => Z.shiftr byte 6 =? 2)
                (take (code_point_length_in_bytes - 1) rest)
      then code_point_length_in_bytes
      else 1%nat
  end.

(** The loop of [operator*] over the extension bytes. *)
Fixpoint decode_extension_bytes (code_point_value_so_far : Z) (extension : bytes) : option Z :=
  match extension with
  | [] => Some code_point_value_so_far
  | byte :: rest =>
      if negb (Z.shiftr byte 6 =? 2) then None
      else decode_extension_bytes
             (Z.lor (u32 (Z.shiftl code_point_value_so_far 6)) (Z.land byte 63)) rest
  end.

(** [Utf8CodePointIterator::operator*] on the bytes [b0 :: rest]. *)
Definition deref_at (b0 : Z) (rest : bytes) : Z :=
  if b0 <=? 0x7F then b0
  else
    match decode_leading_byte b0 with
    | None => 0xFFFD
    | Some (code_point_length_in_bytes, code_point_bits) =>
        if (S (length rest) <? code_point_length_in_bytes)%nat then 0xFFFD
        else
          match decode_extension_bytes code_point_bits
                  (take (code_point_length_in_bytes - 1) rest) with
          | None => 0xFFFD
          | Some code_point => if 0x10FFFF <? code_point then 0xFFFD else code_point
          end
    end.

(** [Utf8CodePointIterator::operator++] on the bytes [b0 :: rest]. *)
Definition incr_at (b0 : Z) (rest : bytes) : bytes :=
  if b0 <=? 0x7F then rest
  else
    let code_point_length_in_bytes := length_at b0 rest in
    if (S (length rest) <? code_point_length_in_bytes)%nat then rest
    else drop code_point_length_in_bytes (b0 :: rest).

Definition iterator_done (it : bytes) : bool := match it with [] => true | _ => false end.

Definition iterator_deref (it : bytes) : res Z :=
  match it with [] => Crash | b0 :: rest => Ret (deref_at b0 rest) end.

Definition iterator_incr (it : bytes) : res bytes :=
  match it with [] => Crash | b0 :: rest => Ret (incr_at b0 rest) end.

Definition underlying_code_point_length_in_bytes (it : bytes) : res nat :=
  match it with [] => Crash | b0 :: rest => Ret (length_at b0 rest) end.

(** The code points a range-[for] over a [Utf8View] visits. Every increment
    consumes at least one byte, so the byte length bounds the iterations. *)
Fixpoint code_points_fuel (fuel : nat) (it : bytes) : list Z :=
  match fuel, it with
  | S fuel, b0 :: rest => deref_at b0 rest :: code_points_fuel fuel (incr_at b0 rest)
  | _, _ => []
  end.

Definition code_points (view : bytes) : list Z := code_points_fuel (length view) view.

(** [Utf8View::iterator_at_byte_offset]; [byte_offset] is a [size_t]. *)
Fixpoint iterator_at_byte_offset_from (fuel : nat) (current_offset : Z) (it : bytes)
    (byte_offset : Z) : bytes :=
  match fuel, it with
  | S fuel, b0 :: rest =>
      if byte_offset <=? current_offset then it
      else iterator_at_byte_offset_from fuel
             (current_offset + Z.of_nat (length_at b0 rest)) (incr_at b0 rest) byte_offset
  | _, _ => []
  end.

Definition iterator_at_byte_offset (view : bytes) (byte_offset : Z) : bytes :=
  iterator_at_byte_offset_from (length view) 0 view byte_offset.

(** ** The [simdutf] library

    [simdutf] is a third-party dependency: its entry points are parameters.
    [validate_utf8_with_errors] returns an error code and the number of valid
    bytes in front of the first error. *)

Inductive simdutf_error := SUCCESS | SURROGATE | OTHER_ERROR.

Class Simdutf := {
  validate_utf8_with_errors : bytes -> simdutf_error * nat;
  validate_ascii : bytes -> bool;
  simdutf_find : bytes -> Z -> nat          (* the offset of the result from [start] *)
}.

Inductive AllowLonelySurrogates := Surrogates_No | Surrogates_Yes.

(** [Utf8View::validate]; the recursive call is on a shorter view, since the
    error position and the three surrogate bytes are skipped. *)
Fixpoint validate_fuel `{Simdutf} (fuel : nat) (allow : AllowLonelySurrogates) (view : bytes)
    : bool :=
  match fuel with
  | O => false
  | S fuel =>
      let '(error, count) := validate_utf8_with_errors view in
      match error, allow with
      | SURROGATE, Surrogates_Yes => validate_fuel fuel allow (drop (count + 3) view)
      | SUCCESS, _ => true
      | _, _ => false
      end
  end.

Definition validate `{Simdutf} (allow : AllowLonelySurrogates) (view : bytes) : bool :=
  validate_fuel (S (length view)) allow view.

(** [String::from_utf8_with_replacement_character] *)
Definition from_utf8_with_replacement_character `{Simdutf} (view : bytes)
    (with_bom_handling : bool) : bytes :=
  let view :=
    if with_bom_handling && bool_decide (take 3 view = [0xEF; 0xBB; 0xBF])
    then drop 3 view else view in
  if validate Surrogates_No view then view
  else
    fold_left (fun builder code_point =>
      if is_unicode_surrogate code_point
      then append_code_point builder REPLACEMENT_CODE_POINT
      else append_code_point builder code_point) (code_points view) [].

(** The UTF-8 encoding of a sequence of code points, and the byte strings that
    encode a sequence of scalar values ("well-formed UTF-8"). *)
Definition utf8_encode (cps : list Z) : bytes := cps ≫= fun cp => (code_point_to_utf8 cp).1.

Abbreviation scalars := (Forall (fun c : Z => 0 <= c /\ is_unicode_scalar_value c = true)).

Definition well_formed_utf8 (s : bytes) : Prop := exists cps, scalars cps /\ s = utf8_encode cps.

(** What the code relies on of [simdutf]: success means well-formed UTF-8, the
    surrogate error that an encoded surrogate follows the well-formed bytes
    counted, [validate_ascii] accepts exactly the byte strings below 0x80, and
    [find] returns the first occurrence of a byte, or the end. *)
Class SimdutfLaws `{Simdutf} : Prop := {
  validate_utf8_success (s : bytes) :
    all_bytes s -> (validate_utf8_with_errors s).1 = SUCCESS <-> well_formed_utf8 s;
  validate_utf8_surrogate (s : bytes) (count : nat) :
    all_bytes s -> validate_utf8_with_errors s = (SURROGATE, count)
    <-> exists cps surrogate rest, scalars cps /\ is_unicode_surrogate surrogate = true
          /\ s = utf8_encode cps ++ utf8_encode [surrogate] ++ rest /\ count = length (utf8_encode cps);
  validate_ascii_spec (s : bytes) : validate_ascii s = forallb is_ascii s;
  simdutf_find_spec (s : bytes) (c : Z) :
    (simdutf_find s c <= length s)%nat
    /\ (forall i, (i < simdutf_find s c)%nat -> s !! i <> Some c)
    /\ ((simdutf_find s c < length s)%nat -> s !! simdutf_find s c = Some c)
}.

(** ** Facts: single bytes, by enumeration of the 256 values *)

Lemma byte_enumeration {A} `{EqDecision A} (f g : Z -> A) :
  forallb (fun b => bool_decide (f b = g b)) (seqZ 0 256) = true ->
  forall b, 0 <= b < 256 -> f b = g b.
Proof.
  intros H b Hb. rewrite forallb_forall in H. apply (bool_decide_eq_true_1 _), H.
  apply list_elem_of_In, elem_of_seqZ. lia.
Qed.

(** What [decode_leading_byte] computes, as ranges. *)
Definition leading_byte_ranges (b : Z) : option (nat * Z) :=
  if b <? 128 then Some (1%nat, b)
  else if b <? 192 then None
  else if b <? 224 then Some (2%nat, b - 192)
  else if b <? 240 then Some (3%nat, b - 224)
  else if b <? 248 then Some (4%nat, b - 240)
  else None.

Lemma decode_leading_byte_ranges b :
  0 <= b < 256 -> decode_leading_byte b = leading_byte_ranges b.
Proof. revert b. apply byte_enumeration. vm_compute. reflexivity. Qed.

Lemma extension_byte_shift b :
  0 <= b < 256 -> (Z.shiftr b 6 =? 2) = (128 <=? b) && (b <? 192).
Proof.
  revert b. apply (byte_enumeration (fun b => Z.shiftr b 6 =? 2)).
  vm_compute. reflexivity.
Qed.

Lemma land_63 b : Z.land b 63 = b mod 64.
Proof. apply (land_ones_mod b 6). lia. Qed.

(** ** Facts: the encoder *)

Ltac euclid := Z.to_euclidean_division_equations; lia.

Lemma lor_high x n k : 0 <= n -> 0 <= x < 2 ^ n -> Z.lor x (k * 2 ^ n) = k * 2 ^ n + x.
Proof.
  intros Hn Hx. rewrite Z.lor_comm, <- Z.shiftl_mul_pow2 by lia.
  rewrite lor_shiftl_add by lia. by rewrite Z.shiftl_mul_pow2 by lia.
Qed.

Lemma encode_bits cp s n k d mask base m :
  mask = m - 1 -> base = k * m -> m = 2 ^ n -> d = 2 ^ s -> 0 <= s -> 0 <= n ->
  Z.lor (Z.land (Z.shiftr cp s) mask) base = base + (cp / d) mod m.
Proof.
  intros -> -> -> -> Hs Hn.
  rewrite land_ones_mod, Z.shiftr_div_pow2 by lia.
  pose proof (Z.mod_pos_bound (cp / 2 ^ s) (2 ^ n) ltac:(lia)).
  by rewrite lor_high by lia.
Qed.

(** The leading and extension bytes, as sums. *)
Lemma utf8_byte_forms cp :
  Z.lor (Z.land cp 0x3f) 0x80 = 128 + cp mod 64
  /\ Z.lor (Z.land (Z.shiftr cp 6) 0x3f) 0x80 = 128 + cp / 64 mod 64
  /\ Z.lor (Z.land (Z.shiftr cp 12) 0x3f) 0x80 = 128 + cp / 4096 mod 64
  /\ Z.lor (Z.land (Z.shiftr cp 6) 0x1f) 0xc0 = 192 + cp / 64 mod 32
  /\ Z.lor (Z.land (Z.shiftr cp 12) 0x0f) 0xe0 = 224 + cp / 4096 mod 16
  /\ Z.lor (Z.land (Z.shiftr cp 18) 0x07) 0xf0 = 240 + cp / 262144 mod 8.
Proof.
  pose proof (encode_bits cp 0 6 2 1 0x3f 0x80 64) as E0.
  rewrite Z.shiftr_0_r, Z.div_1_r in E0.
  repeat split; [by apply E0|by eapply (encode_bits _ 6 6 2)|by eapply (encode_bits _ 12 6 2)
    |by eapply (encode_bits _ 6 5 6)|by eapply (encode_bits _ 12 4 14)|by eapply (encode_bits _ 18 3 30)].
Qed.

Definition encoded (cp : Z) : bytes :=
  if cp <=? 0x7f then [cp]
  else if cp <=? 0x7ff then [192 + cp / 64; 128 + cp mod 64]
  else if cp <=? 0xffff then [224 + cp / 4096; 128 + cp / 64 mod 64; 128 + cp mod 64]
  else [240 + cp / 262144; 128 + cp / 4096 mod 64; 128 + cp / 64 mod 64; 128 + cp mod 64].

Lemma code_point_to_utf8_encoded cp :
  0 <= cp <= 0x10FFFF -> (code_point_to_utf8 cp).1 = encoded cp.
Proof.
  intros Hcp. unfold code_point_to_utf8, encoded.
  rewrite !Z.shiftr_0_r.
  destruct (utf8_byte_forms cp) as (-> & -> & -> & -> & -> & ->).
  repeat break_match; cbn [fst]; rewrite ?u8_id by (bool_to_prop; euclid);
    try done; try lia; repeat f_equal; apply Z.mod_small; euclid.
Qed.

Lemma append_code_point_encoded builder cp :
  0 <= cp <= 0x10FFFF -> append_code_point builder cp = builder ++ encoded cp.
Proof.
  intros Hcp. rewrite <- code_point_to_utf8_encoded by done.
  unfold append_code_point, append_code_point_valid, code_point_to_utf8, is_unicode.
  repeat break_match; try done; blia.
Qed.

Lemma append_code_point_replacement builder cp :
  0x10FFFF < cp -> append_code_point builder cp = builder ++ encoded 0xFFFD.
Proof.
  intros Hcp. unfold append_code_point. replace (is_unicode cp) with false by ascii_lia.
  reflexivity.
Qed.

Lemma try_append_code_point_agrees builder cp :
  0 <= cp -> try_append_code_point builder cp = append_code_point builder cp.
Proof.
  intros Hcp. unfold try_append_code_point. destruct (is_unicode cp) eqn:E; simpl negb; cbv iota.
  - rewrite code_point_to_utf8_encoded, append_code_point_encoded by ascii_lia. done.
  - rewrite append_code_point_replacement by ascii_lia. reflexivity.
Qed.

Lemma append_code_point_ascii builder cp :
  0 <= cp < 128 -> append_code_point builder cp = builder ++ [cp].
Proof.
  intros Hcp. rewrite append_code_point_encoded by lia. unfold encoded.
  replace (cp <=? 127) with true by lia. done.
Qed.

Lemma encoded_bytes cp : 0 <= cp <= 0x10FFFF -> all_bytes (encoded cp).
Proof.
  intros Hcp. unfold encoded.
  repeat break_match; repeat constructor; unfold is_byte;
    Z.to_euclidean_division_equations; lia.
Qed.

Lemma encoded_nonempty cp : encoded cp <> [].
Proof. unfold encoded. by repeat break_match. Qed.

(** ** Facts: the decoder *)

Lemma decode_extension_step v b :
  128 <= b < 192 -> 0 <= v < 2 ^ 26 ->
  Z.lor (u32 (Z.shiftl v 6)) (Z.land b 63) = v * 64 + (b - 128).
Proof.
  intros Hb Hv. rewrite land_63.
  rewrite u32_id by (rewrite Z.shiftl_mul_pow2 by lia; lia).
  rewrite lor_shiftl_add by (lia || (split; [apply Z.mod_pos_bound; lia|]; apply Z.mod_pos_bound; lia)).
  replace (b mod 64) with (b - 128); [done|].
  Z.to_euclidean_division_equations; lia.
Qed.

Lemma decode_extension_cons v b ext :
  128 <= b < 192 -> 0 <= v < 2 ^ 26 ->
  decode_extension_bytes v (b :: ext) = decode_extension_bytes (v * 64 + (b - 128)) ext.
Proof.
  intros Hb Hv. simpl. rewrite extension_byte_shift by lia.
  replace ((128 <=? b) && (b <? 192)) with true by lia. simpl.
  by rewrite decode_extension_step.
Qed.

Lemma decode_multibyte b0 ext rest n v cp :
  127 < b0 -> decode_leading_byte b0 = Some (n, v) -> S (length ext) = n ->
  Forall (fun b => 128 <= b < 192) ext ->
  decode_extension_bytes v ext = Some cp -> cp <= 0x10FFFF ->
  deref_at b0 (ext ++ rest) = cp /\ incr_at b0 (ext ++ rest) = rest
  /\ length_at b0 (ext ++ rest) = n.
Proof.
  intros Hb0 Hlead Hlen Hext Hdec Hcp. subst n.
  assert (forallb (fun byte => Z.shiftr byte 6 =? 2) ext = true) as Hshift.
  { apply forallb_Forall_iff. eapply Forall_impl; [exact Hext|]. simpl. intros b Hb.
    rewrite extension_byte_shift by lia. lia. }
  assert (length_at b0 (ext ++ rest) = S (length ext)) as Hlenat.
  { unfold length_at. rewrite Hlead. rewrite length_app.
    rewrite (proj2 (Nat.ltb_ge _ _)) by lia.
    replace (S (length ext) - 1)%nat with (length ext) by lia.
    by rewrite take_app_length, Hshift. }
  unfold deref_at, incr_at. replace (b0 <=? 127) with false by lia.
  cbv zeta. rewrite Hlenat, Hlead, length_app.
  rewrite (proj2 (Nat.ltb_ge _ _)) by lia.
  replace (S (length ext) - 1)%nat with (length ext) by lia.
  rewrite take_app_length, Hdec. replace (1114111 <? cp) with false by lia.
  simpl. rewrite drop_app_length. done.
Qed.

(** One multi-byte form of [encoded]: [n] bytes with leading bits [v]. *)
Ltac decode_case shape n v rest :=
  match shape with
  | [_] => apply (decode_multibyte _ [_] rest n v)
  | [_; _] => apply (decode_multibyte _ [_; _] rest n v)
  | [_; _; _] => apply (decode_multibyte _ [_; _; _] rest n v)
  end;
  [ euclid
  | rewrite decode_leading_byte_ranges by euclid; unfold leading_byte_ranges;
    repeat (break_match; try (f_equal; f_equal; lia); try euclid)
  | done
  | repeat constructor; euclid
  | rewrite !decode_extension_cons by euclid; simpl; f_equal; euclid
  | euclid ].

(** Decoding the encoding of a code point gives it back and advances past it. *)
Lemma decode_encoded cp rest :
  0 <= cp <= 0x10FFFF ->
  exists b0 tl, encoded cp ++ rest = b0 :: tl /\ deref_at b0 tl = cp /\ incr_at b0 tl = rest
    /\ length_at b0 tl = length (encoded cp).
Proof.
  intros Hcp. unfold encoded. repeat break_match; simpl app; eexists _, _; (split; [reflexivity|]).
  - unfold deref_at, incr_at, length_at. replace (cp <=? 127) with true by lia.
    rewrite decode_leading_byte_ranges by lia. unfold leading_byte_ranges.
    replace (cp <? 128) with true by lia. done.
  - decode_case [0] 2%nat (cp / 64) rest.
  - decode_case [0; 0] 3%nat (cp / 4096) rest.
  - decode_case [0; 0; 0] 4%nat (cp / 262144) rest.
Qed.

Lemma length_at_pos b0 rest : (0 < length_at b0 rest)%nat.
Proof.
  unfold length_at. repeat break_match; try lia.
  enough (n <> 0)%nat by lia. intros ->.
  match goal with H : decode_leading_byte _ = _ |- _ => revert H end.
  unfold decode_leading_byte; simpl; repeat break_match; done.
Qed.

(** Every increment consumes at least one byte. *)
Lemma incr_at_suffix b0 rest : exists l, l <> [] /\ b0 :: rest = l ++ incr_at b0 rest.
Proof.
  pose proof (length_at_pos b0 rest) as Hp. unfold incr_at. cbv zeta.
  repeat break_match; [by exists [b0]|by exists [b0]|].
  exists (take (length_at b0 rest) (b0 :: rest)). rewrite take_drop. split; [|done].
  destruct (length_at b0 rest); [lia|done].
Qed.

Lemma incr_at_progress b0 rest : (length (incr_at b0 rest) <= length rest)%nat.
Proof.
  destruct (incr_at_suffix b0 rest) as (l & Hl & Heq).
  apply (f_equal length) in Heq. rewrite length_app in Heq. simpl in Heq.
  destruct l; [done|]. simpl in Heq. lia.
Qed.

Lemma code_points_fuel_enough n1 n2 it :
  (length it <= n1)%nat -> (length it <= n2)%nat ->
  code_points_fuel n1 it = code_points_fuel n2 it.
Proof.
  revert n2 it. induction n1 as [|n1 IH]; intros [|n2] [|b0 rest] H1 H2; simpl in *; try done; try lia.
  f_equal. pose proof (incr_at_progress b0 rest). apply IH; lia.
Qed.

Lemma code_points_cons b0 rest :
  code_points (b0 :: rest) = deref_at b0 rest :: code_points (incr_at b0 rest).
Proof.
  unfold code_points. simpl. f_equal. pose proof (incr_at_progress b0 rest).
  apply code_points_fuel_enough; lia.
Qed.

Lemma code_points_encoded cp rest :
  0 <= cp <= 0x10FFFF -> code_points (encoded cp ++ rest) = cp :: code_points rest.
Proof.
  intros Hcp. destruct (decode_encoded cp rest Hcp) as (b0 & tl & -> & Hd & Hi & _).
  by rewrite code_points_cons, Hd, Hi.
Qed.

Lemma code_points_utf8_encode cps rest :
  Forall (fun cp => 0 <= cp <= 0x10FFFF) cps ->
  code_points (utf8_encode cps ++ rest) = cps ++ code_points rest.
Proof.
  unfold utf8_encode. induction 1 as [|cp cps Hcp Hcps IH]; [done|].
  csimpl. rewrite code_point_to_utf8_encoded, <- app_assoc by done.
  by rewrite code_points_encoded, IH.
Qed.

Lemma code_points_ascii s :
  Forall (fun b => 0 <= b < 128) s -> code_points s = s.
Proof.
  induction 1 as [|b s Hb Hs IH]; [done|].
  rewrite code_points_cons. unfold deref_at, incr_at.
  replace (b <=? 127) with true by lia. by rewrite IH.
Qed.

Lemma decode_extension_range v ext cp :
  Forall (fun b => is_byte b = true) ext -> 0 <= v ->
  decode_extension_bytes v ext = Some cp -> 0 <= cp.
Proof.
  revert v. induction ext as [|b ext IH]; intros v Hall Hv; simpl; [intros; by simplify_eq|].
  apply Forall_cons in Hall as [Hb Hall]. break_match; [done|]. apply IH; [done|].
  apply Z.lor_nonneg. split; [apply u32_range|]. apply Z.land_nonneg. right. lia.
Qed.

Lemma deref_at_range b0 rest :
  all_bytes (b0 :: rest) -> 0 <= deref_at b0 rest <= 0x10FFFF.
Proof.
  intros [Hb Hall]%Forall_cons. unfold deref_at.
  repeat break_match; try ascii_lia. split; [|lia].
  eapply decode_extension_range; [|..]; [| |eassumption].
  - by apply Forall_take.
  - assert (Hd : decode_leading_byte b0 = Some (n, z)) by done.
    rewrite decode_leading_byte_ranges in Hd by ascii_lia.
    unfold leading_byte_ranges in Hd. repeat break_match_hyp Hd; simplify_eq; ascii_lia.
Qed.

Lemma incr_at_all_bytes b0 rest :
  all_bytes (b0 :: rest) -> all_bytes (incr_at b0 rest).
Proof.
  intros H. destruct (incr_at_suffix b0 rest) as (l & _ & Heq). rewrite Heq in H.
  by apply Forall_app in H as [_ H].
Qed.

Lemma code_points_range s :
  all_bytes s -> Forall (fun cp => 0 <= cp <= 0x10FFFF) (code_points s).
Proof.
  unfold code_points. generalize (length s) as n. intros n. revert s.
  induction n as [|n IH]; intros [|b0 rest] Hs; simpl; constructor.
  - by apply deref_at_range.
  - by apply IH, incr_at_all_bytes.
Qed.

Lemma utf8_encode_app cps1 cps2 :
  utf8_encode (cps1 ++ cps2) = utf8_encode cps1 ++ utf8_encode cps2.
Proof. unfold utf8_encode. apply bind_app. Qed.

Lemma utf8_encode_cons cp cps : 0 <= cp <= 0x10FFFF -> utf8_encode (cp :: cps) = encoded cp ++ utf8_encode cps.
Proof. intros Hcp. unfold utf8_encode. csimpl. by rewrite code_point_to_utf8_encoded. Qed.

Lemma utf8_encode_single cp : 0 <= cp <= 0x10FFFF -> utf8_encode [cp] = encoded cp.
Proof.
  intros Hcp. unfold utf8_encode. csimpl. by rewrite app_nil_r, code_point_to_utf8_encoded.
Qed.

Lemma utf8_encode_bytes cps :
  Forall (fun cp => 0 <= cp <= 0x10FFFF) cps -> all_bytes (utf8_encode cps).
Proof.
  unfold utf8_encode. induction 1 as [|cp cps Hcp Hcps IH]; csimpl; [constructor|].
  rewrite code_point_to_utf8_encoded by done. apply Forall_app. split; [|done].
  by apply encoded_bytes.
Qed.

Lemma scalars_range cps : scalars cps -> Forall (fun cp => 0 <= cp <= 0x10FFFF) cps.
Proof. intros H. eapply Forall_impl; [exact H|]. simpl. intros c [? ?]. ascii_lia. Qed.

Lemma well_formed_app s1 s2 :
  well_formed_utf8 s1 -> well_formed_utf8 s2 -> well_formed_utf8 (s1 ++ s2).
Proof.
  intros (c1 & H1 & ->) (c2 & H2 & ->). exists (c1 ++ c2).
  split; [by apply Forall_app|]. by rewrite utf8_encode_app.
Qed.

Lemma well_formed_ascii s : Forall (fun b => 0 <= b < 128) s -> well_formed_utf8 s.
Proof.
  intros H. exists s. split.
  - eapply Forall_impl; [exact H|]. simpl. intros c Hc. ascii_lia.
  - unfold utf8_encode. induction H as [|b s Hb Hs IH]; [done|]. csimpl.
    rewrite code_point_to_utf8_encoded by lia. unfold encoded at 1.
    replace (b <=? 127) with true by lia. by rewrite <- IH.
Qed.

Lemma well_formed_bytes s : well_formed_utf8 s -> all_bytes s.
Proof. intros (cps & H & ->). by apply utf8_encode_bytes, scalars_range. Qed.

Lemma well_formed_encoded cp :
  0 <= cp -> is_unicode_scalar_value cp = true -> well_formed_utf8 (encoded cp).
Proof.
  intros H1 H2. exists [cp]. split; [by repeat constructor|].
  rewrite utf8_encode_single; [done|ascii_lia].
Qed.

Section WithSimdutf.
Context `{SimdutfLaws}.

Lemma validate_no_surrogates s :
  all_bytes s -> validate Surrogates_No s = true <-> well_formed_utf8 s.
Proof.
  intros Hs. rewrite <- validate_utf8_success by done. unfold validate. simpl.
  destruct (validate_utf8_with_errors s) as [[] n]; simpl; done.
Qed.

Lemma validate_well_formed allow s :
  well_formed_utf8 s -> validate allow s = true.
Proof.
  intros Hs. pose proof (well_formed_bytes s Hs) as Hb.
  apply validate_utf8_success in Hs; [|done]. unfold validate. simpl.
  destruct (validate_utf8_with_errors s) as [[] n], allow; simpl in *; done.
Qed.

Lemma ascii_valid s : Forall (fun x => 0 <= x < 128) s -> validate Surrogates_Yes s = true.
Proof. intros Hs. apply validate_well_formed. by apply well_formed_ascii. Qed.

Lemma replacement_loop_well_formed cps builder :
  Forall (fun cp => 0 <= cp <= 0x10FFFF) cps -> well_formed_utf8 builder ->
  well_formed_utf8 (fold_left (fun builder code_point =>
      if is_unicode_surrogate code_point
      then append_code_point builder REPLACEMENT_CODE_POINT
      else append_code_point builder code_point) cps builder).
Proof.
  intros Hcps. revert builder. induction Hcps as [|cp cps Hcp _ IH]; intros builder Hb; [done|].
  simpl. apply IH. break_match.
  - rewrite append_code_point_encoded by (unfold REPLACEMENT_CODE_POINT; lia).
    apply well_formed_app; [done|]. by apply well_formed_encoded.
  - rewrite append_code_point_encoded by done. apply well_formed_app; [done|].
    apply well_formed_encoded; [lia|]. unfold is_unicode_scalar_value, is_unicode.
    rewrite Heqb. lia.
Qed.

Lemma from_utf8_well_formed s bom :
  all_bytes s -> well_formed_utf8 (from_utf8_with_replacement_character s bom).
Proof.
  intros Hs. unfold from_utf8_with_replacement_character. cbv zeta.
  set (view := if bom && _ then drop 3 s else s).
  assert (all_bytes view) as Hv by (unfold view; break_match; [by apply Forall_drop|done]).
  destruct (validate Surrogates_No view) eqn:E.
  - by apply validate_no_surrogates.
  - apply replacement_loop_well_formed; [by apply code_points_range|].
    exists []. split; [constructor|done].
Qed.

Lemma from_utf8_identity s :
  well_formed_utf8 s -> from_utf8_with_replacement_character s false = s.
Proof.
  intros Hs. unfold from_utf8_with_replacement_character. simpl.
  by rewrite validate_well_formed.
Qed.

End WithSimdutf.

(** ** A reference [simdutf]

    An executable validator that meets [SimdutfLaws]: decode a code point,
    compare its encoding with the input, and stop at a surrogate. It shows that
    the laws can hold and lets examples run. *)

Fixpoint reference_validate (fuel count : nat) (s : bytes) : simdutf_error * nat :=
  match fuel, s with
  | O, _ | _, [] => (SUCCESS, count)
  | S fuel, b0 :: rest =>
      let cp := deref_at b0 rest in
      let len := length (encoded cp) in
      if negb (bool_decide (encoded cp = take len s)) then (OTHER_ERROR, count)
      else if is_unicode_surrogate cp then (SURROGATE, count)
      else reference_validate fuel (count + len) (drop len s)
  end.

Lemma reference_validate_cons fuel count cp rest :
  0 <= cp <= 0x10FFFF ->
  reference_validate (S fuel) count (encoded cp ++ rest)
  = if is_unicode_surrogate cp then (SURROGATE, count) else reference_validate fuel (count + length (encoded cp)) rest.
Proof.
  intros Hcp. destruct (decode_encoded cp rest Hcp) as (b0 & tl & E & Hd & _ & _). cbn [reference_validate]. rewrite E, Hd, <- E.
  rewrite take_app_length, drop_app_length, bool_decide_eq_true_2 by done. done.
Qed.

(** The validator reads the longest well-formed prefix. *)
Lemma reference_validate_scalars cps : forall fuel count rest,
  scalars cps -> (length (utf8_encode cps ++ rest) <= fuel)%nat ->
  exists fuel', (length rest <= fuel')%nat
    /\ reference_validate fuel count (utf8_encode cps ++ rest) = reference_validate fuel' (count + length (utf8_encode cps)) rest.
Proof.
  induction cps as [|cp cps IH]; intros fuel count rest Hcps Hf.
  { exists fuel. change (utf8_encode []) with (@nil Z) in *. cbn [length app] in *. rewrite Nat.add_0_r. done. }
  apply Forall_cons in Hcps as [[H0 Hcp] Hcps]. assert (Hr : 0 <= cp <= 0x10FFFF) by ascii_lia.
  assert (E : utf8_encode (cp :: cps) = encoded cp ++ utf8_encode cps).
  { unfold utf8_encode. csimpl. by rewrite code_point_to_utf8_encoded. }
  rewrite E in *. rewrite <- app_assoc in *. pose proof (encoded_nonempty cp) as Hne. rewrite length_app in Hf.
  destruct (encoded cp) as [|x enc] eqn:Ee; [done|]. rewrite <- Ee in *. assert (0 < length (encoded cp))%nat by (rewrite Ee; cbn; lia).
  destruct fuel as [|fuel]; [lia|]. rewrite reference_validate_cons by done.
  replace (is_unicode_surrogate cp) with false by ascii_lia.
  destruct (IH fuel (count + length (encoded cp))%nat rest Hcps) as (fuel' & Hf' & ->); [lia|].
  exists fuel'. split; [done|]. f_equal. rewrite length_app. lia.
Qed.

Lemma reference_validate_sound fuel : forall s count,
  all_bytes s -> (length s <= fuel)%nat ->
  match reference_validate fuel count s with
  | (SUCCESS, _) => well_formed_utf8 s
  | (SURROGATE, n) => exists cps surrogate rest, scalars cps /\ is_unicode_surrogate surrogate = true
      /\ s = utf8_encode cps ++ utf8_encode [surrogate] ++ rest /\ n = (count + length (utf8_encode cps))%nat
  | (OTHER_ERROR, _) => True
  end.
Proof.
  induction fuel as [|fuel IH]; intros s count Hs Hf; (destruct s as [|b0 tl]; [by exists []|]); [cbn in Hf; lia|].
  pose proof (deref_at_range b0 tl Hs) as Hr. cbn [reference_validate]. set (cp := deref_at b0 tl) in *.
  destruct (bool_decide _) eqn:E; cbn [negb]; [|done]. apply bool_decide_eq_true in E.
  assert (Es : b0 :: tl = encoded cp ++ drop (length (encoded cp)) (b0 :: tl)) by (rewrite E at 1; by rewrite take_drop).
  set (rest := drop _ _) in *. clearbody rest cp. clear E. rewrite Es in *. clear Es.
  apply Forall_app in Hs as [_ Hs]. rewrite length_app in Hf. pose proof (encoded_nonempty cp).
  assert (0 < length (encoded cp))%nat by (destruct (encoded cp); [done|cbn; lia]).
  destruct (is_unicode_surrogate cp) eqn:Esur.
  { exists [], cp, rest. rewrite utf8_encode_single by done. cbn [utf8_encode app length]. split_and!; [constructor|done|done|].
    cbn. lia. }
  assert (Hcp : 0 <= cp /\ is_unicode_scalar_value cp = true) by (split; [lia|]; unfold is_unicode_scalar_value, is_unicode; rewrite Esur; lia).
  specialize (IH rest (count + length (encoded cp))%nat Hs ltac:(lia)). destruct (reference_validate fuel _ rest) as [[] n]; [|..|done].
  - apply well_formed_app; [|done]. apply well_formed_encoded; apply Hcp.
  - destruct IH as (cps & surrogate & r & Hcps & Hsur & -> & ->). exists (cp :: cps), surrogate, r.
    assert (Ee : utf8_encode (cp :: cps) = encoded cp ++ utf8_encode cps).
    { unfold utf8_encode. csimpl. by rewrite code_point_to_utf8_encoded. }
    rewrite Ee, length_app, <- app_assoc. split_and!; [by constructor|done|done|lia].
Qed.

Fixpoint reference_find (s : bytes) (c : Z) : nat :=
  match s with [] => 0 | x :: s => if x =? c then 0 else S (reference_find s c) end.

Lemma reference_find_spec s c :
  (reference_find s c <= length s)%nat
  /\ (forall i, (i < reference_find s c)%nat -> s !! i <> Some c)
  /\ ((reference_find s c < length s)%nat -> s !! reference_find s c = Some c).
Proof.
  induction s as [|x s (IH1 & IH2 & IH3)]; simpl; [split_and!; [lia|lia|lia]|].
  destruct (Z.eqb_spec x c) as [->|Hne]; [split_and!; [lia|lia|done]|]. split_and!; [lia| |].
  - intros [|i] Hi; [by intros [= ->]|]. apply IH2. lia.
  - intros Hlt. simpl. apply IH3. lia.
Qed.

#[export] Instance reference_simdutf : Simdutf := {
  validate_utf8_with_errors s := reference_validate (length s) 0 s;
  validate_ascii s := forallb is_ascii s;
  simdutf_find s c := reference_find s c
}.

#[export] Instance reference_simdutf_laws : SimdutfLaws.
Proof.
  split; [| |done|exact reference_find_spec]; cbn [validate_utf8_with_errors reference_simdutf].
  - intros s Hs. split.
    + intros E. pose proof (reference_validate_sound (length s) s 0 Hs ltac:(lia)) as Hv.
      destruct (reference_validate _ _ s) as [[] n]; done.
    + intros (cps & Hcps & ->). destruct (reference_validate_scalars cps (length (utf8_encode cps)) 0 [] Hcps) as (fuel & _ & E).
      { by rewrite app_nil_r. }
      rewrite app_nil_r in E. rewrite E. by destruct fuel.
  - intros s n Hs. split.
    + intros E. pose proof (reference_validate_sound (length s) s 0 Hs ltac:(lia)) as Hv. by rewrite E in Hv.
    + intros (cps & surrogate & rest & Hcps & Hsur & -> & ->).
      destruct (reference_validate_scalars cps _ 0 (utf8_encode [surrogate] ++ rest) Hcps (Nat.le_refl _)) as (fuel & Hf & ->).
      assert (Hr : 0 <= surrogate <= 0x10FFFF) by ascii_lia. rewrite utf8_encode_single in * by done.
      pose proof (encoded_nonempty surrogate). destruct fuel as [|fuel].
      { rewrite length_app in Hf. destruct (encoded surrogate); [done|cbn in Hf; lia]. }
      rewrite reference_validate_cons by done. by rewrite Hsur.
Qed.

(** ** Byte offsets *)

Lemma iterator_at_offset_boundary fuel cps rest o :
  Forall (fun cp => 0 <= cp <= 0x10FFFF) cps ->
  (length (utf8_encode cps ++ rest) <= fuel)%nat ->
  iterator_at_byte_offset_from fuel o (utf8_encode cps ++ rest)
    (o + Z.of_nat (length (utf8_encode cps))) = rest.
Proof.
  intros Hcps. revert fuel o. induction Hcps as [|cp cps Hcp Hcps IH]; intros fuel o Hf.
  - simpl. destruct fuel, rest; simpl in *; try done; [lia|].
    rewrite (proj2 (Z.leb_le _ _)) by lia. done.
  - change (cp :: cps) with ([cp] ++ cps) in *.
    rewrite utf8_encode_app, utf8_encode_single, <- app_assoc in * by done.
    pose proof (encoded_nonempty cp) as Hne.
    destruct (decode_encoded cp (utf8_encode cps ++ rest) Hcp) as (b0 & tl & Heq & _ & Hi & Hl).
    rewrite Heq in *. destruct fuel as [|fuel]; simpl in Hf; [lia|]. simpl.
    rewrite Hi, Hl, !length_app.
    assert (0 < length (encoded cp))%nat by (destruct (encoded cp); [done|simpl; lia]).
    rewrite (proj2 (Z.leb_gt _ _)) by lia.
    replace (o + Z.of_nat (length (encoded cp) + length (utf8_encode cps)))
      with ((o + Z.of_nat (length (encoded cp))) + Z.of_nat (length (utf8_encode cps))) by lia.
    apply IH. pose proof (incr_at_progress b0 tl). rewrite Hi in *. lia.
Qed.

(** ** Properties *)

(** C37: UTF-8 decoding inverts encoding. Iterating a [Utf8View] over the bytes
    that [code_point_to_utf8] emits for a sequence of Unicode code points visits
    exactly these code points (surrogates included), and every byte emitted
    fits in a byte. *)
Theorem utf8_decode_encode (cps : list Z)
    (Hcps : Forall (fun cp => 0 <= cp <= 0x10FFFF) cps) :
  code_points (utf8_encode cps) = cps /\ all_bytes (utf8_encode cps).
Proof.
  split; [|by apply utf8_encode_bytes].
  pose proof (code_points_utf8_encode cps [] Hcps) as E.
  by rewrite !app_nil_r in E.
Qed.

Lemma utf8_decode_encode_witness :
  code_points (utf8_encode [0x24; 0xA2; 0x20AC; 0x10348; 0xD800])
  = [0x24; 0xA2; 0x20AC; 0x10348; 0xD800].
Proof. apply (utf8_decode_encode [0x24; 0xA2; 0x20AC; 0x10348; 0xD800]). repeat constructor; lia. Defined.

(** Iterating any byte string, well-formed or not, terminates with at most
    one code point per byte, and every code point it yields is a Unicode code
    point. *)
Theorem utf8_iteration_safe (s : bytes) (Hs : all_bytes s) :
  (length (code_points s) <= length s)%nat
  /\ Forall (fun cp => 0 <= cp <= 0x10FFFF) (code_points s).
Proof.
  split; [|by apply code_points_range].
  unfold code_points. generalize (length s) at 1 as n. intros n. clear Hs. revert s.
  induction n as [|n IH]; intros [|b0 rest]; simpl; try lia.
  pose proof (IH (incr_at b0 rest)). pose proof (incr_at_progress b0 rest). lia.
Qed.

Lemma utf8_iteration_safe_witness :
  Forall (fun cp => 0 <= cp <= 0x10FFFF) (code_points [0xF7; 0xBF; 0xBF; 0xBF; 0xC3]).
Proof. apply (utf8_iteration_safe [0xF7; 0xBF; 0xBF; 0xBF; 0xC3]). by repeat constructor. Defined.

(** [String::from_utf8_with_replacement_character] always produces
    well-formed UTF-8, whatever bytes it is given, and it leaves well-formed
    input unchanged when BOM handling is off. *)
Theorem from_utf8_with_replacement_character_ok `{SimdutfLaws} (s : bytes) (bom : bool)
    (Hs : all_bytes s) :
  well_formed_utf8 (from_utf8_with_replacement_character s bom)
  /\ (well_formed_utf8 s -> from_utf8_with_replacement_character s false = s).
Proof. split; [by apply from_utf8_well_formed|apply from_utf8_identity]. Qed.

Lemma from_utf8_with_replacement_character_ok_witness :
  well_formed_utf8 (from_utf8_with_replacement_character [0x61; 0xED; 0xA0; 0x80; 0xFF] false)
  /\ from_utf8_with_replacement_character [0x61; 0xED; 0xA0; 0x80; 0xFF] false
     = [0x61; 0xEF; 0xBF; 0xBD; 0xEF; 0xBF; 0xBD].
Proof.
  split; [|vm_compute; reflexivity].
  apply (from_utf8_with_replacement_character_ok [0x61; 0xED; 0xA0; 0x80; 0xFF] false).
  by repeat constructor.
Defined.

(** The decoder does not reject overlong encodings: the two-byte form 0xC0
    0xAF, which is not well-formed UTF-8, is decoded to U+002F (the solidus),
    so replacement decoding yields a one-byte slash where the Encoding Standard
    demands two replacement characters. *)
Theorem overlong_solidus_is_decoded `{SimdutfLaws} :
  ~ well_formed_utf8 [0xC0; 0xAF]
  /\ from_utf8_with_replacement_character [0xC0; 0xAF] false = [ch "/"].
Proof.
  assert (Hnot : ~ well_formed_utf8 [0xC0; 0xAF]).
  { intros (cps & Hcps & Heq).
    pose proof (code_points_utf8_encode cps [] (scalars_range _ Hcps)) as Hd.
    rewrite !app_nil_r, <- Heq in Hd. vm_compute in Hd. subst cps. discriminate Heq. }
  split; [done|]. unfold from_utf8_with_replacement_character. simpl.
  destruct (validate Surrogates_No _) eqn:E; [|reflexivity].
  apply validate_no_surrogates in E; [done|by repeat constructor].
Qed.

Lemma overlong_solidus_is_decoded_witness :
  from_utf8_with_replacement_character [0xC0; 0xAF] false = [47].
Proof. apply overlong_solidus_is_decoded. Defined.
