(* ===== verification/Utf16.v ===== *)
(** * UTF-16: the conversions of [AK/String.cpp] and [AK/Utf16View.cpp]

    [String::from_utf16_le_with_replacement_character] and its big-endian twin
    hand their bytes to [simdutf] as an array of [char16_t].  [simdutf] is not
    part of the repository, so its functions are a parameter, the class
    [SimdutfUtf16], on the bytes in memory; [SimdutfUtf16Laws] states what its
    documentation promises in terms of the reference decoder [utf16_decode]. *)

From S2P Require Import Prelude CharacterTypes Utf8.

(** ** Code units and a reference decoder *)

Inductive endianness := LittleEndian | BigEndian.

Definition endianness_eqb (a b : endianness) : bool :=
  match a, b with LittleEndian, LittleEndian | BigEndian, BigEndian => true | _, _ => false end.

(** The code units of an array in memory; a last byte without a partner is not
    part of the array. *)
Fixpoint units (e : endianness) (bs : bytes) : list Z :=
  match bs with
  | a :: b :: bs => (match e with LittleEndian => b * 256 + a | BigEndian => a * 256 + b end) :: units e bs
  | _ => []
  end.

Definition unit_bytes (e : endianness) (unit : Z) : bytes :=
  match e with
  | LittleEndian => [unit mod 256; unit / 256]
  | BigEndian => [unit / 256; unit mod 256]
  end.

Definition is_high_surrogate (unit : Z) : bool := (0xD800 <=? unit) && (unit <=? 0xDBFF).
Definition is_low_surrogate (unit : Z) : bool := (0xDC00 <=? unit) && (unit <=? 0xDFFF).

(** The code points of a sequence of code units, U+FFFD for an unpaired
    surrogate. *)
Fixpoint utf16_decode (us : list Z) : list Z :=
  match us with
  | [] => []
  | a :: us =>
      if is_high_surrogate a then
        match us with
        | b :: us' =>
            if is_low_surrogate b
            then 0x10000 + (a - 0xD800) * 1024 + (b - 0xDC00) :: utf16_decode us'
            else 0xFFFD :: utf16_decode us
        | [] => [0xFFFD]
        end
      else if is_low_surrogate a then 0xFFFD :: utf16_decode us
      else a :: utf16_decode us
  end.

Definition utf16_units (cp : Z) : list Z :=
  if cp <? 0x10000 then [cp] else [0xD800 + (cp - 0x10000) / 1024; 0xDC00 + (cp - 0x10000) mod 1024].

Definition utf16_encode (cps : list Z) : list Z := cps ≫= utf16_units.

Definition utf16_bytes (e : endianness) (cps : list Z) : bytes := utf16_encode cps ≫= unit_bytes e.

(** ** [simdutf] *)

(** Each function gets the memory its array lies in; [convert_utf16_to_utf8]
    returns the number of bytes it says it wrote, and those bytes. *)
Class SimdutfUtf16 := {
  validate_utf16 : endianness -> bytes -> bool;
  to_well_formed_utf16 : endianness -> bytes -> bytes;
  utf8_length_from_utf16 : endianness -> bytes -> nat;
  convert_utf16_to_utf8 : endianness -> bytes -> nat * bytes
}.

Class SimdutfUtf16Laws `{SimdutfUtf16} : Prop := {
  validate_utf16_spec e bs : all_bytes bs ->
    validate_utf16 e bs = true <-> exists cps, scalars cps /\ units e bs = utf16_encode cps;
  to_well_formed_utf16_spec e bs : all_bytes bs ->
    to_well_formed_utf16 e bs = utf16_bytes e (utf16_decode (units e bs));
  utf8_length_from_utf16_spec e bs cps : all_bytes bs -> scalars cps -> units e bs = utf16_encode cps ->
    utf8_length_from_utf16 e bs = length (utf8_encode cps);
  convert_utf16_to_utf8_spec e bs cps : all_bytes bs -> scalars cps -> units e bs = utf16_encode cps ->
    convert_utf16_to_utf8 e bs = (length (utf8_encode cps), utf8_encode cps);
  convert_utf16_to_utf8_invalid e bs : all_bytes bs -> validate_utf16 e bs = false ->
    convert_utf16_to_utf8 e bs = (0%nat, [])
}.

(** ** The conversions *)

Section conversions.
Context `{SimdutfUtf16}.

(** [AK::validate_utf16_le] and [AK::validate_utf16_be] *)
Definition validate_utf16_le (bytes : bytes) : bool := validate_utf16 LittleEndian bytes.
Definition validate_utf16_be (bytes : bytes) : bool := validate_utf16 BigEndian bytes.

(** The callback that fills the new string: [ASSERT], active in builds without
    NDEBUG, stops the process when the buffer is not filled. *)
Definition convert_into_buffer (e : endianness) (utf16_data : bytes) : res bytes :=
  let utf8_length := utf8_length_from_utf16 e utf16_data in
  let '(result, written) := convert_utf16_to_utf8 e utf16_data in
  verify (result =? utf8_length)%nat (Ret written).

(** [String::from_utf16_le_with_replacement_character] *)
Definition from_utf16_le_with_replacement_character (bytes : bytes) : res (list Z) :=
  match bytes with
  | [] => Ret []
  | _ =>
      let utf16_data :=
        if negb (validate_utf16_le bytes) then to_well_formed_utf16 LittleEndian bytes else bytes in
      convert_into_buffer LittleEndian utf16_data
  end.

(** [String::from_utf16_be_with_replacement_character], which calls
    [validate_utf16_le] as well *)
Definition from_utf16_be_with_replacement_character (bytes : bytes) : res (list Z) :=
  match bytes with
  | [] => Ret []
  | _ =>
      let utf16_data :=
        if negb (validate_utf16_le bytes) then to_well_formed_utf16 BigEndian bytes else bytes in
      convert_into_buffer BigEndian utf16_data
  end.

End conversions.

(** ** Facts: the reference decoder *)

Abbreviation all_units := (Forall (fun u : Z => 0 <= u < 65536)).

Lemma units_range e bs : all_bytes bs -> all_units (units e bs).
Proof.
  unfold is_byte. induction bs as [[|a [|b bs]] IH] using list_length_ind; [constructor..|].
  rewrite !Forall_cons. intros (Ha & Hb & Hbs). cbn [units]. constructor; [destruct e; lia|].
  apply IH; [simpl; lia|done].
Qed.

Lemma utf16_units_range cp : 0 <= cp <= 0x10FFFF -> all_units (utf16_units cp).
Proof.
  intros Hcp. unfold utf16_units. destruct (Z.ltb_spec cp 0x10000); repeat constructor;
    Z.to_euclidean_division_equations; lia.
Qed.

Lemma units_unit_bytes e u bs : 0 <= u < 65536 -> units e (unit_bytes e u ++ bs) = u :: units e bs.
Proof.
  intros Hu. destruct e; simpl; f_equal; Z.to_euclidean_division_equations; lia.
Qed.

Lemma units_of_bytes e us : all_units us -> units e (us ≫= unit_bytes e) = us.
Proof.
  induction 1 as [|u us Hu _ IH]; [done|]. rewrite bind_cons, units_unit_bytes by done. by rewrite IH.
Qed.

Lemma utf16_encode_cons cp cps : utf16_encode (cp :: cps) = utf16_units cp ++ utf16_encode cps.
Proof. done. Qed.

Lemma utf16_encode_range cps : scalars cps -> all_units (utf16_encode cps).
Proof.
  induction 1 as [|cp cps [Hcp Hs] _ IH]; [constructor|]. rewrite utf16_encode_cons.
  apply Forall_app. split; [|done]. apply utf16_units_range.
  unfold is_unicode_scalar_value, is_unicode in Hs. lia.
Qed.

Lemma utf16_bytes_range e cps : scalars cps -> all_bytes (utf16_bytes e cps).
Proof.
  intros Hs. unfold utf16_bytes. induction (utf16_encode_range cps Hs) as [|u us Hu _ IH]; [constructor|].
  rewrite bind_cons. apply Forall_app. split; [|done].
  unfold is_byte. destruct e; repeat constructor; Z.to_euclidean_division_equations; lia.
Qed.

Lemma utf16_decode_units cp us :
  0 <= cp -> is_unicode_scalar_value cp = true ->
  utf16_decode (utf16_units cp ++ us) = cp :: utf16_decode us.
Proof.
  unfold is_unicode_scalar_value, is_unicode, is_unicode_surrogate. intros H0 Hs. unfold utf16_units.
  destruct (Z.ltb_spec cp 0x10000).
  - cbn [app utf16_decode]. unfold is_high_surrogate, is_low_surrogate.
    replace ((0xD800 <=? cp) && (cp <=? 0xDBFF)) with false by lia.
    by replace ((0xDC00 <=? cp) && (cp <=? 0xDFFF)) with false by lia.
  - cbn [app utf16_decode]. unfold is_high_surrogate, is_low_surrogate.
    pose proof (Z.mod_pos_bound (cp - 0x10000) 1024 ltac:(lia)) as Hm.
    pose proof (Z.div_mod (cp - 0x10000) 1024 ltac:(lia)) as Hdm.
    assert (0 <= (cp - 0x10000) / 1024 <= 1023) by lia.
    rewrite (proj2 (andb_true_iff _ _)) by lia. rewrite (proj2 (andb_true_iff _ _)) by lia.
    f_equal. lia.
Qed.

Lemma utf16_decode_encode cps : scalars cps -> utf16_decode (utf16_encode cps) = cps.
Proof.
  induction 1 as [|cp cps [Hcp Hs] _ IH]; [done|].
  rewrite utf16_encode_cons, utf16_decode_units by done. by rewrite IH.
Qed.

Lemma utf16_decode_scalars us : all_units us -> scalars (utf16_decode us).
Proof.
  induction us as [[|a us] IH] using list_length_ind; [constructor|].
  rewrite Forall_cons. intros [Ha Hus]. cbn [utf16_decode].
  unfold is_high_surrogate, is_low_surrogate.
  destruct ((0xD800 <=? a) && (a <=? 0xDBFF)) eqn:Hh.
  - destruct us as [|b us']; [constructor; [by split|constructor]|].
    destruct ((0xDC00 <=? b) && (b <=? 0xDFFF)) eqn:Hl.
    + apply Forall_cons in Hus as [Hb Hus]. constructor; [|apply IH; [simpl; lia|done]].
      unfold is_unicode_scalar_value, is_unicode, is_unicode_surrogate. split; lia.
    + constructor; [by split|]. apply (IH (b :: us')); [simpl; lia|done].
  - destruct ((0xDC00 <=? a) && (a <=? 0xDFFF)) eqn:Hl.
    + constructor; [by split|]. apply IH; [simpl; lia|done].
    + constructor; [|apply IH; [simpl; lia|done]].
      unfold is_unicode_scalar_value, is_unicode, is_unicode_surrogate. split; lia.
Qed.

(** ** Facts: the conversions *)

Section facts.
Context `{SimdutfUtf16Laws}.

Lemma convert_valid e bs cps :
  all_bytes bs -> scalars cps -> units e bs = utf16_encode cps ->
  convert_into_buffer e bs = Ret (utf8_encode cps).
Proof.
  intros Hb Hs Hu. unfold convert_into_buffer.
  rewrite (utf8_length_from_utf16_spec e bs cps), (convert_utf16_to_utf8_spec e bs cps) by done.
  unfold verify. by rewrite Nat.eqb_refl.
Qed.

Lemma convert_well_formed e bs :
  all_bytes bs -> convert_into_buffer e (to_well_formed_utf16 e bs) = Ret (utf8_encode (utf16_decode (units e bs))).
Proof.
  intros Hb. rewrite to_well_formed_utf16_spec by done.
  pose proof (utf16_decode_scalars _ (units_range e bs Hb)) as Hs.
  apply convert_valid; [by apply utf16_bytes_range|done|].
  apply units_of_bytes. by apply utf16_encode_range.
Qed.

Lemma units_utf16_bytes e cps : scalars cps -> units e (utf16_bytes e cps) = utf16_encode cps.
Proof. intros Hs. apply units_of_bytes. by apply utf16_encode_range. Qed.

Lemma from_utf16_le_decodes bs :
  all_bytes bs ->
  from_utf16_le_with_replacement_character bs = Ret (utf8_encode (utf16_decode (units LittleEndian bs))).
Proof.
  intros Hb. destruct bs as [|b bs]; [done|].
  unfold from_utf16_le_with_replacement_character, validate_utf16_le.
  destruct (validate_utf16 LittleEndian (b :: bs)) eqn:Hv; cbn [negb].
  - apply validate_utf16_spec in Hv as (cps & Hs & Hu); [|done].
    rewrite (convert_valid _ _ cps) by done. by rewrite Hu, utf16_decode_encode.
  - by apply convert_well_formed.
Qed.

Lemma from_utf16_le_encoded cps :
  scalars cps -> from_utf16_le_with_replacement_character (utf16_bytes LittleEndian cps) = Ret (utf8_encode cps).
Proof.
  intros Hs. rewrite from_utf16_le_decodes by (by apply utf16_bytes_range).
  by rewrite units_utf16_bytes, utf16_decode_encode.
Qed.

(** The big-endian conversion, unless the little-endian validation lets
    malformed input through. *)
Lemma from_utf16_be_decodes bs :
  all_bytes bs -> validate_utf16_be bs = true \/ validate_utf16_le bs = false ->
  from_utf16_be_with_replacement_character bs = Ret (utf8_encode (utf16_decode (units BigEndian bs))).
Proof.
  intros Hb Hcase. destruct bs as [|b bs]; [done|].
  unfold from_utf16_be_with_replacement_character, validate_utf16_le, validate_utf16_be in *.
  destruct (validate_utf16 LittleEndian (b :: bs)) eqn:Hv; cbn [negb]; [|by apply convert_well_formed].
  destruct Hcase as [Hcase|]; [|done].
  apply validate_utf16_spec in Hcase as (cps & Hs & Hu); [|done].
  rewrite (convert_valid _ _ cps) by done. by rewrite Hu, utf16_decode_encode.
Qed.

End facts.

(** ** A reference [simdutf] for UTF-16 *)

Definition reference_validate_utf16 (e : endianness) (bs : bytes) : bool :=
  bool_decide (utf16_encode (utf16_decode (units e bs)) = units e bs).

#[export] Instance reference_simdutf_utf16 : SimdutfUtf16 := {
  validate_utf16 := reference_validate_utf16;
  to_well_formed_utf16 e bs := utf16_bytes e (utf16_decode (units e bs));
  utf8_length_from_utf16 e bs := length (utf8_encode (utf16_decode (units e bs)));
  convert_utf16_to_utf8 e bs :=
    if reference_validate_utf16 e bs
    then (length (utf8_encode (utf16_decode (units e bs))), utf8_encode (utf16_decode (units e bs)))
    else (0%nat, [])
}.

Lemma reference_validate_utf16_encoded e bs cps :
  scalars cps -> units e bs = utf16_encode cps -> reference_validate_utf16 e bs = true.
Proof.
  intros Hs Hu. apply bool_decide_eq_true_2. by rewrite Hu, utf16_decode_encode.
Qed.

#[export] Instance reference_simdutf_utf16_laws : SimdutfUtf16Laws.
Proof.
  split; intros e bs; cbn [validate_utf16 to_well_formed_utf16 utf8_length_from_utf16
    convert_utf16_to_utf8 reference_simdutf_utf16]; intros *.
  - intros Hb. split; [|intros (cps & Hs & Hu); by eapply reference_validate_utf16_encoded].
    intros Hv%bool_decide_eq_true_1. exists (utf16_decode (units e bs)).
    split; [|done]. apply utf16_decode_scalars. by apply units_range.
  - done.
  - intros _ Hs Hu. by rewrite Hu, utf16_decode_encode.
  - intros _ Hs Hu. rewrite (reference_validate_utf16_encoded e bs cps) by done.
    by rewrite Hu, utf16_decode_encode.
  - intros _ Hv. by rewrite Hv.
Qed.

(** ** Properties *)

(** Converting well-formed UTF-16 of either byte order to UTF-8 yields the
    UTF-8 encoding of the same code points, and the little-endian conversion
    replaces every unpaired surrogate of malformed input with U+FFFD; neither
    writes outside its buffer or stops the process. *)
Theorem utf16_to_utf8 `{SimdutfUtf16Laws} (cps : list Z) (bs : bytes)
    (Hcps : scalars cps) (Hbs : all_bytes bs) :
  from_utf16_le_with_replacement_character (utf16_bytes LittleEndian cps) = Ret (utf8_encode cps)
  /\ from_utf16_be_with_replacement_character (utf16_bytes BigEndian cps) = Ret (utf8_encode cps)
  /\ from_utf16_le_with_replacement_character bs
     = Ret (utf8_encode (utf16_decode (units LittleEndian bs))).
Proof.
  split_and!; [by apply from_utf16_le_encoded| |by apply from_utf16_le_decodes].
  rewrite from_utf16_be_decodes; [by rewrite units_utf16_bytes, utf16_decode_encode|by apply utf16_bytes_range|].
  left. apply validate_utf16_spec; [by apply utf16_bytes_range|].
  exists cps. by rewrite units_utf16_bytes.
Qed.

Lemma utf16_to_utf8_witness :
  from_utf16_le_with_replacement_character (utf16_bytes LittleEndian [0x41; 0x1F600]) = Ret (utf8_encode [0x41; 0x1F600])
  /\ from_utf16_be_with_replacement_character (utf16_bytes BigEndian [0x41; 0x1F600]) = Ret (utf8_encode [0x41; 0x1F600])
  /\ from_utf16_le_with_replacement_character [0x00; 0xD8; 0x41; 0x00]
     = Ret (utf8_encode (utf16_decode (units LittleEndian [0x00; 0xD8; 0x41; 0x00]))).
Proof. apply utf16_to_utf8; repeat constructor; lia. Defined.

(** The big-endian conversion validates its input as little-endian, so an
    unpaired surrogate whose bytes are well-formed in the other order is not
    replaced: D8 00 is not converted to U+FFFD, although 00 D8 is by the
    little-endian conversion. *)
Theorem utf16_be_validated_as_le `{SimdutfUtf16Laws} :
  from_utf16_le_with_replacement_character [0x00; 0xD8] = Ret (utf8_encode [0xFFFD])
  /\ from_utf16_be_with_replacement_character [0xD8; 0x00] <> Ret (utf8_encode [0xFFFD]).
Proof.
  assert (Hb : all_bytes [0xD8; 0x00]) by repeat constructor.
  split; [by rewrite from_utf16_le_decodes by repeat constructor|].
  unfold from_utf16_be_with_replacement_character, validate_utf16_le.
  rewrite (proj2 (validate_utf16_spec LittleEndian [0xD8; 0x00] Hb)).
  2: { exists [0xD8]. split; [|done]. by constructor. }
  assert (Hbe : validate_utf16 BigEndian [0xD8; 0x00] = false).
  { apply not_true_is_false. intros (cps & Hs & Hu)%validate_utf16_spec; [|done].
    pose proof (utf16_decode_encode cps Hs) as Hd. rewrite <- Hu in Hd. cbn in Hd. by subst. }
  cbn [negb]. unfold convert_into_buffer.
  rewrite (convert_utf16_to_utf8_invalid BigEndian [0xD8; 0x00] Hb Hbe).
  unfold verify. by destruct (0 =? _)%nat.
Qed.

Lemma utf16_be_validated_as_le_witness :
  from_utf16_le_with_replacement_character [0x00; 0xD8] = Ret (utf8_encode [0xFFFD])
  /\ from_utf16_be_with_replacement_character [0xD8; 0x00] <> Ret (utf8_encode [0xFFFD]).
Proof. apply utf16_be_validated_as_le. Defined.
