(* ===== verification/MemMem.v ===== *)
(** * [AK/MemMem.h]: substring search with the bitap automaton

    [bitap_bitwise] keeps one [u32] whose zero bits are the lengths of the
    needle prefixes that end at the current byte.  The model keeps the 32-bit
    registers and their wrap-around; the theorem is that it returns the first
    occurrence.  The KMP fallback for needles of 32 bytes and more is not
    modelled. *)

From S2P Require Import Prelude.

(** [needle_mask[c]] after the two initialisation loops. *)
Fixpoint needle_mask_from (i : Z) (needle : bytes) (c : Z) : Z :=
  match needle with
  | [] => 0xffffffff
  | n :: rest =>
      let mask := needle_mask_from (i + 1) rest c in
      if n =? c then Z.land mask (u32 (Z.lnot (Z.shiftl 1 i))) else mask
  end.

Definition needle_mask (needle : bytes) (c : Z) : Z := needle_mask_from 0 needle c.

(** The search loop from index [i] on, [haystack] being the bytes from [i]. *)
Fixpoint bitap_loop (needle : bytes) (i : nat) (lookup : Z) (haystack : bytes) : option nat :=
  match haystack with
  | [] => None
  | c :: rest =>
      let lookup := u32 (Z.shiftl (Z.lor lookup (needle_mask needle c)) 1) in
      if Z.land lookup (Z.shiftl 1 (Z.of_nat (length needle))) =? 0
      then Some (i + 1 - length needle)%nat
      else bitap_loop needle (S i) lookup rest
  end.

Definition bitap_bitwise (haystack needle : bytes) : res (option nat) :=
  verify (length needle <? 32)%nat (Ret (bitap_loop needle 0 0xfffffffe haystack)).

(** [memmem_optional] for a needle of fewer than 32 bytes. *)
Definition memmem_optional (haystack needle : bytes) : res (option nat) :=
  if (length needle =? 0)%nat then Ret (Some 0%nat)
  else if (length haystack <? length needle)%nat then Ret None
  else if (length haystack =? length needle)%nat then
    Ret (if bool_decide (haystack = needle) then Some 0%nat else None)
  else bitap_bitwise haystack needle.

(** ** Specification: occurrences *)

Definition occurs_at (needle haystack : bytes) (p : nat) : Prop :=
  take (length needle) (drop p haystack) = needle.

(** [o] is the position of the first occurrence, if there is one. *)
Definition first_occurrence (needle haystack : bytes) (o : option nat) : Prop :=
  match o with
  | Some p => occurs_at needle haystack p /\ forall q, (q < p)%nat -> ~ occurs_at needle haystack q
  | None => forall q, ~ occurs_at needle haystack q
  end.

(** ** Correctness *)

Lemma needle_mask_bit i needle c j :
  0 <= i -> i + Z.of_nat (length needle) <= 32 -> 0 <= j < 32 ->
  Z.testbit (needle_mask_from i needle c) j
  = negb (bool_decide (i <= j /\ needle !! Z.to_nat (j - i) = Some c)).
Proof.
  revert i. induction needle as [|n needle IH]; intros i Hi Hlen Hj.
  - change (needle_mask_from i [] c) with (Z.ones 32). rewrite Z.ones_spec_low by lia.
    rewrite bool_decide_eq_false_2; [done|]. rewrite lookup_nil. by intros [_ ?].
  - simpl in Hlen. cbn [needle_mask_from]. cbv zeta.
    assert (Hrec : Z.testbit (needle_mask_from (i + 1) needle c) j
      = negb (bool_decide (i + 1 <= j /\ needle !! Z.to_nat (j - (i + 1)) = Some c)))
      by (apply IH; lia).
    assert (Hcons : i + 1 <= j ->
      (n :: needle) !! Z.to_nat (j - i) = needle !! Z.to_nat (j - (i + 1))).
    { intros ?. replace (Z.to_nat (j - i)) with (S (Z.to_nat (j - (i + 1)))) by lia. done. }
    assert (Hbit : Z.testbit (u32 (Z.lnot (Z.shiftl 1 i))) j = negb (j =? i)).
    { unfold u32. rewrite Z.mod_pow2_bits_low, Z.lnot_spec, Z.shiftl_spec by lia.
      destruct (Z.eqb_spec j i) as [->|]; [by rewrite Z.sub_diag|].
      destruct (Z.ltb_spec j i); [by rewrite Z.testbit_neg_r by lia|].
      by rewrite (Z.bits_above_log2 1 (j - i)) by (simpl; lia). }
    destruct (Z.eqb_spec n c) as [->|Hne].
    + rewrite Z.land_spec, Hrec, Hbit.
      destruct (Z.eqb_spec j i) as [->|Hji].
      * rewrite Z.sub_diag. simpl. rewrite andb_false_r.
        rewrite bool_decide_eq_true_2; [done|]. split; [lia|done].
      * rewrite andb_true_r. f_equal. apply bool_decide_ext.
        split; intros [? ?]; (split; [lia|]); [rewrite Hcons by lia|rewrite <- Hcons by lia]; done.
    + rewrite Hrec. f_equal. apply bool_decide_ext. split; intros [? Hl].
      * split; [lia|]. by rewrite Hcons by lia.
      * destruct (decide (j = i)) as [->|]; [rewrite Z.sub_diag in Hl; simpl in Hl; congruence|].
        split; [lia|]. by rewrite <- Hcons by lia.
Qed.

(** The prefix of [needle] of length [j] is a suffix of [seen]. *)
Definition suffix_matches (needle seen : bytes) (j : nat) : Prop :=
  (j <= length seen)%nat /\ drop (length seen - j) seen = take j needle.

#[local] Instance suffix_matches_dec needle seen j : Decision (suffix_matches needle seen j).
Proof. apply _. Defined.

Definition lookup_invariant (needle seen : bytes) (lookup : Z) : Prop :=
  forall j, (j <= length needle)%nat ->
    Z.testbit lookup (Z.of_nat j) = negb (bool_decide (suffix_matches needle seen j)).

Lemma suffix_matches_snoc needle seen c j :
  (j < length needle)%nat ->
  suffix_matches needle (seen ++ [c]) (S j)
  <-> suffix_matches needle seen j /\ needle !! j = Some c.
Proof.
  intros Hj. unfold suffix_matches. rewrite length_app. simpl.
  destruct (lookup_lt_is_Some_2 needle j Hj) as [x Hx].
  rewrite (take_S_r _ _ _ Hx), Hx.
  destruct (decide (j <= length seen)%nat) as [Hle|].
  - rewrite drop_app_le by lia.
    replace (length seen + 1 - S j)%nat with (length seen - j)%nat by lia. split.
    + intros [_ [? ?]%app_inj_tail]. split; [split|]; [lia|done|congruence].
    + intros [[_ ->] [= ->]]. split; [lia|done].
  - split; [lia|intros [[? _] _]; lia].
Qed.

Lemma lookup_invariant_step needle seen lookup c :
  (length needle < 32)%nat -> lookup_invariant needle seen lookup ->
  lookup_invariant needle (seen ++ [c])
    (u32 (Z.shiftl (Z.lor lookup (needle_mask needle c)) 1)).
Proof.
  intros Hm Hinv j Hj. unfold u32. rewrite Z.mod_pow2_bits_low by lia.
  destruct j as [|j].
  - rewrite Z.shiftl_spec_low by lia. rewrite bool_decide_eq_true_2; [done|].
    split; [lia|]. rewrite Nat.sub_0_r, drop_all. done.
  - rewrite Z.shiftl_spec, Z.lor_spec by lia.
    replace (Z.of_nat (S j) - 1) with (Z.of_nat j) by lia.
    rewrite Hinv by lia. unfold needle_mask. rewrite needle_mask_bit by lia.
    rewrite Z.sub_0_r, Nat2Z.id, <- negb_andb. f_equal.
    rewrite <- bool_decide_and. apply bool_decide_ext.
    rewrite suffix_matches_snoc by lia. split; [intros (? & _ & ?); done|intros [? ?]; repeat split; [apply H..|lia|done]].
Qed.

Lemma suffix_matches_occurs needle seen rest :
  suffix_matches needle seen (length needle) <->
  (length needle <= length seen)%nat
  /\ occurs_at needle (seen ++ rest) (length seen - length needle).
Proof.
  unfold suffix_matches, occurs_at. rewrite take_ge by lia.
  split; intros [Hle H]; (split; [done|]).
  - rewrite drop_app_le, H by lia. apply take_app_length.
  - rewrite drop_app_le in H by lia.
    rewrite take_app_le in H by (rewrite length_drop; lia).
    rewrite <- H at 2. rewrite take_ge by (rewrite length_drop; lia). done.
Qed.

Lemma occurs_at_bound needle haystack q :
  occurs_at needle haystack q -> (q + length needle <= length haystack)%nat \/ needle = [].
Proof.
  intros H. apply (f_equal length) in H as Hl. rewrite length_take, length_drop in Hl.
  destruct needle as [|n needle]; [by right|]. change (length (n :: needle)) with (S (length needle)) in *. lia.
Qed.

Lemma land_bit_zero a n : 0 <= n -> (Z.land a (Z.shiftl 1 n) =? 0) = negb (Z.testbit a n).
Proof.
  intros Hn. rewrite Z.shiftl_1_l. destruct (Z.testbit a n) eqn:E; simpl.
  - apply Z.eqb_neq. intros H. apply (f_equal (fun z => Z.testbit z n)) in H.
    rewrite Z.land_spec, E, Z.pow2_bits_true, Z.bits_0 in H by lia. done.
  - apply Z.eqb_eq, Z.bits_inj'. intros i Hi. rewrite Z.land_spec, Z.bits_0.
    rewrite Z.pow2_bits_eqb by lia. destruct (Z.eqb_spec n i) as [->|]; [by rewrite E|].
    apply andb_false_r.
Qed.

Lemma bitap_loop_first needle seen lookup rest :
  needle <> [] -> (length needle < 32)%nat -> lookup_invariant needle seen lookup ->
  (forall q, (q + length needle <= length seen)%nat -> ~ occurs_at needle (seen ++ rest) q) ->
  first_occurrence needle (seen ++ rest) (bitap_loop needle (length seen) lookup rest).
Proof.
  intros Hne Hm. revert seen lookup.
  induction rest as [|c rest IH]; intros seen lookup Hinv Hno.
  - simpl. intros q Hq. rewrite app_nil_r in *.
    destruct (occurs_at_bound _ _ _ Hq) as [?|?]; [|done]. by apply (Hno q).
  - cbn [bitap_loop]. cbv zeta.
    pose proof (lookup_invariant_step needle seen lookup c Hm Hinv) as Hinv'.
    set (lookup' := u32 _) in *. rewrite land_bit_zero by lia.
    rewrite (Hinv' (length needle)), negb_involutive by lia.
    rewrite (cons_middle c seen rest), app_assoc in *.
    pose proof (suffix_matches_occurs needle (seen ++ [c]) rest) as Hocc.
    rewrite length_app in Hocc. simpl in Hocc.
    destruct (bool_decide _) eqn:E.
    + apply bool_decide_eq_true_1, Hocc in E as [Hle E]. split; [done|].
      intros q Hq. apply Hno. lia.
    + apply bool_decide_eq_false_1 in E.
      replace (S (length seen)) with (length (seen ++ [c])) by (rewrite length_app; simpl; lia).
      apply IH; [exact Hinv'|]. rewrite length_app. simpl. intros q Hq Hoq.
      destruct (decide (q + length needle <= length seen)%nat) as [|Hgt]; [by apply (Hno q)|].
      apply E, Hocc. split; [lia|].
      replace (length seen + 1 - length needle)%nat with q by lia. done.
Qed.

Lemma memmem_optional_first needle haystack :
  (length needle < 32)%nat ->
  exists o, memmem_optional haystack needle = Ret o /\ first_occurrence needle haystack o.
Proof.
  intros Hm. unfold memmem_optional.
  destruct (Nat.eqb_spec (length needle) 0) as [Hz|Hz].
  { destruct needle; [|done]. exists (Some 0%nat). split; [done|]. split; [done|]. intros q Hq. lia. }
  destruct (Nat.ltb_spec (length haystack) (length needle)).
  { exists None. split; [done|]. intros q Hq. apply occurs_at_bound in Hq as [?| ->]; simpl in *; lia. }
  destruct (Nat.eqb_spec (length haystack) (length needle)) as [Heq|].
  { eexists. split; [done|]. destruct (bool_decide (haystack = needle)) eqn:E.
    - apply bool_decide_eq_true_1 in E as ->. split; [|intros q Hq; lia]. unfold occurs_at.
      rewrite drop_0. apply take_ge. lia.
    - intros q Hq. pose proof (occurs_at_bound _ _ _ Hq) as [?| ->]; [|done].
      replace q with 0%nat in Hq by lia. unfold occurs_at in Hq. rewrite drop_0, take_ge in Hq by lia.
      apply bool_decide_eq_false_1 in E. done. }
  unfold bitap_bitwise, verify. rewrite (proj2 (Nat.ltb_lt _ _)) by lia.
  eexists. split; [done|].
  apply (bitap_loop_first needle [] 0xfffffffe haystack); [by intros ->|done|..].
  - intros [|j] Hj.
    + rewrite bool_decide_eq_true_2; [done|]. by split.
    + rewrite bool_decide_eq_false_2 by (intros [? _]; simpl in *; lia).
      change 0xfffffffe with (Z.shiftl (Z.ones 31) 1).
      rewrite Z.shiftl_spec, Z.ones_spec_low by lia. done.
  - simpl. intros q Hq. lia.
Qed.

(** ** Properties *)

(** Substring search is correct: for every haystack and every needle of
    fewer than 32 bytes, [memmem_optional] does not stop the process and
    returns the position of the first occurrence, or nothing when the needle
    does not occur. *)
Theorem memmem_optional_correct (haystack needle : bytes) (Hlen : (length needle < 32)%nat) :
  exists o, memmem_optional haystack needle = Ret o /\ first_occurrence needle haystack o.
Proof. by apply memmem_optional_first. Qed.

Lemma memmem_optional_correct_witness :
  memmem_optional (sv "abababc") (sv "abc") = Ret (Some 4%nat)
  /\ exists o, memmem_optional (sv "abababc") (sv "abc") = Ret o
               /\ first_occurrence (sv "abc") (sv "abababc") o.
Proof. split; [reflexivity|]. apply memmem_optional_correct. simpl. lia. Defined.
