(* ===== verification/Strings.v ===== *)
(** * Byte strings: [AK/StringView.{h,cpp}], [AK/StringUtils.cpp], the integer
      formatting of [AK/Format.cpp] and the integer parsing of
      [AK/StringConversions.cpp]

    A [StringView], [String] or [ByteString] is its list of bytes; a
    [StringBuilder] is the list of bytes appended so far.  [fast_float] is a
    third-party library: its integer parser is a parameter with the documented
    behaviour on strings of digits as its law. *)

From S2P Require Import Prelude CharacterTypes Utf8 MemMem.

(** ** Queries *)

Definition sv_eqb (a b : bytes) : bool := bool_decide (a = b).

Definition sv_is_empty (s : bytes) : bool := match s with [] => true | _ => false end.

(** [StringView::starts_with(char)] and [ends_with(char)] *)
Definition starts_with_char (s : bytes) (c : Z) : bool :=
  match s with [] => false | b :: _ => c =? b end.

Definition ends_with_char (s : bytes) (c : Z) : bool :=
  match last s with None => false | Some b => c =? b end.

Inductive CaseSensitivity := CaseInsensitive | CaseSensitive.

(** The [memcmp] or the lower-casing loop over two views of the same length. *)
Definition same_characters (case_sensitivity : CaseSensitivity) (a b : bytes) : bool :=
  match case_sensitivity with
  | CaseSensitive => sv_eqb a b
  | CaseInsensitive => sv_eqb (to_ascii_lowercase <$> a) (to_ascii_lowercase <$> b)
  end.

Definition starts_with (str start : bytes) (case_sensitivity : CaseSensitivity) : bool :=
  if sv_is_empty start then true
  else if sv_is_empty str then false
  else if (length str <? length start)%nat then false
  else same_characters case_sensitivity (take (length start) str) start.

Definition ends_with (str end_ : bytes) (case_sensitivity : CaseSensitivity) : bool :=
  if sv_is_empty end_ then true
  else if sv_is_empty str then false
  else if (length str <? length end_)%nat then false
  else same_characters case_sensitivity (drop (length str - length end_) str) end_.

(** The index loop of [StringUtils::equals_ignoring_ascii_case]. *)
Fixpoint equals_ignoring_ascii_case_loop (a b : bytes) : bool :=
  match a, b with
  | x :: a, y :: b =>
      if negb (to_ascii_lowercase x =? to_ascii_lowercase y) then false
      else equals_ignoring_ascii_case_loop a b
  | _, _ => true
  end.

Definition equals_ignoring_ascii_case (a b : bytes) : bool :=
  if negb (length a =? length b)%nat then false else equals_ignoring_ascii_case_loop a b.

(** [is_one_of_ignoring_ascii_case] *)
Definition is_one_of_ignoring_ascii_case (s : bytes) (strings : list bytes) : bool :=
  existsb (equals_ignoring_ascii_case s) strings.

(** [StringView::contains(char)] *)
Definition contains_char (s : bytes) (needle : Z) : bool := existsb (fun c => c =? needle) s.

(** [StringView::contains(StringView)], case-sensitive *)
Definition contains (s needle : bytes) : res bool :=
  match needle with
  | [c] => Ret (contains_char s c)
  | _ =>
      if sv_is_empty s || (length s <? length needle)%nat then Ret false
      else if sv_is_empty needle then Ret true
      else let* o := memmem_optional s needle in Ret (match o with Some _ => true | None => false end)
  end.

(** [StringView::contains(u32)]: search for the UTF-8 encoding of the needle. *)
Definition contains_code_point (s : bytes) (needle : Z) : res bool :=
  contains s (try_append_code_point [] needle).

(** [StringUtils::find_last(StringView, char)] *)
Fixpoint find_last_from (i : nat) (haystack : bytes) (needle : Z) : option nat :=
  match i with
  | O => None
  | S i' =>
      if match haystack !! i' with Some c => c =? needle | None => false end
      then Some i' else find_last_from i' haystack needle
  end.

Definition find_last (haystack : bytes) (needle : Z) : option nat :=
  find_last_from (length haystack) haystack needle.

(** [StringView::substring_view] *)
Definition substring_view (s : bytes) (start len : nat) : res bytes :=
  verify (start + len <=? length s)%nat (Ret (take len (drop start s))).

Definition substring_view_from (s : bytes) (start : nat) : res bytes :=
  verify (start <=? length s)%nat (substring_view s start (length s - start)).

(** [StringUtils::trim] *)
Inductive TrimMode := TrimLeft | TrimRight | TrimBoth.

Fixpoint trim_left (str characters : bytes) : bytes :=
  match str with
  | [] => []
  | c :: rest => if contains_char characters c then trim_left rest characters else str
  end.

Definition trim_right (str characters : bytes) : bytes :=
  rev (trim_left (rev str) characters).

Definition trim (str characters : bytes) (mode : TrimMode) : bytes :=
  let str := match mode with TrimRight => str | _ => trim_left str characters end in
  match mode with TrimLeft => str | _ => trim_right str characters end.

(** ** Splitting: [StringView::for_each_split_view] without the separators *)

Definition find_view (haystack needle : bytes) : res (option nat) := memmem_optional haystack needle.

Fixpoint split_loop (fuel : nat) (separator : bytes) (keep_empty : bool)
    (view : bytes) (parts : list bytes) : res (list bytes) :=
  match fuel with
  | O => Ret parts
  | S fuel =>
      let* maybe_separator_index := find_view view separator in
      match maybe_separator_index with
      | Some separator_index =>
          let parts :=
            if keep_empty || (0 <? separator_index)%nat
            then parts ++ [take separator_index view] else parts in
          split_loop fuel separator keep_empty
            (drop (separator_index + length separator) view) parts
      | None => Ret (if keep_empty || negb (sv_is_empty view) then parts ++ [view] else parts)
      end
  end.

Definition split_view (s separator : bytes) (keep_empty : bool) : res (list bytes) :=
  verify (negb (sv_is_empty separator))
    (if sv_is_empty s then Ret [] else split_loop (S (length s)) separator keep_empty s []).

(** ** Searching for a byte and replacing: [StringUtils::find] and
    [StringUtils::replace] *)

(** [StringUtils::find(haystack, char)] from the start *)
Definition find_char `{Simdutf} (haystack : bytes) (needle : Z) : option nat :=
  if sv_is_empty haystack then None
  else
    let result := simdutf_find haystack needle in
    if (result =? length haystack)%nat then None else Some result.

(** The loop of [replace_into_builder] with [ReplaceMode::All] *)
Fixpoint replace_remaining (fuel : nat) (needle replacement remaining replaced_string : bytes) : res bytes :=
  match fuel with
  | O => Crash
  | S fuel =>
      if sv_is_empty remaining then Ret (replaced_string ++ remaining)
      else
        let* maybe_pos := find_view remaining needle in
        match maybe_pos with
        | None => Ret (replaced_string ++ remaining)
        | Some pos =>
            let* part := substring_view remaining 0 pos in
            let* rest := substring_view_from remaining (pos + length needle) in
            replace_remaining fuel needle replacement rest (replaced_string ++ part ++ replacement)
        end
  end.

Definition replace_into_builder (str needle replacement : bytes) (first_replacement_position : nat) : res bytes :=
  let* part := substring_view str 0 first_replacement_position in
  let* remaining := substring_view_from str (first_replacement_position + length needle) in
  replace_remaining (S (length str)) needle replacement remaining (part ++ replacement).

(** [StringUtils::replace] with [ReplaceMode::All] *)
Definition replace_all (str needle replacement : bytes) : res bytes :=
  if sv_is_empty str then Ret str
  else
    let* maybe_first := find_view str needle in
    match maybe_first with
    | None => Ret str
    | Some first => replace_into_builder str needle replacement first
    end.

(** [Vector::last], [Vector::take_last] *)
Definition vector_last {A} (l : list A) : res A := unwrap (last l).
Definition vector_take_last {A} (l : list A) : res (list A) :=
  match l with [] => Crash | _ => Ret (removelast l) end.

(** ** Comparison *)

(** [memcmp] of two arrays of the same length *)
Fixpoint memcmp (a b : bytes) : Z :=
  match a, b with
  | x :: a, y :: b => if x =? y then memcmp a b else if x <? y then -1 else 1
  | _, _ => 0
  end.

(** [StringView::compare] *)
Definition sv_compare (a b : bytes) : Z :=
  if (length a =? 0)%nat && (length b =? 0)%nat then 0
  else
    let rlen := Nat.min (length a) (length b) in
    let c := memcmp (take rlen a) (take rlen b) in
    if c =? 0 then
      if (length a <? length b)%nat then -1
      else if (length a =? length b)%nat then 0
      else 1
    else c.

(** ** Case conversion *)

Definition sv_is_ascii `{Simdutf} (s : bytes) : bool :=
  if sv_is_empty s then true else validate_ascii s.

Definition to_ascii_lowercase_string `{Simdutf} (s : bytes) : res bytes :=
  verify (validate Surrogates_Yes s) (Ret ((fun c => u8 (to_ascii_lowercase c)) <$> s)).

(** ** Formatting unsigned integers: [AK/Format.cpp] *)

Definition lowercase_lookup : bytes := sv "0123456789abcdef".
Definition uppercase_lookup : bytes := sv "0123456789ABCDEF".

(** The digit loop of [convert_unsigned_to_string], least significant first. *)
Fixpoint convert_digits (fuel : nat) (value base : Z) (upper_case use_separator : bool)
    (digit_count : nat) : bytes :=
  match fuel with
  | O => []
  | S fuel =>
      if 0 <? value then
        let lookup := if upper_case then uppercase_lookup else lowercase_lookup in
        let digit := nth (Z.to_nat (value mod base)) lookup 0 in
        let digit_count := S digit_count in
        let value := value / base in
        digit ::
          (if use_separator && (0 <? value) && (digit_count mod 3 =? 0)%nat then [ch ","] else [])
          ++ convert_digits fuel value base upper_case use_separator digit_count
      else []
  end.

Definition convert_unsigned_to_string (value base : Z) (upper_case use_separator : bool)
    : res bytes :=
  verify ((2 <=? base) && (base <=? 16))
    (Ret (if value =? 0 then [ch "0"]
          else rev (convert_digits 64 value base upper_case use_separator 0))).

(** [FormatBuilder::put_u64] for right alignment, no prefix and no sign. *)
Definition put_u64 (value base : Z) (upper_case zero_pad use_separator : bool)
    (min_width : nat) (fill : Z) : res bytes :=
  let* digits := convert_unsigned_to_string value base upper_case use_separator in
  let used_by_padding := (max (length digits) min_width - length digits)%nat in
  Ret (if zero_pad then repeat (ch "0") used_by_padding ++ digits
       else repeat fill used_by_padding ++ digits).

(** The format specifications the modelled code uses: ["{}"], ["{:x}"], ["{:02X}"]. *)
Definition format_decimal (value : Z) : res bytes := put_u64 value 10 false false false 0 32.
Definition format_hex (value : Z) : res bytes := put_u64 value 16 false false false 0 32.
Definition format_02X (value : Z) : res bytes := put_u64 value 16 true true false 2 32.

(** ** Parsing unsigned integers: [AK/StringConversions.cpp] *)

(** [fast_float::from_chars_advanced] for an unsigned type with maximum [max]:
    the value and the number of characters parsed, or nothing on an error. *)
Class FastFloat := { from_chars : Z -> bytes -> Z -> option (Z * nat) }.

Definition parse_first_number `{FastFloat} (max : Z) (string : bytes) (base : Z)
    : option (Z * nat) :=
  from_chars max string base.

(** [parse_number<T>] with [TrimWhitespace::No]; [max] is the maximum of [T]. *)
Definition parse_number `{FastFloat} (max : Z) (string : bytes) (base : Z) : option Z :=
  match parse_first_number max string base with
  | None => None
  | Some (value, characters_parsed) =>
      if negb (characters_parsed =? length string)%nat then None else Some value
  end.

(** The digits of radix 8, 10 and 16, and the number a digit string denotes. *)
Definition is_radix_digit (base c : Z) : bool :=
  if base =? 8 then is_ascii_octal_digit c
  else if base =? 10 then is_ascii_digit c
  else if base =? 16 then is_ascii_hex_digit c
  else false.

Definition digits_value (base : Z) (s : bytes) : Z :=
  fold_left (fun acc c => acc * base + hex_value c) s 0.

(** Documented behaviour of [fast_float]: the longest run of digits at the start
    is parsed; an error when there is none or when its value exceeds the type. *)
Class FastFloatLaws `{FastFloat} : Prop := {
  from_chars_prefix (max base : Z) (s rest : bytes) :
    base = 8 \/ base = 10 \/ base = 16 -> forallb (is_radix_digit base) s = true ->
    match rest with c :: _ => is_radix_digit base c = false | [] => True end ->
    from_chars max (s ++ rest) base =
      if sv_is_empty s then None
      else if digits_value base s <=? max then Some (digits_value base s, length s) else None
}.

Lemma from_chars_digits `{FastFloatLaws} (max base : Z) (s : bytes) :
  s <> [] -> forallb (is_radix_digit base) s = true ->
  from_chars max s base = if digits_value base s <=? max then Some (digits_value base s, length s) else None.
Proof.
  intros Hne Hs. destruct s as [|c s]; [done|].
  assert (Hbase : base = 8 \/ base = 10 \/ base = 16).
  { cbn [forallb] in Hs. apply andb_prop in Hs as [Hc _]. unfold is_radix_digit in Hc.
    destruct (Z.eqb_spec base 8), (Z.eqb_spec base 10), (Z.eqb_spec base 16); auto; done. }
  pose proof (from_chars_prefix max base (c :: s) [] Hbase Hs I) as E. by rewrite app_nil_r in E.
Qed.

(** ** Facts: views *)

Lemma sv_eqb_true a b : sv_eqb a b = true <-> a = b.
Proof. unfold sv_eqb. apply bool_decide_eq_true. Qed.

Lemma sv_eqb_refl a : sv_eqb a a = true.
Proof. by apply sv_eqb_true. Qed.

Lemma sv_eqb_false a b : a <> b -> sv_eqb a b = false.
Proof. intros H. unfold sv_eqb. by apply bool_decide_eq_false_2. Qed.

Lemma sv_compare_cons x a y b :
  sv_compare (x :: a) (y :: b) = if x <? y then -1 else if y <? x then 1 else sv_compare a b.
Proof.
  unfold sv_compare. cbn [length Nat.eqb andb Nat.min take memcmp].
  destruct (Z.eqb_spec x y) as [->|Hne].
  - rewrite Z.ltb_irrefl. destruct ((length a =? 0)%nat && (length b =? 0)%nat) eqn:E; [by destruct a, b|done].
  - destruct (Z.ltb_spec x y), (Z.ltb_spec y x); try lia; done.
Qed.

Lemma sv_compare_nil x a : sv_compare [] [] = 0 /\ sv_compare [] (x :: a) = -1 /\ sv_compare (x :: a) [] = 1.
Proof. done. Qed.

Lemma substring_view_from_drop s start : (start <= length s)%nat -> substring_view_from s start = Ret (drop start s).
Proof.
  intros Hs. unfold substring_view_from, substring_view, verify.
  rewrite (proj2 (Nat.leb_le _ _)) by done. rewrite (proj2 (Nat.leb_le _ _)) by lia.
  by rewrite firstn_all2 by (rewrite length_drop; lia).
Qed.

(** ** Facts: formatting *)

Definition digit_char (upper_case : bool) (d : Z) : Z :=
  nth (Z.to_nat d) (if upper_case then uppercase_lookup else lowercase_lookup) 0.

Lemma digit_enumeration (P : Z -> Prop) :
  Forall P (seqZ 0 16) -> forall d, 0 <= d < 16 -> P d.
Proof. intros H d Hd. eapply Forall_forall; [exact H|]. apply elem_of_seqZ. lia. Qed.

Lemma digit_char_value upper_case d : 0 <= d < 16 -> hex_value (digit_char upper_case d) = d.
Proof. revert d. apply digit_enumeration. destruct upper_case; by repeat constructor. Qed.

Lemma digit_char_radix upper_case base d :
  base = 8 \/ base = 10 \/ base = 16 -> 0 <= d < base ->
  is_radix_digit base (digit_char upper_case d) = true.
Proof.
  intros Hbase Hd. assert (0 <= d < 16) as Hd16 by lia. revert d Hd16 Hd.
  apply (digit_enumeration (fun d => 0 <= d < base -> _)).
  destruct Hbase as [->|[->| ->]], upper_case; repeat constructor; simpl; done || lia.
Qed.

Lemma digit_char_zero upper_case d : 0 <= d < 16 -> digit_char upper_case d = ch "0" -> d = 0.
Proof. intros Hd H. rewrite <- (digit_char_value upper_case d Hd), H. done. Qed.

Lemma digits_value_app base s c :
  digits_value base (s ++ [c]) = digits_value base s * base + hex_value c.
Proof. unfold digits_value. by rewrite fold_left_app. Qed.

Lemma digits_value_nonneg base s :
  0 <= base -> forallb is_ascii_hex_digit s = true -> 0 <= digits_value base s.
Proof.
  intros Hb. unfold digits_value. assert (0 <= 0) as H0 by done. revert H0.
  generalize 0 at 2 4 as acc. intros acc. revert acc.
  induction s as [|c s IH]; simpl; intros acc Hacc Hs; [done|].
  apply andb_prop in Hs as [Hc Hs]. apply IH; [|done].
  pose proof (hex_value_range c Hc). nia.
Qed.

Lemma convert_digits_spec fuel value base upper_case n :
  2 <= base <= 16 -> 0 <= value < base ^ Z.of_nat fuel ->
  let s := rev (convert_digits fuel value base upper_case false n) in
  digits_value base s = value
  /\ Forall (fun c => exists d, 0 <= d < base /\ c = digit_char upper_case d) s
  /\ (0 < value -> exists c rest, s = c :: rest /\ c <> ch "0").
Proof.
  intros Hbase. revert value n. induction fuel as [|fuel IH]; intros value n Hv.
  - simpl in *. split; [unfold digits_value; simpl; lia|]. split; [constructor|lia].
  - cbn [convert_digits]. cbv zeta.
    destruct (Z.ltb_spec 0 value) as [Hpos|]; [|simpl; split; [unfold digits_value; simpl; lia|split; [constructor|lia]]].
    assert (Hq : 0 <= value / base < base ^ Z.of_nat fuel).
    { split; [apply Z.div_pos; lia|]. apply Z.div_lt_upper_bound; [lia|].
      rewrite <- Z.pow_succ_r, <- Nat2Z.inj_succ by lia. lia. }
    pose proof (Z.mod_pos_bound value base ltac:(lia)) as Hm.
    destruct (IH (value / base) (S n) Hq) as (Hval & Hall & Hlead).
    simpl andb. cbv iota. simpl app. simpl rev.
    change (nth _ _ 0) with (digit_char upper_case (value mod base)). split; [|split].
    + rewrite digits_value_app, Hval, digit_char_value by lia.
      rewrite (Z.div_mod value base) at 3 by lia. lia.
    + apply Forall_app. split; [done|]. repeat constructor. eauto.
    + intros _. destruct (decide (value / base = 0)) as [Hz|Hnz].
      * rewrite Hz. destruct fuel; simpl; eexists _, _; (split; [done|]).
        all: intros H0; apply digit_char_zero in H0; [|lia].
        all: rewrite (Z.div_mod value base) in Hpos by lia; lia.
      * destruct Hlead as (c & rest & -> & Hc); [lia|]. eexists _, _. split; [reflexivity|done].
Qed.

(** What [format_decimal] and [format_hex] print for a [u64]: digits of the
    radix that denote the value, without a superfluous leading zero. *)
Definition prints_number (base value : Z) (s : bytes) : Prop :=
  s <> [] /\ forallb (is_radix_digit base) s = true /\ digits_value base s = value
  /\ ((1 < length s)%nat -> starts_with_char s (ch "0") = false).

Lemma put_u64_prints base upper_case value :
  base = 10 \/ base = 16 -> 0 <= value < 2 ^ 64 ->
  exists s, put_u64 value base upper_case false false 0 32 = Ret s /\ prints_number base value s.
Proof.
  intros Hbase Hv. unfold put_u64, convert_unsigned_to_string, verify.
  replace ((2 <=? base) && (base <=? 16)) with true by lia.
  unfold res_bind. cbv zeta. rewrite Nat.max_0_r, Nat.sub_diag. unfold repeat.
  eexists. split; [reflexivity|]. rewrite app_nil_l.
  destruct (Z.eqb_spec value 0) as [->|Hnz].
  { destruct Hbase as [->| ->]; repeat split; try done; simpl; lia. }
  assert (Hpow : 2 ^ 64 <= base ^ Z.of_nat 64) by (apply (Z.pow_le_mono_l 2 base 64); lia).
  pose proof (convert_digits_spec 64 value base upper_case 0 ltac:(lia) ltac:(lia)) as Hspec.
  cbv zeta in Hspec. revert Hspec.
  generalize (rev (convert_digits 64 value base upper_case false 0)) as s.
  intros s (Hval & Hall & Hlead). destruct Hlead as (c & rest & -> & Hc); [lia|].
  split; [done|]. split; [|split; [done|]].
  - apply forallb_Forall_iff. refine (Forall_impl _ _ _ Hall _).
    intros x (d & Hd & ->). apply digit_char_radix; [right; exact Hbase|exact Hd].
  - intros _. unfold starts_with_char. clear Hpow. lia.
Qed.

Lemma format_decimal_prints value :
  0 <= value < 2 ^ 64 -> exists s, format_decimal value = Ret s /\ prints_number 10 value s.
Proof. apply put_u64_prints. by left. Qed.

Lemma format_hex_prints value :
  0 <= value < 2 ^ 64 -> exists s, format_hex value = Ret s /\ prints_number 16 value s.
Proof. apply put_u64_prints. by right. Qed.

(** ["{:02X}"] of a byte is its two upper-case hexadecimal digits. *)
Definition upper_hex (d : Z) : Z := digit_char true d.

#[export] Instance res_eq_dec {A} `{EqDecision A} : EqDecision (res A).
Proof. solve_decision. Defined.

Lemma format_02X_byte b :
  0 <= b < 256 -> format_02X b = Ret [upper_hex (b / 16); upper_hex (b mod 16)].
Proof. revert b. apply byte_enumeration. vm_compute. reflexivity. Qed.

(** ** Facts: parsing *)

Section WithFastFloat.
Context `{FastFloatLaws}.

Lemma parse_number_digits max base s :
  s <> [] -> forallb (is_radix_digit base) s = true ->
  parse_number max s base = if digits_value base s <=? max then Some (digits_value base s) else None.
Proof.
  intros Hne Hs. unfold parse_number, parse_first_number. rewrite from_chars_digits by done.
  destruct (_ <=? _); [|done]. by rewrite Nat.eqb_refl.
Qed.

Lemma parse_number_prints max base value s :
  prints_number base value s -> value <= max -> parse_number max s base = Some value.
Proof.
  intros (Hne & Hd & Hval & _) Hmax. rewrite parse_number_digits, Hval by done.
  by rewrite (proj2 (Z.leb_le _ _)).
Qed.

End WithFastFloat.

(** ** Facts: searching and splitting *)

Lemma contains_char_In s c : contains_char s c = true <-> In c s.
Proof.
  unfold contains_char. rewrite existsb_exists. split.
  - intros (x & Hx & Heq). apply Z.eqb_eq in Heq. by subst.
  - intros H. exists c. split; [done|apply Z.eqb_refl].
Qed.

Lemma contains_char_false s c : contains_char s c = false <-> Forall (fun x => x <> c) s.
Proof.
  unfold contains_char. rewrite existsb_false_forall. split; intros H;
    (eapply Forall_impl; [exact H|]); simpl; intros; lia.
Qed.

Lemma take_drop_infix {A} (l : list A) n p k x :
  take n (drop p l) !! k = Some x -> In x l.
Proof.
  intros H. apply lookup_take_Some in H as [H _]. rewrite lookup_drop in H.
  apply list_elem_of_In. by apply list_elem_of_lookup_2 in H.
Qed.

(** Searching an ASCII string for a code point is membership. *)
Lemma contains_code_point_ascii s cp :
  Forall (fun b => 0 <= b < 128) s -> (1 < length s)%nat -> 0 <= cp ->
  contains_code_point s cp = Ret (contains_char s cp).
Proof.
  intros Hs Hlen Hcp. unfold contains_code_point.
  rewrite try_append_code_point_agrees by done.
  destruct (decide (cp < 128)) as [Hlt|Hge]; [by rewrite append_code_point_ascii by lia|].
  assert (Hno : contains_char s cp = false).
  { apply contains_char_false. eapply Forall_impl; [exact Hs|]. simpl. intros. lia. }
  assert (exists a b rest, append_code_point [] cp = a :: b :: rest /\ 128 <= a
     /\ (length (append_code_point [] cp) < 32)%nat) as (a & b & rest & Hap & Ha & Hl).
  { destruct (decide (cp <= 0x10FFFF)).
    - rewrite append_code_point_encoded by lia. unfold encoded.
      repeat break_match; try lia; eexists _, _, _; (split; [reflexivity|]); simpl; euclid.
    - rewrite append_code_point_replacement by lia.
      eexists _, _, _; (split; [reflexivity|]); simpl; euclid. }
  rewrite Hno. unfold contains. rewrite Hap in *.
  repeat (destruct (sv_is_empty _ || _); [done|]). simpl sv_is_empty. cbv iota.
  destruct (memmem_optional_first (a :: b :: rest) s Hl) as (o & -> & Hocc). simpl.
  destruct o as [p|]; [|done]. destruct Hocc as [Hocc _]. exfalso. unfold occurs_at in Hocc.
  assert (In a s) as Hin by (eapply (take_drop_infix _ _ p 0); by rewrite Hocc).
  rewrite List.Forall_forall in Hs. specialize (Hs a Hin). lia.
Qed.

(** Splitting on one byte, by recursion on the string. *)
Fixpoint split_on (c : Z) (s : bytes) : list bytes :=
  match s with
  | [] => [[]]
  | x :: s =>
      if x =? c then [] :: split_on c s
      else match split_on c s with
           | part :: parts => (x :: part) :: parts
           | [] => [[x]]
           end
  end.

Lemma split_on_nonempty c s : split_on c s <> [].
Proof. destruct s as [|x s]; simpl; [done|]. by repeat break_match. Qed.

Lemma split_on_app c s rest :
  Forall (fun x => x <> c) s -> split_on c (s ++ c :: rest) = s :: split_on c rest.
Proof.
  induction 1 as [|x s Hx Hs IH]; simpl; [by rewrite Z.eqb_refl|].
  rewrite (proj2 (Z.eqb_neq _ _) Hx). by rewrite IH.
Qed.

Lemma split_on_none c s : Forall (fun x => x <> c) s -> split_on c s = [s].
Proof.
  induction 1 as [|x s Hx Hs IH]; simpl; [done|].
  rewrite (proj2 (Z.eqb_neq _ _) Hx). by rewrite IH.
Qed.

(** Joining parts with a separator. *)
Fixpoint join (c : Z) (parts : list bytes) : bytes :=
  match parts with
  | [] => []
  | [part] => part
  | part :: parts => part ++ c :: join c parts
  end.

Lemma join_split_on c s : join c (split_on c s) = s.
Proof.
  induction s as [|x s IH]; [done|]. simpl. pose proof (split_on_nonempty c s).
  destruct (Z.eqb_spec x c) as [->|].
  - destruct (split_on c s); [done|]. simpl in *. by rewrite IH.
  - destruct (split_on c s) as [|part [|part' parts]]; [done|simpl in *; by rewrite IH..].
Qed.

Lemma split_on_free c s : Forall (Forall (fun x => x <> c)) (split_on c s).
Proof.
  induction s as [|x s IH]; simpl; [by repeat constructor|].
  destruct (Z.eqb_spec x c); [by constructor|].
  destruct (split_on c s); [by repeat constructor|]. inversion IH; subst. by repeat constructor.
Qed.

Lemma occurs_at_single c s p : occurs_at [c] s p <-> s !! p = Some c.
Proof.
  unfold occurs_at. simpl length. rewrite <- (Nat.add_0_r p) at 2.
  rewrite <- lookup_drop. destruct (drop p s) as [|x l]; simpl; [done|].
  split; [intros [= ->]|intros [= ->]]; by rewrite ?take_0.
Qed.

(** The parts [SplitBehavior] keeps. *)
Definition kept (keep_empty : bool) (parts : list bytes) : list bytes :=
  List.filter (fun part => keep_empty || negb (sv_is_empty part)) parts.

Lemma split_loop_single fuel c keep_empty view parts :
  (length view < fuel)%nat ->
  split_loop fuel [c] keep_empty view parts = Ret (parts ++ kept keep_empty (split_on c view)).
Proof.
  revert view parts. induction fuel as [|fuel IH]; intros view parts Hf; [lia|].
  cbn [split_loop]. unfold find_view.
  destruct (memmem_optional_first [c] view ltac:(simpl; lia)) as (o & -> & Hocc). simpl.
  destruct o as [p|]; simpl in Hocc.
  - destruct Hocc as [Hp Hbefore]. apply occurs_at_single in Hp.
    pose proof (lookup_lt_Some _ _ _ Hp).
    rewrite IH by (rewrite length_drop; lia).
    rewrite <- (take_drop_middle _ _ _ Hp) at 3.
    rewrite split_on_app.
    2: { apply Forall_lookup. intros i x Hx. apply lookup_take_Some in Hx as [Hx Hi].
         intros ->. apply (Hbefore i); [lia|]. by apply occurs_at_single. }
    rewrite Nat.add_1_r. unfold kept at 2. cbn [List.filter].
    assert (Hempty : negb (sv_is_empty (take p view)) = (0 <? p)%nat).
    { destruct p, view; done. }
    rewrite Hempty. destruct (keep_empty || (0 <? p)%nat); [by rewrite <- app_assoc|done].
  - rewrite split_on_none.
    + unfold kept. cbn [List.filter]. by destruct (keep_empty || _); rewrite ?app_nil_r.
    + apply Forall_lookup. intros i x Hx ->. apply (Hocc i). by apply occurs_at_single.
Qed.

Lemma split_on_join c parts :
  parts <> [] -> Forall (Forall (fun x => x <> c)) parts -> split_on c (join c parts) = parts.
Proof.
  intros Hne. induction 1 as [|part [|next parts] Hp Hps IH]; [done|cbn [join]; by apply split_on_none|].
  change (join c (part :: next :: parts)) with (part ++ c :: join c (next :: parts)).
  rewrite split_on_app by done. by rewrite IH.
Qed.

Lemma take_before (s : bytes) (c : Z) p :
  s !! p = Some c -> (forall q, (q < p)%nat -> s !! q <> Some c) -> Forall (fun x => x <> c) (take p s).
Proof.
  intros _ Hb. apply Forall_lookup. intros i x Hx ->. apply lookup_take_Some in Hx as [Hx Hi]. by apply (Hb i).
Qed.

(** Replacing one byte by one byte. *)
Definition substitute (c d : Z) (s : bytes) : bytes := (fun x => if x =? c then d else x) <$> s.

Lemma substitute_free c d s : Forall (fun x => x <> c) s -> substitute c d s = s.
Proof.
  induction 1 as [|x s Hx _ IH]; [done|]. unfold substitute in *. rewrite fmap_cons, IH.
  by rewrite (proj2 (Z.eqb_neq _ _) Hx).
Qed.

Lemma find_view_byte (s : bytes) (c : Z) :
  exists o, find_view s [c] = Ret o /\
    match o with
    | Some p => exists before after, s = before ++ c :: after /\ p = length before /\ Forall (fun x => x <> c) before
    | None => Forall (fun x => x <> c) s
    end.
Proof.
  destruct (memmem_optional_first [c] s ltac:(simpl; lia)) as (o & Ho & Hocc). exists o. split; [exact Ho|].
  destruct o as [p|]; simpl in Hocc.
  - destruct Hocc as [Hp%occurs_at_single Hb]. exists (take p s), (drop (S p) s).
    assert (Hlt := Hp). apply lookup_lt_Some in Hlt. split; [by rewrite take_drop_middle|].
    split; [rewrite length_take; lia|]. eapply take_before; [exact Hp|]. intros q Hq Hc. apply (Hb q Hq).
    by apply occurs_at_single.
  - apply Forall_lookup. intros i x Hx ->. apply (Hocc i). by apply occurs_at_single.
Qed.

(** Every occurrence of [c] replaced by [r] *)
Definition replaced (c : Z) (r s : bytes) : bytes := s ≫= fun x => if x =? c then r else [x].

Lemma replaced_free c r s : Forall (fun x => x <> c) s -> replaced c r s = s.
Proof.
  induction 1 as [|x s Hx _ IH]; [done|]. unfold replaced in *. rewrite bind_cons, IH.
  by rewrite (proj2 (Z.eqb_neq _ _) Hx).
Qed.

Lemma replaced_app c r s1 s2 : replaced c r (s1 ++ s2) = replaced c r s1 ++ replaced c r s2.
Proof. apply bind_app. Qed.

Lemma replace_remaining_char fuel c r s out :
  (length s < fuel)%nat -> replace_remaining fuel [c] r s out = Ret (out ++ replaced c r s).
Proof.
  revert s out. induction fuel as [|fuel IH]; intros s out Hf; [lia|]. cbn [replace_remaining].
  destruct s as [|x s]; [done|]. cbn [sv_is_empty].
  destruct (find_view_byte (x :: s) c) as ([p|] & -> & Hp); cbn [res_bind].
  - destruct Hp as (before & after & Heq & -> & Hb). rewrite Heq in *.
    rewrite length_app in Hf. cbn [length] in Hf. unfold substring_view at 1, verify.
    rewrite (proj2 (Nat.leb_le _ _)) by (rewrite length_app; simpl; lia). cbn [res_bind]. rewrite drop_0.
    rewrite take_app_length, substring_view_from_drop by (rewrite length_app; simpl; lia). cbn [res_bind].
    replace (drop (length before + length [c]) (before ++ c :: after)) with after.
    2: { rewrite drop_app. rewrite drop_ge by (simpl; lia). simpl.
         by replace (length before + 1 - length before)%nat with 1%nat by lia. }
    rewrite IH by lia. f_equal. rewrite replaced_app, (replaced_free c r before Hb).
    unfold replaced at 2. rewrite bind_cons, Z.eqb_refl. fold (replaced c r after). by rewrite <- !app_assoc.
  - by rewrite replaced_free.
Qed.

Lemma replace_all_char c r s : replace_all s [c] r = Ret (replaced c r s).
Proof.
  unfold replace_all. destruct s as [|x s]; [done|]. cbn [sv_is_empty].
  pose proof (replace_remaining_char (S (S (length (x :: s)))) c r (x :: s) [] ltac:(lia)) as Hr.
  cbn [replace_remaining sv_is_empty] in Hr.
  destruct (find_view_byte (x :: s) c) as ([p|] & Hf & Hp); rewrite Hf in *; cbn [res_bind] in *;
    [|by rewrite replaced_free].
  rewrite app_nil_l in Hr. rewrite <- Hr. unfold replace_into_builder. done.
Qed.

Lemma replace_all_byte c d s : replace_all s [c] [d] = Ret (substitute c d s).
Proof.
  rewrite replace_all_char. f_equal. unfold replaced, substitute. induction s as [|x s IH]; [done|].
  rewrite bind_cons, fmap_cons, IH. by destruct (x =? c).
Qed.

Lemma kept_all parts : kept true parts = parts.
Proof. unfold kept. induction parts as [|p parts IH]; [done|]. simpl in *. by rewrite IH. Qed.

Lemma split_view_kept s c keep_empty :
  s <> [] -> split_view s [c] keep_empty = Ret (kept keep_empty (split_on c s)).
Proof.
  intros Hs. unfold split_view. destruct s as [|x s]; [done|].
  cbn [sv_is_empty negb verify]. by rewrite split_loop_single by lia.
Qed.

Lemma split_view_single s c :
  s <> [] -> split_view s [c] true = Ret (split_on c s).
Proof. intros Hs. by rewrite split_view_kept, kept_all. Qed.

Lemma split_on_fmap c (f : Z -> Z) (s : bytes) :
  (forall x, f x = c <-> x = c) -> split_on c (f <$> s) = (fun part : bytes => f <$> part) <$> split_on c s.
Proof.
  intros Hf. induction s as [|x s IH]; [done|]. cbn [split_on fmap list_fmap].
  fold (f <$> s). rewrite IH. destruct (Z.eqb_spec x c) as [->|Hne].
  - rewrite (proj2 (Z.eqb_eq _ _)) by (by apply Hf). done.
  - rewrite (proj2 (Z.eqb_neq _ _)) by (by rewrite Hf).
    pose proof (split_on_nonempty c s). by destruct (split_on c s).
Qed.

(** ** Facts: lower-casing ASCII *)

Lemma to_ascii_lowercase_byte c : 0 <= c < 256 -> 0 <= to_ascii_lowercase c < 256.
Proof. unfold to_ascii_lowercase. break_match; ascii_lia. Qed.

Lemma to_ascii_lowercase_string_ascii `{SimdutfLaws} s :
  Forall (fun b => 0 <= b < 128) s ->
  to_ascii_lowercase_string s = Ret (to_ascii_lowercase <$> s).
Proof.
  intros Hs. unfold to_ascii_lowercase_string.
  rewrite validate_well_formed by (by apply well_formed_ascii). simpl. f_equal.
  apply map_ext_in. intros c Hc. rewrite List.Forall_forall in Hs. specialize (Hs c Hc).
  apply u8_id, to_ascii_lowercase_byte. lia.
Qed.

Lemma lowercase_idemp (s : bytes) :
  to_ascii_lowercase <$> (to_ascii_lowercase <$> s) = to_ascii_lowercase <$> s.
Proof. induction s as [|x s IH]; [done|]. cbn in *. by rewrite to_ascii_lowercase_idemp, IH. Qed.

(** Case-insensitive prefixes do not see lower-casing. *)
Lemma starts_with_lowercase (s start : bytes) :
  starts_with (to_ascii_lowercase <$> s) start CaseInsensitive = starts_with s start CaseInsensitive.
Proof.
  unfold starts_with. rewrite length_fmap, <- fmap_take. cbn [same_characters].
  rewrite lowercase_idemp. by destruct s.
Qed.

Lemma to_ascii_lowercase_ascii (s : bytes) :
  Forall (fun b => 0 <= b < 128) s -> Forall (fun b => 0 <= b < 128) (to_ascii_lowercase <$> s).
Proof.
  intros Hs. apply Forall_fmap. eapply Forall_impl; [exact Hs|]. cbn. intros b Hb.
  unfold to_ascii_lowercase. break_match; ascii_lia.
Qed.

Lemma lowercase_id (s : bytes) :
  Forall (fun b => is_ascii_upper_alpha b = false) s -> to_ascii_lowercase <$> s = s.
Proof. induction 1 as [|b s Hb Hs IH]; [done|]. cbn in *. by rewrite to_ascii_lowercase_id, IH. Qed.

(** ** A reference [fast_float] on digit strings *)

Fixpoint leading_digits (base : Z) (s : bytes) : bytes :=
  match s with
  | c :: s => if is_radix_digit base c then c :: leading_digits base s else []
  | [] => []
  end.

#[export] Instance reference_fast_float : FastFloat := {
  from_chars max s base :=
    let digits := leading_digits base s in
    if sv_is_empty digits then None
    else if digits_value base digits <=? max then Some (digits_value base digits, length digits) else None
}.

#[export] Instance reference_fast_float_laws : FastFloatLaws.
Proof.
  split. intros max base s rest _ Hs Hrest. cbn [from_chars reference_fast_float].
  replace (leading_digits base (s ++ rest)) with s; [done|].
  induction s as [|c s IH]; cbn [app leading_digits].
  - destruct rest as [|c rest]; [done|]. cbn. by rewrite Hrest.
  - cbn [forallb] in Hs. apply andb_prop in Hs as [-> Hs]. by rewrite <- IH.
Qed.

(** ** Properties *)

(** Printing an unsigned 64-bit integer in decimal or hexadecimal and
    parsing the text back gives the integer: the digits are those of the radix,
    there is no superfluous leading zero, and [parse_number] of any type that
    can hold the value succeeds. *)
Theorem format_parse_roundtrip `{FastFloatLaws} (base value max : Z) (upper_case : bool)
    (Hbase : base = 10 \/ base = 16) (Hv : 0 <= value < 2 ^ 64) (Hmax : value <= max) :
  exists s, put_u64 value base upper_case false false 0 32 = Ret s
    /\ prints_number base value s /\ parse_number max s base = Some value.
Proof.
  destruct (put_u64_prints base upper_case value Hbase Hv) as (s & Hs & Hp).
  exists s. split; [done|]. split; [done|]. by apply parse_number_prints.
Qed.

Lemma format_parse_roundtrip_witness :
  exists s, put_u64 65535 16 false false false 0 32 = Ret s
    /\ prints_number 16 65535 s /\ parse_number 65535 s 16 = Some 65535.
Proof. apply (format_parse_roundtrip 16 65535 65535 false); [by right|lia|lia]. Defined.

(** [StringView::split_view] on a one-byte separator terminates without
    stopping the process, and its parts are the separator-free pieces that
    joined with the separator give the string back, without the empty ones
    unless they are asked for. *)
Theorem split_view_correct (s : bytes) (c : Z) (keep_empty : bool) (Hs : s <> []) :
  exists parts, split_view s [c] keep_empty = Ret (kept keep_empty parts)
    /\ join c parts = s /\ Forall (Forall (fun x => x <> c)) parts.
Proof.
  exists (split_on c s). split; [by apply split_view_kept|].
  split; [apply join_split_on|apply split_on_free].
Qed.

Lemma split_view_correct_witness :
  exists parts, split_view (sv "1..2.") (sv ".") false = Ret (kept false parts)
    /\ join (ch ".") parts = sv "1..2." /\ Forall (Forall (fun x => x <> ch ".")) parts.
Proof. apply (split_view_correct (sv "1..2.") (ch ".") false). done. Defined.
