(* ===== verification/Tokens.v ===== *)
(** * Taking strings apart

    What the tokenizing code uses of [AK]: [StringUtils::trim_whitespace],
    [StringView::split_view_if], [StringView::to_number] for unsigned and signed
    types, and [IPv4Address::from_string]; with the facts about searching for a
    byte and about well-formed UTF-8 that is cut at ASCII characters. *)

From S2P Require Import Prelude CharacterTypes Utf8 Strings.

(** [StringUtils::trim_whitespace] *)
Definition whitespace_characters : bytes := [32; 10; 9; 11; 12; 13].

Definition trim_whitespace (s : bytes) : bytes := trim s whitespace_characters TrimBoth.

(** [StringView::split_view_if] without the separators: [i] is the index of the
    first of the [rest]. *)
Fixpoint split_view_if_loop (predicate : Z -> bool) (keep_empty : bool) (s rest : bytes) (i substart : nat)
    : list bytes :=
  match rest with
  | [] =>
      let taillen := (length s - substart)%nat in
      if negb (taillen =? 0)%nat || keep_empty then [take taillen (drop substart s)] else []
  | c :: rest =>
      if predicate c then
        let sublen := (i - substart)%nat in
        (if negb (sublen =? 0)%nat || keep_empty then [take sublen (drop substart s)] else [])
        ++ split_view_if_loop predicate keep_empty s rest (S i) (S i)
      else split_view_if_loop predicate keep_empty s rest (S i) substart
  end.

Definition split_view_if (s : bytes) (predicate : Z -> bool) (keep_empty : bool) : list bytes :=
  if sv_is_empty s then [] else split_view_if_loop predicate keep_empty s s 0 0.

(** [StringView::to_number<T>()] for an unsigned [T] with maximum [max] *)
Definition to_number `{FastFloat} (max : Z) (s : bytes) : option Z := parse_number max (trim_whitespace s) 10.

(** [fast_float] for a signed type, with a leading plus sign allowed *)
Class FastFloatSigned := { from_chars_signed : Z -> Z -> bytes -> Z -> option (Z * nat) }.

(** Documented behaviour on digits with an optional minus sign *)
Class FastFloatSignedLaws `{FastFloatSigned} : Prop := {
  from_chars_signed_digits (min max : Z) (s : bytes) :
    min <= 0 <= max -> s <> [] -> forallb is_ascii_digit s = true ->
    from_chars_signed min max s 10 =
      if digits_value 10 s <=? max then Some (digits_value 10 s, length s) else None;
  from_chars_signed_minus (min max : Z) (s : bytes) :
    min <= 0 <= max -> s <> [] -> forallb is_ascii_digit s = true ->
    from_chars_signed min max (ch "-" :: s) 10 =
      if min <=? - digits_value 10 s then Some (- digits_value 10 s, S (length s)) else None
}.

Definition to_number_signed `{FastFloatSigned} (min max : Z) (s : bytes) : option Z :=
  let string := trim_whitespace s in
  match from_chars_signed min max string 10 with
  | None => None
  | Some (value, characters_parsed) =>
      if negb (characters_parsed =? length string)%nat then None else Some value
  end.

(** [MUST(String::from_utf8(view))] *)
Definition must_from_utf8 `{Simdutf} (view : bytes) : res bytes :=
  verify (validate Surrogates_Yes view) (Ret view).

(** [IPv4Address::from_string]; the view is not null. *)
Definition IPv4Address_from_string `{FastFloat} (string : bytes) : res (option (Z * Z * Z * Z)) :=
  let number (part : bytes) : Z := default 256 (to_number (2 ^ 32 - 1) part) in
  let address (a b c d : Z) : res (option (Z * Z * Z * Z)) :=
    if (255 <? a) || (255 <? b) || (255 <? c) || (255 <? d) then Ret None else Ret (Some (a, b, c, d)) in
  let* parts := split_view string [ch "."] false in
  match parts with
  | [p0] => address 0 0 0 (number p0)
  | [p0; p1] => address (number p0) 0 0 (number p1)
  | [p0; p1; p2] => address (number p0) (number p1) 0 (number p2)
  | [p0; p1; p2; p3] => address (number p0) (number p1) (number p2) (number p3)
  | _ => Ret None
  end.

(** ** Facts: searching for a byte *)

Section find.
Context `{SimdutfLaws}.

Lemma find_char_first s c before after :
  s = before ++ c :: after -> Forall (fun x => x <> c) before -> find_char s c = Some (length before).
Proof.
  intros -> Hb. unfold find_char. destruct (simdutf_find_spec (before ++ c :: after) c) as (Hle & Hbefore & Hat).
  replace (sv_is_empty (before ++ c :: after)) with false by (by destruct before).
  assert (Hpos : simdutf_find (before ++ c :: after) c = length before).
  { destruct (Nat.lt_trichotomy (simdutf_find (before ++ c :: after) c) (length before)) as [Hlt|[He|Hgt]]; [|done|].
    - rewrite lookup_app_l in Hat by done. rewrite length_app in Hat. specialize (Hat ltac:(simpl; lia)).
      exfalso. exact (Forall_lookup_1 _ _ _ _ Hb Hat eq_refl).
    - exfalso. apply (Hbefore _ Hgt). by rewrite list_lookup_middle. }
  rewrite Hpos, length_app. cbn [length]. by rewrite (proj2 (Nat.eqb_neq _ _)) by lia.
Qed.

Lemma find_char_none s c : Forall (fun x => x <> c) s -> find_char s c = None.
Proof.
  intros Hs. unfold find_char. destruct (simdutf_find_spec s c) as (Hle & _ & Hat).
  destruct (sv_is_empty s) eqn:E; [done|]. cbv zeta. destruct (Nat.eqb_spec (simdutf_find s c) (length s)) as [|Hne]; [done|].
  specialize (Hat ltac:(lia)). exfalso. exact (Forall_lookup_1 _ _ _ _ Hs Hat eq_refl).
Qed.

Lemma find_char_cases s c :
  (find_char s c = None /\ Forall (fun x => x <> c) s)
  \/ (exists before after, s = before ++ c :: after /\ find_char s c = Some (length before)
      /\ Forall (fun x => x <> c) before).
Proof.
  destruct (decide (c ∈ s)) as [Hin|Hni].
  - right. apply list_elem_of_split_l in Hin as (before & after & -> & Hni). exists before, after.
    assert (Hb : Forall (fun x => x <> c) before).
    { apply Forall_forall. intros x Hx Heq. by subst. }
    split_and!; try done. by eapply find_char_first.
  - left. assert (Hs : Forall (fun x => x <> c) s) by (apply Forall_forall; by intros x Hx ->).
    split; [by apply find_char_none|done].
Qed.

End find.

(** ** Facts: trimming *)

Lemma trim_left_split str characters :
  exists cut, str = cut ++ trim_left str characters
    /\ Forall (fun x => contains_char characters x = true) cut.
Proof.
  induction str as [|c str (cut & E & Hcut)]; simpl; [by exists []|].
  destruct (contains_char characters c) eqn:Hc; [|by exists []].
  exists (c :: cut). simpl. split; [by f_equal|by constructor].
Qed.

Lemma trim_split str characters :
  exists cut cut', str = cut ++ trim str characters TrimBoth ++ cut'
    /\ Forall (fun x => contains_char characters x = true) (cut ++ cut').
Proof.
  destruct (trim_left_split str characters) as (cut & E & Hcut). unfold trim, trim_right.
  set (s1 := trim_left str characters) in *.
  destruct (trim_left_split (rev s1) characters) as (cut' & E' & Hcut').
  exists cut, (rev cut'). split.
  - rewrite <- rev_app_distr, <- E', rev_involutive. done.
  - apply Forall_app. split; [done|]. by apply Forall_rev.
Qed.

Lemma trim_whitespace_length s : (length (trim_whitespace s) <= length s)%nat.
Proof.
  unfold trim_whitespace. destruct (trim_split s whitespace_characters) as (c & c' & E & _).
  rewrite E at 2. rewrite !length_app. lia.
Qed.

Lemma trim_left_none str characters :
  match str with [] => True | c :: _ => contains_char characters c = false end ->
  trim_left str characters = str.
Proof. destruct str as [|c str]; simpl; [done|]. by intros ->. Qed.

(** Nothing is trimmed of a string without whitespace at its ends. *)
Lemma trim_whitespace_id s :
  Forall (fun x => contains_char whitespace_characters x = false) s -> trim_whitespace s = s.
Proof.
  intros Hs. unfold trim_whitespace, trim, trim_right.
  rewrite (trim_left_none s) by (by inversion Hs).
  rewrite trim_left_none; [apply rev_involutive|].
  assert (Hr : Forall (fun x => contains_char whitespace_characters x = false) (rev s)) by (by apply Forall_rev).
  by inversion Hr.
Qed.

Lemma whitespace_ascii x : contains_char whitespace_characters x = true -> 0 <= x < 128.
Proof.
  unfold contains_char, whitespace_characters. intros (y & Hin & Hy%Z.eqb_eq)%existsb_exists.
  simpl in Hin. destruct_or! Hin; lia.
Qed.

(** ** Facts: well-formed UTF-8, cut at ASCII characters *)

Lemma encoded_ascii_or_high cp :
  0 <= cp <= 0x10FFFF -> (cp < 128 /\ encoded cp = [cp]) \/ (encoded cp <> [] /\ Forall (fun b => 128 <= b) (encoded cp)).
Proof.
  intros Hcp. unfold encoded.
  destruct (Z.leb_spec cp 0x7f); [left; split; [lia|done]|right].
  assert (0 <= cp / 64 /\ 0 <= cp mod 64 /\ 0 <= cp / 4096 /\ 0 <= cp / 64 mod 64 /\ 0 <= cp / 262144 /\ 0 <= cp / 4096 mod 64)
    by (Z.to_euclidean_division_equations; lia).
  split; [by repeat case_match|]. repeat case_match; repeat constructor; lia.
Qed.

Lemma app_high_prefix (high rest a : bytes) c b :
  Forall (fun x => 128 <= x) high -> c < 128 -> high ++ rest = a ++ c :: b ->
  exists a', a = high ++ a' /\ rest = a' ++ c :: b.
Proof.
  revert a. induction high as [|x high IH]; intros a Hh Hc E; simpl in *; [by exists a|].
  apply Forall_cons in Hh as [Hx Hh]. destruct a as [|y a]; simpl in E; [injection E as -> _; lia|].
  injection E as <- E. destruct (IH a Hh Hc E) as (a' & -> & ->). by exists a'.
Qed.

Lemma well_formed_cut a c b :
  0 <= c < 128 -> well_formed_utf8 (a ++ c :: b) -> well_formed_utf8 a /\ well_formed_utf8 b.
Proof.
  intros Hc (cps & Hcps & E). symmetry in E. revert a E. induction cps as [|cp cps IH]; intros a E.
  { by destruct a. }
  apply Forall_cons in Hcps as [Hcp Hcps]. assert (Hrange : 0 <= cp <= 0x10FFFF) by ascii_lia.
  unfold utf8_encode in E. rewrite bind_cons, code_point_to_utf8_encoded in E by done.
  fold (utf8_encode cps) in E. destruct (encoded_ascii_or_high cp Hrange) as [[Hlow Henc]|[_ Hhigh]].
  - rewrite Henc in E. destruct a as [|x a]; simpl in E; injection E as <- E.
    + split; [by exists []|]. rewrite <- E. by exists cps.
    + destruct (IH Hcps a E) as [Ha Hb]. split; [|done].
      apply (well_formed_app [cp] a); [apply well_formed_ascii; constructor; [lia|constructor]|done].
  - apply app_high_prefix in E as (a' & -> & E); [|done|lia]. destruct (IH Hcps a' E) as [Ha Hb].
    split; [|done]. apply well_formed_app; [|done]. exists [cp]. split; [by constructor|].
    by rewrite utf8_encode_single.
Qed.

Lemma well_formed_ascii_prefix cut s :
  Forall (fun x => 0 <= x < 128) cut -> well_formed_utf8 (cut ++ s) -> well_formed_utf8 s.
Proof.
  induction 1 as [|c cut Hc _ IH]; simpl; [done|]. intros Hs. apply IH.
  by apply (well_formed_cut [] c (cut ++ s)) in Hs as [_ ?].
Qed.

Lemma well_formed_ascii_suffix s cut :
  Forall (fun x => 0 <= x < 128) cut -> well_formed_utf8 (s ++ cut) -> well_formed_utf8 s.
Proof.
  destruct 1 as [|c cut Hc _]; [by rewrite app_nil_r|]. intros Hs. by apply well_formed_cut in Hs as [? _].
Qed.

Lemma well_formed_trim s : well_formed_utf8 s -> well_formed_utf8 (trim_whitespace s).
Proof.
  intros Hs. unfold trim_whitespace. destruct (trim_split s whitespace_characters) as (c & c' & E & Hc).
  rewrite E in Hs. apply Forall_app in Hc as [Hc Hc'].
  apply well_formed_ascii_prefix in Hs; [|eapply Forall_impl; [exact Hc|apply whitespace_ascii]].
  apply well_formed_ascii_suffix in Hs; [done|]. eapply Forall_impl; [exact Hc'|apply whitespace_ascii].
Qed.

(** ** Facts: splitting at the characters of a predicate *)

Fixpoint split_by (predicate : Z -> bool) (s : bytes) : list bytes :=
  match s with
  | [] => [[]]
  | c :: s =>
      if predicate c then [] :: split_by predicate s
      else match split_by predicate s with [] => [[c]] | part :: parts => (c :: part) :: parts end
  end.

Lemma split_by_cons predicate s : exists part parts, split_by predicate s = part :: parts.
Proof. destruct s as [|c s]; simpl; [eauto|]. destruct (predicate c), (split_by predicate s); eauto. Qed.

Lemma split_by_token predicate token c rest :
  Forall (fun x => predicate x = false) token -> predicate c = true ->
  split_by predicate (token ++ c :: rest) = token :: split_by predicate rest.
Proof.
  intros Ht Hc. induction Ht as [|x token Hx _ IH]; simpl; [by rewrite Hc|]. by rewrite Hx, IH.
Qed.

Lemma split_by_last predicate token :
  Forall (fun x => predicate x = false) token -> split_by predicate token = [token].
Proof. induction 1 as [|x token Hx _ IH]; simpl; [done|]. by rewrite Hx, IH. Qed.

Lemma split_view_if_loop_spec predicate keep_empty pre current rest :
  split_view_if_loop predicate keep_empty (pre ++ current ++ rest) rest (length pre + length current) (length pre)
  = kept keep_empty (match split_by predicate rest with [] => [] | part :: parts => (current ++ part) :: parts end).
Proof.
  assert (Hpart : forall pre current rest n, n = length current ->
    (if negb (n =? 0)%nat || keep_empty then [take n (drop (length pre) (pre ++ current ++ rest))] else [])
    = if keep_empty || negb (sv_is_empty current) then [current] else []).
  { clear. intros pre current rest n ->. rewrite drop_app_length, take_app_length.
    destruct current; simpl; rewrite ?orb_true_r; [by rewrite orb_false_r|done]. }
  revert pre current. induction rest as [|c rest IH]; intros pre current; simpl split_view_if_loop.
  - rewrite Hpart by (rewrite !length_app; simpl; lia). simpl. by rewrite app_nil_r.
  - destruct (predicate c) eqn:Hc; simpl; rewrite Hc.
    + rewrite Hpart by lia. rewrite app_nil_r.
      destruct (split_by_cons predicate rest) as (part & parts & E).
      specialize (IH (pre ++ current ++ [c]) []). rewrite E in *.
      replace (length (pre ++ current ++ [c]) + length (@nil Z))%nat with (S (length pre + length current)) in IH
        by (rewrite !length_app; simpl; lia).
      replace (length (pre ++ current ++ [c])) with (S (length pre + length current)) in IH
        by (rewrite !length_app; simpl; lia).
      rewrite <- !app_assoc in IH. simpl in IH. rewrite IH. simpl.
      by destruct (keep_empty || negb (sv_is_empty current)).
    + specialize (IH pre (current ++ [c])). rewrite length_app in IH. simpl in IH.
      rewrite <- app_assoc in IH. simpl in IH.
      replace (length pre + (length current + 1))%nat with (S (length pre + length current)) in IH by lia. rewrite IH.
      destruct (split_by_cons predicate rest) as (part & parts & ->). by rewrite <- app_assoc.
Qed.

Lemma split_view_if_spec predicate keep_empty s :
  s <> [] -> split_view_if s predicate keep_empty = kept keep_empty (split_by predicate s).
Proof.
  intros Hs. unfold split_view_if. destruct (sv_is_empty s) eqn:E; [by destruct s|].
  pose proof (split_view_if_loop_spec predicate keep_empty [] [] s) as Hl. simpl in Hl. rewrite Hl.
  by destruct (split_by_cons predicate s) as (part & parts & ->).
Qed.

(** ** A reference [fast_float] for signed types *)

#[export] Instance reference_fast_float_signed : FastFloatSigned := {
  from_chars_signed min max s base :=
    let negative := starts_with_char s (ch "-") in
    let digits := if negative then tail s else s in
    let value := if negative then - digits_value base digits else digits_value base digits in
    if negb (sv_is_empty digits) && forallb (is_radix_digit base) digits && (min <=? value) && (value <=? max)
    then Some (value, length s) else None
}.

#[export] Instance reference_fast_float_signed_laws : FastFloatSignedLaws.
Proof.
  assert (Hd : forall s, forallb is_ascii_digit s = true ->
    forallb (is_radix_digit 10) s = true /\ 0 <= digits_value 10 s /\ starts_with_char s (ch "-") = false).
  { intros s Hs. split; [done|]. split.
    - apply digits_value_nonneg; [lia|]. rewrite forallb_forall in *. intros x Hx.
      by apply is_ascii_digit_hex, Hs.
    - destruct s as [|c s]; [done|]. cbn [starts_with_char forallb] in *. apply andb_true_iff in Hs as [Hc _].
      by destruct (Z.eqb_spec (ch "-") c) as [<-|]. }
  split; intros min max s Hm Hne (Hs & Hnn & Hst)%Hd; cbn [from_chars_signed reference_fast_float_signed].
  - rewrite Hst, Hs, (proj2 (Z.leb_le min _)) by lia. by destruct s.
  - cbn [starts_with_char tail]. rewrite Z.eqb_refl, Hs, (proj2 (Z.leb_le _ max)) by lia.
    destruct s; [done|]. cbn [sv_is_empty negb andb length]. by rewrite andb_true_r.
Qed.

(** ** Prefixes and suffixes *)

Lemma ends_with_suffix s t : ends_with s t CaseSensitive = true <-> exists p, s = p ++ t.
Proof.
  unfold ends_with. destruct t as [|x t]; [simpl; split; [|done]; intros _; exists s; by rewrite app_nil_r|].
  cbn [sv_is_empty]. set (t' := x :: t). destruct s as [|y s]; cbn [sv_is_empty].
  - split; [done|]. intros [[|] Hp]; done.
  - set (s' := y :: s). destruct (Nat.ltb_spec (length s') (length t')) as [Hlt|Hge].
    + split; [done|]. intros [p Hp]. rewrite Hp, length_app in Hlt. lia.
    + unfold same_characters. rewrite sv_eqb_true. split.
      * intros E. exists (take (length s' - length t') s'). rewrite <- E at 2. by rewrite take_drop.
      * intros [p ->]. rewrite length_app. replace (length p + length t' - length t')%nat with (length p) by lia.
        apply drop_app_length.
Qed.

Lemma starts_with_prefix s t : starts_with s t CaseSensitive = true <-> exists r, s = t ++ r.
Proof.
  unfold starts_with. destruct t as [|x t]; [simpl; split; [|done]; intros _; by exists s|].
  cbn [sv_is_empty]. set (t' := x :: t). destruct s as [|y s]; cbn [sv_is_empty].
  - split; [done|]. by intros [r Hr].
  - set (s' := y :: s). destruct (Nat.ltb_spec (length s') (length t')) as [Hlt|Hge].
    + split; [done|]. intros [p Hp]. rewrite Hp, length_app in Hlt. lia.
    + unfold same_characters. rewrite sv_eqb_true. split.
      * intros E. exists (drop (length t') s'). rewrite <- E at 1. by rewrite take_drop.
      * intros [p ->]. apply take_app_length.
Qed.
