(* ===== verification/Wtf8.v ===== *)
(** * The strings that [Utf8View::validate] accepts

    [validate] allows encoded surrogates, so a valid [String] is an encoding of
    code points that need not be scalar values.  This file characterises
    [validate] by that and shows that such strings can be cut at ASCII
    characters, which is what the parsers that slice strings rely on. *)

From S2P Require Import Prelude CharacterTypes Utf8 MemMem Strings Tokens.

Definition wtf8 (s : bytes) : Prop := exists cps, Forall (fun cp => 0 <= cp <= 0x10FFFF) cps /\ s = utf8_encode cps.

Lemma wtf8_nil : wtf8 [].
Proof. by exists []. Qed.

Lemma wtf8_app a b : wtf8 a -> wtf8 b -> wtf8 (a ++ b).
Proof.
  intros (ca & Ha & ->) (cb & Hb & ->). exists (ca ++ cb). rewrite utf8_encode_app. split; [by apply Forall_app|done].
Qed.

Lemma wtf8_encoded cp : 0 <= cp <= 0x10FFFF -> wtf8 (encoded cp).
Proof. intros Hcp. exists [cp]. split; [by constructor|by rewrite utf8_encode_single]. Qed.

Lemma well_formed_wtf8 s : well_formed_utf8 s -> wtf8 s.
Proof. intros (cps & Hcps & ->). exists cps. split; [by apply scalars_range|done]. Qed.

Lemma wtf8_ascii s : Forall (fun b => 0 <= b < 128) s -> wtf8 s.
Proof. intros Hs. by apply well_formed_wtf8, well_formed_ascii. Qed.

Lemma wtf8_bytes s : wtf8 s -> all_bytes s.
Proof. intros (cps & Hcps & ->). by apply utf8_encode_bytes. Qed.

Lemma encoded_surrogate_length cp : is_unicode_surrogate cp = true -> length (encoded cp) = 3%nat.
Proof. intros Hs. unfold encoded. by replace (cp <=? 127) with false by ascii_lia; replace (cp <=? 2047) with false by ascii_lia; replace (cp <=? 65535) with true by ascii_lia. Qed.

(** Code points are scalar values up to the first surrogate. *)
Lemma surrogate_split cps :
  Forall (fun cp => 0 <= cp <= 0x10FFFF) cps ->
  scalars cps \/ exists pre surrogate post, cps = pre ++ surrogate :: post /\ scalars pre /\ is_unicode_surrogate surrogate = true.
Proof.
  induction 1 as [|cp cps Hcp Hcps IH]; [by left|]. destruct (is_unicode_surrogate cp) eqn:E.
  { right. by exists [], cp, cps. }
  assert (Hs : 0 <= cp /\ is_unicode_scalar_value cp = true) by (split; [lia|]; unfold is_unicode_scalar_value, is_unicode; rewrite E; lia).
  destruct IH as [IH|(pre & s & post & -> & Hpre & Hsur)]; [left; by constructor|]. right. exists (cp :: pre), s, post.
  split; [done|]. split; [by constructor|done].
Qed.

Section validate.
Context `{SimdutfLaws}.

Lemma validate_fuel_wtf8 fuel : forall s, all_bytes s -> (length s < fuel)%nat -> validate_fuel fuel Surrogates_Yes s = true <-> wtf8 s.
Proof.
  induction fuel as [|fuel IH]; intros s Hs Hf; [lia|]. cbn [validate_fuel]. split.
  - destruct (validate_utf8_with_errors s) as [e n] eqn:E. destruct e; [|..|done].
    + intros _. apply well_formed_wtf8, validate_utf8_success; [done|by rewrite E].
    + apply validate_utf8_surrogate in E as (cps & sur & rest & Hcps & Hsur & -> & ->); [|done]. intros Hv.
      assert (Hr : 0 <= sur <= 0x10FFFF) by ascii_lia. rewrite utf8_encode_single in * by done.
      pose proof (encoded_surrogate_length sur Hsur) as H3. rewrite app_assoc in Hv.
      rewrite drop_app_exact in Hv by (rewrite length_app; lia). apply Forall_app in Hs as [_ Hs]. apply Forall_app in Hs as [_ Hs].
      apply IH in Hv; [|done|rewrite !length_app in Hf; lia]. apply wtf8_app; [by apply well_formed_wtf8; exists cps|].
      apply wtf8_app; [by apply wtf8_encoded|done].
  - intros (cps & Hcps & E). destruct (surrogate_split cps Hcps) as [Hsc|(pre & sur & post & -> & Hpre & Hsur)].
    + assert (Hw : well_formed_utf8 s) by (by exists cps). apply validate_utf8_success in Hw; [|done].
      destruct (validate_utf8_with_errors s) as [[] n]; done.
    + apply Forall_app in Hcps as [_ Hcps]. apply Forall_cons in Hcps as [Hr Hpost].
      assert (Es : s = utf8_encode pre ++ utf8_encode [sur] ++ utf8_encode post).
      { rewrite E, utf8_encode_app. f_equal. rewrite utf8_encode_cons, utf8_encode_single by done. done. }
      assert (Hv : validate_utf8_with_errors s = (SURROGATE, length (utf8_encode pre))).
      { apply validate_utf8_surrogate; [done|]. by exists pre, sur, (utf8_encode post). }
      rewrite Hv, Es, utf8_encode_single, app_assoc by done. pose proof (encoded_surrogate_length sur Hsur) as H3.
      rewrite drop_app_exact by (rewrite length_app; lia). apply IH; [by apply utf8_encode_bytes| |by exists post].
      rewrite Es, utf8_encode_single, !length_app in Hf by done. lia.
Qed.

(** [validate] accepts exactly the encodings of code points. *)
Lemma validate_wtf8 s : all_bytes s -> validate Surrogates_Yes s = true <-> wtf8 s.
Proof. intros Hs. apply validate_fuel_wtf8; [done|lia]. Qed.

Lemma wtf8_valid s : wtf8 s -> validate Surrogates_Yes s = true.
Proof. intros Hs. apply validate_wtf8; [by apply wtf8_bytes|done]. Qed.

Lemma must_from_utf8_wtf8 s : wtf8 s -> must_from_utf8 s = Ret s.
Proof. intros Hs. unfold must_from_utf8. by rewrite wtf8_valid. Qed.

Lemma to_ascii_lowercase_string_wtf8 s :
  wtf8 s -> to_ascii_lowercase_string s = Ret (to_ascii_lowercase <$> s).
Proof.
  intros Hs. unfold to_ascii_lowercase_string. rewrite wtf8_valid by done. cbn [verify]. f_equal. apply list_fmap_ext.
  intros i x Hx. apply u8_id, to_ascii_lowercase_byte. apply wtf8_bytes in Hs. rewrite Forall_forall in Hs.
  specialize (Hs x ltac:(by eapply list_elem_of_lookup_2)). unfold is_byte in Hs. lia.
Qed.

End validate.

(** ** Cutting at ASCII characters *)

Lemma wtf8_cut a c b : 0 <= c < 128 -> wtf8 (a ++ c :: b) -> wtf8 a /\ wtf8 b.
Proof.
  intros Hc (cps & Hcps & E). symmetry in E. revert a E. induction Hcps as [|cp cps Hcp Hcps IH]; intros a E; [by destruct a|].
  rewrite utf8_encode_cons in E by done. destruct (encoded_ascii_or_high cp Hcp) as [[Hlow Henc]|[_ Hhigh]].
  - rewrite Henc in E. destruct a as [|x a]; cbn [app] in E; injection E as <- E.
    + split; [apply wtf8_nil|]. rewrite <- E. by exists cps.
    + destruct (IH a E) as [Ha Hb]. split; [|done]. apply (wtf8_app [cp] a); [apply wtf8_ascii; repeat constructor; lia|done].
  - apply app_high_prefix in E as (a' & -> & E); [|done|lia]. destruct (IH a' E) as [Ha Hb].
    split; [|done]. apply wtf8_app; [by apply wtf8_encoded|done].
Qed.

Lemma wtf8_ascii_prefix cut s : Forall (fun x => 0 <= x < 128) cut -> wtf8 (cut ++ s) -> wtf8 s.
Proof.
  induction 1 as [|c cut Hc _ IH]; cbn [app]; [done|]. intros Hs. apply IH. by apply (wtf8_cut [] c (cut ++ s)) in Hs as [_ ?].
Qed.

Lemma wtf8_ascii_suffix s cut : Forall (fun x => 0 <= x < 128) cut -> wtf8 (s ++ cut) -> wtf8 s.
Proof. destruct 1 as [|c cut Hc _]; [by rewrite app_nil_r|]. intros Hs. by apply wtf8_cut in Hs as [? _]. Qed.

(** An ASCII character between two parts can be dropped. *)
Lemma wtf8_drop_ascii a c b : 0 <= c < 128 -> wtf8 (a ++ c :: b) -> wtf8 (a ++ b).
Proof. intros Hc Hs. apply wtf8_cut in Hs as [Ha Hb]; [|done]. by apply wtf8_app. Qed.

(** Trimming ASCII characters, on either side *)
Lemma wtf8_trim s characters mode : Forall (fun x => 0 <= x < 128) characters -> wtf8 s -> wtf8 (trim s characters mode).
Proof.
  intros Hch Hs. assert (Hin : forall x, contains_char characters x = true -> 0 <= x < 128).
  { intros x Hx. apply contains_char_In in Hx. rewrite Forall_forall in Hch. apply Hch. by apply list_elem_of_In. }
  assert (Hleft : forall t, wtf8 t -> wtf8 (trim_left t characters)).
  { intros t Ht. destruct (trim_left_split t characters) as (cut & E & Hcut). rewrite E in Ht.
    eapply wtf8_ascii_prefix; [|exact Ht]. eapply Forall_impl; [exact Hcut|]. intros x Hx. by apply Hin. }
  assert (Hright : forall t, wtf8 t -> wtf8 (trim_right t characters)).
  { intros t Ht. unfold trim_right. destruct (trim_left_split (rev t) characters) as (cut & E & Hcut).
    apply (f_equal (@rev Z)) in E. rewrite rev_involutive, rev_app_distr in E. rewrite E in Ht.
    eapply wtf8_ascii_suffix; [|exact Ht]. apply Forall_rev. eapply Forall_impl; [exact Hcut|]. intros x Hx. by apply Hin. }
  unfold trim. destruct mode; auto.
Qed.

(** ** [Utf8View::trim] *)

(** [Utf8View::contains(u32)] *)
Definition utf8_contains (view : bytes) (needle : Z) : bool :=
  if needle <=? 0x7f then existsb (fun b => b =? needle) view else existsb (fun code_point => code_point =? needle) (code_points view).

(** The loop from the left: the bytes to skip *)
Fixpoint utf8_trim_left (fuel : nat) (characters it : bytes) (substring_start substring_length : nat) : option (nat * nat) :=
  match fuel, it with
  | S fuel, b0 :: rest =>
      if (substring_length =? 0)%nat then None
      else if negb (utf8_contains characters (deref_at b0 rest)) then Some (substring_start, substring_length)
      else utf8_trim_left fuel characters (incr_at b0 rest)
             (substring_start + length_at b0 rest) (substring_length - length_at b0 rest)
  | _, _ => Some (substring_start, substring_length)
  end.

(** The loop from the right: [seen_whitespace_length] *)
Fixpoint utf8_seen_whitespace (fuel : nat) (characters it : bytes) (seen : nat) : nat :=
  match fuel, it with
  | S fuel, b0 :: rest =>
      utf8_seen_whitespace fuel characters (incr_at b0 rest)
        (if utf8_contains characters (deref_at b0 rest) then seen + length_at b0 rest else 0)
  | _, _ => seen
  end.

Definition utf8_trim (view characters : bytes) (mode : TrimMode) : res bytes :=
  let left :=
    match mode with
    | TrimRight => Some (0%nat, length view)
    | _ => utf8_trim_left (length view) characters view 0 (length view)
    end in
  match left with
  | None => Ret []
  | Some (substring_start, substring_length) =>
      match mode with
      | TrimLeft => substring_view view substring_start substring_length
      | _ =>
          let seen_whitespace_length := utf8_seen_whitespace (length view) characters view 0 in
          if (substring_length <=? seen_whitespace_length)%nat then Ret []
          else substring_view view substring_start (substring_length - seen_whitespace_length)
      end
  end.

Lemma trim_right_split s characters :
  exists cut, s = trim_right s characters ++ cut /\ Forall (fun x => contains_char characters x = true) cut.
Proof.
  unfold trim_right. destruct (trim_left_split (rev s) characters) as (cut & E & Hcut).
  exists (rev cut). split; [|by apply Forall_rev]. rewrite <- rev_app_distr, <- E. by rewrite rev_involutive.
Qed.

Lemma trim_right_snoc s characters x :
  trim_right (s ++ [x]) characters = if contains_char characters x then trim_right s characters else s ++ [x].
Proof.
  unfold trim_right. rewrite rev_unit. cbn [trim_left]. destruct (contains_char characters x); [done|]. cbn [rev]. by rewrite rev_involutive.
Qed.

(** The bytes that [utf8_seen_whitespace] counts are those [trim_right] drops. *)
Lemma seen_whitespace_spec cps characters : forall fuel front,
  Forall (fun x => 0 <= x < 128) characters -> Forall (fun cp => 0 <= cp <= 0x10FFFF) cps ->
  (length (utf8_encode cps) <= fuel)%nat ->
  (utf8_seen_whitespace fuel characters (utf8_encode cps) (length front - length (trim_right front characters))
   + length (trim_right (front ++ utf8_encode cps) characters))%nat = length (front ++ utf8_encode cps).
Proof.
  intros fuel front Hch Hcps. revert fuel front. induction Hcps as [|cp cps Hcp Hcps IH]; intros fuel front Hf.
  { change (utf8_encode []) with (@nil Z). rewrite app_nil_r.
    destruct (trim_right_split front characters) as (cut & E & _). apply (f_equal length) in E. rewrite length_app in E.
    destruct fuel; cbn [utf8_seen_whitespace]; lia. }
  rewrite utf8_encode_cons in * by done. destruct (decode_encoded cp (utf8_encode cps) Hcp) as (b0 & tl & E & Hd & Hi & Hl).
  rewrite length_app in Hf. pose proof (encoded_nonempty cp) as Hne.
  assert (0 < length (encoded cp))%nat by (destruct (encoded cp); [done|cbn; lia]).
  destruct fuel as [|fuel]; [lia|]. rewrite E at 1. cbn [utf8_seen_whitespace]. rewrite Hd, Hi, Hl, app_assoc.
  rewrite <- (IH fuel (front ++ encoded cp)) by lia. f_equal. f_equal.
  destruct (trim_right_split front characters) as (cut & Ef & _). apply (f_equal length) in Ef. rewrite length_app in Ef.
  destruct (encoded_ascii_or_high cp Hcp) as [[Hlow Henc]|[_ Hhigh]].
  - rewrite Henc, trim_right_snoc. unfold utf8_contains. rewrite (proj2 (Z.leb_le _ _)) by lia. fold (contains_char characters cp).
    rewrite !length_app. destruct (contains_char characters cp); rewrite ?length_app; cbn [length]; lia.
  - assert (Hlast : exists l x, encoded cp = l ++ [x]) by (by destruct (exists_last Hne) as (l & x & ->); exists l, x).
    destruct Hlast as (l & x & Ee). rewrite Ee in *. apply Forall_app in Hhigh as [_ Hx]. apply Forall_cons in Hx as [Hx _].
    assert (Hno : forall y, 128 <= y -> existsb (fun b => b =? y) characters = false).
    { intros y Hy. apply existsb_false_forall. eapply Forall_impl; [exact Hch|]. intros z Hz. cbn in *. lia. }
    rewrite app_assoc, trim_right_snoc. unfold contains_char. rewrite Hno by done.
    unfold utf8_contains. destruct (cp <=? 127) eqn:Ecp.
    + unfold encoded in Ee. rewrite Ecp in Ee. destruct l as [|? [|]]; simplify_eq/=. lia.
    + rewrite code_points_ascii by done. rewrite Hno by lia. lia.
Qed.

Lemma utf8_trim_right s characters :
  Forall (fun x => 0 <= x < 128) characters -> wtf8 s -> utf8_trim s characters TrimRight = Ret (trim s characters TrimRight).
Proof.
  intros Hch (cps & Hcps & ->). pose proof (seen_whitespace_spec cps characters (length (utf8_encode cps)) [] Hch Hcps ltac:(lia)) as Hs.
  cbn [app length] in Hs. rewrite Nat.sub_0_l in Hs. unfold utf8_trim, trim.
  destruct (trim_right_split (utf8_encode cps) characters) as (cut & E & _). set (t := trim_right _ _) in *.
  destruct (_ <=? _)%nat eqn:Ele.
  - apply Nat.leb_le in Ele. assert (length t = 0%nat) by lia. by destruct t.
  - apply Nat.leb_gt in Ele. unfold substring_view. rewrite (proj2 (Nat.leb_le _ _)) by lia. cbn [verify drop]. f_equal.
    replace (length (utf8_encode cps) - _)%nat with (length t) by lia. rewrite E. apply take_app_length.
Qed.
