(* ===== verification/CodeUnits.v ===== *)
(** * Ordering strings by code units

    [AK/Utf16StringData.cpp] and [AK/Utf16String.cpp] convert UTF-8 to the code
    units of a [Utf16String], [AK/Utf16View.h] compares two of these, and
    [LibWeb/Infra/Strings.cpp] compares two UTF-8 strings in the same order,
    without a conversion when both are ASCII.  A [Utf16String] is the list of
    its code units; whether they are stored in one byte or in two is not
    visible to a comparison.  A string in memory is shorter than 2^63 bytes, so
    VERIFY_UTF16_LENGTH holds. *)

From S2P Require Import Prelude CharacterTypes Utf8 Utf16 MemMem Strings.

(** ** [simdutf] *)

(** [convert_utf8_to_utf16] returns the number of code units it says it wrote,
    and those units. *)
Class SimdutfFromUtf8 := {
  utf16_length_from_utf8 : bytes -> nat;
  convert_utf8_to_utf16 : bytes -> nat * list Z
}.

Class SimdutfFromUtf8Laws `{SimdutfFromUtf8} : Prop := {
  utf16_length_from_utf8_spec cps : scalars cps ->
    utf16_length_from_utf8 (utf8_encode cps) = length (utf16_encode cps);
  convert_utf8_to_utf16_spec cps : scalars cps ->
    convert_utf8_to_utf16 (utf8_encode cps) = (length (utf16_encode cps), utf16_encode cps)
}.

(** ** Code units: [AK/UnicodeUtils.h] *)

Definition HIGH_SURROGATE_MIN : Z := 0xd800.
Definition LOW_SURROGATE_MIN : Z := 0xdc00.
Definition FIRST_SUPPLEMENTARY_PLANE_CODE_POINT : Z := 0x10000.

Definition code_unit_length_for_code_point (code_point : Z) : nat :=
  if code_point <? FIRST_SUPPLEMENTARY_PLANE_CODE_POINT then 1 else 2.

(** [code_point_to_utf16], with the code units its callback receives *)
Definition code_point_to_utf16 (code_point : Z) : res (list Z) :=
  if code_point <? FIRST_SUPPLEMENTARY_PLANE_CODE_POINT then Ret [u16 code_point]
  else if code_point <=? 0x10ffff then
    let code_point := code_point - FIRST_SUPPLEMENTARY_PLANE_CODE_POINT in
    Ret [u16 (Z.lor HIGH_SURROGATE_MIN (Z.shiftr code_point 10)); u16 (Z.lor LOW_SURROGATE_MIN (Z.land code_point 0x3ff))]
  else Crash.

(** The second loop of [create_from_code_point_iterable] *)
Fixpoint write_code_units (view : list Z) : res (list Z) :=
  match view with
  | [] => Ret []
  | code_point :: view =>
      let* code_units := code_point_to_utf16 code_point in
      let* rest := write_code_units view in
      Ret (code_units ++ rest)
  end.

(** [Utf16StringData::create_from_code_point_iterable]: the units must fill the
    buffer whose length the first loop computed, as a longer text is written
    past its end and a shorter one leaves it partly uninitialized. *)
Definition create_from_code_point_iterable (view : list Z) : res (list Z) :=
  let code_unit_length := list_sum (code_unit_length_for_code_point <$> view) in
  let* code_units := write_code_units view in
  verify (length code_units =? code_unit_length)%nat (Ret code_units).

(** ** Conversions *)

Section conversions.
Context `{Simdutf} `{SimdutfFromUtf8}.

(** [Utf16StringData::from_utf8] *)
Definition Utf16StringData_from_utf8 (utf8_string : bytes) (allow_ascii_storage : bool) : res (list Z) :=
  if allow_ascii_storage && sv_is_ascii utf8_string then Ret utf8_string
  else if validate Surrogates_No utf8_string then
    let code_unit_length := utf16_length_from_utf8 utf8_string in
    let '(result, code_units) := convert_utf8_to_utf16 utf8_string in
    verify (result =? code_unit_length)%nat (Ret code_units)
  else create_from_code_point_iterable (code_points utf8_string).

Definition MAX_SHORT_STRING_BYTE_COUNT : nat := 7.

Definition from_utf8_without_validation (utf8_string : bytes) : res (list Z) :=
  if (length utf8_string <=? MAX_SHORT_STRING_BYTE_COUNT)%nat && sv_is_ascii utf8_string then Ret utf8_string
  else Utf16StringData_from_utf8 utf8_string true.

(** [Utf16String::from_utf8(StringView)] *)
Definition Utf16String_from_utf8 (utf8_string : bytes) : res (list Z) :=
  verify (validate Surrogates_Yes utf8_string) (from_utf8_without_validation utf8_string).

End conversions.

(** ** Comparisons *)

(** The loop of [Utf16View::is_code_unit_less_than], with [n] positions left. *)
Fixpoint code_unit_less_from (n position : nat) (a b : list Z) : res bool :=
  match n with
  | O => Ret (length a <? length b)%nat
  | S n =>
      let* this_code_unit := at_index a position in
      let* other_code_unit := at_index b position in
      if negb (this_code_unit =? other_code_unit) then Ret (this_code_unit <? other_code_unit)
      else code_unit_less_from n (S position) a b
  end.

Definition is_code_unit_less_than (a b : list Z) : res bool :=
  code_unit_less_from (Nat.min (length a) (length b)) 0 a b.

(** [Infra::code_unit_less_than] *)
Definition code_unit_less_than `{Simdutf} `{SimdutfFromUtf8} (a b : bytes) : res bool :=
  if sv_is_ascii a && sv_is_ascii b then Ret (sv_compare a b <? 0)
  else
    let* a_utf16 := Utf16String_from_utf8 a in
    let* b_utf16 := Utf16String_from_utf8 b in
    is_code_unit_less_than a_utf16 b_utf16.

(** ** Facts: the order *)

(** The lexicographic order. *)
Fixpoint lex_lt (a b : list Z) : bool :=
  match a, b with
  | _, [] => false
  | [], _ => true
  | x :: a, y :: b => if x =? y then lex_lt a b else x <? y
  end.

Lemma lex_lt_asym a b : lex_lt a b = true -> lex_lt b a = false.
Proof.
  revert b. induction a as [|x a IH]; intros [|y b]; cbn [lex_lt]; try done. rewrite (Z.eqb_sym y x).
  destruct (Z.eqb_spec x y); [apply IH|lia].
Qed.

Lemma lex_lt_trans a b d : lex_lt b a = false -> lex_lt d b = false -> lex_lt d a = false.
Proof.
  revert b d. induction a as [|x a IH]; intros [|y b] [|z d]; cbn [lex_lt]; try done.
  destruct (Z.eqb_spec y x), (Z.eqb_spec z y), (Z.eqb_spec z x); subst; try lia. apply IH.
Qed.

Lemma lex_lt_total a b : lex_lt a b = false -> lex_lt b a = false -> a = b.
Proof.
  revert b. induction a as [|x a IH]; intros [|y b]; cbn [lex_lt]; try done. rewrite (Z.eqb_sym y x).
  destruct (Z.eqb_spec x y) as [->|]; [|lia]. intros H1 H2. f_equal. by apply IH.
Qed.

Lemma memcmp_lex a b :
  let rlen := Nat.min (length a) (length b) in
  let c := memcmp (take rlen a) (take rlen b) in
  lex_lt a b = ((c <? 0) || (c =? 0) && (length a <? length b)%nat).
Proof.
  revert b. induction a as [|x a IH]; intros [|y b]; cbn [lex_lt length Nat.min take memcmp]; try done.
  destruct (Z.eqb_spec x y); [apply IH|]. destruct (Z.ltb_spec x y); [done|]. done.
Qed.

Lemma sv_compare_lex a b : (sv_compare a b <? 0) = lex_lt a b.
Proof.
  unfold sv_compare. rewrite memcmp_lex. cbn zeta. set (c := memcmp _ _).
  destruct ((length a =? 0)%nat && (length b =? 0)%nat) eqn:E.
  { destruct a, b; try done. }
  destruct (Z.eqb_spec c 0) as [->|]; [|by rewrite orb_false_r]. cbn [andb].
  destruct (length a <? length b)%nat; [done|]. by destruct (length a =? length b)%nat.
Qed.

Lemma code_unit_less_from_lex front a b :
  code_unit_less_from (Nat.min (length a) (length b)) (length front) (front ++ a) (front ++ b) = Ret (lex_lt a b).
Proof.
  revert front b. induction a as [|x a IH]; intros front [|y b]; cbn [length Nat.min code_unit_less_from lex_lt].
  - by rewrite Nat.ltb_irrefl.
  - rewrite !length_app. cbn [length]. by rewrite (proj2 (Nat.ltb_lt _ _)) by lia.
  - rewrite !length_app. cbn [length]. by rewrite (proj2 (Nat.ltb_ge _ _)) by lia.
  - unfold at_index. rewrite !list_lookup_middle by done. cbn [unwrap res_bind].
    destruct (Z.eqb_spec x y) as [->|]; [|done]. cbn [negb].
    specialize (IH (front ++ [y]) b). rewrite <- !app_assoc, length_app, Nat.add_1_r in IH. exact IH.
Qed.

Lemma is_code_unit_less_than_lex a b : is_code_unit_less_than a b = Ret (lex_lt a b).
Proof. exact (code_unit_less_from_lex [] a b). Qed.

(** ** Facts: the conversions *)

Section facts.
Context `{SimdutfLaws} `{SimdutfFromUtf8Laws}.

(** An ASCII string is its own code units. *)
Lemma utf16_encode_ascii s : all_bytes s -> sv_is_ascii s = true -> utf16_encode (code_points s) = s.
Proof.
  intros Hb Hs. assert (Ha : Forall (fun x => 0 <= x < 128) s).
  { unfold sv_is_ascii in Hs. destruct s as [|b s]; [constructor|]. cbn [sv_is_empty] in Hs.
    rewrite validate_ascii_spec in Hs. apply forallb_Forall_iff in Hs.
    eapply Forall_impl; [exact (proj2 (Forall_and _ _) (conj Hb Hs))|].
    intros x [Hx Hlt]. unfold is_ascii in Hlt. ascii_lia. }
  rewrite code_points_ascii by done. clear Hs Hb. induction Ha as [|x s Hx Hs IH]; [done|].
  rewrite utf16_encode_cons, IH. unfold utf16_units. by rewrite (proj2 (Z.ltb_lt x _)) by lia.
Qed.

Lemma code_point_to_utf16_units cp : 0 <= cp <= 0x10FFFF -> code_point_to_utf16 cp = Ret (utf16_units cp).
Proof.
  intros Hcp. unfold code_point_to_utf16, utf16_units, FIRST_SUPPLEMENTARY_PLANE_CODE_POINT.
  destruct (Z.ltb_spec cp 0x10000); [by rewrite u16_id by lia|]. rewrite (proj2 (Z.leb_le cp _)) by lia.
  set (o := cp - 0x10000). assert (0 <= o < 2 ^ 20) by (unfold o; lia).
  change 0x3ff with (2 ^ 10 - 1). rewrite land_ones_mod, Z.shiftr_div_pow2 by lia.
  assert (0 <= o / 2 ^ 10 < 2 ^ 10 /\ 0 <= o mod 2 ^ 10 < 2 ^ 10) as [Hq Hr].
  { Z.to_euclidean_division_equations. lia. }
  unfold HIGH_SURROGATE_MIN, LOW_SURROGATE_MIN.
  change 0xd800 with (Z.shiftl 54 10). change 0xdc00 with (Z.shiftl 55 10). rewrite !lor_shiftl_add by lia.
  rewrite !u16_id by lia. done.
Qed.

Lemma write_code_units_encode cps :
  Forall (fun cp => 0 <= cp <= 0x10FFFF) cps ->
  write_code_units cps = Ret (utf16_encode cps)
  /\ length (utf16_encode cps) = list_sum (code_unit_length_for_code_point <$> cps).
Proof.
  induction 1 as [|cp cps Hcp _ [IH1 IH2]]; [done|]. cbn [write_code_units]. rewrite utf16_encode_cons.
  rewrite code_point_to_utf16_units, IH1 by done. split; [done|]. rewrite length_app, fmap_cons. cbn [list_sum foldr].
  rewrite IH2. f_equal. unfold utf16_units, code_unit_length_for_code_point, FIRST_SUPPLEMENTARY_PLANE_CODE_POINT.
  by destruct (cp <? 0x10000).
Qed.

Lemma from_utf8_data_units s allow :
  all_bytes s -> Utf16StringData_from_utf8 s allow = Ret (utf16_encode (code_points s)).
Proof.
  intros Hs. unfold Utf16StringData_from_utf8. destruct (allow && sv_is_ascii s) eqn:Ea.
  { apply andb_prop in Ea as [_ Ea]. by rewrite utf16_encode_ascii. }
  destruct (validate Surrogates_No s) eqn:Ev.
  - apply validate_no_surrogates in Ev as (cps & Hcps & ->); [|done].
    rewrite utf16_length_from_utf8_spec, convert_utf8_to_utf16_spec by done. unfold verify. rewrite Nat.eqb_refl.
    pose proof (code_points_utf8_encode cps [] (scalars_range _ Hcps)) as Hd. rewrite app_nil_r in Hd.
    rewrite Hd. change (code_points []) with (@nil Z). by rewrite app_nil_r.
  - destruct (write_code_units_encode (code_points s) (code_points_range s Hs)) as [Hw Hl].
    unfold create_from_code_point_iterable. rewrite Hw. cbn [res_bind]. rewrite Hl. unfold verify.
    by rewrite Nat.eqb_refl.
Qed.

Lemma from_utf8_units s :
  all_bytes s -> from_utf8_without_validation s = Ret (utf16_encode (code_points s)).
Proof.
  intros Hs. unfold from_utf8_without_validation. destruct (_ && _) eqn:E; [|by apply from_utf8_data_units].
  apply andb_prop in E as [_ E]. by rewrite utf16_encode_ascii.
Qed.

(** The code units a string is ordered by. *)
Definition sort_key (s : bytes) : list Z := utf16_encode (code_points s).

Definition ak_string (s : bytes) : Prop := all_bytes s /\ validate Surrogates_Yes s = true.

Lemma code_unit_less_than_keys a b :
  ak_string a -> ak_string b -> code_unit_less_than a b = Ret (lex_lt (sort_key a) (sort_key b)).
Proof.
  intros [Ha Hva] [Hb Hvb]. unfold code_unit_less_than, sort_key. destruct (_ && _) eqn:E.
  - apply andb_prop in E as [Ea Eb]. by rewrite sv_compare_lex, !utf16_encode_ascii.
  - unfold Utf16String_from_utf8, verify. rewrite Hva, Hvb, !from_utf8_units by done. cbn [res_bind].
    apply is_code_unit_less_than_lex.
Qed.

Lemma well_formed_ak_string s : well_formed_utf8 s -> ak_string s.
Proof. intros Hs. split; [by apply well_formed_bytes|by apply validate_well_formed]. Qed.

End facts.

(** ** A reference implementation of [simdutf]'s conversion *)

#[export] Instance reference_simdutf_from_utf8 : SimdutfFromUtf8 := {
  utf16_length_from_utf8 s := length (utf16_encode (code_points s));
  convert_utf8_to_utf16 s := (length (utf16_encode (code_points s)), utf16_encode (code_points s))
}.

#[export] Instance reference_simdutf_from_utf8_laws : SimdutfFromUtf8Laws.
Proof.
  assert (Hd : forall cps, scalars cps -> code_points (utf8_encode cps) = cps).
  { intros cps Hcps. pose proof (code_points_utf8_encode cps [] (scalars_range _ Hcps)) as Hd.
    rewrite app_nil_r in Hd. rewrite Hd. apply app_nil_r. }
  split; intros cps Hcps; simpl; by rewrite Hd.
Qed.

(** ** Properties *)

(** [code_unit_less_than] orders strings by the UTF-16 code units of their
    code points, whichever path it takes: comparing the bytes of two ASCII
    strings, converting with simdutf, or, for a string with a lonely
    surrogate, writing the code units itself. No check fails on the way. *)
Theorem code_unit_less_than_correct `{SimdutfLaws} `{SimdutfFromUtf8Laws} (a b : bytes) :
  ak_string a -> ak_string b ->
  code_unit_less_than a b = Ret (lex_lt (utf16_encode (code_points a)) (utf16_encode (code_points b))).
Proof. apply code_unit_less_than_keys. Qed.

(** U+1F98A is after U+FF5E as a code point, and before it as code units. *)
Lemma code_unit_less_than_correct_witness :
  code_unit_less_than [0xF0; 0x9F; 0xA6; 0x8A] [0xEF; 0xBD; 0x9E] = Ret true.
Proof.
  rewrite code_unit_less_than_correct; [reflexivity| |]; apply well_formed_ak_string;
    [exists [0x1F98A]|exists [0xFF5E]]; (split; [repeat constructor; lia|reflexivity]).
Defined.
