(* ===== verification/Lexer.v ===== *)
(** * The generic lexer: [AK/GenericLexer.h]

    The state is the input and the index of the next code unit; a unit is a
    byte for [GenericLexer] and a UTF-16 code unit for [Utf16GenericLexer].
    Operations that move the index return the new state; those with a [VERIFY]
    return [res].  [fast_float] is the parameter of [Strings]. *)

From S2P Require Import Prelude CharacterTypes Utf8 MemMem Strings Tokens CodeUnits.
Local Open Scope Z_scope.

Record GenericLexer := { m_input : bytes; m_index : nat }.

Definition lexer_for (input : bytes) : GenericLexer := {| m_input := input; m_index := 0 |}.

Definition with_index (lexer : GenericLexer) (index : nat) : GenericLexer :=
  {| m_input := m_input lexer; m_index := index |}.

Definition is_any_of (values : bytes) (c : Z) : bool := contains_char values c.
Definition is_quote (c : Z) : bool := is_any_of [39; 34] c.

(** ** Looking *)

Definition tell (lexer : GenericLexer) : nat := m_index lexer.
Definition tell_remaining (lexer : GenericLexer) : nat := (length (m_input lexer) - m_index lexer)%nat.
Definition remaining (lexer : GenericLexer) : res bytes := substring_view_from (m_input lexer) (m_index lexer).
Definition is_eof (lexer : GenericLexer) : bool := (length (m_input lexer) <=? m_index lexer)%nat.

(** [peek(offset)]: NUL past the end *)
Definition peek_at (lexer : GenericLexer) (offset : nat) : Z :=
  if (m_index lexer + offset <? length (m_input lexer))%nat
  then default 0 (m_input lexer !! (m_index lexer + offset)%nat) else 0.
Definition peek (lexer : GenericLexer) : Z := peek_at lexer 0.

Definition peek_string (lexer : GenericLexer) (len offset : nat) : res (option bytes) :=
  if (length (m_input lexer) <? m_index lexer + offset + len)%nat then Ret None
  else let* view := substring_view (m_input lexer) (m_index lexer + offset) len in Ret (Some view).

Definition next_is (lexer : GenericLexer) (expected : Z) : bool := peek lexer =? expected.
Definition next_is_view (lexer : GenericLexer) (expected : bytes) : res bool :=
  let* view := peek_string lexer (length expected) 0 in
  Ret (match view with Some view => sv_eqb view expected | None => false end).

(** ** Moving *)

(** [retreat(count)] *)
Definition retreat_by (lexer : GenericLexer) (count : nat) : res GenericLexer :=
  verify (count <=? m_index lexer)%nat (Ret (with_index lexer (m_index lexer - count))).

(** [ignore(count)] *)
Definition ignore (lexer : GenericLexer) (count : nat) : GenericLexer :=
  let count := Nat.min count (tell_remaining lexer) in
  with_index lexer (m_index lexer + count).

Definition consume (lexer : GenericLexer) : res (Z * GenericLexer) :=
  verify (negb (is_eof lexer))
    (let* unit := at_index (m_input lexer) (m_index lexer) in
     Ret (unit, with_index lexer (S (m_index lexer)))).

Definition consume_specific (lexer : GenericLexer) (next : Z) : bool * GenericLexer :=
  if negb (next_is lexer next) then (false, lexer) else (true, ignore lexer 1).

Definition consume_specific_view (lexer : GenericLexer) (next : bytes) : res (bool * GenericLexer) :=
  let* found := next_is_view lexer next in
  if negb found then Ret (false, lexer) else Ret (true, ignore lexer (length next)).

(** [consume(count)] *)
Definition consume_count (lexer : GenericLexer) (count : nat) : res (bytes * GenericLexer) :=
  let start := m_index lexer in
  let len := Nat.min count (tell_remaining lexer) in
  let* view := substring_view (m_input lexer) start len in
  Ret (view, with_index lexer (start + len)).

Definition consume_all (lexer : GenericLexer) : res (bytes * GenericLexer) :=
  let* rest := substring_view (m_input lexer) (m_index lexer) (tell_remaining lexer) in
  Ret (rest, with_index lexer (length (m_input lexer))).

(** The scanning loops, with at most [n] units to go *)
Fixpoint skip_while (n : nat) (pred : Z -> bool) (lexer : GenericLexer) : GenericLexer :=
  match n with
  | O => lexer
  | S n =>
      if negb (is_eof lexer) && pred (peek lexer)
      then skip_while n pred (with_index lexer (S (m_index lexer))) else lexer
  end.

Definition ignore_while (lexer : GenericLexer) (pred : Z -> bool) : GenericLexer :=
  skip_while (tell_remaining lexer) pred lexer.

Definition ignore_until_pred (lexer : GenericLexer) (pred : Z -> bool) : GenericLexer :=
  ignore_while lexer (fun c => negb (pred c)).

Definition ignore_until (lexer : GenericLexer) (stop : Z) : GenericLexer :=
  ignore_while lexer (fun c => negb (c =? stop)).

Definition consume_while (lexer : GenericLexer) (pred : Z -> bool) : res (bytes * GenericLexer) :=
  let start := m_index lexer in
  let lexer := ignore_while lexer pred in
  let* view := substring_view (m_input lexer) start (m_index lexer - start) in
  Ret (view, lexer).

Definition consume_until_pred (lexer : GenericLexer) (pred : Z -> bool) : res (bytes * GenericLexer) :=
  consume_while lexer (fun c => negb (pred c)).

Definition consume_until (lexer : GenericLexer) (stop : Z) : res (bytes * GenericLexer) :=
  consume_while lexer (fun c => negb (c =? stop)).

Definition consume_specific_with_predicate (lexer : GenericLexer) (pred : Z -> bool) : bool * GenericLexer :=
  if is_eof lexer || negb (pred (peek lexer)) then (false, lexer) else (true, ignore lexer 1).

Definition consume_line (lexer : GenericLexer) : res (bytes * GenericLexer) :=
  let* (line, lexer) := consume_while lexer (fun c => negb (c =? 13) && negb (c =? 10)) in
  let (_, lexer) := consume_specific lexer 13 in
  let (_, lexer) := consume_specific lexer 10 in
  Ret (line, lexer).

(** [consume_until(ViewType stop)] *)
Fixpoint skip_until_view (n : nat) (stop : bytes) (lexer : GenericLexer) : res GenericLexer :=
  match n with
  | O => Ret lexer
  | S n =>
      if is_eof lexer then Ret lexer
      else
        let* found := next_is_view lexer stop in
        if found : bool then Ret lexer else skip_until_view n stop (with_index lexer (S (m_index lexer)))
  end.

Definition consume_until_view (lexer : GenericLexer) (stop : bytes) : res (bytes * GenericLexer) :=
  let start := m_index lexer in
  let* lexer := skip_until_view (tell_remaining lexer) stop lexer in
  let* view := substring_view (m_input lexer) start (m_index lexer - start) in
  Ret (view, lexer).

(** ** Escapes and quotes *)

Fixpoint lookup_escape (escape_map : bytes) (c : Z) : Z :=
  match escape_map with
  | from :: to :: escape_map => if c =? from then to else lookup_escape escape_map c
  | _ => c
  end.

Definition default_escape_map : bytes := [ch "n"; 10; ch "r"; 13; ch "t"; 9; ch "b"; 8; ch "f"; 12].

Definition consume_escaped_character (lexer : GenericLexer) (escape_char : Z) (escape_map : bytes)
  : res (Z * GenericLexer) :=
  let (escaped, lexer) := consume_specific lexer escape_char in
  if negb escaped then consume lexer
  else
    let* (c, lexer) := consume lexer in
    Ret (lookup_escape escape_map c, lexer).

(** The loop of [consume_quoted_string] *)
Fixpoint skip_quoted (n : nat) (escape_char quote_char : Z) (lexer : GenericLexer) : GenericLexer :=
  match n with
  | O => lexer
  | S n =>
      if is_eof lexer then lexer
      else if next_is lexer escape_char
      then skip_quoted n escape_char quote_char (with_index lexer (S (S (m_index lexer))))
      else if next_is lexer quote_char then lexer
      else skip_quoted n escape_char quote_char (with_index lexer (S (m_index lexer)))
  end.

Definition consume_quoted_string (lexer : GenericLexer) (escape_char : Z) : res (bytes * GenericLexer) :=
  if negb (is_quote (peek lexer)) then Ret ([], lexer)
  else
    let* (quote_char, lexer) := consume lexer in
    let start := m_index lexer in
    let lexer := skip_quoted (tell_remaining lexer) escape_char quote_char lexer in
    let len := (m_index lexer - start)%nat in
    if negb (peek lexer =? quote_char) then Ret ([], with_index lexer (start - 1))
    else
      let lexer := ignore lexer 1 in
      let* view := substring_view (m_input lexer) start len in
      Ret (view, lexer).

(** ** Numbers *)

Inductive integer_error := EINVAL | ERANGE.

(** [consume_decimal_integer<T>] for a [T] of [bits] bits; an error puts the
    index back *)
Definition consume_decimal_integer `{FastFloat} (is_signed : bool) (bits : Z) (lexer : GenericLexer)
  : res ((integer_error + Z) * GenericLexer) :=
  let rollback := m_index lexer in
  let max := if is_signed then 2 ^ (bits - 1) - 1 else 2 ^ bits - 1 in
  let* (has_minus_sign, lexer) :=
    (if next_is lexer (ch "+") || next_is lexer (ch "-") then
       let* (sign, lexer) := consume lexer in Ret (sign =? ch "-", lexer)
     else Ret (false, lexer)) in
  let* (number_view, lexer) := consume_while lexer is_ascii_digit in
  if sv_is_empty number_view then Ret (inl EINVAL, with_index lexer rollback)
  else
    match parse_number (2 ^ bits - 1) number_view 10 with
    | None => Ret (inl ERANGE, with_index lexer rollback)
    | Some number =>
        if negb has_minus_sign then
          if max <? number then Ret (inl ERANGE, with_index lexer rollback) else Ret (inr number, lexer)
        else if negb is_signed then
          if negb (number =? 0) then Ret (inl ERANGE, with_index lexer rollback) else Ret (inr 0, lexer)
        else if max + 1 <? number then Ret (inl ERANGE, with_index lexer rollback)
        else Ret (inr (- number), lexer)
    end.

(** ** Unicode escapes *)

Inductive UnicodeEscapeError := MalformedUnicodeEscape | UnicodeEscapeOverflow.

(** The loop of [decode_code_point], with at most [n] digits to go *)
Fixpoint decode_code_point_loop (n : nat) (code_point : Z) (lexer : GenericLexer)
  : res ((UnicodeEscapeError + Z) * GenericLexer) :=
  match n with
  | O => Crash
  | S n =>
      if negb (is_ascii_hex_digit (peek lexer)) then Ret (inl MalformedUnicodeEscape, lexer)
      else
        let* (unit, lexer) := consume lexer in
        let* digit := parse_ascii_hex_digit unit in
        let new_code_point := Z.lor (u32 (Z.shiftl code_point 4)) digit in
        if new_code_point <? code_point then Ret (inl UnicodeEscapeOverflow, lexer)
        else
          let (closed, lexer) := consume_specific lexer (ch "}") in
          if closed : bool then
            if is_unicode new_code_point then Ret (inr new_code_point, lexer)
            else Ret (inl UnicodeEscapeOverflow, lexer)
          else decode_code_point_loop n new_code_point lexer
  end.

Definition decode_code_point (lexer : GenericLexer) : res ((UnicodeEscapeError + Z) * GenericLexer) :=
  let (starts_with_open_bracket, lexer) := consume_specific lexer (ch "{") in
  verify starts_with_open_bracket (decode_code_point_loop (S (tell_remaining lexer)) 0 lexer).

(** The lambda [decode_one_surrogate]: [n] digits to go *)
Fixpoint decode_one_surrogate (n : nat) (surrogate : Z) (lexer : GenericLexer) : res (option Z * GenericLexer) :=
  match n with
  | O => Ret (Some surrogate, lexer)
  | S n =>
      if negb (is_ascii_hex_digit (peek lexer)) then Ret (None, lexer)
      else
        let* (unit, lexer) := consume lexer in
        let* digit := parse_ascii_hex_digit unit in
        decode_one_surrogate n (u16 (Z.lor (Z.shiftl surrogate 4) digit)) lexer
  end.

Definition is_utf16_high_surrogate (code_unit : Z) : bool := (0xd800 <=? code_unit) && (code_unit <=? 0xdbff).
Definition is_utf16_low_surrogate (code_unit : Z) : bool := (0xdc00 <=? code_unit) && (code_unit <=? 0xdfff).

Definition decode_utf16_surrogate_pair (high_surrogate low_surrogate : Z) : res Z :=
  verify (is_utf16_high_surrogate high_surrogate) (verify (is_utf16_low_surrogate low_surrogate)
    (Ret (Z.shiftl (high_surrogate - HIGH_SURROGATE_MIN) 10 + (low_surrogate - LOW_SURROGATE_MIN)
          + FIRST_SUPPLEMENTARY_PLANE_CODE_POINT))).

Definition decode_single_or_paired_surrogate (combine_surrogate_pairs : bool) (lexer : GenericLexer)
  : res ((UnicodeEscapeError + Z) * GenericLexer) :=
  let* (high_surrogate, lexer) := decode_one_surrogate 4 0 lexer in
  match high_surrogate with
  | None => Ret (inl MalformedUnicodeEscape, lexer)
  | Some high_surrogate =>
      if negb (is_utf16_high_surrogate high_surrogate) then Ret (inr high_surrogate, lexer)
      else if negb combine_surrogate_pairs then Ret (inr high_surrogate, lexer)
      else
        let* (escaped, lexer) := consume_specific_view lexer [92; ch "u"] in
        if negb escaped then Ret (inr high_surrogate, lexer)
        else
          let* (low_surrogate, lexer) := decode_one_surrogate 4 0 lexer in
          match low_surrogate with
          | None => Ret (inl MalformedUnicodeEscape, lexer)
          | Some low_surrogate =>
              if is_utf16_low_surrogate low_surrogate then
                let* code_point := decode_utf16_surrogate_pair high_surrogate low_surrogate in
                Ret (inr code_point, lexer)
              else
                let* lexer := retreat_by lexer 6 in
                Ret (inr high_surrogate, lexer)
          end
  end.

Definition consume_escaped_code_point (combine_surrogate_pairs : bool) (lexer : GenericLexer)
  : res ((UnicodeEscapeError + Z) * GenericLexer) :=
  let* (escaped, lexer) := consume_specific_view lexer [92; ch "u"] in
  if negb escaped then Ret (inl MalformedUnicodeEscape, lexer)
  else if next_is lexer (ch "{") then decode_code_point lexer
  else decode_single_or_paired_surrogate combine_surrogate_pairs lexer.

(** ** Facts: a lexer is its consumed and its remaining input *)

Definition at_pos (a b : bytes) : GenericLexer := {| m_input := a ++ b; m_index := length a |}.

Fixpoint take_while (pred : Z -> bool) (b : bytes) : bytes :=
  match b with
  | x :: b => if pred x then x :: take_while pred b else []
  | [] => []
  end.

Fixpoint drop_while (pred : Z -> bool) (b : bytes) : bytes :=
  match b with
  | x :: b' => if pred x then drop_while pred b' else b
  | [] => []
  end.

Lemma take_drop_while pred b : take_while pred b ++ drop_while pred b = b.
Proof. induction b as [|x b IH]; [done|]. cbn. destruct (pred x); [|done]. cbn. by rewrite IH. Qed.

Lemma take_while_forall pred b : Forall (fun x => pred x = true) (take_while pred b).
Proof. induction b as [|x b IH]; [done|]. cbn. destruct (pred x) eqn:E; [|done]. by constructor. Qed.

Lemma drop_while_head pred b : match drop_while pred b with x :: _ => pred x = false | [] => True end.
Proof. induction b as [|x b IH]; [done|]. cbn. by destruct (pred x) eqn:E. Qed.

Lemma drop_while_length pred b : (length (drop_while pred b) <= length b)%nat.
Proof. rewrite <- (take_drop_while pred b) at 2. rewrite length_app. lia. Qed.

(** The scan over [x] stops in front of [b]. *)
Lemma take_while_app pred x b :
  Forall (fun c => pred c = true) x -> match b with c :: _ => pred c = false | [] => True end ->
  take_while pred (x ++ b) = x /\ drop_while pred (x ++ b) = b.
Proof.
  intros Hx Hb. induction Hx as [|c x Hc Hx IH]; cbn [app].
  - destruct b as [|c b]; [done|]. cbn. by rewrite Hb.
  - cbn. rewrite Hc. destruct IH as [-> ->]. done.
Qed.

Lemma at_pos_move a x b : at_pos (a ++ x) b = with_index (at_pos a (x ++ b)) (length a + length x).
Proof. unfold at_pos, with_index. cbn. rewrite length_app, <- app_assoc. done. Qed.

Lemma lexer_for_pos input : lexer_for input = at_pos [] input.
Proof. done. Qed.

Lemma is_eof_pos a b : is_eof (at_pos a b) = sv_is_empty b.
Proof.
  unfold is_eof, at_pos. cbn. rewrite length_app. destruct b; cbn [length sv_is_empty]; [apply Nat.leb_le|apply Nat.leb_gt]; lia.
Qed.

Lemma peek_pos a b : peek (at_pos a b) = match b with x :: _ => x | [] => 0 end.
Proof.
  unfold peek, peek_at, at_pos. cbn [m_input m_index]. rewrite Nat.add_0_r, length_app. destruct b as [|x b]; cbn [length].
  - by rewrite (proj2 (Nat.ltb_ge _ _)) by lia.
  - rewrite (proj2 (Nat.ltb_lt _ _)) by lia. by rewrite list_lookup_middle.
Qed.

Lemma tell_remaining_pos a b : tell_remaining (at_pos a b) = length b.
Proof. unfold tell_remaining, at_pos. cbn. rewrite length_app. lia. Qed.

Lemma consume_pos a x b : consume (at_pos a (x :: b)) = Ret (x, at_pos (a ++ [x]) b).
Proof.
  unfold consume. rewrite is_eof_pos. cbn [sv_is_empty negb verify]. unfold at_index, at_pos. cbn.
  rewrite list_lookup_middle by done. cbn. rewrite length_app, <- app_assoc. cbn. do 3 f_equal. unfold with_index. cbn. f_equal. lia.
Qed.

Lemma ignore_pos a x b : ignore (at_pos a (x ++ b)) (length x) = at_pos (a ++ x) b.
Proof.
  unfold ignore. rewrite tell_remaining_pos, at_pos_move, length_app. unfold with_index, at_pos. cbn. f_equal. lia.
Qed.

Lemma ignore_one_pos a x b : ignore (at_pos a (x :: b)) 1 = at_pos (a ++ [x]) b.
Proof. exact (ignore_pos a [x] b). Qed.

Lemma ignore_one_end a : ignore (at_pos a []) 1 = at_pos a [].
Proof. unfold ignore. rewrite tell_remaining_pos. unfold with_index, at_pos. cbn. f_equal. lia. Qed.

Lemma ignore_while_pos a b pred :
  ignore_while (at_pos a b) pred = at_pos (a ++ take_while pred b) (drop_while pred b).
Proof.
  unfold ignore_while. rewrite tell_remaining_pos. revert a. induction b as [|x b IH]; intros a; cbn [length skip_while].
  - cbn. by rewrite app_nil_r.
  - rewrite is_eof_pos, peek_pos. cbn [sv_is_empty negb andb take_while drop_while]. destruct (pred x).
    + replace (with_index (at_pos a (x :: b)) _) with (at_pos (a ++ [x]) b).
      * rewrite IH, <- app_assoc. done.
      * rewrite (at_pos_move a [x] b). cbn. f_equal. lia.
    + by rewrite app_nil_r.
Qed.

Lemma consume_while_pos a b pred :
  consume_while (at_pos a b) pred = Ret (take_while pred b, at_pos (a ++ take_while pred b) (drop_while pred b)).
Proof.
  unfold consume_while. rewrite ignore_while_pos. unfold substring_view. cbn [m_input m_index at_pos].
  rewrite length_app. replace (length a + _ - length a)%nat with (length (take_while pred b)) by lia.
  rewrite (proj2 (Nat.leb_le _ _)) by (rewrite !length_app; lia). cbn [verify res_bind].
  rewrite <- app_assoc, drop_app_length, take_app_length. done.
Qed.

Lemma consume_specific_pos a b c :
  consume_specific (at_pos a b) c
  = match b with
    | x :: b' => if x =? c then (true, at_pos (a ++ [x]) b') else (false, at_pos a b)
    | [] => (0 =? c, at_pos a b)
    end.
Proof.
  unfold consume_specific, next_is. rewrite peek_pos. destruct b as [|x b].
  - destruct (0 =? c); cbn [negb]; [by rewrite ignore_one_end|done].
  - destruct (x =? c); cbn [negb]; [by rewrite ignore_one_pos|done].
Qed.

Lemma next_is_view_pos a b expected :
  next_is_view (at_pos a b) expected = Ret (bool_decide (expected `prefix_of` b)).
Proof.
  unfold next_is_view, peek_string. cbn [m_input m_index at_pos]. rewrite Nat.add_0_r, length_app.
  destruct (_ <? _)%nat eqn:E.
  - apply Nat.ltb_lt in E. cbn [res_bind]. f_equal. symmetry. apply bool_decide_eq_false. intros Hp. apply prefix_length in Hp. lia.
  - apply Nat.ltb_ge in E. unfold substring_view. rewrite (proj2 (Nat.leb_le _ _)) by (rewrite length_app; lia). cbn [verify res_bind].
    rewrite drop_app_length. unfold sv_eqb. f_equal. apply bool_decide_ext. split.
    + intros Heq. exists (drop (length expected) b). by rewrite <- Heq at 1; rewrite take_drop.
    + intros [k ->]. by rewrite take_app_length.
Qed.

Lemma consume_specific_view_pos a b next :
  consume_specific_view (at_pos a b) next
  = Ret (if bool_decide (next `prefix_of` b) then (true, at_pos (a ++ next) (drop (length next) b)) else (false, at_pos a b)).
Proof.
  unfold consume_specific_view. rewrite next_is_view_pos. cbn [res_bind].
  destruct (bool_decide (next `prefix_of` b)) eqn:E; cbn [negb]; [|done].
  apply bool_decide_eq_true in E as [k ->]. by rewrite ignore_pos, drop_app_length.
Qed.

(** ** Facts: unicode escapes *)

Definition hex_number (start : Z) (digits : bytes) : Z := fold_left (fun acc c => acc * 16 + hex_value c) digits start.

Lemma hex_number_ge digits start :
  Forall (fun c => is_ascii_hex_digit c = true) digits -> 0 <= start -> start <= hex_number start digits.
Proof.
  intros Hd. revert start. unfold hex_number. induction Hd as [|c digits Hc Hd IH]; intros start Hs; cbn [fold_left]; [lia|].
  pose proof (hex_value_range c Hc). specialize (IH (start * 16 + hex_value c)). lia.
Qed.

(** A step of the u32 accumulator: exact below 2^28, and a wrapped value that
    does not show as a decrease stays above 2^28 *)
Lemma code_point_step code_point d :
  0 <= code_point < 2 ^ 32 -> 0 <= d < 16 ->
  let new := Z.lor (u32 (Z.shiftl code_point 4)) d in
  0 <= new < 2 ^ 32 /\ (code_point < 2 ^ 28 -> new = code_point * 16 + d /\ code_point <= new).
Proof.
  intros Hc Hd new. unfold new, u32. rewrite Z.shiftl_mul_pow2 by lia.
  assert (Hor : forall q, Z.lor (q * 2 ^ 4) d = q * 2 ^ 4 + d).
  { intros q. rewrite <- lor_shiftl_add, Z.shiftl_mul_pow2 by lia. done. }
  replace (code_point * 2 ^ 4 mod 2 ^ 32) with ((code_point mod 2 ^ 28) * 2 ^ 4)
    by (rewrite (Z.mul_comm code_point), (Z.mul_comm (code_point mod _)); change (2 ^ 32) with (2 ^ 4 * 2 ^ 28); rewrite Z.mul_mod_distr_l; lia).
  rewrite Hor. split; [|intros H; rewrite Z.mod_small by lia; lia].
  pose proof (Z.mod_pos_bound code_point (2 ^ 28)). lia.
Qed.

Lemma decode_code_point_loop_spec digits : forall n code_point a rest,
  digits <> [] -> Forall (fun c => is_ascii_hex_digit c = true) digits -> 0 <= code_point < 2 ^ 32 -> (length digits <= n)%nat ->
  if hex_number code_point digits <=? 0x10FFFF
  then decode_code_point_loop n code_point (at_pos a (digits ++ ch "}" :: rest))
       = Ret (inr (hex_number code_point digits), at_pos (a ++ digits ++ [ch "}"]) rest)
  else exists lexer, decode_code_point_loop n code_point (at_pos a (digits ++ ch "}" :: rest))
       = Ret (inl UnicodeEscapeOverflow, lexer).
Proof.
  induction digits as [|c digits IH]; intros n code_point a rest Hne Hd Hcp Hn; [done|].
  apply Forall_cons in Hd as [Hc Hd]. destruct n as [|n]; [cbn in Hn; lia|]. cbn [app decode_code_point_loop].
  rewrite peek_pos, Hc, consume_pos. cbn [negb res_bind]. rewrite parse_ascii_hex_digit_ok by done. cbn [res_bind].
  destruct (code_point_step code_point (hex_value c) Hcp (hex_value_range c Hc)) as [Hnew Hexact].
  set (new := Z.lor _ _) in *.
  assert (Hvalue : hex_number code_point (c :: digits) = hex_number (code_point * 16 + hex_value c) digits) by done.
  pose proof (hex_value_range c Hc) as Hv. pose proof (hex_number_ge digits (code_point * 16 + hex_value c) Hd ltac:(lia)) as Hge.
  destruct (new <? code_point) eqn:Elt.
  { apply Z.ltb_lt in Elt. rewrite (proj2 (Z.leb_gt _ _)); [by eexists|]. rewrite Hvalue. lia. }
  apply Z.ltb_ge in Elt. rewrite consume_specific_pos. destruct digits as [|c2 digits].
  - cbn [app]. rewrite Z.eqb_refl. unfold is_unicode. rewrite Hvalue. unfold hex_number. cbn [fold_left].
    destruct (Z.lt_ge_cases code_point (2 ^ 28)) as [H28|H28].
    + destruct (Hexact H28) as [-> _]. destruct (_ <=? _); [by rewrite <- app_assoc|by eexists].
    + rewrite !(proj2 (Z.leb_gt _ _)) by lia. by eexists.
  - assert (Hc2 : (c2 =? ch "}") = false) 
      by (apply Forall_cons in Hd as [Hc2 _]; apply Z.eqb_neq; by intros ->).
    cbn [app]. rewrite Hc2. specialize (IH n new (a ++ [c]) rest ltac:(done) Hd Hnew ltac:(cbn in *; lia)).
    rewrite <- app_assoc in IH. rewrite Hvalue.
    destruct (Z.lt_ge_cases code_point (2 ^ 28)) as [H28|H28].
    + destruct (Hexact H28) as [Hn' _]. rewrite Hn' in IH |- *. exact IH.
    + pose proof (hex_number_ge (c2 :: digits) new Hd ltac:(lia)). rewrite (proj2 (Z.leb_gt _ _)) in IH by lia.
      rewrite (proj2 (Z.leb_gt _ _)) by lia. exact IH.
Qed.

Lemma decode_one_surrogate_spec digits : forall surrogate a rest,
  Forall (fun c => is_ascii_hex_digit c = true) digits -> 0 <= surrogate ->
  surrogate * 16 ^ Z.of_nat (length digits) + 16 ^ Z.of_nat (length digits) <= 2 ^ 16 ->
  decode_one_surrogate (length digits) surrogate (at_pos a (digits ++ rest))
  = Ret (Some (hex_number surrogate digits), at_pos (a ++ digits) rest).
Proof.
  induction digits as [|c digits IH]; intros surrogate a rest Hd Hs Hbound; cbn [length decode_one_surrogate app].
  { by rewrite app_nil_r. }
  apply Forall_cons in Hd as [Hc Hd]. rewrite peek_pos, Hc, consume_pos. cbn [negb res_bind].
  rewrite parse_ascii_hex_digit_ok by done. cbn [res_bind]. pose proof (hex_value_range c Hc) as Hv.
  cbn [length] in Hbound. rewrite Nat2Z.inj_succ, Z.pow_succ_r in Hbound by lia.
  pose proof (Z.pow_pos_nonneg 16 (Z.of_nat (length digits)) ltac:(lia) ltac:(lia)) as Hpow.
  rewrite lor_shiftl_add by lia. change (2 ^ 4) with 16. rewrite u16_id by nia.
  rewrite IH; [by rewrite <- app_assoc|done|lia|nia].
Qed.

Lemma four_digits digits a rest :
  length digits = 4%nat -> Forall (fun c => is_ascii_hex_digit c = true) digits ->
  decode_one_surrogate 4 0 (at_pos a (digits ++ rest)) = Ret (Some (hex_number 0 digits), at_pos (a ++ digits) rest).
Proof. intros Hl Hd. rewrite <- Hl at 1. apply decode_one_surrogate_spec; [done|lia|]. by rewrite Hl. Qed.

Lemma decode_one_surrogate_total n : forall surrogate a b,
  exists r x y, decode_one_surrogate n surrogate (at_pos a b) = Ret (r, at_pos (a ++ x) y) /\ b = x ++ y
    /\ (r <> None -> length x = n).
Proof.
  induction n as [|n IH]; intros surrogate a b; cbn [decode_one_surrogate].
  { exists (Some surrogate), [], b. by rewrite app_nil_r. }
  rewrite peek_pos. destruct b as [|c b].
  { exists None, [], []. by rewrite app_nil_r. }
  destruct (is_ascii_hex_digit c) eqn:Ec; cbn [negb].
  - rewrite consume_pos. cbn [res_bind]. rewrite parse_ascii_hex_digit_ok by done. cbn [res_bind].
    destruct (IH (u16 (Z.lor (Z.shiftl surrogate 4) (hex_value c))) (a ++ [c]) b) as (r & x & y & -> & -> & Hr).
    exists r, (c :: x), y. rewrite <- app_assoc. split; [done|]. split; [done|]. intros Hne. cbn. by rewrite Hr.
  - exists None, [], (c :: b). by rewrite app_nil_r.
Qed.

Lemma decode_code_point_loop_total b : forall n code_point a,
  (length b < n)%nat -> exists r x y, decode_code_point_loop n code_point (at_pos a b) = Ret (r, at_pos (a ++ x) y) /\ b = x ++ y.
Proof.
  induction b as [|c b IH]; intros n code_point a Hn; (destruct n as [|n]; [lia|]); cbn [decode_code_point_loop]; rewrite peek_pos.
  { eexists _, [], []. rewrite app_nil_r. done. }
  destruct (is_ascii_hex_digit c) eqn:Ec; cbn [negb].
  2:{ eexists _, [], _. rewrite app_nil_r. done. }
  rewrite consume_pos. cbn [res_bind]. rewrite parse_ascii_hex_digit_ok by done. cbn [res_bind].
  destruct (_ <? _); [by exists (inl UnicodeEscapeOverflow), [c], b|]. rewrite consume_specific_pos.
  assert (Hgo : exists r x y, decode_code_point_loop n (Z.lor (u32 (Z.shiftl code_point 4)) (hex_value c)) (at_pos (a ++ [c]) b)
    = Ret (r, at_pos (a ++ x) y) /\ c :: b = x ++ y).
  { destruct (IH n (Z.lor (u32 (Z.shiftl code_point 4)) (hex_value c)) (a ++ [c])) as (r & x & y & E & ->); [cbn in Hn; lia|].
    exists r, (c :: x), y. rewrite E, <- app_assoc. done. }
  destruct b as [|c2 b]; [exact Hgo|]. destruct (c2 =? _); [|exact Hgo].
  destruct (is_unicode _); eexists _, [c; c2], b; by rewrite <- app_assoc.
Qed.

(** ** Facts: the invariant of the index *)

Definition lexer_ok (lexer : GenericLexer) : Prop := (m_index lexer <= length (m_input lexer))%nat.

Lemma lexer_ok_pos lexer : lexer_ok lexer -> exists a b, lexer = at_pos a b /\ m_input lexer = a ++ b.
Proof.
  destruct lexer as [input index]. unfold lexer_ok, at_pos. cbn. intros Hle. exists (take index input), (drop index input).
  rewrite take_drop, length_take. split; [|done]. f_equal. lia.
Qed.

Lemma at_pos_ok a b : lexer_ok (at_pos a b).
Proof. unfold lexer_ok, at_pos. cbn. rewrite length_app. lia. Qed.

Lemma decode_pair_total a b combine :
  exists r x y, decode_single_or_paired_surrogate combine (at_pos a b) = Ret (r, at_pos (a ++ x) y) /\ b = x ++ y.
Proof.
  unfold decode_single_or_paired_surrogate. destruct (decode_one_surrogate_total 4 0 a b) as (high & x & y & -> & -> & Hx).
  cbn [res_bind]. destruct high as [high|]; [|by eexists _, x, y].
  destruct (is_utf16_high_surrogate high) eqn:Eh; cbn [negb]; [|by eexists _, x, y].
  destruct combine; cbn [negb]; [|by eexists _, x, y]. rewrite consume_specific_view_pos. cbn [res_bind].
  destruct (bool_decide _) eqn:Ep; cbn [negb]; [|by eexists _, x, y]. apply bool_decide_eq_true in Ep as [k ->].
  rewrite drop_app_length. destruct (decode_one_surrogate_total 4 0 ((a ++ x) ++ [92; 117]) k) as (low & x2 & y2 & E2 & -> & Hx2).
  rewrite E2. cbn [res_bind]. destruct low as [low|].
  2:{ eexists _, (x ++ [92; 117] ++ x2), y2. rewrite <- !app_assoc. done. }
  destruct (is_utf16_low_surrogate low) eqn:El.
  - unfold decode_utf16_surrogate_pair. rewrite Eh, El. cbn [verify res_bind]. eexists _, (x ++ [92; 117] ++ x2), y2.
    rewrite <- !app_assoc. done.
  - exists (inr high), x, ([92; 117] ++ x2 ++ y2). split; [|done].
    assert (Hlen : length x2 = 4%nat) by (by apply Hx2). unfold retreat_by, at_pos at 1. cbn [m_index].
    rewrite !length_app, Hlen. cbn [length]. rewrite (proj2 (Nat.leb_le _ _)) by lia. cbn [verify res_bind]. do 2 f_equal.
    unfold at_pos, with_index. cbn [m_input m_index]. rewrite <- !app_assoc. f_equal. rewrite !length_app. cbn [length]. lia.
Qed.

Lemma escaped_code_point_total combine a b :
  exists r x y, consume_escaped_code_point combine (at_pos a b) = Ret (r, at_pos (a ++ x) y) /\ b = x ++ y.
Proof.
  unfold consume_escaped_code_point. rewrite consume_specific_view_pos. cbn [res_bind].
  destruct (bool_decide _) eqn:Ep; cbn [negb].
  2:{ eexists _, [], b. by rewrite app_nil_r. }
  apply bool_decide_eq_true in Ep as [k ->]. rewrite drop_app_length. unfold next_is. rewrite peek_pos.
  destruct (_ =? _) eqn:Eb.
  - destruct k as [|c k]; [done|]. apply Z.eqb_eq in Eb as ->. unfold decode_code_point. rewrite consume_specific_pos, Z.eqb_refl.
    cbn [verify]. rewrite tell_remaining_pos.
    destruct (decode_code_point_loop_total k (S (length k)) 0 ((a ++ [92; 117]) ++ [123])) as (r & x & y & -> & ->); [lia|].
    exists r, ([92; 117] ++ [123] ++ x), y. by rewrite <- !app_assoc.
  - destruct (decode_pair_total (a ++ [92; 117]) k combine) as (r & x & y & -> & ->). exists r, ([92; 117] ++ x), y. by rewrite <- !app_assoc.
Qed.

Lemma unicode_escape_prefix (b : bytes) : bool_decide ([92; ch "u"] `prefix_of` [92; ch "u"] ++ b) = true.
Proof. apply bool_decide_eq_true. by exists b. Qed.

Lemma braced_escape combine a b :
  consume_escaped_code_point combine (at_pos a ([92; ch "u"; ch "{"] ++ b))
  = decode_code_point_loop (S (length b)) 0 (at_pos ((a ++ [92; ch "u"]) ++ [ch "{"]) b).
Proof.
  change ([92; 117; 123] ++ b) with ([92; 117] ++ 123 :: b).
  unfold consume_escaped_code_point. rewrite consume_specific_view_pos, unicode_escape_prefix. cbn [res_bind negb length drop app].
  unfold next_is. rewrite peek_pos. cbn. unfold decode_code_point. rewrite consume_specific_pos. cbn [Z.eqb Pos.eqb verify].
  by rewrite tell_remaining_pos.
Qed.

Lemma paired_escape combine a digits rest :
  length digits = 4%nat -> Forall (fun c => is_ascii_hex_digit c = true) digits ->
  consume_escaped_code_point combine (at_pos a ([92; ch "u"] ++ digits ++ rest))
  = decode_single_or_paired_surrogate combine (at_pos (a ++ [92; ch "u"]) (digits ++ rest)).
Proof.
  intros Hlen Hd. unfold consume_escaped_code_point. rewrite consume_specific_view_pos, unicode_escape_prefix. cbn [res_bind negb].
  rewrite drop_app_length. unfold next_is. rewrite peek_pos. destruct Hd as [|d digits Hd _]; [done|]. cbn [app].
  destruct (d =? 123) eqn:E; [|done]. by apply Z.eqb_eq in E as ->.
Qed.

Lemma decode_escaped_pair a high low rest code_point :
  length high = 4%nat -> length low = 4%nat ->
  Forall (fun c => is_ascii_hex_digit c = true) high -> Forall (fun c => is_ascii_hex_digit c = true) low ->
  0x10000 <= code_point <= 0x10FFFF ->
  hex_number 0 high = 0xD800 + (code_point - 0x10000) / 0x400 ->
  hex_number 0 low = 0xDC00 + (code_point - 0x10000) mod 0x400 ->
  decode_single_or_paired_surrogate true (at_pos (a ++ [92; ch "u"]) (high ++ [92; ch "u"] ++ low ++ rest))
  = Ret (inr code_point, at_pos (a ++ [92; ch "u"] ++ high ++ [92; ch "u"] ++ low) rest).
Proof.
  intros Hh Hl Hdh Hdl Hcp Eh El. unfold decode_single_or_paired_surrogate. rewrite four_digits by done. cbn [res_bind].
  set (n := code_point - 0x10000) in *. pose proof (Z.div_mod n 0x400 ltac:(lia)). pose proof (Z.mod_pos_bound n 0x400 ltac:(lia)).
  assert (Hhigh : is_utf16_high_surrogate (hex_number 0 high) = true) by (unfold is_utf16_high_surrogate; lia).
  assert (Hlow : is_utf16_low_surrogate (hex_number 0 low) = true) by (unfold is_utf16_low_surrogate; lia).
  rewrite Hhigh. cbn [negb]. rewrite consume_specific_view_pos, unicode_escape_prefix. cbn [res_bind negb].
  rewrite drop_app_length, four_digits by done. cbn [res_bind]. rewrite Hlow. unfold decode_utf16_surrogate_pair.
  rewrite Hhigh, Hlow. cbn [verify res_bind]. rewrite <- !app_assoc. do 3 f_equal.
  rewrite Eh, El, Z.shiftl_mul_pow2 by lia. unfold HIGH_SURROGATE_MIN, LOW_SURROGATE_MIN, FIRST_SUPPLEMENTARY_PLANE_CODE_POINT. lia.
Qed.

(** ** Facts: decimal integers *)

Section integers.
Context `{FastFloatLaws}.

Definition integer_min (is_signed : bool) (bits : Z) : Z := if is_signed then - 2 ^ (bits - 1) else 0.
Definition integer_max (is_signed : bool) (bits : Z) : Z := if is_signed then 2 ^ (bits - 1) - 1 else 2 ^ bits - 1.

(** The sign and what it makes of a number *)
Definition sign_value (sign : bytes) (n : Z) : Z := if sv_eqb sign [ch "-"] then - n else n.

Lemma skip_sign sign digits a rest :
  sign = [] \/ sign = [ch "+"] \/ sign = [ch "-"] -> match digits with c :: _ => is_ascii_digit c = true | [] => True end ->
  (digits = [] -> match rest with c :: _ => is_ascii_digit c = false /\ c <> ch "+" /\ c <> ch "-" | [] => True end) ->
  (if next_is (at_pos a (sign ++ digits ++ rest)) (ch "+") || next_is (at_pos a (sign ++ digits ++ rest)) (ch "-") then
     let* (s, lexer) := consume (at_pos a (sign ++ digits ++ rest)) in Ret (s =? ch "-", lexer)
   else Ret (false, at_pos a (sign ++ digits ++ rest)))
  = Ret (sv_eqb sign [ch "-"], at_pos (a ++ sign) (digits ++ rest)).
Proof.
  intros Hsign Hd Hrest. unfold next_is. rewrite !peek_pos. destruct Hsign as [-> | [-> | ->]]; cbn [app].
  - rewrite app_nil_r. destruct digits as [|c digits]; cbn [app].
    + destruct rest as [|c rest]; [done|]. destruct Hrest as (_ & H1 & H2); [done|].
      by rewrite (proj2 (Z.eqb_neq _ _) H1), (proj2 (Z.eqb_neq _ _) H2).
    + unfold is_ascii_digit in Hd. rewrite !(proj2 (Z.eqb_neq _ _)) by lia. done.
  - rewrite Z.eqb_refl. cbn [orb]. by rewrite consume_pos.
  - rewrite Z.eqb_refl, orb_true_r. by rewrite consume_pos.
Qed.

Lemma consume_integer_spec is_signed bits a sign digits rest :
  0 < bits -> sign = [] \/ sign = [ch "+"] \/ sign = [ch "-"] -> Forall (fun c => is_ascii_digit c = true) digits ->
  match rest with c :: _ => is_ascii_digit c = false | [] => True end ->
  (digits = [] -> match rest with c :: _ => c <> ch "+" /\ c <> ch "-" | [] => True end) ->
  let value := sign_value sign (digits_value 10 digits) in
  consume_decimal_integer is_signed bits (at_pos a (sign ++ digits ++ rest))
  = Ret (if sv_is_empty digits then (inl EINVAL, at_pos a (sign ++ digits ++ rest))
         else if (integer_min is_signed bits <=? value) && (value <=? integer_max is_signed bits)
         then (inr value, at_pos (a ++ sign ++ digits) rest)
         else (inl ERANGE, at_pos a (sign ++ digits ++ rest))).
Proof.
  intros Hbits Hsign Hd Hrest Hplus value. unfold consume_decimal_integer. cbv zeta.
  rewrite skip_sign; [cbn [res_bind]|done|by destruct Hd|intros E; specialize (Hplus E); destruct rest; [done|by destruct Hplus]].
  rewrite consume_while_pos. destruct (take_while_app is_ascii_digit digits rest Hd Hrest) as [-> ->]. cbn [res_bind].
  assert (Hback : with_index (at_pos ((a ++ sign) ++ digits) rest) (m_index (at_pos a (sign ++ digits ++ rest)))
                  = at_pos a (sign ++ digits ++ rest)).
  { unfold at_pos, with_index. cbn [m_input m_index]. by rewrite <- !app_assoc. }
  rewrite Hback. destruct digits as [|d digits]; [done|]. cbn [sv_is_empty].
  set (number := digits_value 10 (d :: digits)) in *.
  assert (Hnn : 0 <= number) by (apply digits_value_nonneg; [lia|]; apply forallb_Forall_iff; eapply Forall_impl; [exact Hd|]; intros x Hx; by apply is_ascii_digit_hex).
  rewrite parse_number_digits; [|done|by apply forallb_Forall_iff]. fold number.
  assert (Hpow : 2 ^ bits = 2 * 2 ^ (bits - 1)) by (rewrite <- Z.pow_succ_r by lia; f_equal; lia).
  pose proof (Z.pow_pos_nonneg 2 (bits - 1) ltac:(lia) ltac:(lia)) as Hpos.
  unfold value, sign_value, integer_min, integer_max. destruct (sv_eqb sign [45]), is_signed; cbn [negb].
  all: repeat match goal with
    | |- context [if ?c then _ else _] => let E := fresh "E" in destruct c eqn:E
    end; rewrite <- ?app_assoc; try done; try (exfalso; lia).
  do 3 f_equal. lia.
Qed.

End integers.

(** ** Properties *)

(** Unicode escapes are decoded exactly.  The braced form gives its
    hexadecimal number however many digits it has, or the overflow error when
    that is above U+10FFFF, although the accumulator is a wrapping [u32]; four
    digits give their code unit unless it is a high surrogate; and an escaped
    surrogate pair gives its code point when pairs are combined.  No input
    makes the decoder leave it or fail a [VERIFY]. *)
Theorem unicode_escape_correct (combine : bool) (a rest : bytes) :
  (forall digits, digits <> [] -> Forall (fun c => is_ascii_hex_digit c = true) digits ->
    if hex_number 0 digits <=? 0x10FFFF
    then consume_escaped_code_point combine (at_pos a ([92; ch "u"; ch "{"] ++ digits ++ ch "}" :: rest))
         = Ret (inr (hex_number 0 digits), at_pos (a ++ [92; ch "u"; ch "{"] ++ digits ++ [ch "}"]) rest)
    else exists lexer, consume_escaped_code_point combine (at_pos a ([92; ch "u"; ch "{"] ++ digits ++ ch "}" :: rest))
         = Ret (inl UnicodeEscapeOverflow, lexer))
  /\ (forall digits, length digits = 4%nat -> Forall (fun c => is_ascii_hex_digit c = true) digits ->
      is_utf16_high_surrogate (hex_number 0 digits) = false ->
      consume_escaped_code_point combine (at_pos a ([92; ch "u"] ++ digits ++ rest))
      = Ret (inr (hex_number 0 digits), at_pos (a ++ [92; ch "u"] ++ digits) rest))
  /\ (forall high low, length high = 4%nat -> length low = 4%nat ->
      Forall (fun c => is_ascii_hex_digit c = true) (high ++ low) ->
      forall code_point, 0x10000 <= code_point <= 0x10FFFF ->
      hex_number 0 high = 0xD800 + (code_point - 0x10000) / 0x400 ->
      hex_number 0 low = 0xDC00 + (code_point - 0x10000) mod 0x400 ->
      consume_escaped_code_point true (at_pos a ([92; ch "u"] ++ high ++ [92; ch "u"] ++ low ++ rest))
      = Ret (inr code_point, at_pos (a ++ [92; ch "u"] ++ high ++ [92; ch "u"] ++ low) rest))
  /\ exists r x y, consume_escaped_code_point combine (at_pos a rest) = Ret (r, at_pos (a ++ x) y) /\ rest = x ++ y.
Proof.
  split; [|split; [|split; [|apply escaped_code_point_total]]].
  - intros digits Hne Hd. pose proof (decode_code_point_loop_spec digits (S (length (digits ++ 125 :: rest))) 0
      ((a ++ [92; 117]) ++ [123]) rest Hne Hd ltac:(lia) ltac:(rewrite length_app; lia)) as Hloop.
    assert (E : consume_escaped_code_point combine (at_pos a ([92; 117; 123] ++ digits ++ 125 :: rest))
      = decode_code_point_loop (S (length (digits ++ 125 :: rest))) 0 (at_pos ((a ++ [92; 117]) ++ [123]) (digits ++ 125 :: rest))).
    { rewrite braced_escape. done. }
    rewrite E. rewrite <- !app_assoc in *. exact Hloop.
  - intros digits Hlen Hd Hs. rewrite paired_escape by done. unfold decode_single_or_paired_surrogate.
    rewrite four_digits by done. cbn [res_bind]. rewrite Hs. cbn [negb]. by rewrite <- app_assoc.
  - intros high low Hh Hl Hd cp Hcp Eh El. apply Forall_app in Hd as [Hdh Hdl]. rewrite paired_escape by done.
    by apply decode_escaped_pair.
Qed.

Lemma unicode_escape_correct_witness :
  consume_escaped_code_point true (at_pos [] (sv "\u{1F600}!")) = Ret (inr 0x1F600, at_pos (sv "\u{1F600}") (sv "!"))
  /\ (exists lexer, consume_escaped_code_point true (at_pos [] (sv "\u{10000000000000041}!")) = Ret (inl UnicodeEscapeOverflow, lexer))
  /\ consume_escaped_code_point true (at_pos [] (sv "\uD83D\uDE00!")) = Ret (inr 0x1F600, at_pos (sv "\uD83D\uDE00") (sv "!")).
Proof.
  destruct (unicode_escape_correct true [] (sv "!")) as (H1 & _ & H3 & _).
  split; [exact (H1 (sv "1F600") ltac:(done) ltac:(by repeat constructor))|].
  split; [exact (H1 (sv "10000000000000041") ltac:(done) ltac:(by repeat constructor))|].
  exact (H3 (sv "D83D") (sv "DE00") eq_refl eq_refl ltac:(by repeat constructor) 0x1F600 ltac:(done) eq_refl eq_refl).
Defined.

(** A decimal integer is read exactly or not at all.  An optional sign and
    the longest run of digits after it give their value when it fits the
    integer type; a value that does not fit is a range error and an empty run
    an invalid one, and after an error the lexer is where it was. *)
Theorem consume_decimal_integer_correct `{FastFloatLaws} (is_signed : bool) (bits : Z) (a sign digits rest : bytes)
    (Hbits : 0 < bits) (Hsign : sign = [] \/ sign = [ch "+"] \/ sign = [ch "-"])
    (Hdigits : Forall (fun c => is_ascii_digit c = true) digits)
    (Hrest : match rest with c :: _ => is_ascii_digit c = false | [] => True end)
    (Hplus : digits = [] -> match rest with c :: _ => c <> ch "+" /\ c <> ch "-" | [] => True end) :
  let value := sign_value sign (digits_value 10 digits) in
  consume_decimal_integer is_signed bits (at_pos a (sign ++ digits ++ rest))
  = Ret (if sv_is_empty digits then (inl EINVAL, at_pos a (sign ++ digits ++ rest))
         else if (integer_min is_signed bits <=? value) && (value <=? integer_max is_signed bits)
         then (inr value, at_pos (a ++ sign ++ digits) rest)
         else (inl ERANGE, at_pos a (sign ++ digits ++ rest))).
Proof. by apply consume_integer_spec. Qed.

Lemma consume_decimal_integer_correct_witness :
  consume_decimal_integer true 8 (at_pos [] (sv "-128 ")) = Ret (inr (-128), at_pos (sv "-128") (sv " "))
  /\ consume_decimal_integer true 8 (at_pos [] (sv "+128 ")) = Ret (inl ERANGE, at_pos [] (sv "+128 ")).
Proof.
  split.
  - exact (consume_decimal_integer_correct true 8 [] [45] (sv "128") (sv " ") ltac:(done) ltac:(by right; right)
      ltac:(by repeat constructor) ltac:(done) ltac:(done)).
  - exact (consume_decimal_integer_correct true 8 [] [43] (sv "128") (sv " ") ltac:(done) ltac:(by right; left)
      ltac:(by repeat constructor) ltac:(done) ltac:(done)).
Defined.
