(* ===== verification/TextCodec.v ===== *)
(** * Text encoders: [LibTextCodec/Encoder.cpp] and the encoding labels of
      [LibTextCodec/Decoder.cpp]

    The index tables are generated at build time from the data of the Encoding
    standard, so they are a parameter, the class [LookupTables]; the accessors
    the generator writes around them are modelled.  [process] calls [on_byte] or
    [on_error] once per event; an encoder is modelled by the list of the calls
    it makes, and by [Crash] when it stops the process. *)

From S2P Require Import Prelude BinarySearch CharacterTypes Utf8 Strings.

(** ** The generated tables *)

Inductive SingleByteIndex :=
  | ibm866 | iso_8859_2 | iso_8859_3 | iso_8859_4 | iso_8859_5 | iso_8859_6 | iso_8859_7 |
  iso_8859_8 | iso_8859_10 | iso_8859_13 | iso_8859_14 | iso_8859_15 | iso_8859_16 |
  windows_1250 | windows_1251 | windows_1255 | koi8_r | koi8_u | macintosh | windows_874 |
  windows_1252 | windows_1253 | windows_1254 | windows_1256 | windows_1257 | windows_1258
  | x_mac_cyrillic.

Class LookupTables := {
  s_jis0208_index : list Z;
  s_jis0212_index : list Z;
  s_jis0212_index_first_pointer : Z;
  s_euc_kr_index : list Z;
  s_gb18030_index : list Z;
  s_gb18030_ranges : list (Z * Z);          (* pointer, code point *)
  s_big5_index : list Z;
  s_big5_index_first_pointer : Z;
  s_iso_2022_jp_katakana_index : list Z;
  single_byte_index : SingleByteIndex -> list Z
}.

(** The loop of the generated inverse accessors [code_point_*_index]: the first
    position of a code point from [i] on. *)
Fixpoint find_code_point_from (table : list Z) (i : Z) (code_point : Z) : option Z :=
  match table with
  | [] => None
  | value :: table =>
      if value =? code_point then Some i else find_code_point_from table (i + 1) code_point
  end.

Definition code_point_index (table : list Z) (code_point : Z) : option Z :=
  find_code_point_from table 0 code_point.

(** ** Encoders *)

Inductive encoder_event := on_byte (byte : Z) | on_error (code_point : Z).

(** The encoder objects; [GB18030Encoder]'s argument is [m_is_gbk]. *)
Inductive Encoder :=
  | UTF8Encoder | EUCJPEncoder | ISO2022JPEncoder | ShiftJISEncoder | EUCKREncoder | Big5Encoder
  | GB18030Encoder (gbk : bool)
  | SingleByteEncoder (index : SingleByteIndex).

(** Concatenating the events of one item at a time. *)
Fixpoint process_items (process_item : Z -> res (list encoder_event)) (items : list Z)
    : res (list encoder_event) :=
  match items with
  | [] => Ret []
  | item :: items =>
      let* events := process_item item in
      let* rest := process_items process_item items in
      Ret (events ++ rest)
  end.

Section encoders.
Context `{LookupTables}.

(** The body of the loop of [EUCJPEncoder::process] *)
Definition euc_jp_item (item : Z) : res (list encoder_event) :=
  if is_ascii item then Ret [on_byte (u8 item)]
  else if item =? 0x00A5 then Ret [on_byte 0x5C]
  else if item =? 0x203E then Ret [on_byte 0x7E]
  else if (0xFF61 <=? item) && (item <=? 0xFF9F)
  then Ret [on_byte 0x8E; on_byte (u8 (item - 0xFF61 + 0xA1))]
  else
    let item := if item =? 0x2212 then 0xFF0D else item in
    match code_point_index s_jis0208_index item with
    | None => Ret [on_error item]
    | Some pointer =>
        let lead := pointer / 94 + 0xA1 in
        let trail := pointer mod 94 + 0xA1 in
        Ret [on_byte (u8 lead); on_byte (u8 trail)]
    end.

(** [ISO2022JPEncoder::State] *)
Inductive ISO2022JPState := ASCII | Roman | jis0208.

Definition iso_2022_jp_state_is (a b : ISO2022JPState) : bool :=
  match a, b with
  | ASCII, ASCII | Roman, Roman | jis0208, jis0208 => true
  | _, _ => false
  end.

(** [ISO2022JPEncoder::process_item]; the recursive calls "restore" the item. *)
Fixpoint iso_2022_jp_item (fuel : nat) (item : Z) (state : ISO2022JPState)
    : res (ISO2022JPState * list encoder_event) :=
  match fuel with
  | O => Crash
  | S fuel =>
      if (iso_2022_jp_state_is state ASCII || iso_2022_jp_state_is state Roman)
         && ((item =? 0x0E) || (item =? 0x0F) || (item =? 0x1B))
      then Ret (state, [on_error 0xFFFD])
      else if iso_2022_jp_state_is state ASCII && is_ascii item
      then Ret (state, [on_byte (u8 item)])
      else if iso_2022_jp_state_is state Roman
              && ((is_ascii item && negb (item =? 0x5C) && negb (item =? 0x7E))
                  || ((item =? 0x00A5) || (item =? 0x203E)))
      then
        if is_ascii item then Ret (state, [on_byte (u8 item)])
        else if item =? 0x00A5 then Ret (state, [on_byte 0x5C])
        else Ret (state, [on_byte 0x7E])
      else if is_ascii item && negb (iso_2022_jp_state_is state ASCII)
      then
        let* (state, events) := iso_2022_jp_item fuel item ASCII in
        Ret (state, [on_byte 0x1B; on_byte 0x28; on_byte 0x42] ++ events)
      else if ((item =? 0x00A5) || (item =? 0x203E)) && negb (iso_2022_jp_state_is state Roman)
      then
        let* (state, events) := iso_2022_jp_item fuel item Roman in
        Ret (state, [on_byte 0x1B; on_byte 0x28; on_byte 0x4A] ++ events)
      else
        let item := if item =? 0x2212 then 0xFF0D else item in
        let* item :=
          if (0xFF61 <=? item) && (item <=? 0xFF9F) then
            (* index_iso_2022_jp_katakana_code_point, then the Optional's value *)
            let* value := unwrap (s_iso_2022_jp_katakana_index !! Z.to_nat (item - 0xFF61)) in
            verify (negb (value =? 0xFFFD)) (Ret value)
          else Ret item in
        match code_point_index s_jis0208_index item with
        | None =>
            if iso_2022_jp_state_is state jis0208 then
              let* (state, events) := iso_2022_jp_item fuel item ASCII in
              Ret (state, [on_byte 0x1B; on_byte 0x28; on_byte 0x4A] ++ events)
            else Ret (state, [on_error item])
        | Some pointer =>
            if negb (iso_2022_jp_state_is state jis0208) then
              let* (state, events) := iso_2022_jp_item fuel item jis0208 in
              Ret (state, [on_byte 0x1B; on_byte 0x24; on_byte 0x42] ++ events)
            else
              let lead := pointer / 94 + 0x21 in
              let trail := pointer mod 94 + 0x21 in
              Ret (state, [on_byte (u8 lead); on_byte (u8 trail)])
        end
  end.

(** The loop of [ISO2022JPEncoder::process] and what follows it; the depth of
    [process_item]'s recursion is bounded by [iso_2022_jp_item_total]. *)
Fixpoint iso_2022_jp_process (items : list Z) (state : ISO2022JPState) : res (list encoder_event) :=
  match items with
  | [] =>
      if negb (iso_2022_jp_state_is state ASCII)
      then Ret [on_byte 0x1B; on_byte 0x28; on_byte 0x42]
      else Ret []
  | item :: items =>
      let* (state, events) := iso_2022_jp_item 8 item state in
      let* rest := iso_2022_jp_process items state in
      Ret (events ++ rest)
  end.

(** [code_point_jis0208_index_skipping_range] from position [i] on *)
Fixpoint find_skipping_range (table : list Z) (i code_point skip_from skip_to : Z) : option Z :=
  match table with
  | [] => None
  | value :: table =>
      if (skip_from <=? i) && (i <=? skip_to)
      then find_skipping_range table (i + 1) code_point skip_from skip_to
      else if value =? code_point then Some i
      else find_skipping_range table (i + 1) code_point skip_from skip_to
  end.

Definition index_shift_jis_pointer (code_point : Z) : option Z :=
  find_skipping_range s_jis0208_index 0 code_point 8272 8835.

(** The body of the loop of [ShiftJISEncoder::process] *)
Definition shift_jis_item (item : Z) : res (list encoder_event) :=
  if is_ascii item || (item =? 0x80) then Ret [on_byte (u8 item)]
  else if item =? 0x00A5 then Ret [on_byte 0x5C]
  else if item =? 0x203E then Ret [on_byte 0x7E]
  else if (0xFF61 <=? item) && (item <=? 0xFF9F) then Ret [on_byte (u8 (item - 0xFF61 + 0xA1))]
  else
    let item := if item =? 0x2212 then 0xFF0D else item in
    match index_shift_jis_pointer item with
    | None => Ret [on_error item]
    | Some pointer =>
        let lead := pointer / 188 in
        let lead_offset := if lead <? 0x1F then 0x81 else 0xC1 in
        let trail := pointer mod 188 in
        let offset := if trail <? 0x3F then 0x40 else 0x41 in
        Ret [on_byte (u8 (lead + lead_offset)); on_byte (u8 (trail + offset))]
    end.

(** The body of the loop of [EUCKREncoder::process] *)
Definition euc_kr_item (item : Z) : res (list encoder_event) :=
  if is_ascii item then Ret [on_byte (u8 item)]
  else
    match code_point_index s_euc_kr_index item with
    | None => Ret [on_error item]
    | Some pointer =>
        let lead := pointer / 190 + 0x81 in
        let trail := pointer mod 190 + 0x41 in
        Ret [on_byte (u8 lead); on_byte (u8 trail)]
    end.

(** The descending loop of [index_big5_pointer]; below index 0 the counter
    wraps around to an index out of range. *)
Fixpoint big5_scan_down (i : nat) (start_index code_point : Z) : res (option Z) :=
  if Z.of_nat i <? start_index then Ret None
  else
    let* value := at_index s_big5_index i in
    if value =? code_point then Ret (Some (u32 (s_big5_index_first_pointer + Z.of_nat i)))
    else match i with O => Crash | S i => big5_scan_down i start_index code_point end.

(** [index_big5_pointer] *)
Definition index_big5_pointer (code_point : Z) : res (option Z) :=
  let start_index := u32 ((0xA1 - 0x81) * 157 - s_big5_index_first_pointer) in
  if existsb (fun c => c =? code_point) [0x2550; 0x255E; 0x2561; 0x256A; 0x5341; 0x5345] then
    match length s_big5_index with
    | O => Crash
    | S last => big5_scan_down last start_index code_point
    end
  else
    Ret (match find_code_point_from (drop (Z.to_nat start_index) s_big5_index) start_index code_point with
         | Some i => Some (u32 (s_big5_index_first_pointer + i))
         | None => None
         end).

(** The body of the loop of [Big5Encoder::process] *)
Definition big5_item (item : Z) : res (list encoder_event) :=
  if is_ascii item then Ret [on_byte (u8 item)]
  else
    let* pointer := index_big5_pointer item in
    match pointer with
    | None => Ret [on_error item]
    | Some pointer =>
        let lead := pointer / 157 + 0x81 in
        let trail := pointer mod 157 in
        let offset := if trail <? 0x3F then 0x40 else 0x62 in
        Ret [on_byte (u8 lead); on_byte (u8 (trail + offset))]
    end.

(** A [u32] converted to [int] *)
Definition int_of_u32 (z : Z) : Z := if u32 z <? 2 ^ 31 then u32 z else u32 z - 2 ^ 32.

(** [index_gb18030_ranges_pointer] *)
Definition index_gb18030_ranges_pointer (code_point : Z) : res Z :=
  if code_point =? 0xe7c7 then Ret 7457
  else
    let* (_, last_index) := binary_search (fun entry => int_of_u32 (code_point - entry.2)) s_gb18030_ranges in
    let* entry := at_index s_gb18030_ranges last_index in
    let '(pointer_offset, offset) := entry in
    Ret (u32 (u32 (pointer_offset + code_point) - offset)).

(** The body of the loop of [GB18030Encoder::process] *)
Definition gb18030_item (gbk : bool) (item : Z) : res (list encoder_event) :=
  if is_ascii item then Ret [on_byte (u8 item)]
  else if item =? 0xE5E5 then Ret [on_error item]
  else if gbk && (item =? 0x20AC) then Ret [on_byte 0x80]
  else
    match code_point_index s_gb18030_index item with
    | Some pointer =>
        let lead := pointer / 190 + 0x81 in
        let trail := pointer mod 190 in
        let offset := if trail <? 0x3F then 0x40 else 0x41 in
        Ret [on_byte (u8 lead); on_byte (u8 (trail + offset))]
    | None =>
        if gbk then Ret [on_error item]
        else
          let* pointer := index_gb18030_ranges_pointer item in
          let byte1 := pointer / (10 * 126 * 10) in
          let pointer := pointer mod (10 * 126 * 10) in
          let byte2 := pointer / (10 * 126) in
          let pointer := pointer mod (10 * 126) in
          let byte3 := pointer / 10 in
          let byte4 := pointer mod 10 in
          Ret [on_byte (u8 (byte1 + 0x81)); on_byte (u8 (byte2 + 0x30));
               on_byte (u8 (byte3 + 0x81)); on_byte (u8 (byte4 + 0x30))]
    end.

(** The body of the loop of [SingleByteEncoder::process] *)
Definition single_byte_item (m_translation_table : list Z) (code_point : Z) : res (list encoder_event) :=
  if code_point <? 0x80 then Ret [on_byte (u8 code_point)]
  else
    match code_point_index m_translation_table code_point with
    | Some pointer => Ret [on_byte (u8 (pointer + 0x80))]
    | None => Ret [on_error code_point]
    end.

(** [process] of each encoder class *)
Definition process (encoder : Encoder) (input : bytes) : res (list encoder_event) :=
  match encoder with
  | UTF8Encoder => Ret (on_byte <$> input)
  | EUCJPEncoder => process_items euc_jp_item (code_points input)
  | ISO2022JPEncoder => iso_2022_jp_process (code_points input) ASCII
  | ShiftJISEncoder => process_items shift_jis_item (code_points input)
  | EUCKREncoder => process_items euc_kr_item (code_points input)
  | Big5Encoder => process_items big5_item (code_points input)
  | GB18030Encoder gbk => process_items (gb18030_item gbk) (code_points input)
  | SingleByteEncoder index => process_items (single_byte_item (single_byte_index index)) (code_points input)
  end.

End encoders.

(** [isomorphic_encode] *)
Definition isomorphic_encode (input : bytes) : bytes := u8 <$> code_points input.

(** ** Labels and names *)

(** The labels of [get_standardized_encoding], in its order. *)
Definition encoding_labels : list (list bytes * bytes) :=
  [
    ([sv "unicode-1-1-utf-8"; sv "unicode11utf8"; sv "unicode20utf8"; sv "utf-8"; sv "utf8";
      sv "x-unicode20utf8"], sv "UTF-8");
    ([sv "866"; sv "cp866"; sv "csibm866"; sv "ibm866"], sv "IBM866");
    ([sv "csisolatin2"; sv "iso-8859-2"; sv "iso-ir-101"; sv "iso8859-2"; sv "iso88592";
      sv "iso_8859-2"; sv "iso_8859-2:1987"; sv "l2"; sv "latin2"], sv "ISO-8859-2");
    ([sv "csisolatin3"; sv "iso-8859-3"; sv "iso-ir-109"; sv "iso8859-3"; sv "iso88593";
      sv "iso_8859-3"; sv "iso_8859-3:1988"; sv "l3"; sv "latin3"], sv "ISO-8859-3");
    ([sv "csisolatin4"; sv "iso-8859-4"; sv "iso-ir-110"; sv "iso8859-4"; sv "iso88594";
      sv "iso_8859-4"; sv "iso_8859-4:1988"; sv "l4"; sv "latin4"], sv "ISO-8859-4");
    ([sv "csisolatincyrillic"; sv "cyrillic"; sv "iso-8859-5"; sv "iso-ir-144"; sv "iso8859-5";
      sv "iso88595"; sv "iso_8859-5"; sv "iso_8859-5:1988"], sv "ISO-8859-5");
    ([sv "arabic"; sv "asmo-708"; sv "csiso88596e"; sv "csiso88596i"; sv "csisolatinarabic";
      sv "ecma-114"; sv "iso-8859-6"; sv "iso-8859-6-e"; sv "iso-8859-6-i"; sv "iso-ir-127";
      sv "iso8859-6"; sv "iso88596"; sv "iso_8859-6"; sv "iso_8859-6:1987"], sv "ISO-8859-6");
    ([sv "csisolatingreek"; sv "ecma-118"; sv "elot_928"; sv "greek"; sv "greek8"; sv "iso-8859-7";
      sv "iso-ir-126"; sv "iso8859-7"; sv "iso88597"; sv "iso_8859-7"; sv "iso_8859-7:1987";
      sv "sun_eu_greek"], sv "ISO-8859-7");
    ([sv "csiso88598e"; sv "csisolatinhebrew"; sv "hebrew"; sv "iso-8859-8"; sv "iso-8859-8-e";
      sv "iso-ir-138"; sv "iso8859-8"; sv "iso88598"; sv "iso_8859-8"; sv "iso_8859-8:1988";
      sv "visual"], sv "ISO-8859-8");
    ([sv "csiso88598i"; sv "iso-8859-8-i"; sv "logical"], sv "ISO-8859-8-I");
    ([sv "csisolatin6"; sv "iso-8859-10"; sv "iso-ir-157"; sv "iso8859-10"; sv "iso885910";
      sv "l6"; sv "latin6"], sv "ISO-8859-10");
    ([sv "iso-8859-13"; sv "iso8859-13"; sv "iso885913"], sv "ISO-8859-13");
    ([sv "iso-8859-14"; sv "iso8859-14"; sv "iso885914"], sv "ISO-8859-14");
    ([sv "csisolatin9"; sv "iso-8859-15"; sv "iso8859-15"; sv "iso885915"; sv "iso_8859-15";
      sv "l9"], sv "ISO-8859-15");
    ([sv "iso-8859-16"], sv "ISO-8859-16");
    ([sv "cskoi8r"; sv "koi"; sv "koi8"; sv "koi8-r"; sv "koi8_r"], sv "KOI8-R");
    ([sv "koi8-ru"; sv "koi8-u"], sv "KOI8-U");
    ([sv "csmacintosh"; sv "mac"; sv "macintosh"; sv "x-mac-roman"], sv "macintosh");
    ([sv "pdfdocencoding"], sv "PDFDocEncoding");
    ([sv "dos-874"; sv "iso-8859-11"; sv "iso8859-11"; sv "iso885911"; sv "tis-620";
      sv "windows-874"], sv "windows-874");
    ([sv "cp1250"; sv "windows-1250"; sv "x-cp1250"], sv "windows-1250");
    ([sv "cp1251"; sv "windows-1251"; sv "x-cp1251"], sv "windows-1251");
    ([sv "ansi_x3.4-1968"; sv "ascii"; sv "cp1252"; sv "cp819"; sv "csisolatin1"; sv "ibm819";
      sv "iso-8859-1"; sv "iso-ir-100"; sv "iso8859-1"; sv "iso88591"; sv "iso_8859-1";
      sv "iso_8859-1:1987"; sv "l1"; sv "latin1"; sv "us-ascii"; sv "windows-1252"; sv "x-cp1252"], sv "windows-1252");
    ([sv "cp1253"; sv "windows-1253"; sv "x-cp1253"], sv "windows-1253");
    ([sv "cp1254"; sv "csisolatin5"; sv "iso-8859-9"; sv "iso-ir-148"; sv "iso8859-9";
      sv "iso88599"; sv "iso_8859-9"; sv "iso_8859-9:1989"; sv "l5"; sv "latin5";
      sv "windows-1254"; sv "x-cp1254"], sv "windows-1254");
    ([sv "cp1255"; sv "windows-1255"; sv "x-cp1255"], sv "windows-1255");
    ([sv "cp1256"; sv "windows-1256"; sv "x-cp1256"], sv "windows-1256");
    ([sv "cp1257"; sv "windows-1257"; sv "x-cp1257"], sv "windows-1257");
    ([sv "cp1258"; sv "windows-1258"; sv "x-cp1258"], sv "windows-1258");
    ([sv "x-mac-cyrillic"; sv "x-mac-ukrainian"], sv "x-mac-cyrillic");
    ([sv "koi8-r"; sv "koi8r"], sv "koi8-r");
    ([sv "chinese"; sv "csgb2312"; sv "csiso58gb231280"; sv "gb2312"; sv "gb_2312";
      sv "gb_2312-80"; sv "gbk"; sv "iso-ir-58"; sv "x-gbk"], sv "GBK");
    ([sv "gb18030"], sv "gb18030");
    ([sv "big5"; sv "big5-hkscs"; sv "cn-big5"; sv "csbig5"; sv "x-x-big5"], sv "Big5");
    ([sv "cseucpkdfmtjapanese"; sv "euc-jp"; sv "x-euc-jp"], sv "EUC-JP");
    ([sv "csiso2022jp"; sv "iso-2022-jp"], sv "ISO-2022-JP");
    ([sv "csshiftjis"; sv "ms932"; sv "ms_kanji"; sv "shift-jis"; sv "shift_jis"; sv "sjis";
      sv "windows-31j"; sv "x-sjis"], sv "Shift_JIS");
    ([sv "cseuckr"; sv "csksc56011987"; sv "euc-kr"; sv "iso-ir-149"; sv "korean";
      sv "ks_c_5601-1987"; sv "ks_c_5601-1989"; sv "ksc5601"; sv "ksc_5601"; sv "windows-949"], sv "EUC-KR");
    ([sv "csiso2022kr"; sv "hz-gb-2312"; sv "iso-2022-cn"; sv "iso-2022-cn-ext"; sv "iso-2022-kr";
      sv "replacement"], sv "replacement");
    ([sv "unicodefffe"; sv "utf-16be"], sv "UTF-16BE");
    ([sv "csunicode"; sv "iso-10646-ucs-2"; sv "ucs-2"; sv "unicode"; sv "unicodefeff";
      sv "utf-16"; sv "utf-16le"], sv "UTF-16LE");
    ([sv "x-user-defined"], sv "x-user-defined")
  ].

(** The first row one of whose strings is an ASCII case-insensitive match. *)
Fixpoint find_row {A} (rows : list (list bytes * A)) (s : bytes) : option A :=
  match rows with
  | [] => None
  | (strings, value) :: rows =>
      if is_one_of_ignoring_ascii_case s strings then Some value else find_row rows s
  end.

(** [get_standardized_encoding] *)
Definition get_standardized_encoding (encoding : bytes) : option bytes :=
  let encoding := trim encoding [9; 10; 12; 13; 32] TrimBoth in
  find_row encoding_labels encoding.

(** [get_output_encoding] *)
Definition get_output_encoding (encoding : bytes) : bytes :=
  if is_one_of_ignoring_ascii_case encoding [sv "replacement"; sv "utf-16le"; sv "utf-16be"]
  then sv "UTF-8" else encoding.

(** [encoder_for_exact_name] *)
Definition encoder_names : list (list bytes * Encoder) :=
  [
    ([sv "utf-8"], UTF8Encoder);
    ([sv "big5"], Big5Encoder);
    ([sv "euc-jp"], EUCJPEncoder);
    ([sv "iso-2022-jp"], ISO2022JPEncoder);
    ([sv "shift_jis"], ShiftJISEncoder);
    ([sv "euc-kr"], EUCKREncoder);
    ([sv "gb18030"], GB18030Encoder false);
    ([sv "gbk"], GB18030Encoder true);
    ([sv "ibm866"], SingleByteEncoder ibm866);
    ([sv "iso-8859-2"], SingleByteEncoder iso_8859_2);
    ([sv "iso-8859-3"], SingleByteEncoder iso_8859_3);
    ([sv "iso-8859-4"], SingleByteEncoder iso_8859_4);
    ([sv "iso-8859-5"], SingleByteEncoder iso_8859_5);
    ([sv "iso-8859-6"], SingleByteEncoder iso_8859_6);
    ([sv "iso-8859-7"], SingleByteEncoder iso_8859_7);
    ([sv "iso-8859-8"; sv "iso-8859-8-i"], SingleByteEncoder iso_8859_8);
    ([sv "iso-8859-10"], SingleByteEncoder iso_8859_10);
    ([sv "iso-8859-13"], SingleByteEncoder iso_8859_13);
    ([sv "iso-8859-14"], SingleByteEncoder iso_8859_14);
    ([sv "iso-8859-15"], SingleByteEncoder iso_8859_15);
    ([sv "iso-8859-16"], SingleByteEncoder iso_8859_16);
    ([sv "koi8-r"], SingleByteEncoder koi8_r);
    ([sv "koi8-u"], SingleByteEncoder koi8_u);
    ([sv "macintosh"], SingleByteEncoder macintosh);
    ([sv "windows-874"], SingleByteEncoder windows_874);
    ([sv "windows-1250"], SingleByteEncoder windows_1250);
    ([sv "windows-1251"], SingleByteEncoder windows_1251);
    ([sv "windows-1252"], SingleByteEncoder windows_1252);
    ([sv "windows-1253"], SingleByteEncoder windows_1253);
    ([sv "windows-1254"], SingleByteEncoder windows_1254);
    ([sv "windows-1255"], SingleByteEncoder windows_1255);
    ([sv "windows-1256"], SingleByteEncoder windows_1256);
    ([sv "windows-1257"], SingleByteEncoder windows_1257);
    ([sv "windows-1258"], SingleByteEncoder windows_1258);
    ([sv "x-mac-cyrillic"], SingleByteEncoder x_mac_cyrillic)
  ].

Definition encoder_for_exact_name (encoding : bytes) : option Encoder := find_row encoder_names encoding.

(** [encoder_for] *)
Definition encoder_for (label : bytes) : option Encoder :=
  match get_standardized_encoding label with
  | Some encoding => encoder_for_exact_name encoding
  | None => None
  end.

(** ** What the encoders rely on in the tables *)

(** Documented shape of the index data: the half-width katakana map into the
    katakana block, the Big5 index starts below the encoder's first pointer and
    reaches it, and the gb18030 ranges are sorted and start at U+0080. *)
Class LookupTablesLaws `{LookupTables} : Prop := {
  katakana_length : length s_iso_2022_jp_katakana_index = 63%nat;
  katakana_range : Forall (fun v => 0x3001 <= v <= 0x30FF) s_iso_2022_jp_katakana_index;
  big5_first_pointer : 0 <= s_big5_index_first_pointer < 5024;
  big5_length : (Z.to_nat (5024 - s_big5_index_first_pointer) < length s_big5_index)%nat;
  ranges_first : head (snd <$> s_gb18030_ranges) = Some 0x80;
  ranges_sorted : forall i j x y, (i < j)%nat ->
    (snd <$> s_gb18030_ranges) !! i = Some x -> (snd <$> s_gb18030_ranges) !! j = Some y -> x < y;
  ranges_bound : Forall (fun entry => 0 <= entry.2 < 2 ^ 31) s_gb18030_ranges
}.

(** The first entries of the real tables, for concrete runs. *)
#[export] Instance excerpt_tables : LookupTables | 100 := {
  s_jis0208_index := [0x3000; 0x3001; 0x3002; 0xFF0C; 0xFF0E; 0x30FB];
  s_jis0212_index := [0x02D8; 0x02C7; 0x00B8];
  s_jis0212_index_first_pointer := 108;
  s_euc_kr_index := [0xAC02; 0xAC03; 0xAC05];
  s_gb18030_index := [0x4E02; 0x4E04; 0x4E05];
  s_gb18030_ranges := [(0, 0x80); (36, 0xA5); (38, 0xA9); (45, 0xB2); (50, 0xB8); (81, 0xD8);
                       (39394, 0xFFE6); (189000, 0x10000)];
  s_big5_index := repeat 0xFFFD 4082 ++ [0x3000; 0xFF0C; 0x3001];
  s_big5_index_first_pointer := 942;
  s_iso_2022_jp_katakana_index := [0x3002; 0x300C; 0x300D; 0x3001; 0x30FB; 0x30F2] ++ repeat 0x30A1 57;
  single_byte_index := fun index =>
    match index with
    | windows_1252 => [0x20AC; 0x81; 0x201A; 0x0192; 0x201E] ++ repeat 0x2026 123
    | windows_1253 => [0x20AC; 0x81; 0x201A; 0x0192; 0x201E] ++ repeat 0x85 37 ++ [0xFFFD] ++ repeat 0xAB 85
    | _ => repeat 0xFFFD 128
    end
}.

#[export] Instance excerpt_tables_laws : LookupTablesLaws.
Proof.
  split; [done|..].
  - cbn [s_iso_2022_jp_katakana_index excerpt_tables]. apply Forall_app.
    split; [repeat constructor; lia|]. apply Forall_forall. intros x Hx.
    apply list_elem_of_In in Hx. apply repeat_spec in Hx. lia.
  - simpl. lia.
  - vm_compute. lia.
  - done.
  - intros i j x y Hij. simpl.
    do 8 (destruct i as [|i]; [simpl; intros [= <-]; do 8 (destruct j as [|j]; [simpl; intros; simplify_eq; lia|]); done|]).
    done.
  - repeat constructor; simpl; lia.
Qed.

(** ** Facts: the gb18030 ranges *)

Lemma int_of_u32_difference a b :
  0 <= a < 2 ^ 31 -> 0 <= b < 2 ^ 31 -> int_of_u32 (a - b) = a - b.
Proof.
  intros Ha Hb. unfold int_of_u32, u32.
  destruct (decide (b <= a)).
  - rewrite Z.mod_small by lia. by rewrite (proj2 (Z.ltb_lt _ _)) by lia.
  - replace ((a - b) mod 2 ^ 32) with (a - b + 2 ^ 32).
    2: { rewrite <- (Z.mod_small (a - b + 2 ^ 32) (2 ^ 32)) by lia.
         rewrite <- (Z.mul_1_l (2 ^ 32)) at 1. by rewrite Z.mod_add by lia. }
    rewrite (proj2 (Z.ltb_ge _ _)) by lia. lia.
Qed.

(** Searching a table sorted by [key] finds the last entry that is not above
    the needle. *)
Lemma table_search {A} (key : A -> Z) (table : list A) (needle : Z) :
  0 <= needle < 2 ^ 31 -> Forall (fun entry => 0 <= key entry < 2 ^ 31) table ->
  (exists first, head (key <$> table) = Some first /\ first <= needle) ->
  (forall i j x y, (i < j)%nat -> (key <$> table) !! i = Some x -> (key <$> table) !! j = Some y -> x < y) ->
  exists found i entry,
    binary_search (fun entry => int_of_u32 (needle - key entry)) table = Ret (found, i)
    /\ table !! i = Some entry /\ key entry <= needle
    /\ forall entry, table !! S i = Some entry -> needle < key entry.
Proof.
  intros Hn Hbound (first & Hfirst & Hle) Hsorted.
  assert (Hcmp : forall j x, table !! j = Some x -> int_of_u32 (needle - key x) = needle - key x).
  { intros j x Hx. pose proof (Forall_lookup_1 _ _ _ _ Hbound Hx) as Hb. cbn beta in Hb.
    apply int_of_u32_difference; lia. }
  destruct (binary_search_ok (fun entry => int_of_u32 (needle - key entry)) table)
    as (found & i & Hi & _ & Hlast).
  { intros i j x y Hij Hx Hy. rewrite (Hcmp i x Hx), (Hcmp j y Hy).
    pose proof (Hsorted i j (key x) (key y) Hij) as Hlt.
    rewrite !list_lookup_fmap, Hx, Hy in Hlt. specialize (Hlt eq_refl eq_refl). lia. }
  destruct Hlast as ((entry & Hx & Hge) & Hnext).
  - intros x Hx. rewrite (Hcmp _ _ Hx). destruct table as [|e l]; [done|].
    simpl in *. simplify_eq. lia.
  - intros ->. done.
  - exists found, i, entry. rewrite (Hcmp _ _ Hx) in Hge.
    split; [done|]. split; [done|]. split; [lia|]. intros next Hentry.
    specialize (Hnext next Hentry). rewrite (Hcmp _ _ Hentry) in Hnext. lia.
Qed.

Lemma gb18030_ranges_search `{LookupTablesLaws} code_point :
  0x80 <= code_point < 2 ^ 31 ->
  exists found i pointer offset,
    binary_search (fun entry => int_of_u32 (code_point - entry.2)) s_gb18030_ranges = Ret (found, i)
    /\ s_gb18030_ranges !! i = Some (pointer, offset) /\ offset <= code_point
    /\ forall entry, s_gb18030_ranges !! S i = Some entry -> code_point < entry.2.
Proof.
  intros Hcp. destruct (table_search snd s_gb18030_ranges code_point) as (found & i & [p o] & ?);
    [lia|exact ranges_bound| |exact ranges_sorted|by exists found, i, p, o].
  exists 0x80. split; [exact ranges_first|lia].
Qed.

(** ** Facts: every encoder returns *)

Definition event_ok (event : encoder_event) : Prop :=
  match event with on_byte b => 0 <= b < 256 | on_error cp => 0 <= cp < 2 ^ 32 end.

(** A result that is a list of callbacks with arguments in range. *)
Definition events_ok (r : res (list encoder_event)) : Prop :=
  exists events, r = Ret events /\ Forall event_ok events.

Lemma events_ok_ret events : Forall event_ok events -> events_ok (Ret events).
Proof. intros Hok. by exists events. Qed.

Lemma on_byte_ok z : event_ok (on_byte (u8 z)).
Proof. apply u8_range. Qed.

(** Closes the leaves of an encoder: a fixed list of events. *)
Ltac each_event :=
  repeat (apply Forall_cons_2; [first [apply on_byte_ok | simpl in *; lia]|]); apply Forall_nil_2.
Ltac events := apply events_ok_ret; each_event.

Lemma process_items_ok f items :
  Forall (fun cp => events_ok (f cp)) items -> events_ok (process_items f items).
Proof.
  induction 1 as [|item items (e & He & Hok) _ (r & Hr & Hrok)]; [by apply events_ok_ret|].
  simpl. rewrite He. simpl. rewrite Hr. simpl. apply events_ok_ret. by apply Forall_app.
Qed.

Section totality.
Context `{LookupTablesLaws}.

Abbreviation code_point_ok := (fun cp : Z => 0 <= cp < 2 ^ 31).

Lemma euc_jp_item_ok cp : code_point_ok cp -> events_ok (euc_jp_item cp).
Proof. intros Hcp. unfold euc_jp_item. repeat case_match; events. Qed.

Lemma shift_jis_item_ok cp : code_point_ok cp -> events_ok (shift_jis_item cp).
Proof. intros Hcp. unfold shift_jis_item. repeat case_match; events. Qed.

Lemma euc_kr_item_ok cp : code_point_ok cp -> events_ok (euc_kr_item cp).
Proof. intros Hcp. unfold euc_kr_item. repeat case_match; events. Qed.

Lemma single_byte_item_ok table cp : code_point_ok cp -> events_ok (single_byte_item table cp).
Proof. intros Hcp. unfold single_byte_item. repeat case_match; events. Qed.

Lemma gb18030_item_ok gbk cp : code_point_ok cp -> events_ok (gb18030_item gbk cp).
Proof.
  intros Hcp. unfold gb18030_item. destruct (is_ascii cp) eqn:Ha; [events|].
  destruct (cp =? 58853); [events|]. destruct (gbk && _); [events|].
  destruct (code_point_index _ _); [events|].
  destruct gbk; [events|]. unfold index_gb18030_ranges_pointer.
  destruct (cp =? 59335); [events|].
  destruct (gb18030_ranges_search cp) as (f & i & p & o & Hs & Hi & _); [ascii_lia|].
  rewrite Hs. unfold at_index. simpl. rewrite Hi. simpl. events.
Qed.

Lemma big5_scan_down_ok i start cp :
  0 < start -> (i < length s_big5_index)%nat -> exists p, big5_scan_down i start cp = Ret p.
Proof.
  intros Hstart. induction i as [|i IH]; intros Hi; cbn [big5_scan_down].
  - rewrite (proj2 (Z.ltb_lt _ _)) by lia. by eexists.
  - destruct (_ <? start); [by eexists|]. unfold at_index.
    destruct (lookup_lt_is_Some_2 s_big5_index (S i) Hi) as [v ->]. simpl.
    destruct (v =? cp); [by eexists|]. apply IH. lia.
Qed.

Lemma index_big5_pointer_ok cp : exists p, index_big5_pointer cp = Ret p.
Proof.
  unfold index_big5_pointer. cbv zeta. destruct (existsb _ _); [|by eexists].
  pose proof big5_length. pose proof big5_first_pointer.
  destruct (length s_big5_index) as [|last] eqn:Hlen; [lia|].
  apply big5_scan_down_ok; [|lia]. rewrite u32_id; lia.
Qed.

Lemma big5_item_ok cp : code_point_ok cp -> events_ok (big5_item cp).
Proof.
  intros Hcp. unfold big5_item. destruct (is_ascii cp); [events|].
  destruct (index_big5_pointer_ok cp) as [[p|] ->]; simpl; events.
Qed.

(** An item the middle steps of [process_item] leave as it is. *)
Definition jis_item (item : Z) : Prop :=
  is_ascii item = false /\ item <> 0xA5 /\ item <> 0x203E /\ item <> 0x2212
  /\ ~ (0xFF61 <= item <= 0xFF9F) /\ 0 <= item < 2 ^ 31.

Definition jis_step (fuel : nat) (item : Z) (state : ISO2022JPState) :=
  match code_point_index s_jis0208_index item with
  | None =>
      if iso_2022_jp_state_is state jis0208 then
        let* (state, events) := iso_2022_jp_item fuel item ASCII in
        Ret (state, [on_byte 0x1B; on_byte 0x28; on_byte 0x4A] ++ events)
      else Ret (state, [on_error item])
  | Some pointer =>
      if negb (iso_2022_jp_state_is state jis0208) then
        let* (state, events) := iso_2022_jp_item fuel item jis0208 in
        Ret (state, [on_byte 0x1B; on_byte 0x24; on_byte 0x42] ++ events)
      else
        let lead := pointer / 94 + 0x21 in
        let trail := pointer mod 94 + 0x21 in
        Ret (state, [on_byte (u8 lead); on_byte (u8 trail)])
  end.

Lemma iso_2022_jp_jis_item fuel item state :
  jis_item item -> iso_2022_jp_item (S fuel) item state = jis_step fuel item state.
Proof.
  intros (Ha & HA5 & H203E & H2212 & Hkata & _). cbn [iso_2022_jp_item]. rewrite Ha.
  rewrite (proj2 (Z.eqb_neq item 0xA5)), (proj2 (Z.eqb_neq item 0x203E)), (proj2 (Z.eqb_neq item 0x2212)) by done.
  replace ((65377 <=? item) && (item <=? 65439)) with false by lia.
  replace ((item =? 14) || (item =? 15) || (item =? 27)) with false by ascii_lia.
  rewrite !andb_false_r. done.
Qed.

Lemma jis_step_ok fuel item state :
  jis_item item -> exists state' events,
    jis_step (S (S fuel)) item state = Ret (state', events) /\ Forall event_ok events.
Proof.
  intros Hj. assert (Hi := Hj). destruct Hi as (_ & _ & _ & _ & _ & Hr). unfold jis_step.
  destruct (code_point_index s_jis0208_index item) as [pointer|] eqn:Hp; destruct state; simpl negb;
    cbv iota; rewrite ?iso_2022_jp_jis_item by done; unfold jis_step; rewrite ?Hp; simpl.
  all: eexists _, _; split; [done|]; each_event.
Qed.

Definition item_ok (r : res (ISO2022JPState * list encoder_event)) : Prop :=
  exists state events, r = Ret (state, events) /\ Forall event_ok events.

Lemma item_ok_prefix r prefix :
  item_ok r -> Forall event_ok prefix ->
  item_ok (let* (state, events) := r in Ret (state, prefix ++ events)).
Proof. intros (s & e & -> & He) Hp. exists s, (prefix ++ e). split; [done|]. by apply Forall_app. Qed.

Lemma iso_2022_jp_ascii_item fuel item :
  is_ascii item = true -> item_ok (iso_2022_jp_item (S fuel) item ASCII).
Proof.
  intros Ha. cbn [iso_2022_jp_item]. rewrite Ha. cbn [iso_2022_jp_state_is orb andb].
  destruct (_ || _); eexists _, _; (split; [done|]; each_event).
Qed.

Lemma iso_2022_jp_yen_item fuel item :
  item = 0xA5 \/ item = 0x203E -> item_ok (iso_2022_jp_item (S fuel) item Roman).
Proof. intros [->| ->]; eexists _, _; (split; [reflexivity|]; each_event). Qed.

(** The substitutions of the encoder: the minus sign, and the half-width
    katakana by the table. *)
Definition iso_2022_jp_canonical (cp : Z) : Z :=
  let item := if cp =? 0x2212 then 0xFF0D else cp in
  if (0xFF61 <=? item) && (item <=? 0xFF9F)
  then default item (s_iso_2022_jp_katakana_index !! Z.to_nat (item - 0xFF61)) else item.

(** An item that is neither ASCII nor in the Roman set is looked up in jis0208
    after the substitutions. *)
Lemma iso_2022_jp_other_item fuel cp state :
  is_ascii cp = false -> ~ (cp = 0xA5 \/ cp = 0x203E) -> 0 <= cp < 2 ^ 31 ->
  jis_item (iso_2022_jp_canonical cp)
  /\ iso_2022_jp_item (S fuel) cp state = jis_step fuel (iso_2022_jp_canonical cp) state.
Proof.
  intros Ha Hn Hr. unfold iso_2022_jp_canonical. cbn [iso_2022_jp_item]. rewrite Ha.
  rewrite (proj2 (Z.eqb_neq cp 0xA5)), (proj2 (Z.eqb_neq cp 0x203E)) by tauto.
  replace ((cp =? 14) || (cp =? 15) || (cp =? 27)) with false by ascii_lia.
  rewrite !andb_false_r. cbn [orb andb].
  set (item := if cp =? 0x2212 then 0xFF0D else cp). cbv zeta.
  destruct ((0xFF61 <=? item) && (item <=? 0xFF9F)) eqn:Hk.
  - pose proof katakana_length. destruct (lookup_lt_is_Some_2 s_iso_2022_jp_katakana_index
      (Z.to_nat (item - 0xFF61))) as [v Hv]; [lia|]. rewrite Hv. cbn [default unwrap res_bind].
    pose proof (Forall_lookup_1 _ _ _ _ katakana_range Hv) as Hrange. cbv beta in Hrange.
    unfold verify. rewrite (proj2 (Z.eqb_neq v 0xFFFD)) by lia. cbn [negb res_bind].
    change (id v) with v. split; [|done]. unfold jis_item. repeat split; try lia. ascii_lia.
  - cbn [res_bind]. split; [|done]. unfold item in *. unfold jis_item.
    destruct (Z.eqb_spec cp 0x2212); repeat split; try lia; try tauto.
Qed.

(** The recursion of [process_item] is at most three calls deep. *)
Lemma iso_2022_jp_item_total fuel item state :
  0 <= item < 2 ^ 31 -> item_ok (iso_2022_jp_item (S (S (S fuel))) item state).
Proof.
  intros Hr. destruct (is_ascii item) eqn:Ha.
  { destruct state; [by apply iso_2022_jp_ascii_item|..];
      remember (S (S fuel)) as fuel' eqn:Hf; cbn [iso_2022_jp_item]; rewrite Ha, Hf;
      repeat (case_match; [eexists _, _; (split; [done|]; each_event)|]).
    all: apply item_ok_prefix; [by apply iso_2022_jp_ascii_item|each_event]. }
  destruct (decide (item = 0xA5 \/ item = 0x203E)) as [Hy|Hn].
  { destruct state; [|by apply iso_2022_jp_yen_item|];
      remember (S (S fuel)) as fuel' eqn:Hf; cbn [iso_2022_jp_item]; rewrite Ha;
      replace ((item =? 165) || (item =? 8254)) with true by lia;
      replace ((item =? 14) || (item =? 15) || (item =? 27)) with false by lia; cbn [iso_2022_jp_state_is andb negb orb]; rewrite Hf.
    all: apply item_ok_prefix; [by apply iso_2022_jp_yen_item|each_event]. }
  destruct (iso_2022_jp_other_item (S (S fuel)) item state Ha Hn Hr) as [Hj ->]. by apply jis_step_ok.
Qed.

Lemma iso_2022_jp_process_ok items state :
  Forall code_point_ok items -> events_ok (iso_2022_jp_process items state).
Proof.
  intros Hitems. revert state. induction Hitems as [|item items Hi _ IH]; intros state; cbn [iso_2022_jp_process].
  { destruct (iso_2022_jp_state_is state ASCII); simpl; events. }
  destruct (iso_2022_jp_item_total 5 item state Hi) as (state' & events & -> & He). cbn [res_bind].
  destruct (IH state') as (rest & -> & Hrest). cbn [res_bind].
  apply events_ok_ret. by apply Forall_app.
Qed.

Lemma process_ok encoder input : all_bytes input -> events_ok (process encoder input).
Proof.
  intros Hin. assert (Hcps : Forall code_point_ok (code_points input)).
  { eapply Forall_impl; [exact (code_points_range input Hin)|]. simpl. lia. }
  destruct encoder; unfold process.
  1: { apply events_ok_ret. apply Forall_fmap. eapply Forall_impl; [exact Hin|]. simpl. intros b Hb. ascii_lia. }
  2: by apply iso_2022_jp_process_ok.
  all: apply process_items_ok; (eapply Forall_impl; [exact Hcps|]); intros cp Hcp; cbn beta.
  - by apply euc_jp_item_ok.
  - by apply shift_jis_item_ok.
  - by apply euc_kr_item_ok.
  - by apply big5_item_ok.
  - by apply gb18030_item_ok.
  - by apply single_byte_item_ok.
Qed.

End totality.

(** ** Facts: ASCII and labels *)

Lemma process_items_ascii f s :
  (forall b, 0 <= b < 128 -> f b = Ret [on_byte b]) -> Forall (fun b => 0 <= b < 128) s ->
  process_items f s = Ret (on_byte <$> s).
Proof.
  intros Hf. induction 1 as [|b s Hb Hs IH]; [done|]. cbn [process_items].
  rewrite Hf by done. cbn [res_bind]. rewrite IH. done.
Qed.

Lemma iso_2022_jp_ascii `{LookupTables} s :
  Forall (fun b => 0 <= b < 128) s ->
  forallb (fun b => negb ((b =? 0x0E) || (b =? 0x0F) || (b =? 0x1B))) s = true ->
  iso_2022_jp_process s ASCII = Ret (on_byte <$> s).
Proof.
  induction 1 as [|b s Hb Hs IH]; intros Hc; [done|]. cbn [forallb] in Hc.
  apply andb_prop in Hc as [Hc Hcs]. apply negb_true_iff in Hc.
  cbn [iso_2022_jp_process]. remember 7%nat as fuel.
  cbn [iso_2022_jp_item iso_2022_jp_state_is orb andb].
  rewrite Hc. replace (is_ascii b) with true by ascii_lia. cbn [res_bind].
  rewrite IH by done. cbn [res_bind]. by rewrite u8_id by lia.
Qed.

Lemma find_row_In {A} (rows : list (list bytes * A)) s v :
  find_row rows s = Some v -> In v (snd <$> rows).
Proof.
  induction rows as [|[strings w] rows IH]; [done|]. simpl.
  destruct (is_one_of_ignoring_ascii_case s strings); [intros [= <-]; by left|]. intros Hf. right. by apply IH.
Qed.

(** Encodings without an encoder of their own. *)
Definition without_encoder (name : bytes) : bool :=
  sv_eqb name (sv "PDFDocEncoding") || sv_eqb name (sv "x-user-defined").

(** What is checked of each row of the label table. *)
Definition label_row_ok (name : bytes) : bool :=
  match get_standardized_encoding name with
  | Some name' => equals_ignoring_ascii_case name name'
  | None => false
  end
  && (match encoder_for (get_output_encoding name) with Some _ => true | None => false end
      || without_encoder name).

Lemma label_rows_ok : forallb label_row_ok (snd <$> encoding_labels) = true.
Proof. vm_compute. reflexivity. Qed.

Lemma find_code_point_from_In table i cp :
  In cp table -> exists j, find_code_point_from table i cp = Some j.
Proof.
  revert i. induction table as [|v table IH]; intros i; [done|]. simpl.
  destruct (Z.eqb_spec v cp); [by eexists|]. intros [?|Hin]; [done|]. by apply IH.
Qed.

(** ** Properties *)

(** No encoder crashes and every callback argument is in range: on any
    input, [process] returns a sequence of bytes (0 to 255) and of unencodable
    32-bit code points.  In particular the recursion of the ISO-2022-JP encoder
    ends, its katakana lookup always succeeds, the descending Big5 scan stops
    and the gb18030 range search stays in bounds. *)
Theorem encoders_safe `{LookupTablesLaws} (encoder : Encoder) (input : bytes) (Hin : all_bytes input) :
  exists events, process encoder input = Ret events /\ Forall event_ok events.
Proof. exact (process_ok encoder input Hin). Qed.

Lemma encoders_safe_witness :
  exists events, process ISO2022JPEncoder [0xE3; 0x80; 0x80; 0xC3; 0xA9; 0x5C] = Ret events
    /\ Forall event_ok events.
Proof. apply encoders_safe. repeat constructor. Defined.

(** Every encoder writes ASCII text unchanged (the ISO-2022-JP encoder
    except for U+000E, U+000F and U+001B, which it must refuse). *)
Theorem encoders_preserve_ascii `{LookupTables} (encoder : Encoder) (s : bytes)
    (Hs : Forall (fun b => 0 <= b < 128) s)
    (Hc : forallb (fun b => negb ((b =? 0x0E) || (b =? 0x0F) || (b =? 0x1B))) s = true) :
  process encoder s = Ret (on_byte <$> s).
Proof.
  unfold process. rewrite code_points_ascii by done.
  destruct encoder; [done| |by apply iso_2022_jp_ascii|..];
    (apply process_items_ascii; [|done]); intros b Hb;
    unfold euc_jp_item, shift_jis_item, euc_kr_item, big5_item, gb18030_item, single_byte_item;
    rewrite u8_id by lia; (replace (is_ascii b) with true by ascii_lia) || (replace (b <? 0x80) with true by lia);
    done.
Qed.

Lemma encoders_preserve_ascii_witness :
  process (GB18030Encoder true) (sv "q=1") = Ret (on_byte <$> sv "q=1").
Proof. apply encoders_preserve_ascii; [repeat constructor; lia|reflexivity]. Defined.

(** Resolving an encoding label is idempotent up to ASCII case, and every
    encoding it resolves to has an encoder for output, after the substitutions
    of [get_output_encoding], except for the two that have only a decoder. *)
Theorem labels_resolve (label name : bytes) (Hl : get_standardized_encoding label = Some name) :
  (exists name', get_standardized_encoding name = Some name' /\ equals_ignoring_ascii_case name name' = true)
  /\ (is_Some (encoder_for (get_output_encoding name)) \/ without_encoder name = true).
Proof.
  apply find_row_In in Hl. pose proof label_rows_ok as Hrows. rewrite forallb_forall in Hrows.
  specialize (Hrows name Hl). unfold label_row_ok in Hrows. apply andb_prop in Hrows as [Hname Henc].
  split.
  - destruct (get_standardized_encoding name) as [name'|]; [|done]. by exists name'.
  - destruct (encoder_for _); [left; eauto|right; exact Henc].
Qed.

Lemma labels_resolve_witness :
  (exists name', get_standardized_encoding (sv "Shift_JIS") = Some name'
     /\ equals_ignoring_ascii_case (sv "Shift_JIS") name' = true)
  /\ (is_Some (encoder_for (get_output_encoding (sv "Shift_JIS"))) \/ without_encoder (sv "Shift_JIS") = true).
Proof. apply (labels_resolve (sv "ms_Kanji")). vm_compute. reflexivity. Defined.

(** For a code point from U+0080 on, other than U+E7C7, the gb18030 range
    pointer is computed from the last range that starts at or before it, which
    the binary search finds. *)
Theorem gb18030_ranges_pointer_correct `{LookupTablesLaws} (code_point : Z)
    (Hcp : 0x80 <= code_point < 2 ^ 31) (Hne : code_point <> 0xE7C7) :
  exists i pointer offset,
    s_gb18030_ranges !! i = Some (pointer, offset) /\ offset <= code_point
    /\ (forall entry, s_gb18030_ranges !! S i = Some entry -> code_point < entry.2)
    /\ index_gb18030_ranges_pointer code_point = Ret (u32 (u32 (pointer + code_point) - offset)).
Proof.
  destruct (gb18030_ranges_search code_point Hcp) as (f & i & p & o & Hs & Hi & Hle & Hnext).
  exists i, p, o. repeat split; try done. unfold index_gb18030_ranges_pointer.
  rewrite (proj2 (Z.eqb_neq _ _) Hne), Hs. cbn [res_bind]. unfold at_index. by rewrite Hi.
Qed.

Lemma gb18030_ranges_pointer_correct_witness :
  exists i pointer offset,
    s_gb18030_ranges !! i = Some (pointer, offset) /\ offset <= 0xAC
    /\ (forall entry, s_gb18030_ranges !! S i = Some entry -> 0xAC < entry.2)
    /\ index_gb18030_ranges_pointer 0xAC = Ret (u32 (u32 (pointer + 0xAC) - offset)).
Proof. apply gb18030_ranges_pointer_correct; lia. Defined.

(** Leaving JIS X 0208 because of an unencodable code point, the
    ISO-2022-JP encoder goes on in its ASCII state but has written ESC ( J, the
    escape sequence of the Roman set, where the comment above it and the
    Encoding standard have ESC ( B. *)
Theorem iso_2022_jp_writes_roman_escape `{LookupTables} (item : Z) (Hj : jis_item item)
    (Hn : code_point_index s_jis0208_index item = None) :
  iso_2022_jp_item 8 item jis0208
  = Ret (ASCII, [on_byte 0x1B; on_byte 0x28; on_byte 0x4A; on_error item]).
Proof.
  rewrite iso_2022_jp_jis_item by done. unfold jis_step. rewrite Hn.
  cbn [iso_2022_jp_state_is]. rewrite iso_2022_jp_jis_item by done. unfold jis_step. by rewrite Hn.
Qed.

Lemma iso_2022_jp_writes_roman_escape_witness :
  iso_2022_jp_item 8 0xE9 jis0208
  = Ret (ASCII, [on_byte 0x1B; on_byte 0x28; on_byte 0x4A; on_error 0xE9]).
Proof. apply iso_2022_jp_writes_roman_escape; [unfold jis_item; repeat split; lia|reflexivity]. Defined.

(** A single-byte encoder does not refuse U+FFFD when its table has
    unassigned positions: the generated table marks them with 0xFFFD, so the
    encoder writes the byte of the first unassigned position. *)
Theorem replacement_character_is_encoded `{LookupTables} (index : SingleByteIndex)
    (Hhole : In 0xFFFD (single_byte_index index)) :
  exists byte, process (SingleByteEncoder index) [0xEF; 0xBF; 0xBD] = Ret [on_byte byte].
Proof.
  destruct (find_code_point_from_In _ 0 _ Hhole) as [j Hj]. exists (u8 (j + 0x80)).
  change (code_points [0xEF; 0xBF; 0xBD]) with [0xFFFD]. unfold process.
  change (code_points [0xEF; 0xBF; 0xBD]) with [0xFFFD]. cbn [process_items].
  unfold single_byte_item, code_point_index. rewrite Hj. done.
Qed.

Lemma replacement_character_is_encoded_witness :
  exists byte, process (SingleByteEncoder windows_1253) [0xEF; 0xBF; 0xBD] = Ret [on_byte byte].
Proof. apply replacement_character_is_encoded. apply in_or_app. right. apply in_or_app. right. apply in_or_app. left. by left. Defined.
