(* ===== verification/Decoders.v ===== *)
(** * Text decoders: [LibTextCodec/Decoder.cpp] and [LibTextCodec/Decoder.h]

    [Decoder::process] calls [on_code_point] once per code point; a decoder is
    modelled by the list of the calls it makes.  The decoders of the multi-byte
    encodings are loops over an index into the input and a few bytes of state;
    each is a [*_step] function, one iteration of the loop, which [decode_loop]
    iterates.  The index is a [size_t]: putting bytes back subtracts from it
    with wrap-around, and reading past the end stops the process. *)

From S2P Require Import Prelude BinarySearch CharacterTypes Utf8 Utf16 Strings TextCodec.

Definition replacement_code_point : Z := 0xfffd.

(** ** Loops *)

(** What one iteration does: return, or go on from a new state and index after
    calling [on_code_point] on some code points. *)
Inductive outcome (S : Type) :=
  | Finished
  | Continue (state : S) (index : Z) (code_points : list Z).
Arguments Finished {S}.
Arguments Continue {S} state index code_points.

Fixpoint decode_loop {S} (step : S -> Z -> res (outcome S)) (fuel : nat) (state : S) (index : Z)
    : res (list Z) :=
  match fuel with
  | O => Crash
  | Datatypes.S fuel =>
      let* next := step state index in
      match next with
      | Finished => Ret []
      | Continue state index code_points =>
          let* rest := decode_loop step fuel state index in
          Ret (code_points ++ rest)
      end
  end.

(** No loop takes more than four iterations per byte of its input. *)
Definition decode_fuel (input : bytes) : nat := 4 * length input + 8.

(** [input[index]] *)
Definition byte_at (input : bytes) (index : Z) : res Z := at_index input (Z.to_nat index).

Definition at_end (input : bytes) (index : Z) : bool := Z.of_nat (length input) <=? index.

(** The accessors the generator writes: [index_*_code_point] *)
Definition index_code_point (table : list Z) (first_pointer pointer : Z) : option Z :=
  if (pointer <? first_pointer) || (Z.of_nat (length table) <=? pointer - first_pointer) then None
  else
    match table !! Z.to_nat (pointer - first_pointer) with
    | Some value => if value =? 0xfffd then None else Some value
    | None => None
    end.

Section decoders.
Context `{LookupTables}.

Definition index_jis0208_code_point (pointer : Z) : option Z := index_code_point s_jis0208_index 0 pointer.
Definition index_jis0212_code_point (pointer : Z) : option Z :=
  index_code_point s_jis0212_index s_jis0212_index_first_pointer pointer.
Definition index_euc_kr_code_point (pointer : Z) : option Z := index_code_point s_euc_kr_index 0 pointer.
Definition index_gb18030_code_point (pointer : Z) : option Z := index_code_point s_gb18030_index 0 pointer.
Definition index_big5_code_point (pointer : Z) : option Z :=
  index_code_point s_big5_index s_big5_index_first_pointer pointer.

(** ** gb18030 *)

(** The pointers of GB-18030-2022 that the standard's ranges do not have. *)
Definition gb18030_2022_pointers : list (Z * Z) :=
  [(19057, 0xE81E); (19058, 0xE826); (19059, 0xE82B); (19060, 0xE82C); (19061, 0xE832);
   (19062, 0xE843); (19063, 0xE854); (19064, 0xE864); (39076, 0xE78D); (39077, 0xE78F);
   (39078, 0xE78E); (39079, 0xE790); (39080, 0xE791); (39081, 0xE792); (39082, 0xE793);
   (39083, 0xE794); (39084, 0xE795); (39085, 0xE796)].

(** [index_gb18030_ranges_code_point] *)
Definition index_gb18030_ranges_code_point (pointer : Z) : res (option Z) :=
  if ((39419 <? pointer) && (pointer <? 189000)) || (1237575 <? pointer) then Ret None
  else if pointer =? 7457 then Ret (Some 0xE7C7)
  else
    match find (fun entry => entry.1 =? pointer) gb18030_2022_pointers with
    | Some (_, code_point) => Ret (Some code_point)
    | None =>
        let* (_, last_index) := binary_search (fun entry => int_of_u32 (pointer - entry.1)) s_gb18030_ranges in
        let* entry := at_index s_gb18030_ranges last_index in
        let '(offset, code_point_offset) := entry in
        Ret (Some (u32 (u32 (code_point_offset + pointer) - offset)))
    end.

Record gb18030_state := { gb18030_first : Z; gb18030_second : Z; gb18030_third : Z }.

Definition gb18030_initial : gb18030_state := {| gb18030_first := 0; gb18030_second := 0; gb18030_third := 0 |}.

(** One iteration of [GB18030Decoder::process] *)
Definition gb18030_step (input : bytes) (state : gb18030_state) (index : Z) : res (outcome gb18030_state) :=
  let first := gb18030_first state in
  let second := gb18030_second state in
  let third := gb18030_third state in
  if at_end input index && (first =? 0) && (second =? 0) && (third =? 0) then Ret Finished
  else if at_end input index && (negb (first =? 0) || negb (second =? 0) || negb (third =? 0))
  then Ret (Continue gb18030_initial index [replacement_code_point])
  else
    let* byte := byte_at input index in
    let index := size_t (index + 1) in
    if negb (third =? 0) then
      if (byte <? 0x30) || (0x39 <? byte)
      then Ret (Continue gb18030_initial (size_t (index - 3)) [replacement_code_point])
      else
        let* code_point := index_gb18030_ranges_code_point
          (u32 ((first - 0x81) * (10 * 126 * 10) + (second - 0x30) * (10 * 126) + (third - 0x81) * 10 + byte - 0x30)) in
        Ret (Continue gb18030_initial index [default replacement_code_point code_point])
    else if negb (second =? 0) then
      if (0x81 <=? byte) && (byte <=? 0xFE)
      then Ret (Continue {| gb18030_first := first; gb18030_second := second; gb18030_third := byte |} index [])
      else
        Ret (Continue {| gb18030_first := 0; gb18030_second := 0; gb18030_third := third |}
               (size_t (index - 2)) [replacement_code_point])
    else if negb (first =? 0) then
      if (0x30 <=? byte) && (byte <=? 0x39)
      then Ret (Continue {| gb18030_first := first; gb18030_second := byte; gb18030_third := third |} index [])
      else
        let lead := first in
        let state := {| gb18030_first := 0; gb18030_second := second; gb18030_third := third |} in
        let offset := if byte <? 0x7F then 0x40 else 0x41 in
        let pointer :=
          if ((0x40 <=? byte) && (byte <=? 0x7E)) || ((0x80 <=? byte) && (byte <=? 0xFE))
          then Some (u32 ((lead - 0x81) * 190 + (byte - offset))) else None in
        match pointer ≫= index_gb18030_code_point with
        | Some code_point => Ret (Continue state index [code_point])
        | None =>
            let index := if byte <=? 0x7F then size_t (index - 1) else index in
            Ret (Continue state index [replacement_code_point])
        end
    else if byte <=? 0x7F then Ret (Continue state index [byte])
    else if byte =? 0x80 then Ret (Continue state index [0x20AC])
    else if (0x81 <=? byte) && (byte <=? 0xFE)
    then Ret (Continue {| gb18030_first := byte; gb18030_second := second; gb18030_third := third |} index [])
    else Ret (Continue state index [replacement_code_point]).

(** ** Encodings with a lead byte

    [Big5Decoder], [ShiftJISDecoder] and [EUCKRDecoder] keep one byte of state. *)

Definition big5_step (input : bytes) (big5_lead : Z) (index : Z) : res (outcome Z) :=
  if at_end input index && negb (big5_lead =? 0) then Ret (Continue 0 index [replacement_code_point])
  else if at_end input index && (big5_lead =? 0) then Ret Finished
  else
    let* byte := byte_at input index in
    let index := size_t (index + 1) in
    if negb (big5_lead =? 0) then
      let lead := big5_lead in
      let offset := if byte <? 0x7F then 0x40 else 0x62 in
      let pointer :=
        if ((0x40 <=? byte) && (byte <=? 0x7E)) || ((0xA1 <=? byte) && (byte <=? 0xFE))
        then Some (u32 ((lead - 0x81) * 157 + (byte - offset))) else None in
      if bool_decide (pointer = Some 1133) then Ret (Continue 0 index [0x00CA; 0x0304])
      else if bool_decide (pointer = Some 1135) then Ret (Continue 0 index [0x00CA; 0x030C])
      else if bool_decide (pointer = Some 1164) then Ret (Continue 0 index [0x00EA; 0x0304])
      else if bool_decide (pointer = Some 1166) then Ret (Continue 0 index [0x00EA; 0x030C])
      else
        match pointer ≫= index_big5_code_point with
        | Some code_point => Ret (Continue 0 index [code_point])
        | None =>
            let index := if byte <=? 0x7F then size_t (index - 1) else index in
            Ret (Continue 0 index [replacement_code_point])
        end
    else if byte <=? 0x7F then Ret (Continue 0 index [byte])
    else if (0x81 <=? byte) && (byte <=? 0xFE) then Ret (Continue byte index [])
    else Ret (Continue 0 index [replacement_code_point]).

Definition shift_jis_step (input : bytes) (shift_jis_lead : Z) (index : Z) : res (outcome Z) :=
  if at_end input index && negb (shift_jis_lead =? 0) then Ret (Continue 0 index [replacement_code_point])
  else if at_end input index && (shift_jis_lead =? 0) then Ret Finished
  else
    let* byte := byte_at input index in
    let index := size_t (index + 1) in
    if negb (shift_jis_lead =? 0) then
      let lead := shift_jis_lead in
      let offset := if byte <? 0x7F then 0x40 else 0x41 in
      let lead_offset := if lead <? 0xA0 then 0x81 else 0xC1 in
      let pointer :=
        if ((0x40 <=? byte) && (byte <=? 0x7E)) || ((0x80 <=? byte) && (byte <=? 0xFC))
        then Some (u32 ((lead - lead_offset) * 188 + byte - offset)) else None in
      match pointer with
      | Some pointer =>
          if (8836 <=? pointer) && (pointer <=? 10715)
          then Ret (Continue 0 index [u32 (0xE000 - 8836 + pointer)])
          else
            match index_jis0208_code_point pointer with
            | Some code_point => Ret (Continue 0 index [code_point])
            | None =>
                let index := if byte <=? 0x7F then size_t (index - 1) else index in
                Ret (Continue 0 index [replacement_code_point])
            end
      | None =>
          let index := if byte <=? 0x7F then size_t (index - 1) else index in
          Ret (Continue 0 index [replacement_code_point])
      end
    else if byte <=? 0x80 then Ret (Continue 0 index [byte])
    else if (0xA1 <=? byte) && (byte <=? 0xDF) then Ret (Continue 0 index [0xFF61 - 0xA1 + byte])
    else if ((0x81 <=? byte) && (byte <=? 0x9F)) || ((0xE0 <=? byte) && (byte <=? 0xFC))
    then Ret (Continue byte index [])
    else Ret (Continue 0 index [replacement_code_point]).

Definition euc_kr_step (input : bytes) (euc_kr_lead : Z) (index : Z) : res (outcome Z) :=
  if at_end input index && negb (euc_kr_lead =? 0) then Ret (Continue 0 index [replacement_code_point])
  else if at_end input index && (euc_kr_lead =? 0) then Ret Finished
  else
    let* byte := byte_at input index in
    let index := size_t (index + 1) in
    if negb (euc_kr_lead =? 0) then
      let lead := euc_kr_lead in
      let pointer :=
        if (0x41 <=? byte) && (byte <=? 0xFE)
        then Some (u32 ((lead - 0x81) * 190 + (byte - 0x41))) else None in
      match pointer ≫= index_euc_kr_code_point with
      | Some code_point => Ret (Continue 0 index [code_point])
      | None =>
          let index := if byte <=? 0x7F then size_t (index - 1) else index in
          Ret (Continue 0 index [replacement_code_point])
      end
    else if byte <=? 0x7F then Ret (Continue 0 index [byte])
    else if (0x81 <=? byte) && (byte <=? 0xFE) then Ret (Continue byte index [])
    else Ret (Continue 0 index [replacement_code_point]).

(** ** EUC-JP *)

Record euc_jp_state := { jis0212 : bool; euc_jp_lead : Z }.

(** One iteration of [EUCJPDecoder::process] *)
Definition euc_jp_step (input : bytes) (state : euc_jp_state) (index : Z) : res (outcome euc_jp_state) :=
  let is_jis0212 := jis0212 state in
  let lead := euc_jp_lead state in
  if at_end input index && negb (lead =? 0)
  then Ret (Continue {| jis0212 := is_jis0212; euc_jp_lead := 0 |} index [replacement_code_point])
  else if at_end input index && (lead =? 0) then Ret Finished
  else
    let* byte := byte_at input index in
    let index := size_t (index + 1) in
    if (lead =? 0x8E) && (0xA1 <=? byte) && (byte <=? 0xDF)
    then Ret (Continue {| jis0212 := is_jis0212; euc_jp_lead := 0 |} index [0xFF61 - 0xA1 + byte])
    else if (lead =? 0x8F) && (0xA1 <=? byte) && (byte <=? 0xFE)
    then Ret (Continue {| jis0212 := true; euc_jp_lead := byte |} index [])
    else if negb (lead =? 0) then
      let code_point :=
        if (0xA1 <=? lead) && (lead <=? 0xFE) && (0xA1 <=? byte) && (byte <=? 0xFE) then
          let pointer := u32 ((lead - 0xA1) * 94 + byte - 0xA1) in
          if is_jis0212 then index_jis0212_code_point pointer else index_jis0208_code_point pointer
        else None in
      let state := {| jis0212 := false; euc_jp_lead := 0 |} in
      match code_point with
      | Some code_point => Ret (Continue state index [code_point])
      | None =>
          let index := if byte <=? 0x7F then size_t (index - 1) else index in
          Ret (Continue state index [replacement_code_point])
      end
    else if byte <=? 0x7F then Ret (Continue state index [byte])
    else if (byte =? 0x8E) || (byte =? 0x8F) || ((0xA1 <=? byte) && (byte <=? 0xFE))
    then Ret (Continue {| jis0212 := is_jis0212; euc_jp_lead := byte |} index [])
    else Ret (Continue state index [replacement_code_point]).

(** ** ISO-2022-JP *)

(** The decoder's [ISO2022JPState] *)
Inductive ISO2022JPDecoderState :=
  | DecodeASCII | DecodeRoman | Katakana | LeadByte | TrailByte | EscapeStart | Escape.

Record iso_2022_jp_state := {
  decoder_state : ISO2022JPDecoderState;
  output_state : ISO2022JPDecoderState;
  iso2022_jp_lead : Z;
  iso2022_jp_output : bool
}.

Definition with_decoder_state (s : iso_2022_jp_state) (d : ISO2022JPDecoderState) : iso_2022_jp_state :=
  {| decoder_state := d; output_state := output_state s; iso2022_jp_lead := iso2022_jp_lead s;
     iso2022_jp_output := iso2022_jp_output s |}.
Definition with_output (s : iso_2022_jp_state) (o : bool) : iso_2022_jp_state :=
  {| decoder_state := decoder_state s; output_state := output_state s; iso2022_jp_lead := iso2022_jp_lead s;
     iso2022_jp_output := o |}.
Definition with_lead (s : iso_2022_jp_state) (l : Z) : iso_2022_jp_state :=
  {| decoder_state := decoder_state s; output_state := output_state s; iso2022_jp_lead := l;
     iso2022_jp_output := iso2022_jp_output s |}.
Definition with_state (s : iso_2022_jp_state) (d : ISO2022JPDecoderState) : iso_2022_jp_state :=
  {| decoder_state := d; output_state := d; iso2022_jp_lead := iso2022_jp_lead s;
     iso2022_jp_output := iso2022_jp_output s |}.

(** The set an escape sequence selects. *)
Definition escape_state (lead byte : Z) : option ISO2022JPDecoderState :=
  if (lead =? 0x28) && (byte =? 0x42) then Some DecodeASCII
  else if (lead =? 0x28) && (byte =? 0x4A) then Some DecodeRoman
  else if (lead =? 0x28) && (byte =? 0x49) then Some Katakana
  else if (lead =? 0x24) && ((byte =? 0x40) || (byte =? 0x42)) then Some LeadByte
  else None.

(** The cases of the switch for the second and the third byte of an escape
    sequence *)
Definition iso_2022_jp_escape_start (s : iso_2022_jp_state) (byte : option Z) (index : Z)
    : res (outcome iso_2022_jp_state) :=
  let restore index :=
    Ret (Continue (with_decoder_state (with_output s false) (output_state s)) index
           [replacement_code_point]) in
  match byte with
  | Some byte =>
      if (byte =? 0x24) || (byte =? 0x28)
      then Ret (Continue (with_decoder_state (with_lead s byte) Escape) index [])
      else restore (size_t (index - 1))
  | None => restore index
  end.

Definition iso_2022_jp_escape (s : iso_2022_jp_state) (byte : option Z) (index : Z)
    : res (outcome iso_2022_jp_state) :=
  let lead := iso2022_jp_lead s in
  let s := with_lead s 0 in
  match byte ≫= escape_state lead with
  | Some state =>
      let output := iso2022_jp_output s in
      Ret (Continue (with_output (with_state s state) true) index
             (if output then [replacement_code_point] else []))
  | None =>
      let index := size_t (index - match byte with Some _ => 2 | None => 1 end) in
      Ret (Continue (with_decoder_state (with_output s false) (output_state s)) index
             [replacement_code_point])
  end.

(** One iteration of [ISO2022JPDecoder::process] *)
Definition iso_2022_jp_step (input : bytes) (s : iso_2022_jp_state) (index : Z)
    : res (outcome iso_2022_jp_state) :=
  let* (byte, index) :=
    if index <? Z.of_nat (length input) then
      let* byte := byte_at input index in Ret (Some byte, size_t (index + 1))
    else Ret (None, index) in
  match decoder_state s with
  | DecodeASCII =>
      match byte with
      | Some byte =>
          if byte =? 0x1B then Ret (Continue (with_decoder_state s EscapeStart) index [])
          else if (byte <=? 0x7F) && negb (byte =? 0x0E) && negb (byte =? 0x0F)
          then Ret (Continue (with_output s false) index [byte])
          else Ret (Continue (with_output s false) index [replacement_code_point])
      | None => Ret Finished
      end
  | DecodeRoman =>
      match byte with
      | Some byte =>
          if byte =? 0x1B then Ret (Continue (with_decoder_state s EscapeStart) index [])
          else if byte =? 0x5C then Ret (Continue (with_output s false) index [0x00A5])
          else if byte =? 0x7E then Ret (Continue (with_output s false) index [0x203E])
          else if (byte <=? 0x7F) && negb (byte =? 0x0E) && negb (byte =? 0x0F)
          then Ret (Continue (with_output s false) index [byte])
          else Ret (Continue (with_output s false) index [replacement_code_point])
      | None => Ret Finished
      end
  | Katakana =>
      match byte with
      | Some byte =>
          if byte =? 0x1B then Ret (Continue (with_decoder_state s EscapeStart) index [])
          else if (0x21 <=? byte) && (byte <=? 0x5F)
          then Ret (Continue (with_output s false) index [0xFF61 - 0x21 + byte])
          else Ret (Continue (with_output s false) index [replacement_code_point])
      | None => Ret Finished
      end
  | LeadByte =>
      match byte with
      | Some byte =>
          if byte =? 0x1B then Ret (Continue (with_decoder_state s EscapeStart) index [])
          else if (0x21 <=? byte) && (byte <=? 0x7E)
          then Ret (Continue (with_decoder_state (with_lead (with_output s false) byte) TrailByte) index [])
          else Ret (Continue (with_output s false) index [replacement_code_point])
      | None => Ret Finished
      end
  | TrailByte =>
      match byte with
      | Some byte =>
          if byte =? 0x1B
          then Ret (Continue (with_decoder_state s EscapeStart) index [replacement_code_point])
          else if (0x21 <=? byte) && (byte <=? 0x7E) then
            let pointer := u32 ((iso2022_jp_lead s - 0x21) * 94 + byte - 0x21) in
            Ret (Continue (with_decoder_state s LeadByte) index
                   [default replacement_code_point (index_jis0208_code_point pointer)])
          else Ret (Continue (with_decoder_state s LeadByte) index [replacement_code_point])
      | None => Ret (Continue (with_decoder_state s LeadByte) index [replacement_code_point])
      end
  | EscapeStart => iso_2022_jp_escape_start s byte index
  | Escape => iso_2022_jp_escape s byte index
  end.

Definition iso_2022_jp_initial : iso_2022_jp_state :=
  {| decoder_state := DecodeASCII; output_state := DecodeASCII; iso2022_jp_lead := 0;
     iso2022_jp_output := false |}.

End decoders.

(** ** Single-byte and trivial decoders *)

(** The [translation_table] of [PDFDocEncodingDecoder::process] *)
Definition pdf_doc_translation_table : list Z :=
  [0x0000; 0x0001; 0x0002; 0x0003; 0x0004; 0x0005; 0x0006; 0x0007; 0x0008; 0x0009; 0x000A; 0x000B;
   0x000C; 0x000D; 0x000E; 0x000F; 0x0010; 0x0011; 0x0012; 0x0013; 0x0014; 0x0015; 0x0017; 0x0017;
   0x02D8; 0x02C7; 0x02C6; 0x02D9; 0x02DD; 0x02DB; 0x02DA; 0x02DC; 0x0020; 0x0021; 0x0022; 0x0023;
   0x0024; 0x0025; 0x0026; 0x0027; 0x0028; 0x0029; 0x002A; 0x002B; 0x002C; 0x002D; 0x002E; 0x002F;
   0x0030; 0x0031; 0x0032; 0x0033; 0x0034; 0x0035; 0x0036; 0x0037; 0x0038; 0x0039; 0x003A; 0x003B;
   0x003C; 0x003D; 0x003E; 0x003F; 0x0040; 0x0041; 0x0042; 0x0043; 0x0044; 0x0045; 0x0046; 0x0047;
   0x0048; 0x0049; 0x004A; 0x004B; 0x004C; 0x004D; 0x004E; 0x004F; 0x0050; 0x0051; 0x0052; 0x0053;
   0x0054; 0x0055; 0x0056; 0x0057; 0x0058; 0x0059; 0x005A; 0x005B; 0x005C; 0x005D; 0x005E; 0x005F;
   0x0060; 0x0061; 0x0062; 0x0063; 0x0064; 0x0065; 0x0066; 0x0067; 0x0068; 0x0069; 0x006A; 0x006B;
   0x006C; 0x006D; 0x006E; 0x006F; 0x0070; 0x0071; 0x0072; 0x0073; 0x0074; 0x0075; 0x0076; 0x0077;
   0x0078; 0x0079; 0x007A; 0x007B; 0x007C; 0x007D; 0x007E; 0xFFFC; 0x2022; 0x2020; 0x2021; 0x2026;
   0x2014; 0x2013; 0x0192; 0x2044; 0x2039; 0x203A; 0x2212; 0x2030; 0x201E; 0x201C; 0x201D; 0x2018;
   0x2019; 0x201A; 0x2122; 0xFB01; 0xFB02; 0x0141; 0x0152; 0x0160; 0x0178; 0x017D; 0x0131; 0x0142;
   0x0153; 0x0161; 0x017E; 0xFFFC; 0x20AC; 0x00A1; 0x00A2; 0x00A3; 0x00A4; 0x00A5; 0x00A6; 0x00A7;
   0x00A8; 0x00A9; 0x00AA; 0x00AB; 0x00AC; 0xFFFC; 0x00AE; 0x00AF; 0x00B0; 0x00B1; 0x00B2; 0x00B3;
   0x00B4; 0x00B5; 0x00B6; 0x00B7; 0x00B8; 0x00B9; 0x00BA; 0x00BB; 0x00BC; 0x00BD; 0x00BE; 0x00BF;
   0x00C0; 0x00C1; 0x00C2; 0x00C3; 0x00C4; 0x00C5; 0x00C6; 0x00C7; 0x00C8; 0x00C9; 0x00CA; 0x00CB;
   0x00CC; 0x00CD; 0x00CE; 0x00CF; 0x00D0; 0x00D1; 0x00D2; 0x00D3; 0x00D4; 0x00D5; 0x00D6; 0x00D7;
   0x00D8; 0x00D9; 0x00DA; 0x00DB; 0x00DC; 0x00DD; 0x00DE; 0x00DF; 0x00E0; 0x00E1; 0x00E2; 0x00E3;
   0x00E4; 0x00E5; 0x00E6; 0x00E7; 0x00E8; 0x00E9; 0x00EA; 0x00EB; 0x00EC; 0x00ED; 0x00EE; 0x00EF;
   0x00F0; 0x00F1; 0x00F2; 0x00F3; 0x00F4; 0x00F5; 0x00F6; 0x00F7; 0x00F8; 0x00F9; 0x00FA; 0x00FB;
   0x00FC; 0x00FD; 0x00FE; 0x00FF].

(** The lambda of [XUserDefinedDecoder::process] *)
Definition convert_x_user_defined_to_utf8 (byte : Z) : Z :=
  if byte <=? 0x7f then byte else u32 (0xF780 + byte - 0x80).

(** [SingleByteDecoder::process] on one byte *)
Definition single_byte_code_point (m_translation_table : list Z) (byte : Z) : res Z :=
  if byte <? 0x80 then Ret byte else at_index m_translation_table (Z.to_nat (byte - 0x80)).

(** One call of [on_code_point] per byte. *)
Fixpoint each_byte (f : Z -> res Z) (input : bytes) : res (list Z) :=
  match input with
  | [] => Ret []
  | byte :: input =>
      let* code_point := f byte in
      let* rest := each_byte f input in
      Ret (code_point :: rest)
  end.

(** ** The decoder classes *)

Inductive Decoder :=
  | UTF8Decoder | UTF16BEDecoder | UTF16LEDecoder | Latin1Decoder | PDFDocEncodingDecoder
  | XUserDefinedDecoder | GB18030Decoder | Big5Decoder | EUCJPDecoder | ISO2022JPDecoder
  | ShiftJISDecoder | EUCKRDecoder | ReplacementDecoder
  | SingleByteDecoder (index : SingleByteIndex).

Section classes.
Context `{LookupTables} `{Simdutf} `{SimdutfUtf16}.

(** [process] of the classes without state *)
Definition utf8_decoder_process (input : bytes) : list Z := code_points input.
Definition latin1_process (input : bytes) : list Z := input.
Definition pdf_doc_process (input : bytes) : res (list Z) :=
  each_byte (fun byte => at_index pdf_doc_translation_table (Z.to_nat byte)) input.
Definition x_user_defined_process (input : bytes) : list Z := convert_x_user_defined_to_utf8 <$> input.
Definition replacement_process (input : bytes) : list Z :=
  if sv_is_empty input then [] else [replacement_code_point].

(** [process] of each class: the arguments of [on_code_point], which succeeds.
    The UTF-16 classes must not be asked. *)
Definition decoder_process (decoder : Decoder) (input : bytes) : res (list Z) :=
  match decoder with
  | UTF8Decoder => Ret (utf8_decoder_process input)
  | UTF16BEDecoder | UTF16LEDecoder => Crash
  | Latin1Decoder => Ret (latin1_process input)
  | PDFDocEncodingDecoder => pdf_doc_process input
  | XUserDefinedDecoder => Ret (x_user_defined_process input)
  | GB18030Decoder => decode_loop (gb18030_step input) (decode_fuel input) gb18030_initial 0
  | Big5Decoder => decode_loop (big5_step input) (decode_fuel input) 0 0
  | EUCJPDecoder =>
      decode_loop (euc_jp_step input) (decode_fuel input) {| jis0212 := false; euc_jp_lead := 0 |} 0
  | ISO2022JPDecoder => decode_loop (iso_2022_jp_step input) (decode_fuel input) iso_2022_jp_initial 0
  | ShiftJISDecoder => decode_loop (shift_jis_step input) (decode_fuel input) 0 0
  | EUCKRDecoder => decode_loop (euc_kr_step input) (decode_fuel input) 0 0
  | ReplacementDecoder => Ret (replacement_process input)
  | SingleByteDecoder index => each_byte (single_byte_code_point (single_byte_index index)) input
  end.

(** [Decoder::validate] and its overrides.  The callback of the base class
    returns an error at the first replacement character, which [process] hands
    on at once. *)
Definition decoder_validate (decoder : Decoder) (input : bytes) : res bool :=
  match decoder with
  | UTF8Decoder => Ret (validate Surrogates_Yes input)
  | UTF16BEDecoder => Ret (validate_utf16_be input)
  | UTF16LEDecoder => Ret (validate_utf16_le input)
  | Latin1Decoder | PDFDocEncodingDecoder | XUserDefinedDecoder => Ret true
  | ReplacementDecoder => Ret (sv_is_empty input)
  | _ =>
      let* code_points := decoder_process decoder input in
      Ret (forallb (fun code_point => negb (code_point =? replacement_code_point)) code_points)
  end.

(** [UTF16BEDecoder::to_utf8] and [UTF16LEDecoder::to_utf8] *)
Definition utf16be_to_utf8 (input : bytes) : res bytes :=
  let input := match input with 0xFE :: 0xFF :: rest => rest | _ => input end in
  from_utf16_be_with_replacement_character input.
Definition utf16le_to_utf8 (input : bytes) : res bytes :=
  let input := match input with 0xFF :: 0xFE :: rest => rest | _ => input end in
  from_utf16_le_with_replacement_character input.

(** [Decoder::to_utf8] and its overrides *)
Definition to_utf8 (decoder : Decoder) (input : bytes) : res bytes :=
  match decoder with
  | UTF8Decoder => Ret (from_utf8_with_replacement_character input true)
  | UTF16BEDecoder => utf16be_to_utf8 input
  | UTF16LEDecoder => utf16le_to_utf8 input
  | _ =>
      let* code_points := decoder_process decoder input in
      Ret (fold_left try_append_code_point code_points [])
  end.

(** [bom_sniff_to_decoder] *)
Definition bom_sniff_to_decoder (input : bytes) : option Decoder :=
  match input with
  | first_byte :: second_byte :: rest =>
      if first_byte =? 0xEF then
        match rest with
        | third_byte :: _ =>
            if (second_byte =? 0xBB) && (third_byte =? 0xBF) then Some UTF8Decoder else None
        | [] => None
        end
      else if first_byte =? 0xFE then
        if second_byte =? 0xFF then Some UTF16BEDecoder else None
      else if first_byte =? 0xFF then
        if second_byte =? 0xFE then Some UTF16LEDecoder else None
      else None
  | _ => None
  end.

(** [convert_input_to_utf8_using_given_decoder_unless_there_is_a_byte_order_mark] *)
Definition convert_input_to_utf8 (fallback_decoder : Decoder) (input : bytes) : res bytes :=
  match bom_sniff_to_decoder input with
  | Some unicode_decoder =>
      let* input := substring_view_from input
        (match unicode_decoder with UTF8Decoder => 3 | _ => 2 end) in
      to_utf8 unicode_decoder input
  | None => to_utf8 fallback_decoder input
  end.

End classes.

(** [isomorphic_decode] *)
Definition isomorphic_decode (input : bytes) : bytes := fold_left append_code_point input [].

(** ** Names *)

(** The chain of [decoder_for_exact_name] *)
Definition decoder_names : list (list bytes * Decoder) :=
  [
    ([sv "iso-8859-1"], Latin1Decoder);
    ([sv "windows-1252"], SingleByteDecoder windows_1252);
    ([sv "utf-8"], UTF8Decoder);
    ([sv "utf-16be"], UTF16BEDecoder);
    ([sv "utf-16le"], UTF16LEDecoder);
    ([sv "big5"], Big5Decoder);
    ([sv "euc-jp"], EUCJPDecoder);
    ([sv "euc-kr"], EUCKRDecoder);
    ([sv "gbk"], GB18030Decoder);
    ([sv "gb18030"], GB18030Decoder);
    ([sv "ibm866"], SingleByteDecoder ibm866);
    ([sv "iso-2022-jp"], ISO2022JPDecoder);
    ([sv "iso-8859-2"], SingleByteDecoder iso_8859_2);
    ([sv "iso-8859-3"], SingleByteDecoder iso_8859_3);
    ([sv "iso-8859-4"], SingleByteDecoder iso_8859_4);
    ([sv "iso-8859-5"], SingleByteDecoder iso_8859_5);
    ([sv "iso-8859-6"], SingleByteDecoder iso_8859_6);
    ([sv "iso-8859-7"], SingleByteDecoder iso_8859_7);
    ([sv "iso-8859-8"; sv "iso-8859-8-i"], SingleByteDecoder iso_8859_8);
    ([sv "iso-8859-10"], SingleByteDecoder iso_8859_10);
    ([sv "iso-8859-13"], SingleByteDecoder iso_8859_13);
    ([sv "iso-8859-14"], SingleByteDecoder iso_8859_14);
    ([sv "iso-8859-15"], SingleByteDecoder iso_8859_15);
    ([sv "iso-8859-16"], SingleByteDecoder iso_8859_16);
    ([sv "koi8-r"], SingleByteDecoder koi8_r);
    ([sv "koi8-u"], SingleByteDecoder koi8_u);
    ([sv "macintosh"], SingleByteDecoder macintosh);
    ([sv "PDFDocEncoding"], PDFDocEncodingDecoder);
    ([sv "replacement"], ReplacementDecoder);
    ([sv "shift_jis"], ShiftJISDecoder);
    ([sv "windows-874"], SingleByteDecoder windows_874);
    ([sv "windows-1250"], SingleByteDecoder windows_1250);
    ([sv "windows-1251"], SingleByteDecoder windows_1251);
    ([sv "windows-1253"], SingleByteDecoder windows_1253);
    ([sv "windows-1254"], SingleByteDecoder windows_1254);
    ([sv "windows-1255"], SingleByteDecoder windows_1255);
    ([sv "windows-1256"], SingleByteDecoder windows_1256);
    ([sv "windows-1257"], SingleByteDecoder windows_1257);
    ([sv "windows-1258"], SingleByteDecoder windows_1258);
    ([sv "x-mac-cyrillic"], SingleByteDecoder x_mac_cyrillic);
    ([sv "x-user-defined"], XUserDefinedDecoder)
  ].

Definition decoder_for_exact_name (encoding : bytes) : option Decoder := find_row decoder_names encoding.

(** [decoder_for] *)
Definition decoder_for (label : bytes) : option Decoder :=
  match get_standardized_encoding label with
  | Some encoding => decoder_for_exact_name encoding
  | None => None
  end.
