(* ===== verification/DecoderSafety.v ===== *)
(** * Safety of the text decoders

    Every decoder returns on every byte string: a measure on the index and the
    bytes it remembers decreases with each iteration, putting bytes back never
    goes below the start of the input, and what is handed to [on_code_point] is
    a Unicode scalar value. *)

From S2P Require Import Prelude BinarySearch CharacterTypes Utf8 Utf16 Strings TextCodec Decoders.

(** ** What the decoders rely on in the tables

    The tables hold scalar values (U+FFFD where a position is unassigned),
    those of the single-byte encodings have 128 entries, and the gb18030 ranges
    are sorted by pointer, start at 0 and do not run into the surrogates. *)

Class DecoderTablesLaws `{LookupTables} : Prop := {
  jis0208_scalars : scalars s_jis0208_index;
  jis0212_scalars : scalars s_jis0212_index;
  euc_kr_scalars : scalars s_euc_kr_index;
  gb18030_scalars : scalars s_gb18030_index;
  big5_scalars : scalars s_big5_index;
  single_byte_scalars index : scalars (single_byte_index index);
  single_byte_length index : length (single_byte_index index) = 128%nat;
  pointers_first : head (fst <$> s_gb18030_ranges) = Some 0;
  pointers_sorted : forall i j x y, (i < j)%nat ->
    (fst <$> s_gb18030_ranges) !! i = Some x -> (fst <$> s_gb18030_ranges) !! j = Some y -> x < y;
  pointers_bound : Forall (fun entry => 0 <= entry.1 < 2 ^ 31 /\ 0 <= entry.2 < 2 ^ 31) s_gb18030_ranges;
  pointers_scalar : forall i p c pointer,
    s_gb18030_ranges !! i = Some (p, c) -> p <= pointer <= 1237575 -> ~ (39419 < pointer < 189000) ->
    (forall next, s_gb18030_ranges !! S i = Some next -> pointer < next.1) ->
    is_unicode_scalar_value (c + pointer - p) = true
}.

Definition scalar (cp : Z) : Prop := 0 <= cp /\ is_unicode_scalar_value cp = true.

Ltac scalar_lia :=
  unfold scalar, replacement_code_point; split; [|unfold is_unicode_scalar_value, is_unicode, is_unicode_surrogate]; lia.

(** ** Loops with a decreasing measure *)

Section loops.
Context {S : Type} (step : S -> Z -> res (outcome S)).
Context (I : S -> Z -> Prop) (mu : S -> Z -> Z).

(** One iteration from a state in [I] returns, keeps [I] and lowers [mu]. *)
Definition step_decreases (state : S) (index : Z) (r : res (outcome S)) : Prop :=
  match r with
  | Ret Finished => True
  | Ret (Continue state' index' cps) =>
      I state' index' /\ 0 <= mu state' index' < mu state index /\ Forall scalar cps
  | Crash => False
  end.

Hypothesis step_ok : forall state index, I state index -> step_decreases state index (step state index).

Lemma decode_loop_returns fuel state index :
  I state index -> 0 <= mu state index < Z.of_nat fuel ->
  exists cps, decode_loop step fuel state index = Ret cps /\ Forall scalar cps.
Proof.
  revert state index. induction fuel as [|fuel IH]; intros state index HI Hmu; [lia|].
  pose proof (step_ok state index HI) as Hs. cbn [decode_loop].
  destruct (step state index) as [[|state' index' cps]|]; [..|done]; cbn [res_bind step_decreases] in *.
  - by exists [].
  - destruct Hs as (HI' & Hmu' & Hcps). destruct (IH state' index' HI' ltac:(lia)) as (rest & -> & Hrest).
    exists (cps ++ rest). split; [done|]. by apply Forall_app.
Qed.

End loops.

Lemma index_code_point_scalar table first_pointer pointer cp :
  scalars table -> index_code_point table first_pointer pointer = Some cp -> scalar cp.
Proof.
  intros Ht. unfold index_code_point. destruct (_ || _); [done|].
  destruct (table !! _) as [value|] eqn:Hv; [|done]. destruct (value =? 0xfffd); [done|].
  intros [= <-]. exact (Forall_lookup_1 _ _ _ _ Ht Hv).
Qed.

Lemma byte_at_ok input index :
  all_bytes input -> 0 <= index < Z.of_nat (length input) ->
  exists byte, byte_at input index = Ret byte /\ input !! Z.to_nat index = Some byte /\ 0 <= byte < 256.
Proof.
  intros Hin Hi. destruct (lookup_lt_is_Some_2 input (Z.to_nat index)) as [byte Hb]; [lia|].
  exists byte. unfold byte_at, at_index. rewrite Hb. split; [done|]. split; [done|].
  pose proof (Forall_lookup_1 _ _ _ _ Hin Hb) as Hr. cbn in Hr. unfold is_byte in Hr. lia.
Qed.

(** ** One iteration of each decoder *)

Section steps.
Context `{DecoderTablesLaws} (input : bytes).
Hypothesis Hin : all_bytes input.
Hypothesis Hfits : Z.of_nat (length input) < 2 ^ 63.

Abbreviation n := (Z.of_nat (length input)).

Lemma size_t_index z : 0 <= z <= n -> size_t z = z.
Proof. intros Hz. unfold size_t. apply Z.mod_small. lia. Qed.

Lemma index_jis0208_scalar pointer cp : index_jis0208_code_point pointer = Some cp -> scalar cp.
Proof. apply index_code_point_scalar, jis0208_scalars. Qed.
Lemma index_jis0212_scalar pointer cp : index_jis0212_code_point pointer = Some cp -> scalar cp.
Proof. apply index_code_point_scalar, jis0212_scalars. Qed.
Lemma index_euc_kr_scalar pointer cp : index_euc_kr_code_point pointer = Some cp -> scalar cp.
Proof. apply index_code_point_scalar, euc_kr_scalars. Qed.
Lemma index_gb18030_scalar pointer cp : index_gb18030_code_point pointer = Some cp -> scalar cp.
Proof. apply index_code_point_scalar, gb18030_scalars. Qed.
Lemma index_big5_scalar pointer cp : index_big5_code_point pointer = Some cp -> scalar cp.
Proof. apply index_code_point_scalar, big5_scalars. Qed.

(** A lead byte was read before the index. *)
Definition lead_ok (lead index : Z) : Prop :=
  0 <= index <= n /\ (lead = 0 \/ 0x81 <= lead <= 0xFE /\ 1 <= index).

Definition lead_measure (lead index : Z) : Z := 2 * (n - index) + (if lead =? 0 then 0 else 1).

Definition euc_jp_ok (state : euc_jp_state) (index : Z) : Prop := lead_ok (euc_jp_lead state) index.
Definition euc_jp_measure (state : euc_jp_state) (index : Z) : Z := lead_measure (euc_jp_lead state) index.

(** Closes the branches of a step: the new index, the measure and the code
    points it hands on. *)
Ltac each_scalar :=
  repeat (apply Forall_cons_2; [first [assumption | scalar_lia]|]); apply Forall_nil_2.
Ltac step_branch :=
  cbn [step_decreases]; unfold euc_jp_ok, euc_jp_measure, lead_ok, lead_measure in *;
  cbn [euc_jp_lead jis0212];
  rewrite ?size_t_index by lia; split_and!; [lia|..|each_scalar]; repeat break_match; lia.

Lemma euc_kr_step_ok lead index :
  lead_ok lead index -> step_decreases lead_ok lead_measure lead index (euc_kr_step input lead index).
Proof.
  intros [Hi Hlead]. unfold euc_kr_step, at_end.
  destruct (Z.leb_spec n index), (Z.eqb_spec lead 0) as [->|Hl]; cbn [andb negb]; [done|step_branch|..].
  all: destruct (byte_at_ok input index Hin ltac:(lia)) as (byte & -> & _ & Hb); cbn [res_bind].
  all: rewrite (size_t_index (index + 1)) by lia.
  - repeat break_match; step_branch.
  - cbv zeta. destruct (_ ≫= _) as [cp|] eqn:Hcp.
    + apply bind_Some in Hcp as (p & _ & Hcp%index_euc_kr_scalar). step_branch.
    + clear Hcp. break_match; step_branch.
Qed.

Lemma big5_step_ok lead index :
  lead_ok lead index -> step_decreases lead_ok lead_measure lead index (big5_step input lead index).
Proof.
  intros [Hi Hlead]. unfold big5_step, at_end.
  destruct (Z.leb_spec n index), (Z.eqb_spec lead 0) as [->|Hl]; cbn [andb negb]; [done|step_branch|..].
  all: destruct (byte_at_ok input index Hin ltac:(lia)) as (byte & -> & _ & Hb); cbn [res_bind].
  all: rewrite (size_t_index (index + 1)) by lia.
  - repeat break_match; step_branch.
  - cbv zeta. repeat (case_bool_decide; [step_branch|]). destruct (_ ≫= _) as [cp|] eqn:Hcp.
    + apply bind_Some in Hcp as (p & _ & Hcp%index_big5_scalar). step_branch.
    + clear Hcp. break_match; step_branch.
Qed.

Lemma shift_jis_step_ok lead index :
  lead_ok lead index -> step_decreases lead_ok lead_measure lead index (shift_jis_step input lead index).
Proof.
  intros [Hi Hlead]. unfold shift_jis_step, at_end.
  destruct (Z.leb_spec n index), (Z.eqb_spec lead 0) as [->|Hl]; cbn [andb negb]; [done|step_branch|..].
  all: destruct (byte_at_ok input index Hin ltac:(lia)) as (byte & -> & _ & Hb); cbn [res_bind].
  all: rewrite (size_t_index (index + 1)) by lia.
  - repeat break_match; step_branch.
  - cbv zeta. set (lead_offset := if lead <? 0xA0 then 0x81 else 0xC1).
    destruct (_ || _); [|break_match; step_branch].
    set (pointer := u32 _). destruct ((8836 <=? pointer) && (pointer <=? 10715)) eqn:Hp.
    + rewrite u32_id by lia. step_branch.
    + destruct (index_jis0208_code_point pointer) as [cp|] eqn:Hcp;
        [apply index_jis0208_scalar in Hcp; step_branch|break_match; step_branch].
Qed.

Lemma euc_jp_step_ok state index :
  euc_jp_ok state index ->
  step_decreases euc_jp_ok euc_jp_measure state index (euc_jp_step input state index).
Proof.
  unfold euc_jp_ok, euc_jp_measure. destruct state as [jis lead]. cbn [euc_jp_lead jis0212].
  intros [Hi Hlead]. unfold euc_jp_step, at_end. cbn [euc_jp_lead jis0212].
  destruct (Z.leb_spec n index), (Z.eqb_spec lead 0) as [->|Hl]; cbn [andb negb]; [done|step_branch|..].
  all: destruct (byte_at_ok input index Hin ltac:(lia)) as (byte & -> & _ & Hb); cbn [res_bind].
  all: rewrite (size_t_index (index + 1)) by lia; cbv zeta.
  - repeat break_match; step_branch.
  - destruct ((lead =? 142) && _ && _) eqn:H8E; [step_branch|].
    destruct ((lead =? 143) && _ && _) eqn:H8F; [step_branch|].
    destruct (if (161 <=? lead) && _ && _ && _ then _ else None) as [cp|] eqn:Hcp.
    + assert (scalar cp); [|step_branch]. break_match_hyp Hcp; [|done].
      destruct jis; [by eapply index_jis0212_scalar|by eapply index_jis0208_scalar].
    + clear Hcp. break_match; step_branch.
Qed.

(** The bytes of a gb18030 sequence read so far. *)
Definition gb18030_pending (s : gb18030_state) : Z :=
  if negb (gb18030_third s =? 0) then 3 else if negb (gb18030_second s =? 0) then 2
  else if negb (gb18030_first s =? 0) then 1 else 0.

Definition gb18030_ok (s : gb18030_state) (index : Z) : Prop :=
  gb18030_pending s <= index <= n
  /\ (gb18030_first s = 0 \/ 0x81 <= gb18030_first s <= 0xFE)
  /\ (gb18030_second s = 0 \/ gb18030_first s <> 0 /\ 0x30 <= gb18030_second s <= 0x39)
  /\ (gb18030_third s = 0 \/ gb18030_second s <> 0 /\ 0x81 <= gb18030_third s <= 0xFE).

Definition gb18030_measure (s : gb18030_state) (index : Z) : Z :=
  4 * (n - index + gb18030_pending s) + (3 - gb18030_pending s).

Lemma gb18030_2022_scalars : forallb (fun entry => is_unicode_scalar_value entry.2) gb18030_2022_pointers = true.
Proof. reflexivity. Qed.

Lemma index_gb18030_ranges_total pointer :
  0 <= pointer < 2 ^ 31 ->
  exists cp, index_gb18030_ranges_code_point pointer = Ret cp
    /\ forall c, cp = Some c -> scalar c.
Proof.
  intros Hp. unfold index_gb18030_ranges_code_point.
  destruct (_ || _) eqn:Hrange; [by exists None|].
  destruct (pointer =? 7457); [eexists; split; [done|intros c [= <-]; by split]|].
  destruct (find _ _) as [[q c]|] eqn:Hf.
  - exists (Some c). split; [done|]. intros c' [= <-]. apply find_some in Hf as [Hf _].
    pose proof gb18030_2022_scalars as Hs. rewrite forallb_forall in Hs. specialize (Hs _ Hf). cbn in Hs.
    split; [|done]. revert Hf. unfold gb18030_2022_pointers. simpl. intros Hf.
    repeat (destruct Hf as [[= _ <-]|Hf]; [lia|]). done.
  - destruct (table_search fst s_gb18030_ranges pointer) as (found & i & [p c] & -> & Hi & Hle & Hnext);
      [lia| |exists 0; split; [exact pointers_first|lia]|exact pointers_sorted|].
    { eapply Forall_impl; [exact pointers_bound|]. cbn. tauto. }
    cbn [res_bind fst] in *. unfold at_index. rewrite Hi. cbn [unwrap res_bind].
    pose proof (Forall_lookup_1 _ _ _ _ pointers_bound Hi) as [Hb1 Hb2]. cbn in Hb1, Hb2.
    eexists. split; [done|]. intros c' [= <-]. rewrite (u32_id (c + pointer)), u32_id by lia.
    split; [lia|]. eapply pointers_scalar; [exact Hi|lia|lia|exact Hnext].
Qed.

Ltac gb18030_branch :=
  cbn [step_decreases]; unfold gb18030_ok, gb18030_measure, gb18030_pending in *;
  cbn [gb18030_initial gb18030_first gb18030_second gb18030_third] in *;
  rewrite ?size_t_index by lia; split_and!; [..|each_scalar]; repeat break_match; lia.

Lemma gb18030_step_ok state index :
  gb18030_ok state index ->
  step_decreases gb18030_ok gb18030_measure state index (gb18030_step input state index).
Proof.
  destruct state as [first second third]. intros Hok. assert (Hok' := Hok).
  unfold gb18030_ok, gb18030_pending in Hok'. cbn [gb18030_first gb18030_second gb18030_third] in Hok'.
  destruct Hok' as (Hi & Hf & Hs & Ht). unfold gb18030_step, at_end.
  cbn [gb18030_first gb18030_second gb18030_third].
  destruct (Z.leb_spec n index); cbn [andb].
  { destruct (_ && _) eqn:Hz; [done|]. destruct (_ || _) eqn:Hz'; [|lia].
    gb18030_branch. }
  destruct (byte_at_ok input index Hin ltac:(repeat break_match_hyp Hi; lia)) as (byte & -> & _ & Hb).
  cbn [res_bind]. rewrite (size_t_index (index + 1)) by (repeat break_match_hyp Hi; lia). cbv zeta.
  destruct (Z.eqb_spec third 0) as [->|Ht0]; cbn [negb] in *.
  - destruct (Z.eqb_spec second 0) as [->|Hs0]; cbn [negb] in *.
    + destruct (Z.eqb_spec first 0) as [->|Hf0]; cbn [negb] in *; [repeat (break_match; [gb18030_branch|]); gb18030_branch|].
      destruct ((0x30 <=? byte) && (byte <=? 0x39)) eqn:Hd; [gb18030_branch|].
      destruct (_ ≫= _) as [cp|] eqn:Hcp; [apply bind_Some in Hcp as (q & _ & Hcp%index_gb18030_scalar); gb18030_branch|].
      clear Hcp. break_match; gb18030_branch.
    + destruct ((0x81 <=? byte) && (byte <=? 0xFE)) eqn:Hd; gb18030_branch.
  - destruct ((byte <? 0x30) || (0x39 <? byte)) eqn:Hd; [gb18030_branch|].
    match goal with |- context [index_gb18030_ranges_code_point ?p] =>
      destruct (index_gb18030_ranges_total p) as (cp & -> & Hcp) end.
    { rewrite u32_id by lia. lia. }
    cbn [res_bind]. assert (scalar (default replacement_code_point cp))
      by (destruct cp; [by apply Hcp|by split]). gb18030_branch.
Qed.

(** The bytes of an escape sequence read so far. *)
Definition iso_2022_jp_pending (d : ISO2022JPDecoderState) : Z :=
  match d with EscapeStart => 1 | Escape => 2 | _ => 0 end.

Definition output_state_ok (d : ISO2022JPDecoderState) : Prop :=
  match d with TrailByte | EscapeStart | Escape => False | _ => True end.

Definition iso_2022_jp_ok (s : iso_2022_jp_state) (index : Z) : Prop :=
  iso_2022_jp_pending (decoder_state s) <= index <= n /\ output_state_ok (output_state s)
  /\ (decoder_state s = TrailByte -> 0x21 <= iso2022_jp_lead s <= 0x7E).

Definition iso_2022_jp_measure (s : iso_2022_jp_state) (index : Z) : Z :=
  4 * (n - index + iso_2022_jp_pending (decoder_state s))
  + match decoder_state s with TrailByte => 3 | EscapeStart => 1 | Escape => 0 | _ => 2 end.

Lemma escape_state_ok lead byte d : escape_state lead byte = Some d -> output_state_ok d.
Proof. unfold escape_state. intros Hd. repeat (break_match_hyp Hd; [by simplify_eq|]). done. Qed.

Lemma output_state_pending d : output_state_ok d ->
  iso_2022_jp_pending d = 0 /\ d <> TrailByte
  /\ match d with TrailByte => 3 | EscapeStart => 1 | Escape => 0 | _ => 2 end = 2.
Proof. by destruct d. Qed.

Ltac iso_2022_jp_branch :=
  cbn [step_decreases]; unfold iso_2022_jp_ok, iso_2022_jp_measure in *;
  cbn [decoder_state output_state iso2022_jp_lead iso2022_jp_output with_decoder_state with_output
       with_lead with_state iso_2022_jp_pending output_state_ok] in *;
  rewrite ?size_t_index by lia; split_and!;
  first [each_scalar | done | lia | intros; lia | intros; congruence].

Lemma iso_2022_jp_step_ok state index :
  iso_2022_jp_ok state index ->
  step_decreases iso_2022_jp_ok iso_2022_jp_measure state index (iso_2022_jp_step input state index).
Proof.
  destruct state as [d o lead out]. intros Hok. assert (Hok' := Hok). unfold iso_2022_jp_ok in Hok'.
  cbn [decoder_state output_state iso2022_jp_lead] in Hok'. destruct Hok' as (Hi & Ho & Htrail).
  unfold iso_2022_jp_step, iso_2022_jp_escape_start, iso_2022_jp_escape. cbn [decoder_state output_state iso2022_jp_lead].
  assert (Hi0 : 0 <= index) by (destruct d; cbn in Hi; lia).
  destruct (output_state_pending o Ho) as (Hpend & Hnt & Hrank).
  destruct (Z.ltb_spec index n).
  2: { cbn [res_bind option_bind mbind]. destruct d; try done; cbn [mbind option_bind];
         try rewrite (size_t_index (index - 1)) by (cbn in Hi; lia); iso_2022_jp_branch. }
  destruct (byte_at_ok input index Hin ltac:(lia)) as (byte & -> & _ & Hb). cbn [res_bind].
  rewrite (size_t_index (index + 1)) by lia.
  destruct d; try (repeat (break_match; [iso_2022_jp_branch|]); iso_2022_jp_branch).
  - specialize (Htrail eq_refl). break_match; [iso_2022_jp_branch|]. break_match; [|iso_2022_jp_branch].
    set (pointer := u32 _). assert (scalar (default replacement_code_point (index_jis0208_code_point pointer))).
    { destruct (index_jis0208_code_point pointer) eqn:Hc; [by eapply index_jis0208_scalar|by split]. }
    cbv zeta. iso_2022_jp_branch.
  - cbn [mbind option_bind]. destruct (escape_state lead byte) as [d|] eqn:Hd; [|iso_2022_jp_branch].
    apply escape_state_ok in Hd. destruct (output_state_pending d Hd) as (Hp & Hnt' & Hr').
    break_match; iso_2022_jp_branch.
Qed.

End steps.

(** ** The excerpt of the tables meets the laws *)

Lemma scalars_check l :
  forallb (fun c => (0 <=? c) && is_unicode_scalar_value c) l = true -> scalars l.
Proof.
  intros Hl. apply forallb_Forall_iff in Hl. eapply Forall_impl; [exact Hl|]. simpl.
  intros c [? ?]%andb_prop. split; [lia|done].
Qed.

#[export] Instance excerpt_decoder_laws : DecoderTablesLaws.
Proof.
  split; try (apply scalars_check; vm_compute; reflexivity); try done.
  - intros []; apply scalars_check; vm_compute; reflexivity.
  - by intros [].
  - intros i j x y Hij. simpl.
    do 8 (destruct i as [|i]; [simpl; intros [= <-];
      do 8 (destruct j as [|j]; [simpl; intros; simplify_eq; lia|]); done|]). done.
  - repeat constructor; simpl; lia.
  - intros i p c pointer Hi Hp Hgap Hnext.
    unfold is_unicode_scalar_value, is_unicode, is_unicode_surrogate.
    do 7 (destruct i as [|i]; [cbn in Hi, Hnext; specialize (Hnext _ eq_refl); simplify_eq; cbn in Hnext; lia|]).
    destruct i as [|i]; [cbn in Hi; simplify_eq; lia|done].
Qed.

(** ** Every decoder returns *)

Section safety.
Context `{DecoderTablesLaws} `{SimdutfLaws} `{SimdutfUtf16Laws}.

Lemma each_byte_scalars f input :
  (forall byte, 0 <= byte < 256 -> exists cp, f byte = Ret cp /\ scalar cp) -> all_bytes input ->
  exists cps, each_byte f input = Ret cps /\ Forall scalar cps.
Proof.
  intros Hf. induction 1 as [|byte input Hb _ (cps & Hcps & Hs)]; [by exists []|].
  unfold is_byte in Hb. destruct (Hf byte) as (cp & Hcp & Hscalar); [lia|]. cbn [each_byte].
  rewrite Hcp. cbn [res_bind]. rewrite Hcps. exists (cp :: cps). split; [done|by constructor].
Qed.

Lemma pdf_doc_scalars : scalars pdf_doc_translation_table /\ length pdf_doc_translation_table = 256%nat.
Proof. split; [apply scalars_check; vm_compute; reflexivity|reflexivity]. Qed.

Lemma table_scalar table index :
  scalars table -> (Z.to_nat index < length table)%nat ->
  exists cp, at_index table (Z.to_nat index) = Ret cp /\ scalar cp.
Proof.
  intros Hs [cp Hcp]%lookup_lt_is_Some. exists cp. unfold at_index. rewrite Hcp.
  split; [done|exact (Forall_lookup_1 _ _ _ _ Hs Hcp)].
Qed.

(** The decoders whose [process] may be called and yields scalar values: all but
    UTF-8, whose iterator may yield surrogates, and UTF-16. *)
Definition yields_scalars (decoder : Decoder) : bool :=
  match decoder with UTF8Decoder | UTF16BEDecoder | UTF16LEDecoder => false | _ => true end.

Lemma decoder_process_scalars decoder input :
  yields_scalars decoder = true -> all_bytes input -> Z.of_nat (length input) < 2 ^ 63 ->
  exists cps, decoder_process decoder input = Ret cps /\ Forall scalar cps.
Proof.
  intros Hd Hin Hfits. assert (Hfuel : Z.of_nat (decode_fuel input) = 4 * Z.of_nat (length input) + 8)
    by (unfold decode_fuel; lia).
  destruct decoder; try done; cbn [decoder_process];
    unfold latin1_process, pdf_doc_process, x_user_defined_process, replacement_process.
  - exists input. split; [done|]. eapply Forall_impl; [exact Hin|]. unfold is_byte. intros b Hb. scalar_lia.
  - apply each_byte_scalars; [|done]. intros byte Hb. destruct pdf_doc_scalars as [Hs Hl].
    apply table_scalar; [done|lia].
  - eexists. split; [done|]. apply Forall_fmap. eapply Forall_impl; [exact Hin|]. unfold is_byte. intros b Hb.
    cbn. unfold convert_x_user_defined_to_utf8. break_match; rewrite ?u32_id by lia; scalar_lia.
  - eapply decode_loop_returns; [by apply gb18030_step_ok|..].
    + unfold gb18030_ok. cbn. lia.
    + unfold gb18030_measure. cbn. lia.
  - eapply decode_loop_returns; [by apply big5_step_ok|unfold lead_ok; lia|unfold lead_measure; cbn; lia].
  - eapply decode_loop_returns; [by apply euc_jp_step_ok|unfold euc_jp_ok, lead_ok; cbn; lia
      |unfold euc_jp_measure, lead_measure; cbn; lia].
  - eapply decode_loop_returns; [by apply iso_2022_jp_step_ok|..].
    + unfold iso_2022_jp_ok. cbn. split; [lia|]. by split.
    + unfold iso_2022_jp_measure. cbn. lia.
  - eapply decode_loop_returns; [by apply shift_jis_step_ok|unfold lead_ok; lia|unfold lead_measure; cbn; lia].
  - eapply decode_loop_returns; [by apply euc_kr_step_ok|unfold lead_ok; lia|unfold lead_measure; cbn; lia].
  - eexists. split; [done|]. break_match; [constructor|]. by constructor.
  - apply each_byte_scalars; [|done]. intros byte Hb. unfold single_byte_code_point.
    destruct (Z.ltb_spec byte 0x80); [exists byte; split; [done|scalar_lia]|].
    apply table_scalar; [apply single_byte_scalars|]. rewrite single_byte_length. lia.
Qed.

Lemma append_scalars cps builder :
  Forall scalar cps -> fold_left try_append_code_point cps builder = builder ++ utf8_encode cps.
Proof.
  intros Hcps. revert builder. induction Hcps as [|cp cps [H0' Hs] _ IH]; intros builder.
  - by rewrite app_nil_r.
  - cbn [fold_left]. rewrite IH. change (cp :: cps) with ([cp] ++ cps).
    assert (0 <= cp <= 0x10FFFF) by (unfold is_unicode_scalar_value, is_unicode in Hs; lia).
    rewrite utf8_encode_app, utf8_encode_single, app_assoc by done.
    by rewrite try_append_code_point_agrees, append_code_point_encoded by lia.
Qed.

(** What [to_utf8] returns of a decoder that goes through [process]. *)
Lemma to_utf8_process decoder input cps :
  yields_scalars decoder = true -> decoder_process decoder input = Ret cps -> Forall scalar cps ->
  to_utf8 decoder input = Ret (utf8_encode cps).
Proof.
  intros Hd Hp Hs. unfold to_utf8. destruct decoder; try done; rewrite Hp; cbn [res_bind];
    by rewrite append_scalars.
Qed.

Lemma utf8_encode_well_formed cps : Forall scalar cps -> well_formed_utf8 (utf8_encode cps).
Proof. intros Hs. exists cps. by split. Qed.

Lemma all_bytes_tail (a b : Z) rest : all_bytes (a :: b :: rest) -> all_bytes rest.
Proof. rewrite !Forall_cons. tauto. Qed.

Lemma to_utf8_utf16le input :
  all_bytes input -> exists out, to_utf8 UTF16LEDecoder input = Ret out /\ well_formed_utf8 out.
Proof.
  intros Hin. unfold to_utf8, utf16le_to_utf8. cbv zeta. match goal with |- context [from_utf16_le_with_replacement_character ?i] => set (rest := i) end.
  assert (Hrest : all_bytes rest).
  { unfold rest. repeat break_match; try done. by eapply all_bytes_tail. }
  rewrite from_utf16_le_decodes by done. eexists. split; [done|].
  apply utf8_encode_well_formed. apply utf16_decode_scalars. by apply units_range.
Qed.

Lemma to_utf8_well_formed decoder input :
  decoder <> UTF16BEDecoder -> all_bytes input -> Z.of_nat (length input) < 2 ^ 63 ->
  exists out, to_utf8 decoder input = Ret out /\ well_formed_utf8 out.
Proof.
  intros Hd Hin Hfits. destruct (yields_scalars decoder) eqn:Hy.
  - destruct (decoder_process_scalars decoder input Hy Hin Hfits) as (cps & Hp & Hs).
    exists (utf8_encode cps). split; [by apply to_utf8_process|by apply utf8_encode_well_formed].
  - destruct decoder; try done; [|by apply to_utf8_utf16le].
    eexists. split; [done|]. by apply from_utf8_well_formed.
Qed.

(** The input behind a byte order mark *)
Definition after_be_mark (input : bytes) : bytes := match input with 0xFE :: 0xFF :: rest => rest | _ => input end.

(** Big-endian text is validated as little-endian text: it is only decoded
    when it is well-formed, or when its bytes in the wrong order are not. *)
Definition be_decodes (input : bytes) : Prop :=
  validate_utf16_be (after_be_mark input) = true \/ validate_utf16_le (after_be_mark input) = false.

Lemma to_utf8_utf16be input :
  all_bytes input -> be_decodes input -> exists out, to_utf8 UTF16BEDecoder input = Ret out /\ well_formed_utf8 out.
Proof.
  intros Hin Hbe. unfold to_utf8, utf16be_to_utf8. change (match input with 0xFE :: 0xFF :: rest => rest | _ => input end) with (after_be_mark input).
  cbv zeta. assert (Hrest : all_bytes (after_be_mark input)).
  { unfold after_be_mark. repeat break_match; try done. by eapply all_bytes_tail. }
  rewrite from_utf16_be_decodes by done. eexists. split; [done|].
  apply utf8_encode_well_formed. apply utf16_decode_scalars. by apply units_range.
Qed.

End safety.

(** ** Properties *)

(** C36: every text decoder but UTF-16BE turns every byte string into well-formed
    UTF-8: its loop ends, putting bytes back stays inside the input, every table
    access is in range, and the process is never stopped.  UTF-16BE does so on
    well-formed text and on text that is ill-formed in both byte orders; text that is
    ill-formed but well-formed with its bytes swapped passes the check, which is
    the one for little-endian text (see [utf16_be_validated_as_le]). *)
Theorem decoders_safe `{DecoderTablesLaws} `{SimdutfLaws} `{SimdutfUtf16Laws}
    (decoder : Decoder) (input : bytes)
    (Hbe : decoder = UTF16BEDecoder -> be_decodes input) (Hin : all_bytes input) (Hfits : Z.of_nat (length input) < 2 ^ 63) :
  exists out, to_utf8 decoder input = Ret out /\ well_formed_utf8 out.
Proof.
  assert (Hcases : decoder = UTF16BEDecoder \/ decoder <> UTF16BEDecoder) by (destruct decoder; auto; right; discriminate).
  destruct Hcases as [->|Hd]; [by apply to_utf8_utf16be; [|apply Hbe]|by apply to_utf8_well_formed].
Qed.

Lemma decoders_safe_witness :
  (exists out, to_utf8 GB18030Decoder [0x81; 0x30; 0xFF; 0x84; 0x31; 0xA4] = Ret out /\ well_formed_utf8 out)
  /\ exists out, to_utf8 UTF16BEDecoder [0xFE; 0xFF; 0x30; 0x42] = Ret out /\ well_formed_utf8 out.
Proof.
  split; (apply decoders_safe; [|by repeat constructor|simpl; lia]); [discriminate|].
  intros _. left. vm_compute. reflexivity.
Defined.

(** A label that names an encoding has a decoder. *)
Theorem labels_have_decoders (label name : bytes) (Hl : get_standardized_encoding label = Some name) :
  exists decoder, decoder_for label = Some decoder.
Proof.
  unfold decoder_for. rewrite Hl. apply find_row_In in Hl.
  assert (Hrows : forallb (fun name => match decoder_for_exact_name name with Some _ => true | None => false end)
    (snd <$> encoding_labels) = true) by (vm_compute; reflexivity).
  rewrite forallb_forall in Hrows. specialize (Hrows name Hl).
  destruct (decoder_for_exact_name name) as [d|]; [by exists d|done].
Qed.

Lemma labels_have_decoders_witness : exists decoder, decoder_for (sv "  Latin1 ") = Some decoder.
Proof. apply (labels_have_decoders _ (sv "windows-1252")). vm_compute. reflexivity. Defined.

(** The bytes of an isomorphically decoded string are the bytes it was
    decoded from. *)
Theorem isomorphic_roundtrip (s : bytes) (Hs : all_bytes s) :
  isomorphic_encode (isomorphic_decode s) = s.
Proof.
  assert (Hr : Forall (fun cp => 0 <= cp <= 0x10FFFF) s).
  { eapply Forall_impl; [exact Hs|]. unfold is_byte. intros b Hb. cbn in Hb. lia. }
  assert (Hdec : forall builder, fold_left append_code_point s builder = builder ++ utf8_encode s).
  { induction Hr as [|cp cps Hcp _ IH]; intros builder; [by rewrite app_nil_r|]. cbn [fold_left].
    rewrite IH by (by inversion Hs). change (cp :: cps) with ([cp] ++ cps).
    by rewrite utf8_encode_app, utf8_encode_single, append_code_point_encoded, app_assoc by done. }
  unfold isomorphic_encode, isomorphic_decode. rewrite Hdec. cbn [app].
  rewrite <- (app_nil_r (utf8_encode s)), code_points_utf8_encode by done. cbn. rewrite app_nil_r.
  clear Hr Hdec. induction Hs as [|b s Hb _ IH]; [done|]. rewrite fmap_cons, IH. f_equal.
  apply u8_id. unfold is_byte in Hb. lia.
Qed.

Lemma isomorphic_roundtrip_witness : isomorphic_encode (isomorphic_decode [0xE9; 0x41; 0xFF]) = [0xE9; 0x41; 0xFF].
Proof. apply isomorphic_roundtrip. repeat constructor. Defined.

(** A byte order mark overrides the decoder that was asked for, and is
    removed; but the UTF-16LE decoder then removes a second one, so that a text
    that starts with U+FEFF after its byte order mark loses that character. *)
Theorem byte_order_mark_removed_twice `{DecoderTablesLaws} `{SimdutfLaws} `{SimdutfUtf16Laws}
    (fallback_decoder : Decoder) (cps : list Z) (Hcps : scalars cps) :
  convert_input_to_utf8 fallback_decoder ([0xFF; 0xFE] ++ utf16_bytes LittleEndian (0xFEFF :: cps))
  = Ret (utf8_encode cps).
Proof.
  change (utf16_bytes LittleEndian (0xFEFF :: cps)) with ([0xFF; 0xFE] ++ utf16_bytes LittleEndian cps).
  unfold convert_input_to_utf8. cbn [app]. set (rest := utf16_bytes LittleEndian cps).
  change (bom_sniff_to_decoder (0xFF :: 0xFE :: 0xFF :: 0xFE :: rest)) with (Some UTF16LEDecoder). cbn match.
  rewrite substring_view_from_drop by (simpl; lia). cbn [res_bind drop to_utf8 utf16le_to_utf8].
  by apply from_utf16_le_encoded.
Qed.

Lemma byte_order_mark_removed_twice_witness :
  convert_input_to_utf8 Latin1Decoder ([0xFF; 0xFE] ++ utf16_bytes LittleEndian [0xFEFF; 0x41])
  = Ret (utf8_encode [0x41]).
Proof. apply byte_order_mark_removed_twice. by constructor. Defined.
