(* ===== verification/DecoderRoundtrip.v ===== *)
(** * Decoding what the encoders wrote

    For every legacy encoding, the decoder gives back the text the encoder was
    given, up to the substitutions the encoders make on purpose. *)

From S2P Require Import Prelude BinarySearch CharacterTypes Utf8 Utf16 Strings TextCodec Decoders DecoderSafety.

(** ** What the round trips rely on in the tables

    The sizes of the indexes; every code point of index jis0208 occurs in its
    first 94 rows, and the rows of the end-user-defined characters are empty. *)

Class RoundtripTablesLaws `{LookupTables} : Prop := {
  jis0208_length : Z.of_nat (length s_jis0208_index) <= 11280;
  jis0208_low cp p : code_point_index s_jis0208_index cp = Some p -> p < 8836;
  jis0208_user_defined p cp : 8836 <= p <= 10715 -> s_jis0208_index !! Z.to_nat p = Some cp -> cp = 0xFFFD;
  euc_kr_length : Z.of_nat (length s_euc_kr_index) <= 23940;
  gb18030_length : Z.of_nat (length s_gb18030_index) <= 23940;
  big5_end : s_big5_index_first_pointer + Z.of_nat (length s_big5_index) <= 19782
}.

#[export] Instance excerpt_roundtrip_laws : RoundtripTablesLaws.
Proof.
  split; try (vm_compute; congruence).
  - intros cp p. unfold code_point_index. cbn [find_code_point_from s_jis0208_index excerpt_tables].
    intros Hp. repeat (break_match_hyp Hp; [simplify_eq; lia|]). done.
  - intros p cp Hp Hlook. apply lookup_lt_Some in Hlook. simpl in Hlook. lia.
Qed.

(** ** Positions *)

Section positions.
Context (input : bytes).

Definition remaining (index : Z) (rest : bytes) : Prop :=
  0 <= index /\ drop (Z.to_nat index) input = rest.

Lemma remaining_start : remaining 0 input.
Proof. split; [lia|done]. Qed.

Lemma remaining_cons index byte rest :
  remaining index (byte :: rest) ->
  byte_at input index = Ret byte /\ 0 <= index < Z.of_nat (length input) /\ remaining (index + 1) rest.
Proof.
  intros [Hi Hd].
  assert (Hl : input !! Z.to_nat index = Some byte).
  { rewrite <- (Nat.add_0_r (Z.to_nat index)), <- lookup_drop. by rewrite Hd. }
  assert (Hlt := Hl). apply lookup_lt_Some in Hlt. split_and!; [|lia|lia|].
  - unfold byte_at, at_index. by rewrite Hl.
  - split; [lia|]. replace (Z.to_nat (index + 1)) with (S (Z.to_nat index)) by lia.
    rewrite <- Nat.add_1_r, <- drop_drop. by rewrite Hd.
Qed.

Lemma remaining_nil index : remaining index [] -> at_end input index = true.
Proof.
  intros [Hi Hd]. unfold at_end. apply (f_equal length) in Hd. rewrite length_drop in Hd. simpl in Hd. lia.
Qed.

End positions.

(** ** Sequences of iterations *)

Section runs.
Context {S : Type} (step : S -> Z -> res (outcome S)).

Inductive runs : S -> Z -> list Z -> S -> Z -> Prop :=
  | runs_refl state index : runs state index [] state index
  | runs_step state index state1 index1 cps1 state2 index2 cps2 :
      step state index = Ret (Continue state1 index1 cps1) ->
      runs state1 index1 cps2 state2 index2 ->
      runs state index (cps1 ++ cps2) state2 index2.

Lemma runs_trans state index cps1 state1 index1 cps2 state2 index2 :
  runs state index cps1 state1 index1 -> runs state1 index1 cps2 state2 index2 ->
  runs state index (cps1 ++ cps2) state2 index2.
Proof.
  induction 1 as [|s i s1 i1 c1 s2 i2 c2 Hs _ IH]; intros Hr; [done|].
  rewrite <- app_assoc. eapply runs_step; [exact Hs|]. by apply IH.
Qed.

Lemma runs_one state index state1 index1 cps :
  step state index = Ret (Continue state1 index1 cps) -> runs state index cps state1 index1.
Proof. intros Hs. rewrite <- (app_nil_r cps). eapply runs_step; [exact Hs|]. constructor. Qed.

(** A loop that returns has made the calls of its iterations. *)
Lemma decode_loop_runs fuel state index cps state' index' result :
  runs state index cps state' index' -> step state' index' = Ret Finished ->
  decode_loop step fuel state index = Ret result -> result = cps.
Proof.
  intros Hr Hf. revert fuel result.
  induction Hr as [s i|s i s1 i1 c1 s2 i2 c2 Hs _ IH]; intros [|fuel] result; try done; cbn [decode_loop].
  - rewrite Hf. cbn. by intros [= <-].
  - rewrite Hs. cbn [res_bind]. destruct (decode_loop step fuel s1 i1) as [rest|] eqn:Hrest; [|done].
    cbn [res_bind]. intros [= <-]. f_equal. by eapply IH.
Qed.

End runs.

(** ** Pointers *)

Lemma find_code_point_from_spec table i cp p :
  find_code_point_from table i cp = Some p -> i <= p /\ table !! Z.to_nat (p - i) = Some cp.
Proof.
  revert i. induction table as [|v table IH]; intros i; [done|]. cbn [find_code_point_from].
  destruct (Z.eqb_spec v cp) as [->|].
  - intros [= <-]. split; [lia|]. by rewrite Z.sub_diag.
  - intros [Hle Hl]%IH. split; [lia|]. replace (Z.to_nat (p - i)) with (S (Z.to_nat (p - (i + 1)))) by lia. done.
Qed.

Lemma code_point_index_spec table cp p :
  code_point_index table cp = Some p ->
  0 <= p < Z.of_nat (length table) /\ table !! Z.to_nat p = Some cp.
Proof.
  intros [Hp Hl]%find_code_point_from_spec. rewrite Z.sub_0_r in Hl.
  split; [|done]. apply lookup_lt_Some in Hl. lia.
Qed.

Lemma index_code_point_found table first_pointer p cp :
  first_pointer <= p -> table !! Z.to_nat (p - first_pointer) = Some cp -> cp <> 0xFFFD ->
  index_code_point table first_pointer p = Some cp.
Proof.
  intros Hp Hl Hne. unfold index_code_point. assert (Hlt := Hl). apply lookup_lt_Some in Hlt.
  replace ((p <? first_pointer) || _) with false by lia. rewrite Hl.
  by rewrite (proj2 (Z.eqb_neq _ _) Hne).
Qed.

Lemma index_code_point_inverse table cp p :
  code_point_index table cp = Some p -> cp <> 0xFFFD -> index_code_point table 0 p = Some cp.
Proof.
  intros [Hp Hl]%code_point_index_spec Hne. apply index_code_point_found; [lia|by rewrite Z.sub_0_r|done].
Qed.

Lemma find_skipping_range_spec table i cp from to p :
  find_skipping_range table i cp from to = Some p ->
  i <= p /\ ~ (from <= p <= to) /\ table !! Z.to_nat (p - i) = Some cp.
Proof.
  revert i. induction table as [|v table IH]; intros i; [done|]. cbn [find_skipping_range].
  assert (Hnext : find_skipping_range table (i + 1) cp from to = Some p ->
    i <= p /\ ~ (from <= p <= to) /\ (v :: table) !! Z.to_nat (p - i) = Some cp).
  { intros (Hle & Hr & Hl)%IH. split; [lia|]. split; [done|].
    replace (Z.to_nat (p - i)) with (S (Z.to_nat (p - (i + 1)))) by lia. done. }
  destruct ((from <=? i) && (i <=? to)) eqn:Hskip; [done|].
  destruct (Z.eqb_spec v cp) as [->|]; [|done].
  intros [= <-]. split; [lia|]. split; [lia|]. by rewrite Z.sub_diag.
Qed.

(** ** One item *)

Section items.
Context `{DecoderTablesLaws} `{!LookupTablesLaws} `{!RoundtripTablesLaws} (input : bytes).
Hypothesis Hfits : Z.of_nat (length input) < 2 ^ 63.

(** The decoder reads the bytes of an item back as one code point. *)
Definition item_decodes {S} (step : bytes -> S -> Z -> res (outcome S)) (initial : S)
    (item : Z -> res (list encoder_event)) (canonical : Z -> Z) (cp : Z) : Prop :=
  forall (bs : bytes) index rest, item cp = Ret (on_byte <$> bs) -> remaining input index (bs ++ rest) ->
    exists index', runs (step input) initial index [canonical cp] initial index' /\ remaining input index' rest.

Lemma on_bytes_inj (bs events : bytes) : on_byte <$> bs = on_byte <$> events -> bs = events.
Proof. apply list_fmap_eq_inj. by intros x y [= ->]. Qed.

Lemma events_one b (bs : bytes) : Ret [on_byte b] = Ret (on_byte <$> bs) -> bs = [b].
Proof. intros [= Hb]. by apply (on_bytes_inj bs [b]). Qed.
Lemma events_two a b (bs : bytes) : Ret [on_byte a; on_byte b] = Ret (on_byte <$> bs) -> bs = [a; b].
Proof. intros [= Hb]. by apply (on_bytes_inj bs [a; b]). Qed.
Lemma events_four a b c d (bs : bytes) :
  Ret [on_byte a; on_byte b; on_byte c; on_byte d] = Ret (on_byte <$> bs) -> bs = [a; b; c; d].
Proof. intros [= Hb]. by apply (on_bytes_inj bs [a; b; c; d]). Qed.
Lemma events_error cp (bs : bytes) : Ret [on_error cp] = Ret (on_byte <$> bs) -> False.
Proof. by destruct bs. Qed.

(** One iteration on a byte that is decoded on its own. *)
Lemma decode_single {S} (step : bytes -> S -> Z -> res (outcome S)) initial b cp index rest :
  remaining input index (b :: rest) ->
  (byte_at input index = Ret b -> at_end input index = false -> size_t (index + 1) = index + 1 ->
   step input initial index = Ret (Continue initial (index + 1) [cp])) ->
  exists index', runs (step input) initial index [cp] initial index' /\ remaining input index' rest.
Proof.
  intros (Hb & Hi & Hr)%remaining_cons Hs. exists (index + 1). split; [|done].
  apply runs_one. apply Hs; [done|unfold at_end; lia|]. apply size_t_index with (input := input); lia.
Qed.

(** Two iterations on a lead and a trail byte. *)
Lemma decode_pair {S} (step : bytes -> S -> Z -> res (outcome S)) initial middle a b cp index rest :
  remaining input index (a :: b :: rest) ->
  (forall i, byte_at input i = Ret a -> at_end input i = false -> size_t (i + 1) = i + 1 ->
   step input initial i = Ret (Continue middle (i + 1) [])) ->
  (forall i, byte_at input i = Ret b -> at_end input i = false -> size_t (i + 1) = i + 1 ->
   step input middle i = Ret (Continue initial (i + 1) [cp])) ->
  exists index', runs (step input) initial index [cp] initial index' /\ remaining input index' rest.
Proof.
  intros (Ha & Hi & Hr)%remaining_cons Hlead Htrail. apply remaining_cons in Hr as (Hb & Hi' & Hr).
  exists (index + 1 + 1). split; [|done].
  assert (Hend : forall i, 0 <= i < Z.of_nat (length input) -> at_end input i = false /\ size_t (i + 1) = i + 1).
  { intros i Hi0. split; [unfold at_end; lia|]. apply size_t_index with (input := input); lia. }
  destruct (Hend index Hi) as [He Hs]. destruct (Hend (index + 1) Hi') as [He' Hs'].
  change [cp] with ([] ++ [cp]). eapply runs_step; [by apply Hlead|]. by apply runs_one, Htrail.
Qed.

(** Decides the conditions of a step, from the ranges of its bytes. *)
Ltac decide_branches :=
  cbv zeta; cbn [negb]; rewrite ?Z.eqb_refl;
  repeat match goal with
  | |- context [if negb ?b then _ else _] => first [replace b with true by lia | replace b with false by lia]; cbn [negb]
  | |- context [if ?b then _ else _] => first [replace b with true by lia | replace b with false by lia]
  end; try done.

Ltac split_pointer p k :=
  pose proof (Z.mod_pos_bound p k ltac:(lia)); pose proof (Z.div_mod p k ltac:(lia)).

(** An ASCII byte is decoded as itself. *)
Tactic Notation "ascii_item" constr(cp) reference(step) :=
  assert (0 <= cp < 128) by ascii_lia; rewrite u8_id by lia; intros ->%events_one Hr;
  eapply decode_single; [exact Hr|]; intros Hb He Hs; unfold step; rewrite He, Hb, Hs;
  cbn [andb negb res_bind]; decide_branches.

Lemma euc_kr_item_decodes cp :
  0 <= cp -> cp <> 0xFFFD -> item_decodes euc_kr_step 0 euc_kr_item id cp.
Proof.
  intros H0' Hne bs index rest. unfold euc_kr_item, id. destruct (is_ascii cp) eqn:Ha; [ascii_item cp euc_kr_step|].
  destruct (code_point_index s_euc_kr_index cp) as [p|] eqn:Hp; [|by intros ?%events_error].
  pose proof euc_kr_length. pose proof (code_point_index_spec _ _ _ Hp) as [Hrange _].
  split_pointer p 190.
  cbv zeta. rewrite !u8_id by lia. intros ->%events_two Hr.
  eapply (decode_pair euc_kr_step 0 (p / 190 + 0x81)); [exact Hr|..]; intros i Hb He Hs;
    unfold euc_kr_step; rewrite He, Hb, Hs; cbn [andb negb res_bind].
  - decide_branches.
  - cbv zeta. decide_branches. cbn [mbind option_bind].
    rewrite u32_id by lia. replace ((p / 190 + 129 - 129) * 190 + _) with p by lia.
    unfold index_euc_kr_code_point. by rewrite (index_code_point_inverse _ _ _ Hp Hne).
Qed.

Lemma big5_scan_down_spec i start cp p :
  big5_scan_down i start cp = Ret (Some p) ->
  exists j, start <= Z.of_nat j /\ p = u32 (s_big5_index_first_pointer + Z.of_nat j)
    /\ s_big5_index !! j = Some cp.
Proof.
  induction i as [|i IH]; cbn [big5_scan_down]; unfold at_index.
  - destruct (Z.ltb_spec (Z.of_nat 0) start); [done|].
    destruct (s_big5_index !! 0%nat) as [v|] eqn:Hv; [|done]. cbn [unwrap res_bind].
    destruct (Z.eqb_spec v cp) as [->|]; [|done]. intros [= <-]. by exists 0%nat.
  - destruct (Z.ltb_spec (Z.of_nat (S i)) start); [done|].
    destruct (s_big5_index !! S i) as [v|] eqn:Hv; [|done]. cbn [unwrap res_bind].
    destruct (Z.eqb_spec v cp) as [->|]; [|done]. intros [= <-]. by exists (S i).
Qed.

Lemma index_big5_pointer_spec cp p :
  index_big5_pointer cp = Ret (Some p) ->
  5024 <= p < 19782 /\ s_big5_index_first_pointer <= p
  /\ s_big5_index !! Z.to_nat (p - s_big5_index_first_pointer) = Some cp.
Proof.
  pose proof big5_first_pointer. pose proof big5_end. unfold index_big5_pointer. cbv zeta.
  rewrite (u32_id ((161 - 129) * 157 - _)) by lia.
  set (start := (161 - 129) * 157 - s_big5_index_first_pointer). intros Hp.
  assert (exists j, start <= Z.of_nat j /\ p = u32 (s_big5_index_first_pointer + Z.of_nat j)
    /\ s_big5_index !! j = Some cp) as (j & Hj & -> & Hl).
  { destruct (existsb _ _).
    - destruct (length s_big5_index) eqn:Hlen; [done|]. by eapply big5_scan_down_spec.
    - destruct (find_code_point_from _ _ _) as [i|] eqn:Hf; [|done]. simplify_eq.
      apply find_code_point_from_spec in Hf as [Hle Hl]. exists (Z.to_nat i). rewrite lookup_drop in Hl.
      split; [lia|]. split; [f_equal; lia|]. rewrite <- Hl. f_equal. lia. }
  assert (Hlt := Hl). apply lookup_lt_Some in Hlt. rewrite u32_id by lia.
  split; [lia|]. split; [lia|]. rewrite <- Hl. f_equal. lia.
Qed.

Lemma big5_item_decodes cp :
  0 <= cp -> cp <> 0xFFFD -> item_decodes big5_step 0 big5_item id cp.
Proof.
  intros H0' Hne bs index rest. unfold big5_item, id. destruct (is_ascii cp) eqn:Ha; [ascii_item cp big5_step|].
  destruct (index_big5_pointer cp) as [[p|]|] eqn:Hp; cbn [res_bind]; [|by intros ?%events_error|done].
  apply index_big5_pointer_spec in Hp as (Hrange & Hfirst & Hl).
  split_pointer p 157. cbv zeta. set (offset := if p mod 157 <? 0x3F then 0x40 else 0x62).
  assert (offset = 0x40 /\ p mod 157 < 0x3F \/ offset = 0x62 /\ 0x3F <= p mod 157) by (unfold offset; break_match; lia).
  rewrite !u8_id by lia. intros ->%events_two Hr.
  eapply (decode_pair big5_step 0 (p / 157 + 0x81)); [exact Hr|..]; intros i Hb He Hs;
    unfold big5_step; rewrite He, Hb, Hs; cbn [andb negb res_bind]; [decide_branches|].
  decide_branches. replace (if p mod 157 + offset <? 127 then 64 else 98) with offset by (break_match; lia).
  decide_branches. rewrite u32_id by lia. replace ((p / 157 + 129 - 129) * 157 + _) with p by lia.
  rewrite !bool_decide_eq_false_2 by (intros [=]; lia). cbn [mbind option_bind].
  unfold index_big5_code_point. by rewrite (index_code_point_found _ _ _ _ Hfirst Hl Hne).
Qed.

(** The substitutions of the Japanese encoders. *)
Definition japanese_canonical (cp : Z) : Z :=
  if cp =? 0x00A5 then 0x5C else if cp =? 0x203E then 0x7E else if cp =? 0x2212 then 0xFF0D else cp.

(** A byte that is decoded on its own, given with its value. *)
Tactic Notation "single_item" reference(step) :=
  intros ->%events_one Hr; eapply decode_single; [exact Hr|]; intros Hb He Hs; unfold step;
  rewrite He, Hb, Hs; cbn [andb negb res_bind jis0212 euc_jp_lead]; decide_branches.

Lemma shift_jis_item_decodes cp :
  0 <= cp -> cp <> 0xFFFD -> item_decodes shift_jis_step 0 shift_jis_item japanese_canonical cp.
Proof.
  intros H0' Hne bs index rest. unfold shift_jis_item, japanese_canonical.
  destruct (is_ascii cp || (cp =? 128)) eqn:Ha.
  { assert (0 <= cp < 129) by ascii_lia. rewrite u8_id by lia.
    rewrite (proj2 (Z.eqb_neq cp 0xA5)), (proj2 (Z.eqb_neq cp 0x203E)), (proj2 (Z.eqb_neq cp 0x2212)) by lia.
    single_item shift_jis_step. }
  destruct (Z.eqb_spec cp 0xA5); [single_item shift_jis_step|].
  destruct (Z.eqb_spec cp 0x203E); [single_item shift_jis_step|].
  destruct ((0xFF61 <=? cp) && (cp <=? 0xFF9F)) eqn:Hk.
  { rewrite (proj2 (Z.eqb_neq cp 0x2212)), u8_id by lia. single_item shift_jis_step.
    do 4 f_equal. lia. }
  set (item := if cp =? 0x2212 then 0xFF0D else cp). cbv zeta.
  assert (Hitem : item <> 0xFFFD) by (unfold item; break_match; lia).
  destruct (index_shift_jis_pointer item) as [p|] eqn:Hp; [|by intros ?%events_error].
  apply find_skipping_range_spec in Hp as (Hp0 & Hskip & Hl). rewrite Z.sub_0_r in Hl.
  assert (Hlt := Hl). apply lookup_lt_Some in Hlt. pose proof jis0208_length.
  assert (Heudc : ~ (8836 <= p <= 10715)) by (intros Hu; by apply Hitem, (jis0208_user_defined p)).
  split_pointer p 188. set (offset := if p mod 188 <? 0x3F then 0x40 else 0x41).
  set (lead_offset := if p / 188 <? 0x1F then 0x81 else 0xC1).
  assert (offset = 0x40 /\ p mod 188 < 0x3F \/ offset = 0x41 /\ 0x3F <= p mod 188) by (unfold offset; break_match; lia).
  assert (lead_offset = 0x81 /\ p / 188 < 0x1F \/ lead_offset = 0xC1 /\ 0x1F <= p / 188 < 60)
    by (unfold lead_offset; break_match; lia).
  rewrite !u8_id by lia. intros ->%events_two Hr.
  eapply (decode_pair shift_jis_step 0 (p / 188 + lead_offset)); [exact Hr|..]; intros i Hb He Hs;
    unfold shift_jis_step; rewrite He, Hb, Hs; cbn [andb negb res_bind]; [decide_branches|].
  decide_branches. replace (if p mod 188 + offset <? 127 then 64 else 65) with offset by (break_match; lia).
  replace (if p / 188 + lead_offset <? 160 then 129 else 193) with lead_offset by (break_match; lia).
  decide_branches. rewrite !u32_id by lia.
  replace ((p / 188 + lead_offset - lead_offset) * 188 + _ - _) with p by lia. decide_branches.
  unfold index_jis0208_code_point. rewrite (index_code_point_found _ 0 p item); [done|lia|by rewrite Z.sub_0_r|done].
Qed.

Definition euc_jp_initial : euc_jp_state := {| jis0212 := false; euc_jp_lead := 0 |}.

Lemma euc_jp_item_decodes cp :
  0 <= cp -> cp <> 0xFFFD -> item_decodes euc_jp_step euc_jp_initial euc_jp_item japanese_canonical cp.
Proof.
  intros H0' Hne bs index rest. unfold euc_jp_item, japanese_canonical. destruct (is_ascii cp) eqn:Ha.
  { assert (0 <= cp < 128) by ascii_lia. rewrite u8_id by lia.
    rewrite (proj2 (Z.eqb_neq cp 0xA5)), (proj2 (Z.eqb_neq cp 0x203E)), (proj2 (Z.eqb_neq cp 0x2212)) by lia.
    single_item euc_jp_step. }
  destruct (Z.eqb_spec cp 0xA5); [single_item euc_jp_step|].
  destruct (Z.eqb_spec cp 0x203E); [single_item euc_jp_step|].
  destruct ((0xFF61 <=? cp) && (cp <=? 0xFF9F)) eqn:Hk.
  { rewrite (proj2 (Z.eqb_neq cp 0x2212)), u8_id by lia. intros ->%events_two Hr.
    eapply (decode_pair euc_jp_step _ {| jis0212 := false; euc_jp_lead := 0x8E |}); [exact Hr|..]; intros i Hb He Hs;
      unfold euc_jp_step; rewrite He, Hb, Hs; cbn [andb negb res_bind euc_jp_initial jis0212 euc_jp_lead]; decide_branches.
    do 4 f_equal. lia. }
  set (item := if cp =? 0x2212 then 0xFF0D else cp). cbv zeta.
  assert (Hitem : item <> 0xFFFD) by (unfold item; break_match; lia).
  destruct (code_point_index s_jis0208_index item) as [p|] eqn:Hp; [|by intros ?%events_error].
  pose proof (jis0208_low _ _ Hp). pose proof (code_point_index_spec _ _ _ Hp) as [Hrange _].
  split_pointer p 94. rewrite !u8_id by lia. intros ->%events_two Hr.
  eapply (decode_pair euc_jp_step _ {| jis0212 := false; euc_jp_lead := p / 94 + 0xA1 |}); [exact Hr|..]; intros i Hb He Hs;
    unfold euc_jp_step; rewrite He, Hb, Hs; cbn [andb negb res_bind euc_jp_initial jis0212 euc_jp_lead]; decide_branches.
  rewrite u32_id by lia. replace ((p / 94 + 161 - 161) * 94 + _ - _) with p by lia.
  unfold index_jis0208_code_point. by rewrite (index_code_point_inverse _ _ _ Hp Hitem).
Qed.

(** *** gb18030 *)

(** A code point that one of the ranges holds, at a pointer the decoder does not
    treat specially. *)
Definition in_gb18030_ranges (cp : Z) : Prop :=
  cp = 0xE7C7 \/
  exists i p c, s_gb18030_ranges !! i = Some (p, c) /\ c <= cp
    /\ (forall next, s_gb18030_ranges !! S i = Some next -> cp < next.2 /\ p + (cp - c) < next.1)
    /\ (p + (cp - c) <= 39419 \/ 189000 <= p + (cp - c) <= 1237575)
    /\ p + (cp - c) <> 7457 /\ Forall (fun entry => entry.1 <> p + (cp - c)) gb18030_2022_pointers.

Lemma sorted_last_unique (keys : list Z) i j x y needle :
  (forall i j x y, (i < j)%nat -> keys !! i = Some x -> keys !! j = Some y -> x < y) ->
  keys !! i = Some x -> keys !! j = Some y -> x <= needle -> y <= needle ->
  (forall z, keys !! S i = Some z -> needle < z) -> (forall z, keys !! S j = Some z -> needle < z) -> i = j.
Proof.
  intros Hsorted Hi Hj Hx Hy Hi' Hj'.
  assert (Hcase : forall i j x y, (i < j)%nat -> keys !! i = Some x -> keys !! j = Some y -> y <= needle ->
    (forall z, keys !! S i = Some z -> needle < z) -> False).
  { clear - Hsorted. intros i j x y Hij Hi Hj Hy Hnext.
    destruct (lookup_lt_is_Some_2 keys (S i)) as [z Hz]; [apply lookup_lt_Some in Hj; lia|].
    specialize (Hnext z Hz). destruct (decide (S i = j)) as [<-|]; [simplify_eq; lia|].
    specialize (Hsorted (S i) j z y ltac:(lia) Hz Hj). lia. }
  destruct (Nat.lt_trichotomy i j) as [Hlt|[->|Hlt]]; [|done|].
  - exfalso. exact (Hcase i j x y Hlt Hi Hj Hy Hi').
  - exfalso. exact (Hcase j i y x Hlt Hj Hi Hx Hj').
Qed.

Lemma table_search_at {A} (key : A -> Z) (table : list A) (needle : Z) i entry :
  0 <= needle < 2 ^ 31 -> Forall (fun entry => 0 <= key entry < 2 ^ 31) table ->
  (exists first, head (key <$> table) = Some first /\ first <= needle) ->
  (forall i j x y, (i < j)%nat -> (key <$> table) !! i = Some x -> (key <$> table) !! j = Some y -> x < y) ->
  table !! i = Some entry -> key entry <= needle ->
  (forall next, table !! S i = Some next -> needle < key next) ->
  exists found, binary_search (fun entry => int_of_u32 (needle - key entry)) table = Ret (found, i).
Proof.
  intros Hn Hb Hf Hsorted Hi Hle Hnext.
  destruct (table_search key table needle Hn Hb Hf Hsorted) as (found & j & e & Hs & Hj & Hle' & Hnext').
  exists found. rewrite Hs. do 2 f_equal.
  assert (Hkey : forall k z, (key <$> table) !! k = Some z -> exists e, table !! k = Some e /\ z = key e).
  { intros k z. rewrite list_lookup_fmap, fmap_Some. done. }
  eapply (sorted_last_unique (key <$> table) j i (key e) (key entry) needle Hsorted);
    [by rewrite list_lookup_fmap, Hj|by rewrite list_lookup_fmap, Hi|done|done|..];
    intros z (e' & He' & ->)%Hkey; eauto.
Qed.

Lemma gb18030_ranges_inverse cp :
  0x80 <= cp <= 0x10FFFF -> in_gb18030_ranges cp ->
  exists p, index_gb18030_ranges_pointer cp = Ret p /\ 0 <= p <= 1237575
    /\ index_gb18030_ranges_code_point p = Ret (Some cp).
Proof.
  intros Hcp [->|(i & p & c & Hi & Hc & Hnext & Hp & Hne & Hspecial)]; [by exists 7457|].
  pose proof (Forall_lookup_1 _ _ _ _ pointers_bound Hi) as [Hb1 Hb2]. cbn in Hb1, Hb2.
  unfold index_gb18030_ranges_pointer. destruct (Z.eqb_spec cp 0xE7C7) as [->|]; [by exists 7457|].
  destruct (table_search_at snd s_gb18030_ranges cp i (p, c)) as [found ->];
    [lia|exact ranges_bound|exists 0x80; split; [exact ranges_first|lia]|exact ranges_sorted|done|done
    |intros next Hn; by apply Hnext|].
  cbn [res_bind]. unfold at_index. rewrite Hi. cbn [unwrap res_bind].
  exists (p + (cp - c)). rewrite (u32_id (p + cp)), u32_id by lia.
  split; [f_equal; lia|]. split; [lia|]. unfold index_gb18030_ranges_code_point.
  replace ((_ && _) || _) with false by lia. rewrite (proj2 (Z.eqb_neq _ _) Hne).
  destruct (find _ gb18030_2022_pointers) as [[q e]|] eqn:Hf.
  { apply find_some in Hf as [Hin Heq]. rewrite Forall_forall in Hspecial.
    specialize (Hspecial _ (proj2 (list_elem_of_In _ _) Hin)). cbn in *. lia. }
  destruct (table_search_at fst s_gb18030_ranges (p + (cp - c)) i (p, c)) as [found' ->];
    [lia|eapply Forall_impl; [exact pointers_bound|]; cbn; tauto
    |exists 0; split; [exact pointers_first|lia]|exact pointers_sorted|done|cbn; lia
    |intros next Hn; by apply Hnext|].
  cbn [res_bind]. unfold at_index. rewrite Hi. cbn [unwrap res_bind].
  rewrite (u32_id (c + _)), u32_id by lia. do 2 f_equal. lia.
Qed.

(** What a step finds at the next byte. *)
Lemma remaining_step index b rest :
  remaining input index (b :: rest) ->
  byte_at input index = Ret b /\ at_end input index = false /\ size_t (index + 1) = index + 1
  /\ remaining input (index + 1) rest.
Proof.
  intros (Hb & Hi & Hr)%remaining_cons. split; [done|]. split; [unfold at_end; lia|]. split; [|done].
  apply size_t_index with (input := input); lia.
Qed.

Abbreviation gb18030_bytes a b c := {| gb18030_first := a; gb18030_second := b; gb18030_third := c |}.

Lemma decode_four_bytes a b c d cp index rest :
  0x81 <= a <= 0xFE -> 0x30 <= b <= 0x39 -> 0x81 <= c <= 0xFE -> 0x30 <= d <= 0x39 ->
  index_gb18030_ranges_code_point ((a - 0x81) * 12600 + (b - 0x30) * 1260 + (c - 0x81) * 10 + d - 0x30)
    = Ret (Some cp) ->
  remaining input index (a :: b :: c :: d :: rest) ->
  exists index', runs (gb18030_step input) gb18030_initial index [cp] gb18030_initial index'
    /\ remaining input index' rest.
Proof.
  intros Ha Hb Hc Hd Hcp (Ba & Ea & Sa & Hr)%remaining_step.
  apply remaining_step in Hr as (Bb & Eb & Sb & Hr). apply remaining_step in Hr as (Bc & Ec & Sc & Hr).
  apply remaining_step in Hr as (Bd & Ed & Sd & Hr). exists (index + 1 + 1 + 1 + 1). split; [|done].
  change [cp] with ([] ++ [] ++ [] ++ [cp]).
  eapply (runs_step _ _ _ (gb18030_bytes a 0 0)).
  { unfold gb18030_step. rewrite Ea, Ba, Sa. cbn [andb negb orb res_bind gb18030_initial gb18030_first gb18030_second gb18030_third]. decide_branches. }
  eapply (runs_step _ _ _ (gb18030_bytes a b 0)).
  { unfold gb18030_step. rewrite Eb, Bb, Sb. cbn [andb negb orb res_bind gb18030_first gb18030_second gb18030_third]. decide_branches. }
  eapply (runs_step _ _ _ (gb18030_bytes a b c)).
  { unfold gb18030_step. rewrite Ec, Bc, Sc. cbn [andb negb orb res_bind gb18030_first gb18030_second gb18030_third]. decide_branches. }
  apply runs_one. unfold gb18030_step. rewrite Ed, Bd, Sd.
  cbn [andb negb orb res_bind gb18030_first gb18030_second gb18030_third]. decide_branches.
  rewrite u32_id by lia. replace (10 * 126 * 10) with 12600 by lia. replace (10 * 126) with 1260 by lia.
  by rewrite Hcp.
Qed.

(** What the gb18030 encoder can write so that it is read back. *)
Definition gb18030_decodable (gbk : bool) (cp : Z) : Prop :=
  gbk = true \/ is_Some (code_point_index s_gb18030_index cp) \/ is_ascii cp = true \/ in_gb18030_ranges cp.

Lemma gb18030_item_decodes gbk cp :
  0 <= cp <= 0x10FFFF -> cp <> 0xFFFD -> gb18030_decodable gbk cp ->
  item_decodes gb18030_step gb18030_initial (gb18030_item gbk) id cp.
Proof.
  intros H0' Hne Hdec bs index rest. unfold gb18030_item, id. destruct (is_ascii cp) eqn:Ha.
  { assert (0 <= cp < 128) by ascii_lia. rewrite u8_id by lia. intros ->%events_one Hr.
    eapply decode_single; [exact Hr|]. intros Hb He Hs. unfold gb18030_step. rewrite He, Hb, Hs.
    cbn [andb negb orb res_bind gb18030_initial gb18030_first gb18030_second gb18030_third]. decide_branches. }
  destruct (cp =? 0xE5E5); [by intros ?%events_error|].
  destruct (gbk && (cp =? 0x20AC)) eqn:Heuro.
  { assert (cp = 0x20AC) as -> by lia. intros ->%events_one Hr.
    eapply decode_single; [exact Hr|]. intros Hb He Hs. unfold gb18030_step. rewrite He, Hb, Hs. done. }
  destruct (code_point_index s_gb18030_index cp) as [p|] eqn:Hp.
  - pose proof gb18030_length. pose proof (code_point_index_spec _ _ _ Hp) as [Hrange _].
    split_pointer p 190. cbv zeta. set (offset := if p mod 190 <? 0x3F then 0x40 else 0x41).
    assert (offset = 0x40 /\ p mod 190 < 0x3F \/ offset = 0x41 /\ 0x3F <= p mod 190) by (unfold offset; break_match; lia).
    rewrite !u8_id by lia. intros ->%events_two Hr.
    eapply (decode_pair gb18030_step _ (gb18030_bytes (p / 190 + 0x81) 0 0)); [exact Hr|..]; intros i Hb He Hs;
      unfold gb18030_step; rewrite He, Hb, Hs;
      cbn [andb negb orb res_bind gb18030_initial gb18030_first gb18030_second gb18030_third]; decide_branches.
    replace (if p mod 190 + offset <? 127 then 64 else 65) with offset by (break_match; lia).
    rewrite u32_id by lia. replace ((p / 190 + 129 - 129) * 190 + _) with p by lia. cbn [mbind option_bind].
    unfold index_gb18030_code_point. by rewrite (index_code_point_inverse _ _ _ Hp Hne).
  - destruct gbk; [by intros ?%events_error|].
    destruct Hdec as [?|[[? ?]|[?|Hranges]]]; try congruence.
    destruct (gb18030_ranges_inverse cp) as (p & -> & Hrange & Hcp); [ascii_lia|done|]. cbn [res_bind]. cbv zeta.
    split_pointer p 12600. split_pointer (p mod 12600) 1260. split_pointer (p mod 12600 mod 1260) 10.
    change (10 * 126 * 10) with 12600. change (10 * 126) with 1260. rewrite !u8_id by lia.
    intros ->%events_four Hr.
    eapply decode_four_bytes; [..|exact Hr]; try lia. rewrite <- Hcp. f_equal. lia.
Qed.

(** *** ISO-2022-JP *)

Definition escape_bytes (state : ISO2022JPState) : bytes :=
  match state with ASCII => [0x1B; 0x28; 0x42] | Roman => [0x1B; 0x28; 0x4A] | jis0208 => [0x1B; 0x24; 0x42] end.

(** The bytes of a code point in each of the three sets. *)
Definition char_bytes (state : ISO2022JPState) (cp : Z) (bs : bytes) : Prop :=
  match state with
  | ASCII => bs = [cp] /\ is_ascii cp = true /\ cp <> 0x0E /\ cp <> 0x0F /\ cp <> 0x1B
  | Roman =>
      bs = [cp] /\ is_ascii cp = true /\ cp <> 0x0E /\ cp <> 0x0F /\ cp <> 0x1B /\ cp <> 0x5C /\ cp <> 0x7E
      \/ bs = [0x5C] /\ cp = 0xA5 \/ bs = [0x7E] /\ cp = 0x203E
  | jis0208 =>
      exists p, code_point_index s_jis0208_index (iso_2022_jp_canonical cp) = Some p
        /\ bs = [p / 94 + 0x21; p mod 94 + 0x21] /\ iso_2022_jp_canonical cp <> 0xFFFD
  end.

Definition item_bytes (state state' : ISO2022JPState) (cp : Z) (bs : bytes) : Prop :=
  exists chars, char_bytes state' cp chars
    /\ (bs = chars /\ state' = state \/ bs = escape_bytes state' ++ chars).

Lemma on_byte_app (bs : bytes) e1 e2 :
  e1 ++ e2 = on_byte <$> bs -> exists bs1 bs2, bs = bs1 ++ bs2 /\ e1 = on_byte <$> bs1 /\ e2 = on_byte <$> bs2.
Proof.
  revert bs. induction e1 as [|e e1 IH]; intros bs Hbs; [by exists [], bs|].
  destruct bs as [|b bs]; [done|]. cbn in Hbs. injection Hbs as -> Hbs.
  destruct (IH bs Hbs) as (bs1 & bs2 & -> & -> & ->). by exists (b :: bs1), bs2.
Qed.

(** An escape sequence followed by what the recursive call writes. *)
Lemma escape_prefix (r : res (ISO2022JPState * list encoder_event)) (escape bs : bytes) st' :
  (let* (state, events) := r in Ret (state, (on_byte <$> escape) ++ events)) = Ret (st', on_byte <$> bs) ->
  exists bs', r = Ret (st', on_byte <$> bs') /\ bs = escape ++ bs'.
Proof.
  destruct r as [[st events]|]; [|done]. cbn [res_bind]. intros [= <- Hbs].
  apply on_byte_app in Hbs as (bs1 & bs2 & -> & Hb1%on_bytes_inj & ->). exists bs2. by subst.
Qed.

Lemma iso_2022_jp_in_ascii fuel cp st' bs :
  is_ascii cp = true -> 0 <= cp -> iso_2022_jp_item (S fuel) cp ASCII = Ret (st', on_byte <$> bs) ->
  st' = ASCII /\ char_bytes ASCII cp bs.
Proof.
  intros Ha H0'. cbn [iso_2022_jp_item]. rewrite Ha, u8_id by ascii_lia. cbn [iso_2022_jp_state_is orb andb].
  destruct ((_ =? _) || _ || _) eqn:Hc; intros [= <- Hbs]; [by destruct bs|].
  split; [done|]. split; [by apply (on_bytes_inj bs [cp])|]. split; [exact Ha|lia].
Qed.

Lemma iso_2022_jp_ascii_bytes fuel cp st st' bs :
  is_ascii cp = true -> 0 <= cp -> iso_2022_jp_item (S (S fuel)) cp st = Ret (st', on_byte <$> bs) ->
  item_bytes st st' cp bs.
Proof.
  intros Ha H0'.
  assert (Hescape : (let* (state, events) := iso_2022_jp_item (S fuel) cp ASCII in
      Ret (state, (on_byte <$> escape_bytes ASCII) ++ events)) = Ret (st', on_byte <$> bs) -> item_bytes st st' cp bs).
  { intros (bs' & Hr & ->)%escape_prefix. apply iso_2022_jp_in_ascii in Hr as [-> Hc]; [|done..].
    exists bs'. by auto. }
  destruct st; [intros [-> Hc]%iso_2022_jp_in_ascii; [exists bs; by auto|done..]|..];
    remember (S fuel) as fuel' eqn:Hf; cbn [iso_2022_jp_item]; rewrite Ha;
    cbn [iso_2022_jp_state_is orb andb negb]; [|exact Hescape].
  destruct ((_ =? _) || _ || _) eqn:Hc; [intros [= <- Hbs]; by destruct bs|].
  destruct (negb (cp =? 0x5C) && negb (cp =? 0x7E) || _) eqn:Hr; [|exact Hescape]. rewrite u8_id by ascii_lia. intros [= <- Hbs].
  exists bs. split; [|by auto]. left. split; [by apply (on_bytes_inj bs [cp])|].
  split; [exact Ha|]. ascii_lia.
Qed.

Lemma iso_2022_jp_yen_bytes fuel cp st st' bs :
  cp = 0xA5 \/ cp = 0x203E -> iso_2022_jp_item (S (S fuel)) cp st = Ret (st', on_byte <$> bs) ->
  item_bytes st st' cp bs.
Proof.
  intros Hcp.
  assert (Hroman : forall fuel bs, iso_2022_jp_item (S fuel) cp Roman = Ret (st', on_byte <$> bs) ->
    st' = Roman /\ char_bytes Roman cp bs).
  { clear fuel bs. intros fuel bs. destruct Hcp as [->| ->]; intros [= <- Hbs]; (split; [done|]); right; [left|right];
      (split; [|done]); [by apply (on_bytes_inj bs [0x5C])|by apply (on_bytes_inj bs [0x7E])]. }
  assert (Hescape : (let* (state, events) := iso_2022_jp_item (S fuel) cp Roman in
      Ret (state, (on_byte <$> escape_bytes Roman) ++ events)) = Ret (st', on_byte <$> bs) -> item_bytes st st' cp bs).
  { intros (bs' & Hr & ->)%escape_prefix. apply Hroman in Hr as [-> Hc]. exists bs'. by auto. }
  destruct st; [|intros [-> Hc]%Hroman; exists bs; by auto|]; destruct Hcp as [-> | ->]; exact Hescape.
Qed.

Lemma iso_2022_jp_pointer_bytes fuel item cp st st' bs p :
  jis_item item -> item = iso_2022_jp_canonical cp -> item <> 0xFFFD ->
  code_point_index s_jis0208_index item = Some p ->
  iso_2022_jp_item (S (S fuel)) item st = Ret (st', on_byte <$> bs) -> item_bytes st st' cp bs.
Proof.
  intros Hj Hcp Hne Hp. pose proof (jis0208_low _ _ Hp). pose proof (code_point_index_spec _ _ _ Hp) as [Hrange _].
  split_pointer p 94.
  assert (Hjis : forall fuel bs, iso_2022_jp_item (S fuel) item jis0208 = Ret (st', on_byte <$> bs) ->
    st' = jis0208 /\ char_bytes jis0208 cp bs).
  { clear fuel bs. intros fuel bs. rewrite iso_2022_jp_jis_item by done. unfold jis_step. rewrite Hp.
    cbn [iso_2022_jp_state_is negb]. cbv zeta. rewrite !u8_id by lia. intros [= <- Hbs]. split; [done|].
    exists p. rewrite <- Hcp. split; [done|]. split; [|done]. by apply (on_bytes_inj bs [_; _]). }
  destruct st; [..|intros [-> Hc]%Hjis; exists bs; by auto].
  all: rewrite iso_2022_jp_jis_item by done; unfold jis_step; rewrite Hp; cbn [iso_2022_jp_state_is negb].
  all: intros (bs' & Hr & ->)%(escape_prefix _ (escape_bytes jis0208)).
  all: apply Hjis in Hr as [-> Hc]; exists bs'; by auto.
Qed.

Lemma iso_2022_jp_item_bytes fuel cp st st' bs :
  0 <= cp <= 0x10FFFF -> cp <> 0xFFFD ->
  iso_2022_jp_item (S (S (S fuel))) cp st = Ret (st', on_byte <$> bs) -> item_bytes st st' cp bs.
Proof.
  intros Hr Hne Hitem. destruct (is_ascii cp) eqn:Ha; [eapply iso_2022_jp_ascii_bytes; [done|lia|exact Hitem]|].
  destruct (decide (cp = 0xA5 \/ cp = 0x203E)) as [Hy|Hn]; [by eapply iso_2022_jp_yen_bytes|].
  destruct (iso_2022_jp_other_item (S (S fuel)) cp st Ha Hn ltac:(lia)) as [Hj Heq].
  rewrite Heq in Hitem. destruct (code_point_index s_jis0208_index (iso_2022_jp_canonical cp)) as [p|] eqn:Hp.
  - rewrite <- iso_2022_jp_jis_item in Hitem by done.
    eapply (iso_2022_jp_pointer_bytes _ _ cp); [done|done| |exact Hp|exact Hitem].
    unfold iso_2022_jp_canonical. destruct (Z.eqb_spec cp 0x2212) as [->|]; [done|].
    destruct ((0xFF61 <=? cp) && (cp <=? 0xFF9F)) eqn:Hk; [|done].
    pose proof katakana_length. destruct (lookup_lt_is_Some_2 s_iso_2022_jp_katakana_index
      (Z.to_nat (cp - 0xFF61))) as [v Hv]; [lia|]. rewrite Hv.
    pose proof (Forall_lookup_1 _ _ _ _ katakana_range Hv) as Hrange. cbn in *. lia.
  - unfold jis_step in Hitem. rewrite Hp in Hitem. destruct st; cbn [iso_2022_jp_state_is] in Hitem;
      try (injection Hitem as _ Hbs; by destruct bs).
    apply (escape_prefix _ [0x1B; 0x28; 0x4A]) in Hitem as (bs' & Hr' & _).
    rewrite iso_2022_jp_jis_item in Hr' by done. unfold jis_step in Hr'. rewrite Hp in Hr'.
    injection Hr' as _ Hbs. by destruct bs'.
Qed.

Definition set_state (state : ISO2022JPState) : ISO2022JPDecoderState :=
  match state with ASCII => DecodeASCII | Roman => DecodeRoman | jis0208 => LeadByte end.

(** The decoder is in the set the encoder is in. *)
Definition in_set (state : ISO2022JPState) (s : iso_2022_jp_state) : Prop :=
  decoder_state s = set_state state /\ output_state s = set_state state.

(** The first lines of an iteration, on the next byte. *)
Lemma iso_2022_jp_read index b rest :
  remaining input index (b :: rest) ->
  (if index <? Z.of_nat (length input) then
     let* byte := byte_at input index in Ret (Some byte, size_t (index + 1))
   else Ret (None, index)) = Ret (Some b, index + 1)
  /\ remaining input (index + 1) rest.
Proof.
  intros (Hb & He & Hs & Hr)%remaining_step. split; [|done]. unfold at_end in He.
  rewrite (proj2 (Z.ltb_lt _ _)) by lia. by rewrite Hb, Hs.
Qed.

Lemma escape_decodes st st' s index rest :
  in_set st s -> iso2022_jp_output s = false -> remaining input index (escape_bytes st' ++ rest) ->
  exists s' index', runs (iso_2022_jp_step input) s index [] s' index' /\ in_set st' s' /\ remaining input index' rest.
Proof.
  destruct s as [d o lead out]. intros [Hd Ho] Hout Hr. cbn in Hd, Ho, Hout. subst d o out.
  assert (Hbytes : exists a b, escape_bytes st' = [0x1B; a; b] /\ (a = 0x24 \/ a = 0x28) /\ escape_state a b = Some (set_state st')).
  { destruct st'; eexists _, _; (split; [reflexivity|]); (split; [lia|reflexivity]). }
  destruct Hbytes as (a & b & Hesc & Ha & Hset). rewrite Hesc in Hr.
  apply iso_2022_jp_read in Hr as [R1 Hr]. apply iso_2022_jp_read in Hr as [R2 Hr].
  apply iso_2022_jp_read in Hr as [R3 Hr].
  eexists _, (index + 1 + 1 + 1). split; [|split; [|exact Hr]].
  - change (@nil Z) with ((@nil Z) ++ [] ++ []). eapply runs_step; [|eapply runs_step; [|apply runs_one]].
    + unfold iso_2022_jp_step, iso_2022_jp_escape_start, iso_2022_jp_escape. rewrite R1. cbn [res_bind decoder_state]. by destruct st.
    + unfold iso_2022_jp_step, iso_2022_jp_escape_start, iso_2022_jp_escape. rewrite R2. cbn [res_bind decoder_state with_decoder_state].
      by replace ((a =? 36) || (a =? 40)) with true by lia.
    + unfold iso_2022_jp_step, iso_2022_jp_escape_start, iso_2022_jp_escape. rewrite R3. cbn [res_bind decoder_state with_decoder_state with_lead
        iso2022_jp_lead mbind option_bind iso2022_jp_output]. by rewrite Hset.
  - by split.
Qed.

Definition char_result (st : ISO2022JPState) (s : iso_2022_jp_state) (cp index : Z) (rest : bytes) : Prop :=
  exists s' index', runs (iso_2022_jp_step input) s index [cp] s' index'
    /\ in_set st s' /\ iso2022_jp_output s' = false /\ remaining input index' rest.

Lemma single_char st s b cp index rest :
  in_set st s -> remaining input index (b :: rest) ->
  ((if index <? Z.of_nat (length input) then
      let* byte := byte_at input index in Ret (Some byte, size_t (index + 1))
    else Ret (None, index)) = Ret (Some b, index + 1) ->
   iso_2022_jp_step input s index = Ret (Continue (with_output s false) (index + 1) [cp])) ->
  char_result st s cp index rest.
Proof.
  intros [Hd Ho] [Hread Hr]%iso_2022_jp_read Hstep. eexists _, _.
  split; [by apply runs_one, Hstep|]. by split.
Qed.

Lemma char_decodes st s cp bs index rest :
  0 <= cp -> in_set st s -> char_bytes st cp bs -> remaining input index (bs ++ rest) ->
  char_result st s (iso_2022_jp_canonical cp) index rest.
Proof.
  intros H0' Hset Hc Hr. assert (Hset' := Hset). destruct Hset' as [Hd Ho].
  assert (Hcanon : is_ascii cp = true \/ cp = 0xA5 \/ cp = 0x203E -> iso_2022_jp_canonical cp = cp).
  { intros Hcp. unfold iso_2022_jp_canonical. replace (cp =? 0x2212) with false by ascii_lia.
    by replace ((0xFF61 <=? cp) && (cp <=? 0xFF9F)) with false by ascii_lia. }
  destruct st; cbn [char_bytes] in Hc.
  - destruct Hc as (-> & Ha & Hn). rewrite Hcanon by auto. eapply single_char; [done|exact Hr|].
    intros Hread. unfold iso_2022_jp_step, iso_2022_jp_escape_start, iso_2022_jp_escape. rewrite Hread, Hd. cbn [res_bind set_state].
    assert (cp < 128) by ascii_lia. decide_branches.
  - destruct Hc as [(-> & Ha & Hn)|[[-> ->]|[-> ->]]]; rewrite Hcanon by auto;
      (eapply single_char; [done|exact Hr|]); intros Hread; unfold iso_2022_jp_step, iso_2022_jp_escape_start, iso_2022_jp_escape; rewrite Hread, Hd;
      cbn [res_bind set_state]; [|done|done].
    assert (cp < 128) by ascii_lia. decide_branches.
  - destruct Hc as (p & Hp & -> & Hne). pose proof (jis0208_low _ _ Hp).
    pose proof (code_point_index_spec _ _ _ Hp) as [Hrange _]. split_pointer p 94.
    apply iso_2022_jp_read in Hr as [R1 Hr]. apply iso_2022_jp_read in Hr as [R2 Hr].
    eexists _, _. split; [|split; [|split; [|exact Hr]]].
    + change [iso_2022_jp_canonical cp] with ([] ++ [iso_2022_jp_canonical cp]).
      eapply runs_step; [|apply runs_one].
      * unfold iso_2022_jp_step, iso_2022_jp_escape_start, iso_2022_jp_escape. rewrite R1, Hd. cbn [res_bind set_state]. decide_branches.
      * unfold iso_2022_jp_step, iso_2022_jp_escape_start, iso_2022_jp_escape. rewrite R2. cbn [res_bind decoder_state with_decoder_state with_lead with_output iso2022_jp_lead].
        decide_branches. rewrite u32_id by lia. replace ((p / 94 + 33 - 33) * 94 + _ - _) with p by lia.
        unfold index_jis0208_code_point. by rewrite (index_code_point_inverse _ _ _ Hp Hne).
    + by split.
    + done.
Qed.

Lemma iso_2022_jp_runs items st s bs index rest :
  Forall (fun cp => 0 <= cp <= 0x10FFFF /\ cp <> 0xFFFD) items -> in_set st s -> iso2022_jp_output s = false ->
  iso_2022_jp_process items st = Ret (on_byte <$> bs) -> remaining input index (bs ++ rest) ->
  exists s' index', runs (iso_2022_jp_step input) s index (iso_2022_jp_canonical <$> items) s' index'
    /\ in_set ASCII s' /\ remaining input index' rest.
Proof.
  intros Hitems. revert st s bs index. induction Hitems as [|cp items [Hcp Hne] _ IH]; intros st s bs index Hset Hout;
    cbn [iso_2022_jp_process].
  - destruct st; cbn [iso_2022_jp_state_is negb]; intros [= Hbs] Hr.
    1: { destruct bs; [|done]. exists s, index. split; [constructor|done]. }
    all: symmetry in Hbs; apply (on_bytes_inj bs (escape_bytes ASCII)) in Hbs; subst bs; by eapply (escape_decodes _ ASCII).
  - destruct (iso_2022_jp_item 8 cp st) as [[st' events]|] eqn:Hitem; [|done]. cbn [res_bind].
    destruct (iso_2022_jp_process items st') as [more|] eqn:Hmore; [|done]. cbn [res_bind].
    intros [= (bs1 & bs2 & -> & -> & ->)%on_byte_app] Hr. rewrite <- app_assoc in Hr.
    apply iso_2022_jp_item_bytes in Hitem as (chars & Hc & Hesc); [|done..].
    assert (exists s1 i1, runs (iso_2022_jp_step input) s index [] s1 i1 /\ in_set st' s1
      /\ remaining input i1 (chars ++ bs2 ++ rest)) as (s1 & i1 & Hr1 & Hs1 & Hrem1).
    { destruct Hesc as [[-> ->]| ->]; [exists s, index; split; [constructor|done]|].
      rewrite <- app_assoc in Hr. by eapply escape_decodes. }
    destruct (char_decodes _ _ cp _ _ _ ltac:(lia) Hs1 Hc Hrem1) as (s2 & i2 & Hr2 & Hs2 & Ho2 & Hrem2).
    destruct (IH _ _ _ _ Hs2 Ho2 Hmore Hrem2) as (s3 & i3 & Hr3 & Hs3 & Hrem3).
    exists s3, i3. split; [|done]. rewrite fmap_cons.
    change (iso_2022_jp_canonical cp :: ?l) with ([] ++ [iso_2022_jp_canonical cp] ++ l).
    eapply runs_trans; [exact Hr1|]. by eapply runs_trans.
Qed.

Lemma process_items_runs {S} (step : bytes -> S -> Z -> res (outcome S)) initial item canonical items bs index rest :
  Forall (item_decodes step initial item canonical) items ->
  process_items item items = Ret (on_byte <$> bs) -> remaining input index (bs ++ rest) ->
  exists index', runs (step input) initial index (canonical <$> items) initial index' /\ remaining input index' rest.
Proof.
  intros Hitems. revert bs index. induction Hitems as [|cp items Hcp _ IH]; intros bs index; cbn [process_items].
  - intros [= Hbs] Hr. destruct bs; [|done]. exists index. split; [constructor|done].
  - destruct (item cp) as [events|] eqn:Hitem; [|done]. cbn [res_bind].
    destruct (process_items item items) as [more|] eqn:Hmore; [|done]. cbn [res_bind].
    intros [= (bs1 & bs2 & -> & -> & ->)%on_byte_app] Hr. rewrite <- app_assoc in Hr.
    destruct (Hcp _ _ _ Hitem Hr) as (i1 & Hr1 & Hrem1). destruct (IH _ _ eq_refl Hrem1) as (i2 & Hr2 & Hrem2).
    exists i2. split; [|done]. rewrite fmap_cons.
    change (canonical cp :: ?l) with ([canonical cp] ++ l). by eapply runs_trans.
Qed.

End items.

(** ** Whole texts *)

Definition decoder_of (encoder : Encoder) : Decoder :=
  match encoder with
  | UTF8Encoder => UTF8Decoder
  | EUCJPEncoder => EUCJPDecoder
  | ISO2022JPEncoder => ISO2022JPDecoder
  | ShiftJISEncoder => ShiftJISDecoder
  | EUCKREncoder => EUCKRDecoder
  | Big5Encoder => Big5Decoder
  | GB18030Encoder _ => GB18030Decoder
  | SingleByteEncoder index => SingleByteDecoder index
  end.

(** The text as the encoder writes it, after its substitutions. *)
Definition canonical `{LookupTables} (encoder : Encoder) (cp : Z) : Z :=
  match encoder with
  | EUCJPEncoder | ShiftJISEncoder => japanese_canonical cp
  | ISO2022JPEncoder => iso_2022_jp_canonical cp
  | _ => cp
  end.

(** U+FFFD marks the holes of the tables, and a four-byte gb18030 sequence is
    only read back when its code point lies in one of the ranges. *)
Definition decodable `{LookupTables} (encoder : Encoder) (cp : Z) : Prop :=
  match encoder with
  | UTF8Encoder => True
  | GB18030Encoder gbk => cp <> 0xFFFD /\ gb18030_decodable gbk cp
  | _ => cp <> 0xFFFD
  end.

Section texts.
Context `{DecoderTablesLaws} `{!LookupTablesLaws} `{!RoundtripTablesLaws} `{Simdutf} `{SimdutfUtf16}.

Lemma single_byte_items index items (bs : bytes) :
  Forall (fun cp => 0 <= cp <= 0x10FFFF) items ->
  process_items (single_byte_item (single_byte_index index)) items = Ret (on_byte <$> bs) ->
  each_byte (single_byte_code_point (single_byte_index index)) bs = Ret items.
Proof.
  intros Hitems. revert bs. induction Hitems as [|cp items Hcp _ IH]; intros bs; cbn [process_items].
  - intros [= Hbs]. by destruct bs.
  - destruct (single_byte_item _ cp) as [events|] eqn:Hitem; [|done]. cbn [res_bind].
    destruct (process_items _ items) as [more|] eqn:Hmore; [|done]. cbn [res_bind].
    intros [= (bs1 & bs2 & -> & -> & ->)%on_byte_app]. specialize (IH _ eq_refl).
    assert (exists b, bs1 = [b] /\ single_byte_code_point (single_byte_index index) b = Ret cp) as (b & -> & Hb).
    { unfold single_byte_item in Hitem. unfold single_byte_code_point.
      destruct (Z.ltb_spec cp 0x80).
      - rewrite u8_id in Hitem by lia. apply events_one in Hitem as ->. exists cp.
        split; [done|]. by rewrite (proj2 (Z.ltb_lt _ _)) by lia.
      - destruct (code_point_index _ cp) as [p|] eqn:Hp; [|by apply events_error in Hitem].
        apply code_point_index_spec in Hp as [Hrange Hl]. pose proof (single_byte_length index) as Hlen.
        rewrite u8_id in Hitem by lia. apply events_one in Hitem as ->. exists (p + 0x80).
        split; [done|]. rewrite (proj2 (Z.ltb_ge _ _)) by lia. unfold at_index.
        replace (p + 0x80 - 0x80) with p by lia. by rewrite Hl. }
    cbn [app each_byte]. rewrite Hb. cbn [res_bind]. by rewrite IH.
Qed.

(** A loop whose iterations are known and that returns. *)
Lemma loop_decodes {S} (step : S -> Z -> res (outcome S)) fuel initial cps state index (P : list Z -> Prop) :
  (exists result, decode_loop step fuel initial 0 = Ret result /\ P result) ->
  runs step initial 0 cps state index -> step state index = Ret Finished ->
  decode_loop step fuel initial 0 = Ret cps.
Proof.
  intros (result & Hloop & _) Hr Hf. rewrite Hloop. f_equal. by eapply decode_loop_runs.
Qed.

Lemma all_bytes_of_events events (bs : bytes) :
  Forall event_ok events -> events = on_byte <$> bs -> all_bytes bs.
Proof.
  intros He ->. rewrite Forall_fmap in He. eapply Forall_impl; [exact He|]. intros b Hb. cbn in Hb.
  unfold is_byte. lia.
Qed.

(** The encoders that work one code point at a time. *)
Lemma stateless_decodes {S} (step : bytes -> S -> Z -> res (outcome S)) initial item canonical items output fuel P :
  Z.of_nat (length output) < 2 ^ 63 ->
  (forall input, Z.of_nat (length input) < 2 ^ 63 -> Forall (item_decodes input step initial item canonical) items) ->
  (exists result, decode_loop (step output) fuel initial 0 = Ret result /\ P result) ->
  (forall index, at_end output index = true -> step output initial index = Ret Finished) ->
  process_items item items = Ret (on_byte <$> output) ->
  decode_loop (step output) fuel initial 0 = Ret (canonical <$> items).
Proof.
  intros Hfits Hitems Hloop Hend Hp.
  destruct (process_items_runs output step initial item canonical items output 0 []) as (i & Hr & Hrem);
    [by apply Hitems|done|rewrite app_nil_r; apply remaining_start|].
  eapply loop_decodes; [exact Hloop|exact Hr|]. apply Hend. by apply remaining_nil.
Qed.

Lemma items_decode encoder input output :
  all_bytes input -> Z.of_nat (length output) < 2 ^ 63 ->
  process encoder input = Ret (on_byte <$> output) ->
  Forall (decodable encoder) (code_points input) ->
  decoder_process (decoder_of encoder) output = Ret (canonical encoder <$> code_points input).
Proof.
  intros Hin Hfits Hp Hdec.
  assert (Hout : all_bytes output).
  { destruct (process_ok encoder input Hin) as (events & Hev & Hok). rewrite Hp in Hev.
    injection Hev as <-. by eapply all_bytes_of_events. }
  pose proof (code_points_range input Hin) as Hrange.
  pose proof (proj2 (Forall_and _ _) (conj Hrange Hdec)) as Hboth.
  pose proof (fun Hy => decoder_process_scalars (decoder_of encoder) output Hy Hout Hfits) as Hret.
  destruct encoder; cbn [decoder_of decoder_process process canonical] in *.
  - injection Hp as Hp%on_bytes_inj. subst. by rewrite list_fmap_id.
  - eapply (stateless_decodes euc_jp_step euc_jp_initial euc_jp_item); [done| |by apply Hret| |exact Hp].
    + intros text Ht. eapply Forall_impl; [exact Hboth|]. intros cp [Hr Hne].
      apply euc_jp_item_decodes; [done|lia|done].
    + intros index He. unfold euc_jp_step. by rewrite He.
  - destruct (iso_2022_jp_runs output Hfits (code_points input) ASCII iso_2022_jp_initial output 0 [])
      as (s & i & Hr & [Hd _] & Hrem);
      [done|by split|done|exact Hp|rewrite app_nil_r; apply remaining_start|].
    eapply loop_decodes; [by apply Hret|exact Hr|]. unfold iso_2022_jp_step, iso_2022_jp_escape_start, iso_2022_jp_escape.
    apply remaining_nil in Hrem. unfold at_end in Hrem. rewrite (proj2 (Z.ltb_ge _ _)) by lia. by rewrite Hd.
  - eapply (stateless_decodes shift_jis_step 0 shift_jis_item); [done| |by apply Hret| |exact Hp].
    + intros text Ht. eapply Forall_impl; [exact Hboth|]. intros cp [Hr Hne].
      apply shift_jis_item_decodes; [done|lia|done].
    + intros index He. unfold shift_jis_step. by rewrite He.
  - eapply (stateless_decodes euc_kr_step 0 euc_kr_item id); [done| |by apply Hret| |exact Hp].
    + intros text Ht. eapply Forall_impl; [exact Hboth|]. intros cp [Hr Hne].
      apply euc_kr_item_decodes; [done|lia|done].
    + intros index He. unfold euc_kr_step. by rewrite He.
  - eapply (stateless_decodes big5_step 0 big5_item id); [done| |by apply Hret| |exact Hp].
    + intros text Ht. eapply Forall_impl; [exact Hboth|]. intros cp [Hr Hne].
      apply big5_item_decodes; [done|lia|done].
    + intros index He. unfold big5_step. by rewrite He.
  - eapply (stateless_decodes gb18030_step gb18030_initial (gb18030_item gbk) id);
      [done| |by apply Hret| |exact Hp].
    + intros text Ht. eapply Forall_impl; [exact Hboth|]. intros cp (Hr & Hne & Hg).
      by apply gb18030_item_decodes.
    + intros index He. unfold gb18030_step. by rewrite He.
  - rewrite list_fmap_id. by apply single_byte_items.
Qed.

End texts.

(** ** Properties *)

(** C35: decoding what an encoder wrote without reporting an error gives back
    the text it was given, after the substitutions the encoder makes (yen sign,
    overline, minus sign, half-width katakana), for UTF-8 and for every legacy
    encoding.  Left out are U+FFFD, which the tables use for unassigned
    positions, and code points that gb18030 has in no range. *)
Theorem decode_encode `{DecoderTablesLaws} `{!LookupTablesLaws} `{!RoundtripTablesLaws}
    `{Simdutf} `{SimdutfUtf16} (encoder : Encoder) (input output : bytes)
    (Hin : all_bytes input) (Hfits : Z.of_nat (length output) < 2 ^ 63)
    (Hp : process encoder input = Ret (on_byte <$> output))
    (Hd : Forall (decodable encoder) (code_points input)) :
  decoder_process (decoder_of encoder) output = Ret (canonical encoder <$> code_points input).
Proof. by apply items_decode. Qed.

Lemma decode_encode_witness :
  decoder_process ISO2022JPDecoder [0x41; 0x1B; 0x24; 0x42; 0x21; 0x22; 0x1B; 0x28; 0x42]
  = Ret (canonical ISO2022JPEncoder <$> code_points (utf8_encode [0x41; 0x3001])).
Proof. apply (decode_encode ISO2022JPEncoder); [repeat constructor|simpl; lia|reflexivity|]. by repeat constructor. Defined.
