(* ===== verification/Http.v ===== *)
(** * HTTP: [LibHTTP/HTTP.{h,cpp}], [Method.cpp], [Header.cpp] and
      [HeaderList.cpp]

    A header list is the list of its headers.  Names and values are byte
    strings; the strings that come out of the parsers are [String]s, whose
    [MUST]s check UTF-8.  [is_header_name] and [is_method] use the regular
    expression engine and are not modelled, nor are the IPC encodings. *)

From S2P Require Import Prelude HashTable InsertionSort QuickSort CharacterTypes Utf8 MemMem Strings Tokens Wtf8 CodeUnits Lexer TextCodec Decoders.
Local Open Scope Z_scope.

(** ** [HTTP.h] *)

Definition HTTP_TAB_OR_SPACE : bytes := [9; 32].
Definition HTTP_WHITESPACE : bytes := [10; 13; 9; 32].
Definition is_http_newline (code_point : Z) : bool := (code_point =? 0x0A) || (code_point =? 0x0D).
Definition is_http_tab_or_space (code_point : Z) : bool := (code_point =? 0x09) || (code_point =? 0x20).

Inductive HttpQuotedStringExtractValue := ExtractValue_No | ExtractValue_Yes.

(** ** [HTTP.cpp] *)

(** The loop of [collect_an_http_quoted_string] *)
Fixpoint collect_loop (fuel : nat) (value : bytes) (lexer : GenericLexer) : res (bytes * GenericLexer) :=
  match fuel with
  | O => Crash
  | S fuel =>
      let* (value_part, lexer) := consume_until_pred lexer (fun c => (c =? 34) || (c =? 92)) in
      let value := value ++ value_part in
      if is_eof lexer then Ret (value, lexer)
      else
        let* (quote_or_backslash, lexer) := consume lexer in
        if quote_or_backslash =? 92 then
          if is_eof lexer then Ret (value ++ [92], lexer)
          else
            let* (c, lexer) := consume lexer in
            collect_loop fuel (value ++ [c]) lexer
        else verify (quote_or_backslash =? 34) (Ret (value, lexer))
  end.

Definition collect_an_http_quoted_string `{Simdutf} (lexer : GenericLexer) (extract_value : HttpQuotedStringExtractValue)
  : res (bytes * GenericLexer) :=
  let position_start := tell lexer in
  verify (peek lexer =? 34)
    (let lexer := ignore lexer 1 in
     let* (value, lexer) := collect_loop (S (tell_remaining lexer)) [] lexer in
     match extract_value with
     | ExtractValue_Yes => let* value := must_from_utf8 value in Ret (value, lexer)
     | ExtractValue_No =>
         let* view := substring_view (m_input lexer) position_start (tell lexer - position_start) in
         let* string := must_from_utf8 view in
         Ret (string, lexer)
     end).

(** ** [Method.cpp] *)

Definition is_cors_safelisted_method (method : bytes) : bool := existsb (sv_eqb method) [sv "GET"; sv "HEAD"; sv "POST"].

Definition is_forbidden_method (method : bytes) : bool :=
  is_one_of_ignoring_ascii_case method [sv "CONNECT"; sv "TRACE"; sv "TRACK"].

Definition NORMALIZED_METHODS : list bytes := [sv "DELETE"; sv "GET"; sv "HEAD"; sv "OPTIONS"; sv "POST"; sv "PUT"].

Definition normalize_method (method : bytes) : bytes :=
  match List.find (fun normalized_method => equals_ignoring_ascii_case normalized_method method) NORMALIZED_METHODS with
  | Some normalized_method => normalized_method
  | None => method
  end.

(** ** [Header.cpp] *)

Record Header := { header_name : bytes; header_value : bytes }.

(** [Header::isomorphic_encode] *)
Definition header_isomorphic_encode (name value : bytes) : Header :=
  {| header_name := isomorphic_encode name; header_value := isomorphic_encode value |}.

Definition extract_header_values (header : Header) : res (option (list bytes)) :=
  if is_one_of_ignoring_ascii_case (header_name header)
       [sv "Access-Control-Request-Headers"; sv "Access-Control-Expose-Headers";
        sv "Access-Control-Allow-Headers"; sv "Access-Control-Allow-Methods"]
     && negb (sv_is_empty (header_value header))
  then
    let* values := split_view (header_value header) [ch ","] false in
    Ret (Some ((fun value => trim value [32; 9] TrimBoth) <$> values))
  else Ret (Some [header_value header]).

Definition is_header_value (header_value : bytes) : res bool :=
  if sv_is_empty header_value then Ret true
  else
    let* first_byte := at_index header_value 0 in
    let* last_byte := at_index header_value (length header_value - 1) in
    if is_http_tab_or_space first_byte || is_http_tab_or_space last_byte then Ret false
    else Ret (negb (existsb (fun byte => (byte =? 0) || is_http_newline byte) header_value)).

Definition normalize_header_value (potential_value : bytes) : bytes :=
  if sv_is_empty potential_value then [] else trim potential_value HTTP_WHITESPACE TrimBoth.

(** The loop of [get_decode_and_split_header_value] *)
Fixpoint get_decode_and_split_loop `{Simdutf} (fuel : nat) (temporary_value : bytes) (values : list bytes) (lexer : GenericLexer)
  : res (list bytes) :=
  match fuel with
  | O => Crash
  | S fuel =>
      let* (part, lexer) := consume_until_pred lexer (is_any_of [34; ch ","]) in
      let temporary_value := temporary_value ++ part in
      let finish (temporary_value : bytes) (lexer : GenericLexer) : res (list bytes) :=
        let* value := must_from_utf8 (trim temporary_value HTTP_TAB_OR_SPACE TrimBoth) in
        let values := values ++ [value] in
        if is_eof lexer then Ret values
        else verify (peek lexer =? ch ",") (get_decode_and_split_loop fuel [] values (ignore lexer 1)) in
      if negb (is_eof lexer) && (peek lexer =? 34) then
        let* (quoted, lexer) := collect_an_http_quoted_string lexer ExtractValue_No in
        let temporary_value := temporary_value ++ quoted in
        if negb (is_eof lexer) then get_decode_and_split_loop fuel temporary_value values lexer
        else finish temporary_value lexer
      else finish temporary_value lexer
  end.

Definition get_decode_and_split_header_value `{Simdutf} (value : bytes) : res (list bytes) :=
  let input := isomorphic_decode value in
  get_decode_and_split_loop (S (length input)) [] [] (lexer_for input).

Definition is_forbidden_request_header `{Simdutf} (header : Header) : res bool :=
  let name := header_name header in
  if is_one_of_ignoring_ascii_case name
       [sv "Accept-Charset"; sv "Accept-Encoding"; sv "Access-Control-Request-Headers"; sv "Access-Control-Request-Method";
        sv "Connection"; sv "Content-Length"; sv "Cookie"; sv "Cookie2"; sv "Date"; sv "DNT"; sv "Expect"; sv "Host";
        sv "Keep-Alive"; sv "Origin"; sv "Referer"; sv "Set-Cookie"; sv "TE"; sv "Trailer"; sv "Transfer-Encoding";
        sv "Upgrade"; sv "Via"]
  then Ret true
  else if starts_with name (sv "proxy-") CaseInsensitive || starts_with name (sv "sec-") CaseInsensitive then Ret true
  else if is_one_of_ignoring_ascii_case name [sv "X-HTTP-Method"; sv "X-HTTP-Method-Override"; sv "X-Method-Override"] then
    let* parsed_values := get_decode_and_split_header_value (header_value header) in
    if existsb is_forbidden_method parsed_values then Ret true else Ret false
  else Ret false.

Definition is_forbidden_response_header_name (header_name : bytes) : bool :=
  is_one_of_ignoring_ascii_case header_name [sv "Set-Cookie"; sv "Set-Cookie2"].

(** ** The case-insensitive table of names: [AK/StringHash.h], [AK/ByteString.h] *)

(** [static_cast<u32>(ch)] of a (signed) [char], and the lambda [to_lowercase] *)
Definition hash_character (c : Z) : Z :=
  let c := if (ch "A" <=? c) && (c <=? ch "Z") then c + 0x20 else c in
  if c <? 128 then c else u32 (c - 256).

Definition case_insensitive_string_hash (characters : bytes) : Z :=
  let hash := fold_left (fun hash c =>
    let hash := u32 (hash + hash_character c) in
    let hash := u32 (hash + u32 (Z.shiftl hash 10)) in
    Z.lxor hash (Z.shiftr hash 6)) characters 0 in
  let hash := u32 (hash + u32 (Z.shiftl hash 3)) in
  let hash := Z.lxor hash (Z.shiftr hash 11) in
  u32 (hash + u32 (Z.shiftl hash 15)).

(** [CaseInsensitiveASCIIStringTraits] *)
Definition CaseInsensitiveASCIIStringTraits : HashTraits bytes := {|
  traits_hash := case_insensitive_string_hash;
  traits_equals := equals_ignoring_ascii_case;
  may_have_slow_equality_check := true
|}.
#[export] Existing Instance CaseInsensitiveASCIIStringTraits.

(** [ByteString::to_lowercase] *)
Definition to_lowercase (s : bytes) : bytes :=
  if negb (existsb is_ascii_upper_alpha s) then s else to_ascii_lowercase <$> s.

(** The loop over names that keeps the first of each, [keep] applied *)
Fixpoint unseen_names `{Allocator} (keep : bytes -> bytes) (seen : HashTable bytes) (names : list bytes) : res (list bytes) :=
  match names with
  | [] => Ret []
  | name :: names =>
      let* known := contains_value seen name in
      if known : bool then unseen_names keep seen names
      else
        let* (_, seen) := table_set seen name ExistingEntry_Replace in
        let* rest := unseen_names keep seen names in
        Ret (keep name :: rest)
  end.

Definition convert_header_names_to_a_sorted_lowercase_set `{Allocator} (header_names : list bytes) : res (list bytes) :=
  let* header_names_set := unseen_names to_lowercase empty_table header_names in
  quick_sort (fun a b => Ret (sv_compare a b <? 0)) header_names_set.

(** ** Ranges *)

Definition build_content_range (range_start range_end full_length : Z) : res bytes :=
  let* range_start := format_decimal range_start in
  let* range_end := format_decimal range_end in
  let* full_length := format_decimal full_length in
  Ret (sv "bytes " ++ range_start ++ [ch "-"] ++ range_end ++ [ch "/"] ++ full_length).

Record RangeHeaderValue := { range_from : option Z; range_to : option Z }.

Definition parse_single_range_header_value `{FastFloat} (value : bytes) (allow_whitespace : bool) : res (option RangeHeaderValue) :=
  let data := isomorphic_decode value in
  if negb (starts_with data (sv "bytes") CaseSensitive) then Ret None
  else
    let skip_whitespace (lexer : GenericLexer) : res GenericLexer :=
      if allow_whitespace then let* (_, lexer) := consume_while lexer is_http_tab_or_space in Ret lexer else Ret lexer in
    let lexer := ignore (lexer_for data) 5 in
    let* lexer := skip_whitespace lexer in
    let (equals, lexer) := consume_specific lexer (ch "=") in
    if negb equals then Ret None
    else
      let* lexer := skip_whitespace lexer in
      let* (range_start, lexer) := consume_while lexer is_ascii_digit in
      let range_start_value := to_number (2 ^ 64 - 1) range_start in
      let* lexer := skip_whitespace lexer in
      let (dash, lexer) := consume_specific lexer (ch "-") in
      if negb dash then Ret None
      else
        let* lexer := skip_whitespace lexer in
        let* (range_end, lexer) := consume_while lexer is_ascii_digit in
        let range_end_value := to_number (2 ^ 64 - 1) range_end in
        if negb (is_eof lexer) then Ret None
        else
          match range_start_value, range_end_value with
          | None, None => Ret None
          | Some start, Some end_ =>
              if end_ <? start then Ret None else Ret (Some {| range_from := Some start; range_to := Some end_ |})
          | start, end_ => Ret (Some {| range_from := start; range_to := end_ |})
          end.

(** ** [HeaderList.cpp] *)

Definition HeaderList : Type := list Header.

Definition names_match (name : bytes) (header : Header) : bool := equals_ignoring_ascii_case (header_name header) name.

Definition headers_contains (headers : HeaderList) (name : bytes) : bool := existsb (names_match name) headers.

(** The loop of [get] *)
Fixpoint get_loop (headers : HeaderList) (name builder : bytes) (first : bool) : bytes :=
  match headers with
  | [] => builder
  | header :: headers =>
      if negb (names_match name header) then get_loop headers name builder first
      else
        let builder := if negb first then builder ++ sv ", " else builder in
        get_loop headers name (builder ++ header_value header) false
  end.

Definition headers_get (headers : HeaderList) (name : bytes) : option bytes :=
  if negb (headers_contains headers name) then None else Some (get_loop headers name [] true).

Definition headers_get_decode_and_split `{Simdutf} (headers : HeaderList) (name : bytes) : res (option (list bytes)) :=
  match headers_get headers name with
  | None => Ret None
  | Some value => let* values := get_decode_and_split_header_value value in Ret (Some values)
  end.

(** [append] *)
Definition headers_append (headers : HeaderList) (header : Header) : HeaderList :=
  let matching_header := List.find (names_match (header_name header)) headers in
  let header :=
    match matching_header with
    | Some matching_header => {| header_name := header_name matching_header; header_value := header_value header |}
    | None => header
    end in
  headers ++ [header].

(** [delete_] *)
Definition headers_delete (headers : HeaderList) (name : bytes) : HeaderList :=
  List.filter (fun header => negb (names_match name header)) headers.

(** [set]: the first match takes the value, the matches behind it go. *)
Fixpoint set_first (headers : HeaderList) (header : Header) : option HeaderList :=
  match headers with
  | [] => None
  | existing_header :: headers =>
      if names_match (header_name header) existing_header then
        let it := {| header_name := header_name existing_header; header_value := header_value header |} in
        Some (it :: List.filter (fun existing_header => negb (names_match (header_name it) existing_header)) headers)
      else
        match set_first headers header with
        | Some headers => Some (existing_header :: headers)
        | None => None
        end
  end.

Definition headers_set (headers : HeaderList) (header : Header) : HeaderList :=
  match set_first headers header with
  | Some headers => headers
  | None => headers_append headers header
  end.

(** [combine] *)
Fixpoint combine_first (headers : HeaderList) (header : Header) : option HeaderList :=
  match headers with
  | [] => None
  | existing_header :: headers =>
      if names_match (header_name header) existing_header then
        Some ({| header_name := header_name existing_header;
                 header_value := header_value existing_header ++ sv ", " ++ header_value header |} :: headers)
      else
        match combine_first headers header with
        | Some headers => Some (existing_header :: headers)
        | None => None
        end
  end.

Definition headers_combine (headers : HeaderList) (header : Header) : HeaderList :=
  match combine_first headers header with
  | Some headers => headers
  | None => headers_append headers header
  end.

(** The loop of [sort_and_combine] over the names *)
Fixpoint combine_names (m_headers : HeaderList) (names : list bytes) : res (list Header) :=
  match names with
  | [] => Ret []
  | name :: names =>
      let* headers :=
        (if sv_eqb name (sv "set-cookie") then
           Ret ((fun header => {| header_name := name; header_value := header_value header |})
                <$> List.filter (names_match name) m_headers)
         else
           let* value := unwrap (headers_get m_headers name) in
           Ret [{| header_name := name; header_value := value |}]) in
      let* rest := combine_names m_headers names in
      Ret (headers ++ rest)
  end.

Definition sort_and_combine `{Allocator} (m_headers : HeaderList) : res (list Header) :=
  let* names := convert_header_names_to_a_sorted_lowercase_set (header_name <$> m_headers) in
  combine_names m_headers names.

(** [extract_header_list_values]: nothing, the values, or a failure *)
Inductive ExtractedValues := Extract_Empty | Extract_Values (values : list bytes) | Extract_Failure.

Fixpoint extract_loop (headers : HeaderList) (name : bytes) (values : list bytes) : res ExtractedValues :=
  match headers with
  | [] => Ret (Extract_Values values)
  | header :: headers =>
      if negb (names_match name header) then extract_loop headers name values
      else
        let* extract := extract_header_values header in
        match extract with
        | None => Ret Extract_Failure
        | Some extract => extract_loop headers name (values ++ extract)
        end
  end.

Definition extract_header_list_values (headers : HeaderList) (name : bytes) : res ExtractedValues :=
  if negb (headers_contains headers name) then Ret Extract_Empty else extract_loop headers name [].

(** [extract_length] *)
Inductive ExtractedLength := Length_Empty | Length_Value (length : Z) | Length_Failure.

Fixpoint candidate_loop (candidate_value : option bytes) (values : list bytes) : option (option bytes) :=
  match values with
  | [] => Some candidate_value
  | value :: values =>
      match candidate_value with
      | None => candidate_loop (Some value) values
      | Some candidate => if negb (sv_eqb candidate value) then None else candidate_loop candidate_value values
      end
  end.

Definition extract_length `{Simdutf} `{FastFloat} (headers : HeaderList) : res ExtractedLength :=
  let* values := headers_get_decode_and_split headers (sv "Content-Length") in
  match values with
  | None => Ret Length_Empty
  | Some values =>
      match candidate_loop None values with
      | None => Ret Length_Failure
      | Some candidate_value =>
          let* candidate_value := unwrap candidate_value in
          match parse_number (2 ^ 64 - 1) candidate_value 10 with
          | None => Ret Length_Empty
          | Some result => Ret (Length_Value result)
          end
      end
  end.

Definition unique_names `{Allocator} (headers : HeaderList) : res (list bytes) :=
  unseen_names (fun name => name) empty_table (header_name <$> headers).
