(* ===== verification/HttpFacts.v ===== *)
(** * Facts about quoted strings and the splitting of header values

    The scanning functions of [LibHTTP] read their input with a lexer; here they
    are shown to compute one-pass functions on the input: [unquote] and
    [quoted_split] for quoted strings, and [split_values], a state machine over
    the characters, for the values of a header. *)

From S2P Require Import Prelude CharacterTypes Utf8 MemMem Strings Tokens Wtf8 CodeUnits Lexer TextCodec Decoders DecoderSafety Http.
Local Open Scope Z_scope.

(** ** Quoted strings *)

(** The value of the text behind an opening quote *)
Fixpoint unquote (escaped : bool) (s : bytes) : bytes :=
  match s with
  | [] => if escaped then [92] else []
  | c :: s =>
      if escaped then c :: unquote false s
      else if c =? 34 then []
      else if c =? 92 then unquote true s
      else c :: unquote false s
  end.

(** The text up to and with the closing quote, and what follows it *)
Fixpoint quoted_split (escaped : bool) (s : bytes) : bytes * bytes :=
  match s with
  | [] => ([], [])
  | c :: s =>
      let next (p : bytes * bytes) := (c :: p.1, p.2) in
      if escaped then next (quoted_split false s)
      else if c =? 34 then ([c], s)
      else next (quoted_split (c =? 92) s)
  end.

Lemma quoted_split_app escaped s : (quoted_split escaped s).1 ++ (quoted_split escaped s).2 = s.
Proof.
  revert escaped. induction s as [|c s IH]; intros escaped; [done|]. cbn [quoted_split].
  destruct escaped; [cbn; by rewrite IH|]. destruct (c =? 34); [done|]. cbn. by rewrite IH.
Qed.

Definition plain (c : Z) : bool := negb ((c =? 34) || (c =? 92)).

Lemma unquote_plain p s : Forall (fun c => plain c = true) p ->
  unquote false (p ++ s) = p ++ unquote false s
  /\ quoted_split false (p ++ s) = (p ++ (quoted_split false s).1, (quoted_split false s).2).
Proof.
  induction 1 as [|c p Hc Hp [IH1 IH2]]; cbn [app]; [by destruct (quoted_split false s)|].
  unfold plain in Hc. apply negb_true_iff, orb_false_iff in Hc as [H34 H92]. cbn [unquote quoted_split].
  by rewrite H34, H92, IH1, IH2.
Qed.

Lemma collect_loop_spec fuel : forall value a b, (length b < fuel)%nat ->
  collect_loop fuel value (at_pos a b)
  = Ret (value ++ unquote false b, at_pos (a ++ (quoted_split false b).1) (quoted_split false b).2).
Proof.
  induction fuel as [|fuel IH]; intros value a b Hf; [lia|]. cbn [collect_loop]. unfold consume_until_pred. rewrite consume_while_pos.
  fold plain. change (fun c => negb ((c =? 34) || (c =? 92))) with plain. cbn [res_bind].
  pose proof (take_while_forall plain b) as Hp. pose proof (take_drop_while plain b) as Hb. pose proof (drop_while_head plain b) as Hh.
  set (p := take_while plain b) in *. set (b' := drop_while plain b) in *. clearbody p b'. subst b.
  destruct (unquote_plain p b' Hp) as [-> ->]. rewrite is_eof_pos. rewrite length_app in Hf. destruct b' as [|c b]; cbn [sv_is_empty fst snd].
  { by rewrite !app_nil_r. }
  rewrite consume_pos. cbn [res_bind unquote quoted_split]. unfold plain in Hh. cbn [length] in Hf.
  destruct (Z.eqb_spec c 92) as [->|H92]; [cbn [Z.eqb Pos.eqb]|].
  - rewrite is_eof_pos. destruct b as [|d b]; cbn [sv_is_empty].
    { cbn. by rewrite <- !app_assoc. }
    rewrite consume_pos. cbn [res_bind]. cbn [length] in Hf. rewrite IH by lia. cbn [unquote quoted_split fst snd].
    by rewrite <- !app_assoc.
  - assert (c = 34) as -> by lia. cbn. by rewrite app_nil_r, <- app_assoc.
Qed.

(** The pieces are valid strings when the text is. *)
Lemma quoted_split_wtf8 s escaped : forall front,
  wtf8 (front ++ s) -> wtf8 (quoted_split escaped s).2 /\ wtf8 (front ++ (quoted_split escaped s).1).
Proof.
  revert escaped. induction s as [|c s IH]; intros escaped front Hs; cbn [quoted_split].
  { split; [apply wtf8_nil|done]. }
  assert (Hnext : forall e, wtf8 (quoted_split e s).2 /\ wtf8 (front ++ c :: (quoted_split e s).1)).
  { intros e. destruct (IH e (front ++ [c])) as [H1 H2]; [by rewrite <- app_assoc|]. by rewrite <- app_assoc in H2. }
  destruct escaped; [apply Hnext|]. destruct (Z.eqb_spec c 34) as [->|]; [|apply Hnext]. cbn [fst snd].
  apply wtf8_cut in Hs as [Hf Hs]; [|lia]. split; [done|]. apply wtf8_app; [done|by apply wtf8_ascii; repeat constructor].
Qed.

Lemma unquote_wtf8 s : forall front, wtf8 (front ++ s) -> wtf8 (front ++ unquote false s) /\ (wtf8 front -> wtf8 (front ++ unquote true s)).
Proof.
  induction s as [|c s IH]; intros front Hs; cbn [unquote].
  { split; [done|]. intros Hf. apply wtf8_app; [done|by apply wtf8_ascii; repeat constructor]. }
  assert (Hnext : wtf8 (front ++ c :: unquote false s)).
  { destruct (IH (front ++ [c])) as [H1 _]; [by rewrite <- app_assoc|]. by rewrite <- app_assoc in H1. }
  split; [|done]. destruct (Z.eqb_spec c 34) as [->|].
  { rewrite app_nil_r. by apply wtf8_cut in Hs as [Hf _]. }
  destruct (Z.eqb_spec c 92) as [->|]; [|done]. apply wtf8_cut in Hs as [Hf Hs]; [|lia].
  apply (IH front); [by apply wtf8_app|done].
Qed.

Section quoted.
Context `{SimdutfLaws}.

Lemma collect_yes_spec a b : wtf8 b ->
  collect_an_http_quoted_string (at_pos a (34 :: b)) ExtractValue_Yes
  = Ret (unquote false b, at_pos (a ++ 34 :: (quoted_split false b).1) (quoted_split false b).2).
Proof.
  intros Hb. unfold collect_an_http_quoted_string. rewrite peek_pos, Z.eqb_refl. cbn [verify].
  rewrite ignore_one_pos, tell_remaining_pos, collect_loop_spec by lia. cbn [res_bind app].
  rewrite must_from_utf8_wtf8 by (by apply (unquote_wtf8 b [])). cbn [res_bind]. by rewrite <- app_assoc.
Qed.

Lemma collect_no_spec a b : wtf8 b ->
  collect_an_http_quoted_string (at_pos a (34 :: b)) ExtractValue_No
  = Ret (34 :: (quoted_split false b).1, at_pos (a ++ 34 :: (quoted_split false b).1) (quoted_split false b).2).
Proof.
  intros Hb. unfold collect_an_http_quoted_string. rewrite peek_pos, Z.eqb_refl. cbn [verify].
  rewrite ignore_one_pos, tell_remaining_pos, collect_loop_spec by lia. cbn [res_bind].
  set (x := (quoted_split false b).1) in *. set (y := (quoted_split false b).2) in *.
  replace ((a ++ [34]) ++ x) with (a ++ 34 :: x) by (by rewrite <- app_assoc).
  assert (Hview : substring_view (m_input (at_pos (a ++ 34 :: x) y)) (tell (at_pos a (34 :: b))) (tell (at_pos (a ++ 34 :: x) y) - tell (at_pos a (34 :: b)))
    = Ret (34 :: x)).
  { unfold tell, at_pos, substring_view. cbn [m_input m_index]. rewrite <- app_assoc, drop_app_length.
    replace (length (a ++ 34%Z :: x) - length a)%nat with (length (34%Z :: x)) by (rewrite length_app; lia).
    rewrite (proj2 (Nat.leb_le _ _)) by (rewrite !length_app; lia). cbn [verify]. f_equal. apply take_app_length. }
  rewrite Hview. cbn [res_bind]. rewrite must_from_utf8_wtf8; [done|].
  destruct (quoted_split_wtf8 b false [34]) as [_ H2]; [|exact H2]. apply (wtf8_app [34] b); [by apply wtf8_ascii; repeat constructor|done].
Qed.

(** ** Splitting a header value *)

Inductive split_state := Outside | Quoted | Escaped.

Definition trim_value (s : bytes) : bytes := trim s HTTP_TAB_OR_SPACE TrimBoth.

(** The values: separated by the commas outside of quoted strings, trimmed *)
Fixpoint split_values (state : split_state) (current s : bytes) : list bytes :=
  match s with
  | [] => [trim_value current]
  | c :: s =>
      match state with
      | Outside =>
          if c =? ch "," then trim_value current :: split_values Outside [] s
          else split_values (if c =? 34 then Quoted else Outside) (current ++ [c]) s
      | Quoted => split_values (if c =? 34 then Outside else if c =? 92 then Escaped else Quoted) (current ++ [c]) s
      | Escaped => split_values Quoted (current ++ [c]) s
      end
  end.

Lemma split_values_plain p s : forall current, Forall (fun c => is_any_of [34; ch ","] c = false) p ->
  split_values Outside current (p ++ s) = split_values Outside (current ++ p) s.
Proof.
  induction p as [|c p IH]; intros current Hp; [by rewrite app_nil_r|]. apply Forall_cons in Hp as [Hc Hp].
  unfold is_any_of, contains_char in Hc. cbn [existsb] in Hc. cbn [app split_values].
  destruct (Z.eqb_spec c 44); [lia|]. destruct (Z.eqb_spec c 34); [lia|]. rewrite IH by done. by rewrite <- app_assoc.
Qed.

Lemma split_values_quoted s : forall current (escaped : bool),
  split_values (if escaped then Escaped else Quoted) current s
  = split_values Outside (current ++ (quoted_split escaped s).1) (quoted_split escaped s).2.
Proof.
  induction s as [|c s IH]; intros current escaped; cbn [quoted_split].
  { destruct escaped; cbn [split_values fst snd]; by rewrite app_nil_r. }
  destruct escaped; cbn [split_values].
  - rewrite (IH _ false). cbn [fst snd]. by rewrite <- app_assoc.
  - destruct (c =? 34); [done|]. destruct (c =? 92).
    + rewrite (IH _ true). cbn [fst snd]. by rewrite <- app_assoc.
    + rewrite (IH _ false). cbn [fst snd]. by rewrite <- app_assoc.
Qed.

Lemma get_decode_and_split_loop_spec fuel : forall current values a b,
  (length b < fuel)%nat -> wtf8 current -> wtf8 b ->
  get_decode_and_split_loop fuel current values (at_pos a b) = Ret (values ++ split_values Outside current b).
Proof.
  induction fuel as [|fuel IH]; intros current values a b Hf Hcur Hb; [lia|]. cbn [get_decode_and_split_loop].
  unfold consume_until_pred. rewrite consume_while_pos. cbn [res_bind]. set (pred := fun c => negb _).
  pose proof (take_while_forall pred b) as Hp. pose proof (take_drop_while pred b) as Eb. pose proof (drop_while_head pred b) as Hh.
  set (p := take_while pred b) in *. set (b' := drop_while pred b) in *. clearbody p b'. subst b.
  assert (Hp' : Forall (fun c => is_any_of [34; 44] c = false) p).
  { eapply Forall_impl; [exact Hp|]. intros c Hc. by apply negb_true_iff. }
  rewrite split_values_plain by done. rewrite is_eof_pos, peek_pos. rewrite length_app in Hf.
  assert (Htrim : forall t, wtf8 t -> must_from_utf8 (trim t HTTP_TAB_OR_SPACE TrimBoth) = Ret (trim_value t)).
  { intros t Ht. apply must_from_utf8_wtf8, wtf8_trim; [by repeat constructor|done]. }
  destruct b' as [|c b]; cbn [sv_is_empty negb andb].
  { rewrite app_nil_r in Hb. rewrite Htrim by (by apply wtf8_app). cbn [res_bind]. done. }
  assert (Hc : 0 <= c < 128) by (unfold pred, is_any_of, contains_char in Hh; cbn [existsb] in Hh; lia).
  apply wtf8_cut in Hb as [Hwp Hwb]; [|done]. cbn [length] in Hf. cbn [split_values].
  destruct (Z.eqb_spec c 34) as [->|H34].
  - rewrite collect_no_spec by done. cbn [res_bind Z.eqb Pos.eqb]. rewrite (split_values_quoted b _ false).
    destruct (quoted_split_wtf8 b false []) as [Hq2 Hq1]; [done|]. cbn [app] in Hq1. pose proof (quoted_split_app false b) as Eq.
    set (x := (quoted_split false b).1) in *. set (y := (quoted_split false b).2) in *. clearbody x y. subst b.
    assert (Hnew : wtf8 ((current ++ p) ++ 34 :: x)).
    { apply wtf8_app; [by apply wtf8_app|]. apply (wtf8_app [34] x); [by apply wtf8_ascii; repeat constructor|done]. }
    rewrite is_eof_pos. replace ((current ++ p) ++ 34 :: x) with (((current ++ p) ++ [34]) ++ x) in * by (by rewrite <- !app_assoc).
    destruct y as [|d y]; cbn [sv_is_empty negb].
    + rewrite Htrim by done. cbn [res_bind]. done.
    + rewrite length_app in Hf. by rewrite IH by (done || lia).
  - assert (c = 44) as -> by (unfold pred, is_any_of, contains_char in Hh; cbn [existsb] in Hh; lia).
    rewrite Htrim by (by apply wtf8_app). cbn [res_bind Z.eqb Pos.eqb verify]. rewrite ignore_one_pos, IH by (apply wtf8_nil || done || lia).
    by rewrite <- app_assoc.
Qed.

Lemma isomorphic_decode_encoded value builder :
  all_bytes value -> fold_left append_code_point value builder = builder ++ utf8_encode value.
Proof.
  intros Hv. revert builder. induction Hv as [|b value Hb Hv IH]; intros builder; cbn [fold_left].
  - change (utf8_encode []) with (@nil Z). by rewrite app_nil_r.
  - unfold is_byte in Hb. rewrite IH, append_code_point_encoded, utf8_encode_cons by lia. by rewrite <- app_assoc.
Qed.

Lemma isomorphic_decode_wtf8 value : all_bytes value -> wtf8 (isomorphic_decode value).
Proof.
  intros Hv. unfold isomorphic_decode. rewrite isomorphic_decode_encoded by done. cbn [app]. exists value.
  split; [|done]. eapply Forall_impl; [exact Hv|]. unfold is_byte. intros b Hb. cbn in Hb. lia.
Qed.

Lemma get_decode_and_split_spec value :
  all_bytes value -> get_decode_and_split_header_value value = Ret (split_values Outside [] (isomorphic_decode value)).
Proof.
  intros Hv. unfold get_decode_and_split_header_value. rewrite lexer_for_pos.
  by rewrite get_decode_and_split_loop_spec; [|lia|apply wtf8_nil|by apply isomorphic_decode_wtf8].
Qed.

End quoted.
