(* ===== verification/MimeType.v ===== *)
(** * MIME types: [LibWeb/MimeSniff/MimeType.{h,cpp}]

    The parameters are an [OrderedHashMap], modelled by the association list of
    its entries in the order of insertion.  The theorems show that parsing is
    total, that every parsed MIME type is well-formed, and that its
    serialization parses back to it. *)

From S2P Require Import Prelude CharacterTypes Utf8 MemMem Strings Tokens Wtf8 CodeUnits Lexer TextCodec Decoders Http HttpFacts.
Local Open Scope Z_scope.

Record MimeType := {
  m_type : bytes;
  m_subtype : bytes;
  m_parameters : list (bytes * bytes);
  m_cached_essence : bytes
}.

(** [OrderedHashMap<String, String>] *)
Definition parameters_contains (parameters : list (bytes * bytes)) (name : bytes) : bool :=
  existsb (fun entry => sv_eqb entry.1 name) parameters.

Fixpoint parameters_set (parameters : list (bytes * bytes)) (name value : bytes) : list (bytes * bytes) :=
  match parameters with
  | [] => [(name, value)]
  | (n, v) :: parameters => if sv_eqb n name then (n, value) :: parameters else (n, v) :: parameters_set parameters name value
  end.

Definition with_parameters (mime_type : MimeType) (parameters : list (bytes * bytes)) : MimeType :=
  {| m_type := m_type mime_type; m_subtype := m_subtype mime_type; m_parameters := parameters;
     m_cached_essence := m_cached_essence mime_type |}.

Definition s_javascript_mime_type_essence_strings : list bytes :=
  [sv "application/ecmascript"; sv "application/javascript"; sv "application/x-ecmascript"; sv "application/x-javascript";
   sv "text/ecmascript"; sv "text/javascript"; sv "text/javascript1.0"; sv "text/javascript1.1"; sv "text/javascript1.2";
   sv "text/javascript1.3"; sv "text/javascript1.4"; sv "text/javascript1.5"; sv "text/jscript"; sv "text/livescript";
   sv "text/x-ecmascript"; sv "text/x-javascript"].

Definition is_javascript_mime_type_essence_match (string : bytes) : bool :=
  existsb (equals_ignoring_ascii_case string) s_javascript_mime_type_essence_strings.

(** An HTTP quoted-string token code point, and an HTTP token code point *)
Definition is_quoted_string_token (c : Z) : bool :=
  (c =? 9) || ((0x20 <=? c) && (c <=? 0x7E)) || ((0x80 <=? c) && (c <=? 0xFF)).

Definition contains_only_http_quoted_string_token_code_points (string : bytes) : bool :=
  forallb is_quoted_string_token (code_points string).

Definition is_certain_non_ascii_alphanumeric (c : Z) : bool := is_any_of (sv "!#$%&'*+-.^_`|~") c.

Definition is_http_token (c : Z) : bool := is_certain_non_ascii_alphanumeric c || is_ascii_alphanumeric c.

Definition contains_only_http_token_code_points (string : bytes) : bool := forallb is_http_token string.

(** The constructor and [create] *)
Definition mime_create (type subtype : bytes) : res MimeType :=
  verify (negb (sv_is_empty type) && contains_only_http_token_code_points type)
    (verify (negb (sv_is_empty subtype) && contains_only_http_token_code_points subtype)
      (Ret {| m_type := type; m_subtype := subtype; m_parameters := []; m_cached_essence := type ++ [ch "/"] ++ subtype |})).

(** Step 10 of the loop *)
Definition add_parameter (mime_type : MimeType) (parameter_name parameter_value : bytes) : MimeType :=
  if negb (sv_is_empty parameter_name)
     && contains_only_http_token_code_points parameter_name
     && contains_only_http_quoted_string_token_code_points parameter_value
     && negb (parameters_contains (m_parameters mime_type) parameter_name)
  then with_parameters mime_type (parameters_set (m_parameters mime_type) parameter_name parameter_value)
  else mime_type.

(** Step 11, the loop over the parameters *)
Fixpoint parse_parameters `{Simdutf} (fuel : nat) (mime_type : MimeType) (lexer : GenericLexer) : res MimeType :=
  match fuel with
  | O => Crash
  | S fuel =>
      if is_eof lexer then Ret mime_type
      else
        let lexer := ignore lexer 1 in
        let lexer := ignore_while lexer (is_any_of HTTP_WHITESPACE) in
        let* (parameter_name_view, lexer) := consume_until_pred lexer (fun c => (c =? ch ";") || (c =? ch "=")) in
        let* parameter_name := to_ascii_lowercase_string parameter_name_view in
        if negb (is_eof lexer) && (peek lexer =? ch ";") then parse_parameters fuel mime_type lexer
        else
          let lexer := if negb (is_eof lexer) then ignore lexer 1 else lexer in
          if is_eof lexer then Ret mime_type
          else if peek lexer =? 34 then
            let* (parameter_value, lexer) := collect_an_http_quoted_string lexer ExtractValue_Yes in
            let lexer := ignore_until lexer (ch ";") in
            parse_parameters fuel (add_parameter mime_type parameter_name parameter_value) lexer
          else
            let* (parameter_value, lexer) := consume_until lexer (ch ";") in
            let* parameter_value := utf8_trim parameter_value HTTP_WHITESPACE TrimRight in
            let* parameter_value := must_from_utf8 parameter_value in
            if sv_is_empty parameter_value then parse_parameters fuel mime_type lexer
            else parse_parameters fuel (add_parameter mime_type parameter_name parameter_value) lexer
  end.

(** [MimeType::parse] *)
Definition mime_parse `{Simdutf} (string : bytes) : res (option MimeType) :=
  if negb (validate Surrogates_Yes string) then Ret None
  else
    let trimmed_string := trim string HTTP_WHITESPACE TrimBoth in
    let lexer := lexer_for trimmed_string in
    let* (type, lexer) := consume_until lexer (ch "/") in
    if sv_is_empty type || negb (contains_only_http_token_code_points type) then Ret None
    else if is_eof lexer then Ret None
    else
      let lexer := ignore lexer 1 in
      let* (subtype, lexer) := consume_until lexer (ch ";") in
      let subtype := trim subtype HTTP_WHITESPACE TrimRight in
      if sv_is_empty subtype || negb (contains_only_http_token_code_points subtype) then Ret None
      else
        let* type := to_ascii_lowercase_string type in
        let* subtype := to_ascii_lowercase_string subtype in
        let* mime_type := mime_create type subtype in
        let* mime_type := parse_parameters (S (length trimmed_string)) mime_type lexer in
        Ret (Some mime_type).

Definition essence (mime_type : MimeType) : bytes := m_cached_essence mime_type.

(** The value of a parameter as [serialized] writes it *)
Definition serialize_value (value : bytes) : res bytes :=
  if negb (contains_only_http_token_code_points value) || sv_is_empty value then
    let* value := replace_all value [92] [92; 92] in
    let* value := replace_all value [34] [92; 34] in
    Ret ([34] ++ value ++ [34])
  else Ret value.

Fixpoint serialize_parameters (serialization : bytes) (parameters : list (bytes * bytes)) : res bytes :=
  match parameters with
  | [] => Ret serialization
  | (name, value) :: parameters =>
      let serialization := serialization ++ [ch ";"] ++ name ++ [ch "="] in
      let* value := serialize_value value in
      serialize_parameters (serialization ++ value) parameters
  end.

(** [MimeType::serialized] *)
Definition mime_serialized (mime_type : MimeType) : res bytes :=
  serialize_parameters (m_type mime_type ++ [ch "/"] ++ m_subtype mime_type) (m_parameters mime_type).

Definition set_parameter (mime_type : MimeType) (name value : bytes) : res MimeType :=
  verify (contains_only_http_quoted_string_token_code_points name)
    (verify (contains_only_http_quoted_string_token_code_points value)
      (Ret (with_parameters mime_type (parameters_set (m_parameters mime_type) name value)))).

(** ** Groups of MIME types *)

Definition is_one_of (s : bytes) (strings : list bytes) : bool := existsb (sv_eqb s) strings.

Definition is_image (mime_type : MimeType) : bool := sv_eqb (m_type mime_type) (sv "image").

Definition is_audio_or_video (mime_type : MimeType) : bool :=
  is_one_of (m_type mime_type) [sv "audio"; sv "video"] || sv_eqb (essence mime_type) (sv "application/ogg").

Definition is_font (mime_type : MimeType) : bool :=
  if sv_eqb (m_type mime_type) (sv "font") then true
  else is_one_of (essence mime_type)
    [sv "application/font-cff"; sv "application/font-otf"; sv "application/font-sfnt"; sv "application/font-ttf";
     sv "application/font-woff"; sv "application/vnd.ms-fontobject"; sv "application/vnd.ms-opentype"].

Definition is_zip_based (mime_type : MimeType) : bool :=
  ends_with (m_subtype mime_type) (sv "+zip") CaseSensitive || is_one_of (essence mime_type) [sv "application/zip"].

Definition is_archive (mime_type : MimeType) : bool :=
  is_one_of (essence mime_type) [sv "application/x-rar-compressed"; sv "application/zip"; sv "application/x-gzip"].

Definition is_xml (mime_type : MimeType) : bool :=
  ends_with (m_subtype mime_type) (sv "+xml") CaseSensitive || is_one_of (essence mime_type) [sv "text/xml"; sv "application/xml"].

Definition is_html (mime_type : MimeType) : bool := is_one_of (essence mime_type) [sv "text/html"].

Definition is_scriptable (mime_type : MimeType) : bool :=
  is_xml mime_type || is_html mime_type || sv_eqb (essence mime_type) (sv "application/pdf").

Definition is_javascript (mime_type : MimeType) : bool := is_one_of (essence mime_type) s_javascript_mime_type_essence_strings.

Definition is_json (mime_type : MimeType) : bool :=
  ends_with (m_subtype mime_type) (sv "+json") CaseSensitive
  || is_one_of (essence mime_type) [sv "application/json"; sv "text/json"].

Definition minimise_a_supported_mime_type (mime_type : MimeType) : bytes :=
  if is_javascript mime_type then sv "text/javascript"
  else if is_json mime_type then sv "application/json"
  else if sv_eqb (essence mime_type) (sv "image/svg+xml") then sv "image/svg+xml"
  else if is_xml mime_type then sv "application/xml"
  else [].

(** ** Facts: tokens *)

Abbreviation token := (Forall (fun c : Z => is_http_token c = true)).

Lemma token_char c : is_http_token c = true ->
  33 <= c <= 126 /\ c <> 34 /\ c <> 44 /\ c <> 47 /\ c <> 59 /\ c <> 61 /\ c <> 92.
Proof.
  unfold is_http_token, is_certain_non_ascii_alphanumeric, is_any_of, contains_char, is_ascii_alphanumeric, is_ascii_alpha,
    is_ascii_lower_alpha, is_ascii_upper_alpha, is_ascii_digit. cbn [existsb]. lia.
Qed.

Lemma token_ascii s : token s -> Forall (fun b => 0 <= b < 128) s.
Proof. intros Hs. eapply Forall_impl; [exact Hs|]. intros c Hc. apply token_char in Hc. lia. Qed.

Lemma token_lower_char c : is_http_token c = true -> is_http_token (to_ascii_lowercase c) = true.
Proof.
  intros Hc. unfold to_ascii_lowercase. destruct (is_ascii_upper_alpha c) eqn:E; [|done].
  unfold is_http_token, is_ascii_alphanumeric, is_ascii_alpha, is_ascii_lower_alpha in *. unfold is_ascii_upper_alpha in *.
  apply orb_true_iff. right. lia.
Qed.

(** A lower-case name *)
Definition name_ok (s : bytes) : Prop := s <> [] /\ token s /\ Forall (fun c => is_ascii_upper_alpha c = false) s.

Lemma name_lower s : s <> [] -> token s -> name_ok (to_ascii_lowercase <$> s).
Proof.
  intros Hne Hs. split; [by destruct s|]. split; apply Forall_fmap.
  - eapply Forall_impl; [exact Hs|]. apply token_lower_char.
  - apply Forall_true. intros c. apply to_ascii_lowercase_not_upper.
Qed.

Lemma name_fixed s : name_ok s -> to_ascii_lowercase <$> s = s.
Proof. intros (_ & _ & Hs). by apply lowercase_id. Qed.

Lemma name_ok_create type subtype : name_ok type -> name_ok subtype ->
  mime_create type subtype
  = Ret {| m_type := type; m_subtype := subtype; m_parameters := []; m_cached_essence := type ++ [ch "/"] ++ subtype |}.
Proof.
  intros (Hn1 & Ht1 & _) (Hn2 & Ht2 & _). unfold mime_create, contains_only_http_token_code_points.
  apply forallb_Forall_iff in Ht1 as ->, Ht2 as ->. by destruct type, subtype.
Qed.

(** ** Facts: the parameters *)

Lemma parameters_set_new ps n v :
  parameters_contains ps n = false -> parameters_set ps n v = ps ++ [(n, v)].
Proof.
  induction ps as [|[n' v'] ps IH]; [done|]. cbn [parameters_contains existsb parameters_set fst]. intros H.
  apply orb_false_iff in H as [-> H]. cbn [app]. by rewrite IH.
Qed.

Lemma parameters_contains_elem ps n : parameters_contains ps n = false <-> n ∉ ps.*1.
Proof.
  unfold parameters_contains. rewrite existsb_false_forall. split.
  - intros Hf Hin. apply list_elem_of_fmap in Hin as ([n' v'] & -> & Hin). rewrite Forall_forall in Hf.
    specialize (Hf _ Hin). cbn in Hf. by rewrite sv_eqb_refl in Hf.
  - intros Hn. apply Forall_forall. intros [n' v'] Hin. cbn. apply sv_eqb_false. intros ->. apply Hn.
    apply list_elem_of_fmap. by exists (n, v').
Qed.

Definition value_ok (v : bytes) : Prop := wtf8 v /\ contains_only_http_quoted_string_token_code_points v = true.

(** What [parse] promises of its result *)
Record mime_ok (m : MimeType) : Prop := {
  ok_type : name_ok (m_type m);
  ok_subtype : name_ok (m_subtype m);
  ok_parameters : Forall (fun p => name_ok p.1 /\ value_ok p.2) (m_parameters m);
  ok_distinct : NoDup (m_parameters m).*1;
  ok_essence : m_cached_essence m = m_type m ++ [ch "/"] ++ m_subtype m
}.

Lemma add_parameter_ok m n v :
  mime_ok m -> Forall (fun c => is_ascii_upper_alpha c = false) n -> wtf8 v -> mime_ok (add_parameter m n v).
Proof.
  intros [] Hlow Hv. unfold add_parameter. destruct (_ && _) eqn:E; [|by split].
  apply andb_prop in E as [E Hnew]. apply andb_prop in E as [E Hq]. apply andb_prop in E as [Hne Htok].
  apply negb_true_iff in Hnew. unfold with_parameters. rewrite parameters_set_new by done.
  split; cbn [m_type m_subtype m_parameters m_cached_essence]; try done.
  - apply Forall_app. split; [done|]. constructor; [|constructor]. cbn. split; [|done]. split; [by destruct n|].
    split; [by apply forallb_Forall_iff|done].
  - rewrite fmap_app. apply NoDup_app. split; [done|]. split; [|apply NoDup_singleton].
    intros x Hx Hx'. apply list_elem_of_singleton in Hx' as ->. by apply parameters_contains_elem in Hnew.
Qed.

Lemma add_parameter_new m n v :
  name_ok n -> value_ok v -> n ∉ (m_parameters m).*1 ->
  add_parameter m n v = with_parameters m (m_parameters m ++ [(n, v)]).
Proof.
  intros (Hne & Htok & _) [_ Hq] Hnew. apply parameters_contains_elem in Hnew. unfold add_parameter, contains_only_http_token_code_points.
  apply forallb_Forall_iff in Htok as ->. rewrite Hq, Hnew. destruct n; [done|]. cbn [sv_is_empty negb andb].
  by rewrite parameters_set_new.
Qed.

(** ** Facts: the escaped form of a value *)

Definition escape_value (v : bytes) : bytes := replaced 34 [92; 34] (replaced 92 [92; 92] v).

Lemma escape_value_cons x v :
  escape_value (x :: v) = (if x =? 92 then [92; 92] else if x =? 34 then [92; 34] else [x]) ++ escape_value v.
Proof.
  unfold escape_value. unfold replaced at 2. rewrite bind_cons, replaced_app. fold (replaced 92 [92; 92] v). f_equal.
  destruct (x =? 92) eqn:E; [done|]. unfold replaced. cbn. by destruct (x =? 34).
Qed.

Lemma unquote_escaped v rest : unquote false (escape_value v ++ 34 :: rest) = v
  /\ quoted_split false (escape_value v ++ 34 :: rest) = (escape_value v ++ [34], rest).
Proof.
  induction v as [|x v [IH1 IH2]]; [done|]. rewrite escape_value_cons.
  destruct (Z.eqb_spec x 92) as [->|H92]; [|destruct (Z.eqb_spec x 34) as [->|H34]]; cbn [app unquote quoted_split Z.eqb Pos.eqb].
  - by rewrite IH1, IH2.
  - by rewrite IH1, IH2.
  - rewrite (proj2 (Z.eqb_neq _ _) H34), (proj2 (Z.eqb_neq _ _) H92), IH1, IH2. done.
Qed.

Lemma wtf8_replaced c r s : 0 <= c < 128 -> Forall (fun b => 0 <= b < 128) r -> wtf8 s -> wtf8 (replaced c r s).
Proof.
  intros Hc Hr (cps & Hcps & ->). induction Hcps as [|cp cps Hcp Hcps IH]; [apply wtf8_nil|].
  rewrite utf8_encode_cons, replaced_app by done. apply wtf8_app; [|done].
  destruct (encoded_ascii_or_high cp Hcp) as [[Hlow ->]|[_ Hhigh]].
  - unfold replaced. cbn. destruct (cp =? c); rewrite app_nil_r; apply wtf8_ascii; [done|]. constructor; [lia|done].
  - rewrite replaced_free; [by apply wtf8_encoded|]. eapply Forall_impl; [exact Hhigh|]. cbn. lia.
Qed.

Lemma escape_value_wtf8 v : wtf8 v -> wtf8 (escape_value v).
Proof. intros Hv. unfold escape_value. repeat (apply wtf8_replaced; [lia|by repeat constructor|]). done. Qed.

(** The text of a value, and of the parameters *)
Definition value_text (v : bytes) : bytes :=
  if negb (contains_only_http_token_code_points v) || sv_is_empty v then [34] ++ escape_value v ++ [34] else v.

Definition parameters_text (ps : list (bytes * bytes)) : bytes :=
  ps ≫= fun p => [ch ";"] ++ p.1 ++ [ch "="] ++ value_text p.2.

Lemma serialize_parameters_text ps : forall acc, serialize_parameters acc ps = Ret (acc ++ parameters_text ps).
Proof.
  induction ps as [|[n v] ps IH]; intros acc; cbn [serialize_parameters]; [by rewrite app_nil_r|].
  assert (Hv : serialize_value v = Ret (value_text v)).
  { unfold serialize_value, value_text. destruct (_ || _); [|done]. rewrite !replace_all_char. cbn [res_bind].
    by rewrite replace_all_char. }
  rewrite Hv. cbn [res_bind]. rewrite IH. unfold parameters_text at 2. rewrite bind_cons. fold (parameters_text ps).
  by rewrite <- !app_assoc.
Qed.

(** ** Facts: one parameter *)

(** The lexer is at a semicolon or at the end. *)
Definition at_semicolon (b : bytes) : Prop := match b with c :: _ => c = ch ";" | [] => True end.

Section parsing.
Context `{SimdutfLaws}.

Lemma until_semicolon b : at_semicolon (drop_while (fun c => negb (c =? ch ";")) b).
Proof.
  pose proof (drop_while_head (fun c => negb (c =? 59)) b) as Hh. destruct (drop_while _ b) as [|c r]; [done|].
  apply negb_false_iff, Z.eqb_eq in Hh. exact Hh.
Qed.

(** Cutting a valid string in front of an ASCII character or at its end *)
Lemma wtf8_split pred b :
  (forall c, pred c = false -> 0 <= c < 128) -> wtf8 b -> wtf8 (take_while pred b) /\ wtf8 (drop_while pred b).
Proof.
  intros Hpred Hb. rewrite <- (take_drop_while pred b) in Hb. pose proof (drop_while_head pred b) as Hh.
  destruct (drop_while pred b) as [|c r].
  - rewrite app_nil_r in Hb. split; [done|apply wtf8_nil].
  - apply Hpred in Hh. split; [by apply wtf8_cut in Hb as [? _]|].
    apply wtf8_cut in Hb as [_ Hr]; [|done]. apply (wtf8_app [c] r); [by apply wtf8_ascii; constructor|done].
Qed.

Lemma wtf8_skip_whitespace b : wtf8 b -> wtf8 (drop_while (is_any_of HTTP_WHITESPACE) b).
Proof.
  intros Hb. rewrite <- (take_drop_while (is_any_of HTTP_WHITESPACE) b) in Hb. eapply wtf8_ascii_prefix; [|exact Hb].
  eapply Forall_impl; [apply take_while_forall|]. intros c Hc. unfold is_any_of, contains_char, HTTP_WHITESPACE in Hc.
  cbn [existsb] in Hc. lia.
Qed.

(** A result of the loop that belongs to the same type *)
Definition parses_to (r : res MimeType) (m : MimeType) : Prop :=
  exists m', r = Ret m' /\ mime_ok m' /\ m_type m' = m_type m /\ m_subtype m' = m_subtype m.

Lemma add_parameter_type m name v :
  m_type (add_parameter m name v) = m_type m /\ m_subtype (add_parameter m name v) = m_subtype m.
Proof. unfold add_parameter. by destruct (_ && _). Qed.

(** The value of a parameter, read by either branch, leaves the lexer at a
    semicolon. *)
Lemma parameter_value_ok fuel m name a d b :
  mime_ok m -> Forall (fun c => is_ascii_upper_alpha c = false) name -> wtf8 (d :: b) ->
  (forall m' a' b', mime_ok m' -> wtf8 b' -> at_semicolon b' -> (length b' <= length (d :: b))%nat ->
    parses_to (parse_parameters fuel m' (at_pos a' b')) m') ->
  parses_to
    (if peek (at_pos a (d :: b)) =? 34 then
       let* (parameter_value, lexer) := collect_an_http_quoted_string (at_pos a (d :: b)) ExtractValue_Yes in
       let lexer := ignore_until lexer (ch ";") in
       parse_parameters fuel (add_parameter m name parameter_value) lexer
     else
       let* (parameter_value, lexer) := consume_until (at_pos a (d :: b)) (ch ";") in
       let* parameter_value := utf8_trim parameter_value HTTP_WHITESPACE TrimRight in
       let* parameter_value := must_from_utf8 parameter_value in
       if sv_is_empty parameter_value then parse_parameters fuel m lexer
       else parse_parameters fuel (add_parameter m name parameter_value) lexer) m.
Proof.
  intros Hm Hlow Hb Hgo.
  assert (Hadd : forall v a' b', wtf8 v -> wtf8 b' -> at_semicolon b' -> (length b' <= length (d :: b))%nat ->
    parses_to (parse_parameters fuel (add_parameter m name v) (at_pos a' b')) m).
  { intros v a' b' Hv Hb' Hs Hl. destruct (Hgo (add_parameter m name v) a' b') as (m' & -> & Hm' & E1 & E2); [by apply add_parameter_ok|done..|].
    destruct (add_parameter_type m name v) as [E3 E4]. exists m'. by rewrite E1, E2, E3, E4. }
  rewrite peek_pos. destruct (Z.eqb_spec d 34) as [->|H34].
  - apply (wtf8_cut [] 34 b) in Hb as [_ Hb]; [|lia]. rewrite collect_yes_spec by done. cbn [res_bind].
    unfold ignore_until. rewrite ignore_while_pos. destruct (quoted_split_wtf8 b false []) as [Hq _]; [done|].
    pose proof (quoted_split_app false b) as Eq. apply (f_equal length) in Eq. rewrite length_app in Eq.
    apply Hadd; [by apply (unquote_wtf8 b [])| |apply until_semicolon|].
    + apply wtf8_split; [intros c Hc; lia|done].
    + etransitivity; [apply drop_while_length|]. cbn [length]. lia.
  - unfold consume_until. rewrite consume_while_pos. cbn [res_bind]. set (stop := fun c => negb _).
    destruct (wtf8_split stop (d :: b)) as [Hv Hr]; [intros c Hc; unfold stop in Hc; lia|done|].
    rewrite utf8_trim_right by (done || by repeat constructor). cbn [res_bind].
    assert (Hv' : wtf8 (trim (take_while stop (d :: b)) HTTP_WHITESPACE TrimRight)) by (apply wtf8_trim; [by repeat constructor|done]).
    rewrite must_from_utf8_wtf8 by done. cbn [res_bind]. set (v := trim _ _ _) in *. clearbody v.
    destruct (sv_is_empty v); [apply Hgo|apply Hadd]; (done || apply until_semicolon || apply drop_while_length).
Qed.

Lemma parse_parameters_ok fuel : forall m a b,
  mime_ok m -> wtf8 b -> at_semicolon b -> (length b < fuel)%nat -> parses_to (parse_parameters fuel m (at_pos a b)) m.
Proof.
  induction fuel as [|fuel IH]; intros m a b Hm Hb Hsemi Hf; [lia|]. cbn [parse_parameters]. rewrite is_eof_pos.
  destruct b as [|c b]; [by exists m|]. cbn [sv_is_empty]. cbn in Hsemi. subst c.
  assert (Hwb : wtf8 b) by (by apply (wtf8_cut [] 59 b) in Hb as [_ ?]).
  rewrite ignore_one_pos, ignore_while_pos. pose proof (wtf8_skip_whitespace b Hwb) as Hwb1.
  pose proof (drop_while_length (is_any_of HTTP_WHITESPACE) b) as Hl1. cbn [length] in Hf.
  set (b1 := drop_while (is_any_of HTTP_WHITESPACE) b) in *. clearbody b1. set (a1 := _ ++ take_while _ b). clearbody a1.
  unfold consume_until_pred. rewrite consume_while_pos. cbn [res_bind]. set (pred := fun c => negb _).
  destruct (wtf8_split pred b1) as [Hname Hb2]; [intros c Hc; unfold pred in Hc; lia|done|].
  pose proof (drop_while_length pred b1) as Hl2. pose proof (drop_while_head pred b1) as Hh.
  set (b2 := drop_while pred b1) in *. clearbody b2.
  rewrite to_ascii_lowercase_string_wtf8 by done. cbn [res_bind]. rewrite is_eof_pos, peek_pos.
  set (name := to_ascii_lowercase <$> _). set (a2 := a1 ++ _). clearbody a2.
  assert (Hlow : Forall (fun c => is_ascii_upper_alpha c = false) name).
  { apply Forall_fmap, Forall_true. intros c. apply to_ascii_lowercase_not_upper. }
  clearbody name. clear Hname.
  destruct b2 as [|c b2]; cbn [sv_is_empty negb andb]; [rewrite is_eof_pos; by exists m|].
  destruct (Z.eqb_spec c 59) as [->|H59]; [apply IH; done || lia|].
  assert (c = 61) as -> by (unfold pred in Hh; lia). rewrite ignore_one_pos, is_eof_pos.
  apply (wtf8_cut [] 61 b2) in Hb2 as [_ Hb2]; [|lia]. cbn [length] in Hl2.
  destruct b2 as [|d b2]; cbn [sv_is_empty]; [by exists m|].
  apply parameter_value_ok; [done|done|done|]. intros m' a' b' Hm' Hw' Hs' Hl'. apply IH; [done|done|done|]. cbn in *. lia.
Qed.

(** ** Facts: reading a serialized parameter *)

Lemma skip_no_whitespace n rest :
  name_ok n -> take_while (is_any_of HTTP_WHITESPACE) (n ++ rest) = [] /\ drop_while (is_any_of HTTP_WHITESPACE) (n ++ rest) = n ++ rest.
Proof.
  intros (Hne & Ht & _). destruct Ht as [|c n Hc Ht]; [done|]. apply token_char in Hc. cbn [app take_while drop_while].
  replace (is_any_of HTTP_WHITESPACE c) with false; [done|]. symmetry. unfold is_any_of, contains_char, HTTP_WHITESPACE. cbn [existsb]. lia.
Qed.

Lemma trim_right_token v : token v -> trim v HTTP_WHITESPACE TrimRight = v.
Proof.
  intros Hv. unfold trim, trim_right. rewrite trim_left_none; [by rewrite rev_involutive|].
  apply Forall_rev in Hv. destruct Hv as [|c w Hc _]; [done|]. apply token_char in Hc.
  unfold contains_char, HTTP_WHITESPACE. cbn [existsb]. lia.
Qed.

(** The value and what follows it, read by either branch *)
Lemma read_value fuel m n a v rest :
  value_ok v -> wtf8 rest -> at_semicolon rest ->
  (if peek (at_pos a (value_text v ++ rest)) =? 34 then
     let* (parameter_value, lexer) := collect_an_http_quoted_string (at_pos a (value_text v ++ rest)) ExtractValue_Yes in
     let lexer := ignore_until lexer (ch ";") in
     parse_parameters fuel (add_parameter m n parameter_value) lexer
   else
     let* (parameter_value, lexer) := consume_until (at_pos a (value_text v ++ rest)) (ch ";") in
     let* parameter_value := utf8_trim parameter_value HTTP_WHITESPACE TrimRight in
     let* parameter_value := must_from_utf8 parameter_value in
     if sv_is_empty parameter_value then parse_parameters fuel m lexer
     else parse_parameters fuel (add_parameter m n parameter_value) lexer)
  = parse_parameters fuel (add_parameter m n v) (at_pos (a ++ value_text v) rest).
Proof.
  intros [Hv Hq] Hrest Hsemi.
  assert (Hstop : match rest with c :: _ => negb (c =? 59) = false | [] => True end) by (by destruct rest; [|cbn in Hsemi; subst]).
  unfold value_text. destruct (_ || _) eqn:E.
  - replace (([34] ++ escape_value v ++ [34]) ++ rest) with (34 :: (escape_value v ++ 34 :: rest)) by (cbn [app]; by rewrite <- app_assoc).
    rewrite peek_pos, Z.eqb_refl. destruct (unquote_escaped v rest) as [Hu Hs].
    rewrite collect_yes_spec, Hu, Hs.
    2:{ apply wtf8_app; [by apply escape_value_wtf8|]. apply (wtf8_app [34] rest); [by apply wtf8_ascii; repeat constructor|done]. }
    cbn [res_bind fst snd]. unfold ignore_until. rewrite ignore_while_pos.
    destruct (take_while_app (fun c => negb (c =? 59)) [] rest ltac:(constructor) Hstop) as [E1 E2]. cbn [app] in E1, E2.
    rewrite E1, E2. by rewrite app_nil_r.
  - apply orb_false_iff in E as [Et Ee]. apply negb_false_iff in Et. apply forallb_Forall_iff in Et.
    destruct v as [|c v]; [done|]. pose proof Et as Et'. apply Forall_cons in Et' as [Hc _]. apply token_char in Hc.
    rewrite peek_pos. cbn [app]. rewrite (proj2 (Z.eqb_neq _ _)) by lia. unfold consume_until. rewrite consume_while_pos.
    destruct (take_while_app (fun c => negb (c =? 59)) (c :: v) rest) as [E1 E2]; [|done|].
    { eapply Forall_impl; [exact Et|]. intros x Hx. apply token_char in Hx. lia. }
    cbn [app] in E1, E2. rewrite E1, E2. cbn [res_bind]. rewrite utf8_trim_right by (done || by repeat constructor). cbn [res_bind].
    rewrite trim_right_token by done. rewrite must_from_utf8_wtf8 by done. done.
Qed.

Lemma read_parameter fuel m n v a rest :
  name_ok n -> value_ok v -> wtf8 rest -> at_semicolon rest ->
  parse_parameters (S fuel) m (at_pos a ([ch ";"] ++ n ++ [ch "="] ++ value_text v ++ rest))
  = parse_parameters fuel (add_parameter m n v) (at_pos (a ++ [ch ";"] ++ n ++ [ch "="] ++ value_text v) rest).
Proof.
  intros Hn Hv Hrest Hsemi. cbn [parse_parameters app]. rewrite is_eof_pos. cbn [sv_is_empty]. rewrite ignore_one_pos, ignore_while_pos.
  destruct (skip_no_whitespace n (61 :: value_text v ++ rest) Hn) as [-> ->]. rewrite app_nil_r.
  unfold consume_until_pred. rewrite consume_while_pos. set (pred := fun c => negb _).
  destruct (take_while_app pred n (61 :: value_text v ++ rest)) as [-> ->]; [|done|].
  { eapply Forall_impl; [exact (proj1 (proj2 Hn))|]. intros c Hc. apply token_char in Hc. unfold pred. lia. }
  cbn [res_bind]. rewrite to_ascii_lowercase_string_wtf8 by (apply wtf8_ascii, token_ascii, Hn). cbn [res_bind].
  rewrite name_fixed, is_eof_pos, peek_pos by done. cbn [sv_is_empty negb andb Z.eqb Pos.eqb].
  rewrite ignore_one_pos, is_eof_pos.
  assert (Hne : sv_is_empty (value_text v ++ rest) = false).
  { unfold value_text. destruct (_ || _) eqn:E; [done|]. apply orb_false_iff in E as [_ E]. by destruct v. }
  rewrite Hne, read_value by done. by rewrite <- !app_assoc.
Qed.

Lemma value_text_wtf8 v : value_ok v -> wtf8 (value_text v).
Proof.
  intros [Hv _]. unfold value_text. destruct (_ || _); [|done]. apply (wtf8_app [34]); [by apply wtf8_ascii; repeat constructor|].
  apply wtf8_app; [by apply escape_value_wtf8|by apply wtf8_ascii; repeat constructor].
Qed.

Lemma parameters_text_cons n v ps :
  parameters_text ((n, v) :: ps) = [ch ";"] ++ n ++ [ch "="] ++ value_text v ++ parameters_text ps.
Proof. unfold parameters_text. rewrite bind_cons. by rewrite <- !app_assoc. Qed.

Lemma parameters_text_ok ps : Forall (fun p => name_ok p.1 /\ value_ok p.2) ps ->
  wtf8 (parameters_text ps) /\ at_semicolon (parameters_text ps).
Proof.
  induction 1 as [|[n v] ps [Hn Hv] _ [IH _]]; [split; [apply wtf8_nil|done]|]. rewrite parameters_text_cons. split; [|done].
  repeat apply wtf8_app; try (by apply wtf8_ascii; repeat constructor); [apply wtf8_ascii, token_ascii, Hn|by apply value_text_wtf8|done].
Qed.

Lemma parse_parameters_text ps : forall fuel m a,
  Forall (fun p => name_ok p.1 /\ value_ok p.2) ps -> NoDup ((m_parameters m).*1 ++ ps.*1) -> (length ps < fuel)%nat ->
  parse_parameters fuel m (at_pos a (parameters_text ps)) = Ret (with_parameters m (m_parameters m ++ ps)).
Proof.
  induction ps as [|[n v] ps IH]; intros fuel m a Hps Hd Hf; (destruct fuel as [|fuel]; [lia|]).
  { cbn [parse_parameters]. change (parameters_text []) with (@nil Z). rewrite is_eof_pos, app_nil_r. by destruct m. }
  apply Forall_cons in Hps as [[Hn Hv] Hps]. destruct (parameters_text_ok ps Hps) as [Hw Hs].
  rewrite parameters_text_cons, read_parameter by done. cbn [fst snd] in *. rewrite fmap_cons in Hd. cbn [fst] in Hd.
  rewrite add_parameter_new; [|done|done|].
  - rewrite IH; [|done| |cbn in Hf; lia].
    + cbn [m_parameters with_parameters]. by rewrite <- app_assoc.
    + cbn [m_parameters with_parameters]. rewrite fmap_app, <- app_assoc. exact Hd.
  - intros Hin. apply NoDup_app in Hd as (_ & Hd & _). apply (Hd n Hin). by left.
Qed.

(** ** Facts: the whole of [parse] *)

(** Text that ends with a character that is not trimmed *)
Definition ends_solid (s : bytes) : Prop := exists l c, s = l ++ [c] /\ 33 <= c.

Lemma ends_solid_app s t : ends_solid t -> ends_solid (s ++ t).
Proof. intros (l & c & -> & Hc). exists (s ++ l), c. by rewrite app_assoc. Qed.

Lemma token_solid s : s <> [] -> token s -> ends_solid s.
Proof.
  intros Hne Hs. destruct (exists_last Hne) as (l & c & ->). exists l, c. split; [done|].
  apply Forall_app in Hs as [_ Hc]. apply Forall_cons in Hc as [Hc _]. apply token_char in Hc. lia.
Qed.

Lemma value_text_solid v : ends_solid (value_text v).
Proof.
  unfold value_text. destruct (_ || _) eqn:E.
  - exists ([34] ++ escape_value v), 34. by rewrite <- app_assoc.
  - apply orb_false_iff in E as [Et Ee]. apply negb_false_iff, forallb_Forall_iff in Et. apply token_solid; [by destruct v|done].
Qed.

Lemma text_solid subtype ps : name_ok subtype -> ends_solid (subtype ++ parameters_text ps).
Proof.
  intros Hs. destruct ps as [|[n v] ps _] using rev_ind.
  - rewrite app_nil_r. by apply token_solid; apply Hs.
  - apply ends_solid_app. unfold parameters_text. rewrite bind_app. apply ends_solid_app. rewrite bind_cons, app_nil_r.
    do 3 apply ends_solid_app. apply value_text_solid.
Qed.

Lemma trim_solid c s : 33 <= c -> ends_solid s -> trim (c :: s) HTTP_WHITESPACE TrimBoth = c :: s.
Proof.
  intros Hc (l & d & -> & Hd). assert (Hno : forall x, 33 <= x -> contains_char HTTP_WHITESPACE x = false).
  { intros x Hx. unfold contains_char, HTTP_WHITESPACE. cbn [existsb]. lia. }
  unfold trim. rewrite trim_left_none by (by apply Hno). unfold trim_right.
  rewrite trim_left_none; [by rewrite rev_involutive|]. cbn [rev]. rewrite rev_app_distr. cbn. by apply Hno.
Qed.

Lemma mime_parse_total string : all_bytes string ->
  exists o, mime_parse string = Ret o /\ match o with Some m => mime_ok m | None => True end.
Proof.
  intros Hb. unfold mime_parse. destruct (validate Surrogates_Yes string) eqn:Ev; cbn [negb]; [|by exists None].
  apply validate_wtf8 in Ev; [|done]. apply (wtf8_trim string HTTP_WHITESPACE TrimBoth) in Ev; [|by repeat constructor].
  set (s := trim string _ _) in *. clearbody s. cbv zeta. rewrite lexer_for_pos. unfold consume_until at 1. rewrite consume_while_pos. cbn [res_bind app].
  set (stop := fun c => negb (c =? 47)). destruct (wtf8_split stop s) as [Ht Hr]; [intros c Hc; unfold stop in Hc; lia|done|].
  pose proof (drop_while_length stop s) as Hl. pose proof (drop_while_head stop s) as Hh.
  set (type := take_while stop s) in *. set (b := drop_while stop s) in *. clearbody type b.
  destruct (sv_is_empty type || _) eqn:E1; [by exists None|]. apply orb_false_iff in E1 as [Hne1 Htok1].
  apply negb_false_iff, forallb_Forall_iff in Htok1. rewrite is_eof_pos. destruct b as [|c b]; cbn [sv_is_empty]; [by exists None|].
  assert (c = 47) as -> by (unfold stop in Hh; lia). rewrite ignore_one_pos. apply (wtf8_cut [] 47 b) in Hr as [_ Hr]; [|lia].
  unfold consume_until. rewrite consume_while_pos. cbn [res_bind length] in *. set (stop2 := fun c => negb (c =? 59)).
  destruct (wtf8_split stop2 b) as [Hsub Hrest]; [intros c Hc; unfold stop2 in Hc; lia|done|].
  pose proof (drop_while_length stop2 b) as Hl2. pose proof (until_semicolon b) as Hsemi. fold stop2 in Hsemi.
  apply (wtf8_trim _ HTTP_WHITESPACE TrimRight) in Hsub; [|by repeat constructor].
  set (subtype := trim _ _ TrimRight) in *. clearbody subtype.
  destruct (sv_is_empty subtype || _) eqn:E2; [by exists None|]. apply orb_false_iff in E2 as [Hne2 Htok2].
  apply negb_false_iff, forallb_Forall_iff in Htok2. rewrite !to_ascii_lowercase_string_wtf8 by done. cbn [res_bind].
  assert (Hn1 : name_ok (to_ascii_lowercase <$> type)) by (apply name_lower; [by destruct type|done]).
  assert (Hn2 : name_ok (to_ascii_lowercase <$> subtype)) by (apply name_lower; [by destruct subtype|done]).
  rewrite name_ok_create by done. cbn [res_bind].
  edestruct (parse_parameters_ok (S (length s))) as (m & -> & Hm & _); [|exact Hrest|exact Hsemi|lia|].
  - split; cbn; [done|done|constructor|constructor|done].
  - cbn [res_bind]. by exists (Some m).
Qed.

Lemma length_parameters_text ps : (length ps <= length (parameters_text ps))%nat.
Proof.
  induction ps as [|[n v] ps IH]; [cbn; lia|]. rewrite parameters_text_cons. rewrite !length_app. cbn [length]. lia.
Qed.

Lemma mime_roundtrip_spec m : mime_ok m ->
  exists text, mime_serialized m = Ret text /\ mime_parse text = Ret (Some m).
Proof.
  intros [Ht Hs Hp Hd He]. unfold mime_serialized. rewrite serialize_parameters_text, <- !app_assoc.
  set (ps := m_parameters m) in *. set (text := m_type m ++ [47] ++ m_subtype m ++ parameters_text ps). exists text. split; [done|].
  destruct (parameters_text_ok ps Hp) as [Hw Hsemi].
  assert (Hwt : wtf8 text).
  { unfold text. repeat apply wtf8_app; [apply wtf8_ascii, token_ascii, Ht|by apply wtf8_ascii; repeat constructor|
      apply wtf8_ascii, token_ascii, Hs|done]. }
  assert (Htrim : trim text HTTP_WHITESPACE TrimBoth = text).
  { pose proof (text_solid (m_subtype m) ps Hs) as Hsolid. unfold text. destruct Ht as (Hne & Htok & _).
    destruct Htok as [|c t Hc Htok]; [done|]. apply token_char in Hc. cbn [app]. apply trim_solid; [lia|]. by apply ends_solid_app, (ends_solid_app [47]). }
  unfold mime_parse. rewrite wtf8_valid by done. cbn [negb]. rewrite Htrim. cbv zeta. rewrite lexer_for_pos.
  unfold consume_until at 1. rewrite consume_while_pos. cbn [app].
  destruct (take_while_app (fun c => negb (c =? 47)) (m_type m) (47 :: m_subtype m ++ parameters_text ps)) as [E1 E2]; [|done|].
  { eapply Forall_impl; [exact (proj1 (proj2 Ht))|]. intros c Hc. apply token_char in Hc. lia. }
  unfold text. cbn [app]. rewrite E1, E2. cbn [res_bind].
  assert (Hfor : forall n, name_ok n -> sv_is_empty n || negb (contains_only_http_token_code_points n) = false).
  { intros n (Hne & Htok & _). unfold contains_only_http_token_code_points. apply forallb_Forall_iff in Htok as ->. by destruct n. }
  rewrite Hfor, is_eof_pos by done. cbn [sv_is_empty]. rewrite ignore_one_pos. unfold consume_until. rewrite consume_while_pos.
  destruct (take_while_app (fun c => negb (c =? 59)) (m_subtype m) (parameters_text ps)) as [-> ->].
  { eapply Forall_impl; [exact (proj1 (proj2 Hs))|]. intros c Hc. apply token_char in Hc. lia. }
  { destruct (parameters_text ps); [done|]. cbn in Hsemi. by rewrite Hsemi. }
  cbn [res_bind]. rewrite trim_right_token by apply Hs. rewrite Hfor by done.
  rewrite !to_ascii_lowercase_string_wtf8 by (apply wtf8_ascii, token_ascii; apply Ht || apply Hs). cbn [res_bind].
  rewrite !name_fixed, name_ok_create by done. cbn [res_bind]. rewrite parse_parameters_text; [|done|done|].
  - cbn [res_bind]. do 2 f_equal. unfold ps. clear - He. destruct m. unfold with_parameters. cbn [m_type m_subtype m_parameters m_cached_essence] in *. by rewrite He.
  - pose proof (length_parameters_text ps). rewrite length_app. cbn [length]. rewrite length_app. lia.
Qed.

End parsing.

(** ** Properties *)

(** C30: parsing a MIME type is total.  For every byte string [parse] returns
    without a failed check: either nothing, or a MIME type whose type, subtype
    and parameter names are non-empty lower-case HTTP tokens, whose parameter
    names are distinct, whose values are valid strings of quoted-string token
    code points, and whose cached essence is its type and subtype. *)
Theorem mime_parse_safe `{SimdutfLaws} (string : bytes) (Hstring : all_bytes string) :
  exists o, mime_parse string = Ret o /\ match o with Some m => mime_ok m | None => True end.
Proof. by apply mime_parse_total. Qed.

(** A type with a quoted and a repeated parameter *)
Definition example_mime_text : bytes := sv " Text/HTML ; charset=UTF-8;a=" ++ [34] ++ sv "x\;y" ++ [34] ++ sv ";A=2 ".

Lemma mime_parse_safe_witness :
  exists m, mime_parse example_mime_text = Ret (Some m) /\ m_parameters m = [(sv "charset", sv "UTF-8"); (sv "a", sv "x;y")]
    /\ mime_ok m.
Proof.
  destruct (mime_parse_safe example_mime_text) as (o & E & Hok); [by repeat constructor|].
  eexists. split; [vm_compute; reflexivity|]. split; [reflexivity|].
  assert (Eo : o = Some _) by (revert E; vm_compute; intros [= <-]; reflexivity). rewrite Eo in Hok. exact Hok.
Defined.

(** C25: the serialization of a parsed MIME type parses back to it, with the
    same parameters in the same order, whatever has to be quoted and escaped. *)
Theorem mime_roundtrip `{SimdutfLaws} (string : bytes) (m : MimeType) (Hstring : all_bytes string)
    (Hparse : mime_parse string = Ret (Some m)) :
  exists text, mime_serialized m = Ret text /\ mime_parse text = Ret (Some m).
Proof.
  destruct (mime_parse_total string Hstring) as (o & E & Hok). rewrite Hparse in E. injection E as <-. by apply mime_roundtrip_spec.
Qed.

Lemma mime_roundtrip_witness :
  exists m text, mime_serialized m = Ret text /\ text = sv "text/html;charset=UTF-8;a=" ++ [34] ++ sv "x;y" ++ [34]
    /\ mime_parse text = Ret (Some m).
Proof.
  destruct (mime_roundtrip example_mime_text
    {| m_type := sv "text"; m_subtype := sv "html"; m_parameters := [(sv "charset", sv "UTF-8"); (sv "a", sv "x;y")];
       m_cached_essence := sv "text/html" |} ltac:(by repeat constructor) ltac:(vm_compute; reflexivity)) as (text & Es & Ep).
  eexists _, text. split; [exact Es|]. split; [|exact Ep]. revert Es. vm_compute. intros [= <-]. reflexivity.
Defined.

(** [set_parameter] accepts names that [parse] does not: one that is not ASCII,
    and one that the serialization does not keep. *)
Theorem set_parameter_names :
  let m := {| m_type := sv "text"; m_subtype := sv "plain"; m_parameters := []; m_cached_essence := sv "text/plain" |} in
  (exists m', set_parameter m [0xC3; 0xA9] (sv "1") = Ret m')
  /\ exists m' text, set_parameter m (sv "a;b") (sv "1") = Ret m' /\ mime_serialized m' = Ret text
      /\ text = sv "text/plain;a;b=1".
Proof.
  split; [exists (with_parameters {| m_type := sv "text"; m_subtype := sv "plain"; m_parameters := []; m_cached_essence := sv "text/plain" |}
    [([0xC3; 0xA9], sv "1")]); vm_compute; reflexivity|].
  exists (with_parameters {| m_type := sv "text"; m_subtype := sv "plain"; m_parameters := []; m_cached_essence := sv "text/plain" |}
    [(sv "a;b", sv "1")]), (sv "text/plain;a;b=1"). split; [|split]; vm_compute; reflexivity.
Qed.
