(* ===== verification/MimeSniff.v ===== *)
(** * MIME sniffing: [LibWeb/MimeSniff/Resource.{h,cpp}]

    A [Resource] holds the first bytes of the data and the MIME type computed so
    far; the algorithms update it.  Indexing or slicing a span outside of its
    bounds is a failed [VERIFY].  The theorems say when sniffing returns, that it
    does not change a type it has to respect, and which input stops it. *)

From S2P Require Import Prelude CharacterTypes Utf8 MemMem Strings Tokens Wtf8 CodeUnits Lexer TextCodec Decoders Http HttpFacts MimeType.
Local Open Scope Z_scope.

(** ** Patterns *)

Record BytePatternTableRow := {
  byte_pattern : bytes;
  pattern_mask : bytes;
  ignored_leading_bytes : bytes;
  row_mime_type : bytes;
  is_tag_terminated : bool
}.

Definition is_tag_terminating_byte (byte : Z) : bool := (byte =? 0x20) || (byte =? 0x3E).

Definition is_binary_data_byte (byte : Z) : bool :=
  (byte <=? 0x08) || (byte =? 0x0B) || ((0x0E <=? byte) && (byte <=? 0x1A)) || ((0x1C <=? byte) && (byte <=? 0x1F)).

(** Step 4: the number of leading ignored bytes *)
Fixpoint skip_ignored (input ignored : bytes) : nat :=
  match input with
  | b :: input => if contains_char ignored b then S (skip_ignored input ignored) else O
  | [] => O
  end.

(** Step 6, with the rest of the pattern and of the mask *)
Fixpoint match_from (input pattern mask : bytes) (s : nat) (is_tag_terminated : bool) : res bool :=
  match pattern, mask with
  | p :: pattern, m :: mask =>
      let* b := at_index input s in
      let masked_data := Z.land b m in
      if is_tag_terminated && sv_is_empty pattern then Ret (is_tag_terminating_byte masked_data)
      else if negb (masked_data =? p) then Ret false
      else match_from input pattern mask (S s) is_tag_terminated
  | _, _ => Ret true
  end.

Definition pattern_matching_algorithm (input pattern mask ignored : bytes) (is_tag_terminated : bool) : res bool :=
  verify (length pattern =? length mask)%nat
    (if (length input <? length pattern)%nat then Ret false
     else match_from input pattern mask (skip_ignored input ignored) is_tag_terminated).

Definition no_ignored_bytes : bytes := [].
Definition ignored_whitespace_bytes : bytes := [0x09; 0x0A; 0x0C; 0x0D; 0x20].

Section sniffing.
Context `{Simdutf}.

(** The loop over a table: the type of the first row that matches *)
Fixpoint match_rows (table : list BytePatternTableRow) (input : bytes) : res (option MimeType) :=
  match table with
  | [] => Ret None
  | row :: table =>
      let* pattern_matched := pattern_matching_algorithm input (byte_pattern row) (pattern_mask row)
        (ignored_leading_bytes row) (is_tag_terminated row) in
      if pattern_matched : bool then mime_parse (row_mime_type row) else match_rows table input
  end.

(** The loops of [rules_for_identifying_an_unknown_mime_type] go on when the type
    of a row does not parse. *)
Fixpoint identify_rows (table : list BytePatternTableRow) (input : bytes) : res (option MimeType) :=
  match table with
  | [] => Ret None
  | row :: table =>
      let* pattern_matched := pattern_matching_algorithm input (byte_pattern row) (pattern_mask row)
        (ignored_leading_bytes row) (is_tag_terminated row) in
      if pattern_matched : bool then
        let* maybe_type := mime_parse (row_mime_type row) in
        match maybe_type with Some mime_type => Ret (Some mime_type) | None => identify_rows table input end
      else identify_rows table input
  end.

(** The table of [match_an_image_type_pattern] *)
Definition image_pattern_table : list BytePatternTableRow := [
  {| byte_pattern := [0x00; 0x00; 0x01; 0x00];
     pattern_mask := [0xFF; 0xFF; 0xFF; 0xFF];
     ignored_leading_bytes := no_ignored_bytes; row_mime_type := sv "image/x-icon"; is_tag_terminated := false |};
  {| byte_pattern := [0x00; 0x00; 0x02; 0x00];
     pattern_mask := [0xFF; 0xFF; 0xFF; 0xFF];
     ignored_leading_bytes := no_ignored_bytes; row_mime_type := sv "image/x-icon"; is_tag_terminated := false |};
  {| byte_pattern := [0x42; 0x4D];
     pattern_mask := [0xFF; 0xFF];
     ignored_leading_bytes := no_ignored_bytes; row_mime_type := sv "image/bmp"; is_tag_terminated := false |};
  {| byte_pattern := [0x47; 0x49; 0x46; 0x38; 0x37; 0x61];
     pattern_mask := [0xFF; 0xFF; 0xFF; 0xFF; 0xFF; 0xFF];
     ignored_leading_bytes := no_ignored_bytes; row_mime_type := sv "image/gif"; is_tag_terminated := false |};
  {| byte_pattern := [0x47; 0x49; 0x46; 0x38; 0x39; 0x61];
     pattern_mask := [0xFF; 0xFF; 0xFF; 0xFF; 0xFF; 0xFF];
     ignored_leading_bytes := no_ignored_bytes; row_mime_type := sv "image/gif"; is_tag_terminated := false |};
  {| byte_pattern := [0x52; 0x49; 0x46; 0x46; 0x00; 0x00; 0x00; 0x00; 0x57; 0x45; 0x42; 0x50; 0x56; 0x50];
     pattern_mask := [0xFF; 0xFF; 0xFF; 0xFF; 0x00; 0x00; 0x00; 0x00; 0xFF; 0xFF; 0xFF; 0xFF; 0xFF; 0xFF];
     ignored_leading_bytes := no_ignored_bytes; row_mime_type := sv "image/webp"; is_tag_terminated := false |};
  {| byte_pattern := [0x89; 0x50; 0x4E; 0x47; 0x0D; 0x0A; 0x1A; 0x0A];
     pattern_mask := [0xFF; 0xFF; 0xFF; 0xFF; 0xFF; 0xFF; 0xFF; 0xFF];
     ignored_leading_bytes := no_ignored_bytes; row_mime_type := sv "image/png"; is_tag_terminated := false |};
  {| byte_pattern := [0xFF; 0xD8; 0xFF];
     pattern_mask := [0xFF; 0xFF; 0xFF];
     ignored_leading_bytes := no_ignored_bytes; row_mime_type := sv "image/jpeg"; is_tag_terminated := false |}
].

Definition match_an_image_type_pattern (input : bytes) : res (option MimeType) := match_rows image_pattern_table input.

(** ** Audio and video *)

(** The loop of [matches_mp4_signature] over the compatible brands *)
Fixpoint mp4_brands (fuel : nat) (sequence : bytes) (bytes_read box_size : Z) : res bool :=
  match fuel with
  | O => Crash
  | S fuel =>
      if bytes_read <? box_size then
        let* brand := substring_view sequence (Z.to_nat bytes_read) 3 in
        if sv_eqb brand (sv "mp4") then Ret true else mp4_brands fuel sequence (bytes_read + 4) box_size
      else Ret false
  end.

Definition matches_mp4_signature (sequence : bytes) : res bool :=
  let len := Z.of_nat (length sequence) in
  if len <? 12 then Ret false
  else
    let* b0 := at_index sequence 0 in
    let* b1 := at_index sequence 1 in
    let* b2 := at_index sequence 2 in
    let* b3 := at_index sequence 3 in
    let box_size := Z.lor (Z.lor (Z.lor (u32 (Z.shiftl b0 24)) (u32 (Z.shiftl b1 16))) (u32 (Z.shiftl b2 8))) b3 in
    if (len <? box_size) || negb (box_size mod 4 =? 0) then Ret false
    else
      let* ftyp := substring_view sequence 4 4 in
      if negb (sv_eqb ftyp (sv "ftyp")) then Ret false
      else
        let* brand := substring_view sequence 8 3 in
        if sv_eqb brand (sv "mp4") then Ret true
        else mp4_brands (S (length sequence)) sequence 16 box_size.

(** [parse_a_vint]: the loop that finds the size, with at most [n] steps left *)
Fixpoint vint_size (n : nat) (sequence : bytes) (mask : Z) (number_size : nat) : res (Z * nat) :=
  match n with
  | O => Ret (mask, number_size)
  | S n =>
      if (number_size <? 8)%nat && (number_size <? length sequence)%nat then
        let* b := at_index sequence 0 in
        if negb (Z.land b mask =? 0) then Ret (mask, number_size)
        else vint_size n sequence (Z.shiftr mask 1) (S number_size)
      else Ret (mask, number_size)
  end.

(** The loop that reads the remaining bytes *)
Fixpoint vint_bytes (bytes_remaining : nat) (sequence : bytes) (index : nat) (parsed_number : Z) : res Z :=
  match bytes_remaining with
  | O => Ret parsed_number
  | S bytes_remaining =>
      let* b := at_index sequence index in
      let parsed_number := Z.lor (size_t (Z.shiftl parsed_number 8)) b in
      let index := S index in
      if (length sequence <=? index)%nat then Ret parsed_number
      else vint_bytes bytes_remaining sequence index parsed_number
  end.

Definition parse_a_vint (sequence : bytes) (iter : nat) : res (Z * nat) :=
  let* sequence := substring_view_from sequence iter in
  let* (mask, number_size) := vint_size 8 sequence 128 1 in
  let* b := at_index sequence 0 in
  let parsed_number := Z.land b (Z.lnot mask) in
  let* parsed_number := vint_bytes (number_size - 1) sequence 1 parsed_number in
  Ret (parsed_number, number_size).

(** The loop of [matches_webm_signature]; [iter] is below 38 *)
Fixpoint webm_loop (fuel : nat) (sequence : bytes) (iter : nat) : res bool :=
  match fuel with
  | O => Crash
  | S fuel =>
      if (iter <? length sequence)%nat && (iter <? 38)%nat then
        if (length sequence <=? iter + 1)%nat then Ret false
        else
          let* marker := substring_view sequence iter 2 in
          if sv_eqb marker [0x42; 0x82] then
            let iter := (iter + 2)%nat in
            if (length sequence <=? iter)%nat then Ret false
            else
              let* (_, number_size) := parse_a_vint sequence iter in
              let iter := (iter + number_size)%nat in
              if (length sequence - 4 <=? iter)%nat then Ret false
              else
                let* doctype := substring_view sequence iter 4 in
                if sv_eqb doctype (sv "webm") then Ret true else webm_loop fuel sequence (iter + 1)
          else webm_loop fuel sequence (iter + 1)
      else Ret false
  end.

Definition matches_webm_signature (sequence : bytes) : res bool :=
  if (length sequence <? 4)%nat then Ret false
  else if negb (bool_decide ([0x1A; 0x45; 0xDF; 0xA3] = take 4 sequence)) then Ret false
  else webm_loop 38 sequence 4.

Definition match_mp3_header (sequence : bytes) (s : nat) : res bool :=
  if (length sequence - s <? 4)%nat then Ret false
  else
    let* b0 := at_index sequence s in
    let* b1 := at_index sequence (s + 1) in
    if negb (b0 =? 0xff) || negb (Z.land b1 0xe0 =? 0xe0) then Ret false
    else
      let layer := Z.shiftr (Z.land b1 0x06) 1 in
      if layer =? 0 then Ret false
      else
        let* b2 := at_index sequence (s + 2) in
        let bit_rate := Z.shiftr (Z.land b2 0xf0) 4 in
        if bit_rate =? 15 then Ret false
        else
          let sample_rate := Z.shiftr (Z.land b2 0x0c) 2 in
          if sample_rate =? 3 then Ret false else Ret true.

Definition matches_mp3_no_id3_signature (sequence : bytes) : res bool := match_mp3_header sequence 0.

(** The table of [match_an_audio_or_video_type_pattern] *)
Definition audio_or_video_pattern_table : list BytePatternTableRow := [
  {| byte_pattern := [0x46; 0x4F; 0x52; 0x4D; 0x00; 0x00; 0x00; 0x00; 0x41; 0x49; 0x46; 0x46];
     pattern_mask := [0xFF; 0xFF; 0xFF; 0xFF; 0x00; 0x00; 0x00; 0x00; 0xFF; 0xFF; 0xFF; 0xFF];
     ignored_leading_bytes := no_ignored_bytes; row_mime_type := sv "audio/aiff"; is_tag_terminated := false |};
  {| byte_pattern := [0x49; 0x44; 0x33];
     pattern_mask := [0xFF; 0xFF; 0xFF];
     ignored_leading_bytes := no_ignored_bytes; row_mime_type := sv "audio/mpeg"; is_tag_terminated := false |};
  {| byte_pattern := [0x4F; 0x67; 0x67; 0x53; 0x00];
     pattern_mask := [0xFF; 0xFF; 0xFF; 0xFF; 0xFF];
     ignored_leading_bytes := no_ignored_bytes; row_mime_type := sv "application/ogg"; is_tag_terminated := false |};
  {| byte_pattern := [0x4D; 0x54; 0x68; 0x64; 0x00; 0x00; 0x00; 0x06];
     pattern_mask := [0xFF; 0xFF; 0xFF; 0xFF; 0xFF; 0xFF; 0xFF; 0xFF];
     ignored_leading_bytes := no_ignored_bytes; row_mime_type := sv "audio/midi"; is_tag_terminated := false |};
  {| byte_pattern := [0x52; 0x49; 0x46; 0x46; 0x00; 0x00; 0x00; 0x00; 0x41; 0x56; 0x49; 0x20];
     pattern_mask := [0xFF; 0xFF; 0xFF; 0xFF; 0x00; 0x00; 0x00; 0x00; 0xFF; 0xFF; 0xFF; 0xFF];
     ignored_leading_bytes := no_ignored_bytes; row_mime_type := sv "video/avi"; is_tag_terminated := false |};
  {| byte_pattern := [0x52; 0x49; 0x46; 0x46; 0x00; 0x00; 0x00; 0x00; 0x57; 0x41; 0x56; 0x45];
     pattern_mask := [0xFF; 0xFF; 0xFF; 0xFF; 0x00; 0x00; 0x00; 0x00; 0xFF; 0xFF; 0xFF; 0xFF];
     ignored_leading_bytes := no_ignored_bytes; row_mime_type := sv "audio/wave"; is_tag_terminated := false |}
].

Definition match_an_audio_or_video_type_pattern (input : bytes) : res (option MimeType) :=
  let* matched := match_rows audio_or_video_pattern_table input in
  match matched with
  | Some mime_type => Ret (Some mime_type)
  | None =>
      let* mp4 := matches_mp4_signature input in
      if mp4 : bool then let* mime_type := mime_create (sv "video") (sv "mp4") in Ret (Some mime_type)
      else
        let* webm := matches_webm_signature input in
        if webm : bool then let* mime_type := mime_create (sv "video") (sv "webm") in Ret (Some mime_type)
        else
          let* mp3 := matches_mp3_no_id3_signature input in
          if mp3 : bool then let* mime_type := mime_create (sv "audio") (sv "mpeg") in Ret (Some mime_type)
          else Ret None
  end.

(** ** Fonts and archives *)

(** The table of [match_a_font_type_pattern] *)
Definition font_pattern_table : list BytePatternTableRow := [
  {| byte_pattern := replicate 34 0x00 ++ [0x4C; 0x50];
     pattern_mask := replicate 34 0x00 ++ [0xFF; 0xFF];
     ignored_leading_bytes := no_ignored_bytes; row_mime_type := sv "application/vnd.ms-fontobject"; is_tag_terminated := false |};
  {| byte_pattern := [0x00; 0x01; 0x00; 0x00];
     pattern_mask := [0xFF; 0xFF; 0xFF; 0xFF];
     ignored_leading_bytes := no_ignored_bytes; row_mime_type := sv "font/ttf"; is_tag_terminated := false |};
  {| byte_pattern := [0x4F; 0x54; 0x54; 0x4F];
     pattern_mask := [0xFF; 0xFF; 0xFF; 0xFF];
     ignored_leading_bytes := no_ignored_bytes; row_mime_type := sv "font/otf"; is_tag_terminated := false |};
  {| byte_pattern := [0x74; 0x74; 0x63; 0x66];
     pattern_mask := [0xFF; 0xFF; 0xFF; 0xFF];
     ignored_leading_bytes := no_ignored_bytes; row_mime_type := sv "font/collection"; is_tag_terminated := false |};
  {| byte_pattern := [0x77; 0x4F; 0x46; 0x46];
     pattern_mask := [0xFF; 0xFF; 0xFF; 0xFF];
     ignored_leading_bytes := no_ignored_bytes; row_mime_type := sv "font/woff"; is_tag_terminated := false |};
  {| byte_pattern := [0x77; 0x4F; 0x46; 0x32];
     pattern_mask := [0xFF; 0xFF; 0xFF; 0xFF];
     ignored_leading_bytes := no_ignored_bytes; row_mime_type := sv "font/woff2"; is_tag_terminated := false |}
].

Definition match_a_font_type_pattern (input : bytes) : res (option MimeType) := match_rows font_pattern_table input.

(** The table of [match_an_archive_type_pattern] *)
Definition archive_pattern_table : list BytePatternTableRow := [
  {| byte_pattern := [0x1F; 0x8B; 0x08];
     pattern_mask := [0xFF; 0xFF; 0xFF];
     ignored_leading_bytes := no_ignored_bytes; row_mime_type := sv "application/x-gzip"; is_tag_terminated := false |};
  {| byte_pattern := [0x50; 0x4B; 0x03; 0x04];
     pattern_mask := [0xFF; 0xFF; 0xFF; 0xFF];
     ignored_leading_bytes := no_ignored_bytes; row_mime_type := sv "application/zip"; is_tag_terminated := false |};
  {| byte_pattern := [0x52; 0x61; 0x72; 0x21; 0x1A; 0x07; 0x00];
     pattern_mask := [0xFF; 0xFF; 0xFF; 0xFF; 0xFF; 0xFF; 0xFF];
     ignored_leading_bytes := no_ignored_bytes; row_mime_type := sv "application/x-rar-compressed"; is_tag_terminated := false |}
].

Definition match_an_archive_type_pattern (input : bytes) : res (option MimeType) := match_rows archive_pattern_table input.

(** ** Unknown types *)

(** The table for the sniff-scriptable flag *)
Definition scriptable_pattern_table : list BytePatternTableRow := [
  {| byte_pattern := [0x3C; 0x21; 0x44; 0x4F; 0x43; 0x54; 0x59; 0x50; 0x45; 0x20; 0x48; 0x54; 0x4D; 0x4C; 0x00];
     pattern_mask := [0xFF; 0xFF; 0xDF; 0xDF; 0xDF; 0xDF; 0xDF; 0xDF; 0xDF; 0xFF; 0xDF; 0xDF; 0xDF; 0xDF; 0xFF];
     ignored_leading_bytes := ignored_whitespace_bytes; row_mime_type := sv "text/html"; is_tag_terminated := true |};
  {| byte_pattern := [0x3C; 0x48; 0x54; 0x4D; 0x4C; 0x00];
     pattern_mask := [0xFF; 0xDF; 0xDF; 0xDF; 0xDF; 0xFF];
     ignored_leading_bytes := ignored_whitespace_bytes; row_mime_type := sv "text/html"; is_tag_terminated := true |};
  {| byte_pattern := [0x3C; 0x48; 0x45; 0x41; 0x44; 0x00];
     pattern_mask := [0xFF; 0xDF; 0xDF; 0xDF; 0xDF; 0xFF];
     ignored_leading_bytes := ignored_whitespace_bytes; row_mime_type := sv "text/html"; is_tag_terminated := true |};
  {| byte_pattern := [0x3C; 0x53; 0x43; 0x52; 0x49; 0x50; 0x54; 0x00];
     pattern_mask := [0xFF; 0xDF; 0xDF; 0xDF; 0xDF; 0xDF; 0xDF; 0xFF];
     ignored_leading_bytes := ignored_whitespace_bytes; row_mime_type := sv "text/html"; is_tag_terminated := true |};
  {| byte_pattern := [0x3C; 0x49; 0x46; 0x52; 0x41; 0x4D; 0x45; 0x00];
     pattern_mask := [0xFF; 0xDF; 0xDF; 0xDF; 0xDF; 0xDF; 0xDF; 0xFF];
     ignored_leading_bytes := ignored_whitespace_bytes; row_mime_type := sv "text/html"; is_tag_terminated := true |};
  {| byte_pattern := [0x3C; 0x48; 0x31; 0x00];
     pattern_mask := [0xFF; 0xDF; 0xFF; 0xFF];
     ignored_leading_bytes := ignored_whitespace_bytes; row_mime_type := sv "text/html"; is_tag_terminated := true |};
  {| byte_pattern := [0x3C; 0x44; 0x49; 0x56; 0x00];
     pattern_mask := [0xFF; 0xDF; 0xDF; 0xDF; 0xFF];
     ignored_leading_bytes := ignored_whitespace_bytes; row_mime_type := sv "text/html"; is_tag_terminated := true |};
  {| byte_pattern := [0x3C; 0x46; 0x4F; 0x4E; 0x54; 0x00];
     pattern_mask := [0xFF; 0xDF; 0xDF; 0xDF; 0xDF; 0xFF];
     ignored_leading_bytes := ignored_whitespace_bytes; row_mime_type := sv "text/html"; is_tag_terminated := true |};
  {| byte_pattern := [0x3C; 0x54; 0x41; 0x42; 0x4C; 0x45; 0x00];
     pattern_mask := [0xFF; 0xDF; 0xDF; 0xDF; 0xDF; 0xDF; 0xFF];
     ignored_leading_bytes := ignored_whitespace_bytes; row_mime_type := sv "text/html"; is_tag_terminated := true |};
  {| byte_pattern := [0x3C; 0x41; 0x00];
     pattern_mask := [0xFF; 0xDF; 0xFF];
     ignored_leading_bytes := ignored_whitespace_bytes; row_mime_type := sv "text/html"; is_tag_terminated := true |};
  {| byte_pattern := [0x3C; 0x53; 0x54; 0x59; 0x4C; 0x45; 0x00];
     pattern_mask := [0xFF; 0xDF; 0xDF; 0xDF; 0xDF; 0xDF; 0xFF];
     ignored_leading_bytes := ignored_whitespace_bytes; row_mime_type := sv "text/html"; is_tag_terminated := true |};
  {| byte_pattern := [0x3C; 0x54; 0x49; 0x54; 0x4C; 0x45; 0x00];
     pattern_mask := [0xFF; 0xDF; 0xDF; 0xDF; 0xDF; 0xDF; 0xFF];
     ignored_leading_bytes := ignored_whitespace_bytes; row_mime_type := sv "text/html"; is_tag_terminated := true |};
  {| byte_pattern := [0x3C; 0x42; 0x00];
     pattern_mask := [0xFF; 0xDF; 0xFF];
     ignored_leading_bytes := ignored_whitespace_bytes; row_mime_type := sv "text/html"; is_tag_terminated := true |};
  {| byte_pattern := [0x3C; 0x42; 0x4F; 0x44; 0x59; 0x00];
     pattern_mask := [0xFF; 0xDF; 0xDF; 0xDF; 0xDF; 0xFF];
     ignored_leading_bytes := ignored_whitespace_bytes; row_mime_type := sv "text/html"; is_tag_terminated := true |};
  {| byte_pattern := [0x3C; 0x42; 0x52; 0x00];
     pattern_mask := [0xFF; 0xDF; 0xDF; 0xFF];
     ignored_leading_bytes := ignored_whitespace_bytes; row_mime_type := sv "text/html"; is_tag_terminated := true |};
  {| byte_pattern := [0x3C; 0x50; 0x00];
     pattern_mask := [0xFF; 0xDF; 0xFF];
     ignored_leading_bytes := ignored_whitespace_bytes; row_mime_type := sv "text/html"; is_tag_terminated := true |};
  {| byte_pattern := [0x3C; 0x21; 0x2D; 0x2D; 0x00];
     pattern_mask := [0xFF; 0xFF; 0xFF; 0xFF; 0xFF];
     ignored_leading_bytes := ignored_whitespace_bytes; row_mime_type := sv "text/html"; is_tag_terminated := true |};
  {| byte_pattern := [0x3C; 0x3F; 0x78; 0x6D; 0x6C];
     pattern_mask := [0xFF; 0xFF; 0xFF; 0xFF; 0xFF];
     ignored_leading_bytes := ignored_whitespace_bytes; row_mime_type := sv "text/xml"; is_tag_terminated := false |};
  {| byte_pattern := [0x25; 0x50; 0x44; 0x46; 0x2D];
     pattern_mask := [0xFF; 0xFF; 0xFF; 0xFF; 0xFF];
     ignored_leading_bytes := no_ignored_bytes; row_mime_type := sv "application/pdf"; is_tag_terminated := false |}
].

(** The second table *)
Definition unknown_pattern_table : list BytePatternTableRow := [
  {| byte_pattern := [0x25; 0x21; 0x50; 0x53; 0x2D; 0x41; 0x64; 0x6F; 0x62; 0x65; 0x2D];
     pattern_mask := [0xFF; 0xFF; 0xFF; 0xFF; 0xFF; 0xFF; 0xFF; 0xFF; 0xFF; 0xFF; 0xFF];
     ignored_leading_bytes := no_ignored_bytes; row_mime_type := sv "application/postscript"; is_tag_terminated := false |};
  {| byte_pattern := [0xFE; 0xFF; 0x00; 0x00];
     pattern_mask := [0xFF; 0xFF; 0x00; 0x00];
     ignored_leading_bytes := no_ignored_bytes; row_mime_type := sv "text/plain"; is_tag_terminated := false |};
  {| byte_pattern := [0xFF; 0xFE; 0x00; 0x00];
     pattern_mask := [0xFF; 0xFF; 0x00; 0x00];
     ignored_leading_bytes := no_ignored_bytes; row_mime_type := sv "text/plain"; is_tag_terminated := false |};
  {| byte_pattern := [0xEF; 0xBB; 0xBF; 0x00];
     pattern_mask := [0xFF; 0xFF; 0xFF; 0x00];
     ignored_leading_bytes := no_ignored_bytes; row_mime_type := sv "text/plain"; is_tag_terminated := false |}
].

Definition rules_for_identifying_an_unknown_mime_type (resource_header : bytes) (sniff_scriptable : bool) : res MimeType :=
  let* scriptable := (if sniff_scriptable then identify_rows scriptable_pattern_table resource_header else Ret None) in
  match scriptable with
  | Some mime_type => Ret mime_type
  | None =>
      let* text := identify_rows unknown_pattern_table resource_header in
      match text with
      | Some mime_type => Ret mime_type
      | None =>
          let* image := match_an_image_type_pattern resource_header in
          match image with
          | Some mime_type => Ret mime_type
          | None =>
              let* audio_or_video := match_an_audio_or_video_type_pattern resource_header in
              match audio_or_video with
              | Some mime_type => Ret mime_type
              | None =>
                  let* archive := match_an_archive_type_pattern resource_header in
                  match archive with
                  | Some mime_type => Ret mime_type
                  | None =>
                      if negb (existsb is_binary_data_byte resource_header)
                      then mime_create (sv "text") (sv "plain")
                      else mime_create (sv "application") (sv "octet-stream")
                  end
              end
          end
      end
  end.

(** ** Resources *)

Inductive SniffingContext := Context_None | Context_Browsing | Context_Image | Context_AudioOrVideo | Context_Font | Context_TextOrBinary.

Record SniffingConfiguration := {
  sniffing_context : SniffingContext;
  config_scheme : bytes;
  supplied_type : option MimeType;
  no_sniff : bool
}.

Record Resource := {
  m_supplied_mime_type : option MimeType;
  m_check_for_apache_bug_flag : bool;
  m_no_sniff : bool;
  m_computed_mime_type : MimeType;
  m_resource_header : bytes
}.

Definition with_computed (resource : Resource) (mime_type : MimeType) : Resource :=
  {| m_supplied_mime_type := m_supplied_mime_type resource;
     m_check_for_apache_bug_flag := m_check_for_apache_bug_flag resource;
     m_no_sniff := m_no_sniff resource; m_computed_mime_type := mime_type;
     m_resource_header := m_resource_header resource |}.

Definition MAX_SNIFF_SIZE : nat := 1445.

(** [read_the_resource_header] *)
Definition read_the_resource_header (data : bytes) : res bytes := substring_view data 0 (Nat.min (length data) MAX_SNIFF_SIZE).

Definition is_http_or_https_scheme (scheme : bytes) : bool := existsb (sv_eqb scheme) [sv "http"; sv "https"].

Definition apache_bug_mime_types : list bytes :=
  [sv "text/plain"; sv "text/plain;charset=ISO-8859-1"; sv "text/plain;charset=iso-8859-1"; sv "text/plain;charset=UTF-8"].

Definition supplied_mime_type_detection_algorithm (resource : Resource) (scheme : bytes) (supplied_type : option MimeType)
  : res Resource :=
  let* apache_bug :=
    match supplied_type with
    | Some mime_type =>
        if is_http_or_https_scheme scheme then
          let* serialized_supplied_type := mime_serialized mime_type in
          Ret (existsb (sv_eqb serialized_supplied_type) apache_bug_mime_types)
        else Ret false
    | None => Ret false
    end in
  Ret {| m_supplied_mime_type := supplied_type;
         m_check_for_apache_bug_flag := m_check_for_apache_bug_flag resource || apache_bug;
         m_no_sniff := m_no_sniff resource; m_computed_mime_type := m_computed_mime_type resource;
         m_resource_header := m_resource_header resource |}.

Definition rules_for_distinguishing_if_a_resource_is_text_or_binary (resource : Resource) : res Resource :=
  let header := m_resource_header resource in
  let text_plain := let* mime_type := mime_create (sv "text") (sv "plain") in Ret (with_computed resource mime_type) in
  if (2 <=? length header)%nat && (bool_decide (take 2 header = [0xFE; 0xFF]) || bool_decide (take 2 header = [0xFF; 0xFE]))
  then text_plain
  else if (3 <=? length header)%nat && bool_decide (take 3 header = [0xEF; 0xBB; 0xBF]) then text_plain
  else if negb (existsb is_binary_data_byte header) then text_plain
  else Ret resource.

Definition is_unknown_essence (mime_type : MimeType) : bool :=
  is_one_of (essence mime_type) [sv "unknown/unknown"; sv "application/unknown"; sv "*/*"].

Definition mime_type_sniffing_algorithm (resource : Resource) : res Resource :=
  let unknown :=
    let* mime_type := rules_for_identifying_an_unknown_mime_type (m_resource_header resource) (negb (m_no_sniff resource)) in
    Ret (with_computed resource mime_type) in
  match m_supplied_mime_type resource with
  | None => unknown
  | Some supplied =>
      if is_xml supplied || is_html supplied then Ret (with_computed resource supplied)
      else if is_unknown_essence supplied then unknown
      else if m_no_sniff resource then Ret (with_computed resource supplied)
      else if m_check_for_apache_bug_flag resource then rules_for_distinguishing_if_a_resource_is_text_or_binary resource
      else Ret (with_computed resource supplied)
  end.

(** The three rules for a context differ in the algorithm that matches. *)
Definition rules_for_sniffing_specifically (match_type : bytes -> res (option MimeType)) (resource : Resource) : res Resource :=
  let supplied_or_default :=
    let* matched := match_type (m_resource_header resource) in
    match matched, m_supplied_mime_type resource with
    | Some mime_type, _ | None, Some mime_type => Ret (with_computed resource mime_type)
    | None, None => Ret resource
    end in
  match m_supplied_mime_type resource with
  | Some supplied => if is_xml supplied then Ret (with_computed resource supplied) else supplied_or_default
  | None => supplied_or_default
  end.

Definition rules_for_sniffing_images_specifically : Resource -> res Resource :=
  rules_for_sniffing_specifically match_an_image_type_pattern.
Definition rules_for_sniffing_audio_or_video_specifically : Resource -> res Resource :=
  rules_for_sniffing_specifically match_an_audio_or_video_type_pattern.
Definition rules_for_sniffing_fonts_specifically : Resource -> res Resource :=
  rules_for_sniffing_specifically match_a_font_type_pattern.

Definition context_specific_sniffing_algorithm (resource : Resource) (context : SniffingContext) : res Resource :=
  match context with
  | Context_None | Context_Browsing => mime_type_sniffing_algorithm resource
  | _ =>
      match m_no_sniff resource, m_supplied_mime_type resource with
      | true, Some supplied => Ret (with_computed resource supplied)
      | _, _ =>
          match context with
          | Context_Image => rules_for_sniffing_images_specifically resource
          | Context_AudioOrVideo => rules_for_sniffing_audio_or_video_specifically resource
          | Context_Font => rules_for_sniffing_fonts_specifically resource
          | Context_TextOrBinary => rules_for_distinguishing_if_a_resource_is_text_or_binary resource
          | _ => Ret resource
          end
      end
  end.

(** [Resource::create] *)
Definition resource_create (data : bytes) (configuration : SniffingConfiguration) : res Resource :=
  let* default_computed_mime_type := mime_create (sv "application") (sv "octet-stream") in
  let* resource_header := read_the_resource_header data in
  let resource :=
    {| m_supplied_mime_type := None; m_check_for_apache_bug_flag := false; m_no_sniff := no_sniff configuration;
       m_computed_mime_type := default_computed_mime_type; m_resource_header := resource_header |} in
  let* resource := supplied_mime_type_detection_algorithm resource (config_scheme configuration) (supplied_type configuration) in
  context_specific_sniffing_algorithm resource (sniffing_context configuration).

(** [Resource::sniff] *)
Definition sniff (data : bytes) (configuration : SniffingConfiguration) : res MimeType :=
  let* resource := resource_create data configuration in
  Ret (m_computed_mime_type resource).

End sniffing.

(** ** Facts: patterns *)

Lemma match_from_safe input pattern mask tag : forall s,
  (s + length pattern <= length input)%nat -> exists b, match_from input pattern mask s tag = Ret b.
Proof.
  revert mask. induction pattern as [|p pattern IH]; intros mask s Hs; cbn [match_from]; [by exists true|].
  destruct mask as [|m mask]; [by exists true|]. cbn [length] in Hs. unfold at_index.
  destruct (lookup_lt_is_Some_2 input s) as [b ->]; [lia|]. cbn [unwrap res_bind].
  destruct (tag && sv_is_empty pattern); [by eexists|]. destruct (negb _); [by exists false|]. apply IH. lia.
Qed.

(** The pattern cannot reach past the end of the input. *)
Definition row_fits (input : bytes) (row : BytePatternTableRow) : Prop :=
  (length input < length (byte_pattern row))%nat
  \/ (skip_ignored input (ignored_leading_bytes row) + length (byte_pattern row) <= length input)%nat.

Lemma row_match_safe input row :
  length (byte_pattern row) = length (pattern_mask row) -> row_fits input row ->
  exists b, pattern_matching_algorithm input (byte_pattern row) (pattern_mask row) (ignored_leading_bytes row) (is_tag_terminated row) = Ret b.
Proof.
  intros Hlen Hfit. unfold pattern_matching_algorithm. rewrite (proj2 (Nat.eqb_eq _ _) Hlen). cbn [verify].
  destruct (Nat.ltb_spec (length input) (length (byte_pattern row))); [by exists false|]. destruct Hfit; [lia|]. by apply match_from_safe.
Qed.

(** ** Facts: the types in the tables *)

Definition simple_mime (type subtype : bytes) : MimeType :=
  {| m_type := type; m_subtype := subtype; m_parameters := []; m_cached_essence := type ++ [ch "/"] ++ subtype |}.

Definition row_type (row : BytePatternTableRow) : MimeType :=
  simple_mime (take_while (fun c => negb (c =? ch "/")) (row_mime_type row))
    (drop 1 (drop_while (fun c => negb (c =? ch "/")) (row_mime_type row))).

(** A row is right: its mask is as long as its pattern and its type is a name,
    a slash and a name. *)
Definition name_okb (s : bytes) : bool :=
  negb (sv_is_empty s) && forallb is_http_token s && forallb (fun c => negb (is_ascii_upper_alpha c)) s.

Definition row_ok (row : BytePatternTableRow) : bool :=
  (length (byte_pattern row) =? length (pattern_mask row))%nat
  && name_okb (m_type (row_type row)) && name_okb (m_subtype (row_type row))
  && sv_eqb (row_mime_type row) (essence (row_type row)).

Lemma name_okb_ok s : name_okb s = true -> name_ok s.
Proof.
  unfold name_okb. intros H. apply andb_prop in H as [H Hlow]. apply andb_prop in H as [Hne Htok]. split; [by destruct s|].
  split; [by apply forallb_Forall_iff|]. apply forallb_Forall_iff in Hlow. eapply Forall_impl; [exact Hlow|].
  intros c Hc. by apply negb_true_iff in Hc.
Qed.

Lemma simple_mime_ok type subtype : name_ok type -> name_ok subtype -> mime_ok (simple_mime type subtype).
Proof. intros Ht Hs. split; cbn; [done|done|constructor|constructor|done]. Qed.

Section facts.
Context `{SimdutfLaws}.

Lemma parse_simple type subtype :
  name_ok type -> name_ok subtype -> mime_parse (type ++ [ch "/"] ++ subtype) = Ret (Some (simple_mime type subtype)).
Proof.
  intros Ht Hs. destruct (mime_roundtrip_spec (simple_mime type subtype)) as (text & Es & Ep); [by apply simple_mime_ok|].
  unfold mime_serialized in Es. cbn [serialize_parameters m_parameters m_type m_subtype simple_mime] in Es.
  by injection Es as <-.
Qed.

Lemma row_parse row : row_ok row = true -> mime_parse (row_mime_type row) = Ret (Some (row_type row)) /\ mime_ok (row_type row).
Proof.
  unfold row_ok. intros Hr. apply andb_prop in Hr as [Hr He]. apply andb_prop in Hr as [Hr Hs].
  apply andb_prop in Hr as [_ Ht]. apply sv_eqb_true in He. apply name_okb_ok in Ht, Hs. split; [|by apply simple_mime_ok].
  rewrite He. by apply parse_simple.
Qed.

Lemma match_rows_spec table input :
  forallb row_ok table = true -> Forall (row_fits input) table ->
  exists o, match_rows table input = Ret o /\ identify_rows table input = Ret o
    /\ match o with Some m => mime_ok m /\ exists row, row ∈ table /\ m = row_type row | None => True end.
Proof.
  intros Hrows Hfit. induction Hfit as [|row table Hrow Hfit IH]; [by exists None|]. cbn [forallb] in Hrows.
  apply andb_prop in Hrows as [Hr Hrows]. cbn [match_rows identify_rows].
  destruct (row_match_safe input row) as [b ->]; [|done|].
  { unfold row_ok in Hr. repeat (apply andb_prop in Hr as [Hr _]). by apply Nat.eqb_eq. }
  cbn [res_bind]. destruct b.
  - destruct (row_parse row Hr) as [-> Hok]. cbn [res_bind]. exists (Some (row_type row)). split; [done|]. split; [done|].
    split; [done|]. exists row. split; [by left|done].
  - destruct (IH Hrows) as (o & E1 & E2 & Ho). exists o. split; [done|]. split; [done|]. destruct o as [m|]; [|done].
    destruct Ho as [Hok (r & Hin & ->)]. split; [done|]. exists r. split; [by right|done].
Qed.

Lemma skip_nothing input : skip_ignored input no_ignored_bytes = 0%nat.
Proof. by destruct input. Qed.

Lemma plain_rows_fit input table :
  forallb (fun row => sv_is_empty (ignored_leading_bytes row)) table = true -> Forall (row_fits input) table.
Proof.
  intros Ht. apply forallb_Forall_iff in Ht. eapply Forall_impl; [exact Ht|]. intros row Hr. cbn beta in Hr. unfold row_fits.
  destruct (ignored_leading_bytes row); [|done]. fold no_ignored_bytes. rewrite skip_nothing. lia.
Qed.

(** A table without ignored bytes always gives an answer. *)
Lemma plain_table table input :
  forallb row_ok table = true -> forallb (fun row => sv_is_empty (ignored_leading_bytes row)) table = true ->
  forallb (fun row => negb (is_scriptable (row_type row))) table = true ->
  exists o, match_rows table input = Ret o /\ identify_rows table input = Ret o
    /\ match o with Some m => mime_ok m /\ is_scriptable m = false | None => True end.
Proof.
  intros H1 H2 H3. destruct (match_rows_spec table input H1 (plain_rows_fit input table H2)) as (o & E1 & E2 & Ho). exists o.
  split; [done|]. split; [done|]. destruct o as [m|]; [|done]. destruct Ho as [Hok (row & Hin & ->)]. split; [done|].
  apply forallb_Forall_iff in H3. rewrite Forall_forall in H3. specialize (H3 row Hin). by apply negb_true_iff in H3.
Qed.

(** ** Facts: audio and video *)

Lemma substring_view_ok s start len : (start + len <= length s)%nat -> exists v, substring_view s start len = Ret v.
Proof. intros Hs. unfold substring_view. rewrite (proj2 (Nat.leb_le _ _) Hs). by eexists. Qed.

(** The brands are read in steps of four, up to the end of the box. *)
Lemma mp4_brands_safe fuel : forall sequence bytes_read box_size,
  0 <= bytes_read -> bytes_read mod 4 = 0 -> box_size mod 4 = 0 -> box_size <= Z.of_nat (length sequence) ->
  (Z.to_nat (box_size - bytes_read) < fuel)%nat -> exists b, mp4_brands fuel sequence bytes_read box_size = Ret b.
Proof.
  induction fuel as [|fuel IH]; intros sequence bytes_read box_size Hpos H1 H2 H3 H4; [lia|]. cbn [mp4_brands].
  destruct (Z.ltb_spec bytes_read box_size) as [Hlt|]; [|by exists false].
  assert (Hstep : bytes_read + 4 <= box_size) by (Z.to_euclidean_division_equations; lia).
  destruct (substring_view_ok sequence (Z.to_nat bytes_read) 3) as [v ->]; [lia|]. cbn [res_bind].
  destruct (sv_eqb v _); [by exists true|]. apply IH; [lia| |done|done|lia]. Z.to_euclidean_division_equations. lia.
Qed.

Lemma mp4_safe sequence : all_bytes sequence -> exists b, matches_mp4_signature sequence = Ret b.
Proof.
  intros Hb. unfold matches_mp4_signature. cbv zeta. destruct (Z.ltb_spec (Z.of_nat (length sequence)) 12) as [|Hlen]; [by exists false|].
  assert (Hat : forall i, (i < 12)%nat -> exists b, at_index sequence i = Ret b /\ 0 <= b).
  { intros i Hi. unfold at_index. destruct (lookup_lt_is_Some_2 sequence i) as [b E]; [lia|]. rewrite E. exists b. split; [done|].
    rewrite Forall_forall in Hb. specialize (Hb b ltac:(by eapply list_elem_of_lookup_2)). unfold is_byte in Hb. lia. }
  destruct (Hat 0%nat) as (b0 & -> & _); [lia|]. destruct (Hat 1%nat) as (b1 & -> & _); [lia|].
  destruct (Hat 2%nat) as (b2 & -> & _); [lia|]. destruct (Hat 3%nat) as (b3 & -> & H3); [lia|]. cbn [res_bind].
  set (box_size := Z.lor _ b3). destruct (_ || _) eqn:E; [by exists false|].
  destruct (substring_view_ok sequence 4 4) as [ftyp ->]; [lia|]. cbn [res_bind]. destruct (sv_eqb ftyp _); cbn [negb]; [|by exists false].
  destruct (substring_view_ok sequence 8 3) as [brand ->]; [lia|]. cbn [res_bind]. destruct (sv_eqb brand _); [by exists true|].
  apply mp4_brands_safe; [lia|done|lia|lia|lia].
Qed.

Lemma vint_size_spec n sequence : forall mask number_size,
  (1 <= number_size <= length sequence)%nat ->
  exists mask' size, vint_size n sequence mask number_size = Ret (mask', size) /\ (1 <= size <= length sequence)%nat.
Proof.
  induction n as [|n IH]; intros mask number_size Hs; cbn [vint_size]; [by exists mask, number_size|].
  destruct (_ && _) eqn:E; [|by exists mask, number_size]. apply andb_prop in E as [_ E]. apply Nat.ltb_lt in E.
  destruct (at_index_ok sequence 0) as [b ->]; [lia|]. cbn [res_bind]. destruct (negb _); [by exists mask, number_size|]. apply IH. lia.
Qed.

Lemma vint_bytes_safe n sequence : forall index parsed,
  (index + n <= length sequence)%nat -> exists v, vint_bytes n sequence index parsed = Ret v.
Proof.
  induction n as [|n IH]; intros index parsed Hi; cbn [vint_bytes]; [by exists parsed|].
  destruct (at_index_ok sequence index) as [b ->]; [lia|]. cbn [res_bind]. destruct (_ <=? _)%nat; [by eexists|]. apply IH. lia.
Qed.

Lemma parse_a_vint_safe sequence iter : (iter < length sequence)%nat -> exists v size, parse_a_vint sequence iter = Ret (v, size).
Proof.
  intros Hi. unfold parse_a_vint. rewrite substring_view_from_drop by lia. cbn [res_bind].
  assert (Hl : (1 <= length (drop iter sequence))%nat) by (rewrite length_drop; lia).
  destruct (vint_size_spec 8 (drop iter sequence) 128 1) as (mask & size & -> & Hs); [lia|]. cbn [res_bind].
  destruct (at_index_ok (drop iter sequence) 0) as [b ->]; [lia|]. cbn [res_bind].
  destruct (vint_bytes_safe (size - 1) (drop iter sequence) 1 (Z.land b (Z.lnot mask))) as [v ->]; [lia|]. cbn [res_bind]. by eexists _, _.
Qed.

Lemma webm_loop_safe fuel : forall sequence iter,
  (4 <= length sequence)%nat -> (38 - iter < fuel)%nat -> exists b, webm_loop fuel sequence iter = Ret b.
Proof.
  induction fuel as [|fuel IH]; intros sequence iter Hlen Hf; [lia|]. cbn [webm_loop].
  destruct (_ && _) eqn:E; [|by exists false]. apply andb_prop in E as [E1 E2]. apply Nat.ltb_lt in E1, E2.
  destruct (Nat.leb_spec (length sequence) (iter + 1)); [by exists false|].
  destruct (substring_view_ok sequence iter 2) as [marker ->]; [lia|]. cbn [res_bind].
  destruct (sv_eqb marker _); [|apply IH; [done|lia]].
  destruct (Nat.leb_spec (length sequence) (iter + 2)); [by exists false|].
  destruct (parse_a_vint_safe sequence (iter + 2)) as (v & size & ->); [lia|]. cbn [res_bind].
  destruct (Nat.leb_spec (length sequence - 4) (iter + 2 + size)); [by exists false|].
  destruct (substring_view_ok sequence (iter + 2 + size) 4) as [doctype ->]; [lia|]. cbn [res_bind].
  destruct (sv_eqb doctype _); [by exists true|]. apply IH; [done|lia].
Qed.

Lemma webm_safe sequence : exists b, matches_webm_signature sequence = Ret b.
Proof.
  unfold matches_webm_signature. destruct (Nat.ltb_spec (length sequence) 4); [by exists false|].
  destruct (negb _); [by exists false|]. apply webm_loop_safe; lia.
Qed.

Lemma mp3_safe sequence : exists b, matches_mp3_no_id3_signature sequence = Ret b.
Proof.
  unfold matches_mp3_no_id3_signature, match_mp3_header. rewrite Nat.sub_0_r. destruct (Nat.ltb_spec (length sequence) 4); [by exists false|].
  destruct (at_index_ok sequence 0) as [b0 ->]; [lia|]. destruct (at_index_ok sequence (0 + 1)) as [b1 ->]; [lia|]. cbn [res_bind].
  destruct (_ || _); [by exists false|]. destruct (_ =? 0); [by exists false|].
  destruct (at_index_ok sequence (0 + 2)) as [b2 ->]; [lia|]. cbn [res_bind].
  destruct (_ =? 15); [by exists false|]. destruct (_ =? 3); by eexists.
Qed.

(** ** Facts: the algorithms *)

(** A result that is a well-formed type which does not run scripts *)
Definition tame (r : res (option MimeType)) : Prop :=
  exists o, r = Ret o /\ match o with Some m => mime_ok m /\ is_scriptable m = false | None => True end.

Lemma image_tame input : tame (match_an_image_type_pattern input).
Proof.
  destruct (plain_table image_pattern_table input) as (o & E & _ & Ho); [reflexivity..|]. by exists o.
Qed.

Lemma font_tame input : tame (match_a_font_type_pattern input).
Proof.
  destruct (plain_table font_pattern_table input) as (o & E & _ & Ho); [reflexivity..|]. by exists o.
Qed.

Lemma archive_tame input : tame (match_an_archive_type_pattern input).
Proof.
  destruct (plain_table archive_pattern_table input) as (o & E & _ & Ho); [reflexivity..|]. by exists o.
Qed.

Lemma created_tame type subtype :
  name_okb type = true -> name_okb subtype = true -> is_scriptable (simple_mime type subtype) = false ->
  mime_create type subtype = Ret (simple_mime type subtype) /\ mime_ok (simple_mime type subtype).
Proof.
  intros Ht Hs _. apply name_okb_ok in Ht, Hs. split; [by apply name_ok_create|by apply simple_mime_ok].
Qed.

Lemma audio_or_video_tame input : all_bytes input -> tame (match_an_audio_or_video_type_pattern input).
Proof.
  intros Hb. unfold match_an_audio_or_video_type_pattern.
  destruct (plain_table audio_or_video_pattern_table input) as (o & -> & _ & Ho); [reflexivity..|]. cbn [res_bind].
  destruct o as [m|]; [by exists (Some m)|].
  destruct (mp4_safe input Hb) as [mp4 ->], (webm_safe input) as [webm ->], (mp3_safe input) as [mp3 ->]. cbn [res_bind].
  destruct mp4; [|destruct webm; [|destruct mp3; [|by exists None]]].
  - destruct (created_tame (sv "video") (sv "mp4")) as [-> Hok]; [reflexivity..|]. by eexists.
  - destruct (created_tame (sv "video") (sv "webm")) as [-> Hok]; [reflexivity..|]. by eexists.
  - destruct (created_tame (sv "audio") (sv "mpeg")) as [-> Hok]; [reflexivity..|]. by eexists.
Qed.

(** The longest pattern of the first table fits behind the whitespace. *)
Definition sniffable (header : bytes) : Prop :=
  let skipped := skip_ignored header ignored_whitespace_bytes in
  skipped = 0%nat \/ (skipped + 15 <= length header)%nat.

Lemma sniffable_fits header : sniffable header -> Forall (row_fits header) scriptable_pattern_table.
Proof.
  intros Hh.
  assert (Ht : forallb (fun row => (length (byte_pattern row) <=? 15)%nat
      && (sv_is_empty (ignored_leading_bytes row) || sv_eqb (ignored_leading_bytes row) ignored_whitespace_bytes)) scriptable_pattern_table = true)
    by reflexivity.
  apply forallb_Forall_iff in Ht. eapply Forall_impl; [exact Ht|]. intros row Hr. cbn beta in Hr. unfold row_fits.
  apply andb_prop in Hr as [Hlen Hr]. apply Nat.leb_le in Hlen. apply orb_true_iff in Hr as [Hr|Hr].
  - destruct (ignored_leading_bytes row); [|done]. fold no_ignored_bytes. rewrite skip_nothing. lia.
  - apply sv_eqb_true in Hr as ->. unfold sniffable in Hh. lia.
Qed.

Lemma unknown_rest header : all_bytes header ->
  exists m, (let* text := identify_rows unknown_pattern_table header in
      match text with
      | Some mime_type => Ret mime_type
      | None =>
          let* image := match_an_image_type_pattern header in
          match image with
          | Some mime_type => Ret mime_type
          | None =>
              let* audio_or_video := match_an_audio_or_video_type_pattern header in
              match audio_or_video with
              | Some mime_type => Ret mime_type
              | None =>
                  let* archive := match_an_archive_type_pattern header in
                  match archive with
                  | Some mime_type => Ret mime_type
                  | None =>
                      if negb (existsb is_binary_data_byte header)
                      then mime_create (sv "text") (sv "plain")
                      else mime_create (sv "application") (sv "octet-stream")
                  end
              end
          end
      end) = Ret m /\ mime_ok m /\ is_scriptable m = false.
Proof.
  intros Hb. destruct (plain_table unknown_pattern_table header) as (o & _ & -> & Ho); [reflexivity..|]. cbn [res_bind].
  destruct o as [m|]; [by exists m|]. destruct (image_tame header) as (o & -> & Hi). cbn [res_bind]. destruct o as [m|]; [by exists m|].
  destruct (audio_or_video_tame header Hb) as (o & -> & Ha). cbn [res_bind]. destruct o as [m|]; [by exists m|].
  destruct (archive_tame header) as (o & -> & Hr). cbn [res_bind]. destruct o as [m|]; [by exists m|]. destruct (negb _).
  - destruct (created_tame (sv "text") (sv "plain")) as [-> Hok]; [reflexivity..|]. by eexists.
  - destruct (created_tame (sv "application") (sv "octet-stream")) as [-> Hok]; [reflexivity..|]. by eexists.
Qed.

Lemma unknown_not_scriptable header : all_bytes header ->
  exists m, rules_for_identifying_an_unknown_mime_type header false = Ret m /\ mime_ok m /\ is_scriptable m = false.
Proof. intros Hb. unfold rules_for_identifying_an_unknown_mime_type. cbn [res_bind]. by apply unknown_rest. Qed.

Lemma unknown_ok header sniff_scriptable : all_bytes header -> sniffable header ->
  exists m, rules_for_identifying_an_unknown_mime_type header sniff_scriptable = Ret m /\ mime_ok m.
Proof.
  intros Hb Hh. destruct (unknown_rest header Hb) as (m0 & E0 & Hok0 & _). unfold rules_for_identifying_an_unknown_mime_type.
  destruct sniff_scriptable; cbn [res_bind]; [|by exists m0].
  destruct (match_rows_spec scriptable_pattern_table header) as (o & _ & -> & Ho); [reflexivity|by apply sniffable_fits|].
  cbn [res_bind]. destruct o as [m|]; [|by exists m0]. exists m. split; [done|]. apply Ho.
Qed.

(** Only whitespace: the first row that is not too long reads past the end. *)
Lemma skip_all header ignored : Forall (fun b => contains_char ignored b = true) header -> skip_ignored header ignored = length header.
Proof. induction 1 as [|b header Hb Hh IH]; [done|]. cbn [skip_ignored length]. by rewrite Hb, IH. Qed.

Lemma whitespace_rows header table rest :
  Forall (fun b => contains_char ignored_whitespace_bytes b = true) header ->
  forallb (fun row => row_ok row && sv_eqb (ignored_leading_bytes row) ignored_whitespace_bytes && negb (sv_is_empty (byte_pattern row))) table = true ->
  existsb (fun row => (length (byte_pattern row) <=? length header)%nat) table = true ->
  identify_rows (table ++ rest) header = Crash.
Proof.
  intros Hh. induction table as [|row table IH]; [done|]. cbn [forallb existsb app identify_rows]. intros Hr He.
  apply andb_prop in Hr as [Hr Hrows]. apply andb_prop in Hr as [Hr Hne]. apply andb_prop in Hr as [Hok Hign]. apply sv_eqb_true in Hign.
  assert (Hlen : length (byte_pattern row) = length (pattern_mask row)).
  { unfold row_ok in Hok. repeat (apply andb_prop in Hok as [Hok _]). by apply Nat.eqb_eq. }
  unfold pattern_matching_algorithm. rewrite (proj2 (Nat.eqb_eq _ _) Hlen). cbn [verify]. rewrite Hign, skip_all by done.
  destruct (Nat.ltb_spec (length header) (length (byte_pattern row))) as [Hlt|Hge].
  - cbn [res_bind]. apply IH; [done|]. by rewrite (proj2 (Nat.leb_gt _ _) Hlt) in He.
  - destruct (byte_pattern row) as [|p pattern]; [done|]. destruct (pattern_mask row) as [|m mask]; [done|]. cbn [match_from].
    unfold at_index. by rewrite lookup_ge_None_2 by lia.
Qed.

Lemma whitespace_crashes header :
  Forall (fun b => contains_char ignored_whitespace_bytes b = true) header -> (3 <= length header)%nat ->
  rules_for_identifying_an_unknown_mime_type header true = Crash.
Proof.
  intros Hh Hlen. unfold rules_for_identifying_an_unknown_mime_type.
  rewrite <- (take_drop 18 scriptable_pattern_table), whitespace_rows; [done|done|reflexivity|].
  apply existsb_exists. exists (nth 9 scriptable_pattern_table (Build_BytePatternTableRow [] [] [] [] false)).
  split; [cbn; tauto|]. apply Nat.leb_le. exact Hlen.
Qed.

(** What [create] passes to the algorithm of the context *)
Definition supplied_ok (supplied : option MimeType) : Prop := match supplied with Some m => mime_ok m | None => True end.

Lemma supplied_detected resource scheme supplied : supplied_ok supplied ->
  exists flag, supplied_mime_type_detection_algorithm resource scheme supplied
    = Ret {| m_supplied_mime_type := supplied; m_check_for_apache_bug_flag := flag; m_no_sniff := m_no_sniff resource;
             m_computed_mime_type := m_computed_mime_type resource; m_resource_header := m_resource_header resource |}.
Proof.
  intros Hs. unfold supplied_mime_type_detection_algorithm. destruct supplied as [m|]; [|cbn [res_bind]; by eexists].
  destruct (is_http_or_https_scheme scheme); [|cbn [res_bind]; by eexists].
  destruct (mime_roundtrip_spec m Hs) as (text & -> & _). cbn [res_bind]. by eexists.
Qed.

Definition octet_stream : MimeType := simple_mime (sv "application") (sv "octet-stream").

Lemma sniff_unfold data configuration : supplied_ok (supplied_type configuration) ->
  exists flag, sniff data configuration
    = (let* resource := context_specific_sniffing_algorithm
         {| m_supplied_mime_type := supplied_type configuration; m_check_for_apache_bug_flag := flag;
            m_no_sniff := no_sniff configuration; m_computed_mime_type := octet_stream;
            m_resource_header := take MAX_SNIFF_SIZE data |} (sniffing_context configuration) in
       Ret (m_computed_mime_type resource)).
Proof.
  intros Hs. unfold sniff, resource_create.
  destruct (created_tame (sv "application") (sv "octet-stream")) as [-> _]; [reflexivity..|]. cbn [res_bind].
  unfold read_the_resource_header, substring_view. rewrite (proj2 (Nat.leb_le _ _)) by lia. cbn [verify res_bind]. rewrite drop_0.
  replace (take (length data `min` MAX_SNIFF_SIZE) data) with (take MAX_SNIFF_SIZE data)
    by (rewrite Nat.min_comm, <- take_take; f_equal; by rewrite firstn_all).
  cbv zeta. edestruct supplied_detected as [flag ->]; [exact Hs|]. cbn [res_bind m_no_sniff m_computed_mime_type m_resource_header]. by exists flag.
Qed.

(** The type that a result computes *)
Definition computes (r : res Resource) (P : MimeType -> Prop) : Prop :=
  exists resource, r = Ret resource /\ P (m_computed_mime_type resource).

Lemma text_or_binary_computes (P : MimeType -> Prop) resource :
  P (simple_mime (sv "text") (sv "plain")) -> P (m_computed_mime_type resource) ->
  computes (rules_for_distinguishing_if_a_resource_is_text_or_binary resource) P.
Proof.
  intros H1 H2. unfold rules_for_distinguishing_if_a_resource_is_text_or_binary. cbv zeta.
  destruct (created_tame (sv "text") (sv "plain")) as [-> _]; [reflexivity..|]. cbn [res_bind].
  destruct (_ && _); [by eexists|]. destruct (_ && _); [by eexists|]. destruct (negb _); by eexists.
Qed.

Lemma specific_computes match_type (P : MimeType -> Prop) resource :
  tame (match_type (m_resource_header resource)) -> P (m_computed_mime_type resource) ->
  (forall m, mime_ok m -> is_scriptable m = false -> P m) -> (forall m, m_supplied_mime_type resource = Some m -> P m) ->
  computes (rules_for_sniffing_specifically match_type resource) P.
Proof.
  intros (o & E & Ho) Hd Ht Hs. unfold rules_for_sniffing_specifically. rewrite E. cbn [res_bind].
  destruct (m_supplied_mime_type resource) as [m|].
  - specialize (Hs m eq_refl). destruct (is_xml m); [by eexists|]. destruct o as [m'|]; [|by eexists].
    eexists. split; [done|]. destruct Ho. by apply Ht.
  - destruct o as [m'|]; [|by eexists]. eexists. split; [done|]. destruct Ho. by apply Ht.
Qed.

Lemma sniffed_unknown (P : MimeType -> Prop) resource m :
  rules_for_identifying_an_unknown_mime_type (m_resource_header resource) (negb (m_no_sniff resource)) = Ret m -> P m ->
  (forall m', m_supplied_mime_type resource = Some m' -> is_unknown_essence m' = false -> P m') ->
  (forall m', m_supplied_mime_type resource = Some m' -> is_unknown_essence m' = true -> is_xml m' || is_html m' = false) ->
  (m_no_sniff resource = false -> P (simple_mime (sv "text") (sv "plain")) /\ P (m_computed_mime_type resource)) ->
  computes (mime_type_sniffing_algorithm resource) P.
Proof.
  intros E HP Hs Hu Hd. unfold mime_type_sniffing_algorithm. rewrite E. cbn [res_bind].
  destruct (m_supplied_mime_type resource) as [m'|]; [|by eexists]. specialize (Hs m' eq_refl). specialize (Hu m' eq_refl).
  destruct (is_unknown_essence m') eqn:Eu; [rewrite Hu by done; by eexists|]. specialize (Hs eq_refl).
  destruct (_ || _); [by eexists|]. destruct (m_no_sniff resource); [by eexists|]. destruct Hd as [H1 H2]; [done|].
  destruct (m_check_for_apache_bug_flag resource); [by apply text_or_binary_computes|by eexists].
Qed.

(** An unknown type is neither XML nor HTML. *)
Lemma unknown_essence_plain m : mime_ok m -> is_unknown_essence m = true -> is_xml m || is_html m = false.
Proof.
  intros Hok Hu. apply ok_essence in Hok. fold (essence m) in Hok. unfold is_xml, is_html.
  assert (Hends : ends_with (m_subtype m) (sv "+xml") CaseSensitive = true -> ends_with (essence m) (sv "+xml") CaseSensitive = true).
  { rewrite !ends_with_suffix, Hok. intros [p ->]. exists (m_type m ++ [ch "/"] ++ p). by rewrite <- !app_assoc. }
  destruct (ends_with (m_subtype m) _ _); [specialize (Hends eq_refl)|clear Hends];
    apply existsb_exists in Hu as (e & Hin & He); apply sv_eqb_true in He; rewrite He in *;
    cbn in Hin; destruct Hin as [<- | [<- | [<- | []]]]; first [discriminate Hends|reflexivity].
Qed.

(** Every context computes a type with a property that the results of the
    tables, the default and the supplied type have. *)
Lemma context_computes (P : MimeType -> Prop) resource context :
  all_bytes (m_resource_header resource) -> P (m_computed_mime_type resource) ->
  (forall m, mime_ok m -> is_scriptable m = false -> P m) -> (forall m, m_supplied_mime_type resource = Some m -> P m) ->
  context <> Context_None -> context <> Context_Browsing ->
  computes (context_specific_sniffing_algorithm resource context) P.
Proof.
  intros Hb Hd Ht Hs Hn Hbr. unfold context_specific_sniffing_algorithm.
  assert (Hi : computes (rules_for_sniffing_images_specifically resource) P) by (apply specific_computes; auto using image_tame).
  assert (Ha : computes (rules_for_sniffing_audio_or_video_specifically resource) P)
    by (apply specific_computes; auto using audio_or_video_tame).
  assert (Hf : computes (rules_for_sniffing_fonts_specifically resource) P) by (apply specific_computes; auto using font_tame).
  assert (Hx : computes (rules_for_distinguishing_if_a_resource_is_text_or_binary resource) P).
  { apply text_or_binary_computes; [|done]. apply Ht; [|reflexivity]. by apply simple_mime_ok; apply name_okb_ok. }
  destruct context; try done; destruct (m_no_sniff resource); try done;
    (destruct (m_supplied_mime_type resource) as [m|]; [|done]); eexists; (split; [reflexivity|]); by apply Hs.
Qed.

Lemma take_bytes n data : all_bytes data -> all_bytes (take n data).
Proof. by apply Forall_take. Qed.

Lemma computes_sniff (P : MimeType -> Prop) r :
  computes r P -> exists m, (let* resource := r in Ret (m_computed_mime_type resource)) = Ret m /\ P m.
Proof. intros (resource & -> & HP). by eexists. Qed.

Lemma sniff_returns_spec data configuration :
  all_bytes data -> supplied_ok (supplied_type configuration) ->
  no_sniff configuration = true \/ sniffable (take MAX_SNIFF_SIZE data) ->
  exists m, sniff data configuration = Ret m /\ mime_ok m.
Proof.
  intros Hb Hs Hsn. destruct (sniff_unfold data configuration Hs) as [flag ->]. apply computes_sniff.
  assert (Hoct : mime_ok octet_stream) by (by apply simple_mime_ok; apply name_okb_ok).
  assert (Hsup : forall m, supplied_type configuration = Some m -> mime_ok m) by (intros m Em; by rewrite Em in Hs).
  assert (Hu : exists m, rules_for_identifying_an_unknown_mime_type (take MAX_SNIFF_SIZE data) (negb (no_sniff configuration)) = Ret m /\ mime_ok m).
  { destruct (no_sniff configuration) eqn:En.
    - destruct (unknown_not_scriptable (take MAX_SNIFF_SIZE data)) as (m & E & Hm & _); [by apply take_bytes|by exists m].
    - destruct Hsn as [|Hsn]; [done|]. apply unknown_ok; [by apply take_bytes|done]. }
  destruct Hu as (m & Em & Hm).
  destruct (sniffing_context configuration) eqn:Ec; first
    [ apply (sniffed_unknown _ _ m); cbn [m_resource_header m_no_sniff m_supplied_mime_type m_computed_mime_type]; auto;
      [intros m' Em'; apply unknown_essence_plain; auto|intros _; split; [by apply simple_mime_ok; apply name_okb_ok|done]]
    | apply context_computes; cbn [m_resource_header m_no_sniff m_supplied_mime_type m_computed_mime_type]; auto using take_bytes; discriminate ].
Qed.

Lemma nosniff_spec data configuration :
  all_bytes data -> supplied_ok (supplied_type configuration) -> no_sniff configuration = true ->
  exists m, sniff data configuration = Ret m
    /\ match supplied_type configuration with
       | Some supplied => m = supplied \/ (is_unknown_essence supplied = true /\ is_scriptable m = false)
       | None => is_scriptable m = false
       end.
Proof.
  intros Hb Hs Hn. destruct (sniff_unfold data configuration Hs) as [flag ->]. rewrite Hn. apply computes_sniff.
  destruct (unknown_not_scriptable (take MAX_SNIFF_SIZE data)) as (m & Em & Hm & Hsc); [by apply take_bytes|].
  destruct (supplied_type configuration) as [supplied|] eqn:Esup.
  - destruct (sniffing_context configuration) eqn:Ec; try (eexists; split; [reflexivity|by left]);
      unfold context_specific_sniffing_algorithm, mime_type_sniffing_algorithm; cbn [m_supplied_mime_type m_no_sniff m_resource_header negb];
      (destruct (is_unknown_essence supplied) eqn:Eu;
        [rewrite (unknown_essence_plain supplied Hs Eu), Em; eexists; split; [reflexivity|by right]
        |destruct (_ || _); eexists; (split; [reflexivity|by left])]).
  - destruct (sniffing_context configuration) eqn:Ec; first
      [ apply (sniffed_unknown _ _ m); cbn [m_supplied_mime_type m_no_sniff]; done
      | apply context_computes; cbn [m_resource_header m_supplied_mime_type]; auto using take_bytes; discriminate ].
Qed.

End facts.

(** ** Properties *)

(** Sniffing byte data returns a well-formed MIME type in every context,
    for every well-formed supplied type, when scripts are not looked for or the
    first 1445 bytes leave room for the longest pattern of the script table
    behind their leading whitespace. *)
Theorem sniff_returns `{SimdutfLaws} (data : bytes) (configuration : SniffingConfiguration) (Hdata : all_bytes data)
    (Hsupplied : supplied_ok (supplied_type configuration))
    (Hroom : no_sniff configuration = true \/ sniffable (take MAX_SNIFF_SIZE data)) :
  exists m, sniff data configuration = Ret m /\ mime_ok m.
Proof. by apply sniff_returns_spec. Qed.

(** A page, in a context that may look for scripts *)
Definition example_page : bytes := sv "  <!DOCTYPE html><p>text</p>".
Definition example_sniffing : SniffingConfiguration :=
  {| sniffing_context := Context_Browsing; config_scheme := sv "https"; supplied_type := None; no_sniff := false |}.

Lemma sniff_returns_witness :
  exists m, sniff example_page example_sniffing = Ret m /\ essence m = sv "text/html" /\ mime_ok m.
Proof.
  destruct (sniff_returns example_page example_sniffing) as (m & E & Hok); [by repeat constructor|done|right; right; vm_compute; lia|].
  exists m. split; [exact E|]. split; [|exact Hok]. revert E. vm_compute. intros [= <-]. reflexivity.
Defined.

(** C27: under [nosniff] a supplied MIME type is the computed type whatever the
    data is, unless it is one of the three unknown types; and data of an unknown
    or absent type never gets a scriptable type. *)
Theorem nosniff_respected `{SimdutfLaws} (data : bytes) (configuration : SniffingConfiguration) (Hdata : all_bytes data)
    (Hsupplied : supplied_ok (supplied_type configuration)) (Hnosniff : no_sniff configuration = true) :
  exists m, sniff data configuration = Ret m
    /\ match supplied_type configuration with
       | Some supplied => m = supplied \/ (is_unknown_essence supplied = true /\ is_scriptable m = false)
       | None => is_scriptable m = false
       end.
Proof. by apply nosniff_spec. Qed.

Lemma nosniff_respected_witness :
  exists m, sniff example_page {| sniffing_context := Context_Browsing; config_scheme := sv "https"; supplied_type := None; no_sniff := true |} = Ret m
    /\ is_scriptable m = false.
Proof.
  exact (nosniff_respected example_page {| sniffing_context := Context_Browsing; config_scheme := sv "https"; supplied_type := None; no_sniff := true |}
    ltac:(by repeat constructor) I eq_refl).
Defined.

(** A resource of at least three bytes that begins with nothing but
    whitespace stops the process when it is sniffed for scripts: the pattern
    matcher checks the length of the input before it skips the ignored bytes and
    then reads behind the end. *)
Theorem sniff_whitespace_crashes `{SimdutfLaws} (data scheme : bytes) (context : SniffingContext)
    (Hdata : Forall (fun b => contains_char ignored_whitespace_bytes b = true) data) (Hlen : (3 <= length data)%nat)
    (Hcontext : context = Context_None \/ context = Context_Browsing) :
  sniff data {| sniffing_context := context; config_scheme := scheme; supplied_type := None; no_sniff := false |} = Crash.
Proof.
  destruct (sniff_unfold data {| sniffing_context := context; config_scheme := scheme; supplied_type := None; no_sniff := false |} I) as [flag ->].
  cbn [sniffing_context supplied_type no_sniff].
  assert (Hc : rules_for_identifying_an_unknown_mime_type (take MAX_SNIFF_SIZE data) true = Crash).
  { apply whitespace_crashes; [by apply Forall_take|]. rewrite length_take. unfold MAX_SNIFF_SIZE. lia. }
  destruct Hcontext as [-> | ->]; unfold context_specific_sniffing_algorithm, mime_type_sniffing_algorithm;
    cbn [m_supplied_mime_type m_no_sniff m_resource_header negb]; by rewrite Hc.
Qed.

Lemma sniff_whitespace_crashes_witness :
  sniff (sv "    ") example_sniffing = Crash.
Proof. apply (sniff_whitespace_crashes (sv "    ") (sv "https") Context_Browsing); [by repeat constructor|cbn; lia|by right]. Defined.
