(* ===== verification/HeaderListFacts.v ===== *)
(** * Header lists are ordered multimaps: theorems on [LibHTTP/HeaderList.cpp]
      and [Header.cpp]

    The abstract state of a header list is a map from lower-cased names to the
    list of their values; [represents] relates the two, every operation keeps
    it, and the names that match each other keep the same casing.  The table of
    seen names is the hash table of [HashTable], with the traits the code gives
    it, and the sort is that of [QuickSort]. *)

From S2P Require Import Prelude HashTable HashTableFacts InsertionSort QuickSort CharacterTypes Utf8 MemMem Strings Tokens Wtf8 CodeUnits Lexer TextCodec Decoders Http HttpFacts.
From stdpp Require Import sorting gmap.
Local Open Scope Z_scope.

(** ** Names up to case *)

Definition key (name : bytes) : bytes := to_ascii_lowercase <$> name.

Lemma equals_ignoring_case_key a b : equals_ignoring_ascii_case a b = true <-> key a = key b.
Proof.
  unfold equals_ignoring_ascii_case, key. destruct (Nat.eqb_spec (length a) (length b)) as [E|E]; cbn [negb].
  - revert b E. induction a as [|x a IH]; intros [|y b] E; try done. cbn [equals_ignoring_ascii_case_loop]. injection E as E.
    rewrite !fmap_cons. destruct (Z.eqb_spec (to_ascii_lowercase x) (to_ascii_lowercase y)) as [Ex|Ex]; cbn [negb].
    + rewrite IH by done. rewrite Ex. split; [by intros ->|by intros [= ->]].
    + split; [done|]. intros [= ? ?]. done.
  - split; [done|]. intros H. apply (f_equal length) in H. rewrite !length_fmap in H. done.
Qed.

Lemma names_match_key name header : names_match name header = bool_decide (key (header_name header) = key name).
Proof.
  unfold names_match. destruct (bool_decide _) eqn:E.
  - apply bool_decide_eq_true in E. by apply equals_ignoring_case_key.
  - apply bool_decide_eq_false in E. destruct (equals_ignoring_ascii_case _ _) eqn:H; [|done]. by apply equals_ignoring_case_key in H.
Qed.

Lemma key_idemp name : key (key name) = key name.
Proof. apply lowercase_idemp. Qed.

Lemma to_lowercase_key name : to_lowercase name = key name.
Proof.
  unfold to_lowercase, key. destruct (existsb is_ascii_upper_alpha name) eqn:E; cbn [negb]; [done|]. symmetry. apply lowercase_id.
  by apply existsb_false_forall.
Qed.

(** The traits are lawful: equal names have equal hashes. *)
Lemma hash_character_lower c : hash_character (to_ascii_lowercase c) = hash_character c.
Proof.
  unfold hash_character, to_ascii_lowercase, is_ascii_upper_alpha.
  destruct ((65 <=? c) && (c <=? 90)) eqn:E; [|by rewrite E].
  replace ((65 <=? c + 32) && (c + 32 <=? 90)) with false by lia. done.
Qed.

Lemma case_insensitive_hash_key a : case_insensitive_string_hash (key a) = case_insensitive_string_hash a.
Proof.
  unfold case_insensitive_string_hash, key. cbv zeta.
  assert (Hfold : forall h, fold_left (fun hash c =>
      let hash := u32 (hash + hash_character c) in
      let hash := u32 (hash + u32 (Z.shiftl hash 10)) in
      Z.lxor hash (Z.shiftr hash 6)) (to_ascii_lowercase <$> a) h
    = fold_left (fun hash c =>
      let hash := u32 (hash + hash_character c) in
      let hash := u32 (hash + u32 (Z.shiftl hash 10)) in
      Z.lxor hash (Z.shiftr hash 6)) a h).
  { induction a as [|c a IH]; intros h; [done|]. rewrite fmap_cons. cbn [fold_left]. rewrite IH. by rewrite hash_character_lower. }
  cbv zeta in Hfold. by rewrite Hfold.
Qed.

#[export] Instance case_insensitive_traits_laws : HashTraitsLaws bytes.
Proof.
  split; cbn [traits_equals traits_hash CaseInsensitiveASCIIStringTraits]; intros *; rewrite ?equals_ignoring_case_key.
  - done.
  - by intros ->.
  - by intros -> ->.
  - intros E. by rewrite <- (case_insensitive_hash_key x), E, case_insensitive_hash_key.
Qed.

(** ** The abstract multimap *)

Definition values_of (headers : HeaderList) (name : bytes) : list bytes :=
  header_value <$> List.filter (names_match name) headers.

Definition entry_of (values : list bytes) : option (list bytes) := match values with [] => None | _ => Some values end.

Definition represents (headers : HeaderList) (g : gmap bytes (list bytes)) : Prop :=
  forall name, g !! key name = entry_of (values_of headers name).

(** The NOTE of [append]: names that match are identical *)
Definition same_casing (headers : HeaderList) : Prop :=
  forall h1 h2, h1 ∈ headers -> h2 ∈ headers -> key (header_name h1) = key (header_name h2) -> header_name h1 = header_name h2.

(** The values of a name, one after the other *)
Definition combined (values : list bytes) : bytes :=
  match values with [] => [] | v :: values => v ++ (values ≫= fun w => sv ", " ++ w) end.

Inductive header_operation :=
| Op_append (header : Header)
| Op_delete (name : bytes)
| Op_set (header : Header)
| Op_combine (header : Header).

Definition apply_operation (headers : HeaderList) (op : header_operation) : HeaderList :=
  match op with
  | Op_append header => headers_append headers header
  | Op_delete name => headers_delete headers name
  | Op_set header => headers_set headers header
  | Op_combine header => headers_combine headers header
  end.

Definition abstract_operation (g : gmap bytes (list bytes)) (op : header_operation) : gmap bytes (list bytes) :=
  match op with
  | Op_append header =>
      let k := key (header_name header) in <[k := default [] (g !! k) ++ [header_value header]]> g
  | Op_delete name => delete (key name) g
  | Op_set header => <[key (header_name header) := [header_value header]]> g
  | Op_combine header =>
      let k := key (header_name header) in
      <[k := match default [] (g !! k) with
             | [] => [header_value header]
             | v :: values => (v ++ sv ", " ++ header_value header) :: values
             end]> g
  end.

Lemma values_of_app h1 h2 name : values_of (h1 ++ h2) name = values_of h1 name ++ values_of h2 name.
Proof. unfold values_of. by rewrite List.filter_app, fmap_app. Qed.

Lemma values_of_cons h headers name :
  values_of (h :: headers) name
  = if bool_decide (key (header_name h) = key name) then header_value h :: values_of headers name else values_of headers name.
Proof. unfold values_of. cbn [List.filter]. rewrite names_match_key. by destruct (bool_decide _). Qed.

Lemma values_of_key headers n1 n2 : key n1 = key n2 -> values_of headers n1 = values_of headers n2.
Proof.
  intros E. unfold values_of. f_equal. apply List.filter_ext. intros h. rewrite !names_match_key. by rewrite E.
Qed.

Lemma contains_values headers name : headers_contains headers name = true <-> values_of headers name <> [].
Proof.
  unfold headers_contains, values_of. induction headers as [|h headers IH]; [done|]. cbn [existsb List.filter].
  destruct (names_match name h); [done|]. exact IH.
Qed.

(** ** Each operation on the values *)

Lemma values_of_append headers header name :
  values_of (headers_append headers header) name
  = values_of headers name ++ (if bool_decide (key (header_name header) = key name) then [header_value header] else []).
Proof.
  unfold headers_append. rewrite values_of_app, values_of_cons. f_equal.
  destruct (List.find _ _) as [m|] eqn:E; [|done]. apply List.find_some in E as [_ E]. rewrite names_match_key in E.
  apply bool_decide_eq_true in E. cbn [header_name header_value]. by rewrite E.
Qed.

Lemma values_of_delete headers n name :
  values_of (headers_delete headers n) name = if bool_decide (key n = key name) then [] else values_of headers name.
Proof.
  induction headers as [|h headers IH]; [by destruct (bool_decide _)|]. cbn [headers_delete List.filter] in *.
  fold (headers_delete headers n) in *. rewrite names_match_key. rewrite (values_of_cons h headers).
  destruct (bool_decide (key (header_name h) = key n)) eqn:E; cbn [negb].
  - apply bool_decide_eq_true in E. rewrite IH, E. by destruct (bool_decide (key n = key name)).
  - apply bool_decide_eq_false in E. rewrite values_of_cons, IH.
    destruct (bool_decide (key n = key name)) eqn:E2; [|done]. apply bool_decide_eq_true in E2. rewrite <- E2.
    by rewrite bool_decide_eq_false_2.
Qed.

Lemma set_first_none headers header :
  set_first headers header = None <-> values_of headers (header_name header) = [].
Proof.
  induction headers as [|h headers IH]; [done|]. cbn [set_first]. rewrite values_of_cons, names_match_key.
  destruct (bool_decide _); [done|]. rewrite <- IH. by destruct (set_first headers header).
Qed.

Lemma values_of_set_first headers header headers' name :
  set_first headers header = Some headers' ->
  values_of headers' name = if bool_decide (key (header_name header) = key name) then [header_value header] else values_of headers name.
Proof.
  revert headers'. induction headers as [|h headers IH]; intros headers'; [done|]. cbn [set_first]. rewrite names_match_key.
  destruct (bool_decide (key (header_name h) = key (header_name header))) eqn:E.
  - apply bool_decide_eq_true in E. intros [= <-]. rewrite !values_of_cons. cbn [header_name header_value]. rewrite E.
    pose proof (values_of_delete headers (header_name h) name) as Hd. unfold headers_delete in Hd. rewrite Hd, E.
    by destruct (bool_decide _).
  - apply bool_decide_eq_false in E. destruct (set_first headers header) as [hs|]; [|done]. intros [= <-].
    rewrite !values_of_cons, (IH hs eq_refl). destruct (bool_decide (key (header_name header) = key name)) eqn:E2; [|done].
    apply bool_decide_eq_true in E2. rewrite <- E2. by rewrite bool_decide_eq_false_2.
Qed.

Lemma values_of_set headers header name :
  values_of (headers_set headers header) name
  = if bool_decide (key (header_name header) = key name) then [header_value header] else values_of headers name.
Proof.
  unfold headers_set. destruct (set_first headers header) as [hs|] eqn:E; [by apply values_of_set_first|].
  apply set_first_none in E. rewrite values_of_append. destruct (bool_decide _) eqn:Ek; [|by rewrite app_nil_r].
  apply bool_decide_eq_true in Ek. by rewrite <- (values_of_key headers _ _ Ek), E.
Qed.

Lemma combine_first_spec headers header :
  match combine_first headers header with
  | None => values_of headers (header_name header) = []
  | Some headers' => exists v values, values_of headers (header_name header) = v :: values
      /\ forall name, values_of headers' name
         = if bool_decide (key (header_name header) = key name) then (v ++ sv ", " ++ header_value header) :: values
           else values_of headers name
  end.
Proof.
  induction headers as [|h headers IH]; [done|]. cbn [combine_first]. rewrite names_match_key.
  destruct (bool_decide (key (header_name h) = key (header_name header))) eqn:E.
  - pose proof E as Ek. apply bool_decide_eq_true in Ek. exists (header_value h), (values_of headers (header_name header)).
    rewrite values_of_cons, E. split; [done|]. intros name. rewrite !values_of_cons. cbn [header_name header_value]. rewrite Ek.
    destruct (bool_decide (key (header_name header) = key name)) eqn:E2; [|done]. apply bool_decide_eq_true in E2.
    by rewrite (values_of_key headers _ _ E2).
  - destruct (combine_first headers header) as [hs|].
    + destruct IH as (v & values & Ev & Hs). exists v, values. rewrite values_of_cons, E. split; [done|]. intros name.
      rewrite !values_of_cons, Hs. destruct (bool_decide (key (header_name header) = key name)) eqn:E2; [|done].
      apply bool_decide_eq_true in E2. apply bool_decide_eq_false in E. rewrite <- E2. by rewrite bool_decide_eq_false_2.
    + by rewrite values_of_cons, E.
Qed.

Lemma values_of_combine headers header name :
  values_of (headers_combine headers header) name
  = if bool_decide (key (header_name header) = key name) then
      match values_of headers (header_name header) with
      | [] => [header_value header]
      | v :: values => (v ++ sv ", " ++ header_value header) :: values
      end
    else values_of headers name.
Proof.
  unfold headers_combine. pose proof (combine_first_spec headers header) as Hc. destruct (combine_first headers header) as [hs|].
  - destruct Hc as (v & values & -> & ->). done.
  - rewrite values_of_append, Hc. destruct (bool_decide _) eqn:Ek; [|by rewrite app_nil_r]. apply bool_decide_eq_true in Ek.
    by rewrite <- (values_of_key headers _ _ Ek), Hc.
Qed.

Lemma entry_default headers g name : represents headers g -> default [] (g !! key name) = values_of headers name.
Proof. intros Hr. rewrite (Hr name). by destruct (values_of headers name). Qed.

Lemma represents_insert headers headers' g name values :
  represents headers g -> values <> [] ->
  (forall n, values_of headers' n = if bool_decide (key name = key n) then values else values_of headers n) ->
  represents headers' (<[key name := values]> g).
Proof.
  intros Hr Hne Hv n. rewrite Hv. destruct (decide (key name = key n)) as [E|E].
  - rewrite bool_decide_eq_true_2, <- E, lookup_insert_eq by done. by destruct values.
  - rewrite bool_decide_eq_false_2, lookup_insert_ne by done. apply Hr.
Qed.

Lemma operation_represents headers g op :
  represents headers g -> represents (apply_operation headers op) (abstract_operation g op).
Proof.
  intros Hr. destruct op as [header|n|header|header]; cbn [apply_operation abstract_operation]; rewrite ?(entry_default headers) by done.
  - apply (represents_insert headers); [done|by destruct (values_of headers _)|]. intros name. rewrite values_of_append.
    destruct (bool_decide _) eqn:E; [|by rewrite app_nil_r]. apply bool_decide_eq_true in E. by rewrite (values_of_key headers _ _ E).
  - intros name. rewrite values_of_delete. destruct (decide (key n = key name)) as [E|E].
    + rewrite bool_decide_eq_true_2, <- E by done. apply lookup_delete_eq.
    + rewrite bool_decide_eq_false_2, lookup_delete_ne by done. apply Hr.
  - apply (represents_insert headers); [done|done|]. intros name. apply values_of_set.
  - apply (represents_insert headers); [done|by destruct (values_of headers _)|]. intros name. apply values_of_combine.
Qed.

(** ** Casing *)

Lemma same_casing_names headers headers' :
  (forall h, h ∈ headers' -> exists h0, h0 ∈ headers /\ header_name h0 = header_name h) -> same_casing headers -> same_casing headers'.
Proof.
  intros Hsub Hc h1 h2 H1 H2 E. destruct (Hsub h1 H1) as (a & Ha & Ea), (Hsub h2 H2) as (b & Hb & Eb).
  rewrite <- Ea, <- Eb in *. by apply Hc.
Qed.

Lemma same_casing_append headers header : same_casing headers -> same_casing (headers_append headers header).
Proof.
  intros Hc. unfold headers_append. destruct (List.find _ _) as [m|] eqn:E.
  - apply List.find_some in E as [Hm _]. apply list_elem_of_In in Hm. eapply same_casing_names; [|exact Hc]. intros h Hh.
    apply elem_of_app in Hh as [Hh|Hh]; [by exists h|]. apply list_elem_of_singleton in Hh as ->. by exists m.
  - assert (Hno : forall h, h ∈ headers -> key (header_name h) <> key (header_name header)).
    { intros h Hh Ek. apply list_elem_of_In in Hh. pose proof (List.find_none _ _ E h Hh) as Hn.
      rewrite names_match_key in Hn. by apply bool_decide_eq_false in Hn. }
    intros h1 h2 H1 H2 Ek. apply elem_of_app in H1 as [H1|H1], H2 as [H2|H2].
    + by apply Hc.
    + apply list_elem_of_singleton in H2 as ->. by apply Hno in Ek.
    + apply list_elem_of_singleton in H1 as ->. symmetry in Ek. by apply Hno in Ek.
    + apply list_elem_of_singleton in H1 as ->. by apply list_elem_of_singleton in H2 as ->.
Qed.

Lemma filter_elem (f : Header -> bool) headers h : h ∈ List.filter f headers -> h ∈ headers.
Proof. rewrite !list_elem_of_In. intros H. by apply List.filter_In in H as [H _]. Qed.

Lemma set_first_names headers header headers' h :
  set_first headers header = Some headers' -> h ∈ headers' -> exists h0, h0 ∈ headers /\ header_name h0 = header_name h.
Proof.
  revert headers'. induction headers as [|x headers IH]; intros headers'; [done|]. cbn [set_first]. destruct (names_match _ x).
  - intros [= <-] Hh. apply elem_of_cons in Hh as [-> |Hh]; [exists x; split; [by left|done]|].
    apply filter_elem in Hh. exists h. split; [by right|done].
  - destruct (set_first headers header) as [hs|]; [|done]. intros [= <-] Hh. apply elem_of_cons in Hh as [-> |Hh]; [exists x; split; [by left|done]|].
    destruct (IH hs eq_refl Hh) as (h0 & H0 & E). exists h0. split; [by right|done].
Qed.

Lemma combine_first_names headers header headers' h :
  combine_first headers header = Some headers' -> h ∈ headers' -> exists h0, h0 ∈ headers /\ header_name h0 = header_name h.
Proof.
  revert headers'. induction headers as [|x headers IH]; intros headers'; [done|]. cbn [combine_first]. destruct (names_match _ x).
  - intros [= <-] Hh. apply elem_of_cons in Hh as [-> |Hh]; [exists x; split; [by left|done]|]. exists h. split; [by right|done].
  - destruct (combine_first headers header) as [hs|]; [|done]. intros [= <-] Hh. apply elem_of_cons in Hh as [-> |Hh]; [exists x; split; [by left|done]|].
    destruct (IH hs eq_refl Hh) as (h0 & H0 & E). exists h0. split; [by right|done].
Qed.

Lemma operation_casing headers op : same_casing headers -> same_casing (apply_operation headers op).
Proof.
  intros Hc. destruct op as [header|n|header|header]; cbn [apply_operation].
  - by apply same_casing_append.
  - eapply same_casing_names; [|exact Hc]. intros h Hh. apply filter_elem in Hh. by exists h.
  - unfold headers_set. destruct (set_first headers header) as [hs|] eqn:E; [|by apply same_casing_append].
    eapply same_casing_names; [|exact Hc]. intros h Hh. by eapply set_first_names.
  - unfold headers_combine. destruct (combine_first headers header) as [hs|] eqn:E; [|by apply same_casing_append].
    eapply same_casing_names; [|exact Hc]. intros h Hh. by eapply combine_first_names.
Qed.

(** ** [get] *)

Lemma get_loop_spec headers name : forall builder first,
  get_loop headers name builder first
  = builder ++ (if first then combined (values_of headers name) else values_of headers name ≫= fun w => sv ", " ++ w).
Proof.
  induction headers as [|h headers IH]; intros builder first; [destruct first; cbn; by rewrite app_nil_r|]. cbn [get_loop].
  rewrite values_of_cons, names_match_key. destruct (bool_decide _); cbn [negb]; [|apply IH]. rewrite IH.
  destruct first; cbn [negb combined]; [by rewrite <- app_assoc|]. rewrite bind_cons. by rewrite <- !app_assoc.
Qed.

Lemma headers_get_spec headers name : headers_get headers name = combined <$> entry_of (values_of headers name).
Proof.
  unfold headers_get. pose proof (contains_values headers name) as Hc. destruct (headers_contains headers name); cbn [negb].
  - rewrite get_loop_spec. cbn [app]. by destruct (values_of headers name); [destruct Hc as [Hc _]; destruct (Hc eq_refl)|].
  - destruct (values_of headers name); [done|]. by destruct Hc as [_ Hc]; discriminate Hc.
Qed.

(** ** The names, without repetitions and sorted *)

(** The first name of each class, [seen] excluded *)
Fixpoint first_names (seen : list bytes) (names : list bytes) : list bytes :=
  match names with
  | [] => []
  | name :: names =>
      if bool_decide (key name ∈ key <$> seen) then first_names seen names else name :: first_names (name :: seen) names
  end.

Lemma first_names_length names : forall seen, (length (first_names seen names) <= length names)%nat.
Proof.
  induction names as [|name names IH]; intros seen; [done|]. cbn [first_names].
  destruct (bool_decide _); cbn [length]; [specialize (IH seen)|specialize (IH (name :: seen))]; lia.
Qed.

Section names.
Context `{AllocatorLaws}.

Lemma contains_value_spec (t : HashTable bytes) name :
  wf_table t -> contains_value t name = Ret (bool_decide (key name ∈ key <$> table_values t)).
Proof.
  intros Hwf. unfold contains_value. destruct (find_spec t name Hwf) as (o & -> & Hby). cbn [res_bind]. f_equal.
  destruct o as [i|]; symmetry; cbn [found_by] in Hby.
  - destruct Hby as (w & Hw & E). apply bool_decide_eq_true. apply equals_ignoring_case_key in E.
    apply list_elem_of_fmap. exists w. split; [done|]. apply values_of_elem. by exists i.
  - apply bool_decide_eq_false. intros Hin. apply list_elem_of_fmap in Hin as (w & E & Hw). rewrite Forall_forall in Hby.
    specialize (Hby w Hw). cbn in Hby. rewrite (proj2 (equals_ignoring_case_key w name)) in Hby; done.
Qed.

Lemma first_names_keys names : forall seen seen', key <$> seen ≡ₚ key <$> seen' -> first_names seen names = first_names seen' names.
Proof.
  induction names as [|name names IH]; intros seen seen' E; [done|]. cbn [first_names].
  rewrite (bool_decide_ext _ (key name ∈ key <$> seen')) by (by rewrite E).
  destruct (bool_decide _); [by apply IH|]. f_equal. apply IH. rewrite !fmap_cons. by rewrite E.
Qed.

Lemma unseen_names_spec keep names : forall t : HashTable bytes,
  wf_table t -> unseen_names keep t names = Ret (keep <$> first_names (table_values t) names).
Proof.
  induction names as [|name names IH]; intros t Hwf; [done|]. cbn [unseen_names first_names]. rewrite contains_value_spec by done.
  cbn [res_bind]. destruct (bool_decide _) eqn:E; [by apply IH|]. apply bool_decide_eq_false in E.
  destruct (table_set_spec t name ExistingEntry_Replace Hwf) as (r & t' & -> & Hwf' & Heff). cbn [res_bind].
  rewrite IH by done. cbn [res_bind]. rewrite fmap_cons. do 3 f_equal. apply first_names_keys.
  destruct Heff as [(_ & _ & Hp)|(w & rest & Ew & Hp & _)]; [by rewrite Hp|].
  exfalso. apply E. apply equals_ignoring_case_key in Ew. rewrite Hp. rewrite fmap_cons, Ew. by left.
Qed.

Lemma first_names_spec names : forall seen,
  NoDup (key <$> first_names seen names)
  /\ forall k, k ∈ key <$> first_names seen names <-> k ∈ key <$> names /\ k ∉ key <$> seen.
Proof.
  induction names as [|name names IH]; intros seen; cbn [first_names].
  { split; [constructor|]. intros k. split; [by intros ?%elem_of_nil|]. by intros [?%elem_of_nil _]. }
  destruct (bool_decide _) eqn:E.
  - apply bool_decide_eq_true in E. destruct (IH seen) as [Hd Hin]. split; [done|]. intros k. rewrite Hin, fmap_cons, elem_of_cons.
    split; [tauto|]. intros [[-> | ?] ?]; tauto.
  - apply bool_decide_eq_false in E. destruct (IH (name :: seen)) as [Hd Hin]. rewrite !fmap_cons in *. split.
    + constructor; [|done]. rewrite Hin. intros [_ Hn]. apply Hn. by left.
    + intros k. rewrite !elem_of_cons, Hin, elem_of_cons. split.
      * intros [-> |[? ?]]; tauto.
      * intros [[-> |?] ?]; [by left|]. destruct (decide (k = key name)); tauto.
Qed.

Lemma convert_names_spec names :
  Z.of_nat (length names) < 2 ^ 31 ->
  exists sorted, convert_header_names_to_a_sorted_lowercase_set names = Ret sorted
    /\ StronglySorted (fun a b => lex_lt a b = true) sorted
    /\ forall k, k ∈ sorted <-> k ∈ key <$> names.
Proof.
  intros Hint. unfold convert_header_names_to_a_sorted_lowercase_set. rewrite unseen_names_spec by apply empty_table_wf. cbn [res_bind].
  destruct (first_names_spec names (table_values empty_table)) as [Hd Hin].
  assert (El : forall l, to_lowercase <$> l = key <$> l) by (intros l; apply list_fmap_ext; intros i x _; apply to_lowercase_key).
  rewrite El. destruct (quick_sort_spec (fun a b => Ret (sv_compare a b <? 0)) lex_lt (fun _ => True)
    ltac:(intros a b _ _; cbn beta; by rewrite sv_compare_lex) ltac:(intros a b _ _; apply lex_lt_asym)
    ltac:(intros a b d _ _ _; apply lex_lt_trans) (key <$> first_names (table_values empty_table) names)
    ltac:(rewrite length_fmap; pose proof (first_names_length names (table_values empty_table)); lia) ltac:(by apply Forall_true))
    as (sorted & -> & Hp & Hs).
  exists sorted. split; [done|]. rewrite <- Hp in Hd. split.
  - clear - Hd Hs. induction Hs as [|x l Hs IH Hx]; [constructor|]. apply NoDup_cons in Hd as [Hn Hd]. constructor; [by apply IH|].
    rewrite Forall_forall in *. intros y Hy. specialize (Hx y Hy). unfold QuickSort.le in Hx. destruct (lex_lt x y) eqn:E; [done|].
    apply lex_lt_total in E; [|done]. by subst.
  - intros k. rewrite Hp, Hin. split; [tauto|]. intros ?. split; [done|]. by intros ?%elem_of_nil.
Qed.

(** ** [sort_and_combine] *)

(** The headers of a lower-case name *)
Definition combined_headers (headers : HeaderList) (name : bytes) : list Header :=
  if sv_eqb name (sv "set-cookie")
  then (fun value => {| header_name := name; header_value := value |}) <$> values_of headers name
  else [{| header_name := name; header_value := combined (values_of headers name) |}].

Lemma combine_names_spec headers names :
  Forall (fun name => values_of headers name <> []) names ->
  combine_names headers names = Ret (names ≫= combined_headers headers).
Proof.
  induction 1 as [|name names Hn Hns IH]; [done|]. cbn [combine_names]. rewrite bind_cons. unfold combined_headers at 1.
  destruct (sv_eqb name _).
  - cbn [res_bind]. rewrite IH. cbn [res_bind]. unfold values_of. by rewrite <- list_fmap_compose.
  - rewrite headers_get_spec. destruct (values_of headers name) as [|v vs]; [done|]. cbn [entry_of fmap option_fmap option_map unwrap res_bind].
    rewrite IH. done.
Qed.

Lemma name_values headers name : name ∈ key <$> (header_name <$> headers) -> values_of headers name <> [].
Proof.
  intros Hin. apply list_elem_of_fmap in Hin as (n & -> & Hn). apply list_elem_of_fmap in Hn as (h & -> & Hh).
  apply contains_values. unfold headers_contains. apply existsb_exists. exists h. split; [by apply list_elem_of_In|].
  rewrite names_match_key. apply bool_decide_eq_true. by rewrite key_idemp.
Qed.

Lemma sort_and_combine_spec headers :
  Z.of_nat (length headers) < 2 ^ 31 ->
  exists names, sort_and_combine headers = Ret (names ≫= combined_headers headers)
    /\ StronglySorted (fun a b => lex_lt a b = true) names
    /\ forall k, k ∈ names <-> k ∈ key <$> (header_name <$> headers).
Proof.
  intros Hint. unfold sort_and_combine. destruct (convert_names_spec (header_name <$> headers)) as (names & -> & Hs & Hin); [by rewrite length_fmap|]. cbn [res_bind].
  exists names. split; [|done]. apply combine_names_spec. apply Forall_forall. intros name Hn. apply name_values. by apply Hin.
Qed.

End names.

(** ** Numbers in headers *)

Section numbers.
Context `{FastFloatLaws}.

(** [parse_number] accepts exactly the non-empty strings of digits that fit. *)
Definition decimal (max : Z) (s : bytes) : option Z :=
  if negb (sv_is_empty s) && forallb is_ascii_digit s && (digits_value 10 s <=? max) then Some (digits_value 10 s) else None.

Lemma parse_number_decimal max s : parse_number max s 10 = decimal max s.
Proof.
  unfold parse_number, parse_first_number, decimal.
  pose proof (take_drop_while is_ascii_digit s) as E. pose proof (take_while_forall is_ascii_digit s) as Ht.
  pose proof (drop_while_head is_ascii_digit s) as Hd. set (d := take_while is_ascii_digit s) in *.
  set (r := drop_while is_ascii_digit s) in *. clearbody d r. subst s.
  rewrite from_chars_prefix; [|by right; left|by apply forallb_Forall_iff|by destruct r].
  destruct d as [|c d]; cbn [sv_is_empty].
  { cbn [app]. destruct r as [|c r]; [done|]. cbn. by rewrite Hd. }
  replace (sv_is_empty ((c :: d) ++ r)) with false by done.
  rewrite forallb_app. rewrite (proj2 (forallb_Forall_iff _ _) Ht). cbn [andb negb]. destruct r as [|e r].
  - rewrite app_nil_r. cbn [forallb]. destruct (_ <=? _); [|done]. by rewrite Nat.eqb_refl.
  - cbn [forallb]. rewrite Hd. cbn [andb]. destruct (_ <=? _); [|done]. rewrite (proj2 (Nat.eqb_neq _ _)); [done|].
    cbn [length]. rewrite length_app. cbn [length]. lia.
Qed.

Lemma to_number_digits max s : Forall (fun c => is_ascii_digit c = true) s -> to_number max s = decimal max s.
Proof.
  intros Hs. unfold to_number. rewrite trim_whitespace_id; [apply parse_number_decimal|]. eapply Forall_impl; [exact Hs|].
  intros c Hc. unfold is_ascii_digit in Hc. unfold contains_char, whitespace_characters. cbn [existsb]. lia.
Qed.

(** ** [parse_single_range_header_value] *)

Definition range_of (start end_ : option Z) : option RangeHeaderValue :=
  match start, end_ with
  | None, None => None
  | Some s, Some e => if e <? s then None else Some {| range_from := start; range_to := end_ |}
  | _, _ => Some {| range_from := start; range_to := end_ |}
  end.

Lemma isomorphic_decode_ascii s : Forall (fun b => 0 <= b < 128) s -> isomorphic_decode s = s.
Proof.
  intros Hs. unfold isomorphic_decode. rewrite isomorphic_decode_encoded.
  - cbn [app]. induction Hs as [|b s Hb Hs IH]; [done|]. rewrite utf8_encode_cons, IH by lia. unfold encoded.
    by rewrite (proj2 (Z.leb_le _ _)) by lia.
  - eapply Forall_impl; [exact Hs|]. unfold is_byte. intros b Hb. cbn in *. lia.
Qed.

Lemma skip_no_space (allow_whitespace : bool) a b :
  match b with c :: _ => is_http_tab_or_space c = false | [] => True end ->
  (if allow_whitespace then let* (_, lexer) := consume_while (at_pos a b) is_http_tab_or_space in Ret lexer else Ret (at_pos a b))
  = Ret (at_pos a b).
Proof.
  intros Hb. destruct allow_whitespace; [|done]. rewrite consume_while_pos. cbn [res_bind].
  destruct (take_while_app is_http_tab_or_space [] b ltac:(constructor) Hb) as [E1 E2]. cbn [app] in E1, E2. by rewrite E1, E2, app_nil_r.
Qed.

Lemma range_spec (allow_whitespace : bool) d1 d2 :
  Forall (fun c => is_ascii_digit c = true) d1 -> Forall (fun c => is_ascii_digit c = true) d2 ->
  parse_single_range_header_value (sv "bytes=" ++ d1 ++ [ch "-"] ++ d2) allow_whitespace
  = Ret (range_of (decimal (2 ^ 64 - 1) d1) (decimal (2 ^ 64 - 1) d2)).
Proof.
  intros H1 H2. assert (Hdigit : forall d, Forall (fun c => is_ascii_digit c = true) d -> Forall (fun b => 0 <= b < 128) d).
  { intros d Hd. eapply Forall_impl; [exact Hd|]. unfold is_ascii_digit. intros c Hc. cbn in Hc. lia. }
  assert (Hspace : forall d rest, Forall (fun c => is_ascii_digit c = true) d ->
    match rest with c :: _ => is_http_tab_or_space c = false | [] => True end ->
    match d ++ rest with c :: _ => is_http_tab_or_space c = false | [] => True end).
  { intros d rest Hd Hr. destruct Hd as [|c d Hc _]; [done|]. cbn. unfold is_ascii_digit, is_http_tab_or_space in *. lia. }
  unfold parse_single_range_header_value. rewrite isomorphic_decode_ascii.
  2:{ repeat apply Forall_app_2; [by repeat constructor|by apply Hdigit|by repeat constructor|by apply Hdigit]. }
  cbv zeta. replace (starts_with _ _ _) with true by (symmetry; reflexivity). cbn [negb]. rewrite lexer_for_pos.
  change (sv "bytes=" ++ d1 ++ [45] ++ d2) with (sv "bytes" ++ 61 :: d1 ++ 45 :: d2).
  pose proof (ignore_pos [] (sv "bytes") (61 :: d1 ++ 45 :: d2)) as Hi. cbn [length] in Hi. rewrite Hi. clear Hi.
  rewrite skip_no_space by done. cbn [res_bind]. rewrite consume_specific_pos, Z.eqb_refl. cbn [negb].
  rewrite skip_no_space by (by apply Hspace). cbn [res_bind]. rewrite consume_while_pos.
  destruct (take_while_app is_ascii_digit d1 (45 :: d2) H1) as [-> ->]; [done|]. cbn [res_bind].
  rewrite skip_no_space by done. cbn [res_bind]. rewrite consume_specific_pos, Z.eqb_refl. cbn [negb].
  rewrite skip_no_space by (rewrite <- (app_nil_r d2); by apply Hspace). cbn [res_bind]. rewrite consume_while_pos.
  destruct (take_while_app is_ascii_digit d2 [] H2) as [E1 E2]; [done|]. rewrite app_nil_r in E1, E2. rewrite E1, E2. cbn [res_bind].
  rewrite is_eof_pos. cbn [sv_is_empty negb]. rewrite !to_number_digits by done. unfold range_of.
  destruct (decimal _ d1), (decimal _ d2); try done. by destruct (_ <? _).
Qed.

(** ** [extract_length] *)

Lemma split_values_nonempty state current s : split_values state current s <> [].
Proof.
  revert state current. induction s as [|c s IH]; intros state current; [done|]. destruct state; cbn [split_values]; [|apply IH..].
  destruct (c =? 44); [done|]. destruct (c =? 34); apply IH.
Qed.

Lemma candidate_loop_spec v values :
  candidate_loop (Some v) values = if bool_decide (Forall (fun w => w = v) values) then Some (Some v) else None.
Proof.
  induction values as [|w values IH]; [done|]. cbn [candidate_loop]. destruct (decide (v = w)) as [<-|Hne].
  - rewrite sv_eqb_refl. cbn [negb]. rewrite IH. rewrite (bool_decide_ext (Forall _ (v :: values)) (Forall (fun w => w = v) values)); [done|].
    rewrite Forall_cons. tauto.
  - rewrite sv_eqb_false by done. cbn [negb]. rewrite bool_decide_eq_false_2; [done|]. rewrite Forall_cons. intros [E _]. by subst.
Qed.

Definition headers_bytes (headers : HeaderList) : Prop := Forall (fun h => all_bytes (header_value h)) headers.

Lemma values_bytes headers name : headers_bytes headers -> Forall (fun v => all_bytes v) (values_of headers name).
Proof.
  intros Hh. unfold values_of. apply Forall_fmap. apply Forall_forall. intros h Hin. apply filter_elem in Hin.
  unfold headers_bytes in Hh. rewrite Forall_forall in Hh. by apply Hh.
Qed.

Lemma combined_bytes values : Forall (fun v => all_bytes v) values -> all_bytes (combined values).
Proof.
  intros Hv. destruct Hv as [|v values Hv Hvs]; [done|]. cbn [combined]. apply Forall_app. split; [done|].
  induction Hvs as [|w values Hw Hvs IH]; [done|]. rewrite bind_cons. apply Forall_app. split; [|done].
  apply Forall_app. split; [by repeat constructor|done].
Qed.

Context `{SimdutfLaws}.

Lemma get_decode_split_headers headers name : headers_bytes headers ->
  headers_get_decode_and_split headers name
  = Ret ((fun values => split_values Outside [] (isomorphic_decode (combined values))) <$> entry_of (values_of headers name)).
Proof.
  intros Hb. unfold headers_get_decode_and_split. rewrite headers_get_spec. pose proof (values_bytes headers name Hb) as Hv.
  apply combined_bytes in Hv. destruct (values_of headers name) as [|v vs]; [done|]. cbn [entry_of fmap option_fmap option_map].
  by rewrite get_decode_and_split_spec.
Qed.

(** The length that a list of values stands for *)
Definition length_of (values : list bytes) : ExtractedLength :=
  match values with
  | [] => Length_Empty
  | v :: values =>
      if bool_decide (Forall (fun w => w = v) values)
      then match decimal (2 ^ 64 - 1) v with Some n => Length_Value n | None => Length_Empty end
      else Length_Failure
  end.

Lemma extract_length_spec headers : headers_bytes headers ->
  extract_length headers
  = Ret (match values_of headers (sv "Content-Length") with
         | [] => Length_Empty
         | values => length_of (split_values Outside [] (isomorphic_decode (combined values)))
         end).
Proof.
  intros Hb. unfold extract_length. rewrite get_decode_split_headers by done. cbn [res_bind].
  destruct (values_of headers _) as [|v vs]; [done|]. cbn [entry_of fmap option_fmap option_map].
  pose proof (split_values_nonempty Outside [] (isomorphic_decode (combined (v :: vs)))) as Hne.
  destruct (split_values _ _ _) as [|w ws]; [done|]. cbn [candidate_loop length_of]. rewrite candidate_loop_spec.
  destruct (bool_decide _); [|done]. cbn [unwrap res_bind]. rewrite parse_number_decimal. by destruct (decimal _ _).
Qed.

End numbers.

(** ** Properties *)

(** C26: a header list is an ordered multimap from names, up to ASCII case, to
    values.  After any sequence of [append], [delete], [set] and [combine] from
    an empty list the values of every name are those of the multimap, in order;
    [contains] and [get] answer from it, with the values joined by a comma and a
    space; and headers whose names match have the same casing. *)
Theorem header_list_refines (ops : list header_operation) :
  let headers := fold_left apply_operation ops [] in
  let g := fold_left abstract_operation ops ∅ in
  represents headers g /\ same_casing headers
  /\ forall name, headers_contains headers name = bool_decide (is_Some (g !! key name))
       /\ headers_get headers name = combined <$> g !! key name.
Proof.
  cbv zeta. assert (Hrun : forall headers g, represents headers g -> same_casing headers ->
    represents (fold_left apply_operation ops headers) (fold_left abstract_operation ops g)
    /\ same_casing (fold_left apply_operation ops headers)).
  { induction ops as [|op ops IH]; intros headers g Hr Hc; [done|]. cbn [fold_left].
    apply IH; [by apply operation_represents|by apply operation_casing]. }
  destruct (Hrun [] ∅) as [Hr Hc]; [intros name; apply lookup_empty|by intros h1 h2 H1%elem_of_nil|].
  set (headers := fold_left apply_operation ops []) in *. split; [done|]. split; [done|]. intros name. rewrite (Hr name). split.
  - pose proof (contains_values headers name) as Hv. destruct (headers_contains headers name), (values_of headers name); cbn [entry_of].
    + by destruct Hv as [Hv _]; destruct (Hv eq_refl).
    + by rewrite bool_decide_eq_true_2.
    + by rewrite bool_decide_eq_false_2 by (intros [? [=]]).
    + by destruct Hv as [_ Hv]; discriminate Hv.
  - apply headers_get_spec.
Qed.

(** [sort_and_combine] never fails its check and returns the headers with
    lower-case names in strictly ascending byte order, each name of the list
    once with its values combined, except that every value of set-cookie has a
    header of its own; the names are collected with the case-insensitive hash
    table and sorted with the dual-pivot quick sort, whose indices are [int]s. *)
Theorem sort_and_combine_correct `{AllocatorLaws} (headers : HeaderList) (Hint : Z.of_nat (length headers) < 2 ^ 31) :
  exists names, sort_and_combine headers = Ret (names ≫= combined_headers headers)
    /\ StronglySorted (fun a b => sv_compare a b < 0) names
    /\ forall k, k ∈ names <-> k ∈ key <$> (header_name <$> headers).
Proof.
  destruct (sort_and_combine_spec headers Hint) as (names & E & Hs & Hin). exists names. split; [done|]. split; [|done].
  clear - Hs. induction Hs as [|x l Hs IH Hx]; constructor; [done|]. eapply Forall_impl; [exact Hx|]. intros y Hy. cbn in Hy.
  rewrite <- sv_compare_lex in Hy. lia.
Qed.

(** Two cookies, and a name in two casings *)
Definition example_headers : HeaderList :=
  [{| header_name := sv "Set-Cookie"; header_value := sv "a=1" |};
   {| header_name := sv "Accept"; header_value := sv "text/html" |};
   {| header_name := sv "set-cookie"; header_value := sv "b=2" |};
   {| header_name := sv "ACCEPT"; header_value := sv "*/*" |}].

Lemma sort_and_combine_correct_witness :
  exists names, @sort_and_combine CollidingNumbers.allocator example_headers = Ret (names ≫= combined_headers example_headers)
    /\ @sort_and_combine CollidingNumbers.allocator example_headers
       = Ret [{| header_name := sv "accept"; header_value := sv "text/html, */*" |};
              {| header_name := sv "set-cookie"; header_value := sv "a=1" |};
              {| header_name := sv "set-cookie"; header_value := sv "b=2" |}].
Proof.
  destruct (@sort_and_combine_correct CollidingNumbers.allocator CollidingNumbers.allocator_laws example_headers) as (names & E & _);
    [vm_compute; reflexivity|].
  exists names. split; [exact E|]. vm_compute. reflexivity.
Defined.

Lemma split_values_parts s : forall state current,
  exists parts, split_values state current s = trim_value <$> parts /\ Strings.join (ch ",") parts = current ++ s /\ parts <> [].
Proof.
  induction s as [|c s IH]; intros state current; cbn [split_values].
  { exists [current]. by rewrite app_nil_r. }
  assert (Hnext : forall st, exists parts, split_values st (current ++ [c]) s = trim_value <$> parts
    /\ Strings.join 44 parts = current ++ c :: s /\ parts <> []).
  { intros st. destruct (IH st (current ++ [c])) as (parts & E & Ej & Hne). exists parts. by rewrite <- app_assoc in Ej. }
  destruct state; try (repeat case_match; apply Hnext). destruct (Z.eqb_spec c 44) as [->|]; [|destruct (c =? 34); apply Hnext].
  destruct (IH Outside []) as (parts & -> & Ej & Hne). exists (current :: parts). split; [done|]. split; [|done].
  cbn [app] in Ej. destruct parts as [|p parts]; [done|]. cbn [Strings.join] in *. by rewrite Ej.
Qed.

(** C29: a header value is split at the commas outside of quoted strings.  For
    every byte string the result is that of the one-pass state machine, whose
    quoted strings may contain commas and escaped quotes; the values are the
    trimmed parts of the decoded text between those commas, and none of the
    UTF-8 checks on the pieces can fail. *)
Theorem get_decode_and_split_correct `{SimdutfLaws} (value : bytes) (Hvalue : all_bytes value) :
  get_decode_and_split_header_value value = Ret (split_values Outside [] (isomorphic_decode value))
  /\ exists parts, split_values Outside [] (isomorphic_decode value) = trim_value <$> parts
       /\ Strings.join (ch ",") parts = isomorphic_decode value.
Proof.
  split; [by apply get_decode_and_split_spec|].
  destruct (split_values_parts (isomorphic_decode value) Outside []) as (parts & E & Ej & _). by exists parts.
Qed.

Lemma get_decode_and_split_correct_witness :
  get_decode_and_split_header_value (sv "a, " ++ [34] ++ sv "b,\" ++ [34] ++ sv "c" ++ [34] ++ sv " ," ++ [0xE9])
  = Ret [sv "a"; [34] ++ sv "b,\" ++ [34] ++ sv "c" ++ [34]; [0xC3; 0xA9]].
Proof.
  refine (eq_trans (proj1 (get_decode_and_split_correct _ _)) _); [by repeat constructor|vm_compute; reflexivity].
Defined.

(** The length of a response.  [extract_length] never fails its checks and
    is exactly the standard's: nothing without a Content-Length, a failure when
    the values differ, otherwise the decimal value, or nothing when it is not a
    non-empty string of digits below 2^64. *)
Theorem extract_length_correct `{FastFloatLaws, SimdutfLaws} (headers : HeaderList) (Hheaders : headers_bytes headers) :
  extract_length headers
  = Ret (match values_of headers (sv "Content-Length") with
         | [] => Length_Empty
         | values => length_of (split_values Outside [] (isomorphic_decode (combined values)))
         end).
Proof. by apply extract_length_spec. Qed.

Lemma extract_length_correct_witness :
  extract_length [{| header_name := sv "content-length"; header_value := sv "12" |};
                  {| header_name := sv "Content-Length"; header_value := sv " 12 , 12" |}] = Ret (Length_Value 12)
  /\ extract_length [{| header_name := sv "content-length"; header_value := sv "12, 13" |}] = Ret Length_Failure.
Proof.
  split; (rewrite extract_length_correct; [vm_compute; reflexivity|by repeat constructor]).
Defined.

(** A range header of the form [bytes=first-last].  For digit strings the
    result is their numbers, an absent one where a string is empty, and a
    failure when both are absent or the first exceeds the last; in particular
    every range of 64-bit numbers that is printed is read back. *)
Theorem range_header_correct `{FastFloatLaws} (allow_whitespace : bool) (first last : Z)
    (Hrange : 0 <= first <= last) (Hlast : last < 2 ^ 64) :
  (exists f l, format_decimal first = Ret f /\ format_decimal last = Ret l
     /\ parse_single_range_header_value (sv "bytes=" ++ f ++ [ch "-"] ++ l) allow_whitespace
        = Ret (Some {| range_from := Some first; range_to := Some last |}))
  /\ forall d1 d2, Forall (fun c => is_ascii_digit c = true) d1 -> Forall (fun c => is_ascii_digit c = true) d2 ->
       parse_single_range_header_value (sv "bytes=" ++ d1 ++ [ch "-"] ++ d2) allow_whitespace
       = Ret (range_of (decimal (2 ^ 64 - 1) d1) (decimal (2 ^ 64 - 1) d2)).
Proof.
  split; [|intros d1 d2 H1 H2; by apply range_spec].
  assert (Hprint : forall n, 0 <= n < 2 ^ 64 -> exists s, format_decimal n = Ret s /\ Forall (fun c => is_ascii_digit c = true) s
    /\ decimal (2 ^ 64 - 1) s = Some n).
  { intros n Hn. destruct (format_decimal_prints n Hn) as (s & E & Hs). exists s. destruct Hs as (Hne & Hd & Hv & _).
    split; [done|]. split; [by apply forallb_Forall_iff|]. unfold decimal. rewrite Hv.
    replace (forallb is_ascii_digit s) with true by (symmetry; exact Hd). destruct s; [done|]. cbn [sv_is_empty negb andb].
    by rewrite (proj2 (Z.leb_le _ _)) by lia. }
  destruct (Hprint first ltac:(lia)) as (f & Ef & Hf & Df), (Hprint last ltac:(lia)) as (l & El & Hl & Dl). exists f, l.
  split; [done|]. split; [done|]. rewrite range_spec by done. rewrite Df, Dl. unfold range_of. by rewrite (proj2 (Z.ltb_ge _ _)) by lia.
Qed.

Lemma range_header_correct_witness :
  parse_single_range_header_value (sv "bytes=100-200") true = Ret (Some {| range_from := Some 100; range_to := Some 200 |})
  /\ parse_single_range_header_value (sv "bytes=-200") false = Ret (Some {| range_from := None; range_to := Some 200 |}).
Proof.
  split.
  - destruct (range_header_correct true 100 200 ltac:(lia) ltac:(lia)) as [(f & l & Ef & El & E) _].
    vm_compute in Ef, El. injection Ef as <-. injection El as <-. exact E.
  - exact (proj2 (range_header_correct false 100 200 ltac:(lia) ltac:(lia)) [] (sv "200") ltac:(constructor) ltac:(by repeat constructor)).
Defined.

(** A first number that does not fit 64 bits counts as absent, so the range
    asks for the end of the resource instead of failing. *)
Theorem range_start_overflow `{FastFloatLaws} (allow_whitespace : bool) (d1 d2 : bytes)
    (Hd1 : Forall (fun c => is_ascii_digit c = true) d1) (Hd2 : Forall (fun c => is_ascii_digit c = true) d2)
    (Hbig : 2 ^ 64 <= digits_value 10 d1) (Hne : d2 <> []) (Hsmall : digits_value 10 d2 < 2 ^ 64) :
  parse_single_range_header_value (sv "bytes=" ++ d1 ++ [ch "-"] ++ d2) allow_whitespace
  = Ret (Some {| range_from := None; range_to := Some (digits_value 10 d2) |}).
Proof.
  rewrite range_spec by done. unfold decimal. rewrite (proj2 (Z.leb_gt _ _)) by lia. rewrite andb_false_r.
  rewrite (proj2 (forallb_Forall_iff _ _) Hd2), (proj2 (Z.leb_le _ _)) by lia. by destruct d2.
Qed.

Lemma range_start_overflow_witness :
  parse_single_range_header_value (sv "bytes=99999999999999999999-5") false
  = Ret (Some {| range_from := None; range_to := Some 5 |}).
Proof. exact (range_start_overflow false (sv "99999999999999999999") (sv "5") ltac:(by repeat constructor) ltac:(by repeat constructor) ltac:(done) ltac:(done) ltac:(done)). Defined.
