(* ===== verification/Percent.v ===== *)
(** * Percent-encoding: [LibURL/URL.cpp] and
      [Parser::percent_encode_after_encoding] of [LibURL/Parser.cpp]

    A [StringBuilder] argument is threaded as the list of bytes written so far. *)

From S2P Require Import Prelude CharacterTypes Utf8 Strings TextCodec.

(** ** Percent-encode sets *)

Inductive PercentEncodeSet :=
| C0Control | Fragment | Query | SpecialQuery | Path | Userinfo | Component
| ApplicationXWWWFormUrlencoded | EncodeURI.

#[export] Instance PercentEncodeSet_eq_dec : EqDecision PercentEncodeSet.
Proof. solve_decision. Defined.

(** The recursive calls of the C++ function go down the chain of sets. *)
Definition code_point_is_in_percent_encode_set (code_point : Z) (set : PercentEncodeSet) : bool :=
  let c := u8 code_point in
  let c0_control := (code_point <? 0x20) || (0x7E <? code_point) in
  let fragment := c0_control || contains_char [32; 34; ch "<"; ch ">"; ch "`"] c in
  let query := c0_control || contains_char [32; 34; ch "#"; ch "<"; ch ">"] c in
  let special_query := query || (code_point =? ch "'") in
  let path := query || contains_char (sv "?^`{}") c in
  let userinfo := path || contains_char (sv "/:;=@[\]|") c in
  let component := userinfo || contains_char (sv "$%&+,") c in
  match set with
  | C0Control => c0_control
  | Fragment => fragment
  | Query => query
  | SpecialQuery => special_query
  | Path => path
  | Userinfo => userinfo
  | Component => component
  | ApplicationXWWWFormUrlencoded => component || contains_char (sv "!'()~") c
  | EncodeURI =>
      (0x7E <? code_point)
      || (negb (is_ascii_alphanumeric code_point)
          && negb (contains_char (sv ";,/?:@&=+$-_.!~*'()#") c))
  end.

(** ** Encoding *)

(** [builder.appendff("%{:02X}", byte)] *)
Definition append_percent_byte (builder : bytes) (byte : Z) : res bytes :=
  let* digits := format_02X byte in Ret (builder ++ ch "%" :: digits).

Definition append_percent_encoded (builder : bytes) (code_point : Z) : res bytes :=
  if code_point <=? 0x7f then
    append_percent_byte builder code_point
  else if code_point <=? 0x07ff then
    let* builder := append_percent_byte builder (Z.lor (Z.land (Z.shiftr code_point 6) 0x1f) 0xc0) in
    append_percent_byte builder (Z.lor (Z.land code_point 0x3f) 0x80)
  else if code_point <=? 0xffff then
    let* builder := append_percent_byte builder (Z.lor (Z.land (Z.shiftr code_point 12) 0x0f) 0xe0) in
    let* builder := append_percent_byte builder (Z.lor (Z.land (Z.shiftr code_point 6) 0x3f) 0x80) in
    append_percent_byte builder (Z.lor (Z.land code_point 0x3f) 0x80)
  else if code_point <=? 0x10ffff then
    let* builder := append_percent_byte builder (Z.lor (Z.land (Z.shiftr code_point 18) 0x07) 0xf0) in
    let* builder := append_percent_byte builder (Z.lor (Z.land (Z.shiftr code_point 12) 0x3f) 0x80) in
    let* builder := append_percent_byte builder (Z.lor (Z.land (Z.shiftr code_point 6) 0x3f) 0x80) in
    append_percent_byte builder (Z.lor (Z.land code_point 0x3f) 0x80)
  else Crash.

Definition append_percent_encoded_if_necessary (builder : bytes) (code_point : Z)
    (set : PercentEncodeSet) : res bytes :=
  if code_point_is_in_percent_encode_set code_point set
  then append_percent_encoded builder code_point
  else Ret (append_code_point builder code_point).

(** A range-[for] whose body can stop the process. *)
Fixpoint foldM {A B} (f : A -> B -> res A) (l : list B) (a : A) : res A :=
  match l with [] => Ret a | b :: l => let* a := f a b in foldM f l a end.

Definition percent_encode (input : bytes) (set : PercentEncodeSet) (space_as_plus : bool)
    : res bytes :=
  foldM (fun builder code_point =>
    if space_as_plus && (code_point =? 32) then Ret (builder ++ [ch "+"])
    else append_percent_encoded_if_necessary builder code_point set)
    (code_points input) [].

(** ** Decoding *)

Fixpoint percent_decode_loop (input : bytes) (builder : bytes) : res bytes :=
  match input with
  | [] => Ret builder
  | byte :: rest =>
      if negb (byte =? ch "%") then percent_decode_loop rest (builder ++ [byte])
      else
        match rest with
        | h1 :: h2 :: rest' =>
            if negb (is_ascii_hex_digit h1) || negb (is_ascii_hex_digit h2)
            then percent_decode_loop rest (builder ++ [byte])
            else
              let* d1 := parse_ascii_hex_digit h1 in
              let* d2 := parse_ascii_hex_digit h2 in
              let byte_point := u8 (Z.lor (Z.shiftl d1 4) d2) in
              percent_decode_loop rest' (builder ++ [byte_point])
        | _ => percent_decode_loop rest (builder ++ [byte])
        end
  end.

Definition percent_decode (input : bytes) : res bytes :=
  if negb (contains_char input (ch "%")) then Ret input else percent_decode_loop input [].

(** ** Encoding after an encoder *)

(** [Parser::percent_encode_after_encoding] *)
Definition percent_encode_after_encoding `{LookupTables} (encoder : Encoder) (input : bytes)
    (percent_encode_set : PercentEncodeSet) (space_as_plus : bool) : res bytes :=
  let* events := process encoder input in
  foldM (fun output event =>
    match event with
    | on_byte byte =>
        if space_as_plus && (byte =? 32) then Ret (output ++ [ch "+"])
        else
          let isomorph := byte in
          if negb (code_point_is_in_percent_encode_set isomorph percent_encode_set)
          then Ret (append_code_point output isomorph)
          else append_percent_byte output byte
    | on_error error =>
        let* digits := format_decimal error in
        Ret (output ++ sv "%26%23" ++ digits ++ sv "%3B")
    end) events [].

(** ** Specification *)

(** The three characters that encode one byte. *)
Definition pct (b : Z) : bytes := [ch "%"; upper_hex (b / 16); upper_hex (b mod 16)].

(** What is written for one code point. *)
Definition encoded_unit (set : PercentEncodeSet) (cp : Z) : bytes :=
  if code_point_is_in_percent_encode_set cp set then encoded cp ≫= pct else encoded cp.

(** ** Facts: the sets *)

(** Every set contains all code points from U+007F on. *)
Lemma in_set_high cp set :
  0x7E < cp -> code_point_is_in_percent_encode_set cp set = true.
Proof.
  intros H. unfold code_point_is_in_percent_encode_set.
  rewrite (proj2 (Z.ltb_lt 126 cp)) by lia. rewrite !orb_true_r. by destruct set.
Qed.

Lemma not_in_set_ascii cp set :
  0 <= cp -> code_point_is_in_percent_encode_set cp set = false ->
  0x20 <= cp <= 0x7E \/ (set = EncodeURI /\ 0 <= cp <= 0x7E).
Proof.
  intros Hcp H. destruct (decide (0x7E < cp)); [by rewrite in_set_high in H|].
  destruct (decide (set = EncodeURI)); [right; split; [done|lia]|]. left. split; [|lia].
  destruct (decide (cp < 0x20)) as [Hlt|]; [|lia]. exfalso.
  unfold code_point_is_in_percent_encode_set in H.
  rewrite (proj2 (Z.ltb_lt cp 32)) in H by lia. by destruct set.
Qed.

Lemma ascii_enumeration {A} `{EqDecision A} (f g : Z -> A) :
  forallb (fun b => bool_decide (f b = g b)) (seqZ 0 128) = true ->
  forall b, 0 <= b < 128 -> f b = g b.
Proof.
  intros H b Hb. rewrite forallb_forall in H. apply (bool_decide_eq_true_1 _), H.
  apply list_elem_of_In, elem_of_seqZ. lia.
Qed.

Lemma alphanumeric_not_in_set c set :
  is_ascii_alphanumeric c = true -> code_point_is_in_percent_encode_set c set = false.
Proof.
  intros H. assert (Hc : 0 <= c < 128) by ascii_lia. revert H.
  assert (Hall : forallb (fun b => implb (is_ascii_alphanumeric b)
     (negb (code_point_is_in_percent_encode_set b set))) (seqZ 0 128) = true).
  { destruct set; vm_compute; reflexivity. }
  rewrite forallb_forall in Hall. specialize (Hall c).
  rewrite <- list_elem_of_In, elem_of_seqZ in Hall. specialize (Hall ltac:(lia)).
  intros H. rewrite H in Hall. simpl in Hall. by apply negb_true_iff in Hall.
Qed.

Lemma hex_digit_not_in_set c set :
  is_ascii_hex_digit c = true -> code_point_is_in_percent_encode_set c set = false.
Proof. intros H. apply alphanumeric_not_in_set. ascii_lia. Qed.

(** ** Facts: what encoding writes *)

Lemma append_percent_byte_ok builder b :
  0 <= b < 256 -> append_percent_byte builder b = Ret (builder ++ pct b).
Proof. intros Hb. unfold append_percent_byte. by rewrite format_02X_byte. Qed.

Lemma append_percent_encoded_ok builder cp :
  0 <= cp <= 0x10FFFF ->
  append_percent_encoded builder cp = Ret (builder ++ (encoded cp ≫= pct)).
Proof.
  intros Hcp. unfold append_percent_encoded, encoded.
  destruct (utf8_byte_forms cp) as (-> & -> & -> & -> & -> & ->).
  repeat break_match; try lia;
    repeat (rewrite append_percent_byte_ok by euclid; cbn [res_bind]);
    try rewrite (Z.mod_small (cp / 64) 32) by euclid;
    try rewrite (Z.mod_small (cp / 4096) 16) by euclid;
    try rewrite (Z.mod_small (cp / 262144) 8) by euclid;
    csimpl; by rewrite <- ?app_assoc.
Qed.

Lemma append_if_necessary_ok builder cp set :
  0 <= cp <= 0x10FFFF ->
  append_percent_encoded_if_necessary builder cp set = Ret (builder ++ encoded_unit set cp).
Proof.
  intros Hcp. unfold append_percent_encoded_if_necessary, encoded_unit.
  destruct (code_point_is_in_percent_encode_set cp set).
  - by apply append_percent_encoded_ok.
  - by rewrite append_code_point_encoded.
Qed.

Lemma foldM_append {A} (f : bytes -> A -> res bytes) (g : A -> bytes) l builder :
  Forall (fun x => forall b, f b x = Ret (b ++ g x)) l ->
  foldM f l builder = Ret (builder ++ (l ≫= g)).
Proof.
  intros H. revert builder. induction H as [|x l Hx Hl IH]; intros builder; csimpl.
  - by rewrite app_nil_r.
  - rewrite Hx. cbn [res_bind]. by rewrite IH, <- app_assoc.
Qed.

Lemma percent_encode_ok input set :
  all_bytes input ->
  percent_encode input set false = Ret (code_points input ≫= encoded_unit set).
Proof.
  intros Hin. unfold percent_encode.
  rewrite (foldM_append _ (encoded_unit set)); [done|].
  eapply Forall_impl; [by apply code_points_range|]. simpl. intros cp Hcp b.
  by apply append_if_necessary_ok.
Qed.

(** The characters that percent-encoding writes. *)
Definition clean (set : PercentEncodeSet) (b : Z) : Prop :=
  0 <= b <= 0x7E /\ (b = ch "%" \/ code_point_is_in_percent_encode_set b set = false).

Lemma upper_hex_hex d : 0 <= d < 16 -> is_ascii_hex_digit (upper_hex d) = true.
Proof. intros Hd. by apply (digit_char_radix true 16); [auto|]. Qed.

Lemma hex_digit_clean set c : is_ascii_hex_digit c = true -> clean set c.
Proof. intros H. split; [ascii_lia|right; by apply hex_digit_not_in_set]. Qed.

Lemma pct_clean set b : 0 <= b < 256 -> Forall (clean set) (pct b).
Proof.
  intros Hb. unfold pct. apply Forall_cons_2; [split; [lia|by left]|].
  apply Forall_cons_2; [apply hex_digit_clean, upper_hex_hex; euclid|].
  apply Forall_singleton, hex_digit_clean, upper_hex_hex. euclid.
Qed.

Lemma encoded_unit_clean set cp : 0 <= cp <= 0x10FFFF -> Forall (clean set) (encoded_unit set cp).
Proof.
  intros Hcp. unfold encoded_unit. destruct (code_point_is_in_percent_encode_set cp set) eqn:E.
  - apply Forall_bind. eapply Forall_impl; [by apply encoded_bytes|].
    simpl. intros b Hb. apply pct_clean. ascii_lia.
  - apply not_in_set_ascii in E as Hr; [|lia]. unfold encoded.
    replace (cp <=? 127) with true by lia. apply Forall_singleton. split; [lia|by right].
Qed.

(** ** Facts: decoding *)

(** [percent_decode] without its accumulator. *)
Fixpoint pdecode (input : bytes) : bytes :=
  match input with
  | [] => []
  | byte :: rest =>
      if negb (byte =? ch "%") then byte :: pdecode rest
      else
        match rest with
        | h1 :: h2 :: rest' =>
            if negb (is_ascii_hex_digit h1) || negb (is_ascii_hex_digit h2)
            then byte :: pdecode rest
            else (hex_value h1 * 16 + hex_value h2) :: pdecode rest'
        | _ => byte :: pdecode rest
        end
  end.

Lemma byte_point_value h1 h2 :
  is_ascii_hex_digit h1 = true -> is_ascii_hex_digit h2 = true ->
  u8 (Z.lor (Z.shiftl (hex_value h1) 4) (hex_value h2)) = hex_value h1 * 16 + hex_value h2.
Proof.
  intros H1 H2. pose proof (hex_value_range _ H1). pose proof (hex_value_range _ H2).
  rewrite lor_shiftl_add by lia. apply u8_id. lia.
Qed.

Lemma percent_decode_loop_ok n input builder :
  (length input <= n)%nat -> percent_decode_loop input builder = Ret (builder ++ pdecode input).
Proof.
  revert input builder. induction n as [|n IH]; intros [|byte rest] builder Hn; simpl in *;
    try (by rewrite app_nil_r); [lia|].
  destruct (negb (byte =? 37)); [rewrite IH, <- app_assoc by lia; done|].
  destruct rest as [|h1 [|h2 rest']]; try (rewrite IH, <- app_assoc by (simpl in *; lia); done).
  destruct (is_ascii_hex_digit h1) eqn:H1, (is_ascii_hex_digit h2) eqn:H2; simpl negb; cbv iota beta;
    simpl orb; cbv iota; try (rewrite IH, <- app_assoc by (simpl in *; lia); done).
  rewrite !parse_ascii_hex_digit_ok by done. cbn [res_bind]. rewrite byte_point_value by done.
  rewrite IH, <- app_assoc by (simpl in *; lia). done.
Qed.

Lemma pdecode_no_percent s : contains_char s (ch "%") = false -> pdecode s = s.
Proof.
  rewrite contains_char_false. induction 1 as [|b s Hb Hs IH]; [done|]. simpl.
  rewrite (proj2 (Z.eqb_neq _ _) Hb). simpl. by rewrite IH.
Qed.

Lemma percent_decode_ok s : percent_decode s = Ret (pdecode s).
Proof.
  unfold percent_decode. destruct (contains_char s 37) eqn:E; simpl.
  - by apply (percent_decode_loop_ok (length s)).
  - by rewrite pdecode_no_percent.
Qed.

Lemma pdecode_bytes_len n s : (length s <= n)%nat -> all_bytes s -> all_bytes (pdecode s).
Proof.
  revert s. induction n as [|n IH]; intros s Hn Hs; (destruct s as [|b s]; [constructor|simpl in Hn]); [lia|].
  apply Forall_cons in Hs as [Hb Hs]. cbn [pdecode].
  assert (Hrest : all_bytes (b :: pdecode s)) by (constructor; [done|apply IH; [lia|done]]).
  destruct (negb _); [done|]. destruct s as [|h1 [|h2 s]]; try done.
  destruct (_ || _) eqn:Hhex; [done|]. apply orb_false_elim in Hhex as [H1%negb_false_iff H2%negb_false_iff].
  apply Forall_cons in Hs as [_ Hs]. apply Forall_cons in Hs as [_ Hs].
  pose proof (hex_value_range h1 H1). pose proof (hex_value_range h2 H2).
  constructor; [unfold is_byte; lia|]. apply IH; [simpl in Hn; lia|done].
Qed.

Lemma pdecode_bytes s : all_bytes s -> all_bytes (pdecode s).
Proof. by apply (pdecode_bytes_len (length s)). Qed.

Lemma pdecode_skip b s : b <> ch "%" -> pdecode (b :: s) = b :: pdecode s.
Proof. intros H. simpl. by rewrite (proj2 (Z.eqb_neq _ _) H). Qed.

Lemma pdecode_pct b s : 0 <= b < 256 -> pdecode (pct b ++ s) = b :: pdecode s.
Proof.
  intros Hb. unfold pct. cbn [app pdecode]. simpl negb. cbv iota.
  rewrite !upper_hex_hex by euclid. simpl orb. cbv iota. f_equal.
  unfold upper_hex. rewrite !digit_char_value by euclid. euclid.
Qed.

Lemma pdecode_pct_bytes l s : all_bytes l -> pdecode ((l ≫= pct) ++ s) = l ++ pdecode s.
Proof.
  induction 1 as [|b l Hb Hl IH]; [done|].
  change ((b :: l) ≫= pct) with (pct b ++ (l ≫= pct)).
  rewrite <- app_assoc, pdecode_pct, IH by ascii_lia. done.
Qed.

Lemma pdecode_high l s : Forall (fun b => b <> ch "%") l -> pdecode (l ++ s) = l ++ pdecode s.
Proof. induction 1; [done|]. simpl app. by rewrite pdecode_skip, IHForall. Qed.

Lemma encoded_not_percent cp : cp <> ch "%" -> Forall (fun b => b <> ch "%") (encoded cp).
Proof. intros H. unfold encoded. repeat break_match; repeat constructor; euclid. Qed.

(** The first byte of what is written for a code point is a hexadecimal digit
    only if the code point is one, and then it is written as itself. *)
Lemma unit_head set cp :
  0 <= cp <= 0x10FFFF ->
  (is_ascii_hex_digit cp = true -> encoded_unit set cp = [cp] /\ encoded cp = [cp])
  /\ (is_ascii_hex_digit cp = false ->
      (exists b t, encoded_unit set cp = b :: t /\ is_ascii_hex_digit b = false)
      /\ (exists b t, encoded cp = b :: t /\ is_ascii_hex_digit b = false)).
Proof.
  intros Hcp.
  assert (Henc : is_ascii_hex_digit cp = false ->
      exists b t, encoded cp = b :: t /\ is_ascii_hex_digit b = false).
  { intros Hno. unfold encoded. repeat break_match; eexists _, _; (split; [reflexivity|]).
    1: done. all: unfold_ascii; euclid. }
  split; intros Hh.
  - assert (Hone : encoded cp = [cp]).
    { unfold encoded. replace (cp <=? 127) with true by ascii_lia. done. }
    unfold encoded_unit. by rewrite hex_digit_not_in_set.
  - split; [|by apply Henc]. unfold encoded_unit.
    destruct (code_point_is_in_percent_encode_set cp set); [|by apply Henc].
    destruct (encoded cp) as [|b t] eqn:E; [by apply encoded_nonempty in E|].
    csimpl. unfold pct. eexists _, _. split; [reflexivity|done].
Qed.

Lemma pdecode_not_hex s :
  match s with h1 :: h2 :: _ => is_ascii_hex_digit h1 && is_ascii_hex_digit h2 = false | _ => True end ->
  pdecode (ch "%" :: s) = ch "%" :: pdecode s.
Proof.
  intros H. cbn [pdecode]. simpl negb. cbv iota. destruct s as [|h1 [|h2 s]]; try done.
  by rewrite <- negb_andb, H.
Qed.

Lemma pdecode_encoded_units set n cps :
  (length cps <= n)%nat -> Forall (fun cp => 0 <= cp <= 0x10FFFF) cps ->
  pdecode (cps ≫= encoded_unit set)
  = if code_point_is_in_percent_encode_set (ch "%") set
    then cps ≫= encoded else pdecode (cps ≫= encoded).
Proof.
  revert cps. induction n as [|n IH]; intros [|cp cps] Hn Hcps; simpl in Hn; try lia;
    try (by destruct (code_point_is_in_percent_encode_set 37 set)).
  apply Forall_cons in Hcps as [Hcp Hcps]. csimpl.
  pose proof (IH cps ltac:(lia) Hcps) as IHcps.
  destruct (code_point_is_in_percent_encode_set cp set) eqn:Ein.
  - replace (encoded_unit set cp) with (encoded cp ≫= pct) by (unfold encoded_unit; by rewrite Ein).
    rewrite pdecode_pct_bytes, IHcps by (by apply encoded_bytes).
    destruct (code_point_is_in_percent_encode_set 37 set) eqn:Ep; [done|].
    rewrite pdecode_high; [done|]. apply encoded_not_percent. intros ->. congruence.
  - replace (encoded_unit set cp) with (encoded cp) by (unfold encoded_unit; by rewrite Ein).
    destruct (decide (cp = 37)) as [->|Hne].
    2: { rewrite !pdecode_high by (by apply encoded_not_percent). rewrite IHcps.
         by destruct (code_point_is_in_percent_encode_set 37 set). }
    rewrite Ein in *. change (encoded 37) with [37]. cbn [app].
    destruct cps as [|c1 cps1]; [done|].
    apply Forall_cons in Hcps as [Hc1 Hcps1].
    destruct (unit_head set c1 Hc1) as [Hyes1 Hno1].
    destruct (is_ascii_hex_digit c1) eqn:Hx1.
    2: { destruct (Hno1 eq_refl) as [(b & t & Hu & Hb) (b' & t' & Hu' & Hb')].
         rewrite !pdecode_not_hex; [by rewrite IHcps|..].
         - csimpl. rewrite Hu'. simpl app. destruct (t' ++ _); [done|]. by rewrite Hb'.
         - csimpl. rewrite Hu. simpl app. destruct (t ++ _); [done|]. by rewrite Hb. }
    destruct (Hyes1 eq_refl) as [Hu1 He1].
    destruct cps1 as [|c2 cps2].
    { csimpl. rewrite Hu1, He1. reflexivity. }
    apply Forall_cons in Hcps1 as [Hc2 Hcps2].
    destruct (unit_head set c2 Hc2) as [Hyes2 Hno2].
    destruct (is_ascii_hex_digit c2) eqn:Hx2.
    + destruct (Hyes2 eq_refl) as [Hu2 He2]. csimpl. rewrite Hu1, He1, Hu2, He2.
      cbn [app pdecode]. simpl negb. cbv iota. rewrite Hx1, Hx2. simpl orb. cbv iota. f_equal.
      pose proof (IH cps2 ltac:(simpl in Hn; lia) Hcps2) as IH2. by rewrite IH2.
    + destruct (Hno2 eq_refl) as [(b & t & Hu & Hb) (b' & t' & Hu' & Hb')].
      rewrite !pdecode_not_hex; [by rewrite IHcps|..].
      * csimpl. rewrite He1, Hu'. cbn [app]. by rewrite Hb', andb_false_r.
      * csimpl. rewrite Hu1, Hu. cbn [app]. by rewrite Hb, andb_false_r.
Qed.

Lemma utf8_encode_bind cps :
  Forall (fun cp => 0 <= cp <= 0x10FFFF) cps -> utf8_encode cps = cps ≫= encoded.
Proof.
  induction 1 as [|cp cps Hcp Hcps IH]; [done|].
  change (cp :: cps) with ([cp] ++ cps). rewrite utf8_encode_app, utf8_encode_single, IH by done.
  csimpl. done.
Qed.

(** ** Facts: encoding after the UTF-8 encoder *)

Lemma after_utf8_units cp set :
  0 <= cp <= 0x10FFFF ->
  encoded cp ≫= (fun b => if code_point_is_in_percent_encode_set b set then pct b else [b])
  = encoded_unit set cp.
Proof.
  intros Hcp. unfold encoded_unit.
  destruct (decide (cp <= 0x7f)) as [Hlo|Hhi].
  - unfold encoded. replace (cp <=? 127) with true by lia. csimpl.
    destruct (code_point_is_in_percent_encode_set cp set); by rewrite ?app_nil_r.
  - rewrite in_set_high by lia.
    assert (Hge : Forall (fun b => 128 <= b) (encoded cp)).
    { unfold encoded. repeat break_match; repeat constructor; euclid. }
    induction Hge as [|b l Hb Hl IH]; [done|]. csimpl. by rewrite in_set_high, IH by lia.
Qed.

Lemma percent_encode_after_utf8_ok `{LookupTables} input set :
  all_bytes input ->
  percent_encode_after_encoding UTF8Encoder input set false
  = Ret (input ≫= fun b => if code_point_is_in_percent_encode_set b set then pct b else [b]).
Proof.
  intros Hin. unfold percent_encode_after_encoding, process. cbn [res_bind].
  rewrite (foldM_append _ (fun e => match e with
     | on_byte b => if code_point_is_in_percent_encode_set b set then pct b else [b]
     | on_error _ => [] end)).
  - by rewrite app_nil_l, list_fmap_bind.
  - apply Forall_fmap. eapply Forall_impl; [exact Hin|]. simpl. intros b Hb builder.
    assert (0 <= b < 256) by ascii_lia.
    destruct (code_point_is_in_percent_encode_set b set) eqn:E; simpl.
    + by apply append_percent_byte_ok.
    + apply not_in_set_ascii in E; [|lia]. by rewrite append_code_point_ascii by lia.
Qed.

Lemma after_utf8_clean set input :
  all_bytes input ->
  Forall (clean set)
    (input ≫= fun b => if code_point_is_in_percent_encode_set b set then pct b else [b]).
Proof.
  intros Hin. apply Forall_bind. eapply Forall_impl; [exact Hin|]. simpl. intros b Hb.
  destruct (code_point_is_in_percent_encode_set b set) eqn:E.
  - apply pct_clean. ascii_lia.
  - apply Forall_singleton. apply not_in_set_ascii in E as Hr; [|ascii_lia].
    split; [lia|by right].
Qed.

(** ** Properties *)

(** Percent-encoding any byte string with any set neither stops the process
    nor leaves anything behind: the result is ASCII up to U+007E, and each of
    its characters is a percent sign or outside the percent-encode set. *)
Theorem percent_encode_safe (input : bytes) (set : PercentEncodeSet) (Hin : all_bytes input) :
  exists out, percent_encode input set false = Ret out /\ Forall (clean set) out.
Proof.
  eexists. split; [by apply percent_encode_ok|]. apply Forall_bind.
  eapply Forall_impl; [by apply code_points_range|]. simpl. intros cp Hcp.
  by apply encoded_unit_clean.
Qed.

Lemma percent_encode_safe_witness :
  percent_encode [0x61; 0x20; 0xC3; 0xA9; 0xFF] Path false = Ret (sv "a%20%C3%A9%EF%BF%BD")
  /\ exists out, percent_encode [0x61; 0x20; 0xC3; 0xA9; 0xFF] Path false = Ret out
                 /\ Forall (clean Path) out.
Proof. split; [vm_compute; reflexivity|]. apply percent_encode_safe. by repeat constructor. Defined.

(** Decoding what was encoded. For well-formed UTF-8 text,
    [percent_decode] after [percent_encode] gives the text back when the set
    contains the percent sign, and for every other set it gives what decoding
    the text itself gives: encoding never creates or destroys an escape. *)
Theorem percent_decode_encode (s : bytes) (set : PercentEncodeSet) (Hs : well_formed_utf8 s) :
  exists out, percent_encode s set false = Ret out
    /\ percent_decode out
       = (if code_point_is_in_percent_encode_set (ch "%") set then Ret s else percent_decode s).
Proof.
  pose proof (well_formed_bytes s Hs) as Hb. destruct Hs as (cps & Hcps & ->).
  pose proof (scalars_range cps Hcps) as Hr.
  eexists. split; [by apply percent_encode_ok|].
  pose proof (code_points_utf8_encode cps [] Hr) as E. rewrite !app_nil_r in E.
  rewrite E, !percent_decode_ok, (pdecode_encoded_units set (length cps) cps) by done.
  rewrite utf8_encode_bind by done. by destruct (code_point_is_in_percent_encode_set 37 set).
Qed.

Lemma percent_decode_encode_witness :
  exists out, percent_encode (sv "100%25 <a>") Component false = Ret out
    /\ percent_decode out = Ret (sv "100%25 <a>").
Proof.
  destruct (percent_decode_encode (sv "100%25 <a>") Component) as (out & Ho & Hd).
  { apply well_formed_ascii. repeat constructor; lia. }
  exists out. split; [exact Ho|exact Hd].
Defined.

(** The two percent-encoders agree: on well-formed UTF-8, encoding code
    point by code point ([percent_encode]) and encoding the bytes of the UTF-8
    encoder ([percent_encode_after_encoding]) write the same bytes. *)
Theorem percent_encoders_agree `{LookupTables} (s : bytes) (set : PercentEncodeSet) (Hs : well_formed_utf8 s) :
  percent_encode s set false = percent_encode_after_encoding UTF8Encoder s set false.
Proof.
  pose proof (well_formed_bytes s Hs) as Hb.
  rewrite percent_encode_ok, percent_encode_after_utf8_ok by done. f_equal.
  destruct Hs as (cps & Hcps & ->). pose proof (scalars_range cps Hcps) as Hr.
  pose proof (code_points_utf8_encode cps [] Hr) as E. rewrite !app_nil_r in E.
  rewrite E, utf8_encode_bind by done. clear Hcps Hb E.
  induction Hr as [|cp cps Hcp Hcps IH]; [done|].
  csimpl. rewrite bind_app. f_equal; [|exact IH]. symmetry. by apply after_utf8_units.
Qed.

Lemma percent_encoders_agree_witness :
  percent_encode [0xF0; 0x9F; 0xA6; 0x8A; 0x23] Query false
  = percent_encode_after_encoding UTF8Encoder [0xF0; 0x9F; 0xA6; 0x8A; 0x23] Query false.
Proof.
  apply percent_encoders_agree. exists [0x1F98A; 0x23]. split; [repeat constructor; lia|reflexivity].
Defined.
