(* ===== verification/FormUrlencoded.v ===== *)
(** * application/x-www-form-urlencoded: [LibWeb/DOMURL/URLSearchParams.cpp]

    [url_encode] is the serializer and [url_decode] the parser of name-value
    lists, the query strings of URLs and the bodies of forms. *)

From S2P Require Import Prelude CharacterTypes Utf8 MemMem Strings Tokens TextCodec Percent.

(** [QueryParam] *)
Record QueryParam := { param_name : bytes; param_value : bytes }.

#[export] Instance query_param_eq_dec : EqDecision QueryParam.
Proof. solve_decision. Defined.

Section form.
Context `{LookupTables} `{Simdutf}.

(** The encoder of [url_encode]: that of the output encoding, or UTF-8. *)
Definition form_encoder (encoding : bytes) : res Encoder :=
  let encoding := get_output_encoding encoding in
  unwrap (match encoder_for encoding with
          | Some encoder => Some encoder
          | None => encoder_for (sv "utf-8")
          end).

(** The loop of [url_encode] *)
Fixpoint url_encode_loop (encoder : Encoder) (tuples : list QueryParam) (output : bytes) : res bytes :=
  match tuples with
  | [] => Ret output
  | tuple :: tuples =>
      let* name := percent_encode_after_encoding encoder (param_name tuple) ApplicationXWWWFormUrlencoded true in
      let* value := percent_encode_after_encoding encoder (param_value tuple) ApplicationXWWWFormUrlencoded true in
      let output := if negb (sv_is_empty output) then output ++ [ch "&"] else output in
      url_encode_loop encoder tuples (output ++ name ++ [ch "="] ++ value)
  end.

(** [url_encode]; [MUST(to_string())] checks that the output is UTF-8. *)
Definition url_encode (tuples : list QueryParam) (encoding : bytes) : res bytes :=
  let* encoder := form_encoder encoding in
  let* output := url_encode_loop encoder tuples [] in
  verify (validate Surrogates_Yes output) (Ret output).

(** Steps 3.4 and 3.5 of the parser, for a name or a value. *)
Definition decode_component (component : bytes) : res bytes :=
  let* space_decoded := replace_all component (sv "+") (sv " ") in
  let* decoded := percent_decode space_decoded in
  Ret (from_utf8_with_replacement_character decoded false).

(** One iteration of the loop of [url_decode] *)
Definition decode_sequence (bytes : bytes) : res (list QueryParam) :=
  if sv_is_empty bytes then Ret []
  else
    let* (name, value) :=
      match find_char bytes (ch "=") with
      | Some index =>
          let* name := substring_view bytes 0 index in
          let* value := substring_view_from bytes (index + 1) in
          Ret (name, value)
      | None => Ret (bytes, [])
      end in
    let* name_string := decode_component name in
    let* value_string := decode_component value in
    Ret [{| param_name := name_string; param_value := value_string |}].

Fixpoint decode_sequences (sequences : list bytes) : res (list QueryParam) :=
  match sequences with
  | [] => Ret []
  | bytes :: sequences =>
      let* param := decode_sequence bytes in
      let* rest := decode_sequences sequences in
      Ret (param ++ rest)
  end.

(** [url_decode] *)
Definition url_decode (input : bytes) : res (list QueryParam) :=
  let* sequences := split_view input (sv "&") false in
  decode_sequences sequences.

End form.

(** ** Facts: encoding *)

(** What is written for one byte of a name or a value. *)
Definition form_unit (b : Z) : bytes :=
  if b =? 32 then [ch "+"]
  else if code_point_is_in_percent_encode_set b ApplicationXWWWFormUrlencoded then pct b else [b].

Definition form_text (s : bytes) : bytes := s ≫= form_unit.

Section facts.
Context `{LookupTables} `{SimdutfLaws}.

Lemma form_text_encoded s :
  all_bytes s -> percent_encode_after_encoding UTF8Encoder s ApplicationXWWWFormUrlencoded true = Ret (form_text s).
Proof.
  intros Hs. unfold percent_encode_after_encoding, process. cbn [res_bind].
  rewrite (foldM_append _ (fun e => match e with on_byte b => form_unit b | on_error _ => [] end)).
  - by rewrite app_nil_l, list_fmap_bind.
  - apply Forall_fmap. eapply Forall_impl; [exact Hs|]. intros b Hb builder. cbn [compose andb].
    assert (0 <= b < 256) by ascii_lia. unfold form_unit. destruct (b =? 32); [done|].
    destruct (code_point_is_in_percent_encode_set b _) eqn:E; cbn [negb].
    + by apply append_percent_byte_ok.
    + apply not_in_set_ascii in E; [|lia]. by rewrite append_code_point_ascii by lia.
Qed.

(** A byte that is decoded as itself. *)
Definition form_plain (b : Z) : bool :=
  (b =? 32) || negb (code_point_is_in_percent_encode_set b ApplicationXWWWFormUrlencoded).

Definition form_char (x : Z) : bool :=
  (0 <=? x) && (x <? 128) && negb (x =? ch "&") && negb (x =? ch "=").

Lemma form_unit_chars b : 0 <= b < 256 -> forallb form_char (form_unit b) = true.
Proof. revert b. apply (byte_enumeration (fun b => forallb form_char (form_unit b)) (fun _ => true)). vm_compute. reflexivity. Qed.

Lemma form_unit_substituted b :
  0 <= b < 256 -> substitute (ch "+") 32 (form_unit b) = if form_plain b then [b] else pct b.
Proof.
  revert b. apply (byte_enumeration (fun b => substitute (ch "+") 32 (form_unit b))
    (fun b => if form_plain b then [b] else pct b)). vm_compute. reflexivity.
Qed.

Lemma form_plain_percent b : form_plain b = true -> b <> ch "%".
Proof. intros Hp ->. done. Qed.

Lemma form_text_chars s : all_bytes s -> Forall (fun x => form_char x = true) (form_text s).
Proof.
  intros Hs. apply Forall_bind. eapply Forall_impl; [exact Hs|]. intros b Hb. cbn in Hb.
  apply forallb_Forall_iff, form_unit_chars. ascii_lia.
Qed.

Lemma pdecode_form_text s : all_bytes s -> pdecode (substitute (ch "+") 32 (form_text s)) = s.
Proof.
  induction 1 as [|b s Hb _ IH]; [done|]. unfold form_text. rewrite bind_cons. fold (form_text s).
  unfold substitute in *. rewrite fmap_app. assert (0 <= b < 256) by ascii_lia.
  pose proof (form_unit_substituted b ltac:(done)) as Hu. unfold substitute in Hu. rewrite Hu.
  destruct (form_plain b) eqn:Hp.
  - cbn [app]. rewrite pdecode_skip by (by apply form_plain_percent). by rewrite IH.
  - by rewrite pdecode_pct, IH.
Qed.

Lemma decode_form_text s : well_formed_utf8 s -> decode_component (form_text s) = Ret s.
Proof.
  intros Hs. unfold decode_component. rewrite (replace_all_byte (ch "+") 32). cbn [res_bind].
  rewrite percent_decode_ok. cbn [res_bind]. rewrite pdecode_form_text by (by apply well_formed_bytes).
  by rewrite from_utf8_identity.
Qed.

(** ** Facts: lists of parameters *)

Definition param_ok (p : QueryParam) : Prop :=
  well_formed_utf8 (param_name p) /\ well_formed_utf8 (param_value p).

Definition param_text (p : QueryParam) : bytes :=
  form_text (param_name p) ++ [ch "="] ++ form_text (param_value p).

Lemma url_encode_loop_text params output :
  Forall param_ok params ->
  url_encode_loop UTF8Encoder params output
  = Ret (match params with
         | [] => output
         | _ => (if negb (sv_is_empty output) then output ++ [ch "&"] else output) ++ join (ch "&") (param_text <$> params)
         end).
Proof.
  intros Hparams. revert output. induction Hparams as [|p params [Hn Hv] Hps IH]; intros output; [done|].
  cbn [url_encode_loop]. rewrite !form_text_encoded by (by apply well_formed_bytes). cbn [res_bind]. rewrite IH.
  set (front := if negb (sv_is_empty output) then _ else _).
  replace (front ++ form_text (param_name p) ++ [ch "="] ++ form_text (param_value p)) with (front ++ param_text p) by done.
  f_equal. destruct params as [|p' params]; [done|].
  replace (sv_is_empty (front ++ param_text p)) with false.
  2: { unfold param_text. destruct front, (form_text (param_name p)); done. }
  cbn [negb]. rewrite fmap_cons. cbn [join]. by rewrite <- !app_assoc.
Qed.

Lemma param_text_free p : param_ok p -> Forall (fun x => x <> ch "&") (param_text p).
Proof.
  intros [Hn Hv]. unfold param_text. repeat (apply Forall_app; split); [|by apply Forall_singleton|].
  all: eapply Forall_impl; [apply form_text_chars; by apply well_formed_bytes|]; intros x Hx; cbn in Hx; unfold form_char in Hx; lia.
Qed.

(** A sequence with an equals sign, and one without. *)
Lemma decode_sequence_pair before after :
  Forall (fun x => x <> ch "=") before ->
  decode_sequence (before ++ ch "=" :: after)
  = (let* name_string := decode_component before in
     let* value_string := decode_component after in
     Ret [{| param_name := name_string; param_value := value_string |}]).
Proof.
  intros Hb. unfold decode_sequence. replace (sv_is_empty (before ++ ch "=" :: after)) with false by (by destruct before).
  rewrite (find_char_first _ (ch "=") before after) by done.
  unfold substring_view, verify. rewrite (proj2 (Nat.leb_le _ _)) by (rewrite !length_app; lia).
  cbn [res_bind]. rewrite drop_0, take_app_length, substring_view_from_drop by (rewrite !length_app; simpl; lia).
  rewrite <- drop_drop, drop_app_length. cbn [res_bind drop]. by rewrite drop_0.
Qed.

Lemma decode_sequence_name s :
  s <> [] -> Forall (fun x => x <> ch "=") s ->
  decode_sequence s
  = (let* name_string := decode_component s in
     let* value_string := decode_component [] in
     Ret [{| param_name := name_string; param_value := value_string |}]).
Proof.
  intros Hne Hs. unfold decode_sequence. replace (sv_is_empty s) with false by (by destruct s).
  by rewrite find_char_none.
Qed.

Lemma decode_param_text p : param_ok p -> decode_sequence (param_text p) = Ret [p].
Proof.
  intros [Hn Hv]. unfold param_text. cbn [app]. rewrite decode_sequence_pair.
  - rewrite !decode_form_text by done. by destruct p.
  - eapply Forall_impl; [apply form_text_chars; by apply well_formed_bytes|]. intros x Hx. cbn in Hx. unfold form_char in Hx. lia.
Qed.

Lemma decode_param_texts params :
  Forall param_ok params -> decode_sequences (param_text <$> params) = Ret params.
Proof.
  induction 1 as [|p params Hp _ IH]; [done|]. rewrite fmap_cons. cbn [decode_sequences].
  rewrite decode_param_text by done. cbn [res_bind]. by rewrite IH.
Qed.

Lemma join_param_texts_ascii params :
  Forall param_ok params -> Forall (fun x => 0 <= x < 128) (join (ch "&") (param_text <$> params)).
Proof.
  assert (Htext : forall p, param_ok p -> Forall (fun x => 0 <= x < 128) (param_text p)).
  { intros p [Hn Hv]. unfold param_text. repeat (apply Forall_app; split); [|apply Forall_singleton; lia|].
    all: eapply Forall_impl; [apply form_text_chars; by apply well_formed_bytes|]; intros x Hx; cbn in Hx; unfold form_char in Hx; lia. }
  induction 1 as [|p [|p' params] Hp Hps IH]; [constructor|cbn; by apply Htext|].
  rewrite !fmap_cons in *. change (join (ch "&") (param_text p :: ?l)) with (param_text p ++ ch "&" :: join (ch "&") l).
  apply Forall_app. split; [by apply Htext|]. constructor; [lia|done].
Qed.

Lemma url_encode_text params :
  Forall param_ok params ->
  url_encode params (sv "UTF-8") = Ret (join (ch "&") (param_text <$> params)).
Proof.
  intros Hp. unfold url_encode. assert (form_encoder (sv "UTF-8") = Ret UTF8Encoder) as -> by reflexivity.
  cbn [res_bind]. rewrite url_encode_loop_text by done. cbn [res_bind].
  rewrite ascii_valid; [by destruct params|]. destruct params; [constructor|]. by apply (join_param_texts_ascii (_ :: _)).
Qed.

Lemma url_decode_text params :
  Forall param_ok params -> url_decode (join (ch "&") (param_text <$> params)) = Ret params.
Proof.
  intros Hp. unfold url_decode. destruct params as [|p params]; [done|].
  assert (Hne : join (ch "&") (param_text <$> p :: params) <> []).
  { rewrite fmap_cons. assert (param_text p <> []) by (unfold param_text; by destruct (form_text (param_name p))).
    destruct params; [done|]. rewrite fmap_cons. cbn [join]. by destruct (param_text p). }
  rewrite split_view_kept by done. rewrite split_on_join; [|done|].
  - cbn [res_bind]. replace (kept false (param_text <$> p :: params)) with (param_text <$> p :: params);
      [by apply decode_param_texts|].
    unfold kept. symmetry. apply List.forallb_filter_id. apply forallb_forall. intros x Hx.
    apply list_elem_of_In, list_elem_of_fmap in Hx as (q & -> & _). unfold param_text.
    by destruct (form_text (param_name q)).
  - apply Forall_fmap. eapply Forall_impl; [exact Hp|]. intros q Hq. by apply param_text_free.
Qed.

(** What [url_encode] writes for a list of names and values, [url_decode]
    reads back as that list, whatever bytes the names and values hold: empty
    ones, spaces, plus signs, ampersands and equals signs included. *)
Theorem url_decode_encode params :
  Forall param_ok params ->
  exists text, url_encode params (sv "UTF-8") = Ret text /\ url_decode text = Ret params.
Proof.
  intros Hp. exists (join (ch "&") (param_text <$> params)).
  split; [by apply url_encode_text|by apply url_decode_text].
Qed.

End facts.

Lemma url_decode_encode_witness :
  exists text,
    url_encode [{| param_name := sv "a b"; param_value := sv "1+1=2" |}; {| param_name := []; param_value := [0xC3; 0xA9] |}]
      (sv "UTF-8") = Ret text
    /\ url_decode text
       = Ret [{| param_name := sv "a b"; param_value := sv "1+1=2" |}; {| param_name := []; param_value := [0xC3; 0xA9] |}].
Proof.
  apply url_decode_encode. apply Forall_cons. split; [split; apply well_formed_ascii; repeat constructor; lia|].
  apply Forall_singleton. split; [apply well_formed_ascii; constructor|].
  exists [0xE9]. split; [repeat constructor; lia|reflexivity].
Defined.
