(* ===== verification/Ipv4.v ===== *)
(** * IPv4 addresses of URLs: the number and address parsers and the
      ends-in-a-number checker of [LibURL/Parser.cpp], the serializer of
      [LibURL/Host.cpp] and [AK/IPv4Address.h]

    An [IPv4Address] is its 32-bit value [m_data]. *)

From S2P Require Import Prelude CharacterTypes Utf8 Strings.

(** ** Parsing *)

Record ParsedIPv4Number := { number : Z; validation_error : bool }.

Definition parse_ipv4_number `{FastFloat} (input : bytes) : option ParsedIPv4Number :=
  if sv_is_empty input then None
  else
    let '(input, radix, validation_error) :=
      if (2 <=? length input)%nat
         && (starts_with input (sv "0X") CaseSensitive || starts_with input (sv "0x") CaseSensitive)
      then (drop 2 input, 16, true)
      else if (2 <=? length input)%nat && starts_with_char input (ch "0")
      then (drop 1 input, 8, true)
      else (input, 10, false) in
    if sv_is_empty input then Some {| number := 0; validation_error := true |}
    else if negb (forallb (is_radix_digit radix) input) then None
    else
      match parse_number (2 ^ 32 - 1) input radix with
      | None => None
      | Some output => Some {| number := output; validation_error := validation_error |}
      end.

(** [AK::pow<size_t>] *)
Definition pow_size_t (base exponent : Z) : Z := size_t (base ^ exponent).

(** Step 5: the loop over the parts; nothing on the first part that fails. *)
Fixpoint parse_ipv4_parts `{FastFloat} (parts : list bytes) : option (list Z) :=
  match parts with
  | [] => Some []
  | part :: parts =>
      match parse_ipv4_number part with
      | None => None
      | Some result =>
          match parse_ipv4_parts parts with
          | None => None
          | Some numbers => Some (number result :: numbers)
          end
      end
  end.

(** Steps 6 and 7: some number but the last is greater than 255. *)
Fixpoint any_but_last_too_large (numbers : list Z) : bool :=
  match numbers with
  | [] | [_] => false
  | n :: numbers => (255 <? n) || any_but_last_too_large numbers
  end.

(** Step 12: the loop that adds the leading numbers, [counter] counting them. *)
Fixpoint add_ipv4_numbers (ipv4 counter : Z) (numbers : list Z) : Z :=
  match numbers with
  | [] => ipv4
  | n :: numbers =>
      add_ipv4_numbers (u32 (size_t (ipv4 + size_t (n * pow_size_t 256 (3 - counter)))))
        (u8 (counter + 1)) numbers
  end.

Definition parse_ipv4_address `{FastFloat} (input : bytes) : res (option Z) :=
  let* parts := split_view input (sv ".") true in
  let* last_part := vector_last parts in
  let* parts :=
    if sv_is_empty last_part then
      if (1 <? length parts)%nat then vector_take_last parts else Ret parts
    else Ret parts in
  if (4 <? length parts)%nat then Ret None
  else
    match parse_ipv4_parts parts with
    | None => Ret None
    | Some numbers =>
        if any_but_last_too_large numbers then Ret None
        else
          let* last_number := vector_last numbers in
          if pow_size_t 256 (5 - Z.of_nat (length numbers)) <=? last_number then Ret None
          else
            let* leading := vector_take_last numbers in
            Ret (Some (add_ipv4_numbers last_number 0 leading))
    end.

(** [ends_in_a_number_checker] *)
Definition ends_in_a_number_checker (input : bytes) : res bool :=
  let* parts := split_view input (sv ".") true in
  let* last_part := vector_last parts in
  let* parts :=
    if sv_is_empty last_part then
      if (length parts =? 1)%nat then Ret None
      else let* parts := vector_take_last parts in Ret (Some parts)
    else Ret (Some parts) in
  match parts with
  | None => Ret false
  | Some parts =>
      let* last := vector_last parts in
      if negb (sv_is_empty last) && forallb is_ascii_digit last then Ret true
      else if starts_with last (sv "0x") CaseInsensitive && forallb is_ascii_hex_digit (drop 2 last)
      then Ret true
      else Ret false
  end.

(** ** Serializing *)

(** The loop of [serialize_ipv4_address]: [output[3 - i]] for [i = 0 .. 3]. *)
Definition ipv4_octets (n : Z) : list Z :=
  let o3 := n mod 256 in let n := n / 256 in
  let o2 := n mod 256 in let n := n / 256 in
  let o1 := n mod 256 in let n := n / 256 in
  let o0 := n mod 256 in
  [o0; o1; o2; o3].

Definition serialize_ipv4_address (address : Z) : res bytes :=
  let output := ipv4_octets address in
  let* o0 := at_index output 0 in let* s0 := format_decimal o0 in
  let* o1 := at_index output 1 in let* s1 := format_decimal o1 in
  let* o2 := at_index output 2 in let* s2 := format_decimal o2 in
  let* o3 := at_index output 3 in let* s3 := format_decimal o3 in
  Ret (s0 ++ [ch "."] ++ s1 ++ [ch "."] ++ s2 ++ [ch "."] ++ s3).

(** ** Facts *)

Lemma digit_not_dot c : is_ascii_digit c = true -> c <> ch ".".
Proof. ascii_lia. Qed.

Lemma decimal_no_dot s : forallb (is_radix_digit 10) s = true -> Forall (fun c => c <> ch ".") s.
Proof.
  intros H. apply forallb_Forall_iff in H. eapply Forall_impl; [exact H|].
  intros c. apply digit_not_dot.
Qed.

Lemma split_on_four a b c d :
  Forall (fun x => x <> ch ".") a -> Forall (fun x => x <> ch ".") b ->
  Forall (fun x => x <> ch ".") c -> Forall (fun x => x <> ch ".") d ->
  split_on (ch ".") (a ++ [ch "."] ++ b ++ [ch "."] ++ c ++ [ch "."] ++ d) = [a; b; c; d].
Proof. intros. simpl. by rewrite !split_on_app, split_on_none. Qed.

Lemma starts_with_two s a b :
  starts_with s [a; b] CaseSensitive = true -> starts_with_char s a = true.
Proof.
  unfold starts_with. destruct s as [|x s]; [done|]. simpl sv_is_empty. cbv iota.
  destruct (_ <? _)%nat eqn:E; [done|]. intros H. apply bool_decide_eq_true_1 in H.
  destruct s; simplify_eq/=. lia.
Qed.

Section WithFastFloat.
Context `{FastFloatLaws}.

(** A decimal number printed by [format_decimal] parses to itself. *)
Lemma parse_ipv4_number_decimal v s :
  prints_number 10 v s -> 0 <= v < 2 ^ 32 ->
  parse_ipv4_number s = Some {| number := v; validation_error := false |}.
Proof.
  intros Hp Hv. pose proof Hp as (Hne & Hd & Hval & Hlead). unfold parse_ipv4_number.
  destruct s as [|c s]; [done|]. cbn [sv_is_empty].
  assert (Hz : (2 <=? length (c :: s))%nat = true -> starts_with_char (c :: s) (ch "0") = false).
  { intros Hl. apply Hlead. apply Nat.leb_le in Hl. lia. }
  destruct (2 <=? length (c :: s))%nat eqn:E.
  - specialize (Hz eq_refl). rewrite Hz.
    assert (Hx : forall x, starts_with (c :: s) [ch "0"; x] CaseSensitive = false).
    { intros x. apply not_true_iff_false. intros Hs. apply starts_with_two in Hs.
      congruence. }
    rewrite !Hx. simpl orb. simpl andb. cbv iota beta. cbn [sv_is_empty]. rewrite Hd. simpl negb. cbv iota.
    by rewrite (parse_number_prints _ _ v) by (done || lia).
  - simpl andb. cbv iota beta. cbn [sv_is_empty]. rewrite Hd. simpl negb. cbv iota.
    by rewrite (parse_number_prints _ _ v) by (done || lia).
Qed.

Lemma parse_ipv4_number_range input r :
  parse_ipv4_number input = Some r -> 0 <= number r < 2 ^ 32.
Proof.
  unfold parse_ipv4_number. destruct (sv_is_empty input); [done|].
  set (t := if _ && (_ || _) then _ else _). destruct t as [[inp radix] ve].
  destruct (sv_is_empty inp) eqn:Ee; [intros [= <-]; simpl; lia|].
  destruct (forallb _ inp) eqn:Ed; [|done]. simpl negb. cbv iota.
  rewrite parse_number_digits; [|by destruct inp|done].
  destruct (Z.leb_spec (digits_value radix inp) (2 ^ 32 - 1)); [|done].
  intros [= <-]. simpl. split; [|lia].
  assert (Hrad : radix = 8 \/ radix = 10 \/ radix = 16).
  { destruct inp as [|c inp]; [done|]. simpl in Ed. unfold is_radix_digit at 1 in Ed.
    repeat break_match_hyp Ed; done || lia. }
  apply digits_value_nonneg; [lia|]. apply forallb_Forall_iff in Ed. apply forallb_Forall_iff.
  eapply Forall_impl; [exact Ed|]. simpl. unfold is_radix_digit. intros c.
  repeat break_match; auto with ak. done.
Qed.

Lemma parse_ipv4_parts_spec parts numbers :
  parse_ipv4_parts parts = Some numbers ->
  length numbers = length parts /\ Forall (fun n => 0 <= n < 2 ^ 32) numbers.
Proof.
  revert numbers. induction parts as [|p parts IH]; simpl; intros numbers Hp; [by simplify_eq|].
  destruct (parse_ipv4_number p) as [r|] eqn:E; [|done].
  destruct (parse_ipv4_parts parts) as [ns|]; [|done]. simplify_eq.
  destruct (IH ns eq_refl) as [Hl Hf]. simpl. split; [lia|].
  constructor; [by eapply parse_ipv4_number_range|done].
Qed.

End WithFastFloat.

(** The mathematical value of the leading numbers, weighted from 256^3 down. *)
Fixpoint ipv4_weight (counter : Z) (numbers : list Z) : Z :=
  match numbers with
  | [] => 0
  | n :: numbers => n * 256 ^ (3 - counter) + ipv4_weight (counter + 1) numbers
  end.

Lemma ipv4_weight_bound numbers counter :
  Forall (fun n => 0 <= n <= 255) numbers -> 0 <= counter ->
  counter + Z.of_nat (length numbers) <= 4 ->
  0 <= ipv4_weight counter numbers
  <= 256 ^ (4 - counter) - 256 ^ (4 - counter - Z.of_nat (length numbers)).
Proof.
  intros Hn. revert counter. induction Hn as [|n numbers Hn Hns IH]; intros counter Hc Hl.
  - simpl. rewrite Z.sub_0_r. lia.
  - cbn [ipv4_weight length] in *. specialize (IH (counter + 1) ltac:(lia) ltac:(lia)).
    replace (4 - (counter + 1)) with (3 - counter) in IH by lia.
    replace (4 - counter - Z.of_nat (S (length numbers)))
      with (3 - counter - Z.of_nat (length numbers)) by lia.
    replace (4 - counter) with (Z.succ (3 - counter)) by lia. rewrite Z.pow_succ_r by lia.
    nia.
Qed.

Lemma add_ipv4_numbers_exact numbers ipv4 counter :
  Forall (fun n => 0 <= n <= 255) numbers -> 0 <= counter ->
  counter + Z.of_nat (length numbers) <= 3 -> 0 <= ipv4 ->
  ipv4 + ipv4_weight counter numbers < 2 ^ 32 ->
  add_ipv4_numbers ipv4 counter numbers = ipv4 + ipv4_weight counter numbers.
Proof.
  intros Hn. revert ipv4 counter. induction Hn as [|n numbers Hn Hns IH]; intros ipv4 counter Hc Hl Hi Hs.
  - simpl. lia.
  - cbn [ipv4_weight add_ipv4_numbers length] in *.
    pose proof (ipv4_weight_bound numbers (counter + 1) Hns ltac:(lia) ltac:(lia)) as [Hw _].
    assert (Hp : 0 < 256 ^ (3 - counter) <= 256 ^ 3).
    { split; [apply Z.pow_pos_nonneg; lia|apply Z.pow_le_mono_r; lia]. }
    change (256 ^ 3) with 16777216 in Hp.
    unfold pow_size_t, size_t. rewrite (Z.mod_small (256 ^ (3 - counter))) by lia.
    rewrite (Z.mod_small (n * _)) by nia. rewrite (Z.mod_small (ipv4 + _)) by nia.
    rewrite u32_id by nia. rewrite u8_id by lia. rewrite IH by nia. lia.
Qed.

Lemma any_but_last_spec numbers leading n :
  numbers = leading ++ [n] -> Forall (fun n => 0 <= n < 2 ^ 32) numbers ->
  any_but_last_too_large numbers = false -> Forall (fun n => 0 <= n <= 255) leading.
Proof.
  intros -> Hr. induction leading as [|x leading IH]; intros Ha; [constructor|].
  apply Forall_cons in Hr as [Hx Hr].
  assert ((255 <? x) || any_but_last_too_large (leading ++ [n]) = false) as [? ?]%orb_false_iff
    by (by destruct leading).
  constructor; [lia|]. by apply IH.
Qed.

Lemma last_snoc_inv {A} (l : list A) : l <> [] -> exists l' x, l = l' ++ [x].
Proof. intros H. destruct (exists_last H) as (l' & x & ->). eauto. Qed.

Lemma vector_last_snoc {A} (l : list A) x : vector_last (l ++ [x]) = Ret x.
Proof. unfold vector_last. by rewrite last_snoc. Qed.

Lemma vector_take_last_snoc {A} (l : list A) x : vector_take_last (l ++ [x]) = Ret l.
Proof. unfold vector_take_last. rewrite removelast_last. by destruct l. Qed.

(** The parts whose numbers are parsed: a trailing empty part is dropped. *)
Definition ipv4_parts (input : bytes) : list bytes :=
  let parts := split_on (ch ".") input in
  if match last parts with Some [] => (1 <? length parts)%nat | _ => false end
  then removelast parts else parts.

Lemma parse_ipv4_address_unfold `{FastFloat} input :
  input <> [] ->
  parse_ipv4_address input =
    let parts := ipv4_parts input in
    if (4 <? length parts)%nat then Ret None
    else
      match parse_ipv4_parts parts with
      | None => Ret None
      | Some numbers =>
          if any_but_last_too_large numbers then Ret None
          else
            let* last_number := vector_last numbers in
            if pow_size_t 256 (5 - Z.of_nat (length numbers)) <=? last_number then Ret None
            else
              let* leading := vector_take_last numbers in
              Ret (Some (add_ipv4_numbers last_number 0 leading))
      end.
Proof.
  intros Hne. unfold parse_ipv4_address, ipv4_parts. rewrite split_view_single by done.
  cbn [res_bind]. cbv zeta.
  destruct (last_snoc_inv (split_on 46 input) (split_on_nonempty _ _)) as (l & x & ->).
  rewrite vector_last_snoc, last_snoc. cbn [res_bind].
  destruct x; simpl sv_is_empty; cbv iota; [|done].
  destruct (1 <? length (l ++ [[]]))%nat; [|done].
  by rewrite vector_take_last_snoc, removelast_last.
Qed.

Lemma ipv4_parts_nonempty input : ipv4_parts input <> [].
Proof.
  unfold ipv4_parts. cbv zeta.
  destruct (last_snoc_inv (split_on 46 input) (split_on_nonempty _ _)) as (l & x & ->).
  rewrite last_snoc, removelast_last, length_app. simpl.
  destruct x; [|by destruct l]. destruct l as [|a l]; [done|]. by destruct (1 <? _)%nat.
Qed.

Section Correctness.
Context `{FastFloatLaws}.

(** What a successful parse computed, without any wrap-around. *)
Lemma parse_ipv4_address_value input address :
  input <> [] -> parse_ipv4_address input = Ret (Some address) ->
  exists leading n,
    parse_ipv4_parts (ipv4_parts input) = Some (leading ++ [n])
    /\ (length leading <= 3)%nat /\ Forall (fun n => 0 <= n <= 255) leading
    /\ 0 <= n < 256 ^ (4 - Z.of_nat (length leading))
    /\ address = n + ipv4_weight 0 leading /\ 0 <= address < 2 ^ 32.
Proof.
  intros Hne. rewrite parse_ipv4_address_unfold by done. cbv zeta.
  destruct (Nat.ltb_spec 4 (length (ipv4_parts input))); [done|].
  destruct (parse_ipv4_parts (ipv4_parts input)) as [numbers|] eqn:Hp; [|done].
  apply parse_ipv4_parts_spec in Hp as [Hlen Hrange].
  destruct (any_but_last_too_large numbers) eqn:Hany; [done|].
  destruct (last_snoc_inv numbers) as (leading & n & ->).
  { intros ->. apply (ipv4_parts_nonempty input). by destruct (ipv4_parts input). }
  rewrite vector_last_snoc, vector_take_last_snoc. cbn [res_bind].
  rewrite length_app in *. simpl length in *.
  pose proof (any_but_last_spec _ leading n eq_refl Hrange Hany) as Hlead.
  apply Forall_app in Hrange as [_ Hn]. rewrite Forall_singleton in Hn.
  assert (Hpow : pow_size_t 256 (5 - Z.of_nat (length leading + 1))
                 = 256 ^ (4 - Z.of_nat (length leading))).
  { unfold pow_size_t, size_t. replace (5 - Z.of_nat (length leading + 1)) with (4 - Z.of_nat (length leading)) by lia.
    apply Z.mod_small. split; [apply Z.pow_nonneg; lia|].
    apply Z.le_lt_trans with (256 ^ 4); [apply Z.pow_le_mono_r; lia|done]. }
  rewrite Hpow. destruct (Z.leb_spec (256 ^ (4 - Z.of_nat (length leading))) n); [done|].
  intros [= <-].
  pose proof (ipv4_weight_bound leading 0 Hlead ltac:(lia) ltac:(lia)) as Hw.
  change (256 ^ (4 - 0)) with (2 ^ 32) in Hw. rewrite Z.sub_0_r in Hw.
  exists leading, n. rewrite add_ipv4_numbers_exact by (done || lia).
  repeat split; try done; lia.
Qed.

Lemma parse_ipv4_address_total input :
  input <> [] -> exists o, parse_ipv4_address input = Ret o.
Proof.
  intros Hne. rewrite parse_ipv4_address_unfold by done. cbv zeta.
  destruct (4 <? _)%nat; [by eexists|].
  destruct (parse_ipv4_parts (ipv4_parts input)) as [numbers|] eqn:Hp; [|by eexists].
  apply parse_ipv4_parts_spec in Hp as [Hlen _].
  destruct (any_but_last_too_large numbers); [by eexists|].
  destruct (last_snoc_inv numbers) as (leading & n & ->).
  { intros ->. apply (ipv4_parts_nonempty input). by destruct (ipv4_parts input). }
  rewrite vector_last_snoc, vector_take_last_snoc. cbn [res_bind].
  destruct (_ <=? _); by eexists.
Qed.

End Correctness.

(** ** The serializer *)

Lemma serialize_ipv4_prints address :
  0 <= address < 2 ^ 32 ->
  exists o0 o1 o2 o3 s0 s1 s2 s3,
    address = o0 * 2 ^ 24 + o1 * 2 ^ 16 + o2 * 2 ^ 8 + o3
    /\ (0 <= o0 < 256 /\ 0 <= o1 < 256 /\ 0 <= o2 < 256 /\ 0 <= o3 < 256)
    /\ prints_number 10 o0 s0 /\ prints_number 10 o1 s1
    /\ prints_number 10 o2 s2 /\ prints_number 10 o3 s3
    /\ serialize_ipv4_address address
       = Ret (s0 ++ [ch "."] ++ s1 ++ [ch "."] ++ s2 ++ [ch "."] ++ s3).
Proof.
  intros Ha. unfold serialize_ipv4_address, ipv4_octets. cbv zeta. cbn [at_index lookup list_lookup unwrap res_bind].
  set (o3 := address mod 256). set (o2 := address / 256 mod 256).
  set (o1 := address / 256 / 256 mod 256). set (o0 := address / 256 / 256 / 256 mod 256).
  assert (R : forall z, 0 <= z mod 256 < 2 ^ 64).
  { intros z. pose proof (Z.mod_pos_bound z 256 ltac:(lia)). lia. }
  destruct (format_decimal_prints o0) as (s0 & E0 & P0); [apply R|].
  destruct (format_decimal_prints o1) as (s1 & E1 & P1); [apply R|].
  destruct (format_decimal_prints o2) as (s2 & E2 & P2); [apply R|].
  destruct (format_decimal_prints o3) as (s3 & E3 & P3); [apply R|].
  exists o0, o1, o2, o3, s0, s1, s2, s3.
  unfold at_index. cbn [lookup list_lookup unwrap res_bind]. rewrite E0, E1, E2, E3. cbn [res_bind].
  split; [|split; [|exact (conj P0 (conj P1 (conj P2 (conj P3 eq_refl))))]].
  - subst o0 o1 o2 o3. clear -Ha. change (2 ^ 24) with 16777216.
    change (2 ^ 16) with 65536. change (2 ^ 8) with 256. euclid.
  - subst o0 o1 o2 o3. repeat split; apply Z.mod_pos_bound; lia.
Qed.

Lemma dotted_last s0 s1 s2 s3 :
  forallb (is_radix_digit 10) s0 = true -> forallb (is_radix_digit 10) s1 = true ->
  forallb (is_radix_digit 10) s2 = true -> forallb (is_radix_digit 10) s3 = true -> s3 <> [] ->
  split_on (ch ".") (s0 ++ [ch "."] ++ s1 ++ [ch "."] ++ s2 ++ [ch "."] ++ s3) = [s0; s1; s2; s3]
  /\ ipv4_parts (s0 ++ [ch "."] ++ s1 ++ [ch "."] ++ s2 ++ [ch "."] ++ s3) = [s0; s1; s2; s3].
Proof.
  intros H0 H1 H2 H3 Hne. unfold ipv4_parts. rewrite split_on_four by (by apply decimal_no_dot).
  simpl. destruct s3; [done|]. done.
Qed.

(** The text of an address: digits and dots. *)
Definition is_ipv4_text (x : Z) : bool := is_ascii_digit x || (x =? ch ".").

Lemma digits_ipv4_text s :
  forallb (is_radix_digit 10) s = true -> forallb is_ipv4_text s = true.
Proof.
  rewrite !forallb_Forall_iff. intros Hs. eapply Forall_impl; [exact Hs|].
  intros x Hx. unfold is_ipv4_text. change (is_ascii_digit x = true) in Hx. by rewrite Hx.
Qed.

Lemma serialize_ipv4_text address s :
  0 <= address < 2 ^ 32 -> serialize_ipv4_address address = Ret s ->
  s <> [] /\ forallb is_ipv4_text s = true.
Proof.
  intros Ha Hs. destruct (serialize_ipv4_prints address Ha)
    as (o0 & o1 & o2 & o3 & s0 & s1 & s2 & s3 & _ & _ & (N0 & D0 & _) & (_ & D1 & _)
        & (_ & D2 & _) & (_ & D3 & _) & Hser).
  rewrite Hs in Hser. injection Hser as ->. split; [by destruct s0|].
  do 3 (rewrite forallb_app; cbn [forallb]).
  by rewrite (digits_ipv4_text s0), (digits_ipv4_text s1), (digits_ipv4_text s2), (digits_ipv4_text s3).
Qed.

Lemma ends_in_a_number_checker_total input :
  input <> [] -> exists b, ends_in_a_number_checker input = Ret b.
Proof.
  intros Hne. unfold ends_in_a_number_checker. rewrite split_view_single by done. cbn [res_bind].
  destruct (last_snoc_inv _ (split_on_nonempty 46 input)) as (parts & x & ->).
  rewrite vector_last_snoc. cbn [res_bind]. destruct (sv_is_empty x).
  - rewrite length_app. destruct parts as [|p parts]; [by eexists|].
    rewrite (proj2 (Nat.eqb_neq _ _)) by (simpl; lia). rewrite vector_take_last_snoc. cbn [res_bind].
    destruct (last_snoc_inv (p :: parts) ltac:(done)) as (parts' & y & ->).
    rewrite vector_last_snoc. cbn [res_bind]. repeat (case_match; [by eexists|]). by eexists.
  - cbn [res_bind]. rewrite vector_last_snoc. cbn [res_bind].
    repeat (case_match; [by eexists|]). by eexists.
Qed.

Section Roundtrip.
Context `{FastFloatLaws}.

Lemma ipv4_serialize_parse address :
  0 <= address < 2 ^ 32 ->
  exists s, serialize_ipv4_address address = Ret s
    /\ parse_ipv4_address s = Ret (Some address) /\ ends_in_a_number_checker s = Ret true.
Proof.
  intros Ha. destruct (serialize_ipv4_prints address Ha)
    as (o0 & o1 & o2 & o3 & s0 & s1 & s2 & s3 & Hsum & (R0 & R1 & R2 & R3) & P0 & P1 & P2 & P3 & Hs).
  eexists. split; [exact Hs|].
  pose proof P0 as (_ & D0 & _). pose proof P1 as (_ & D1 & _). pose proof P2 as (_ & D2 & _).
  pose proof P3 as (N3 & D3 & _).
  destruct (dotted_last s0 s1 s2 s3 D0 D1 D2 D3 N3) as [Hsplit Hparts].
  assert (Hne : s0 ++ [46] ++ s1 ++ [46] ++ s2 ++ [46] ++ s3 <> []) by (by destruct s0).
  split.
  - rewrite parse_ipv4_address_unfold, Hparts by done. cbv zeta. cbn [length Nat.ltb Nat.leb].
    cbn [parse_ipv4_parts].
    rewrite (parse_ipv4_number_decimal o0), (parse_ipv4_number_decimal o1),
      (parse_ipv4_number_decimal o2), (parse_ipv4_number_decimal o3) by (done || lia).
    cbn [number any_but_last_too_large].
    replace ((255 <? o0) || ((255 <? o1) || ((255 <? o2) || false))) with false by lia.
    change [o0; o1; o2; o3] with ([o0; o1; o2] ++ [o3]).
    rewrite vector_last_snoc, vector_take_last_snoc. cbn [res_bind app length].
    change (pow_size_t 256 (5 - Z.of_nat 4)) with 256.
    replace (256 <=? o3) with false by lia.
    rewrite add_ipv4_numbers_exact.
    + cbn [ipv4_weight]. do 2 f_equal. rewrite Hsum. simpl Z.sub. simpl Z.pow. lia.
    + repeat constructor; lia.
    + lia.
    + simpl. lia.
    + lia.
    + cbn [ipv4_weight]. simpl Z.sub. simpl Z.pow. lia.
  - unfold ends_in_a_number_checker. rewrite split_view_single, Hsplit by done. cbn [res_bind].
    change [s0; s1; s2; s3] with ([s0; s1; s2] ++ [s3]). rewrite vector_last_snoc. cbn [res_bind].
    destruct s3 as [|c s3]; [done|]. cbn [sv_is_empty res_bind]. rewrite vector_last_snoc.
    cbn [res_bind]. cbn [sv_is_empty negb].
    change (forallb (is_radix_digit 10)) with (forallb is_ascii_digit) in D3. by rewrite D3.
Qed.

End Roundtrip.

(** ** Properties *)

(** Serializing an IPv4 address and parsing the text gives the address
    back: for every 32-bit address the serializer succeeds, the text ends in a
    number (so the host parser takes the IPv4 branch) and the IPv4 parser
    returns exactly that address. *)
Theorem ipv4_roundtrip `{FastFloatLaws} (address : Z) (Ha : 0 <= address < 2 ^ 32) :
  exists s, serialize_ipv4_address address = Ret s
    /\ parse_ipv4_address s = Ret (Some address) /\ ends_in_a_number_checker s = Ret true.
Proof. by apply ipv4_serialize_parse. Qed.

Lemma ipv4_roundtrip_witness :
  serialize_ipv4_address 0xC0A80001 = Ret (sv "192.168.0.1")
  /\ exists s, serialize_ipv4_address 0xC0A80001 = Ret s
     /\ parse_ipv4_address s = Ret (Some 0xC0A80001) /\ ends_in_a_number_checker s = Ret true.
Proof. split; [vm_compute; reflexivity|]. apply ipv4_roundtrip. lia. Defined.

(** C38: the IPv4 parser is exact: it stops the process on the empty string
    alone (which has no last part), and returns an address or a failure on
    every other; and the address it returns is the mathematical value of the
    parsed numbers (the leading ones at most 255, the last below the space left
    for it), so neither the 32-bit accumulator nor the [size_t] powers wrap. *)
Theorem ipv4_parse_exact `{FastFloatLaws} (input : bytes) :
  (parse_ipv4_address input = Crash <-> input = [])
  /\ forall address, parse_ipv4_address input = Ret (Some address) ->
     exists leading n,
       parse_ipv4_parts (ipv4_parts input) = Some (leading ++ [n])
       /\ (length leading <= 3)%nat /\ Forall (fun n => 0 <= n <= 255) leading
       /\ 0 <= n < 256 ^ (4 - Z.of_nat (length leading))
       /\ address = n + ipv4_weight 0 leading /\ 0 <= address < 2 ^ 32.
Proof.
  destruct (decide (input = [])) as [->|Hne]; [by split|]. destruct (parse_ipv4_address_total input Hne) as [o Ho].
  split; [by rewrite Ho|]. intros. by apply parse_ipv4_address_value.
Qed.

Lemma ipv4_parse_exact_witness :
  parse_ipv4_address (sv "0x7f.1") = Ret (Some 0x7F000001)
  /\ exists leading n, parse_ipv4_parts (ipv4_parts (sv "0x7f.1")) = Some (leading ++ [n])
     /\ (length leading <= 3)%nat /\ Forall (fun n => 0 <= n <= 255) leading
     /\ 0 <= n < 256 ^ (4 - Z.of_nat (length leading))
     /\ 0x7F000001 = n + ipv4_weight 0 leading /\ 0 <= 0x7F000001 < 2 ^ 32.
Proof.
  split; [vm_compute; reflexivity|].
  apply (proj2 (ipv4_parse_exact (sv "0x7f.1"))). vm_compute. reflexivity.
Defined.
