(* ===== verification/Ipv6.v ===== *)
(** * IPv6 addresses of URLs: the parser of [LibURL/Parser.cpp], the serializer
      of [LibURL/Host.cpp] and the representation of [AK/IPv6Address.h]

    An [IPv6Address] is its 16 bytes [m_data].  The parser's [pointer] is the
    list of code points it has in front of it; moving it back by [length] is
    going back to the list at the start of the piece.  An exhausted loop bound
    is [Crash], so that a theorem that the parser returns also covers its
    termination. *)

From S2P Require Import Prelude CharacterTypes Utf8 Strings.

(** ** [AK/IPv6Address.h] *)

(** The constructor from [Array<u16, 8>] *)
Definition ipv6_from_pieces (pieces : list Z) : bytes :=
  pieces ≫= fun piece => [u8 (Z.shiftr piece 8); u8 (Z.land piece 0xff)].

(** [IPv6Address::piece], also [operator[]] *)
Definition ipv6_piece (m_data : bytes) (i : nat) : res Z :=
  verify (i <? 8)%nat
    (let* hi := at_index m_data (i * 2) in
     let* lo := at_index m_data (i * 2 + 1) in
     Ret (Z.lor (u16 (Z.shiftl (u16 hi) 8)) lo)).

(** The pieces a loop over the indices 0 to 7 reads. *)
Fixpoint ipv6_pieces_from (m_data : bytes) (i n : nat) : res (list Z) :=
  match n with
  | O => Ret []
  | S n =>
      let* piece := ipv6_piece m_data i in
      let* rest := ipv6_pieces_from m_data (S i) n in
      Ret (piece :: rest)
  end.

Definition ipv6_pieces (m_data : bytes) : res (list Z) := ipv6_pieces_from m_data 0 8.

(** ** The parser *)

Definition end_of_file : Z := 0xFFFFFFFF.

(** The lambda [c] *)
Definition c (pointer : list Z) : Z :=
  match pointer with [] => end_of_file | code_point :: _ => code_point end.

(** [++pointer] *)
Definition advance (pointer : list Z) : list Z := drop 1 pointer.

(** [address[i] = value] on an [Array<u16, 8>] *)
Definition array_set (address : list Z) (i : nat) (value : Z) : res (list Z) :=
  verify (i <? length address)%nat (Ret (<[i := u16 value]> address)).

(** Step 6.4: at most [n] more hexadecimal digits. *)
Fixpoint parse_hex_piece (n : nat) (value : Z) (len : nat) (pointer : list Z)
    : res (Z * nat * list Z) :=
  match n with
  | O => Ret (value, len, pointer)
  | S n =>
      if is_ascii_hex_digit (c pointer) then
        let* digit := parse_ascii_hex_digit (c pointer) in
        parse_hex_piece n (u32 (value * 0x10 + digit)) (S len) (advance pointer)
      else Ret (value, len, pointer)
  end.

(** Step 6.5.5.4: the decimal digits of one IPv4 piece; [None] is failure. *)
Fixpoint parse_ipv4_piece (fuel : nat) (ipv4_piece : option Z) (pointer : list Z)
    : res (option (option Z * list Z)) :=
  if negb (is_ascii_digit (c pointer)) then Ret (Some (ipv4_piece, pointer))
  else
    match fuel with
    | O => Crash
    | S fuel =>
        let* number := parse_ascii_digit (c pointer) in
        let next :=
          match ipv4_piece with
          | None => Some number
          | Some 0 => None
          | Some piece => Some (u32 (u32 (piece * 10) + number))
          end in
        match next with
        | None => Ret None
        | Some piece =>
            if 255 <? piece then Ret None
            else parse_ipv4_piece fuel (Some piece) (advance pointer)
        end
    end.

(** Step 6.5.5: the IPv4 tail; [None] is failure. *)
Fixpoint parse_ipv4_tail (fuel : nat) (address : list Z) (piece_index numbers_seen : nat)
    (pointer : list Z) : res (option (list Z * nat * nat * list Z)) :=
  if c pointer =? end_of_file then Ret (Some (address, piece_index, numbers_seen, pointer))
  else
    match fuel with
    | O => Crash
    | S fuel =>
        let separator :=
          if (0 <? numbers_seen)%nat then
            if (c pointer =? ch ".") && (numbers_seen <? 4)%nat then Some (advance pointer) else None
          else Some pointer in
        match separator with
        | None => Ret None
        | Some pointer =>
            if negb (is_ascii_digit (c pointer)) then Ret None
            else
              let* result := parse_ipv4_piece (length pointer) None pointer in
              match result with
              | None => Ret None
              | Some (ipv4_piece, pointer) =>
                  let* ipv4_piece := unwrap ipv4_piece in
                  let* old := at_index address piece_index in
                  let* address := array_set address piece_index (old * 0x100 + ipv4_piece) in
                  let numbers_seen := S numbers_seen in
                  let piece_index :=
                    if (numbers_seen =? 2)%nat || (numbers_seen =? 4)%nat
                    then S piece_index else piece_index in
                  parse_ipv4_tail fuel address piece_index numbers_seen pointer
              end
        end
    end.

(** Step 6: the main loop; the result is the address, the piece index and
    [compress] at its end, or failure. *)
Fixpoint parse_ipv6_loop (fuel : nat) (address : list Z) (piece_index : nat)
    (compress : option nat) (pointer : list Z) : res (option (list Z * nat * option nat)) :=
  if c pointer =? end_of_file then Ret (Some (address, piece_index, compress))
  else
    match fuel with
    | O => Crash
    | S fuel =>
        if (piece_index =? 8)%nat then Ret None
        else if c pointer =? ch ":" then
          match compress with
          | Some _ => Ret None
          | None =>
              parse_ipv6_loop fuel address (S piece_index) (Some (S piece_index)) (advance pointer)
          end
        else
          let start := pointer in
          let* (value, len, pointer) := parse_hex_piece 4 0 0 start in
          if c pointer =? ch "." then
            if (len =? 0)%nat then Ret None
            else
              let pointer := start in
              if (6 <? piece_index)%nat then Ret None
              else
                let* result := parse_ipv4_tail (length pointer) address piece_index 0 pointer in
                match result with
                | None => Ret None
                | Some (address, piece_index, numbers_seen, pointer) =>
                    if negb (numbers_seen =? 4)%nat then Ret None
                    else Ret (Some (address, piece_index, compress))
                end
          else
            let separator :=
              if c pointer =? ch ":" then
                let pointer := advance pointer in
                if c pointer =? end_of_file then None else Some pointer
              else if negb (c pointer =? end_of_file) then None
              else Some pointer in
            match separator with
            | None => Ret None
            | Some pointer =>
                let* address := array_set address piece_index value in
                parse_ipv6_loop fuel address (S piece_index) compress pointer
            end
    end.

(** Step 7.3: the swap loop. *)
Fixpoint swap_pieces (address : list Z) (piece_index compress swaps : nat) : res (list Z) :=
  match piece_index, swaps with
  | S piece_index', S swaps' =>
      let j := (compress + swaps - 1)%nat in
      let* x := at_index address piece_index in
      let* y := at_index address j in
      let* address := array_set address piece_index y in
      let* address := array_set address j x in
      swap_pieces address piece_index' compress swaps'
  | _, _ => Ret address
  end.

Definition parse_ipv6_address (input : bytes) : res (option bytes) :=
  let address := repeat 0 8 in
  let pointer := code_points input in
  let start :=
    if c pointer =? ch ":" then
      if negb (c (advance pointer) =? ch ":") then None
      else Some (drop 2 pointer, 1%nat, Some 1%nat)
    else Some (pointer, 0%nat, None) in
  match start with
  | None => Ret None
  | Some (pointer, piece_index, compress) =>
      let* result := parse_ipv6_loop (length pointer) address piece_index compress pointer in
      match result with
      | None => Ret None
      | Some (address, piece_index, compress) =>
          match compress with
          | Some compress =>
              let swaps := (piece_index - compress)%nat in
              let* address := swap_pieces address 7 compress swaps in
              Ret (Some (ipv6_from_pieces address))
          | None =>
              if negb (piece_index =? 8)%nat then Ret None
              else Ret (Some (ipv6_from_pieces address))
          end
      end
  end.

(** ** The serializer *)

(** The loop of [find_the_ipv6_address_compressed_piece_index] from
    [piece_index] on. *)
Fixpoint find_compressed_from (pieces : list Z) (piece_index : nat)
    (longest_index : option nat) (longest_size : nat)
    (found_index : option nat) (found_size : nat) : option nat :=
  match pieces with
  | [] => if (longest_size <? found_size)%nat then found_index else longest_index
  | piece :: pieces =>
      if negb (piece =? 0) then
        let '(longest_index, longest_size) :=
          if (longest_size <? found_size)%nat then (found_index, found_size)
          else (longest_index, longest_size) in
        find_compressed_from pieces (S piece_index) longest_index longest_size None 0
      else
        let found_index := match found_index with None => Some piece_index | Some _ => found_index end in
        find_compressed_from pieces (S piece_index) longest_index longest_size
          found_index (S found_size)
  end.

Definition find_the_ipv6_address_compressed_piece_index (pieces : list Z) : option nat :=
  find_compressed_from pieces 0 None 1 None 0.

(** The loop of [serialize_ipv6_address] from [piece_index] on. *)
Fixpoint serialize_ipv6_from (pieces : list Z) (piece_index : nat) (compress : option nat)
    (ignore0 : bool) (output : bytes) : res bytes :=
  match pieces with
  | [] => Ret output
  | piece :: pieces =>
      if ignore0 && (piece =? 0) then
        serialize_ipv6_from pieces (S piece_index) compress ignore0 output
      else if bool_decide (compress = Some piece_index) then
        let separator := if (piece_index =? 0)%nat then sv "::" else sv ":" in
        serialize_ipv6_from pieces (S piece_index) compress true (output ++ separator)
      else
        let* digits := format_hex piece in
        let output := output ++ digits in
        let output := if negb (piece_index =? 7)%nat then output ++ [ch ":"] else output in
        serialize_ipv6_from pieces (S piece_index) compress false output
  end.

Definition serialize_ipv6_address (m_data : bytes) : res bytes :=
  let* pieces := ipv6_pieces m_data in
  let compress := find_the_ipv6_address_compressed_piece_index pieces in
  serialize_ipv6_from pieces 0 compress false [].

(** ** Facts: the parser always returns, and never leaves its array *)

Lemma advance_length pointer :
  c pointer <> end_of_file -> S (length (advance pointer)) = length pointer.
Proof. destruct pointer; [done|]. intros _. unfold advance. simpl. by rewrite drop_0. Qed.

Lemma hex_digit_not_eof x : is_ascii_hex_digit x = true -> x <> end_of_file.
Proof. unfold end_of_file. ascii_lia. Qed.

Lemma array_set_ok address i value :
  (i < length address)%nat ->
  array_set address i value = Ret (<[i := u16 value]> address).
Proof. intros H. unfold array_set, verify. by rewrite (proj2 (Nat.ltb_lt _ _) H). Qed.

Lemma parse_hex_piece_total n value len pointer :
  exists value' len' pointer',
    parse_hex_piece n value len pointer = Ret (value', len', pointer')
    /\ (len' + length pointer' = len + length pointer)%nat
    /\ (len <= len')%nat /\ (len' = len -> pointer' = pointer).
Proof.
  revert value len pointer. induction n as [|n IH]; intros value len pointer; simpl.
  { eexists _, _, _. split; [done|]. split; [lia|]. split; [lia|done]. }
  destruct (is_ascii_hex_digit (c pointer)) eqn:Hhex.
  2: { eexists _, _, _. split; [done|]. split; [lia|]. split; [lia|done]. }
  rewrite parse_ascii_hex_digit_ok by done. simpl.
  destruct (IH (u32 (value * 16 + hex_value (c pointer))) (S len) (advance pointer))
    as (v & l & p & -> & Hlen & Hle & _).
  pose proof (advance_length pointer (hex_digit_not_eof _ Hhex)).
  eexists _, _, _. split; [done|]. split; [lia|]. split; [lia|]. lia.
Qed.

Lemma parse_ipv4_piece_total fuel ipv4_piece pointer :
  (length pointer <= fuel)%nat ->
  exists result, parse_ipv4_piece fuel ipv4_piece pointer = Ret result
    /\ forall piece rest, result = Some (piece, rest) ->
       (length rest <= length pointer)%nat
       /\ (is_ascii_digit (c pointer) = true -> (length rest < length pointer)%nat)
       /\ (is_ascii_digit (c pointer) = true \/ is_Some ipv4_piece -> is_Some piece).
Proof.
  revert ipv4_piece pointer. induction fuel as [|fuel IH]; intros ipv4_piece pointer Hfuel;
    cbn [parse_ipv4_piece]; destruct (is_ascii_digit (c pointer)) eqn:Hd; cbn [negb].
  1: destruct pointer; [done|simpl in Hfuel; lia].
  1, 3: eexists; split; [done|]; intros ? ? [= <- <-]; split; [lia|]; split; [done|]; by intros [|].
  pose proof (advance_length pointer (hex_digit_not_eof _ (is_ascii_digit_hex _ Hd))) as Hadv.
  rewrite parse_ascii_digit_ok by done. cbn [res_bind].
  destruct (match ipv4_piece with None => _ | _ => _ end) as [piece|]; [|by eexists].
  destruct (255 <? piece); [by eexists|].
  destruct (IH (Some piece) (advance pointer) ltac:(lia)) as (r & Hr & Hspec).
  exists r. split; [exact Hr|]. intros piece' rest Heq.
  destruct (Hspec piece' rest Heq) as (Hle & _ & Hsome).
  split; [lia|]. split; [lia|]. intros _. apply Hsome. right. eauto.
Qed.

(** The index the IPv4 tail writes to after [numbers_seen] numbers. *)
Lemma parse_ipv4_tail_total fuel start address numbers_seen pointer :
  (length pointer <= fuel)%nat -> (start <= 6)%nat -> (numbers_seen <= 4)%nat ->
  length address = 8%nat ->
  exists result,
    parse_ipv4_tail fuel address (start + numbers_seen / 2) numbers_seen pointer = Ret result
    /\ forall address' piece_index' numbers' rest,
       result = Some (address', piece_index', numbers', rest) ->
       length address' = 8%nat /\ piece_index' = (start + numbers' / 2)%nat.
Proof.
  revert address numbers_seen pointer.
  induction fuel as [|fuel IH]; intros address seen pointer Hfuel Hstart Hseen Haddr;
    cbn [parse_ipv4_tail]; destruct (Z.eqb_spec (c pointer) end_of_file) as [He|He].
  1, 3: eexists; split; [done|]; intros ? ? ? ? [= <- <- <- <-]; done.
  1: destruct pointer; [done|simpl in Hfuel; lia].
  pose proof (advance_length pointer He) as Hadv. cbv zeta.
  set (separator := if (0 <? seen)%nat then _ else _).
  assert (Hsep : forall p, separator = Some p -> (seen < 4)%nat /\ (length p <= length pointer)%nat).
  { intros p. unfold separator. destruct (Nat.ltb_spec 0 seen).
    - destruct (_ && _) eqn:Hb; [|done]. intros [= <-]. apply andb_prop in Hb as [_ Hb%Nat.ltb_lt]. lia.
    - intros [= <-]. lia. }
  destruct separator as [p|]; [|by eexists].
  destruct (Hsep p eq_refl) as [Hseen4 Hp]. clear Hsep.
  destruct (is_ascii_digit (c p)) eqn:Hd; cbn [negb]; [|by eexists].
  destruct (parse_ipv4_piece_total (length p) None p ltac:(lia)) as (r & -> & Hr).
  cbn [res_bind]. destruct r as [[piece rest]|]; [|by eexists].
  destruct (Hr piece rest eq_refl) as (_ & Hlt & Hsome).
  destruct Hsome as [v ->]; [by left|]. cbn [unwrap res_bind].
  assert (Hidx : (start + seen / 2 < length address)%nat).
  { rewrite Haddr. destruct seen as [|[|[|[|]]]]; simpl; lia. }
  destruct (at_index_ok address _ Hidx) as [old ->]. cbn [res_bind].
  rewrite array_set_ok by done. cbn [res_bind].
  replace (if (S seen =? 2)%nat || (S seen =? 4)%nat then S (start + seen / 2) else (start + seen / 2)%nat)
    with (start + S seen / 2)%nat.
  2: { destruct seen as [|[|[|[|]]]]; simpl; lia. }
  apply IH; [specialize (Hlt Hd); lia|lia|lia|by rewrite length_insert].
Qed.

(** What the main loop keeps of its state. *)
Definition ipv6_state_ok (address : list Z) (piece_index : nat) (compress : option nat) : Prop :=
  length address = 8%nat /\ (piece_index <= 8)%nat
  /\ forall k, compress = Some k -> (1 <= k <= piece_index)%nat.

Lemma parse_ipv6_loop_total fuel address piece_index compress pointer :
  (length pointer <= fuel)%nat -> ipv6_state_ok address piece_index compress ->
  exists result, parse_ipv6_loop fuel address piece_index compress pointer = Ret result
    /\ forall address' piece_index' compress',
       result = Some (address', piece_index', compress') ->
       ipv6_state_ok address' piece_index' compress'.
Proof.
  revert address piece_index compress pointer.
  induction fuel as [|fuel IH]; intros address index compress pointer Hfuel Hok;
    cbn [parse_ipv6_loop]; destruct (Z.eqb_spec (c pointer) end_of_file) as [He|He].
  1, 3: eexists; split; [done|]; by intros ? ? ? [= <- <- <-].
  1: destruct pointer; [done|simpl in Hfuel; lia].
  pose proof (advance_length pointer He) as Hadv. destruct Hok as (Haddr & Hidx & Hcomp).
  destruct (Nat.eqb_spec index 8) as [|Hne]; [by eexists|].
  destruct (Z.eqb_spec (c pointer) 58) as [Hcolon|Hcolon].
  { destruct compress; [by eexists|]. apply IH; [lia|].
    split; [done|]. split; [lia|]. intros k [= <-]. lia. }
  destruct (parse_hex_piece_total 4 0 0 pointer) as (v & l & p & -> & Hlen & _ & Hsame).
  cbn [res_bind]. destruct (Z.eqb_spec (c p) 46) as [Hdot|Hdot].
  - destruct (l =? 0)%nat; [by eexists|]. destruct (Nat.ltb_spec 6 index); [by eexists|].
    destruct (parse_ipv4_tail_total (length pointer) index address 0 pointer)
      as (r & Hr & Hspec); [lia..|done|]. rewrite Nat.add_0_r in Hr. rewrite Hr.
    cbn [res_bind]. destruct r as [[[[a i] n] rest]|]; [|by eexists].
    destruct (Nat.eqb_spec n 4) as [->|]; cbn [negb]; [|by eexists].
    eexists. split; [done|]. intros ? ? ? [= <- <- <-].
    destruct (Hspec _ _ _ _ eq_refl) as [Ha ->]. split; [done|]. simpl.
    split; [lia|]. intros k Hk. specialize (Hcomp k Hk). lia.
  - cbv zeta. set (separator := if c p =? 58 then _ else _).
    assert (Hsep : forall q, separator = Some q -> (length q < length pointer)%nat).
    { intros q. unfold separator. destruct (Z.eqb_spec (c p) 58) as [Hc|Hc].
      - destruct (_ =? end_of_file); [done|]. intros [= <-].
        assert (c p <> end_of_file) as Hp by (rewrite Hc; done).
        pose proof (advance_length p Hp). lia.
      - destruct (Z.eqb_spec (c p) end_of_file) as [Hp|]; [|done]. intros [= <-].
        destruct (decide (l = 0)%nat) as [->|]; [|lia]. by rewrite Hsame in Hp. }
    destruct separator as [q|]; [|by eexists]. specialize (Hsep q eq_refl).
    rewrite array_set_ok by lia. cbn [res_bind]. apply IH; [lia|].
    split; [by rewrite length_insert|]. split; [lia|]. intros k Hk. specialize (Hcomp k Hk). lia.
Qed.

Lemma swap_pieces_total address piece_index compress swaps :
  length address = 8%nat -> (piece_index <= 7)%nat -> (compress + swaps <= 8)%nat ->
  exists address', swap_pieces address piece_index compress swaps = Ret address'
    /\ length address' = 8%nat.
Proof.
  revert address swaps. induction piece_index as [|i IH]; intros address swaps Ha Hi Hs;
    cbn [swap_pieces]; [destruct swaps; eauto|]. destruct swaps as [|swaps]; [eauto|]. cbv zeta.
  destruct (at_index_ok address (S i) ltac:(lia)) as [x ->]. cbn [res_bind].
  destruct (at_index_ok address (compress + S swaps - 1) ltac:(lia)) as [y ->]. cbn [res_bind].
  rewrite !array_set_ok by (rewrite ?length_insert; lia). cbn [res_bind].
  rewrite array_set_ok by (rewrite ?length_insert; lia). cbn [res_bind].
  apply IH; [by rewrite !length_insert|lia..].
Qed.

Lemma ipv6_from_pieces_length pieces :
  length (ipv6_from_pieces pieces) = (2 * length pieces)%nat.
Proof. unfold ipv6_from_pieces. induction pieces as [|p pieces IH]; [done|]. cbn in IH |- *. lia. Qed.

Lemma ipv6_from_pieces_bytes pieces : all_bytes (ipv6_from_pieces pieces).
Proof.
  induction pieces as [|p pieces IH]; [constructor|]. cbn.
  constructor; [pose proof (u8_range (Z.shiftr p 8)); unfold is_byte; lia|].
  constructor; [pose proof (u8_range (Z.land p 0xff)); unfold is_byte; lia|exact IH].
Qed.

Lemma parse_ipv6_address_total input :
  exists result, parse_ipv6_address input = Ret result
    /\ forall address, result = Some address -> length address = 16%nat /\ all_bytes address.
Proof.
  unfold parse_ipv6_address. cbv zeta. set (start := if c (code_points input) =? 58 then _ else _).
  assert (Hstart : forall p i k, start = Some (p, i, k) -> ipv6_state_ok (repeat 0 8) i k).
  { intros p i k. unfold start. repeat case_match; try done; intros [= <- <- <-].
    all: (split; [done|]; split; [lia|]; intros ? [= <-]; lia). }
  destruct start as [[[p i] k]|]; [|by eexists].
  destruct (parse_ipv6_loop_total (length p) _ i k p ltac:(lia) (Hstart _ _ _ eq_refl))
    as (r & -> & Hr). cbn [res_bind].
  destruct r as [[[a i'] k']|]; [|by eexists].
  destruct (Hr _ _ _ eq_refl) as (Ha & Hi & Hk). destruct k' as [k'|].
  - specialize (Hk k' eq_refl).
    destruct (swap_pieces_total a 7 k' (i' - k')) as (a' & -> & Ha'); [done|lia..|].
    cbn [res_bind]. eexists. split; [done|]. intros ? [= <-].
    rewrite ipv6_from_pieces_length, Ha'. split; [done|apply ipv6_from_pieces_bytes].
  - destruct (i' =? 8)%nat; cbn [negb]; [|by eexists]. eexists. split; [done|]. intros ? [= <-].
    rewrite ipv6_from_pieces_length, Ha. split; [done|apply ipv6_from_pieces_bytes].
Qed.

(** ** Facts: the compressed piece index is the first longest run of zeroes *)

Fixpoint zero_prefix (pieces : list Z) : nat :=
  match pieces with
  | [] => 0
  | piece :: pieces => if piece =? 0 then S (zero_prefix pieces) else 0
  end.

(** The number of zero pieces from index [i] on. *)
Definition zero_run (pieces : list Z) (i : nat) : nat := zero_prefix (drop i pieces).

Lemma zero_run_between pieces i j :
  (j <= i <= length pieces)%nat -> (forall m, (j <= m < i)%nat -> pieces !! m = Some 0) ->
  zero_run pieces j = (i - j + zero_run pieces i)%nat.
Proof.
  intros [Hji Hi]. remember (i - j)%nat as n eqn:Hn. revert j Hji Hn.
  induction n as [|n IH]; intros j Hji Hn Hz.
  { by replace j with i by lia. }
  specialize (IH (S j) ltac:(lia) ltac:(lia) ltac:(intros; apply Hz; lia)).
  unfold zero_run in *. rewrite (drop_S _ 0 j) by (apply Hz; lia). simpl. lia.
Qed.

Lemma zero_run_stop pieces i :
  match drop i pieces with [] => True | piece :: _ => piece <> 0 end -> zero_run pieces i = 0%nat.
Proof. unfold zero_run. destruct (drop i pieces) as [|p l]; [done|]. simpl. intros ?. by destruct (Z.eqb_spec p 0). Qed.

(** The best run among the start indices below [bound]. *)
Definition best_run (pieces : list Z) (bound : nat) (longest_index : option nat) (size : nat) : Prop :=
  (forall j, (j < bound)%nat -> (zero_run pieces j <= size)%nat)
  /\ match longest_index with
     | None => size = 1%nat
     | Some k => (k < bound)%nat /\ zero_run pieces k = size /\ (2 <= size)%nat
                 /\ forall j, (j < k)%nat -> (zero_run pieces j < size)%nat
     end.

(** Closing a run of [n] zeroes that starts at [i - n] and ends before [i]. *)
Lemma best_run_close pieces i n index size :
  (n <= i <= length pieces)%nat -> (forall m, (i - n <= m < i)%nat -> pieces !! m = Some 0) ->
  zero_run pieces i = 0%nat -> best_run pieces (i - n) index size ->
  let found := if (0 <? n)%nat then Some (i - n)%nat else None in
  let '(index, size) := if (size <? n)%nat then (found, n) else (index, size) in
  best_run pieces (S i) index size.
Proof.
  intros Hi Hz Hstop [Hall Hbest]. cbv zeta.
  assert (Hrun : forall j, (i - n <= j <= i)%nat -> zero_run pieces j = (i - j)%nat).
  { intros j Hj. rewrite (zero_run_between pieces i j); [lia|lia|]. intros m Hm. apply Hz. lia. }
  assert (Hin : forall j, (j < S i)%nat -> (j < i - n)%nat \/ (zero_run pieces j <= n)%nat).
  { intros j Hj. destruct (decide (j < i - n)%nat); [by left|right]. rewrite Hrun; lia. }
  assert (Hsize : (1 <= size)%nat) by (destruct index; lia).
  destruct (Nat.ltb_spec size n).
  - rewrite (proj2 (Nat.ltb_lt 0 n)) by lia. split.
    + intros j Hj. destruct (Hin j Hj) as [Hj'|]; [specialize (Hall j Hj')|]; lia.
    + split; [lia|]. rewrite Hrun by lia. split; [lia|]. split; [lia|].
      intros j Hj. specialize (Hall j Hj). lia.
  - split.
    + intros j Hj. destruct (Hin j Hj) as [Hj'|]; [specialize (Hall j Hj')|]; lia.
    + destruct index as [k|]; [|done]. destruct Hbest as (Hk & ? & ? & ?). repeat split; try done. lia.
Qed.

Lemma find_compressed_from_best pieces rest i index size n :
  drop i pieces = rest -> (n <= i <= length pieces)%nat ->
  (forall m, (i - n <= m < i)%nat -> pieces !! m = Some 0) ->
  best_run pieces (i - n) index size ->
  exists size',
    best_run pieces (length pieces)
      (find_compressed_from rest i index size (if (0 <? n)%nat then Some (i - n)%nat else None) n) size'.
Proof.
  revert i index size n. induction rest as [|piece rest IH]; intros i index size n Hrest Hi Hz Hbest.
  - assert (Hlen : i = length pieces).
    { apply (f_equal length) in Hrest. rewrite length_drop in Hrest. simpl in Hrest. lia. }
    pose proof (best_run_close pieces i n index size Hi Hz
      (zero_run_stop pieces i ltac:(by rewrite Hrest)) Hbest) as Hclose. cbv zeta in Hclose.
    cbn [find_compressed_from].
    assert (Hcut : forall k s, best_run pieces (S i) k s -> (forall j, k = Some j -> j < i)%nat ->
      best_run pieces (length pieces) k s).
    { intros k s [Ha Hb] Hk. split; [intros j Hj; apply Ha; lia|]. destruct k; [|done].
      destruct Hb as (_ & ?). split; [|done]. rewrite <- Hlen. by apply Hk. }
    destruct (Nat.ltb_spec size n).
    + exists n. apply Hcut; [done|]. destruct (Nat.ltb_spec 0 n); [|lia]. intros j [= <-]. lia.
    + exists size. apply Hcut; [done|]. intros j ->. destruct Hbest as [_ [? _]]. lia.
  - assert (Hp : pieces !! i = Some piece).
    { rewrite <- (Nat.add_0_r i), <- lookup_drop, Hrest. done. }
    assert (Hlt : (i < length pieces)%nat) by (apply lookup_lt_Some in Hp; done).
    assert (Hdrop : drop (S i) pieces = rest).
    { rewrite (drop_S _ piece) in Hrest by done. by simplify_eq. }
    cbn [find_compressed_from]. destruct (Z.eqb_spec piece 0) as [->|Hnz]; cbn [negb].
    + replace (match (if (0 <? n)%nat then Some (i - n)%nat else None) with
               | Some _ => if (0 <? n)%nat then Some (i - n)%nat else None | None => Some i end)
        with (if (0 <? S n)%nat then Some (S i - S n)%nat else None).
      2: { destruct (Nat.ltb_spec 0 n); simpl; f_equal; lia. }
      apply IH; [done|lia| |done]. intros m Hm.
      destruct (decide (m = i)) as [->|]; [done|]. apply Hz. lia.
    + pose proof (best_run_close pieces i n index size ltac:(lia) Hz
        (zero_run_stop pieces i ltac:(by rewrite Hrest)) Hbest) as Hclose. cbv zeta in Hclose.
      destruct (if (size <? n)%nat then _ else _) as [index' size'].
      apply (IH (S i) index' size' 0%nat); [done|lia|lia|by rewrite Nat.sub_0_r].
Qed.

Lemma find_compressed_best pieces :
  exists size, best_run pieces (length pieces) (find_the_ipv6_address_compressed_piece_index pieces) size.
Proof.
  apply (find_compressed_from_best pieces pieces 0 None 1 0); [done|lia|lia|].
  split; [lia|done].
Qed.

(** ** Facts: pieces to bytes and back *)

Abbreviation u16s := (Forall (fun p : Z => 0 <= p < 65536)).

Lemma piece_of_bytes p :
  0 <= p < 65536 ->
  Z.lor (u16 (Z.shiftl (u16 (u8 (Z.shiftr p 8))) 8)) (u8 (Z.land p 0xff)) = p.
Proof.
  intros Hp. rewrite Z.shiftr_div_pow2 by lia.
  change 0xff with (2 ^ 8 - 1). rewrite land_ones_mod by lia.
  rewrite (u8_id (p / 2 ^ 8)) by euclid. rewrite (u8_id (p mod 2 ^ 8)) by euclid.
  rewrite (u16_id (p / 2 ^ 8)) by euclid.
  rewrite (u16_id (Z.shiftl _ _)) by (rewrite Z.shiftl_mul_pow2 by lia; euclid).
  rewrite lor_shiftl_add by euclid. euclid.
Qed.

Lemma ipv6_pieces_of_pieces pieces :
  length pieces = 8%nat -> u16s pieces -> ipv6_pieces (ipv6_from_pieces pieces) = Ret pieces.
Proof.
  intros Hlen Hp. do 8 (destruct pieces as [|? pieces]; [done|]).
  destruct pieces; [|done]. rewrite !Forall_cons in Hp. destruct_and!.
  unfold ipv6_pieces. cbn -[Z.lor Z.shiftl Z.shiftr Z.land u8 u16].
  by rewrite !piece_of_bytes by done.
Qed.

(** ** Facts: the hexadecimal pieces of a serialized address *)

(** The text of one piece. *)
Definition hex_text (piece : Z) : bytes := match format_hex piece with Ret s => s | Crash => [] end.

Lemma digits_value_lead base d s :
  1 <= base -> forallb is_ascii_hex_digit (d :: s) = true ->
  hex_value d * base ^ Z.of_nat (length s) <= digits_value base (d :: s).
Proof.
  intros Hb. induction s as [|x s IH] using rev_ind; intros Hhex.
  { unfold digits_value. simpl. lia. }
  rewrite app_comm_cons in *. rewrite forallb_app in Hhex. apply andb_prop in Hhex as [Hs Hx].
  rewrite digits_value_app, length_app. simpl length. simpl in Hx.
  rewrite andb_true_r in Hx. pose proof (hex_value_range x Hx). specialize (IH Hs).
  rewrite Nat2Z.inj_add, Z.pow_add_r by lia. simpl. nia.
Qed.

Lemma hex_text_spec piece :
  0 <= piece < 65536 ->
  format_hex piece = Ret (hex_text piece)
  /\ forallb is_ascii_hex_digit (hex_text piece) = true
  /\ digits_value 16 (hex_text piece) = piece /\ (1 <= length (hex_text piece) <= 4)%nat.
Proof.
  intros Hp. destruct (format_hex_prints piece ltac:(lia)) as (s & Hs & Hne & Hd & Hv & Hlead).
  unfold hex_text. rewrite Hs. split; [done|].
  assert (Hhex : forallb is_ascii_hex_digit s = true) by exact Hd.
  split; [done|]. split; [done|].
  destruct s as [|d s]; [done|]. split; [simpl; lia|].
  destruct (decide (length (d :: s) <= 4)%nat) as [|Hlong]; [done|exfalso].
  specialize (Hlead ltac:(lia)). unfold starts_with_char in Hlead. simpl in Hlong.
  pose proof (digits_value_lead 16 d s ltac:(lia) Hhex) as Hbound. rewrite Hv in Hbound.
  apply andb_prop in Hhex as [Hdx _].
  assert (1 <= hex_value d). { clear - Hdx Hlead. unfold hex_value. repeat break_match; ascii_lia. }
  assert (16 ^ 4 <= 16 ^ Z.of_nat (length s)) by (apply Z.pow_le_mono_r; lia). nia.
Qed.

Lemma parse_hex_piece_digits s n value len rest :
  forallb is_ascii_hex_digit s = true -> (length s <= n <= 4)%nat ->
  is_ascii_hex_digit (c rest) = false -> 0 <= value < 16 ^ Z.of_nat (4 - n) ->
  parse_hex_piece n value len (s ++ rest) =
    Ret (fold_left (fun acc d => acc * 16 + hex_value d) s value, (len + length s)%nat, rest).
Proof.
  revert n value len. induction s as [|d s IH]; intros n value len Hs Hn Hrest Hv.
  { destruct n; simpl; rewrite ?Hrest, Nat.add_0_r; done. }
  simpl in Hs, Hn. apply andb_prop in Hs as [Hd Hs]. destruct n as [|n]; [lia|].
  cbn [parse_hex_piece app c]. rewrite Hd, parse_ascii_hex_digit_ok by done. cbn [res_bind].
  pose proof (hex_value_range d Hd).
  assert (Hpow : 16 ^ Z.of_nat (4 - n) = 16 * 16 ^ Z.of_nat (4 - S n)).
  { replace (4 - n)%nat with (S (4 - S n)) by lia. rewrite Nat2Z.inj_succ, Z.pow_succ_r by lia. done. }
  assert (Hle : 16 ^ Z.of_nat (4 - n) <= 16 ^ 4) by (apply Z.pow_le_mono_r; lia).
  rewrite u32_id by lia. unfold advance. cbn [drop]. rewrite drop_0.
  rewrite IH by (done || lia). simpl. repeat f_equal. lia.
Qed.

Lemma parse_hex_text piece rest :
  0 <= piece < 65536 -> is_ascii_hex_digit (c rest) = false ->
  parse_hex_piece 4 0 0 (hex_text piece ++ rest) = Ret (piece, length (hex_text piece), rest).
Proof.
  intros Hp Hrest. destruct (hex_text_spec piece Hp) as (_ & Hhex & Hv & Hlen).
  rewrite parse_hex_piece_digits; [|done|lia|done|simpl; lia]. fold (digits_value 16 (hex_text piece)). by rewrite Hv.
Qed.

Lemma hex_text_head piece rest :
  0 <= piece < 65536 ->
  is_ascii_hex_digit (c (hex_text piece ++ rest)) = true
  /\ c (hex_text piece ++ rest) <> end_of_file /\ c (hex_text piece ++ rest) <> ch ":".
Proof.
  intros Hp. destruct (hex_text_spec piece Hp) as (_ & Hhex & _ & Hlen).
  destruct (hex_text piece) as [|d s]; [simpl in Hlen; lia|]. simpl in *.
  apply andb_prop in Hhex as [Hd _]. split; [done|]. unfold end_of_file. clear Hlen. ascii_lia.
Qed.

(** The main loop over one piece. *)
Lemma parse_ipv6_loop_piece fuel address i compress piece rest :
  0 <= piece < 65536 -> (i < 8)%nat -> length address = 8%nat ->
  c rest <> end_of_file \/ rest = [] ->
  parse_ipv6_loop (S fuel) address i compress
    (hex_text piece ++ match rest with [] => [] | _ => ch ":" :: rest end) =
  parse_ipv6_loop fuel (<[i := piece]> address) (S i) compress rest.
Proof.
  intros Hp Hi Ha Hrest. set (tail := match rest with [] => [] | _ => _ end).
  destruct (hex_text_head piece tail Hp) as (_ & He & Hc). cbn [parse_ipv6_loop].
  rewrite (proj2 (Z.eqb_neq _ _) He), (proj2 (Nat.eqb_neq _ _)), (proj2 (Z.eqb_neq _ _) Hc) by lia.
  assert (Htail : is_ascii_hex_digit (c tail) = false /\ c tail <> ch ".").
  { unfold tail. destruct rest; done. }
  destruct Htail as [Hth Htd]. rewrite parse_hex_text by done. cbn [res_bind].
  rewrite (proj2 (Z.eqb_neq _ _) Htd). cbv zeta.
  replace (if c tail =? 58 then _ else _) with (Some rest).
  2: { unfold tail. destruct rest as [|x rest]; [done|]. destruct Hrest as [Hrest|]; [|done].
       cbn [c]. rewrite Z.eqb_refl. unfold advance. cbn [drop].
       by rewrite (proj2 (Z.eqb_neq _ _) Hrest). }
  rewrite array_set_ok by lia. cbn [res_bind]. by rewrite u16_id.
Qed.

(** Pieces separated by colons. *)
Fixpoint joined (pieces : list Z) : bytes :=
  match pieces with
  | [] => []
  | [piece] => hex_text piece
  | piece :: pieces => hex_text piece ++ ch ":" :: joined pieces
  end.

(** Pieces each followed by a colon. *)
Definition terminated (pieces : list Z) : bytes :=
  pieces ≫= fun piece => hex_text piece ++ [ch ":"].

Lemma terminated_cons piece pieces rest :
  terminated (piece :: pieces) ++ rest = hex_text piece ++ ch ":" :: (terminated pieces ++ rest).
Proof. unfold terminated. cbn -[hex_text]. by rewrite <- !app_assoc. Qed.

Lemma joined_head pieces :
  u16s pieces -> pieces <> [] -> c (joined pieces) <> end_of_file /\ joined pieces <> [].
Proof.
  intros Hp Hne. destruct pieces as [|p pieces]; [done|]. apply Forall_cons in Hp as [Hp _].
  assert (exists rest, joined (p :: pieces) = hex_text p ++ rest) as [rest ->].
  { destruct pieces; simpl; [exists []; by rewrite app_nil_r|eauto]. }
  destruct (hex_text_head p rest Hp) as (_ & He & _). split; [done|].
  intros H. by rewrite H in He.
Qed.

Lemma parse_ipv6_loop_joined pieces address i compress fuel :
  u16s pieces -> length address = 8%nat -> (i + length pieces <= 8)%nat ->
  (length (joined pieces) <= fuel)%nat ->
  parse_ipv6_loop fuel address i compress (joined pieces) =
    Ret (Some (list_inserts i pieces address, (i + length pieces)%nat, compress)).
Proof.
  revert address i fuel. induction pieces as [|p pieces IH]; intros address i fuel Hp Ha Hi Hfuel.
  { destruct fuel; simpl; rewrite Nat.add_0_r; done. }
  apply Forall_cons in Hp as [Hp Hps]. simpl in Hi.
  assert (Htext : joined (p :: pieces) =
    hex_text p ++ match joined pieces with [] => [] | _ => ch ":" :: joined pieces end).
  { destruct pieces as [|q pieces]; [simpl; by rewrite app_nil_r|].
    destruct (joined_head (q :: pieces) Hps ltac:(done)) as [_ Hne].
    cbn [joined] in *. by destruct (match pieces with [] => _ | _ => _ end). }
  rewrite Htext in Hfuel |- *. rewrite length_app in Hfuel.
  destruct (hex_text_spec p Hp) as (_ & _ & _ & Hlen). destruct fuel as [|fuel]; [lia|].
  rewrite parse_ipv6_loop_piece; [|done|lia|done|].
  2: { destruct pieces; [by right|left]. by apply joined_head. }
  rewrite IH; [|done|by rewrite length_insert|lia|].
  2: { destruct (joined pieces); simpl in *; lia. }
  simpl. by rewrite <- Nat.add_succ_r, list_insert_inserts_lt by lia.
Qed.

Lemma parse_ipv6_loop_terminated pieces address i compress fuel rest :
  u16s pieces -> length address = 8%nat -> (i + length pieces <= 8)%nat ->
  (length (terminated pieces ++ rest) <= fuel)%nat -> c rest <> end_of_file ->
  exists fuel', (length rest <= fuel')%nat /\
    parse_ipv6_loop fuel address i compress (terminated pieces ++ rest) =
    parse_ipv6_loop fuel' (list_inserts i pieces address) (i + length pieces) compress rest.
Proof.
  revert address i fuel. induction pieces as [|p pieces IH]; intros address i fuel Hp Ha Hi Hfuel Hr.
  { exists fuel. simpl. rewrite Nat.add_0_r. done. }
  apply Forall_cons in Hp as [Hp Hps]. simpl in Hi.
  rewrite terminated_cons in Hfuel |- *. rewrite length_app in Hfuel.
  set (rest' := terminated pieces ++ rest) in *.
  assert (Hne : c rest' <> end_of_file).
  { unfold rest'. destruct pieces as [|q pieces]; [done|]. apply Forall_cons in Hps as [Hq _].
    rewrite terminated_cons. apply (hex_text_head q _ Hq). }
  destruct (hex_text_spec p Hp) as (_ & _ & _ & Hlen). destruct fuel as [|fuel]; [lia|].
  assert (Hmatch : (ch ":" :: rest') = match rest' with [] => [] | _ => ch ":" :: rest' end).
  { by destruct rest'. }
  rewrite Hmatch, parse_ipv6_loop_piece by (done || lia || by left).
  simpl in Hfuel.
  destruct (IH (<[i:=p]> address) (S i) fuel) as (fuel' & Hf & ->);
    [done|by rewrite length_insert|lia|lia|done|].
  exists fuel'. split; [done|]. simpl. by rewrite <- Nat.add_succ_r, list_insert_inserts_lt by lia.
Qed.

(** ** Facts: the swap loop moves the tail to the end *)

Lemma insert_middle (a b : list Z) x y : <[length a := y]> (a ++ x :: b) = a ++ y :: b.
Proof. rewrite <- (Nat.add_0_r (length a)), insert_app_r. done. Qed.

Lemma lookup_middle' (a b : list Z) x : (a ++ x :: b) !! length a = Some x.
Proof. rewrite lookup_app_r by lia. by rewrite Nat.sub_diag. Qed.

Lemma swap_pieces_tail head tail m suffix :
  u16s tail -> head <> [] ->
  swap_pieces (head ++ tail ++ repeat 0 m ++ suffix)
    (length head + length tail + m - 1) (length head) (length tail) =
  Ret (head ++ repeat 0 m ++ tail ++ suffix).
Proof.
  intros Htail Hhead. assert (1 <= length head)%nat as Hlen by (destruct head; [done|simpl; lia]).
  revert suffix. induction tail as [|t tail IH] using rev_ind; intros suffix.
  { simpl. by destruct (length head + 0 + m - 1)%nat. }
  apply Forall_app in Htail as [Htail Ht]. rewrite Forall_singleton in Ht. specialize (IH Htail).
  rewrite <- (app_assoc tail [t] suffix). cbn [app]. rewrite <- IH. clear IH.
  rewrite <- (app_assoc tail [t]), length_app. cbn [app length].
  replace (length head + (length tail + 1) + m - 1)%nat with (S (length head + length tail + m - 1)) by lia.
  replace (length tail + 1)%nat with (S (length tail)) by lia. cbn [swap_pieces]. cbv zeta.
  replace (length head + S (length tail) - 1)%nat with (length (head ++ tail)) by (rewrite length_app; lia).
  rewrite !(app_assoc head tail).
  assert (Hu : u16 t = t) by (by rewrite u16_id).
  destruct m as [|m].
  - replace (S (length head + length tail + 0 - 1)) with (length (head ++ tail)) by (rewrite length_app; lia).
    cbn [repeat app]. pose proof (lookup_middle' (head ++ tail) suffix t) as Ht'.
    unfold at_index. rewrite Ht'. cbn [unwrap res_bind].
    rewrite array_set_ok by (apply lookup_lt_Some in Ht'; done). cbn [res_bind].
    rewrite Hu, insert_middle, array_set_ok by (apply lookup_lt_Some in Ht'; done). cbn [res_bind].
    by rewrite Hu, insert_middle.
  - replace (repeat 0 (S m) ++ suffix) with (repeat 0 m ++ 0 :: suffix).
    2: { change (repeat 0 (S m)) with (0 :: repeat 0 m). by rewrite repeat_cons, <- app_assoc. }
    replace (S (length head + length tail + S m - 1))
      with (length ((head ++ tail) ++ t :: repeat 0 m)).
    2: { rewrite !length_app. simpl. rewrite repeat_length. lia. }
    set (i := length ((head ++ tail) ++ t :: repeat 0 m)). set (j := length (head ++ tail)).
    pose proof (lookup_middle' ((head ++ tail) ++ t :: repeat 0 m) suffix 0) as Hi.
    pose proof (insert_middle ((head ++ tail) ++ t :: repeat 0 m) suffix 0 t) as Hset.
    rewrite <- (app_assoc (head ++ tail)) in Hi. rewrite <- !(app_assoc (head ++ tail)) in Hset.
    cbn [app] in Hi, Hset.
    pose proof (lookup_middle' (head ++ tail) (repeat 0 m ++ 0 :: suffix) t) as Hj.
    fold i in Hi, Hset. fold j in Hj.
    unfold at_index. rewrite Hi, Hj. cbn [unwrap res_bind].
    rewrite array_set_ok by (apply lookup_lt_Some in Hi; done). cbn [res_bind].
    rewrite Hu, Hset, array_set_ok. 2: { by apply lookup_lt_Some in Hj; revert Hj; rewrite !length_app; simpl; rewrite !length_app. }
    cbn [res_bind]. unfold j. rewrite insert_middle. change (u16 0) with 0. f_equal.
Qed.

(** ** Facts: the text of a serialized address *)

Lemma serialize_ipv6_tail pieces i compress output :
  u16s pieces -> (i + length pieces = 8)%nat -> (forall k, compress = Some k -> (k < i)%nat) ->
  serialize_ipv6_from pieces i compress false output = Ret (output ++ joined pieces).
Proof.
  revert i output. induction pieces as [|p pieces IH]; intros i output Hp Hi Hk.
  { simpl. by rewrite app_nil_r. }
  apply Forall_cons in Hp as [Hp Hps]. simpl in Hi. cbn [serialize_ipv6_from andb].
  rewrite bool_decide_eq_false_2 by (intros ->; specialize (Hk i eq_refl); lia).
  destruct (hex_text_spec p Hp) as (-> & _). cbn [res_bind]. cbv zeta.
  rewrite IH; [|done|lia|intros k ->; specialize (Hk k eq_refl); lia].
  destruct pieces as [|q pieces]; simpl in Hi.
  - rewrite (proj2 (Nat.eqb_eq i 7)) by lia. simpl. by rewrite app_nil_r.
  - rewrite (proj2 (Nat.eqb_neq i 7)) by lia. cbn [negb joined]. by rewrite <- !app_assoc.
Qed.

Lemma serialize_ipv6_zeroes z tail i compress output :
  u16s tail -> match tail with [] => True | p :: _ => p <> 0 end ->
  (i + z + length tail = 8)%nat -> (forall k, compress = Some k -> (k < i)%nat) ->
  serialize_ipv6_from (repeat 0 z ++ tail) i compress true output = Ret (output ++ joined tail).
Proof.
  intros Htail Hhead. revert i. induction z as [|z IH]; intros i Hi Hk.
  - simpl. destruct tail as [|p tail]; [simpl; by rewrite app_nil_r|].
    rewrite <- (serialize_ipv6_tail (p :: tail) i compress) by (done || lia).
    cbn [serialize_ipv6_from andb]. by rewrite (proj2 (Z.eqb_neq p 0) Hhead).
  - simpl. apply IH; [lia|]. intros k ->. specialize (Hk k eq_refl). lia.
Qed.

Lemma serialize_ipv6_head head rest i k output :
  u16s head -> (i + length head = k)%nat -> (k < 8)%nat ->
  serialize_ipv6_from (head ++ rest) i (Some k) false output =
  serialize_ipv6_from rest k (Some k) false (output ++ terminated head).
Proof.
  revert i output. induction head as [|p head IH]; intros i output Hp Hi Hk.
  { simpl in *. rewrite Nat.add_0_r in Hi. by rewrite app_nil_r, Hi. }
  apply Forall_cons in Hp as [Hp Hps]. simpl in Hi. cbn [serialize_ipv6_from andb app].
  rewrite bool_decide_eq_false_2 by (intros [= ->]; lia).
  destruct (hex_text_spec p Hp) as (-> & _). cbn [res_bind]. cbv zeta.
  rewrite (proj2 (Nat.eqb_neq i 7)) by lia. cbn [negb]. rewrite IH by (done || lia).
  f_equal. rewrite <- (app_nil_r (terminated (p :: head))), terminated_cons, app_nil_r.
  by rewrite <- !app_assoc.
Qed.

Lemma zero_prefix_split pieces :
  exists tail, pieces = repeat 0 (zero_prefix pieces) ++ tail
    /\ match tail with [] => True | p :: _ => p <> 0 end.
Proof.
  induction pieces as [|p pieces (tail & IH & Hhead)]; [by exists []|]. simpl.
  destruct (Z.eqb_spec p 0) as [->|Hp]; [|by exists (p :: pieces)].
  exists tail. simpl. by rewrite <- IH.
Qed.

(** The text of the compressed form of [head ++ repeat 0 _ ++ tail]. *)
Definition compressed (head tail : list Z) : bytes :=
  terminated head ++ (if (length head =? 0)%nat then sv "::" else sv ":") ++ joined tail.

(** The two shapes of a serialized address. *)
Lemma serialize_ipv6_shape pieces :
  length pieces = 8%nat -> u16s pieces ->
  (find_the_ipv6_address_compressed_piece_index pieces = None
   /\ serialize_ipv6_address (ipv6_from_pieces pieces) = Ret (joined pieces))
  \/ exists head z tail,
       pieces = head ++ repeat 0 (S z) ++ tail
       /\ serialize_ipv6_address (ipv6_from_pieces pieces) = Ret (compressed head tail).
Proof.
  intros Hlen Hp. unfold serialize_ipv6_address. rewrite ipv6_pieces_of_pieces by done.
  cbn [res_bind]. destruct (find_compressed_best pieces) as (size & _ & Hbest).
  destruct (find_the_ipv6_address_compressed_piece_index pieces) as [k|].
  2: { left. split; [done|]. by rewrite serialize_ipv6_tail by (done || lia). }
  right. destruct Hbest as (Hk & Hrun & Hsize & _). unfold zero_run in Hrun.
  destruct (zero_prefix_split (drop k pieces)) as (tail & Htail & Hhead). rewrite Hrun in Htail.
  destruct size as [|z]; [lia|]. exists (take k pieces), z, tail.
  assert (Hsplit : pieces = take k pieces ++ repeat 0 (S z) ++ tail).
  { rewrite <- Htail. by rewrite take_drop. }
  split; [done|].
  assert (Hl : length (take k pieces) = k) by (rewrite length_take; lia).
  assert (Hps := Hp). rewrite Hsplit in Hps. apply Forall_app in Hps as [Hh Hps].
  apply Forall_app in Hps as [_ Ht].
  assert (Hsum : (k + S z + length tail = 8)%nat).
  { rewrite <- Hlen, Hsplit at 1. rewrite !length_app, repeat_length. lia. }
  rewrite Hsplit at 1. rewrite serialize_ipv6_head; [|done|lia|lia].
  cbn [repeat app serialize_ipv6_from andb]. rewrite bool_decide_eq_true_2 by done. cbv zeta.
  rewrite serialize_ipv6_zeroes; [|done|done|lia|intros ? [= <-]; lia].
  unfold compressed. rewrite Hl. cbn [app]. by rewrite <- app_assoc.
Qed.

Definition is_ipv6_text (x : Z) : bool := is_ascii_hex_digit x || (x =? ch ":").

Lemma hex_text_chars p : 0 <= p < 65536 -> forallb is_ipv6_text (hex_text p) = true.
Proof.
  intros Hp. destruct (hex_text_spec p Hp) as (_ & Hhex & _).
  apply forallb_Forall_iff. apply forallb_Forall_iff in Hhex.
  eapply Forall_impl; [exact Hhex|]. intros x Hx. unfold is_ipv6_text. by rewrite Hx.
Qed.

Lemma terminated_chars pieces : u16s pieces -> forallb is_ipv6_text (terminated pieces) = true.
Proof.
  induction 1 as [|p pieces Hp Hps IH]; [done|].
  rewrite <- (app_nil_r (terminated (p :: pieces))), terminated_cons, app_nil_r, forallb_app.
  rewrite hex_text_chars by done. simpl. by rewrite IH.
Qed.

Lemma joined_chars pieces : u16s pieces -> forallb is_ipv6_text (joined pieces) = true.
Proof.
  induction 1 as [|p pieces Hp Hps IH]; [done|]. cbn [joined].
  destruct pieces as [|q pieces]; [by apply hex_text_chars|].
  rewrite forallb_app, hex_text_chars by done. simpl in IH |- *. exact IH.
Qed.

Lemma compressed_chars head tail :
  u16s head -> u16s tail -> forallb is_ipv6_text (compressed head tail) = true.
Proof.
  intros Hh Ht. unfold compressed. rewrite !forallb_app, terminated_chars, joined_chars by done.
  by destruct (length head =? 0)%nat.
Qed.

Lemma ipv6_text_code_points s : forallb is_ipv6_text s = true -> code_points s = s.
Proof.
  intros Hs. apply code_points_ascii. apply forallb_Forall_iff in Hs.
  eapply Forall_impl; [exact Hs|]. intros x Hx. unfold is_ipv6_text in Hx. cbn beta in Hx. ascii_lia.
Qed.

(** ** Facts: parsing the two shapes back *)

Lemma list_inserts_middle (a b b' s : list Z) :
  length b = length b' -> list_inserts (length a) b (a ++ b' ++ s) = a ++ b ++ s.
Proof.
  revert a b'. induction b as [|x b IH]; intros a b' Hlen; [by destruct b'|].
  destruct b' as [|y b']; [done|]. simpl in Hlen. cbn [list_inserts app].
  rewrite <- (Nat.add_1_r (length a)).
  replace (length a + 1)%nat with (length (a ++ [y])) by (rewrite length_app; done).
  rewrite (app_assoc a [y] (b' ++ s) : a ++ y :: b' ++ s = _), IH by lia.
  rewrite <- app_assoc. cbn [app]. by rewrite insert_middle.
Qed.

Lemma parse_ipv6_address_joined pieces :
  length pieces = 8%nat -> u16s pieces ->
  parse_ipv6_address (joined pieces) = Ret (Some (ipv6_from_pieces pieces)).
Proof.
  intros Hlen Hp. unfold parse_ipv6_address. rewrite ipv6_text_code_points by (by apply joined_chars).
  cbv zeta. replace (c (joined pieces) =? 58) with false.
  2: { destruct pieces as [|p [|q pieces]]; [done..|]. apply Forall_cons in Hp as [Hp _].
       cbn [joined]. destruct (hex_text_head p (58 :: joined (q :: pieces)) Hp) as (_ & _ & Hc).
       symmetry. by apply Z.eqb_neq. }
  rewrite parse_ipv6_loop_joined by (done || lia). cbn [res_bind].
  rewrite Nat.add_0_l, Hlen. cbn [negb Nat.eqb]. repeat f_equal.
  pose proof (list_inserts_middle [] pieces (repeat 0 8) []) as H. cbn [app length] in H.
  rewrite !app_nil_r in H. by rewrite H.
Qed.

(** Both forms of compression reach the loop with the head written and the
    index just after the compressed piece. *)
Lemma parse_ipv6_loop_compressed head tail m fuel :
  u16s head -> u16s tail -> (length head + 1 + length tail + m = 8)%nat -> head <> [] ->
  (length (compressed head tail) <= fuel)%nat ->
  parse_ipv6_loop fuel (repeat 0 8) 0 None (compressed head tail) =
    Ret (Some (head ++ [0] ++ tail ++ repeat 0 m, S (length head + length tail), Some (S (length head)))).
Proof.
  intros Hh Ht Hm Hne. unfold compressed.
  rewrite (proj2 (Nat.eqb_neq _ _)) by (destruct head; [done|simpl; lia]). intros Hfuel.
  destruct (parse_ipv6_loop_terminated head (repeat 0 8) 0 None fuel (ch ":" :: joined tail))
    as (fuel' & Hf & Heq); [done|done|lia|done|done|].
  cbn [app]. rewrite Heq, Nat.add_0_l. clear Heq. simpl in Hf. destruct fuel' as [|fuel']; [lia|].
  cbn [parse_ipv6_loop c]. rewrite (proj2 (Nat.eqb_neq (length head) 8)) by lia.
  cbn -[list_inserts repeat parse_ipv6_loop joined drop]. unfold advance. cbn [drop]. rewrite drop_0.
  replace (repeat 0 8) with ([] ++ repeat 0 (length head) ++ ([0] ++ repeat 0 (length tail) ++ repeat 0 m)).
  2: { replace 8%nat with (length head + (1 + (length tail + m)))%nat by lia.
       cbn [app]. by rewrite !repeat_app. }
  change 0%nat with (length (@nil Z)).
  rewrite (list_inserts_middle [] head) by (by rewrite repeat_length). cbn [length app].
  rewrite parse_ipv6_loop_joined; [|done| |lia|lia].
  2: { rewrite length_app. simpl. rewrite length_app, !repeat_length. lia. }
  rewrite (app_assoc head [0] _ : head ++ 0 :: _ = _).
  replace (S (length head)) with (length (head ++ [0])) at 1 by (rewrite length_app; simpl; lia).
  rewrite list_inserts_middle by (by rewrite repeat_length).
  by rewrite <- app_assoc.
Qed.

Lemma parse_ipv6_address_compressed head tail z :
  u16s head -> u16s tail -> (length head + S z + length tail = 8)%nat ->
  parse_ipv6_address (compressed head tail) =
    Ret (Some (ipv6_from_pieces (head ++ repeat 0 (S z) ++ tail))).
Proof.
  intros Hh Ht Hlen. unfold parse_ipv6_address.
  rewrite ipv6_text_code_points by (by apply compressed_chars). cbv zeta.
  assert (Hswap : swap_pieces (head ++ [0] ++ tail ++ repeat 0 z) 7 (S (length head)) (length tail)
                  = Ret (head ++ repeat 0 (S z) ++ tail)).
  { pose proof (swap_pieces_tail (head ++ [0]) tail z [] Ht ltac:(by destruct head)) as H.
    rewrite !app_nil_r, length_app in H. simpl length in H.
    replace (length head + 1 + length tail + z - 1)%nat with 7%nat in H by lia.
    rewrite Nat.add_1_r, <- !app_assoc in H. exact H. }
  destruct head as [|p head].
  - cbn -[parse_ipv6_loop repeat swap_pieces joined]. rewrite ?drop_0.
    change (repeat 0 8) with ([0] ++ repeat 0 7).
    replace 7%nat with (length tail + z)%nat by (simpl in Hlen; lia). rewrite repeat_app.
    rewrite parse_ipv6_loop_joined; [|done| |simpl in Hlen; lia|lia].
    2: { simpl. rewrite length_app, !repeat_length. simpl in Hlen. lia. }
    cbn [res_bind]. change 1%nat with (length [0]) at 1.
    rewrite list_inserts_middle by (by rewrite repeat_length).
    replace (1 + length tail - 1)%nat with (length tail) by lia.
    cbn [length] in Hswap.
    replace (length tail + z)%nat with 7%nat by (simpl in Hlen; lia).
    cbn [app] in Hswap |- *. rewrite Hswap. done.
  - replace (c (compressed (p :: head) tail) =? 58) with false.
    2: { apply Forall_cons in Hh as [Hp _]. unfold compressed. rewrite terminated_cons.
         symmetry. apply Z.eqb_neq. by apply hex_text_head. }
    rewrite (parse_ipv6_loop_compressed (p :: head) tail z) by (done || lia).
    cbn [res_bind]. replace (S (length (p :: head) + length tail) - S (length (p :: head)))%nat
      with (length tail) by lia. rewrite Hswap. done.
Qed.

(** Serializing eight pieces and parsing the text gives them back. *)
Lemma ipv6_serialize_parse pieces :
  length pieces = 8%nat -> u16s pieces ->
  exists text, serialize_ipv6_address (ipv6_from_pieces pieces) = Ret text
    /\ forallb is_ipv6_text text = true
    /\ parse_ipv6_address text = Ret (Some (ipv6_from_pieces pieces)).
Proof.
  intros Hlen Hp. destruct (serialize_ipv6_shape pieces Hlen Hp) as [[_ ->]|(head & z & tail & -> & ->)].
  - eexists. split; [done|]. split; [by apply joined_chars|]. by apply parse_ipv6_address_joined.
  - apply Forall_app in Hp as [Hh [_ Ht]%Forall_app]. eexists. split; [done|].
    split; [by apply compressed_chars|]. apply parse_ipv6_address_compressed; [done|done|].
    rewrite !length_app, repeat_length in Hlen. lia.
Qed.

(** ** Properties *)

(** C39: for every IPv6 address, given as its eight 16-bit pieces, the
    serializer returns a text of hexadecimal digits and colons, compression
    included, and the parser turns that text back into the same sixteen bytes. *)
Theorem ipv6_roundtrip (pieces : list Z) (Hlen : length pieces = 8%nat) (Hp : u16s pieces) :
  exists text, serialize_ipv6_address (ipv6_from_pieces pieces) = Ret text
    /\ forallb is_ipv6_text text = true
    /\ parse_ipv6_address text = Ret (Some (ipv6_from_pieces pieces)).
Proof. by apply ipv6_serialize_parse. Qed.

Lemma ipv6_roundtrip_witness :
  exists text, serialize_ipv6_address (ipv6_from_pieces [0x2001; 0xdb8; 0; 0; 1; 0; 0; 1]) = Ret text
    /\ forallb is_ipv6_text text = true
    /\ parse_ipv6_address text = Ret (Some (ipv6_from_pieces [0x2001; 0xdb8; 0; 0; 1; 0; 0; 1])).
Proof. apply (ipv6_roundtrip [0x2001; 0xdb8; 0; 0; 1; 0; 0; 1]); [reflexivity|]. repeat constructor; lia. Defined.

(** The IPv6 parser terminates on every byte string, valid UTF-8 or not,
    without an out-of-range access of its piece array, and what it accepts is
    an address of sixteen bytes. *)
Theorem ipv6_parse_total (input : bytes) :
  exists result, parse_ipv6_address input = Ret result
    /\ forall address, result = Some address -> length address = 16%nat /\ all_bytes address.
Proof. apply parse_ipv6_address_total. Qed.

(** The piece index the serializer compresses is the first of the longest
    runs of zero pieces when one of at least two exists, and there is none
    otherwise. *)
Theorem compressed_index_is_first_longest (pieces : list Z) :
  match find_the_ipv6_address_compressed_piece_index pieces with
  | Some k =>
      (k < length pieces)%nat /\ (2 <= zero_run pieces k)%nat
      /\ (forall j, (j < length pieces)%nat -> (zero_run pieces j <= zero_run pieces k)%nat)
      /\ (forall j, (j < k)%nat -> (zero_run pieces j < zero_run pieces k)%nat)
  | None => forall j, (j < length pieces)%nat -> (zero_run pieces j <= 1)%nat
  end.
Proof.
  destruct (find_compressed_best pieces) as (size & Hall & Hbest).
  destruct (find_the_ipv6_address_compressed_piece_index pieces).
  - destruct Hbest as (? & -> & ? & ?). done.
  - by subst size.
Qed.
