(* ===== verification/Host.v ===== *)
(** * Hosts: the host parser of [LibURL/Parser.cpp], the host serializer of
      [LibURL/Host.cpp] and [LibUnicode/IDNA.cpp]

    A [Host] is the variant of [LibURL/Host.h].  ICU is third-party code: the
    class [Icu] stands for [createUTS46Instance] and [nameToASCII_UTF8], and
    [IcuLaws] states what the host parser relies on. *)

From S2P Require Import Prelude CharacterTypes Utf8 Strings TextCodec Percent Ipv4 Ipv6.

(** ** [LibURL/Host.h] *)

Inductive Host :=
  | HostIPv4 (address : Z)
  | HostIPv6 (address : bytes)
  | HostString (string : bytes).

#[export] Instance Host_eq_dec : EqDecision Host.
Proof. solve_decision. Defined.

Definition is_domain (host : Host) : bool :=
  match host with HostString s => negb (sv_is_empty s) | _ => false end.

Definition is_empty_host (host : Host) : bool :=
  match host with HostString s => sv_is_empty s | _ => false end.

(** [Host::serialize] *)
Definition host_serialize (host : Host) : res bytes :=
  match host with
  | HostIPv4 address => serialize_ipv4_address address
  | HostIPv6 address =>
      let* text := serialize_ipv6_address address in
      Ret ([ch "["] ++ text ++ [ch "]"])
  | HostString string => Ret string
  end.

(** ** [LibUnicode/IDNA.cpp] *)

(** The option bits of [icu::IDNA::createUTS46Instance] that are used. *)
Inductive UIDNA_OPTION :=
  | UIDNA_CHECK_BIDI | UIDNA_CHECK_CONTEXTJ | UIDNA_USE_STD3_RULES
  | UIDNA_NONTRANSITIONAL_TO_ASCII | UIDNA_NONTRANSITIONAL_TO_UNICODE.

(** The error bits of [icu::IDNAInfo::getErrors]: those the code names, and the others. *)
Inductive UIDNA_ERROR :=
  | UIDNA_ERROR_HYPHEN_3_4 | UIDNA_ERROR_LEADING_HYPHEN | UIDNA_ERROR_TRAILING_HYPHEN
  | UIDNA_ERROR_EMPTY_LABEL | UIDNA_ERROR_LABEL_TOO_LONG | UIDNA_ERROR_DOMAIN_NAME_TOO_LONG
  | UIDNA_ERROR_PUNYCODE | UIDNA_ERROR_OTHER (bit : nat).

#[export] Instance UIDNA_ERROR_eq_dec : EqDecision UIDNA_ERROR.
Proof. solve_decision. Defined.

(** What [nameToASCII_UTF8] leaves: the bytes in the sink, the error bits, and
    whether the status is a failure. *)
Record icu_result := { icu_output : bytes; icu_errors : list UIDNA_ERROR; icu_failure : bool }.

(** [createUTS46Instance] may fail; otherwise the instance converts names. *)
Class Icu := { createUTS46Instance : list UIDNA_OPTION -> option (bytes -> icu_result) }.

Record ToAsciiOptions := {
  check_hyphens : bool;
  check_bidi : bool;
  check_joiners : bool;
  use_std3_ascii_rules : bool;
  transitional_processing : bool;
  verify_dns_length : bool;
  ignore_invalid_punycode : bool
}.

(** [errors &= ~bit] *)
Definition clear_error (errors : list UIDNA_ERROR) (bit : UIDNA_ERROR) : list UIDNA_ERROR :=
  filter (fun e => e <> bit) errors.

(** The option bits [to_ascii] sets. *)
Definition icu_options (options : ToAsciiOptions) : list UIDNA_OPTION :=
  (if check_bidi options then [UIDNA_CHECK_BIDI] else [])
  ++ (if check_joiners options then [UIDNA_CHECK_CONTEXTJ] else [])
  ++ (if use_std3_ascii_rules options then [UIDNA_USE_STD3_RULES] else [])
  ++ (if transitional_processing options then []
      else [UIDNA_NONTRANSITIONAL_TO_ASCII; UIDNA_NONTRANSITIONAL_TO_UNICODE]).

(** The error bits [to_ascii] keeps. *)
Definition relevant_errors (options : ToAsciiOptions) (errors : list UIDNA_ERROR) : list UIDNA_ERROR :=
  let errors :=
    if negb (check_hyphens options) then
      clear_error (clear_error (clear_error errors UIDNA_ERROR_HYPHEN_3_4) UIDNA_ERROR_LEADING_HYPHEN)
        UIDNA_ERROR_TRAILING_HYPHEN
    else errors in
  let errors :=
    if negb (verify_dns_length options) then
      clear_error (clear_error (clear_error errors UIDNA_ERROR_EMPTY_LABEL) UIDNA_ERROR_LABEL_TOO_LONG)
        UIDNA_ERROR_DOMAIN_NAME_TOO_LONG
    else errors in
  if ignore_invalid_punycode options then clear_error errors UIDNA_ERROR_PUNYCODE else errors.

(** [Unicode::IDNA::to_ascii]; [None] is an error. *)
Definition to_ascii `{Icu, Simdutf} (domain_name : bytes) (options : ToAsciiOptions) : option bytes :=
  match createUTS46Instance (icu_options options) with
  | None => None
  | Some name_to_ascii =>
      let info := name_to_ascii domain_name in
      let errors := relevant_errors options (icu_errors info) in
      if icu_failure info || negb (bool_decide (errors = [])) then None
      else if validate Surrogates_Yes (icu_output info) then Some (icu_output info) else None
  end.

(** ** Host parsing *)

(** ["\0\t\n\r #/:<>?@[\\]^|"sv.contains(code_point)] *)
Definition forbidden_host_code_points : bytes := [0; 9; 10; 13; 32] ++ sv "#/:<>?@[\]^|".

Definition is_forbidden_host_code_point (code_point : Z) : res bool :=
  contains_code_point forbidden_host_code_points code_point.

Definition is_forbidden_domain_code_point (code_point : Z) : res bool :=
  let* forbidden := is_forbidden_host_code_point code_point in
  Ret (forbidden || is_ascii_c0_control code_point || (code_point =? ch "%") || (code_point =? 0x7F)).

(** A loop that returns failure on the first item a predicate holds of. *)
Fixpoint any_of (p : Z -> res bool) (items : list Z) : res bool :=
  match items with
  | [] => Ret false
  | item :: items => let* b := p item in if b then Ret true else any_of p items
  end.

Definition parse_opaque_host (input : bytes) : res (option Host) :=
  let* forbidden := any_of is_forbidden_host_code_point (code_points input) in
  if forbidden then Ret None
  else
    let* host := percent_encode input C0Control false in
    Ret (Some (HostString host)).

Definition to_ascii_options (be_strict : bool) : ToAsciiOptions := {|
  check_hyphens := be_strict;
  check_bidi := true;
  check_joiners := true;
  use_std3_ascii_rules := be_strict;
  transitional_processing := false;
  verify_dns_length := be_strict;
  ignore_invalid_punycode := false
|}.

Section host_parser.
Context `{Icu, Simdutf, FastFloat}.

(** Some label starts with ["xn--"], in any case. *)
Definition has_punycode_label (labels : list bytes) : bool :=
  existsb (fun part => starts_with part (sv "xn--") CaseInsensitive) labels.

(** The conversion after the fast path of [domain_to_ascii] *)
Definition domain_to_ascii_icu (domain : bytes) (be_strict : bool) : option bytes :=
  match to_ascii domain (to_ascii_options be_strict) with
  | None => None
  | Some result => if sv_is_empty result then None else Some result
  end.

(** [domain_to_ascii]; [None] is an error. *)
Definition domain_to_ascii (domain : bytes) (be_strict : bool) : res (option bytes) :=
  if negb be_strict && sv_is_ascii domain then
    if sv_is_empty domain then Ret None
    else
      let* parts := split_view domain [ch "."] false in
      if has_punycode_label parts then Ret (domain_to_ascii_icu domain be_strict)
      else
        let* lowercase := to_ascii_lowercase_string domain in
        Ret (Some lowercase)
  else Ret (domain_to_ascii_icu domain be_strict).

(** [Parser::parse_host]; a [char] of the ASCII domain is at most 127 or
    converts to a [u32] above every code point. *)
Definition u32_of_char (byte : Z) : Z := if byte <? 128 then byte else byte + (2 ^ 32 - 2 ^ 8).

Definition parse_host (input : bytes) (is_opaque : bool) : res (option Host) :=
  if starts_with_char input (ch "[") then
    if negb (ends_with_char input (ch "]")) then Ret None
    else
      let* text := substring_view input 1 (length input - 2) in
      let* address := parse_ipv6_address text in
      match address with
      | None => Ret None
      | Some address => Ret (Some (HostIPv6 address))
      end
  else if is_opaque then parse_opaque_host input
  else
    verify (negb (sv_is_empty input))
      (let* domain := percent_decode input in
       let* ascii_domain := domain_to_ascii domain false in
       match ascii_domain with
       | None => Ret None
       | Some ascii_domain =>
           let* forbidden := any_of is_forbidden_domain_code_point (u32_of_char <$> ascii_domain) in
           if forbidden then Ret None
           else
             let* ends_in_a_number := ends_in_a_number_checker ascii_domain in
             if ends_in_a_number then
               let* ipv4_host := parse_ipv4_address ascii_domain in
               match ipv4_host with
               | None => Ret None
               | Some address => Ret (Some (HostIPv4 address))
               end
             else Ret (Some (HostString ascii_domain))
       end).

End host_parser.

(** ** What the host parser relies on in ICU *)

(** Documented behaviour of UTS #46 ToASCII with the options the host parser
    uses: a name converted without a relevant error is a lower-case ASCII name,
    and converting it again gives it back without an error. *)
Definition converted (info : icu_result) : Prop :=
  icu_failure info = false /\ relevant_errors (to_ascii_options false) (icu_errors info) = [].

Class IcuLaws `{Icu} : Prop := {
  name_to_ascii_ascii (f : bytes -> icu_result) (name : bytes) :
    createUTS46Instance (icu_options (to_ascii_options false)) = Some f ->
    converted (f name) ->
    Forall (fun b => 0 <= b < 128 /\ is_ascii_upper_alpha b = false) (icu_output (f name));
  name_to_ascii_idempotent (f : bytes -> icu_result) (name : bytes) :
    createUTS46Instance (icu_options (to_ascii_options false)) = Some f ->
    converted (f name) ->
    converted (f (icu_output (f name))) /\ icu_output (f (icu_output (f name))) = icu_output (f name)
}.

(** A conversion that lower-cases ASCII names and refuses the others. *)
#[export] Instance ascii_icu : Icu | 100 := {
  createUTS46Instance _ :=
    Some (fun name => {| icu_output := to_ascii_lowercase <$> name;
                         icu_errors := if forallb (fun b => is_byte b && is_ascii b) name then [] else [UIDNA_ERROR_OTHER 7];
                         icu_failure := false |})
}.

Lemma is_ascii_Forall s :
  all_bytes s -> forallb is_ascii s = true -> Forall (fun b => 0 <= b < 128) s.
Proof.
  rewrite forallb_Forall_iff. intros Hb Hs. pose proof (proj2 (Forall_and _ _) (conj Hb Hs)) as Hboth.
  eapply Forall_impl; [exact Hboth|]. intros b [? ?]. ascii_lia.
Qed.

Lemma Forall_is_ascii s : Forall (fun b => 0 <= b < 128) s -> forallb is_ascii s = true.
Proof.
  rewrite forallb_Forall_iff. intros Hs. eapply Forall_impl; [exact Hs|]. intros b Hb. cbn in Hb. ascii_lia.
Qed.

Lemma lowercase_not_upper (s : bytes) :
  Forall (fun b => is_ascii_upper_alpha b = false) (to_ascii_lowercase <$> s).
Proof. apply Forall_fmap, Forall_forall. intros b _. apply to_ascii_lowercase_not_upper. Qed.

#[export] Instance ascii_icu_laws : IcuLaws.
Proof.
  assert (Hiff : forall s, forallb (fun b => is_byte b && is_ascii b) s = true <-> Forall (fun b => 0 <= b < 128) s).
  { intros s. rewrite forallb_Forall_iff. split; intros Hs; (eapply Forall_impl; [exact Hs|]); cbn; intros; ascii_lia. }
  split; intros f name [= <-] [_ Herr]; cbn [icu_errors] in *;
    destruct (forallb _ name) eqn:Ha; try done; apply Hiff, to_ascii_lowercase_ascii in Ha.
  - pose proof (lowercase_not_upper name). by apply Forall_and.
  - cbn [icu_output]. split; [|apply lowercase_idemp]. split; [done|]. cbn [icu_errors].
    by rewrite (proj2 (Hiff _) Ha).
Qed.

(** ** Facts: forbidden code points *)

Lemma forbidden_host_ok cp :
  0 <= cp -> is_forbidden_host_code_point cp = Ret (contains_char forbidden_host_code_points cp).
Proof.
  intros Hcp. apply contains_code_point_ascii; [|simpl; lia|done]. repeat constructor; lia.
Qed.

Definition forbidden_domain (cp : Z) : bool :=
  contains_char forbidden_host_code_points cp || is_ascii_c0_control cp || (cp =? ch "%") || (cp =? 0x7F).

Lemma forbidden_domain_ok cp :
  0 <= cp -> is_forbidden_domain_code_point cp = Ret (forbidden_domain cp).
Proof. intros Hcp. unfold is_forbidden_domain_code_point. by rewrite forbidden_host_ok. Qed.

Lemma any_of_ok (p : Z -> res bool) (q : Z -> bool) items :
  Forall (fun x => p x = Ret (q x)) items -> any_of p items = Ret (existsb q items).
Proof.
  induction 1 as [|x items Hx _ IH]; [done|]. simpl. rewrite Hx. simpl. by destruct (q x).
Qed.

Lemma any_forbidden_host s :
  Forall (fun cp => 0 <= cp) s ->
  any_of is_forbidden_host_code_point s = Ret (existsb (contains_char forbidden_host_code_points) s).
Proof.
  intros Hs. apply any_of_ok. eapply Forall_impl; [exact Hs|]. intros cp Hcp. by apply forbidden_host_ok.
Qed.

Lemma any_forbidden_domain s :
  Forall (fun b => 0 <= b < 128) s ->
  any_of is_forbidden_domain_code_point (u32_of_char <$> s) = Ret (existsb forbidden_domain s).
Proof.
  intros Hs. replace (u32_of_char <$> s) with s.
  - apply any_of_ok. eapply Forall_impl; [exact Hs|]. intros b Hb. apply forbidden_domain_ok. cbn in Hb. lia.
  - induction Hs as [|b s Hb Hs IH]; [done|]. cbn. unfold u32_of_char at 1.
    rewrite (proj2 (Z.ltb_lt b 128)) by lia. by f_equal.
Qed.

(** ** Facts: domains *)

Section facts.
Context `{IcuLaws, SimdutfLaws, FastFloatLaws}.

Abbreviation ascii := (Forall (fun b : Z => 0 <= b < 128)).
Abbreviation lower := (Forall (fun b : Z => is_ascii_upper_alpha b = false)).

Lemma sv_is_ascii_spec s : sv_is_ascii s = forallb is_ascii s.
Proof. unfold sv_is_ascii. destruct s; [done|]. apply validate_ascii_spec. Qed.

Lemma domain_to_ascii_icu_spec domain result :
  domain_to_ascii_icu domain false = Some result ->
  ascii result /\ lower result /\ result <> [] /\ domain_to_ascii_icu result false = Some result.
Proof.
  unfold domain_to_ascii_icu, to_ascii.
  destruct (createUTS46Instance _) as [f|] eqn:Hf; [|done].
  destruct (_ || _) eqn:Herr; [done|]. apply orb_false_elim in Herr as [Hfail Herr].
  apply negb_false_iff, bool_decide_eq_true in Herr.
  assert (Hconv : converted (f domain)) by done.
  pose proof (name_to_ascii_ascii f domain Hf Hconv) as Hout.
  destruct (name_to_ascii_idempotent f domain Hf Hconv) as [Hconv2 Hidem].
  destruct (validate _ _) eqn:Hval; [|done]. destruct (sv_is_empty (icu_output (f domain))) eqn:He; [done|].
  intros [= <-]. apply Forall_and in Hout as [Ha Hl]. split; [done|]. split; [done|].
  split; [by destruct (icu_output (f domain))|].
  destruct Hconv2 as [Hf2 He2]. rewrite Hf2, He2, Hidem. cbn [orb].
  rewrite bool_decide_eq_true_2 by done. cbn [negb]. by rewrite Hval, He.
Qed.

Lemma dot_lowercase x : to_ascii_lowercase x = ch "." <-> x = ch ".".
Proof. unfold to_ascii_lowercase. break_match; ascii_lia. Qed.

Lemma kept_lowercase keep_empty parts :
  kept keep_empty ((fun part : bytes => to_ascii_lowercase <$> part) <$> parts)
  = (fun part : bytes => to_ascii_lowercase <$> part) <$> kept keep_empty parts.
Proof.
  unfold kept. induction parts as [|p parts IH]; [done|]. cbn [fmap list_fmap List.filter].
  replace (sv_is_empty (to_ascii_lowercase <$> p)) with (sv_is_empty p) by (by destruct p).
  destruct (keep_empty || _); cbn in IH |- *; by rewrite IH.
Qed.

(** The labels a domain is searched for ["xn--"] in. *)
Definition labels (domain : bytes) : list bytes := kept false (split_on (ch ".") domain).

Lemma punycode_lowercase domain :
  has_punycode_label (labels (to_ascii_lowercase <$> domain)) = has_punycode_label (labels domain).
Proof.
  unfold labels, has_punycode_label.
  rewrite (split_on_fmap 46 to_ascii_lowercase) by apply dot_lowercase. rewrite kept_lowercase.
  induction (kept false (split_on 46 domain)) as [|p parts IH]; [done|].
  cbn [fmap list_fmap existsb]. by rewrite starts_with_lowercase, IH.
Qed.

(** The fast path, as the code takes it. *)
Lemma domain_to_ascii_ascii domain :
  domain <> [] -> ascii domain ->
  domain_to_ascii domain false =
    Ret (if has_punycode_label (labels domain) then domain_to_ascii_icu domain false
         else Some (to_ascii_lowercase <$> domain)).
Proof.
  intros Hne Ha. unfold domain_to_ascii. rewrite sv_is_ascii_spec, Forall_is_ascii by done.
  cbn [negb andb]. destruct domain as [|b domain]; [done|]. cbn [sv_is_empty].
  rewrite split_view_kept by done. cbn [res_bind]. fold (labels (b :: domain)).
  destruct (has_punycode_label _); [done|]. by rewrite to_ascii_lowercase_string_ascii.
Qed.

Lemma domain_to_ascii_total domain : all_bytes domain -> exists r, domain_to_ascii domain false = Ret r.
Proof.
  intros Hb. unfold domain_to_ascii. rewrite sv_is_ascii_spec. cbn [negb andb].
  destruct (forallb is_ascii domain) eqn:Ha; [|by eexists]. apply is_ascii_Forall in Ha; [|done].
  destruct domain as [|b domain]; [by eexists|]. cbn [sv_is_empty].
  rewrite split_view_kept by done. cbn [res_bind].
  destruct (has_punycode_label _); [by eexists|]. rewrite to_ascii_lowercase_string_ascii by done. by eexists.
Qed.

(** A converted domain is lower-case ASCII and converts to itself. *)
Lemma domain_to_ascii_spec domain result :
  all_bytes domain -> domain_to_ascii domain false = Ret (Some result) ->
  ascii result /\ lower result /\ result <> [] /\ domain_to_ascii result false = Ret (Some result).
Proof.
  intros Hb Heq.
  assert (Hcase : domain_to_ascii_icu domain false = Some result
    \/ (ascii domain /\ domain <> [] /\ has_punycode_label (labels domain) = false
        /\ result = to_ascii_lowercase <$> domain)).
  { destruct (forallb is_ascii domain) eqn:Ha.
    - apply is_ascii_Forall in Ha; [|done]. destruct domain as [|b domain]; [done|].
      rewrite domain_to_ascii_ascii in Heq by done.
      destruct (has_punycode_label _) eqn:Hp; simplify_eq; [by left|]. right. done.
    - unfold domain_to_ascii in Heq. rewrite sv_is_ascii_spec, Ha in Heq. simpl in Heq. left. congruence. }
  destruct Hcase as [Hicu|(Ha & Hne & Hp & ->)].
  - apply domain_to_ascii_icu_spec in Hicu as (Ha & Hl & Hne & Hself). repeat split; try done.
    rewrite domain_to_ascii_ascii by done. rewrite lowercase_id by done.
    by destruct (has_punycode_label _); rewrite ?Hself.
  - pose proof (to_ascii_lowercase_ascii domain Ha). pose proof (lowercase_not_upper domain).
    assert (to_ascii_lowercase <$> domain <> []) by (by destruct domain).
    repeat split; try done. rewrite domain_to_ascii_ascii by done.
    by rewrite punycode_lowercase, Hp, lowercase_idemp.
Qed.

(** ** Facts: what the host parser returns *)

(** A host of a special URL that is a domain. *)
Definition domain_ok (domain : bytes) : Prop :=
  domain <> [] /\ ascii domain /\ lower domain /\ existsb forbidden_domain domain = false
  /\ ends_in_a_number_checker domain = Ret false /\ domain_to_ascii domain false = Ret (Some domain).

(** A host of a URL that is not special, other than an IPv6 address. *)
Definition opaque_host_ok (host : bytes) : Prop :=
  Forall (clean C0Control) host /\ existsb (contains_char forbidden_host_code_points) host = false.

(** The hosts the parser returns. *)
Definition host_ok (is_opaque : bool) (host : Host) : Prop :=
  match host with
  | HostIPv4 address => is_opaque = false /\ 0 <= address < 2 ^ 32
  | HostIPv6 address => length address = 16%nat /\ all_bytes address
  | HostString s => if is_opaque then opaque_host_ok s else domain_ok s
  end.

Lemma encoded_unit_not_forbidden cp :
  0 <= cp <= 0x10FFFF -> contains_char forbidden_host_code_points cp = false ->
  existsb (contains_char forbidden_host_code_points) (encoded_unit C0Control cp) = false.
Proof.
  intros Hcp Hno. unfold encoded_unit.
  destruct (code_point_is_in_percent_encode_set cp C0Control) eqn:E.
  - apply existsb_false_forall, Forall_bind. eapply Forall_impl; [by apply encoded_bytes|].
    cbn. intros b Hb. assert (0 <= b < 256) as Hr by ascii_lia.
    assert (Hhex : forall d, 0 <= d < 16 -> contains_char forbidden_host_code_points (upper_hex d) = false).
    { apply digit_enumeration. by repeat constructor. }
    unfold pct. repeat constructor; apply Hhex; euclid.
  - apply not_in_set_ascii in E as Hr; [|lia]. unfold encoded.
    replace (cp <=? 127) with true by lia. cbn [existsb]. by rewrite Hno.
Qed.

Lemma parse_opaque_host_spec input :
  all_bytes input ->
  exists r, parse_opaque_host input = Ret r /\ forall host, r = Some host -> host_ok true host.
Proof.
  intros Hin. pose proof (code_points_range input Hin) as Hr. unfold parse_opaque_host.
  rewrite any_forbidden_host by (eapply Forall_impl; [exact Hr|]; cbn; lia). cbn [res_bind].
  destruct (existsb _ _) eqn:Hf; [by eexists|]. rewrite percent_encode_ok by done. cbn [res_bind].
  eexists. split; [done|]. intros host [= <-]. cbn [host_ok]. apply existsb_false_forall in Hf.
  split.
  - apply Forall_bind. eapply Forall_impl; [exact Hr|]. cbn. intros cp Hcp. by apply encoded_unit_clean.
  - apply existsb_false_forall, Forall_bind. pose proof (proj2 (Forall_and _ _) (conj Hr Hf)) as Hboth.
    eapply Forall_impl; [exact Hboth|]. cbn. intros cp [Hcp Hno].
    apply existsb_false_forall. by apply encoded_unit_not_forbidden.
Qed.

Lemma parse_domain_spec domain result :
  ascii result -> result <> [] -> lower result -> domain_to_ascii result false = Ret (Some result) ->
  domain = result ->
  exists r,
    (let* forbidden := any_of is_forbidden_domain_code_point (u32_of_char <$> domain) in
     if forbidden then Ret None
     else
       let* ends_in_a_number := ends_in_a_number_checker domain in
       if ends_in_a_number then
         let* ipv4_host := parse_ipv4_address domain in
         match ipv4_host with None => Ret None | Some address => Ret (Some (HostIPv4 address)) end
       else Ret (Some (HostString domain))) = Ret r
    /\ forall host, r = Some host -> host_ok false host.
Proof.
  intros Ha Hne Hl Hself ->. rewrite any_forbidden_domain by done. cbn [res_bind].
  destruct (existsb _ _) eqn:Hf; [by eexists|].
  destruct (ends_in_a_number_checker_total result Hne) as [b Hb]. rewrite Hb. cbn [res_bind].
  destruct b.
  - destruct (parse_ipv4_address_total result Hne) as [o Ho]. rewrite Ho. cbn [res_bind].
    destruct o as [address|]; [|by eexists]. eexists. split; [done|]. intros host [= <-].
    destruct (parse_ipv4_address_value result address Hne Ho) as (? & ? & _ & _ & _ & _ & _ & Hr).
    by split.
  - eexists. split; [done|]. intros host [= <-]. repeat split; done.
Qed.

(** The host parser returns on every input it may be called with, and what it
    returns is well-formed. *)
Lemma parse_host_spec input is_opaque :
  all_bytes input -> input <> [] \/ is_opaque = true ->
  exists r, parse_host input is_opaque = Ret r /\ forall host, r = Some host -> host_ok is_opaque host.
Proof.
  intros Hin Hne. unfold parse_host. destruct (starts_with_char input 91) eqn:Hopen.
  - destruct (ends_with_char input 93) eqn:Hclose; cbn [negb]; [|by eexists].
    assert (Hlen : (2 <= length input)%nat).
    { destruct input as [|x [|y input]]; [done| |simpl; lia]. unfold starts_with_char, ends_with_char in *.
      cbn [last] in Hclose. apply Z.eqb_eq in Hopen, Hclose. subst x. done. }
    unfold substring_view, verify. rewrite (proj2 (Nat.leb_le _ _)) by lia. cbn [res_bind].
    destruct (parse_ipv6_address_total (take (length input - 2) (drop 1 input))) as (r & -> & Hr).
    cbn [res_bind]. destruct r as [address|]; [|by eexists]. eexists. split; [done|].
    intros host [= <-]. by apply Hr.
  - destruct is_opaque; [by apply parse_opaque_host_spec|].
    destruct Hne as [Hne|]; [|done]. unfold verify.
    replace (negb (sv_is_empty input)) with true by (by destruct input).
    rewrite percent_decode_ok. cbn [res_bind]. pose proof (pdecode_bytes input Hin) as Hd.
    destruct (domain_to_ascii_total _ Hd) as [r Hr]. rewrite Hr. cbn [res_bind].
    destruct r as [result|]; [|by eexists].
    destruct (domain_to_ascii_spec _ _ Hd Hr) as (Ha & Hl & Hne' & Hself).
    by apply (parse_domain_spec result result).
Qed.

(** ** Facts: serializing and parsing back *)

Lemma ipv6_pieces_exist (m_data : bytes) :
  length m_data = 16%nat -> all_bytes m_data ->
  exists pieces, length pieces = 8%nat /\ u16s pieces /\ m_data = ipv6_from_pieces pieces.
Proof.
  assert (Hgen : forall n m, length m = (2 * n)%nat -> all_bytes m ->
    exists pieces, length pieces = n /\ u16s pieces /\ m = ipv6_from_pieces pieces).
  { induction n as [|n IH]; intros m Hlen Hb.
    { destruct m; [|done]. by exists []. }
    destruct m as [|hi [|lo m]]; [simpl in Hlen; lia..|]. simpl in Hlen.
    apply Forall_cons in Hb as [Hhi Hb]. apply Forall_cons in Hb as [Hlo Hb].
    destruct (IH m ltac:(lia) Hb) as (pieces & Hl & Hu & ->).
    assert (0 <= hi < 256 /\ 0 <= lo < 256) as [? ?] by (unfold is_byte in *; lia).
    exists (hi * 256 + lo :: pieces). split; [simpl; lia|]. split; [constructor; [lia|done]|].
    unfold ipv6_from_pieces. cbn -[Z.mul Z.add Z.shiftr Z.land u8]. f_equal.
    - rewrite Z.shiftr_div_pow2, u8_id by euclid. euclid.
    - f_equal. change 255 with (2 ^ 8 - 1). rewrite land_ones_mod, u8_id by euclid. euclid. }
  apply (Hgen 8%nat).
Qed.

Lemma clean_c0_self (s : bytes) : Forall (clean C0Control) s -> s ≫= encoded_unit C0Control = s.
Proof.
  induction 1 as [|b s [Hb Hin] Hs IH]; [done|]. cbn. unfold encoded_unit at 1.
  replace (code_point_is_in_percent_encode_set b C0Control) with false.
  2: { destruct Hin as [->|Hin]; [done|by rewrite Hin]. }
  unfold encoded. replace (b <=? 127) with true by lia. cbn. f_equal. exact IH.
Qed.

Lemma clean_ascii set s : Forall (clean set) s -> ascii s.
Proof. intros Hs. eapply Forall_impl; [exact Hs|]. intros b [? _]. lia. Qed.

Lemma ascii_bytes s : ascii s -> all_bytes s.
Proof. intros Hs. eapply Forall_impl; [exact Hs|]. cbn. intros b Hb. unfold is_byte. lia. Qed.

Lemma not_forbidden_head (p : Z -> bool) s x :
  existsb p s = false -> p x = true -> starts_with_char s x = false.
Proof.
  intros Hs Hx. destruct s as [|y s]; [done|]. simpl in *. apply orb_false_elim in Hs as [Hy _].
  apply Z.eqb_neq. congruence.
Qed.

Lemma parse_host_opaque s : opaque_host_ok s -> parse_host s true = Ret (Some (HostString s)).
Proof.
  intros [Hc Hf]. unfold parse_host. rewrite (not_forbidden_head _ _ 91 Hf) by done.
  unfold parse_opaque_host. pose proof (clean_ascii _ _ Hc) as Ha. rewrite code_points_ascii by done.
  rewrite any_forbidden_host by (eapply Forall_impl; [exact Ha|]; cbn; lia).
  cbn [res_bind]. rewrite Hf. rewrite percent_encode_ok by (by apply ascii_bytes).
  cbn [res_bind]. by rewrite code_points_ascii, clean_c0_self.
Qed.

Lemma not_forbidden_no_percent s : existsb forbidden_domain s = false -> contains_char s (ch "%") = false.
Proof.
  intros Hf. apply contains_char_false. apply existsb_false_forall in Hf.
  eapply Forall_impl; [exact Hf|]. by intros b Hb ->.
Qed.

(** The non-opaque parser from the decoded domain on. *)
Lemma parse_host_domain s result :
  s <> [] -> existsb forbidden_domain s = false -> ascii s ->
  domain_to_ascii s false = Ret (Some result) -> ascii result ->
  existsb forbidden_domain result = false ->
  parse_host s false =
    (let* ends_in_a_number := ends_in_a_number_checker result in
     if ends_in_a_number then
       let* ipv4_host := parse_ipv4_address result in
       match ipv4_host with None => Ret None | Some address => Ret (Some (HostIPv4 address)) end
     else Ret (Some (HostString result))).
Proof.
  intros Hne Hf Ha Hd Har Hfr. unfold parse_host. rewrite (not_forbidden_head _ _ 91 Hf) by done.
  unfold verify. replace (negb (sv_is_empty s)) with true by (by destruct s).
  rewrite percent_decode_ok, pdecode_no_percent by (by apply not_forbidden_no_percent).
  cbn [res_bind]. rewrite Hd. cbn [res_bind]. rewrite any_forbidden_domain by done.
  cbn [res_bind]. by rewrite Hfr.
Qed.

Lemma split_on_Forall (P : Z -> Prop) c s : Forall P s -> Forall (Forall P) (split_on c s).
Proof.
  induction 1 as [|x s Hx Hs IH]; simpl; [by repeat constructor|].
  destruct (x =? c); [by constructor|].
  destruct (split_on c s); [by repeat constructor|]. inversion IH; subst. by repeat constructor.
Qed.

(** Without an x there is no punycode label. *)
Lemma no_punycode_label s :
  Forall (fun b => to_ascii_lowercase b <> ch "x") s -> has_punycode_label (labels s) = false.
Proof.
  intros Hs. apply existsb_false_forall. unfold labels, kept.
  apply (split_on_Forall _ 46) in Hs. apply Forall_forall. intros part Hpart.
  apply list_elem_of_In, filter_In in Hpart as [Hpart _].
  rewrite List.Forall_forall in Hs. specialize (Hs part Hpart).
  unfold starts_with. cbn [sv_is_empty length same_characters].
  destruct part as [|b part]; [done|]. cbn [sv_is_empty]. destruct (_ <? _)%nat; [done|].
  apply Forall_cons in Hs as [Hb _]. unfold sv_eqb. apply bool_decide_eq_false_2.
  cbn. intros Heq. injection Heq as Heq _. by apply Hb.
Qed.

Lemma ipv4_text_domain s :
  s <> [] -> forallb is_ipv4_text s = true ->
  ascii s /\ existsb forbidden_domain s = false /\ domain_to_ascii s false = Ret (Some s).
Proof.
  intros Hne Hs. apply forallb_Forall_iff in Hs.
  assert (Hchars : Forall (fun b => 0 <= b < 128 /\ is_ascii_upper_alpha b = false
     /\ forbidden_domain b = false /\ to_ascii_lowercase b <> ch "x") s).
  { eapply Forall_impl; [exact Hs|]. cbn. unfold is_ipv4_text, forbidden_domain, contains_char,
      forbidden_host_code_points, to_ascii_lowercase. cbn [existsb app]. intros b Hb.
    split; [ascii_lia|]. split; [ascii_lia|]. split; [ascii_lia|]. break_match; ascii_lia. }
  assert (Ha : ascii s) by (eapply Forall_impl; [exact Hchars|]; cbn; tauto).
  split; [done|]. split.
  { apply existsb_false_forall. eapply Forall_impl; [exact Hchars|]. cbn. tauto. }
  rewrite domain_to_ascii_ascii, no_punycode_label, lowercase_id; [done|..|done|done].
  all: eapply Forall_impl; [exact Hchars|]; cbn; tauto.
Qed.

(** A well-formed host survives serializing and parsing. *)
Lemma host_serialize_parse is_opaque host :
  host_ok is_opaque host ->
  exists text, host_serialize host = Ret text /\ parse_host text is_opaque = Ret (Some host).
Proof.
  destruct host as [address|address|s]; cbn [host_ok host_serialize].
  - intros [-> Hr]. destruct (ipv4_serialize_parse address Hr) as (text & Hs & Hp & Hn).
    exists text. split; [done|]. destruct (serialize_ipv4_text address text Hr Hs) as [Hne Htext].
    destruct (ipv4_text_domain text Hne Htext) as (Ha & Hf & Hd).
    rewrite (parse_host_domain text text) by done. by rewrite Hn, Hp.
  - intros [Hlen Hb]. destruct (ipv6_pieces_exist address Hlen Hb) as (pieces & Hl & Hu & ->).
    destruct (ipv6_serialize_parse pieces Hl Hu) as (text & -> & _ & Hp). cbn [res_bind].
    eexists. split; [done|]. unfold parse_host. cbn [app starts_with_char]. rewrite Z.eqb_refl.
    assert (Hend : ends_with_char (91 :: text ++ [93]) 93 = true).
    { unfold ends_with_char. rewrite (last_snoc 93 (91 :: text) : last (91 :: text ++ [93]) = Some 93). done. }
    rewrite Hend. cbn [negb]. unfold substring_view, verify.
    rewrite (proj2 (Nat.leb_le _ _)) by (simpl; rewrite length_app; simpl; lia). cbn [res_bind drop].
    rewrite drop_0. replace (length (91%Z :: text ++ [93%Z]) - 2)%nat with (length text).
    2: { simpl. rewrite length_app. simpl. lia. }
    rewrite take_app_length, Hp. done.
  - destruct is_opaque.
    + intros Hok. exists s. split; [done|]. by apply parse_host_opaque.
    + intros (Hne & Ha & Hl & Hf & Hn & Hd). exists s. split; [done|].
      rewrite (parse_host_domain s s) by done. by rewrite Hn.
Qed.

End facts.

(** ** Properties *)

(** The host parser returns for every input it can be called with (the
    empty string only for opaque hosts), and a host it returns is well-formed:
    a domain is non-empty lower-case ASCII free of forbidden code points that
    does not end in a number, an opaque host is percent-encoded and free of
    forbidden code points, an IPv4 address fits 32 bits and an IPv6 address has
    sixteen bytes. *)
Theorem parse_host_safe `{IcuLaws, SimdutfLaws, FastFloatLaws} (input : bytes) (is_opaque : bool)
    (Hin : all_bytes input) (Hne : input <> [] \/ is_opaque = true) :
  exists r, parse_host input is_opaque = Ret r /\ forall host, r = Some host -> host_ok is_opaque host.
Proof. by apply parse_host_spec. Qed.

Lemma parse_host_safe_witness :
  exists r, parse_host (sv "EXAMPLE.com") false = Ret r /\ forall host, r = Some host -> host_ok false host.
Proof. apply parse_host_safe; [repeat constructor|left; done]. Defined.

(** C40: serializing a host the parser returned and parsing the text with the
    same kind of parser gives the host back. *)
Theorem host_roundtrip `{IcuLaws, SimdutfLaws, FastFloatLaws} (input : bytes) (is_opaque : bool)
    (host : Host) (Hin : all_bytes input) (Hp : parse_host input is_opaque = Ret (Some host)) :
  exists text, host_serialize host = Ret text /\ parse_host text is_opaque = Ret (Some host).
Proof.
  apply host_serialize_parse. destruct (decide (input = [] /\ is_opaque = false)) as [[-> ->]|Hne].
  - done.
  - destruct (parse_host_spec input is_opaque Hin) as (r & Hr & Hok).
    { destruct is_opaque; [by right|left]. intros ->. tauto. }
    apply Hok. congruence.
Qed.

Lemma host_roundtrip_witness :
  exists text, host_serialize (HostIPv4 0x7F000001) = Ret text
    /\ parse_host text false = Ret (Some (HostIPv4 0x7F000001)).
Proof. apply (host_roundtrip (sv "0x7F.1")); [repeat constructor|vm_compute; reflexivity]. Defined.
