(* ===== verification/PublicSuffix.v ===== *)
(** * Public suffixes and registrable domains: the lookups written by
      [Meta/generate_public_suffix_data.py], [get_registrable_domain] of
      [LibURL/URL.cpp] and the two host operations of [LibURL/Host.cpp]

    The list itself is data generated from a downloaded file: the class
    [PublicSuffixList] stands for the sorted array of reversed rules. *)

From S2P Require Import Prelude BinarySearch CharacterTypes Utf8 Strings Host.

Class PublicSuffixList := { s_public_suffixes : list bytes }.

Section public_suffix.
Context `{PublicSuffixList, Simdutf}.

(** [PublicSuffixData::is_public_suffix], also [URL::is_public_suffix] *)
Definition is_public_suffix (host : bytes) : res bool :=
  let* (found, _) := binary_search (sv_compare host) s_public_suffixes in
  Ret found.

(** The loop of [get_public_suffix]; [input] is what is left of the reversed labels. *)
Fixpoint public_suffix_loop (input : list bytes) (overall_search_string : bytes) : res bytes :=
  match input with
  | [] => Ret overall_search_string
  | part :: input =>
      let* known := is_public_suffix (overall_search_string ++ part) in
      if known then public_suffix_loop input (overall_search_string ++ part ++ [ch "."])
      else
        let* wildcard := is_public_suffix (overall_search_string ++ [ch "."]) in
        if wildcard then public_suffix_loop input (overall_search_string ++ part ++ [ch "."])
        else Ret overall_search_string
  end.

(** [PublicSuffixData::get_public_suffix] *)
Definition get_public_suffix (string : bytes) : res (option bytes) :=
  let* input := split_view string [ch "."] false in
  let* overall_search_string := public_suffix_loop (rev input) [] in
  let* view := split_view overall_search_string [ch "."] false in
  let return_string := join (ch ".") (rev view) in
  if sv_is_empty return_string then Ret None
  else verify (validate Surrogates_Yes return_string) (Ret (Some return_string)).

(** [URL::get_registrable_domain] *)
Definition get_registrable_domain (host : bytes) : res (option bytes) :=
  let* public_suffix := get_public_suffix host in
  match public_suffix with
  | None => Ret None
  | Some public_suffix =>
      if negb (ends_with host public_suffix CaseSensitive) then Ret None
      else if sv_eqb host public_suffix then Ret None
      else
        let* subhost := substring_view host 0 (length host - length public_suffix) in
        let subhost := trim subhost [ch "."] TrimRight in
        if sv_is_empty subhost then Ret None
        else
          let start_index := match find_last subhost (ch ".") with Some index => S index | None => 0%nat end in
          let* view := substring_view_from host start_index in
          verify (validate Surrogates_Yes view) (Ret (Some view))
  end.

(** [MUST(String::substring_from_byte_offset(start))] *)
Definition substring_from_byte_offset (s : bytes) (start : nat) : res bytes :=
  let* view := substring_view_from s start in
  verify (validate Surrogates_Yes view) (Ret view).

Definition trailing_dot (host_string : bytes) : bytes :=
  if ends_with_char host_string (ch ".") then sv "." else [].

(** [Host::public_suffix] *)
Definition public_suffix (host : Host) : res (option bytes) :=
  match host with
  | HostString host_string =>
      if negb (is_domain host) then Ret None
      else
        let* found := get_public_suffix host_string in
        let* public_suffix :=
          match found with
          | Some suffix => Ret suffix
          | None =>
              match find_last host_string (ch ".") with
              | Some last_dot => substring_from_byte_offset host_string (S last_dot)
              | None => Ret host_string
              end
          end in
        verify (sv_is_ascii public_suffix)
          (verify (negb (ends_with_char public_suffix (ch ".")))
             (Ret (Some (public_suffix ++ trailing_dot host_string))))
  | _ => Ret None
  end.

(** [Host::registrable_domain] *)
Definition registrable_domain (host : Host) : res (option bytes) :=
  let* public_suffix := public_suffix host in
  match public_suffix, host with
  | Some public_suffix, HostString host_string =>
      if sv_eqb public_suffix host_string then Ret None
      else
        let* found := get_registrable_domain host_string in
        let* registrable_domain :=
          match found with
          | Some domain => Ret (Some domain)
          | None =>
              match find_last host_string (ch ".") with
              | None => Ret None
              | Some last_dot =>
                  let* view := substring_view host_string 0 last_dot in
                  match find_last view (ch ".") with
                  | None => Ret None
                  | Some second_last_dot =>
                      let* domain := substring_from_byte_offset host_string (S second_last_dot) in
                      Ret (Some domain)
                  end
              end
          end in
        let registrable_domain :=
          match registrable_domain with Some domain => domain | None => host_string end in
        verify (sv_is_ascii registrable_domain)
          (verify (negb (ends_with_char registrable_domain (ch ".")))
             (Ret (Some (registrable_domain ++ trailing_dot host_string))))
  | _, _ => Ret None
  end.

End public_suffix.

(** A few rules of the list, as the generator writes them: reversed and sorted. *)
#[export] Instance excerpt_suffixes : PublicSuffixList | 100 := {
  s_public_suffixes := [sv "ck.*"; sv "com"; sv "io"; sv "io.github"; sv "uk"; sv "uk.co"]
}.

(** The array is sorted, without duplicates. *)
Class PublicSuffixListLaws `{PublicSuffixList} : Prop := {
  suffixes_sorted : forall i j x y, (i < j)%nat ->
    s_public_suffixes !! i = Some x -> s_public_suffixes !! j = Some y -> sv_compare x y < 0
}.

#[export] Instance excerpt_suffixes_laws : PublicSuffixListLaws.
Proof.
  split. intros i j x y Hij. simpl.
  do 6 (destruct i as [|i]; [simpl; intros [= <-]; do 6 (destruct j as [|j]; [simpl; intros; simplify_eq; done || lia|]); done|]).
  done.
Qed.

(** ** Facts: the order of the list *)

Lemma sv_compare_eq a b : sv_compare a b = 0 <-> a = b.
Proof.
  revert b. induction a as [|x a IH]; intros [|y b]; try done. rewrite sv_compare_cons.
  destruct (Z.ltb_spec x y); [split; [done|intros; simplify_eq; lia]|].
  destruct (Z.ltb_spec y x); [split; [done|intros; simplify_eq; lia]|].
  assert (x = y) by lia. subst. rewrite IH. split; [by intros ->|by intros [= ->]].
Qed.

Lemma sv_compare_below a b c : sv_compare a b < 0 -> 0 <= sv_compare c b -> 0 < sv_compare c a.
Proof.
  revert b c. induction a as [|x a IH]; intros [|y b] [|z c]; rewrite ?sv_compare_cons; try done.
  destruct (Z.ltb_spec x y), (Z.ltb_spec y x), (Z.ltb_spec z y), (Z.ltb_spec y z),
    (Z.ltb_spec z x), (Z.ltb_spec x z); try lia. intros. by apply (IH b).
Qed.

(** Membership in the list. *)
Definition is_rule `{PublicSuffixList} (s : bytes) : bool := bool_decide (s ∈ s_public_suffixes).

Section facts.
Context `{PublicSuffixListLaws, SimdutfLaws}.

Lemma is_public_suffix_ok s : is_public_suffix s = Ret (is_rule s).
Proof.
  unfold is_public_suffix. destruct (binary_search_found (sv_compare s) s_public_suffixes)
    as (found & i & -> & Hfound).
  { intros i j x y Hij Hx Hy. apply sv_compare_below. by apply (suffixes_sorted i j). }
  cbn [res_bind]. f_equal. unfold is_rule. destruct found; symmetry.
  - apply bool_decide_eq_true_2.
    pose proof (proj1 Hfound eq_refl) as Hex. apply Exists_exists in Hex as (x & Hin & Hz).
    apply sv_compare_eq in Hz. by subst.
  - apply bool_decide_eq_false_2. intros Hin.
    assert (false = true); [|done]. apply Hfound, Exists_exists. exists s. split; [done|]. by apply sv_compare_eq.
Qed.

End facts.

(** ** Facts: labels *)

(** A label: non-empty ASCII without a dot. *)
Definition label_ok (label : bytes) : Prop :=
  label <> [] /\ Forall (fun x => 0 <= x < 128 /\ x <> ch ".") label.

Lemma label_no_dot l : label_ok l -> Forall (fun x => x <> ch ".") l.
Proof. intros [_ Hl]. eapply Forall_impl; [exact Hl|]. cbn. tauto. Qed.

Lemma join_snoc (c : Z) l x : l <> [] -> join c (l ++ [x]) = join c l ++ c :: x.
Proof.
  induction l as [|y l IH]; [done|]. intros _. destruct l as [|z l]; [done|].
  change (y ++ c :: join c ((z :: l) ++ [x]) = (y ++ c :: join c (z :: l)) ++ c :: x).
  by rewrite IH, <- app_assoc.
Qed.

Lemma join_app (c : Z) l1 l2 : l1 <> [] -> l2 <> [] -> join c (l1 ++ l2) = join c l1 ++ c :: join c l2.
Proof.
  intros H1 H2. induction l1 as [|x l1 IH]; [done|]. destruct l1 as [|y l1].
  - destruct l2; done.
  - change (x ++ c :: join c ((y :: l1) ++ l2) = (x ++ c :: join c (y :: l1)) ++ c :: join c l2).
    rewrite IH by done. by rewrite <- app_assoc.
Qed.

(** Parts each followed by a dot. *)
Definition dotted (parts : list bytes) : bytes := parts ≫= fun part => part ++ [ch "."].

Lemma split_on_dotted l : Forall label_ok l -> split_on (ch ".") (dotted l) = l ++ [[]].
Proof.
  induction 1 as [|x l Hx Hl IH]; [done|]. unfold dotted in *. cbn -[split_on].
  rewrite <- app_assoc. cbn [app]. rewrite split_on_app by (by apply label_no_dot). by rewrite IH.
Qed.

Lemma kept_labels l : Forall label_ok l -> kept false l = l.
Proof.
  unfold kept. induction 1 as [|x l [Hx _] Hl IH]; [done|]. simpl. destruct x; [done|]. simpl in *. by rewrite IH.
Qed.

Lemma split_view_dotted l : Forall label_ok l -> split_view (dotted l) [ch "."] false = Ret l.
Proof.
  intros Hl. destruct l as [|x l]; [done|]. rewrite split_view_kept.
  - rewrite split_on_dotted by done. unfold kept. rewrite List.filter_app.
    change (List.filter _ [[]]) with (@nil bytes). rewrite app_nil_r. f_equal. exact (kept_labels _ Hl).
  - apply Forall_cons in Hl as [[Hx _] _]. by destruct x.
Qed.

Lemma join_nonempty l : l <> [] -> Forall label_ok l -> join (ch ".") l <> [].
Proof. intros Hne Hl. destruct Hl as [|x l [Hx _] Hl]; [done|]. destruct x; [done|]. by destruct l. Qed.

Lemma split_view_labels l : l <> [] -> Forall label_ok l -> split_view (join (ch ".") l) [ch "."] false = Ret l.
Proof.
  intros Hne Hl. rewrite split_view_kept by (by apply join_nonempty).
  rewrite split_on_join, kept_labels; [done|done|done|].
  eapply Forall_impl; [exact Hl|]. apply label_no_dot.
Qed.

Lemma join_ascii l : Forall label_ok l -> Forall (fun x => 0 <= x < 128) (join (ch ".") l).
Proof.
  induction 1 as [|x l [_ Hx] Hl IH]; [constructor|].
  assert (Forall (fun x => 0 <= x < 128) x) by (eapply Forall_impl; [exact Hx|]; cbn; tauto).
  destruct l as [|y l]; [done|]. change (join 46 (x :: y :: l)) with (x ++ 46 :: join 46 (y :: l)).
  apply Forall_app. split; [done|]. constructor; [lia|done].
Qed.

(** ** Facts: the longest chain of rules *)

(** How many of the reversed labels the lookup takes. *)
Fixpoint suffix_length_from `{PublicSuffixList} (rev_labels : list bytes) (overall : bytes) : nat :=
  match rev_labels with
  | [] => 0
  | part :: rev_labels =>
      if is_rule (overall ++ part) || is_rule (overall ++ [ch "."])
      then S (suffix_length_from rev_labels (overall ++ part ++ [ch "."])) else 0
  end.

Definition suffix_length `{PublicSuffixList} (labels : list bytes) : nat :=
  suffix_length_from (rev labels) [].

(** The last [n] labels of a host. *)
Definition last_labels (n : nat) (labels : list bytes) : bytes :=
  join (ch ".") (drop (length labels - n) labels).

Lemma suffix_length_from_le `{PublicSuffixList} l overall : (suffix_length_from l overall <= length l)%nat.
Proof.
  revert overall. induction l as [|x l IH]; intros overall; simpl; [lia|].
  case_match; [|lia]. specialize (IH (overall ++ x ++ [46])). lia.
Qed.

Lemma suffix_length_le `{PublicSuffixList} labels : (suffix_length labels <= length labels)%nat.
Proof. unfold suffix_length. rewrite <- (length_rev labels). apply suffix_length_from_le. Qed.

Section lookups.
Context `{PublicSuffixListLaws, SimdutfLaws}.

Lemma public_suffix_loop_ok l overall :
  public_suffix_loop l overall = Ret (overall ++ dotted (take (suffix_length_from l overall) l)).
Proof.
  revert overall. induction l as [|x l IH]; intros overall; cbn [public_suffix_loop suffix_length_from].
  { by rewrite app_nil_r. }
  rewrite is_public_suffix_ok. cbn [res_bind]. destruct (is_rule (overall ++ x)); cbn [orb].
  - rewrite IH. cbn [take]. unfold dotted. cbn. by rewrite <- !app_assoc.
  - rewrite is_public_suffix_ok. cbn [res_bind]. destruct (is_rule (overall ++ [46])).
    + rewrite IH. cbn [take]. unfold dotted. cbn. by rewrite <- !app_assoc.
    + cbn. by rewrite app_nil_r.
Qed.

Lemma ascii_is_ascii s : Forall (fun x => 0 <= x < 128) s -> sv_is_ascii s = true.
Proof. intros Hs. rewrite sv_is_ascii_spec. by apply Forall_is_ascii. Qed.

Lemma rev_take_rev {A} (l : list A) n : rev (take n (rev l)) = drop (length l - n) l.
Proof. rewrite firstn_rev, rev_involutive. done. Qed.

Lemma last_labels_ascii n labels : Forall label_ok labels -> Forall (fun x => 0 <= x < 128) (last_labels n labels).
Proof. intros Hl. apply join_ascii. by apply Forall_drop. Qed.

Lemma get_public_suffix_ok labels :
  labels <> [] -> Forall label_ok labels ->
  get_public_suffix (join (ch ".") labels) =
    Ret (if (suffix_length labels =? 0)%nat then None else Some (last_labels (suffix_length labels) labels)).
Proof.
  intros Hne Hl. unfold get_public_suffix. rewrite split_view_labels by done. cbn [res_bind].
  rewrite public_suffix_loop_ok. cbn [res_bind app]. fold (suffix_length labels).
  rewrite split_view_dotted by (by apply Forall_take, Forall_rev). cbn [res_bind].
  rewrite rev_take_rev. fold (last_labels (suffix_length labels) labels).
  destruct (Nat.eqb_spec (suffix_length labels) 0) as [->|Hk].
  - unfold last_labels. by rewrite Nat.sub_0_r, drop_all.
  - pose proof (suffix_length_le labels).
    assert (last_labels (suffix_length labels) labels <> []) as Hsome.
    { apply join_nonempty; [|by apply Forall_drop]. intros Hnil. apply (f_equal length) in Hnil.
      rewrite length_drop in Hnil. simpl in Hnil. lia. }
    unfold verify. rewrite ascii_valid by (by apply last_labels_ascii).
    by destruct (last_labels (suffix_length labels) labels).
Qed.

End lookups.

(** ** Facts: searching for the last dot *)

Lemma find_last_from_spec s c i j :
  s !! j = Some c -> (j < i <= length s)%nat -> (forall k, (j < k < i)%nat -> s !! k <> Some c) ->
  find_last_from i s c = Some j.
Proof.
  intros Hj. induction i as [|i IH]; intros Hi Hno; [lia|]. cbn [find_last_from].
  destruct (decide (i = j)) as [->|Hne]; [by rewrite Hj, Z.eqb_refl|].
  destruct (s !! i) as [x|] eqn:Hx.
  - destruct (Z.eqb_spec x c) as [->|]; [exfalso; apply (Hno i); [lia|done]|].
    apply IH; [lia|]. intros k Hk. apply Hno. lia.
  - apply IH; [lia|]. intros k Hk. apply Hno. lia.
Qed.

Lemma find_last_app s c t :
  Forall (fun x => x <> c) t -> find_last (s ++ c :: t) c = Some (length s).
Proof.
  intros Ht. unfold find_last. apply find_last_from_spec.
  - rewrite lookup_app_r by lia. by rewrite Nat.sub_diag.
  - rewrite length_app. simpl. lia.
  - intros k [Hk _] Hc. rewrite lookup_app_r in Hc by lia.
    destruct (k - length s)%nat eqn:E; [lia|]. simpl in Hc.
    rewrite Forall_lookup in Ht. by apply (Ht _ _ Hc).
Qed.

Lemma find_last_none s c : Forall (fun x => x <> c) s -> find_last s c = None.
Proof.
  intros Hs. unfold find_last. generalize (length s) as n. induction n as [|n IH]; [done|].
  cbn [find_last_from]. destruct (s !! n) as [x|] eqn:Hx; [|done].
  rewrite Forall_lookup in Hs. by rewrite (proj2 (Z.eqb_neq _ _) (Hs _ _ Hx)).
Qed.

(** The last dot of a host is before its last label. *)
Lemma find_last_join labels x :
  label_ok x -> find_last (join (ch ".") (labels ++ [x])) (ch ".") =
    match labels with [] => None | _ => Some (length (join (ch ".") labels)) end.
Proof.
  intros Hx. destruct labels as [|y labels].
  - apply find_last_none. by apply label_no_dot.
  - rewrite join_snoc by done. apply find_last_app. by apply label_no_dot.
Qed.

Lemma ends_with_app (s t : bytes) : ends_with (s ++ t) t CaseSensitive = true.
Proof.
  unfold ends_with. destruct t as [|y t]; [done|]. cbn [sv_is_empty].
  replace (sv_is_empty (s ++ y :: t)) with false by (by destruct s).
  rewrite length_app, (proj2 (Nat.ltb_ge _ _)) by lia.
  replace (length s + length (y :: t) - length (y :: t))%nat with (length s) by lia.
  rewrite drop_app_length. cbn [same_characters]. unfold sv_eqb. by apply bool_decide_eq_true_2.
Qed.

Lemma ends_with_char_label x s : label_ok x -> ends_with_char (s ++ x) (ch ".") = false.
Proof.
  intros Hx. pose proof (label_no_dot x Hx) as Hd. destruct Hx as [Hne _].
  destruct (exists_last Hne) as (x' & y & ->). apply Forall_app in Hd as [_ Hy].
  rewrite Forall_singleton in Hy. unfold ends_with_char. rewrite app_assoc, last_snoc. lia.
Qed.

Lemma last_labels_app l1 l2 : last_labels (length l2) (l1 ++ l2) = join (ch ".") l2.
Proof.
  unfold last_labels. rewrite length_app. replace (_ + _ - _)%nat with (length l1) by lia.
  by rewrite drop_app_length.
Qed.

Lemma ends_with_char_join labels : labels <> [] -> Forall label_ok labels ->
  ends_with_char (join (ch ".") labels) (ch ".") = false.
Proof.
  intros Hne Hl. destruct (exists_last Hne) as (l & x & ->). apply Forall_app in Hl as [_ Hx].
  rewrite Forall_singleton in Hx. destruct l as [|y l]; [apply (ends_with_char_label x []); done|].
  rewrite join_snoc by done. change (46 :: x) with ([46] ++ x). rewrite app_assoc.
  by apply ends_with_char_label.
Qed.

Lemma last_labels_nonempty n (labels : list bytes) :
  (1 <= n)%nat -> labels <> [] -> drop (length labels - n) labels <> [].
Proof.
  intros Hn Hne Hnil. apply (f_equal length) in Hnil. rewrite length_drop in Hnil.
  destruct labels; [done|]. simpl in Hnil. lia.
Qed.

Lemma trim_last_dot s :
  s <> [] -> ends_with_char s (ch ".") = false -> trim (s ++ [ch "."]) [ch "."] TrimRight = s.
Proof.
  intros Hne Hdot. destruct (exists_last Hne) as (u & y & ->).
  unfold ends_with_char in Hdot. rewrite last_snoc in Hdot.
  unfold trim, trim_right. rewrite !rev_app_distr.
  assert (Hy : contains_char [46] y = false) by (unfold contains_char; cbn [existsb]; by rewrite Hdot).
  change (rev [46]) with [46]. change (rev [y]) with [y]. cbn [app trim_left].
  change (contains_char [46] 46) with true. cbv iota. rewrite Hy.
  change (rev (y :: rev u)) with (rev (rev u) ++ [y]). by rewrite rev_involutive.
Qed.

Section domains.
Context `{PublicSuffixListLaws, SimdutfLaws}.

Lemma substring_from_ok s t :
  Forall (fun x => 0 <= x < 128) t -> substring_from_byte_offset (s ++ t) (length s) = Ret t.
Proof.
  intros Ht. unfold substring_from_byte_offset, substring_view_from, substring_view, verify.
  rewrite (proj2 (Nat.leb_le _ _)) by (rewrite length_app; lia).
  rewrite (proj2 (Nat.leb_le _ _)) by (rewrite length_app; lia). cbn [res_bind].
  rewrite drop_app_length, take_ge by (rewrite length_app; lia). by rewrite ascii_valid.
Qed.

(** The substring after the dot that ends the labels [l]. *)
Lemma substring_after_dot l r :
  l <> [] -> r <> [] -> Forall label_ok r ->
  substring_from_byte_offset (join (ch ".") (l ++ r)) (S (length (join (ch ".") l))) = Ret (join (ch ".") r).
Proof.
  intros Hl Hr Hok. rewrite join_app by done. change (46 :: join 46 r) with ([46] ++ join 46 r).
  rewrite app_assoc. replace (S (length (join 46 l))) with (length (join 46 l ++ [46])).
  - apply substring_from_ok. by apply join_ascii.
  - rewrite length_app. simpl. lia.
Qed.

(** Both operations end with the same two checks. *)
Lemma checked_suffix labels n host :
  (1 <= n)%nat -> labels <> [] -> Forall label_ok labels -> ends_with_char host (ch ".") = false ->
  verify (sv_is_ascii (last_labels n labels))
    (verify (negb (ends_with_char (last_labels n labels) (ch ".")))
       (Ret (Some (last_labels n labels ++ trailing_dot host))))
  = Ret (Some (last_labels n labels)).
Proof.
  intros Hn Hne Hl Hdot. unfold verify. rewrite ascii_is_ascii by (by apply last_labels_ascii).
  unfold last_labels at 1. rewrite ends_with_char_join by (by apply last_labels_nonempty || by apply Forall_drop).
  cbn [negb]. unfold trailing_dot. by rewrite Hdot, app_nil_r.
Qed.

Lemma public_suffix_ok labels :
  labels <> [] -> Forall label_ok labels ->
  public_suffix (HostString (join (ch ".") labels))
  = Ret (Some (last_labels (Nat.max 1 (suffix_length labels)) labels)).
Proof.
  intros Hne Hl. unfold public_suffix.
  replace (negb (is_domain (HostString (join 46 labels)))) with false.
  2: { cbn [is_domain]. pose proof (join_nonempty labels Hne Hl). by destruct (join 46 labels). }
  rewrite get_public_suffix_ok by done. cbn [res_bind].
  pose proof (ends_with_char_join labels Hne Hl) as Hdot.
  destruct (Nat.eqb_spec (suffix_length labels) 0) as [->|Hk]; cbn [res_bind].
  2: { replace (Nat.max 1 (suffix_length labels)) with (suffix_length labels) by lia.
       apply checked_suffix; [lia|done..]. }
  destruct (exists_last Hne) as (l & x & ->). assert (Hall := Hl).
  apply Forall_app in Hl as [Hl Hx]. rewrite Forall_singleton in Hx. rewrite find_last_join by done.
  assert (Hlast : last_labels 1 (l ++ [x]) = x) by apply (last_labels_app l [x]).
  set (host := join 46 (l ++ [x])) in *.
  assert (Hfound : match match l with [] => None | _ => Some (length (join 46 l)) end with
                   | Some last_dot => substring_from_byte_offset host (S last_dot)
                   | None => Ret host end = Ret (last_labels 1 (l ++ [x]))).
  { rewrite Hlast. destruct l as [|y l]; [done|].
    apply (substring_after_dot (y :: l) [x]); [done|done|by constructor]. }
  rewrite Hfound. cbn [res_bind]. apply checked_suffix; [lia|done..].
Qed.

(** The suffix found leaves the dot and the labels before it. *)
Lemma get_registrable_domain_ok l x r :
  Forall label_ok (l ++ [x] ++ r) -> r <> [] -> suffix_length (l ++ [x] ++ r) = length r ->
  get_registrable_domain (join (ch ".") (l ++ [x] ++ r)) = Ret (Some (join (ch ".") ([x] ++ r))).
Proof.
  intros Hok Hr Hk. set (host := join 46 (l ++ [x] ++ r)). unfold get_registrable_domain.
  assert (Hne : l ++ [x] ++ r <> []) by (by destruct l).
  unfold host. rewrite get_public_suffix_ok, Hk by done. cbn [res_bind]. fold host.
  rewrite (proj2 (Nat.eqb_neq _ _)) by (destruct r; [done|simpl; lia]).
  rewrite (app_assoc l [x] r), last_labels_app.
  assert (Hhost : host = (join 46 (l ++ [x]) ++ [46]) ++ join 46 r).
  { unfold host. rewrite app_assoc, join_app by (done || by destruct l). by rewrite <- app_assoc. }
  apply Forall_app in Hok as [Hl [Hx Hrok]%Forall_app]. rewrite Forall_singleton in Hx.
  rewrite Hhost, ends_with_app. cbn [negb].
  replace (sv_eqb _ _) with false.
  2: { symmetry. unfold sv_eqb. apply bool_decide_eq_false_2. intros Heq. apply (f_equal length) in Heq.
       rewrite !length_app in Heq. simpl in Heq. lia. }
  unfold substring_view at 1, verify at 1.
  rewrite (proj2 (Nat.leb_le _ _)) by lia. cbn [res_bind drop].
  rewrite drop_0. replace (length _ - length (join 46 r))%nat with (length (join 46 (l ++ [x]) ++ [46])).
  2: { rewrite !length_app. lia. }
  rewrite take_app_length. cbv zeta.
  assert (Hlx : Forall label_ok (l ++ [x])) by (apply Forall_app; split; [done|by constructor]).
  assert (Hlxne : l ++ [x] <> []) by (by destruct l).
  rewrite trim_last_dot by (by apply join_nonempty || by apply ends_with_char_join).
  replace (sv_is_empty (join 46 (l ++ [x]))) with false.
  2: { pose proof (join_nonempty _ Hlxne Hlx). by destruct (join 46 (l ++ [x])). }
  rewrite <- Hhost, find_last_join by done.
  assert (Hsub : substring_from_byte_offset host
    (match match l with [] => None | _ => Some (length (join 46 l)) end with Some i => S i | None => 0%nat end)
    = Ret (join 46 ([x] ++ r))).
  { destruct l as [|y l].
    - apply (substring_from_ok [] (join 46 ([x] ++ r))). apply join_ascii. by constructor.
    - apply (substring_after_dot (y :: l) ([x] ++ r)); [done|done|by constructor]. }
  unfold substring_from_byte_offset in Hsub. unfold verify in *.
  destruct (substring_view_from host _) as [view|]; cbn [res_bind] in *; [|done].
  destruct (validate _ view); [|done]. by simplify_eq.
Qed.

Lemma get_registrable_domain_none labels :
  labels <> [] -> Forall label_ok labels -> suffix_length labels = 0%nat ->
  get_registrable_domain (join (ch ".") labels) = Ret None.
Proof. intros Hne Hl Hk. unfold get_registrable_domain. by rewrite get_public_suffix_ok, Hk. Qed.

(** The fallback: everything after the second to last dot. *)
Lemma registrable_fallback l x y :
  Forall label_ok (l ++ [x; y]) ->
  (match find_last (join (ch ".") (l ++ [x; y])) (ch ".") with
   | None => Ret None
   | Some last_dot =>
       let* view := substring_view (join (ch ".") (l ++ [x; y])) 0 last_dot in
       match find_last view (ch ".") with
       | None => Ret None
       | Some second_last_dot =>
           let* domain := substring_from_byte_offset (join (ch ".") (l ++ [x; y])) (S second_last_dot) in
           Ret (Some domain)
       end
   end) = Ret (match l with [] => None | _ => Some (join (ch ".") [x; y]) end).
Proof.
  intros Hok. change [x; y] with ([x] ++ [y]) at 1 2. rewrite (app_assoc l [x] [y]).
  apply Forall_app in Hok as [Hl Hxy]. apply Forall_cons in Hxy as [Hx Hy']. rewrite Forall_singleton in Hy'.
  rewrite find_last_join by done. destruct (l ++ [x]) as [|z m] eqn:Hm; [by destruct l|]. rewrite <- Hm in *.
  assert (Hne : l ++ [x] <> []) by (by destruct l). clear Hm z m.
  rewrite join_snoc by done. unfold substring_view, verify.
  rewrite (proj2 (Nat.leb_le _ _)) by (rewrite length_app; lia). cbn [res_bind drop].
  rewrite drop_0, take_app_length, find_last_join by done.
  destruct l as [|z l]; [done|].
  rewrite (substring_after_dot (z :: l) [x; y]) by (done || (constructor; [done|by constructor])). done.
Qed.

Lemma registrable_domain_ok labels :
  labels <> [] -> Forall label_ok labels ->
  let n := Nat.max 1 (suffix_length labels) in
  registrable_domain (HostString (join (ch ".") labels))
  = Ret (if (n <? length labels)%nat then Some (last_labels (S n) labels) else None).
Proof.
  intros Hne Hl. cbv zeta. unfold registrable_domain. rewrite public_suffix_ok by done. cbn [res_bind].
  pose proof (suffix_length_le labels) as Hle.
  set (n := Nat.max 1 (suffix_length labels)).
  assert (Hn : (1 <= n <= length labels)%nat).
  { unfold n. destruct labels; [done|]. simpl in *. lia. }
  destruct (Nat.ltb_spec n (length labels)) as [Hlt|Hge].
  2: { unfold sv_eqb. rewrite bool_decide_eq_true_2; [done|]. unfold last_labels.
       by replace (length labels - n)%nat with 0%nat by lia. }
  (* labels = l ++ [x] ++ r, the last n labels being r *)
  set (r := drop (length labels - n) labels).
  assert (Hlr : length r = n) by (unfold r; rewrite length_drop; lia).
  destruct (exists_last (l := take (length labels - n) labels)) as (l & x & Hlx).
  { intros Hnil. apply (f_equal length) in Hnil. rewrite length_take in Hnil. simpl in Hnil. lia. }
  assert (Heq : labels = l ++ [x] ++ r).
  { rewrite app_assoc, <- Hlx. unfold r. by rewrite take_drop. }
  clearbody r. clear Hlx. rewrite Heq in Hl, Hne. assert (Hr : r <> []) by (destruct r; [simpl in Hlr; lia|done]).
  assert (Hlast : last_labels n labels = join 46 r) by (rewrite Heq, (app_assoc l), <- Hlr; apply last_labels_app).
  assert (Hlast1 : last_labels (S n) labels = join 46 ([x] ++ r)).
  { rewrite Heq, <- Hlr. apply (last_labels_app l ([x] ++ r)). }
  rewrite Hlast. replace (sv_eqb _ _) with false.
  2: { symmetry. unfold sv_eqb. apply bool_decide_eq_false_2. intros E. apply (f_equal length) in E.
       rewrite Heq, app_assoc, join_app in E by (done || by destruct l). rewrite length_app in E. simpl in E. lia. }
  assert (Hdot : ends_with_char (join 46 labels) 46 = false) by (rewrite Heq; by apply ends_with_char_join).
  rewrite <- Heq in Hl, Hne.
  assert (Hfinish : forall d, d = last_labels (S n) labels ->
    verify (sv_is_ascii d) (verify (negb (ends_with_char d 46)) (Ret (Some (d ++ trailing_dot (join 46 labels)))))
    = Ret (Some (last_labels (S n) labels))).
  { intros d ->. apply checked_suffix; [lia|done..]. }
  destruct (decide (suffix_length labels = 0)%nat) as [Hk|Hk].
  - rewrite get_registrable_domain_none by done. cbn [res_bind].
    assert (Hn1 : n = 1%nat) by (unfold n; lia). rewrite Hn1 in Hlr.
    destruct r as [|y [|? r]]; [done| |done]. rewrite Heq in Hl.
    pose proof (registrable_fallback l x y Hl) as Hfall. change ([x] ++ [y]) with [x; y] in *.
    rewrite <- Heq in Hfall. rewrite Hfall. cbn [res_bind]. apply Hfinish. rewrite Hlast1.
    destruct l; [by rewrite Heq|done].
  - assert (Hns : suffix_length labels = length r) by (unfold n in Hlr; lia).
    rewrite Heq in Hl, Hns. pose proof (get_registrable_domain_ok l x r Hl Hr Hns) as Hget.
    rewrite <- Heq in Hget. rewrite Hget. cbn [res_bind]. apply Hfinish. by rewrite Hlast1.
Qed.

End domains.

(** ** Properties *)

(** For a host made of labels (non-empty, ASCII, without dots, no trailing
    dot), the registrable domain never fails a check: it is the labels of the
    public suffix (at least the last label) and one more, or none when the host
    is itself a public suffix. *)
Theorem registrable_domain_correct `{PublicSuffixListLaws, SimdutfLaws} (labels : list bytes)
    (Hne : labels <> []) (Hl : Forall label_ok labels) :
  let n := Nat.max 1 (suffix_length labels) in
  public_suffix (HostString (join (ch ".") labels)) = Ret (Some (last_labels n labels))
  /\ registrable_domain (HostString (join (ch ".") labels))
     = Ret (if (n <? length labels)%nat then Some (last_labels (S n) labels) else None).
Proof. split; [by apply public_suffix_ok|by apply registrable_domain_ok]. Qed.

Lemma registrable_domain_correct_witness :
  let labels := [sv "www"; sv "example"; sv "co"; sv "uk"] in
  let n := Nat.max 1 (suffix_length labels) in
  public_suffix (HostString (join (ch ".") labels)) = Ret (Some (last_labels n labels))
  /\ registrable_domain (HostString (join (ch ".") labels))
     = Ret (if (n <? length labels)%nat then Some (last_labels (S n) labels) else None).
Proof.
  apply (registrable_domain_correct [sv "www"; sv "example"; sv "co"; sv "uk"]); [done|].
  repeat constructor; try done; lia.
Defined.

(** On a host with a trailing dot under a listed suffix, the registrable
    domain stops the process: the lookup drops the empty last label but the
    host does not end with the suffix it found, so the fallback takes the text
    after the second to last dot, and the assertion that it does not end with a
    dot fails. *)
Theorem registrable_domain_trailing_dot_crashes :
  public_suffix (HostString (sv "example.com.")) = Ret (Some (sv "com."))
  /\ registrable_domain (HostString (sv "example.com.")) = Crash.
Proof. split; vm_compute; reflexivity. Qed.

(** The membership test the cookie jar uses looks a host name up as it is
    written, while the array holds the rules with their labels reversed: a
    suffix of several labels is not recognised, although the search by labels
    finds it. *)
Theorem is_public_suffix_misses_reversed_rules :
  In (sv "uk.co") s_public_suffixes
  /\ get_public_suffix (sv "co.uk") = Ret (Some (sv "co.uk"))
  /\ is_public_suffix (sv "co.uk") = Ret false.
Proof. split; [simpl; tauto|]. split; vm_compute; reflexivity. Qed.
