(* ===== verification/Origin.v ===== *)
(** * Origins and sites: [LibURL/Origin.h], [LibURL/Origin.cpp] and
      [LibURL/Site.cpp], with the hashes of [AK/HashFunctions.h] and
      [AK/StringHash.h]

    The nonce of an opaque origin comes from the system's random generator, so
    [create_opaque] takes it as an argument. *)

From S2P Require Import Prelude CharacterTypes Utf8 Strings Host PublicSuffix.

(** ** [LibURL/Origin.h] *)

Inductive Origin :=
  | OpaqueOrigin (nonce : bytes)
  | TupleOrigin (scheme : option bytes) (host : Host) (port : option Z) (domain : option bytes).

Definition create_opaque (random : bytes) : Origin := OpaqueOrigin random.

Definition is_opaque (origin : Origin) : bool :=
  match origin with OpaqueOrigin _ => true | _ => false end.

Definition is_same_origin (a b : Origin) : bool :=
  match a, b with
  | OpaqueOrigin nonce, OpaqueOrigin nonce' => bool_decide (nonce = nonce')
  | TupleOrigin scheme host port _, TupleOrigin scheme' host' port' _ =>
      bool_decide (scheme = scheme') && bool_decide (host = host') && bool_decide (port = port')
  | _, _ => false
  end.

Definition is_same_origin_domain (a b : Origin) : bool :=
  match a, b with
  | OpaqueOrigin nonce, OpaqueOrigin nonce' => bool_decide (nonce = nonce')
  | TupleOrigin scheme _ _ domain, TupleOrigin scheme' _ _ domain' =>
      match domain, domain' with
      | Some _, _ => bool_decide (domain = domain') && bool_decide (scheme = scheme')
      | None, None => is_same_origin a b
      | None, Some _ => false
      end
  | _, _ => false
  end.

Definition effective_domain (origin : Origin) : option Host :=
  match origin with
  | OpaqueOrigin _ => None
  | TupleOrigin _ host _ domain =>
      match domain with Some domain => Some (HostString domain) | None => Some host end
  end.

(** [Origin::serialize] *)
Definition origin_serialize (origin : Origin) : res bytes :=
  match origin with
  | OpaqueOrigin _ => Ret (sv "null")
  | TupleOrigin scheme host port _ =>
      let result := default [] scheme ++ sv "://" in
      let* host := host_serialize host in
      let result := result ++ host in
      match port with
      | Some port =>
          let* number := format_decimal port in
          Ret (result ++ [ch ":"] ++ number)
      | None => Ret result
      end
  end.

(** ** Hashing *)

(** [~x] on [u32] *)
Definition u32_not (x : Z) : Z := 2 ^ 32 - 1 - x.

Definition int_hash (key : Z) : Z :=
  let key := u32 (key + u32_not (u32 (Z.shiftl key 15))) in
  let key := Z.lxor key (Z.shiftr key 10) in
  let key := u32 (key + u32 (Z.shiftl key 3)) in
  let key := Z.lxor key (Z.shiftr key 6) in
  let key := u32 (key + u32_not (u32 (Z.shiftl key 11))) in
  Z.lxor key (Z.shiftr key 16).

Definition pair_int_hash (key1 key2 : Z) : Z :=
  int_hash (Z.lxor (u32 (int_hash key1 * 209)) (int_hash (u32 (key2 * 413)))).

(** The loop body of [string_hash] *)
Definition string_hash_step (hash character : Z) : Z :=
  let hash := u32 (hash + u32_of_char character) in
  let hash := u32 (hash + u32 (Z.shiftl hash 10)) in
  Z.lxor hash (Z.shiftr hash 6).

Definition string_hash (characters : bytes) (seed : Z) : Z :=
  let hash := fold_left string_hash_step characters seed in
  let hash := u32 (hash + u32 (Z.shiftl hash 3)) in
  let hash := Z.lxor hash (Z.shiftr hash 11) in
  u32 (hash + u32 (Z.shiftl hash 15)).

(** [Traits<URL::Origin>::hash] *)
Definition origin_hash (origin : Origin) : res Z :=
  match origin with
  | OpaqueOrigin nonce =>
      let* n0 := at_index nonce 0 in
      let* n1 := at_index nonce 1 in
      let* n2 := at_index nonce 2 in
      let* n3 := at_index nonce 3 in
      Ret (Z.lor (Z.lor (Z.lor (u32 (Z.shiftl n0 24)) (u32 (Z.shiftl n1 16))) (u32 (Z.shiftl n2 8))) n3)
  | TupleOrigin scheme host port domain =>
      let hash := string_hash (default [] scheme) 0 in
      let hash := match port with Some port => pair_int_hash hash port | None => hash end in
      let* host := host_serialize host in
      let hash := pair_int_hash hash (string_hash host 0) in
      Ret (match domain with Some domain => pair_int_hash hash (string_hash domain 0) | None => hash end)
  end.

(** ** [LibURL/Site.cpp] *)

Inductive Site :=
  | SiteOrigin (origin : Origin)
  | SchemeAndHost (scheme : bytes) (host : Host).

Section sites.
Context `{PublicSuffixList, Simdutf}.

Definition obtain (origin : Origin) : res Site :=
  match origin with
  | OpaqueOrigin _ => Ret (SiteOrigin origin)
  | TupleOrigin scheme host _ _ =>
      let origin_scheme := default [] scheme in
      let* registrable_domain := registrable_domain host in
      match registrable_domain with
      | None => Ret (SchemeAndHost origin_scheme host)
      | Some registrable_domain => Ret (SchemeAndHost origin_scheme (HostString registrable_domain))
      end
  end.

(** [Site::is_same_site]; the nonce of a tuple origin is an empty variant. *)
Definition sites_are_same (a b : Site) : res bool :=
  match a, b with
  | SiteOrigin (OpaqueOrigin nonce), SiteOrigin (OpaqueOrigin nonce') => Ret (bool_decide (nonce = nonce'))
  | SiteOrigin _, SiteOrigin _ => Crash
  | SiteOrigin _, _ | _, SiteOrigin _ => Ret false
  | SchemeAndHost scheme host, SchemeAndHost scheme' host' =>
      if negb (bool_decide (scheme = scheme')) then Ret false
      else if negb (bool_decide (host = host')) then Ret false
      else Ret true
  end.

(** [Origin::is_same_site] *)
Definition is_same_site (a b : Origin) : res bool :=
  let* site_a := obtain a in
  let* site_b := obtain b in
  sites_are_same site_a site_b.

(** [Site::serialize] *)
Definition site_serialize (site : Site) : res bytes :=
  match site with
  | SiteOrigin _ => Ret (sv "null")
  | SchemeAndHost scheme host =>
      let* host := host_serialize host in
      Ret (scheme ++ sv "://" ++ host)
  end.

End sites.

(** ** Facts *)

Lemma is_same_origin_iff a b :
  is_same_origin a b = true <->
  match a, b with
  | OpaqueOrigin n, OpaqueOrigin n' => n = n'
  | TupleOrigin s h p _, TupleOrigin s' h' p' _ => s = s' /\ h = h' /\ p = p'
  | _, _ => False
  end.
Proof.
  destruct a, b; simpl; try done; rewrite ?andb_true_iff, ?bool_decide_eq_true; tauto.
Qed.

Lemma obtain_same_origin `{PublicSuffixList, Simdutf} a b :
  is_same_origin a b = true -> obtain a = obtain b.
Proof.
  rewrite is_same_origin_iff. destruct a, b; try done.
  - by intros ->.
  - intros (-> & -> & ->). done.
Qed.

(** A site that [obtain] returns is the same site as itself. *)
Lemma obtained_site_same `{PublicSuffixList, Simdutf} origin site :
  obtain origin = Ret site -> sites_are_same site site = Ret true.
Proof.
  destruct origin as [nonce|scheme host port domain]; simpl.
  - intros [= <-]. simpl. by rewrite bool_decide_eq_true_2.
  - destruct (registrable_domain host) as [[d|]|]; simpl; [..|done]; intros [= <-]; simpl;
      by rewrite !bool_decide_eq_true_2.
Qed.

Lemma sites_are_same_eq `{PublicSuffixList, Simdutf} a b : sites_are_same a b = Ret true -> a = b.
Proof.
  destruct a as [[]|], b as [[]|]; simpl; try done.
  - intros [= Hb%bool_decide_eq_true]. by subst.
  - destruct (bool_decide (scheme = scheme0)) eqn:E1; [|done].
    destruct (bool_decide (host = host0)) eqn:E2; [|done].
    apply bool_decide_eq_true in E1, E2. by subst.
Qed.

(** ** Properties *)

(** Being same origin is an equivalence relation, so the [operator==] of
    origins defined by it is one. *)
Theorem same_origin_equivalence : Equivalence (fun a b => is_same_origin a b = true).
Proof.
  split.
  - intros a. rewrite is_same_origin_iff. by destruct a.
  - intros a b. rewrite !is_same_origin_iff. destruct a, b; try done. intros (? & ? & ?). done.
  - intros a b c. rewrite !is_same_origin_iff. destruct a, b, c; try done; [congruence|].
    intros (-> & -> & ->). done.
Qed.

(** Same-origin refines same-site, and same-site is symmetric and
    transitive: for origins whose sites can be obtained, two same-origin ones
    are same-site, and same-site is decided by equality of the sites. *)
Theorem same_site_correct `{PublicSuffixList, Simdutf} (a b : Origin) (site_a site_b : Site)
    (Ha : obtain a = Ret site_a) (Hb : obtain b = Ret site_b) :
  (is_same_origin a b = true -> is_same_site a b = Ret true)
  /\ (is_same_site a b = Ret true <-> site_a = site_b)
  /\ (exists r, is_same_site a b = Ret r /\ is_same_site b a = Ret r).
Proof.
  assert (Hiff : is_same_site a b = Ret true <-> site_a = site_b).
  { unfold is_same_site. rewrite Ha, Hb. cbn [res_bind]. split; [apply sites_are_same_eq|].
    intros <-. by apply (obtained_site_same a). }
  split; [|split; [done|]].
  - intros Hs. apply Hiff. apply obtain_same_origin in Hs. congruence.
  - unfold is_same_site. rewrite Ha, Hb. cbn [res_bind].
    assert (Hshape : forall o s, obtain o = Ret s -> match s with SiteOrigin (TupleOrigin _ _ _ _) => False | _ => True end).
    { intros [n|sc h p d] s; simpl; [by intros [= <-]|].
      destruct (registrable_domain h) as [[d'|]|]; simpl; [..|done]; by intros [= <-]. }
    pose proof (Hshape a site_a Ha). pose proof (Hshape b site_b Hb).
    destruct site_a as [[nonce|]|scheme host], site_b as [[nonce'|]|scheme' host']; try done; simpl;
      try (eexists; split; reflexivity).
    + exists (bool_decide (nonce = nonce')). split; [done|]. f_equal. by apply bool_decide_ext.
    + rewrite (bool_decide_ext (scheme' = scheme) (scheme = scheme')) by done.
      rewrite (bool_decide_ext (host' = host) (host = host')) by done.
      destruct (bool_decide (scheme = scheme')), (bool_decide (host = host')); eexists; split; reflexivity.
Qed.

Lemma same_site_correct_witness :
  let a := TupleOrigin (Some (sv "https")) (HostString (sv "a.example.com")) None None in
  let b := TupleOrigin (Some (sv "https")) (HostString (sv "b.example.com")) (Some 8443) None in
  is_same_site a b = Ret true.
Proof.
  cbv zeta. apply (same_site_correct
    (TupleOrigin (Some (sv "https")) (HostString (sv "a.example.com")) None None)
    (TupleOrigin (Some (sv "https")) (HostString (sv "b.example.com")) (Some 8443) None)
    (SchemeAndHost (sv "https") (HostString (sv "example.com")))
    (SchemeAndHost (sv "https") (HostString (sv "example.com")))); vm_compute; reflexivity.
Defined.

(** The hash of an origin is not compatible with [operator==]: two origins
    that differ only in [domain] are equal, yet hash differently. *)
Theorem equal_origins_hash_differently :
  let a := TupleOrigin (Some (sv "https")) (HostString (sv "www.example.com")) None None in
  let b := TupleOrigin (Some (sv "https")) (HostString (sv "www.example.com")) None (Some (sv "example.com")) in
  is_same_origin a b = true /\ origin_hash a <> origin_hash b.
Proof. split; [reflexivity|]. vm_compute. discriminate. Qed.
