(* ===== verification/Url.v ===== *)
(** * URL records: [LibURL/URL.h] and [LibURL/URL.cpp]

    [URL::Data] is shared between copies and cloned before a write
    ([AK::CopyOnWrite]), so a [URL] is the value of its data. *)

From S2P Require Import Prelude CharacterTypes Utf8 Strings TextCodec Percent Ipv4 Ipv6 Host Origin.

(** ** Data *)

(** [BlobURLEntry] *)
Inductive BlobObject := Blob (type : bytes) (data : bytes) | MediaSource.
Record BlobURLEntry := { object : BlobObject; environment_origin : Origin }.

(** [URL::Data] *)
Record URL := {
  scheme : bytes;
  username : bytes;
  password : bytes;
  host : option Host;
  port : option Z;
  paths : list bytes;
  query : option bytes;
  fragment : option bytes;
  has_an_opaque_path : bool;
  blob_url_entry : option BlobURLEntry
}.

(** [URL()] *)
Definition empty_url : URL := {|
  scheme := []; username := []; password := []; host := None; port := None; paths := [];
  query := None; fragment := None; has_an_opaque_path := false; blob_url_entry := None
|}.

Inductive ExcludeFragment := ExcludeFragment_No | ExcludeFragment_Yes.

(** Assignments to one member of [m_data]. *)
Definition with_scheme (u : URL) (v : bytes) : URL :=
  {| scheme := v; username := username u; password := password u; host := host u; port := port u;
     paths := paths u; query := query u; fragment := fragment u;
     has_an_opaque_path := has_an_opaque_path u; blob_url_entry := blob_url_entry u |}.
Definition with_username (u : URL) (v : bytes) : URL :=
  {| scheme := scheme u; username := v; password := password u; host := host u; port := port u;
     paths := paths u; query := query u; fragment := fragment u;
     has_an_opaque_path := has_an_opaque_path u; blob_url_entry := blob_url_entry u |}.
Definition with_password (u : URL) (v : bytes) : URL :=
  {| scheme := scheme u; username := username u; password := v; host := host u; port := port u;
     paths := paths u; query := query u; fragment := fragment u;
     has_an_opaque_path := has_an_opaque_path u; blob_url_entry := blob_url_entry u |}.
Definition with_host (u : URL) (v : option Host) : URL :=
  {| scheme := scheme u; username := username u; password := password u; host := v; port := port u;
     paths := paths u; query := query u; fragment := fragment u;
     has_an_opaque_path := has_an_opaque_path u; blob_url_entry := blob_url_entry u |}.
Definition with_port (u : URL) (v : option Z) : URL :=
  {| scheme := scheme u; username := username u; password := password u; host := host u; port := v;
     paths := paths u; query := query u; fragment := fragment u;
     has_an_opaque_path := has_an_opaque_path u; blob_url_entry := blob_url_entry u |}.
Definition with_paths (u : URL) (v : list bytes) : URL :=
  {| scheme := scheme u; username := username u; password := password u; host := host u; port := port u;
     paths := v; query := query u; fragment := fragment u;
     has_an_opaque_path := has_an_opaque_path u; blob_url_entry := blob_url_entry u |}.
Definition with_query (u : URL) (v : option bytes) : URL :=
  {| scheme := scheme u; username := username u; password := password u; host := host u; port := port u;
     paths := paths u; query := v; fragment := fragment u;
     has_an_opaque_path := has_an_opaque_path u; blob_url_entry := blob_url_entry u |}.
Definition with_fragment (u : URL) (v : option bytes) : URL :=
  {| scheme := scheme u; username := username u; password := password u; host := host u; port := port u;
     paths := paths u; query := query u; fragment := v;
     has_an_opaque_path := has_an_opaque_path u; blob_url_entry := blob_url_entry u |}.
Definition with_opaque_path (u : URL) (v : bool) : URL :=
  {| scheme := scheme u; username := username u; password := password u; host := host u; port := port u;
     paths := paths u; query := query u; fragment := fragment u;
     has_an_opaque_path := v; blob_url_entry := blob_url_entry u |}.
Definition with_blob_url_entry (u : URL) (v : option BlobURLEntry) : URL :=
  {| scheme := scheme u; username := username u; password := password u; host := host u; port := port u;
     paths := paths u; query := query u; fragment := fragment u;
     has_an_opaque_path := has_an_opaque_path u; blob_url_entry := v |}.

(** ** Schemes *)

Definition special_schemes : list bytes :=
  [sv "ftp"; sv "file"; sv "http"; sv "https"; sv "ws"; sv "wss"].

Definition is_special_scheme (scheme : bytes) : bool := existsb (sv_eqb scheme) special_schemes.

Definition default_port_for_scheme (scheme : bytes) : option Z :=
  if sv_eqb scheme (sv "ftp") then Some 21
  else if sv_eqb scheme (sv "http") then Some 80
  else if sv_eqb scheme (sv "https") then Some 443
  else if sv_eqb scheme (sv "ws") then Some 80
  else if sv_eqb scheme (sv "wss") then Some 443
  else if sv_eqb scheme (sv "irc") then Some 6667
  else if sv_eqb scheme (sv "ircs") then Some 6697
  else None.

(** ** Accessors *)

Definition is_special (u : URL) : bool := is_special_scheme (scheme u).

Definition includes_credentials (u : URL) : bool :=
  negb (sv_is_empty (username u)) || negb (sv_is_empty (password u)).

Definition port_or_default (u : URL) : Z :=
  match port u with
  | Some port => port
  | None => default 0 (default_port_for_scheme (scheme u))
  end.

Definition cannot_have_a_username_or_password_or_port (u : URL) : bool :=
  match host u with
  | None => true
  | Some host => is_empty_host host || sv_eqb (scheme u) (sv "file")
  end.

(** [URL::serialized_host] *)
Definition serialized_host (u : URL) : res bytes :=
  let* host := unwrap (host u) in
  host_serialize host.

Definition path_segment_at_index (u : URL) (index : nat) : res bytes :=
  verify (index <? length (paths u))%nat
    (let* segment := at_index (paths u) index in
     percent_decode segment).

Definition basename (u : URL) : res bytes :=
  match paths u with
  | [] => Ret []
  | _ => let* last_segment := vector_last (paths u) in percent_decode last_segment
  end.

(** ** Mutators *)

Definition set_scheme (u : URL) (scheme : bytes) : URL := with_scheme u scheme.

Definition set_username (u : URL) (username : bytes) : res URL :=
  let* encoded := percent_encode username Userinfo false in
  Ret (with_username u encoded).

Definition set_password (u : URL) (password : bytes) : res URL :=
  let* encoded := percent_encode password Userinfo false in
  Ret (with_password u encoded).

Definition set_host (u : URL) (host : Host) : URL := with_host u (Some host).

Definition set_port (u : URL) (port : option Z) : URL :=
  if bool_decide (port = default_port_for_scheme (scheme u)) then with_port u None
  else with_port u port.

(** The loop of [set_paths] *)
Fixpoint encode_paths (paths : list bytes) : res (list bytes) :=
  match paths with
  | [] => Ret []
  | segment :: paths =>
      let* encoded := percent_encode segment Path false in
      let* rest := encode_paths paths in
      Ret (encoded :: rest)
  end.

Definition set_paths (u : URL) (paths : list bytes) : res URL :=
  let* encoded := encode_paths paths in
  Ret (with_paths u encoded).

Definition set_raw_paths (u : URL) (paths : list bytes) : URL := with_paths u paths.

Definition append_path (u : URL) (path : bytes) : res URL :=
  let* encoded := percent_encode path Path false in
  Ret (with_paths u (paths u ++ [encoded])).

Definition append_slash (u : URL) : URL := with_paths u (paths u ++ [[]]).

Definition set_query (u : URL) (query : option bytes) : URL := with_query u query.
Definition set_fragment (u : URL) (fragment : option bytes) : URL := with_fragment u fragment.
Definition set_has_an_opaque_path (u : URL) (value : bool) : URL := with_opaque_path u value.
Definition set_blob_url_entry (u : URL) (entry : option BlobURLEntry) : URL := with_blob_url_entry u entry.

(** ** Serialization *)

(** Each segment after a slash. *)
Definition slash_segments (segments : list bytes) : bytes :=
  segments ≫= fun segment => ch "/" :: segment.

(** [URL::serialize_path] *)
Definition serialize_path (u : URL) : res bytes :=
  if has_an_opaque_path u then at_index (paths u) 0
  else Ret (slash_segments (paths u)).

(** [URL::file_path], on a system other than Windows *)
Definition file_path (u : URL) : res bytes :=
  let* path := serialize_path u in
  percent_decode path.

(** Steps 3 and 4 of [URL::serialize], also in [serialize_for_display]: the path. *)
Definition serialize_path_part (u : URL) : res bytes :=
  if has_an_opaque_path u then at_index (paths u) 0
  else
    let* dot :=
      match host u with
      | None =>
          if (1 <? length (paths u))%nat then
            let* first := at_index (paths u) 0 in
            Ret (if sv_is_empty first then sv "/." else [])
          else Ret []
      | Some _ => Ret []
      end in
    Ret (dot ++ slash_segments (paths u)).

(** [":{}"] of the port *)
Definition serialize_port (u : URL) : res bytes :=
  match port u with
  | Some port => let* number := format_decimal port in Ret ([ch ":"] ++ number)
  | None => Ret []
  end.

(** Step 2 of [URL::serialize]: the authority. *)
Definition serialize_authority (u : URL) : res bytes :=
  match host u with
  | None => Ret []
  | Some _ =>
      let credentials :=
        if includes_credentials u then
          username u
          ++ (if negb (sv_is_empty (password u)) then [ch ":"] ++ password u else [])
          ++ [ch "@"]
        else [] in
      let* host := serialized_host u in
      let* port := serialize_port u in
      Ret (sv "//" ++ credentials ++ host ++ port)
  end.

Definition serialize_query (u : URL) : bytes :=
  match query u with Some query => [ch "?"] ++ query | None => [] end.

Definition serialize_fragment (u : URL) : bytes :=
  match fragment u with Some fragment => [ch "#"] ++ fragment | None => [] end.

(** [URL::serialize] *)
Definition serialize (u : URL) (exclude_fragment : ExcludeFragment) : res bytes :=
  let* authority := serialize_authority u in
  let* path := serialize_path_part u in
  Ret (scheme u ++ [ch ":"] ++ authority ++ path ++ serialize_query u
       ++ match exclude_fragment with
          | ExcludeFragment_No => serialize_fragment u
          | ExcludeFragment_Yes => []
          end).

(** [URL::serialize_for_display] *)
Definition serialize_for_display (u : URL) : res bytes :=
  let* authority :=
    match host u with
    | None => Ret []
    | Some _ =>
        let* host := serialized_host u in
        let* port := serialize_port u in
        Ret (sv "//" ++ host ++ port)
    end in
  let* path := serialize_path_part u in
  Ret (scheme u ++ [ch ":"] ++ authority ++ path ++ serialize_query u ++ serialize_fragment u).

(** [URL::equals]; the comparison of the addresses only makes it faster. *)
Definition equals (u other : URL) (exclude_fragments : ExcludeFragment) : res bool :=
  let* a := serialize u exclude_fragments in
  let* b := serialize other exclude_fragments in
  Ret (sv_eqb a b).

(** ** Construction *)

(** [URL::about] *)
Definition about (path : bytes) : URL :=
  with_opaque_path (with_paths (with_scheme empty_url (sv "about")) [path]) true.

(** [create_with_data] *)
Definition create_with_data (mime_type payload : bytes) (is_base64 : bool) : res URL :=
  let url := set_scheme (set_has_an_opaque_path empty_url true) (sv "data") in
  set_paths url [mime_type ++ (if is_base64 then sv ";base64" else []) ++ [ch ","] ++ payload].
