(* ===== verification/Cookies.v ===== *)
(** * Cookies: [LibWeb/Cookie/ParsedCookie.cpp] and [LibWeb/Cookie/Cookie.cpp]

    Parsing of [Set-Cookie] strings and the matching predicates of the storage
    model.  The clock of [UnixDateTime::now] is a parameter: [clock n] is its
    [n]-th reading, and the functions that read it pass the number of readings
    on.  [String::to_lowercase] is done by ICU and is a parameter as well. *)

From S2P Require Import Prelude CharacterTypes Utf8 Strings Tokens Percent Url Time.

(** [icu::CaseMap::utf8ToLower] in the default locale *)
Class IcuCase := { utf8ToLower : bytes -> bytes }.

(** ASCII text is lower-cased letter by letter. *)
Class IcuCaseLaws `{IcuCase} : Prop := {
  utf8ToLower_ascii (s : bytes) :
    Forall (fun x => 0 <= x < 128) s -> utf8ToLower s = to_ascii_lowercase <$> s
}.

(** A lower-casing of ASCII alone *)
#[export] Instance ascii_icu_case : IcuCase | 100 := {| utf8ToLower s := to_ascii_lowercase <$> s |}.

#[export] Instance ascii_icu_case_laws : IcuCaseLaws.
Proof. by split. Qed.

Inductive SameSite := SameSite_Default | SameSite_None | SameSite_Strict | SameSite_Lax.
Inductive Source := NonHttp | Http.

Record Cookie := mkCookie {
  c_name : bytes;
  c_value : bytes;
  c_same_site : SameSite;
  c_creation_time : UnixDateTime;
  c_last_access_time : UnixDateTime;
  c_expiry_time : UnixDateTime;
  c_domain : bytes;
  c_path : bytes;
  c_secure : bool;
  c_http_only : bool;
  c_host_only : bool;
  c_persistent : bool
}.

Record ParsedCookie := mkParsed {
  p_name : bytes;
  p_value : bytes;
  p_same_site_attribute : SameSite;
  p_expiry_time_from_expires_attribute : option UnixDateTime;
  p_expiry_time_from_max_age_attribute : option UnixDateTime;
  p_domain : option bytes;
  p_path : option bytes;
  p_secure_attribute_present : bool;
  p_http_only_attribute_present : bool
}.

(** [maximum_cookie_age] *)
Definition maximum_cookie_age : Duration := Duration_from_seconds (400 * 24 * 60 * 60).

(** ** Dates *)

Definition short_month_names : list bytes :=
  [sv "Jan"; sv "Feb"; sv "Mar"; sv "Apr"; sv "May"; sv "Jun";
   sv "Jul"; sv "Aug"; sv "Sep"; sv "Oct"; sv "Nov"; sv "Dec"].

(** The local variables of [parse_date_time] *)
Record date_fields := mkFields {
  f_hour : Z; f_minute : Z; f_second : Z; f_day_of_month : Z; f_month : Z; f_year : Z
}.

Record date_flags := mkFlags {
  found_time : bool; found_day_of_month : bool; found_month : bool; found_year : bool
}.

Section dates.
Context `{FastFloat}.

Definition u32_max : Z := 2 ^ 32 - 1.

(** [to_uint]: [None] leaves the variable alone and returns [false]. *)
Definition to_uint (token : bytes) : option Z :=
  if negb (forallb is_ascii_digit token) then None else to_number u32_max token.

(** [parse_time] assigns the parts up to the first that is not a number. *)
Definition parse_time (token : bytes) (f : date_fields) : res (bool * date_fields) :=
  let* parts := split_view token [ch ":"] false in
  if negb (length parts =? 3)%nat then Ret (false, f)
  else if existsb (fun part => sv_is_empty part || (2 <? length part)%nat) parts then Ret (false, f)
  else
    let* p0 := at_index parts 0 in
    match to_uint p0 with
    | None => Ret (false, f)
    | Some hour =>
        let f := mkFields hour (f_minute f) (f_second f) (f_day_of_month f) (f_month f) (f_year f) in
        let* p1 := at_index parts 1 in
        match to_uint p1 with
        | None => Ret (false, f)
        | Some minute =>
            let f := mkFields (f_hour f) minute (f_second f) (f_day_of_month f) (f_month f) (f_year f) in
            let* p2 := at_index parts 2 in
            match to_uint p2 with
            | None => Ret (false, f)
            | Some second =>
                Ret (true, mkFields (f_hour f) (f_minute f) second (f_day_of_month f) (f_month f) (f_year f))
            end
        end
    end.

Definition parse_day_of_month (token : bytes) (f : date_fields) : bool * date_fields :=
  if sv_is_empty token || (2 <? length token)%nat then (false, f)
  else
    match to_uint token with
    | None => (false, f)
    | Some day => (true, mkFields (f_hour f) (f_minute f) (f_second f) day (f_month f) (f_year f))
    end.

(** The loop over the names; [i] is the index of the first of them. *)
Fixpoint parse_month_loop (token : bytes) (names : list bytes) (i : Z) (f : date_fields) : bool * date_fields :=
  match names with
  | [] => (false, f)
  | name :: names =>
      if equals_ignoring_ascii_case token name
      then (true, mkFields (f_hour f) (f_minute f) (f_second f) (f_day_of_month f) (i + 1) (f_year f))
      else parse_month_loop token names (i + 1) f
  end.

Definition parse_month (token : bytes) (f : date_fields) : bool * date_fields :=
  parse_month_loop token short_month_names 0 f.

Definition parse_year (token : bytes) (f : date_fields) : bool * date_fields :=
  if negb (length token =? 2)%nat && negb (length token =? 4)%nat then (false, f)
  else
    match to_uint token with
    | None => (false, f)
    | Some year => (true, mkFields (f_hour f) (f_minute f) (f_second f) (f_day_of_month f) (f_month f) year)
    end.

Definition is_delimiter (c : Z) : bool :=
  (c =? 0x09) || ((0x20 <=? c) && (c <=? 0x2f)) || ((0x3b <=? c) && (c <=? 0x40))
  || ((0x5b <=? c) && (c <=? 0x60)) || ((0x7b <=? c) && (c <=? 0x7e)).

(** The body of the loop over the tokens: the first production that is still
    missing and matches takes the token.  The branches from the last to the
    first: *)
Definition year_token_step (token : bytes) (found : date_flags) (f : date_fields) : date_flags * date_fields :=
  if negb (found_year found) then
    let (ok, f) := parse_year token f in
    (if ok then mkFlags (found_time found) (found_day_of_month found) (found_month found) true else found, f)
  else (found, f).

Definition month_token_step (token : bytes) (found : date_flags) (f : date_fields) : date_flags * date_fields :=
  if negb (found_month found) then
    let (ok, f) := parse_month token f in
    if ok then (mkFlags (found_time found) (found_day_of_month found) true (found_year found), f)
    else year_token_step token found f
  else year_token_step token found f.

Definition day_token_step (token : bytes) (found : date_flags) (f : date_fields) : date_flags * date_fields :=
  if negb (found_day_of_month found) then
    let (ok, f) := parse_day_of_month token f in
    if ok then (mkFlags (found_time found) true (found_month found) (found_year found), f)
    else month_token_step token found f
  else month_token_step token found f.

Definition date_token_step (token : bytes) (found : date_flags) (f : date_fields)
    : res (date_flags * date_fields) :=
  if negb (found_time found) then
    let* (ok, f) := parse_time token f in
    if ok then Ret (mkFlags true (found_day_of_month found) (found_month found) (found_year found), f)
    else Ret (day_token_step token found f)
  else Ret (day_token_step token found f).

Fixpoint date_tokens_loop (tokens : list bytes) (found : date_flags) (f : date_fields)
    : res (date_flags * date_fields) :=
  match tokens with
  | [] => Ret (found, f)
  | token :: tokens =>
      let* (found, f) := date_token_step token found f in date_tokens_loop tokens found f
  end.

(** Steps 3 and 4: years of two digits *)
Definition expand_year (year : Z) : Z :=
  let year := if (70 <=? year) && (year <=? 99) then year + 1900 else year in
  if year <=? 69 then year + 2000 else year.

(** Steps 3 to 7, behind the loop *)
Definition finish_date (found : date_flags) (f : date_fields) : res (option UnixDateTime) :=
  let year := expand_year (f_year f) in
  if negb (found_day_of_month found) || negb (found_month found) || negb (found_year found)
     || negb (found_time found) then Ret None
  else if (f_day_of_month f <? 1) || (31 <? f_day_of_month f) then Ret None
  else if year <? 1601 then Ret None
  else if 23 <? f_hour f then Ret None
  else if 59 <? f_minute f then Ret None
  else if 59 <? f_second f then Ret None
  else
    let* days := days_in_month year (f_month f) in
    if days <? f_day_of_month f then Ret None
    else
      let* t := from_unix_time_parts year (u8 (f_month f)) (u8 (f_day_of_month f)) (u8 (f_hour f))
                  (u8 (f_minute f)) (u8 (f_second f)) 0 in
      Ret (Some t).

Definition parse_date_time (date_string : bytes) : res (option UnixDateTime) :=
  let date_tokens := split_view_if date_string is_delimiter false in
  let* (found, f) := date_tokens_loop date_tokens (mkFlags false false false false) (mkFields 0 0 0 0 0 0) in
  finish_date found f.

End dates.

(** ** Matching *)

Section matching.
Context `{FastFloat, Simdutf}.

(** [StringView::operator[]] with a [size_t] index *)
Definition sv_at (s : bytes) (index : Z) : res Z := at_index s (Z.to_nat (size_t index)).

Definition domain_matches (string domain_string : bytes) : res bool :=
  if sv_eqb string domain_string then Ret true
  else if negb (ends_with string domain_string CaseSensitive) then Ret false
  else
    let* c := sv_at string (Z.of_nat (length string) - Z.of_nat (length domain_string) - 1) in
    if negb (c =? ch ".") then Ret false
    else
      let* address := IPv4Address_from_string string in
      Ret (match address with Some _ => false | None => true end).

Definition path_matches (request_path cookie_path : bytes) : res bool :=
  if sv_eqb request_path cookie_path then Ret true
  else if starts_with request_path cookie_path CaseSensitive then
    if ends_with_char cookie_path (ch "/") then Ret true
    else
      let* c := sv_at request_path (Z.of_nat (length cookie_path)) in
      Ret (c =? ch "/")
  else Ret false.

Definition default_path (url : URL) : res bytes :=
  let* path := serialize_path url in
  let* uri_path := percent_decode path in
  if sv_is_empty uri_path then Ret (sv "/")
  else
    let* first := sv_at uri_path 0 in
    if negb (first =? ch "/") then Ret (sv "/")
    else
      let* last_separator := unwrap (find_last uri_path (ch "/")) in
      if (last_separator =? 0)%nat then Ret (sv "/")
      else
        let* view := substring_view uri_path 0 last_separator in
        must_from_utf8 view.

End matching.

Definition same_site_to_string (same_site : SameSite) : bytes :=
  match same_site with
  | SameSite_Default => sv "Default"
  | SameSite_None => sv "None"
  | SameSite_Lax => sv "Lax"
  | SameSite_Strict => sv "Strict"
  end.

Definition same_site_from_string (same_site_mode : bytes) : SameSite :=
  if equals_ignoring_ascii_case same_site_mode (sv "None") then SameSite_None
  else if equals_ignoring_ascii_case same_site_mode (sv "Strict") then SameSite_Strict
  else if equals_ignoring_ascii_case same_site_mode (sv "Lax") then SameSite_Lax
  else SameSite_Default.

Definition canonicalize_domain `{IcuCase} (url : URL) : res (option bytes) :=
  match host url with
  | None => Ret None
  | Some _ => let* serialized := serialized_host url in Ret (Some (utf8ToLower serialized))
  end.

(** ** Parsing *)

Definition cookie_contains_invalid_control_character (cookie_string : bytes) : bool :=
  existsb (fun code_point =>
    (code_point <=? 0x08) || ((0x0a <=? code_point) && (code_point <=? 0x1f)) || (code_point =? 0x7f))
    (code_points cookie_string).

Section parsing.
Context `{Simdutf, FastFloat, FastFloatSigned} (clock : nat -> UnixDateTime).

Definition with_expires (p : ParsedCookie) (t : UnixDateTime) : ParsedCookie :=
  mkParsed (p_name p) (p_value p) (p_same_site_attribute p) (Some t) (p_expiry_time_from_max_age_attribute p)
    (p_domain p) (p_path p) (p_secure_attribute_present p) (p_http_only_attribute_present p).
Definition with_max_age (p : ParsedCookie) (t : UnixDateTime) : ParsedCookie :=
  mkParsed (p_name p) (p_value p) (p_same_site_attribute p) (p_expiry_time_from_expires_attribute p) (Some t)
    (p_domain p) (p_path p) (p_secure_attribute_present p) (p_http_only_attribute_present p).

Definition on_expires_attribute (p : ParsedCookie) (attribute_value : bytes) (tick : nat)
    : res (ParsedCookie * nat) :=
  let* expiry_time := parse_date_time attribute_value in
  match expiry_time with
  | None => Ret (p, tick)
  | Some expiry_time =>
      let* cookie_age_limit := Duration_add (clock tick) maximum_cookie_age in
      let* expiry_seconds := seconds_since_epoch expiry_time in
      let* limit_seconds := seconds_since_epoch cookie_age_limit in
      let expiry_time := if limit_seconds <? expiry_seconds then cookie_age_limit else expiry_time in
      let expiry_time :=
        if Duration_lt expiry_time UnixDateTime_earliest then UnixDateTime_earliest else expiry_time in
      Ret (with_expires p expiry_time, S tick)
  end.

Definition on_max_age_attribute (p : ParsedCookie) (attribute_value : bytes) (tick : nat)
    : res (ParsedCookie * nat) :=
  if sv_is_empty attribute_value then Ret (p, tick)
  else
    let* first := sv_at attribute_value 0 in
    let* digits := if first =? ch "-" then substring_view_from attribute_value 1 else Ret attribute_value in
    if sv_is_empty digits || negb (forallb is_ascii_digit digits) then Ret (p, tick)
    else
      let delta_seconds :=
        match to_number_signed i64_min i64_max attribute_value with
        | Some delta_seconds => delta_seconds
        | None => if first =? ch "-" then i64_min else i64_max
        end in
      let* limit := to_seconds maximum_cookie_age in
      let delta_seconds := if limit <? delta_seconds then limit else delta_seconds in
      if delta_seconds <=? 0 then Ret (with_max_age p UnixDateTime_earliest, tick)
      else
        let* expiry_time := Duration_add (clock tick) (Duration_from_seconds delta_seconds) in
        Ret (with_max_age p expiry_time, S tick).

Definition on_domain_attribute (p : ParsedCookie) (attribute_value : bytes) : res ParsedCookie :=
  let* cookie_domain :=
    if starts_with_char attribute_value (ch ".") then substring_view_from attribute_value 1
    else Ret attribute_value in
  let* lowercase_cookie_domain := to_ascii_lowercase_string cookie_domain in
  Ret (mkParsed (p_name p) (p_value p) (p_same_site_attribute p) (p_expiry_time_from_expires_attribute p)
         (p_expiry_time_from_max_age_attribute p) (Some lowercase_cookie_domain) (p_path p)
         (p_secure_attribute_present p) (p_http_only_attribute_present p)).

Definition on_path_attribute (url : URL) (p : ParsedCookie) (attribute_value : bytes) : res ParsedCookie :=
  let* cookie_path :=
    if sv_is_empty attribute_value then default_path url
    else
      let* first := sv_at attribute_value 0 in
      if negb (first =? ch "/") then default_path url else must_from_utf8 attribute_value in
  Ret (mkParsed (p_name p) (p_value p) (p_same_site_attribute p) (p_expiry_time_from_expires_attribute p)
         (p_expiry_time_from_max_age_attribute p) (p_domain p) (Some cookie_path)
         (p_secure_attribute_present p) (p_http_only_attribute_present p)).

Definition on_secure_attribute (p : ParsedCookie) : ParsedCookie :=
  mkParsed (p_name p) (p_value p) (p_same_site_attribute p) (p_expiry_time_from_expires_attribute p)
    (p_expiry_time_from_max_age_attribute p) (p_domain p) (p_path p) true (p_http_only_attribute_present p).

Definition on_http_only_attribute (p : ParsedCookie) : ParsedCookie :=
  mkParsed (p_name p) (p_value p) (p_same_site_attribute p) (p_expiry_time_from_expires_attribute p)
    (p_expiry_time_from_max_age_attribute p) (p_domain p) (p_path p) (p_secure_attribute_present p) true.

Definition on_same_site_attribute (p : ParsedCookie) (attribute_value : bytes) : ParsedCookie :=
  mkParsed (p_name p) (p_value p) (same_site_from_string attribute_value)
    (p_expiry_time_from_expires_attribute p) (p_expiry_time_from_max_age_attribute p) (p_domain p) (p_path p)
    (p_secure_attribute_present p) (p_http_only_attribute_present p).

Definition process_attribute (url : URL) (p : ParsedCookie) (attribute_name attribute_value : bytes) (tick : nat)
    : res (ParsedCookie * nat) :=
  if equals_ignoring_ascii_case attribute_name (sv "Expires") then on_expires_attribute p attribute_value tick
  else if equals_ignoring_ascii_case attribute_name (sv "Max-Age") then on_max_age_attribute p attribute_value tick
  else if equals_ignoring_ascii_case attribute_name (sv "Domain") then
    let* p := on_domain_attribute p attribute_value in Ret (p, tick)
  else if equals_ignoring_ascii_case attribute_name (sv "Path") then
    let* p := on_path_attribute url p attribute_value in Ret (p, tick)
  else if equals_ignoring_ascii_case attribute_name (sv "Secure") then Ret (on_secure_attribute p, tick)
  else if equals_ignoring_ascii_case attribute_name (sv "HttpOnly") then Ret (on_http_only_attribute p, tick)
  else if equals_ignoring_ascii_case attribute_name (sv "SameSite") then
    Ret (on_same_site_attribute p attribute_value, tick)
  else Ret (p, tick).

(** The part of [s] behind an equals sign at [position] *)
Definition after_equals (s : bytes) (position : nat) : res bytes :=
  if Z.of_nat position <? size_t (Z.of_nat (length s) - 1)
  then substring_view_from s (position + 1) else Ret [].

(** One round of [parse_attributes]: the attribute and what is left of the
    unparsed attributes *)
Definition next_attribute (unparsed_attributes : bytes) : res (bytes * bytes * bytes) :=
  let* unparsed_attributes := substring_view_from unparsed_attributes 1 in
  let* (cookie_av, unparsed_attributes) :=
    match find_char unparsed_attributes (ch ";") with
    | Some position =>
        let* cookie_av := substring_view unparsed_attributes 0 position in
        let* rest := substring_view_from unparsed_attributes position in
        Ret (cookie_av, rest)
    | None => Ret (unparsed_attributes, [])
    end in
  let* (attribute_name, attribute_value) :=
    match find_char cookie_av (ch "=") with
    | Some position =>
        let* attribute_name := substring_view cookie_av 0 position in
        let* attribute_value := after_equals cookie_av position in
        Ret (attribute_name, attribute_value)
    | None => Ret (cookie_av, [])
    end in
  Ret (trim_whitespace attribute_name, trim_whitespace attribute_value, unparsed_attributes).

Fixpoint parse_attributes (fuel : nat) (url : URL) (p : ParsedCookie) (unparsed_attributes : bytes) (tick : nat)
    : res (ParsedCookie * nat) :=
  match fuel with
  | O => Crash
  | S fuel =>
      if sv_is_empty unparsed_attributes then Ret (p, tick)
      else
        let* (attribute, unparsed_attributes) := next_attribute unparsed_attributes in
        let (attribute_name, attribute_value) := (attribute : bytes * bytes) in
        if (1024 <? length attribute_value)%nat then parse_attributes fuel url p unparsed_attributes tick
        else
          let* (p, tick) := process_attribute url p attribute_name attribute_value tick in
          parse_attributes fuel url p unparsed_attributes tick
  end.

Definition parse_cookie (url : URL) (cookie_string : bytes) (tick : nat) : res (option ParsedCookie * nat) :=
  if cookie_contains_invalid_control_character cookie_string then Ret (None, tick)
  else
    let* (name_value_pair, unparsed_attributes) :=
      match find_char cookie_string (ch ";") with
      | Some position =>
          let* name_value_pair := substring_view cookie_string 0 position in
          let* unparsed_attributes := substring_view_from cookie_string position in
          Ret (name_value_pair, unparsed_attributes)
      | None => Ret (cookie_string, [])
      end in
    let* (name, value) :=
      match find_char name_value_pair (ch "=") with
      | None => Ret ([], name_value_pair)
      | Some position =>
          let* name := substring_view name_value_pair 0 position in
          let* value := after_equals name_value_pair position in
          Ret (name, value)
      end in
    let name := trim_whitespace name in
    let value := trim_whitespace value in
    if (4096 <? length name + length value)%nat then Ret (None, tick)
    else
      let* name := must_from_utf8 name in
      let* value := must_from_utf8 value in
      let parsed_cookie := mkParsed name value SameSite_Default None None None None false false in
      let* (parsed_cookie, tick) :=
        parse_attributes (S (length unparsed_attributes)) url parsed_cookie unparsed_attributes tick in
      Ret (Some parsed_cookie, tick).

End parsing.
