(* ===== verification/CookieDates.v ===== *)
(** * Cookie dates

    [parse_date_time] returns on every input; what it accepts is the moment of
    a date of the calendar; and it reads the dates of HTTP, written in full. *)

From S2P Require Import Prelude CharacterTypes Utf8 Strings Tokens Time Cookies.

(** ** Numbers *)

Lemma digits_value_bound s :
  forallb is_ascii_digit s = true -> 0 <= digits_value 10 s < 10 ^ Z.of_nat (length s).
Proof.
  induction s as [|c s IH] using rev_ind; [done|]. rewrite forallb_app. intros [Hs Hc]%andb_prop.
  simpl in Hc. rewrite andb_true_r in Hc. specialize (IH Hs). rewrite digits_value_app, length_app.
  assert (Hv : hex_value c = c - 48) by (unfold hex_value; by rewrite Hc). rewrite Hv.
  cbn [length]. replace (Z.of_nat (length s + 1)) with (Z.of_nat (length s) + 1) by lia.
  rewrite Z.pow_add_r by lia. assert (48 <= c <= 57) by ascii_lia. lia.
Qed.

Lemma digit_not_whitespace c : is_ascii_digit c = true -> contains_char whitespace_characters c = false.
Proof.
  intros Hc. unfold contains_char. apply existsb_false_forall. repeat constructor; ascii_lia.
Qed.

Lemma digits_no_whitespace s :
  forallb is_ascii_digit s = true -> Forall (fun x => contains_char whitespace_characters x = false) s.
Proof. intros Hs%forallb_Forall_iff. eapply Forall_impl; [exact Hs|apply digit_not_whitespace]. Qed.

Lemma digits_trim s : forallb is_ascii_digit s = true -> trim_whitespace s = s.
Proof. intros Hs. by apply trim_whitespace_id, digits_no_whitespace. Qed.

Lemma digits_radix s : forallb is_ascii_digit s = true -> forallb (is_radix_digit 10) s = true.
Proof. done. Qed.

Section dates.
Context `{FastFloatLaws}.

Lemma to_uint_short token :
  token <> [] -> (length token <= 4)%nat ->
  to_uint token = if forallb is_ascii_digit token then Some (digits_value 10 token) else None.
Proof.
  intros Hne Hlen. unfold to_uint. destruct (forallb is_ascii_digit token) eqn:E; [|done]. cbn [negb].
  unfold to_number. rewrite digits_trim by done.
  rewrite parse_number_digits by done.
  pose proof (digits_value_bound token E) as [_ Hb].
  assert (10 ^ Z.of_nat (length token) <= 10 ^ 4) by (apply Z.pow_le_mono_r; lia).
  rewrite (proj2 (Z.leb_le _ _)); [done|]. unfold u32_max. lia.
Qed.

Lemma to_uint_bound token n k :
  token <> [] -> (length token <= k)%nat -> (k <= 4)%nat -> to_uint token = Some n -> 0 <= n < 10 ^ Z.of_nat k.
Proof.
  intros Hne Hlen Hk. rewrite to_uint_short by (done || lia). destruct (forallb _ token) eqn:E; [|done].
  intros [= <-]. pose proof (digits_value_bound token E).
  assert (10 ^ Z.of_nat (length token) <= 10 ^ Z.of_nat k) by (apply Z.pow_le_mono_r; lia). lia.
Qed.

(** ** The variables *)

Record fields_ok (found : date_flags) (f : date_fields) : Prop := {
  ok_hour : 0 <= f_hour f <= 99;
  ok_minute : 0 <= f_minute f <= 99;
  ok_second : 0 <= f_second f <= 99;
  ok_day : 0 <= f_day_of_month f <= 99;
  ok_month : found_month found = true -> 1 <= f_month f <= 12;
  ok_year : 0 <= f_year f <= 9999
}.

Ltac fields := split; cbn [snd f_hour f_minute f_second f_day_of_month f_month f_year found_month]; try done; try lia.

Lemma parse_time_ok found token f :
  fields_ok found f -> exists ok f', parse_time token f = Ret (ok, f') /\ fields_ok found f'.
Proof.
  intros Hf. pose proof Hf as [? ? ? ? ? ?]. unfold parse_time.
  assert (Hsplit : exists parts, split_view token [ch ":"] false = Ret parts).
  { destruct token; [by exists []|]. rewrite split_view_kept by done. eauto. }
  destruct Hsplit as [parts ->]. cbn [res_bind]. destruct (Nat.eqb_spec (length parts) 3) as [E|]; [|cbn [negb]; eauto].
  cbn [negb]. destruct (existsb _ parts) eqn:Hex; [eauto|].
  destruct parts as [|p0 [|p1 [|p2 [|]]]]; try done. clear E. apply existsb_false_forall in Hex.
  apply Forall_cons in Hex as [H0' Hex]. apply Forall_cons in Hex as [H1' Hex]. apply Forall_cons in Hex as [H2' _].
  assert (Hnum : forall p n, sv_is_empty p || (2 <? length p)%nat = false -> to_uint p = Some n -> 0 <= n <= 99).
  { intros p n [Hp1 Hp2]%orb_false_iff Hn. apply Nat.ltb_ge in Hp2.
    apply (to_uint_bound p n 2) in Hn; [simpl in Hn; lia| |lia|lia]. by destruct p. }
  cbn [at_index lookup list_lookup unwrap res_bind].
  destruct (to_uint p0) as [n0|] eqn:E0; [|eauto]. apply Hnum in E0; [|done].
  destruct (to_uint p1) as [n1|] eqn:E1; [|do 2 eexists; split; [done|]; fields]. apply Hnum in E1; [|done].
  destruct (to_uint p2) as [n2|] eqn:E2; [|do 2 eexists; split; [done|]; fields]. apply Hnum in E2; [|done].
  do 2 eexists. split; [done|]. fields.
Qed.

Lemma parse_day_ok found token f : fields_ok found f -> fields_ok found (parse_day_of_month token f).2.
Proof.
  intros Hf. pose proof Hf as [? ? ? ? ? ?]. unfold parse_day_of_month.
  destruct (sv_is_empty token || (2 <? length token)%nat) eqn:E; [done|]. apply orb_false_iff in E as [E1 E2].
  destruct (to_uint token) as [n|] eqn:En; [|done]. apply Nat.ltb_ge in E2.
  apply (to_uint_bound token n 2) in En; [|by destruct token|lia|lia]. simpl in En. fields.
Qed.

Lemma parse_month_ok names token i found f :
  0 <= i -> i + Z.of_nat (length names) <= 12 -> fields_ok found f ->
  match parse_month_loop token names i f with
  | (true, f') => fields_ok (mkFlags (found_time found) (found_day_of_month found) true (found_year found)) f'
  | (false, f') => f' = f
  end.
Proof.
  intros Hi Hlen Hf. pose proof Hf as [? ? ? ? ? ?]. revert i Hi Hlen.
  induction names as [|name names IH]; intros i Hi Hlen; simpl; [done|].
  cbn [length] in Hlen. destruct (equals_ignoring_ascii_case token name); [fields|]. apply IH; lia.
Qed.

Lemma parse_year_ok found token f : fields_ok found f -> fields_ok found (parse_year token f).2.
Proof.
  intros Hf. pose proof Hf as [? ? ? ? ? ?]. unfold parse_year.
  destruct (negb (length token =? 2)%nat && negb (length token =? 4)%nat) eqn:E; [done|].
  destruct (to_uint token) as [n|] eqn:En; [|done].
  assert (Hlen : (length token = 2 \/ length token = 4)%nat).
  { destruct (Nat.eqb_spec (length token) 2), (Nat.eqb_spec (length token) 4); auto. done. }
  apply (to_uint_bound token n 4) in En; [|by destruct token; [destruct Hlen|]|lia|lia]. simpl in En. fields.
Qed.

Lemma fields_ok_flags found found' f :
  fields_ok found f -> (found_month found' = true -> found_month found = true) -> fields_ok found' f.
Proof. intros [? ? ? ? ? ?] Hm. split; auto. Qed.

Definition step_ok (r : date_flags * date_fields) : Prop := fields_ok r.1 r.2.

Lemma year_token_step_ok token found f : fields_ok found f -> step_ok (year_token_step token found f).
Proof.
  intros Hf. unfold year_token_step. destruct (found_year found); cbn [negb]; [done|].
  pose proof (parse_year_ok found token f Hf) as Hy. destruct (parse_year token f) as [ok f2].
  eapply fields_ok_flags; [exact Hy|]. by destruct ok.
Qed.

Lemma month_token_step_ok token found f : fields_ok found f -> step_ok (month_token_step token found f).
Proof.
  intros Hf. unfold month_token_step. destruct (found_month found) eqn:Em; cbn [negb]; [by apply year_token_step_ok|].
  pose proof (parse_month_ok short_month_names token 0 found f ltac:(lia) ltac:(simpl; lia) Hf) as Hm.
  unfold parse_month. destruct (parse_month_loop token short_month_names 0 f) as [[] f2]; [done|].
  subst f2. by apply year_token_step_ok.
Qed.

Lemma day_token_step_ok token found f : fields_ok found f -> step_ok (day_token_step token found f).
Proof.
  intros Hf. unfold day_token_step. destruct (found_day_of_month found); cbn [negb]; [by apply month_token_step_ok|].
  pose proof (parse_day_ok found token f Hf) as Hd.
  destruct (parse_day_of_month token f) as [[] f2]; [|by apply month_token_step_ok].
  by eapply fields_ok_flags.
Qed.

Lemma date_token_step_ok token found f :
  fields_ok found f -> exists r, date_token_step token found f = Ret r /\ step_ok r.
Proof.
  intros Hf. unfold date_token_step. pose proof (day_token_step_ok token found) as Hday.
  destruct (found_time found); cbn [negb]; [eauto|].
  destruct (parse_time_ok found token f Hf) as ([] & f2 & -> & Hf2); cbn [res_bind]; [|eauto].
  eexists. split; [done|]. by eapply fields_ok_flags.
Qed.

Lemma date_tokens_loop_ok tokens found f :
  fields_ok found f -> exists found' f', date_tokens_loop tokens found f = Ret (found', f') /\ fields_ok found' f'.
Proof.
  revert found f. induction tokens as [|token tokens IH]; intros found f Hf; simpl; [eauto|].
  destruct (date_token_step_ok token found f Hf) as ([found1 f1] & -> & Hf1). simpl. auto.
Qed.

(** A moment: a date and a time of day *)
Definition moment (d : date) (hour minute second : Z) : UnixDateTime :=
  mkDuration (date_to_days d * 86400 + hour * 3600 + minute * 60 + second) 0.

Definition is_moment (t : UnixDateTime) : Prop :=
  exists d hour minute second, valid_date d /\ 1601 <= d_year d <= 9999
    /\ 0 <= hour < 24 /\ 0 <= minute < 60 /\ 0 <= second < 60 /\ t = moment d hour minute second.

Lemma finish_date_ok found f :
  fields_ok found f ->
  exists o, finish_date found f = Ret o /\ match o with Some t => is_moment t | None => True end.
Proof.
  intros [Hh Hmi Hs Hd Hm Hy]. unfold finish_date.
  set (year := expand_year (f_year f)). assert (Hyear : 0 <= year <= 9999).
  { unfold year, expand_year. destruct ((70 <=? f_year f) && (f_year f <=? 99)) eqn:E; destruct (_ <=? 69) eqn:E2; lia. }
  clearbody year. destruct (_ || negb (found_time found)) eqn:Hfound; [by exists None|].
  repeat (apply orb_false_iff in Hfound as [Hfound ?]). bool_to_prop. specialize (Hm ltac:(done)).
  destruct ((f_day_of_month f <? 1) || (31 <? f_day_of_month f)) eqn:Eday; [by exists None|].
  destruct (Z.ltb_spec year 1601); [by exists None|]. destruct (Z.ltb_spec 23 (f_hour f)); [by exists None|].
  destruct (Z.ltb_spec 59 (f_minute f)); [by exists None|]. destruct (Z.ltb_spec 59 (f_second f)); [by exists None|].
  rewrite days_in_month_total by done. cbn [res_bind].
  destruct (Z.ltb_spec (month_length year (f_month f)) (f_day_of_month f)); [by exists None|].
  rewrite !u8_id by lia. rewrite from_unix_time_parts_exact by lia. cbn [res_bind].
  eexists. split; [done|]. exists (mkDate year (f_month f) (f_day_of_month f)), (f_hour f), (f_minute f), (f_second f).
  unfold valid_date. cbn [d_year d_month d_day]. split_and!; try lia. reflexivity.
Qed.

Lemma initial_fields_ok : fields_ok (mkFlags false false false false) (mkFields 0 0 0 0 0 0).
Proof. fields. Qed.

Lemma parse_date_time_ok s :
  exists o, parse_date_time s = Ret o /\ match o with Some t => is_moment t | None => True end.
Proof.
  unfold parse_date_time.
  destruct (date_tokens_loop_ok (split_view_if s is_delimiter false) _ _ initial_fields_ok) as (found & f & -> & Hf).
  cbn [res_bind]. by apply finish_date_ok.
Qed.

(** ** Dates of HTTP *)

Definition two_digits (n : Z) : bytes := [48 + n / 10; 48 + n mod 10].
Definition four_digits (n : Z) : bytes := two_digits (n / 100) ++ two_digits (n mod 100).

Definition short_day_names : list bytes :=
  [sv "Sun"; sv "Mon"; sv "Tue"; sv "Wed"; sv "Thu"; sv "Fri"; sv "Sat"].

(** ["Wed, 21 Oct 2015 07:28:00 GMT"] *)
Definition time_token (hour minute second : Z) : bytes :=
  two_digits hour ++ ch ":" :: two_digits minute ++ ch ":" :: two_digits second.

Definition http_date (weekday : bytes) (d : date) (hour minute second : Z) : bytes :=
  weekday ++ ch "," :: [] ++ ch " " :: two_digits (d_day d)
  ++ ch " " :: nth (Z.to_nat (d_month d - 1)) short_month_names []
  ++ ch " " :: four_digits (d_year d)
  ++ ch " " :: time_token hour minute second ++ ch " " :: sv "GMT".

Lemma two_digits_spec n :
  0 <= n <= 99 -> forallb is_ascii_digit (two_digits n) = true /\ digits_value 10 (two_digits n) = n.
Proof.
  intros Hn. assert (H1' : 0 <= n / 10 <= 9) by (Z.to_euclidean_division_equations; lia).
  assert (H2' : 0 <= n mod 10 <= 9) by (Z.to_euclidean_division_equations; lia).
  assert (Hd1 : is_ascii_digit (48 + n / 10) = true) by ascii_lia.
  assert (Hd2 : is_ascii_digit (48 + n mod 10) = true) by ascii_lia.
  unfold two_digits. split; [simpl; by rewrite Hd1, Hd2|].
  unfold digits_value. simpl. unfold hex_value. rewrite Hd1, Hd2. Z.to_euclidean_division_equations; lia.
Qed.

Lemma four_digits_spec n :
  0 <= n <= 9999 -> forallb is_ascii_digit (four_digits n) = true /\ digits_value 10 (four_digits n) = n.
Proof.
  intros Hn. unfold four_digits.
  destruct (two_digits_spec (n / 100)) as [Ha Hva]; [Z.to_euclidean_division_equations; lia|].
  destruct (two_digits_spec (n mod 100)) as [Hb Hvb]; [Z.to_euclidean_division_equations; lia|].
  split; [by rewrite forallb_app, Ha, Hb|].
  change (two_digits (n mod 100)) with ([48 + n mod 100 / 10] ++ [48 + (n mod 100) mod 10]).
  rewrite app_assoc, digits_value_app, digits_value_app, Hva.
  unfold two_digits, digits_value in Hvb. simpl in Hvb.
  Z.to_euclidean_division_equations; lia.
Qed.

Lemma digits_free c s :
  forallb is_ascii_digit s = true -> is_ascii_digit c = false -> Forall (fun x => x <> c) s.
Proof.
  intros Hs Hc. apply forallb_Forall_iff in Hs. eapply Forall_impl; [exact Hs|]. intros x Hx ->. congruence.
Qed.

(** A token of digits is not a time. *)
Lemma parse_time_digits token f :
  token <> [] -> forallb is_ascii_digit token = true -> parse_time token f = Ret (false, f).
Proof.
  intros Hne Hd. unfold parse_time. rewrite split_view_kept, split_on_none; [|by apply digits_free|done].
  cbn [res_bind]. by destruct token.
Qed.

Lemma inert_token token found f :
  token ∈ sv "GMT" :: short_day_names -> date_token_step token found f = Ret (found, f).
Proof.
  intros Hin. destruct found as [[] [] [] []];
    repeat (apply elem_of_cons in Hin as [->|Hin]; [reflexivity|]); by apply elem_of_nil in Hin.
Qed.

Lemma month_token month f :
  1 <= month <= 12 ->
  let token := nth (Z.to_nat (month - 1)) short_month_names [] in
  date_token_step token (mkFlags false true false false) f
  = Ret (mkFlags false true true false,
         mkFields (f_hour f) (f_minute f) (f_second f) (f_day_of_month f) month (f_year f)).
Proof. revert month. apply month_cases. repeat constructor. Qed.

Lemma day_token n f :
  0 <= n <= 99 ->
  date_token_step (two_digits n) (mkFlags false false false false) f
  = Ret (mkFlags false true false false,
         mkFields (f_hour f) (f_minute f) (f_second f) n (f_month f) (f_year f)).
Proof.
  intros Hn. destruct (two_digits_spec n Hn) as [Hd Hv]. unfold date_token_step. cbn [found_time negb].
  rewrite parse_time_digits by done. cbn [res_bind]. unfold day_token_step, parse_day_of_month.
  cbn [found_day_of_month negb]. rewrite to_uint_short, Hd, Hv by (done || simpl; lia). reflexivity.
Qed.

Lemma year_token n f :
  0 <= n <= 9999 ->
  date_token_step (four_digits n) (mkFlags false true true false) f
  = Ret (mkFlags false true true true,
         mkFields (f_hour f) (f_minute f) (f_second f) (f_day_of_month f) (f_month f) n).
Proof.
  intros Hn. destruct (four_digits_spec n Hn) as [Hd Hv]. unfold date_token_step. cbn [found_time negb].
  rewrite parse_time_digits by done. cbn [res_bind]. unfold day_token_step, month_token_step, year_token_step, parse_year.
  cbn [found_day_of_month found_month found_year negb]. rewrite to_uint_short, Hd, Hv by (done || simpl; lia). reflexivity.
Qed.

Lemma time_token_step hour minute second f :
  0 <= hour <= 99 -> 0 <= minute <= 99 -> 0 <= second <= 99 ->
  date_token_step (time_token hour minute second) (mkFlags false true true true) f
  = Ret (mkFlags true true true true,
         mkFields hour minute second (f_day_of_month f) (f_month f) (f_year f)).
Proof.
  intros Hh Hm Hs. destruct (two_digits_spec hour Hh) as [Hdh Hvh], (two_digits_spec minute Hm) as [Hdm Hvm],
    (two_digits_spec second Hs) as [Hds Hvs].
  unfold date_token_step, parse_time. cbn [found_time negb].
  rewrite split_view_kept by done. unfold time_token.
  rewrite split_on_app, split_on_app, split_on_none by (by apply digits_free). cbn [res_bind kept List.filter].
  cbn [orb negb sv_is_empty two_digits length Nat.eqb existsb Nat.ltb Nat.leb at_index lookup list_lookup unwrap res_bind].
  fold (two_digits hour) (two_digits minute) (two_digits second).
  rewrite !to_uint_short, Hdh, Hdm, Hds, Hvh, Hvm, Hvs by (done || simpl; lia). reflexivity.
Qed.

Lemma http_date_tokens weekday d hour minute second :
  weekday ∈ short_day_names -> 1 <= d_month d <= 12 -> 0 <= d_day d <= 99 -> 0 <= d_year d <= 9999 ->
  0 <= hour <= 99 -> 0 <= minute <= 99 -> 0 <= second <= 99 ->
  split_view_if (http_date weekday d hour minute second) is_delimiter false =
  [weekday; two_digits (d_day d); nth (Z.to_nat (d_month d - 1)) short_month_names [];
   four_digits (d_year d); time_token hour minute second; sv "GMT"].
Proof.
  intros Hw Hm Hd Hy Hh Hmi Hs.
  assert (Hfree : forall s, forallb is_ascii_digit s = true -> Forall (fun x => is_delimiter x = false) s).
  { intros s Hs'. apply forallb_Forall_iff in Hs'. eapply Forall_impl; [exact Hs'|].
    intros x Hx. unfold is_delimiter. ascii_lia. }
  assert (Hwd : Forall (fun x => is_delimiter x = false) weekday /\ weekday <> []).
  { repeat (apply elem_of_cons in Hw as [->|Hw]; [split; [repeat constructor|done]|]). by apply elem_of_nil in Hw. }
  set (month := nth _ short_month_names []).
  assert (Hmd : Forall (fun x => is_delimiter x = false) month /\ month <> []).
  { unfold month. generalize Hm. generalize (d_month d). apply month_cases. repeat constructor. all: try done. }
  assert (Htime : Forall (fun x => is_delimiter x = false) (time_token hour minute second)).
  { unfold time_token. repeat first [apply Forall_app; split|apply Forall_cons; split; [done|]];
      apply Hfree; by apply two_digits_spec. }
  destruct (two_digits_spec _ Hd) as [Hdd _], (four_digits_spec _ Hy) as [Hdy _].
  rewrite split_view_if_spec by (by destruct weekday). unfold http_date. fold month.
  rewrite (split_by_token _ weekday), (split_by_token _ []), (split_by_token _ (two_digits _)),
    (split_by_token _ month), (split_by_token _ (four_digits _)), (split_by_token _ (time_token _ _ _)), split_by_last;
    try done; try apply Hwd; try apply Hmd; try (by apply Hfree); try (by repeat constructor).
  destruct Hwd as [_ Hwd], Hmd as [_ Hmd]. destruct weekday; [done|]. destruct month; [done|]. reflexivity.
Qed.

(** C33: cookie dates.  [parse_date_time] returns on every string, and what it
    accepts is the moment, in seconds since the epoch, of a date of the calendar
    between the years 1601 and 9999; and it reads every such moment that is
    written as a date of HTTP. *)
Theorem cookie_date_correct (s : bytes) (weekday : bytes) (d : date) (hour minute second : Z) :
  (exists o, parse_date_time s = Ret o /\ match o with Some t => is_moment t | None => True end)
  /\ (weekday ∈ short_day_names -> valid_date d -> 1601 <= d_year d <= 9999 ->
      0 <= hour < 24 -> 0 <= minute < 60 -> 0 <= second < 60 ->
      parse_date_time (http_date weekday d hour minute second) = Ret (Some (moment d hour minute second))).
Proof.
  split; [apply parse_date_time_ok|]. intros Hw [Hm Hd] Hy Hh Hmi Hs.
  pose proof (month_length_bounds (d_year d) (d_month d) Hm).
  unfold parse_date_time. rewrite http_date_tokens by (done || lia). cbn [date_tokens_loop].
  rewrite (inert_token weekday) by (by right). cbn [res_bind].
  rewrite day_token by lia. cbn [res_bind]. rewrite month_token by done. cbn [res_bind].
  rewrite year_token by lia. cbn [res_bind]. rewrite time_token_step by lia. cbn [res_bind].
  rewrite inert_token by (by left). cbn [res_bind].
  unfold finish_date. cbn [f_hour f_minute f_second f_day_of_month f_month f_year found_time
    found_day_of_month found_month found_year negb orb].
  replace (expand_year (d_year d)) with (d_year d)
    by (unfold expand_year; replace (d_year d <=? 99) with false by lia; rewrite andb_false_r; by replace (d_year d <=? 69) with false by lia).
  rewrite !(proj2 (Z.ltb_ge _ _)) by lia. cbn [orb]. rewrite days_in_month_total by done. cbn [res_bind].
  rewrite (proj2 (Z.ltb_ge _ _)) by lia. rewrite !u8_id by lia. by rewrite from_unix_time_parts_exact by lia.
Qed.

End dates.

Lemma cookie_date_correct_witness :
  parse_date_time (sv "Wed, 21 Oct 2015 07:28:00 GMT") = Ret (Some (mkDuration 1445412480 0)).
Proof.
  change (sv "Wed, 21 Oct 2015 07:28:00 GMT") with (http_date (sv "Wed") (mkDate 2015 10 21) 7 28 0).
  change (mkDuration 1445412480 0) with (moment (mkDate 2015 10 21) 7 28 0).
  apply (proj2 (cookie_date_correct [] (sv "Wed") (mkDate 2015 10 21) 7 28 0)); try (simpl; lia).
  - unfold short_day_names. do 3 right. left.
  - split; vm_compute; split; discriminate.
Defined.
