(* ===== verification/CookieFacts.v ===== *)
(** * Cookies: matching and parsing

    The predicates of the storage model are those of RFC 6265bis, on every
    string; and parsing returns on well-formed UTF-8, within the limits of the
    specification. *)

From S2P Require Import Prelude CharacterTypes Utf8 Strings Tokens Percent Ipv4 Host PublicSuffix Url Time Cookies CookieDates.

(** ** Characters by index *)

Lemma sv_at_lookup s i : 0 <= i < 2 ^ 64 -> sv_at s i = unwrap (s !! Z.to_nat i).
Proof. intros Hi. unfold sv_at, size_t. by rewrite Z.mod_small. Qed.

(** ** Matching *)

Section matching.
Context `{FastFloatLaws, SimdutfLaws}.

Lemma ipv4_from_string_total s : exists o, IPv4Address_from_string s = Ret o.
Proof.
  unfold IPv4Address_from_string.
  assert (Hsplit : exists parts, split_view s [ch "."] false = Ret parts).
  { destruct s; [by exists []|]. rewrite split_view_kept by done. eauto. }
  destruct Hsplit as [parts ->]. cbn [res_bind].
  destruct parts as [|p0 [|p1 [|p2 [|p3 [|]]]]]; try (by eexists); destruct (_ || _); eauto.
Qed.

(** Dotted decimal numbers are recognized. *)
Lemma ipv4_from_string_dotted s0 s1 s2 s3 o0 o1 o2 o3 :
  prints_number 10 o0 s0 -> prints_number 10 o1 s1 -> prints_number 10 o2 s2 -> prints_number 10 o3 s3 ->
  0 <= o0 < 256 -> 0 <= o1 < 256 -> 0 <= o2 < 256 -> 0 <= o3 < 256 ->
  IPv4Address_from_string (s0 ++ ch "." :: s1 ++ ch "." :: s2 ++ ch "." :: s3) = Ret (Some (o0, o1, o2, o3)).
Proof.
  intros Hp0 Hp1 Hp2 Hp3 Ho0 Ho1 Ho2 Ho3.
  assert (Hfree : forall o s, prints_number 10 o s -> Forall (fun x => x <> ch ".") s).
  { intros o s (_ & Hd & _). by apply digits_free. }
  assert (Hnum : forall o s, prints_number 10 o s -> 0 <= o < 256 -> to_number (2 ^ 32 - 1) s = Some o).
  { intros o s Hp Ho. unfold to_number. rewrite digits_trim by apply Hp. apply parse_number_prints; [done|lia]. }
  unfold IPv4Address_from_string. rewrite split_view_kept by (destruct Hp0 as [? _]; by destruct s0).
  rewrite !split_on_app, split_on_none by (by eapply Hfree).
  pose proof Hp0 as [N0 _]. pose proof Hp1 as [N1 _]. pose proof Hp2 as [N2 _]. pose proof Hp3 as [N3 _].
  unfold kept. cbn [List.filter orb].
  replace (negb (sv_is_empty s0)) with true by (by destruct s0).
  replace (negb (sv_is_empty s1)) with true by (by destruct s1).
  replace (negb (sv_is_empty s2)) with true by (by destruct s2).
  replace (negb (sv_is_empty s3)) with true by (by destruct s3). cbn [res_bind].
  rewrite (Hnum o0 s0), (Hnum o1 s1), (Hnum o2 s2), (Hnum o3 s3) by done. cbn [default].
  by rewrite !(proj2 (Z.ltb_ge _ _)) by (simpl; lia).
Qed.

(** [domain_matches] of RFC 6265bis, 5.1.3 *)
Definition domain_match (string domain_string : bytes) : Prop :=
  string = domain_string
  \/ (exists p, string = p ++ ch "." :: domain_string) /\ IPv4Address_from_string string = Ret None.

Lemma domain_matches_spec string domain_string :
  Z.of_nat (length string) < 2 ^ 64 ->
  exists b, domain_matches string domain_string = Ret b /\ (b = true <-> domain_match string domain_string).
Proof.
  intros Hlen. unfold domain_matches, domain_match.
  destruct (sv_eqb string domain_string) eqn:Eq.
  { apply sv_eqb_true in Eq. exists true. split; [done|]. split; [by left|done]. }
  assert (Hne : string <> domain_string) by (intros E; apply sv_eqb_true in E; congruence).
  destruct (ends_with string domain_string CaseSensitive) eqn:Ee; cbn [negb].
  2:{ exists false. split; [done|]. split; [done|]. intros [?|[[p ->] _]]; [done|].
      assert (ends_with (p ++ ch "." :: domain_string) domain_string CaseSensitive = true); [|congruence].
      apply ends_with_suffix. exists (p ++ [ch "."]). by rewrite <- app_assoc. }
  apply ends_with_suffix in Ee as [p ->]. destruct p as [|x p _] using rev_ind; [done|].
  rewrite <- app_assoc in *. cbn [app] in *. rewrite length_app in *. cbn [length] in *.
  rewrite sv_at_lookup by lia. replace (Z.to_nat _) with (length p) by lia.
  rewrite list_lookup_middle by done. cbn [unwrap res_bind].
  destruct (Z.eqb_spec x (ch ".")) as [->|Hx]; cbn [negb].
  - destruct (ipv4_from_string_total (p ++ ch "." :: domain_string)) as [o Ho]. rewrite Ho. cbn [res_bind].
    eexists. split; [done|]. destruct o; split; try done.
    + intros [?|[_ ?]]; [done|congruence].
    + intros _. right. eauto.
  - exists false. split; [done|]. split; [done|]. intros [?|[[p' E] _]]; [done|].
    apply app_inj_2 in E as [_ E]; [|done]. by injection E as ->.
Qed.

(** [path_matches] of RFC 6265bis, 5.1.4 *)
Definition path_match (request_path cookie_path : bytes) : Prop :=
  request_path = cookie_path
  \/ exists rest, request_path = cookie_path ++ rest /\ rest <> []
     /\ (last cookie_path = Some (ch "/") \/ head rest = Some (ch "/")).

Lemma path_matches_spec request_path cookie_path :
  Z.of_nat (length request_path) < 2 ^ 64 ->
  exists b, path_matches request_path cookie_path = Ret b /\ (b = true <-> path_match request_path cookie_path).
Proof.
  intros Hlen. unfold path_matches, path_match.
  destruct (sv_eqb request_path cookie_path) eqn:Eq.
  { apply sv_eqb_true in Eq. exists true. split; [done|]. split; [by left|done]. }
  assert (Hne : request_path <> cookie_path) by (intros E; apply sv_eqb_true in E; congruence).
  destruct (starts_with request_path cookie_path CaseSensitive) eqn:Es.
  2:{ exists false. split; [done|]. split; [done|]. intros [?|(rest & E & _)]; [done|].
      assert (starts_with request_path cookie_path CaseSensitive = true); [|congruence].
      apply starts_with_prefix. eauto. }
  apply starts_with_prefix in Es as [rest ->].
  assert (Hrest : rest <> []) by (intros ->; by rewrite app_nil_r in Hne).
  assert (Hlast : ends_with_char cookie_path (ch "/") = true <-> last cookie_path = Some (ch "/")).
  { unfold ends_with_char. destruct (last cookie_path) as [c|]; [|done]. rewrite Z.eqb_eq. split; congruence. }
  destruct (ends_with_char cookie_path (ch "/")) eqn:Ee.
  { exists true. split; [done|]. split; [|done]. intros _. right. exists rest. split_and!; try done. left. by apply Hlast. }
  rewrite length_app in Hlen. rewrite sv_at_lookup by lia. rewrite Nat2Z.id.
  destruct rest as [|c rest]; [done|]. rewrite list_lookup_middle by done. cbn [unwrap res_bind].
  eexists. split; [done|]. rewrite Z.eqb_eq. split.
  - intros ->. right. eauto 10.
  - intros [?|(rest' & E & _ & [Hl|Hh])]; [done| |].
    + apply Hlast in Hl. congruence.
    + apply app_inj_1 in E as [_ E]; [|done]. subst rest'. by injection Hh.
Qed.

(** Domain and path matching.  Both predicates return on every pair of
    strings, and decide the definitions of RFC 6265bis; a host that is an IPv4
    address, as the URL library writes it, domain-matches only itself. *)
Theorem cookie_matching_correct (a b : bytes) (address : Z) (s : bytes) :
  Z.of_nat (length a) < 2 ^ 64 ->
  (exists r, domain_matches a b = Ret r /\ (r = true <-> domain_match a b))
  /\ (exists r, path_matches a b = Ret r /\ (r = true <-> path_match a b))
  /\ (0 <= address < 2 ^ 32 -> serialize_ipv4_address address = Ret s -> domain_match s b -> s = b).
Proof.
  intros Hlen. split_and!; [by apply domain_matches_spec|by apply path_matches_spec|].
  intros Ha Hs [?|[_ Hnone]]; [done|exfalso].
  destruct (serialize_ipv4_prints address Ha)
    as (o0 & o1 & o2 & o3 & s0 & s1 & s2 & s3 & _ & (? & ? & ? & ?) & ? & ? & ? & ? & Hs').
  rewrite Hs in Hs'. injection Hs' as ->. cbn [app] in Hnone.
  by rewrite (ipv4_from_string_dotted s0 s1 s2 s3 o0 o1 o2 o3) in Hnone.
Qed.

End matching.

Lemma cookie_matching_correct_witness :
  domain_matches (sv "www.example.com") (sv "example.com") = Ret true
  /\ path_matches (sv "/foo/bar") (sv "/foo") = Ret true
  /\ (exists r, domain_matches (sv "www.example.com") (sv "example.com") = Ret r
       /\ (r = true <-> domain_match (sv "www.example.com") (sv "example.com")))
  /\ ~ domain_match (sv "127.0.0.1") (sv "0.0.1").
Proof.
  split; [reflexivity|]. split; [reflexivity|]. split.
  - apply (cookie_matching_correct (sv "www.example.com") (sv "example.com") 0 []). simpl. lia.
  - intros Hm. assert (sv "127.0.0.1" = sv "0.0.1"); [|done].
    apply (cookie_matching_correct [] (sv "0.0.1") 2130706433 (sv "127.0.0.1")); [simpl; lia|lia|reflexivity|done].
Defined.

(** ** Parsing *)

Section parsing.
Context `{SimdutfLaws, FastFloatLaws, FastFloatSignedLaws} (clock : nat -> UnixDateTime).

(** Cutting a string at a character *)
Lemma cut_before before c after :
  substring_view (before ++ c :: after) 0 (length before) = Ret before.
Proof.
  unfold substring_view. rewrite length_app. cbn [length].
  rewrite (proj2 (Nat.leb_le _ _)) by lia. cbn [verify]. by rewrite drop_0, take_app_length.
Qed.

Lemma cut_from before after : substring_view_from (before ++ after) (length before) = Ret after.
Proof.
  unfold substring_view_from, substring_view. rewrite length_app.
  rewrite !(proj2 (Nat.leb_le _ _)) by lia. cbn [verify]. rewrite drop_app_length. f_equal.
  apply take_ge. lia.
Qed.

Lemma after_equals_cut before after :
  Z.of_nat (length (before ++ ch "=" :: after)) < 2 ^ 64 ->
  after_equals (before ++ ch "=" :: after) (length before) = Ret after.
Proof.
  intros Hlen. unfold after_equals. rewrite length_app in *. cbn [length] in *.
  unfold size_t. rewrite Z.mod_small by lia. destruct after as [|c after].
  - cbn [length]. by rewrite (proj2 (Z.ltb_ge _ _)) by lia.
  - rewrite (proj2 (Z.ltb_lt _ _)) by (cbn [length]; lia).
    replace (before ++ ch "=" :: c :: after) with ((before ++ [ch "="]) ++ c :: after) by (by rewrite <- app_assoc).
    replace (length before + 1)%nat with (length (before ++ [ch "="])) by (rewrite length_app; simpl; lia).
    apply cut_from.
Qed.

(** Unparsed attributes: nothing, or a semicolon and well-formed text *)
Definition unparsed_ok (s : bytes) : Prop := s = [] \/ exists rest, s = ch ";" :: rest /\ well_formed_utf8 rest.

(** Cutting a name and a value at the equals sign *)
Lemma cut_equals s :
  Z.of_nat (length s) < 2 ^ 64 -> well_formed_utf8 s ->
  (find_char s (ch "=") = None /\ Forall (fun x => x <> ch "=") s)
  \/ exists name value, s = name ++ ch "=" :: value /\ find_char s (ch "=") = Some (length name)
     /\ substring_view s 0 (length name) = Ret name /\ after_equals s (length name) = Ret value
     /\ well_formed_utf8 name /\ well_formed_utf8 value.
Proof.
  intros Hlen Hs. destruct (find_char_cases s (ch "=")) as [?|(name & value & -> & Hf & _)]; [by left|right].
  exists name, value. apply well_formed_cut in Hs as Hcut; [|lia]. destruct Hcut.
  split_and!; try done; [apply cut_before|by apply after_equals_cut].
Qed.

(** Cutting at the first semicolon *)
Lemma cut_semicolon s :
  well_formed_utf8 s ->
  (find_char s (ch ";") = None)
  \/ exists before rest, s = before ++ ch ";" :: rest /\ find_char s (ch ";") = Some (length before)
     /\ substring_view s 0 (length before) = Ret before
     /\ substring_view_from s (length before) = Ret (ch ";" :: rest)
     /\ well_formed_utf8 before /\ well_formed_utf8 rest.
Proof.
  intros Hs. destruct (find_char_cases s (ch ";")) as [[? _]|(before & rest & -> & Hf & _)]; [by left|right].
  exists before, rest. apply well_formed_cut in Hs as Hcut; [|lia]. destruct Hcut.
  split_and!; try done; [apply cut_before|apply cut_from].
Qed.

Lemma next_attribute_ok rest :
  Z.of_nat (length rest) < 2 ^ 63 -> well_formed_utf8 rest ->
  exists name value unparsed, next_attribute (ch ";" :: rest) = Ret (name, value, unparsed)
    /\ well_formed_utf8 name /\ well_formed_utf8 value /\ unparsed_ok unparsed
    /\ (length unparsed <= length rest)%nat.
Proof.
  intros Hlen Hrest. unfold next_attribute.
  replace (substring_view_from (ch ";" :: rest) 1) with (Ret rest) by (symmetry; apply (cut_from [ch ";"] rest)).
  cbn [res_bind].
  assert (Hav : exists av unparsed,
    match find_char rest (ch ";") with
    | Some position =>
        let* cookie_av := substring_view rest 0 position in
        let* rest := substring_view_from rest position in
        Ret (cookie_av, rest)
    | None => Ret (rest, [])
    end = Ret (av, unparsed) /\ well_formed_utf8 av /\ unparsed_ok unparsed
    /\ (length unparsed <= length rest)%nat /\ (length av <= length rest)%nat).
  { destruct (cut_semicolon rest Hrest) as [->|(before & after & E & -> & -> & Hfrom & ? & ?)].
    - exists rest, []. split_and!; try done; [by left|simpl; lia].
    - cbn [res_bind]. rewrite Hfrom. cbn [res_bind]. do 2 eexists. split; [done|].
      rewrite E, length_app. cbn [length]. split_and!; try done; [right; eauto|lia|lia]. }
  destruct Hav as (av & unparsed & -> & Hwav & Hun & Hlu & Hla). cbn [res_bind].
  destruct (cut_equals av) as [[-> _]|(name & value & E & -> & -> & -> & ? & ?)]; [lia|done| |]; cbn [res_bind].
  - do 3 eexists. split; [done|]. split_and!; try done; [by apply well_formed_trim|by exists []].
  - do 3 eexists. split; [done|]. split_and!; try done; by apply well_formed_trim.
Qed.

(** ** Attributes *)

(** ** The default path *)

Lemma decoded_path_slash segments c rest :
  pdecode (slash_segments segments) = c :: rest -> c = ch "/".
Proof.
  destruct segments as [|x segments]; [done|]. unfold slash_segments. cbn. intros E. by injection E.
Qed.

(** The default path is the directory of the percent-decoded path. *)
Lemma default_path_directory (url : URL) (dir name : bytes) :
  has_an_opaque_path url = false -> pdecode (slash_segments (paths url)) = dir ++ ch "/" :: name ->
  Forall (fun x => x <> ch "/") name ->
  Z.of_nat (length (dir ++ ch "/" :: name)) < 2 ^ 64 ->
  default_path url
  = match dir with [] => Ret (sv "/") | _ => if validate Surrogates_Yes dir then Ret dir else Crash end.
Proof.
  intros Hop E Hname Hlen. unfold default_path, serialize_path. rewrite Hop. cbn [res_bind].
  rewrite percent_decode_ok, E. cbn [res_bind].
  assert (Hf : find_last (dir ++ ch "/" :: name) (ch "/") = Some (length dir)) by (by apply find_last_app).
  assert (Hfirst : sv_is_empty (dir ++ ch "/" :: name) = false /\ sv_at (dir ++ ch "/" :: name) 0 = Ret (ch "/")).
  { destruct dir as [|c dir]; [done|]. by apply decoded_path_slash in E as ->. }
  destruct Hfirst as [-> ->]. cbn [res_bind]. rewrite Z.eqb_refl, Hf. cbn [negb unwrap res_bind].
  rewrite cut_before. by destruct dir.
Qed.

Lemma last_slash s : In (ch "/") s -> exists dir name, s = dir ++ ch "/" :: name /\ Forall (fun x => x <> ch "/") name.
Proof.
  induction s as [|x s IH] using rev_ind; [done|]. intros [Hs|[<-|[]]]%in_app_or; [|by exists s, []].
  destruct (decide (x = ch "/")) as [->|Hne]; [by exists s, []|]. destruct (IH Hs) as (dir & name & -> & Hn).
  exists dir, (name ++ [x]). rewrite <- app_assoc. split; [done|]. apply Forall_app. split; [done|by constructor].
Qed.

(** The path of the URL decodes to UTF-8. *)
Definition path_decodes (url : URL) : Prop := exists path, serialize_path url = Ret path /\ well_formed_utf8 (pdecode path).

Lemma default_path_returns (url : URL) : path_decodes url -> exists dp, default_path url = Ret dp.
Proof.
  intros (path & Hpath & Hw). unfold default_path. rewrite Hpath. cbn [res_bind]. rewrite percent_decode_ok. cbn [res_bind].
  set (decoded := pdecode path) in *. clearbody decoded. destruct decoded as [|c rest] eqn:Ed; [by eexists|].
  change (sv_at (c :: rest) 0) with (Ret c). cbn [sv_is_empty res_bind]. destruct (Z.eqb_spec c (ch "/")) as [->|]; [|by eexists].
  destruct (last_slash (ch "/" :: rest)) as (dir & name & E & Hname); [by left|]. rewrite E in *. rewrite find_last_app by done.
  cbn [negb unwrap res_bind]. destruct (length dir =? 0)%nat; [by eexists|]. rewrite cut_before. cbn [res_bind].
  apply well_formed_cut in Hw as [Hdir _]; [|lia]. unfold must_from_utf8. rewrite validate_well_formed by done. by eexists.
Qed.

(** ** Attributes *)

Context (clock_valid : forall n, valid_duration (clock n)).

(** At most 400 days from a reading of the clock, rounded up to a second *)
Definition age_ok (t : UnixDateTime) : Prop :=
  valid_duration t
  /\ exists n, in_nanoseconds t <= in_nanoseconds (clock n) + (400 * 86400 + 1) * 1000000000.

Record parsed_ok (url : URL) (p : ParsedCookie) : Prop := {
  ok_name : well_formed_utf8 (p_name p);
  ok_value : well_formed_utf8 (p_value p);
  ok_length : (length (p_name p) + length (p_value p) <= 4096)%nat;
  ok_expires t : p_expiry_time_from_expires_attribute p = Some t -> age_ok t;
  ok_max_age t : p_expiry_time_from_max_age_attribute p = Some t -> age_ok t;
  ok_domain d : p_domain p = Some d -> (length d <= 1024)%nat;
  ok_path q : p_path p = Some q ->
    default_path url = Ret q \/ (length q <= 1024)%nat /\ well_formed_utf8 q /\ head q = Some (ch "/")
}.

Lemma is_moment_valid t : is_moment t -> valid_duration t.
Proof.
  intros (d & h & m & s & [Hm Hd] & Hy & Hh & Hmi & Hs & ->). unfold moment.
  pose proof (month_length_bounds (d_year d) (d_month d) Hm).
  pose proof (days_since_epoch_bound (d_year d) (d_month d) (d_day d) ltac:(lia) Hm ltac:(lia)) as Hb.
  unfold valid_duration, i64_min, i64_max, date_to_days. cbn [m_seconds m_nanoseconds]. lia.
Qed.

Lemma age_limit n :
  exists limit, Duration_add (clock n) maximum_cookie_age = Ret limit /\ valid_duration limit
    /\ in_nanoseconds limit <= in_nanoseconds (clock n) + 400 * 86400 * 1000000000.
Proof.
  destruct (duration_add_saturating (clock n) maximum_cookie_age) as (limit & Hl & Hv & Hns).
  { apply clock_valid. } { vm_compute. repeat split; discriminate. }
  exists limit. split_and!; try done. rewrite Hns. pose proof (valid_nanoseconds _ (clock_valid n)).
  unfold clamp. change (in_nanoseconds maximum_cookie_age) with (400 * 86400 * 1000000000). lia.
Qed.

Lemma to_seconds_bounds d :
  valid_duration d ->
  exists s, to_seconds d = Ret s /\ s <= i64_max /\ in_nanoseconds d <= s * 1000000000 + 1000000000 - 1
    /\ s * 1000000000 <= in_nanoseconds d + 1000000000.
Proof.
  intros Hd. unfold to_seconds. rewrite valid_normal by done. cbn [verify]. eexists. split; [done|].
  destruct ((0 <=? m_seconds d) && negb (m_nanoseconds d =? 0)) eqn:E; [destruct (in_i64 (m_seconds d + 1)) eqn:E2|];
    unfold valid_duration, in_nanoseconds, in_i64, i64_max, i64_min in *; lia.
Qed.

Lemma on_expires_ok url p v tick :
  parsed_ok url p ->
  exists p' tick', on_expires_attribute clock p v tick = Ret (p', tick') /\ parsed_ok url p'.
Proof.
  intros Hp. unfold on_expires_attribute. destruct (parse_date_time_ok v) as (o & -> & Ho). cbn [res_bind].
  destruct o as [t|]; [|eauto]. apply is_moment_valid in Ho as Hv.
  destruct (age_limit tick) as (limit & -> & Hlv & Hl). cbn [res_bind]. unfold seconds_since_epoch.
  destruct (to_seconds_bounds t Hv) as (s & -> & _ & Hs1 & Hs2).
  destruct (to_seconds_bounds limit Hlv) as (sl & -> & _ & Hl1 & Hl2). cbn [res_bind].
  assert (Hns : m_nanoseconds t = 0).
  { by destruct Ho as (? & ? & ? & ? & _ & _ & _ & _ & _ & ->). }
  set (t1 := if sl <? s then limit else t).
  assert (Ht1 : age_ok t1).
  { unfold t1. destruct (Z.ltb_spec sl s).
    - split; [done|]. exists tick. lia.
    - split; [done|]. exists tick. unfold in_nanoseconds in *. rewrite Hns in *. lia. }
  assert (Ht2 : age_ok (if Duration_lt t1 UnixDateTime_earliest then UnixDateTime_earliest else t1)).
  { destruct (Duration_lt t1 UnixDateTime_earliest) eqn:E; [|done]. exfalso.
    apply duration_lt_iff in E; [|apply Ht1|vm_compute; repeat split; discriminate].
    pose proof (valid_nanoseconds t1 (proj1 Ht1)). unfold UnixDateTime_earliest in E. lia. }
  do 2 eexists. split; [done|]. destruct Hp. split; cbn; try done. by intros ? [= <-].
Qed.

Lemma on_max_age_ok url p v tick :
  parsed_ok url p ->
  exists p' tick', on_max_age_attribute clock p v tick = Ret (p', tick') /\ parsed_ok url p'.
Proof.
  intros Hp. unfold on_max_age_attribute. destruct v as [|c v]; [simpl; eauto|]. cbn [sv_is_empty].
  change (sv_at (c :: v) 0) with (Ret c). cbn [res_bind].
  assert (Hdigits : exists digits, (if c =? ch "-" then substring_view_from (c :: v) 1 else Ret (c :: v)) = Ret digits).
  { destruct (c =? ch "-"); [|eauto]. exists v. apply (cut_from [c] v). }
  destruct Hdigits as [digits ->]. cbn [res_bind]. destruct (_ || _); [eauto|].
  set (delta := match to_number_signed _ _ _ with Some _ => _ | None => _ end). cbv zeta.
  change (to_seconds maximum_cookie_age) with (Ret 34560000). cbn [res_bind].
  set (capped := if 34560000 <? delta then 34560000 else delta).
  assert (Hc : capped <= 34560000) by (unfold capped; destruct (Z.ltb_spec 34560000 delta); lia).
  clearbody capped. destruct (Z.leb_spec capped 0).
  - do 2 eexists. split; [done|]. destruct Hp. split; cbn; try done. intros t [= <-].
    split; [vm_compute; repeat split; discriminate|]. exists tick.
    pose proof (valid_nanoseconds _ (clock_valid tick)). unfold UnixDateTime_earliest. lia.
  - destruct (duration_add_saturating (clock tick) (Duration_from_seconds capped)) as (t & -> & Hv & Hns).
    { apply clock_valid. } { unfold valid_duration, i64_min, i64_max. cbn [m_seconds m_nanoseconds Duration_from_seconds]. lia. }
    cbn [res_bind]. do 2 eexists. split; [done|]. destruct Hp. split; cbn; try done. intros t' [= <-].
    split; [done|]. exists tick. rewrite Hns. pose proof (valid_nanoseconds _ (clock_valid tick)).
    unfold clamp. assert (in_nanoseconds (Duration_from_seconds capped) = capped * 1000000000).
    { unfold in_nanoseconds. cbn. lia. } lia.
Qed.

Lemma parsed_ok_of url p p' :
  parsed_ok url p -> p_name p' = p_name p -> p_value p' = p_value p ->
  p_expiry_time_from_expires_attribute p' = p_expiry_time_from_expires_attribute p ->
  p_expiry_time_from_max_age_attribute p' = p_expiry_time_from_max_age_attribute p ->
  (forall d, p_domain p' = Some d -> p_domain p = Some d \/ (length d <= 1024)%nat) ->
  (forall q, p_path p' = Some q -> p_path p = Some q
    \/ default_path url = Ret q \/ (length q <= 1024)%nat /\ well_formed_utf8 q /\ head q = Some (ch "/")) ->
  parsed_ok url p'.
Proof.
  intros [] En Ev Ee Em Hd Hq. split; rewrite ?En, ?Ev, ?Ee, ?Em; try done.
  - intros d Hd'. destruct (Hd d Hd'); eauto.
  - intros q Hq'. destruct (Hq q Hq'); eauto.
Qed.

Lemma on_domain_ok url p v :
  well_formed_utf8 v -> (length v <= 1024)%nat -> parsed_ok url p ->
  exists p', on_domain_attribute p v = Ret p' /\ parsed_ok url p'.
Proof.
  intros Hv Hlen Hp. unfold on_domain_attribute.
  assert (Hcut : exists d, (if starts_with_char v (ch ".") then substring_view_from v 1 else Ret v) = Ret d
                   /\ well_formed_utf8 d /\ (length d <= 1024)%nat).
  { destruct v as [|c v]; [by exists []|]. cbn [starts_with_char].
    destruct (Z.eqb_spec (ch ".") c) as [<-|]; [|by exists (c :: v)].
    exists v. split; [apply (cut_from [ch "."] v)|]. cbn [length] in Hlen. split; [|lia].
    by apply (well_formed_cut [] (ch ".") v) in Hv as [_ ?]. }
  destruct Hcut as (d & -> & Hd & Hdl). cbn [res_bind]. unfold to_ascii_lowercase_string.
  rewrite validate_well_formed by done. cbn [verify res_bind]. eexists. split; [done|].
  apply (parsed_ok_of url p); try done; cbn.
  - intros ? [= <-]. right. by rewrite length_fmap.
  - auto.
Qed.

Lemma on_path_ok url dp p v :
  default_path url = Ret dp -> well_formed_utf8 v -> (length v <= 1024)%nat -> parsed_ok url p ->
  exists p', on_path_attribute url p v = Ret p' /\ parsed_ok url p'.
Proof.
  intros Hdp Hv Hlen Hp. unfold on_path_attribute.
  assert (Hcut : exists q, (if sv_is_empty v then default_path url
      else let* first := sv_at v 0 in if negb (first =? ch "/") then default_path url else must_from_utf8 v) = Ret q
    /\ (default_path url = Ret q \/ (length q <= 1024)%nat /\ well_formed_utf8 q /\ head q = Some (ch "/"))).
  { destruct v as [|c v]; [rewrite Hdp; eauto|]. cbn [sv_is_empty]. change (sv_at (c :: v) 0) with (Ret c).
    cbn [res_bind]. destruct (Z.eqb_spec c (ch "/")) as [->|]; cbn [negb]; [|rewrite Hdp; eauto].
    exists (ch "/" :: v). unfold must_from_utf8. rewrite validate_well_formed by done. auto. }
  destruct Hcut as (q & -> & Hq). cbn [res_bind]. eexists. split; [done|].
  apply (parsed_ok_of url p); try done; cbn; [auto|]. intros ? [= <-]. auto.
Qed.

Lemma process_attribute_ok url dp p name v tick :
  default_path url = Ret dp -> well_formed_utf8 v -> (length v <= 1024)%nat -> parsed_ok url p ->
  exists p' tick', process_attribute clock url p name v tick = Ret (p', tick') /\ parsed_ok url p'.
Proof.
  intros Hdp Hv Hlen Hp. unfold process_attribute.
  destruct (equals_ignoring_ascii_case name (sv "Expires")); [by apply on_expires_ok|].
  destruct (equals_ignoring_ascii_case name (sv "Max-Age")); [by apply on_max_age_ok|].
  destruct (equals_ignoring_ascii_case name (sv "Domain")).
  { destruct (on_domain_ok url p v Hv Hlen Hp) as (p' & -> & ?). cbn [res_bind]. eauto. }
  destruct (equals_ignoring_ascii_case name (sv "Path")).
  { destruct (on_path_ok url dp p v Hdp Hv Hlen Hp) as (p' & -> & ?). cbn [res_bind]. eauto. }
  repeat destruct (equals_ignoring_ascii_case _ _);
    do 2 eexists; (split; [done|]); try done; apply (parsed_ok_of url p); auto.
Qed.

Lemma parse_attributes_ok url dp unparsed : forall fuel p tick,
  default_path url = Ret dp -> unparsed_ok unparsed -> Z.of_nat (length unparsed) < 2 ^ 63 ->
  (length unparsed < fuel)%nat -> parsed_ok url p ->
  exists p' tick', parse_attributes clock fuel url p unparsed tick = Ret (p', tick') /\ parsed_ok url p'.
Proof.
  induction unparsed as [unparsed IH] using (induction_ltof1 _ (@length Z)). unfold ltof in IH.
  intros [|fuel] p tick Hdp Hun Hlen Hfuel Hp; [lia|]. cbn [parse_attributes].
  destruct Hun as [->|(rest & -> & Hrest)]; [simpl; eauto|]. cbn [sv_is_empty]. cbn [length] in *.
  destruct (next_attribute_ok rest) as (name & value & unparsed & -> & Hname & Hvalue & Hun & Hl); [lia|done|].
  cbn [res_bind]. destruct (Nat.ltb_spec 1024 (length value)).
  - apply IH; try done; lia.
  - destruct (process_attribute_ok url dp p name value tick) as (p' & tick' & -> & Hp'); [done..|].
    cbn [res_bind]. apply IH; try done; lia.
Qed.

(** What a [Max-Age] of so many seconds does to the expiry time *)
Definition max_age_expiry (now : UnixDateTime) (seconds : Z) : Z :=
  if seconds <=? 0 then in_nanoseconds UnixDateTime_earliest
  else clamp (in_nanoseconds now + Z.min seconds (400 * 86400) * 1000000000).

Lemma max_age_number (negative : bool) (digits : bytes) :
  digits <> [] -> forallb is_ascii_digit digits = true ->
  let value := if negative then - digits_value 10 digits else digits_value 10 digits in
  to_number_signed i64_min i64_max (if negative then ch "-" :: digits else digits)
  = if (i64_min <=? value) && (value <=? i64_max) then Some value else None.
Proof.
  intros Hne Hs. pose proof (digits_value_bound digits Hs).
  unfold to_number_signed. destruct negative; cbv zeta.
  - rewrite trim_whitespace_id, from_chars_signed_minus by (done || (constructor; [done|by apply digits_no_whitespace])).
    rewrite (proj2 (Z.leb_le _ i64_max)), andb_true_r by (unfold i64_max; lia).
    destruct (_ <=? _); [|done]. cbn [length]. by rewrite Nat.eqb_refl.
  - rewrite digits_trim, from_chars_signed_digits by done.
    rewrite (proj2 (Z.leb_le i64_min _)), andb_true_l by (unfold i64_min; lia).
    destruct (_ <=? _); [|done]. by rewrite Nat.eqb_refl.
Qed.

Lemma on_max_age_digits p (negative : bool) (digits : bytes) tick :
  digits <> [] -> forallb is_ascii_digit digits = true ->
  exists t tick', on_max_age_attribute clock p (if negative then ch "-" :: digits else digits) tick
      = Ret (with_max_age p t, tick')
    /\ valid_duration t
    /\ in_nanoseconds t
       = max_age_expiry (clock tick) (if negative then - digits_value 10 digits else digits_value 10 digits).
Proof.
  intros Hne Hs. pose proof (max_age_number negative digits Hne Hs) as Hnum. cbv zeta in Hnum.
  pose proof (digits_value_bound digits Hs) as Hbound.
  set (s := if negative then ch "-" :: digits else digits) in *.
  set (v := if negative then - digits_value 10 digits else digits_value 10 digits) in *.
  assert (Hfirst : exists c rest, s = c :: rest /\ (c =? ch "-") = negative
    /\ (if c =? ch "-" then substring_view_from s 1 else Ret s) = Ret digits).
  { destruct negative; subst s; [exists (ch "-"), digits; split_and!; [done..|apply (cut_from [ch "-"])]|].
    destruct digits as [|c rest]; [done|]. exists c, rest. cbn [forallb] in Hs. apply andb_true_iff in Hs as [Hc _].
    by destruct (Z.eqb_spec c (ch "-")) as [->|]. }
  destruct Hfirst as (c & rest & Es & Hc & Hcut). unfold on_max_age_attribute. rewrite Es. cbn [sv_is_empty].
  change (sv_at (c :: rest) 0) with (Ret c). cbn [res_bind]. rewrite <- Es, Hcut. cbn [res_bind]. rewrite Hs, Hnum, Hc.
  replace (sv_is_empty digits) with false by (by destruct digits). cbn [orb negb].
  change (to_seconds maximum_cookie_age) with (Ret (400 * 86400)). cbn [res_bind].
  set (capped := if 400 * 86400 <? _ then _ else _).
  assert (Hcap : if v <=? 0 then capped <= 0 else capped = Z.min v (400 * 86400)).
  { subst capped. destruct (Z.leb_spec i64_min v), (Z.leb_spec v i64_max); cbn [andb]; destruct negative;
      repeat case_match; unfold i64_min, i64_max in *; lia. }
  clearbody capped. unfold max_age_expiry. destruct (Z.leb_spec v 0).
  - rewrite (proj2 (Z.leb_le _ _)) by done. do 2 eexists. split; [done|]. by vm_compute.
  - rewrite (proj2 (Z.leb_gt _ _)) by lia.
    destruct (duration_add_saturating (clock tick) (Duration_from_seconds capped)) as (t & -> & Hv & Hns).
    { apply clock_valid. } { unfold valid_duration, i64_min, i64_max. cbn [m_seconds m_nanoseconds Duration_from_seconds]. lia. }
    cbn [res_bind]. do 2 eexists. split; [done|]. split; [done|]. rewrite Hns, <- Hcap.
    f_equal. unfold in_nanoseconds. cbn. lia.
Qed.

(** [Max-Age] in seconds, with an optional minus sign and any number of
    digits: nothing or a negative age expires the cookie at the earliest time,
    otherwise it expires so many seconds, but at most 400 days, behind the time
    the clock gives, saturating; a number that no 64-bit integer holds counts
    as the largest.  A value with any other character is ignored. *)
Theorem max_age_correct (p : ParsedCookie) (negative : bool) (digits other : bytes) (tick : nat) :
  digits <> [] -> forallb is_ascii_digit digits = true ->
  forallb is_ascii_digit (if starts_with_char other (ch "-") then tail other else other) = false ->
  (exists t tick', on_max_age_attribute clock p (if negative then ch "-" :: digits else digits) tick
      = Ret (with_max_age p t, tick')
    /\ valid_duration t
    /\ in_nanoseconds t
       = max_age_expiry (clock tick) (if negative then - digits_value 10 digits else digits_value 10 digits))
  /\ on_max_age_attribute clock p other tick = Ret (p, tick).
Proof.
  intros Hne Hs Hother. split.
  - by apply on_max_age_digits.
  - unfold on_max_age_attribute. destruct other as [|c other]; [done|]. cbn [starts_with_char tail sv_is_empty] in *.
    change (sv_at (c :: other) 0) with (Ret c). cbn [res_bind]. rewrite (Z.eqb_sym c).
    destruct (Z.eqb_spec (ch "-") c) as [<-|].
    + change (substring_view_from (ch "-" :: other) 1) with (substring_view_from ([ch "-"] ++ other) (length [ch "-"])).
      rewrite cut_from. cbn [res_bind]. rewrite Hother, orb_true_r. done.
    + cbn [res_bind]. rewrite Hother, orb_true_r. done.
Qed.

(** C32: Parsing a [Set-Cookie] string of UTF-8 returns, whatever attributes the
    string has, with the fuel its length gives, for a URL whose path decodes to
    UTF-8 (another stops the process when its directory is the default path,
    see [cookie_strings_must_be_utf8]) and a clock whose readings are normal
    durations.  A parsed cookie's name and value are UTF-8 and at most 4096
    bytes together, neither of its expiry times is later than 400 days (and a
    second of rounding) behind a reading of the clock, its domain has at most
    1024 bytes, and its path is the default path or an absolute one of at most
    1024 bytes. *)
Theorem parse_cookie_safe (url : URL) (cookie_string : bytes) (tick : nat) :
  well_formed_utf8 cookie_string -> Z.of_nat (length cookie_string) < 2 ^ 63 -> path_decodes url ->
  exists parsed tick', parse_cookie clock url cookie_string tick = Ret (parsed, tick')
    /\ forall p, parsed = Some p -> parsed_ok url p.
Proof.
  intros Hs Hlen Hpath. destruct (default_path_returns url Hpath) as [dp Hdp].
  unfold parse_cookie. destruct (cookie_contains_invalid_control_character _); [by do 2 eexists|].
  assert (Hcut : exists pair unparsed,
    match find_char cookie_string (ch ";") with
    | Some position =>
        let* name_value_pair := substring_view cookie_string 0 position in
        let* unparsed_attributes := substring_view_from cookie_string position in
        Ret (name_value_pair, unparsed_attributes)
    | None => Ret (cookie_string, [])
    end = Ret (pair, unparsed) /\ well_formed_utf8 pair /\ unparsed_ok unparsed
    /\ Z.of_nat (length unparsed) < 2 ^ 63 /\ Z.of_nat (length pair) < 2 ^ 63).
  { destruct (cut_semicolon cookie_string Hs) as [->|(before & rest & E & -> & -> & Hfrom & ? & ?)].
    - exists cookie_string, []. split_and!; try done; by left.
    - cbn [res_bind]. rewrite Hfrom. cbn [res_bind]. do 2 eexists. split; [done|].
      rewrite E, length_app in Hlen. cbn [length] in *. split_and!; try done; [right; eauto|lia|lia]. }
  destruct Hcut as (pair & unparsed & -> & Hpair & Hun & Hlu & Hlp). cbn [res_bind].
  assert (Hnv : exists name value,
    match find_char pair (ch "=") with
    | None => Ret ([], pair)
    | Some position =>
        let* name := substring_view pair 0 position in
        let* value := after_equals pair position in
        Ret (name, value)
    end = Ret (name, value) /\ well_formed_utf8 name /\ well_formed_utf8 value).
  { destruct (cut_equals pair) as [[-> _]|(name & value & _ & -> & -> & -> & ? & ?)]; [lia|done| |]; [|by do 2 eexists].
    do 2 eexists. split; [done|]. split; [by exists []|done]. }
  destruct Hnv as (name & value & -> & Hname & Hvalue). cbn [res_bind].
  destruct (Nat.ltb_spec 4096 (length (trim_whitespace name) + length (trim_whitespace value))); [by do 2 eexists|].
  apply well_formed_trim in Hname, Hvalue. unfold must_from_utf8. rewrite !validate_well_formed by done.
  cbn [verify res_bind].
  edestruct (parse_attributes_ok url dp unparsed) as (p' & tick' & -> & Hp'); [exact Hdp|done|done|lia| |].
  2: { cbn [res_bind]. do 2 eexists. split; [done|]. by intros p [= <-]. }
  by split; cbn.
Qed.

End parsing.

Definition example_url : URL :=
  {| scheme := sv "https"; username := []; password := []; host := Some (HostString (sv "www.example.com"));
     port := None; paths := [sv "a"; sv "b"]; query := None; fragment := None;
     has_an_opaque_path := false; blob_url_entry := None |}.

Definition noon : nat -> UnixDateTime := fun _ => mkDuration 43200 0.

Lemma noon_valid : forall n, valid_duration (noon n).
Proof. intros n. vm_compute. repeat split; discriminate. Qed.

Lemma parse_cookie_safe_witness :
  let header := sv "id=7; Max-Age=60; Path=/a; Secure" in
  exists parsed tick, parse_cookie noon example_url header 0 = Ret (parsed, tick)
    /\ (p_name <$> parsed) = Some (sv "id")
    /\ forall p, parsed = Some p -> parsed_ok noon example_url p.
Proof.
  intros header. destruct (parse_cookie_safe noon noon_valid example_url header 0) as (parsed & tick & E & Hp).
  - apply well_formed_ascii. vm_compute. repeat constructor; discriminate.
  - vm_compute. reflexivity.
  - exists (sv "/a/b"). split; [reflexivity|]. apply well_formed_ascii. vm_compute. repeat constructor; discriminate.
  - exists parsed, tick. split_and!; [done| |done]. vm_compute in E. injection E as <- <-. reflexivity.
Defined.

Lemma max_age_correct_witness :
  let p := mkParsed (sv "a") (sv "b") SameSite_Default None None None None false false in
  (exists t tick, on_max_age_attribute noon p (sv "99999999999999999999") 0 = Ret (with_max_age p t, tick)
    /\ in_nanoseconds t = (43200 + 34560000) * 1000000000)
  /\ on_max_age_attribute noon p (sv "1e3") 0 = Ret (p, 0%nat).
Proof.
  intros p. destruct (max_age_correct noon noon_valid p false (sv "99999999999999999999") (sv "1e3") 0)
    as ((t & tick & E & _ & Ht) & Hother); [discriminate|reflexivity|reflexivity|].
  split; [|exact Hother]. exists t, tick. split; [exact E|]. rewrite Ht. reflexivity.
Defined.

(** Setting a cookie from a page whose directory does not decode to UTF-8
    ends the process: [default_path] gives the percent-decoded bytes to a
    constructor that demands UTF-8, so it fails for every directory that is not
    valid, and a [Set-Cookie] header that is a value without UTF-8 does the
    same in [parse_cookie]. *)
Theorem cookie_strings_must_be_utf8 `{SimdutfLaws, FastFloat, FastFloatSigned} (clock : nat -> UnixDateTime)
    (url : URL) (dir name value : bytes) (tick : nat) :
  has_an_opaque_path url = false -> pdecode (slash_segments (paths url)) = dir ++ ch "/" :: name ->
  Forall (fun x => x <> ch "/") name -> Z.of_nat (length (dir ++ ch "/" :: name)) < 2 ^ 64 ->
  dir <> [] -> validate Surrogates_Yes dir = false ->
  cookie_contains_invalid_control_character value = false -> (length value <= 4096)%nat ->
  Forall (fun x => x <> ch ";" /\ x <> ch "=") value -> trim_whitespace value = value ->
  validate Surrogates_Yes value = false ->
  default_path url = Crash /\ parse_cookie clock url value tick = Crash.
Proof.
  intros Hop E Hname Hlen Hdir Hval Hctl Hvl Hsep Htrim Hbad. split.
  - rewrite (default_path_directory url dir name) by done. destruct dir; [done|]. by rewrite Hval.
  - apply Forall_and in Hsep as [Hsemi Heq]. unfold parse_cookie. rewrite Hctl.
    rewrite (find_char_none value (ch ";")) by done. cbn [res_bind].
    rewrite (find_char_none value (ch "=")) by done. cbn [res_bind].
    change (trim_whitespace []) with (@nil Z). rewrite Htrim. cbn [length Nat.add].
    rewrite (proj2 (Nat.ltb_ge _ _)) by done. unfold must_from_utf8 at 1.
    rewrite validate_well_formed by (by exists []). cbn [verify res_bind]. unfold must_from_utf8. by rewrite Hbad.
Qed.

Lemma cookie_strings_must_be_utf8_witness :
  let url := with_paths example_url [sv "%FF"; sv "b"] in
  default_path url = Crash /\ parse_cookie noon url [0xff] 0 = Crash.
Proof.
  intros url. apply (cookie_strings_must_be_utf8 noon url [ch "/"; 0xff] (sv "b") [0xff] 0);
    try reflexivity; try discriminate; [repeat constructor; discriminate|simpl; lia|].
  repeat constructor; discriminate.
Defined.
