(* ===== verification/CookieJar.v ===== *)
(** * The cookie jar: [LibWebView/CookieJar.cpp] and [CookieJar.h]

    The jar keeps its cookies in a map from name, domain and path, and the ones
    that the database has not seen in a second map.  It is written against the
    interface of maps, so that what is proved of it needs no more than the laws
    of a map; [HashMap] is the map of the source.

    The state has the two maps, the number of readings of the clock, and the
    lists of cookies that the clients were notified of.  The database is not
    under the source: what the jar reads from it is an argument of [create_jar],
    and what it writes is the result of [synchronize]. *)

From S2P Require Import Prelude CharacterTypes Utf8 Strings Tokens PublicSuffix Origin Url Time HashMap Cookies.
From stdpp Require Import gmap.
Local Open Scope Z_scope.

Record CookieStorageKey := mkKey { k_name : bytes; k_domain : bytes; k_path : bytes }.

#[export] Instance key_eq_dec : EqDecision CookieStorageKey.
Proof. solve_decision. Defined.

#[export] Instance key_countable : Countable CookieStorageKey.
Proof.
  by refine (inj_countable' (fun k => (k_name k, k_domain k, k_path k))
               (fun '(n, d, p) => mkKey n d p) _); intros [].
Defined.

(** [Traits<CookieStorageKey>] *)
#[export] Instance cookie_key_traits : KeyTraits CookieStorageKey := {|
  key_hash := fun key =>
    let hash := pair_int_hash 0 (string_hash (k_name key) 0) in
    let hash := pair_int_hash hash (string_hash (k_domain key) 0) in
    pair_int_hash hash (string_hash (k_path key) 0);
  key_slow_equality := true
|}.

Definition key_of (c : Cookie) : CookieStorageKey := mkKey (c_name c) (c_domain c) (c_path c).

Inductive MatchingCookiesSpecMode := RFC6265 | WebDriver.

(** Assignments to one member of a cookie *)
Definition with_creation_time (c : Cookie) (t : UnixDateTime) : Cookie :=
  mkCookie (c_name c) (c_value c) (c_same_site c) t (c_last_access_time c) (c_expiry_time c)
    (c_domain c) (c_path c) (c_secure c) (c_http_only c) (c_host_only c) (c_persistent c).
Definition with_last_access_time (c : Cookie) (t : UnixDateTime) : Cookie :=
  mkCookie (c_name c) (c_value c) (c_same_site c) (c_creation_time c) t (c_expiry_time c)
    (c_domain c) (c_path c) (c_secure c) (c_http_only c) (c_host_only c) (c_persistent c).
Definition with_expiry_time (c : Cookie) (t : UnixDateTime) : Cookie :=
  mkCookie (c_name c) (c_value c) (c_same_site c) (c_creation_time c) (c_last_access_time c) t
    (c_domain c) (c_path c) (c_secure c) (c_http_only c) (c_host_only c) (c_persistent c).

(** [Vector::insert_before_matching] *)
Fixpoint insert_before_matching {A} (l : list A) (value : A) (predicate : A -> bool) : list A :=
  match l with
  | [] => [value]
  | x :: l => if predicate x then value :: x :: l else x :: insert_before_matching l value predicate
  end.

Section jar.
Context {M : Type} `{MapInterface CookieStorageKey Cookie M}.
Context `{Simdutf, FastFloat, IcuCase, PublicSuffixList} (clock : nat -> UnixDateTime).

(** [notifications] are the messages that each client got, the clients numbered
    in the order of [WebContentClient::for_each_client]. *)
Record CookieJar := mkJar {
  m_cookies : M;
  m_dirty_cookies : M;
  tick : nat;
  notifications : nat -> list (list Cookie)
}.

Definition empty_jar (tick : nat) : CookieJar := mkJar mi_empty mi_empty tick (fun _ => []).

Definition with_cookies (jar : CookieJar) (m : M) : CookieJar :=
  mkJar m (m_dirty_cookies jar) (tick jar) (notifications jar).
Definition with_dirty (jar : CookieJar) (m : M) : CookieJar :=
  mkJar (m_cookies jar) m (tick jar) (notifications jar).

(** [UnixDateTime::now()] *)
Definition now (jar : CookieJar) : UnixDateTime * CookieJar :=
  (clock (tick jar), mkJar (m_cookies jar) (m_dirty_cookies jar) (S (tick jar)) (notifications jar)).

(** The list is moved into the message to the first client: the others get an
    empty one. *)
Definition notify_cookies_changed (jar : CookieJar) (cookies : list Cookie) : CookieJar :=
  mkJar (m_cookies jar) (m_dirty_cookies jar) (tick jar)
    (fun client => notifications jar client ++ [match client with O => cookies | S _ => [] end]).

(** ** [TransientStorage] *)

Definition storage_get_cookie (jar : CookieJar) (key : CookieStorageKey) : res (option Cookie) :=
  mi_get (m_cookies jar) key.

Definition storage_set_cookie (jar : CookieJar) (key : CookieStorageKey) (cookie : Cookie) : res CookieJar :=
  let (now, jar) := now jar in
  let* skip :=
    if Duration_lt (c_expiry_time cookie) now
    then let* contains := mi_contains (m_cookies jar) key in Ret (negb contains)
    else Ret false in
  if skip : bool then Ret jar
  else
    let* cookies := mi_set (m_cookies jar) key cookie in
    let jar := with_cookies jar cookies in
    let jar :=
      if negb (Duration_lt (c_expiry_time cookie) now) then notify_cookies_changed jar [cookie] else jar in
    let* dirty := mi_set (m_dirty_cookies jar) key cookie in
    Ret (with_dirty jar dirty).

(** [cookie.value.expiry_time -= *offset] for every cookie of the map *)
Fixpoint shift_times (offset : Duration) (cookies : list Cookie) : res unit :=
  match cookies with
  | [] => Ret tt
  | cookie :: cookies =>
      let* _ := Duration_sub (c_expiry_time cookie) offset in shift_times offset cookies
  end.

Definition shift_expiry_times (offset : Duration) (m : M) : res M :=
  let* _ := shift_times offset (mi_entries m).*2 in
  Ret (mi_modify m (fun _ cookie =>
         match Duration_sub (c_expiry_time cookie) offset with
         | Ret t => with_expiry_time cookie t
         | Crash => cookie
         end)).

Definition purge_expired_cookies (jar : CookieJar) (offset : option Duration) : res (UnixDateTime * CookieJar) :=
  let (now, jar) := now jar in
  let* (now, jar) :=
    match offset with
    | Some offset =>
        let* now := Duration_add now offset in
        let* dirty := shift_expiry_times offset (m_dirty_cookies jar) in
        Ret (now, with_dirty jar dirty)
    | None => Ret (now, jar)
    end in
  let* (removed_entries, cookies) :=
    mi_take_all_matching (m_cookies jar) (fun _ cookie => Duration_lt (c_expiry_time cookie) now) in
  let jar := with_cookies jar cookies in
  let jar :=
    match removed_entries with
    | [] => jar
    | _ => notify_cookies_changed jar removed_entries.*2
    end in
  Ret (now, jar).

Definition storage_set_cookies (jar : CookieJar) (cookies : M) : res CookieJar :=
  let* (_, jar) := purge_expired_cookies (with_cookies jar cookies) None in Ret jar.

(** The loop of [expire_and_purge_cookies_accessed_since]: the entries that are
    left of the iteration.  [set] on the map that is iterated over is undefined
    behaviour when it moves the entries. *)
Fixpoint expire_loop (since : UnixDateTime) (entries : list (CookieStorageKey * Cookie)) (jar : CookieJar)
    : res CookieJar :=
  match entries with
  | [] => Ret jar
  | (key, value) :: entries =>
      if negb (Duration_lt (c_last_access_time value) since) then
        let value := with_expiry_time value UnixDateTime_earliest in
        let jar := with_cookies jar
          (mi_modify (m_cookies jar) (fun k v => if decide (k = key) then value else v)) in
        if mi_reallocates (m_cookies jar) then Crash
        else let* jar := storage_set_cookie jar key value in expire_loop since entries jar
      else expire_loop since entries jar
  end.

Definition expire_and_purge_cookies_accessed_since (jar : CookieJar) (since : UnixDateTime) : res CookieJar :=
  let* jar := expire_loop since (mi_entries (m_cookies jar)) jar in
  let* (_, jar) := purge_expired_cookies jar None in Ret jar.

(** [CacheSizes]: what was accessed since, and everything, in [u64] *)
Definition estimate_storage_size_accessed_since (jar : CookieJar) (since : UnixDateTime) : Z * Z :=
  fold_left (fun (sizes : Z * Z) (entry : CookieStorageKey * Cookie) =>
    let (since_requested_time, total) := sizes in
    let (key, value) := entry in
    let size := Z.of_nat (length (k_name key) + length (k_domain key) + length (k_path key)
                          + length (c_value value)) in
    let total := size_t (total + size) in
    (if negb (Duration_lt (c_last_access_time value) since) then size_t (since_requested_time + size)
     else since_requested_time, total))
    (mi_entries (m_cookies jar)) (0, 0).

(** ** Construction, and synchronization with the database *)

(** [PersistedStorage::select_all_cookies]: [rows] is the result of the query. *)
Fixpoint select_all_cookies (rows : list Cookie) (cookies : M) : res M :=
  match rows with
  | [] => Ret cookies
  | cookie :: rows => let* cookies := mi_set cookies (key_of cookie) cookie in select_all_cookies rows cookies
  end.

(** The constructor of a jar with a database *)
Definition create_jar (rows : list Cookie) (tick : nat) : res CookieJar :=
  let* cookies := select_all_cookies rows mi_empty in storage_set_cookies (empty_jar tick) cookies.

(** The callback of the timer: the cookies to insert, and the time before which
    the database deletes *)
Definition synchronize (jar : CookieJar) : res (list Cookie * UnixDateTime * CookieJar) :=
  let inserted := (mi_entries (m_dirty_cookies jar)).*2 in
  let* (now, jar) := purge_expired_cookies (with_dirty jar mi_empty) None in
  Ret (inserted, now, jar).

(** ** Storing: [CookieJar::store_cookie] *)

(** Step 6: the persistent flag and the expiry time *)
Definition cookie_expiry (p : ParsedCookie) : res (bool * UnixDateTime) :=
  match p_expiry_time_from_max_age_attribute p with
  | Some t => Ret (true, t)
  | None =>
      match p_expiry_time_from_expires_attribute p with
      | Some t => Ret (true, t)
      | None => let* t := from_unix_time_parts 3000 1 1 0 0 0 0 in Ret (false, t)
      end
  end.

(** Steps 7 to 10: the host-only flag and the domain, or nothing to ignore the
    cookie *)
Definition cookie_domain (p : ParsedCookie) (canonicalized_domain : bytes) : res (option (bool * bytes)) :=
  let domain_attribute :=
    match p_domain p with
    | Some domain => if (length domain <=? 1024)%nat then domain else []
    | None => []
    end in
  if negb (sv_is_ascii domain_attribute) then Ret None
  else
    let* public := is_public_suffix domain_attribute in
    let proceed (domain_attribute : bytes) : res (option (bool * bytes)) :=
      if negb (sv_is_empty domain_attribute) then
        let* matches := domain_matches canonicalized_domain domain_attribute in
        if negb matches then Ret None else Ret (Some (false, domain_attribute))
      else Ret (Some (true, canonicalized_domain)) in
    if public : bool then
      if sv_eqb domain_attribute canonicalized_domain then proceed [] else Ret None
    else proceed domain_attribute.

(** Step 11 *)
Definition cookie_path (p : ParsedCookie) (url : URL) : res bytes :=
  match p_path p with
  | Some path => Ret (if (length path <=? 1024)%nat then path else [])
  | None => default_path url
  end.

(** Step 16: the loop over the stored cookies *)
Fixpoint conflicts_with_secure (stored : list Cookie) (cookie : Cookie) : res bool :=
  match stored with
  | [] => Ret false
  | old_cookie :: stored =>
      if negb (sv_eqb (c_name old_cookie) (c_name cookie)) then conflicts_with_secure stored cookie
      else if negb (c_secure old_cookie) then conflicts_with_secure stored cookie
      else
        let* forwards := domain_matches (c_domain old_cookie) (c_domain cookie) in
        let* matches :=
          if negb forwards then domain_matches (c_domain cookie) (c_domain old_cookie) else Ret true in
        if negb matches then conflicts_with_secure stored cookie
        else
          let* path := path_matches (c_path cookie) (c_path old_cookie) in
          if negb path then conflicts_with_secure stored cookie else Ret true
  end.

Definition has_case_insensitive_prefix (value prefix : bytes) : res bool :=
  if (length value <? length prefix)%nat then Ret false
  else let* value := substring_view value 0 (length prefix) in Ret (equals_ignoring_ascii_case value prefix).

(** Steps 19 to 22: whether the cookie is kept *)
Definition passes_prefix_rules (p : ParsedCookie) (cookie : Cookie) : res bool :=
  if match c_same_site cookie with SameSite_None => negb (c_secure cookie) | _ => false end then Ret false
  else
    let* secure_prefix := has_case_insensitive_prefix (c_name cookie) (sv "__Secure-") in
    if secure_prefix && negb (c_secure cookie) then Ret false
    else
      let* host_prefix := has_case_insensitive_prefix (c_name cookie) (sv "__Host-") in
      if host_prefix && (negb (c_secure cookie) || negb (c_host_only cookie)
                         || match p_path p with Some path => negb (sv_eqb path (sv "/")) | None => false end)
      then Ret false
      else if sv_is_empty (c_name cookie) then
        let* value_secure := has_case_insensitive_prefix (c_value cookie) (sv "__Secure-") in
        if value_secure : bool then Ret false
        else
          let* value_host := has_case_insensitive_prefix (c_value cookie) (sv "__Host-") in
          Ret (negb value_host)
      else Ret true.

Definition is_https (url : URL) : bool := sv_eqb (scheme url) (sv "https").

(** Steps 23 and 24 *)
Definition insert_cookie (jar : CookieJar) (cookie : Cookie) (source : Source) : res CookieJar :=
  let key := key_of cookie in
  let* old_cookie := storage_get_cookie jar key in
  let insert (cookie : Cookie) : res CookieJar :=
    let* jar := storage_set_cookie jar key cookie in
    let* (_, jar) := purge_expired_cookies jar None in Ret jar in
  match old_cookie with
  | Some old_cookie =>
      if Bool.eqb (c_host_only old_cookie) (c_host_only cookie) then
        if match source with NonHttp => c_http_only old_cookie | Http => false end then Ret jar
        else insert (with_creation_time cookie (c_creation_time old_cookie))
      else insert cookie
  | None => insert cookie
  end.

(** Steps 6 to 22: the new cookie, unless it is ignored; [creation_time] is the
    time of step 5. *)
Definition new_cookie (jar : CookieJar) (p : ParsedCookie) (url : URL) (canonicalized_domain : bytes)
    (source : Source) (creation_time : UnixDateTime) : res (option Cookie) :=
  let* (persistent, expiry_time) := cookie_expiry p in
  let* domain := cookie_domain p canonicalized_domain in
  match domain with
  | None => Ret None
  | Some (host_only, domain) =>
      let* path := cookie_path p url in
      let cookie :=
        mkCookie (p_name p) (p_value p) (p_same_site_attribute p) creation_time creation_time expiry_time domain path
          (p_secure_attribute_present p) (p_http_only_attribute_present p) host_only persistent in
      if c_secure cookie && negb (is_https url) then Ret None
      else if match source with NonHttp => c_http_only cookie | Http => false end then Ret None
      else
        let* ignore_cookie :=
          if negb (c_secure cookie) && negb (is_https url)
          then conflicts_with_secure (mi_entries (m_cookies jar)).*2 cookie
          else Ret false in
        if ignore_cookie : bool then Ret None
        else
          let* keep := passes_prefix_rules p cookie in
          Ret (if keep : bool then Some cookie else None)
  end.

Definition store_cookie (jar : CookieJar) (p : ParsedCookie) (url : URL) (canonicalized_domain : bytes)
    (source : Source) : res CookieJar :=
  if sv_is_empty (p_name p) && sv_is_empty (p_value p) then Ret jar
  else if cookie_contains_invalid_control_character (p_name p) then Ret jar
  else if cookie_contains_invalid_control_character (p_value p) then Ret jar
  else if (4096 <? length (p_name p) + length (p_value p))%nat then Ret jar
  else
    let (creation_time, jar) := now jar in
    let* cookie := new_cookie jar p url canonicalized_domain source creation_time in
    match cookie with
    | None => Ret jar
    | Some cookie => insert_cookie jar cookie source
    end.

Definition set_cookie (jar : CookieJar) (url : URL) (p : ParsedCookie) (source : Source) : res CookieJar :=
  let* domain := canonicalize_domain url in
  match domain with
  | None => Ret jar
  | Some domain => store_cookie jar p url domain source
  end.

Definition update_cookie (jar : CookieJar) (cookie : Cookie) : res CookieJar :=
  let key := key_of cookie in
  let* old_cookie := storage_get_cookie jar key in
  let cookie :=
    match old_cookie with
    | Some old_cookie =>
        if Bool.eqb (c_host_only old_cookie) (c_host_only cookie)
        then with_creation_time cookie (c_creation_time old_cookie) else cookie
    | None => cookie
    end in
  let* jar := storage_set_cookie jar key cookie in
  let* (_, jar) := purge_expired_cookies jar None in Ret jar.

(** ** Retrieving *)

(** The conditions of [get_matching_cookies] *)
Definition is_retrieved (url : URL) (canonicalized_domain : bytes) (source : Source) (cookie : Cookie) : res bool :=
  let* domain :=
    if c_host_only cookie then Ret (sv_eqb canonicalized_domain (c_domain cookie))
    else domain_matches canonicalized_domain (c_domain cookie) in
  if negb domain then Ret false
  else
    let* request_path := serialize_path url in
    let* path := path_matches request_path (c_path cookie) in
    if negb path then Ret false
    else if c_secure cookie && negb (sv_eqb (scheme url) (sv "https")) && negb (sv_eqb (scheme url) (sv "wss"))
    then Ret false
    else Ret (negb (c_http_only cookie && match source with Http => false | NonHttp => true end)).

(** Whether [cookie] is listed before [entry] *)
Definition listed_before (cookie entry : Cookie) : bool :=
  (length (c_path entry) <? length (c_path cookie))%nat
  || ((length (c_path cookie) =? length (c_path entry))%nat
      && Duration_lt (c_creation_time cookie) (c_creation_time entry)).

(** The loop over the stored cookies *)
Fixpoint matching_loop (url : URL) (canonicalized_domain : bytes) (source : Source)
    (mode : MatchingCookiesSpecMode) (now : UnixDateTime) (stored cookie_list : list Cookie) : res (list Cookie) :=
  match stored with
  | [] => Ret cookie_list
  | cookie :: stored =>
      let* retrieved := is_retrieved url canonicalized_domain source cookie in
      let cookie_list :=
        if negb retrieved then cookie_list
        else
          match mode with
          | WebDriver => cookie_list ++ [cookie]
          | RFC6265 =>
              let cookie := with_last_access_time cookie now in
              insert_before_matching cookie_list cookie (listed_before cookie)
          end in
      matching_loop url canonicalized_domain source mode now stored cookie_list
  end.

Definition get_matching_cookies (jar : CookieJar) (url : URL) (canonicalized_domain : bytes) (source : Source)
    (mode : MatchingCookiesSpecMode) : res (list Cookie * CookieJar) :=
  let (now, jar) := now jar in
  let* cookie_list := matching_loop url canonicalized_domain source mode now (mi_entries (m_cookies jar)).*2 [] in
  match mode with
  | WebDriver => Ret (cookie_list, jar)
  | RFC6265 =>
      let jar := with_cookies jar
        (mi_modify (m_cookies jar) (fun _ cookie =>
           match is_retrieved url canonicalized_domain source cookie with
           | Ret true => with_last_access_time cookie now
           | _ => cookie
           end)) in
      let* (_, jar) := purge_expired_cookies jar None in
      Ret (cookie_list, jar)
  end.

(** The loop of [get_cookie]; [builder] is what the builder has. *)
Fixpoint serialize_cookies (cookie_list : list Cookie) (builder : bytes) : bytes :=
  match cookie_list with
  | [] => builder
  | cookie :: cookie_list =>
      let builder := if negb (sv_is_empty builder) then builder ++ sv "; " else builder in
      let builder := if negb (sv_is_empty (c_name cookie)) then builder ++ c_name cookie ++ [ch "="] else builder in
      let builder := if negb (sv_is_empty (c_value cookie)) then builder ++ c_value cookie else builder in
      serialize_cookies cookie_list builder
  end.

Definition get_cookie (jar : CookieJar) (url : URL) (source : Source) : res (bytes * CookieJar) :=
  let* (_, jar) := purge_expired_cookies jar None in
  let* domain := canonicalize_domain url in
  match domain with
  | None => Ret ([], jar)
  | Some domain =>
      let* (cookie_list, jar) := get_matching_cookies jar url domain source RFC6265 in
      let* string := must_from_utf8 (serialize_cookies cookie_list []) in
      Ret (string, jar)
  end.

Definition get_all_cookies (jar : CookieJar) : list Cookie := (mi_entries (m_cookies jar)).*2.

Definition get_all_cookies_webdriver (jar : CookieJar) (url : URL) : res (list Cookie * CookieJar) :=
  let* domain := canonicalize_domain url in
  match domain with
  | None => Ret ([], jar)
  | Some domain => get_matching_cookies jar url domain Http WebDriver
  end.

Definition get_all_cookies_cookiestore (jar : CookieJar) (url : URL) : res (list Cookie * CookieJar) :=
  let* domain := canonicalize_domain url in
  match domain with
  | None => Ret ([], jar)
  | Some domain => get_matching_cookies jar url domain NonHttp RFC6265
  end.

Definition get_named_cookie (jar : CookieJar) (url : URL) (name : bytes) : res (option Cookie * CookieJar) :=
  let* domain := canonicalize_domain url in
  match domain with
  | None => Ret (None, jar)
  | Some domain =>
      let* (cookie_list, jar) := get_matching_cookies jar url domain Http WebDriver in
      Ret (List.find (fun cookie => sv_eqb (c_name cookie) name) cookie_list, jar)
  end.

Definition expire_cookies_with_time_offset (jar : CookieJar) (offset : Duration) : res CookieJar :=
  let* (_, jar) := purge_expired_cookies jar (Some offset) in Ret jar.

Definition expire_cookies_accessed_since (jar : CookieJar) (since : UnixDateTime) : res CookieJar :=
  expire_and_purge_cookies_accessed_since jar since.

End jar.
Arguments CookieJar : clear implicits.
