(* ===== verification/CookieJarFacts.v ===== *)
(** * The cookie jar: the operations on the maps they stand for

    What each operation does to the map of cookies, for every map that obeys
    the laws of maps. *)

From S2P Require Import Prelude CharacterTypes Utf8 Strings Tokens Percent PublicSuffix Host Url Time HashTable HashTableFacts HashMap Cookies CookieDates CookieFacts CookieJar.
From stdpp Require Import gmap sorting.
Local Open Scope Z_scope.

(** ** Maps *)

Section maps.
Context {K V M : Type} `{MapLaws K V M}.
Implicit Types (m : M).

Lemma mi_map_entries m k v : mi_ok m -> mi_map m !! k = Some v <-> (k, v) ∈ mi_entries m.
Proof. intros Hok. symmetry. apply elem_of_list_to_map, mi_keys, Hok. Qed.

Lemma mi_empty_map : mi_map mi_empty = ∅.
Proof. unfold mi_map. by rewrite mi_empty_entries. Qed.

Lemma mi_modify_map m f :
  mi_ok m -> mi_map (mi_modify m f) = map_imap (fun k v => Some (f k v)) (mi_map m).
Proof.
  intros Hok. destruct (mi_modify_ok m f Hok) as (Hok' & _ & He). apply map_eq. intros k.
  rewrite map_lookup_imap. apply option_eq. intros v. rewrite mi_map_entries by done. rewrite He.
  rewrite list_elem_of_fmap. split.
  - intros ([k' w] & [= -> ->] & Hin). apply mi_map_entries in Hin; [|done]. by rewrite Hin.
  - intros (w & Hw & [= <-])%bind_Some. exists (k, w). split; [done|]. by apply mi_map_entries.
Qed.

(** Taking the entries that match leaves a filtered map. *)
Lemma mi_take_all_map m p :
  mi_ok m ->
  exists taken m', mi_take_all_matching m p = Ret (taken, m') /\ mi_ok m'
    /\ mi_map m' = filter (fun e => p e.1 e.2 = false) (mi_map m)
    /\ Forall (fun e => mi_map m !! e.1 = Some e.2 /\ p e.1 e.2 = true) taken.
Proof.
  intros Hok. destruct (mi_take_all_ok m p Hok) as (taken & m' & Ht & Hok' & Hp & Htaken & Hkept).
  exists taken, m'. split_and!; [done|done| |].
  - apply map_eq. intros k. apply option_eq. intros v. rewrite mi_map_entries by done.
    rewrite map_lookup_filter_Some. rewrite mi_map_entries, Hp, elem_of_app by done.
    rewrite Forall_forall in Htaken, Hkept. split.
    + intros Hin. split; [by right|]. apply (Hkept (k, v) Hin).
    + intros [[Hin|?] Hf]; [|done]. apply Htaken in Hin. simpl in *. congruence.
  - rewrite Forall_forall in *. intros [k v] Hin. split; [|by apply Htaken].
    apply mi_map_entries; [done|]. rewrite Hp. apply elem_of_app. by left.
Qed.

End maps.

(** ** Times *)

Lemma duration_lt_lexicographic a b :
  Duration_lt a b = true
  <-> m_seconds a < m_seconds b \/ (m_seconds a = m_seconds b /\ m_nanoseconds a < m_nanoseconds b).
Proof. unfold Duration_lt, Duration_compare. repeat case_match; lia. Qed.

(** ** The storage *)

Section storage.
Context {M : Type} {MI : MapInterface CookieStorageKey Cookie M} {ML : MapLaws CookieStorageKey Cookie M}.
Context (clock : nat -> UnixDateTime).
Implicit Types (jar : CookieJar M) (g : gmap CookieStorageKey Cookie).

Definition jar_map jar : gmap CookieStorageKey Cookie := mi_map (m_cookies jar).
Definition dirty_map jar : gmap CookieStorageKey Cookie := mi_map (m_dirty_cookies jar).

Definition jar_wf jar : Prop := mi_ok (m_cookies jar) /\ mi_ok (m_dirty_cookies jar).

Definition expired (now : UnixDateTime) (c : Cookie) : Prop := Duration_lt (c_expiry_time c) now = true.

Definition purged (now : UnixDateTime) g : gmap CookieStorageKey Cookie :=
  filter (fun e => Duration_lt (c_expiry_time e.2) now = false) g.

Definition stored (now : UnixDateTime) g (k : CookieStorageKey) (c : Cookie) : gmap CookieStorageKey Cookie :=
  if Duration_lt (c_expiry_time c) now && bool_decide (g !! k = None) then g else <[k := c]> g.

Lemma purge_spec jar :
  jar_wf jar ->
  exists jar', purge_expired_cookies clock jar None = Ret (clock (tick jar), jar') /\ jar_wf jar'
    /\ jar_map jar' = purged (clock (tick jar)) (jar_map jar)
    /\ m_dirty_cookies jar' = m_dirty_cookies jar /\ tick jar' = S (tick jar).
Proof.
  intros [Hok Hdirty]. unfold purge_expired_cookies, now. cbn [res_bind m_cookies].
  destruct (mi_take_all_map (m_cookies jar) (fun _ c => Duration_lt (c_expiry_time c) (clock (tick jar))) Hok)
    as (taken & m' & -> & Hok' & Hm & _). cbn [res_bind].
  eexists. split; [done|]. destruct taken; done.
Qed.

Lemma storage_set_spec jar k c :
  jar_wf jar ->
  exists jar', storage_set_cookie clock jar k c = Ret jar' /\ jar_wf jar'
    /\ jar_map jar' = stored (clock (tick jar)) (jar_map jar) k c
    /\ (dirty_map jar' = dirty_map jar \/ dirty_map jar' = <[k := c]> (dirty_map jar))
    /\ tick jar' = S (tick jar).
Proof.
  intros [Hok Hdirty]. unfold storage_set_cookie, now, stored. cbn [m_cookies].
  rewrite mi_contains_ok by done. cbn [res_bind].
  destruct (mi_set_ok (m_cookies jar) k c Hok) as (m1 & Hset & Hok1 & Hm1).
  destruct (mi_set_ok (m_dirty_cookies jar) k c Hdirty) as (m2 & Hset2 & Hok2 & Hm2).
  change (mi_map (m_cookies jar)) with (jar_map jar) in *.
  destruct (Duration_lt (c_expiry_time c) (clock (tick jar))); cbn [andb negb res_bind].
  - destruct (jar_map jar !! k) as [old|] eqn:E.
    + rewrite bool_decide_eq_true_2 by done. cbn [negb]. rewrite Hset. cbn [res_bind with_cookies m_dirty_cookies].
      rewrite Hset2. eexists. split; [done|]. split_and!; try done. by right.
    + rewrite (bool_decide_eq_false_2 (is_Some None)) by (by intros [? [=]]). cbn [negb].
      rewrite bool_decide_eq_true_2 by done. eexists. split; [done|]. split_and!; try done. by left.
  - rewrite Hset. cbn [res_bind with_cookies notify_cookies_changed m_dirty_cookies]. rewrite Hset2.
    eexists. split; [done|]. split_and!; try done. by right.
Qed.

End storage.

(** ** Retrieving *)

Section retrieving.
Context `{FastFloatLaws, SimdutfLaws}.

(** The conditions of RFC 6265bis, 5.8.3 *)
Record retrieves (url : URL) (path host : bytes) (source : Source) (c : Cookie) : Prop := {
  retrieves_host : if c_host_only c then host = c_domain c else domain_match host (c_domain c);
  retrieves_path : path_match path (c_path c);
  retrieves_secure : c_secure c = true -> scheme url = sv "https" \/ scheme url = sv "wss";
  retrieves_http_only : c_http_only c = true -> source = Http
}.

Lemma is_retrieved_spec url path host source c :
  serialize_path url = Ret path -> Z.of_nat (length path) < 2 ^ 64 -> Z.of_nat (length host) < 2 ^ 64 ->
  exists b, is_retrieved url host source c = Ret b /\ (b = true <-> retrieves url path host source c).
Proof.
  intros Hpath Hlp Hlh. unfold is_retrieved.
  assert (Hdomain : exists b, (if c_host_only c then Ret (sv_eqb host (c_domain c))
                               else domain_matches host (c_domain c)) = Ret b
    /\ (b = true <-> if c_host_only c then host = c_domain c else domain_match host (c_domain c))).
  { destruct (c_host_only c); [|by apply domain_matches_spec]. eexists. split; [done|apply sv_eqb_true]. }
  destruct Hdomain as (b1 & -> & Hb1). cbn [res_bind]. destruct b1; cbn [negb].
  2:{ exists false. split; [done|]. split; [done|]. intros [Hh _ _ _]. by apply Hb1 in Hh. }
  rewrite Hpath. cbn [res_bind]. destruct (path_matches_spec path (c_path c) Hlp) as (b2 & -> & Hb2).
  cbn [res_bind]. destruct b2; cbn [negb].
  2:{ exists false. split; [done|]. split; [done|]. intros [_ Hp _ _]. by apply Hb2 in Hp. }
  destruct (c_secure c && _ && _) eqn:Esec.
  { exists false. split; [done|]. split; [done|]. intros [_ _ Hs _]. apply andb_true_iff in Esec as [Esec Ewss].
    apply andb_true_iff in Esec as [Esec Ehttps]. apply negb_true_iff in Ewss, Ehttps.
    destruct (Hs Esec) as [E|E]; apply sv_eqb_true in E; congruence. }
  eexists. split; [done|]. split.
  - intros Hho. split; [by apply Hb1|by apply Hb2| |].
    + intros Hs. rewrite Hs in Esec. cbn [andb] in Esec. apply andb_false_iff in Esec as [E|E];
        apply negb_false_iff, sv_eqb_true in E; auto.
    + intros Hho'. rewrite Hho' in Hho. by destruct source.
  - intros [_ _ _ Hho]. destruct (c_http_only c); [|done]. by rewrite Hho.
Qed.

(** The order of the retrieved cookies: longer paths first, then the earlier
    creation times *)
Definition in_order (a b : Cookie) : Prop := listed_before b a = false.

Lemma listed_before_iff a b :
  listed_before a b = true
  <-> (length (c_path b) < length (c_path a))%nat
      \/ (length (c_path a) = length (c_path b) /\ Duration_lt (c_creation_time a) (c_creation_time b) = true).
Proof. unfold listed_before. rewrite orb_true_iff, andb_true_iff, Nat.ltb_lt, Nat.eqb_eq. done. Qed.

Lemma listed_before_trans a b c :
  listed_before a b = true -> listed_before b c = true -> listed_before a c = true.
Proof. rewrite !listed_before_iff, !duration_lt_lexicographic. lia. Qed.

Lemma listed_before_asym a b : listed_before a b = true -> listed_before b a = false.
Proof.
  intros Hab. apply not_true_is_false. rewrite listed_before_iff, duration_lt_lexicographic in *. lia.
Qed.

Lemma insert_before_perm {A} (l : list A) x p : insert_before_matching l x p ≡ₚ x :: l.
Proof.
  induction l as [|y l IH]; [done|]. simpl. destruct (p y); [done|]. rewrite IH. apply Permutation_swap.
Qed.

Lemma insert_before_sorted l x :
  StronglySorted in_order l -> StronglySorted in_order (insert_before_matching l x (listed_before x)).
Proof.
  induction 1 as [|y l Hl IH Hy]; [repeat constructor|]. cbn [insert_before_matching].
  destruct (listed_before x y) eqn:E.
  - repeat constructor; try done; [by apply listed_before_asym|].
    eapply Forall_impl; [exact Hy|]. cbn. intros z Hz. unfold in_order in *. apply not_true_is_false. intros Hzx.
    by rewrite (listed_before_trans z x y) in Hz.
  - constructor; [done|]. rewrite insert_before_perm. by constructor.
Qed.

Context (url : URL) (path host : bytes) (source : Source) (now : UnixDateTime).
Context (Hpath : serialize_path url = Ret path).
Context (Hlp : Z.of_nat (length path) < 2 ^ 64) (Hlh : Z.of_nat (length host) < 2 ^ 64).

Definition retrieved (c : Cookie) : bool :=
  match is_retrieved url host source c with Ret b => b | Crash => false end.

Lemma retrieved_ret c : is_retrieved url host source c = Ret (retrieved c).
Proof. unfold retrieved. by destruct (is_retrieved_spec url path host source c Hpath Hlp Hlh) as (b & -> & _). Qed.

Lemma retrieved_iff c : retrieved c = true <-> retrieves url path host source c.
Proof. unfold retrieved. by destruct (is_retrieved_spec url path host source c Hpath Hlp Hlh) as (b & -> & ?). Qed.

Lemma matching_loop_spec stored cookie_list :
  StronglySorted in_order cookie_list ->
  exists l, matching_loop url host source RFC6265 now stored cookie_list = Ret l
    /\ l ≡ₚ cookie_list ++ ((fun c => with_last_access_time c now) <$> List.filter retrieved stored)
    /\ StronglySorted in_order l.
Proof.
  revert cookie_list. induction stored as [|c stored IH]; intros cookie_list Hs; cbn [matching_loop List.filter].
  { exists cookie_list. split; [done|]. cbn. by rewrite app_nil_r. }
  rewrite retrieved_ret. cbn [res_bind]. destruct (retrieved c); cbn [negb]; [|by apply IH].
  destruct (IH (insert_before_matching cookie_list (with_last_access_time c now)
                  (listed_before (with_last_access_time c now)))) as (l & Hl & Hp & Hsl).
  { by apply insert_before_sorted. }
  exists l. split_and!; [done| |done]. rewrite Hp, insert_before_perm. cbn. by rewrite <- Permutation_middle.
Qed.

Lemma matching_loop_webdriver stored cookie_list :
  matching_loop url host source WebDriver now stored cookie_list = Ret (cookie_list ++ List.filter retrieved stored).
Proof.
  revert cookie_list. induction stored as [|c stored IH]; intros cookie_list; cbn [matching_loop List.filter].
  { by rewrite app_nil_r. }
  rewrite retrieved_ret. cbn [res_bind]. rewrite IH. destruct (retrieved c); cbn [negb]; [|done].
  by rewrite <- app_assoc.
Qed.

End retrieving.

(** ** Storing *)

Lemma equals_ignoring_iff a b :
  equals_ignoring_ascii_case a b = true <-> to_ascii_lowercase <$> a = to_ascii_lowercase <$> b.
Proof.
  unfold equals_ignoring_ascii_case. revert b. induction a as [|x a IH]; intros [|y b]; try done.
  specialize (IH b). cbn [length Nat.eqb negb equals_ignoring_ascii_case_loop fmap list_fmap].
  destruct (Z.eqb_spec (to_ascii_lowercase x) (to_ascii_lowercase y)) as [E|E]; cbn [negb].
  - rewrite IH, E. split; [by intros ->|by intros [=]].
  - destruct (negb _); (split; [done|by intros [=]]).
Qed.

(** A prefix up to the case of ASCII letters *)
Definition prefixed (prefix s : bytes) : Prop :=
  exists a rest, s = a ++ rest /\ to_ascii_lowercase <$> a = to_ascii_lowercase <$> prefix.

Lemma has_prefix_spec s prefix :
  exists b, has_case_insensitive_prefix s prefix = Ret b /\ (b = true <-> prefixed prefix s).
Proof.
  unfold has_case_insensitive_prefix, prefixed. destruct (Nat.ltb_spec (length s) (length prefix)) as [Hlt|Hge].
  - exists false. split; [done|]. split; [done|]. intros (a & rest & -> & E%(f_equal length)).
    rewrite !length_fmap in E. rewrite length_app in Hlt. lia.
  - unfold substring_view. rewrite (proj2 (Nat.leb_le _ _)) by (simpl; lia). cbn [verify res_bind drop].
    eexists. split; [done|]. rewrite equals_ignoring_iff. split.
    + intros E. exists (take (length prefix) s), (drop (length prefix) s). by rewrite take_drop.
    + intros (a & rest & -> & E). pose proof (f_equal length E) as El. rewrite !length_fmap in El.
      by rewrite <- El, drop_0, take_app_length.
Qed.

(** The rules for [SameSite=None] and for the prefixes of names *)
Record prefix_rules (c : Cookie) : Prop := {
  rule_same_site : c_same_site c = SameSite_None -> c_secure c = true;
  rule_secure_prefix : prefixed (sv "__Secure-") (c_name c) -> c_secure c = true;
  rule_host_prefix : prefixed (sv "__Host-") (c_name c) -> c_secure c = true /\ c_host_only c = true;
  rule_nameless : c_name c = [] ->
    ~ prefixed (sv "__Secure-") (c_value c) /\ ~ prefixed (sv "__Host-") (c_value c)
}.

(** What the storage model demands of every stored cookie *)
Record cookie_ok (c : Cookie) : Prop := {
  ok_not_empty : c_name c <> [] \/ c_value c <> [];
  ok_size : (length (c_name c) + length (c_value c) <= 4096)%nat;
  ok_name_controls : cookie_contains_invalid_control_character (c_name c) = false;
  ok_value_controls : cookie_contains_invalid_control_character (c_value c) = false;
  ok_rules : prefix_rules c;
  ok_name_text : well_formed_utf8 (c_name c);
  ok_value_text : well_formed_utf8 (c_value c);
  ok_expiry : valid_duration (c_expiry_time c)
}.

Lemma passes_prefix_rules_spec p c :
  exists b, passes_prefix_rules p c = Ret b /\ (b = true -> prefix_rules c).
Proof.
  unfold passes_prefix_rules. destruct (match c_same_site c with SameSite_None => _ | _ => _ end) eqn:E1; [by exists false|].
  destruct (has_prefix_spec (c_name c) (sv "__Secure-")) as (b1 & -> & Hb1). cbn [res_bind].
  destruct (b1 && negb (c_secure c)) eqn:E2; [by exists false|].
  destruct (has_prefix_spec (c_name c) (sv "__Host-")) as (b2 & -> & Hb2). cbn [res_bind].
  destruct (b2 && _) eqn:E3; [by exists false|].
  assert (Hrules : (c_same_site c = SameSite_None -> c_secure c = true)
    /\ (prefixed (sv "__Secure-") (c_name c) -> c_secure c = true)
    /\ (prefixed (sv "__Host-") (c_name c) -> c_secure c = true /\ c_host_only c = true)).
  { split_and!.
    - intros E. rewrite E in E1. by apply negb_false_iff in E1.
    - intros ->%Hb1. cbn [andb] in E2. by apply negb_false_iff in E2.
    - intros ->%Hb2. cbn [andb] in E3. apply orb_false_iff in E3 as [E3 _]. apply orb_false_iff in E3 as [Ea Eb].
      by apply negb_false_iff in Ea, Eb. }
  destruct Hrules as (R1 & R2 & R3). destruct (c_name c) as [|x name] eqn:En; cbn [sv_is_empty].
  - destruct (has_prefix_spec (c_value c) (sv "__Secure-")) as (b3 & -> & Hb3). cbn [res_bind].
    destruct b3; [by exists false|]. destruct (has_prefix_spec (c_value c) (sv "__Host-")) as (b4 & -> & Hb4). cbn [res_bind].
    eexists. split; [done|]. intros Hb. split; rewrite ?En; try done. intros _.
    split; [by intros ?%Hb3|]. intros ?%Hb4. subst b4. done.
  - eexists. split; [done|]. intros _. split; rewrite ?En; done.
Qed.

Section storing.
Context {M : Type} {MI : MapInterface CookieStorageKey Cookie M} {ML : MapLaws CookieStorageKey Cookie M}.
Context `{FastFloatLaws, SimdutfLaws, PublicSuffixListLaws}.
Implicit Types (jar : CookieJar M).

(** An existing cookie that shadows the new one (step 16) *)
Definition shadows (old new : Cookie) : Prop :=
  c_name old = c_name new /\ c_secure old = true
  /\ (domain_match (c_domain old) (c_domain new) \/ domain_match (c_domain new) (c_domain old))
  /\ path_match (c_path new) (c_path old).

(** Sizes that a [size_t] holds *)
Definition fits (c : Cookie) : Prop :=
  Z.of_nat (length (c_domain c)) < 2 ^ 64 /\ Z.of_nat (length (c_path c)) < 2 ^ 64.

Lemma conflicts_spec stored new :
  fits new -> Forall fits stored ->
  exists b, conflicts_with_secure stored new = Ret b /\ (b = true <-> Exists (fun old => shadows old new) stored).
Proof.
  intros [Hd Hp]. induction 1 as [|old stored [Hod Hop] Hst IH]; cbn [conflicts_with_secure].
  { exists false. split; [done|]. by rewrite Exists_nil. }
  assert (Hskip : ~ shadows old new ->
    exists b, conflicts_with_secure stored new = Ret b
      /\ (b = true <-> Exists (fun old => shadows old new) (old :: stored))).
  { intros Hno. destruct IH as (b & Hb & Hiff). exists b. split; [done|]. rewrite Exists_cons. tauto. }
  destruct (sv_eqb (c_name old) (c_name new)) eqn:En; cbn [negb].
  2:{ apply Hskip. intros (E & _). apply sv_eqb_true in E. congruence. }
  apply sv_eqb_true in En. destruct (c_secure old) eqn:Es; cbn [negb].
  2:{ apply Hskip. intros (_ & E & _). congruence. }
  destruct (domain_matches_spec (c_domain old) (c_domain new) Hod) as (b1 & -> & Hb1). cbn [res_bind].
  destruct (domain_matches_spec (c_domain new) (c_domain old) Hd) as (b2 & E2 & Hb2).
  assert (Hm : exists b, (if negb b1 then domain_matches (c_domain new) (c_domain old) else Ret true) = Ret b
    /\ (b = true <-> domain_match (c_domain old) (c_domain new) \/ domain_match (c_domain new) (c_domain old))).
  { destruct b1; cbn [negb]; [exists true|exists b2]; (split; [done|]); tauto || (rewrite Hb2; split; [by right|]).
    intros [Hx|]; [by apply Hb1 in Hx|done]. }
  destruct Hm as (b & -> & Hb). cbn [res_bind]. destruct b; cbn [negb].
  2:{ apply Hskip. intros (_ & _ & Hx & _). by apply Hb in Hx. }
  destruct (path_matches_spec (c_path new) (c_path old) Hp) as (b3 & -> & Hb3). cbn [res_bind].
  destruct b3; cbn [negb].
  - exists true. split; [done|]. split; [|done]. intros _. apply Exists_cons. left.
    split_and!; try done; [by apply Hb|by apply Hb3].
  - apply Hskip. intros (_ & _ & _ & Hx). by apply Hb3 in Hx.
Qed.

Lemma cookie_domain_spec p host :
  Z.of_nat (length host) < 2 ^ 64 ->
  exists o, cookie_domain p host = Ret o
    /\ forall (host_only : bool) d, o = Some (host_only, d) ->
       if host_only then d = host else domain_match host d /\ d <> [] /\ (length d <= 1024)%nat.
Proof.
  intros Hlen. unfold cookie_domain.
  set (attribute := match p_domain p with Some d => _ | None => _ end).
  assert (Hla : (length attribute <= 1024)%nat).
  { unfold attribute. destruct (p_domain p) as [d|]; [|simpl; lia]. destruct (Nat.leb_spec (length d) 1024); simpl; lia. }
  clearbody attribute. destruct (negb (sv_is_ascii attribute)); [by exists None|].
  rewrite is_public_suffix_ok. cbn [res_bind].
  assert (Hgo : exists o, (if negb (sv_is_empty attribute) then
        let* matches := domain_matches host attribute in
        if negb matches then Ret None else Ret (Some (false, attribute))
      else Ret (Some (true, host))) = Ret o
    /\ forall (host_only : bool) d, o = Some (host_only, d) ->
       if host_only then d = host else domain_match host d /\ d <> [] /\ (length d <= 1024)%nat).
  { destruct attribute as [|x attribute]; cbn [sv_is_empty negb].
    - eexists. split; [done|]. by intros ho d [= <- <-].
    - destruct (domain_matches_spec host (x :: attribute) Hlen) as (b & -> & Hb). cbn [res_bind].
      destruct b; cbn [negb]; [|by exists None]. eexists. split; [done|]. intros ho d [= <- <-].
      split_and!; [by apply Hb|done|done]. }
  destruct (is_rule attribute); [|done]. destruct (sv_eqb attribute host); [|by exists None].
  eexists. split; [done|]. by intros ho d [= <- <-].
Qed.

(** The cookie that a parsed cookie becomes *)
Record new_from jar (p : ParsedCookie) (url : URL) (host dp : bytes) (source : Source) (t : UnixDateTime)
    (c : Cookie) : Prop := {
  new_name : c_name c = p_name p;
  new_value : c_value c = p_value p;
  new_creation : c_creation_time c = t;
  new_domain : if c_host_only c then c_domain c = host
                 else domain_match host (c_domain c) /\ c_domain c <> [] /\ (length (c_domain c) <= 1024)%nat;
  new_path : match p_path p with
               | Some path => c_path c = if (length path <=? 1024)%nat then path else []
               | None => c_path c = dp
               end;
  new_secure : c_secure c = p_secure_attribute_present p;
  new_http_only : c_http_only c = p_http_only_attribute_present p;
  new_https : c_secure c = true -> is_https url = true;
  new_source : source = NonHttp -> c_http_only c = false;
  new_unshadowed : is_https url = false ->
    Forall (fun old => ~ shadows old c) (mi_entries (m_cookies jar)).*2;
  new_expiry : cookie_expiry p = Ret (c_persistent c, c_expiry_time c);
  new_rules : prefix_rules c
}.

Lemma cookie_expiry_total p : exists persistent t, cookie_expiry p = Ret (persistent, t).
Proof.
  unfold cookie_expiry. destruct (p_expiry_time_from_max_age_attribute p); [eauto|].
  destruct (p_expiry_time_from_expires_attribute p); [eauto|].
  rewrite from_unix_time_parts_exact by lia. cbn [res_bind]. eauto.
Qed.

Lemma new_cookie_spec jar p url host dp source t :
  default_path url = Ret dp -> Z.of_nat (length dp) < 2 ^ 64 -> Z.of_nat (length host) < 2 ^ 64 ->
  Forall fits (mi_entries (m_cookies jar)).*2 ->
  exists o, new_cookie jar p url host source t = Ret o /\ forall c, o = Some c -> new_from jar p url host dp source t c.
Proof.
  intros Hdp Hldp Hlh Hfits. unfold new_cookie.
  destruct (cookie_expiry_total p) as (persistent & expiry & Hexp). rewrite Hexp. cbn [res_bind].
  destruct (cookie_domain_spec p host Hlh) as (o & -> & Hdom). cbn [res_bind].
  destruct o as [[host_only domain]|]; [|by exists None]. specialize (Hdom _ _ eq_refl).
  assert (Hpath : exists path, cookie_path p url = Ret path /\ Z.of_nat (length path) < 2 ^ 64
    /\ match p_path p with
       | Some q => path = if (length q <=? 1024)%nat then q else []
       | None => path = dp
       end).
  { unfold cookie_path. destruct (p_path p) as [q|]; [|by eauto]. eexists. split; [done|]. split; [|done].
    destruct (Nat.leb_spec (length q) 1024); simpl; lia. }
  destruct Hpath as (path & -> & Hlpath & Hpath). cbn [res_bind].
  set (cookie := mkCookie _ _ _ _ _ _ _ _ _ _ _ _).
  destruct (c_secure cookie && negb (is_https url)) eqn:Ehttps; [by exists None|].
  destruct (match source with NonHttp => c_http_only cookie | Http => false end) eqn:Esource; [by exists None|].
  assert (Hfit : fits cookie).
  { split; cbn; [|done]. destruct host_only; [by rewrite Hdom|]. destruct Hdom as (_ & _ & Hl). lia. }
  assert (Hshadow : exists b, (if negb (c_secure cookie) && negb (is_https url)
      then conflicts_with_secure (mi_entries (m_cookies jar)).*2 cookie else Ret false) = Ret b
    /\ (b = false -> is_https url = false -> Forall (fun old => ~ shadows old cookie) (mi_entries (m_cookies jar)).*2)).
  { destruct (conflicts_spec _ cookie Hfit Hfits) as (b & Hb & Hiff).
    destruct (c_secure cookie), (is_https url); cbn [andb negb] in *; try done; try (by exists false).
    exists b. split; [done|]. intros -> _. apply Forall_forall. intros old Hin Hsh.
    assert (false = true); [|done]. apply Hiff, Exists_exists. eauto. }
  destruct Hshadow as (b & -> & Hb). cbn [res_bind]. destruct b; [by exists None|].
  destruct (passes_prefix_rules_spec p cookie) as (keep & -> & Hkeep). cbn [res_bind].
  eexists. split; [done|]. intros c Hc. destruct keep; [|done]. injection Hc as <-.
  split; try done; cbn.
  - intros Hs. change (c_secure cookie = true) in Hs. rewrite Hs in Ehttps. cbn [andb] in Ehttps.
    by apply negb_false_iff in Ehttps.
  - intros ->. done.
  - by apply Hb.
  - by apply Hkeep.
Qed.

Context `{IcuCase} (clock : nat -> UnixDateTime).

(** Steps 23 and 24: the map afterwards *)
Lemma insert_cookie_spec jar c source :
  jar_wf jar ->
  exists jar', insert_cookie clock jar c source = Ret jar' /\ jar_wf jar'
    /\ (jar' = jar /\ source = NonHttp
          /\ (exists old, jar_map jar !! key_of c = Some old /\ c_http_only old = true
                /\ c_host_only old = c_host_only c)
        \/ exists c', (c' = c \/ exists old, jar_map jar !! key_of c = Some old
                /\ c' = with_creation_time c (c_creation_time old))
            /\ jar_map jar' = purged (clock (S (tick jar))) (stored (clock (tick jar)) (jar_map jar) (key_of c) c')
            /\ (dirty_map jar' = dirty_map jar \/ dirty_map jar' = <[key_of c := c']> (dirty_map jar))
            /\ tick jar' = S (S (tick jar))).
Proof.
  intros Hwf. unfold insert_cookie, storage_get_cookie. pose proof Hwf as [Hok _]. rewrite mi_get_ok by done.
  cbn [res_bind].
  assert (Hins : forall c', exists jar', (let* jar := storage_set_cookie clock jar (key_of c) c' in
      let* (_, jar) := purge_expired_cookies clock jar None in Ret jar) = Ret jar' /\ jar_wf jar'
    /\ jar_map jar' = purged (clock (S (tick jar))) (stored (clock (tick jar)) (jar_map jar) (key_of c) c')
    /\ (dirty_map jar' = dirty_map jar \/ dirty_map jar' = <[key_of c := c']> (dirty_map jar))
    /\ tick jar' = S (S (tick jar))).
  { intros c'. destruct (storage_set_spec clock jar (key_of c) c' Hwf) as (jar1 & -> & Hwf1 & Hm1 & Hd1 & Ht1).
    cbn [res_bind]. destruct (purge_spec clock jar1 Hwf1) as (jar2 & -> & Hwf2 & Hm2 & Hd2 & Ht2). cbn [res_bind].
    exists jar2. unfold dirty_map in *. rewrite Hd2, Hm2, Ht2, Ht1, Hm1. split_and!; done. }
  change (mi_map (m_cookies jar)) with (jar_map jar). destruct (jar_map jar !! key_of c) as [old|] eqn:Eold.
  - destruct (Bool.eqb (c_host_only old) (c_host_only c)) eqn:Eho.
    + apply eqb_prop in Eho.
      destruct (match source with NonHttp => c_http_only old | Http => false end) eqn:Eh.
      * exists jar. split; [done|]. split; [done|]. left. split; [done|]. destruct source; [|done]. eauto.
      * destruct (Hins (with_creation_time c (c_creation_time old))) as (jar' & ? & ? & ? & ? & ?). eauto 14.
    + destruct (Hins c) as (jar' & ? & ? & ? & ? & ?). eauto 14.
  - destruct (Hins c) as (jar' & ? & ? & ? & ? & ?). eauto 14.
Qed.

End storing.
