(* ===== verification/CookieJarTheorems.v ===== *)
(** * The cookie jar: theorems

    The jar stays within the rules of the storage model whatever is done with
    it, gives out the cookies that the retrieval model selects, in its order,
    and protects the cookies of secure connections; and where it does not do
    what the comments of the source say. *)

From S2P Require Import Prelude CharacterTypes Utf8 Strings Tokens Percent PublicSuffix Host Url Time HashTable HashTableFacts HashMap Cookies CookieDates CookieFacts CookieJar CookieJarFacts.
From stdpp Require Import gmap sorting.
Local Open Scope Z_scope.

Section theorems.
Context {M : Type} {MI : MapInterface CookieStorageKey Cookie M} {ML : MapLaws CookieStorageKey Cookie M}.
Context `{FastFloatLaws, SimdutfLaws, PublicSuffixListLaws, IcuCase} (clock : nat -> UnixDateTime).
Implicit Types (jar : CookieJar M) (g : gmap CookieStorageKey Cookie).

(** A URL that cookies can be set from and retrieved for *)
Record url_ok (url : URL) (host path dp : bytes) : Prop := {
  url_host : canonicalize_domain url = Ret (Some host);
  url_path : serialize_path url = Ret path;
  url_default_path : default_path url = Ret dp;
  url_host_fits : Z.of_nat (length host) < 2 ^ 64;
  url_path_fits : Z.of_nat (length path) < 2 ^ 64;
  url_default_path_fits : Z.of_nat (length dp) < 2 ^ 64
}.

(** The entries of a jar: their key, and the rules *)
Definition entry_ok (k : CookieStorageKey) (c : Cookie) : Prop := k = key_of c /\ cookie_ok c /\ fits c.

Record jar_ok jar : Prop := {
  jar_ok_wf : jar_wf jar;
  jar_ok_cookies : map_Forall entry_ok (jar_map jar);
  jar_ok_dirty : map_Forall entry_ok (dirty_map jar)
}.

Lemma jar_entries_fit jar : jar_ok jar -> Forall fits (mi_entries (m_cookies jar)).*2.
Proof.
  intros [[Hok _] Hc _]. apply Forall_forall. intros c ([k c'] & -> & Hin)%list_elem_of_fmap.
  apply mi_map_entries in Hin; [|done]. by apply (Hc k c') in Hin as (_ & _ & ?).
Qed.

(** ** Assignments keep the rules *)

Lemma cookie_ok_of c c' :
  cookie_ok c -> c_name c' = c_name c -> c_value c' = c_value c -> c_same_site c' = c_same_site c ->
  c_secure c' = c_secure c -> c_host_only c' = c_host_only c -> valid_duration (c_expiry_time c') -> cookie_ok c'.
Proof.
  intros [? ? ? ? [] ? ? ?] En Ev Es Esec Eh Ht.
  split; rewrite ?En, ?Ev; try done. by split; rewrite ?En, ?Ev, ?Es, ?Esec, ?Eh.
Qed.

Lemma entry_ok_creation k c t : entry_ok k c -> entry_ok k (with_creation_time c t).
Proof. intros (-> & Hc & Hf). split_and!; [done| |done]. apply (cookie_ok_of c); try done. apply Hc. Qed.

Lemma entry_ok_access k c t : entry_ok k c -> entry_ok k (with_last_access_time c t).
Proof. intros (-> & Hc & Hf). split_and!; [done| |done]. apply (cookie_ok_of c); try done. apply Hc. Qed.

Lemma entry_ok_expiry k c t : valid_duration t -> entry_ok k c -> entry_ok k (with_expiry_time c t).
Proof. intros Ht (-> & Hc & Hf). split_and!; [done| |done]. by apply (cookie_ok_of c). Qed.

Lemma purged_all P t g : map_Forall P g -> map_Forall P (purged t g).
Proof. intros Hg k c [Hk _]%map_lookup_filter_Some. by apply Hg. Qed.

Lemma stored_all P t g k c : map_Forall P g -> P k c -> map_Forall P (stored t g k c).
Proof. intros Hg Hk. unfold stored. destruct (_ && _); [done|]. by apply map_Forall_insert_2. Qed.

(** ** Setting *)

(** What [parse_cookie] promises of the cookies that are set *)
Record parsed_valid (p : ParsedCookie) : Prop := {
  valid_name : well_formed_utf8 (p_name p);
  valid_value : well_formed_utf8 (p_value p);
  valid_max_age t : p_expiry_time_from_max_age_attribute p = Some t -> valid_duration t;
  valid_expires t : p_expiry_time_from_expires_attribute p = Some t -> valid_duration t
}.

Lemma cookie_expiry_valid p persistent t :
  parsed_valid p -> cookie_expiry p = Ret (persistent, t) -> valid_duration t.
Proof.
  intros [_ _ Hm He]. unfold cookie_expiry. destruct (p_expiry_time_from_max_age_attribute p) as [t1|].
  { intros [= _ <-]. by apply Hm. }
  destruct (p_expiry_time_from_expires_attribute p) as [t2|].
  { intros [= _ <-]. by apply He. }
  rewrite from_unix_time_parts_exact by lia. cbn [res_bind]. intros [= _ <-]. by vm_compute.
Qed.

Lemma new_fits jar p url host path dp source t c :
  url_ok url host path dp -> new_from jar p url host dp source t c -> fits c.
Proof.
  intros [] []. split.
  - destruct (c_host_only c); [by rewrite new_domain|]. destruct new_domain as (_ & _ & ?). lia.
  - destruct (p_path p) as [q|]; rewrite new_path; [|done]. destruct (Nat.leb_spec (length q) 1024); simpl; lia.
Qed.

(** The checks at the top of [store_cookie] *)
Lemma set_cookie_spec jar url p source host path dp :
  url_ok url host path dp -> parsed_valid p -> jar_ok jar ->
  exists jar', set_cookie clock jar url p source = Ret jar' /\ jar_wf jar'
    /\ ((jar_map jar' = jar_map jar /\ dirty_map jar' = dirty_map jar)
        \/ exists c c', new_from jar p url host dp source (clock (tick jar)) c /\ entry_ok (key_of c) c
            /\ (c' = c \/ exists old, jar_map jar !! key_of c = Some old
                  /\ c' = with_creation_time c (c_creation_time old))
            /\ jar_map jar'
               = purged (clock (S (S (tick jar)))) (stored (clock (S (tick jar))) (jar_map jar) (key_of c) c')
            /\ (dirty_map jar' = dirty_map jar \/ dirty_map jar' = <[key_of c := c']> (dirty_map jar))).
Proof.
  intros Hurl Hp Hjar. unfold set_cookie. rewrite (url_host _ _ _ _ Hurl). cbn [res_bind]. unfold store_cookie.
  pose proof (jar_ok_wf _ Hjar) as Hwf.
  destruct (sv_is_empty (p_name p) && sv_is_empty (p_value p)) eqn:Eempty; [eauto 10|].
  destruct (cookie_contains_invalid_control_character (p_name p)) eqn:Ecn; [eauto 10|].
  destruct (cookie_contains_invalid_control_character (p_value p)) eqn:Ecv; [eauto 10|].
  destruct (Nat.ltb_spec 4096 (length (p_name p) + length (p_value p))) as [|Hsize]; [eauto 10|].
  unfold now. set (jar1 := mkJar _ _ _ _).
  destruct (new_cookie_spec jar1 p url host dp source (clock (tick jar))) as (o & -> & Ho);
    [apply Hurl..|by apply (jar_entries_fit jar)|]. cbn [res_bind].
  destruct o as [c|]; [|exists jar1; split_and!; [done|done|by left]]. specialize (Ho c eq_refl).
  destruct (insert_cookie_spec clock jar1 c source Hwf) as (jar' & -> & Hwf' & Hcases).
  exists jar'. split; [done|]. split; [done|]. destruct Hcases as [(-> & _)|(c' & Hc' & Hm & Hd & _)]; [by left|right].
  exists c, c'. split; [by destruct Ho; split|]. split; [|done].
  split_and!; [done| |by eapply new_fits]. destruct Ho. split; rewrite ?new_name, ?new_value; try done.
  - destruct (p_name p), (p_value p); try done; [by right|by left|by left].
  - apply Hp.
  - apply Hp.
  - by eapply cookie_expiry_valid.
Qed.

Lemma set_cookie_ok jar url p source host path dp :
  url_ok url host path dp -> parsed_valid p -> jar_ok jar ->
  exists jar', set_cookie clock jar url p source = Ret jar' /\ jar_ok jar'.
Proof.
  intros Hurl Hp Hjar. destruct (set_cookie_spec jar url p source host path dp Hurl Hp Hjar) as (jar' & -> & Hwf' & Hc).
  exists jar'. split; [done|]. destruct Hjar as [Hwf Hcs Hds].
  destruct Hc as [[Hm Hd]|(c & c' & _ & Hok & Hc' & Hm & Hd)]; [by split; rewrite ?Hm, ?Hd|].
  assert (Hok' : entry_ok (key_of c) c').
  { destruct Hc' as [->|(old & _ & ->)]; [done|by apply entry_ok_creation]. }
  split; [done|rewrite Hm; by apply purged_all, stored_all|].
  destruct Hd as [-> | ->]; [done|by apply map_Forall_insert_2].
Qed.

(** ** Retrieving *)

(** The access time of the retrieved cookies *)
Definition touched (url : URL) (host : bytes) (source : Source) (t : UnixDateTime) (c : Cookie) : Cookie :=
  if retrieved url host source c then with_last_access_time c t else c.

Record url_readable (url : URL) (host path : bytes) : Prop := {
  readable_host : canonicalize_domain url = Ret (Some host);
  readable_path : serialize_path url = Ret path;
  readable_host_fits : Z.of_nat (length host) < 2 ^ 64;
  readable_path_fits : Z.of_nat (length path) < 2 ^ 64
}.

Lemma jar_values jar : mi_ok (m_cookies jar) -> (mi_entries (m_cookies jar)).*2 ≡ₚ (map_to_list (jar_map jar)).*2.
Proof. intros Hok. unfold jar_map, mi_map. rewrite map_to_list_to_map; [done|]. by apply mi_keys. Qed.

Lemma filter_Permutation (f : Cookie -> bool) l l' : l ≡ₚ l' -> List.filter f l ≡ₚ List.filter f l'.
Proof.
  induction 1 as [|x l l' _ IH|x y l|]; cbn; [done| | |by etrans].
  - destruct (f x); by rewrite IH.
  - destruct (f x), (f y); done || apply Permutation_swap.
Qed.

(** The cookies of a map that a retrieval gives out *)
Definition selected (url : URL) (host : bytes) (source : Source) (t : UnixDateTime) g : list Cookie :=
  (fun c => with_last_access_time c t) <$> List.filter (retrieved url host source) (map_to_list g).*2.

Lemma get_matching_spec jar url host path source :
  url_readable url host path -> jar_wf jar ->
  exists l jar', get_matching_cookies clock jar url host source RFC6265 = Ret (l, jar') /\ jar_wf jar'
    /\ StronglySorted in_order l /\ l ≡ₚ selected url host source (clock (tick jar)) (jar_map jar)
    /\ jar_map jar' = purged (clock (S (tick jar))) (touched url host source (clock (tick jar)) <$> jar_map jar)
    /\ m_dirty_cookies jar' = m_dirty_cookies jar /\ tick jar' = S (S (tick jar)).
Proof.
  intros [_ Hpath Hlh Hlp] Hwf. pose proof Hwf as [Hok Hdirty]. unfold get_matching_cookies, now. cbn [m_cookies].
  destruct (matching_loop_spec url path host source (clock (tick jar)) Hpath Hlp Hlh
              (mi_entries (m_cookies jar)).*2 []) as (l & -> & Hl & Hsorted); [constructor|]. cbn [res_bind].
  set (m1 := mi_modify _ _). set (jar1 := with_cookies _ m1).
  assert (Hm1 : mi_ok m1 /\ mi_map m1 = touched url host source (clock (tick jar)) <$> jar_map jar).
  { subst m1. split; [by apply mi_modify_ok|]. rewrite mi_modify_map by done. apply map_eq. intros k.
    rewrite map_lookup_imap, lookup_fmap. unfold jar_map. destruct (mi_map (m_cookies jar) !! k) as [c|]; [|done].
    cbn. unfold touched. rewrite (retrieved_ret url path host source Hpath Hlp Hlh c).
    by destruct (retrieved url host source c). }
  destruct Hm1 as [Hok1 Hm1].
  destruct (purge_spec clock jar1) as (jar' & -> & Hwf' & Hm' & Hd' & Ht'); [by split|]. cbn [res_bind].
  exists l, jar'. split_and!; try done; [|by rewrite Hm'; unfold jar_map at 1; cbn; rewrite Hm1].
  rewrite Hl. unfold selected. apply fmap_Permutation, filter_Permutation. by apply jar_values.
Qed.

(** ** Serializing *)

Definition cookie_text (c : Cookie) : bytes :=
  (if sv_is_empty (c_name c) then [] else c_name c ++ [ch "="]) ++ c_value c.

(** The texts with a semicolon and a space between them *)
Fixpoint cookie_string (l : list Cookie) : bytes :=
  match l with
  | [] => []
  | [c] => cookie_text c
  | c :: l => cookie_text c ++ sv "; " ++ cookie_string l
  end.

Lemma serialize_cookies_step c l builder :
  serialize_cookies (c :: l) builder
  = serialize_cookies l ((if sv_is_empty builder then [] else builder ++ sv "; ") ++ cookie_text c).
Proof.
  cbn [serialize_cookies]. f_equal. unfold cookie_text.
  destruct builder as [|b builder], (c_name c) as [|x name], (c_value c) as [|y value];
    cbn [sv_is_empty negb app]; rewrite ?app_nil_r, <- ?app_assoc; try done.
  cbn. by rewrite <- !app_assoc.
Qed.

Lemma cookie_text_not_empty c : c_name c <> [] \/ c_value c <> [] -> cookie_text c <> [].
Proof. unfold cookie_text. destruct (c_name c), (c_value c); cbn; intros [?|?]; done. Qed.

Lemma serialize_cookies_spec l builder :
  builder <> [] -> Forall (fun c => cookie_text c <> []) l ->
  serialize_cookies l builder = builder ++ (match l with [] => [] | _ => sv "; " ++ cookie_string l end).
Proof.
  intros Hb Hl. revert builder Hb. induction Hl as [|c l Hc Hl IH]; intros builder Hb.
  { cbn. by rewrite app_nil_r. }
  rewrite serialize_cookies_step. replace (sv_is_empty builder) with false by (by destruct builder).
  rewrite IH by (by destruct builder). destruct l; cbn [cookie_string]; by rewrite ?app_nil_r, <- ?app_assoc.
Qed.

Lemma serialize_cookies_all l :
  Forall (fun c => cookie_text c <> []) l -> serialize_cookies l [] = cookie_string l.
Proof.
  destruct 1 as [|c l Hc Hl]; [done|]. rewrite serialize_cookies_step. cbn [sv_is_empty app].
  rewrite serialize_cookies_spec by done. destruct l; cbn [cookie_string]; [by rewrite app_nil_r|done].
Qed.

Lemma cookie_string_well_formed l : Forall cookie_ok l -> well_formed_utf8 (cookie_string l).
Proof.
  assert (Htext : forall c, cookie_ok c -> well_formed_utf8 (cookie_text c)).
  { intros c []. unfold cookie_text. apply well_formed_app; [|done]. destruct (sv_is_empty (c_name c)); [by exists []|].
    apply well_formed_app; [done|]. apply well_formed_ascii. by repeat constructor. }
  induction 1 as [|c [|c' l] Hc Hl IH]; [by exists []|by apply Htext|].
  cbn [cookie_string]. apply well_formed_app; [by apply Htext|]. apply well_formed_app; [|done].
  apply well_formed_ascii. by repeat constructor.
Qed.

(** ** The operations return and keep the rules *)

Lemma purge_ok jar :
  jar_ok jar ->
  exists jar', purge_expired_cookies clock jar None = Ret (clock (tick jar), jar') /\ jar_ok jar'
    /\ jar_map jar' = purged (clock (tick jar)) (jar_map jar) /\ tick jar' = S (tick jar).
Proof.
  intros [Hwf Hc Hd]. destruct (purge_spec clock jar Hwf) as (jar' & -> & Hwf' & Hm & Hd' & Ht).
  exists jar'. split_and!; try done. split; [done|rewrite Hm; by apply purged_all|].
  unfold dirty_map. by rewrite Hd'.
Qed.

Lemma selected_elem url host path source t g c :
  url_readable url host path ->
  c ∈ selected url host source t g
  <-> exists k c0, g !! k = Some c0 /\ retrieves url path host source c0 /\ c = with_last_access_time c0 t.
Proof.
  intros [_ Hpath Hlh Hlp]. unfold selected. rewrite list_elem_of_fmap. split.
  - intros (c0 & -> & Hin%list_elem_of_In%filter_In). destruct Hin as [Hin Hr].
    apply list_elem_of_In, list_elem_of_fmap in Hin as ([k c1] & -> & Hin%elem_of_map_to_list).
    exists k, c1. split_and!; try done. by apply (retrieved_iff url path host source Hpath Hlp Hlh).
  - intros (k & c0 & Hk & Hr & ->). exists c0. split; [done|]. apply list_elem_of_In, filter_In. split.
    + apply list_elem_of_In, list_elem_of_fmap. exists (k, c0). split; [done|]. by apply elem_of_map_to_list.
    + by apply (retrieved_iff url path host source Hpath Hlp Hlh).
Qed.

Lemma touched_all url host source t g : map_Forall entry_ok g -> map_Forall entry_ok (touched url host source t <$> g).
Proof.
  intros Hg k c Hk. apply lookup_fmap_Some in Hk as (c0 & <- & Hk). specialize (Hg k c0 Hk). unfold touched.
  destruct (retrieved url host source c0); [by apply entry_ok_access|done].
Qed.

Lemma get_matching_ok jar url host path source :
  url_readable url host path -> jar_ok jar ->
  exists l jar', get_matching_cookies clock jar url host source RFC6265 = Ret (l, jar') /\ jar_ok jar'
    /\ Forall cookie_ok l.
Proof.
  intros Hurl Hjar. pose proof Hjar as [Hwf Hc Hd].
  destruct (get_matching_spec jar url host path source Hurl Hwf) as (l & jar' & -> & Hwf' & _ & Hl & Hm & Hd' & _).
  exists l, jar'. split_and!; [done| |].
  - split; [done|rewrite Hm; by apply purged_all, touched_all|]. unfold dirty_map. by rewrite Hd'.
  - rewrite Hl. apply Forall_forall. intros c Hin.
    apply (selected_elem url host path) in Hin as (k & c0 & Hk & _ & ->); [|done].
    apply (entry_ok_access k c0), Hc, Hk.
Qed.

Lemma get_cookie_spec jar (url : URL) (host path : bytes) (source : Source) :
  url_readable url host path -> jar_ok jar ->
  let unexpired := purged (clock (tick jar)) (jar_map jar) in
  let t := clock (S (tick jar)) in
  exists l jar', get_cookie clock jar url source = Ret (cookie_string l, jar') /\ jar_ok jar'
    /\ (forall c, c ∈ l <-> exists k c0, unexpired !! k = Some c0 /\ retrieves url path host source c0
                                       /\ c = with_last_access_time c0 t)
    /\ l ≡ₚ selected url host source t unexpired
    /\ StronglySorted in_order l
    /\ jar_map jar' = purged (clock (S (S (tick jar)))) (touched url host source t <$> unexpired).
Proof.
  intros Hurl Hjar unexpired t. unfold get_cookie.
  destruct (purge_ok jar Hjar) as (jar1 & -> & Hjar1 & Hm1 & Ht1). cbn [res_bind].
  rewrite (readable_host _ _ _ Hurl). cbn [res_bind].
  destruct (get_matching_ok jar1 url host path source Hurl Hjar1) as (l & jar' & E & Hjar' & Hl).
  destruct (get_matching_spec jar1 url host path source Hurl (jar_ok_wf _ Hjar1))
    as (l' & jar'' & E' & _ & Hsorted & Hperm & Hm & _). rewrite E in E'. injection E' as <- <-.
  rewrite E. cbn [res_bind]. rewrite Hm1, Ht1 in *.
  rewrite serialize_cookies_all by (eapply Forall_impl; [exact Hl|]; intros c Hc; by apply cookie_text_not_empty, Hc).
  unfold must_from_utf8. rewrite validate_well_formed by (by apply cookie_string_well_formed). cbn [verify res_bind].
  exists l, jar'. split_and!; try done. intros c. rewrite Hperm. by apply selected_elem.
Qed.

(** C23: [document.cookie] and the [Cookie] header.  For every URL with a host,
    [get_cookie] returns the texts of a list of cookies, joined by a semicolon
    and a space.  A cookie is in the list if and only if it is stored, has not
    expired, its host or domain, its path and its [Secure] and [HttpOnly] flags
    admit the retrieval; every such cookie is there once.  Longer paths come
    before shorter ones and, within a length, earlier creation times before
    later ones.  The access times of the listed cookies, and no others, are
    updated in the jar. *)
Theorem get_cookie_correct jar (url : URL) (host path : bytes) (source : Source) :
  url_readable url host path -> jar_ok jar ->
  let unexpired := purged (clock (tick jar)) (jar_map jar) in
  let t := clock (S (tick jar)) in
  exists l jar', get_cookie clock jar url source = Ret (cookie_string l, jar') /\ jar_ok jar'
    /\ (forall c, c ∈ l <-> exists k c0, unexpired !! k = Some c0 /\ retrieves url path host source c0
                                       /\ c = with_last_access_time c0 t)
    /\ l ≡ₚ selected url host source t unexpired
    /\ StronglySorted in_order l
    /\ jar_map jar' = purged (clock (S (S (tick jar)))) (touched url host source t <$> unexpired).
Proof. apply get_cookie_spec. Qed.

(** C24: A page or response that was not loaded over [https] neither replaces,
    changes nor adds a cookie with the [Secure] flag: after [set_cookie] a
    stored secure cookie is as it was, or it has expired by the clock, and
    every secure cookie of the jar was there before. *)
Theorem insecure_set_keeps_secure jar (url : URL) (p : ParsedCookie) (source : Source) (host path dp : bytes) :
  url_ok url host path dp -> parsed_valid p -> jar_ok jar -> is_https url = false ->
  exists jar', set_cookie clock jar url p source = Ret jar'
    /\ (forall k c, jar_map jar !! k = Some c -> c_secure c = true ->
          jar_map jar' !! k = Some c \/ exists n, expired (clock n) c)
    /\ (forall k c, jar_map jar' !! k = Some c -> c_secure c = true -> jar_map jar !! k = Some c).
Proof.
  intros Hurl Hp Hjar Hhttp. destruct (set_cookie_spec jar url p source host path dp Hurl Hp Hjar) as (jar' & -> & _ & Hc).
  exists jar'. split; [done|]. destruct Hc as [[Hm _]|(c & c' & Hnew & _ & Hc' & Hm & _)]; [rewrite Hm; eauto|].
  assert (Hinsecure : c_secure c' = false).
  { assert (c_secure c = false) by (destruct (c_secure c) eqn:E; [|done]; apply Hnew in E; congruence).
    by destruct Hc' as [->|(old & _ & ->)]. }
  assert (Hother : forall k old, jar_map jar !! k = Some old -> c_secure old = true -> k <> key_of c).
  { intros k old Hk Hs ->. pose proof (new_unshadowed _ _ _ _ _ _ _ _ Hnew Hhttp) as Hun.
    pose proof (jar_ok_cookies _ Hjar _ _ Hk) as (Hkey & _). injection Hkey as En Ed Ep.
    rewrite Forall_forall in Hun. apply (Hun old).
    - apply list_elem_of_fmap. exists (key_of c, old). split; [done|]. apply mi_map_entries; [apply Hjar|done].
    - split_and!; [done|done|by left; left|by left]. }
  split.
  - intros k old Hk Hs. rewrite Hm. unfold purged. destruct (Duration_lt (c_expiry_time old) (clock (S (S (tick jar))))) eqn:E.
    { right. eauto. }
    left. apply map_lookup_filter_Some. split; [|done]. unfold stored. destruct (_ && _); [done|].
    rewrite lookup_insert_ne; [done|]. intros <-. by eapply Hother.
  - intros k old Hk Hs. rewrite Hm in Hk. apply map_lookup_filter_Some in Hk as [Hk _]. unfold stored in Hk.
    destruct (_ && _); [done|]. apply lookup_insert_Some in Hk as [[_ ->]|[_ ?]]; [congruence|done].
Qed.

(** ** Sequences of operations *)

Inductive jar_operation :=
  | OpSetCookie (url : URL) (p : ParsedCookie) (source : Source)
  | OpGetCookie (url : URL) (source : Source)
  | OpUpdateCookie (c : Cookie)
  | OpGetAllWebdriver (url : URL)
  | OpGetAllCookieStore (url : URL)
  | OpGetNamedCookie (url : URL) (name : bytes)
  | OpExpireWithOffset (offset : Duration)
  | OpExpireAccessedSince (since : UnixDateTime)
  | OpSynchronize.

Definition jar_step jar (op : jar_operation) : res (CookieJar M) :=
  match op with
  | OpSetCookie url p source => set_cookie clock jar url p source
  | OpGetCookie url source => let* (_, jar) := get_cookie clock jar url source in Ret jar
  | OpUpdateCookie c => update_cookie clock jar c
  | OpGetAllWebdriver url => let* (_, jar) := get_all_cookies_webdriver clock jar url in Ret jar
  | OpGetAllCookieStore url => let* (_, jar) := get_all_cookies_cookiestore clock jar url in Ret jar
  | OpGetNamedCookie url name => let* (_, jar) := get_named_cookie clock jar url name in Ret jar
  | OpExpireWithOffset offset => expire_cookies_with_time_offset clock jar offset
  | OpExpireAccessedSince since => expire_cookies_accessed_since clock jar since
  | OpSynchronize => let* (_, jar) := synchronize clock jar in Ret jar
  end.

Fixpoint run_jar jar (ops : list jar_operation) : res (CookieJar M) :=
  match ops with
  | [] => Ret jar
  | op :: ops => let* jar := jar_step jar op in run_jar jar ops
  end.

(** The arguments that the callers give *)
Definition op_ok (op : jar_operation) : Prop :=
  match op with
  | OpSetCookie url p _ => parsed_valid p /\ exists host path dp, url_ok url host path dp
  | OpGetCookie url _ | OpGetAllWebdriver url | OpGetAllCookieStore url | OpGetNamedCookie url _ =>
      exists host path, url_readable url host path
  | OpUpdateCookie c => cookie_ok c /\ fits c
  | OpExpireWithOffset offset => valid_duration offset
  | OpExpireAccessedSince _ | OpSynchronize => True
  end.

Lemma update_cookie_ok jar c :
  cookie_ok c -> fits c -> jar_ok jar -> exists jar', update_cookie clock jar c = Ret jar' /\ jar_ok jar'.
Proof.
  intros Hc Hf [[Hok Hd] Hcs Hds]. unfold update_cookie, storage_get_cookie. rewrite mi_get_ok by done. cbn [res_bind].
  set (c' := match mi_map (m_cookies jar) !! key_of c with Some _ => _ | None => _ end).
  assert (Hc' : entry_ok (key_of c) c').
  { subst c'. destruct (mi_map (m_cookies jar) !! key_of c); [|done]. destruct (Bool.eqb _ _); [|done].
    by apply entry_ok_creation. }
  destruct (storage_set_spec clock jar (key_of c) c') as (jar1 & -> & Hwf1 & Hm1 & Hd1 & _); [done|]. cbn [res_bind].
  destruct (purge_ok jar1) as (jar2 & -> & Hjar2 & _).
  { split; [done|rewrite Hm1; by apply stored_all|]. destruct Hd1 as [-> | ->]; [done|by apply map_Forall_insert_2]. }
  cbn [res_bind]. eauto.
Qed.

Lemma get_matching_webdriver_ok jar url host path source :
  url_readable url host path -> jar_ok jar ->
  exists l jar', get_matching_cookies clock jar url host source WebDriver = Ret (l, jar') /\ jar_ok jar'.
Proof.
  intros [_ Hpath Hlh Hlp] Hjar. unfold get_matching_cookies, now.
  rewrite (matching_loop_webdriver url path host source (clock (tick jar)) Hpath Hlp Hlh). cbn [res_bind].
  do 2 eexists. split; [done|]. destruct Hjar. by split.
Qed.

(** ** Setting and getting back *)

Lemma prefix_rules_accept p c :
  (c_same_site c = SameSite_None -> c_secure c = true) ->
  (prefixed (sv "__Secure-") (c_name c) -> c_secure c = true) ->
  (prefixed (sv "__Host-") (c_name c) -> c_secure c = true /\ c_host_only c = true /\ forall q, p_path p = Some q -> q = sv "/") ->
  (c_name c = [] -> ~ prefixed (sv "__Secure-") (c_value c) /\ ~ prefixed (sv "__Host-") (c_value c)) ->
  passes_prefix_rules p c = Ret true.
Proof.
  intros Hsame Hs Hh Hv. unfold passes_prefix_rules.
  replace (match c_same_site c with SameSite_None => _ | _ => _ end) with false
    by (destruct (c_same_site c); try done; by rewrite Hsame).
  destruct (has_prefix_spec (c_name c) (sv "__Secure-")) as (b1 & -> & Hb1).
  destruct (has_prefix_spec (c_name c) (sv "__Host-")) as (b2 & -> & Hb2). cbn [res_bind].
  replace (b1 && negb (c_secure c)) with false by (destruct b1; [by rewrite Hs by (by apply Hb1)|done]).
  assert (Hhost : b2 && (negb (c_secure c) || negb (c_host_only c)
                         || match p_path p with Some path => negb (sv_eqb path (sv "/")) | None => false end) = false).
  { destruct b2; [|done]. destruct Hh as (-> & -> & Hq); [by apply Hb2|]. destruct (p_path p) as [q|]; [|done]. by rewrite (Hq q eq_refl). }
  rewrite Hhost. destruct (c_name c) as [|x name] eqn:En; cbn [sv_is_empty]; [|done].
  destruct Hv as [Hv1 Hv2]; [done|].
  destruct (has_prefix_spec (c_value c) (sv "__Secure-")) as ([] & -> & Hb3); [by exfalso; apply Hv1, Hb3|].
  cbn [res_bind].
  by destruct (has_prefix_spec (c_value c) (sv "__Host-")) as ([] & -> & Hb4); [exfalso; apply Hv2, Hb4|].
Qed.

(** The path a cookie gets: the attribute, or the default path *)
Definition path_for (p : ParsedCookie) (dp : bytes) : bytes := default dp (p_path p).

(** A cookie that the storage model keeps, whose domain and path match those of
    the URL it is set from *)
Record plain_cookie (p : ParsedCookie) (host path dp : bytes) (persistent : bool) (t : UnixDateTime) : Prop := {
  plain_valid : parsed_valid p;
  plain_not_empty : p_name p <> [] \/ p_value p <> [];
  plain_name_controls : cookie_contains_invalid_control_character (p_name p) = false;
  plain_value_controls : cookie_contains_invalid_control_character (p_value p) = false;
  plain_size : (length (p_name p) + length (p_value p) <= 4096)%nat;
  plain_domain domain : p_domain p = Some domain ->
    domain <> [] /\ (length domain <= 1024)%nat /\ sv_is_ascii domain = true /\ domain_match host domain;
  plain_suffix : is_rule (default [] (p_domain p)) = false;
  plain_path_size q : p_path p = Some q -> (length q <= 1024)%nat;
  plain_path_match : path_match path (path_for p dp);
  plain_same_site : p_same_site_attribute p = SameSite_None -> p_secure_attribute_present p = true;
  plain_secure_prefix : prefixed (sv "__Secure-") (p_name p) -> p_secure_attribute_present p = true;
  plain_host_prefix : prefixed (sv "__Host-") (p_name p) ->
    p_secure_attribute_present p = true /\ p_domain p = None /\ forall q, p_path p = Some q -> q = sv "/";
  plain_nameless : p_name p = [] ->
    ~ prefixed (sv "__Secure-") (p_value p) /\ ~ prefixed (sv "__Host-") (p_value p);
  plain_expiry : cookie_expiry p = Ret (persistent, t)
}.

Definition plain_result (p : ParsedCookie) (host dp : bytes) (persistent : bool) (t created : UnixDateTime) : Cookie :=
  mkCookie (p_name p) (p_value p) (p_same_site_attribute p) created created t (default host (p_domain p)) (path_for p dp)
    (p_secure_attribute_present p) (p_http_only_attribute_present p) (match p_domain p with None => true | Some _ => false end) persistent.

Lemma plain_cookie_new jar p url host path dp persistent t created :
  plain_cookie p host path dp persistent t -> url_ok url host path dp -> is_https url = true ->
  new_cookie jar p url host Http created = Ret (Some (plain_result p host dp persistent t created)).
Proof.
  intros [] Hurl Hhttps. unfold new_cookie.
  assert (Hdomain : cookie_domain p host = Ret (Some (match p_domain p with None => true | Some _ => false end, default host (p_domain p)))).
  { unfold cookie_domain. rewrite is_public_suffix_ok. destruct (p_domain p) as [domain|]; cbn [default from_option id] in *.
    - destruct (plain_domain0 domain eq_refl) as (Hne & Hsize & Hascii & Hmatch). rewrite (proj2 (Nat.leb_le _ _)) by done.
      rewrite Hascii. change (from_option id [] (Some domain)) with domain in plain_suffix0. rewrite plain_suffix0. cbn [negb res_bind].
      destruct domain as [|c domain]; [done|]. cbn [sv_is_empty negb].
      destruct (domain_matches_spec host (c :: domain)) as (b & -> & Hb); [apply Hurl|]. cbn [res_bind]. by rewrite (proj2 Hb Hmatch).
    - change (from_option id [] None) with (@nil Z) in plain_suffix0. by rewrite plain_suffix0. }
  assert (Hpath : cookie_path p url = Ret (path_for p dp)).
  { unfold cookie_path, path_for. destruct (p_path p) as [q|]; [|apply Hurl]. by rewrite (proj2 (Nat.leb_le _ _)) by auto. }
  rewrite plain_expiry0. cbn [res_bind]. rewrite Hdomain. cbn [res_bind]. rewrite Hpath. cbn [res_bind]. rewrite Hhttps.
  cbn [negb res_bind c_secure c_http_only]. rewrite !andb_false_r. cbn [res_bind].
  rewrite prefix_rules_accept; try done. cbn. intros Hh. destruct (plain_host_prefix0 Hh) as (-> & -> & Hq). done.
Qed.

Lemma plain_cookie_stored jar url p host path dp persistent t :
  url_ok url host path dp -> jar_ok jar -> is_https url = true ->
  plain_cookie p host path dp persistent t -> (forall n, Duration_lt t (clock n) = false) ->
  exists k c jar', set_cookie clock jar url p Http = Ret jar' /\ jar_map jar' !! k = Some c
    /\ c_name c = p_name p /\ c_value c = p_value p /\ c_expiry_time c = t
    /\ retrieves url path host Http c.
Proof.
  intros Hurl Hjar Hhttps Hplain Ht. unfold set_cookie. rewrite (url_host _ _ _ _ Hurl). cbn [res_bind].
  unfold store_cookie. pose proof Hplain as [].
  replace (sv_is_empty (p_name p) && sv_is_empty (p_value p)) with false
    by (by destruct plain_not_empty0, (p_name p), (p_value p)).
  rewrite plain_name_controls0, plain_value_controls0, (proj2 (Nat.ltb_ge _ _)) by done.
  unfold now. set (jar1 := mkJar _ _ _ _). rewrite (plain_cookie_new jar1 p url host path dp persistent t) by done.
  cbn [res_bind]. set (c := plain_result _ _ _ _ _ _).
  destruct (insert_cookie_spec clock jar1 c Http (jar_ok_wf _ Hjar)) as (jar' & -> & _ & Hcases).
  destruct Hcases as [(_ & [=] & _)|(c' & Hc' & Hm & _)]. exists (key_of c), c', jar'. split; [done|].
  assert (Hfields : c_name c' = p_name p /\ c_value c' = p_value p /\ c_expiry_time c' = t
                    /\ retrieves url path host Http c').
  { assert (Hr : retrieves url path host Http c).
    { split; cbn; try done; [|intros _; left; by apply sv_eqb_true].
      destruct (p_domain p) as [domain|]; [by apply (plain_domain0 domain)|done]. }
    destruct Hc' as [->|(old & _ & ->)]; [done|]. split_and!; try done. by destruct Hr; split. }
  split_and!; try apply Hfields. rewrite Hm. unfold purged. apply map_lookup_filter_Some.
  destruct Hfields as (_ & _ & He & _). cbn. rewrite He. split; [|apply Ht]. unfold stored. rewrite He, Ht.
  cbn [andb]. apply lookup_insert_eq.
Qed.


(** ** Expiring the cookies accessed since a time *)

Definition accessed_since (since : UnixDateTime) (c : Cookie) : bool := negb (Duration_lt (c_last_access_time c) since).

Definition forgotten (c : Cookie) : Cookie := with_expiry_time c UnixDateTime_earliest.

Lemma forgotten_ok k c : entry_ok k c -> entry_ok k (forgotten c).
Proof. apply entry_ok_expiry. vm_compute. repeat split; discriminate. Qed.

Context (clock_late : forall n, Duration_lt UnixDateTime_earliest (clock n) = true).

(** One round of the loop *)
Lemma forget_one jar k c :
  jar_ok jar -> mi_reallocates (m_cookies jar) = false -> jar_map jar !! k = Some c ->
  let jar1 := with_cookies jar (mi_modify (m_cookies jar) (fun k' v => if decide (k' = k) then forgotten c else v)) in
  exists jar', mi_reallocates (m_cookies jar1) = false /\ storage_set_cookie clock jar1 k (forgotten c) = Ret jar'
    /\ jar_ok jar' /\ mi_reallocates (m_cookies jar') = false /\ jar_map jar' = <[k := forgotten c]> (jar_map jar)
    /\ tick jar' = S (tick jar).
Proof.
  intros [[Hok Hd] Hcs Hds] Hre Hk jar1. specialize (Hcs k c Hk) as Hc. apply forgotten_ok in Hc.
  destruct (mi_modify_ok (m_cookies jar) (fun k' v => if decide (k' = k) then forgotten c else v) Hok) as (Hok1 & Hre1 & _).
  set (m1 := mi_modify _ _) in *.
  assert (Hm1 : mi_map m1 = <[k := forgotten c]> (jar_map jar)).
  { unfold m1. rewrite mi_modify_map by done. apply map_eq. intros k'. rewrite map_lookup_imap.
    change (mi_map (m_cookies jar)) with (jar_map jar). destruct (decide (k' = k)) as [->|Hne].
    - by rewrite Hk, lookup_insert_eq.
    - rewrite lookup_insert_ne by done. by destruct (jar_map jar !! k'). }
  assert (Hin : is_Some (mi_map m1 !! k)) by (rewrite Hm1, lookup_insert_eq; done).
  destruct (mi_set_in_place m1 k (forgotten c)) as (m2 & Hset & Hok2 & Hre2 & _); [done|by rewrite Hre1|done|].
  destruct (mi_set_ok m1 k (forgotten c) Hok1) as (m2' & Hset' & _ & Hm2). rewrite Hset in Hset'. injection Hset' as <-.
  destruct (mi_set_ok (m_dirty_cookies jar) k (forgotten c) Hd) as (d2 & Hsetd & Hokd & Hmd).
  unfold storage_set_cookie, now, jar1, with_cookies. cbn [m_cookies m_dirty_cookies tick].
  change (c_expiry_time (forgotten c)) with UnixDateTime_earliest. rewrite clock_late.
  rewrite mi_contains_ok, bool_decide_eq_true_2 by done. cbn [res_bind negb]. rewrite Hset. cbn [res_bind m_dirty_cookies].
  rewrite Hsetd. cbn [res_bind]. eexists. split; [by rewrite Hre1|]. split; [done|].
  assert (Hmap : mi_map m2 = <[k := forgotten c]> (jar_map jar)).
  { rewrite Hm2, Hm1. apply map_eq. intros k'. destruct (decide (k' = k)) as [->|Hne];
      [by rewrite !lookup_insert_eq|by rewrite !lookup_insert_ne]. }
  split_and!; try done. split; [done| |]; unfold jar_map, dirty_map; cbn; rewrite ?Hmap, ?Hmd; by apply map_Forall_insert_2.
Qed.

Lemma expire_loop_spec since todo jar :
  jar_ok jar -> mi_reallocates (m_cookies jar) = false -> NoDup todo.*1 ->
  Forall (fun e => jar_map jar !! e.1 = Some e.2) todo ->
  exists jar', expire_loop clock since todo jar = Ret jar' /\ jar_ok jar'
    /\ forall k c, jar_map jar' !! k = Some c <->
         exists c0, jar_map jar !! k = Some c0
           /\ c = if bool_decide (k ∈ todo.*1) && accessed_since since c0 then forgotten c0 else c0.
Proof.
  revert jar. induction todo as [|[k v] todo IH]; intros jar Hjar Hre Hnd Hall; cbn [expire_loop].
  { exists jar. split_and!; [done|done|]. intros k c. rewrite bool_decide_eq_false_2 by (by apply not_elem_of_nil).
    split; [eauto|by intros (? & ? & ->)]. }
  apply Forall_cons in Hall as [Hk Hall]. cbn [fst snd] in Hk. rewrite fmap_cons in Hnd. apply NoDup_cons in Hnd as [Hni Hnd].
  assert (Hmem : forall k', bool_decide (k' ∈ (k :: todo.*1)) = bool_decide (k' = k) || bool_decide (k' ∈ todo.*1)).
  { intros k'. destruct (decide (k' = k)) as [->|Hne].
    - rewrite (bool_decide_eq_true_2 (k = k)) by done. apply bool_decide_eq_true_2. by left.
    - rewrite (bool_decide_eq_false_2 (k' = k)) by done. apply bool_decide_ext. rewrite elem_of_cons. tauto. }
  fold (accessed_since since v). rewrite fmap_cons. cbn [fst]. destruct (accessed_since since v) eqn:Ea.
  - destruct (forget_one jar k v Hjar Hre Hk) as (jar1 & Hre1 & Hset & Hjar1 & Hre1' & Hm1 & _).
    unfold forgotten in Hre1, Hset. rewrite Hre1, Hset. cbn [res_bind].
    destruct (IH jar1 Hjar1 Hre1' Hnd) as (jar' & -> & Hjar' & Hiff).
    { rewrite Forall_forall in *. intros e He. rewrite Hm1, lookup_insert_ne; [by apply Hall|].
      intros ->. apply Hni, list_elem_of_fmap. by exists e. }
    exists jar'. split_and!; [done|done|]. intros k' c. rewrite Hiff, Hm1, Hmem.
    destruct (decide (k' = k)) as [->|Hne].
    + rewrite lookup_insert_eq, Hk. rewrite (bool_decide_eq_false_2 (k ∈ _)), (bool_decide_eq_true_2 (k = k)) by done.
      cbn [orb andb]. split; intros (? & [= <-] & ->); [exists v; by rewrite Ea|exists (forgotten v); by rewrite Ea].
    + rewrite lookup_insert_ne by done. by rewrite (bool_decide_eq_false_2 (k' = k)).
  - destruct (IH jar Hjar Hre Hnd Hall) as (jar' & -> & Hjar' & Hiff).
    exists jar'. split_and!; [done|done|]. intros k' c. rewrite Hiff, Hmem.
    destruct (decide (k' = k)) as [->|Hne]; [|by rewrite (bool_decide_eq_false_2 (k' = k))].
    rewrite Hk. split; intros (? & [= <-] & ->); exists v; by rewrite Ea, !andb_false_r.
Qed.

Lemma expire_loop_crashes since todo jar :
  mi_ok (m_cookies jar) -> mi_reallocates (m_cookies jar) = true ->
  Exists (fun e => accessed_since since e.2 = true) todo -> expire_loop clock since todo jar = Crash.
Proof.
  intros Hok Hre. induction todo as [|[k v] todo IH]; [by rewrite Exists_nil|].
  rewrite Exists_cons. cbn [expire_loop fst snd]. fold (accessed_since since v).
  destruct (accessed_since since v); [|intros [?|?]; [done|by apply IH]]. intros _.
  cbn [with_cookies m_cookies]. by rewrite (proj1 (proj2 (mi_modify_ok _ _ Hok))), Hre.
Qed.

(** "Clear browsing data".  When the map of cookies has room for one more
    entry, expiring the cookies accessed since a time returns, the jar keeps the
    rules, and exactly the cookies accessed before that time and not expired
    are left, as they were. *)
Theorem expire_accessed_since_correct jar (since : UnixDateTime) :
  jar_ok jar -> mi_reallocates (m_cookies jar) = false ->
  exists jar' t, expire_cookies_accessed_since clock jar since = Ret jar' /\ jar_ok jar'
    /\ (exists n, t = clock n)
    /\ forall k c, jar_map jar' !! k = Some c
         <-> jar_map jar !! k = Some c /\ accessed_since since c = false /\ Duration_lt (c_expiry_time c) t = false.
Proof.
  intros Hjar Hre. unfold expire_cookies_accessed_since, expire_and_purge_cookies_accessed_since.
  pose proof (jar_ok_wf _ Hjar) as [Hok _].
  assert (Hkeys : forall k c, jar_map jar !! k = Some c -> k ∈ (mi_entries (m_cookies jar)).*1).
  { intros k c Hk. apply mi_map_entries in Hk; [|done]. apply list_elem_of_fmap. by exists (k, c). }
  destruct (expire_loop_spec since (mi_entries (m_cookies jar)) jar Hjar Hre) as (jar1 & -> & Hjar1 & Hiff).
  { by apply mi_keys. }
  { apply Forall_forall. intros [k c] Hin. by apply mi_map_entries. }
  cbn [res_bind]. destruct (purge_ok jar1 Hjar1) as (jar2 & -> & Hjar2 & Hm2 & _). cbn [res_bind].
  exists jar2, (clock (tick jar1)). split_and!; [done|done|eauto|]. intros k c. rewrite Hm2.
  unfold purged. rewrite map_lookup_filter_Some, Hiff. cbn. split.
  - intros [(c0 & Hk & ->) Hexp]. rewrite bool_decide_eq_true_2 in * by (by eapply Hkeys). cbn [andb] in *.
    destruct (accessed_since since c0) eqn:Ea; [|done]. unfold forgotten in Hexp. cbn in Hexp. by rewrite clock_late in Hexp.
  - intros (Hk & Ha & Hexp). split; [|done]. exists c. split; [done|]. by rewrite Ha, andb_false_r.
Qed.

(** The same operation on a map that is about to grow: as soon as one
    cookie was accessed since the time, the loop sets an entry of the map it
    iterates over, which moves the entries, and goes on with an iterator into
    the memory that was freed. *)
Theorem expire_accessed_since_moves_entries jar (since : UnixDateTime) (k : CookieStorageKey) (c : Cookie) :
  jar_wf jar -> mi_reallocates (m_cookies jar) = true -> jar_map jar !! k = Some c -> accessed_since since c = true ->
  expire_cookies_accessed_since clock jar since = Crash.
Proof.
  intros [Hok _] Hre Hk Hc. unfold expire_cookies_accessed_since, expire_and_purge_cookies_accessed_since.
  rewrite expire_loop_crashes; [done|done|done|]. apply Exists_exists. exists (k, c).
  split; [by apply mi_map_entries|done].
Qed.

Context (clock_valid : forall n, valid_duration (clock n)).

Lemma shift_times_ok offset cookies :
  valid_duration offset -> Forall (fun c => valid_duration (c_expiry_time c)) cookies ->
  shift_times offset cookies = Ret tt.
Proof.
  intros Ho. induction 1 as [|c cookies Hc _ IH]; [done|]. cbn [shift_times].
  destruct (duration_sub_saturating (c_expiry_time c) offset Hc Ho) as (d & -> & _). cbn [res_bind]. done.
Qed.

Lemma shift_expiry_ok offset (m : M) :
  valid_duration offset -> mi_ok m -> map_Forall entry_ok (mi_map m) ->
  exists m', shift_expiry_times offset m = Ret m' /\ mi_ok m' /\ map_Forall entry_ok (mi_map m').
Proof.
  intros Ho Hok Hm. unfold shift_expiry_times. rewrite shift_times_ok; [|done|].
  2:{ apply Forall_forall. intros c ([k c'] & -> & Hin)%list_elem_of_fmap.
      apply mi_map_entries in Hin; [|done]. by apply (Hm k c') in Hin as (_ & [] & _). }
  cbn [res_bind]. eexists. split; [done|]. split; [by apply mi_modify_ok|]. rewrite mi_modify_map by done.
  intros k c Hk. rewrite map_lookup_imap in Hk. apply bind_Some in Hk as (c0 & Hk & [= <-]).
  specialize (Hm k c0 Hk).
  destruct (duration_sub_saturating (c_expiry_time c0) offset) as (d & -> & Hd & _); [|done|by apply entry_ok_expiry].
  by destruct Hm as (_ & [] & _).
Qed.

Lemma expire_offset_ok jar offset :
  valid_duration offset -> jar_ok jar ->
  exists jar', expire_cookies_with_time_offset clock jar offset = Ret jar' /\ jar_ok jar'.
Proof.
  intros Ho [[Hok Hd] Hcs Hds]. unfold expire_cookies_with_time_offset, purge_expired_cookies, now.
  destruct (duration_add_saturating (clock (tick jar)) offset (clock_valid _) Ho) as (t & -> & _). cbn [res_bind].
  cbn [m_dirty_cookies]. destruct (shift_expiry_ok offset (m_dirty_cookies jar) Ho Hd Hds) as (m' & -> & Hok' & Hm').
  cbn [res_bind with_dirty m_cookies].
  destruct (mi_take_all_map (m_cookies jar) (fun _ c => Duration_lt (c_expiry_time c) t) Hok)
    as (taken & m1 & -> & Hok1 & Hm1 & _). cbn [res_bind].
  eexists. split; [done|]. assert (Hall : map_Forall entry_ok (mi_map m1)).
  { rewrite Hm1. intros k c [Hk _]%map_lookup_filter_Some. by apply Hcs. }
  destruct taken; by split.
Qed.

(** Expiring the cookies accessed since a time, one of which is in the jar,
    when the map of cookies is about to grow *)
Definition moves_entries jar (op : jar_operation) : Prop :=
  match op with
  | OpExpireAccessedSince since =>
      mi_reallocates (m_cookies jar) = true /\ exists k c, jar_map jar !! k = Some c /\ accessed_since since c = true
  | _ => False
  end.

Lemma expire_loop_none since todo jar :
  Forall (fun e => accessed_since since e.2 = false) todo -> expire_loop clock since todo jar = Ret jar.
Proof.
  induction 1 as [|[k v] todo Hv _ IH]; [done|]. cbn [expire_loop]. fold (accessed_since since v). cbn in Hv. by rewrite Hv.
Qed.

Lemma expire_accessed_step jar since :
  jar_ok jar ->
  (exists jar', expire_cookies_accessed_since clock jar since = Ret jar' /\ jar_ok jar')
  \/ (expire_cookies_accessed_since clock jar since = Crash /\ moves_entries jar (OpExpireAccessedSince since)).
Proof.
  intros Hjar. destruct (mi_reallocates (m_cookies jar)) eqn:Hre.
  2:{ left. destruct (expire_accessed_since_correct jar since Hjar Hre) as (jar' & t & E & Hjar' & _). eauto. }
  pose proof (jar_ok_wf _ Hjar) as Hwf. destruct (decide (Exists (fun e => accessed_since since e.2 = true) (mi_entries (m_cookies jar)))) as [Hex|Hno].
  - right. apply Exists_exists in Hex as ([k c] & Hin & Hc). apply mi_map_entries in Hin; [|apply Hwf].
    split; [by apply (expire_accessed_since_moves_entries jar since k c)|]. split; [done|]. by exists k, c.
  - left. unfold expire_cookies_accessed_since, expire_and_purge_cookies_accessed_since. rewrite expire_loop_none.
    2:{ apply not_Exists_Forall in Hno; [|apply _]. eapply Forall_impl; [exact Hno|]. intros e. cbn. apply not_true_is_false. }
    cbn [res_bind]. destruct (purge_ok jar Hjar) as (jar' & -> & Hjar' & _). cbn [res_bind]. eauto.
Qed.

Lemma jar_step_ok jar op : op_ok op -> jar_ok jar ->
  (exists jar', jar_step jar op = Ret jar' /\ jar_ok jar') \/ (jar_step jar op = Crash /\ moves_entries jar op).
Proof.
  intros Hop Hjar. destruct op as [url p source|url source|c|url|url|url name|offset|since|]; cbn [jar_step op_ok] in *; [left..| |left].
  - destruct Hop as (Hp & host & path & dp & Hurl). by eapply set_cookie_ok.
  - destruct Hop as (host & path & Hurl). unfold get_cookie.
    destruct (purge_ok jar Hjar) as (jar1 & -> & Hjar1 & _). cbn [res_bind]. rewrite (readable_host _ _ _ Hurl).
    cbn [res_bind]. destruct (get_matching_ok jar1 url host path source Hurl Hjar1) as (l & jar' & -> & Hjar' & Hl).
    cbn [res_bind].
    rewrite serialize_cookies_all by (eapply Forall_impl; [exact Hl|]; intros c Hc; by apply cookie_text_not_empty, Hc).
    unfold must_from_utf8. rewrite validate_well_formed by (by apply cookie_string_well_formed).
    cbn [verify res_bind]. eauto.
  - destruct Hop. by apply update_cookie_ok.
  - destruct Hop as (host & path & Hurl). unfold get_all_cookies_webdriver. rewrite (readable_host _ _ _ Hurl).
    cbn [res_bind]. destruct (get_matching_webdriver_ok jar url host path Http Hurl Hjar) as (l & jar' & -> & ?).
    cbn [res_bind]. eauto.
  - destruct Hop as (host & path & Hurl). unfold get_all_cookies_cookiestore. rewrite (readable_host _ _ _ Hurl).
    cbn [res_bind]. destruct (get_matching_ok jar url host path NonHttp Hurl Hjar) as (l & jar' & -> & ? & _).
    cbn [res_bind]. eauto.
  - destruct Hop as (host & path & Hurl). unfold get_named_cookie. rewrite (readable_host _ _ _ Hurl).
    cbn [res_bind]. destruct (get_matching_webdriver_ok jar url host path Http Hurl Hjar) as (l & jar' & -> & ?).
    cbn [res_bind]. eauto.
  - by apply expire_offset_ok.
  - by apply expire_accessed_step.
  - unfold synchronize. destruct (purge_ok (with_dirty jar mi_empty)) as (jar' & -> & Hjar' & _).
    { destruct Hjar as [[Hok Hd] Hc _]. split; [split; [done|apply mi_empty_ok]|done|].
      unfold dirty_map. cbn. rewrite mi_empty_map. apply map_Forall_empty. }
    cbn [res_bind]. eauto.
Qed.

Lemma empty_jar_ok n : jar_ok (empty_jar n).
Proof.
  split; [by split; apply mi_empty_ok| |]; unfold jar_map, dirty_map; cbn; rewrite mi_empty_map; apply map_Forall_empty.
Qed.

Lemma select_all_ok rows (m : M) :
  Forall (fun c => cookie_ok c /\ fits c) rows -> mi_ok m -> map_Forall entry_ok (mi_map m) ->
  exists m', select_all_cookies rows m = Ret m' /\ mi_ok m' /\ map_Forall entry_ok (mi_map m').
Proof.
  intros Hrows. revert m. induction Hrows as [|c rows [Hc Hf] _ IH]; intros m Hok Hm; [by exists m|].
  cbn [select_all_cookies]. destruct (mi_set_ok m (key_of c) c Hok) as (m1 & -> & Hok1 & Hm1). cbn [res_bind].
  apply IH; [done|]. rewrite Hm1. by apply map_Forall_insert_2.
Qed.

Lemma create_ok rows n :
  Forall (fun c => cookie_ok c /\ fits c) rows -> exists jar, create_jar clock rows n = Ret jar /\ jar_ok jar.
Proof.
  intros Hrows. unfold create_jar. destruct (select_all_ok rows mi_empty Hrows) as (m & -> & Hok & Hm).
  { apply mi_empty_ok. } { rewrite mi_empty_map. apply map_Forall_empty. }
  cbn [res_bind]. unfold storage_set_cookies.
  destruct (purge_ok (with_cookies (empty_jar n) m)) as (jar & -> & Hjar & _).
  { destruct (empty_jar_ok n) as [[_ Hd] _ Hds]. by split. }
  cbn [res_bind]. eauto.
Qed.

(** The sequence runs to its end, or is stopped by an expiry that moves the
    entries it iterates over. *)
Definition runs jar (ops : list jar_operation) : Prop :=
  (exists jar', run_jar jar ops = Ret jar' /\ jar_ok jar')
  \/ (run_jar jar ops = Crash
      /\ exists before op after jar', ops = before ++ op :: after /\ run_jar jar before = Ret jar' /\ jar_ok jar' /\ moves_entries jar' op).

Lemma run_jar_ok ops jar : Forall op_ok ops -> jar_ok jar -> runs jar ops.
Proof.
  intros Hops. revert jar. induction Hops as [|op ops Hop _ IH]; intros jar Hjar; [left; by exists jar|]. unfold runs. cbn [run_jar].
  destruct (jar_step_ok jar op Hop Hjar) as [(jar' & Hstep & Hjar')|[Hstep Hmoves]]; rewrite Hstep; cbn [res_bind].
  - destruct (IH jar' Hjar') as [?|(Hcrash & before & op' & after & jar2 & -> & Hrun & ?)]; [by left|]. right. split; [done|].
    exists (op :: before), op', after, jar2. split; [done|]. split; [|done]. cbn [run_jar]. by rewrite Hstep.
  - right. split; [done|]. by exists [], op, ops, jar.
Qed.


End theorems.

(** ** Examples: the jar over [HashMap] *)

Section examples.
Import CollidingNumbers.

Definition example_jar : Type := CookieJar (HashMap CookieStorageKey Cookie).

(** [name=value], with the path [/a] *)
Definition example_cookie (name value : bytes) : ParsedCookie :=
  mkParsed name value SameSite_Default None None None (Some (sv "/a")) false false.

Lemma jar_url_ok : url_ok example_url (sv "www.example.com") (sv "/a/b") (sv "/a").
Proof. by split. Qed.

Lemma jar_url_readable : url_readable example_url (sv "www.example.com") (sv "/a/b").
Proof. by split. Qed.

Lemma example_cookie_valid name value :
  forallb (fun x => (0 <=? x) && (x <? 128)) (name ++ value) = true -> parsed_valid (example_cookie name value).
Proof.
  rewrite forallb_app. intros [Hn Hv]%andb_true_iff.
  assert (Htext : forall s, forallb (fun x => (0 <=? x) && (x <? 128)) s = true -> well_formed_utf8 s).
  { intros s Hs. apply well_formed_ascii, List.Forall_forall. intros x Hx.
    rewrite forallb_forall in Hs. specialize (Hs x Hx). cbn in Hs. lia. }
  split; [by apply Htext|by apply Htext|done|done].
Qed.

Definition one_cookie : res example_jar :=
  set_cookie noon (empty_jar 0) example_url (example_cookie (sv "id") (sv "7")) Http.

Lemma one_cookie_ok : exists jar, one_cookie = Ret jar /\ jar_ok jar.
Proof.
  apply (set_cookie_ok noon (empty_jar 0) example_url _ Http _ _ _ jar_url_ok (example_cookie_valid (sv "id") (sv "7") eq_refl) (empty_jar_ok 0)).
Qed.

Lemma get_cookie_correct_witness :
  exists jar l jar', one_cookie = Ret jar /\ get_cookie noon jar example_url Http = Ret (cookie_string l, jar')
    /\ cookie_string l = sv "id=7" /\ StronglySorted in_order l.
Proof.
  destruct one_cookie_ok as (jar & E & Hjar).
  destruct (get_cookie_correct noon jar example_url _ _ Http jar_url_readable Hjar)
    as (l & jar' & Hget & _ & _ & _ & Hsorted & _).
  exists jar, l, jar'. split_and!; [exact E|exact Hget| |exact Hsorted].
  assert (Hvm : (let* jar := one_cookie in let* (s, _) := get_cookie noon jar example_url Http in Ret s) = Ret (sv "id=7"))
    by (vm_compute; reflexivity).
  rewrite E in Hvm. cbn [res_bind] in Hvm. rewrite Hget in Hvm. cbn [res_bind] in Hvm. by injection Hvm.
Defined.

Definition http_url : URL := with_scheme example_url (sv "http").

Lemma http_url_ok : url_ok http_url (sv "www.example.com") (sv "/a/b") (sv "/a").
Proof. split; vm_compute; reflexivity. Qed.

Lemma insecure_set_keeps_secure_witness :
  exists jar jar', one_cookie = Ret jar
    /\ set_cookie noon jar http_url (example_cookie (sv "id") (sv "8")) NonHttp = Ret jar'
    /\ (forall k c, jar_map jar !! k = Some c -> c_secure c = true ->
          jar_map jar' !! k = Some c \/ exists n, expired (noon n) c)
    /\ forall k c, jar_map jar' !! k = Some c -> c_secure c = true -> jar_map jar !! k = Some c.
Proof.
  destruct one_cookie_ok as (jar & E & Hjar). exists jar.
  destruct (insecure_set_keeps_secure noon jar http_url (example_cookie (sv "id") (sv "8")) NonHttp
              (sv "www.example.com") (sv "/a/b") (sv "/a")) as (jar' & Hset & H1 & H2);
    [exact http_url_ok|apply example_cookie_valid; reflexivity|exact Hjar|vm_compute; reflexivity|].
  exists jar'. split_and!; done.
Defined.


Lemma expire_accessed_since_correct_witness :
  exists jar jar' t, one_cookie = Ret jar /\ expire_cookies_accessed_since noon jar (mkDuration 0 0) = Ret jar'
    /\ (forall k c, jar_map jar' !! k = Some c
          <-> jar_map jar !! k = Some c /\ accessed_since (mkDuration 0 0) c = false
              /\ Duration_lt (c_expiry_time c) t = false).
Proof.
  destruct one_cookie_ok as (jar & E & Hjar). exists jar.
  destruct (expire_accessed_since_correct noon (fun n => eq_refl) jar (mkDuration 0 0) Hjar)
    as (jar' & t & He & _ & _ & Hiff).
  - assert (Hvm : (let* jar := one_cookie in Ret (mi_reallocates (m_cookies jar))) = Ret false) by (vm_compute; reflexivity).
    rewrite E in Hvm. by injection Hvm.
  - exists jar', t. split_and!; done.
Defined.

Definition example_operations : list jar_operation :=
  [OpSetCookie example_url (example_cookie (sv "id") (sv "7")) Http; OpGetCookie example_url NonHttp;
   OpExpireWithOffset (mkDuration 3600 0); OpExpireAccessedSince (mkDuration 0 0); OpSynchronize].

Lemma example_operations_ok : Forall op_ok example_operations.
Proof.
  unfold example_operations. rewrite !Forall_cons. split_and!; [| | |exact I|exact I|constructor].
  - split; [apply (example_cookie_valid (sv "id") (sv "7")); reflexivity|]. do 3 eexists. exact jar_url_ok.
  - do 2 eexists. exact jar_url_readable.
  - vm_compute. repeat split; discriminate.
Qed.


(** Six cookies fill the first eight buckets up to the load factor. *)
Fixpoint set_all (names : list bytes) (jar : example_jar) : res example_jar :=
  match names with
  | [] => Ret jar
  | name :: names =>
      let* jar := set_cookie noon jar example_url (example_cookie name (sv "7")) Http in set_all names jar
  end.

Definition six_cookies : res example_jar :=
  set_all [sv "a"; sv "b"; sv "c"; sv "d"; sv "e"; sv "f"] (empty_jar 0).

Lemma set_all_ok names jar :
  forallb (fun name => forallb (fun x => (0 <=? x) && (x <? 128)) (name ++ sv "7")) names = true -> jar_ok jar ->
  exists jar', set_all names jar = Ret jar' /\ jar_ok jar'.
Proof.
  revert jar. induction names as [|name names IH]; intros jar Hn Hjar; [by exists jar|].
  cbn [forallb] in Hn. apply andb_true_iff in Hn as [Hname Hn]. cbn [set_all].
  destruct (set_cookie_ok noon jar example_url _ Http _ _ _ jar_url_ok (example_cookie_valid _ _ Hname) Hjar)
    as (jar1 & -> & Hjar1). cbn [res_bind]. by apply IH.
Qed.

Lemma Ret_inj {A} (x y : A) : Ret x = Ret y -> x = y.
Proof. by intros [=]. Qed.

Lemma six_cookies_ok : exists jar, six_cookies = Ret jar /\ jar_ok jar.
Proof. unfold six_cookies. apply set_all_ok; [reflexivity|apply empty_jar_ok]. Qed.

(** The map is about to grow, and its first cookie was accessed. *)
Definition first_accessed (jar : example_jar) : bool * bool :=
  (mi_reallocates (m_cookies jar),
   match mi_entries (m_cookies jar) with e :: _ => accessed_since (mkDuration 0 0) e.2 | [] => false end).

Lemma six_cookies_first : (let* jar := six_cookies in Ret (first_accessed jar)) = Ret (true, true).
Proof. vm_compute. reflexivity. Qed.

Lemma first_accessed_entry jar :
  jar_ok jar -> first_accessed jar = (true, true) ->
  mi_reallocates (m_cookies jar) = true
  /\ exists k c, jar_map jar !! k = Some c /\ accessed_since (mkDuration 0 0) c = true.
Proof.
  intros Hjar Hf. unfold first_accessed in Hf. apply pair_equal_spec in Hf as [Hre Hacc]. split; [done|].
  destruct (mi_entries (m_cookies jar)) as [|[k c] rest] eqn:Ee; [done|]. exists k, c. split; [|done].
  apply mi_map_entries; [apply Hjar|]. rewrite Ee. left.
Qed.

Lemma expire_accessed_since_moves_entries_witness :
  exists jar, six_cookies = Ret jar /\ expire_cookies_accessed_since noon jar (mkDuration 0 0) = Crash.
Proof.
  destruct six_cookies_ok as (jar & E & Hjar). exists jar. split; [exact E|].
  pose proof six_cookies_first as Hfirst. rewrite E in Hfirst. apply Ret_inj in Hfirst.
  destruct (first_accessed_entry jar Hjar) as (Hre & k & c & Hk & Hc); [exact Hfirst|].
  apply (expire_accessed_since_moves_entries noon jar (mkDuration 0 0) k c); [apply Hjar|exact Hre|exact Hk|exact Hc].
Defined.

(** A script replaces an [HttpOnly] cookie: the key of the jar does not
    have the host-only flag, so a cookie that differs in the flag alone is
    written over the old one without the check of step 23. *)
Theorem script_overwrites_http_only :
  let http_only := mkParsed (sv "id") (sv "7") SameSite_Default None None None None false true in
  let scripted := mkParsed (sv "id") (sv "8") SameSite_Default None None (Some (sv "www.example.com")) None false false in
  (let* jar := set_cookie noon (empty_jar 0 : example_jar) example_url http_only Http in
   let* jar := set_cookie noon jar example_url scripted NonHttp in
   let* (string, _) := get_cookie noon jar example_url Http in
   Ret string) = Ret (sv "id=8").
Proof. vm_compute. reflexivity. Qed.

(** A cookie with the prefix [__Host-] and without a [Path] attribute is
    stored with the default path, although the rule demands the path [/]. *)
Theorem host_prefix_without_path :
  let p := mkParsed (sv "__Host-id") (sv "7") SameSite_Default None None None None true false in
  (let* jar := set_cookie noon (empty_jar 0 : example_jar) example_url p Http in
   Ret (c_path <$> get_all_cookies jar)) = Ret [sv "/a"].
Proof. vm_compute. reflexivity. Qed.

(** A server below a public suffix of several labels sets a cookie for all
    of the suffix: the list has the reversed rule, the attribute is looked up as
    it is, and the cookie is sent to every other host below the suffix. *)
Theorem cookie_for_public_suffix :
  let p := mkParsed (sv "id") (sv "7") SameSite_Default None None (Some (sv "co.uk")) (Some (sv "/")) false false in
  let evil := with_host example_url (Some (HostString (sv "evil.co.uk"))) in
  let bank := with_host example_url (Some (HostString (sv "bank.co.uk"))) in
  get_public_suffix (sv "co.uk") = Ret (Some (sv "co.uk"))
  /\ (let* jar := set_cookie noon (empty_jar 0 : example_jar) evil p Http in
      let* (string, _) := get_cookie noon jar bank Http in
      Ret string) = Ret (sv "id=7").
Proof. split; vm_compute; reflexivity. Qed.

(** Two clients are told of a cookie: the second gets an empty list. *)
Theorem only_first_client_notified :
  let p := example_cookie (sv "id") (sv "7") in
  (let* jar := set_cookie noon (empty_jar 0 : example_jar) example_url p Http in
   Ret (map (map (map c_name)) [notifications jar 0; notifications jar 1])) = Ret [[[sv "id"]]; [[]]].
Proof. vm_compute. reflexivity. Qed.

(** The default path is percent-decoded and the path of a request is not: a
    cookie without a [Path] attribute that is set from a directory with a space
    is not sent back to it. *)
Theorem decoded_default_path_does_not_match :
  let p := mkParsed (sv "id") (sv "7") SameSite_Default None None None None false false in
  let url := with_paths example_url [sv "a%20b"; sv "c"] in
  (let* jar := set_cookie noon (empty_jar 0 : example_jar) url p Http in
   let* (string, _) := get_cookie noon jar url Http in
   Ret (c_path <$> get_all_cookies jar, string)) = Ret ([sv "/a b"], []).
Proof. vm_compute. reflexivity. Qed.

End examples.
