(* ===== verification/SearchParams.v ===== *)
(** * [URLSearchParams]: [LibWeb/DOMURL/URLSearchParams.cpp]

    A [URLSearchParams] object is a list of name-value pairs; the one a [URL]
    object hands out as its [searchParams] also points back to that object, and
    every change of the list is written to the query of its URL record.  The
    [URL] object is represented by this record, the only part of it the query
    object touches. *)

From S2P Require Import Prelude CharacterTypes Utf8 Utf16 MemMem Strings InsertionSort CodeUnits TextCodec Percent Host Origin Url FormUrlencoded.
From stdpp Require Import sorting.
Local Open Scope Z_scope.

(** ** Data *)

(** [URLSearchParams]; [m_url] is the URL record of the associated [URL] object. *)
Record URLSearchParams := { m_list : list QueryParam; m_url : option URL }.

(** The argument of the constructor: a sequence of sequences, a record, whose
    entries are in insertion order, or a string. *)
Inductive SearchParamsInit :=
  | InitSequence (init_sequence : list (list bytes))
  | InitRecord (init_record : list (bytes * bytes))
  | InitString (init_string : bytes).

(** [WebIDL::ExceptionOr], for the exception these components throw *)
Inductive ExceptionOr (A : Type) := Value (value : A) | TypeError (message : bytes).
Arguments Value {A} value.
Arguments TypeError {A} message.

(** ** [AK::Vector] *)

(** [Vector::find_if], with the index of the result *)
Fixpoint find_if {A} (predicate : A -> bool) (l : list A) : option (nat * A) :=
  match l with
  | [] => None
  | x :: l =>
      if predicate x then Some (0%nat, x)
      else match find_if predicate l with Some (index, y) => Some (S index, y) | None => None end
  end.

(** [Vector::remove_all_matching] from index [i] on; the predicate sees the
    index of the element at that time. *)
Fixpoint remove_all_matching {A} (predicate : nat -> A -> bool) (i : nat) (l : list A) : list A :=
  match l with
  | [] => []
  | x :: l =>
      if predicate i x then remove_all_matching predicate i l
      else x :: remove_all_matching predicate (S i) l
  end.

(** ** Operations *)

Section operations.
Context `{LookupTables} `{Simdutf} `{SimdutfFromUtf8}.

Definition to_string (p : URLSearchParams) : res bytes := url_encode (m_list p) (sv "UTF-8").

Definition update (p : URLSearchParams) : res URLSearchParams :=
  match m_url p with
  | None => Ret p
  | Some url =>
      let* serialized_query := to_string p in
      let serialized_query := if sv_eqb serialized_query [] then None else Some serialized_query in
      Ret {| m_list := m_list p; m_url := Some (set_query url serialized_query) |}
  end.

Definition with_list (p : URLSearchParams) (l : list QueryParam) : URLSearchParams :=
  {| m_list := l; m_url := m_url p |}.

(** [create] from a list, and from a string *)
Definition create (list : list QueryParam) : URLSearchParams := {| m_list := list; m_url := None |}.

Definition create_from_string (init : bytes) : res URLSearchParams :=
  let* list := url_decode init in
  Ret (create list).

(** The loop over a sequence in [construct_impl] *)
Fixpoint pairs_of_sequence (init_sequence : list (list bytes)) : res (ExceptionOr (list QueryParam)) :=
  match init_sequence with
  | [] => Ret (Value [])
  | [name; value] :: init_sequence =>
      let* rest := pairs_of_sequence init_sequence in
      Ret (match rest with
           | Value list => Value ({| param_name := name; param_value := value |} :: list)
           | TypeError message => TypeError message
           end)
  | items :: _ =>
      let* size := format_decimal (Z.of_nat (length items)) in
      Ret (TypeError (sv "Expected only 2 items in pair, got " ++ size))
  end.

Definition construct_impl (init : SearchParamsInit) : res (ExceptionOr URLSearchParams) :=
  match init with
  | InitSequence init_sequence =>
      let* list := pairs_of_sequence init_sequence in
      Ret (match list with
           | Value list => Value (create list)
           | TypeError message => TypeError message
           end)
  | InitRecord init_record =>
      Ret (Value (create ((fun pair => {| param_name := pair.1; param_value := pair.2 |}) <$> init_record)))
  | InitString init_string =>
      let* stripped_init := substring_view_from init_string (if starts_with_char init_string (ch "?") then 1 else 0) in
      let* params := create_from_string stripped_init in
      Ret (Value params)
  end.

Definition size (p : URLSearchParams) : nat := length (m_list p).

Definition append (p : URLSearchParams) (name value : bytes) : res URLSearchParams :=
  update (with_list p (m_list p ++ [{| param_name := name; param_value := value |}])).

(** [delete_] *)
Definition delete_params (p : URLSearchParams) (name : bytes) (value : option bytes) : res URLSearchParams :=
  let list :=
    match value with
    | Some value =>
        remove_all_matching (fun _ entry => sv_eqb (param_name entry) name && sv_eqb (param_value entry) value) 0 (m_list p)
    | None => remove_all_matching (fun _ entry => sv_eqb (param_name entry) name) 0 (m_list p)
    end in
  update (with_list p list).

Definition get (p : URLSearchParams) (name : bytes) : option bytes :=
  match find_if (fun entry => sv_eqb (param_name entry) name) (m_list p) with
  | None => None
  | Some (_, result) => Some (param_value result)
  end.

(** The loop of [get_all] *)
Fixpoint get_all_from (entries : list QueryParam) (name : bytes) : list bytes :=
  match entries with
  | [] => []
  | entry :: entries =>
      if sv_eqb (param_name entry) name then param_value entry :: get_all_from entries name
      else get_all_from entries name
  end.

Definition get_all (p : URLSearchParams) (name : bytes) : list bytes := get_all_from (m_list p) name.

Definition has (p : URLSearchParams) (name : bytes) (value : option bytes) : bool :=
  match value with
  | Some value =>
      match find_if (fun entry => sv_eqb (param_name entry) name && sv_eqb (param_value entry) value) (m_list p) with
      | Some _ => true
      | None => false
      end
  | None =>
      match find_if (fun entry => sv_eqb (param_name entry) name) (m_list p) with
      | Some _ => true
      | None => false
      end
  end.

(** [set]: the iterator [existing] is an index, which does not move, since only
    elements after it are removed. *)
Definition set_param (p : URLSearchParams) (name value : bytes) : res URLSearchParams :=
  let list :=
    match find_if (fun entry => sv_eqb (param_name entry) name) (m_list p) with
    | Some (existing, entry) =>
        let list := <[existing := {| param_name := param_name entry; param_value := value |}]> (m_list p) in
        remove_all_matching (fun i entry => negb (i =? existing)%nat && sv_eqb (param_name entry) name) 0 list
    | None => m_list p ++ [{| param_name := name; param_value := value |}]
    end in
  update (with_list p list).

Definition sort (p : URLSearchParams) : res URLSearchParams :=
  let* list := insertion_sort (fun a b => code_unit_less_than (param_name a) (param_name b)) (m_list p) in
  update (with_list p list).

(** The members that change the list, as one function. *)
Inductive operation :=
  | Append (name value : bytes)
  | Delete (name : bytes) (value : option bytes)
  | Set_ (name value : bytes)
  | Sort.

Definition run_operation (o : operation) (p : URLSearchParams) : res URLSearchParams :=
  match o with
  | Append name value => append p name value
  | Delete name value => delete_params p name value
  | Set_ name value => set_param p name value
  | Sort => sort p
  end.

End operations.

(** ** [URLSearchParamsIterator] *)

Inductive PropertyKind := Key | Value_ | KeyAndValue.

(** [next]: the index after the call, and the result: the parts of the next
    entry, or nothing when [done] is set. *)
Definition iterator_next (p : URLSearchParams) (kind : PropertyKind) (index : nat) : res (nat * option (list bytes)) :=
  if (size p <=? index)%nat then Ret (index, None)
  else
    let* entry := at_index (m_list p) index in
    Ret (S index, Some (match kind with
                        | Key => [param_name entry]
                        | Value_ => [param_value entry]
                        | KeyAndValue => [param_name entry; param_value entry]
                        end)).

(** ** The abstract specification: a map from names to lists of values *)

Definition abstract_operation (o : operation) (f : bytes -> list bytes) (x : bytes) : list bytes :=
  match o with
  | Append name value => if sv_eqb x name then f x ++ [value] else f x
  | Delete name None => if sv_eqb x name then [] else f x
  | Delete name (Some value) => if sv_eqb x name then List.filter (fun v => negb (sv_eqb v value)) (f x) else f x
  | Set_ name value => if sv_eqb x name then [value] else f x
  | Sort => f x
  end.

Definition operation_ok (o : operation) : Prop :=
  match o with
  | Append name value | Set_ name value => well_formed_utf8 name /\ well_formed_utf8 value
  | Delete _ _ | Sort => True
  end.

Definition params_ok (p : URLSearchParams) : Prop := Forall param_ok (m_list p).

(** The query of the URL record parses to the list. *)
Definition in_sync `{Simdutf} (p : URLSearchParams) : Prop :=
  match m_url p with
  | Some url => url_decode (default [] (query url)) = Ret (m_list p)
  | None => True
  end.

(** ** Facts: vectors *)

Lemma find_if_spec {A} (f : A -> bool) l :
  match find_if f l with
  | Some (i, x) => exists before after, l = before ++ x :: after /\ length before = i /\ f x = true
                     /\ Forall (fun y => f y = false) before
  | None => Forall (fun y => f y = false) l
  end.
Proof.
  induction l as [|y l IH]; cbn [find_if]; [constructor|]. destruct (f y) eqn:E.
  { exists [], l. repeat split; [done|constructor]. }
  destruct (find_if f l) as [[i x]|]; [|by constructor].
  destruct IH as (before & after & -> & <- & Hx & Hb). exists (y :: before), after. repeat split; [done|by constructor].
Qed.

Lemma remove_all_matching_filter {A} (f : A -> bool) i l :
  remove_all_matching (fun _ => f) i l = List.filter (fun x => negb (f x)) l.
Proof.
  revert i. induction l as [|x l IH]; intros i; [done|]. cbn [remove_all_matching List.filter].
  destruct (f x); cbn [negb]; by rewrite IH.
Qed.

(** Removing all matches but the first. *)
Lemma remove_other_matches {A} (f : A -> bool) i e l :
  (e < i)%nat ->
  remove_all_matching (fun j x => negb (j =? e)%nat && f x) i l = List.filter (fun x => negb (f x)) l.
Proof.
  revert i. induction l as [|x l IH]; intros i Hi; [done|]. cbn [remove_all_matching List.filter].
  rewrite (proj2 (Nat.eqb_neq i e)) by lia. cbn [negb andb]. destruct (f x); cbn [negb]; by rewrite IH by lia.
Qed.

Lemma remove_matches_after {A} (f : A -> bool) i before x after :
  Forall (fun y => f y = false) before ->
  remove_all_matching (fun j y => negb (j =? i + length before)%nat && f y) i (before ++ x :: after)
  = before ++ x :: List.filter (fun y => negb (f y)) after.
Proof.
  intros Hb. revert i. induction Hb as [|y before Hy _ IH]; intros i; cbn [app remove_all_matching length].
  - rewrite Nat.add_0_r, Nat.eqb_refl. cbn [negb andb]. by rewrite remove_other_matches by lia.
  - rewrite Hy, andb_false_r, Nat.add_succ_r. f_equal. apply (IH (S i)).
Qed.

(** ** Facts: names and values *)

Lemma get_all_from_app l1 l2 name : get_all_from (l1 ++ l2) name = get_all_from l1 name ++ get_all_from l2 name.
Proof.
  induction l1 as [|e l1 IH]; [done|]. cbn [app get_all_from]. rewrite IH. by destruct (sv_eqb _ _).
Qed.

Lemma get_all_from_filter f l name :
  get_all_from (List.filter f l) name
  = List.filter (fun v => f {| param_name := name; param_value := v |}) (get_all_from l name).
Proof.
  induction l as [|[n v] l IH]; [done|]. cbn [List.filter get_all_from param_name param_value].
  destruct (sv_eqb n name) eqn:E.
  - apply sv_eqb_true in E as ->. cbn [List.filter]. rewrite <- IH.
    destruct (f _); cbn [get_all_from param_name param_value]; [by rewrite sv_eqb_refl|done].
  - rewrite <- IH. destruct (f _); cbn [get_all_from param_name param_value]; [by rewrite E|done].
Qed.

Lemma get_all_from_none l name :
  Forall (fun e => sv_eqb (param_name e) name = false) l -> get_all_from l name = [].
Proof. induction 1 as [|e l He _ IH]; [done|]. cbn [get_all_from]. by rewrite He. Qed.

(** The list after [set]. *)
Definition set_list (l : list QueryParam) (name value : bytes) : list QueryParam :=
  match find_if (fun entry => sv_eqb (param_name entry) name) l with
  | Some (existing, entry) =>
      remove_all_matching (fun i entry => negb (i =? existing)%nat && sv_eqb (param_name entry) name) 0
        (<[existing := {| param_name := param_name entry; param_value := value |}]> l)
  | None => l ++ [{| param_name := name; param_value := value |}]
  end.

Lemma set_list_split l name value :
  exists before after, set_list l name value = before ++ {| param_name := name; param_value := value |} :: after
    /\ (forall x, get_all_from (before ++ after) x = if sv_eqb x name then [] else get_all_from l x)
    /\ (forall P : QueryParam -> Prop, Forall P l -> Forall P (before ++ after))
    /\ List.filter (fun e => negb (sv_eqb (param_name e) name)) l = before ++ after.
Proof.
  unfold set_list. pose proof (find_if_spec (fun entry => sv_eqb (param_name entry) name) l) as Hfind.
  set (other := fun e => negb (sv_eqb (param_name e) name)).
  assert (Hkeep : forall l, Forall (fun e => sv_eqb (param_name e) name = false) l -> List.filter other l = l).
  { intros l' Hl. apply List.forallb_filter_id, forallb_Forall_iff. eapply Forall_impl; [exact Hl|].
    intros e He. cbn in He. unfold other. by rewrite He. }
  assert (Hget : forall l x, get_all_from (List.filter other l) x = if sv_eqb x name then [] else get_all_from l x).
  { intros l' x. rewrite get_all_from_filter. unfold other. cbn [param_name].
    destruct (sv_eqb x name); cbn [negb]; [by induction (get_all_from l' x)|].
    apply List.forallb_filter_id. by apply forallb_forall. }
  assert (Hforall : forall P : QueryParam -> Prop, Forall P l -> Forall P (List.filter other l)).
  { intros P. rewrite !List.Forall_forall. intros HP e [He _]%List.filter_In. auto. }
  destruct (find_if _ l) as [[i e]|].
  - destruct Hfind as (before & after & -> & <- & He & Hb). apply sv_eqb_true in He as Hname.
    rewrite insert_app_r_alt, Nat.sub_diag by lia. cbn [insert list_insert].
    pose proof (remove_matches_after (fun entry => sv_eqb (param_name entry) name) 0 before
      {| param_name := param_name e; param_value := value |} after Hb) as Hrem. cbn [Nat.add] in Hrem.
    rewrite Hrem, Hname. exists before, (List.filter other after). split; [done|].
    assert (Hsplit : List.filter other (before ++ e :: after) = before ++ List.filter other after).
    { rewrite List.filter_app, (Hkeep before Hb). cbn [List.filter]. unfold other at 1. by rewrite He. }
    rewrite <- Hsplit. split; [apply Hget|]. by split.
  - exists l, []. rewrite app_nil_r. split; [done|]. split; [|split; [done|by apply Hkeep]].
    intros x. by rewrite <- Hget, Hkeep.
Qed.

Section facts.
Context `{LookupTables} `{SimdutfLaws} `{SimdutfFromUtf8Laws}.

(** Updating the URL record. *)
Lemma update_ok p :
  params_ok p ->
  exists p', update p = Ret p' /\ m_list p' = m_list p /\ in_sync p'
    /\ (m_url p = None -> m_url p' = None)
    /\ forall u, m_url p = Some u -> exists text, url_encode (m_list p) (sv "UTF-8") = Ret text
         /\ m_url p' = Some (with_query u (match m_list p with [] => None | _ => Some text end)).
Proof.
  intros Hp. unfold update, to_string. destruct (m_url p) as [u|] eqn:Hu.
  - rewrite url_encode_text by done. cbn [res_bind]. eexists. split; [done|]. split; [done|].
    pose proof (url_decode_text _ Hp) as Hd. unfold in_sync. cbn [m_url m_list].
    destruct (m_list p) as [|e l] eqn:Hl.
    { split; [done|]. split; [done|]. intros v [= <-]. by exists []. }
    assert (Hne : Strings.join (ch "&") (param_text <$> e :: l) <> []).
    { intros Hnil. rewrite Hnil in Hd. done. }
    rewrite sv_eqb_false by done. split; [exact Hd|]. split; [done|]. intros v [= <-]. by eexists.
  - exists p. split; [done|]. split; [done|]. unfold in_sync. by rewrite Hu.
Qed.

Lemma params_keys_ok l : Forall param_ok l -> Forall (fun e => ak_string (param_name e)) l.
Proof. intros Hl. eapply Forall_impl; [exact Hl|]. intros e [Hn _]. by apply well_formed_ak_string. Qed.

(** The order of [sort]. *)
Definition param_lt (a b : QueryParam) : bool := lex_lt (sort_key (param_name a)) (sort_key (param_name b)).

Lemma sort_list l :
  Forall param_ok l ->
  exists sorted, insertion_sort (fun a b => code_unit_less_than (param_name a) (param_name b)) l = Ret sorted
    /\ sorted ≡ₚ l /\ StronglySorted (fun a b => param_lt b a = false) sorted
    /\ forall name, List.filter (fun e => sv_eqb (param_name e) name) sorted
                    = List.filter (fun e => sv_eqb (param_name e) name) l.
Proof.
  intros Hl%params_keys_ok. set (P := fun e => ak_string (param_name e)).
  exists (isort param_lt l). split; [|split; [apply isort_perm|split]].
  - apply (insertion_sort_isort _ _ P); [|done]. intros a b Ha Hb. by apply code_unit_less_than_keys.
  - apply (isort_sorted param_lt P); [..|done].
    + intros a b _ _. apply lex_lt_asym.
    + intros a b d _ _ _. apply lex_lt_trans.
  - intros name. apply (isort_stable param_lt P); [|done]. intros a b _ _ Ha%sv_eqb_true Hb%sv_eqb_true.
    unfold param_lt. rewrite Ha, Hb. destruct (lex_lt _ _) eqn:E; [|done]. by rewrite (lex_lt_asym _ _ E) in E.
Qed.

Lemma get_all_from_matches l name :
  get_all_from l name = param_value <$> List.filter (fun e => sv_eqb (param_name e) name) l.
Proof.
  induction l as [|e l IH]; [done|]. cbn [get_all_from List.filter]. destruct (sv_eqb _ _); [|done].
  rewrite IH. done.
Qed.

End facts.

(** ** Properties *)

Section properties.
Context `{LookupTables} `{SimdutfLaws} `{SimdutfFromUtf8Laws}.

Lemma filtered_params f p :
  params_ok p -> Forall param_ok (List.filter f (m_list p)).
Proof. unfold params_ok. rewrite !List.Forall_forall. intros Hp e [He _]%List.filter_In. auto. Qed.

(** The list each operation computes. *)
Lemma operation_list p o :
  params_ok p -> operation_ok o ->
  exists l, run_operation o p = update (with_list p l) /\ Forall param_ok l
    /\ forall x, get_all_from l x = abstract_operation o (get_all p) x.
Proof.
  intros Hp Ho. destruct o as [name value|name [value|]|name value|].
  - exists (m_list p ++ [{| param_name := name; param_value := value |}]). split; [done|]. split.
    + apply Forall_app. split; [done|by apply Forall_singleton].
    + intros x. rewrite get_all_from_app. cbn [get_all_from param_name param_value abstract_operation].
      unfold sv_eqb. rewrite (bool_decide_ext (name = x) (x = name)) by done.
      case_bool_decide; [done|]. apply app_nil_r.
  - eexists. split; [done|]. rewrite remove_all_matching_filter. split; [by apply filtered_params|].
    intros x. rewrite get_all_from_filter. cbn [param_name param_value abstract_operation].
    destruct (sv_eqb x name); cbn [andb negb]; [done|]. apply List.forallb_filter_id. by apply forallb_forall.
  - eexists. split; [done|]. rewrite remove_all_matching_filter. split; [by apply filtered_params|].
    intros x. rewrite get_all_from_filter. cbn [param_name abstract_operation].
    destruct (sv_eqb x name); cbn [negb]; [by induction (get_all_from (m_list p) x)|].
    apply List.forallb_filter_id. by apply forallb_forall.
  - destruct (set_list_split (m_list p) name value) as (before & after & Hset & Hget & Hforall & _).
    exists (set_list (m_list p) name value). split; [|split].
    + cbn [run_operation]. unfold set_param, set_list. by destruct (find_if _ _) as [[]|].
    + rewrite Hset. specialize (Hforall _ Hp). apply Forall_app in Hforall as [Hb Ha].
      apply Forall_app. split; [done|by constructor].
    + intros x. specialize (Hget x). rewrite Hset, get_all_from_app in *.
      cbn [get_all_from param_name param_value abstract_operation] in *. unfold sv_eqb in *.
      rewrite (bool_decide_ext (name = x) (x = name)) by done. case_bool_decide; [|done].
      apply app_eq_nil in Hget as [-> ->]. done.
  - destruct (sort_list (m_list p) Hp) as (sorted & Hsort & Hperm & _ & Hstable).
    exists sorted. split; [|split].
    + cbn [run_operation]. unfold sort. by rewrite Hsort.
    + by rewrite Hperm.
    + intros x. by rewrite get_all_from_matches, Hstable, <- get_all_from_matches.
Qed.

(** C34: the object refines a map from names to lists of values. Appending adds
    a value at the end of the list of its name; deleting empties the list of a
    name, or removes the given value from it; setting leaves one value; sorting
    changes no list of values. No operation changes another name's values, none
    crashes, and after each one the query of the associated URL record parses
    to exactly the list of the object. *)
Theorem search_params_refine (p : URLSearchParams) (o : operation) :
  params_ok p -> operation_ok o ->
  exists p', run_operation o p = Ret p' /\ params_ok p' /\ in_sync p'
    /\ forall x, get_all p' x = abstract_operation o (get_all p) x.
Proof.
  intros Hp Ho. destruct (operation_list p o Hp Ho) as (l & -> & Hl & Hget).
  destruct (update_ok (with_list p l) Hl) as (p' & Hp' & Hlist & Hsync & _). cbn in Hlist.
  exists p'. unfold params_ok, get_all. by rewrite Hlist.
Qed.

(** [get] returns the first value of a name, [has] whether it has any, or
    has the given one, in terms of the map [get_all] of the previous theorem. *)
Theorem search_params_lookup (p : URLSearchParams) (name value : bytes) :
  get p name = head (get_all p name)
  /\ has p name None = negb (bool_decide (get_all p name = []))
  /\ has p name (Some value) = bool_decide (value ∈ get_all p name).
Proof.
  unfold get, has, get_all. induction (m_list p) as [|[n v] l (IH1 & IH2 & IH3)].
  { split; [done|]. split; [done|]. symmetry. apply bool_decide_eq_false_2. by intros ?%not_elem_of_nil. }
  cbn [find_if get_all_from param_name param_value]. destruct (sv_eqb n name) eqn:E; cbn [andb].
  - split; [done|]. split; [done|]. destruct (sv_eqb v value) eqn:Ev.
    + apply sv_eqb_true in Ev as ->. rewrite bool_decide_eq_true_2 by (apply list_elem_of_here). done.
    + rewrite (bool_decide_ext _ (value ∈ get_all_from l name)).
      * rewrite <- IH3. clear. by destruct (find_if _ l) as [[]|].
      * rewrite elem_of_cons. split; [intros [->|]; [by rewrite sv_eqb_refl in Ev|done]|by right].
  - split_and!; [rewrite <- IH1|rewrite <- IH2|rewrite <- IH3]; clear; by destruct (find_if _ l) as [[]|].
Qed.

(** [sort] orders the pairs by the UTF-16 code units of their names and
    keeps pairs of the same name in the order they had. *)
Theorem search_params_sorted (p : URLSearchParams) :
  params_ok p ->
  exists p', sort p = Ret p' /\ m_list p' ≡ₚ m_list p
    /\ StronglySorted (fun a b => code_unit_less_than (param_name b) (param_name a) = Ret false) (m_list p')
    /\ forall name, List.filter (fun e => sv_eqb (param_name e) name) (m_list p')
                    = List.filter (fun e => sv_eqb (param_name e) name) (m_list p).
Proof.
  intros Hp. destruct (sort_list (m_list p) Hp) as (sorted & Hsort & Hperm & Hs & Hstable).
  unfold sort. rewrite Hsort. cbn [res_bind]. assert (Hok : Forall param_ok sorted) by (by rewrite Hperm).
  destruct (update_ok (with_list p sorted) Hok) as (p' & -> & Hlist & _). cbn in Hlist. exists p'. rewrite Hlist.
  split; [done|]. split; [done|]. split; [|done]. apply params_keys_ok in Hok. clear Hperm Hstable Hlist Hsort.
  induction Hs as [|e l Hs IH He]; [constructor|]. apply Forall_cons in Hok as [Hk Hok]. constructor; [by apply IH|].
  rewrite Forall_forall in *. intros b Hb. rewrite code_unit_less_than_keys by auto. f_equal. by apply He.
Qed.

End properties.

Definition example_params : URLSearchParams :=
  {| m_list := [{| param_name := sv "b"; param_value := sv "1" |}; {| param_name := sv "a"; param_value := sv "2" |};
                {| param_name := sv "b"; param_value := sv "3" |}];
     m_url := Some empty_url |}.

Lemma example_params_ok : params_ok example_params.
Proof. repeat constructor; apply well_formed_ascii; repeat constructor; lia. Qed.

Lemma search_params_refine_witness :
  exists p', set_param example_params (sv "b") (sv "4") = Ret p' /\ get_all p' (sv "b") = [sv "4"] /\ in_sync p'.
Proof.
  destruct (search_params_refine example_params (Set_ (sv "b") (sv "4")) example_params_ok)
    as (p' & Hrun & _ & Hsync & Hget); [split; apply well_formed_ascii; repeat constructor; lia|].
  exists p'. split; [exact Hrun|]. split; [exact (Hget (sv "b"))|exact Hsync].
Defined.

Lemma search_params_sorted_witness :
  exists p', sort example_params = Ret p' /\ m_list p' ≡ₚ m_list example_params
    /\ List.filter (fun e => sv_eqb (param_name e) (sv "b")) (m_list p')
       = [{| param_name := sv "b"; param_value := sv "1" |}; {| param_name := sv "b"; param_value := sv "3" |}].
Proof.
  destruct (search_params_sorted example_params example_params_ok) as (p' & Hs & Hp & _ & Hf).
  exists p'. split; [exact Hs|]. split; [exact Hp|]. exact (Hf (sv "b")).
Defined.
