(* ===== verification/UrlParser.v ===== *)
(** * The basic URL parser: [LibURL/Parser.cpp], [Parser::basic_parse]

    One definition per [case] of the [switch]; each maps the parser's local
    variables (the record [parser]) to an [outcome]: [Advance] is a [break] of
    the [switch] (the loop then stops at the end of the input or increments the
    iterator), [Continue] the [continue] of the loop, [Return] a [return].  The
    iterator is the list of the bytes it has in front of it.  [*url] is
    returned on failure as well, since the caller of a setter sees it.
    Validation errors are only written to the debug log, so
    [report_validation_error] and the tests that only guard it are left out. *)

From S2P Require Import Prelude CharacterTypes Utf8 Strings TextCodec Percent Ipv4 Ipv6 Host Origin Url.

(** ** [LibURL/Parser.h] *)

Module State.
Inductive t :=
  | SchemeStart | Scheme | NoScheme | SpecialRelativeOrAuthority | PathOrAuthority | Relative
  | RelativeSlash | SpecialAuthoritySlashes | SpecialAuthorityIgnoreSlashes | Authority | Host
  | Hostname | Port | File | FileSlash | FileHost | PathStart | Path | OpaquePath | Query | Fragment.
End State.

#[export] Instance State_eq_dec : EqDecision State.t.
Proof. solve_decision. Defined.

(** ** Predicates on segments and drive letters *)

(** ["/\\?#"sv.contains(input[2])] *)
Definition starts_with_windows_drive_letter (input : bytes) : bool :=
  match input with
  | i0 :: i1 :: rest =>
      if negb (is_ascii_alpha i0) || negb ((i1 =? ch ":") || (i1 =? ch "|")) then false
      else match rest with [] => true | i2 :: _ => contains_char (sv "/\?#") i2 end
  | _ => false
  end.

Definition is_windows_drive_letter (input : bytes) : bool :=
  match input with
  | [i0; i1] => is_ascii_alpha i0 && ((i1 =? ch ":") || (i1 =? ch "|"))
  | _ => false
  end.

Definition is_normalized_windows_drive_letter (input : bytes) : bool :=
  match input with [i0; i1] => is_ascii_alpha i0 && (i1 =? ch ":") | _ => false end.

Definition is_single_dot_path_segment (input : bytes) : bool :=
  sv_eqb input (sv ".") || equals_ignoring_ascii_case input (sv "%2e").

Definition is_double_dot_path_segment (input : bytes) : bool :=
  sv_eqb input (sv "..") || equals_ignoring_ascii_case input (sv ".%2e")
  || equals_ignoring_ascii_case input (sv "%2e.") || equals_ignoring_ascii_case input (sv "%2e%2e").

(** [Parser::shorten_urls_path] *)
Definition shorten_urls_path (url : URL) : res URL :=
  verify (negb (has_an_opaque_path url))
    (match paths url with
     | [] => Ret url
     | [segment] =>
         if sv_eqb (scheme url) (sv "file") && is_normalized_windows_drive_letter segment
         then Ret url else Ret (with_paths url [])
     | segments => Ret (with_paths url (removelast segments))
     end).

Definition is_ascii_tab_or_newline (c : Z) : bool := (c =? 9) || (c =? 10) || (c =? 13).

Definition contains_ascii_tab_or_newline (input : bytes) : bool := existsb is_ascii_tab_or_newline input.

Definition remove_ascii_tab_or_newline `{Simdutf} (input : bytes) : res bytes :=
  let output := List.filter (fun c => negb (is_ascii_tab_or_newline c)) input in
  verify (validate Surrogates_Yes output) (Ret output).

(** ** The state machine *)

(** The local variables of [basic_parse]. *)
Record parser := {
  url : URL;
  state : State.t;
  buffer : bytes;
  at_sign_seen : bool;
  inside_brackets : bool;
  password_token_seen : bool;
  iterator : bytes;
  encoder : Encoder
}.

Definition with_url (p : parser) (v : URL) : parser :=
  {| url := v; state := state p; buffer := buffer p; at_sign_seen := at_sign_seen p;
     inside_brackets := inside_brackets p; password_token_seen := password_token_seen p;
     iterator := iterator p; encoder := encoder p |}.
Definition with_state (p : parser) (v : State.t) : parser :=
  {| url := url p; state := v; buffer := buffer p; at_sign_seen := at_sign_seen p;
     inside_brackets := inside_brackets p; password_token_seen := password_token_seen p;
     iterator := iterator p; encoder := encoder p |}.
Definition with_buffer (p : parser) (v : bytes) : parser :=
  {| url := url p; state := state p; buffer := v; at_sign_seen := at_sign_seen p;
     inside_brackets := inside_brackets p; password_token_seen := password_token_seen p;
     iterator := iterator p; encoder := encoder p |}.
Definition with_at_sign_seen (p : parser) (v : bool) : parser :=
  {| url := url p; state := state p; buffer := buffer p; at_sign_seen := v;
     inside_brackets := inside_brackets p; password_token_seen := password_token_seen p;
     iterator := iterator p; encoder := encoder p |}.
Definition with_inside_brackets (p : parser) (v : bool) : parser :=
  {| url := url p; state := state p; buffer := buffer p; at_sign_seen := at_sign_seen p;
     inside_brackets := v; password_token_seen := password_token_seen p;
     iterator := iterator p; encoder := encoder p |}.
Definition with_password_token_seen (p : parser) (v : bool) : parser :=
  {| url := url p; state := state p; buffer := buffer p; at_sign_seen := at_sign_seen p;
     inside_brackets := inside_brackets p; password_token_seen := v;
     iterator := iterator p; encoder := encoder p |}.
Definition with_iterator (p : parser) (v : bytes) : parser :=
  {| url := url p; state := state p; buffer := buffer p; at_sign_seen := at_sign_seen p;
     inside_brackets := inside_brackets p; password_token_seen := password_token_seen p;
     iterator := v; encoder := encoder p |}.
Definition with_encoder (p : parser) (v : Encoder) : parser :=
  {| url := url p; state := state p; buffer := buffer p; at_sign_seen := at_sign_seen p;
     inside_brackets := inside_brackets p; password_token_seen := password_token_seen p;
     iterator := iterator p; encoder := v |}.

Inductive outcome :=
  | Advance (p : parser)
  | Continue (p : parser)
  | Return (url : URL) (success : bool).

(** [return {};] and [return *url;] *)
Definition failure (p : parser) : res outcome := Ret (Return (url p) false).
Definition success (p : parser) : res outcome := Ret (Return (url p) true).

(** [TextCodec::encoder_for("utf-8"sv)], dereferenced *)
Definition utf8_encoder : res Encoder := unwrap (encoder_for (sv "utf-8")).

(** [get_remaining] *)
Definition get_remaining (p : parser) : res bytes :=
  let* length := underlying_code_point_length_in_bytes (iterator p) in
  Ret (drop length (iterator p)).

(** The set of code points that end an authority, a host or a port: the end of
    the input, a slash, ? or #, and for special URLs a backslash. *)
Definition ends_authority (p : parser) (code_point : Z) : bool :=
  ((code_point =? end_of_file) || (code_point =? ch "/") || (code_point =? ch "?")
   || (code_point =? ch "#"))
  || (is_special (url p) && (code_point =? ch "\")).

Section basic_parse.
Context `{LookupTables, Icu, Simdutf, FastFloat}.
Variable input : bytes.
Variable base_url : option URL.
Variable state_override : option State.t.

(** [state_override.has_value()] *)
Definition overridden : bool := match state_override with Some _ => true | None => false end.

Definition scheme_start_state (p : parser) (code_point : Z) : res outcome :=
  if is_ascii_alpha code_point then
    Ret (Advance (with_state (with_buffer p (buffer p ++ [to_ascii_lowercase code_point])) State.Scheme))
  else if negb overridden then Ret (Continue (with_state p State.NoScheme))
  else failure p.

(** The part of the scheme state after the scheme is set, without an override. *)
Definition after_scheme (p : parser) : res outcome :=
  let p := with_buffer p [] in
  if sv_eqb (scheme (url p)) (sv "file") then Ret (Advance (with_state p State.File))
  else if is_special (url p)
          && match base_url with Some base => sv_eqb (scheme base) (scheme (url p)) | None => false end
  then
    let* base := unwrap base_url in
    verify (is_special base) (Ret (Advance (with_state p State.SpecialRelativeOrAuthority)))
  else if is_special (url p) then Ret (Advance (with_state p State.SpecialAuthoritySlashes))
  else
    let* remaining := get_remaining p in
    if starts_with remaining (sv "/") CaseSensitive then
      let* iterator := iterator_incr (iterator p) in
      Ret (Advance (with_iterator (with_state p State.PathOrAuthority) iterator))
    else
      Ret (Advance (with_state (with_url p (append_slash (with_opaque_path (url p) true))) State.OpaquePath)).

Definition scheme_state (p : parser) (code_point : Z) : res outcome :=
  if is_ascii_alphanumeric code_point || (code_point =? ch "+") || (code_point =? ch "-")
     || (code_point =? ch ".")
  then Ret (Advance (with_buffer p (buffer p ++ [to_ascii_lowercase code_point])))
  else if code_point =? ch ":" then
    if overridden
       && ((is_special (url p) && negb (is_special_scheme (buffer p)))
           || (negb (is_special (url p)) && is_special_scheme (buffer p))
           || ((includes_credentials (url p) || match port (url p) with Some _ => true | None => false end)
               && sv_eqb (buffer p) (sv "file"))
           || (sv_eqb (scheme (url p)) (sv "file")
               && match host (url p) with Some host => is_empty_host host | None => false end))
    then success p
    else
      let p := with_url p (with_scheme (url p) (buffer p)) in
      if overridden then
        if bool_decide (port (url p) = default_port_for_scheme (scheme (url p)))
        then success (with_url p (with_port (url p) None))
        else success p
      else after_scheme p
  else if negb overridden then
    Ret (Continue (with_iterator (with_state (with_buffer p []) State.NoScheme) input))
  else failure p.

Definition no_scheme_state (p : parser) (code_point : Z) : res outcome :=
  match base_url with
  | None => failure p
  | Some base =>
      if has_an_opaque_path base && negb (code_point =? ch "#") then failure p
      else if has_an_opaque_path base && (code_point =? ch "#") then
        let u := with_scheme (url p) (scheme base) in
        let u := with_paths u (paths base) in
        let u := with_query u (query base) in
        let u := with_fragment u (Some []) in
        let u := with_opaque_path u true in
        Ret (Advance (with_state (with_url p u) State.Fragment))
      else if negb (sv_eqb (scheme base) (sv "file")) then Ret (Continue (with_state p State.Relative))
      else Ret (Continue (with_state p State.File))
  end.

Definition special_relative_or_authority_state (p : parser) (code_point : Z) : res outcome :=
  let* slashes :=
    if code_point =? ch "/" then
      let* remaining := get_remaining p in
      Ret (starts_with remaining (sv "/") CaseSensitive)
    else Ret false in
  if slashes then
    let* iterator := iterator_incr (iterator p) in
    Ret (Advance (with_iterator (with_state p State.SpecialAuthorityIgnoreSlashes) iterator))
  else Ret (Continue (with_state p State.Relative)).

Definition path_or_authority_state (p : parser) (code_point : Z) : res outcome :=
  if code_point =? ch "/" then Ret (Advance (with_state p State.Authority))
  else Ret (Continue (with_state p State.Path)).

Definition relative_state (p : parser) (code_point : Z) : res outcome :=
  let* base := unwrap base_url in
  verify (negb (sv_eqb (scheme base) (sv "file")))
    (let p := with_url p (with_scheme (url p) (scheme base)) in
     if code_point =? ch "/" then Ret (Advance (with_state p State.RelativeSlash))
     else if is_special (url p) && (code_point =? ch "\")
     then Ret (Advance (with_state p State.RelativeSlash))
     else
       let u := with_username (url p) (username base) in
       let u := with_password u (password base) in
       let u := with_host u (host base) in
       let u := with_port u (port base) in
       let u := with_paths u (paths base) in
       let u := with_query u (query base) in
       if code_point =? ch "?" then
         Ret (Advance (with_state (with_url p (with_query u (Some []))) State.Query))
       else if code_point =? ch "#" then
         Ret (Advance (with_state (with_url p (with_fragment u (Some []))) State.Fragment))
       else if negb (code_point =? end_of_file) then
         let u := with_query u None in
         let* u := shorten_urls_path u in
         Ret (Continue (with_state (with_url p u) State.Path))
       else Ret (Advance (with_url p u))).

Definition relative_slash_state (p : parser) (code_point : Z) : res outcome :=
  if is_special (url p) && ((code_point =? ch "/") || (code_point =? ch "\"))
  then Ret (Advance (with_state p State.SpecialAuthorityIgnoreSlashes))
  else if code_point =? ch "/" then Ret (Advance (with_state p State.Authority))
  else
    let* base := unwrap base_url in
    let u := with_username (url p) (username base) in
    let u := with_password u (password base) in
    let u := with_host u (host base) in
    let u := with_port u (port base) in
    Ret (Continue (with_state (with_url p u) State.Path)).

Definition special_authority_slashes_state (p : parser) (code_point : Z) : res outcome :=
  let* slashes :=
    if code_point =? ch "/" then
      let* remaining := get_remaining p in
      Ret (starts_with remaining (sv "/") CaseSensitive)
    else Ret false in
  if slashes then
    let* iterator := iterator_incr (iterator p) in
    Ret (Advance (with_iterator (with_state p State.SpecialAuthorityIgnoreSlashes) iterator))
  else Ret (Continue (with_state p State.SpecialAuthorityIgnoreSlashes)).

Definition special_authority_ignore_slashes_state (p : parser) (code_point : Z) : res outcome :=
  if negb (code_point =? ch "/") && negb (code_point =? ch "\")
  then Ret (Continue (with_state p State.Authority))
  else Ret (Advance p).

(** Step 1.4 of the authority state: the loop over the buffer, with the two
    builders; the current username and password are copied into an empty
    builder before the first code point. *)
Fixpoint split_credentials (code_points : list Z) (password_token_seen : bool)
    (username password username_builder password_builder : bytes) : res (bool * bytes * bytes) :=
  match code_points with
  | [] => Ret (password_token_seen, username_builder, password_builder)
  | c :: code_points =>
      if (c =? ch ":") && negb password_token_seen then
        split_credentials code_points true username password username_builder password_builder
      else if password_token_seen then
        let builder := if sv_is_empty password_builder then password else password_builder in
        let* builder := append_percent_encoded_if_necessary builder c Userinfo in
        split_credentials code_points password_token_seen username password username_builder builder
      else
        let builder := if sv_is_empty username_builder then username else username_builder in
        let* builder := append_percent_encoded_if_necessary builder c Userinfo in
        split_credentials code_points password_token_seen username password builder password_builder
  end.

Definition authority_state (p : parser) (code_point : Z) : res outcome :=
  if code_point =? ch "@" then
    let p := if at_sign_seen p then with_buffer p (sv "%40" ++ buffer p) else p in
    let p := with_at_sign_seen p true in
    let* (token_seen, username_builder, password_builder) :=
      split_credentials (code_points (buffer p)) (password_token_seen p)
        (username (url p)) (password (url p)) [] [] in
    let p := with_password_token_seen p token_seen in
    let* u :=
      if (length (username (url p)) <? length username_builder)%nat then
        verify (validate Surrogates_Yes username_builder) (Ret (with_username (url p) username_builder))
      else Ret (url p) in
    let* u :=
      if (length (password u) <? length password_builder)%nat then
        verify (validate Surrogates_Yes password_builder) (Ret (with_password u password_builder))
      else Ret u in
    Ret (Advance (with_buffer (with_url p u) []))
  else if ends_authority p code_point then
    if at_sign_seen p && sv_is_empty (buffer p) then failure p
    else
      let offset :=
        size_t (Z.of_nat (length input) - Z.of_nat (length (iterator p))
                - Z.of_nat (length (buffer p)) - 1) in
      let p := with_iterator p (iterator_at_byte_offset input offset) in
      Ret (Advance (with_state (with_buffer p []) State.Host))
  else Ret (Advance (with_buffer p (append_code_point (buffer p) code_point))).

Definition host_state (p : parser) (code_point : Z) : res outcome :=
  if overridden && sv_eqb (scheme (url p)) (sv "file") then
    Ret (Continue (with_state p State.FileHost))
  else if (code_point =? ch ":") && negb (inside_brackets p) then
    if sv_is_empty (buffer p) then failure p
    else if bool_decide (state_override = Some State.Hostname) then failure p
    else
      let* host := parse_host (buffer p) (negb (is_special (url p))) in
      match host with
      | None => failure p
      | Some host =>
          Ret (Advance (with_state (with_buffer (with_url p (with_host (url p) (Some host))) []) State.Port))
      end
  else if ends_authority p code_point then
    if is_special (url p) && sv_is_empty (buffer p) then failure p
    else if overridden && sv_is_empty (buffer p)
            && (includes_credentials (url p) || match port (url p) with Some _ => true | None => false end)
    then failure p
    else
      let* host := parse_host (buffer p) (negb (is_special (url p))) in
      match host with
      | None => failure p
      | Some host =>
          let p := with_state (with_buffer (with_url p (with_host (url p) (Some host))) []) State.Port in
          if overridden then success p else Ret (Continue p)
      end
  else
    let p :=
      if code_point =? ch "[" then with_inside_brackets p true
      else if code_point =? ch "]" then with_inside_brackets p false
      else p in
    Ret (Advance (with_buffer p (append_code_point (buffer p) code_point))).

Definition port_state (p : parser) (code_point : Z) : res outcome :=
  if is_ascii_digit code_point then
    Ret (Advance (with_buffer p (append_code_point (buffer p) code_point)))
  else if ends_authority p code_point || overridden then
    if negb (sv_is_empty (buffer p)) then
      match parse_number (2 ^ 16 - 1) (buffer p) 10 with
      | None => failure p
      | Some number =>
          let new_port :=
            if bool_decide (Some number = default_port_for_scheme (scheme (url p))) then None else Some number in
          let p := with_buffer (with_url p (with_port (url p) new_port)) [] in
          if overridden then success p
          else Ret (Continue (with_state p State.PathStart))
      end
    else if overridden then failure p
    else Ret (Continue (with_state p State.PathStart))
  else failure p.

Definition file_state (p : parser) (code_point : Z) : res outcome :=
  let u := with_scheme (url p) (sv "file") in
  let u := with_host u (Some (HostString [])) in
  let p := with_url p u in
  if (code_point =? ch "/") || (code_point =? ch "\") then Ret (Advance (with_state p State.FileSlash))
  else
    match base_url with
    | Some base =>
        if sv_eqb (scheme base) (sv "file") then
          let u := with_host u (host base) in
          let u := with_paths u (paths base) in
          let u := with_query u (query base) in
          if code_point =? ch "?" then
            Ret (Advance (with_state (with_url p (with_query u (Some []))) State.Query))
          else if code_point =? ch "#" then
            Ret (Advance (with_state (with_url p (with_fragment u (Some []))) State.Fragment))
          else if negb (code_point =? end_of_file) then
            let u := with_query u None in
            let* u :=
              if negb (starts_with_windows_drive_letter (iterator p)) then shorten_urls_path u
              else Ret (with_paths u []) in
            Ret (Continue (with_state (with_url p u) State.Path))
          else Ret (Advance (with_url p u))
        else Ret (Continue (with_state p State.Path))
    | None => Ret (Continue (with_state p State.Path))
    end.

Definition file_slash_state (p : parser) (code_point : Z) : res outcome :=
  if (code_point =? ch "/") || (code_point =? ch "\") then Ret (Advance (with_state p State.FileHost))
  else
    let* u :=
      match base_url with
      | Some base =>
          if sv_eqb (scheme base) (sv "file") then
            let u := with_host (url p) (host base) in
            if negb (starts_with_windows_drive_letter (iterator p)) then
              let* first := at_index (paths base) 0 in
              if is_normalized_windows_drive_letter first then Ret (with_paths u (paths u ++ [first]))
              else Ret u
            else Ret u
          else Ret (url p)
      | None => Ret (url p)
      end in
    Ret (Continue (with_state (with_url p u) State.Path)).

Definition file_host_state (p : parser) (code_point : Z) : res outcome :=
  if (code_point =? end_of_file) || (code_point =? ch "/") || (code_point =? ch "\")
     || (code_point =? ch "?") || (code_point =? ch "#")
  then
    if negb overridden && is_windows_drive_letter (buffer p) then
      Ret (Continue (with_state p State.Path))
    else if sv_is_empty (buffer p) then
      let p := with_url p (with_host (url p) (Some (HostString []))) in
      if overridden then success p
      else Ret (Continue (with_state p State.PathStart))
    else
      let* host := parse_host (buffer p) (negb (is_special (url p))) in
      match host with
      | None => failure p
      | Some host =>
          let host := if bool_decide (host = HostString (sv "localhost")) then HostString [] else host in
          let p := with_url p (with_host (url p) (Some host)) in
          if overridden then success p
          else Ret (Continue (with_state (with_buffer p []) State.PathStart))
      end
  else Ret (Advance (with_buffer p (append_code_point (buffer p) code_point))).

Definition path_start_state (p : parser) (code_point : Z) : res outcome :=
  if is_special (url p) then
    let p := with_state p State.Path in
    if negb (code_point =? ch "/") && negb (code_point =? ch "\") then Ret (Continue p)
    else Ret (Advance p)
  else if negb overridden && (code_point =? ch "?") then
    Ret (Advance (with_state (with_url p (with_query (url p) (Some []))) State.Query))
  else if negb overridden && (code_point =? ch "#") then
    Ret (Advance (with_state (with_url p (with_fragment (url p) (Some []))) State.Fragment))
  else if negb (code_point =? end_of_file) then
    let p := with_state p State.Path in
    if negb (code_point =? ch "/") then Ret (Continue p) else Ret (Advance p)
  else if overridden && match host (url p) with None => true | Some _ => false end then
    Ret (Advance (with_url p (append_slash (url p))))
  else Ret (Advance p).

(** Step 1 of the path state, up to setting the buffer to the empty string:
    what a complete segment does to the URL. *)
Definition finish_segment (u : URL) (segment : bytes) (code_point : Z) : res URL :=
  let slash := (code_point =? ch "/") || (is_special u && (code_point =? ch "\")) in
  if is_double_dot_path_segment segment then
    let* u := shorten_urls_path u in
    if negb slash then Ret (append_slash u) else Ret u
  else if is_single_dot_path_segment segment && negb slash then Ret (append_slash u)
  else if negb (is_single_dot_path_segment segment) then
    let segment :=
      if sv_eqb (scheme u) (sv "file") && match paths u with [] => true | _ => false end
         && is_windows_drive_letter segment
      then take 1 segment ++ [ch ":"] else segment in
    Ret (with_paths u (paths u ++ [segment]))
  else Ret u.

Definition path_state (p : parser) (code_point : Z) : res outcome :=
  if ((code_point =? end_of_file) || (code_point =? ch "/"))
     || (is_special (url p) && (code_point =? ch "\"))
     || (negb overridden && ((code_point =? ch "?") || (code_point =? ch "#")))
  then
    let* u := finish_segment (url p) (buffer p) code_point in
    let p := with_buffer (with_url p u) [] in
    if code_point =? ch "?" then
      Ret (Advance (with_state (with_url p (with_query (url p) (Some []))) State.Query))
    else if code_point =? ch "#" then
      Ret (Advance (with_state (with_url p (with_fragment (url p) (Some []))) State.Fragment))
    else Ret (Advance p)
  else
    let* buffer := append_percent_encoded_if_necessary (buffer p) code_point Path in
    Ret (Advance (with_buffer p buffer)).

Definition opaque_path_state (p : parser) (code_point : Z) : res outcome :=
  verify (match paths (url p) with [[]] => true | _ => false end)
    (let set_path := with_paths (url p) [buffer p] in
     if code_point =? ch "?" then
       Ret (Advance (with_state (with_buffer (with_url p (with_query set_path (Some []))) []) State.Query))
     else if code_point =? ch "#" then
       Ret (Advance (with_state (with_buffer (with_url p (with_fragment set_path (Some []))) []) State.Fragment))
     else if code_point =? 32 then
       let* remaining := get_remaining p in
       if starts_with_char remaining (ch "?") || starts_with_char remaining (ch "#")
       then Ret (Advance (with_buffer p (buffer p ++ sv "%20")))
       else Ret (Advance (with_buffer p (buffer p ++ [32])))
     else if negb (code_point =? end_of_file) then
       let* buffer := append_percent_encoded_if_necessary (buffer p) code_point C0Control in
       Ret (Advance (with_buffer p buffer))
     else Ret (Advance (with_buffer (with_url p set_path) []))).

Definition query_state (p : parser) (code_point : Z) : res outcome :=
  let* p :=
    if negb (is_special (url p)) || sv_eqb (scheme (url p)) (sv "ws") || sv_eqb (scheme (url p)) (sv "wss")
    then let* encoder := utf8_encoder in Ret (with_encoder p encoder)
    else Ret p in
  if (negb overridden && (code_point =? ch "#")) || (code_point =? end_of_file) then
    let query_percent_encode_set := if is_special (url p) then SpecialQuery else Query in
    let* query := percent_encode_after_encoding (encoder p) (buffer p) query_percent_encode_set false in
    let p := with_buffer (with_url p (with_query (url p) (Some query))) [] in
    if code_point =? ch "#" then
      Ret (Advance (with_state (with_url p (with_fragment (url p) (Some []))) State.Fragment))
    else Ret (Advance p)
  else Ret (Advance (with_buffer p (append_code_point (buffer p) code_point))).

Definition fragment_state (p : parser) (code_point : Z) : res outcome :=
  if negb (code_point =? end_of_file) then
    Ret (Advance (with_buffer p (append_code_point (buffer p) code_point)))
  else
    let* encoder := utf8_encoder in
    let* fragment := percent_encode_after_encoding encoder (buffer p) Fragment false in
    Ret (Advance (with_buffer (with_url p (with_fragment (url p) (Some fragment))) [])).

(** The [switch] *)
Definition run_state (p : parser) (code_point : Z) : res outcome :=
  match state p with
  | State.SchemeStart => scheme_start_state p code_point
  | State.Scheme => scheme_state p code_point
  | State.NoScheme => no_scheme_state p code_point
  | State.SpecialRelativeOrAuthority => special_relative_or_authority_state p code_point
  | State.PathOrAuthority => path_or_authority_state p code_point
  | State.Relative => relative_state p code_point
  | State.RelativeSlash => relative_slash_state p code_point
  | State.SpecialAuthoritySlashes => special_authority_slashes_state p code_point
  | State.SpecialAuthorityIgnoreSlashes => special_authority_ignore_slashes_state p code_point
  | State.Authority => authority_state p code_point
  | State.Host | State.Hostname => host_state p code_point
  | State.Port => port_state p code_point
  | State.File => file_state p code_point
  | State.FileSlash => file_slash_state p code_point
  | State.FileHost => file_host_state p code_point
  | State.PathStart => path_start_state p code_point
  | State.Path => path_state p code_point
  | State.OpaquePath => opaque_path_state p code_point
  | State.Query => query_state p code_point
  | State.Fragment => fragment_state p code_point
  end.

(** The loop; [fuel] bounds the iterations and running out of it is [Crash]. *)
Fixpoint run (fuel : nat) (p : parser) : res (URL * bool) :=
  match fuel with
  | O => Crash
  | S fuel =>
      let* code_point :=
        if iterator_done (iterator p) then Ret end_of_file else iterator_deref (iterator p) in
      let* result := run_state p code_point in
      match result with
      | Return url success => Ret (url, success)
      | Continue p => run fuel p
      | Advance p =>
          if iterator_done (iterator p) then Ret (url p, true)
          else
            let* iterator := iterator_incr (iterator p) in
            run fuel (with_iterator p iterator)
      end
  end.

End basic_parse.

(** Enough iterations for an input of [n] bytes: see [run_terminates]. *)
Definition parse_fuel (n : nat) : nat := 13 * (n + 2).

(** The two index loops that strip C0 controls and spaces. *)
Fixpoint strip_leading (raw_input : bytes) : bytes :=
  match raw_input with
  | [] => []
  | b :: rest => if negb (is_ascii_c0_control_or_space b) then raw_input else strip_leading rest
  end.

Definition strip (raw_input : bytes) : bytes := rev (strip_leading (rev (strip_leading raw_input))).

Section entry.
Context `{LookupTables, Icu, Simdutf, FastFloat}.

(** What becomes of the input before the state machine runs. *)
Definition process_input (raw_input : bytes) (url_given : bool) : res bytes :=
  let raw_input := if url_given then raw_input else strip raw_input in
  let processed_input := from_utf8_with_replacement_character raw_input false in
  if contains_ascii_tab_or_newline processed_input
  then remove_ascii_tab_or_newline processed_input else Ret processed_input.

(** Step 5: the encoder. *)
Definition select_encoder (encoding : option bytes) : res Encoder :=
  let encoder :=
    match encoding with
    | Some encoding => encoder_for (get_output_encoding encoding)
    | None => None
    end in
  unwrap (match encoder with Some encoder => Some encoder | None => encoder_for (sv "utf-8") end).

(** [Parser::basic_parse]: the URL record after the call, and whether the
    call returned a URL. *)
Definition basic_parse_into (raw_input : bytes) (base_url : option URL) (given_url : option URL)
    (state_override : option State.t) (encoding : option bytes) : res (URL * bool) :=
  let* input := process_input raw_input (match given_url with Some _ => true | None => false end) in
  let* encoder := select_encoder encoding in
  run input base_url state_override (parse_fuel (length input))
    {| url := default empty_url given_url;
       state := default State.SchemeStart state_override;
       buffer := []; at_sign_seen := false; inside_brackets := false; password_token_seen := false;
       iterator := input; encoder := encoder |}.

(** [basic_parse(input, base_url)] *)
Definition basic_parse (raw_input : bytes) (base_url : option URL) (encoding : option bytes)
    : res (option URL) :=
  let* (url, success) := basic_parse_into raw_input base_url None None encoding in
  Ret (if success then Some url else None).

(** [URL::complete_url] *)
Definition complete_url (u : URL) (relative_url : bytes) : res (option URL) :=
  basic_parse relative_url (Some u) None.

(** [URL::origin]; the recursion on the path of a blob URL is one deep, since
    the scheme of [path_url] is not "blob". *)
Definition tuple_origin (u : URL) (nonce : bytes) : res Origin :=
  if existsb (sv_eqb (scheme u)) [sv "ftp"; sv "http"; sv "https"; sv "ws"; sv "wss"] then
    let* host := unwrap (host u) in
    Ret (TupleOrigin (Some (scheme u)) host (port u) None)
  else if sv_eqb (scheme u) (sv "file") || sv_eqb (scheme u) (sv "resource") then
    Ret (TupleOrigin (Some (scheme u)) (HostString []) None None)
  else Ret (create_opaque nonce).

Definition origin (u : URL) (nonce : bytes) : res Origin :=
  if sv_eqb (scheme u) (sv "blob") then
    match blob_url_entry u with
    | Some entry => Ret (environment_origin entry)
    | None =>
        let* path := serialize_path u in
        let* path_url := basic_parse path None None in
        match path_url with
        | None => Ret (create_opaque nonce)
        | Some path_url =>
            if existsb (sv_eqb (scheme path_url)) [sv "http"; sv "https"; sv "file"]
            then tuple_origin path_url nonce
            else Ret (create_opaque nonce)
        end
    end
  else tuple_origin u nonce.

End entry.
