(* ===== verification/UrlFacts.v ===== *)
(** * Well-formed URL records

    [url_ok] is the invariant of the URL records the parser returns: what each
    member of [URL::Data] may hold.  The serializers return on every
    well-formed record. *)

From S2P Require Import Prelude CharacterTypes Utf8 Strings TextCodec Percent Ipv4 Ipv6 Host Origin Url UrlParser.

(** ** The invariant *)

(** A scheme: a lower-case letter, then letters, digits, +, - and dots. *)
Definition is_scheme_char (c : Z) : bool :=
  is_ascii_lower_alpha c || is_ascii_digit c || (c =? ch "+") || (c =? ch "-") || (c =? ch ".").

Definition scheme_ok (s : bytes) : Prop :=
  exists c rest, s = c :: rest /\ is_ascii_lower_alpha c = true /\ forallb is_scheme_char rest = true.

(** A character of a path segment of a URL. *)
Definition path_char (special : bool) (c : Z) : Prop :=
  clean Path c /\ c <> ch "/" /\ (special = true -> c <> ch "\").

(** A path segment that is left in a path. *)
Definition segment_ok (special : bool) (segment : bytes) : Prop :=
  Forall (path_char special) segment
  /\ is_single_dot_path_segment segment = false /\ is_double_dot_path_segment segment = false.

(** An opaque path. *)
Definition opaque_path_ok (path : bytes) : Prop :=
  Forall (fun c => clean C0Control c /\ c <> ch "?" /\ c <> ch "#") path.

(** The first segment of a file URL is not a drive letter followed by a bar. *)
Definition drive_ok (scheme : bytes) (segments : list bytes) : Prop :=
  scheme = sv "file" -> forall first, head segments = Some first ->
  is_windows_drive_letter first = true -> is_normalized_windows_drive_letter first = true.

Definition query_set (special : bool) : PercentEncodeSet := if special then SpecialQuery else Query.

Section url_ok.
Context `{Icu, Simdutf, FastFloat}.

(** The host of a URL with the given scheme. *)
Definition url_host_ok (u : URL) : Prop :=
  match host u with
  | None => is_special u = false
  | Some host =>
      (host_ok (negb (is_special u)) host /\ (scheme u = sv "file" -> host <> HostString (sv "localhost")))
      \/ (host = HostString [] /\ scheme u = sv "file")
  end.

Definition url_port_ok (u : URL) : Prop :=
  match port u with
  | None => True
  | Some port => 0 <= port < 65536 /\ default_port_for_scheme (scheme u) <> Some port
  end.

(** Everything in front of the path. *)
Record front_ok (u : URL) : Prop := {
  front_scheme : scheme_ok (scheme u);
  front_username : Forall (clean Userinfo) (username u);
  front_password : Forall (clean Userinfo) (password u);
  front_host : url_host_ok u;
  front_port : url_port_ok u;
  front_bare : cannot_have_a_username_or_password_or_port u = true ->
    username u = [] /\ password u = [] /\ port u = None
}.

Definition path_ok (u : URL) : Prop :=
  if has_an_opaque_path u then
    is_special u = false /\ host u = None /\ exists path, paths u = [path]
      /\ opaque_path_ok path /\ head path <> Some (ch "/")
  else
    Forall (segment_ok (is_special u)) (paths u) /\ drive_ok (scheme u) (paths u)
    /\ (is_special u = true \/ host u = None -> paths u <> []).

Definition query_ok (u : URL) : Prop :=
  match query u with Some q => Forall (clean (query_set (is_special u))) q | None => True end.

Definition fragment_ok (u : URL) : Prop :=
  match fragment u with Some f => Forall (clean Fragment) f | None => True end.

Record url_ok (u : URL) : Prop := {
  ok_front : front_ok u;
  ok_path : path_ok u;
  ok_query : query_ok u;
  ok_fragment : fragment_ok u
}.

End url_ok.

(** ** Facts: schemes *)

Lemma default_port_range s n : default_port_for_scheme s = Some n -> 0 <= n < 65536.
Proof. unfold default_port_for_scheme. repeat case_match; intros; simplify_eq; lia. Qed.

(** ** Facts: deciding the character classes *)

Definition is_clean (set : PercentEncodeSet) (c : Z) : bool :=
  (0 <=? c) && (c <=? 0x7E) && ((c =? ch "%") || negb (code_point_is_in_percent_encode_set c set)).

Lemma is_clean_spec set c : is_clean set c = true -> clean set c.
Proof.
  unfold is_clean. intros Hc. apply andb_prop in Hc as [Hr Hin]. split; [lia|].
  apply orb_prop in Hin as [He|Hn]; [left; lia|right; by apply negb_true_iff].
Qed.

Lemma opaque_path_decide path :
  forallb (fun c => is_clean C0Control c && negb (c =? ch "?") && negb (c =? ch "#")) path = true ->
  opaque_path_ok path.
Proof.
  rewrite forallb_Forall_iff. intros Hp. eapply Forall_impl; [exact Hp|]. cbn beta. intros c Hc.
  apply andb_prop in Hc as [Hc Hh]. apply andb_prop in Hc as [Hc Hq].
  split; [by apply is_clean_spec|lia].
Qed.

(** ** Facts: serializing *)

Section serialize.
Context `{IcuLaws, SimdutfLaws, FastFloatLaws}.

Lemma empty_host_serialize : host_serialize (HostString []) = Ret [].
Proof. done. Qed.

Lemma url_host_serialize u h :
  url_host_ok u -> host u = Some h -> exists text, host_serialize h = Ret text.
Proof.
  unfold url_host_ok. intros Hok Hh. rewrite Hh in Hok. destruct Hok as [[Hok _]|[-> _]].
  - destruct (host_serialize_parse _ _ Hok) as (text & Ht & _). by exists text.
  - by exists [].
Qed.

Lemma serialize_port_ok u : url_port_ok u -> exists text, serialize_port u = Ret text.
Proof.
  unfold url_port_ok, serialize_port. destruct (port u) as [n|]; [|by eexists]. intros [Hn _].
  destruct (format_decimal_prints n ltac:(lia)) as (s & -> & _). by eexists.
Qed.

Lemma serialize_path_part_ok u : path_ok u -> exists text, serialize_path_part u = Ret text.
Proof.
  unfold path_ok, serialize_path_part. destruct (has_an_opaque_path u).
  - intros (_ & _ & path & -> & _). by eexists.
  - intros _. destruct (host u); [by eexists|]. destruct (Nat.ltb_spec 1 (length (paths u))); [|by eexists].
    destruct (paths u); [simpl in *; lia|]. by eexists.
Qed.

Lemma serialize_authority_ok u :
  front_ok u -> exists text, serialize_authority u = Ret text.
Proof.
  intros Hu. unfold serialize_authority, serialized_host. destruct (host u) as [h|] eqn:Hh; [|by eexists].
  destruct (url_host_serialize u h (front_host u Hu) Hh) as [text Ht].
  destruct (serialize_port_ok u (front_port u Hu)) as [port Hp].
  cbn [unwrap res_bind]. rewrite Ht. cbn [res_bind]. rewrite Hp. by eexists.
Qed.

Lemma serialize_ok u exclude : url_ok u -> exists text, serialize u exclude = Ret text.
Proof.
  intros Hu. unfold serialize.
  destruct (serialize_authority_ok u (ok_front u Hu)) as [a ->].
  destruct (serialize_path_part_ok u (ok_path u Hu)) as [p ->]. by eexists.
Qed.

End serialize.

(** The record without its credentials. *)
Definition without_credentials (u : URL) : URL := with_password (with_username u []) [].

(** ** Properties *)

(** What is displayed of a URL is exactly the serialization of the URL
    without its credentials, so no part of a username or password is shown. *)
Theorem display_hides_credentials (u : URL) :
  serialize_for_display u = serialize (without_credentials u) ExcludeFragment_No.
Proof.
  unfold serialize_for_display, serialize, serialize_authority, serialized_host, serialize_port,
    serialize_path_part, serialize_query, serialize_fragment, includes_credentials,
    without_credentials, with_password, with_username.
  cbn [scheme username password host port paths query fragment has_an_opaque_path sv_is_empty negb orb].
  destruct (host u) as [h|]; cbn [unwrap res_bind]; [|done].
  destruct (host_serialize h); cbn [res_bind]; [|done].
  by destruct (match port u with Some _ => _ | None => _ end).
Qed.

(** Comparing two URLs is comparing their serializations: on well-formed
    records it never crashes and is reflexive and symmetric. *)
Theorem equals_correct `{IcuLaws, SimdutfLaws, FastFloatLaws} (u v : URL) (exclude : ExcludeFragment)
    (Hu : url_ok u) (Hv : url_ok v) :
  equals u u exclude = Ret true
  /\ exists r, equals u v exclude = Ret r /\ equals v u exclude = Ret r
     /\ (r = true <-> serialize u exclude = serialize v exclude).
Proof.
  destruct (serialize_ok u exclude Hu) as [a Ha]. destruct (serialize_ok v exclude Hv) as [b Hb].
  unfold equals. rewrite Ha, Hb. cbn [res_bind]. rewrite sv_eqb_refl. split; [done|].
  exists (sv_eqb a b). split; [done|]. split.
  - f_equal. unfold sv_eqb. by apply bool_decide_ext.
  - rewrite sv_eqb_true. split; [by intros ->|by intros [= ->]].
Qed.

Lemma about_ok `{Icu, Simdutf, FastFloat} path :
  opaque_path_ok path -> head path <> Some (ch "/") -> url_ok (about path).
Proof.
  intros Hp Hhead. split; [split|..]; cbn; try done.
  - by exists 97, (sv "bout").
  - split; [done|]. split; [done|]. by exists path.
Qed.

Lemma equals_correct_witness :
  let u := about (sv "blank") in let v := about (sv "srcdoc") in
  equals u u ExcludeFragment_No = Ret true
  /\ exists r, equals u v ExcludeFragment_No = Ret r /\ equals v u ExcludeFragment_No = Ret r
     /\ (r = true <-> serialize u ExcludeFragment_No = serialize v ExcludeFragment_No).
Proof.
  cbv zeta. apply equals_correct; (apply about_ok; [apply opaque_path_decide; reflexivity|done]).
Defined.
