(* ===== verification/UrlSafety.v ===== *)
(** * The URL parser terminates, never crashes, and returns well-formed URLs

    The invariant [inv] says, for each state of the machine, what the URL
    record and the buffer hold and where in the input the iterator is.  Every
    state keeps it; each step either decreases the rank of the state or stays in
    the state and moves the iterator forward, so [parse_fuel] iterations are
    enough.  This file is about parsing without a state override. *)

From S2P Require Import Prelude CharacterTypes Utf8 Strings TextCodec Percent Ipv4 Ipv6 Host Origin Url UrlParser UrlFacts.

(** ** Facts: the iterator over encoded code points *)

Lemma utf8_encode_ascii x l : 0 <= x < 128 -> utf8_encode (x :: l) = x :: utf8_encode l.
Proof.
  intros Hx. rewrite utf8_encode_cons by lia. unfold encoded.
  by rewrite (proj2 (Z.leb_le x 127)) by lia.
Qed.

Abbreviation code_point_range := (Forall (fun x : Z => 0 <= x <= 0x10FFFF)).

(** One step of the iterator. *)
Lemma iterator_view x l :
  0 <= x <= 0x10FFFF ->
  exists b0 rest, utf8_encode (x :: l) = b0 :: rest /\ deref_at b0 rest = x
    /\ incr_at b0 rest = utf8_encode l /\ length_at b0 rest = length (encoded x).
Proof.
  intros Hx. rewrite utf8_encode_cons by done.
  destruct (decode_encoded x (utf8_encode l) Hx) as (b0 & tl & Heq & Hd & Hi & Hl). eauto 10.
Qed.

Lemma current_code_point l :
  code_point_range l ->
  (if iterator_done (utf8_encode l) then Ret end_of_file else iterator_deref (utf8_encode l)) = Ret (c l).
Proof.
  destruct l as [|x l]; [done|]. intros Hl. apply Forall_cons in Hl as [Hx Hl].
  destruct (iterator_view x l Hx) as (b0 & rest & -> & Hd & _). simpl. by rewrite Hd.
Qed.

Lemma c_eof l : code_point_range l -> c l = end_of_file <-> l = [].
Proof.
  destruct l as [|x l]; [done|]. intros Hl. apply Forall_cons in Hl as [Hx _]. unfold end_of_file. simpl.
  split; [lia|done].
Qed.

(** A remaining text that starts with an ASCII byte starts with that code point. *)
Lemma utf8_head_ascii b l rest :
  code_point_range l -> 0 <= b < 128 -> utf8_encode l = b :: rest ->
  exists l', l = b :: l' /\ rest = utf8_encode l'.
Proof.
  intros Hl Hb Heq. destruct l as [|x l]; [done|]. apply Forall_cons in Hl as [Hx Hl].
  destruct (decide (x < 128)) as [Hlt|Hge].
  - rewrite utf8_encode_ascii in Heq by lia. injection Heq as -> <-. eauto.
  - exfalso. rewrite utf8_encode_cons in Heq by done. unfold encoded in Heq.
    repeat case_match; try lia; simpl in Heq; injection Heq as <- _; bool_to_prop; euclid.
Qed.

Lemma starts_with_one s b : starts_with s [b] CaseSensitive = true -> exists rest, s = b :: rest.
Proof.
  unfold starts_with. cbn [sv_is_empty length same_characters]. destruct s as [|x s]; [done|].
  cbn [sv_is_empty]. destruct (_ <? _)%nat; [done|]. cbn [take]. rewrite take_0, sv_eqb_true.
  intros [= ->]. eauto.
Qed.

Lemma remaining_starts_with l b :
  code_point_range l -> 0 <= b < 128 -> starts_with (utf8_encode l) [b] CaseSensitive = true ->
  exists l', l = b :: l'.
Proof.
  intros Hl Hb Hs. apply starts_with_one in Hs as [rest Heq].
  destruct (utf8_head_ascii b l rest Hl Hb Heq) as (l' & -> & _). eauto.
Qed.

(** ** Facts: buffers *)

Lemma utf8_encode_snoc l x :
  0 <= x <= 0x10FFFF -> append_code_point (utf8_encode l) x = utf8_encode (l ++ [x]).
Proof. intros Hx. by rewrite append_code_point_encoded, utf8_encode_app, utf8_encode_single. Qed.

Lemma utf8_encode_nil l : code_point_range l -> utf8_encode l = [] -> l = [].
Proof.
  destruct l as [|x l]; [done|]. intros Hl. apply Forall_cons in Hl as [Hx _].
  rewrite utf8_encode_cons by done. pose proof (encoded_nonempty x). by destruct (encoded x).
Qed.

(** What one code point is percent-encoded to: itself, or triples. *)
Lemma encoded_unit_forall (P : Z -> Prop) set x :
  0 <= x <= 0x10FFFF ->
  (code_point_is_in_percent_encode_set x set = false -> P x) ->
  P (ch "%") -> (forall d, 0 <= d < 16 -> P (upper_hex d)) ->
  Forall P (encoded_unit set x).
Proof.
  intros Hx Hself Hpct Hhex. unfold encoded_unit.
  destruct (code_point_is_in_percent_encode_set x set) eqn:E.
  - apply Forall_bind. eapply Forall_impl; [by apply encoded_bytes|]. intros b Hb. cbn beta in Hb.
    assert (0 <= b < 256) by ascii_lia. unfold pct.
    repeat (apply Forall_cons; split); [done|apply Hhex; euclid|apply Hhex; euclid|constructor].
  - apply not_in_set_ascii in E as Hr; [|lia]. unfold encoded.
    replace (x <=? 127) with true by lia. apply Forall_singleton. by apply Hself.
Qed.

Lemma upper_hex_plain d :
  0 <= d < 16 -> upper_hex d <> 47 /\ upper_hex d <> 92 /\ upper_hex d <> 63 /\ upper_hex d <> 35.
Proof. revert d. apply digit_enumeration. by repeat constructor. Qed.

Lemma clean_self set x :
  0 <= x <= 0x10FFFF -> code_point_is_in_percent_encode_set x set = false -> clean set x.
Proof. intros Hx E. apply not_in_set_ascii in E as Hr; [|lia]. split; [lia|by right]. Qed.

Lemma clean_percent set : clean set (ch "%").
Proof. split; [simpl; lia|by left]. Qed.

Lemma clean_upper_hex set d : 0 <= d < 16 -> clean set (upper_hex d).
Proof. intros Hd. by apply hex_digit_clean, upper_hex_hex. Qed.

(** A code point percent-encoded for a path segment, and for an opaque path. *)
Lemma encoded_unit_path_char special x :
  0 <= x <= 0x10FFFF -> x <> ch "/" -> (special = true -> x <> ch "\") ->
  Forall (path_char special) (encoded_unit Path x).
Proof.
  intros Hx Hslash Hback. apply encoded_unit_forall; [done|..].
  - intros E. split; [by apply clean_self|done].
  - split; [apply clean_percent|]. split; [done|]. intros _. done.
  - intros d Hd. destruct (upper_hex_plain d Hd) as (? & ? & _). split; [by apply clean_upper_hex|]. done.
Qed.

Lemma encoded_unit_opaque_char x :
  0 <= x <= 0x10FFFF -> x <> ch "?" -> x <> ch "#" -> opaque_path_ok (encoded_unit C0Control x).
Proof.
  intros Hx Hq Hh. apply encoded_unit_forall; [done|..].
  - intros E. split; [by apply clean_self|done].
  - split; [apply clean_percent|done].
  - intros d Hd. destruct (upper_hex_plain d Hd) as (_ & _ & ? & ?). split; [by apply clean_upper_hex|]. done.
Qed.

(** Percent-encoding after any encoder. *)
Lemma percent_encode_after_encoding_clean `{LookupTablesLaws} encoder input set :
  all_bytes input ->
  exists out, percent_encode_after_encoding encoder input set false = Ret out /\ Forall (clean set) out.
Proof.
  intros Hin. unfold percent_encode_after_encoding.
  destruct (process_ok encoder input Hin) as (events & -> & Hev). cbn [res_bind].
  assert (Hgen : forall output, Forall (clean set) output ->
    exists out, foldM (fun output event =>
      match event with
      | on_byte byte =>
          if false && (byte =? 32) then Ret (output ++ [ch "+"])
          else
            let isomorph := byte in
            if negb (code_point_is_in_percent_encode_set isomorph set)
            then Ret (append_code_point output isomorph)
            else append_percent_byte output byte
      | on_error error =>
          let* digits := format_decimal error in
          Ret (output ++ sv "%26%23" ++ digits ++ sv "%3B")
      end) events output = Ret out /\ Forall (clean set) out); [|by apply Hgen].
  induction Hev as [|event events Hok _ IH]; intros output Hout; cbn [foldM]; [by eexists|].
  destruct event as [b|cp]; cbn [andb] in *; simpl in Hok.
  - destruct (code_point_is_in_percent_encode_set b set) eqn:E; cbn [negb].
    + rewrite append_percent_byte_ok by done. cbn [res_bind]. apply IH. apply Forall_app.
      split; [done|by apply pct_clean].
    + cbn [res_bind]. apply IH. apply not_in_set_ascii in E as Hr; [|lia].
      rewrite append_code_point_ascii by lia. apply Forall_app. split; [done|].
      apply Forall_singleton. split; [lia|by right].
  - destruct (format_decimal_prints cp ltac:(lia)) as (digits & -> & _ & Hd & _). cbn [res_bind].
    apply IH. apply Forall_app. split; [done|].
    assert (Hpct : clean set 37) by (split; [lia|by left]).
    assert (Hhex : forall d, is_ascii_hex_digit d = true -> clean set d) by (intros; by apply hex_digit_clean).
    repeat (apply Forall_cons; split; [first [exact Hpct|by apply Hhex]|]).
    apply Forall_app. split; [|repeat (apply Forall_cons; split; [first [exact Hpct|by apply Hhex]|]); constructor].
    apply forallb_Forall_iff in Hd. eapply Forall_impl; [exact Hd|]. intros d Hdd.
    apply Hhex, is_ascii_digit_hex. exact Hdd.
Qed.

(** ** The invariant *)

(** The order in which the states are entered. *)
Definition rank (s : State.t) : nat :=
  match s with
  | State.SchemeStart => 12 | State.Scheme => 11 | State.NoScheme => 10
  | State.SpecialRelativeOrAuthority => 10 | State.Relative => 9 | State.RelativeSlash => 8
  | State.SpecialAuthoritySlashes => 8 | State.SpecialAuthorityIgnoreSlashes => 7
  | State.PathOrAuthority => 7 | State.Authority => 6 | State.File => 6
  | State.Host | State.Hostname => 5 | State.FileSlash => 5 | State.FileHost => 4 | State.Port => 4
  | State.PathStart => 3 | State.Path => 2 | State.OpaquePath => 2 | State.Query => 1
  | State.Fragment => 0
  end.

(** Nothing is known but the scheme [s]. *)
Definition started (s : bytes) (p : parser) : Prop :=
  url p = with_scheme empty_url s /\ buffer p = [] /\ at_sign_seen p = false.

(** The members the parser fills in after the authority. *)
Definition no_path_yet (u : URL) : Prop :=
  paths u = [] /\ query u = None /\ fragment u = None /\ has_an_opaque_path u = false.

(** While the authority is parsed: a scheme, and credentials. *)
Definition authority_ok (u : URL) : Prop :=
  scheme_ok (scheme u) /\ scheme u <> sv "file" /\ Forall (clean Userinfo) (username u)
  /\ Forall (clean Userinfo) (password u) /\ host u = None /\ port u = None /\ no_path_yet u.

(** A file URL before its host is known. *)
Definition file_url : URL := with_host (with_scheme empty_url (sv "file")) (Some (HostString [])).

(** Something that ends an authority. *)
Definition is_terminator (special : bool) (x : Z) : bool :=
  ((x =? end_of_file) || (x =? ch "/") || (x =? ch "?") || (x =? ch "#")) || (special && (x =? ch "\")).

Definition ends_ascii (before : list Z) : Prop := exists pre d, before = pre ++ [d] /\ 0 <= d < 128.

(** Reading members of updated records; and comparing ranks. *)
Ltac fields :=
  cbn [url state buffer at_sign_seen inside_brackets password_token_seen iterator encoder
       with_url with_state with_buffer with_at_sign_seen with_inside_brackets with_password_token_seen
       with_iterator with_encoder
       scheme username password host port paths query fragment has_an_opaque_path blob_url_entry
       with_scheme with_username with_password with_host with_port with_paths with_query with_fragment
       with_opaque_path append_slash empty_url].

Ltac ranked :=
  fields;
  match goal with
  | H : state ?p = _ |- (_ < rank (state ?p))%nat => rewrite H; cbn [rank]; lia
  | H : state ?p = _ |- _ \/ _ = state ?p => rewrite H; first [by right|left; cbn [rank]; lia]
  end.

(** A conjunction of facts that hold by assumption or of empty strings. *)
Ltac parts := first [done|apply Forall_nil_2|lia|split; parts|idtac].

Section safety.
Context `{LookupTablesLaws, IcuLaws, SimdutfLaws, FastFloatLaws}.
Variable cps : list Z.
Variable base_url : option URL.
Hypothesis cps_range : code_point_range cps.
Hypothesis cps_size : Z.of_nat (length (utf8_encode cps)) < 2 ^ 64.
Hypothesis base_ok : forall base, base_url = Some base -> url_ok base.

(** What holds in each state, when [before] has been read and [after] is left. *)
Definition state_ok (before after : list Z) (p : parser) : Prop :=
  let u := url p in
  let special := is_special u in
  match state p with
  | State.SchemeStart | State.NoScheme => started [] p
  | State.Scheme => u = empty_url /\ scheme_ok (buffer p) /\ at_sign_seen p = false
  | State.SpecialRelativeOrAuthority =>
      exists base, base_url = Some base /\ started (scheme base) p /\ is_special base = true
        /\ scheme base <> sv "file"
  | State.PathOrAuthority => exists s, started s p /\ scheme_ok s /\ is_special_scheme s = false
  | State.Relative =>
      exists s base, base_url = Some base /\ started s p /\ scheme base <> sv "file"
        /\ has_an_opaque_path base = false
  | State.RelativeSlash =>
      exists base, base_url = Some base /\ started (scheme base) p /\ scheme base <> sv "file"
        /\ has_an_opaque_path base = false
  | State.SpecialAuthoritySlashes | State.SpecialAuthorityIgnoreSlashes =>
      exists s, started s p /\ scheme_ok s /\ s <> sv "file" /\ ends_ascii before
  | State.Authority =>
      authority_ok u /\ (at_sign_seen p = false -> username u = [] /\ password u = [])
      /\ exists pre d buf, before = pre ++ d :: buf /\ 0 <= d < 128 /\ buffer p = utf8_encode buf
           /\ Forall (fun x => is_terminator special x = false) buf
  | State.Host =>
      authority_ok u /\ all_bytes (buffer p)
      /\ (buffer p = [] -> is_terminator special (c after) = true -> username u = [] /\ password u = [])
  | State.Hostname => False
  | State.Port =>
      front_ok u /\ no_path_yet u /\ host u <> None /\ forallb is_ascii_digit (buffer p) = true
      /\ (cannot_have_a_username_or_password_or_port u = true ->
          buffer p = [] /\ is_terminator special (c after) = true)
  | State.File => exists s, started s p
  | State.FileSlash => u = file_url /\ buffer p = []
  | State.FileHost => u = file_url /\ all_bytes (buffer p)
  | State.PathStart => front_ok u /\ no_path_yet u /\ host u <> None /\ buffer p = []
  | State.Path =>
      front_ok u /\ has_an_opaque_path u = false /\ query u = None /\ fragment u = None
      /\ Forall (segment_ok special) (paths u) /\ drive_ok (scheme u) (paths u)
      /\ Forall (path_char special) (buffer p)
  | State.OpaquePath =>
      front_ok u /\ has_an_opaque_path u = true /\ query u = None /\ fragment u = None
      /\ special = false /\ host u = None /\ paths u = [[]] /\ opaque_path_ok (buffer p)
      /\ head (buffer p) <> Some (ch "/") /\ (buffer p = [] -> c after <> ch "/")
  | State.Query => front_ok u /\ path_ok u /\ fragment u = None /\ all_bytes (buffer p)
  | State.Fragment => front_ok u /\ path_ok u /\ query_ok u /\ all_bytes (buffer p)
  end.

Record at_position (before after : list Z) (p : parser) : Prop := {
  position_input : before ++ after = cps;
  position_iterator : iterator p = utf8_encode after
}.

(** What a state may do: fail, decrease the rank, or stay and move forward;
    stopping at the end of the input leaves a well-formed URL. *)
Definition good (p : parser) (result : res outcome) : Prop :=
  match result with
  | Crash => False
  | Ret (Return _ success) => success = false
  | Ret (Continue p') =>
      (rank (state p') < rank (state p))%nat
      /\ exists before after, at_position before after p' /\ state_ok before after p'
  | Ret (Advance p') =>
      (iterator p' = [] /\ url_ok (url p'))
      \/ ((rank (state p') < rank (state p))%nat \/ state p' = state p /\ iterator p' = iterator p)
         /\ exists before x after, at_position before (x :: after) p' /\ state_ok (before ++ [x]) after p'
  end.

Lemma good_continue before after p p' :
  at_position before after p -> iterator p' = iterator p ->
  (rank (state p') < rank (state p))%nat -> state_ok before after p' -> good p (Ret (Continue p')).
Proof. intros [Hcps Hit] Heq Hr Hok. split; [done|]. exists before, after. split; [split; congruence|done]. Qed.

Lemma good_advance before x after p p' :
  at_position before (x :: after) p -> iterator p' = iterator p ->
  (rank (state p') < rank (state p))%nat \/ state p' = state p ->
  state_ok (before ++ [x]) after p' -> good p (Ret (Advance p')).
Proof.
  intros [Hcps Hit] Heq Hr Hok. right. split; [destruct Hr; auto|].
  exists before, x, after. split; [split; congruence|done].
Qed.

Lemma good_end before p p' :
  at_position before [] p -> iterator p' = iterator p -> url_ok (url p') -> good p (Ret (Advance p')).
Proof. intros [Hcps Hit] Heq Hok. left. rewrite Heq, Hit. by split. Qed.

Lemma good_failure p : good p (failure p).
Proof. done. Qed.

Lemma position_range before after p :
  at_position before after p -> code_point_range before /\ code_point_range after.
Proof. intros [Hcps _]. apply Forall_app. by rewrite Hcps. Qed.

Lemma position_remaining before x after p :
  at_position before (x :: after) p ->
  get_remaining p = Ret (utf8_encode after) /\ iterator_incr (iterator p) = Ret (utf8_encode after).
Proof.
  intros Hpos. destruct (position_range _ _ _ Hpos) as [_ Hrange].
  apply Forall_cons in Hrange as [Hx _]. destruct Hpos as [_ Hit]. unfold get_remaining. rewrite Hit.
  destruct (iterator_view x after Hx) as (b0 & rest & Heq & _ & Hi & Hl). rewrite Heq. cbn.
  rewrite Hi, Hl. split; [|done]. f_equal. rewrite <- Heq, utf8_encode_cons by done.
  by rewrite drop_app_length.
Qed.

(** *** The scheme *)

Lemma scheme_start_good before after p :
  at_position before after p -> state p = State.SchemeStart -> state_ok before after p ->
  good p (scheme_start_state None p (c after)).
Proof.
  intros Hpos Hst Hok. unfold state_ok in Hok. rewrite Hst in Hok. destruct Hok as (Hu & Hb & Hat).
  unfold scheme_start_state. destruct (is_ascii_alpha (c after)) eqn:E; cbn [overridden negb].
  - destruct after as [|x after]; [done|]. eapply good_advance; [done|done|ranked|].
    unfold state_ok; fields. rewrite Hu, Hb. split; [done|]. split; [|done].
    exists (to_ascii_lowercase x), []. split; [done|]. split; [|done].
    cbn [c] in E. unfold to_ascii_lowercase. break_match; ascii_lia.
  - by eapply good_continue; [done|done|ranked|].
Qed.

Lemma scheme_ok_snoc s x : scheme_ok s -> is_scheme_char x = true -> scheme_ok (s ++ [x]).
Proof.
  intros (d & rest & -> & Hd & Hrest) Hx. exists d, (rest ++ [x]). split; [done|]. split; [done|].
  by rewrite forallb_app, Hrest; cbn; rewrite Hx.
Qed.

(** A URL that has a scheme only, which is not special. *)
Lemma front_ok_scheme_only u :
  scheme_ok (scheme u) -> is_special u = false -> username u = [] -> password u = [] ->
  host u = None -> port u = None -> front_ok u.
Proof.
  intros Hs Hsp Hun Hpw Hh Hp. split; rewrite ?Hun, ?Hpw; try done; unfold url_host_ok, url_port_ok.
  - by rewrite Hh.
  - by rewrite Hp.
Qed.

Lemma after_scheme_good before after p s :
  at_position before (ch ":" :: after) p -> state p = State.Scheme -> url p = with_scheme empty_url s ->
  scheme_ok s -> at_sign_seen p = false -> good p (after_scheme base_url p).
Proof.
  intros Hpos Hst Hu Hs Hat. destruct (position_remaining _ _ _ _ Hpos) as [Hrem Hincr].
  assert (Hend : ends_ascii (before ++ [ch ":"])) by (exists before, (ch ":"); split; [done|simpl; lia]).
  unfold after_scheme, get_remaining in *. unfold is_special. fields. rewrite Hu, Hrem, Hincr. fields. cbn [res_bind].
  destruct (sv_eqb s (sv "file")) eqn:Hfile.
  { eapply good_advance; [done|done|ranked|]. unfold state_ok; fields. exists s. by repeat split. }
  assert (Hnf : s <> sv "file") by (intros ->; by rewrite sv_eqb_refl in Hfile).
  destruct (is_special_scheme s) eqn:Hsp; cbn [andb].
  - assert (Hslashes : good p (Ret (Advance (with_state (with_buffer p []) State.SpecialAuthoritySlashes)))).
    { eapply good_advance; [done|done|ranked|]. unfold state_ok; fields. exists s. by repeat split. }
    destruct base_url as [base|] eqn:Hbase; [|done]. destruct (sv_eqb (scheme base) s) eqn:Heq; [|done].
    apply sv_eqb_true in Heq. subst s. cbn [unwrap res_bind]. unfold is_special. rewrite Hsp. cbn [verify].
    eapply good_advance; [done|done|ranked|]. unfold state_ok; fields. by exists base.
  - destruct (starts_with (utf8_encode after) (sv "/") CaseSensitive) eqn:Hslash.
    + destruct (position_range _ _ _ Hpos) as [_ Hr]. apply Forall_cons in Hr as [_ Hafter].
      apply remaining_starts_with in Hslash as [after' ->]; [|done|simpl; lia].
      right. split; [left; ranked|]. exists (before ++ [ch ":"]), (ch "/"), after'. split.
      * destruct Hpos as [Hcps _]. split; [by rewrite <- app_assoc|done].
      * unfold state_ok; fields. exists s. by repeat split.
    + eapply good_advance; [done|done|ranked|]. unfold state_ok; fields. unfold is_special; fields.
      rewrite Hsp. split; [by apply front_ok_scheme_only|]. parts.
      intros _ Hc. destruct (position_range _ _ _ Hpos) as [_ Hr]. apply Forall_cons in Hr as [_ Hafter].
      destruct after as [|y after]; [done|]. cbn [c] in Hc. subst y.
      by rewrite utf8_encode_ascii in Hslash by (simpl; lia).
Qed.

Lemma scheme_good before after p :
  at_position before after p -> state p = State.Scheme -> state_ok before after p ->
  good p (scheme_state (utf8_encode cps) base_url None p (c after)).
Proof.
  intros Hpos Hst Hok. unfold state_ok in Hok. rewrite Hst in Hok. destruct Hok as (Hu & Hb & Hat).
  unfold scheme_state. destruct (_ || _) eqn:E; [|destruct (c after =? ch ":") eqn:Ec; cbn [overridden negb andb]].
  - destruct after as [|x after]; [done|]. eapply good_advance; [done|done|ranked|].
    unfold state_ok; fields. rewrite Hst. split; [done|]. split; [|done].
    apply scheme_ok_snoc; [done|]. cbn [c] in *. unfold to_ascii_lowercase, is_scheme_char in *.
    break_match; ascii_lia.
  - destruct after as [|x after]; [done|]. apply Z.eqb_eq in Ec. cbn [c] in Ec. subst x.
    apply (after_scheme_good before after (with_url p (with_scheme (url p) (buffer p))) (buffer p)); try done.
    + by destruct Hpos.
    + fields. by rewrite Hu.
  - split; [ranked|]. exists [], cps. split; [done|]. unfold state_ok, started; fields. by rewrite Hu.
Qed.


(** *** Relative references *)

Lemma front_ok_ext u v :
  scheme v = scheme u -> username v = username u -> password v = password u -> host v = host u ->
  port v = port u -> front_ok u -> front_ok v.
Proof.
  intros Hs Hun Hpw Hh Hp [H1' H2' H3' H4' H5' H6'].
  split; unfold url_host_ok, url_port_ok, cannot_have_a_username_or_password_or_port, is_special in *;
    rewrite ?Hs, ?Hun, ?Hpw, ?Hh, ?Hp; done.
Qed.

Lemma special_not_opaque u : path_ok u -> is_special u = true -> has_an_opaque_path u = false.
Proof. unfold path_ok. destruct (has_an_opaque_path u); [|done]. intros [H' _] Hs. congruence. Qed.

Lemma file_is_special u : scheme u = sv "file" -> is_special u = true.
Proof. unfold is_special. by intros ->. Qed.

Lemma no_scheme_good before after p :
  at_position before after p -> state p = State.NoScheme -> state_ok before after p ->
  good p (no_scheme_state base_url p (c after)).
Proof.
  intros Hpos Hst Hok. unfold state_ok in Hok. rewrite Hst in Hok. pose proof Hok as (Hu & Hb & Hat).
  unfold no_scheme_state. destruct base_url as [base|] eqn:Hbase; [|done].
  pose proof (base_ok base eq_refl) as Hbok. destruct (has_an_opaque_path base) eqn:Hop; cbn [andb].
  - destruct (c after =? ch "#") eqn:Ec; [|done]. cbn [negb]. destruct after as [|x after]; [done|].
    eapply good_advance; [done|done|ranked|]. unfold state_ok; fields. rewrite Hu.
    pose proof (ok_path base Hbok) as Hpath. unfold path_ok in Hpath. rewrite Hop in Hpath.
    destruct Hpath as (Hsp & Hh & Hpath). split.
    + apply front_ok_scheme_only; try done. apply (front_scheme base), Hbok.
    + split; [by repeat split|]. split; [|rewrite Hb; constructor]. apply (ok_query base Hbok).
  - destruct (sv_eqb (scheme base) (sv "file")) eqn:Hf; cbn [negb].
    + eapply good_continue; [done|done|ranked|]. by exists [].
    + eapply good_continue; [done|done|ranked|]. exists [], base. repeat split; try done.
      intros Hf'. rewrite Hf' in Hf. done.
Qed.

(** Two slashes in a row: the test of [SpecialRelativeOrAuthority] and [SpecialAuthoritySlashes]. *)
Lemma slashes_test before after p :
  at_position before after p ->
  exists b, (if c after =? ch "/" then
      let* remaining := get_remaining p in Ret (starts_with remaining (sv "/") CaseSensitive)
    else Ret false) = Ret b
    /\ (b = true -> exists after', after = ch "/" :: ch "/" :: after'
          /\ iterator_incr (iterator p) = Ret (utf8_encode (ch "/" :: after'))).
Proof.
  intros Hpos. destruct (c after =? ch "/") eqn:Ec; [|by exists false].
  destruct after as [|x after]; [done|]. apply Z.eqb_eq in Ec. cbn [c] in Ec. subst x.
  destruct (position_remaining _ _ _ _ Hpos) as [Hrem Hincr]. rewrite Hrem. cbn [res_bind].
  eexists. split; [done|]. intros Hs. destruct (position_range _ _ _ Hpos) as [_ Hr].
  apply Forall_cons in Hr as [_ Hafter]. apply remaining_starts_with in Hs as [after' ->]; [|done|simpl; lia].
  by exists after'.
Qed.

(** Advancing over two slashes into [SpecialAuthorityIgnoreSlashes]. *)
Lemma slashes_good before after p s :
  at_position before (ch "/" :: ch "/" :: after) p -> started s p -> scheme_ok s -> s <> sv "file" ->
  (7 < rank (state p))%nat ->
  good p (Ret (Advance (with_iterator (with_state p State.SpecialAuthorityIgnoreSlashes)
                          (utf8_encode (ch "/" :: after))))).
Proof.
  intros [Hcps _] Hs Hsok Hnf Hr. right. split; [by left|].
  exists (before ++ [ch "/"]), (ch "/"), after. split; [split; [by rewrite <- app_assoc|done]|].
  exists s. repeat split; try done; try apply Hs. exists (before ++ [ch "/"]), (ch "/").
  split; [done|simpl; lia].
Qed.

Lemma special_relative_or_authority_good before after p :
  at_position before after p -> state p = State.SpecialRelativeOrAuthority -> state_ok before after p ->
  good p (special_relative_or_authority_state p (c after)).
Proof.
  intros Hpos Hst Hok. unfold state_ok in Hok. rewrite Hst in Hok. destruct Hok as (base & Hbase & Hs & Hsp & Hnf).
  pose proof (base_ok base Hbase) as Hbok. unfold special_relative_or_authority_state.
  destruct (slashes_test before after p Hpos) as (b & -> & Hb). cbn [res_bind]. destruct b.
  - destruct (Hb eq_refl) as (after' & -> & ->). cbn [res_bind].
    apply slashes_good with before (scheme base); try done; [apply (front_scheme base), Hbok|].
    rewrite Hst. cbn [rank]. lia.
  - eapply good_continue; [done|done|ranked|]. exists (scheme base), base. repeat split; try done; try apply Hs.
    apply special_not_opaque; [apply Hbok|done].
Qed.

Lemma special_authority_slashes_good before after p :
  at_position before after p -> state p = State.SpecialAuthoritySlashes -> state_ok before after p ->
  good p (special_authority_slashes_state p (c after)).
Proof.
  intros Hpos Hst Hok. unfold state_ok in Hok. rewrite Hst in Hok. destruct Hok as (s & Hs & Hsok & Hnf & Hend).
  unfold special_authority_slashes_state.
  destruct (slashes_test before after p Hpos) as (b & -> & Hb). cbn [res_bind]. destruct b.
  - destruct (Hb eq_refl) as (after' & -> & ->). cbn [res_bind].
    apply slashes_good with before s; try done. rewrite Hst. cbn [rank]. lia.
  - eapply good_continue; [done|done|ranked|]. by exists s.
Qed.


Lemma enter_authority before after p s :
  started s p -> scheme_ok s -> s <> sv "file" -> ends_ascii before ->
  state_ok before after (with_state p State.Authority).
Proof.
  intros (Hu & Hb & Hat) Hs Hnf (pre & d & -> & Hd). unfold state_ok; fields. rewrite Hu, Hb. fields.
  split; [parts|]. split; [done|]. exists pre, d, []. parts.
Qed.

Lemma special_authority_ignore_slashes_good before after p :
  at_position before after p -> state p = State.SpecialAuthorityIgnoreSlashes -> state_ok before after p ->
  good p (special_authority_ignore_slashes_state p (c after)).
Proof.
  intros Hpos Hst Hok. unfold state_ok in Hok. rewrite Hst in Hok. destruct Hok as (s & Hs & Hsok & Hnf & Hend).
  unfold special_authority_ignore_slashes_state. destruct (_ && _) eqn:E.
  - eapply good_continue; [done|done|ranked|]. by apply enter_authority with s.
  - destruct after as [|x after]; [done|]. cbn [c] in E. eapply good_advance; [done|done|by right|].
    unfold state_ok. rewrite Hst. exists s. parts; try apply Hs.
    exists before, x. split; [done|blia].
Qed.

(** The path follows a scheme that is not special. *)
Lemma enter_path before after p :
  front_ok (url p) -> no_path_yet (url p) -> buffer p = [] -> state_ok before after (with_state p State.Path).
Proof.
  intros Hf (Hpaths & Hq & Hfr & Hop) Hb. unfold state_ok; fields. rewrite Hpaths, Hb. parts.
Qed.

Lemma path_or_authority_good before after p :
  at_position before after p -> state p = State.PathOrAuthority -> state_ok before after p ->
  good p (path_or_authority_state p (c after)).
Proof.
  intros Hpos Hst Hok. unfold state_ok in Hok. rewrite Hst in Hok. destruct Hok as (s & Hs & Hsok & Hsp).
  unfold path_or_authority_state. destruct (c after =? ch "/") eqn:E.
  - destruct after as [|x after]; [done|]. cbn [c] in E. eapply good_advance; [done|done|ranked|].
    apply enter_authority with s; try done; [by intros ->|]. exists before, x. split; [done|blia].
  - destruct Hs as (Hu & Hb & Hat). eapply good_continue; [done|done|ranked|].
    apply enter_path; rewrite ?Hu; [by apply front_ok_scheme_only|done|done].
Qed.

(** Segments that are left of others. *)
Definition kept_segments (P : bytes -> Prop) (old new : list bytes) : Prop :=
  (Forall P old -> Forall P new) /\ (head new = None \/ head new = head old).

Lemma kept_drive_ok P s old new : kept_segments P old new -> drive_ok s old -> drive_ok s new.
Proof. intros [_ [Hn|Hh]] Hd Hs first Hf; [congruence|]. apply (Hd Hs). congruence. Qed.

Lemma shorten_urls_path_ok u :
  has_an_opaque_path u = false ->
  exists segments, shorten_urls_path u = Ret (with_paths u segments)
    /\ forall P : bytes -> Prop, kept_segments P (paths u) segments.
Proof.
  intros Hop. unfold shorten_urls_path. rewrite Hop. cbn [negb verify].
  assert (Hid : with_paths u (paths u) = u) by (by destruct u).
  destruct (paths u) as [|s0 [|s1 rest]] eqn:Hp.
  - exists []. rewrite Hid. split; [done|]. intros P. split; [done|by left].
  - destruct (_ && _); [exists [s0]; rewrite Hid; split; [done|]; intros P; split; [done|by right]|].
    exists []. split; [done|]. intros P. split; [constructor|by left].
  - eexists. split; [done|]. intros P. split; [|by right]. intros HP.
    rewrite (@app_removelast_last _ (s0 :: s1 :: rest) []) in HP by done. by apply Forall_app in HP as [? _].
Qed.

(** What a relative reference takes from the base URL. *)
Definition based_on (base u : URL) : Prop :=
  scheme u = scheme base /\ username u = username base /\ password u = password base
  /\ host u = host base /\ port u = port base.

Lemma based_on_front base u : url_ok base -> based_on base u -> front_ok u.
Proof. intros [Hf _ _ _] (? & ? & ? & ? & ?). by apply front_ok_ext with base. Qed.

Lemma based_on_segments base u :
  url_ok base -> scheme u = scheme base -> has_an_opaque_path base = false ->
  Forall (segment_ok (is_special u)) (paths base) /\ drive_ok (scheme u) (paths base)
  /\ (is_special u = true \/ host base = None -> paths base <> []).
Proof.
  intros [_ Hp _ _] Hs Hop. unfold path_ok in Hp. rewrite Hop in Hp. unfold is_special in *. by rewrite Hs.
Qed.

(** The three ways a relative reference that keeps the base's path goes on, and
    the one that replaces its last segments. *)
Lemma based_good before after p u base :
  at_position before after p -> buffer p = [] ->
  (2 < rank (state p))%nat ->
  url_ok base -> has_an_opaque_path base = false -> based_on base u ->
  paths u = paths base -> query u = query base -> fragment u = None -> has_an_opaque_path u = false ->
  (c after = ch "?" -> good p (Ret (Advance (with_state (with_url p (with_query u (Some []))) State.Query))))
  /\ (c after = ch "#" -> good p (Ret (Advance (with_state (with_url p (with_fragment u (Some []))) State.Fragment))))
  /\ (c after = end_of_file -> good p (Ret (Advance (with_url p u))))
  /\ forall segments, (forall P : bytes -> Prop, kept_segments P (paths base) segments) ->
       good p (Ret (Continue (with_state (with_url p (with_paths (with_query u None) segments)) State.Path))).
Proof.
  intros Hpos Hb Hr Hbok Hop Hbase Hpaths Hq Hfr Huop.
  pose proof (based_on_front _ _ Hbok Hbase) as Hf. pose proof (proj1 Hbase) as Hscheme.
  destruct (based_on_segments base u Hbok Hscheme Hop) as (Hseg & Hdrive & Hne).
  assert (Hhost : host u = host base) by apply Hbase.
  assert (Hpok : path_ok u) by (unfold path_ok; by rewrite Huop, Hpaths, Hhost).
  assert (Hqok : query_ok u).
  { pose proof (ok_query base Hbok) as Hqb. unfold query_ok, is_special in *. by rewrite Hq, Hscheme. }
  split; [|split; [|split]].
  - intros Hc. destruct after as [|x after]; [done|]. eapply good_advance; [done|done|left; fields; cbn [rank]; lia|].
    unfold state_ok; fields. rewrite Hb. split; [by apply front_ok_ext with u|]. parts.
  - intros Hc. destruct after as [|x after]; [done|]. eapply good_advance; [done|done|left; fields; cbn [rank]; lia|].
    unfold state_ok; fields. rewrite Hb. split; [by apply front_ok_ext with u|]. parts.
  - intros Hc. apply c_eof in Hc; [subst after|by apply (position_range before after p)].
    eapply good_end; [done|done|]. fields. split; try done. unfold fragment_ok. by rewrite Hfr.
  - intros segments Hsegs. eapply good_continue; [done|done|done|]. unfold state_ok; fields. rewrite Hb.
    split; [by apply front_ok_ext with u|]. destruct (Hsegs (segment_ok (is_special u))) as [Hkept _].
    parts; [by apply Hkept|]. by apply (kept_drive_ok _ _ _ _ (Hsegs (segment_ok (is_special u)))).
Qed.


Lemma relative_good before after p :
  at_position before after p -> state p = State.Relative -> state_ok before after p ->
  good p (relative_state base_url p (c after)).
Proof.
  intros Hpos Hst Hok. unfold state_ok in Hok. rewrite Hst in Hok.
  destruct Hok as (s & base & Hbase & (Hu & Hb & Hat) & Hnf & Hop). pose proof (base_ok base Hbase) as Hbok.
  unfold relative_state. rewrite Hbase. cbn [unwrap res_bind]. rewrite sv_eqb_false by done. cbn [verify negb].
  fields. rewrite Hu.
  assert (Hslash : forall x rest, after = x :: rest ->
    good p (Ret (Advance (with_state (with_url p (with_scheme (with_scheme empty_url s) (scheme base)))
                            State.RelativeSlash)))).
  { intros x rest ->. eapply good_advance; [done|done|ranked|]. exists base. unfold started; fields. parts. }
  destruct (c after =? ch "/") eqn:E1; [by destruct after; [|eapply Hslash]|].
  destruct (_ && _) eqn:E2; [by destruct after; [rewrite andb_false_r in E2|eapply Hslash]|].
  set (u := with_query (with_paths (with_port (with_host (with_password (with_username
              (with_scheme (with_scheme empty_url s) (scheme base)) (username base)) (password base))
              (host base)) (port base)) (paths base)) (query base)).
  destruct (based_good before after p u base Hpos Hb ltac:(ranked) Hbok Hop) as (Hq & Hf & He & Hp);
    [by repeat split|done..|].
  destruct (c after =? ch "?") eqn:E3; [apply Hq; lia|].
  destruct (c after =? ch "#") eqn:E4; [apply Hf; lia|].
  destruct (c after =? end_of_file) eqn:E5; cbn [negb]; [apply He; lia|].
  destruct (shorten_urls_path_ok (with_query u None)) as (segments & -> & Hsegs); [done|]. cbn [res_bind].
  by apply Hp.
Qed.

Lemma relative_slash_good before after p :
  at_position before after p -> state p = State.RelativeSlash -> state_ok before after p ->
  good p (relative_slash_state base_url p (c after)).
Proof.
  intros Hpos Hst Hok. unfold state_ok in Hok. rewrite Hst in Hok.
  destruct Hok as (base & Hbase & Hs & Hnf & Hop). pose proof (base_ok base Hbase) as Hbok.
  assert (Hsok : scheme_ok (scheme base)) by apply (front_scheme base), Hbok.
  unfold relative_slash_state. destruct (is_special (url p) && _) eqn:E1.
  - destruct after as [|x after]; [by rewrite andb_false_r in E1|]. cbn [c] in E1.
    eapply good_advance; [done|done|ranked|]. exists (scheme base). parts. exists before, x. split; [done|blia].
  - destruct (c after =? ch "/") eqn:E2.
    + destruct after as [|x after]; [done|]. cbn [c] in E2. eapply good_advance; [done|done|ranked|].
      apply enter_authority with (scheme base); try done. exists before, x. split; [done|blia].
    + rewrite Hbase. cbn [unwrap res_bind]. destruct Hs as (Hu & Hb & Hat).
      eapply good_continue; [done|done|ranked|]. apply enter_path; fields; rewrite ?Hu; [|done|done].
      by apply based_on_front with base.
Qed.


(** *** The authority *)

Lemma split_credentials_ok items seen un pw ub pb :
  code_point_range items ->
  Forall (clean Userinfo) un -> Forall (clean Userinfo) pw ->
  Forall (clean Userinfo) ub -> Forall (clean Userinfo) pb ->
  exists seen' ub' pb', split_credentials items seen un pw ub pb = Ret (seen', ub', pb')
    /\ Forall (clean Userinfo) ub' /\ Forall (clean Userinfo) pb'.
Proof.
  intros Hitems Hun Hpw. revert seen ub pb. induction Hitems as [|x items Hx _ IH]; intros seen ub pb Hub Hpb.
  { by exists seen, ub, pb. }
  cbn [split_credentials]. destruct (_ && _); [by apply IH|].
  assert (Hgrow : forall builder current : bytes, Forall (clean Userinfo) builder -> Forall (clean Userinfo) current ->
    Forall (clean Userinfo) ((if sv_is_empty builder then current else builder) ++ encoded_unit Userinfo x)).
  { intros builder current Hb Hc. apply Forall_app. split; [by destruct (sv_is_empty builder)|].
    by apply encoded_unit_clean. }
  destruct seen; rewrite append_if_necessary_ok by done; cbn [res_bind]; apply IH; auto.
Qed.

Lemma clean_valid set s : Forall (clean set) s -> validate Surrogates_Yes s = true.
Proof. intros Hs. apply ascii_valid. eapply Forall_impl; [exact Hs|]. intros x [Hx _]. lia. Qed.

(** Replacing a credential by a longer one. *)
Lemma longer_credential (old new : bytes) (u : URL) (f : URL -> bytes -> URL) :
  Forall (clean Userinfo) new ->
  (if (length old <? length new)%nat then verify (validate Surrogates_Yes new) (Ret (f u new)) else Ret u)
  = Ret (if (length old <? length new)%nat then f u new else u).
Proof. intros Hn. destruct (_ <? _)%nat; [|done]. by rewrite (clean_valid Userinfo). Qed.

Lemma authority_ok_username u v (b : bool) :
  authority_ok u -> Forall (clean Userinfo) v -> authority_ok (if b then with_username u v else u).
Proof. intros (? & ? & ? & ? & ? & ? & ?) Hv. destruct b; unfold authority_ok, no_path_yet in *; by fields. Qed.

Lemma authority_ok_password u v (b : bool) :
  authority_ok u -> Forall (clean Userinfo) v -> authority_ok (if b then with_password u v else u).
Proof. intros (? & ? & ? & ? & ? & ? & ?) Hv. destruct b; unfold authority_ok, no_path_yet in *; by fields. Qed.

Lemma at_sign_good before after p :
  at_position before (ch "@" :: after) p -> state p = State.Authority ->
  authority_ok (url p) -> all_bytes (buffer p) -> good p (authority_state (utf8_encode cps) p (ch "@")).
Proof.
  intros Hpos Hst Hok Hb. unfold authority_state. cbn [Z.eqb Pos.eqb].
  set (q := if at_sign_seen p then with_buffer p (sv "%40" ++ buffer p) else p).
  assert (Hq : url q = url p /\ state q = state p /\ iterator q = iterator p /\ all_bytes (buffer q)).
  { subst q. destruct (at_sign_seen p); [|done]. parts. fields. by repeat constructor. }
  destruct Hq as (Hqu & Hqs & Hqi & Hqb). fields. pose proof Hok as (_ & _ & Hun & Hpw & _).
  destruct (split_credentials_ok (code_points (buffer q)) (password_token_seen q)
    (username (url q)) (password (url q)) [] []) as (seen & ub & pb & -> & Hub & Hpb);
    [by apply code_points_range|by rewrite Hqu..|constructor|constructor|].
  cbn [res_bind]. rewrite (longer_credential _ _ _ with_username) by done. cbn [res_bind]. fields.
  rewrite (longer_credential _ _ _ with_password) by done. cbn [res_bind]. eapply good_advance; [done|done|right; fields; congruence|].
  unfold state_ok; fields. rewrite Hqs, Hst. split; [|split; [done|]].
  - apply authority_ok_password; [|done]. apply authority_ok_username; [|done]. by rewrite Hqu.
  - exists before, (ch "@"), []. parts.
Qed.


(** Going back to the beginning of the buffer. *)
Lemma backtrack pre d buf after :
  pre ++ d :: buf ++ after = cps -> 0 <= d < 128 ->
  iterator_at_byte_offset (utf8_encode cps)
    (size_t (Z.of_nat (length (utf8_encode cps)) - Z.of_nat (length (utf8_encode after))
             - Z.of_nat (length (utf8_encode buf)) - 1))
  = utf8_encode (d :: buf ++ after).
Proof.
  intros Hcps Hd. pose proof cps_range as Hr. pose proof cps_size as Hsize. rewrite <- Hcps in *.
  apply Forall_app in Hr as [Hpre _]. rewrite utf8_encode_app in *.
  replace (size_t _) with (0 + Z.of_nat (length (utf8_encode pre))).
  { unfold iterator_at_byte_offset. by apply iterator_at_offset_boundary. }
  assert (Hlen : length (utf8_encode (d :: buf ++ after))
    = (1 + length (utf8_encode buf) + length (utf8_encode after))%nat).
  { rewrite utf8_encode_ascii, utf8_encode_app by done. cbn [length]. rewrite length_app. lia. }
  rewrite length_app, Hlen in *. unfold size_t. rewrite Z.mod_small; lia.
Qed.

Lemma authority_good before after p :
  at_position before after p -> state p = State.Authority -> state_ok before after p ->
  good p (authority_state (utf8_encode cps) p (c after)).
Proof.
  intros Hpos Hst Hok. unfold state_ok in Hok. rewrite Hst in Hok.
  destruct Hok as (Hu & Hat & pre & d & buf & Hbefore & Hd & Hb & Hbuf).
  destruct (position_range _ _ _ Hpos) as [Hrb Hra]. pose proof Hpos as [Hcps Hit]. subst before.
  apply Forall_app in Hrb as [Hrpre Hrb]. apply Forall_cons in Hrb as [_ Hrb].
  assert (Hbytes : all_bytes (buffer p)) by (rewrite Hb; by apply utf8_encode_bytes).
  destruct (decide (c after = ch "@")) as [Hc|Hc].
  { destruct after as [|x after]; [done|]. cbn [c] in Hc. subst x. cbn [c]. by apply (at_sign_good (pre ++ d :: buf) after). }
  unfold authority_state. replace (c after =? ch "@") with false by lia.
  destruct (ends_authority p (c after)) eqn:Eend.
  - destruct (at_sign_seen p && sv_is_empty (buffer p)) eqn:Efail; [done|].
    rewrite Hit, Hb. rewrite <- app_assoc in Hcps. cbn [app] in Hcps. rewrite (backtrack pre d) by done.
    right. split; [left; ranked|]. exists pre, d, (buf ++ after). split; [done|].
    unfold state_ok; fields. split; [done|]. split; [constructor|]. intros _ Hterm.
    destruct (at_sign_seen p); [|by apply Hat]. exfalso. rewrite Hb in Efail.
    destruct buf as [|y buf]; [done|]. apply Forall_cons in Hbuf as [Hy _]. cbn [app c] in Hterm. congruence.
  - destruct after as [|x after]; [done|]. apply Forall_cons in Hra as [Hx _]. cbn [c] in *.
    eapply good_advance; [done|done|by right|]. unfold state_ok; fields. rewrite Hst. parts.
    exists pre, d, (buf ++ [x]). rewrite Hb, utf8_encode_snoc, <- app_assoc by done. parts.
    apply Forall_app. split; [done|by apply Forall_singleton].
Qed.


(** *** Host and port *)

Lemma encoded_unit_nonempty set x : encoded_unit set x <> [].
Proof.
  unfold encoded_unit. pose proof (encoded_nonempty x) as Hne.
  destruct (code_point_is_in_percent_encode_set x set); [|done]. by destruct (encoded x).
Qed.

Lemma parse_host_nonempty text is_opaque h :
  all_bytes text -> text <> [] -> parse_host text is_opaque = Ret (Some h) -> is_empty_host h = false.
Proof.
  intros Hb Hne Heq. destruct (parse_host_spec text is_opaque Hb (or_introl Hne)) as (r & Hr & Hok).
  rewrite Heq in Hr. injection Hr as <-. specialize (Hok h eq_refl). destruct h as [| |s]; [done..|].
  destruct is_opaque; [|by destruct s; [destruct Hok|]].
  unfold parse_host in Heq. destruct (starts_with_char _ _).
  { destruct (negb _); [done|]. destruct (substring_view _ _ _); [|done]. cbn [res_bind] in Heq.
    destruct (parse_ipv6_address _) as [[?|]|]; done. }
  unfold parse_opaque_host in Heq. destruct (any_of _ _) as [[]|]; [done| |done]. cbn [res_bind] in Heq.
  rewrite percent_encode_ok in Heq by done. injection Heq as <-. destruct text as [|b text]; [done|].
  rewrite code_points_cons. cbn [mbind list_bind]. cbn [is_empty_host].
  pose proof (encoded_unit_nonempty C0Control (deref_at b text)) as Hu.
  cbn. by destruct (encoded_unit C0Control (deref_at b text)).
Qed.

Lemma bare_with_host u h :
  scheme u <> sv "file" -> cannot_have_a_username_or_password_or_port (with_host u (Some h)) = is_empty_host h.
Proof.
  intros Hnf. unfold cannot_have_a_username_or_password_or_port. fields.
  by rewrite sv_eqb_false, orb_false_r.
Qed.

Lemma authority_front u h :
  authority_ok u -> host_ok (negb (is_special u)) h ->
  (is_empty_host h = true -> username u = [] /\ password u = []) -> front_ok (with_host u (Some h)).
Proof.
  intros (Hs & Hnf & Hun & Hpw & Hh & Hp & _) Hok Hcred. split; try done.
  - by left.
  - unfold url_port_ok. fields. by rewrite Hp.
  - rewrite bare_with_host by done. fields. intros He. by destruct (Hcred He).
Qed.

(** The host is complete: the parser goes on in the port state. *)
Lemma enter_port before after p h :
  authority_ok (url p) -> all_bytes (buffer p) ->
  parse_host (buffer p) (negb (is_special (url p))) = Ret (Some h) ->
  host_ok (negb (is_special (url p))) h ->
  (buffer p = [] -> is_terminator (is_special (url p)) (c after) = true
                    /\ username (url p) = [] /\ password (url p) = []) ->
  state_ok before after
    (with_state (with_buffer (with_url p (with_host (url p) (Some h))) []) State.Port).
Proof.
  intros Hu Hb Hparse Hok Hempty.
  assert (He : is_empty_host h = true -> buffer p = []).
  { intros He. destruct (decide (buffer p = [])) as [|Hne]; [done|].
    by rewrite (parse_host_nonempty _ _ _ Hb Hne Hparse) in He. }
  unfold state_ok; fields. split; [|split; [apply Hu|split; [done|split; [done|]]]].
  - apply authority_front; [done..|]. intros Hh. by apply Hempty, He.
  - rewrite bare_with_host by apply Hu. intros Hh. split; [done|]. by apply Hempty, He.
Qed.

Lemma host_good before after p :
  at_position before after p -> state p = State.Host -> state_ok before after p ->
  good p (host_state None p (c after)).
Proof.
  intros Hpos Hst Hok. unfold state_ok in Hok. rewrite Hst in Hok. destruct Hok as (Hu & Hb & Hcred).
  unfold host_state. cbn [overridden andb]. destruct (_ && _) eqn:Ecolon.
  - destruct (decide (buffer p = [])) as [->|Hne]; [done|].
    replace (sv_is_empty (buffer p)) with false by (by destruct (buffer p)).
    cbn [bool_decide decide_rel option_eq_dec].
    destruct (parse_host_spec _ (negb (is_special (url p))) Hb (or_introl Hne)) as (r & Hr & Hrok).
    rewrite Hr. cbn [res_bind]. destruct r as [h|]; [|done].
    destruct after as [|x after]; [done|]. eapply good_advance; [done|done|ranked|]. by apply enter_port; auto.
  - destruct (ends_authority p (c after)) eqn:Eend.
    + destruct (is_special (url p) && sv_is_empty (buffer p)) eqn:Efail; [done|].
      destruct (parse_host_spec (buffer p) (negb (is_special (url p))) Hb) as (r & Hr & Hrok).
      { destruct (is_special (url p)); [|by right]. left. by destruct (buffer p). }
      rewrite Hr. cbn [res_bind]. destruct r as [h|]; [|done].
      eapply good_continue; [done|done|ranked|]. apply enter_port; auto.
    + destruct after as [|x after]; [done|].
      destruct (position_range _ _ _ Hpos) as [_ Hra]. apply Forall_cons in Hra as [Hx _]. cbn [c] in *.
      set (q := if x =? ch "[" then _ else _).
      assert (Hq : url q = url p /\ state q = state p /\ iterator q = iterator p /\ buffer q = buffer p).
      { subst q. by repeat case_match. }
      destruct Hq as (Hqu & Hqs & Hqi & Hqb).
      eapply good_advance; [done|done|by right|]. unfold state_ok; fields. rewrite Hqs, Hst, Hqu, Hqb.
      rewrite append_code_point_encoded by done. split; [done|]. split.
      * apply Forall_app. split; [done|by apply encoded_bytes].
      * intros Hnil. apply app_eq_nil in Hnil as [_ Hnil]. by apply encoded_nonempty in Hnil.
Qed.

Lemma parse_port_range text n :
  forallb is_ascii_digit text = true -> text <> [] ->
  parse_number (2 ^ 16 - 1) text 10 = Some n -> 0 <= n < 65536.
Proof.
  intros Hd Hne. rewrite parse_number_digits by done.
  destruct (_ <=? _) eqn:E; [|done]. intros [= <-]. split; [|lia].
  apply digits_value_nonneg; [done|]. apply forallb_Forall_iff. apply forallb_Forall_iff in Hd.
  eapply Forall_impl; [exact Hd|]. intros x Hx. by apply is_ascii_digit_hex.
Qed.

Lemma port_good before after p :
  at_position before after p -> state p = State.Port -> state_ok before after p ->
  good p (port_state None p (c after)).
Proof.
  intros Hpos Hst Hok. unfold state_ok in Hok. rewrite Hst in Hok. destruct Hok as (Hf & Hn & Hhost & Hb & Hbare).
  unfold port_state. cbn [overridden]. rewrite orb_false_r. destruct (is_ascii_digit (c after)) eqn:Ed.
  - destruct after as [|x after]; [done|]. cbn [c] in *. eapply good_advance; [done|done|by right|].
    unfold state_ok; fields. rewrite Hst. split; [done|]. split; [done|]. split; [done|]. split.
    + rewrite append_code_point_ascii, forallb_app, Hb by ascii_lia. cbn [forallb]. by rewrite Ed.
    + intros Hc. destruct (Hbare Hc) as [_ Ht]. exfalso. unfold is_terminator in Ht. unfold end_of_file in Ht. ascii_lia.
  - destruct (ends_authority p (c after)) eqn:Eend; [|done].
    destruct (decide (buffer p = [])) as [Hnil|Hne].
    { rewrite Hnil. cbn [sv_is_empty negb]. eapply good_continue; [done|done|ranked|]. unfold state_ok; fields. parts. }
    replace (negb (sv_is_empty (buffer p))) with true by (by destruct (buffer p)).
    destruct (parse_number _ _ _) as [n|] eqn:Hparse; [|done].
    apply parse_port_range in Hparse; [|done..].
    eapply good_continue; [done|done|ranked|]. unfold state_ok; fields. split; [|by parts].
    destruct Hf as [F1 F2 F3 F4 F5 F6]. split; try done.
    + unfold url_port_ok. fields. case_bool_decide as Hdef; [done|]. split; [done|]. congruence.
    + intros Hc. destruct (Hbare Hc) as [Hnil _]. done.
Qed.


(** *** File URLs *)

Lemma file_url_front : front_ok file_url.
Proof. split; try done; [by exists 102, (sv "ile")|by right]. Qed.

(** A drive letter may be left in the buffer when the path starts. *)
Lemma drive_letter_path_chars special text :
  is_windows_drive_letter text = true -> Forall (path_char special) text.
Proof.
  destruct text as [|a [|b [|]]]; try done. cbn [is_windows_drive_letter]. intros E.
  assert (Hclean : forall x, is_ascii_alpha x || (x =? 58) || (x =? 124) = true -> path_char special x).
  { intros x Hx. split; [|split; [|intros _]]; [apply is_clean_spec|ascii_lia..].
    unfold is_clean, code_point_is_in_percent_encode_set, u8. rewrite Z.mod_small by ascii_lia.
    cbn [contains_char existsb]. ascii_lia. }
  repeat (apply Forall_cons; split); [apply Hclean; ascii_lia..|constructor].
Qed.

(** What is taken from a base URL whose scheme is file. *)
Lemma file_base base :
  url_ok base -> scheme base = sv "file" ->
  username base = [] /\ password base = [] /\ port base = None /\ has_an_opaque_path base = false
  /\ paths base <> [] /\ Forall (segment_ok true) (paths base) /\ drive_ok (scheme base) (paths base).
Proof.
  intros Hok Hs. assert (Hsp : is_special base = true) by (by apply file_is_special).
  assert (Hop : has_an_opaque_path base = false) by (apply special_not_opaque; [apply Hok|done]).
  destruct (front_bare base (ok_front base Hok)) as (Hun & Hpw & Hp).
  { unfold cannot_have_a_username_or_password_or_port. rewrite Hs.
    by destruct (Url.host base); rewrite ?orb_true_r. }
  destruct (based_on_segments base base Hok eq_refl Hop) as (Hseg & Hdrive & Hne). rewrite Hsp in Hseg. auto 10.
Qed.

Lemma file_good before after p :
  at_position before after p -> state p = State.File -> state_ok before after p ->
  good p (file_state base_url p (c after)).
Proof.
  intros Hpos Hst Hok. unfold state_ok in Hok. rewrite Hst in Hok. destruct Hok as (s & Hu & Hb & Hat).
  unfold file_state. rewrite Hu.
  change (with_host (with_scheme (with_scheme empty_url s) (sv "file")) (Some (HostString []))) with file_url.
  assert (Hpath : good p (Ret (Continue (with_state (with_url p file_url) State.Path)))).
  { eapply good_continue; [done|done|ranked|]. apply enter_path; [apply file_url_front|done|done]. }
  destruct (_ || _) eqn:Eslash.
  { destruct after as [|x after]; [done|]. eapply good_advance; [done|done|ranked|]. by split. }
  destruct base_url as [base|] eqn:Hbase; [|done].
  destruct (sv_eqb (scheme base) (sv "file")) eqn:Hf; [|done]. apply sv_eqb_true in Hf.
  pose proof (base_ok base eq_refl) as Hbok. destruct (file_base base Hbok Hf) as (Hun & Hpw & Hpo & Hop & _).
  set (u := with_query (with_paths (with_host file_url (host base)) (paths base)) (query base)).
  destruct (based_good before after p u base Hpos Hb ltac:(ranked) Hbok Hop) as (Hq & Hfr & He & Hp);
    [by repeat split|done..|].
  destruct (c after =? ch "?") eqn:E3; [apply Hq; lia|].
  destruct (c after =? ch "#") eqn:E4; [apply Hfr; lia|].
  destruct (c after =? end_of_file) eqn:E5; cbn [negb]; [apply He; lia|].
  destruct (starts_with_windows_drive_letter _); cbn [negb res_bind].
  - apply (Hp []). intros P. split; [constructor|by left].
  - destruct (shorten_urls_path_ok (with_query u None)) as (segments & -> & Hsegs); [done|]. by apply Hp.
Qed.

Lemma file_slash_good before after p :
  at_position before after p -> state p = State.FileSlash -> state_ok before after p ->
  good p (file_slash_state base_url p (c after)).
Proof.
  intros Hpos Hst Hok. unfold state_ok in Hok. rewrite Hst in Hok. destruct Hok as (Hu & Hb).
  unfold file_slash_state. rewrite Hu. destruct (_ || _) eqn:Eslash.
  { destruct after as [|x after]; [done|]. eapply good_advance; [done|done|ranked|]. split; [done|].
    fields. rewrite Hb. constructor. }
  assert (Hpath : good p (Ret (Continue (with_state (with_url p file_url) State.Path)))).
  { eapply good_continue; [done|done|ranked|]. apply enter_path; [apply file_url_front|done|done]. }
  destruct base_url as [base|] eqn:Hbase; [|done].
  destruct (sv_eqb (scheme base) (sv "file")) eqn:Hf; [|done]. apply sv_eqb_true in Hf.
  pose proof (base_ok base eq_refl) as Hbok.
  destruct (file_base base Hbok Hf) as (Hun & Hpw & Hpo & Hop & Hne & Hseg & _).
  assert (Hbased : forall segments, Forall (segment_ok true) segments -> drive_ok (sv "file") segments ->
    good p (Ret (Continue (with_state (with_url p (with_paths (with_host file_url (host base)) segments)) State.Path)))).
  { intros segments Hsegs Hdrive. eapply good_continue; [done|done|ranked|]. unfold state_ok; fields. rewrite Hb.
    split; [|by parts]. apply (based_on_front base); [done|]. by repeat split. }
  destruct (starts_with_windows_drive_letter _); cbn [negb res_bind]; [by apply (Hbased [])|].
  destruct (paths base) as [|first rest] eqn:Hpb; [done|]. apply Forall_cons in Hseg as [Hfirst _].
  cbn [at_index unwrap lookup list_lookup res_bind].
  destruct (is_normalized_windows_drive_letter first) eqn:Hnorm; cbn [res_bind]; [|by apply (Hbased [])].
  apply (Hbased [first]); [by apply Forall_singleton|]. intros _ first' [= <-]. done.
Qed.

Lemma file_host_good before after p :
  at_position before after p -> state p = State.FileHost -> state_ok before after p ->
  good p (file_host_state None p (c after)).
Proof.
  intros Hpos Hst Hok. unfold state_ok in Hok. rewrite Hst in Hok. destruct Hok as (Hu & Hb).
  unfold file_host_state. cbn [overridden negb andb]. destruct (_ || _) eqn:Eend.
  - destruct (is_windows_drive_letter (buffer p)) eqn:Ed.
    { eapply good_continue; [done|done|ranked|]. unfold state_ok; fields. rewrite Hu.
      split; [apply file_url_front|]. parts. by apply drive_letter_path_chars. }
    destruct (decide (buffer p = [])) as [Hnil|Hne].
    { rewrite Hnil. cbn [sv_is_empty]. rewrite Hu. eapply good_continue; [done|done|ranked|].
      split; [apply file_url_front|done]. }
    replace (sv_is_empty (buffer p)) with false by (by destruct (buffer p)). rewrite Hu.
    destruct (parse_host_spec (buffer p) false Hb (or_introl Hne)) as (r & Hr & Hrok).
    change (negb (is_special file_url)) with false. rewrite Hr. cbn [res_bind]. destruct r as [h|]; [|done].
    eapply good_continue; [done|done|ranked|]. unfold state_ok; fields. split; [|done].
    pose proof file_url_front as [F1 F2 F3 F4 F5 F6]. split; try done.
    case_bool_decide; [by right|left; split; [by apply Hrok|done]].
  - destruct after as [|x after]; [done|].
    destruct (position_range _ _ _ Hpos) as [_ Hra]. apply Forall_cons in Hra as [Hx _]. cbn [c] in *.
    eapply good_advance; [done|done|by right|]. unfold state_ok; fields. rewrite Hst. split; [done|].
    rewrite append_code_point_encoded by done. apply Forall_app. split; [done|by apply encoded_bytes].
Qed.


(** *** The path *)

Lemma path_start_good before after p :
  at_position before after p -> state p = State.PathStart -> state_ok before after p ->
  good p (path_start_state None p (c after)).
Proof.
  intros Hpos Hst Hok. unfold state_ok in Hok. rewrite Hst in Hok. destruct Hok as (Hf & Hn & Hhost & Hb).
  pose proof Hn as (Hpaths & Hq & Hfr & Hop).
  assert (Hstay : good p (Ret (Continue (with_state p State.Path)))).
  { eapply good_continue; [done|done|ranked|]. by apply enter_path. }
  assert (Hmove : forall x rest, after = x :: rest -> good p (Ret (Advance (with_state p State.Path)))).
  { intros x rest ->. eapply good_advance; [done|done|ranked|]. by apply enter_path. }
  unfold path_start_state. cbn [overridden negb andb]. destruct (is_special (url p)) eqn:Hsp.
  { destruct (_ && _) eqn:E; [done|]. destruct after as [|x after]; [done|by eapply Hmove]. }
  assert (Hpok : path_ok (url p)) by (unfold path_ok; rewrite Hop, Hpaths, Hsp; parts; by intros [?|?]).
  destruct (c after =? ch "?") eqn:E1.
  { destruct after as [|x after]; [done|]. eapply good_advance; [done|done|ranked|]. unfold state_ok; fields.
    rewrite Hb. split; [by apply front_ok_ext with (url p)|]. parts. }
  destruct (c after =? ch "#") eqn:E2.
  { destruct after as [|x after]; [done|]. eapply good_advance; [done|done|ranked|]. unfold state_ok; fields.
    rewrite Hb. split; [by apply front_ok_ext with (url p)|]. split; [done|]. split; [|apply Forall_nil_2].
    unfold query_ok. fields. by rewrite Hq. }
  destruct (c after =? end_of_file) eqn:E3; cbn [negb].
  - destruct (position_range _ _ _ Hpos) as [_ Hra]. destruct after as [|x after].
    + eapply good_end; [done|done|]. split; try done; unfold query_ok, fragment_ok; by rewrite ?Hq, ?Hfr.
    + apply Z.eqb_eq, c_eof in E3; [|done]. done.
  - destruct (negb _) eqn:E4; [done|]. destruct after as [|x after]; [done|by eapply Hmove].
Qed.

Lemma empty_segment_ok special : segment_ok special [].
Proof. split; [constructor|by split]. Qed.

Lemma drive_letter_segment_ok special a :
  path_char special a -> is_ascii_alpha a = true -> segment_ok special [a; ch ":"].
Proof.
  intros Ha Halpha. split; [|split].
  - apply Forall_cons. split; [done|]. apply Forall_singleton. split; [by apply is_clean_spec|done].
  - unfold is_single_dot_path_segment. cbn [equals_ignoring_ascii_case length Nat.eqb negb].
    rewrite orb_false_r. by apply sv_eqb_false.
  - unfold is_double_dot_path_segment. cbn [equals_ignoring_ascii_case length Nat.eqb negb].
    rewrite !orb_false_r. apply sv_eqb_false. by intros [= ].
Qed.

Lemma drive_ok_snoc s segments x :
  drive_ok s segments ->
  (segments = [] -> s = sv "file" -> is_windows_drive_letter x = true -> is_normalized_windows_drive_letter x = true) ->
  drive_ok s (segments ++ [x]).
Proof.
  intros Hd Hx Hs first Hf. destruct segments as [|y segments]; cbn in Hf; injection Hf as <-; [by apply Hx|].
  by apply (Hd Hs).
Qed.

(** The segment that is appended is normalized if it is a drive letter. *)
Lemma pushed_segment_ok u segment :
  Forall (path_char (is_special u)) segment ->
  is_single_dot_path_segment segment = false -> is_double_dot_path_segment segment = false ->
  let pushed :=
    if sv_eqb (scheme u) (sv "file") && match paths u with [] => true | _ => false end
       && is_windows_drive_letter segment
    then take 1 segment ++ [ch ":"] else segment in
  segment_ok (is_special u) pushed
  /\ (paths u = [] -> scheme u = sv "file" -> is_windows_drive_letter pushed = true ->
      is_normalized_windows_drive_letter pushed = true).
Proof.
  intros Hnew Hs Hd. cbv zeta. destruct (sv_eqb _ _ && _ && _) eqn:Edrive.
  - apply andb_prop in Edrive as [_ Edrive]. destruct segment as [|a [|b [|]]]; try done.
    cbn [is_windows_drive_letter] in Edrive. apply andb_prop in Edrive as [Ha _].
    apply Forall_cons in Hnew as [Hpa _]. split; [by apply drive_letter_segment_ok|].
    intros _ _ _. cbn. by rewrite Ha.
  - split; [by split; [|split]|]. intros Hp Hf Hdrive. rewrite Hp, Hf, sv_eqb_refl, Hdrive in Edrive. done.
Qed.

Lemma finish_segment_ok u segment code_point :
  has_an_opaque_path u = false -> Forall (segment_ok (is_special u)) (paths u) ->
  drive_ok (scheme u) (paths u) -> Forall (path_char (is_special u)) segment ->
  exists segments, finish_segment u segment code_point = Ret (with_paths u segments)
    /\ Forall (segment_ok (is_special u)) segments /\ drive_ok (scheme u) segments
    /\ ((code_point =? ch "/") || (is_special u && (code_point =? ch "\")) = false -> segments <> []).
Proof.
  intros Hop Hseg Hdrive Hnew. unfold finish_segment. set (slash := (_ || _)).
  assert (Hempty : forall segments, Forall (segment_ok (is_special u)) segments -> drive_ok (scheme u) segments ->
    Forall (segment_ok (is_special u)) (segments ++ [[]]) /\ drive_ok (scheme u) (segments ++ [[]])
    /\ segments ++ [[]] <> []).
  { intros segments Hs Hd. split; [|split; [by apply drive_ok_snoc|by destruct segments]].
    apply Forall_app. split; [done|]. apply Forall_singleton, empty_segment_ok. }
  assert (Hid : with_paths u (paths u) = u) by (by destruct u).
  destruct (is_double_dot_path_segment segment) eqn:Hdd.
  - destruct (shorten_urls_path_ok u Hop) as (segments & -> & Hkept). cbn [res_bind].
    pose proof (proj1 (Hkept (segment_ok (is_special u))) Hseg) as Hsegs.
    pose proof (kept_drive_ok _ _ _ _ (Hkept (segment_ok (is_special u))) Hdrive) as Hd.
    destruct (Hempty _ Hsegs Hd) as (? & ? & ?). destruct slash; cbn [negb]; eexists; split; try done.
  - destruct (is_single_dot_path_segment segment) eqn:Hd; cbn [negb andb].
    + destruct (Hempty _ Hseg Hdrive) as (? & ? & ?).
      destruct slash; cbn [negb]; [exists (paths u); by rewrite Hid|by exists (paths u ++ [[]])].
    + destruct (pushed_segment_ok u segment Hnew Hd Hdd) as [Hpushed Hnorm]. eexists. split; [done|].
      split; [apply Forall_app; split; [done|by apply Forall_singleton]|].
      split; [by apply drive_ok_snoc|by destruct (paths u)].
Qed.

Lemma path_good before after p :
  at_position before after p -> state p = State.Path -> state_ok before after p ->
  good p (path_state None p (c after)).
Proof.
  intros Hpos Hst Hok. unfold state_ok in Hok. rewrite Hst in Hok. destruct Hok as (Hf & Hop & Hq & Hfr & Hseg & Hdrive & Hb).
  destruct (position_range _ _ _ Hpos) as [_ Hra].
  unfold path_state. cbn [overridden negb andb]. destruct (_ || _) eqn:Eend.
  - destruct (finish_segment_ok (url p) (buffer p) (c after) Hop Hseg Hdrive Hb)
      as (segments & -> & Hsegs & Hdr & Hne).
    cbn [res_bind]. fields. set (u := with_paths (url p) segments) in *.
    assert (Hfu : front_ok u) by (by apply front_ok_ext with (url p)).
    assert (Hpu : (c after =? ch "/") || (is_special (url p) && (c after =? ch "\")) = false -> path_ok u).
    { intros Hs. unfold path_ok. subst u. fields. rewrite Hop. split; [done|]. split; [done|]. intros _. by apply Hne. }
    destruct (c after =? ch "?") eqn:E1.
    { destruct after as [|x after]; [done|]. cbn [c] in *. eapply good_advance; [done|done|ranked|].
      unfold state_ok; fields. split; [by apply front_ok_ext with u|]. split; [|by parts].
      apply Hpu. replace (x =? ch "\") with false by lia. rewrite andb_false_r. lia. }
    destruct (c after =? ch "#") eqn:E2.
    { destruct after as [|x after]; [done|]. cbn [c] in *. eapply good_advance; [done|done|ranked|].
      unfold state_ok; fields. split; [by apply front_ok_ext with u|]. split; [|split; [|apply Forall_nil_2]].
      - apply Hpu. replace (x =? ch "\") with false by lia. rewrite andb_false_r. lia.
      - unfold query_ok, u. fields. by rewrite Hq. }
    destruct after as [|x after].
    + eapply good_end; [done|done|]. fields. split; [done|apply Hpu; by rewrite andb_false_r|..];
        unfold query_ok, fragment_ok, u; fields; by rewrite ?Hq, ?Hfr.
    + eapply good_advance; [done|done|by right|]. unfold state_ok; fields. rewrite Hst. parts.
  - destruct after as [|x after]; [done|]. apply Forall_cons in Hra as [Hx _]. cbn [c] in *.
    rewrite append_if_necessary_ok by done. cbn [res_bind].
    eapply good_advance; [done|done|by right|]. unfold state_ok; fields. rewrite Hst. parts.
    apply Forall_app. split; [done|]. apply encoded_unit_path_char; [done|lia|].
    intros Hsp. rewrite Hsp in Eend. lia.
Qed.


Lemma opaque_path_app a b : opaque_path_ok a -> opaque_path_ok b -> opaque_path_ok (a ++ b).
Proof. intros Ha Hb. by apply Forall_app. Qed.

Lemma head_encoded_unit set x :
  0 <= x <= 0x10FFFF -> x <> ch "/" -> head (encoded_unit set x) <> Some (ch "/").
Proof.
  intros Hx Hne. assert (Hall : Forall (fun b => b <> ch "/") (encoded_unit set x)).
  { apply encoded_unit_forall; [done..|]. intros d Hd. by destruct (upper_hex_plain d Hd). }
  destruct Hall; cbn; [done|]. congruence.
Qed.

Lemma opaque_path_good before after p :
  at_position before after p -> state p = State.OpaquePath -> state_ok before after p ->
  good p (opaque_path_state p (c after)).
Proof.
  intros Hpos Hst Hok. unfold state_ok in Hok. rewrite Hst in Hok.
  destruct Hok as (Hf & Hop & Hq & Hfr & Hsp & Hh & Hpaths & Hb & Hhead & Hnext).
  destruct (position_range _ _ _ Hpos) as [_ Hra].
  unfold opaque_path_state. rewrite Hpaths. cbn [verify].
  set (u := with_paths (url p) [buffer p]).
  assert (Hfu : front_ok u) by (by apply front_ok_ext with (url p)).
  assert (Hpu : path_ok u).
  { unfold path_ok, u. fields. rewrite Hop. split; [done|]. split; [done|]. by exists (buffer p). }
  assert (Hqu : query_ok u) by (unfold query_ok, u; fields; by rewrite Hq).
  assert (Hstay : forall x rest text, after = x :: rest -> opaque_path_ok text -> text <> [] ->
    (buffer p = [] -> head text <> Some (ch "/")) ->
    good p (Ret (Advance (with_buffer p (buffer p ++ text))))).
  { intros x rest text -> Htext Hne Hslash. eapply good_advance; [done|done|by right|]. unfold state_ok; fields.
    rewrite Hst. split; [done|]. parts; [by apply opaque_path_app|by destruct (buffer p); [apply Hslash|]|].
    intros Hnil. by apply app_eq_nil in Hnil as [_ ?]. }
  destruct (c after =? ch "?") eqn:E1.
  { destruct after as [|x after]; [done|]. eapply good_advance; [done|done|ranked|]. unfold state_ok; fields.
    split; [by apply front_ok_ext with u|]. parts. }
  destruct (c after =? ch "#") eqn:E2.
  { destruct after as [|x after]; [done|]. eapply good_advance; [done|done|ranked|]. unfold state_ok; fields.
    split; [by apply front_ok_ext with u|]. parts. }
  destruct after as [|x after].
  { eapply good_end; [done|done|]. fields. split; try done. unfold fragment_ok, u. fields. by rewrite Hfr. }
  apply Forall_cons in Hra as [Hx _]. cbn [c] in *. destruct (x =? 32) eqn:E3.
  - destruct (position_remaining _ _ _ _ Hpos) as [-> _]. cbn [res_bind].
    destruct (_ || _); (eapply Hstay; [done|apply opaque_path_decide; reflexivity|done|done]).
  - replace (x =? end_of_file) with false by (unfold end_of_file; lia). cbn [negb].
    rewrite append_if_necessary_ok by done. cbn [res_bind]. apply (Hstay x after); [done|..].
    + apply encoded_unit_opaque_char; [done|lia|lia].
    + apply encoded_unit_nonempty.
    + intros Hnil. apply head_encoded_unit; [done|by apply Hnext].
Qed.

(** *** The query and the fragment *)

Lemma utf8_encoder_ok : exists e, utf8_encoder = Ret e.
Proof. by eexists. Qed.

Lemma buffer_append text x :
  all_bytes text -> 0 <= x <= 0x10FFFF -> all_bytes (append_code_point text x).
Proof.
  intros Ht Hx. rewrite append_code_point_encoded by done. apply Forall_app.
  split; [done|by apply encoded_bytes].
Qed.

Lemma query_good before after p :
  at_position before after p -> state p = State.Query -> state_ok before after p ->
  good p (query_state None p (c after)).
Proof.
  intros Hpos Hst Hok. unfold state_ok in Hok. rewrite Hst in Hok. destruct Hok as (Hf & Hp & Hfr & Hb).
  destruct (position_range _ _ _ Hpos) as [_ Hra]. unfold query_state. cbn [overridden negb andb].
  assert (Hq : exists e, (if negb (is_special (url p)) || sv_eqb (scheme (url p)) (sv "ws")
      || sv_eqb (scheme (url p)) (sv "wss")
    then let* encoder := utf8_encoder in Ret (with_encoder p encoder) else Ret p) = Ret (with_encoder p e)).
  { destruct (_ || _); [|by exists (encoder p); destruct p]. destruct utf8_encoder_ok as [e ->]. by exists e. }
  destruct Hq as [e ->]. cbn [res_bind]. fields. destruct (_ || _) eqn:Eend.
  - destruct (percent_encode_after_encoding_clean e (buffer p) (query_set (is_special (url p))) Hb)
      as (text & Htext & Hclean).
    unfold query_set in Htext. rewrite Htext. cbn [res_bind]. set (u := with_query (url p) (Some text)).
    assert (Hqu : query_ok u) by exact Hclean.
    destruct (c after =? ch "#") eqn:E1.
    + destruct after as [|x after]; [done|]. eapply good_advance; [done|done|ranked|]. unfold state_ok; fields.
      split; [by apply front_ok_ext with (url p)|]. parts.
    + cbn [orb] in Eend. apply Z.eqb_eq, c_eof in Eend; [|done]. subst after. eapply good_end; [done|done|].
      fields. split; [by apply front_ok_ext with (url p)|done|done|]. unfold fragment_ok, u. fields. by rewrite Hfr.
  - destruct after as [|x after]; [by rewrite orb_true_r in Eend|]. apply Forall_cons in Hra as [Hx _]. cbn [c].
    eapply good_advance; [done|done|by right|]. unfold state_ok; fields. rewrite Hst. parts.
    by apply buffer_append.
Qed.

Lemma fragment_good before after p :
  at_position before after p -> state p = State.Fragment -> state_ok before after p ->
  good p (fragment_state p (c after)).
Proof.
  intros Hpos Hst Hok. unfold state_ok in Hok. rewrite Hst in Hok. destruct Hok as (Hf & Hp & Hq & Hb).
  destruct (position_range _ _ _ Hpos) as [_ Hra]. unfold fragment_state. destruct after as [|x after].
  - cbn [c]. rewrite Z.eqb_refl. cbn [negb]. destruct utf8_encoder_ok as [e ->]. cbn [res_bind].
    destruct (percent_encode_after_encoding_clean e (buffer p) Fragment Hb) as (text & -> & Hclean).
    cbn [res_bind]. eapply good_end; [done|done|]. fields. split; [by apply front_ok_ext with (url p)|done..].
  - apply Forall_cons in Hra as [Hx _]. cbn [c].
    replace (x =? end_of_file) with false by (unfold end_of_file; lia). cbn [negb].
    eapply good_advance; [done|done|by right|]. unfold state_ok; fields. rewrite Hst. parts.
    by apply buffer_append.
Qed.

(** *** The loop *)

Lemma run_state_good before after p :
  at_position before after p -> state_ok before after p ->
  good p (run_state (utf8_encode cps) base_url None p (c after)).
Proof.
  intros Hpos Hok. unfold run_state. destruct (state p) eqn:Hst.
  - by apply scheme_start_good with before.
  - by apply scheme_good with before.
  - by apply no_scheme_good with before.
  - by apply special_relative_or_authority_good with before.
  - by apply path_or_authority_good with before.
  - by apply relative_good with before.
  - by apply relative_slash_good with before.
  - by apply special_authority_slashes_good with before.
  - by apply special_authority_ignore_slashes_good with before.
  - by apply authority_good with before.
  - by apply host_good with before.
  - unfold state_ok in Hok. by rewrite Hst in Hok.
  - by apply port_good with before.
  - by apply file_good with before.
  - by apply file_slash_good with before.
  - by apply file_host_good with before.
  - by apply path_start_good with before.
  - by apply path_good with before.
  - by apply opaque_path_good with before.
  - by apply query_good with before.
  - by apply fragment_good with before.
Qed.

(** The iterations that are left. *)
Definition measure (p : parser) : nat :=
  rank (state p) * (length (utf8_encode cps) + 2) + length (iterator p).

Lemma iterator_bound before after p :
  at_position before after p -> (length (iterator p) <= length (utf8_encode cps))%nat.
Proof. intros [<- ->]. rewrite utf8_encode_app, length_app. lia. Qed.

Lemma measure_rank p p' :
  (rank (state p') < rank (state p))%nat -> (length (iterator p') <= length (utf8_encode cps))%nat ->
  (measure p' < measure p)%nat.
Proof. intros Hr Hl. unfold measure. nia. Qed.

(** What one iteration may do, for an invariant [I] of the machine and a
    postcondition [Q] of its results. *)
Definition step_good (I : list Z -> list Z -> parser -> Prop) (Q : URL -> bool -> Prop) (p : parser)
    (result : res outcome) : Prop :=
  match result with
  | Crash => False
  | Ret (Return u ok) => Q u ok
  | Ret (Continue p') =>
      (rank (state p') < rank (state p))%nat /\ exists before after, at_position before after p' /\ I before after p'
  | Ret (Advance p') =>
      (iterator p' = [] /\ Q (url p') true)
      \/ ((rank (state p') < rank (state p))%nat \/ state p' = state p /\ iterator p' = iterator p)
         /\ exists before x after, at_position before (x :: after) p'
              /\ I (before ++ [x]) after (with_iterator p' (utf8_encode after))
  end.

(** The loop ends in [Q] when every iteration keeps [I]. *)
Lemma run_ends state_override I Q :
  (forall before after p, at_position before after p -> I before after p ->
    step_good I Q p (run_state (utf8_encode cps) base_url state_override p (c after))) ->
  forall fuel before after p, at_position before after p -> I before after p -> (measure p < fuel)%nat ->
  exists u ok, run (utf8_encode cps) base_url state_override fuel p = Ret (u, ok) /\ Q u ok.
Proof.
  intros Hstep. induction fuel as [|fuel IH]; intros before after p Hpos Hok Hm; [lia|].
  destruct (position_range _ _ _ Hpos) as [_ Hra]. cbn [run]. rewrite (position_iterator _ _ _ Hpos).
  rewrite current_code_point by done. cbn [res_bind].
  pose proof (Hstep before after p Hpos Hok) as Hgood.
  destruct (run_state _ _ _ _ _) as [[p'|p'|u ok]|]; cbn [res_bind]; [| | |done].
  - destruct Hgood as [[Hend Hu]|[Hr (before' & x & after' & Hpos' & Hok')]].
    { rewrite Hend. cbn [iterator_done]. eauto. }
    destruct (position_remaining _ _ _ _ Hpos') as [_ Hincr].
    assert (Hne : iterator_done (iterator p') = false) by (by destruct (iterator p')).
    rewrite Hne, Hincr. cbn [res_bind]. apply (IH (before' ++ [x]) after').
    + split; [|done]. rewrite <- app_assoc. apply Hpos'.
    + done.
    + pose proof (iterator_bound _ _ _ Hpos') as Hl'.
      assert (Hshort : (length (utf8_encode after') < length (iterator p'))%nat).
      { rewrite (position_iterator _ _ _ Hpos'). destruct (position_range _ _ _ Hpos') as [_ Hr'].
        apply Forall_cons in Hr' as [Hx _]. rewrite utf8_encode_cons, length_app by done.
        pose proof (encoded_nonempty x). destruct (encoded x); [done|simpl; lia]. }
      destruct Hr as [Hr|[Hs Hi]].
      * pose proof (measure_rank p (with_iterator p' (utf8_encode after')) Hr ltac:(cbn; lia)). lia.
      * unfold measure in *. cbn [state iterator with_iterator]. rewrite Hs, <- Hi in *. lia.
  - destruct Hgood as [Hr (before' & after' & Hpos' & Hok')]. apply (IH before' after'); [done..|].
    pose proof (measure_rank p p' Hr (iterator_bound _ _ _ Hpos')). lia.
  - by exists u, ok.
Qed.

Lemma run_terminates fuel before after p :
  at_position before after p -> state_ok before after p -> (measure p < fuel)%nat ->
  exists u ok, run (utf8_encode cps) base_url None fuel p = Ret (u, ok) /\ (ok = true -> url_ok u).
Proof.
  apply (run_ends None state_ok (fun u ok => ok = true -> url_ok u)).
  clear fuel before after p. intros before after p Hpos Hok.
  pose proof (run_state_good before after p Hpos Hok) as Hgood. unfold good, step_good in *.
  destruct (run_state _ _ _ _ _) as [[p'|p'|u ok]|]; [|done|congruence|done].
  destruct Hgood as [[? ?]|[Hr (before' & x & after' & Hpos' & Hok')]]; [by left|]. right. split; [done|].
  by exists before', x, after'.
Qed.

End safety.

(** ** The entry points *)

Lemma encoded_high x : 128 <= x <= 0x10FFFF -> Forall (fun b => 128 <= b) (encoded x).
Proof.
  intros Hx. unfold encoded. rewrite (proj2 (Z.leb_gt x 127)) by lia.
  repeat case_match; repeat (apply Forall_cons; split); try constructor; bool_to_prop; euclid.
Qed.

Lemma encoded_length x : (length (encoded x) <= 4)%nat.
Proof. unfold encoded. repeat case_match; simpl; lia. Qed.

Definition kept_byte (b : Z) : bool := negb (is_ascii_tab_or_newline b).

Lemma filter_encoded x :
  0 <= x <= 0x10FFFF -> List.filter kept_byte (encoded x) = if kept_byte x then encoded x else [].
Proof.
  intros Hx. destruct (decide (x < 128)).
  - unfold encoded. rewrite (proj2 (Z.leb_le x 127)) by lia. cbn [List.filter]. done.
  - pose proof (encoded_high x ltac:(lia)) as Hh.
    replace (kept_byte x) with true by (unfold kept_byte, is_ascii_tab_or_newline; lia).
    induction Hh as [|b s Hb _ IH]; [done|]. cbn [List.filter]. rewrite IH.
    by replace (kept_byte b) with true by (unfold kept_byte, is_ascii_tab_or_newline; lia).
Qed.

(** Removing tabs and newlines removes these code points. *)
Lemma filter_utf8_encode cps :
  code_point_range cps -> List.filter kept_byte (utf8_encode cps) = utf8_encode (List.filter kept_byte cps).
Proof.
  induction 1 as [|x cps Hx _ IH]; [done|]. rewrite utf8_encode_cons, List.filter_app, filter_encoded, IH by done.
  cbn [List.filter]. destruct (kept_byte x); [|done]. by rewrite utf8_encode_cons.
Qed.

Lemma strip_leading_suffix s : exists pre, s = pre ++ strip_leading s.
Proof.
  induction s as [|b s [pre IH]]; [by exists []|]. cbn [strip_leading].
  destruct (negb _); [by exists []|]. exists (b :: pre). cbn. by f_equal.
Qed.

Lemma strip_middle s : exists pre post, s = pre ++ strip s ++ post.
Proof.
  unfold strip. destruct (strip_leading_suffix s) as [pre Hpre].
  destruct (strip_leading_suffix (rev (strip_leading s))) as [post Hpost]. exists pre, (rev post).
  rewrite Hpre at 1. f_equal. by rewrite <- rev_app_distr, <- Hpost, rev_involutive.
Qed.

Lemma strip_bytes s : all_bytes s -> all_bytes (strip s) /\ (length (strip s) <= length s)%nat.
Proof.
  destruct (strip_middle s) as (pre & post & Heq). intros Hs. rewrite Heq in Hs at 1.
  apply Forall_app in Hs as [_ Hs]. apply Forall_app in Hs as [Hs _]. split; [done|].
  rewrite Heq at 2. rewrite !length_app. lia.
Qed.

Lemma code_points_length s : (length (code_points s) <= length s)%nat.
Proof.
  unfold code_points. generalize (length s) as n. intros n. revert s.
  induction n as [|n IH]; intros [|b s]; simpl; try lia. specialize (IH (incr_at b s)). lia.
Qed.

Lemma replacement_loop_length items builder :
  code_point_range items ->
  (length (fold_left (fun builder code_point =>
      if is_unicode_surrogate code_point
      then append_code_point builder REPLACEMENT_CODE_POINT
      else append_code_point builder code_point) items builder) <= length builder + 4 * length items)%nat.
Proof.
  intros Hitems. revert builder. induction Hitems as [|x items Hx _ IH]; intros builder; cbn [fold_left]; [lia|].
  etrans; [apply IH|]. cbn [length].
  assert (Hone : forall y, 0 <= y <= 0x10FFFF -> (length (append_code_point builder y) <= length builder + 4)%nat).
  { intros y Hy. rewrite append_code_point_encoded, length_app by done. pose proof (encoded_length y). lia. }
  destruct (is_unicode_surrogate x); [pose proof (Hone REPLACEMENT_CODE_POINT ltac:(by vm_compute))|pose proof (Hone x Hx)]; lia.
Qed.

(** A bound on the input that keeps every offset into it below 2^64. *)
Definition fits (raw_input : bytes) : Prop :=
  all_bytes raw_input /\ Z.of_nat (length raw_input) < 2 ^ 62.

Section entry_facts.
Context `{LookupTablesLaws, IcuLaws, SimdutfLaws, FastFloatLaws}.

Lemma from_utf8_length s :
  all_bytes s -> (length (from_utf8_with_replacement_character s false) <= 4 * length s)%nat.
Proof.
  intros Hs. unfold from_utf8_with_replacement_character. cbn [andb]. destruct (validate _ _); [lia|].
  pose proof (replacement_loop_length (code_points s) [] (code_points_range s Hs)) as Hl.
  pose proof (code_points_length s). cbn [length] in Hl. lia.
Qed.

(** What the state machine is run on. *)
Lemma process_input_ok raw_input url_given :
  all_bytes raw_input ->
  exists cps, scalars cps /\ process_input raw_input url_given = Ret (utf8_encode cps)
    /\ (length (utf8_encode cps) <= 4 * length raw_input)%nat.
Proof.
  intros Hraw. unfold process_input. set (raw := if url_given then _ else _).
  assert (Hr : all_bytes raw /\ (length raw <= length raw_input)%nat).
  { subst raw. destruct url_given; [by split|by apply strip_bytes]. }
  destruct Hr as [Hb Hlen]. pose proof (from_utf8_length raw Hb) as Hl.
  destruct (from_utf8_well_formed raw false Hb) as (cps & Hcps & Heq). rewrite Heq in *.
  destruct (contains_ascii_tab_or_newline _); [|exists cps; split; [done|split; [done|lia]]].
  unfold remove_ascii_tab_or_newline. change (fun b => negb (is_ascii_tab_or_newline b)) with kept_byte.
  pose proof (scalars_range _ Hcps) as Hrange. rewrite filter_utf8_encode by done.
  assert (Hkept : scalars (List.filter kept_byte cps)).
  { rewrite Forall_forall in *. intros x Hx. apply Hcps.
    apply list_elem_of_In, List.filter_In in Hx as [Hx _]. by apply list_elem_of_In. }
  exists (List.filter kept_byte cps). split; [done|]. split.
  - by rewrite validate_well_formed by (by exists (List.filter kept_byte cps)).
  - rewrite <- filter_utf8_encode by done. etrans; [apply List.filter_length_le|]. lia.
Qed.

Lemma select_encoder_ok encoding : exists e, select_encoder encoding = Ret e.
Proof.
  unfold select_encoder. assert (Hutf8 : exists e, encoder_for (sv "utf-8") = Some e) by (by eexists).
  destruct Hutf8 as [e ->]. destruct (match encoding with Some _ => _ | None => _ end); by eexists.
Qed.

(** [basic_parse_into] without a URL and a state override. *)
Lemma basic_parse_into_ok raw_input base_url encoding :
  fits raw_input -> (forall base, base_url = Some base -> url_ok base) ->
  exists u ok, basic_parse_into raw_input base_url None None encoding = Ret (u, ok)
    /\ (ok = true -> url_ok u).
Proof.
  intros [Hb Hsize] Hbase. unfold basic_parse_into.
  destruct (process_input_ok raw_input false Hb) as (cps & Hcps & -> & Hlen). cbn [res_bind].
  destruct (select_encoder_ok encoding) as [e ->]. cbn [res_bind default].
  apply (run_terminates cps base_url (scalars_range _ Hcps)) with (before := []) (after := cps).
  - change (2 ^ 64) with (4 * 2 ^ 62). lia.
  - done.
  - done.
  - by repeat split.
  - unfold measure, parse_fuel. cbn [state iterator rank]. lia.
Qed.

Lemma basic_parse_ok raw_input base_url encoding :
  fits raw_input -> (forall base, base_url = Some base -> url_ok base) ->
  exists result, basic_parse raw_input base_url encoding = Ret result
    /\ (forall u, result = Some u -> url_ok u).
Proof.
  intros Hin Hbase. destruct (basic_parse_into_ok raw_input base_url encoding Hin Hbase) as (u & ok & Heq & Hok).
  unfold basic_parse. rewrite Heq. cbn [res_bind]. eexists. split; [done|].
  intros v Hv. destruct ok; [|done]. injection Hv as <-. auto.
Qed.

End entry_facts.
