(* ===== verification/UrlTheorems.v ===== *)
(** * What the URL parser guarantees

    The properties of [Parser::basic_parse], [URL::complete_url] and
    [URL::origin] that follow from the invariant of [UrlSafety], and the
    results of the shortest relative references. *)

From S2P Require Import Prelude CharacterTypes Utf8 Strings TextCodec Percent Ipv4 Ipv6 Host Origin Url UrlParser UrlFacts UrlSafety.

(** ** Facts: running the machine *)

(** The code units of a query or fragment, percent-encoded. *)
Definition encode_units (set : PercentEncodeSet) (text : bytes) : bytes :=
  text ≫= fun b => if code_point_is_in_percent_encode_set b set then pct b else [b].

(** An input that reaches the state machine as it is. *)
Definition unchanged (raw_input : bytes) : Prop :=
  well_formed_utf8 raw_input /\ contains_ascii_tab_or_newline raw_input = false
  /\ strip raw_input = raw_input.

(** A URL resolved from another one has no blob entry of its own. *)
Definition resolved (u : URL) : URL := with_blob_url_entry u None.

(** The base URL, when there is one, is a URL the parser may have returned. *)
Definition base_url_ok `{Icu, Simdutf, FastFloat} (base_url : option URL) : Prop :=
  forall base, base_url = Some base -> url_ok base.

Section running.
Context `{LookupTablesLaws, IcuLaws, SimdutfLaws, FastFloatLaws}.

Lemma process_input_unchanged raw_input :
  unchanged raw_input -> process_input raw_input false = Ret raw_input.
Proof.
  intros (Hw & Ht & Hs). unfold process_input. rewrite Hs, from_utf8_identity by done. by rewrite Ht.
Qed.

Variable input : bytes.
Variable base_url : option URL.

(** One iteration. *)
Lemma run_step fuel p after result :
  code_point_range after -> iterator p = utf8_encode after ->
  run_state input base_url None p (c after) = Ret result ->
  run input base_url None (S fuel) p =
    match result with
    | Return url success => Ret (url, success)
    | Continue p => run input base_url None fuel p
    | Advance p =>
        if iterator_done (iterator p) then Ret (url p, true)
        else let* iterator := iterator_incr (iterator p) in run input base_url None fuel (with_iterator p iterator)
    end.
Proof.
  intros Hr Hit Hstep. cbn [run]. rewrite Hit, current_code_point by done. cbn [res_bind]. by rewrite Hstep.
Qed.

(** An iteration that stays where it is. *)
Lemma run_continue fuel p after p' :
  code_point_range after -> iterator p = utf8_encode after ->
  run_state input base_url None p (c after) = Ret (Continue p') ->
  run input base_url None (S fuel) p = run input base_url None fuel p'.
Proof. intros Hr Hit Hstep. by rewrite (run_step fuel p after _ Hr Hit Hstep). Qed.

(** An iteration that moves over one code point. *)
Lemma run_advance fuel p x after p' :
  code_point_range (x :: after) -> iterator p = utf8_encode (x :: after) ->
  run_state input base_url None p x = Ret (Advance p') ->
  iterator p' = iterator p ->
  run input base_url None (S fuel) p = run input base_url None fuel (with_iterator p' (utf8_encode after)).
Proof.
  intros Hr Hit Hstep Heq. rewrite (run_step fuel p (x :: after) _ Hr Hit Hstep), Heq, Hit.
  apply Forall_cons in Hr as [Hx _]. destruct (iterator_view x after Hx) as (b0 & rest & -> & _ & Hi & _).
  cbn [iterator_done iterator_incr res_bind]. by rewrite Hi.
Qed.

(** The last iteration. *)
Lemma run_end fuel p p' :
  iterator p = [] -> run_state input base_url None p end_of_file = Ret (Advance p') ->
  iterator p' = [] -> run input base_url None (S fuel) p = Ret (url p', true).
Proof.
  intros Hit Hstep Hit'. rewrite (run_step fuel p [] _ (Forall_nil_2 _) Hit Hstep). by rewrite Hit'.
Qed.

Lemma utf8_encoder_value : utf8_encoder = Ret UTF8Encoder.
Proof. done. Qed.

Lemma run_fragment fuel after p :
  code_point_range after -> (length after < fuel)%nat -> state p = State.Fragment ->
  iterator p = utf8_encode after -> all_bytes (buffer p) ->
  run input base_url None fuel p
  = Ret (with_fragment (url p) (Some (encode_units Fragment (buffer p ++ utf8_encode after))), true).
Proof.
  intros Hr. revert p fuel. induction Hr as [|x after Hx Hr IH]; intros p [|fuel] Hf Hs Hit Hb; cbn in Hf; try lia.
  - assert (Hstep : run_state input base_url None p end_of_file
      = Ret (Advance (with_buffer (with_url p
          (with_fragment (url p) (Some (encode_units Fragment (buffer p))))) []))).
    { unfold run_state. rewrite Hs. unfold fragment_state. rewrite utf8_encoder_value.
      cbn [Z.eqb end_of_file Pos.eqb negb res_bind]. by rewrite percent_encode_after_utf8_ok. }
    rewrite (run_end fuel p _ Hit Hstep Hit). by rewrite app_nil_r.
  - assert (Hstep : run_state input base_url None p x
      = Ret (Advance (with_buffer p (append_code_point (buffer p) x)))).
    { unfold run_state. rewrite Hs. unfold fragment_state. by replace (x =? end_of_file) with false by (unfold end_of_file; lia). }
    rewrite (run_advance fuel p x after _ (Forall_cons_2 _ _ _ Hx Hr) Hit Hstep eq_refl).
    rewrite IH; [|lia|done|done|by apply buffer_append]. cbn [url buffer with_iterator with_buffer].
    by rewrite append_code_point_encoded, utf8_encode_cons, <- app_assoc by done.
Qed.

(** The query state with the UTF-8 encoder. *)
Lemma query_state_append p x :
  state p = State.Query -> encoder p = UTF8Encoder -> 0 <= x <= 0x10FFFF -> x <> ch "#" ->
  run_state input base_url None p x = Ret (Advance (with_buffer p (append_code_point (buffer p) x))).
Proof.
  intros Hs He Hx Hne. unfold run_state. rewrite Hs. unfold query_state. rewrite utf8_encoder_value.
  assert (Hp : with_encoder p UTF8Encoder = p) by (destruct p; cbn in He; by subst).
  cbn [res_bind]. rewrite Hp. replace (x =? end_of_file) with false by (unfold end_of_file; lia).
  replace (x =? ch "#") with false by (cbn in *; lia). by destruct (_ || sv_eqb _ (sv "wss")).
Qed.

Lemma query_state_finish p x :
  state p = State.Query -> encoder p = UTF8Encoder -> all_bytes (buffer p) -> x = ch "#" \/ x = end_of_file ->
  let u := with_query (url p) (Some (encode_units (query_set (is_special (url p))) (buffer p))) in
  run_state input base_url None p x
  = Ret (Advance (if x =? ch "#"
                  then with_state (with_buffer (with_url p (with_fragment u (Some []))) []) State.Fragment
                  else with_buffer (with_url p u) [])).
Proof.
  intros Hs He Hb Hx. unfold run_state. rewrite Hs. unfold query_state. rewrite utf8_encoder_value.
  assert (Hp : with_encoder p UTF8Encoder = p) by (destruct p; cbn in He; by subst).
  cbn [res_bind]. rewrite Hp. destruct (_ || sv_eqb _ (sv "wss")); cbn [res_bind];
    destruct Hx as [-> | ->]; cbn [overridden negb andb orb Z.eqb end_of_file Pos.eqb]; rewrite He;
    unfold query_set; by rewrite percent_encode_after_utf8_ok.
Qed.

Lemma run_query fuel after p :
  code_point_range after -> Forall (fun x => x <> ch "#") after -> (length after < fuel)%nat ->
  state p = State.Query -> iterator p = utf8_encode after -> all_bytes (buffer p) -> encoder p = UTF8Encoder ->
  run input base_url None fuel p
  = Ret (with_query (url p) (Some (encode_units (query_set (is_special (url p))) (buffer p ++ utf8_encode after))), true).
Proof.
  intros Hr. revert p fuel. induction Hr as [|x after Hx Hr IH]; intros p [|fuel] Hno Hf Hs Hit Hb He; cbn in Hf; try lia.
  - pose proof (query_state_finish p end_of_file Hs He Hb (or_intror eq_refl)) as Hstep. cbn zeta in Hstep.
    rewrite (run_end fuel p _ Hit Hstep Hit). by rewrite app_nil_r.
  - apply Forall_cons in Hno as [Hxn Hno].
    pose proof (query_state_append p x Hs He Hx Hxn) as Hstep.
    rewrite (run_advance fuel p x after _ (Forall_cons_2 _ _ _ Hx Hr) Hit Hstep eq_refl).
    rewrite IH; [|done|lia|done|done|by apply buffer_append|done]. cbn [url buffer with_iterator with_buffer].
    by rewrite append_code_point_encoded, utf8_encode_cons, <- app_assoc by done.
Qed.

End running.

Section references.
Context `{LookupTablesLaws, IcuLaws, SimdutfLaws, FastFloatLaws}.
Variable base : URL.
Hypothesis base_ok : url_ok base.

(** The machine in a state, before anything is read of [raw_input]. *)
Definition at_start (raw_input : bytes) (s : State.t) : parser := {|
  url := empty_url; state := s; buffer := []; at_sign_seen := false; inside_brackets := false;
  password_token_seen := false; iterator := raw_input; encoder := UTF8Encoder |}.

(** What is returned for the result of the loop. *)
Definition returned (r : res (URL * bool)) : res (option URL) :=
  let* (url, success) := r in Ret (if success then Some url else None).

Lemma complete_url_run raw_input after :
  unchanged raw_input -> code_point_range after -> raw_input = utf8_encode after ->
  is_ascii_alpha (c after) = false ->
  complete_url base raw_input
  = returned (run raw_input (Some base) None (25 + 13 * length raw_input) (at_start raw_input State.NoScheme)).
Proof.
  intros Hun Hr Hraw Halpha. unfold complete_url, basic_parse, basic_parse_into.
  rewrite process_input_unchanged by done. change (select_encoder None) with (Ret UTF8Encoder). cbn [res_bind default].
  replace (parse_fuel (length raw_input)) with (S (25 + 13 * length raw_input)) by (unfold parse_fuel; lia).
  change {| url := _; state := _ |} with (at_start raw_input State.SchemeStart).
  assert (Hstep : run_state raw_input (Some base) None (at_start raw_input State.SchemeStart) (c after)
    = Ret (Continue (at_start raw_input State.NoScheme))).
  { unfold run_state. cbn [at_start state]. unfold scheme_start_state. by rewrite Halpha. }
  rewrite (run_continue raw_input (Some base) _ (at_start raw_input State.SchemeStart) after _ Hr Hraw Hstep).
  unfold returned. reflexivity.
Qed.

(** The state that copies from a base whose path is not opaque. *)
Definition copying_state : State.t :=
  if sv_eqb (scheme base) (sv "file") then State.File else State.Relative.

Definition base_copy : URL := resolved (with_fragment base None).

Lemma file_members :
  scheme base = sv "file" -> username base = [] /\ password base = [] /\ port base = None.
Proof. intros Hs. destruct (file_base base base_ok Hs) as (? & ? & ? & _). done. Qed.

(** What the copying state does on the code points that keep the path. *)
Lemma copying_state_step raw_input x :
  has_an_opaque_path base = false ->
  (x = ch "?" -> run_state raw_input (Some base) None (at_start raw_input copying_state) x
     = Ret (Advance (with_state (with_url (at_start raw_input copying_state)
                                  (with_query base_copy (Some []))) State.Query)))
  /\ (x = ch "#" -> run_state raw_input (Some base) None (at_start raw_input copying_state) x
     = Ret (Advance (with_state (with_url (at_start raw_input copying_state)
                                  (with_fragment base_copy (Some []))) State.Fragment)))
  /\ (x = end_of_file -> run_state raw_input (Some base) None (at_start raw_input copying_state) x
     = Ret (Advance (with_url (at_start raw_input copying_state) base_copy))).
Proof.
  intros Hop. pose proof file_members as Hfile. unfold copying_state, base_copy.
  destruct base as [s un pw h po pa q f op bl]. cbn [scheme has_an_opaque_path username password port] in *.
  subst op. destruct (sv_eqb s (sv "file")) eqn:Hs.
  - apply sv_eqb_true in Hs as Hs'. destruct (Hfile Hs') as (-> & -> & ->). subst s.
    repeat split; intros ->; reflexivity.
  - unfold run_state. cbn [at_start state]. unfold relative_state. cbn [unwrap res_bind scheme]. rewrite Hs.
    cbn [negb verify]. repeat split; intros ->; cbn [Z.eqb Pos.eqb end_of_file]; rewrite ?andb_false_r; reflexivity.
Qed.

Lemma no_scheme_to_copying raw_input after fuel :
  has_an_opaque_path base = false -> code_point_range after -> raw_input = utf8_encode after ->
  run raw_input (Some base) None (S fuel) (at_start raw_input State.NoScheme)
  = run raw_input (Some base) None fuel (at_start raw_input copying_state).
Proof.
  intros Hop Hr Hraw. apply (run_continue raw_input (Some base) fuel _ after); [done|done|].
  cbn [run_state at_start state]. unfold no_scheme_state, copying_state. rewrite Hop. cbn [andb].
  by destruct (sv_eqb (scheme base) (sv "file")).
Qed.

(** A reference that starts with [x] goes to the state the step gives. *)
Lemma reference_advance x after p' :
  has_an_opaque_path base = false -> unchanged (utf8_encode (x :: after)) ->
  code_point_range (x :: after) -> is_ascii_alpha x = false ->
  run_state (utf8_encode (x :: after)) (Some base) None
    (at_start (utf8_encode (x :: after)) copying_state) x = Ret (Advance p') ->
  iterator p' = utf8_encode (x :: after) ->
  complete_url base (utf8_encode (x :: after))
  = returned (run (utf8_encode (x :: after)) (Some base) None (23 + 13 * length (utf8_encode (x :: after)))
                (with_iterator p' (utf8_encode after))).
Proof.
  intros Hop Hun Hr Halpha Hstep Hit.
  rewrite (complete_url_run _ (x :: after) Hun Hr eq_refl Halpha).
  change (25 + 13 * ?n)%nat with (S (S (23 + 13 * n))).
  rewrite (no_scheme_to_copying _ (x :: after) _ Hop Hr eq_refl).
  by rewrite (run_advance _ _ _ (at_start _ copying_state) x after _ Hr eq_refl Hstep Hit).
Qed.

Lemma empty_unchanged : unchanged [].
Proof. split; [by exists []|done]. Qed.

Lemma resolve_empty :
  has_an_opaque_path base = false -> complete_url base [] = Ret (Some base_copy).
Proof.
  intros Hop. rewrite (complete_url_run [] [] empty_unchanged (Forall_nil_2 _) eq_refl eq_refl).
  change (25 + 13 * @length Z [])%nat with (S (S 23)).
  rewrite (no_scheme_to_copying [] [] _ Hop (Forall_nil_2 _) eq_refl).
  destruct (copying_state_step [] end_of_file Hop) as (_ & _ & Hstep).
  by rewrite (run_end _ _ _ (at_start _ copying_state) _ eq_refl (Hstep eq_refl) eq_refl).
Qed.

Lemma length_utf8_encode after : code_point_range after -> (length after <= length (utf8_encode after))%nat.
Proof.
  induction 1 as [|x after Hx _ IH]; [done|]. rewrite utf8_encode_cons, length_app by done.
  pose proof (encoded_nonempty x). destruct (encoded x); [done|]. cbn [length app]. lia.
Qed.

Lemma resolve_query after :
  has_an_opaque_path base = false -> unchanged (utf8_encode (ch "?" :: after)) ->
  code_point_range after -> Forall (fun x => x <> ch "#") after ->
  complete_url base (utf8_encode (ch "?" :: after))
  = Ret (Some (with_query base_copy (Some (encode_units (query_set (is_special base)) (utf8_encode after))))).
Proof.
  intros Hop Hun Hr Hno.
  assert (Hr' : code_point_range (ch "?" :: after)) by (constructor; [cbn; lia|done]).
  destruct (copying_state_step (utf8_encode (ch "?" :: after)) (ch "?") Hop) as (Hstep & _ & _).
  rewrite (reference_advance _ after _ Hop Hun Hr' eq_refl (Hstep eq_refl) eq_refl).
  pose proof (length_utf8_encode _ Hr') as Hlen. cbn [length] in Hlen.
  rewrite (run_query _ _ _ after); [reflexivity|done|done|lia|done|done|constructor|done].
Qed.

(** The members that a URL with an opaque path does not have. *)
Lemma opaque_members :
  has_an_opaque_path base = true -> username base = [] /\ password base = [] /\ host base = None /\ port base = None.
Proof.
  intros Hop. pose proof (ok_path base base_ok) as Hp. unfold path_ok in Hp. rewrite Hop in Hp.
  destruct Hp as (_ & Hh & _). destruct (front_bare base (ok_front base base_ok)) as (? & ? & ?); [|done].
  unfold cannot_have_a_username_or_password_or_port. by rewrite Hh.
Qed.

Lemma no_scheme_fragment raw_input :
  has_an_opaque_path base = true ->
  run_state raw_input (Some base) None (at_start raw_input State.NoScheme) (ch "#")
  = Ret (Advance (with_state (with_url (at_start raw_input State.NoScheme)
                               (with_fragment base_copy (Some []))) State.Fragment)).
Proof.
  intros Hop. destruct (opaque_members Hop) as (Hun & Hpw & Hh & Hpo). unfold base_copy.
  destruct base as [s un pw h po pa q f op bl]. cbn in *. by subst.
Qed.

Lemma resolve_fragment after :
  unchanged (utf8_encode (ch "#" :: after)) -> code_point_range after ->
  complete_url base (utf8_encode (ch "#" :: after))
  = Ret (Some (with_fragment base_copy (Some (encode_units Fragment (utf8_encode after))))).
Proof.
  intros Hun Hr.
  assert (Hr' : code_point_range (ch "#" :: after)) by (constructor; [cbn; lia|done]).
  pose proof (length_utf8_encode _ Hr') as Hlen. cbn [length] in Hlen.
  destruct (has_an_opaque_path base) eqn:Hop.
  - rewrite (complete_url_run _ _ Hun Hr' eq_refl eq_refl). change (25 + 13 * ?n)%nat with (S (24 + 13 * n)).
    rewrite (run_advance _ _ _ (at_start _ State.NoScheme) (ch "#") after _ Hr' eq_refl
      (no_scheme_fragment _ Hop) eq_refl).
    rewrite (run_fragment _ _ _ after); [reflexivity|done|lia|done|done|constructor].
  - destruct (copying_state_step (utf8_encode (ch "#" :: after)) (ch "#") Hop) as (_ & Hstep & _).
    rewrite (reference_advance _ after _ Hop Hun Hr' eq_refl (Hstep eq_refl) eq_refl).
    rewrite (run_fragment _ _ _ after); [reflexivity|done|lia|done|done|constructor].
Qed.

End references.

(** ** Facts: origins *)

Lemma clean_byte set b : clean set b -> is_byte b = true.
Proof. intros [Hb _]. unfold is_byte. lia. Qed.

Section origins.
Context `{LookupTablesLaws, IcuLaws, SimdutfLaws, FastFloatLaws}.

Lemma slash_segments_bytes special segments : Forall (segment_ok special) segments -> all_bytes (slash_segments segments).
Proof.
  intros Hs. unfold slash_segments. apply Forall_bind. eapply Forall_impl; [exact Hs|]. intros segment [Hseg _].
  constructor; [done|]. eapply Forall_impl; [exact Hseg|]. intros b [Hb _]. by apply clean_byte in Hb.
Qed.

Lemma serialize_path_bytes u : path_ok u -> exists text, serialize_path u = Ret text /\ all_bytes text.
Proof.
  unfold path_ok, serialize_path. destruct (has_an_opaque_path u).
  - intros (_ & _ & path & -> & Hp & _). exists path. split; [done|]. eapply Forall_impl; [exact Hp|].
    cbn beta. intros b [Hb _]. by apply clean_byte in Hb.
  - intros [Hs _]. eexists. split; [done|]. by eapply slash_segments_bytes.
Qed.

(** The schemes whose origin is a scheme, a host and a port. *)
Definition network_schemes : list bytes := [sv "ftp"; sv "http"; sv "https"; sv "ws"; sv "wss"].

Lemma network_scheme_special u : existsb (sv_eqb (scheme u)) network_schemes = true -> is_special u = true.
Proof.
  unfold is_special, is_special_scheme. cbn [existsb network_schemes special_schemes].
  destruct (sv_eqb _ (sv "ftp")), (sv_eqb _ (sv "file")), (sv_eqb _ (sv "http")); cbn [orb]; auto.
Qed.

Lemma special_host u : url_ok u -> is_special u = true -> exists h, host u = Some h.
Proof.
  intros Hu Hs. pose proof (front_host u (ok_front u Hu)) as Hh. unfold url_host_ok in Hh.
  destruct (host u) as [h|]; [by exists h|congruence].
Qed.

Lemma tuple_origin_total u nonce : url_ok u -> exists o, tuple_origin u nonce = Ret o.
Proof.
  intros Hu. unfold tuple_origin. destruct (existsb _ _) eqn:E.
  - destruct (special_host u Hu (network_scheme_special u E)) as [h ->]. by eexists.
  - destruct (_ || _); by eexists.
Qed.

Lemma origin_total u nonce :
  url_ok u -> (forall path, serialize_path u = Ret path -> Z.of_nat (length path) < 2 ^ 62) ->
  exists o, origin u nonce = Ret o.
Proof.
  intros Hu Hlen. unfold origin. destruct (sv_eqb _ _); [|by apply tuple_origin_total].
  destruct (blob_url_entry u); [by eexists|].
  destruct (serialize_path_bytes u (ok_path u Hu)) as (path & Hpath & Hb). rewrite Hpath. cbn [res_bind].
  destruct (basic_parse_ok path None None) as (r & -> & Hr); [by split; [|apply Hlen]|done|]. cbn [res_bind].
  destruct r as [v|]; [|by eexists]. destruct (existsb _ _); [|by eexists].
  apply tuple_origin_total. by apply Hr.
Qed.

End origins.

(** ** Properties *)

(** C1: the URL parser returns on every byte string that is given to it, with
    or without a well-formed base URL and for every encoding label: no [VERIFY]
    fails, no iterator or vector is read out of bounds, and the state machine
    stops within [13 * (n + 2)] iterations; and a URL that it returns is
    well-formed.  (Inputs are shorter than 2^62 bytes, so that no offset into
    the decoded input wraps around.) *)
Theorem basic_parse_safe `{LookupTablesLaws, IcuLaws, SimdutfLaws, FastFloatLaws}
    (raw_input : bytes) (base_url : option URL) (encoding : option bytes)
    (Hin : fits raw_input) (Hbase : base_url_ok base_url) :
  exists result, basic_parse raw_input base_url encoding = Ret result
    /\ (forall u, result = Some u -> url_ok u).
Proof. by apply basic_parse_ok. Qed.

(** A special URL that the parser returns has a host, which is not empty
    unless the scheme is file, a path of at least one segment that is not
    opaque, no default port, and no credentials or port if it is a file URL. *)
Theorem parsed_special_url `{LookupTablesLaws, IcuLaws, SimdutfLaws, FastFloatLaws}
    (raw_input : bytes) (base_url : option URL) (encoding : option bytes) (u : URL)
    (Hin : fits raw_input) (Hbase : base_url_ok base_url)
    (Hparse : basic_parse raw_input base_url encoding = Ret (Some u)) (Hs : is_special u = true) :
  (exists h, host u = Some h /\ (is_empty_host h = true -> scheme u = sv "file"))
  /\ has_an_opaque_path u = false /\ paths u <> []
  /\ (forall n, port u = Some n -> 0 <= n < 65536 /\ default_port_for_scheme (scheme u) <> Some n)
  /\ (scheme u = sv "file" -> username u = [] /\ password u = [] /\ port u = None).
Proof.
  destruct (basic_parse_ok raw_input base_url encoding Hin Hbase) as (r & Hr & Hok).
  rewrite Hparse in Hr. injection Hr as <-. specialize (Hok u eq_refl).
  assert (Hop : has_an_opaque_path u = false) by (apply special_not_opaque; [apply Hok|done]).
  split; [|split; [done|split; [|split]]].
  - destruct (special_host u Hok Hs) as [h Hh]. exists h. split; [done|]. intros He.
    pose proof (front_host u (ok_front u Hok)) as Hhost. unfold url_host_ok in Hhost. rewrite Hh, Hs in Hhost.
    destruct Hhost as [[Hhost _]|[_ Hf]]; [|done]. destruct h as [| |text]; try done. by destruct text; [destruct Hhost|].
  - pose proof (ok_path u Hok) as Hp. unfold path_ok in Hp. rewrite Hop in Hp. apply Hp. by left.
  - intros n Hn. pose proof (front_port u (ok_front u Hok)) as Hp. unfold url_port_ok in Hp. by rewrite Hn in Hp.
  - intros Hf. destruct (file_base u Hok Hf) as (? & ? & ? & _). done.
Qed.

(** The accessors that serialize a URL and compute its origin return on
    every well-formed URL, hence on every URL the parser returns; the origin of
    a URL with a network scheme is its scheme, host and port. *)
Theorem parsed_url_origin `{LookupTablesLaws, IcuLaws, SimdutfLaws, FastFloatLaws} (u : URL)
    (nonce : bytes) (exclude : ExcludeFragment) (Hu : url_ok u)
    (Hlen : forall path, serialize_path u = Ret path -> Z.of_nat (length path) < 2 ^ 62) :
  (exists text, serialize u exclude = Ret text)
  /\ (exists o, origin u nonce = Ret o)
  /\ (existsb (sv_eqb (scheme u)) network_schemes = true ->
      exists h, host u = Some h /\ origin u nonce = Ret (TupleOrigin (Some (scheme u)) h (port u) None)).
Proof.
  split; [by apply serialize_ok|]. split; [by apply origin_total|]. intros Hn.
  destruct (special_host u Hu (network_scheme_special u Hn)) as [h Hh]. exists h. split; [done|].
  unfold origin. rewrite sv_eqb_false by (intros Hb; by rewrite Hb in Hn).
  unfold tuple_origin. unfold network_schemes in Hn. by rewrite Hn, Hh.
Qed.

(** The empty reference resolves to the base URL without its fragment. *)
Theorem empty_reference `{LookupTablesLaws, IcuLaws, SimdutfLaws, FastFloatLaws} (base : URL)
    (Hbase : url_ok base) (Hop : has_an_opaque_path base = false) :
  complete_url base [] = Ret (Some (resolved (with_fragment base None))).
Proof. by apply resolve_empty. Qed.

(** A reference that is only a query keeps everything of the base URL in
    front of the query, drops the fragment, and replaces the query by the
    percent-encoded text. *)
Theorem query_reference `{LookupTablesLaws, IcuLaws, SimdutfLaws, FastFloatLaws} (base : URL)
    (text : list Z) (Hbase : url_ok base) (Hop : has_an_opaque_path base = false)
    (Hin : unchanged (utf8_encode (ch "?" :: text))) (Hr : Forall (fun x => 0 <= x <= 0x10FFFF) text)
    (Hno : Forall (fun x => x <> ch "#") text) :
  complete_url base (utf8_encode (ch "?" :: text))
  = Ret (Some (resolved (with_fragment (with_query base
      (Some (encode_units (query_set (is_special base)) (utf8_encode text)))) None))).
Proof. by rewrite (resolve_query base Hbase). Qed.

(** A reference that is only a fragment changes nothing of the base URL
    but the fragment, which becomes the percent-encoded text, even if the path
    of the base URL is opaque. *)
Theorem fragment_reference `{LookupTablesLaws, IcuLaws, SimdutfLaws, FastFloatLaws} (base : URL)
    (text : list Z) (Hbase : url_ok base)
    (Hin : unchanged (utf8_encode (ch "#" :: text))) (Hr : Forall (fun x => 0 <= x <= 0x10FFFF) text) :
  complete_url base (utf8_encode (ch "#" :: text))
  = Ret (Some (resolved (with_fragment base (Some (encode_units Fragment (utf8_encode text)))))).
Proof. by rewrite (resolve_fragment base Hbase). Qed.

(** ** Witnesses *)

Lemma fits_decide raw_input :
  forallb is_byte raw_input && (Z.of_nat (length raw_input) <? 2 ^ 62) = true -> fits raw_input.
Proof.
  intros Hb. apply andb_prop in Hb as [Hb Hl]. apply forallb_Forall_iff in Hb. split; [done|lia].
Qed.

Definition example_text : bytes := sv "HTTP://me:pw@EXAMPLE.com:8080/a/./x/../b c?q#f".

(** http://me:pw@example.com:8080/a/b%20c?q#f *)
Definition example_url : URL := {|
  scheme := sv "http"; username := sv "me"; password := sv "pw";
  host := Some (HostString (sv "example.com")); port := Some 8080; paths := [sv "a"; sv "b%20c"];
  query := Some (sv "q"); fragment := Some (sv "f"); has_an_opaque_path := false; blob_url_entry := None
|}.

Lemma example_parse : basic_parse example_text None None = Ret (Some example_url).
Proof. vm_compute. reflexivity. Qed.

Lemma example_url_ok : url_ok example_url.
Proof.
  destruct (basic_parse_ok example_text None None) as (r & Hr & Hok); [by apply fits_decide|done|].
  rewrite example_parse in Hr. injection Hr as <-. by apply Hok.
Qed.

Lemma basic_parse_safe_witness :
  (exists result, basic_parse (sv "../c d?%zz") (Some example_url) (Some (sv "windows-1252")) = Ret result
    /\ (forall u, result = Some u -> url_ok u))
  /\ (u ← (match basic_parse (sv "../c d?%zz") (Some example_url) None with Ret r => r | Crash => None end);
      Some (paths u)) = Some [sv "c%20d"].
Proof.
  split; [|vm_compute; reflexivity].
  apply basic_parse_safe; [by apply fits_decide|]. intros base [= <-]. apply example_url_ok.
Defined.

Lemma parsed_special_url_witness :
  (exists h, host example_url = Some h /\ (is_empty_host h = true -> scheme example_url = sv "file"))
  /\ has_an_opaque_path example_url = false /\ paths example_url <> []
  /\ (forall n, port example_url = Some n ->
        0 <= n < 65536 /\ default_port_for_scheme (scheme example_url) <> Some n)
  /\ (scheme example_url = sv "file" ->
        username example_url = [] /\ password example_url = [] /\ port example_url = None).
Proof.
  apply (parsed_special_url example_text None None example_url);
    [by apply fits_decide|done|exact example_parse|reflexivity].
Defined.

Lemma parsed_url_origin_witness :
  (exists text, serialize example_url ExcludeFragment_No = Ret text)
  /\ (exists o, origin example_url [] = Ret o)
  /\ (existsb (sv_eqb (scheme example_url)) network_schemes = true ->
      exists h, host example_url = Some h
        /\ origin example_url [] = Ret (TupleOrigin (Some (scheme example_url)) h (port example_url) None)).
Proof.
  apply parsed_url_origin; [apply example_url_ok|]. intros path Hp. vm_compute in Hp. injection Hp as <-.
  vm_compute. reflexivity.
Defined.

Lemma unchanged_decide raw_input :
  forallb (fun b => (0x21 <=? b) && (b <=? 0x7E)) raw_input = true -> unchanged raw_input.
Proof.
  intros Hb. apply forallb_Forall_iff in Hb. split; [|split].
  - apply well_formed_ascii. eapply Forall_impl; [exact Hb|]. cbn. lia.
  - apply existsb_false_forall. eapply Forall_impl; [exact Hb|]. unfold is_ascii_tab_or_newline. cbn. lia.
  - assert (Hlead : forall s, Forall (fun b => (0x21 <=? b) && (b <=? 0x7E) = true) s -> strip_leading s = s).
    { intros s Hs. destruct Hs as [|b s Hs _]; [done|]. cbn [strip_leading].
      by replace (negb (is_ascii_c0_control_or_space b)) with true by ascii_lia. }
    unfold strip. rewrite (Hlead raw_input Hb), Hlead by (by apply Forall_rev). apply rev_involutive.
Qed.

Lemma empty_reference_witness :
  complete_url example_url [] = Ret (Some (resolved (with_fragment example_url None))).
Proof. apply empty_reference; [apply example_url_ok|reflexivity]. Defined.

Lemma query_reference_witness :
  complete_url example_url (utf8_encode (ch "?" :: sv "x='1'"))
  = Ret (Some (resolved (with_fragment (with_query example_url (Some (sv "x=%271%27"))) None))).
Proof.
  apply (query_reference example_url (sv "x='1'"));
    [apply example_url_ok|reflexivity|by apply unchanged_decide|by repeat constructor|by repeat constructor].
Defined.

Lemma fragment_reference_witness :
  complete_url (about (sv "blank")) (utf8_encode (ch "#" :: sv "a<b"))
  = Ret (Some (resolved (with_fragment (about (sv "blank")) (Some (sv "a%3Cb"))))).
Proof.
  apply (fragment_reference (about (sv "blank")) (sv "a<b"));
    [by apply about_ok; [apply opaque_path_decide|]|by apply unchanged_decide|by repeat constructor].
Defined.
