(* ===== verification/UrlRoundtrip.v ===== *)
(** * Parsing what the URL serializer writes

    The state machine is followed through the serialization of a well-formed
    URL, from the scheme to the fragment, one lemma for each part.  [evals]
    leaves the number of iterations open; [UrlSafety] says that [parse_fuel]
    iterations are enough. *)

From S2P Require Import Prelude CharacterTypes Utf8 Strings TextCodec Percent Ipv4 Ipv6 Host Origin Url UrlParser UrlFacts UrlSafety UrlTheorems.

Abbreviation ascii := (Forall (fun b : Z => 0 <= b < 128)).

(** ** Facts: texts *)

Lemma ascii_range s : ascii s -> code_point_range s.
Proof. intros Hs. eapply Forall_impl; [exact Hs|]. cbn. lia. Qed.

Lemma utf8_encode_ascii_list s : ascii s -> utf8_encode s = s.
Proof. induction 1 as [|x s Hx _ IH]; [done|]. by rewrite utf8_encode_ascii, IH. Qed.

(** A character of the text of a host that is not in brackets. *)
Definition host_char (x : Z) : Prop :=
  0x20 < x < 0x7F /\ contains_char forbidden_host_code_points x = false.

Lemma not_forbidden_domain x : forbidden_domain x = false -> 0 <= x < 128 -> host_char x.
Proof.
  unfold forbidden_domain, host_char. intros Hf Hx.
  apply orb_false_elim in Hf as [Hf H7F]. apply orb_false_elim in Hf as [Hf Hpct].
  apply orb_false_elim in Hf as [Hf Hc0]. split; [|done].
  assert (x <> 32) by (intros ->; done). ascii_lia.
Qed.

Lemma not_forbidden_clean x :
  clean C0Control x -> contains_char forbidden_host_code_points x = false -> host_char x.
Proof.
  intros [Hx Hc] Hf. split; [|done]. assert (x <> 32) by (intros ->; done).
  destruct Hc as [->|Hc]; [simpl; lia|]. unfold code_point_is_in_percent_encode_set in Hc. lia.
Qed.

Section texts.
Context `{LookupTablesLaws, IcuLaws, SimdutfLaws, FastFloatLaws}.

(** The text of a host, and that it is parsed back. *)
Lemma host_text_shape is_opaque h :
  host_ok is_opaque h ->
  exists text, host_serialize h = Ret text /\ parse_host text is_opaque = Ret (Some h)
    /\ (text = [] -> is_empty_host h = true)
    /\ (Forall host_char text \/ exists t, text = ch "[" :: t ++ [ch "]"] /\ forallb is_ipv6_text t = true).
Proof.
  intros Hok. destruct (host_serialize_parse is_opaque h Hok) as (text & Hs & Hp). exists text.
  split; [done|]. split; [done|]. destruct h as [address|address|s]; cbn [host_serialize host_ok] in *.
  - destruct Hok as [_ Hr]. destruct (serialize_ipv4_text address text Hr Hs) as [Hne Ht]. split; [done|]. left.
    destruct (ipv4_text_domain text Hne Ht) as (Ha & Hf & _). apply existsb_false_forall in Hf.
    pose proof (proj2 (Forall_and _ _) (conj Ha Hf)) as Hboth. eapply Forall_impl; [exact Hboth|].
    cbn. intros x [? ?]. by apply not_forbidden_domain.
  - destruct Hok as [Hlen Hb]. destruct (ipv6_pieces_exist address Hlen Hb) as (pieces & Hl & Hu & ->).
    destruct (ipv6_serialize_parse pieces Hl Hu) as (t & Ht & Hchars & _). rewrite Ht in Hs.
    injection Hs as <-. split; [done|]. right. by exists t.
  - injection Hs as <-. split; [by intros ->|]. left. destruct is_opaque.
    + destruct Hok as [Hc Hf]. apply existsb_false_forall in Hf.
      pose proof (proj2 (Forall_and _ _) (conj Hc Hf)) as Hboth. eapply Forall_impl; [exact Hboth|].
      cbn. intros x [? ?]. by apply not_forbidden_clean.
    + destruct Hok as (_ & Ha & _ & Hf & _). apply existsb_false_forall in Hf.
      pose proof (proj2 (Forall_and _ _) (conj Ha Hf)) as Hboth. eapply Forall_impl; [exact Hboth|].
      cbn. intros x [? ?]. by apply not_forbidden_domain.
Qed.

(** ** Facts: evaluating the machine *)

Variable input : bytes.

(** The machine, started in [p], returns [r]. *)
Definition evals (p : parser) (r : URL * bool) : Prop :=
  exists fuel, run input None None fuel p = Ret r.

Lemma run_more fuel p r : run input None None fuel p = Ret r -> run input None None (S fuel) p = Ret r.
Proof.
  revert p. induction fuel as [|fuel IH]; intros p; [done|]. intros Hrun. cbn [run] in Hrun.
  change (run input None None (S (S fuel)) p) with
    (let* code_point := if iterator_done (iterator p) then Ret end_of_file else iterator_deref (iterator p) in
     let* result := run_state input None None p code_point in
     match result with
     | Return url success => Ret (url, success)
     | Continue p => run input None None (S fuel) p
     | Advance p =>
         if iterator_done (iterator p) then Ret (url p, true)
         else let* iterator := iterator_incr (iterator p) in run input None None (S fuel) (with_iterator p iterator)
     end).
  destruct (if iterator_done (iterator p) then _ else _) as [cp|]; [|done]. cbn [res_bind] in *.
  destruct (run_state _ _ _ _ _) as [[p'|p'|u ok]|]; cbn [res_bind] in *; [|auto|done|done].
  destruct (iterator_done _); [done|]. destruct (iterator_incr _); [|done]. cbn [res_bind] in *. auto.
Qed.

Lemma run_enough fuel more p r :
  run input None None fuel p = Ret r -> run input None None (more + fuel) p = Ret r.
Proof. intros Hrun. induction more as [|more IH]; [done|]. by apply run_more. Qed.

Lemma evals_unique p r fuel r' : evals p r -> run input None None fuel p = Ret r' -> r = r'.
Proof.
  intros [n Hn] Hf. apply (run_enough _ fuel) in Hn. apply (run_enough _ n) in Hf.
  rewrite Nat.add_comm in Hf. congruence.
Qed.

Lemma evals_continue p p' r :
  ascii (iterator p) -> run_state input None None p (c (iterator p)) = Ret (Continue p') ->
  evals p' r -> evals p r.
Proof.
  intros Ha Hs [fuel Hrun]. exists (S fuel).
  rewrite (run_continue input None fuel p (iterator p) p' (ascii_range _ Ha)); [done| |done].
  by rewrite utf8_encode_ascii_list.
Qed.

Lemma evals_advance p x after p' r :
  iterator p = x :: after -> ascii (x :: after) ->
  run_state input None None p x = Ret (Advance p') -> iterator p' = iterator p ->
  evals (with_iterator p' after) r -> evals p r.
Proof.
  intros Hit Ha Hs Hit' [fuel Hrun]. exists (S fuel). apply Forall_cons in Ha as Ha'. destruct Ha' as [_ Ha'].
  rewrite (run_advance input None fuel p x after p' (ascii_range _ Ha)); [|by rewrite utf8_encode_ascii_list|done|done].
  by rewrite (utf8_encode_ascii_list after).
Qed.

(** An iteration that moves the iterator itself before the loop does. *)
Lemma evals_jump p p' x after r :
  ascii (iterator p) -> run_state input None None p (c (iterator p)) = Ret (Advance p') ->
  iterator p' = x :: after -> ascii (x :: after) -> evals (with_iterator p' after) r -> evals p r.
Proof.
  intros Ha Hs Hit Hx [fuel Hrun]. exists (S fuel).
  rewrite (run_step input None fuel p (iterator p) (Advance p') (ascii_range _ Ha)); [|by rewrite utf8_encode_ascii_list|done].
  rewrite Hit. cbn [iterator_done iterator_incr]. apply Forall_cons in Hx as [Hx _].
  unfold incr_at. rewrite (proj2 (Z.leb_le x 127)) by lia. done.
Qed.

Lemma evals_end p p' :
  iterator p = [] -> run_state input None None p end_of_file = Ret (Advance p') -> iterator p' = [] ->
  evals p (url p', true).
Proof. intros Hit Hs Hit'. exists 1%nat. by apply (run_end input None 0 p p'). Qed.

Lemma remaining_ascii p x after :
  iterator p = x :: after -> 0 <= x < 128 ->
  get_remaining p = Ret after /\ iterator_incr (iterator p) = Ret after.
Proof.
  intros Hit Hx. unfold get_remaining. rewrite Hit. cbn [underlying_code_point_length_in_bytes iterator_incr].
  unfold incr_at. rewrite (proj2 (Z.leb_le x 127)) by lia. split; [|done]. cbn [res_bind].
  destruct (decode_encoded x after ltac:(lia)) as (b0 & rest & Heq & _ & _ & Hl). revert Heq Hl.
  unfold encoded. rewrite (proj2 (Z.leb_le x 127)) by lia. cbn [app length]. intros [= <- <-] ->. done.
Qed.

End texts.

(** ** Facts: clean characters *)

Lemma clean_in_set set x :
  code_point_is_in_percent_encode_set (ch "%") set = false -> clean set x ->
  0 <= x < 128 /\ code_point_is_in_percent_encode_set x set = false.
Proof. intros Hset [Hx [->|Hc]]; (split; [simpl in *; lia|done]). Qed.

Lemma encode_units_clean set s :
  code_point_is_in_percent_encode_set (ch "%") set = false -> Forall (clean set) s -> encode_units set s = s.
Proof.
  intros Hset. unfold encode_units. induction 1 as [|x s Hx _ IH]; [done|]. cbn.
  destruct (clean_in_set set x Hset Hx) as [_ ->]. cbn. by rewrite IH.
Qed.

Lemma encoded_unit_clean_self set x :
  code_point_is_in_percent_encode_set (ch "%") set = false -> clean set x -> encoded_unit set x = [x].
Proof.
  intros Hset Hx. destruct (clean_in_set set x Hset Hx) as [Hr Hc]. unfold encoded_unit, encoded.
  by rewrite Hc, (proj2 (Z.leb_le x 127)) by lia.
Qed.

Lemma query_set_percent special : code_point_is_in_percent_encode_set (ch "%") (query_set special) = false.
Proof. by destruct special. Qed.

Lemma query_clean_no_hash special x : clean (query_set special) x -> x <> ch "#".
Proof. intros [_ [->|Hc]]; [done|]. intros ->. by destruct special. Qed.

Lemma path_clean_plain x : clean Path x -> x <> ch "?" /\ x <> ch "#".
Proof. intros [_ [->|Hc]]; [done|]. split; intros ->; done. Qed.

Lemma clean_ascii_list set s : Forall (clean set) s -> ascii s.
Proof. intros Hs. eapply Forall_impl; [exact Hs|]. intros x [Hx _]. lia. Qed.

Section parts.
Context `{LookupTablesLaws, IcuLaws, SimdutfLaws, FastFloatLaws}.
Variable input : bytes.
Variable u : URL.
Hypothesis u_query : query_ok u.
Hypothesis u_fragment : fragment_ok u.

Abbreviation evals := (evals input).
Abbreviation step := (run_state input None None).

(** What follows the path. *)
Definition tail_text : bytes := serialize_query u ++ serialize_fragment u.

(** The URL with the parts after the path, when [v] has the others. *)
Definition with_tail (v : URL) : URL := with_fragment (with_query v (query u)) (fragment u).

Lemma evals_fragment p f v :
  state p = State.Fragment -> iterator p = f -> buffer p = [] -> Forall (clean Fragment) f ->
  v = with_fragment (url p) (Some f) -> evals p (v, true).
Proof.
  intros Hs Hit Hb Hf ->. pose proof (clean_ascii_list _ _ Hf) as Ha. exists (S (length f)).
  rewrite (run_fragment input None _ f); [|by apply ascii_range|lia|done|by rewrite utf8_encode_ascii_list|by rewrite Hb].
  by rewrite Hb, utf8_encode_ascii_list, encode_units_clean.
Qed.

Lemma evals_query p q v :
  state p = State.Query -> iterator p = q ++ serialize_fragment u -> encoder p = UTF8Encoder ->
  Forall (clean (query_set (is_special (url p)))) q -> Forall (clean (query_set (is_special (url p)))) (buffer p) ->
  fragment (url p) = None ->
  v = with_fragment (with_query (url p) (Some (buffer p ++ q))) (fragment u) -> evals p (v, true).
Proof.
  intros Hs Hit He Hq. revert p Hs Hit He Hq.
  induction q as [|x q IH]; intros p Hs Hit He Hq Hb Hfr ->.
  - assert (Hbb : all_bytes (buffer p)) by (eapply Forall_impl; [exact Hb|]; intros; by eapply clean_byte).
    rewrite app_nil_r. unfold serialize_fragment in Hit. pose proof u_fragment as Hf. unfold fragment_ok in Hf.
    destruct (fragment u) as [f|]; cbn [app] in Hit.
    + pose proof (query_state_finish input None p (ch "#") Hs He Hbb (or_introl eq_refl)) as Hstep.
      cbn zeta in Hstep. rewrite encode_units_clean in Hstep by (done || apply query_set_percent).
      eapply evals_advance; [exact Hit| |exact Hstep|done|].
      { constructor; [simpl; lia|by eapply clean_ascii_list]. }
      by apply (evals_fragment _ f).
    + pose proof (query_state_finish input None p end_of_file Hs He Hbb (or_intror eq_refl)) as Hstep.
      cbn zeta in Hstep. rewrite encode_units_clean in Hstep by (done || apply query_set_percent).
      replace (with_fragment (with_query (url p) (Some (buffer p))) None)
        with (with_query (url p) (Some (buffer p))) by (destruct (url p); cbn in *; by subst).
      by apply (evals_end input p _ Hit Hstep).
  - apply Forall_cons in Hq as [Hx Hq]. pose proof (query_clean_no_hash _ _ Hx) as Hne.
    destruct (clean_in_set _ x (query_set_percent _) Hx) as [Hr _].
    pose proof (query_state_append input None p x Hs He ltac:(lia) Hne) as Hstep.
    rewrite append_code_point_ascii in Hstep by lia.
    eapply evals_advance; [exact Hit| |exact Hstep|done|].
    { constructor; [lia|]. apply Forall_app. split; [by eapply clean_ascii_list|].
      unfold serialize_fragment. pose proof u_fragment as Hf. unfold fragment_ok in Hf.
      destruct (fragment u); [|constructor]. constructor; [simpl; lia|by eapply clean_ascii_list]. }
    apply IH; try done; cbn [buffer url with_iterator with_buffer].
    + apply Forall_app. split; [done|by apply Forall_singleton].
    + by rewrite <- app_assoc.
Qed.

(** A state that ends the part before the query and fragment. *)
Definition leaves (p : parser) (v : URL) (x : Z) : Prop :=
  exists p', step p x = Ret (Advance p') /\ iterator p' = iterator p /\ encoder p' = encoder p /\ buffer p' = []
    /\ if x =? ch "?" then url p' = with_query v (Some []) /\ state p' = State.Query
       else if x =? ch "#" then url p' = with_fragment v (Some []) /\ state p' = State.Fragment
       else url p' = v.

Lemma tail_ascii : ascii tail_text.
Proof.
  pose proof u_query as Hq. pose proof u_fragment as Hf. unfold query_ok, fragment_ok in *.
  unfold tail_text, serialize_query, serialize_fragment. apply Forall_app. split.
  - destruct (query u); [|constructor]. constructor; [simpl; lia|by eapply clean_ascii_list].
  - destruct (fragment u); [|constructor]. constructor; [simpl; lia|by eapply clean_ascii_list].
Qed.

(** What a tail can start with. *)
Definition tail_char (x : Z) : Prop := x = ch "?" \/ x = ch "#" \/ x = end_of_file.

Lemma tail_first : tail_char (c tail_text).
Proof.
  unfold tail_text, serialize_query, serialize_fragment, tail_char.
  destruct (query u); [by left|]. destruct (fragment u); [by right; left|by right; right].
Qed.

Lemma evals_tail p v :
  iterator p = tail_text -> encoder p = UTF8Encoder -> is_special v = is_special u ->
  query v = None -> fragment v = None -> (forall x, tail_char x -> leaves p v x) ->
  evals p (with_tail v, true).
Proof.
  intros Hit He Hsp Hqv Hfv Hleave. pose proof (Hleave (c tail_text) tail_first) as (p' & Hstep & Hi & He' & Hb & Hp').
  pose proof tail_ascii as Hta. unfold with_tail.
  pose proof u_query as Hq. pose proof u_fragment as Hf. unfold query_ok, fragment_ok in *.
  unfold tail_text, serialize_query, serialize_fragment in *.
  destruct (query u) as [q|] eqn:Eq; cbn [app c] in *.
  - destruct Hp' as [Hu Hs]. eapply evals_advance; [exact Hit|done|exact Hstep|done|].
    assert (Hspecial : is_special (url p') = is_special u) by (by rewrite Hu).
    apply (evals_query _ q); cbn [state iterator encoder url buffer with_iterator]; rewrite ?Hspecial, ?Hb, ?Hu;
      [done|done|congruence|done|constructor|done|done].
  - destruct (fragment u) as [f|] eqn:Ef; cbn [app c] in *.
    + destruct Hp' as [Hu Hs]. eapply evals_advance; [exact Hit|done|exact Hstep|done|].
      apply (evals_fragment _ f); try done. cbn [url with_iterator]. rewrite Hu.
      destruct v; cbn in *; by subst.
    + replace (with_fragment (with_query v None) None) with (url p')
        by (rewrite Hp'; destruct v; cbn in *; by subst).
      apply (evals_end input p p' Hit Hstep). congruence.
Qed.

(** *** The path *)

Lemma path_state_append p x :
  state p = State.Path -> path_char (is_special (url p)) x ->
  step p x = Ret (Advance (with_buffer p (buffer p ++ [x]))).
Proof.
  intros Hs (Hc & Hslash & Hback). unfold run_state. rewrite Hs. unfold path_state.
  destruct (path_clean_plain x Hc) as [Hq Hh]. destruct (clean_in_set Path x eq_refl Hc) as [Hx _].
  replace (x =? end_of_file) with false by (unfold end_of_file; lia).
  replace (x =? ch "/") with false by lia. replace (x =? ch "?") with false by lia.
  replace (x =? ch "#") with false by lia.
  replace (is_special (url p) && (x =? ch "\")) with false by (destruct (is_special (url p)); [|done]; specialize (Hback eq_refl); lia).
  cbn [orb andb overridden negb]. rewrite append_if_necessary_ok by lia. cbn [res_bind].
  by rewrite encoded_unit_clean_self.
Qed.

Lemma evals_segment s p after r :
  state p = State.Path -> iterator p = s ++ after -> ascii (s ++ after) ->
  Forall (path_char (is_special (url p))) s ->
  evals (with_iterator (with_buffer p (buffer p ++ s)) after) r -> evals p r.
Proof.
  revert p. induction s as [|x s IH]; intros p Hs Hit Ha Hc Hr.
  - rewrite app_nil_r in Hr. destruct p. cbn in *. by subst.
  - apply Forall_cons in Hc as [Hx Hc]. pose proof (path_state_append p x Hs Hx) as Hstep.
    eapply evals_advance; [exact Hit|exact Ha|exact Hstep|done|].
    apply Forall_cons in Ha as [_ Ha]. apply IH; [done|done|done|done|].
    cbn [buffer with_iterator with_buffer]. by rewrite <- app_assoc.
Qed.

(** A segment that is not a dot segment is appended as it is. *)
Lemma finish_segment_push v s x :
  is_single_dot_path_segment s = false -> is_double_dot_path_segment s = false ->
  drive_ok (scheme v) (paths v ++ [s]) -> finish_segment v s x = Ret (with_paths v (paths v ++ [s])).
Proof.
  intros Hs Hd Hdrive. unfold finish_segment. rewrite Hs, Hd. cbn [andb negb].
  destruct (sv_eqb _ _ && _ && _) eqn:E; [|done]. apply andb_prop in E as [E Edrive]. apply andb_prop in E as [Ef Ep].
  apply sv_eqb_true in Ef. destruct (paths v) as [|]; [|done].
  pose proof (Hdrive Ef s eq_refl Edrive) as Hnorm.
  destruct s as [|a [|b [|]]]; try done. cbn in Hnorm |- *. apply andb_prop in Hnorm as [_ Hb].
  by apply Z.eqb_eq in Hb as ->.
Qed.

Lemma drive_ok_prefix s a b : drive_ok s (a ++ b) -> a <> [] -> drive_ok s a.
Proof. intros Hd Hne Hs first Hf. apply (Hd Hs). by destruct a. Qed.

(** At the end of a segment. *)
Lemma path_state_slash p s :
  state p = State.Path -> buffer p = s -> segment_ok (is_special (url p)) s ->
  drive_ok (scheme (url p)) (paths (url p) ++ [s]) ->
  step p (ch "/") = Ret (Advance (with_buffer (with_url p (with_paths (url p) (paths (url p) ++ [s]))) [])).
Proof.
  intros Hs Hb (_ & Hs1 & Hs2) Hd. unfold run_state. rewrite Hs. unfold path_state.
  cbn [Z.eqb Pos.eqb orb end_of_file]. rewrite Hb, finish_segment_push by done. reflexivity.
Qed.

Lemma path_state_leaves p s :
  state p = State.Path -> buffer p = s -> segment_ok (is_special (url p)) s ->
  drive_ok (scheme (url p)) (paths (url p) ++ [s]) ->
  forall x, tail_char x -> leaves p (with_paths (url p) (paths (url p) ++ [s])) x.
Proof.
  intros Hs Hb (_ & Hs1 & Hs2) Hd x Hx. unfold leaves, run_state. rewrite Hs. unfold path_state.
  destruct Hx as [->|[->| ->]]; cbn [Z.eqb Pos.eqb orb end_of_file overridden negb andb];
    rewrite ?orb_true_r, Hb, finish_segment_push by done; by eexists.
Qed.

Lemma evals_path rest : forall p s v,
  state p = State.Path -> buffer p = [] -> encoder p = UTF8Encoder ->
  iterator p = s ++ slash_segments rest ++ tail_text ->
  Forall (segment_ok (is_special u)) (s :: rest) -> is_special (url p) = is_special u ->
  drive_ok (scheme (url p)) (paths (url p) ++ s :: rest) ->
  query (url p) = None -> fragment (url p) = None ->
  v = with_tail (with_paths (url p) (paths (url p) ++ s :: rest)) -> evals p (v, true).
Proof.
  induction rest as [|s' rest IH]; intros p s v Hs Hb He Hit Hseg Hsp Hd Hq Hf ->;
    apply Forall_cons in Hseg as [Hok Hseg]; pose proof Hok as (Hchars & _).
  all: assert (Hsa : ascii s) by (eapply Forall_impl; [exact Hchars|]; intros x (Hc & _); by destruct Hc; lia).
  - cbn [slash_segments mbind list_bind app] in Hit.
    eapply evals_segment; [done|exact Hit| |by rewrite Hsp|].
    { apply Forall_app. split; [done|apply tail_ascii]. }
    rewrite Hb. cbn [app]. apply evals_tail; try done. apply (path_state_leaves (with_iterator (with_buffer p s) tail_text) s); try done. cbn [url with_iterator with_buffer]. by rewrite Hsp.
  - assert (Hta : ascii (slash_segments (s' :: rest) ++ tail_text)).
    { apply Forall_app. split; [|apply tail_ascii]. apply Forall_bind. eapply Forall_impl; [exact Hseg|].
      intros seg (Hseg' & _). constructor; [simpl; lia|]. eapply Forall_impl; [exact Hseg'|].
      intros x (Hc & _). by destruct Hc; lia. }
    eapply evals_segment; [done|exact Hit| |by rewrite Hsp|].
    { apply Forall_app. by split. }
    rewrite Hb. cbn [app].
    assert (Hd1 : drive_ok (scheme (url p)) (paths (url p) ++ [s])).
    { apply (drive_ok_prefix _ _ (s' :: rest)); [by rewrite <- app_assoc|by destruct (paths (url p))]. }
    pose proof (path_state_slash (with_iterator (with_buffer p s) (slash_segments (s' :: rest) ++ tail_text)) s Hs eq_refl
      ltac:(by rewrite <- Hsp in Hok) Hd1) as Hstep.
    eapply evals_advance; [reflexivity|exact Hta|exact Hstep|done|].
    apply (IH _ s'); try done; cbn [url with_iterator with_buffer with_url paths with_paths scheme].
    + by rewrite app_assoc.
    + by rewrite <- app_assoc.
    + unfold with_tail. cbn [with_fragment with_query with_paths]. by rewrite <- app_assoc.
Qed.

(** *** An opaque path *)

Lemma opaque_state_append p x after :
  state p = State.OpaquePath -> paths (url p) = [[]] -> iterator p = x :: after ->
  clean C0Control x -> x <> ch "?" -> x <> ch "#" ->
  (x = 32 -> starts_with_char after (ch "?") = false /\ starts_with_char after (ch "#") = false) ->
  step p x = Ret (Advance (with_buffer p (buffer p ++ [x]))).
Proof.
  intros Hs Hp Hit Hc Hq Hh Hspace. unfold run_state. rewrite Hs. unfold opaque_path_state. rewrite Hp.
  destruct (clean_in_set C0Control x eq_refl Hc) as [Hx _]. cbn [verify].
  replace (x =? ch "?") with false by lia. replace (x =? ch "#") with false by lia.
  destruct (x =? 32) eqn:E.
  - apply Z.eqb_eq in E. destruct (Hspace E) as [Hq' Hh']. destruct (remaining_ascii p x after Hit Hx) as [-> _].
    cbn [res_bind]. rewrite Hq', Hh'. by rewrite E.
  - replace (x =? end_of_file) with false by (unfold end_of_file; lia). cbn [negb].
    rewrite append_if_necessary_ok by lia. cbn [res_bind]. by rewrite encoded_unit_clean_self.
Qed.

Lemma evals_opaque_path s : forall p v,
  state p = State.OpaquePath -> paths (url p) = [[]] -> encoder p = UTF8Encoder ->
  iterator p = s ++ tail_text -> opaque_path_ok s -> last s <> Some 32 ->
  is_special (url p) = is_special u -> query (url p) = None -> fragment (url p) = None ->
  v = with_tail (with_paths (url p) [buffer p ++ s]) -> evals p (v, true).
Proof.
  induction s as [|x s IH]; intros p v Hs Hp He Hit Hok Hlast Hsp Hq Hf ->.
  - rewrite app_nil_r. apply evals_tail; try done. intros x Hx. unfold leaves, run_state. rewrite Hs.
    unfold opaque_path_state. rewrite Hp.
    destruct Hx as [->|[->| ->]]; cbn [verify Z.eqb Pos.eqb end_of_file negb]; by eexists.
  - apply Forall_cons in Hok as [(Hc & Hq' & Hh') Hok].
    assert (Ha : ascii (x :: s ++ tail_text)).
    { constructor; [by destruct Hc; lia|]. apply Forall_app. split; [|apply tail_ascii].
      eapply Forall_impl; [exact Hok|]. intros y (Hcy & _). by destruct Hcy; lia. }
    assert (Hstep : step p x = Ret (Advance (with_buffer p (buffer p ++ [x])))).
    { apply (opaque_state_append p x (s ++ tail_text)); try done. intros ->.
      destruct s as [|y s]; [done|]. apply Forall_cons in Hok as [(_ & Hy & Hy') _]. cbn [app starts_with_char]. split; lia. }
    eapply evals_advance; [exact Hit|exact Ha|exact Hstep|done|].
    apply IH; try done.
    + by destruct s.
    + cbn [buffer with_iterator with_buffer url]. by rewrite <- app_assoc.
Qed.

(** *** From the port to the path *)

Definition path_text : bytes := slash_segments (paths u) ++ tail_text.

Hypothesis u_path : path_ok u.
Hypothesis u_not_opaque : has_an_opaque_path u = false.

Lemma u_segments :
  Forall (segment_ok (is_special u)) (paths u) /\ drive_ok (scheme u) (paths u)
  /\ (is_special u = true \/ host u = None -> paths u <> []).
Proof. pose proof u_path as Hp. unfold path_ok in Hp. by rewrite u_not_opaque in Hp. Qed.

Lemma path_text_ascii : ascii path_text.
Proof.
  destruct u_segments as (Hs & _). unfold path_text. apply Forall_app. split; [|apply tail_ascii].
  apply Forall_bind. eapply Forall_impl; [exact Hs|].
  intros seg (Hseg' & _). constructor; [simpl; lia|]. eapply Forall_impl; [exact Hseg'|].
  intros x (Hc & _). by destruct Hc; lia.
Qed.

Lemma path_text_terminates special : is_terminator special (c path_text) = true.
Proof.
  unfold path_text. destruct (paths u) as [|s rest]; [|done]. cbn [slash_segments mbind list_bind app].
  by destruct tail_first as [->|[->| ->]].
Qed.

(** The parts in front of the path are as in [u]. *)
Definition agrees (v : URL) : Prop :=
  scheme v = scheme u /\ paths v = [] /\ query v = None /\ fragment v = None /\ has_an_opaque_path v = false.

Lemma agrees_special v : agrees v -> is_special v = is_special u.
Proof. intros (Hs & _). unfold is_special. by rewrite Hs. Qed.

Lemma evals_path_after_slash p s rest v :
  state p = State.Path -> buffer p = [] -> encoder p = UTF8Encoder -> agrees (url p) ->
  paths u = s :: rest -> iterator p = s ++ slash_segments rest ++ tail_text ->
  v = with_tail (with_paths (url p) (paths u)) -> evals p (v, true).
Proof.
  intros Hs Hb He Hv Hp Hit ->. pose proof (agrees_special _ Hv) as Hsp. destruct Hv as (Hscheme & Hpaths & Hq & Hf & _).
  destruct u_segments as (Hseg & Hd & _). rewrite Hp in *.
  apply (evals_path rest _ s); try done; by rewrite ?Hpaths, ?Hscheme.
Qed.

Lemma evals_path_start p v :
  state p = State.PathStart -> buffer p = [] -> encoder p = UTF8Encoder -> agrees (url p) ->
  iterator p = path_text -> v = with_tail (with_paths (url p) (paths u)) -> evals p (v, true).
Proof.
  intros Hs Hb He Hv Hit ->. pose proof (agrees_special _ Hv) as Hsp.
  pose proof path_text_ascii as Ha. unfold path_text in *. destruct (paths u) as [|s rest] eqn:Hp.
  - destruct u_segments as (_ & _ & Hne). rewrite Hp in Hne.
    assert (Hns : is_special (url p) = false) by (rewrite Hsp; destruct (is_special u); [by destruct Hne; [left|]|done]).
    pose proof Hv as (_ & Hpaths & Hq & Hf & _).
    replace (with_paths (url p) []) with (url p) by (destruct (url p); cbn in *; by subst).
    apply evals_tail; try done. intros x Hx. unfold leaves, run_state. rewrite Hs. unfold path_start_state.
    rewrite Hns. destruct Hx as [->|[->| ->]]; cbn [overridden Z.eqb Pos.eqb end_of_file negb andb];
      eexists; (split; [reflexivity|]); by cbn.
  - assert (Hstep : step p (ch "/") = Ret (Advance (with_state p State.Path))).
    { unfold run_state. rewrite Hs. unfold path_start_state. by destruct (is_special (url p)). }
    eapply evals_advance; [exact Hit|exact Ha|exact Hstep|done|].
    apply (evals_path_after_slash _ s rest); try done; [by rewrite app_assoc|by rewrite Hp].
Qed.

Lemma evals_port_end p v :
  state p = State.Port -> buffer p = [] -> encoder p = UTF8Encoder -> agrees (url p) ->
  iterator p = path_text -> v = with_tail (with_paths (url p) (paths u)) -> evals p (v, true).
Proof.
  intros Hs Hb He Hv Hit ->. pose proof path_text_ascii as Ha.
  assert (Hstep : step p (c (iterator p)) = Ret (Continue (with_state p State.PathStart))).
  { unfold run_state. rewrite Hs, Hit. unfold port_state. pose proof (path_text_terminates (is_special (url p))) as Ht.
    assert (Hnd : is_ascii_digit (c path_text) = false) by (unfold is_terminator, end_of_file in Ht; ascii_lia).
    unfold ends_authority. unfold is_terminator in Ht. by rewrite Hnd, Ht, Hb. }
  eapply evals_continue; [by rewrite Hit|exact Hstep|]. by apply evals_path_start.
Qed.

Lemma evals_port_digits digits : forall p n v,
  state p = State.Port -> encoder p = UTF8Encoder -> agrees (url p) ->
  iterator p = digits ++ path_text -> forallb is_ascii_digit digits = true -> buffer p ++ digits <> [] ->
  parse_number (2 ^ 16 - 1) (buffer p ++ digits) 10 = Some n ->
  default_port_for_scheme (scheme u) <> Some n ->
  v = with_tail (with_paths (with_port (url p) (Some n)) (paths u)) -> evals p (v, true).
Proof.
  induction digits as [|d digits IH]; intros p n v Hs He Hv Hit Hd Hne Hn Hdef ->.
  - rewrite app_nil_r in *. pose proof path_text_ascii as Ha.
    assert (Hstep : step p (c (iterator p))
      = Ret (Continue (with_state (with_buffer (with_url p (with_port (url p) (Some n))) []) State.PathStart))).
    { unfold run_state. rewrite Hs, Hit. cbn [app]. unfold port_state.
      pose proof (path_text_terminates (is_special (url p))) as Ht.
      assert (Hnd : is_ascii_digit (c path_text) = false) by (unfold is_terminator, end_of_file in Ht; ascii_lia).
      unfold ends_authority. unfold is_terminator in Ht. rewrite Hnd, Ht. cbn [orb].
      replace (negb (sv_is_empty (buffer p))) with true by (by destruct (buffer p)). rewrite Hn.
      destruct Hv as (-> & _). by rewrite bool_decide_eq_false_2 by congruence. }
    eapply evals_continue; [by rewrite Hit|exact Hstep|]. by apply evals_path_start.
  - cbn [forallb] in Hd. apply andb_prop in Hd as [Hd Hds].
    assert (Hstep : step p d = Ret (Advance (with_buffer p (buffer p ++ [d])))).
    { unfold run_state. rewrite Hs. unfold port_state. rewrite Hd. by rewrite append_code_point_ascii by ascii_lia. }
    assert (Ha : ascii ((d :: digits) ++ path_text)).
    { apply Forall_app. split; [|apply path_text_ascii]. constructor; [ascii_lia|].
      apply forallb_Forall_iff in Hds. eapply Forall_impl; [exact Hds|]. cbn. intros; ascii_lia. }
    eapply evals_advance; [exact Hit|exact Ha|exact Hstep|done|].
    apply (IH _ n); try done; cbn [buffer with_iterator with_buffer]; by rewrite <- app_assoc.
Qed.


(** *** The host *)

Lemma host_char_facts x special :
  host_char x ->
  0 <= x < 128 /\ x <> ch ":" /\ x <> ch "[" /\ x <> ch "]" /\ x <> ch "@" /\ is_terminator special x = false.
Proof.
  intros [Hx Hf]. unfold contains_char, forbidden_host_code_points in Hf. cbn [existsb app] in Hf.
  unfold is_terminator, end_of_file. cbn. destruct special; lia.
Qed.

Lemma host_state_append p x :
  state p = State.Host -> 0 <= x < 128 -> (x = ch ":" -> inside_brackets p = true) ->
  is_terminator (is_special (url p)) x = false ->
  step p x = Ret (Advance (with_buffer
    (if x =? ch "[" then with_inside_brackets p true
     else if x =? ch "]" then with_inside_brackets p false else p) (buffer p ++ [x]))).
Proof.
  intros Hs Hx Hcolon Ht. unfold run_state. rewrite Hs. unfold host_state. cbn [overridden andb].
  replace ((x =? ch ":") && negb (inside_brackets p)) with false.
  2: { destruct (x =? ch ":") eqn:E; [|done]. by rewrite Hcolon by lia. }
  unfold ends_authority. unfold is_terminator in Ht. rewrite Ht.
  replace (buffer (if x =? ch "[" then _ else _)) with (buffer p) by (by repeat case_match).
  by rewrite append_code_point_ascii by lia.
Qed.

Lemma evals_host_plain text : forall p after r,
  state p = State.Host -> Forall host_char text -> iterator p = text ++ after -> ascii (text ++ after) ->
  evals (with_iterator (with_buffer p (buffer p ++ text)) after) r -> evals p r.
Proof.
  induction text as [|x text IH]; intros p after r Hs Hh Hit Ha Hr.
  - rewrite app_nil_r in Hr. destruct p. cbn in *. by subst.
  - apply Forall_cons in Hh as [Hx Hh].
    destruct (host_char_facts x (is_special (url p)) Hx) as (Hr' & Hc & Ho & Hcl & _ & Ht).
    pose proof (host_state_append p x Hs Hr' ltac:(done) Ht) as Hstep.
    replace (x =? ch "[") with false in Hstep by lia. replace (x =? ch "]") with false in Hstep by lia.
    eapply evals_advance; [exact Hit|exact Ha|exact Hstep|done|].
    apply Forall_cons in Ha as [_ Ha]. apply (IH _ after); try done.
    cbn [buffer with_iterator with_buffer]. by rewrite <- app_assoc.
Qed.

Lemma ipv6_char_facts x special :
  is_ipv6_text x = true ->
  0 <= x < 128 /\ x <> ch "[" /\ x <> ch "]" /\ x <> ch "@" /\ is_terminator special x = false.
Proof. unfold is_ipv6_text, is_terminator, end_of_file. destruct special; intros; ascii_lia. Qed.

Lemma evals_host_brackets text : forall p after r,
  state p = State.Host -> inside_brackets p = true -> forallb is_ipv6_text text = true ->
  iterator p = text ++ after -> ascii (text ++ after) ->
  evals (with_iterator (with_buffer p (buffer p ++ text)) after) r -> evals p r.
Proof.
  induction text as [|x text IH]; intros p after r Hs Hi Hh Hit Ha Hr.
  - rewrite app_nil_r in Hr. destruct p. cbn in *. by subst.
  - cbn [forallb] in Hh. apply andb_prop in Hh as [Hx Hh].
    destruct (ipv6_char_facts x (is_special (url p)) Hx) as (Hr' & Ho & Hcl & _ & Ht).
    pose proof (host_state_append p x Hs Hr' ltac:(done) Ht) as Hstep.
    replace (x =? ch "[") with false in Hstep by lia. replace (x =? ch "]") with false in Hstep by lia.
    eapply evals_advance; [exact Hit|exact Ha|exact Hstep|done|].
    apply Forall_cons in Ha as [_ Ha]. apply (IH _ after); try done.
    cbn [buffer with_iterator with_buffer]. by rewrite <- app_assoc.
Qed.

Lemma bracket_not_terminator special : is_terminator special (ch "]") = false.
Proof. by destruct special. Qed.

(** The text of a host. *)
Definition host_text (text : bytes) : Prop :=
  Forall host_char text \/ exists t, text = ch "[" :: t ++ [ch "]"] /\ forallb is_ipv6_text t = true.

Lemma evals_host_text text p after r :
  state p = State.Host -> inside_brackets p = false -> buffer p = [] -> host_text text ->
  iterator p = text ++ after -> ascii (text ++ after) ->
  evals (with_iterator (with_buffer p text) after) r -> evals p r.
Proof.
  intros Hs Hi Hb [Hh|(t & -> & Ht)] Hit Ha Hr.
  - apply (evals_host_plain text p after); try done. by rewrite Hb.
  - cbn [app] in Hit, Ha. rewrite <- app_assoc in Hit, Ha. cbn [app] in Hit, Ha.
    pose proof (host_state_append p (ch "[") Hs ltac:(simpl; lia) ltac:(done) ltac:(by destruct (is_special (url p)))) as Hstep.
    eapply evals_advance; [exact Hit|exact Ha|exact Hstep|done|]. apply Forall_cons in Ha as [_ Ha].
    apply (evals_host_brackets t _ (ch "]" :: after)); try done. apply Forall_app in Ha as [_ Ha].
    cbn [buffer with_iterator with_buffer]. rewrite Hb. cbn [app Z.eqb Pos.eqb].
    eapply evals_advance; [reflexivity|exact Ha|apply host_state_append; try done; apply bracket_not_terminator|done|].
    cbn [buffer with_iterator with_buffer with_inside_brackets Z.eqb Pos.eqb app] in *.
    destruct p. cbn in *. by subst.
Qed.

(** The text of the port. *)
Lemma port_text_shape :
  url_port_ok u ->
  exists ptext, serialize_port u = Ret ptext /\ ascii ptext
    /\ match port u with
       | None => ptext = []
       | Some n => exists digits, ptext = ch ":" :: digits /\ forallb is_ascii_digit digits = true /\ digits <> []
           /\ parse_number (2 ^ 16 - 1) digits 10 = Some n /\ default_port_for_scheme (scheme u) <> Some n
       end.
Proof.
  unfold url_port_ok, serialize_port. destruct (port u) as [n|]; [|by exists []]. intros [Hn Hd].
  destruct (format_decimal_prints n ltac:(lia)) as (digits & -> & Hp). cbn [res_bind].
  pose proof Hp as (Hne & Hdig & _). change (forallb is_ascii_digit digits = true) in Hdig.
  eexists. split; [done|]. split.
  - constructor; [simpl; lia|]. apply forallb_Forall_iff in Hdig. eapply Forall_impl; [exact Hdig|]. cbn. intros; ascii_lia.
  - exists digits. split; [done|]. split; [done|]. split; [done|]. split; [|done].
    apply parse_number_prints; [done|lia].
Qed.

Lemma evals_host p h text ptext v :
  state p = State.Host -> inside_brackets p = false -> buffer p = [] -> encoder p = UTF8Encoder ->
  agrees (url p) -> port (url p) = None -> url_port_ok u -> serialize_port u = Ret ptext ->
  host_text text -> parse_host text (negb (is_special u)) = Ret (Some h) ->
  (is_special u = true \/ port u <> None -> text <> []) ->
  iterator p = text ++ ptext ++ path_text -> ascii text ->
  v = with_tail (with_paths (with_port (with_host (url p) (Some h)) (port u)) (paths u)) -> evals p (v, true).
Proof.
  intros Hs Hi Hb He Hv Hpn Hpok Hpt Htext Hparse Hne Hit Hta ->.
  destruct (port_text_shape Hpok) as (ptext' & Hpt' & Hpa & Hport). rewrite Hpt in Hpt'. injection Hpt' as <-.
  pose proof path_text_ascii as Ha. pose proof (agrees_special _ Hv) as Hsp.
  eapply evals_host_text; [done..|exact Htext|exact Hit| |].
  { apply Forall_app. split; [done|]. by apply Forall_app. }
  set (q := with_iterator (with_buffer p text) (ptext ++ path_text)).
  destruct (port u) as [n|].
  - destruct Hport as (digits & -> & Hd & Hdne & Hn & Hdef).
    assert (Hstep : step q (ch ":") = Ret (Advance (with_state
      (with_buffer (with_url q (with_host (url p) (Some h))) []) State.Port))).
    { unfold run_state. cbn [q state with_iterator with_buffer]. rewrite Hs. unfold host_state.
      cbn [overridden andb Z.eqb Pos.eqb inside_brackets with_iterator with_buffer buffer q url]. rewrite Hi, Hsp. cbn [negb].
      replace (sv_is_empty text) with false by (destruct text; [by destruct Hne; [right|]|done]).
      rewrite bool_decide_eq_false_2 by done. by rewrite Hparse. }
    eapply evals_advance; [reflexivity| |exact Hstep|done|].
    { apply (proj2 (Forall_app _ (ch ":" :: digits) path_text)). by split. }
    by apply (evals_port_digits digits _ n).
  - subst ptext. cbn [app] in q.
    assert (Hstep : step q (c path_text) = Ret (Continue (with_state
      (with_buffer (with_url q (with_host (url p) (Some h))) []) State.Port))).
    { unfold run_state. cbn [q state with_iterator with_buffer]. rewrite Hs. unfold host_state.
      cbn [overridden andb inside_brackets with_iterator with_buffer buffer q url]. rewrite Hi, Hsp.
      pose proof (path_text_terminates (is_special u)) as Ht.
      assert (Hc : (c path_text =? ch ":") = false) by (unfold is_terminator, end_of_file in Ht; cbn in *; destruct (is_special u); lia).
      assert (Hend : ends_authority q (c path_text) = true) by (change (is_terminator (is_special (url p)) (c path_text) = true); by rewrite Hsp).
      rewrite Hc, Hend. cbn [andb].
      replace (is_special u && sv_is_empty text) with false by (destruct (is_special u); [|done]; destruct text; [by destruct Hne; [left|]|done]).
      by rewrite Hparse. }
    eapply evals_continue; [exact Ha|exact Hstep|]. apply evals_port_end; try done.
    cbn [url with_state with_buffer with_url]. destruct (url p). cbn in Hpn. by subst.
Qed.


(** *** The authority *)

(** A character that is collected by the authority state. *)
Definition authority_char (special : bool) (x : Z) : Prop :=
  0 <= x < 128 /\ x <> ch "@" /\ is_terminator special x = false.

Lemma evals_authority_chars s : forall p after r,
  state p = State.Authority -> Forall (authority_char (is_special (url p))) s ->
  iterator p = s ++ after -> ascii (s ++ after) ->
  evals (with_iterator (with_buffer p (buffer p ++ s)) after) r -> evals p r.
Proof.
  induction s as [|x s IH]; intros p after r Hs Hc Hit Ha Hr.
  - rewrite app_nil_r in Hr. destruct p. cbn in *. by subst.
  - apply Forall_cons in Hc as [(Hx & Hat & Ht) Hc].
    assert (Hstep : step p x = Ret (Advance (with_buffer p (buffer p ++ [x])))).
    { unfold run_state. rewrite Hs. unfold authority_state. replace (x =? ch "@") with false by lia.
      unfold ends_authority. unfold is_terminator in Ht. rewrite Ht. by rewrite append_code_point_ascii by lia. }
    eapply evals_advance; [exact Hit|exact Ha|exact Hstep|done|].
    apply Forall_cons in Ha as [_ Ha]. apply (IH _ after); try done.
    cbn [buffer with_iterator with_buffer]. by rewrite <- app_assoc.
Qed.

(** The end of the authority: the iterator goes back to the host. *)
Lemma evals_authority_host p pre d s r :
  state p = State.Authority -> buffer p = [] -> iterator p = s ++ path_text ->
  input = pre ++ d :: s ++ path_text -> ascii input -> Z.of_nat (length input) < 2 ^ 64 ->
  (at_sign_seen p = true -> s <> []) -> Forall (authority_char (is_special (url p))) s ->
  evals (with_iterator (with_state p State.Host) (s ++ path_text)) r -> evals p r.
Proof.
  intros Hs Hb Hit Hin Hina Hlen Hat Hc Hr.
  assert (Hsa : ascii (d :: s ++ path_text)) by (rewrite Hin in Hina; by apply Forall_app in Hina as [_ ?]).
  apply Forall_cons in Hsa as [Hd Hsa].
  apply (evals_authority_chars s p path_text); try done. rewrite Hb. cbn [app].
  set (q := with_iterator (with_buffer p s) path_text).
  assert (Hback : iterator_at_byte_offset input
      (size_t (Z.of_nat (length input) - Z.of_nat (length path_text) - Z.of_nat (length s) - 1)) = d :: s ++ path_text).
  { pose proof (backtrack input) as Hbt. rewrite (utf8_encode_ascii_list input) in Hbt by done.
    specialize (Hbt (ascii_range _ Hina) Hlen pre d s path_text (eq_sym Hin) Hd).
    apply Forall_app in Hsa as Hsa'. destruct Hsa' as [Hsa1 Hsa2].
    rewrite !utf8_encode_ascii_list in Hbt; [done|..|done|done]. by constructor. }
  assert (Hstep : step q (c (iterator q)) = Ret (Advance (with_state (with_buffer
      (with_iterator q (d :: s ++ path_text)) []) State.Host))).
  { change (iterator q) with path_text. unfold run_state. change (state q) with (state p). rewrite Hs.
    unfold authority_state.
    pose proof (path_text_terminates (is_special (url p))) as Ht.
    assert (Hc' : (c path_text =? ch "@") = false)
      by (unfold is_terminator, end_of_file in Ht; cbn in *; destruct (is_special (url p)); lia).
    assert (Hend : ends_authority q (c path_text) = true) by exact Ht.
    rewrite Hc', Hend. change (at_sign_seen q) with (at_sign_seen p). change (buffer q) with s.
    change (iterator q) with path_text.
    replace (at_sign_seen p && sv_is_empty s) with false
      by (destruct (at_sign_seen p); [|done]; destruct s; [by destruct Hat|done]).
    by rewrite Hback. }
  eapply evals_jump; [|exact Hstep|reflexivity|by constructor|].
  - apply Forall_app in Hsa as [_ Hsa]. exact Hsa.
  - cbn [q]. destruct p. cbn in *. by subst.
Qed.

Lemma userinfo_plain x :
  clean Userinfo x -> x <> ch ":" /\ authority_char true x /\ authority_char false x.
Proof.
  intros Hc. destruct (clean_in_set Userinfo x eq_refl Hc) as [Hx Hset].
  assert (Hnot : forall y, code_point_is_in_percent_encode_set y Userinfo = true -> x <> y) by (intros y Hy ->; congruence).
  pose proof (Hnot (ch ":") eq_refl). pose proof (Hnot (ch "@") eq_refl). pose proof (Hnot (ch "/") eq_refl).
  pose proof (Hnot (ch "?") eq_refl). pose proof (Hnot (ch "#") eq_refl). pose proof (Hnot (ch "\") eq_refl).
  split; [done|]. unfold authority_char, is_terminator, end_of_file. cbn in *. lia.
Qed.

Lemma userinfo_authority special x : clean Userinfo x -> authority_char special x.
Proof. intros Hc. destruct (userinfo_plain x Hc) as (_ & ? & ?). by destruct special. Qed.

(** The credentials in front of the at sign. *)
Definition credentials_text (un pw : bytes) : bytes :=
  un ++ (if negb (sv_is_empty pw) then [ch ":"] ++ pw else []).

Lemma empty_builder (b : bytes) : (if sv_is_empty b then [] else b) = b.
Proof. by destruct b. Qed.

Lemma split_username un rest ub :
  Forall (clean Userinfo) un ->
  split_credentials (un ++ rest) false [] [] ub [] = split_credentials rest false [] [] (ub ++ un) [].
Proof.
  intros Hun. revert ub. induction Hun as [|x un Hx _ IH]; intros ub; [by rewrite app_nil_r|].
  destruct (userinfo_plain x Hx) as (Hc & (Hr & _) & _). cbn [app split_credentials].
  replace (x =? ch ":") with false by lia. cbn [andb]. rewrite empty_builder, append_if_necessary_ok by lia.
  cbn [res_bind]. rewrite encoded_unit_clean_self, IH by done. by rewrite <- app_assoc.
Qed.

Lemma split_password pw ub pb :
  Forall (clean Userinfo) pw -> split_credentials pw true [] [] ub pb = Ret (true, ub, pb ++ pw).
Proof.
  intros Hpw. revert pb. induction Hpw as [|x pw Hx _ IH]; intros pb; [by rewrite app_nil_r|].
  destruct (userinfo_plain x Hx) as (Hc & (Hr & _) & _). cbn [split_credentials].
  rewrite andb_false_r, empty_builder, append_if_necessary_ok by lia.
  cbn [res_bind]. rewrite encoded_unit_clean_self, IH by done. by rewrite <- app_assoc.
Qed.

Lemma split_credentials_text un pw :
  Forall (clean Userinfo) un -> Forall (clean Userinfo) pw ->
  exists seen, split_credentials (credentials_text un pw) false [] [] [] [] = Ret (seen, un, pw).
Proof.
  intros Hun Hpw. unfold credentials_text. rewrite split_username by done. destruct pw as [|x pw].
  - by exists false.
  - exists true.
    change (split_credentials (x :: pw) true [] [] ([] ++ un) [] = Ret (true, un, x :: pw)).
    by rewrite split_password.
Qed.

(** The at sign after the credentials. *)
Lemma evals_at_sign p un pw after r :
  state p = State.Authority -> buffer p = credentials_text un pw -> at_sign_seen p = false ->
  password_token_seen p = false -> username (url p) = [] -> password (url p) = [] ->
  Forall (clean Userinfo) un -> Forall (clean Userinfo) pw -> iterator p = ch "@" :: after -> ascii after ->
  (forall q, state q = State.Authority -> buffer q = [] -> at_sign_seen q = true -> encoder q = encoder p ->
     inside_brackets q = inside_brackets p -> iterator q = after ->
     url q = with_password (with_username (url p) un) pw -> evals q r) ->
  evals p r.
Proof.
  intros Hs Hb Hat Hpt Hun0 Hpw0 Hun Hpw Hit Ha Hnext.
  assert (Hca : ascii (credentials_text un pw)).
  { unfold credentials_text. apply Forall_app. split; [by eapply clean_ascii_list|].
    destruct (negb _); [|constructor]. constructor; [simpl; lia|by eapply clean_ascii_list]. }
  destruct (split_credentials_text un pw Hun Hpw) as [seen Hsplit].
  assert (Hstep : exists p', step p (ch "@") = Ret (Advance p') /\ state p' = State.Authority /\ buffer p' = []
    /\ at_sign_seen p' = true /\ encoder p' = encoder p /\ inside_brackets p' = inside_brackets p
    /\ iterator p' = iterator p /\ url p' = with_password (with_username (url p) un) pw).
  { unfold run_state. rewrite Hs. unfold authority_state. cbn [Z.eqb Pos.eqb]. rewrite Hat.
    cbn [buffer with_at_sign_seen password_token_seen url]. rewrite Hb, Hpt, Hun0, Hpw0, code_points_ascii, Hsplit by done.
    cbn [res_bind].
    assert (Hset : forall (v : URL) (f : URL -> bytes -> URL) new, Forall (clean Userinfo) new -> f v [] = v ->
      (if (length ([] : bytes) <? length new)%nat then verify (validate Surrogates_Yes new) (Ret (f v new)) else Ret v)
      = Ret (f v new)).
    { intros v f new Hnew Hv. rewrite (longer_credential input [] new v f) by done. by destruct new; [rewrite Hv|]. }
    fields. rewrite ?Hun0. rewrite (Hset _ with_username) by (done || by destruct (url p); cbn in *; subst). cbn [res_bind].
    cbn [password with_username]. rewrite Hpw0.
    rewrite (Hset _ with_password) by (done || by destruct (url p); cbn in *; subst). cbn [res_bind].
    by eexists. }
  destruct Hstep as (p' & Hstep & H1' & H2' & H3' & H4' & H5' & H6' & H7').
  eapply evals_advance; [exact Hit|constructor; [simpl; lia|done]|exact Hstep|done|]. by apply Hnext.
Qed.


(** *** The whole authority *)

Hypothesis u_front : front_ok u.

Lemma host_text_authority special text : host_text text -> Forall (authority_char special) text.
Proof.
  intros [Hh|(t & -> & Ht)].
  - eapply Forall_impl; [exact Hh|]. intros x Hx.
    destruct (host_char_facts x special Hx) as (? & _ & _ & _ & ? & ?). by split.
  - constructor; [destruct special; by repeat split|]. apply Forall_app. split.
    + apply forallb_Forall_iff in Ht. eapply Forall_impl; [exact Ht|]. cbn. intros x Hx.
      destruct (ipv6_char_facts x special Hx) as (? & _ & _ & ? & ?). by split.
    + apply Forall_singleton. destruct special; by repeat split.
Qed.

Lemma digits_authority special digits :
  forallb is_ascii_digit digits = true -> Forall (authority_char special) digits.
Proof.
  rewrite forallb_Forall_iff. intros Hd. eapply Forall_impl; [exact Hd|]. cbn. intros x Hx.
  unfold authority_char, is_terminator, end_of_file. destruct special; cbn; ascii_lia.
Qed.

Lemma authority_ascii special s : Forall (authority_char special) s -> ascii s.
Proof. intros Hs. eapply Forall_impl; [exact Hs|]. by intros x (? & _). Qed.

(** What the text of a host tells about the other members. *)
Lemma empty_host_members h (text : bytes) :
  host u = Some h -> (text = [] -> is_empty_host h = true) -> text = [] ->
  username u = [] /\ password u = [] /\ port u = None.
Proof.
  intros Hh He Ht. apply (front_bare u u_front). unfold cannot_have_a_username_or_password_or_port.
  by rewrite Hh, (He Ht).
Qed.

Definition credentials : bytes :=
  if includes_credentials u then credentials_text (username u) (password u) ++ [ch "@"] else [].

(** The record when the credentials are known. *)
Definition with_credentials : URL :=
  with_password (with_username (with_scheme empty_url (scheme u)) (username u)) (password u).

Section with_host_text.
Variables (h : Host) (text ptext : bytes).
Hypothesis u_host : host u = Some h.
Hypothesis u_not_file : scheme u <> sv "file".
Hypothesis h_text : host_serialize h = Ret text.
Hypothesis u_port_text : serialize_port u = Ret ptext.
Hypothesis input_ascii : ascii input.
Hypothesis input_size : Z.of_nat (length input) < 2 ^ 64.

(** What is known of the two texts. *)
Lemma authority_texts :
  host_ok (negb (is_special u)) h /\ parse_host text (negb (is_special u)) = Ret (Some h) /\ host_text text
  /\ (text = [] -> is_empty_host h = true) /\ Forall (authority_char (is_special u)) (text ++ ptext).
Proof.
  pose proof (front_host u u_front) as Hhost. unfold url_host_ok in Hhost. rewrite u_host in Hhost.
  destruct Hhost as [[Hok _]|[_ ?]]; [|done].
  destruct (host_text_shape _ h Hok) as (text' & Hser' & Hparse & Hempty & Htext).
  rewrite h_text in Hser'. injection Hser' as <-.
  destruct (port_text_shape (front_port u u_front)) as (ptext' & Hp' & _ & Hport).
  rewrite u_port_text in Hp'. injection Hp' as <-. split; [done|]. split; [done|]. split; [done|]. split; [done|].
  apply Forall_app. split; [by apply host_text_authority|]. destruct (port u); [|by subst].
  destruct Hport as (digits & -> & Hd & _).
  constructor; [destruct (is_special u); by repeat split|by apply digits_authority].
Qed.

(** Only host and port are left of the authority. *)
Lemma evals_after_credentials p pre d :
  state p = State.Authority -> buffer p = [] -> (at_sign_seen p = true -> text ++ ptext <> []) ->
  encoder p = UTF8Encoder -> inside_brackets p = false -> iterator p = (text ++ ptext) ++ path_text ->
  input = pre ++ d :: (text ++ ptext) ++ path_text -> url p = with_credentials ->
  evals p (resolved u, true).
Proof.
  intros Hs Hb Hat He Hib Hit Hin Hu. destruct authority_texts as (Hok & Hparse & Htext & Hempty & Hchars).
  pose proof (empty_host_members h text u_host Hempty) as Hbare.
  apply (evals_authority_host p pre d (text ++ ptext)); try done; [by rewrite Hu|].
  apply (evals_host _ h text ptext); cbn [state inside_brackets buffer encoder url iterator with_iterator with_state];
    rewrite ?Hu; try done.
  - apply (front_port u u_front).
  - intros [Hspecial|Hportn] Ht; [|by destruct (Hbare Ht) as (_ & _ & ?)].
    rewrite Hspecial in Hok. pose proof (Hempty Ht) as He'. destruct h as [| |hs]; try done.
    by destruct hs; [destruct Hok|].
  - by rewrite app_assoc.
  - apply Forall_app in Hchars as [Hchars _]. by eapply authority_ascii.
  - rewrite <- u_host. unfold resolved, with_tail, with_credentials.
    destruct u as [sc un pw ho po pa qu fr op bl]. cbn in *. by subst.
Qed.

Lemma credentials_chars : Forall (authority_char (is_special u)) (credentials_text (username u) (password u)).
Proof.
  pose proof (front_username u u_front) as Hun. pose proof (front_password u u_front) as Hpw.
  unfold credentials_text. apply Forall_app. split.
  - eapply Forall_impl; [exact Hun|]. intros. by apply userinfo_authority.
  - destruct (sv_is_empty (password u)); cbn [negb app]; [constructor|].
    constructor; [destruct (is_special u); by repeat split|].
    eapply Forall_impl; [exact Hpw|]. intros. by apply userinfo_authority.
Qed.

Lemma evals_authority p pre d :
  state p = State.Authority -> buffer p = [] -> at_sign_seen p = false -> password_token_seen p = false ->
  inside_brackets p = false -> encoder p = UTF8Encoder -> url p = with_scheme empty_url (scheme u) ->
  iterator p = credentials ++ text ++ ptext ++ path_text -> input = pre ++ d :: iterator p ->
  evals p (resolved u, true).
Proof.
  intros Hs Hb Hat Hpt Hib He Hu Hit Hin. destruct authority_texts as (_ & _ & _ & Hempty & _).
  pose proof (empty_host_members h text u_host Hempty) as Hbare.
  unfold credentials in Hit. destruct (includes_credentials u) eqn:Hinc.
  - rewrite <- app_assoc in Hit. cbn [app] in Hit.
    assert (Hia : ascii (iterator p)).
    { pose proof input_ascii as Hia. rewrite Hin in Hia. apply Forall_app in Hia as [_ Hia].
      by apply Forall_cons in Hia as [_ ?]. }
    rewrite Hit in Hia.
    apply (evals_authority_chars _ p _ _ Hs ltac:(rewrite Hu; apply credentials_chars) Hit Hia). rewrite Hb. cbn [app].
    apply Forall_app in Hia as [_ Hia]. apply Forall_cons in Hia as [_ Hia].
    eapply (evals_at_sign _ (username u) (password u)); [..|exact Hia|]; try done;
      [cbn [url with_iterator with_buffer]; by rewrite Hu..|apply u_front|apply u_front|].
    intros q Hq1 Hq2 Hq3 Hq4 Hq5 Hq6 Hq7.
    apply (evals_after_credentials q (pre ++ d :: credentials_text (username u) (password u)) (ch "@")); try done.
    + intros _ Hnil. apply app_eq_nil in Hnil as [Hnil _]. destruct (Hbare Hnil) as (Hun0 & Hpw0 & _).
      unfold includes_credentials in Hinc. by rewrite Hun0, Hpw0 in Hinc.
    + by rewrite Hq4.
    + by rewrite Hq5.
    + by rewrite Hq6, <- app_assoc.
    + rewrite Hin, Hit, <- ?app_assoc. cbn [app]. by rewrite <- ?app_assoc.
    + rewrite Hq7. cbn [url with_iterator with_buffer]. by rewrite Hu.
  - cbn [app] in Hit. apply (evals_after_credentials p pre d); try done.
    + by rewrite Hat.
    + by rewrite Hit, <- app_assoc.
    + by rewrite Hin, Hit, <- app_assoc.
    + unfold includes_credentials in Hinc. apply orb_false_elim in Hinc as [Hun0 Hpw0].
      rewrite Hu. unfold with_credentials. destruct (username u), (password u); done.
Qed.

End with_host_text.

(** *** File URLs *)

Lemma file_host_append p x :
  state p = State.FileHost -> authority_char true x ->
  step p x = Ret (Advance (with_buffer p (buffer p ++ [x]))).
Proof.
  intros Hs (Hx & _ & Ht). unfold run_state. rewrite Hs. unfold file_host_state.
  unfold is_terminator, end_of_file in *. cbn [andb] in Ht.
  replace ((x =? _) || _ || _ || _ || _) with false by (cbn in *; lia).
  by rewrite append_code_point_ascii by lia.
Qed.

Lemma evals_file_host text : forall p after r,
  state p = State.FileHost -> Forall (authority_char true) text -> iterator p = text ++ after -> ascii (text ++ after) ->
  evals (with_iterator (with_buffer p (buffer p ++ text)) after) r -> evals p r.
Proof.
  induction text as [|x text IH]; intros p after r Hs Hc Hit Ha Hr.
  - rewrite app_nil_r in Hr. destruct p. cbn in *. by subst.
  - apply Forall_cons in Hc as [Hx Hc]. pose proof (file_host_append p x Hs Hx) as Hstep.
    eapply evals_advance; [exact Hit|exact Ha|exact Hstep|done|].
    apply Forall_cons in Ha as [_ Ha]. apply (IH _ after); try done.
    cbn [buffer with_iterator with_buffer]. by rewrite <- app_assoc.
Qed.

Lemma host_text_no_drive text : host_text text -> is_windows_drive_letter text = false.
Proof.
  intros [Hh|(t & -> & _)].
  - destruct text as [|a [|b [|]]]; try done. apply Forall_cons in Hh as [_ Hh].
    apply Forall_cons in Hh as [[_ Hb] _]. cbn [is_windows_drive_letter].
    unfold contains_char, forbidden_host_code_points in Hb. cbn [existsb app] in Hb. cbn. lia.
  - by destruct t as [|x [|]].
Qed.

(** The text and value of the host of a file URL. *)
Lemma file_host_text h :
  host u = Some h -> scheme u = sv "file" ->
  exists text, host_serialize h = Ret text /\ host_text text
    /\ (text = [] -> h = HostString [])
    /\ (text <> [] -> parse_host text false = Ret (Some h) /\ h <> HostString (sv "localhost")).
Proof.
  intros Hh Hf. pose proof (front_host u u_front) as Hhost. unfold url_host_ok in Hhost. rewrite Hh in Hhost.
  destruct Hhost as [[Hok Hl]|[-> _]].
  - rewrite (file_is_special u Hf) in Hok. destruct (host_text_shape false h Hok) as (text & Hs & Hp & He & Ht).
    exists text. split; [done|]. split; [done|]. split; [|auto]. intros Hnil. specialize (He Hnil).
    destruct h as [| |hs]; try done. by destruct hs.
  - exists []. split; [done|]. split; [by left|]. done.
Qed.

Lemma evals_file p h text :
  state p = State.File -> buffer p = [] -> encoder p = UTF8Encoder -> url p = with_scheme empty_url (sv "file") ->
  host u = Some h -> scheme u = sv "file" -> host_serialize h = Ret text ->
  iterator p = sv "//" ++ text ++ path_text -> evals p (resolved u, true).
Proof.
  intros Hs Hb He Hu Hh Hf Hser Hit.
  destruct (file_host_text h Hh Hf) as (text' & Hser' & Htext & Hempty & Hparse).
  rewrite Hser in Hser'. injection Hser' as <-.
  destruct (front_bare u u_front) as (Hun & Hpw & Hpo).
  { unfold cannot_have_a_username_or_password_or_port. by rewrite Hh, Hf, orb_true_r. }
  pose proof path_text_ascii as Ha. pose proof (host_text_authority true text Htext) as Htc.
  pose proof (authority_ascii _ _ Htc) as Hta.
  assert (Hsp : is_special u = true) by (by apply file_is_special).
  assert (Hall : ascii (text ++ path_text)) by (by apply Forall_app).
  assert (Hfinal : forall q, state q = State.PathStart -> buffer q = [] -> encoder q = UTF8Encoder ->
    iterator q = path_text -> url q = with_host (with_scheme empty_url (sv "file")) (Some h) ->
    evals q (resolved u, true)).
  { intros q Hq1 Hq2 Hq3 Hq4 Hq5. apply evals_path_start; try done.
    - unfold agrees. rewrite Hq5, Hf. done.
    - rewrite Hq5. unfold resolved, with_tail. destruct u as [sc un pw ho po pa qu fr op bl]. cbn in *. by subst. }
  (* the two slashes *)
  eapply evals_advance; [exact Hit| |unfold run_state; rewrite Hs; unfold file_state; rewrite Hu; reflexivity|done|].
  { constructor; [simpl; lia|]. by constructor; [simpl; lia|]. }
  eapply evals_advance; [reflexivity| |reflexivity|done|].
  { by constructor; [simpl; lia|]. }
  eapply (evals_file_host text _ path_text); [reflexivity|done|reflexivity|done|].
  set (q := with_iterator _ path_text).
  assert (Hslash : exists rest, path_text = ch "/" :: rest).
  { destruct u_segments as (_ & _ & Hne). unfold path_text. destruct (paths u); [by destruct Hne; [left|]|].
    by eexists. }
  destruct Hslash as [rest Hrest].
  assert (Hbuf : buffer q = text) by (cbn; by rewrite Hb).
  assert (Hstep : exists q', step q (c (iterator q)) = Ret (Continue q') /\ state q' = State.PathStart
    /\ buffer q' = [] /\ encoder q' = UTF8Encoder /\ iterator q' = path_text
    /\ url q' = with_host (with_scheme empty_url (sv "file")) (Some h)).
  { change (iterator q) with path_text. rewrite Hrest. cbn [c]. unfold run_state. cbn [q state with_iterator with_buffer with_state].
    unfold file_host_state. fold q. rewrite Hbuf, host_text_no_drive by done.
    cbn [Z.eqb Pos.eqb end_of_file orb overridden negb andb].
    destruct (decide (text = [])) as [Hnil|Hne].
    - rewrite Hnil. cbn [sv_is_empty]. eexists. split; [reflexivity|]. rewrite (Hempty Hnil). cbn. by rewrite Hb, Hnil.
    - replace (sv_is_empty text) with false by (by destruct text). destruct (Hparse Hne) as [Hp Hl].
      change (negb (is_special (url q))) with false. rewrite Hp. cbn [res_bind].
      rewrite bool_decide_eq_false_2 by done. eexists. split; [reflexivity|]. done. }
  destruct Hstep as (q' & Hstep & Hq). eapply evals_continue; [exact Ha|exact Hstep|]. apply Hfinal; apply Hq.
Qed.


(** *** URLs without a host *)

Lemma dot_path_char special : path_char special (ch ".").
Proof. split; [by apply is_clean_spec|]. by split. Qed.

(** The segment ["."] in front of a slash disappears. *)
Lemma evals_dot p after r :
  state p = State.Path -> buffer p = [] -> iterator p = ch "." :: ch "/" :: after -> ascii after ->
  evals (with_iterator p after) r -> evals p r.
Proof.
  intros Hs Hb Hit Ha Hr.
  assert (Ha' : ascii (ch "/" :: after)) by (constructor; [simpl; lia|done]).
  eapply evals_advance;
    [exact Hit|constructor; [simpl; lia|done]|apply path_state_append; [done|apply dot_path_char]|reflexivity|].
  rewrite Hb. cbn [app]. eapply evals_advance;
    [reflexivity|exact Ha'|unfold run_state; cbn [state with_iterator with_buffer]; rewrite Hs; reflexivity|reflexivity|].
  destruct p. cbn in *. by subst.
Qed.

Lemma evals_path_or_authority_none p text :
  state p = State.PathOrAuthority -> buffer p = [] -> encoder p = UTF8Encoder ->
  url p = with_scheme empty_url (scheme u) -> host u = None ->
  serialize_path_part u = Ret text -> ch "/" :: iterator p = text ++ tail_text ->
  evals p (resolved u, true).
Proof.
  intros Hs Hb He Hu Hh Htext Hit. destruct u_segments as (Hseg & _ & Hne).
  assert (Hagree : agrees (url p)) by (by rewrite Hu).
  destruct (front_bare u u_front) as (Hun & Hpw & Hpo).
  { unfold cannot_have_a_username_or_password_or_port. by rewrite Hh. }
  assert (Hv : resolved u = with_tail (with_paths (url p) (paths u))).
  { rewrite Hu. unfold resolved, with_tail. destruct u as [sc un pw ho po pa qu fr op bl]. cbn in *. by subst. }
  pose proof path_text_ascii as Ha. unfold path_text in Ha.
  unfold serialize_path_part in Htext. rewrite u_not_opaque, Hh in Htext.
  destruct (paths u) as [|s rest] eqn:Hp; [by destruct Hne; [right|]|].
  change (slash_segments (s :: rest) ++ tail_text) with ((ch "/" :: s ++ slash_segments rest) ++ tail_text) in Ha.
  assert (Hpath : forall q, state q = State.Path -> buffer q = [] -> encoder q = UTF8Encoder ->
    url q = url p -> iterator q = s ++ slash_segments rest ++ tail_text -> evals q (resolved u, true)).
  { intros q Hq1 Hq2 Hq3 Hq4 Hq5. apply (evals_path_after_slash q s rest); try done; [by rewrite Hq4|].
    by rewrite Hq4, Hp. }
  destruct (decide (s = [] /\ rest <> [])) as [[-> Hrest]|Hplain].
  - replace (1 <? length ([] :: rest))%nat with true in Htext by (destruct rest; [done|by cbn]).
    cbn in Htext. injection Htext as <-. cbn [app] in Hit. injection Hit as Hit.
    cbn [app] in Ha. apply Forall_cons in Ha as [_ Ha].
    assert (Hstep : step p (c (iterator p)) = Ret (Continue (with_state p State.Path))).
    { rewrite Hit. unfold run_state. rewrite Hs. reflexivity. }
    eapply evals_continue; [|exact Hstep|].
    { rewrite Hit. constructor; [simpl; lia|]. by constructor; [simpl; lia|]. }
    apply (evals_dot _ (slash_segments rest ++ tail_text)); try done. by apply Hpath.
  - assert (Hit' : iterator p = s ++ slash_segments rest ++ tail_text).
    { assert (Hdot : text = slash_segments (s :: rest)).
      { destruct (1 <? length (s :: rest))%nat eqn:E; cbn [at_index unwrap lookup list_lookup res_bind] in Htext.
        - destruct s; [|by injection Htext as <-]. destruct Hplain. split; [done|by destruct rest].
        - by injection Htext as <-. }
      rewrite Hdot in Hit. cbn [slash_segments mbind list_bind app] in Hit. injection Hit as ->. by rewrite <- app_assoc. }
    assert (Hc : (c (iterator p) =? ch "/") = false).
    { rewrite Hit'. destruct s as [|x s].
      - destruct rest; [|by destruct Hplain]. cbn [app slash_segments mbind list_bind].
        by destruct tail_first as [->|[->| ->]].
      - apply Forall_cons in Hseg as [(Hx & _) _]. apply Forall_cons in Hx as [(_ & Hx & _) _]. cbn. lia. }
    assert (Hstep : step p (c (iterator p)) = Ret (Continue (with_state p State.Path))).
    { unfold run_state. rewrite Hs. unfold path_or_authority_state. by rewrite Hc. }
    eapply evals_continue; [|exact Hstep|].
    { rewrite Hit', app_assoc. cbn [app] in Ha. by apply Forall_cons in Ha as [_ Ha]. }
    by apply Hpath.
Qed.

End parts.

(** ** Facts: the scheme *)

Section whole.
Context `{LookupTablesLaws, IcuLaws, SimdutfLaws, FastFloatLaws}.
Variable input : bytes.

Lemma scheme_char_lower x : is_scheme_char x = true -> to_ascii_lowercase x = x /\ 0 <= x < 128.
Proof. unfold is_scheme_char, to_ascii_lowercase. intros Hx. break_match; ascii_lia. Qed.

Lemma evals_scheme_chars s : forall p after r,
  state p = State.Scheme -> forallb is_scheme_char s = true -> iterator p = s ++ after -> ascii (s ++ after) ->
  evals input (with_iterator (with_buffer p (buffer p ++ s)) after) r -> evals input p r.
Proof.
  induction s as [|x s IH]; intros p after r Hs Hc Hit Ha Hr.
  - rewrite app_nil_r in Hr. destruct p. cbn in *. by subst.
  - cbn [forallb] in Hc. apply andb_prop in Hc as [Hx Hc]. destruct (scheme_char_lower x Hx) as [Hl _].
    assert (Hstep : run_state input None None p x = Ret (Advance (with_buffer p (buffer p ++ [x])))).
    { unfold run_state. rewrite Hs. unfold scheme_state. rewrite Hl.
      by replace (_ || _) with true by (unfold is_scheme_char in Hx; ascii_lia). }
    eapply evals_advance; [exact Hit|exact Ha|exact Hstep|done|].
    apply Forall_cons in Ha as [_ Ha]. apply (IH _ after); try done.
    cbn [buffer with_iterator with_buffer]. by rewrite <- app_assoc.
Qed.

(** From the start to the colon. *)
Lemma evals_scheme s after r :
  scheme_ok s -> input = s ++ ch ":" :: after -> ascii input ->
  evals input (with_iterator (with_buffer (at_start input State.Scheme) s) (ch ":" :: after)) r ->
  evals input (at_start input State.SchemeStart) r.
Proof.
  intros (x & rest & -> & Hx & Hrest) Hin Ha Hr. rewrite Hin in Ha.
  assert (Hstep : run_state input None None (at_start input State.SchemeStart) x
    = Ret (Advance (with_buffer (at_start input State.Scheme) [x]))).
  { unfold run_state. cbn [at_start state]. unfold scheme_start_state.
    replace (is_ascii_alpha x) with true by ascii_lia.
    replace (to_ascii_lowercase x) with x by (unfold to_ascii_lowercase; break_match; ascii_lia). reflexivity. }
  eapply evals_advance; [exact Hin|exact Ha|exact Hstep|reflexivity|].
  apply Forall_cons in Ha as [_ Ha]. by apply (evals_scheme_chars rest _ (ch ":" :: after)).
Qed.

End whole.

(** ** Facts: serializations are printable *)

Definition printable (x : Z) : Prop := 0x20 < x < 0x7F.

Definition no_space_set (set : PercentEncodeSet) : bool :=
  match set with Fragment | Query | SpecialQuery | Path | Userinfo => true | _ => false end.

Lemma clean_printable set x : no_space_set set = true -> clean set x -> printable x.
Proof.
  intros Hset [Hx [->|Hc]]; [unfold printable; simpl; lia|].
  assert (x <> 32) by (intros ->; by destruct set).
  destruct ((x <? 0x20) || (0x7E <? x)) eqn:E; [|unfold printable; lia].
  destruct set; try done; unfold code_point_is_in_percent_encode_set in Hc; rewrite E in Hc; done.
Qed.

Lemma clean_printable_list set s : no_space_set set = true -> Forall (clean set) s -> Forall printable s.
Proof. intros Hset Hs. eapply Forall_impl; [exact Hs|]. intros x. by apply clean_printable. Qed.

Lemma printable_ascii s : Forall printable s -> ascii s.
Proof. intros Hs. eapply Forall_impl; [exact Hs|]. unfold printable. lia. Qed.

Lemma host_text_printable text : host_text text -> Forall printable text.
Proof.
  intros [Hh|(t & -> & Ht)].
  - eapply Forall_impl; [exact Hh|]. by intros x [Hx _].
  - constructor; [unfold printable; simpl; lia|]. apply Forall_app. split.
    + apply forallb_Forall_iff in Ht. eapply Forall_impl; [exact Ht|]. cbn. unfold is_ipv6_text, printable.
      intros; ascii_lia.
    + constructor; [unfold printable; simpl; lia|constructor].
Qed.

Lemma scheme_printable s : scheme_ok s -> Forall printable s.
Proof.
  intros (x & rest & -> & Hx & Hr). constructor; [unfold printable; ascii_lia|].
  apply forallb_Forall_iff in Hr. eapply Forall_impl; [exact Hr|]. cbn. unfold is_scheme_char, printable.
  intros; ascii_lia.
Qed.

Section whole_url.
Context `{LookupTablesLaws, IcuLaws, SimdutfLaws, FastFloatLaws}.
Variable u : URL.
Hypothesis u_ok : url_ok u.

Lemma tail_printable : Forall printable (tail_text u).
Proof.
  pose proof (ok_query u u_ok) as Hq. pose proof (ok_fragment u u_ok) as Hf. unfold query_ok, fragment_ok in *.
  unfold tail_text, serialize_query, serialize_fragment. apply Forall_app. split.
  - destruct (query u); [|constructor]. constructor; [unfold printable; simpl; lia|].
    apply (clean_printable_list (query_set (is_special u))); [by destruct (is_special u)|done].
  - destruct (fragment u); [|constructor]. constructor; [unfold printable; simpl; lia|].
    by apply (clean_printable_list Fragment).
Qed.

Lemma credentials_printable : Forall printable (credentials u).
Proof.
  unfold credentials, credentials_text. destruct (includes_credentials u); [|constructor].
  apply Forall_app. split; [apply Forall_app; split|].
  - apply (clean_printable_list Userinfo); [done|apply (ok_front u u_ok)].
  - destruct (negb _); [|constructor]. constructor; [unfold printable; simpl; lia|].
    apply (clean_printable_list Userinfo); [done|apply (ok_front u u_ok)].
  - constructor; [unfold printable; simpl; lia|constructor].
Qed.

(** The authority of a URL with a host. *)
Lemma authority_shape h :
  host u = Some h ->
  exists text ptext, host_serialize h = Ret text /\ serialize_port u = Ret ptext /\ host_text text
    /\ serialize_authority u = Ret (sv "//" ++ credentials u ++ text ++ ptext) /\ Forall printable ptext
    /\ (is_special u = true -> scheme u <> sv "file" -> text <> []).
Proof.
  intros Hh. destruct (port_text_shape u (front_port u (ok_front u u_ok))) as (ptext & Hp & _ & Hport).
  assert (Hpp : Forall printable ptext).
  { destruct (port u); [|subst; constructor]. destruct Hport as (digits & -> & Hd & _).
    constructor; [unfold printable; simpl; lia|]. apply forallb_Forall_iff in Hd.
    eapply Forall_impl; [exact Hd|]. cbn. unfold printable. intros; ascii_lia. }
  assert (Htext : exists text, host_serialize h = Ret text /\ host_text text
    /\ (is_special u = true -> scheme u <> sv "file" -> text <> [])).
  { pose proof (front_host u (ok_front u u_ok)) as Hhost. unfold url_host_ok in Hhost. rewrite Hh in Hhost.
    destruct Hhost as [[Hok _]|[-> Hf]]; [|exists []; split; [done|split; [by left|done]]].
    destruct (host_text_shape _ h Hok) as (text & Hs & _ & He & Ht). exists text. split; [done|]. split; [done|].
    intros Hsp _ Hnil. specialize (He Hnil). rewrite Hsp in Hok. destruct h as [| |hs]; try done.
    by destruct hs; [destruct Hok|]. }
  destruct Htext as (text & Hs & Ht & Hne). exists text, ptext. split; [done|]. split; [done|]. split; [done|].
  split; [|done]. unfold serialize_authority, serialized_host. rewrite Hh. cbn [unwrap res_bind].
  rewrite Hs, Hp. cbn [res_bind]. unfold credentials, credentials_text.
  destruct (includes_credentials u); by rewrite <- ?app_assoc.
Qed.

Lemma segments_printable :
  has_an_opaque_path u = false -> exists text, serialize_path_part u = Ret text /\ Forall printable text.
Proof.
  intros Hop. destruct (u_segments u (ok_path u u_ok) Hop) as (Hseg & _).
  assert (Hsl : Forall printable (slash_segments (paths u))).
  { apply Forall_bind. eapply Forall_impl; [exact Hseg|]. intros s (Hs & _).
    constructor; [unfold printable; simpl; lia|]. eapply Forall_impl; [exact Hs|].
    intros x (Hx & _). by apply (clean_printable Path). }
  unfold serialize_path_part. rewrite Hop. destruct (host u); [by eexists|].
  destruct (paths u) as [|s rest]; [by eexists|]. destruct (1 <? length (s :: rest))%nat; [|by eexists].
  cbn [at_index unwrap lookup list_lookup res_bind]. eexists. split; [done|]. apply Forall_app. split; [|done].
  destruct (sv_is_empty s); [|constructor]. repeat (constructor; [unfold printable; simpl; lia|]). constructor.
Qed.

End whole_url.

(** ** Facts: the whole serialization *)

Section assembly.
Context `{LookupTablesLaws, IcuLaws, SimdutfLaws, FastFloatLaws}.
Variable u : URL.
Hypothesis u_ok : url_ok u.
Variable input : bytes.
Hypothesis input_ascii : ascii input.
Hypothesis input_size : Z.of_nat (length input) < 2 ^ 64.

(** At the colon after the scheme. *)
Definition at_colon (after : bytes) : parser :=
  with_iterator (with_buffer (at_start input State.Scheme) (scheme u)) (ch ":" :: after).

(** The scheme is known, in the state [s]. *)
Definition after_colon (s : State.t) (it : bytes) : parser :=
  with_iterator (with_url (at_start input s) (with_scheme empty_url (scheme u))) it.

Lemma colon_step after :
  run_state input None None (at_colon after) (ch ":")
  = after_scheme None (with_url (at_colon after) (with_scheme empty_url (scheme u))).
Proof. reflexivity. Qed.

Lemma evals_colon s after r :
  ascii after ->
  after_scheme None (with_url (at_colon after) (with_scheme empty_url (scheme u)))
  = Ret (Advance (after_colon s (ch ":" :: after))) ->
  evals input (after_colon s after) r -> evals input (at_colon after) r.
Proof.
  intros Ha Hstep Hr. rewrite <- colon_step in Hstep.
  eapply evals_advance; [reflexivity|constructor; [simpl; lia|done]|exact Hstep|reflexivity|exact Hr].
Qed.

Lemma colon_file after r :
  scheme u = sv "file" -> ascii after ->
  evals input (after_colon State.File after) r -> evals input (at_colon after) r.
Proof. intros Hf Ha. apply evals_colon; [done|]. unfold after_scheme, after_colon. cbn. by rewrite Hf. Qed.

Lemma colon_special after r :
  is_special u = true -> scheme u <> sv "file" -> ascii after ->
  evals input (after_colon State.SpecialAuthoritySlashes after) r -> evals input (at_colon after) r.
Proof.
  intros Hsp Hf Ha. apply evals_colon; [done|]. unfold after_scheme. unfold is_special in *.
  cbn [url scheme with_buffer with_url with_scheme]. rewrite sv_eqb_false, Hsp by done. reflexivity.
Qed.

Lemma colon_remaining after :
  get_remaining (with_buffer (with_url (at_colon after) (with_scheme empty_url (scheme u))) []) = Ret after
  /\ iterator_incr (iterator (with_buffer (with_url (at_colon after) (with_scheme empty_url (scheme u))) [])) = Ret after.
Proof. apply (remaining_ascii _ (ch ":")); [done|simpl; lia]. Qed.

Lemma not_special_not_file : is_special u = false -> scheme u <> sv "file".
Proof. intros Hsp Hf. unfold is_special in Hsp. by rewrite Hf in Hsp. Qed.

Lemma colon_slash after r :
  is_special u = false -> ascii (ch "/" :: after) ->
  evals input (after_colon State.PathOrAuthority after) r -> evals input (at_colon (ch "/" :: after)) r.
Proof.
  intros Hsp Ha Hr. pose proof (not_special_not_file Hsp) as Hf.
  eapply (evals_jump input _ (after_colon State.PathOrAuthority (ch "/" :: after)) (ch "/") after);
    [constructor; [simpl; lia|done]| |reflexivity|done|exact Hr].
  change (c (iterator (at_colon (ch "/" :: after)))) with (ch ":"). rewrite colon_step. unfold after_scheme.
  destruct (colon_remaining (ch "/" :: after)) as [-> ->]. unfold is_special in *.
  cbn [url scheme with_buffer with_url with_scheme]. rewrite sv_eqb_false, Hsp by done. reflexivity.
Qed.

Lemma colon_opaque after r :
  is_special u = false -> ascii after -> starts_with_char after (ch "/") = false ->
  evals input (with_url (after_colon State.OpaquePath after)
    (append_slash (with_opaque_path (with_scheme empty_url (scheme u)) true))) r ->
  evals input (at_colon after) r.
Proof.
  intros Hsp Ha Hslash Hr. pose proof (not_special_not_file Hsp) as Hf.
  assert (Hstep : run_state input None None (at_colon after) (ch ":")
    = Ret (Advance (with_url (after_colon State.OpaquePath (ch ":" :: after))
        (append_slash (with_opaque_path (with_scheme empty_url (scheme u)) true))))).
  { rewrite colon_step. unfold after_scheme. destruct (colon_remaining after) as [-> _]. unfold is_special in *.
    cbn [url scheme with_buffer with_url with_scheme]. rewrite sv_eqb_false, Hsp by done. cbn [andb res_bind].
    replace (starts_with after (sv "/") CaseSensitive) with false; [reflexivity|]. symmetry.
    destruct (starts_with after (sv "/") CaseSensitive) eqn:E; [|done].
    apply starts_with_one in E as [rest ->]. done. }
  eapply evals_advance; [reflexivity|constructor; [simpl; lia|done]|exact Hstep|reflexivity|exact Hr].
Qed.

(** The two slashes in front of the authority of a special URL. *)
Lemma evals_special_slashes after r :
  ascii after -> after <> [] -> c after <> ch "/" -> c after <> ch "\" ->
  evals input (after_colon State.Authority after) r ->
  evals input (after_colon State.SpecialAuthoritySlashes (sv "//" ++ after)) r.
Proof.
  intros Ha Hne Hs Hb Hr.
  assert (Ha1 : ascii (ch "/" :: after)) by (constructor; [simpl; lia|done]).
  eapply (evals_jump input _ (after_colon State.SpecialAuthorityIgnoreSlashes (ch "/" :: after)) (ch "/") after);
    [constructor; [simpl; lia|done]| |reflexivity|done|].
  - set (q := after_colon State.SpecialAuthoritySlashes (sv "//" ++ after)).
    change (c (iterator q)) with (ch "/").
    change (run_state input None None q (ch "/")) with (special_authority_slashes_state q (ch "/")).
    destruct (remaining_ascii q (ch "/") (ch "/" :: after) eq_refl ltac:(simpl; lia)) as [Hrem Hincr].
    unfold special_authority_slashes_state. cbn [Z.eqb Pos.eqb]. rewrite Hrem, Hincr. reflexivity.
  - assert (Hstep : run_state input None None (after_colon State.SpecialAuthorityIgnoreSlashes after) (c after)
      = Ret (Continue (after_colon State.Authority after))).
    { unfold run_state. cbn [state after_colon with_iterator with_url at_start]. unfold special_authority_ignore_slashes_state.
      replace (c after =? ch "/") with false by lia. replace (c after =? ch "\") with false by lia. reflexivity. }
    by eapply evals_continue; [exact Ha|exact Hstep|].
Qed.


(** *** The shapes of a URL *)

Lemma evals_opaque_url path :
  has_an_opaque_path u = true -> paths u = [path] -> last path <> Some 32 ->
  ascii (path ++ tail_text u) -> evals input (at_colon (path ++ tail_text u)) (resolved u, true).
Proof.
  intros Hop Hpaths Hlast Ha. pose proof (ok_path u u_ok) as Hp. unfold path_ok in Hp. rewrite Hop in Hp.
  destruct Hp as (Hsp & Hh & path' & Hpaths' & Hpok & Hhead). rewrite Hpaths in Hpaths'. injection Hpaths' as <-.
  destruct (opaque_members u u_ok Hop) as (Hun & Hpw & _ & Hpo).
  apply colon_opaque; [done|done| |].
  - destruct path as [|x path]; cbn [app starts_with_char].
    + destruct (tail_first u) as [Hc|[Hc|Hc]]; destruct (tail_text u); cbn in *; by subst.
    + apply Z.eqb_neq. intros Hx. apply Hhead. cbn. congruence.
  - apply (evals_opaque_path input u (ok_query u u_ok) (ok_fragment u u_ok) path); try done.
    unfold resolved, with_tail. destruct u as [sc un pw ho po pa qu fr op bl]. cbn in *. by subst.
Qed.

Lemma evals_hostless_url text :
  has_an_opaque_path u = false -> host u = None -> serialize_path_part u = Ret text ->
  ascii (text ++ tail_text u) -> evals input (at_colon (text ++ tail_text u)) (resolved u, true).
Proof.
  intros Hop Hh Htext Ha. pose proof (front_host u (ok_front u u_ok)) as Hsp. unfold url_host_ok in Hsp.
  rewrite Hh in Hsp. destruct (u_segments u (ok_path u u_ok) Hop) as (_ & _ & Hne).
  assert (Hslash : exists rest, text = ch "/" :: rest).
  { unfold serialize_path_part in Htext. rewrite Hop, Hh in Htext.
    destruct (paths u) as [|s rest]; [by destruct Hne; [right|]|].
    destruct (1 <? length (s :: rest))%nat; cbn [at_index unwrap lookup list_lookup res_bind] in Htext;
      [destruct (sv_is_empty s)|]; injection Htext as <-; by eexists. }
  destruct Hslash as [rest ->]. apply colon_slash; [done|done|].
  by apply (evals_path_or_authority_none input u (ok_query u u_ok) (ok_fragment u u_ok) (ok_path u u_ok) Hop
    (ok_front u u_ok) _ (ch "/" :: rest)).
Qed.

(** The first character of an authority is not a slash. *)
Lemma authority_first text after :
  host_text text -> (credentials u = [] -> text <> []) ->
  exists x rest, credentials u ++ text ++ after = x :: rest /\ authority_char true x.
Proof.
  intros Ht Hne. pose proof (ok_front u u_ok) as Hf. unfold credentials in *.
  destruct (includes_credentials u) eqn:Hinc.
  - unfold credentials_text, includes_credentials in *.
    destruct (username u) as [|x un] eqn:Hun.
    + destruct (password u) as [|y pw]; [done|]. cbn. eexists _, _. split; [reflexivity|]. by repeat split.
    + cbn. eexists _, _. split; [reflexivity|]. apply userinfo_authority.
      pose proof (front_username u Hf) as Hc. rewrite Hun in Hc. by apply Forall_cons in Hc as [? _].
  - destruct text as [|x text]; [by destruct Hne|]. eexists _, _. split; [reflexivity|].
    pose proof (host_text_authority true _ Ht) as Hc. by apply Forall_cons in Hc as [? _].
Qed.

Lemma evals_host_url h text ptext :
  has_an_opaque_path u = false -> host u = Some h -> host_serialize h = Ret text ->
  serialize_port u = Ret ptext -> host_text text ->
  (is_special u = true -> scheme u <> sv "file" -> text <> []) ->
  input = scheme u ++ ch ":" :: sv "//" ++ credentials u ++ text ++ ptext ++ path_text u ->
  evals input (at_colon (sv "//" ++ credentials u ++ text ++ ptext ++ path_text u)) (resolved u, true).
Proof.
  intros Hop Hh Hser Hpser Ht Hne Hin. set (after := credentials u ++ text ++ ptext ++ path_text u) in *.
  assert (Ha : ascii (sv "//" ++ after)).
  { pose proof input_ascii as Hia. rewrite Hin in Hia. apply Forall_app in Hia as [_ Hia]. by apply Forall_cons in Hia as [_ ?]. }
  assert (Ha1 : ascii (ch "/" :: after)) by (by apply Forall_cons in Ha as [_ ?]).
  assert (Ha2 : ascii after) by (by apply Forall_cons in Ha1 as [_ ?]).
  assert (Hin' : input = (scheme u ++ sv ":/") ++ ch "/" :: after) by (by rewrite Hin, <- app_assoc).
  assert (Hauth : scheme u <> sv "file" -> evals input (after_colon State.Authority after) (resolved u, true)).
  { intros Hnf. by apply (evals_authority input u (ok_query u u_ok) (ok_fragment u u_ok) (ok_path u u_ok) Hop
      (ok_front u u_ok) h text ptext Hh Hnf Hser Hpser input_ascii input_size _ (scheme u ++ sv ":/") (ch "/")). }
  destruct (is_special u) eqn:Hsp.
  - destruct (decide (scheme u = sv "file")) as [Hf|Hnf].
    + apply colon_file; [done|done|]. destruct (front_bare u (ok_front u u_ok)) as (Hun & Hpw & Hpo).
      { unfold cannot_have_a_username_or_password_or_port. by rewrite Hh, Hf, orb_true_r. }
      assert (Hcred : credentials u = []) by (unfold credentials, includes_credentials; by rewrite Hun, Hpw).
      assert (Hpt : ptext = []) by (unfold serialize_port in Hpser; rewrite Hpo in Hpser; congruence).
      apply (evals_file input u (ok_query u u_ok) (ok_fragment u u_ok) (ok_path u u_ok) Hop (ok_front u u_ok) _ h text);
        try done.
      * unfold after_colon. cbn [url with_iterator with_url]. by rewrite Hf.
      * cbn [after_colon iterator with_iterator]. unfold after. by rewrite Hcred, Hpt.
    + apply colon_special; [done|done|done|].
      destruct (authority_first text (ptext ++ path_text u) Ht (fun _ => Hne eq_refl Hnf)) as (x & rest & Hx & Hc & _ & Hterm).
      unfold after in *. rewrite Hx in *. unfold is_terminator in Hterm.
      apply evals_special_slashes; [done|done|cbn in *; lia|cbn in *; lia|]. by apply Hauth.
  - pose proof (not_special_not_file Hsp) as Hnf. apply colon_slash; [done|done|].
    eapply evals_advance; [reflexivity|exact Ha1|reflexivity|reflexivity|]. by apply Hauth.
Qed.

(** The machine reads a serialization to its end and has built the URL. *)
Lemma evals_serialized :
  serialize u ExcludeFragment_No = Ret input ->
  (forall path, has_an_opaque_path u = true -> paths u = [path] -> last path <> Some 32) ->
  evals input (at_start input State.SchemeStart) (resolved u, true).
Proof.
  intros Hser Hspace. pose proof (front_scheme u (ok_front u u_ok)) as Hscheme. unfold serialize in Hser.
  destruct (serialize_path_part_ok u (ok_path u u_ok)) as [ptx Hptx]. rewrite Hptx in Hser.
  assert (Hstart : forall after, input = scheme u ++ ch ":" :: after ->
    evals input (at_colon after) (resolved u, true) -> evals input (at_start input State.SchemeStart) (resolved u, true)).
  { intros after Hin. by apply evals_scheme. }
  assert (Hafter : forall after, input = scheme u ++ ch ":" :: after -> ascii after).
  { intros after Hin. pose proof input_ascii as Hia. rewrite Hin in Hia. apply Forall_app in Hia as [_ Hia].
    by apply Forall_cons in Hia as [_ ?]. }
  destruct (host u) as [h|] eqn:Hh.
  - destruct (authority_shape u u_ok h Hh) as (text & ptext & Hs & Hp & Ht & Hauth & _ & Hne).
    rewrite Hauth in Hser. cbn [res_bind] in Hser. injection Hser as Hser.
    assert (Hop : has_an_opaque_path u = false).
    { destruct (has_an_opaque_path u) eqn:Hop; [|done]. destruct (opaque_members u u_ok Hop) as (_ & _ & ? & _). congruence. }
    assert (Hptx' : ptx = slash_segments (paths u)).
    { unfold serialize_path_part in Hptx. rewrite Hop, Hh in Hptx. by injection Hptx as <-. }
    assert (Hin : input = scheme u ++ ch ":" :: sv "//" ++ credentials u ++ text ++ ptext ++ path_text u).
    { rewrite <- Hser, Hptx'. unfold path_text, tail_text. by rewrite <- !app_assoc. }
    apply (Hstart _ Hin). by apply (evals_host_url h text ptext).
  - unfold serialize_authority in Hser. rewrite Hh in Hser. cbn [res_bind app] in Hser. injection Hser as Hser.
    assert (Hin : input = scheme u ++ ch ":" :: ptx ++ tail_text u) by (by rewrite <- Hser).
    apply (Hstart _ Hin). pose proof (Hafter _ Hin) as Ha. destruct (has_an_opaque_path u) eqn:Hop.
    + pose proof (ok_path u u_ok) as Hpath. unfold path_ok in Hpath. rewrite Hop in Hpath.
      destruct Hpath as (_ & _ & path & Hpaths & _). unfold serialize_path_part in Hptx. rewrite Hop, Hpaths in Hptx.
      injection Hptx as <-. apply evals_opaque_url; try done. by apply Hspace.
    + by apply evals_hostless_url.
Qed.

End assembly.

(** ** Facts: serializations reach the machine unchanged *)

Lemma strip_leading_same s : (forall x, head s = Some x -> printable x) -> strip_leading s = s.
Proof.
  intros Hh. destruct s as [|x s]; [done|]. cbn [strip_leading]. specialize (Hh x eq_refl). unfold printable in Hh.
  by replace (negb (is_ascii_c0_control_or_space x)) with true by ascii_lia.
Qed.

Lemma head_rev {A} (s : list A) : head (rev s) = last s.
Proof. destruct s as [|x s _] using rev_ind; [done|]. by rewrite rev_app_distr, last_snoc. Qed.

Lemma unchanged_text s :
  Forall (fun x => 0x20 <= x < 0x7F) s -> (forall x, head s = Some x -> printable x) -> last s <> Some 32 ->
  unchanged s.
Proof.
  intros Hs Hh Hl. split; [|split].
  - apply well_formed_ascii. eapply Forall_impl; [exact Hs|]. cbn. lia.
  - apply existsb_false_forall. eapply Forall_impl; [exact Hs|]. unfold is_ascii_tab_or_newline. cbn. lia.
  - unfold strip. rewrite (strip_leading_same s) by done. rewrite strip_leading_same; [apply rev_involutive|].
    intros x Hx. rewrite head_rev in Hx. apply last_Some in Hx as Hin. destruct Hin as [s' ->].
    apply Forall_app in Hs as [_ Hs]. rewrite Forall_singleton in Hs. unfold printable.
    assert (x <> 32) by (intros ->; by rewrite last_snoc in Hl). lia.
Qed.

Lemma last_app_tail (a b : bytes) : last b <> Some 32 -> (b = [] -> last a <> Some 32) -> last (a ++ b) <> Some 32.
Proof.
  intros Hb Ha. destruct b as [|x b]; [rewrite app_nil_r; by apply Ha|].
  rewrite last_app. by destruct (last (x :: b)) eqn:E; [|apply last_None in E].
Qed.

Lemma printable_last s : Forall printable s -> last s <> Some 32.
Proof.
  intros Hs Hl. apply last_Some in Hl as [s' ->]. apply Forall_app in Hs as [_ Hs].
  rewrite Forall_singleton in Hs. unfold printable in Hs. lia.
Qed.

Lemma printable_range s : Forall printable s -> Forall (fun x => 0x20 <= x < 0x7F) s.
Proof. intros Hs. eapply Forall_impl; [exact Hs|]. unfold printable. lia. Qed.

(** A URL whose opaque path, if it has one, does not end in a space. *)
Definition no_trailing_space (u : URL) : Prop :=
  forall path, has_an_opaque_path u = true -> paths u = [path] -> last path <> Some 32.

Section result.
Context `{LookupTablesLaws, IcuLaws, SimdutfLaws, FastFloatLaws}.

Lemma serialize_unchanged u text :
  url_ok u -> no_trailing_space u -> serialize u ExcludeFragment_No = Ret text ->
  unchanged text /\ ascii text.
Proof.
  intros Hu Hspace Hser. pose proof (front_scheme u (ok_front u Hu)) as Hscheme.
  pose proof (scheme_printable _ Hscheme) as Hsp. pose proof (tail_printable u Hu) as Htail.
  assert (Hparts : exists authority path, text = scheme u ++ [ch ":"] ++ authority ++ path ++ tail_text u
    /\ Forall printable authority /\ Forall (fun x => 0x20 <= x < 0x7F) path /\ last path <> Some 32).
  { unfold serialize in Hser. destruct (serialize_path_part_ok u (ok_path u Hu)) as [path Hpath].
    destruct (serialize_authority_ok u (ok_front u Hu)) as [authority Hauth]. rewrite Hauth, Hpath in Hser.
    injection Hser as <-. exists authority, path. split; [done|]. split.
    - unfold serialize_authority in Hauth. destruct (host u) as [h|] eqn:Hh; [|injection Hauth as <-; constructor].
      destruct (authority_shape u Hu h Hh) as (t & pt & _ & _ & Ht & Hauth' & Hpt & _).
      unfold serialize_authority in Hauth'. rewrite Hh in Hauth'. rewrite Hauth' in Hauth. injection Hauth as <-.
      repeat (constructor; [unfold printable; simpl; lia|]). rewrite !Forall_app.
      split; [by apply credentials_printable|]. split; [by apply host_text_printable|done].
    - destruct (has_an_opaque_path u) eqn:Hop.
      + pose proof (ok_path u Hu) as Hp. unfold path_ok in Hp. rewrite Hop in Hp.
        destruct Hp as (_ & _ & path' & Hpaths & Hok & _). unfold serialize_path_part in Hpath.
        rewrite Hop, Hpaths in Hpath. injection Hpath as <-. split; [|by apply Hspace].
        eapply Forall_impl; [exact Hok|]. intros x ([Hx [->|Hc]] & _); [simpl; lia|].
        unfold code_point_is_in_percent_encode_set in Hc. lia.
      + destruct (segments_printable u Hu Hop) as (path' & Hpath' & Hpp). rewrite Hpath in Hpath'.
        injection Hpath' as <-. split; [by apply printable_range|by apply printable_last]. }
  destruct Hparts as (authority & path & -> & Ha & Hp & Hl).
  assert (Hrange : Forall (fun x => 0x20 <= x < 0x7F) (scheme u ++ [ch ":"] ++ authority ++ path ++ tail_text u)).
  { rewrite !Forall_app. repeat split; try (by apply printable_range); try done.
    constructor; [simpl; lia|constructor]. }
  split; [|eapply Forall_impl; [exact Hrange|]; cbn; lia]. apply unchanged_text.
  - done.
  - destruct Hscheme as (x & rest & Heq & _). rewrite Heq in *. apply Forall_cons in Hsp as [Hx _]. cbn. by intros y [= <-].
  - apply last_app_tail; [|done]. apply last_app_tail; [|done]. apply last_app_tail; [|intros; by apply printable_last].
    apply last_app_tail; [by apply printable_last|done].
Qed.

Lemma serialize_parse u text :
  url_ok u -> no_trailing_space u -> serialize u ExcludeFragment_No = Ret text ->
  Z.of_nat (length text) < 2 ^ 62 -> basic_parse text None None = Ret (Some (resolved u)).
Proof.
  intros Hu Hspace Hser Hlen. destruct (serialize_unchanged u text Hu Hspace Hser) as [Hun Ha].
  assert (Hfits : fits text).
  { split; [|done]. eapply Forall_impl; [exact Ha|]. cbn. unfold is_byte. lia. }
  destruct (basic_parse_into_ok text None None Hfits ltac:(done)) as (v & ok & Hrun & _).
  unfold basic_parse. rewrite Hrun. unfold basic_parse_into in Hrun.
  rewrite process_input_unchanged in Hrun by done. change (select_encoder None) with (Ret UTF8Encoder) in Hrun.
  cbn [res_bind default] in Hrun.
  change {| url := _; state := _ |} with (at_start text State.SchemeStart) in Hrun.
  pose proof (evals_serialized u Hu text Ha ltac:(lia) Hser Hspace) as Heval.
  pose proof (evals_unique text _ _ _ _ Heval Hrun) as Heq. injection Heq as <- <-. reflexivity.
Qed.

End result.

(** ** Properties *)

(** C2: parsing the serialization of a well-formed URL gives the URL back
    (without its blob entry), whatever its scheme, credentials, kind of host,
    port, path, query and fragment, as long as its opaque path, if it has one,
    does not end in a space. *)
Theorem url_roundtrip `{LookupTablesLaws, IcuLaws, SimdutfLaws, FastFloatLaws} (u : URL) (text : bytes)
    (Hu : url_ok u) (Hspace : no_trailing_space u) (Hser : serialize u ExcludeFragment_No = Ret text)
    (Hlen : Z.of_nat (length text) < 2 ^ 62) :
  basic_parse text None None = Ret (Some (resolved u)).
Proof. by apply serialize_parse. Qed.

Lemma url_roundtrip_witness :
  serialize example_url ExcludeFragment_No = Ret (sv "http://me:pw@example.com:8080/a/b%20c?q#f")
  /\ basic_parse (sv "http://me:pw@example.com:8080/a/b%20c?q#f") None None = Ret (Some (resolved example_url)).
Proof.
  split; [vm_compute; reflexivity|]. apply url_roundtrip; [apply example_url_ok|done|vm_compute; reflexivity|].
  vm_compute. reflexivity.
Defined.

(** Comparing two URLs by their serializations, as [URL::equals] does, is
    comparing their records: two well-formed URLs that differ in any member
    other than the blob entry are different. *)
Theorem equals_compares_records `{LookupTablesLaws, IcuLaws, SimdutfLaws, FastFloatLaws} (u v : URL)
    (Hu : url_ok u) (Hv : url_ok v) (Hus : no_trailing_space u) (Hvs : no_trailing_space v)
    (Hlen : forall text, serialize u ExcludeFragment_No = Ret text -> Z.of_nat (length text) < 2 ^ 62) :
  equals u v ExcludeFragment_No = Ret true <-> resolved u = resolved v.
Proof.
  destruct (serialize_ok u ExcludeFragment_No Hu) as [a Ha]. destruct (serialize_ok v ExcludeFragment_No Hv) as [b Hb].
  unfold equals. rewrite Ha, Hb. cbn [res_bind]. split.
  - intros Heq. injection Heq as Heq. apply sv_eqb_true in Heq as <-. specialize (Hlen a Ha).
    pose proof (serialize_parse u a Hu Hus Ha Hlen). pose proof (serialize_parse v a Hv Hvs Hb Hlen). congruence.
  - intros Heq. assert (Hsame : serialize (resolved u) ExcludeFragment_No = serialize (resolved v) ExcludeFragment_No) by (by rewrite Heq).
    change (serialize u ExcludeFragment_No = serialize v ExcludeFragment_No) in Hsame.
    rewrite Ha, Hb in Hsame. injection Hsame as <-. by rewrite sv_eqb_refl.
Qed.

Lemma equals_compares_records_witness :
  equals example_url (about (sv "blank")) ExcludeFragment_No = Ret true
  <-> resolved example_url = resolved (about (sv "blank")).
Proof.
  apply equals_compares_records; [apply example_url_ok|apply about_ok; [by apply opaque_path_decide|done]|done| |].
  - intros path _ [= <-]. done.
  - intros text Ht. vm_compute in Ht. injection Ht as <-. vm_compute. reflexivity.
Defined.

(** The condition on trailing spaces is needed, since an overlong encoding
    of a space at the end of the input is not stripped but decoded: the URL that
    is parsed from the bytes "a:b", 0xC0, 0xA0 is serialized as "a:b" and a
    space, and that text is parsed as another URL. *)
Theorem overlong_space_is_not_stripped :
  exists u v,
    basic_parse (sv "a:b" ++ [0xC0; 0xA0]) None None = Ret (Some u)
    /\ ~ no_trailing_space u
    /\ serialize u ExcludeFragment_No = Ret (sv "a:b ")
    /\ basic_parse (sv "a:b ") None None = Ret (Some v) /\ v <> u.
Proof.
  exists (with_opaque_path (with_paths (with_scheme empty_url (sv "a")) [sv "b "]) true),
    (with_opaque_path (with_paths (with_scheme empty_url (sv "a")) [sv "b"]) true).
  split; [vm_compute; reflexivity|]. split.
  - intros Hno. by apply (Hno (sv "b ") eq_refl eq_refl).
  - split; [vm_compute; reflexivity|]. split; [vm_compute; reflexivity|done].
Qed.
