(* ===== verification/QueryText.v ===== *)
(** * Query strings and their parameters

    The query of a URL is the text of a search string with some bytes
    percent-encoded.  [url_decode] cannot tell the two apart: [query_encoded]
    relates a text to an encoding of it, and both decode to the same list. *)

From S2P Require Import Prelude CharacterTypes Utf8 MemMem Strings TextCodec Percent UrlFacts FormUrlencoded.

(** A byte that may be percent-encoded without a change of meaning. *)
Definition encodable (b : Z) : bool :=
  (0 <=? b) && (b <? 256) && negb (is_ascii_hex_digit b) && negb (b =? ch "%") && negb (b =? ch "+")
  && negb (b =? ch "&") && negb (b =? ch "=").

Inductive query_encoded : bytes -> bytes -> Prop :=
  | encoded_nil : query_encoded [] []
  | encoded_same b s t : query_encoded s t -> query_encoded (b :: s) (b :: t)
  | encoded_pct b s t : encodable b = true -> query_encoded s t -> query_encoded (b :: s) (pct b ++ t).

(** ** What the query state writes *)

Definition query_unit (set : PercentEncodeSet) (b : Z) : bytes :=
  if code_point_is_in_percent_encode_set b set then pct b else [b].

Lemma query_text_encoded `{LookupTables} set s :
  all_bytes s -> percent_encode_after_encoding UTF8Encoder s set false = Ret (s ≫= query_unit set).
Proof.
  intros Hs. unfold percent_encode_after_encoding, process. cbn [res_bind].
  rewrite (foldM_append _ (fun e => match e with on_byte b => query_unit set b | on_error _ => [] end)).
  - by rewrite app_nil_l, list_fmap_bind.
  - apply Forall_fmap. eapply Forall_impl; [exact Hs|]. intros b Hb builder. cbn [compose andb].
    assert (0 <= b < 256) by ascii_lia. unfold query_unit.
    destruct (code_point_is_in_percent_encode_set b _) eqn:E; cbn [negb].
    + by apply append_percent_byte_ok.
    + apply not_in_set_ascii in E; [|lia]. by rewrite append_code_point_ascii by lia.
Qed.

Lemma query_set_encodable special b :
  0 <= b < 256 -> code_point_is_in_percent_encode_set b (query_set special) = true -> encodable b = true.
Proof.
  assert (Hall : forall special b, 0 <= b < 256 ->
    implb (code_point_is_in_percent_encode_set b (query_set special)) (encodable b) = true).
  { intros s. apply (byte_enumeration (fun b => implb (code_point_is_in_percent_encode_set b (query_set s)) (encodable b))
      (fun _ => true)). destruct s; vm_compute; reflexivity. }
  intros Hb Hin. specialize (Hall special b Hb). by rewrite Hin in Hall.
Qed.

Lemma query_units_encoded special s : all_bytes s -> query_encoded s (s ≫= query_unit (query_set special)).
Proof.
  induction 1 as [|b s Hb _ IH]; [constructor|]. rewrite bind_cons. unfold query_unit at 1.
  destruct (code_point_is_in_percent_encode_set b _) eqn:E; [|by apply (encoded_same b)].
  apply encoded_pct; [|done]. apply (query_set_encodable special); [ascii_lia|done].
Qed.

(** ** Decoding *)

Lemma pct_free b d : In d [ch "+"; ch "&"; ch "="] -> 0 <= b < 256 -> Forall (fun x => x <> d) (pct b).
Proof.
  intros Hd Hb. assert (Hh : forall n, 0 <= n < 16 -> upper_hex n <> d).
  { intros n. revert n. apply digit_enumeration. destruct Hd as [<-|[<-|[<-|[]]]]; by repeat constructor. }
  unfold pct. repeat constructor; [destruct Hd as [<-|[<-|[<-|[]]]]; done|apply Hh; euclid|apply Hh; euclid].
Qed.

Lemma encodable_facts b :
  encodable b = true -> 0 <= b < 256 /\ is_ascii_hex_digit b = false /\ b <> ch "%" /\ b <> ch "+" /\ b <> ch "&" /\ b <> ch "=".
Proof. unfold encodable. intros H. bool_to_prop. repeat split; try lia. by destruct (is_ascii_hex_digit b). Qed.

Lemma query_encoded_substitute s t :
  query_encoded s t -> query_encoded (substitute (ch "+") 32 s) (substitute (ch "+") 32 t).
Proof.
  induction 1 as [|b s t _ IH|b s t Hb _ IH]; [constructor|by apply encoded_same|].
  apply encodable_facts in Hb as Hf. destruct Hf as (Hr & _ & _ & Hp & _).
  unfold substitute in *. rewrite fmap_app, fmap_cons. fold (substitute (ch "+") 32 (pct b)).
  rewrite substitute_free by (apply pct_free; [by left|done]).
  rewrite (proj2 (Z.eqb_neq b (ch "+"))) by done. by apply encoded_pct.
Qed.

(** The next bytes of an encoding are hexadecimal digits when those of the text are. *)
Lemma query_encoded_hex s t :
  query_encoded s t ->
  match s with
  | h1 :: h2 :: s' =>
      is_ascii_hex_digit h1 = true -> is_ascii_hex_digit h2 = true ->
      exists t', t = h1 :: h2 :: t' /\ query_encoded s' t'
  | _ => True
  end.
Proof.
  intros Hst. destruct s as [|h1 [|h2 s]]; [done..|]. intros H1 H2. inversion Hst as [|? ? t1 Ht|? ? t1 Hb Ht]; subst.
  - inversion Ht as [|? ? t2 Ht2|? ? t2 Hb Ht2]; subst; [eauto|].
    apply encodable_facts in Hb as (_ & Hb & _). congruence.
  - apply encodable_facts in Hb as (_ & Hb & _). congruence.
Qed.

(** A percent sign in front of [s] is not the start of a triple. *)
Abbreviation no_hex_pair s :=
  (match s with h1 :: h2 :: _ => is_ascii_hex_digit h1 && is_ascii_hex_digit h2 = false | _ => True end).

Lemma query_encoded_not_hex s t : query_encoded s t -> no_hex_pair s -> no_hex_pair t.
Proof.
  intros Hst Hs. destruct Hst as [|b s t Hst|b s t Hb Hst]; [done| |done].
  destruct Hst as [|b2 s t Hst|b2 s t Hb2 Hst]; [done|done|]. cbn. apply andb_false_r.
Qed.

Lemma pdecode_query_encoded s t : query_encoded s t -> pdecode t = pdecode s.
Proof.
  revert t. induction s as [s IH] using list_length_ind. intros t Hst.
  destruct Hst as [|b s t Hst|b s t Hb Hst]; [done| |].
  - destruct (decide (b = ch "%")) as [->|Hne]; [|rewrite !pdecode_skip by done; f_equal; apply IH; [simpl; lia|done]].
    pose proof (query_encoded_hex s t Hst) as Hhex. pose proof (query_encoded_not_hex s t Hst) as Hnot.
    assert (Hplain : no_hex_pair s -> pdecode (ch "%" :: t) = pdecode (ch "%" :: s)).
    { intros Hs. rewrite (pdecode_not_hex s Hs), (pdecode_not_hex t (Hnot Hs)). f_equal. apply IH; [simpl; lia|done]. }
    destruct s as [|h1 [|h2 s]]; [by apply Hplain..|].
    destruct (is_ascii_hex_digit h1 && is_ascii_hex_digit h2) eqn:E; [|by apply Hplain].
    apply andb_prop in E as [E1 E2].
    destruct (Hhex E1 E2) as (t' & -> & Ht'). cbn [pdecode]. rewrite E1, E2. cbn [negb orb].
    change (negb (ch "%" =? ch "%")) with false. cbv iota. f_equal. apply IH; [simpl; lia|done].
  - apply encodable_facts in Hb as (Hr & _ & Hp & _). rewrite pdecode_pct, pdecode_skip by done. f_equal.
    apply IH; [simpl; lia|done].
Qed.

Section decode.
Context `{SimdutfLaws}.

Lemma decode_component_encoded s t : query_encoded s t -> decode_component t = decode_component s.
Proof.
  intros Hst%query_encoded_substitute. unfold decode_component. rewrite !(replace_all_byte (ch "+") 32). cbn [res_bind].
  rewrite !percent_decode_ok. cbn [res_bind]. by rewrite (pdecode_query_encoded _ _ Hst).
Qed.

(** Cutting at the first delimiter cuts an encoding at the same place. *)
Lemma query_encoded_cut d s t :
  In d [ch "&"; ch "="] -> query_encoded s t ->
  (Forall (fun x => x <> d) s /\ Forall (fun x => x <> d) t)
  \/ exists s1 s2 t1 t2, s = s1 ++ d :: s2 /\ t = t1 ++ d :: t2 /\ query_encoded s1 t1 /\ query_encoded s2 t2
       /\ Forall (fun x => x <> d) s1 /\ Forall (fun x => x <> d) t1.
Proof.
  intros Hd. induction 1 as [|b s t Hst IH|b s t Hb Hst IH]; [by left|..].
  - destruct (decide (b = d)) as [->|Hne].
    { right. exists [], s, [], t. split_and!; try done; constructor. }
    destruct IH as [[Hs Ht]|(s1 & s2 & t1 & t2 & -> & -> & H1 & H2 & Hf1 & Hf2)]; [left; by split; constructor|].
    right. exists (b :: s1), s2, (b :: t1), t2. split_and!; try done; by constructor.
  - apply encodable_facts in Hb as Hf. destruct Hf as (Hr & _ & _ & _ & Hamp & Heq).
    assert (Hne : b <> d) by (destruct Hd as [<-|[<-|[]]]; done).
    assert (Hpct : Forall (fun x => x <> d) (pct b)) by (apply pct_free; [by right|done]).
    destruct IH as [[Hs Ht]|(s1 & s2 & t1 & t2 & -> & -> & H1 & H2 & Hf1 & Hf2)].
    { left. split; [by constructor|]. apply Forall_app. by split. }
    right. exists (b :: s1), s2, (pct b ++ t1), t2. rewrite <- app_assoc. split_and!; try done.
    + by apply encoded_pct.
    + by constructor.
    + apply Forall_app. by split.
Qed.

Lemma query_encoded_empty s t : query_encoded s t -> sv_is_empty t = sv_is_empty s.
Proof. by destruct 1. Qed.

Lemma decode_sequence_encoded s t : query_encoded s t -> decode_sequence t = decode_sequence s.
Proof.
  intros Hst. destruct (query_encoded_cut (ch "=") s t) as [[Hs Ht]|(s1 & s2 & t1 & t2 & -> & -> & H1 & H2 & Hf1 & Hf2)];
    [by right; left|done|..].
  - destruct (decide (s = [])) as [->|Hne]; [by inversion Hst|].
    assert (t <> []) by (intros ->; by inversion Hst; subst).
    rewrite !decode_sequence_name by done. by rewrite (decode_component_encoded s t).
  - rewrite !decode_sequence_pair by done. by rewrite (decode_component_encoded s1 t1), (decode_component_encoded s2 t2).
Qed.

Lemma split_encoded s t :
  query_encoded s t -> Forall2 query_encoded (split_on (ch "&") s) (split_on (ch "&") t).
Proof.
  revert t. induction s as [s IH] using list_length_ind. intros t Hst.
  destruct (query_encoded_cut (ch "&") s t) as [[Hs Ht]|(s1 & s2 & t1 & t2 & -> & -> & H1 & H2 & Hf1 & Hf2)];
    [by left|done|..].
  - rewrite !split_on_none by done. by repeat constructor.
  - rewrite !split_on_app by done. constructor; [done|]. apply IH; [rewrite length_app; simpl; lia|done].
Qed.

Lemma decode_sequences_encoded ss ts :
  Forall2 query_encoded ss ts -> decode_sequences (kept false ts) = decode_sequences (kept false ss).
Proof.
  induction 1 as [|s t ss ts Hst _ IH]; [done|]. unfold kept in *. cbn [List.filter orb] in *.
  rewrite (query_encoded_empty s t Hst). destruct (sv_is_empty s); cbn [negb]; [done|].
  cbn [decode_sequences]. by rewrite (decode_sequence_encoded s t Hst), IH.
Qed.

(** The parser of form data reads a text and an encoding of it alike. *)
Lemma url_decode_encoded s t : query_encoded s t -> url_decode t = url_decode s.
Proof.
  intros Hst. unfold url_decode. destruct (decide (s = [])) as [->|Hne]; [by inversion Hst|].
  assert (t <> []) by (intros ->; by inversion Hst; subst). rewrite !split_view_kept by done. cbn [res_bind].
  by apply decode_sequences_encoded, split_encoded.
Qed.

End decode.
