(* ===== verification/DomUrl.v ===== *)
(** * The [URL] interface: [LibWeb/DOMURL/DOMURL.cpp]

    A [URL] object holds a URL record and a query object, and the query object
    points back to it.  The pair is one [DOMURL] here: the record and the list
    of the query object; [query_object] is the object scripts see as
    [searchParams], and [on_query_object] runs one of its members.  The setters
    run the basic URL parser on the record with a state override, and ignore
    whether it succeeded. *)

From S2P Require Import Prelude CharacterTypes Utf8 Utf16 MemMem Strings InsertionSort CodeUnits TextCodec Percent Ipv4 Ipv6 Host Origin Url UrlParser FormUrlencoded SearchParams.

(** ** Data *)

Record DOMURL := { url_record : URL; query_list : list QueryParam }.

Definition with_record (d : DOMURL) (u : URL) : DOMURL := {| url_record := u; query_list := query_list d |}.

(** [search_params] *)
Definition query_object (d : DOMURL) : URLSearchParams :=
  {| m_list := query_list d; m_url := Some (url_record d) |}.

Section members.
Context `{LookupTables, Icu, Simdutf, FastFloat, SimdutfFromUtf8}.

(** Running a member of the query object on the pair. *)
Definition on_query_object (member : URLSearchParams -> res URLSearchParams) (d : DOMURL) : res DOMURL :=
  let* p := member (query_object d) in
  let* u := unwrap (m_url p) in
  Ret {| url_record := u; query_list := m_list p |}.

(** ** Construction *)

Definition parse_api_url (url : bytes) (base : option bytes) : res (option URL) :=
  match base with
  | Some base =>
      let* parsed_base_url := basic_parse base None None in
      match parsed_base_url with
      | None => Ret None
      | Some parsed_base => basic_parse url (Some parsed_base) None
      end
  | None => basic_parse url None None
  end.

Definition initialize_a_url (url_record : URL) : res DOMURL :=
  let query := default [] (query url_record) in
  let* query_object := create_from_string query in
  Ret {| url_record := url_record; query_list := m_list query_object |}.

Definition parse_for_bindings (url : bytes) (base : option bytes) : res (option DOMURL) :=
  let* parsed_url := parse_api_url url base in
  match parsed_url with
  | None => Ret None
  | Some parsed_url => let* result := initialize_a_url parsed_url in Ret (Some result)
  end.

(** [DOMURL::construct_impl] *)
Definition construct_url (url : bytes) (base : option bytes) : res (ExceptionOr DOMURL) :=
  let* parsed_url := parse_api_url url base in
  match parsed_url with
  | None => Ret (TypeError (sv "Invalid URL"))
  | Some parsed_url => let* result := initialize_a_url parsed_url in Ret (Value result)
  end.

Definition can_parse (url : bytes) (base : option bytes) : res bool :=
  let* parsed_url := parse_api_url url base in
  Ret (match parsed_url with Some _ => true | None => false end).

(** ** Getters *)

Definition href (d : DOMURL) : res bytes := serialize (url_record d) ExcludeFragment_No.
Definition to_json (d : DOMURL) : res bytes := serialize (url_record d) ExcludeFragment_No.

(** [DOMURL::origin]; [nonce] is the one of a new opaque origin. *)
Definition dom_origin (d : DOMURL) (nonce : bytes) : res bytes :=
  let* origin := origin (url_record d) nonce in
  origin_serialize origin.

Definition protocol (d : DOMURL) : bytes := scheme (url_record d) ++ [ch ":"].
Definition dom_username (d : DOMURL) : bytes := username (url_record d).
Definition dom_password (d : DOMURL) : bytes := password (url_record d).

Definition dom_host (d : DOMURL) : res bytes :=
  let url := url_record d in
  match host url with
  | None => Ret []
  | Some _ =>
      match port url with
      | None => serialized_host url
      | Some port =>
          let* host := serialized_host url in
          let* port := format_decimal port in
          Ret (host ++ [ch ":"] ++ port)
      end
  end.

Definition hostname (d : DOMURL) : res bytes :=
  match host (url_record d) with
  | None => Ret []
  | Some _ => serialized_host (url_record d)
  end.

Definition dom_port (d : DOMURL) : res bytes :=
  match port (url_record d) with
  | None => Ret []
  | Some port => format_decimal port
  end.

Definition pathname (d : DOMURL) : res bytes := serialize_path (url_record d).

Definition search (d : DOMURL) : bytes :=
  match query (url_record d) with
  | None | Some [] => []
  | Some query => [ch "?"] ++ query
  end.

Definition hash (d : DOMURL) : bytes :=
  match fragment (url_record d) with
  | None | Some [] => []
  | Some fragment => [ch "#"] ++ fragment
  end.

(** ** Setters *)

(** [(void)basic_parse(input, {}, &m_url, state_override)] *)
Definition parse_onto (u : URL) (input : bytes) (state_override : State.t) : res URL :=
  let* (u, _) := basic_parse_into input None (Some u) (Some state_override) None in
  Ret u.

Definition set_href (d : DOMURL) (value : bytes) : res (ExceptionOr DOMURL) :=
  let* parsed_url := basic_parse value None None in
  match parsed_url with
  | None => Ret (TypeError (sv "Invalid URL"))
  | Some parsed_url =>
      let* list :=
        match query parsed_url with
        | Some query => url_decode query
        | None => Ret []
        end in
      Ret (Value {| url_record := parsed_url; query_list := list |})
  end.

Definition set_protocol (d : DOMURL) (protocol : bytes) : res DOMURL :=
  let* u := parse_onto (url_record d) (protocol ++ [ch ":"]) State.SchemeStart in
  Ret (with_record d u).

Definition dom_set_username (d : DOMURL) (username : bytes) : res DOMURL :=
  if cannot_have_a_username_or_password_or_port (url_record d) then Ret d
  else let* u := set_username (url_record d) username in Ret (with_record d u).

Definition dom_set_password (d : DOMURL) (password : bytes) : res DOMURL :=
  if cannot_have_a_username_or_password_or_port (url_record d) then Ret d
  else let* u := set_password (url_record d) password in Ret (with_record d u).

Definition dom_set_host (d : DOMURL) (host : bytes) : res DOMURL :=
  if has_an_opaque_path (url_record d) then Ret d
  else let* u := parse_onto (url_record d) host State.Host in Ret (with_record d u).

Definition set_hostname (d : DOMURL) (hostname : bytes) : res DOMURL :=
  if has_an_opaque_path (url_record d) then Ret d
  else let* u := parse_onto (url_record d) hostname State.Hostname in Ret (with_record d u).

Definition dom_set_port (d : DOMURL) (port : bytes) : res DOMURL :=
  if cannot_have_a_username_or_password_or_port (url_record d) then Ret d
  else if sv_is_empty port then Ret (with_record d (set_port (url_record d) None))
  else let* u := parse_onto (url_record d) port State.Port in Ret (with_record d u).

Definition set_pathname (d : DOMURL) (pathname : bytes) : res DOMURL :=
  if has_an_opaque_path (url_record d) then Ret d
  else
    let* u := set_paths (url_record d) [] in
    let* u := parse_onto u pathname State.PathStart in
    Ret (with_record d u).

Definition set_search (d : DOMURL) (search : bytes) : res DOMURL :=
  if sv_is_empty search then Ret {| url_record := set_query (url_record d) None; query_list := [] |}
  else
    let* input := substring_view_from search (if starts_with_char search (ch "?") then 1 else 0) in
    let u := set_query (url_record d) (Some []) in
    let* u := parse_onto u input State.Query in
    let* list := url_decode input in
    Ret {| url_record := u; query_list := list |}.

Definition set_hash (d : DOMURL) (hash : bytes) : res DOMURL :=
  if sv_is_empty hash then Ret (with_record d (set_fragment (url_record d) None))
  else
    let* input := substring_view_from hash (if starts_with_char hash (ch "#") then 1 else 0) in
    let u := set_fragment (url_record d) (Some []) in
    let* u := parse_onto u input State.Fragment in
    Ret (with_record d u).

End members.
