(* ===== verification/BlobEntry.v ===== *)
(** * The blob entry of a URL record

    Neither the URL parser nor a member of the [URL] interface gives a record a
    blob entry: [URL::blob_url_entry] is only set by the resolution of blob
    URLs, behind the parser.  So the origin of a [URL] object never comes from
    an entry. *)

From S2P Require Import Prelude CharacterTypes Utf8 Strings TextCodec Percent Ipv4 Ipv6 Host Origin Url UrlParser Utf16 CodeUnits FormUrlencoded SearchParams DomUrl.

(** [P] holds of what is returned. *)
Definition returns {A} (P : A -> Prop) (r : res A) : Prop := match r with Ret a => P a | Crash => True end.

Lemma returns_bind {A B} (P : A -> Prop) (Q : B -> Prop) (r : res A) (k : A -> res B) :
  returns P r -> (forall a, P a -> returns Q (k a)) -> returns Q (let* a := r in k a).
Proof. destruct r; cbn; auto. Qed.

Lemma returns_bind_any {A B} (Q : B -> Prop) (r : res A) (k : A -> res B) :
  (forall a, returns Q (k a)) -> returns Q (let* a := r in k a).
Proof. destruct r; cbn; auto. Qed.

Lemma returns_verify {A} (P : A -> Prop) b (r : res A) : returns P r -> returns P (verify b r).
Proof. by destruct b. Qed.

Section entry.
Context `{LookupTables, Icu, Simdutf, FastFloat}.
Variables (input : bytes) (base_url : option URL) (state_override : option State.t) (entry : option BlobURLEntry).

Definition has_entry (u : URL) : Prop := blob_url_entry u = entry.

Definition outcome_entry (o : outcome) : Prop :=
  match o with Advance p | Continue p => has_entry (url p) | Return u _ => has_entry u end.

(** Steps through the branches of a state, with [shorten_urls_path] and the
    like known to keep the entry. *)
Ltac entries :=
  repeat match goal with
    | |- returns _ (Ret _) => cbn; assumption
    | |- returns _ (res_bind (Ret _) _) => cbn [res_bind]
    | |- returns _ (res_bind Crash _) => exact I
    | |- returns _ Crash => exact I
    | |- returns _ (failure _) => cbn; assumption
    | |- returns _ (success _) => cbn; assumption
    | |- returns _ (verify _ _) => apply returns_verify
    | H : returns has_entry ?r |- returns _ (res_bind ?r _) => apply (returns_bind _ _ _ _ H); intros ? ?
    | |- returns _ (let* _ := verify _ _ in _) => unfold verify
    | |- context [match ?x with _ => _ end] => lazymatch x with context [match _ with _ => _ end] => fail | _ => destruct x end
    | |- returns _ (res_bind _ _) => apply returns_bind_any; intros ?
    | |- returns _ (let _ := _ in _) => cbv zeta
    end.

Lemma shorten_entry u : has_entry u -> returns has_entry (shorten_urls_path u).
Proof. intros Hu. unfold shorten_urls_path. entries. Qed.

Lemma finish_segment_entry u segment c : has_entry u -> returns has_entry (finish_segment u segment c).
Proof. intros Hu. pose proof (shorten_entry u Hu). unfold finish_segment. cbv zeta. entries. Qed.

Lemma run_state_entry p c : has_entry (url p) -> returns outcome_entry (run_state input base_url state_override p c).
Proof.
  intros Hp. pose proof (finish_segment_entry (url p) (buffer p) c Hp). unfold run_state. destruct (state p).
  - unfold scheme_start_state. entries.
  - unfold scheme_state, after_scheme. cbv zeta. entries.
  - unfold no_scheme_state. cbv zeta. entries.
  - unfold special_relative_or_authority_state. entries.
  - unfold path_or_authority_state. entries.
  - unfold relative_state. apply returns_bind_any. intros base. cbv zeta.
    match goal with |- context [shorten_urls_path ?u] => pose proof (shorten_entry u Hp) end. entries.
  - unfold relative_slash_state. cbv zeta. entries.
  - unfold special_authority_slashes_state. entries.
  - unfold special_authority_ignore_slashes_state. entries.
  - unfold authority_state. cbv zeta. entries.
  - unfold host_state. cbv zeta. entries.
  - unfold host_state. cbv zeta. entries.
  - unfold port_state. cbv zeta. entries.
  - unfold file_state. cbv zeta. destruct base_url as [base|]; [|entries].
    match goal with |- context [shorten_urls_path ?u] => pose proof (shorten_entry u Hp) end. entries.
  - unfold file_slash_state. cbv zeta. destruct (_ || _); [entries|]. apply (returns_bind has_entry); [entries|]. by intros u Hu.
  - unfold file_host_state. cbv zeta. entries.
  - unfold path_start_state. cbv zeta. entries.
  - unfold path_state. cbv zeta. entries.
  - unfold opaque_path_state. cbv zeta. entries.
  - unfold query_state. cbv zeta. apply (returns_bind (fun q => has_entry (url q))); [entries|]. intros q Hq. entries.
  - unfold fragment_state. entries.
Qed.

Lemma run_entry fuel p : has_entry (url p) -> returns (fun r => has_entry r.1) (run input base_url state_override fuel p).
Proof.
  revert p. induction fuel as [|fuel IH]; intros p Hp; [exact I|]. cbn [run]. apply returns_bind_any. intros c.
  apply (returns_bind outcome_entry); [by apply run_state_entry|]. intros [p'|p'|u ok] Ho; cbn in Ho; [|by apply IH|done].
  destruct (iterator_done _); [done|]. apply returns_bind_any. intros it. by apply IH.
Qed.

End entry.

(** ** The [URL] interface *)

Section members.
Context `{LookupTables, Icu, Simdutf, FastFloat, SimdutfFromUtf8}.

Lemma basic_parse_entry raw_input base_url encoding :
  returns (fun r => forall u, r = Some u -> has_entry None u) (basic_parse raw_input base_url encoding).
Proof.
  unfold basic_parse, basic_parse_into. apply (returns_bind (fun r => has_entry None r.1)).
  - apply returns_bind_any. intros input. apply returns_bind_any. intros encoder. by apply run_entry.
  - intros [u ok] Hu. cbn in *. intros v. destruct ok; [by intros [= <-]|done].
Qed.

Lemma parse_onto_entry entry u input st : has_entry entry u -> returns (has_entry entry) (parse_onto u input st).
Proof.
  intros Hu. unfold parse_onto, basic_parse_into. apply (returns_bind (fun r => has_entry entry r.1)).
  - apply returns_bind_any. intros processed. apply returns_bind_any. intros encoder. by apply run_entry.
  - by intros [v ok].
Qed.

(** The record of the object has no blob entry. *)
Definition no_entry (d : DOMURL) : Prop := has_entry None (url_record d).

Lemma record_entry d (r : res URL) : returns (has_entry None) r -> returns no_entry (let* u := r in Ret (with_record d u)).
Proof. intros Hr. by apply (returns_bind _ _ _ _ Hr). Qed.

Lemma update_entry p : returns (fun p' => forall u u', m_url p = Some u -> m_url p' = Some u' -> blob_url_entry u' = blob_url_entry u) (update p).
Proof.
  unfold update. destruct (m_url p) as [u|] eqn:E; [|cbn; by intros u u' [=]].
  apply returns_bind_any. intros text. cbn. by intros v v' [= <-] [= <-].
Qed.

Lemma operation_entry o p :
  returns (fun p' => forall u u', m_url p = Some u -> m_url p' = Some u' -> blob_url_entry u' = blob_url_entry u) (run_operation o p).
Proof.
  assert (Hlist : forall l, returns (fun p' => forall u u', m_url p = Some u -> m_url p' = Some u' -> blob_url_entry u' = blob_url_entry u)
    (update (with_list p l))) by (intros l; exact (update_entry (with_list p l))).
  destruct o as [name value|name value|name value|]; cbn [run_operation].
  - unfold append. apply Hlist.
  - unfold delete_params. apply Hlist.
  - unfold set_param. apply Hlist.
  - unfold sort. apply returns_bind_any. intros l. apply Hlist.
Qed.

End members.
