(* ===== verification/UrlSetters.v ===== *)
(** * Parsing onto a URL record: the state overrides

    The setters of the [URL] interface run the state machine of the basic URL
    parser from one of its states, on a record that is already there.  For each
    override this file proves that the machine stops and returns, and says what
    it may have done to the record. *)

From S2P Require Import Prelude CharacterTypes Utf8 Strings TextCodec Percent Ipv4 Ipv6 Host Origin Url UrlParser UrlFacts UrlSafety FormUrlencoded SearchParams DomUrl.

(** ** Steps *)

Section steps.
Variable cps : list Z.
Variable I : list Z -> list Z -> parser -> Prop.
Variable Q : URL -> bool -> Prop.

Lemma step_advance before x after p p' :
  at_position cps before (x :: after) p -> iterator p' = iterator p ->
  (rank (state p') < rank (state p))%nat \/ state p' = state p ->
  I (before ++ [x]) after (with_iterator p' (utf8_encode after)) -> step_good cps I Q p (Ret (Advance p')).
Proof.
  intros [Hcps Hit] Heq Hr Hok. right. split; [destruct Hr; auto|].
  exists before, x, after. split; [split; congruence|done].
Qed.

Lemma step_end before p p' :
  at_position cps before [] p -> iterator p' = iterator p -> Q (url p') true -> step_good cps I Q p (Ret (Advance p')).
Proof. intros [Hcps Hit] Heq HQ. left. by rewrite Heq, Hit. Qed.

Lemma step_continue before after p p' :
  at_position cps before after p -> iterator p' = iterator p -> (rank (state p') < rank (state p))%nat ->
  I before after p' -> step_good cps I Q p (Ret (Continue p')).
Proof. intros [Hcps Hit] Heq Hr Hok. split; [done|]. exists before, after. split; [split; congruence|done]. Qed.

End steps.

Section overrides.
Context `{LookupTablesLaws, IcuLaws, SimdutfLaws, FastFloatLaws}.

(** What the parser is started with. *)
Definition start (u : URL) (st : State.t) (cps : list Z) : parser :=
  {| url := u; state := st; buffer := []; at_sign_seen := false; inside_brackets := false;
     password_token_seen := false; iterator := utf8_encode cps; encoder := UTF8Encoder |}.

(** The machine stops in [Q] when every step keeps the invariant [I]. *)
Lemma parse_onto_ends u input st (I : list Z -> list Z -> parser -> Prop) (Q : list Z -> URL -> Prop) :
  fits input ->
  (forall cps before after p, code_point_range cps -> at_position cps before after p -> I before after p ->
     step_good cps I (fun u' _ => Q cps u') p (run_state (utf8_encode cps) None (Some st) p (c after))) ->
  (forall cps, I [] cps (start u st cps)) ->
  exists cps u', scalars cps /\ process_input input true = Ret (utf8_encode cps)
    /\ parse_onto u input st = Ret u' /\ Q cps u'.
Proof.
  intros [Hb Hsize] Hstep Hstart. destruct (process_input_ok input true Hb) as (cps & Hcps & Hin & Hlen).
  exists cps. destruct (run_ends cps None (scalars_range _ Hcps)) with
    (state_override := Some st) (I := I) (Q := fun u' (_ : bool) => Q cps u') (fuel := parse_fuel (length (utf8_encode cps)))
    (before := @nil Z) (after := cps) (p := start u st cps) as (u' & ok & Hrun & HQ).
  - change (2 ^ 64) with (4 * 2 ^ 62). lia.
  - intros before after p. apply Hstep. by apply scalars_range.
  - done.
  - apply Hstart.
  - unfold measure, parse_fuel. cbn [start state iterator]. assert (rank st <= 12)%nat by (destruct st; cbn; lia). nia.
  - exists u'. split; [done|]. split; [done|]. split; [|done]. unfold parse_onto, basic_parse_into. rewrite Hin.
    cbn [res_bind]. change (select_encoder None) with (Ret UTF8Encoder). cbn [res_bind].
    by replace (run _ _ _ _ _) with (Ret (u', ok)) by (symmetry; exact Hrun).
Qed.

(** ** The scheme *)

(** The guards of the scheme state. *)
Definition scheme_refused (u : URL) (s : bytes) : bool :=
  (is_special u && negb (is_special_scheme s)) || (negb (is_special u) && is_special_scheme s)
  || ((includes_credentials u || match port u with Some _ => true | None => false end) && sv_eqb s (sv "file"))
  || (sv_eqb (scheme u) (sv "file") && match host u with Some host => is_empty_host host | None => false end).

Definition scheme_set (u : URL) (s : bytes) : URL :=
  if bool_decide (port u = default_port_for_scheme s) then with_port (with_scheme u s) None else with_scheme u s.

Definition scheme_result (u u' : URL) : Prop :=
  u' = u \/ exists s, scheme_ok s /\ scheme_refused u s = false /\ u' = scheme_set u s.

Lemma parse_onto_scheme u input :
  fits input -> exists u', parse_onto u input State.SchemeStart = Ret u' /\ scheme_result u u'.
Proof.
  intros Hin.
  destruct (parse_onto_ends u input State.SchemeStart
    (fun _ _ p => url p = u /\ (state p = State.SchemeStart /\ buffer p = [] \/ state p = State.Scheme /\ scheme_ok (buffer p)))
    (fun _ u' => scheme_result u u')) as (cps & u' & _ & _ & Hp & Hr); [done| |by split; [|left]|by exists u'].
  intros cps before after p Hcps Hpos [Hu Hst]. destruct Hst as [[Hst Hb]|[Hst Hb]]; unfold run_state; rewrite Hst.
  - unfold scheme_start_state. destruct (is_ascii_alpha (c after)) eqn:E; [|by left].
    destruct after as [|x after]; [done|]. eapply step_advance; [done|done|ranked|]. fields. split; [done|]. right.
    split; [done|]. rewrite Hb. exists (to_ascii_lowercase x), []. split; [done|]. split; [|done].
    cbn [c] in E. unfold to_ascii_lowercase. break_match; ascii_lia.
  - unfold scheme_state. destruct (_ || _) eqn:E.
    { destruct after as [|x after]; [done|]. eapply step_advance; [done|done|ranked|]. fields. split; [done|]. right.
      split; [done|]. apply scheme_ok_snoc; [done|]. cbn [c] in *. unfold to_ascii_lowercase, is_scheme_char in *.
      break_match; ascii_lia. }
    destruct (c after =? ch ":"); cbn [overridden negb andb]; [|by left].
    change (overridden (Some State.SchemeStart)) with true. cbn [andb]. fields. rewrite Hu.
    fold (scheme_refused u (buffer p)). destruct (scheme_refused u (buffer p)) eqn:Er; [by left|].
    assert (Hset : scheme_result u (scheme_set u (buffer p))) by (right; by exists (buffer p)).
    unfold scheme_set in Hset. case_bool_decide; exact Hset.
Qed.

(** ** The host *)

(** A host that may replace the one of [u]. *)
Definition new_host (u : URL) (h : Host) : Prop :=
  host_ok (negb (is_special u)) h /\ scheme u <> sv "file"
  /\ (is_empty_host h = true -> username u = [] /\ password u = [] /\ port u = None).

Definition port_set (u : URL) (n : Z) : URL :=
  with_port u (if bool_decide (Some n = default_port_for_scheme (scheme u)) then None else Some n).

Definition host_result (u u' : URL) : Prop :=
  u' = u
  \/ (exists h, new_host u h /\ u' = with_host u (Some h))
  \/ (exists h n, new_host u h /\ is_empty_host h = false /\ 0 <= n < 65536 /\ u' = port_set (with_host u (Some h)) n)
  \/ (scheme u = sv "file" /\ exists h, u' = with_host u (Some h)
       /\ (h = HostString [] \/ host_ok false h /\ h <> HostString (sv "localhost"))).

(** The invariant of the host states. *)
Definition host_inv (u : URL) (p : parser) : Prop :=
  match state p with
  | State.Host | State.Hostname => url p = u /\ all_bytes (buffer p)
  | State.FileHost => url p = u /\ scheme u = sv "file" /\ all_bytes (buffer p)
  | State.Port => exists h, url p = with_host u (Some h) /\ new_host u h /\ is_empty_host h = false
                    /\ forallb is_ascii_digit (buffer p) = true
  | _ => False
  end.

Lemma parsed_new_host u text h :
  all_bytes text -> text <> [] \/ is_special u = false -> scheme u <> sv "file" ->
  (text = [] -> includes_credentials u = false /\ port u = None) ->
  parse_host text (negb (is_special u)) = Ret (Some h) -> new_host u h.
Proof.
  intros Hb Hne Hnf Hcred Hparse. assert (Hor : text <> [] \/ negb (is_special u) = true).
  { destruct Hne as [?| ->]; [by left|by right]. }
  destruct (parse_host_spec text (negb (is_special u)) Hb Hor) as (r & Hr & Hok).
  rewrite Hparse in Hr. injection Hr as <-. split; [by apply Hok|]. split; [done|]. intros He.
  destruct (decide (text = [])) as [Hnil|Hn]; [|by rewrite (parse_host_nonempty _ _ _ Hb Hn Hparse) in He].
  destruct (Hcred Hnil) as [Hc Hp]. unfold includes_credentials in Hc. apply orb_false_iff in Hc as [Hu Hw].
  split; [by destruct (username u)|]. split; [by destruct (password u)|done].
Qed.

Lemma host_step u st cps before after p :
  st = State.Host \/ st = State.Hostname -> code_point_range cps ->
  at_position cps before after p -> (state p = State.Host \/ state p = State.Hostname) ->
  url p = u -> all_bytes (buffer p) ->
  step_good cps (fun _ _ => host_inv u) (fun u' _ => host_result u u') p (host_state (Some st) p (c after)).
Proof.
  intros Hst Hcps Hpos Hs Hu Hb. destruct (position_range cps Hcps _ _ _ Hpos) as [_ Hra].
  unfold host_state. cbn [overridden andb]. rewrite Hu. destruct (sv_eqb (scheme u) (sv "file")) eqn:Hf.
  { apply sv_eqb_true in Hf. eapply step_continue; [done|done|destruct Hs as [Hs|Hs]; ranked|]. by split. }
  assert (Hnf : scheme u <> sv "file") by (intros Heq; by rewrite Heq in Hf).
  assert (Hor : buffer p <> [] -> buffer p <> [] \/ negb (is_special u) = true) by auto.
  destruct (_ && negb _) eqn:Ecolon.
  - destruct (decide (buffer p = [])) as [->|Hne]; [by left|].
    replace (sv_is_empty (buffer p)) with false by (by destruct (buffer p)).
    destruct (bool_decide _); [by left|].
    destruct (parse_host_spec _ (negb (is_special u)) Hb (Hor Hne)) as (r & Hr & _). rewrite Hr. cbn [res_bind].
    destruct r as [h|]; [|by left].
    destruct after as [|x after]; [done|]. eapply step_advance; [done|done|left; fields; destruct Hs as [-> | ->]; cbn; lia|].
    exists h. split; [done|]. split; [by apply (parsed_new_host u (buffer p)); auto|].
    split; [by apply (parse_host_nonempty (buffer p) (negb (is_special u)))|done].
  - destruct (ends_authority p (c after)) eqn:Eend.
    + destruct (is_special u && sv_is_empty (buffer p)) eqn:E1; [by left|].
      destruct (sv_is_empty (buffer p) && _) eqn:E2; [by left|].
      assert (Hne : buffer p <> [] \/ is_special u = false) by (destruct (is_special u), (buffer p); auto).
      assert (Hcred : buffer p = [] -> includes_credentials u = false /\ port u = None).
      { intros Hnil. rewrite Hnil in E2. cbn [sv_is_empty andb] in E2. apply orb_false_iff in E2 as [? ?].
        by destruct (port u). }
      destruct (parse_host_spec (buffer p) (negb (is_special u)) Hb) as (r & Hr & _).
      { destruct Hne as [?| ->]; [by left|by right]. }
      rewrite Hr. cbn [res_bind]. destruct r as [h|]; [|by left]. right; left. exists h. split; [|done].
      by apply (parsed_new_host u (buffer p)).
    + destruct after as [|x after]; [done|]. apply Forall_cons in Hra as [Hx _]. cbn [c] in *.
      set (q := if x =? ch "[" then _ else _).
      assert (Hq : url q = u /\ state q = state p /\ iterator q = iterator p /\ buffer q = buffer p).
      { subst q. by repeat case_match. }
      destruct Hq as (Hqu & Hqs & Hqi & Hqb). eapply step_advance; [done|done|by right|].
      unfold host_inv; fields. rewrite Hqs, Hqu, Hqb.
      destruct Hs as [-> | ->]; (split; [done|by apply buffer_append]).
Qed.

Lemma file_host_step u cps st before after p :
  code_point_range cps -> at_position cps before after p -> state p = State.FileHost ->
  url p = u -> scheme u = sv "file" -> all_bytes (buffer p) ->
  step_good cps (fun _ _ => host_inv u) (fun u' _ => host_result u u') p (file_host_state (Some st) p (c after)).
Proof.
  intros Hcps Hpos Hst Hu Hf Hb. destruct (position_range cps Hcps _ _ _ Hpos) as [_ Hra].
  assert (Hset : forall h, h = HostString [] \/ host_ok false h /\ h <> HostString (sv "localhost") ->
    host_result u (with_host u (Some h))).
  { intros h Hh. right; right; right. split; [done|]. by exists h. }
  unfold file_host_state. cbn [overridden negb andb]. rewrite Hu. destruct (_ || _) eqn:Eend.
  - destruct (decide (buffer p = [])) as [->|Hne]; [apply Hset; by left|].
    replace (sv_is_empty (buffer p)) with false by (by destruct (buffer p)).
    destruct (parse_host_spec (buffer p) false Hb (or_introl Hne)) as (r & Hr & Hrok).
    rewrite (file_is_special u Hf). cbn [negb]. rewrite Hr. cbn [res_bind]. destruct r as [h|]; [|by left].
    apply Hset. case_bool_decide; [by left|right]. split; [by apply Hrok|done].
  - destruct after as [|x after]; [done|]. apply Forall_cons in Hra as [Hx _]. cbn [c] in *.
    eapply step_advance; [done|done|by right|]. unfold host_inv; fields. rewrite Hst.
    split; [done|]. split; [done|]. by apply buffer_append.
Qed.

(** The port state, for any record and what its result is to be. *)
Lemma port_step (u : URL) (I : list Z -> list Z -> parser -> Prop) (Q : URL -> Prop) cps st before after p :
  at_position cps before after p -> state p = State.Port -> url p = u ->
  forallb is_ascii_digit (buffer p) = true ->
  Q u -> (forall n, 0 <= n < 65536 -> Q (port_set u n)) ->
  (forall before after p', url p' = u -> state p' = State.Port -> forallb is_ascii_digit (buffer p') = true -> I before after p') ->
  step_good cps I (fun u' _ => Q u') p (port_state (Some st) p (c after)).
Proof.
  intros Hpos Hst Hu Hb HQ HQn HI. unfold port_state. cbn [overridden]. rewrite orb_true_r.
  destruct (is_ascii_digit (c after)) eqn:Ed.
  - destruct after as [|x after]; [done|]. cbn [c] in *. eapply step_advance; [done|done|by right|].
    apply HI; fields; [done|done|]. rewrite append_code_point_ascii, forallb_app, Hb by ascii_lia. cbn [forallb]. by rewrite Ed.
  - destruct (decide (buffer p = [])) as [->|Hne]; [cbn; by rewrite Hu|].
    replace (negb (sv_is_empty (buffer p))) with true by (by destruct (buffer p)).
    destruct (parse_number _ _ _) as [n|] eqn:Hparse; [|cbn; by rewrite Hu].
    apply parse_port_range in Hparse; [|done..]. cbn. rewrite Hu. by apply HQn.
Qed.

Lemma parse_onto_host u input st :
  st = State.Host \/ st = State.Hostname -> fits input ->
  exists u', parse_onto u input st = Ret u' /\ host_result u u'.
Proof.
  intros Hst Hin. destruct (parse_onto_ends u input st (fun _ _ => host_inv u) (fun _ u' => host_result u u'))
    as (cps & u' & _ & _ & Hp & Hr); [done|..|by exists u'].
  - intros cps before after p Hcps Hpos Hinv. unfold run_state. unfold host_inv in Hinv.
    destruct (state p) eqn:Hs; try done.
    + destruct Hinv as [Hu Hb]. by apply host_step with before; auto.
    + destruct Hinv as [Hu Hb]. by apply host_step with before; auto.
    + destruct Hinv as (h & Hu & Hnew & He & Hb). apply port_step with (with_host u (Some h)) before; try done.
      * right; left. by exists h.
      * intros n Hn. right; right; left. by exists h, n.
      * intros before' after' p' Hu' Hs' Hb'. unfold host_inv. rewrite Hs'. by exists h.
    + destruct Hinv as (Hu & Hf & Hb). by apply file_host_step with before.
  - intros cps. destruct Hst as [-> | ->]; by split.
Qed.

(** ** The port *)

Definition port_result (u u' : URL) : Prop := u' = u \/ exists n, 0 <= n < 65536 /\ u' = port_set u n.

Lemma parse_onto_port u input :
  fits input -> exists u', parse_onto u input State.Port = Ret u' /\ port_result u u'.
Proof.
  intros Hin. destruct (parse_onto_ends u input State.Port
    (fun _ _ p => url p = u /\ state p = State.Port /\ forallb is_ascii_digit (buffer p) = true)
    (fun _ u' => port_result u u')) as (cps & u' & _ & _ & Hp & Hr); [done|..|done|by exists u'].
  intros cps before after p Hcps Hpos (Hu & Hs & Hb). unfold run_state. rewrite Hs. apply port_step with u before; try done.
  - by left.
  - intros n Hn. right. by exists n.
Qed.

(** ** The path *)

Definition segments_ok (u : URL) (segments : list bytes) : Prop :=
  Forall (segment_ok (is_special u)) segments /\ drive_ok (scheme u) segments.

Definition path_result (u u' : URL) : Prop :=
  exists segments, u' = with_paths u segments /\ segments_ok u segments
    /\ (is_special u = true \/ host u = None -> segments <> []).

(** The invariant of the path states. *)
Definition path_inv (u : URL) (p : parser) : Prop :=
  match state p with
  | State.PathStart => url p = with_paths u [] /\ buffer p = []
  | State.Path => exists segments, url p = with_paths u segments /\ segments_ok u segments
                    /\ Forall (path_char (is_special u)) (buffer p)
  | _ => False
  end.

Lemma enter_path_inv u p : url p = with_paths u [] -> buffer p = [] -> path_inv u (with_state p State.Path).
Proof.
  intros Hu Hb. exists []. fields. rewrite Hb. split; [done|]. split; [split; [constructor|done]|constructor].
Qed.

Lemma path_start_step u cps before after p :
  code_point_range cps -> at_position cps before after p -> state p = State.PathStart ->
  url p = with_paths u [] -> buffer p = [] ->
  step_good cps (fun _ _ => path_inv u) (fun u' _ => path_result u u') p
    (path_start_state (Some State.PathStart) p (c after)).
Proof.
  intros Hcps Hpos Hs Hu Hb. destruct (position_range cps Hcps _ _ _ Hpos) as [_ Hra].
  set (I := fun _ _ : list Z => path_inv u). set (Q := fun u' (_ : bool) => path_result u u').
  assert (Hstay : step_good cps I Q p (Ret (Continue (with_state p State.Path)))).
  { eapply step_continue; [done|done|ranked|]. by apply enter_path_inv. }
  assert (Hmove : after <> [] -> step_good cps I Q p (Ret (Advance (with_state p State.Path)))).
  { destruct after as [|x after]; [done|]. intros _. eapply step_advance; [done|done|ranked|].
    exact (enter_path_inv u p Hu Hb). }
  unfold path_start_state. cbn [overridden negb andb]. assert (Hsp : is_special (url p) = is_special u) by (by rewrite Hu).
  rewrite Hsp. destruct (is_special u) eqn:Esp.
  { destruct (_ && _) eqn:E; [done|]. apply Hmove. by intros ->. }
  destruct (c after =? end_of_file) eqn:Eeof; cbn [negb].
  - apply Z.eqb_eq, c_eof in Eeof; [subst after|done].
    assert (Hhost : host (url p) = host u) by (by rewrite Hu). rewrite Hhost.
    destruct (host u) as [h|] eqn:Eh; (eapply step_end; [done|done|]).
    + rewrite Hu. exists []. split; [done|]. split; [split; [constructor|done]|]. rewrite Esp, Eh. by intros [?|?].
    + fields. rewrite Hu. exists [[]]. split; [done|]. split; [|done].
      split; [apply Forall_singleton, empty_segment_ok|]. intros _ first [= <-]. done.
  - destruct (negb _) eqn:E; [done|]. apply Hmove. by intros ->.
Qed.

Lemma path_step u cps before after p :
  code_point_range cps -> at_position cps before after p -> has_an_opaque_path u = false -> state p = State.Path -> path_inv u p ->
  step_good cps (fun _ _ => path_inv u) (fun u' _ => path_result u u') p
    (path_state (Some State.PathStart) p (c after)).
Proof.
  intros Hcps Hpos Hop Hs Hinv. unfold path_inv in Hinv. rewrite Hs in Hinv.
  destruct Hinv as (old & Hu & [Hseg Hdrive] & Hb). destruct (position_range cps Hcps _ _ _ Hpos) as [_ Hra].
  unfold path_state. cbn [overridden negb andb]. rewrite orb_false_r, Hu.
  change (is_special (with_paths u old)) with (is_special u).
  destruct ((_ || _) || _) eqn:Eend.
  - destruct (finish_segment_ok (with_paths u old) (buffer p) (c after) Hop Hseg Hdrive Hb)
      as (segments & -> & Hsegs & Hdr & Hne).
    cbn [res_bind]. change (is_special (with_paths u old)) with (is_special u) in Hne. fields.
    replace (c after =? ch "?") with false by (unfold end_of_file in *; destruct (is_special u); lia).
    replace (c after =? ch "#") with false by (unfold end_of_file in *; destruct (is_special u); lia).
    destruct after as [|x after].
    + eapply step_end; [done|done|]. fields. exists segments. split; [done|]. split; [by split|]. intros _.
      apply Hne. by rewrite andb_false_r.
    + eapply step_advance; [done|done|by right|]. unfold path_inv; fields. rewrite Hs. exists segments.
      split; [done|]. split; [by split|constructor].
  - destruct after as [|x after]; [done|]. apply Forall_cons in Hra as [Hx _]. cbn [c] in *.
    rewrite append_if_necessary_ok by done. cbn [res_bind].
    eapply step_advance; [done|done|by right|]. unfold path_inv; fields. rewrite Hs. exists old.
    split; [done|]. split; [by split|]. apply Forall_app. split; [done|]. apply encoded_unit_path_char; [done|lia|].
    intros Hsp. rewrite Hsp in Eend. lia.
Qed.

Lemma parse_onto_path u input :
  fits input -> has_an_opaque_path u = false ->
  exists u', parse_onto (with_paths u []) input State.PathStart = Ret u' /\ path_result u u'.
Proof.
  intros Hin Hop. destruct (parse_onto_ends (with_paths u []) input State.PathStart (fun _ _ => path_inv u)
    (fun _ u' => path_result u u')) as (cps & u' & _ & _ & Hp & Hr); [done|..|done|by exists u'].
  intros cps before after p Hcps Hpos Hinv. unfold run_state. destruct (state p) eqn:Hs; unfold path_inv in Hinv;
    rewrite Hs in Hinv; try done.
  - destruct Hinv as [Hu Hb]. by apply path_start_step with before.
  - apply path_step with before; try done. unfold path_inv. by rewrite Hs.
Qed.

(** ** The query and the fragment *)

Lemma buffer_encodes cps before x after p :
  code_point_range cps -> at_position cps before (x :: after) p -> buffer p = utf8_encode before ->
  append_code_point (buffer p) x = utf8_encode (before ++ [x]).
Proof.
  intros Hcps Hpos Hb. destruct (position_range cps Hcps _ _ _ Hpos) as [_ Hra]. apply Forall_cons in Hra as [Hx _].
  by rewrite Hb, utf8_encode_snoc.
Qed.

(** The record the query is parsed onto already has an empty query. *)
Lemma parse_onto_query u input :
  fits input ->
  exists cps q, scalars cps /\ process_input input true = Ret (utf8_encode cps)
    /\ percent_encode_after_encoding UTF8Encoder (utf8_encode cps) (query_set (is_special u)) false = Ret q
    /\ parse_onto (with_query u (Some [])) input State.Query = Ret (with_query u (Some q)).
Proof.
  intros Hin. destruct (parse_onto_ends (with_query u (Some [])) input State.Query
    (fun before _ p => url p = with_query u (Some []) /\ state p = State.Query /\ encoder p = UTF8Encoder /\ buffer p = utf8_encode before)
    (fun cps u' => exists q, percent_encode_after_encoding UTF8Encoder (utf8_encode cps) (query_set (is_special u)) false = Ret q
                     /\ u' = with_query u (Some q)))
    as (cps & u' & Hcps & Hproc & Hp & q & Hq & ->); [done|..|done|by exists cps, q].
  intros cps before after p Hcps Hpos (Hu & Hs & He & Hb). destruct (position_range cps Hcps _ _ _ Hpos) as [Hrb Hra].
  unfold run_state. rewrite Hs. unfold query_state. cbn [overridden negb andb orb].
  assert (Henc : (if negb (is_special (url p)) || sv_eqb (scheme (url p)) (sv "ws") || sv_eqb (scheme (url p)) (sv "wss")
    then let* encoder := utf8_encoder in Ret (with_encoder p encoder) else Ret p) = Ret p).
  { destruct (_ || _); [|done]. change utf8_encoder with (Ret UTF8Encoder). cbn [res_bind]. rewrite <- He. by destruct p. }
  rewrite Henc. cbn [res_bind]. destruct (c after =? end_of_file) eqn:Eeof.
  - apply Z.eqb_eq in Eeof as Hc. apply c_eof in Hc; [subst after|done]. pose proof Hpos as [Hall _].
    rewrite app_nil_r in Hall. subst before. rewrite He, Hb.
    destruct (percent_encode_after_encoding_clean UTF8Encoder (utf8_encode cps) (query_set (is_special u))) as (q & Hq & _).
    { by apply utf8_encode_bytes. }
    assert (Hsp : is_special (url p) = is_special u) by (by rewrite Hu). rewrite Hsp.
    unfold query_set in Hq. rewrite Hq. cbn [res_bind c].
    eapply step_end; [done|done|]. fields. exists q. split; [done|]. by rewrite Hu.
  - destruct after as [|x after]; [done|]. cbn [c]. eapply step_advance; [done|done|by right|]. fields.
    split; [done|]. split; [done|]. split; [done|]. by apply (buffer_encodes cps before x after p).
Qed.

Lemma parse_onto_fragment u input :
  fits input ->
  exists f, parse_onto (with_fragment u (Some [])) input State.Fragment = Ret (with_fragment u (Some f))
    /\ Forall (clean Fragment) f.
Proof.
  intros Hin. destruct (parse_onto_ends (with_fragment u (Some [])) input State.Fragment
    (fun before _ p => url p = with_fragment u (Some []) /\ state p = State.Fragment /\ buffer p = utf8_encode before)
    (fun cps u' => exists f, u' = with_fragment u (Some f) /\ Forall (clean Fragment) f))
    as (cps & u' & Hcps & Hproc & Hp & f & -> & Hf); [done|..|done|by exists f].
  intros cps before after p Hcps Hpos (Hu & Hs & Hb). destruct (position_range cps Hcps _ _ _ Hpos) as [Hrb Hra].
  unfold run_state. rewrite Hs. unfold fragment_state. destruct (c after =? end_of_file) eqn:Eeof; cbn [negb].
  - apply Z.eqb_eq in Eeof as Hc. apply c_eof in Hc; [subst after|done].
    change utf8_encoder with (Ret UTF8Encoder). cbn [res_bind].
    destruct (percent_encode_after_encoding_clean UTF8Encoder (buffer p) Fragment) as (f & Hf & Hclean).
    { rewrite Hb. by apply utf8_encode_bytes. }
    rewrite Hf. cbn [res_bind]. eapply step_end; [done|done|]. fields. exists f. by rewrite Hu.
  - destruct after as [|x after]; [done|]. cbn [c]. eapply step_advance; [done|done|by right|]. fields.
    split; [done|]. split; [done|]. by apply (buffer_encodes cps before x after p).
Qed.

End overrides.
