(* ===== verification/UrlFit.v ===== *)
(** * URL records under the setters

    [url_fit] is what every setter keeps of [url_ok].  The two conditions that
    are left out, [strict], are those a change of the scheme to "file" can
    break: "localhost" is dropped from a file URL when it is parsed, and a drive
    letter is normalized, but neither happens when only the scheme is set. *)

From S2P Require Import Prelude CharacterTypes Utf8 Strings TextCodec Percent Ipv4 Ipv6 Host Origin Url UrlParser UrlFacts UrlSafety FormUrlencoded SearchParams DomUrl UrlSetters.

Section fit.
Context `{Icu, Simdutf, FastFloat}.

Definition host_fit (u : URL) : Prop :=
  match host u with
  | None => is_special u = false
  | Some host => host_ok (negb (is_special u)) host \/ (host = HostString [] /\ scheme u = sv "file")
  end.

Definition path_fit (u : URL) : Prop :=
  if has_an_opaque_path u then
    is_special u = false /\ host u = None /\ exists path, paths u = [path]
      /\ opaque_path_ok path /\ head path <> Some (ch "/")
  else
    Forall (segment_ok (is_special u)) (paths u) /\ (is_special u = true \/ host u = None -> paths u <> []).

Record url_fit (u : URL) : Prop := {
  fit_scheme : scheme_ok (scheme u);
  fit_username : Forall (clean Userinfo) (username u);
  fit_password : Forall (clean Userinfo) (password u);
  fit_host : host_fit u;
  fit_port : url_port_ok u;
  fit_bare : cannot_have_a_username_or_password_or_port u = true ->
    username u = [] /\ password u = [] /\ port u = None;
  fit_path : path_fit u;
  fit_query : query_ok u;
  fit_fragment : fragment_ok u
}.

Definition strict (u : URL) : Prop :=
  (scheme u = sv "file" -> host u <> Some (HostString (sv "localhost"))) /\ drive_ok (scheme u) (paths u).

Lemma url_ok_fit u : url_ok u -> url_fit u /\ strict u.
Proof.
  intros [[F1 F2 F3 F4 F5 F6] Hp Hq Hf]. split; [split; try done|split].
  - unfold host_fit, url_host_ok in *. destruct (host u); [|done]. destruct F4 as [[? _]|?]; auto.
  - unfold path_fit, path_ok in *. destruct (has_an_opaque_path u); [done|]. destruct Hp as (? & _ & ?). by split.
  - unfold url_host_ok in F4. intros Hs Hh. rewrite Hh in F4. destruct F4 as [[_ Hne]|[Heq _]]; [by apply Hne|done].
  - unfold path_ok in Hp. destruct (has_an_opaque_path u); [|by destruct Hp as (_ & ? & _)].
    destruct Hp as (Hs & _). intros Hf'. by rewrite (file_is_special u Hf') in Hs.
Qed.

Lemma fit_url_ok u : url_fit u -> strict u -> url_ok u.
Proof.
  intros [F1 F2 F3 F4 F5 F6 F7 F8 F9] [Hl Hd]. split; [split; try done| |done|done].
  - unfold host_fit, url_host_ok in *. destruct (host u); [|done]. destruct F4 as [?|?]; [left|by right].
    split; [done|]. intros Hf ->. by apply (Hl Hf).
  - unfold path_fit, path_ok in *. destruct (has_an_opaque_path u); [done|]. by destruct F7.
Qed.

(** A record that keeps what the setter found. *)
Definition kept_fit (u u' : URL) : Prop := url_fit u' /\ (strict u -> strict u').

Lemma kept_refl u : url_fit u -> kept_fit u u.
Proof. by split. Qed.

(** ** The members *)

Lemma fit_bare_of u n :
  url_fit u -> cannot_have_a_username_or_password_or_port u = false -> 0 <= n < 65536 -> url_fit (port_set u n).
Proof.
  intros [F1 F2 F3 F4 F5 F6 F7 F8 F9] Hc Hn. split; try done.
  - unfold url_port_ok, port_set. fields. case_bool_decide as Hdef; [done|]. split; [done|]. congruence.
  - intros Hc'. change (cannot_have_a_username_or_password_or_port u = true) in Hc'. congruence.
Qed.

Lemma fit_without_port u : url_fit u -> url_fit (with_port u None).
Proof. intros [F1 F2 F3 F4 F5 F6 F7 F8 F9]. split; try done. intros Hc. by destruct (F6 Hc) as (? & ? & _). Qed.

Lemma fit_port_result u u' :
  url_fit u -> cannot_have_a_username_or_password_or_port u = false -> port_result u u' -> kept_fit u u'.
Proof.
  intros Hu Hc [->|(n & Hn & ->)]; [by apply kept_refl|]. split; [by apply fit_bare_of|done].
Qed.

Lemma fit_credentials u un pw :
  url_fit u -> cannot_have_a_username_or_password_or_port u = false ->
  Forall (clean Userinfo) un -> Forall (clean Userinfo) pw -> url_fit (with_password (with_username u un) pw).
Proof.
  intros [F1 F2 F3 F4 F5 F6 F7 F8 F9] Hc Hun Hpw. split; try done. intros Hc'.
  change (cannot_have_a_username_or_password_or_port u = true) in Hc'. congruence.
Qed.

Lemma fit_with_query u q :
  url_fit u -> (forall text, q = Some text -> Forall (clean (query_set (is_special u))) text) -> kept_fit u (with_query u q).
Proof.
  intros [F1 F2 F3 F4 F5 F6 F7 F8 F9] Hq. split; [|done]. split; try done. unfold query_ok. fields.
  destruct q; [by apply Hq|done].
Qed.

Lemma fit_with_fragment u f :
  url_fit u -> (forall text, f = Some text -> Forall (clean Fragment) text) -> kept_fit u (with_fragment u f).
Proof.
  intros [F1 F2 F3 F4 F5 F6 F7 F8 F9] Hf. split; [|done]. split; try done. unfold fragment_ok. fields.
  destruct f; [by apply Hf|done].
Qed.

Lemma fit_path_result u u' : url_fit u -> has_an_opaque_path u = false -> path_result u u' -> kept_fit u u'.
Proof.
  intros [F1 F2 F3 F4 F5 F6 F7 F8 F9] Hop (segments & -> & [Hseg Hdrive] & Hne). split.
  - split; try done. unfold path_fit. fields. rewrite Hop. by split.
  - intros [Hl _]. by split.
Qed.

(** Setting a host on a record without an opaque path. *)
Lemma fit_with_host u h :
  url_fit u -> has_an_opaque_path u = false ->
  host_ok (negb (is_special u)) h \/ (h = HostString [] /\ scheme u = sv "file") ->
  (is_empty_host h = true \/ scheme u = sv "file" -> username u = [] /\ password u = [] /\ port u = None) ->
  url_fit (with_host u (Some h)).
Proof.
  intros [F1 F2 F3 F4 F5 F6 F7 F8 F9] Hop Hh Hbare. split; try done.
  - unfold cannot_have_a_username_or_password_or_port. fields. intros Hc. apply orb_prop in Hc as [Hc|Hc].
    + apply Hbare. by left.
    + apply Hbare. right. by apply sv_eqb_true.
  - unfold path_fit in *. fields. rewrite Hop in *. destruct F7 as [Hseg Hne]. split; [done|].
    intros [Hs|?]; [|done]. apply Hne. by left.
Qed.

Lemma fit_host_result u u' : url_fit u -> has_an_opaque_path u = false -> host_result u u' -> kept_fit u u'.
Proof.
  intros Hu Hop Hr. assert (Hnew : forall h, new_host u h -> url_fit (with_host u (Some h))).
  { intros h (Hok & Hnf & Hempty). apply fit_with_host; [done|done|by left|]. intros [He|Hf]; [by apply Hempty|done]. }
  assert (Hfree : scheme u <> sv "file" -> forall v, scheme v = scheme u -> strict v).
  { intros Hnf v Hv. split; intros Hf; congruence. }
  destruct Hr as [->|[(h & Hh & ->)|[(h & n & Hh & He & Hn & ->)|(Hf & h & -> & Hh)]]]; [by apply kept_refl|..].
  - split; [by apply Hnew|]. intros _. apply Hfree; [apply Hh|done].
  - split; [|intros _; apply Hfree; [apply Hh|done]]. apply fit_bare_of; [by apply Hnew| |done].
    rewrite bare_with_host by apply Hh. done.
  - assert (Hsp : is_special u = true) by (by apply file_is_special). split.
    + apply fit_with_host; [done|done|..].
      * rewrite Hsp. destruct Hh as [->|[Hok _]]; [by right|by left].
      * intros _. apply (fit_bare u Hu). unfold cannot_have_a_username_or_password_or_port.
        destruct (host u); [|done]. rewrite Hf. by rewrite orb_true_r.
    + intros [_ Hd]. split; [|done]. fields. intros _ [= ->]. destruct Hh as [?|[_ Hne]]; done.
Qed.

(** ** The scheme *)

Lemma fit_scheme_set u s :
  url_fit u -> scheme_ok s -> scheme_refused u s = false ->
  url_fit (scheme_set u s) /\ (strict u -> s <> sv "file" \/ scheme u = sv "file" -> strict (scheme_set u s)).
Proof.
  intros [F1 F2 F3 F4 F5 F6 F7 F8 F9] Hs Hr. unfold scheme_refused in Hr.
  apply orb_false_iff in Hr as [Hr R4]. apply orb_false_iff in Hr as [Hr R3]. apply orb_false_iff in Hr as [R1 R2].
  assert (Hsp : is_special_scheme s = is_special u) by (destruct (is_special u), (is_special_scheme s); done).
  assert (Hset : exists p, scheme_set u s = with_port (with_scheme u s) p
    /\ (p = None \/ p = port u /\ port u <> default_port_for_scheme s)).
  { unfold scheme_set. case_bool_decide; [by exists None; auto|]. exists (port u). split; [by destruct u|by right]. }
  destruct Hset as (p & -> & Hport). split.
  - split; try done.
    + unfold host_fit, is_special in *. fields. rewrite Hsp. destruct (host u) as [h|]; [|done].
      destruct F4 as [?|[-> Hf]]; [by left|]. by rewrite Hf in R4.
    + unfold url_port_ok in *. fields. destruct Hport as [->|[-> Hne]]; [done|]. destruct (port u) as [n|]; [|done].
      destruct F5 as [Hn _]. split; [done|]. intros Heq. by rewrite Heq in Hne.
    + unfold cannot_have_a_username_or_password_or_port in *. fields. intros Hc.
      assert (Hall : username u = [] /\ password u = [] /\ port u = None).
      { destruct (host u) as [h|]; [|by apply F6]. destruct (is_empty_host h); [by apply F6|]. cbn [orb] in Hc.
        rewrite Hc, andb_true_r in R3. apply orb_false_iff in R3 as [R3 Rp]. unfold includes_credentials in R3.
        apply orb_false_iff in R3 as [Ru Rw].
        split; [by destruct (username u)|]. split; [by destruct (password u)|by destruct (port u)]. }
      destruct Hall as (-> & -> & Hp). destruct Hport as [->|[-> _]]; done.
    + unfold path_fit, is_special in *. fields. by rewrite Hsp.
    + unfold query_ok, is_special in *. fields. by rewrite Hsp.
  - intros [Hl Hd] [Hnf|Hf]; split; fields; try done; intros ->; auto.
Qed.

End fit.
