(* ===== verification/DomUrlTheorems.v ===== *)
(** * The [URL] interface: sequences of changes

    A script may call the setters of a [URL] object, and the members of its
    [searchParams], in any order and with any strings.  [run_mutations] runs
    such a sequence; the theorems say that it never stops the process, what it
    keeps of the URL record, and that record and parameters agree. *)

From S2P Require Import Prelude CharacterTypes Utf8 Utf16 MemMem Strings InsertionSort CodeUnits TextCodec Percent Ipv4 Ipv6 Host Origin Url UrlParser UrlFacts UrlSafety UrlTheorems UrlRoundtrip FormUrlencoded SearchParams QueryText DomUrl BlobEntry UrlSetters UrlFit.

(** ** Changes *)

Inductive mutation :=
  | SetHref (value : bytes)
  | SetProtocol (value : bytes)
  | SetUsername (value : bytes)
  | SetPassword (value : bytes)
  | SetHost (value : bytes)
  | SetHostname (value : bytes)
  | SetPort (value : bytes)
  | SetPathname (value : bytes)
  | SetSearch (value : bytes)
  | SetHash (value : bytes)
  | ChangeParams (o : operation).

Section mutations.
Context `{LookupTables, Icu, Simdutf, FastFloat, SimdutfFromUtf8}.

(** A change; the exception of [set_href] leaves the object as it was. *)
Definition run_mutation (m : mutation) (d : DOMURL) : res DOMURL :=
  match m with
  | SetHref value =>
      let* result := set_href d value in
      Ret (match result with Value d' => d' | TypeError _ => d end)
  | SetProtocol value => set_protocol d value
  | SetUsername value => dom_set_username d value
  | SetPassword value => dom_set_password d value
  | SetHost value => dom_set_host d value
  | SetHostname value => set_hostname d value
  | SetPort value => dom_set_port d value
  | SetPathname value => set_pathname d value
  | SetSearch value => set_search d value
  | SetHash value => set_hash d value
  | ChangeParams o => on_query_object (run_operation o) d
  end.

Fixpoint run_mutations (ms : list mutation) (d : DOMURL) : res DOMURL :=
  match ms with
  | [] => Ret d
  | m :: ms => let* d := run_mutation m d in run_mutations ms d
  end.

End mutations.

(** A string from a script: UTF-8, and not longer than memory allows. *)
Definition text_ok (s : bytes) : Prop := well_formed_utf8 s /\ Z.of_nat (length s) < 2 ^ 61.

Definition mutation_ok (m : mutation) : Prop :=
  match m with
  | SetHref v | SetProtocol v | SetUsername v | SetPassword v | SetHost v | SetHostname v | SetPort v
  | SetPathname v | SetSearch v | SetHash v => text_ok v
  | ChangeParams o => operation_ok o
  end.

(** A search string without tabs and newlines, which the URL parser drops but
    the parser of parameters keeps. *)
Definition mutation_plain (m : mutation) : Prop :=
  match m with SetSearch v => contains_ascii_tab_or_newline v = false | _ => True end.

(** ** Facts: parameters *)

Lemma query_encoded_refl s : query_encoded s s.
Proof. induction s; by constructor. Qed.

Section facts.
Context `{LookupTablesLaws, IcuLaws, SimdutfLaws, FastFloatLaws, SimdutfFromUtf8Laws}.

Lemma decode_component_ok s :
  all_bytes s -> exists t, decode_component s = Ret t /\ well_formed_utf8 t.
Proof.
  intros Hs. unfold decode_component. rewrite (replace_all_byte (ch "+") 32). cbn [res_bind].
  rewrite percent_decode_ok. cbn [res_bind]. eexists. split; [done|]. apply from_utf8_well_formed, pdecode_bytes.
  apply Forall_fmap. eapply Forall_impl; [exact Hs|]. intros b Hb. cbn. by destruct (b =? 43).
Qed.

Lemma decode_sequence_ok s :
  all_bytes s -> exists l, decode_sequence s = Ret l /\ Forall param_ok l.
Proof.
  intros Hs. destruct (decide (s = [])) as [->|Hne]; [by exists []|].
  assert (Hpair : forall n v, all_bytes n -> all_bytes v ->
    exists l, (let* name_string := decode_component n in let* value_string := decode_component v in
               Ret [{| param_name := name_string; param_value := value_string |}]) = Ret l /\ Forall param_ok l).
  { intros n v Hn Hv. destruct (decode_component_ok n Hn) as (n' & -> & Hn'). cbn [res_bind].
    destruct (decode_component_ok v Hv) as (v' & -> & Hv'). cbn [res_bind]. eexists. split; [done|].
    by apply Forall_singleton. }
  destruct (query_encoded_cut (ch "=") s s) as [[Hf _]|(s1 & s2 & _ & _ & -> & _ & _ & _ & Hf & _)];
    [by right; left|apply query_encoded_refl|..].
  - rewrite decode_sequence_name by done. apply Hpair; [done|constructor].
  - apply Forall_app in Hs as [Hs1 Hs2]. apply Forall_cons in Hs2 as [_ Hs2].
    rewrite decode_sequence_pair by done. by apply Hpair.
Qed.

Lemma split_on_bytes d s : all_bytes s -> Forall (fun part => all_bytes part) (split_on d s).
Proof.
  induction 1 as [|b s Hb Hs IH]; [by repeat constructor|]. cbn [split_on]. destruct (b =? d); [by repeat constructor|].
  destruct (split_on d s) as [|part parts]; [by repeat constructor|]. apply Forall_cons in IH as [Hp IH]. by repeat constructor.
Qed.

(** The parser of parameters returns on every byte string. *)
Lemma url_decode_ok s : all_bytes s -> exists l, url_decode s = Ret l /\ Forall param_ok l.
Proof.
  intros Hs. unfold url_decode. destruct (decide (s = [])) as [->|Hne]; [by exists []|].
  rewrite split_view_kept by done. cbn [res_bind]. pose proof (split_on_bytes (ch "&") s Hs) as Hparts.
  assert (Hkept : Forall (fun part => all_bytes part) (kept false (split_on (ch "&") s))).
  { rewrite !List.Forall_forall in *. intros x [Hx _]%List.filter_In. auto. }
  induction Hkept as [|part parts Hp _ IH]; [by exists []|]. cbn [decode_sequences].
  destruct (decode_sequence_ok part Hp) as (l1 & -> & Hl1). cbn [res_bind]. destruct IH as (l2 & -> & Hl2).
  cbn [res_bind]. eexists. split; [done|]. apply Forall_app. by split.
Qed.

Lemma form_unit_clean special b :
  0 <= b < 256 -> forallb (is_clean (query_set special)) (form_unit b) = true.
Proof.
  revert b. apply (byte_enumeration (fun b => forallb (is_clean (query_set special)) (form_unit b)) (fun _ => true)).
  destruct special; vm_compute; reflexivity.
Qed.

Lemma form_text_clean special s : all_bytes s -> Forall (clean (query_set special)) (form_text s).
Proof.
  intros Hs. apply Forall_bind. eapply Forall_impl; [exact Hs|]. intros b Hb. cbn beta in Hb.
  pose proof (form_unit_clean special b ltac:(ascii_lia)) as Hc. apply forallb_Forall_iff in Hc.
  eapply Forall_impl; [exact Hc|]. intros x Hx. by apply is_clean_spec.
Qed.

(** Serialized parameters may be the query of a URL. *)
Lemma params_text_clean special params :
  Forall param_ok params -> Forall (clean (query_set special)) (join (ch "&") (param_text <$> params)).
Proof.
  assert (Hsep : forall x, In x [ch "&"; ch "="] -> clean (query_set special) x).
  { intros x [<-|[<-|[]]]; apply is_clean_spec; by destruct special. }
  assert (Htext : forall p, param_ok p -> Forall (clean (query_set special)) (param_text p)).
  { intros p [Hn Hv]. unfold param_text. repeat (apply Forall_app; split).
    - by apply form_text_clean, well_formed_bytes.
    - apply Forall_singleton, Hsep. by right; left.
    - by apply form_text_clean, well_formed_bytes. }
  induction 1 as [|p [|p' params] Hp Hps IH]; [constructor|by apply Htext|].
  rewrite !fmap_cons in *. change (join (ch "&") (param_text p :: ?l)) with (param_text p ++ ch "&" :: join (ch "&") l).
  apply Forall_app. split; [by apply Htext|]. constructor; [apply Hsep; by left|done].
Qed.

(** ** One change *)

Definition dom_ok (d : DOMURL) : Prop := url_fit (url_record d) /\ Forall param_ok (query_list d).

(** The parameters are those of the query. *)
Definition synced (d : DOMURL) : Prop := url_decode (default [] (query (url_record d))) = Ret (query_list d).

(** What a change keeps; [strict] and [synced] under a condition. *)
Definition keeps (guard : DOMURL -> Prop) (plain : Prop) (d : DOMURL) (result : res DOMURL) : Prop :=
  exists d', result = Ret d' /\ dom_ok d'
    /\ (guard d' -> strict (url_record d) -> strict (url_record d'))
    /\ (plain -> synced d -> synced d').

(** The change does not turn another scheme into "file" by setting it. *)
Definition no_new_file (m : mutation) (d d' : DOMURL) : Prop :=
  match m with
  | SetProtocol _ => scheme (url_record d') = sv "file" -> scheme (url_record d) = sv "file"
  | _ => True
  end.

(** A new record with the same query. *)
Lemma keeps_record guard plain d u result :
  dom_ok d -> kept_fit (url_record d) u -> query u = query (url_record d) ->
  result = Ret (with_record d u) -> keeps guard plain d result.
Proof.
  intros [_ Hl] [Hf Hs] Hq ->. exists (with_record d u). split; [done|]. split; [by split|]. split; [auto|].
  intros _. unfold synced. cbn. by rewrite Hq.
Qed.

Lemma keeps_same guard plain d : dom_ok d -> keeps guard plain d (Ret d).
Proof. intros Hd. by exists d. Qed.

Lemma text_fits s : text_ok s -> fits s.
Proof. intros [Hw Hl]. split; [by apply well_formed_bytes|]. lia. Qed.

Lemma clean_text_bytes set s : Forall (clean set) s -> all_bytes s.
Proof. intros Hs. eapply Forall_impl; [exact Hs|]. intros x [Hx _]. unfold is_byte. lia. Qed.

Lemma query_bytes u : query_ok u -> all_bytes (default [] (query u)).
Proof. unfold query_ok. destruct (query u); [|constructor]. apply clean_text_bytes. Qed.

Lemma set_href_keeps guard plain d v : dom_ok d -> text_ok v -> keeps guard plain d (run_mutation (SetHref v) d).
Proof.
  intros Hd Hv. cbn [run_mutation]. unfold set_href.
  destruct (basic_parse_ok v None None (text_fits v Hv)) as (r & -> & Hok); [done|]. cbn [res_bind].
  destruct r as [u|]; [|by apply keeps_same]. pose proof (Hok u eq_refl) as Hu.
  apply url_ok_fit in Hu as [Hfit Hstrict]. pose proof (query_bytes u (fit_query u Hfit)) as Hq.
  destruct (url_decode_ok _ Hq) as (l & Hl & Hlok).
  assert (Hlist : (match query u with Some q => url_decode q | None => Ret [] end) = Ret l).
  { destruct (query u); [exact Hl|]. cbn in Hl. by rewrite <- Hl. }
  rewrite Hlist. cbn [res_bind]. eexists. split; [done|]. split; [by split|]. split; [done|]. intros _ _. exact Hl.
Qed.

Lemma set_protocol_keeps plain d v : dom_ok d -> text_ok v -> keeps (no_new_file (SetProtocol v) d) plain d (set_protocol d v).
Proof.
  intros [Hfit Hlist] [Hw Hlen]. unfold set_protocol. destruct (parse_onto_scheme (url_record d) (v ++ [ch ":"])) as (u & -> & Hr).
  { split; [apply Forall_app; split; [by apply well_formed_bytes|by repeat constructor]|]. rewrite length_app. simpl. lia. }
  cbn [res_bind]. destruct Hr as [->|(s & Hs & Href & ->)].
  { eapply keeps_record; [by split|by apply kept_refl|done|done]. }
  destruct (fit_scheme_set (url_record d) s Hfit Hs Href) as [Hnew Hstrict].
  assert (Hfields : scheme (scheme_set (url_record d) s) = s /\ query (scheme_set (url_record d) s) = query (url_record d)).
  { unfold scheme_set. by case_bool_decide. }
  destruct Hfields as [Hscheme Hq]. exists (with_record d (scheme_set (url_record d) s)). split; [done|].
  split; [by split|]. split.
  - cbn. rewrite Hscheme. intros Hfile Hst. apply Hstrict; [done|].
    destruct (decide (s = sv "file")) as [->|]; [right; by apply Hfile|by left].
  - intros _. unfold synced. cbn. by rewrite Hq.
Qed.

Lemma set_credentials_keeps guard plain d v :
  dom_ok d -> text_ok v -> keeps guard plain d (dom_set_username d v) /\ keeps guard plain d (dom_set_password d v).
Proof.
  intros Hd [Hw _]. pose proof (well_formed_bytes v Hw) as Hb. unfold dom_set_username, dom_set_password.
  destruct (cannot_have_a_username_or_password_or_port (url_record d)) eqn:Hc; [by split; apply keeps_same|].
  unfold set_username, set_password. rewrite percent_encode_ok by done. cbn [res_bind].
  assert (Hclean : Forall (clean Userinfo) (code_points v ≫= encoded_unit Userinfo)).
  { apply Forall_bind. eapply Forall_impl; [by apply code_points_range|]. intros x Hx. by apply encoded_unit_clean. }
  pose proof (proj1 Hd) as Hf. set (u := url_record d) in *. set (e := code_points v ≫= encoded_unit Userinfo) in *.
  split; [apply keeps_record with (with_username u e)|apply keeps_record with (with_password u e)]; try done; (split; [|done]).
  - replace (with_username u e) with (with_password (with_username u e) (password u)) by (by destruct u).
    apply fit_credentials; try done. apply (fit_password _ Hf).
  - replace (with_password u e) with (with_password (with_username u (username u)) e) by (by destruct u).
    apply fit_credentials; try done. apply (fit_username _ Hf).
Qed.

Lemma host_result_query u u' : host_result u u' -> query u' = query u.
Proof. by intros [->|[(? & _ & ->)|[(? & ? & _ & _ & _ & ->)|(_ & ? & -> & _)]]]. Qed.

Lemma set_host_keeps guard plain d v :
  dom_ok d -> text_ok v -> keeps guard plain d (dom_set_host d v) /\ keeps guard plain d (set_hostname d v).
Proof.
  intros Hd Hv%text_fits. unfold dom_set_host, set_hostname.
  destruct (has_an_opaque_path (url_record d)) eqn:Hop; [by split; apply keeps_same|].
  assert (Hany : forall st, st = State.Host \/ st = State.Hostname ->
    keeps guard plain d (let* u := parse_onto (url_record d) v st in Ret (with_record d u))); [|split; apply Hany; auto].
  intros st Hst. destruct (parse_onto_host (url_record d) v st Hst Hv) as (u & -> & Hr). cbn [res_bind].
  eapply keeps_record; [done|apply fit_host_result; [apply Hd|done|exact Hr]|by apply host_result_query|done].
Qed.

Lemma set_port_keeps guard plain d v : dom_ok d -> text_ok v -> keeps guard plain d (dom_set_port d v).
Proof.
  intros Hd Hv%text_fits. unfold dom_set_port.
  destruct (cannot_have_a_username_or_password_or_port (url_record d)) eqn:Hc; [by apply keeps_same|].
  destruct (sv_is_empty v).
  - assert (Hset : set_port (url_record d) None = with_port (url_record d) None) by (unfold set_port; by destruct (bool_decide _)).
    rewrite Hset. eapply keeps_record; [done|split; [by apply fit_without_port, Hd|done]|done|done].
  - destruct (parse_onto_port (url_record d) v Hv) as (u & -> & Hr). cbn [res_bind].
    eapply keeps_record; [done|by apply fit_port_result; [apply Hd| |exact Hr]| |done].
    by destruct Hr as [->|(? & _ & ->)].
Qed.

Lemma set_pathname_keeps guard plain d v : dom_ok d -> text_ok v -> keeps guard plain d (set_pathname d v).
Proof.
  intros Hd Hv%text_fits. unfold set_pathname. destruct (has_an_opaque_path (url_record d)) eqn:Hop; [by apply keeps_same|].
  change (set_paths (url_record d) []) with (Ret (with_paths (url_record d) [])). cbn [res_bind].
  destruct (parse_onto_path (url_record d) v Hv Hop) as (u & -> & Hr). cbn [res_bind].
  eapply keeps_record; [done|by apply fit_path_result; [apply Hd| |exact Hr]| |done].
  by destruct Hr as (? & -> & _).
Qed.

Lemma set_hash_keeps guard plain d v : dom_ok d -> text_ok v -> keeps guard plain d (set_hash d v).
Proof.
  intros Hd Hv. unfold set_hash. destruct (sv_is_empty v) eqn:He.
  { apply keeps_record with (with_fragment (url_record d) None); try done. by apply fit_with_fragment; [apply Hd|]. }
  assert (Hne : (1 <= length v)%nat) by (destruct v; [done|simpl; lia]). pose proof (text_fits v Hv) as [Hb Hl].
  rewrite substring_view_from_drop by (destruct (starts_with_char _ _); lia). cbn [res_bind].
  set (input := drop _ v). assert (Hin : fits input).
  { split; [by apply Forall_drop|]. unfold input. rewrite length_drop. lia. }
  destruct (parse_onto_fragment (url_record d) input Hin) as (f & Hp & Hf). unfold set_fragment. rewrite Hp. cbn [res_bind].
  apply keeps_record with (with_fragment (url_record d) (Some f)); try done.
  apply fit_with_fragment; [apply Hd|]. by intros text [= <-].
Qed.

Lemma well_formed_tail b s : 0 <= b < 128 -> well_formed_utf8 (b :: s) -> well_formed_utf8 s.
Proof.
  intros Hb (cps & Hcps & Heq). symmetry in Heq.
  destruct (utf8_head_ascii b cps s (scalars_range _ Hcps) Hb Heq) as (cps' & -> & ->).
  apply Forall_cons in Hcps as [_ Hcps]. by exists cps'.
Qed.

(** Removing the leading question mark. *)
Lemma stripped_search v (k := if starts_with_char v (ch "?") then 1%nat else 0%nat) :
  sv_is_empty v = false -> text_ok v ->
  substring_view_from v k = Ret (drop k v) /\ text_ok (drop k v)
  /\ (contains_ascii_tab_or_newline v = false -> contains_ascii_tab_or_newline (drop k v) = false).
Proof.
  intros He [Hw Hl]. unfold starts_with_char in k. destruct v as [|b v]; [done|]. subst k.
  rewrite substring_view_from_drop by (destruct (_ =? _); simpl; lia). split; [done|].
  destruct (Z.eqb_spec b (ch "?")) as [->|]; cbn [drop].
  - split; [|by intros [_ ?]%orb_false_iff]. split; [by apply (well_formed_tail (ch "?"))|change (Z.of_nat (length v) < 2 ^ 61); cbn [length] in Hl; lia].
  - rewrite (proj2 (Z.eqb_neq (ch "?") b)) by done. rewrite drop_0. split; [by split|done].
Qed.

Lemma process_plain s :
  well_formed_utf8 s -> contains_ascii_tab_or_newline s = false -> process_input s true = Ret s.
Proof. intros Hs Hc. unfold process_input. rewrite from_utf8_identity by done. by rewrite Hc. Qed.

Lemma set_search_keeps guard d v :
  dom_ok d -> text_ok v -> keeps guard (contains_ascii_tab_or_newline v = false) d (set_search d v).
Proof.
  intros Hd Hv. pose proof Hd as [Hfit Hlist]. unfold set_search. destruct (sv_is_empty v) eqn:He.
  { destruct (fit_with_query (url_record d) None Hfit) as [Hf Hs]; [done|].
    eexists. split; [done|]. split; [by split|]. split; [by intros _; apply Hs|done]. }
  destruct (stripped_search v He Hv) as (Hsub & Hin & Hplain). rewrite Hsub. cbn [res_bind].
  set (input := drop _ v) in *. unfold set_query. pose proof (text_fits input Hin) as Hfits.
  destruct (parse_onto_query (url_record d) input Hfits) as (cps & q & Hcps & Hproc & Hq & ->). cbn [res_bind].
  destruct (url_decode_ok input (proj1 Hfits)) as (l & Hl & Hlok). rewrite Hl. cbn [res_bind].
  pose proof (utf8_encode_bytes cps (scalars_range _ Hcps)) as Hb.
  destruct (percent_encode_after_encoding_clean UTF8Encoder (utf8_encode cps) (query_set (is_special (url_record d))) Hb)
    as (q' & Hq' & Hclean). rewrite Hq in Hq'. injection Hq' as <-.
  destruct (fit_with_query (url_record d) (Some q) Hfit) as [Hf Hs]; [by intros ? [= <-]|].
  eexists. split; [done|]. split; [by split|]. split; [by intros _; apply Hs|].
  intros Hv' _. unfold synced. cbn. change (id q) with q. rewrite <- Hl.
  rewrite process_plain in Hproc by (apply Hin || by apply Hplain). injection Hproc as Heq. rewrite <- Heq in *.
  rewrite query_text_encoded in Hq by done. injection Hq as <-. by apply url_decode_encoded, query_units_encoded.
Qed.

Lemma change_params_keeps guard plain d o :
  dom_ok d -> operation_ok o -> keeps guard plain d (on_query_object (run_operation o) d).
Proof.
  intros [Hfit Hlist] Ho. unfold on_query_object.
  destruct (operation_list (query_object d) o Hlist Ho) as (l & -> & Hl & _).
  destruct (update_ok (with_list (query_object d) l) Hl) as (p' & -> & Hlist' & Hsync & _ & Hurl). cbn [res_bind].
  destruct (Hurl (url_record d) eq_refl) as (text & Htext & Hm). rewrite Hm. cbn [unwrap res_bind].
  cbn in Hlist'. cbn [m_list with_list] in Htext. rewrite url_encode_text in Htext by done. injection Htext as <-.
  unfold in_sync in Hsync. rewrite Hm, Hlist' in Hsync.
  destruct (fit_with_query (url_record d) (match l with [] => None | _ => Some (join (ch "&") (param_text <$> l)) end) Hfit)
    as [Hf Hs].
  { intros text Heq. destruct l; [done|]. injection Heq as <-. by apply (params_text_clean _ (_ :: _)). }
  eexists. split; [done|]. rewrite Hlist'. split; [by split|]. split; [by intros _; apply Hs|]. intros _ _. exact Hsync.
Qed.

Lemma mutation_keeps m d : dom_ok d -> mutation_ok m -> keeps (no_new_file m d) (mutation_plain m) d (run_mutation m d).
Proof.
  intros Hd Hm. destruct m as [v|v|v|v|v|v|v|v|v|v|o]; cbn [run_mutation mutation_ok] in *.
  - by apply set_href_keeps.
  - by apply set_protocol_keeps.
  - by apply set_credentials_keeps.
  - by apply set_credentials_keeps.
  - by apply set_host_keeps.
  - by apply set_host_keeps.
  - by apply set_port_keeps.
  - by apply set_pathname_keeps.
  - by apply set_search_keeps.
  - by apply set_hash_keeps.
  - by apply change_params_keeps.
Qed.

(** ** Sequences of changes *)

Lemma mutations_keep ms d :
  Forall mutation_ok ms -> dom_ok d ->
  exists d', run_mutations ms d = Ret d' /\ dom_ok d' /\ (Forall mutation_plain ms -> synced d -> synced d').
Proof.
  intros Hms. revert d. induction Hms as [|m ms Hm _ IH]; intros d Hd; [by exists d|]. cbn [run_mutations].
  destruct (mutation_keeps m d Hd Hm) as (d1 & -> & Hd1 & _ & Hs1). cbn [res_bind].
  destruct (IH d1 Hd1) as (d2 & Hrun & Hd2 & Hs2). exists d2. split; [done|]. split; [done|].
  intros [Hp Hps]%Forall_cons Hs. by apply Hs2, Hs1.
Qed.

(** A constructed object. *)
Lemma construct_keeps url base :
  text_ok url -> (forall b, base = Some b -> text_ok b) ->
  exists r, construct_url url base = Ret r
    /\ forall d, r = Value d -> dom_ok d /\ strict (url_record d) /\ synced d.
Proof.
  intros Hurl Hbase.
  assert (Hparse : exists r, parse_api_url url base = Ret r /\ forall u, r = Some u -> url_ok u).
  { unfold parse_api_url. destruct base as [b|]; [|by apply basic_parse_ok; [apply text_fits|]].
    destruct (basic_parse_ok b None None (text_fits b (Hbase b eq_refl))) as (r & -> & Hr); [done|]. cbn [res_bind].
    destruct r as [v|]; [|by exists None]. apply basic_parse_ok; [by apply text_fits|]. intros w [= <-]. by apply Hr. }
  destruct Hparse as (r & Hp & Hr). unfold construct_url. rewrite Hp. cbn [res_bind].
  destruct r as [u|]; [|by eexists]. unfold initialize_a_url, create_from_string.
  destruct (url_ok_fit u (Hr u eq_refl)) as [Hfit Hstrict].
  destruct (url_decode_ok _ (query_bytes u (fit_query u Hfit))) as (l & Hl & Hlok). rewrite Hl. cbn [res_bind].
  eexists. split; [done|]. intros d [= <-]. split; [by split|]. by split.
Qed.

(** ** The origin *)

Lemma mutation_entry m d : no_entry d -> returns no_entry (run_mutation m d).
Proof.
  intros Hd. assert (Hset : forall input st, returns no_entry (let* u := parse_onto (url_record d) input st in Ret (with_record d u))).
  { intros input st. by apply record_entry, parse_onto_entry. }
  destruct m as [v|v|v|v|v|v|v|v|v|v|o]; cbn [run_mutation].
  - apply (returns_bind (fun r => forall d', r = Value d' -> no_entry d')).
    + unfold set_href. apply (returns_bind _ _ _ _ (basic_parse_entry v None None)). intros [u|] Hu; [|done].
      apply returns_bind_any. intros l. cbn. intros d' [= <-]. by apply Hu.
    + intros [d'|message] Hr; cbn; [by apply Hr|done].
  - apply Hset.
  - unfold dom_set_username, set_username. destruct (cannot_have_a_username_or_password_or_port _); [done|].
    apply record_entry, returns_bind_any. intros text. exact Hd.
  - unfold dom_set_password, set_password. destruct (cannot_have_a_username_or_password_or_port _); [done|].
    apply record_entry, returns_bind_any. intros text. exact Hd.
  - unfold dom_set_host. destruct (has_an_opaque_path _); [done|apply Hset].
  - unfold set_hostname. destruct (has_an_opaque_path _); [done|apply Hset].
  - unfold dom_set_port. destruct (cannot_have_a_username_or_password_or_port _); [done|]. destruct (sv_is_empty v); [|apply Hset].
    unfold set_port. by destruct (bool_decide _).
  - unfold set_pathname. destruct (has_an_opaque_path _); [done|]. cbn [set_paths encode_paths res_bind]. by apply record_entry, parse_onto_entry.
  - unfold set_search. destruct (sv_is_empty v); [done|]. apply returns_bind_any. intros input. cbv zeta.
    apply (returns_bind (has_entry None)); [by apply parse_onto_entry|]. intros u Hu. apply returns_bind_any. by intros l.
  - unfold set_hash. destruct (sv_is_empty v); [done|]. apply returns_bind_any. intros input. by apply record_entry, parse_onto_entry.
  - unfold on_query_object. apply (returns_bind _ _ _ _ (operation_entry o (query_object d))). intros p Hp.
    destruct (m_url p) as [u|] eqn:E; [|done]. cbn. unfold no_entry, has_entry. cbn. rewrite (Hp (url_record d) u); [exact Hd|done|done].
Qed.

Lemma mutations_entry ms d : no_entry d -> returns no_entry (run_mutations ms d).
Proof.
  revert d. induction ms as [|m ms IH]; intros d Hd; [done|]. cbn [run_mutations].
  apply (returns_bind _ _ _ _ (mutation_entry m d Hd)). exact IH.
Qed.

Lemma construct_entry url base : returns (fun r => forall d, r = Value d -> no_entry d) (construct_url url base).
Proof.
  unfold construct_url. apply (returns_bind (fun r => forall u, r = Some u -> has_entry None u)).
  - unfold parse_api_url. destruct base as [b|]; [|apply basic_parse_entry]. apply returns_bind_any.
    intros [v|]; [apply basic_parse_entry|done].
  - intros [u|] Hu; [|done]. apply (returns_bind no_entry); [|by intros d' Hd' d [= <-]].
    unfold initialize_a_url. apply returns_bind_any. intros q. by apply Hu.
Qed.

(** Every getter returns; the one of the origin parses the path of a blob URL,
    which has to be short enough for the parser. *)
Definition readable (d : DOMURL) : Prop :=
  (exists s, href d = Ret s) /\ (exists s, dom_host d = Ret s) /\ (exists s, hostname d = Ret s)
  /\ (exists s, dom_port d = Ret s) /\ (exists s, pathname d = Ret s)
  /\ forall nonce, (forall path, pathname d = Ret path -> Z.of_nat (length path) < 2 ^ 62) -> exists s, dom_origin d nonce = Ret s.

Lemma fit_host_text u h : url_fit u -> host u = Some h -> exists s, host_serialize h = Ret s.
Proof.
  intros Hu Hh. pose proof (fit_host _ Hu) as Hf. unfold host_fit in Hf. rewrite Hh in Hf.
  destruct Hf as [Hok|[-> _]]; [|by exists []]. destruct (host_serialize_parse _ _ Hok) as (s & Hs & _). by exists s.
Qed.

Lemma fit_port_text u n : url_fit u -> port u = Some n -> exists s, format_decimal n = Ret s.
Proof.
  intros Hu Hn. pose proof (fit_port _ Hu) as Hf. unfold url_port_ok in Hf. rewrite Hn in Hf.
  destruct (format_decimal_prints n ltac:(lia)) as (s & Hs & _). by exists s.
Qed.

Lemma fit_path_text u : url_fit u -> exists s, serialize_path u = Ret s /\ all_bytes s.
Proof.
  intros Hu. pose proof (fit_path _ Hu) as Hf. unfold path_fit in Hf. unfold serialize_path.
  destruct (has_an_opaque_path u).
  - destruct Hf as (_ & _ & path & -> & Hok & _). eexists. split; [done|]. eapply Forall_impl; [exact Hok|].
    cbn beta. intros b [Hb _]. by apply clean_byte in Hb.
  - eexists. split; [done|]. destruct Hf as [Hf _]. by eapply slash_segments_bytes.
Qed.

Lemma tuple_origin_text u nonce : url_fit u -> exists o s, tuple_origin u nonce = Ret o /\ origin_serialize o = Ret s.
Proof.
  intros Hu. unfold tuple_origin. destruct (existsb _ _) eqn:E.
  - pose proof (network_scheme_special u E) as Hs. destruct (host u) as [h|] eqn:Hh.
    2:{ pose proof (fit_host _ Hu) as Hf. unfold host_fit in Hf. rewrite Hh in Hf. congruence. }
    destruct (fit_host_text u h Hu Hh) as [text Ht]. cbn [unwrap res_bind]. destruct (port u) as [n|] eqn:Hn.
    + destruct (fit_port_text u n Hu Hn) as [digits Hd]. do 2 eexists. split; [done|]. cbn [origin_serialize]. rewrite Ht. cbn [res_bind]. by rewrite Hd.
    + do 2 eexists. split; [done|]. cbn [origin_serialize]. by rewrite Ht.
  - destruct (_ || _); by do 2 eexists.
Qed.

Lemma origin_text d nonce : url_fit (url_record d) -> no_entry d ->
  (forall path, pathname d = Ret path -> Z.of_nat (length path) < 2 ^ 62) -> exists s, dom_origin d nonce = Ret s.
Proof.
  intros Hu He Hlen. unfold dom_origin, origin.
  assert (Htuple : forall v, url_fit v -> exists s, (let* o := tuple_origin v nonce in origin_serialize o) = Ret s).
  { intros v Hv. destruct (tuple_origin_text v nonce Hv) as (o & s & -> & Hs). by exists s. }
  destruct (sv_eqb _ _); [|by apply Htuple]. unfold no_entry, has_entry in He. rewrite He.
  destruct (fit_path_text _ Hu) as (path & Hpath & Hb). rewrite Hpath. cbn [res_bind].
  destruct (basic_parse_ok path None None) as (r & -> & Hr); [by split; [|apply Hlen]|done|]. cbn [res_bind].
  destruct r as [v|]; [|by eexists]. destruct (existsb _ _); [|by eexists]. apply Htuple, url_ok_fit. by apply Hr.
Qed.

Lemma fit_readable d : url_fit (url_record d) -> no_entry d -> readable d.
Proof.
  intros Hu He. pose proof (fun nonce => origin_text d nonce Hu He) as Horigin. set (u := url_record d) in *.
  assert (Hhost : forall h, host u = Some h -> exists s, serialized_host u = Ret s).
  { intros h Hh. unfold serialized_host. rewrite Hh. by apply (fit_host_text u). }
  assert (Hport : forall n, port u = Some n -> exists s, format_decimal n = Ret s) by (intros n; by apply fit_port_text).
  assert (Hpart : exists s, serialize_path_part u = Ret s).
  { pose proof (fit_path _ Hu) as Hf. unfold path_fit in Hf. unfold serialize_path_part.
    destruct (has_an_opaque_path u); [destruct Hf as (_ & _ & p & -> & _); by eexists|].
    destruct (host u); [by eexists|]. destruct (paths u) as [|a [|b l]]; by eexists. }
  destruct (fit_path_text u Hu) as (path & Hpath & _). destruct Hpart as [part Hpart].
  unfold readable, href, dom_host, hostname, dom_port. split_and!; [| | | |by exists path|exact Horigin]; fold u.
  - unfold serialize, serialize_authority, serialize_port. rewrite Hpart. destruct (host u) as [h|] eqn:Hh; [|by eexists].
    destruct (Hhost h eq_refl) as [text ->]. cbn [res_bind].
    destruct (port u) as [n|]; [|by eexists]. destruct (Hport n eq_refl) as [digits ->]. by eexists.
  - destruct (host u) as [h|] eqn:Hh; [|by eexists]. destruct (Hhost h eq_refl) as [text Ht].
    destruct (port u) as [n|]; [|by exists text]. destruct (Hport n eq_refl) as [digits Hd]. rewrite Ht, Hd. by eexists.
  - destruct (host u) as [h|] eqn:Hh; [by apply (Hhost h)|by eexists].
  - destruct (port u); [by apply Hport|by eexists].
Qed.

End facts.

(** ** Properties *)

(** The steps a [URL] object takes; [reaches] allows every change but the one
    that makes a file URL of another by setting its scheme. *)
Inductive reaches `{LookupTables, Icu, Simdutf, FastFloat, SimdutfFromUtf8} : DOMURL -> DOMURL -> Prop :=
  | reaches_refl d : reaches d d
  | reaches_step d m d1 d2 :
      mutation_ok m -> run_mutation m d = Ret d1 -> no_new_file m d d1 -> reaches d1 d2 -> reaches d d2.

Section properties.
Context `{LookupTablesLaws, IcuLaws, SimdutfLaws, FastFloatLaws, SimdutfFromUtf8Laws}.

Lemma reaches_keeps d d' :
  reaches d d' -> dom_ok d -> strict (url_record d) -> dom_ok d' /\ strict (url_record d').
Proof.
  induction 1 as [d|d m d1 d2 Hm Hrun Hn _ IH]; intros Hd Hs; [done|].
  destruct (mutation_keeps m d Hd Hm) as (d1' & Hrun' & Hd1 & Hs1 & _). rewrite Hrun in Hrun'. injection Hrun' as <-.
  apply IH; [done|]. by apply Hs1.
Qed.

(** C12: no script can stop the process through a [URL] object. Constructing
    one, and then any sequence of calls of its setters and of the members of
    its [searchParams] with any strings, returns.  The record it leaves is
    well-formed, except that setting the scheme to "file" can leave a file URL
    with the host "localhost" or a drive letter that is not normalized; the
    parameters stay well-formed text; and every getter returns ([origin], which
    parses the path of a blob URL, if that path is shorter than 2^62 bytes). *)
Theorem dom_url_safe (url : bytes) (base : option bytes) (ms : list mutation) :
  text_ok url -> (forall b, base = Some b -> text_ok b) -> Forall mutation_ok ms ->
  exists r, construct_url url base = Ret r
    /\ forall d, r = Value d ->
         exists d', run_mutations ms d = Ret d'
           /\ url_fit (url_record d') /\ (scheme (url_record d') <> sv "file" -> url_ok (url_record d'))
           /\ Forall param_ok (query_list d') /\ readable d'.
Proof.
  intros Hurl Hbase Hms. destruct (construct_keeps url base Hurl Hbase) as (r & Hr & Hd). exists r. split; [done|].
  intros d Heq. destruct (Hd d Heq) as (Hok & _ & _). destruct (mutations_keep ms d Hms Hok) as (d' & Hrun & [Hfit Hlist] & _).
  exists d'. split; [done|]. split; [done|]. split; [intros Hfile; apply fit_url_ok; [done|]; by split; intros ?|]. split; [done|].
  apply fit_readable; [done|]. pose proof (construct_entry url base) as He. rewrite Hr in He.
  pose proof (mutations_entry ms d (He d Heq)) as Hn. by rewrite Hrun in Hn.
Qed.

(** C13: the parameters a script sees are those of the query: after every
    sequence of changes in which no string with a tab or a newline is assigned
    to [search], [searchParams] holds exactly what parsing the query of the
    record gives, whether the last change was made through the parameters,
    through [search], through [href] or through a setter of another part.
    (Tabs and newlines assigned to [search] are dropped from the query and kept
    in the parameters, see [search_with_tab].) *)
Theorem dom_url_params_synced (url : bytes) (base : option bytes) (ms : list mutation) (d d' : DOMURL) :
  text_ok url -> (forall b, base = Some b -> text_ok b) -> Forall mutation_ok ms -> Forall mutation_plain ms ->
  construct_url url base = Ret (Value d) -> run_mutations ms d = Ret d' ->
  url_decode (default [] (query (url_record d'))) = Ret (query_list d').
Proof.
  intros Hurl Hbase Hms Hplain Hc Hrun. destruct (construct_keeps url base Hurl Hbase) as (r & Hr & Hd).
  rewrite Hc in Hr. injection Hr as <-. destruct (Hd d eq_refl) as (Hok & _ & Hs).
  destruct (mutations_keep ms d Hms Hok) as (d1 & Hrun1 & _ & Hs1). rewrite Hrun in Hrun1. injection Hrun1 as <-.
  by apply Hs1.
Qed.

(** C14: [href] can be parsed again. Whatever changes an object has been
    through, short of making a file URL of it by setting the scheme, the string
    [href] returns parses to the very record the object holds, unless that
    record has an opaque path that ends in a space (which the parser would
    strip). *)
Theorem dom_url_href_parses (url : bytes) (base : option bytes) (d d' : DOMURL) (text : bytes) :
  text_ok url -> (forall b, base = Some b -> text_ok b) -> construct_url url base = Ret (Value d) -> reaches d d' ->
  no_trailing_space (url_record d') -> href d' = Ret text -> Z.of_nat (length text) < 2 ^ 62 ->
  basic_parse text None None = Ret (Some (resolved (url_record d'))).
Proof.
  intros Hurl Hbase Hc Hreach Hspace Hhref Hlen. destruct (construct_keeps url base Hurl Hbase) as (r & Hr & Hd).
  rewrite Hc in Hr. injection Hr as <-. destruct (Hd d eq_refl) as (Hok & Hs & _).
  destruct (reaches_keeps d d' Hreach Hok Hs) as [[Hfit _] Hs'].
  apply serialize_parse; try done. by apply fit_url_ok.
Qed.

End properties.

(** ** Examples *)

Lemma ascii_text_ok s :
  forallb (fun b => (0 <=? b) && (b <? 128)) s = true -> (Z.of_nat (length s) <? 2 ^ 61) = true -> text_ok s.
Proof.
  intros Hs Hl. split; [|lia]. apply well_formed_ascii. apply forallb_Forall_iff in Hs.
  eapply Forall_impl; [exact Hs|]. cbn beta. lia.
Qed.

Definition example_mutations : list mutation :=
  [SetPort (sv "8080"); ChangeParams (Append (sv "c") (sv "d e")); SetHash (sv "#top")].

Lemma example_mutations_ok : Forall mutation_ok example_mutations.
Proof.
  repeat constructor; cbn; first [by apply ascii_text_ok|apply well_formed_ascii; repeat constructor; lia].
Qed.

Lemma dom_url_safe_witness :
  exists r, construct_url (sv "http://example.com/?a=b") None = Ret r
    /\ forall d, r = Value d ->
         exists d', run_mutations example_mutations d = Ret d' /\ url_fit (url_record d')
           /\ (scheme (url_record d') <> sv "file" -> url_ok (url_record d')) /\ Forall param_ok (query_list d') /\ readable d'.
Proof. apply dom_url_safe; [by apply ascii_text_ok|done|exact example_mutations_ok]. Defined.

Lemma dom_url_params_synced_witness :
  exists d d',
    construct_url (sv "http://example.com/?a=b") None = Ret (Value d)
    /\ run_mutations example_mutations d = Ret d'
    /\ href d' = Ret (sv "http://example.com:8080/?a=b&c=d+e#top")
    /\ url_decode (default [] (query (url_record d'))) = Ret (query_list d').
Proof.
  eexists _, _. split; [vm_compute; reflexivity|]. split; [vm_compute; reflexivity|].
  split; [vm_compute; reflexivity|].
  apply (dom_url_params_synced (sv "http://example.com/?a=b") None example_mutations
    {| url_record := with_query (with_paths (with_host (with_scheme empty_url (sv "http")) (Some (HostString (sv "example.com")))) [[]]) (Some (sv "a=b"));
       query_list := [{| param_name := sv "a"; param_value := sv "b" |}] |});
    [by apply ascii_text_ok|done|exact example_mutations_ok|by repeat constructor|vm_compute; reflexivity|vm_compute; reflexivity].
Defined.

Lemma dom_url_href_parses_witness :
  exists d d',
    construct_url (sv "http://example.com/?a=b") None = Ret (Value d) /\ set_pathname d (sv "/x/../y z") = Ret d'
    /\ href d' = Ret (sv "http://example.com/y%20z?a=b")
    /\ basic_parse (sv "http://example.com/y%20z?a=b") None None = Ret (Some (resolved (url_record d'))).
Proof.
  eexists _, _. split; [vm_compute; reflexivity|]. split; [vm_compute; reflexivity|].
  split; [vm_compute; reflexivity|].
  eapply (dom_url_href_parses (sv "http://example.com/?a=b") None);
    [by apply ascii_text_ok|done|vm_compute; reflexivity| |done|vm_compute; reflexivity|vm_compute; reflexivity].
  apply reaches_step with (SetPathname (sv "/x/../y z")) (* the change *)
    {| url_record := with_query (with_paths (with_host (with_scheme empty_url (sv "http")) (Some (HostString (sv "example.com")))) [sv "y%20z"]) (Some (sv "a=b"));
       query_list := [{| param_name := sv "a"; param_value := sv "b" |}] |};
    [by apply ascii_text_ok|vm_compute; reflexivity|done|apply reaches_refl].
Defined.

(** Why [reaches] leaves one change out: making a file URL of [http://localhost/]
    gives a record that is not what its [href] parses to. *)
Example set_protocol_to_file :
  exists d d' v,
    construct_url (sv "http://localhost/") None = Ret (Value d) /\ set_protocol d (sv "file") = Ret d'
    /\ href d' = Ret (sv "file://localhost/")
    /\ basic_parse (sv "file://localhost/") None None = Ret (Some v) /\ host v <> host (url_record d').
Proof.
  eexists _, _, _. split; [vm_compute; reflexivity|]. split; [vm_compute; reflexivity|].
  split; [vm_compute; reflexivity|]. split; [vm_compute; reflexivity|]. done.
Qed.

(** Why [mutation_plain]: a tab assigned to [search] stays in the parameters. *)
Example search_with_tab :
  exists d d',
    construct_url (sv "http://example.com/") None = Ret (Value d) /\ set_search d [ch "a"; 9; ch "b"] = Ret d'
    /\ query (url_record d') = Some (sv "ab") /\ query_list d' = [{| param_name := [ch "a"; 9; ch "b"]; param_value := [] |}].
Proof.
  eexists _, _. split; [vm_compute; reflexivity|]. split; [vm_compute; reflexivity|]. by split.
Qed.
