(* ===== verification/PatternTokenizer.v ===== *)
(** * URL patterns: the tokenizer, [LibURL/Pattern/Tokenizer.{h,cpp}]

    Positions count code points of the input, which is a view of UTF-8 bytes;
    the members of the tokenizer are [size_t], the arguments of its helpers
    [u32].  The theorem says that tokenizing loses nothing: the texts of the
    tokens are the input, and each token knows where it starts. *)

From S2P Require Import Prelude CharacterTypes Utf8 MemMem Strings Tokens Wtf8.
Local Open Scope Z_scope.

(** ** Views by code points: [AK/Utf8View.cpp] *)

(** [simdutf::count_utf8] *)
Class SimdutfCount := { count_utf8 : bytes -> Z }.
Class SimdutfCountLaws `{SimdutfCount} : Prop := {
  count_utf8_scalars : forall cps, scalars cps -> count_utf8 (utf8_encode cps) = Z.of_nat (length cps)
}.

Fixpoint calculate_length_loop (fuel : nat) (string : bytes) : Z :=
  match fuel, string with
  | S fuel, b :: rest =>
      let byte_length := match decode_leading_byte b with Some (byte_length, _) => byte_length | None => 1%nat end in
      1 + calculate_length_loop fuel (drop byte_length string)
  | _, _ => 0
  end.

(** [Utf8View::length] *)
Definition utf8_length `{Simdutf, SimdutfCount} (view : bytes) : Z :=
  if validate Surrogates_Yes view then count_utf8 view else calculate_length_loop (length view) view.

(** The loop of [unicode_substring_view]; [it] is the iterator. *)
Fixpoint unicode_substring_loop (fuel : nat) (view it : bytes) (code_point_index offset_in_bytes code_point_offset code_point_length : Z)
  : res bytes :=
  match fuel with
  | O => Crash
  | S fuel =>
      if iterator_done it then Crash
      else
        let byte_offset_of (it : bytes) := Z.of_nat (length view - length it) in
        let offset_in_bytes := if code_point_index =? code_point_offset then byte_offset_of it else offset_in_bytes in
        if code_point_index =? size_t (code_point_offset + code_point_length - 1) then
          let* it := iterator_incr it in
          let length_in_bytes := byte_offset_of it - offset_in_bytes in
          substring_view view (Z.to_nat offset_in_bytes) (Z.to_nat length_in_bytes)
        else
          let* it := iterator_incr it in
          unicode_substring_loop fuel view it (code_point_index + 1) offset_in_bytes code_point_offset code_point_length
  end.

Definition unicode_substring_view (view : bytes) (code_point_offset code_point_length : Z) : res bytes :=
  if code_point_length =? 0 then Ret []
  else unicode_substring_loop (S (length view)) view view 0 0 code_point_offset code_point_length.

Definition unicode_substring_view_from `{Simdutf, SimdutfCount} (view : bytes) (code_point_offset : Z) : res bytes :=
  unicode_substring_view view code_point_offset (size_t (utf8_length view - code_point_offset)).

(** ** Errors: [PatternError.h] *)

Definition ErrorInfo := bytes.
Definition PatternErrorOr (A : Type) := (ErrorInfo + A)%type.

(** [TRY] *)
Notation "'try*' x ':=' e 'in' k" :=
  (res_bind e (fun r => match r with inl error => Ret (inl error) | inr x => k end))
  (at level 10, x pattern, e at level 200, k at level 200) : ak_scope.

(** ** Tokens *)

Inductive TokenType :=
| Tok_Open | Tok_Close | Tok_Regexp | Tok_Name | Tok_Char | Tok_EscapedChar
| Tok_OtherModifier | Tok_Asterisk | Tok_End | Tok_InvalidChar.

#[export] Instance TokenType_eq_dec : EqDecision TokenType.
Proof. solve_decision. Defined.

(** [Token::type_to_string] *)
Definition token_type_to_string (type : TokenType) : bytes :=
  match type with
  | Tok_Open => sv "Open" | Tok_Close => sv "Close" | Tok_Regexp => sv "Regexp" | Tok_Name => sv "Name"
  | Tok_Char => sv "Char" | Tok_EscapedChar => sv "EscapedChar" | Tok_OtherModifier => sv "OtherModifier"
  | Tok_Asterisk => sv "Asterisk" | Tok_End => sv "End" | Tok_InvalidChar => sv "InvalidChar"
  end.

Record Token := { token_type : TokenType; token_index : Z; token_value : bytes }.

Inductive Policy := Strict | Lenient.

(** ** The tokenizer *)

(** The properties of code points are ICU's. *)
Class IcuIdentifiers := { u_isIDStart : Z -> bool; u_isIDPart : Z -> bool }.

Record Tokenizer := {
  tk_input : bytes;
  tk_policy : Policy;
  tk_token_list : list Token;
  tk_index : Z;
  tk_next_index : Z;
  tk_code_point : Z
}.

Section tokenizer.
Context `{Simdutf, SimdutfCount, IcuIdentifiers}.

Definition is_a_valid_name_code_point (code_point : Z) (first : bool) : bool :=
  if first then (code_point =? ch "$") || (code_point =? ch "_") || u_isIDStart code_point
  else (code_point =? ch "$") || u_isIDPart code_point.

Definition with_next_index (t : Tokenizer) (next_index : Z) : Tokenizer :=
  {| tk_input := tk_input t; tk_policy := tk_policy t; tk_token_list := tk_token_list t; tk_index := tk_index t;
     tk_next_index := next_index; tk_code_point := tk_code_point t |}.

Definition get_the_next_code_point (t : Tokenizer) : res Tokenizer :=
  let* view := unicode_substring_view (tk_input t) (tk_next_index t) 1 in
  let* code_point := iterator_deref view in
  Ret {| tk_input := tk_input t; tk_policy := tk_policy t; tk_token_list := tk_token_list t; tk_index := tk_index t;
         tk_next_index := size_t (tk_next_index t + 1); tk_code_point := code_point |}.

Definition seek_and_get_the_next_code_point (t : Tokenizer) (index : Z) : res Tokenizer :=
  get_the_next_code_point (with_next_index t (u32 index)).

Definition add_a_token (t : Tokenizer) (type : TokenType) (next_position value_position value_length : Z) : res Tokenizer :=
  let next_position := u32 next_position in
  let* view := unicode_substring_view (tk_input t) (u32 value_position) (u32 value_length) in
  let* value := must_from_utf8 view in
  let token := {| token_type := type; token_index := u32 (tk_index t); token_value := value |} in
  Ret {| tk_input := tk_input t; tk_policy := tk_policy t; tk_token_list := tk_token_list t ++ [token]; tk_index := next_position;
         tk_next_index := tk_next_index t; tk_code_point := tk_code_point t |}.

Definition add_a_token_with_default_length (t : Tokenizer) (type : TokenType) (next_position value_position : Z) : res Tokenizer :=
  let computed_length := u32 (u32 next_position - u32 value_position) in
  add_a_token t type next_position value_position computed_length.

Definition add_a_token_with_default_position_and_length (t : Tokenizer) (type : TokenType) : res Tokenizer :=
  add_a_token_with_default_length t type (tk_next_index t) (tk_index t).

Definition process_a_tokenizing_error (t : Tokenizer) (next_position value_position : Z) : res (PatternErrorOr Tokenizer) :=
  match tk_policy t with
  | Strict => Ret (inl (sv "Error processing a token"))
  | Lenient =>
      let* t := add_a_token_with_default_length t Tok_InvalidChar next_position value_position in
      Ret (inr t)
  end.

(** The loop over a name: the tokenizer and the name position *)
Fixpoint name_loop (fuel : nat) (t : Tokenizer) (name_position name_start : Z) : res (Tokenizer * Z) :=
  match fuel with
  | O => Crash
  | S fuel =>
      if name_position <? utf8_length (tk_input t) then
        let* t := seek_and_get_the_next_code_point t name_position in
        let first_code_point := name_position =? name_start in
        if negb (is_a_valid_name_code_point (tk_code_point t) first_code_point) then Ret (t, name_position)
        else name_loop fuel t (tk_next_index t) name_start
      else Ret (t, name_position)
  end.

(** The loop over a regular expression: the tokenizer, and the position and the
    depth unless there was an error *)
Fixpoint regexp_loop (fuel : nat) (t : Tokenizer) (regexp_position regexp_start depth : Z)
  : res (PatternErrorOr (Tokenizer * option (Z * Z))) :=
  let tokenizing_error (t : Tokenizer) :=
    try* t := process_a_tokenizing_error t regexp_start (tk_index t) in Ret (inr (t, None)) in
  match fuel with
  | O => Crash
  | S fuel =>
      if regexp_position <? utf8_length (tk_input t) then
        let* t := seek_and_get_the_next_code_point t regexp_position in
        if negb (is_ascii (tk_code_point t)) then tokenizing_error t
        else if (regexp_position =? regexp_start) && (tk_code_point t =? ch "?") then tokenizing_error t
        else if tk_code_point t =? 92 then
          if regexp_position =? utf8_length (tk_input t) - 1 then tokenizing_error t
          else
            let* t := get_the_next_code_point t in
            if negb (is_ascii (tk_code_point t)) then tokenizing_error t
            else regexp_loop fuel t (tk_next_index t) regexp_start depth
        else if tk_code_point t =? ch ")" then
          let depth := u32 (depth - 1) in
          if depth =? 0 then Ret (inr (t, Some (tk_next_index t, depth)))
          else regexp_loop fuel t (tk_next_index t) regexp_start depth
        else if tk_code_point t =? ch "(" then
          let depth := u32 (depth + 1) in
          if regexp_position =? utf8_length (tk_input t) - 1 then tokenizing_error t
          else
            let temporary_position := tk_next_index t in
            let* t := get_the_next_code_point t in
            if negb (tk_code_point t =? ch "?") then tokenizing_error t
            else regexp_loop fuel (with_next_index t temporary_position) temporary_position regexp_start depth
        else regexp_loop fuel t (tk_next_index t) regexp_start depth
      else Ret (inr (t, Some (regexp_position, depth)))
  end.

(** The case of an opening parenthesis *)
Definition tokenize_regexp (t : Tokenizer) : res (PatternErrorOr Tokenizer) :=
  let regexp_start := tk_next_index t in
  try* (t, result) := regexp_loop (S (length (tk_input t))) t regexp_start regexp_start 1 in
  match result with
  | None => Ret (inr t)
  | Some (regexp_position, depth) =>
      if negb (depth =? 0) then process_a_tokenizing_error t regexp_start (tk_index t)
      else
        let regexp_length := size_t (regexp_position - regexp_start - 1) in
        if regexp_length =? 0 then process_a_tokenizing_error t regexp_start (tk_index t)
        else
          let* t := add_a_token t Tok_Regexp regexp_position regexp_start regexp_length in
          Ret (inr t)
  end.

(** The case of a colon *)
Definition tokenize_name (t : Tokenizer) : res (PatternErrorOr Tokenizer) :=
  let name_start := tk_next_index t in
  let* (t, name_position) := name_loop (S (length (tk_input t))) t name_start name_start in
  if name_position <=? name_start then process_a_tokenizing_error t name_start (tk_index t)
  else
    let* t := add_a_token_with_default_length t Tok_Name name_position name_start in
    Ret (inr t).

(** The body of the loop of [tokenize] *)
Definition tokenize_step (t : Tokenizer) : res (PatternErrorOr Tokenizer) :=
  let default_token (t : Tokenizer) (type : TokenType) :=
    let* t := add_a_token_with_default_position_and_length t type in Ret (inr t) in
  let* t := seek_and_get_the_next_code_point t (tk_index t) in
  if tk_code_point t =? ch "*" then default_token t Tok_Asterisk
  else if (tk_code_point t =? ch "+") || (tk_code_point t =? ch "?") then default_token t Tok_OtherModifier
  else if tk_code_point t =? 92 then
    if tk_index t =? utf8_length (tk_input t) - 1 then process_a_tokenizing_error t (tk_next_index t) (tk_index t)
    else
      let escaped_index := tk_next_index t in
      let* t := get_the_next_code_point t in
      let* t := add_a_token_with_default_length t Tok_EscapedChar (tk_next_index t) escaped_index in
      Ret (inr t)
  else if tk_code_point t =? ch "{" then default_token t Tok_Open
  else if tk_code_point t =? ch "}" then default_token t Tok_Close
  else if tk_code_point t =? ch ":" then tokenize_name t
  else if tk_code_point t =? ch "(" then tokenize_regexp t
  else default_token t Tok_Char.

Fixpoint tokenize_loop (fuel : nat) (t : Tokenizer) : res (PatternErrorOr Tokenizer) :=
  match fuel with
  | O => Crash
  | S fuel =>
      if tk_index t <? utf8_length (tk_input t) then
        try* t := tokenize_step t in
        tokenize_loop fuel t
      else Ret (inr t)
  end.

(** [Tokenizer::tokenize] *)
Definition tokenize (input : bytes) (policy : Policy) : res (PatternErrorOr (list Token)) :=
  verify (validate Surrogates_Yes input)
    (let t := {| tk_input := input; tk_policy := policy; tk_token_list := []; tk_index := 0; tk_next_index := 0; tk_code_point := 0 |} in
     try* t := tokenize_loop (S (length input)) t in
     let* t := add_a_token_with_default_length t Tok_End (tk_index t) (tk_index t) in
     Ret (inr (tk_token_list t))).

End tokenizer.

(** ** Facts: views by code points *)

Lemma scalar_range c : 0 <= c /\ is_unicode_scalar_value c = true -> 0 <= c <= 0x10FFFF.
Proof. intros Hc. assert (Hs : scalars [c]) by by constructor. apply scalars_range in Hs. by apply Forall_cons in Hs as [Hs _]. Qed.

Lemma scalars_one c : 0 <= c /\ is_unicode_scalar_value c = true -> scalars [c].
Proof. intros Hc. by constructor. Qed.

Lemma encode_cons_iterator cp cps :
  0 <= cp <= 0x10FFFF ->
  iterator_done (utf8_encode (cp :: cps)) = false /\ iterator_deref (utf8_encode (cp :: cps)) = Ret cp
  /\ iterator_incr (utf8_encode (cp :: cps)) = Ret (utf8_encode cps).
Proof.
  intros Hcp. rewrite utf8_encode_cons by done. destruct (decode_encoded cp (utf8_encode cps) Hcp) as (b & tl & -> & Hd & Hi & _).
  cbn [iterator_done iterator_deref iterator_incr]. by rewrite Hd, Hi.
Qed.

Lemma encode_length cps : scalars cps -> (length cps <= length (utf8_encode cps))%nat.
Proof.
  induction 1 as [|x cps Hx Hs IH]; [done|]. rewrite utf8_encode_cons by by apply scalar_range.
  rewrite length_app. pose proof (encoded_nonempty x). destruct (encoded x); [done|]. cbn [length]. lia.
Qed.

Lemma encoded_split cps o n :
  utf8_encode cps = utf8_encode (take o cps) ++ utf8_encode (take n (drop o cps)) ++ utf8_encode (drop n (drop o cps)).
Proof. by rewrite <- !utf8_encode_app, take_drop, take_drop. Qed.

Lemma substring_encoded cps o n :
  substring_view (utf8_encode cps) (length (utf8_encode (take o cps))) (length (utf8_encode (take n (drop o cps))))
  = Ret (utf8_encode (take n (drop o cps))).
Proof.
  rewrite (encoded_split cps o n). unfold substring_view. rewrite !length_app, (proj2 (Nat.leb_le _ _)) by lia. cbn [verify].
  by rewrite drop_app_length, take_app_length.
Qed.

Lemma substring_loop_spec fuel : forall cps pre rest (o n : nat) offset_in_bytes,
  scalars cps -> cps = pre ++ rest -> (length rest < fuel)%nat -> (1 <= n)%nat -> (o + n <= length cps)%nat ->
  Z.of_nat (o + n) <= 2 ^ 64 -> (length pre < o + n)%nat ->
  ((o < length pre)%nat -> offset_in_bytes = Z.of_nat (length (utf8_encode (take o cps)))) ->
  unicode_substring_loop fuel (utf8_encode cps) (utf8_encode rest) (Z.of_nat (length pre)) offset_in_bytes (Z.of_nat o) (Z.of_nat n)
  = Ret (utf8_encode (take n (drop o cps))).
Proof.
  induction fuel as [|fuel IH]; intros cps pre rest o n ob Hs E Hf Hn Hon Hlen Hpre Hob; [lia|]. cbn [unicode_substring_loop].
  destruct rest as [|x rest]; [rewrite E, length_app in Hon; cbn in Hon; lia|].
  assert (Hx : 0 <= x <= 0x10FFFF). { rewrite E in Hs. apply Forall_app in Hs as [_ [Hx _]%Forall_cons]. by apply scalar_range. }
  destruct (encode_cons_iterator x rest Hx) as (-> & _ & ->). cbn [res_bind]. cbv zeta.
  assert (Hsplit : utf8_encode cps = utf8_encode pre ++ utf8_encode (x :: rest)) by by rewrite E, utf8_encode_app.
  assert (Hoff : (length (utf8_encode cps) - length (utf8_encode (x :: rest)) = length (utf8_encode pre))%nat) by (rewrite Hsplit, length_app; lia).
  rewrite Hoff. set (ob' := if _ =? _ then _ else ob).
  assert (Hob' : (o <= length pre)%nat -> ob' = Z.of_nat (length (utf8_encode (take o cps)))).
  { intros Hle. unfold ob'. destruct (Z.eqb_spec (Z.of_nat (length pre)) (Z.of_nat o)) as [Heq|Hne]; [|apply Hob; lia].
    replace (take o cps) with pre; [done|]. by rewrite E, take_app_length' by lia. }
  unfold size_t. rewrite Z.mod_small by lia. cbn [length] in Hf.
  destruct (Z.eqb_spec (Z.of_nat (length pre)) (Z.of_nat o + Z.of_nat n - 1)) as [Heq|Hne].
  - rewrite Hob' by lia. rewrite !Nat2Z.id.
    assert (Hend : (length (utf8_encode cps) - length (utf8_encode rest)
      = length (utf8_encode (take o cps)) + length (utf8_encode (take n (drop o cps))))%nat).
    { rewrite (encoded_split cps o n). replace rest with (drop n (drop o cps)); [rewrite !length_app; lia|].
      rewrite drop_drop, E, cons_middle, app_assoc. apply drop_app_length'. rewrite length_app. cbn. lia. }
    rewrite Hend. replace (Z.to_nat _) with (length (utf8_encode (take n (drop o cps)))) by lia. apply substring_encoded.
  - replace (Z.of_nat (length pre) + 1) with (Z.of_nat (length (pre ++ [x]))) by (rewrite length_app; cbn; lia).
    apply IH; try done; [by rewrite <- app_assoc|lia|rewrite length_app; cbn; lia|rewrite length_app; cbn; intros; apply Hob'; lia].
Qed.

Lemma unicode_substring_encoded cps (o n : nat) :
  scalars cps -> Z.of_nat (o + n) <= 2 ^ 64 -> (o + n <= length cps)%nat ->
  unicode_substring_view (utf8_encode cps) (Z.of_nat o) (Z.of_nat n) = Ret (utf8_encode (take n (drop o cps))).
Proof.
  intros Hs Hlen Hon. unfold unicode_substring_view. destruct (Z.eqb_spec (Z.of_nat n) 0) as [Hz|Hz].
  { by replace n with O by lia. }
  apply (substring_loop_spec _ cps [] cps o n 0 Hs eq_refl); [|lia|lia|lia|cbn; lia|cbn; lia].
  apply encode_length in Hs. lia.
Qed.

Lemma encode_wf cps : scalars cps -> well_formed_utf8 (utf8_encode cps).
Proof. intros Hs. by exists cps. Qed.

Section facts.
Context `{SimdutfLaws, SimdutfCountLaws, IcuIdentifiers}.

Lemma utf8_length_encoded cps : scalars cps -> utf8_length (utf8_encode cps) = Z.of_nat (length cps).
Proof.
  intros Hs. unfold utf8_length. rewrite validate_well_formed by by apply encode_wf. by apply count_utf8_scalars.
Qed.

(** ** A reference lexer on code points *)

(** The number of code points of a name *)
Fixpoint name_length (first : bool) (rest : list Z) : nat :=
  match rest with
  | c :: rest => if is_a_valid_name_code_point c first then S (name_length false rest) else O
  | [] => O
  end.

(** The code points of a regular expression up to its closing parenthesis, with
    the parenthesis; [None] if it is not one *)
Fixpoint regexp_scan (first : bool) (depth : nat) (rest : list Z) : option nat :=
  match rest with
  | [] => None
  | c :: rest =>
      if negb (is_ascii c) || (first && (c =? ch "?")) then None
      else if c =? 92 then
        match rest with
        | d :: rest => if is_ascii d then (fun n => S (S n)) <$> regexp_scan false depth rest else None
        | [] => None
        end
      else if c =? ch ")" then
        match depth with
        | S (S depth) => S <$> regexp_scan false (S depth) rest
        | _ => Some 1%nat
        end
      else if c =? ch "(" then
        match rest with
        | d :: _ => if d =? ch "?" then S <$> regexp_scan false (S depth) rest else None
        | [] => None
        end
      else S <$> regexp_scan false depth rest
  end.

(** The type of the first token, the offset and the length of its value and the
    number of code points it takes; [None] for an error *)
Definition lex_one (rest : list Z) : option (TokenType * nat * nat * nat) :=
  match rest with
  | [] => None
  | c :: rest =>
      if c =? ch "*" then Some (Tok_Asterisk, 0, 1, 1)%nat
      else if (c =? ch "+") || (c =? ch "?") then Some (Tok_OtherModifier, 0, 1, 1)%nat
      else if c =? 92 then match rest with [] => None | _ => Some (Tok_EscapedChar, 1, 1, 2)%nat end
      else if c =? ch "{" then Some (Tok_Open, 0, 1, 1)%nat
      else if c =? ch "}" then Some (Tok_Close, 0, 1, 1)%nat
      else if c =? ch ":" then
        match name_length true rest with O => None | S n => Some (Tok_Name, 1, S n, S (S n))%nat end
      else if c =? ch "(" then
        match regexp_scan true 1 rest with Some (S (S n)) => Some (Tok_Regexp, 1, S n, S (S (S n)))%nat | _ => None end
      else Some (Tok_Char, 0, 1, 1)%nat
  end.

(** The tokens of the text, without the one for its end *)
Fixpoint lex_all (fuel : nat) (policy : Policy) (index : nat) (rest : list Z) : option (list Token) :=
  match fuel, rest with
  | _, [] => Some []
  | O, _ => None
  | S fuel, _ =>
      match lex_one rest, policy with
      | Some (type, v, n, k), _ =>
          cons {| token_type := type; token_index := Z.of_nat index; token_value := utf8_encode (take n (drop v rest)) |}
            <$> lex_all fuel policy (index + k) (drop k rest)
      | None, Lenient =>
          cons {| token_type := Tok_InvalidChar; token_index := Z.of_nat index; token_value := utf8_encode (take 1 rest) |}
            <$> lex_all fuel policy (index + 1) (drop 1 rest)
      | None, Strict => None
      end
  end.

Definition end_token (cps : list Z) : Token :=
  {| token_type := Tok_End; token_index := Z.of_nat (length cps); token_value := [] |}.

Definition reference_tokenize (policy : Policy) (cps : list Z) : PatternErrorOr (list Token) :=
  match lex_all (length cps) policy 0 cps with
  | Some tokens => inr (tokens ++ [end_token cps])
  | None => inl (sv "Error processing a token")
  end.

Lemma regexp_scan_bounds rest : forall first depth n, regexp_scan first depth rest = Some n -> (1 <= n <= length rest)%nat.
Proof.
  induction rest as [rest IH] using list_length_ind. intros first depth n. destruct rest as [|c rest]; [done|]. cbn [regexp_scan].
  assert (Hsub : forall f d m (r : list Z), (length r < length (c :: rest))%nat -> regexp_scan f d r = Some m -> (1 <= m <= length r)%nat)
    by (intros f d m r Hr; by apply IH).
  destruct (_ || _); [done|]. cbn [length] in *. destruct (c =? 92).
  { destruct rest as [|d rest]; [done|]. destruct (is_ascii d); [|done]. cbn [length] in *.
    destruct (regexp_scan false depth rest) as [m|] eqn:E; [|done]. apply Hsub in E; [|lia]. intros [= <-]. lia. }
  destruct (c =? ch ")").
  { destruct depth as [|[|depth]]; [intros [= <-]; lia..|].
    destruct (regexp_scan false (S depth) rest) as [m|] eqn:E; [|done]. apply Hsub in E; [|lia]. intros [= <-]. lia. }
  destruct (c =? ch "(").
  { destruct rest as [|d rest]; [done|]. destruct (d =? ch "?"); [|done].
    destruct (regexp_scan false (S depth) (d :: rest)) as [m|] eqn:E; [|done]. apply Hsub in E; [|cbn; lia]. intros [= <-]. lia. }
  destruct (regexp_scan false depth rest) as [m|] eqn:E; [|done]. apply Hsub in E; [|lia]. intros [= <-]. lia.
Qed.

Lemma name_length_bound first rest : (name_length first rest <= length rest)%nat.
Proof.
  revert first. induction rest as [|c rest IH]; intros first; [done|]. cbn [name_length].
  destruct (is_a_valid_name_code_point c first); [|cbn; lia]. specialize (IH false). cbn. lia.
Qed.

Lemma lex_one_bounds rest type v n k : lex_one rest = Some (type, v, n, k) -> (v + n <= k /\ 1 <= k <= length rest)%nat.
Proof.
  unfold lex_one. destruct rest as [|c rest]; [done|]. cbn [length].
  destruct (c =? ch "*"); [intros [= <- <- <- <-]; lia|]. destruct (_ || _); [intros [= <- <- <- <-]; lia|].
  destruct (c =? 92); [destruct rest; [done|]; intros [= <- <- <- <-]; cbn; lia|].
  destruct (c =? ch "{"); [intros [= <- <- <- <-]; lia|]. destruct (c =? ch "}"); [intros [= <- <- <- <-]; lia|].
  destruct (c =? ch ":").
  { pose proof (name_length_bound true rest). destruct (name_length true rest); [done|]. intros [= <- <- <- <-]. lia. }
  destruct (c =? ch "("); [|intros [= <- <- <- <-]; lia].
  destruct (regexp_scan true 1 rest) as [[|[|m]]|] eqn:E; try done. apply regexp_scan_bounds in E. intros [= <- <- <- <-]. lia.
Qed.

Lemma lex_all_fuel policy fuel1 : forall fuel2 index rest, (length rest <= fuel1)%nat -> (length rest <= fuel2)%nat ->
  lex_all fuel1 policy index rest = lex_all fuel2 policy index rest.
Proof.
  induction fuel1 as [|fuel1 IH]; intros fuel2 index rest Hf1 Hf2; (destruct rest as [|c rest]; [by destruct fuel2|]); [cbn in Hf1; lia|].
  destruct fuel2 as [|fuel2]; [cbn in Hf2; lia|]. cbn [lex_all]. cbn [length] in *.
  destruct (lex_one (c :: rest)) as [[[[type v] n] k]|] eqn:El.
  - apply lex_one_bounds in El as [_ Hk]. rewrite (IH fuel2); [done|rewrite length_drop; cbn [length] in *; lia..].
  - destruct policy; [done|]. rewrite (IH fuel2); [done|rewrite length_drop; cbn [length]; lia..].
Qed.

(** ** Facts: the steps of the tokenizer *)

(** The tokenizer over the encoding of [cps] *)
Definition tokenizer_at (cps : list Z) (policy : Policy) (tokens : list Token) (index next_index : nat) (code_point : Z) : Tokenizer :=
  {| tk_input := utf8_encode cps; tk_policy := policy; tk_token_list := tokens; tk_index := Z.of_nat index;
     tk_next_index := Z.of_nat next_index; tk_code_point := code_point |}.

Section steps.
Variables (cps : list Z) (policy : Policy).
Hypothesis Hcps : scalars cps.
Hypothesis Hsize : Z.of_nat (length cps) < 2 ^ 32.

Lemma get_spec tokens i next cp c : cps !! next = Some c ->
  get_the_next_code_point (tokenizer_at cps policy tokens i next cp) = Ret (tokenizer_at cps policy tokens i (S next) c).
Proof.
  intros Hc. pose proof (lookup_lt_Some _ _ _ Hc). unfold get_the_next_code_point. cbn [tk_input tk_next_index tokenizer_at].
  change 1 with (Z.of_nat 1) at 1. rewrite (unicode_substring_encoded cps next 1) by (try done; lia). cbn [res_bind].
  rewrite (drop_S _ _ _ Hc). cbn [take]. rewrite take_0. rewrite Forall_forall in Hcps.
  destruct (encode_cons_iterator c []) as (_ & -> & _); [apply scalar_range, Hcps; by eapply list_elem_of_lookup_2|]. cbn [res_bind].
  unfold size_t. rewrite Z.mod_small by lia. unfold tokenizer_at. cbn. do 2 f_equal. lia.
Qed.

Lemma seek_spec tokens i next cp k c : cps !! k = Some c ->
  seek_and_get_the_next_code_point (tokenizer_at cps policy tokens i next cp) (Z.of_nat k) = Ret (tokenizer_at cps policy tokens i (S k) c).
Proof.
  intros Hc. pose proof (lookup_lt_Some _ _ _ Hc). unfold seek_and_get_the_next_code_point. rewrite u32_id by lia.
  by apply (get_spec tokens i k cp).
Qed.

Definition slice (v n : nat) : bytes := utf8_encode (take n (drop v cps)).

Lemma add_spec tokens i next cp type (k v n : nat) :
  (k <= length cps)%nat -> (v + n <= length cps)%nat -> (i <= length cps)%nat ->
  add_a_token (tokenizer_at cps policy tokens i next cp) type (Z.of_nat k) (Z.of_nat v) (Z.of_nat n)
  = Ret (tokenizer_at cps policy (tokens ++ [{| token_type := type; token_index := Z.of_nat i; token_value := slice v n |}]) k next cp).
Proof.
  intros Hk Hv Hi. unfold add_a_token. cbv zeta. cbn [tk_input tk_index tokenizer_at]. rewrite !u32_id by lia.
  rewrite unicode_substring_encoded by (try done; lia). cbn [res_bind]. rewrite must_from_utf8_wtf8; [done|].
  apply well_formed_wtf8, encode_wf. by apply Forall_take, Forall_drop.
Qed.

Lemma add_default_spec tokens i next cp type (k v : nat) :
  (v <= k <= length cps)%nat -> (i <= length cps)%nat ->
  add_a_token_with_default_length (tokenizer_at cps policy tokens i next cp) type (Z.of_nat k) (Z.of_nat v)
  = Ret (tokenizer_at cps policy (tokens ++ [{| token_type := type; token_index := Z.of_nat i; token_value := slice v (k - v) |}]) k next cp).
Proof.
  intros Hk Hi. unfold add_a_token_with_default_length. cbv zeta. rewrite !u32_id by (rewrite ?u32_id; lia).
  rewrite <- Nat2Z.inj_sub by lia. apply add_spec; lia.
Qed.

Lemma error_spec tokens i next cp (k : nat) :
  (i <= k <= length cps)%nat ->
  process_a_tokenizing_error (tokenizer_at cps policy tokens i next cp) (Z.of_nat k) (Z.of_nat i)
  = match policy with
    | Strict => Ret (inl (sv "Error processing a token"))
    | Lenient => Ret (inr (tokenizer_at cps policy
        (tokens ++ [{| token_type := Tok_InvalidChar; token_index := Z.of_nat i; token_value := slice i (k - i) |}]) k next cp))
    end.
Proof.
  intros Hk. unfold process_a_tokenizing_error. cbn [tk_policy tokenizer_at].
  destruct policy eqn:E; [done|]. rewrite <- E, add_default_spec by lia. done.
Qed.

(** ** The tokenizer is the reference lexer *)

Lemma code_point_at tokens i next cp : tk_code_point (tokenizer_at cps policy tokens i next cp) = cp.
Proof. done. Qed.

Lemma next_index_at tokens i next cp : tk_next_index (tokenizer_at cps policy tokens i next cp) = Z.of_nat next.
Proof. done. Qed.

Lemma index_at tokens i next cp : tk_index (tokenizer_at cps policy tokens i next cp) = Z.of_nat i.
Proof. done. Qed.

Lemma drop_cons_inv k c rest : drop k cps = c :: rest -> cps !! k = Some c /\ (k < length cps)%nat /\ drop (S k) cps = rest.
Proof.
  intros E. assert (Hc : cps !! k = Some c) by by rewrite <- (Nat.add_0_r k), <- lookup_drop, E.
  split; [done|]. split; [by eapply lookup_lt_Some|]. rewrite (drop_S _ _ _ Hc) in E. by injection E.
Qed.

Lemma drop_nil_inv k : drop k cps = [] -> (length cps <= k)%nat.
Proof. intros E. apply (f_equal length) in E. rewrite length_drop in E. cbn in E. lia. Qed.

Lemma length_input tokens i next cp : utf8_length (tk_input (tokenizer_at cps policy tokens i next cp)) = Z.of_nat (length cps).
Proof. by apply utf8_length_encoded. Qed.

Lemma name_loop_spec fuel : forall tokens i next cp (pos start : nat),
  (start <= pos)%nat -> (length cps - pos < fuel)%nat ->
  exists next' cp', name_loop fuel (tokenizer_at cps policy tokens i next cp) (Z.of_nat pos) (Z.of_nat start)
    = Ret (tokenizer_at cps policy tokens i next' cp', Z.of_nat (pos + name_length (Nat.eqb pos start) (drop pos cps))).
Proof.
  induction fuel as [|fuel IH]; intros tokens i next cp pos start Hle Hf; [lia|]. cbn [name_loop]. rewrite length_input.
  destruct (drop pos cps) as [|c rest] eqn:E.
  { apply drop_nil_inv in E. rewrite (proj2 (Z.ltb_ge _ _)) by lia. cbn [name_length]. rewrite Nat.add_0_r. by eexists _, _. }
  apply drop_cons_inv in E as (Hc & Hlt & E). rewrite (proj2 (Z.ltb_lt _ _)) by lia. rewrite (seek_spec tokens i next cp pos c) by done.
  cbn [res_bind name_length]. rewrite code_point_at, next_index_at.
  replace (Z.of_nat pos =? Z.of_nat start) with (Nat.eqb pos start) by (destruct (Nat.eqb_spec pos start); lia).
  destruct (is_a_valid_name_code_point c _); cbn [negb]; [|rewrite Nat.add_0_r; by eexists _, _].
  destruct (IH tokens i (S pos) c (S pos) start) as (next' & cp' & ->); [lia..|]. rewrite E.
  replace (Nat.eqb (S pos) start) with false by (symmetry; apply Nat.eqb_neq; lia). eexists _, _. do 3 f_equal. lia.
Qed.

(** What [regexp_loop] returns for the result of the scan *)
Definition loop_result (tokens : list Token) (i start pos : nat) (scanned : option nat)
    (r : res (PatternErrorOr (Tokenizer * option (Z * Z)))) : Prop :=
  match scanned with
  | Some n => exists next cp, r = Ret (inr (tokenizer_at cps policy tokens i next cp, Some (Z.of_nat (pos + n), 0)))
  | None =>
      exists next cp,
        r = match process_a_tokenizing_error (tokenizer_at cps policy tokens i next cp) (Z.of_nat start) (Z.of_nat i) with
            | Ret (inr t) => Ret (inr (t, None))
            | Ret (inl error) => Ret (inl error)
            | Crash => Crash
            end
        \/ exists p depth, r = Ret (inr (tokenizer_at cps policy tokens i next cp, Some (p, depth))) /\ depth <> 0
  end.

Lemma loop_result_shift tokens i start pos k scanned r :
  loop_result tokens i start (pos + k) scanned r -> loop_result tokens i start pos ((fun n => (k + n)%nat) <$> scanned) r.
Proof. destruct scanned as [n|]; cbn [loop_result fmap option_fmap option_map]; [|done]. by rewrite Nat.add_assoc. Qed.

Lemma loop_result_error tokens i start pos next cp :
  loop_result tokens i start pos None
    (try* t := process_a_tokenizing_error (tokenizer_at cps policy tokens i next cp) (Z.of_nat start) (Z.of_nat i) in Ret (inr (t, None))).
Proof. exists next, cp. left. unfold res_bind. by repeat break_match. Qed.

Lemma with_next_at tokens i next cp k :
  with_next_index (tokenizer_at cps policy tokens i next cp) (Z.of_nat k) = tokenizer_at cps policy tokens i k cp.
Proof. done. Qed.

Lemma regexp_loop_spec fuel : forall tokens i next cp (pos start depth : nat),
  (1 <= start <= pos)%nat -> (1 <= depth)%nat -> (depth <= 1 + pos - start)%nat -> (length cps - pos < fuel)%nat ->
  loop_result tokens i start pos (regexp_scan (Nat.eqb pos start) depth (drop pos cps))
    (regexp_loop fuel (tokenizer_at cps policy tokens i next cp) (Z.of_nat pos) (Z.of_nat start) (Z.of_nat depth)).
Proof.
  induction fuel as [|fuel IH]; intros tokens i next cp pos start depth Hle Hd Hdp Hf; [lia|]. cbn [regexp_loop]. rewrite length_input.
  destruct (drop pos cps) as [|c rest] eqn:E.
  { apply drop_nil_inv in E. rewrite (proj2 (Z.ltb_ge _ _)) by lia. cbn [regexp_scan]. exists next, cp. right. eexists _, _. split; [done|lia]. }
  apply drop_cons_inv in E as (Hc & Hlt & E). rewrite (proj2 (Z.ltb_lt _ _)) by lia. rewrite (seek_spec tokens i next cp pos c) by done.
  cbn [res_bind]. cbv zeta. rewrite length_input, !code_point_at, !next_index_at, !index_at. cbn [regexp_scan].
  replace (Z.of_nat pos =? Z.of_nat start) with (Nat.eqb pos start) by (destruct (Nat.eqb_spec pos start); lia).
  assert (Hnext : forall k, (1 <= k)%nat -> Nat.eqb (pos + k) start = false) by (intros k Hk; apply Nat.eqb_neq; lia).
  assert (Hstep : forall d next' cp' (k : nat), (1 <= k <= 2)%nat -> (1 <= d)%nat -> (d <= 1 + pos + k - start)%nat ->
    loop_result tokens i start pos ((fun n => (k + n)%nat) <$> regexp_scan false d (drop (pos + k) cps))
      (regexp_loop fuel (tokenizer_at cps policy tokens i next' cp') (Z.of_nat (pos + k)) (Z.of_nat start) (Z.of_nat d))).
  { intros d next' cp' k Hk Hd1 Hd2. apply loop_result_shift. rewrite <- (Hnext k) by lia. apply IH; lia. }
  assert (Hlast : forall r, drop (S pos) cps = r -> (Z.of_nat pos =? Z.of_nat (length cps) - 1) = match r with [] => true | _ => false end).
  { intros r Er. destruct r as [|d r]; [apply drop_nil_inv in Er|apply drop_cons_inv in Er as (_ & ? & _)]; lia. }
  assert (Esucc : drop (pos + 1) cps = rest) by (by replace (pos + 1)%nat with (S pos) by lia).
  destruct (is_ascii c); cbn [negb orb]; [|apply loop_result_error].
  destruct (_ && _); [apply loop_result_error|]. destruct (Z.eqb_spec c 92) as [->|_].
  { rewrite (Hlast rest E). destruct rest as [|d rest]; [apply loop_result_error|]. apply drop_cons_inv in E as (Hd' & Hlt' & E').
    rewrite (get_spec tokens i (S pos) _ d) by done. cbn [res_bind]. rewrite code_point_at, next_index_at, index_at.
    destruct (is_ascii d); cbn [negb]; [|apply loop_result_error].
    replace (S (S pos)) with (pos + 2)%nat in * by lia. rewrite <- E'. apply (Hstep depth _ _ 2%nat); lia. }
  replace (S pos) with (pos + 1)%nat by lia. destruct (Z.eqb_spec c (ch ")")) as [->|_].
  { destruct depth as [|[|depth]]; [lia| |].
    - replace (u32 (Z.of_nat 1 - 1)) with 0 by reflexivity. cbn [Z.eqb]. by eexists _, _.
    - rewrite u32_id by lia. replace (Z.of_nat (S (S depth)) - 1) with (Z.of_nat (S depth)) by lia.
      rewrite (proj2 (Z.eqb_neq _ _)) by lia. rewrite <- Esucc. apply (Hstep (S depth) _ _ 1%nat); lia. }
  destruct (Z.eqb_spec c (ch "(")) as [->|_].
  { rewrite (Hlast rest E). destruct rest as [|d rest]; [apply loop_result_error|].
    pose proof E as E0. apply drop_cons_inv in E0 as (Hd' & Hlt' & E'). replace (S pos) with (pos + 1)%nat in Hd' by lia.
    rewrite (get_spec tokens i (pos + 1) _ d) by done. cbn [res_bind]. rewrite code_point_at, index_at, with_next_at.
    destruct (d =? ch "?"); cbn [negb]; [|apply loop_result_error].
    rewrite u32_id by lia. replace (Z.of_nat depth + 1) with (Z.of_nat (S depth)) by lia. rewrite <- Esucc.
    apply (Hstep (S depth) _ _ 1%nat); lia. }
  rewrite <- Esucc. apply (Hstep depth _ _ 1%nat); lia.
Qed.

(** What one iteration of the tokenizer does *)
Definition step_result (tokens : list Token) (i : nat) (r : res (PatternErrorOr Tokenizer)) : Prop :=
  match lex_one (drop i cps) with
  | Some (type, v, n, k) =>
      exists next cp, r = Ret (inr (tokenizer_at cps policy
        (tokens ++ [{| token_type := type; token_index := Z.of_nat i; token_value := slice (i + v) n |}]) (i + k) next cp))
  | None => exists next cp, r = process_a_tokenizing_error (tokenizer_at cps policy tokens i next cp) (Z.of_nat (i + 1)) (Z.of_nat i)
  end.

Lemma default_token_spec tokens i next cp type : (i < length cps)%nat -> next = S i ->
  add_a_token_with_default_position_and_length (tokenizer_at cps policy tokens i next cp) type
  = Ret (tokenizer_at cps policy (tokens ++ [{| token_type := type; token_index := Z.of_nat i; token_value := slice i 1 |}]) (i + 1) next cp).
Proof.
  intros Hi ->. unfold add_a_token_with_default_position_and_length. rewrite next_index_at, index_at, add_default_spec by lia.
  replace (S i - i)%nat with 1%nat by lia. by replace (S i) with (i + 1)%nat by lia.
Qed.

Lemma name_step tokens i cp rest : drop (S i) cps = rest -> (i < length cps)%nat ->
  match name_length true rest with
  | O => exists next cp', tokenize_name (tokenizer_at cps policy tokens i (S i) cp)
      = process_a_tokenizing_error (tokenizer_at cps policy tokens i next cp') (Z.of_nat (i + 1)) (Z.of_nat i)
  | S n => exists next cp', tokenize_name (tokenizer_at cps policy tokens i (S i) cp) = Ret (inr (tokenizer_at cps policy
      (tokens ++ [{| token_type := Tok_Name; token_index := Z.of_nat i; token_value := slice (i + 1) (S n) |}]) (i + S (S n)) next cp'))
  end.
Proof.
  intros E Hi. unfold tokenize_name. rewrite next_index_at. cbv zeta.
  assert (Hfuel : (length cps <= length (tk_input (tokenizer_at cps policy tokens i (S i) cp)))%nat).
  { by apply encode_length. }
  destruct (name_loop_spec (S (length (tk_input (tokenizer_at cps policy tokens i (S i) cp)))) tokens i (S i) cp (S i) (S i)) as (next & cp' & ->); [lia..|].
  cbn [res_bind]. rewrite Nat.eqb_refl, E, index_at. pose proof (name_length_bound true rest) as Hb. rewrite <- E, length_drop, E in Hb.
  destruct (name_length true rest) as [|n] eqn:En.
  - rewrite (proj2 (Z.leb_le _ _)) by lia. replace (S i) with (i + 1)%nat by lia. by eexists _, _.
  - rewrite (proj2 (Z.leb_gt _ _)) by lia. rewrite add_default_spec by lia. cbn [res_bind]. eexists _, _.
    replace (S i + S n - S i)%nat with (S n) by lia. replace (S i) with (i + 1)%nat by lia. by replace (i + 1 + S n)%nat with (i + S (S n))%nat by lia.
Qed.

Lemma regexp_step tokens i cp rest : drop (S i) cps = rest -> (i < length cps)%nat ->
  match match regexp_scan true 1 rest with Some (S (S n)) => Some n | _ => None end with
  | None => exists next cp', tokenize_regexp (tokenizer_at cps policy tokens i (S i) cp)
      = process_a_tokenizing_error (tokenizer_at cps policy tokens i next cp') (Z.of_nat (i + 1)) (Z.of_nat i)
  | Some n => exists next cp', tokenize_regexp (tokenizer_at cps policy tokens i (S i) cp) = Ret (inr (tokenizer_at cps policy
      (tokens ++ [{| token_type := Tok_Regexp; token_index := Z.of_nat i; token_value := slice (i + 1) (S n) |}]) (i + S (S (S n))) next cp'))
  end.
Proof.
  intros E Hi. unfold tokenize_regexp. rewrite next_index_at. cbv zeta.
  assert (Hfuel : (length cps <= length (tk_input (tokenizer_at cps policy tokens i (S i) cp)))%nat).
  { by apply encode_length. }
  pose proof (regexp_loop_spec (S (length (tk_input (tokenizer_at cps policy tokens i (S i) cp)))) tokens i (S i) cp (S i) (S i) 1) as Hloop.
  rewrite Nat.eqb_refl, E in Hloop. change (Z.of_nat 1) with 1 in Hloop. specialize (Hloop ltac:(lia) ltac:(lia) ltac:(lia) ltac:(lia)).
  unfold loop_result in Hloop. replace (S i) with (i + 1)%nat in * by lia.
  destruct (regexp_scan true 1 rest) as [n|] eqn:En.
  - destruct Hloop as (next & cp' & ->). cbn [res_bind]. rewrite Z.eqb_refl, index_at. cbn [negb].
    apply regexp_scan_bounds in En as [Hn1 Hn2]. rewrite <- E, length_drop in Hn2. unfold size_t. rewrite Z.mod_small by lia.
    destruct n as [|[|n]]; [lia|rewrite (proj2 (Z.eqb_eq _ _)) by lia; by eexists _, _|].
    rewrite (proj2 (Z.eqb_neq _ _)) by lia. replace (_ - _ - 1) with (Z.of_nat (S n)) by lia.
    rewrite add_spec by lia. cbn [res_bind]. eexists _, _. by replace (i + 1 + S (S n))%nat with (i + S (S (S n)))%nat by lia.
  - destruct Hloop as (next & cp' & [-> | (p & depth & -> & Hd)]).
    + exists next, cp'. rewrite error_spec by lia. by destruct policy.
    + cbn [res_bind]. rewrite (proj2 (Z.eqb_neq _ _) Hd), index_at. cbn [negb]. by eexists _, _.
Qed.

Lemma tokenize_step_spec tokens i next cp : (i < length cps)%nat ->
  step_result tokens i (tokenize_step (tokenizer_at cps policy tokens i next cp)).
Proof.
  intros Hi. destruct (lookup_lt_is_Some_2 cps i Hi) as [c Hc]. unfold tokenize_step, step_result. cbv zeta.
  rewrite index_at, (seek_spec tokens i next cp i c) by done. cbn [res_bind]. rewrite !code_point_at, length_input, !next_index_at, index_at.
  rewrite (drop_S _ _ _ Hc). cbn [lex_one]. assert (Hdefault : forall type, exists next cp', (let* t := add_a_token_with_default_position_and_length
      (tokenizer_at cps policy tokens i (S i) c) type in Ret (inr t)) = Ret (inr (tokenizer_at cps policy
      (tokens ++ [{| token_type := type; token_index := Z.of_nat i; token_value := slice (i + 0) 1 |}]) (i + 1) next cp'))
      :> res (PatternErrorOr Tokenizer)).
  { intros type. rewrite default_token_spec by done. cbn [res_bind]. rewrite Nat.add_0_r. by eexists _, _. }
  destruct (c =? ch "*"); [apply Hdefault|]. destruct (_ || _); [apply Hdefault|]. destruct (c =? 92).
  { destruct (drop (S i) cps) as [|d rest] eqn:E.
    - apply drop_nil_inv in E. rewrite (proj2 (Z.eqb_eq _ _)) by lia. replace (S i) with (i + 1)%nat by lia. by eexists _, _.
    - apply drop_cons_inv in E as (Hd & Hlt & _). rewrite (proj2 (Z.eqb_neq _ _)) by lia. rewrite (get_spec tokens i (S i) c d) by done.
      cbn [res_bind]. rewrite next_index_at, add_default_spec by lia. cbn [res_bind]. eexists _, _.
      replace (S (S i) - S i)%nat with 1%nat by lia. replace (S i) with (i + 1)%nat by lia. by replace (S (i + 1)) with (i + 2)%nat by lia. }
  destruct (c =? ch "{"); [apply Hdefault|]. destruct (c =? ch "}"); [apply Hdefault|]. destruct (c =? ch ":").
  { pose proof (name_step tokens i c _ eq_refl Hi) as Hn. by destruct (name_length true (drop (S i) cps)). }
  destruct (c =? ch "("); [|apply Hdefault]. pose proof (regexp_step tokens i c _ eq_refl Hi) as Hr.
  by destruct (regexp_scan true 1 (drop (S i) cps)) as [[|[|n]]|].
Qed.

Lemma tokenize_loop_spec fuel : forall tokens i next cp, (i <= length cps)%nat -> (length cps - i < fuel)%nat ->
  match lex_all (fuel - 1) policy i (drop i cps) with
  | Some body => exists next' cp', tokenize_loop fuel (tokenizer_at cps policy tokens i next cp)
      = Ret (inr (tokenizer_at cps policy (tokens ++ body) (length cps) next' cp'))
  | None => tokenize_loop fuel (tokenizer_at cps policy tokens i next cp) = Ret (inl (sv "Error processing a token"))
  end.
Proof.
  induction fuel as [|fuel IH]; intros tokens i next cp Hi Hf; [lia|]. cbn [tokenize_loop]. rewrite length_input, index_at.
  replace (S fuel - 1)%nat with fuel by lia. destruct (Nat.eq_dec i (length cps)) as [->|Hne].
  { rewrite Z.ltb_irrefl, drop_all. destruct fuel; cbn [lex_all]; rewrite app_nil_r; by eexists _, _. }
  rewrite (proj2 (Z.ltb_lt _ _)) by lia. destruct fuel as [|fuel]; [lia|].
  pose proof (tokenize_step_spec tokens i next cp ltac:(lia)) as Hstep. unfold step_result in Hstep.
  destruct (drop i cps) as [|c rest] eqn:E; [apply drop_nil_inv in E; lia|]. cbn [lex_all]. rewrite <- E in *.
  assert (Hnext : forall tokens' k next' cp', (1 <= k <= length cps - i)%nat ->
    match lex_all fuel policy (i + k) (drop k (drop i cps)) with
    | Some body => exists next'' cp'', tokenize_loop (S fuel) (tokenizer_at cps policy tokens' (i + k) next' cp')
        = Ret (inr (tokenizer_at cps policy (tokens' ++ body) (length cps) next'' cp''))
    | None => tokenize_loop (S fuel) (tokenizer_at cps policy tokens' (i + k) next' cp') = Ret (inl (sv "Error processing a token"))
    end).
  { intros tokens' k next' cp' Hk. rewrite drop_drop. specialize (IH tokens' (i + k)%nat next' cp' ltac:(lia) ltac:(lia)).
    by replace (S fuel - 1)%nat with fuel in IH by lia. }
  destruct (lex_one (drop i cps)) as [[[[type v] n] k]|] eqn:El.
  - apply lex_one_bounds in El as [_ Hk]. rewrite length_drop in Hk. destruct Hstep as (next' & cp' & ->). cbn [res_bind].
    unfold slice. rewrite drop_drop. specialize (Hnext (tokens ++ [{| token_type := type; token_index := Z.of_nat i; token_value := utf8_encode (take n (drop (i + v) cps)) |}]) k next' cp' Hk).
    destruct (lex_all fuel policy (i + k) _) as [body|]; cbn [fmap option_fmap option_map]; [|done]. by rewrite <- app_assoc in Hnext.
  - destruct Hstep as (next' & cp' & ->). rewrite error_spec by lia. destruct policy eqn:Ep; cbn [res_bind]; [done|].
    unfold slice. replace (i + 1 - i)%nat with 1%nat by lia. rewrite <- Ep in *.
    specialize (Hnext (tokens ++ [{| token_type := Tok_InvalidChar; token_index := Z.of_nat i; token_value := utf8_encode (take 1 (drop i cps)) |}]) 1%nat next' cp' ltac:(lia)).
    destruct (lex_all fuel policy (i + 1) _) as [body|]; cbn [fmap option_fmap option_map]; [|done]. by rewrite <- app_assoc in Hnext.
Qed.

Lemma tokenize_spec : tokenize (utf8_encode cps) policy = Ret (reference_tokenize policy cps).
Proof.
  unfold tokenize. rewrite validate_well_formed by by apply encode_wf. cbn [verify]. cbv zeta.
  change {| tk_input := utf8_encode cps; tk_policy := policy; tk_token_list := []; tk_index := 0; tk_next_index := 0; tk_code_point := 0 |}
    with (tokenizer_at cps policy [] 0 0 0).
  pose proof (encode_length cps Hcps) as Hl.
  pose proof (tokenize_loop_spec (S (length (utf8_encode cps))) [] 0 0 0 ltac:(lia) ltac:(lia)) as Hloop. rewrite drop_0 in Hloop.
  replace (S (length (utf8_encode cps)) - 1)%nat with (length (utf8_encode cps)) in Hloop by lia.
  rewrite (lex_all_fuel _ _ (length cps)) in Hloop by lia. unfold reference_tokenize.
  destruct (lex_all (length cps) policy 0 cps) as [body|]; [|by rewrite Hloop]. destruct Hloop as (next & cp & ->).
  cbn [res_bind]. rewrite index_at, add_default_spec by lia. cbn [res_bind]. rewrite Nat.sub_diag. done.
Qed.

End steps.

(** ** Nothing is lost *)

(** The text of a token *)
Definition token_text (token : Token) : bytes :=
  match token_type token with
  | Tok_EscapedChar => [92] ++ token_value token
  | Tok_Name => [ch ":"] ++ token_value token
  | Tok_Regexp => [ch "("] ++ token_value token ++ [ch ")"]
  | _ => token_value token
  end.

Definition special_code_points : list Z := [ch "*"; ch "+"; ch "?"; 92; ch "{"; ch "}"; ch ":"; ch "("].

(** What the value of a token of a type can be *)
Definition token_ok (token : Token) : Prop :=
  let value := token_value token in
  match token_type token with
  | Tok_Open => value = [ch "{"]
  | Tok_Close => value = [ch "}"]
  | Tok_Asterisk => value = [ch "*"]
  | Tok_OtherModifier => value = [ch "+"] \/ value = [ch "?"]
  | Tok_Char => exists c, scalars [c] /\ value = utf8_encode [c] /\ c ∉ special_code_points
  | Tok_EscapedChar | Tok_InvalidChar => exists c, scalars [c] /\ value = utf8_encode [c]
  | Tok_Name => exists name, scalars name /\ value = utf8_encode name /\ name <> [] /\ name_length true name = length name
  | Tok_Regexp => value <> [] /\ Forall (fun c => 0 <= c < 128) value /\ forall rest, regexp_scan true 1 (value ++ ch ")" :: rest) = Some (S (length value))
  | Tok_End => False
  end.

(** What the scan of a regular expression has seen *)
Lemma regexp_scan_inv rest : forall first depth n, regexp_scan first depth rest = Some n ->
  exists body rest', rest = body ++ ch ")" :: rest' /\ n = S (length body) /\ Forall (fun c => is_ascii c = true) body
    /\ forall more, regexp_scan first depth (body ++ ch ")" :: more) = Some n.
Proof.
  induction rest as [rest IH] using list_length_ind. intros first depth n. destruct rest as [|c rest]; [done|]. cbn [regexp_scan].
  destruct (negb (is_ascii c)) eqn:Ea; cbn [orb]; [done|]. destruct (first && (c =? ch "?")) eqn:Eq; [done|]. apply negb_false_iff in Ea.
  assert (Hcons : forall d m pre, (length pre <= 1)%nat -> Forall (fun c => is_ascii c = true) pre -> forall r,
    rest = pre ++ r -> regexp_scan false d r = Some m ->
    exists body rest', rest = (pre ++ body) ++ ch ")" :: rest' /\ S (length pre + m) = S (length (c :: pre ++ body))
      /\ Forall (fun c => is_ascii c = true) (c :: pre ++ body) /\ forall more, regexp_scan false d (body ++ ch ")" :: more) = Some m).
  { intros d m pre Hpre Hpa r -> Hr. apply IH in Hr as (body & rest' & -> & -> & Hb & Hmore); [|cbn; rewrite length_app; lia].
    exists body, rest'. rewrite <- app_assoc. split; [done|]. split; [cbn; rewrite length_app; lia|]. split; [|done].
    constructor; [done|]. by apply Forall_app. }
  assert (Hone : forall d m, regexp_scan false d rest = Some m -> exists body rest', rest = body ++ ch ")" :: rest' /\ S m = S (length (c :: body))
      /\ Forall (fun c => is_ascii c = true) (c :: body) /\ forall more, regexp_scan false d (body ++ ch ")" :: more) = Some m).
  { intros d m Hm. exact (Hcons d m [] ltac:(cbn; lia) ltac:(constructor) rest eq_refl Hm). }
  destruct (c =? 92) eqn:E92.
  { destruct rest as [|d rest]; [done|]. destruct (is_ascii d) eqn:Ead; [|done].
    destruct (regexp_scan false depth rest) as [m|] eqn:E; [|done]. intros [= <-].
    destruct (Hcons depth m [d] ltac:(cbn; lia) ltac:(by constructor) rest eq_refl E) as (body & rest' & Er & El & Hb & Hmore).
    exists (c :: [d] ++ body), rest'. split; [by rewrite Er|]. split; [exact El|]. split; [done|]. intros more.
    cbn [app regexp_scan]. by rewrite Ea, Eq, E92, Ead, Hmore. }
  destruct (c =? ch ")") eqn:Ec.
  { assert (Hstop : forall more, regexp_scan first depth ([] ++ ch ")" :: more) = match depth with S (S depth) => S <$> regexp_scan false (S depth) more | _ => Some 1%nat end).
    { intros more. apply Z.eqb_eq in Ec as ->. cbn [app regexp_scan]. by rewrite Ea, Eq. }
    destruct depth as [|[|depth]]; [intros [= <-]; apply Z.eqb_eq in Ec as ->; exists [], rest; by auto..|].
    destruct (regexp_scan false (S depth) rest) as [m|] eqn:E; [|done]. intros [= <-].
    destruct (Hone (S depth) m E) as (body & rest' & Er & El & Hb & Hmore). exists (c :: body), rest'. split; [by rewrite Er|].
    split; [exact El|]. split; [done|]. intros more. cbn [app regexp_scan]. by rewrite Ea, Eq, E92, Ec, Hmore. }
  destruct (c =? ch "(") eqn:Eo.
  { destruct rest as [|d rest]; [done|]. destruct (d =? ch "?") eqn:Ed; [|done].
    destruct (regexp_scan false (S depth) (d :: rest)) as [m|] eqn:E; [|done]. intros [= <-].
    destruct (Hone (S depth) m E) as (body & rest' & Er & El & Hb & Hmore). exists (c :: body), rest'. split; [by rewrite Er|].
    split; [exact El|]. split; [done|]. intros more. cbn [app regexp_scan]. rewrite Ea, Eq, E92, Ec, Eo, Hmore.
    destruct body as [|d' body]; cbn [app] in Er |- *; injection Er as -> _; [done|by rewrite Ed]. }
  destruct (regexp_scan false depth rest) as [m|] eqn:E; [|done]. intros [= <-].
  destruct (Hone depth m E) as (body & rest' & Er & El & Hb & Hmore). exists (c :: body), rest'. split; [by rewrite Er|].
  split; [exact El|]. split; [done|]. intros more. cbn [app regexp_scan]. by rewrite Ea, Eq, E92, Ec, Eo, Hmore.
Qed.

Lemma encode_ascii s : Forall (fun c => 0 <= c /\ is_ascii c = true) s -> utf8_encode s = s.
Proof.
  induction 1 as [|c s [Hc Ha] Hs IH]; [done|]. unfold is_ascii in Ha. rewrite utf8_encode_cons, IH by lia. unfold encoded.
  by replace (c <=? 127) with true by lia.
Qed.

Lemma name_length_take rest : forall first, name_length first (take (name_length first rest) rest) = name_length first rest.
Proof.
  induction rest as [|c rest IH]; intros first; [done|]. cbn [name_length].
  destruct (is_a_valid_name_code_point c first) eqn:E; [|done]. cbn [take name_length]. by rewrite E, IH.
Qed.

(** The first token: its shape and its text *)
Lemma lex_one_token rest type v n k index : scalars rest -> lex_one rest = Some (type, v, n, k) ->
  let token := {| token_type := type; token_index := index; token_value := utf8_encode (take n (drop v rest)) |} in
  token_ok token /\ token_text token = utf8_encode (take k rest) /\ type <> Tok_InvalidChar.
Proof.
  intros Hs. destruct rest as [|c rest]; [done|]. apply Forall_cons in Hs as [Hc Hs]. cbn [lex_one]. cbv zeta.
  assert (Hone : forall x, c = x -> x < 128 -> utf8_encode [c] = [x]).
  { intros x -> Hx. apply encode_ascii. constructor; [|done]. unfold is_ascii. lia. }
  destruct (Z.eqb_spec c (ch "*")) as [E|N1]; [intros [= <- <- <- <-]; split; [exact (Hone _ E eq_refl)|done]|].
  destruct (Z.eqb_spec c (ch "+")) as [E|N2]; cbn [orb]; [intros [= <- <- <- <-]; split; [left; exact (Hone _ E eq_refl)|done]|].
  destruct (Z.eqb_spec c (ch "?")) as [E|N3]; [intros [= <- <- <- <-]; split; [right; exact (Hone _ E eq_refl)|done]|].
  destruct (Z.eqb_spec c 92) as [E|N4].
  { destruct rest as [|d rest]; [done|]. intros [= <- <- <- <-]. apply Forall_cons in Hs as [Hd Hs]. split; [exists d; by split; [apply scalars_one|]|].
    split; [|done]. unfold token_text. cbn [token_type token_value].
    change (take 2 (c :: d :: rest)) with ([c] ++ [d]). change (take 1 (drop 1 (c :: d :: rest))) with [d]. by rewrite utf8_encode_app, (Hone 92 E eq_refl). }
  destruct (Z.eqb_spec c (ch "{")) as [E|N5]; [intros [= <- <- <- <-]; split; [exact (Hone _ E eq_refl)|done]|].
  destruct (Z.eqb_spec c (ch "}")) as [E|N6]; [intros [= <- <- <- <-]; split; [exact (Hone _ E eq_refl)|done]|].
  destruct (Z.eqb_spec c (ch ":")) as [E|N7].
  { pose proof (name_length_take rest true) as Ht. destruct (name_length true rest) as [|m] eqn:Em; [done|]. intros [= <- <- <- <-].
    cbn [drop]. rewrite drop_0. split.
    - exists (take (S m) rest). split; [by apply Forall_take|]. split; [done|]. pose proof (name_length_bound true rest) as Hb.
      split; [destruct rest; [done|by cbn]|]. rewrite Ht, length_take. lia.
    - split; [|done]. unfold token_text. cbn [token_type token_value]. change (take (S (S m)) (c :: rest)) with ([c] ++ take (S m) rest).
      by rewrite utf8_encode_app, (Hone (ch ":") E eq_refl). }
  destruct (Z.eqb_spec c (ch "(")) as [E|N8].
  { destruct (regexp_scan true 1 rest) as [[|[|m]]|] eqn:Em; try done. intros [= <- <- <- <-]. cbn [drop]. rewrite drop_0.
    apply regexp_scan_inv in Em as (body & rest' & -> & Hm & Hb & Hmore). injection Hm as Hm.
    assert (Hascii : Forall (fun c => 0 <= c < 128) body).
    { apply Forall_app in Hs as [Hs _]. clear - Hs Hb. induction Hs as [|x l [Hx _] Hl IH]; [done|].
      apply Forall_cons in Hb as [Hx' Hb]. unfold is_ascii in Hx'. constructor; [lia|]. by apply IH. }
    rewrite Hm, take_app_length. assert (Hbody : utf8_encode body = body).
    { apply encode_ascii. eapply Forall_impl; [exact Hascii|]. intros x Hx. unfold is_ascii. cbn beta in Hx. lia. }
    split; [|split; [|done]].
    - unfold token_ok. cbn [token_type token_value]. rewrite Hbody. split; [by destruct body|]. split; [done|]. intros more. rewrite Hmore. by rewrite Hm.
    - unfold token_text. cbn [token_type token_value].
      replace (take (S (S (length body))) (c :: body ++ ch ")" :: rest')) with (c :: body ++ [ch ")"]).
      2:{ change (c :: body ++ ch ")" :: rest') with ((c :: body) ++ [ch ")"] ++ rest'). rewrite app_assoc, take_app_length'; [done|].
          rewrite length_app. cbn [length]. lia. }
      change (c :: body ++ [ch ")"]) with ([c] ++ (body ++ [ch ")"])).
      rewrite (utf8_encode_app [c]), (utf8_encode_app body), Hbody, (Hone (ch "(") E eq_refl). done. }
  intros [= <- <- <- <-]. split; [|done]. exists c. split; [by apply scalars_one|]. split; [done|]. unfold special_code_points.
  rewrite !not_elem_of_cons. repeat (split; [done|]). apply not_elem_of_nil.
Qed.

(** The tokens cover the text from [index] on. *)
Lemma lex_all_lossless policy fuel : forall index rest body, scalars rest -> lex_all fuel policy index rest = Some body ->
  concat (map token_text body) = utf8_encode rest /\ Forall token_ok body
  /\ (policy = Strict -> Forall (fun token => token_type token <> Tok_InvalidChar) body)
  /\ forall l1 token l2, body = l1 ++ token :: l2 ->
       token_index token = Z.of_nat (index + length (code_points (concat (map token_text l1)))).
Proof.
  induction fuel as [|fuel IH]; intros index rest body Hs; (destruct rest as [|c rest]; [intros [= <-]; repeat (split; [done|]); by intros []|]); [done|].
  cbn [lex_all].
  assert (Hcons : forall token k body', (k <= length (c :: rest))%nat -> token_index token = Z.of_nat index -> token_ok token ->
    token_text token = utf8_encode (take k (c :: rest)) -> (policy = Strict -> token_type token <> Tok_InvalidChar) ->
    lex_all fuel policy (index + k) (drop k (c :: rest)) = Some body' ->
    concat (map token_text (token :: body')) = utf8_encode (c :: rest) /\ Forall token_ok (token :: body')
    /\ (policy = Strict -> Forall (fun token => token_type token <> Tok_InvalidChar) (token :: body'))
    /\ forall l1 t l2, token :: body' = l1 ++ t :: l2 -> token_index t = Z.of_nat (index + length (code_points (concat (map token_text l1))))).
  { intros token k body' Hk Hi Hok Ht Hv E. apply IH in E as (E1 & E2 & E3 & E4); [|by apply Forall_drop]. split.
    { cbn [map concat]. by rewrite Ht, E1, <- utf8_encode_app, take_drop. }
    split; [by constructor|]. split; [intros Hp; constructor; auto|]. intros l1 t l2 El. destruct l1 as [|t' l1].
    - injection El as -> _. rewrite Hi. cbn. f_equal. lia.
    - injection El as <- El. rewrite (E4 l1 t l2 El). cbn [map concat]. rewrite Ht, code_points_utf8_encode by (apply scalars_range; by apply Forall_take).
      rewrite length_app, length_take. lia. }
  destruct (lex_one (c :: rest)) as [[[[type v] n] k]|] eqn:El.
  - destruct (lex_all fuel policy (index + k) (drop k (c :: rest))) as [body'|] eqn:E; [|done]. intros [= <-].
    destruct (lex_one_token _ _ _ _ _ (Z.of_nat index) Hs El) as (Hok & Ht & Hv). apply lex_one_bounds in El as [_ Hk].
    apply (Hcons _ k); try done; lia.
  - destruct policy; [done|]. destruct (lex_all fuel Lenient (index + 1) (drop 1 (c :: rest))) as [body'|] eqn:E; [|done]. intros [= <-].
    apply (Hcons _ 1%nat); try done; [cbn; lia|]. exists c. split; [|done]. apply Forall_cons in Hs as [Hc _]. by apply scalars_one.
Qed.

Lemma lex_all_lenient fuel : forall index rest, (length rest <= fuel)%nat -> exists body, lex_all fuel Lenient index rest = Some body.
Proof.
  induction fuel as [|fuel IH]; intros index rest Hf; (destruct rest as [|c rest]; [by exists []|]); [cbn in Hf; lia|]. cbn [lex_all]. cbn [length] in Hf.
  destruct (lex_one (c :: rest)) as [[[[type v] n] k]|] eqn:El.
  - apply lex_one_bounds in El as [_ Hk]. destruct (IH (index + k)%nat (drop k (c :: rest))) as [body ->]; [rewrite length_drop; cbn [length]; lia|].
    by eexists.
  - destruct (IH (index + 1)%nat (drop 1 (c :: rest))) as [body ->]; [rewrite length_drop; cbn [length]; lia|]. by eexists.
Qed.

End facts.

(** ** Instances *)

(** The bytes that are not continuation bytes, and the identifiers of ASCII *)
#[export] Instance reference_simdutf_count : SimdutfCount :=
  { count_utf8 s := Z.of_nat (length (List.filter (fun b => negb ((0x80 <=? b) && (b <? 0xC0))) s)) }.

#[export] Instance reference_simdutf_count_laws : SimdutfCountLaws.
Proof.
  constructor. cbn [count_utf8 reference_simdutf_count]. intros cps Hs. f_equal. induction Hs as [|c cps Hc Hs IH]; [done|].
  apply scalar_range in Hc. rewrite utf8_encode_cons, List.filter_app, length_app, IH by done. cbn [length].
  set (p := fun b => negb ((0x80 <=? b) && (b <? 0xC0))).
  assert (Hlead : forall b l, b < 0x80 \/ 0xC0 <= b -> List.filter p (b :: l) = b :: List.filter p l).
  { intros b l Hb. cbn [List.filter]. unfold p at 1. by replace (negb _) with true by lia. }
  assert (Hcont : forall x l, List.filter p ((128 + x mod 64) :: l) = List.filter p l).
  { intros x l. cbn [List.filter]. unfold p at 1. pose proof (Z.mod_pos_bound x 64 ltac:(lia)). by replace (negb _) with false by lia. }
  unfold encoded. pose proof (Z.div_pos c 64 ltac:(lia) ltac:(lia)). pose proof (Z.div_pos c 4096 ltac:(lia) ltac:(lia)).
  pose proof (Z.div_pos c 262144 ltac:(lia) ltac:(lia)).
  repeat break_match; rewrite Hlead, ?Hcont by lia; done.
Qed.

#[export] Instance reference_icu_identifiers : IcuIdentifiers :=
  { u_isIDStart := is_ascii_alpha; u_isIDPart c := is_ascii_alphanumeric c || (c =? ch "_") }.

(** ** Properties *)

(** C18: tokenizing a pattern string of well-formed UTF-8 terminates without
    stopping the process.  It can fail only under the strict policy.  Otherwise
    the texts of the tokens, put together, are the input; each token has the
    index of its first code point and a value that fits its type; the strict
    policy leaves no invalid token; and the end token comes last. *)
Theorem tokenize_lossless `{SimdutfLaws, SimdutfCountLaws, IcuIdentifiers} (input : bytes) (policy : Policy)
    (Hinput : well_formed_utf8 input) (Hsize : Z.of_nat (length input) < 2 ^ 32) :
  exists r, tokenize input policy = Ret r /\
    match r with
    | inl _ => policy = Strict
    | inr tokens => exists body, tokens = body ++ [end_token (code_points input)] /\ concat (map token_text body) = input
        /\ Forall token_ok body /\ (policy = Strict -> Forall (fun token => token_type token <> Tok_InvalidChar) body)
        /\ forall l1 token l2, body = l1 ++ token :: l2 ->
             token_index token = Z.of_nat (length (code_points (concat (map token_text l1))))
    end.
Proof.
  destruct Hinput as (cps & Hs & ->). pose proof (encode_length cps Hs). exists (reference_tokenize policy cps).
  split; [apply tokenize_spec; [done|lia]|]. unfold reference_tokenize. destruct (lex_all (length cps) policy 0 cps) as [body|] eqn:E.
  - exists body. rewrite <- (app_nil_r (utf8_encode cps)), code_points_utf8_encode, app_nil_r by by apply scalars_range. rewrite app_nil_r.
    split; [done|]. by apply (lex_all_lossless policy) in E.
  - destruct policy; [done|]. by destruct (lex_all_lenient (length cps) 0 cps) as [body Hb]; [|rewrite Hb in E].
Qed.

Definition example_pattern : bytes := sv "/a\*:id(\d+)?{x}*b".

Lemma tokenize_lossless_witness :
  exists body, tokenize example_pattern Strict = Ret (inr (body ++ [end_token (code_points example_pattern)]))
    /\ map token_type body = [Tok_Char; Tok_Char; Tok_EscapedChar; Tok_Name; Tok_Regexp; Tok_OtherModifier; Tok_Open; Tok_Char; Tok_Close; Tok_Asterisk; Tok_Char]
    /\ concat (map token_text body) = example_pattern.
Proof.
  destruct (tokenize_lossless example_pattern Strict) as (r & E & Hr); [|reflexivity|].
  { apply well_formed_ascii. by repeat constructor. }
  destruct r as [error|tokens]; [revert E; vm_compute; discriminate|]. destruct Hr as (body & Hbody & Ht & _).
  assert (Et : map token_type tokens = [Tok_Char; Tok_Char; Tok_EscapedChar; Tok_Name; Tok_Regexp; Tok_OtherModifier; Tok_Open; Tok_Char;
    Tok_Close; Tok_Asterisk; Tok_Char; Tok_End]) by (clear Hbody; revert E; vm_compute; intros [= <-]; reflexivity).
  exists body. rewrite E, Hbody. split; [done|]. split; [|done]. rewrite Hbody, map_app in Et.
  by apply (app_inj_2 _ [_; _; _; _; _; _; _; _; _; _; _] _ [Tok_End]) in Et as [Et _].
Defined.
