(* ===== verification/PatternParts.v ===== *)
(** * URL patterns: parts, [LibURL/Pattern/Part.{h,cpp}], [Options.{h,cpp}],
      [String.cpp] and [PatternParser.cpp]

    A pattern string is parsed into parts, and a pattern string is generated
    from parts.  The encoding callback of a component is an argument; it returns
    the canonical text or an error.  [PatternFacts] has the theorems. *)

From S2P Require Import Prelude CharacterTypes Utf8 MemMem Strings Tokens Wtf8 PatternTokenizer.
Local Open Scope Z_scope.

(** ** Parts *)

Inductive PartType := FixedText | Part_Regexp | SegmentWildcard | FullWildcard.
Inductive Modifier := Modifier_None | Modifier_Optional | ZeroOrMore | OneOrMore.

#[export] Instance PartType_eq_dec : EqDecision PartType.
Proof. solve_decision. Defined.
#[export] Instance Modifier_eq_dec : EqDecision Modifier.
Proof. solve_decision. Defined.

Record Part := {
  part_type : PartType;
  part_value : bytes;
  part_modifier : Modifier;
  part_name : bytes;
  part_prefix : bytes;
  part_suffix : bytes
}.

(** The constructor with three arguments *)
Definition simple_part (type : PartType) (value : bytes) (modifier : Modifier) : Part :=
  {| part_type := type; part_value := value; part_modifier := modifier; part_name := []; part_prefix := []; part_suffix := [] |}.

Definition part_type_to_string (type : PartType) : bytes :=
  match type with
  | FixedText => sv "FixedText"
  | Part_Regexp => sv "Regexp"
  | SegmentWildcard => sv "SegmentWildcard"
  | FullWildcard => sv "FullWildcard"
  end.

Definition convert_modifier_to_string (modifier : Modifier) : bytes :=
  match modifier with
  | ZeroOrMore => sv "*"
  | Modifier_Optional => sv "?"
  | OneOrMore => sv "+"
  | Modifier_None => []
  end.

(** ** Options *)

Record Options := {
  delimiter_code_point : option Z;
  prefix_code_point : option Z;
  ignore_case : bool
}.

Definition default_options : Options := {| delimiter_code_point := None; prefix_code_point := None; ignore_case := false |}.
Definition hostname_options : Options := {| delimiter_code_point := Some (ch "."); prefix_code_point := None; ignore_case := false |}.
Definition pathname_options : Options := {| delimiter_code_point := Some (ch "/"); prefix_code_point := Some (ch "/"); ignore_case := false |}.

(** ** Strings *)

Definition full_wildcard_regexp_value : bytes := sv ".*".

(** [String::from_code_point] *)
Definition string_from_code_point (code_point : Z) : bytes := (code_point_to_utf8 code_point).1.

(** The loop of the two functions that escape *)
Definition escape_characters (special input : bytes) : bytes :=
  input ≫= fun c => if contains_char special c then [92; c] else [c].

Definition pattern_special : bytes := sv "+*?:{}()\".
Definition regexp_special : bytes := sv ".+*?^${}()[]|/\".

Section strings.
Context `{Simdutf, SimdutfCount, IcuIdentifiers}.

Definition escape_a_pattern_string (input : bytes) : res bytes :=
  verify (sv_is_ascii input) (Ret (escape_characters pattern_special input)).

Definition escape_a_regexp_string (input : bytes) : res bytes :=
  verify (sv_is_ascii input) (Ret (escape_characters regexp_special input)).

Definition generate_a_segment_wildcard_regexp (options : Options) : res bytes :=
  let* delimiter :=
    match delimiter_code_point options with
    | Some delimiter => escape_a_regexp_string (string_from_code_point delimiter)
    | None => Ret []
    end in
  Ret (sv "[^" ++ delimiter ++ sv "]+?").

(** The string is the prefix code point; without one it is not. *)
Definition is_prefix_code_point (options : Options) (s : bytes) : bool :=
  match prefix_code_point options with
  | Some prefix => sv_eqb s (string_from_code_point prefix)
  | None => false
  end.

(** Steps 6 to 8 of [generate_a_pattern_string] *)
Definition needs_grouping_alone (options : Options) (part : Part) : bool :=
  negb (sv_is_empty (part_suffix part))
  || (negb (sv_is_empty (part_prefix part))
      && (match prefix_code_point options with Some _ => true | None => false end && negb (is_prefix_code_point options (part_prefix part)))).

Definition needs_grouping_before (part next_part : Part) : res bool :=
  match part_type next_part with
  | FixedText =>
      let* code_point := iterator_deref (part_value next_part) in
      Ret (is_a_valid_name_code_point code_point false)
  | _ =>
      let* code_point := iterator_deref (part_name next_part) in
      Ret (is_ascii_digit code_point)
  end.

Definition needs_grouping_after (options : Options) (part previous_part : Part) : bool :=
  sv_is_empty (part_prefix part)
  && bool_decide (part_type previous_part = FixedText)
  && ((sv_is_empty (part_value previous_part) && match prefix_code_point options with Some _ => false | None => true end)
      || is_prefix_code_point options (part_value previous_part)).

Definition needs_grouping (options : Options) (custom_name : bool) (previous_part : option Part) (part : Part) (next_part : option Part) : res bool :=
  let alone := needs_grouping_alone options part in
  let* needs_grouping :=
    match next_part with
    | Some next_part =>
        if negb alone && custom_name && bool_decide (part_type part = SegmentWildcard) && bool_decide (part_modifier part = Modifier_None)
           && sv_is_empty (part_prefix next_part) && sv_is_empty (part_suffix next_part)
        then needs_grouping_before part next_part
        else Ret alone
    | None => Ret alone
    end in
  Ret (needs_grouping || match previous_part with Some previous_part => needs_grouping_after options part previous_part | None => false end).

(** Steps 13 to 15: what stands for the regular expression of the part *)
Definition generate_a_value (options : Options) (custom_name grouped : bool) (previous_part : option Part) (part : Part) : res bytes :=
  match part_type part with
  | Part_Regexp => Ret (sv "(" ++ part_value part ++ sv ")")
  | SegmentWildcard =>
      if custom_name then Ret []
      else let* regexp := generate_a_segment_wildcard_regexp options in Ret (sv "(" ++ regexp ++ sv ")")
  | FullWildcard =>
      if negb custom_name
         && (match previous_part with
             | None => true
             | Some previous_part =>
                 bool_decide (part_type previous_part = FixedText) || negb (bool_decide (part_modifier previous_part = Modifier_None))
             end || grouped || negb (sv_is_empty (part_prefix part)))
      then Ret (sv "*")
      else Ret (sv "(" ++ full_wildcard_regexp_value ++ sv ")")
  | FixedText => Ret []
  end.

(** The body of the loop of [generate_a_pattern_string] *)
Definition generate_a_part (options : Options) (previous_part : option Part) (part : Part) (next_part : option Part) : res bytes :=
  if bool_decide (part_type part = FixedText) then
    let* value := escape_a_pattern_string (part_value part) in
    if bool_decide (part_modifier part = Modifier_None) then Ret value
    else Ret (sv "{" ++ value ++ sv "}" ++ convert_modifier_to_string (part_modifier part))
  else
    let* first := at_index (part_name part) 0 in
    let custom_name := negb (is_ascii_digit first) in
    let* grouped := needs_grouping options custom_name previous_part part next_part in
    verify (negb (sv_is_empty (part_name part)))
      (let* prefix := escape_a_pattern_string (part_prefix part) in
       let* value := generate_a_value options custom_name grouped previous_part part in
       let* escape :=
         (if bool_decide (part_type part = SegmentWildcard) && custom_name && negb (sv_is_empty (part_suffix part)) then
            let* code_point := iterator_deref (part_suffix part) in
            Ret (if is_a_valid_name_code_point code_point false then [92] else [])
          else Ret []) in
       let* suffix := escape_a_pattern_string (part_suffix part) in
       Ret ((if grouped then sv "{" else []) ++ prefix ++ (if custom_name then sv ":" ++ part_name part else []) ++ value ++ escape ++ suffix
            ++ (if grouped then sv "}" else []) ++ convert_modifier_to_string (part_modifier part))).

Fixpoint generate_parts (options : Options) (previous_part : option Part) (part_list : list Part) : res bytes :=
  match part_list with
  | [] => Ret []
  | part :: part_list =>
      let* text := generate_a_part options previous_part part (head part_list) in
      let* rest := generate_parts options (Some part) part_list in
      Ret (text ++ rest)
  end.

Definition generate_a_pattern_string (part_list : list Part) (options : Options) : res bytes := generate_parts options None part_list.

End strings.

(** ** The pattern parser *)

Record PatternParser := {
  pp_token_list : list Token;
  pp_part_list : list Part;
  pp_pending_fixed_value : bytes;
  pp_index : nat;
  pp_next_numeric_name : Z
}.

Definition with_index_pp (p : PatternParser) (index : nat) : PatternParser :=
  {| pp_token_list := pp_token_list p; pp_part_list := pp_part_list p; pp_pending_fixed_value := pp_pending_fixed_value p;
     pp_index := index; pp_next_numeric_name := pp_next_numeric_name p |}.

Definition with_pending (p : PatternParser) (value : bytes) : PatternParser :=
  {| pp_token_list := pp_token_list p; pp_part_list := pp_part_list p; pp_pending_fixed_value := value;
     pp_index := pp_index p; pp_next_numeric_name := pp_next_numeric_name p |}.

Definition with_part (p : PatternParser) (part : Part) : PatternParser :=
  {| pp_token_list := pp_token_list p; pp_part_list := pp_part_list p ++ [part]; pp_pending_fixed_value := pp_pending_fixed_value p;
     pp_index := pp_index p; pp_next_numeric_name := pp_next_numeric_name p |}.

Definition with_numeric_name (p : PatternParser) (number : Z) : PatternParser :=
  {| pp_token_list := pp_token_list p; pp_part_list := pp_part_list p; pp_pending_fixed_value := pp_pending_fixed_value p;
     pp_index := pp_index p; pp_next_numeric_name := number |}.

Definition try_to_consume_a_token (p : PatternParser) (type : TokenType) : res (option Token * PatternParser) :=
  verify (pp_index p <? length (pp_token_list p))%nat
    (let* next_token := at_index (pp_token_list p) (pp_index p) in
     if bool_decide (token_type next_token = type) then Ret (Some next_token, with_index_pp p (S (pp_index p)))
     else Ret (None, p)).

Definition try_to_consume_a_modifier_token (p : PatternParser) : res (option Token * PatternParser) :=
  let* (token, p) := try_to_consume_a_token p Tok_OtherModifier in
  match token with
  | Some token => Ret (Some token, p)
  | None => try_to_consume_a_token p Tok_Asterisk
  end.

Definition try_to_consume_a_regexp_or_wildcard_token (p : PatternParser) (name_token : option Token) : res (option Token * PatternParser) :=
  let* (token, p) := try_to_consume_a_token p Tok_Regexp in
  match name_token, token with
  | None, None => try_to_consume_a_token p Tok_Asterisk
  | _, _ => Ret (token, p)
  end.

Definition consume_a_required_token (p : PatternParser) (type : TokenType) : res (PatternErrorOr PatternParser) :=
  let* (result, p) := try_to_consume_a_token p type in
  match result with
  | None => Ret (inl (sv "Missing required token '" ++ token_type_to_string type ++ sv "' in URL pattern"))
  | Some _ => Ret (inr p)
  end.

Fixpoint consume_text_loop (fuel : nat) (p : PatternParser) (result : bytes) : res (bytes * PatternParser) :=
  match fuel with
  | O => Crash
  | S fuel =>
      let* (token, p) := try_to_consume_a_token p Tok_Char in
      let* (token, p) := (match token with None => try_to_consume_a_token p Tok_EscapedChar | _ => Ret (token, p) end) in
      match token with
      | None => Ret (result, p)
      | Some token => consume_text_loop fuel p (result ++ token_value token)
      end
  end.

Definition consume_text (p : PatternParser) : res (bytes * PatternParser) := consume_text_loop (S (length (pp_token_list p))) p [].

Definition is_a_duplicate_name (p : PatternParser) (name : bytes) : bool :=
  existsb (fun part => sv_eqb (part_name part) name) (pp_part_list p).

Section parser.
Context `{Simdutf, SimdutfCount, IcuIdentifiers}.
Variable encoding_callback : bytes -> res (PatternErrorOr bytes).
Variable segment_wildcard_regexp : bytes.

Definition maybe_add_a_part_from_the_pending_fixed_value (p : PatternParser) : res (PatternErrorOr PatternParser) :=
  if sv_is_empty (pp_pending_fixed_value p) then Ret (inr p)
  else
    try* encoded_value := encoding_callback (pp_pending_fixed_value p) in
    Ret (inr (with_part (with_pending p []) (simple_part FixedText encoded_value Modifier_None))).

Definition modifier_of (modifier_token : option Token) : Modifier :=
  match modifier_token with
  | Some token =>
      if sv_eqb (token_value token) (sv "?") then Modifier_Optional
      else if sv_eqb (token_value token) (sv "*") then ZeroOrMore
      else if sv_eqb (token_value token) (sv "+") then OneOrMore
      else Modifier_None
  | None => Modifier_None
  end.

(** Steps 6 to 12 of [add_a_part]: the type and the value *)
Definition type_and_value (regexp_or_wildcard_token : option Token) : PartType * bytes :=
  let regexp_value :=
    match regexp_or_wildcard_token with
    | None => segment_wildcard_regexp
    | Some token => if bool_decide (token_type token = Tok_Asterisk) then full_wildcard_regexp_value else token_value token
    end in
  if sv_eqb regexp_value segment_wildcard_regexp then (SegmentWildcard, [])
  else if sv_eqb regexp_value full_wildcard_regexp_value then (FullWildcard, [])
  else (Part_Regexp, regexp_value).

(** Steps 13 to 20: a matching group *)
Definition add_a_group (p : PatternParser) (prefix : bytes) (name_token regexp_or_wildcard_token : option Token) (suffix : bytes)
    (modifier : Modifier) : res (PatternErrorOr PatternParser) :=
  let (type, regexp_value) := type_and_value regexp_or_wildcard_token in
  let* (name, p) :=
    match name_token, regexp_or_wildcard_token with
    | Some name_token, _ => Ret (token_value name_token, p)
    | None, Some _ =>
        let* name := format_decimal (pp_next_numeric_name p) in
        Ret (name, with_numeric_name p (size_t (pp_next_numeric_name p + 1)))
    | None, None => Ret ([], p)
    end in
  if is_a_duplicate_name p name then Ret (inl (sv "Duplicate name '" ++ name ++ sv "' provided in URL pattern"))
  else
    try* encoded_prefix := encoding_callback prefix in
    try* encoded_suffix := encoding_callback suffix in
    Ret (inr (with_part p {| part_type := type; part_value := regexp_value; part_modifier := modifier; part_name := name;
                             part_prefix := encoded_prefix; part_suffix := encoded_suffix |})).

Definition add_a_part (p : PatternParser) (prefix : bytes) (name_token regexp_or_wildcard_token : option Token) (suffix : bytes)
    (modifier_token : option Token) : res (PatternErrorOr PatternParser) :=
  let modifier := modifier_of modifier_token in
  match name_token, regexp_or_wildcard_token with
  | None, None =>
      if bool_decide (modifier = Modifier_None) then Ret (inr (with_pending p (pp_pending_fixed_value p ++ prefix)))
      else
        try* p := maybe_add_a_part_from_the_pending_fixed_value p in
        verify (sv_is_empty suffix)
          (if sv_is_empty prefix then Ret (inr p)
           else
             try* encoded_value := encoding_callback prefix in
             Ret (inr (with_part p (simple_part FixedText encoded_value modifier))))
  | _, _ =>
      try* p := maybe_add_a_part_from_the_pending_fixed_value p in
      add_a_group p prefix name_token regexp_or_wildcard_token suffix modifier
  end.

(** Step 9 of the loop: a group in braces *)
Definition parse_a_grouping (p : PatternParser) : res (PatternErrorOr PatternParser) :=
  let* (prefix, p) := consume_text p in
  let* (name_token, p) := try_to_consume_a_token p Tok_Name in
  let* (regexp_or_wildcard_token, p) := try_to_consume_a_regexp_or_wildcard_token p name_token in
  let* (suffix, p) := consume_text p in
  try* p := consume_a_required_token p Tok_Close in
  let* (modifier_token, p) := try_to_consume_a_modifier_token p in
  add_a_part p prefix name_token regexp_or_wildcard_token suffix modifier_token.

(** Step 4 of the loop: a matching group *)
Definition parse_a_group (options : Options) (p : PatternParser) (char_token name_token regexp_or_wildcard_token : option Token)
  : res (PatternErrorOr PatternParser) :=
  let prefix := match char_token with Some token => token_value token | None => [] end in
  let (p, prefix) :=
    if negb (sv_is_empty prefix) && negb (is_prefix_code_point options prefix)
    then (with_pending p (pp_pending_fixed_value p ++ prefix), [])
    else (p, prefix) in
  try* p := maybe_add_a_part_from_the_pending_fixed_value p in
  let* (modifier_token, p) := try_to_consume_a_modifier_token p in
  add_a_part p prefix name_token regexp_or_wildcard_token [] modifier_token.

(** The body of the loop *)
Definition parse_step (options : Options) (p : PatternParser) : res (PatternErrorOr PatternParser) :=
  let* (char_token, p) := try_to_consume_a_token p Tok_Char in
  let* (name_token, p) := try_to_consume_a_token p Tok_Name in
  let* (regexp_or_wildcard_token, p) := try_to_consume_a_regexp_or_wildcard_token p name_token in
  match name_token, regexp_or_wildcard_token with
  | None, None =>
      let* (fixed_token, p) := (match char_token with None => try_to_consume_a_token p Tok_EscapedChar | _ => Ret (char_token, p) end) in
      match fixed_token with
      | Some token => Ret (inr (with_pending p (pp_pending_fixed_value p ++ token_value token)))
      | None =>
          let* (open_token, p) := try_to_consume_a_token p Tok_Open in
          match open_token with
          | Some _ => parse_a_grouping p
          | None =>
              try* p := maybe_add_a_part_from_the_pending_fixed_value p in
              consume_a_required_token p Tok_End
          end
      end
  | _, _ => parse_a_group options p char_token name_token regexp_or_wildcard_token
  end.

Fixpoint parse_loop (fuel : nat) (options : Options) (p : PatternParser) : res (PatternErrorOr PatternParser) :=
  match fuel with
  | O => Crash
  | S fuel =>
      if (pp_index p <? length (pp_token_list p))%nat then
        try* p := parse_step options p in
        parse_loop fuel options p
      else Ret (inr p)
  end.

End parser.

(** [PatternParser::parse] *)
Definition parse_a_pattern_string `{Simdutf, SimdutfCount, IcuIdentifiers} (input : bytes) (options : Options)
    (encoding_callback : bytes -> res (PatternErrorOr bytes)) : res (PatternErrorOr (list Part)) :=
  let* segment_wildcard_regexp := generate_a_segment_wildcard_regexp options in
  try* token_list := tokenize input Strict in
  let p := {| pp_token_list := token_list; pp_part_list := []; pp_pending_fixed_value := []; pp_index := 0; pp_next_numeric_name := 0 |} in
  try* p := parse_loop encoding_callback segment_wildcard_regexp (S (length token_list)) options p in
  Ret (inr (pp_part_list p)).

(** ** What an encoding callback promises to the parser *)

Definition short_text (text : bytes) : Prop := well_formed_utf8 text /\ Z.of_nat (length text) < 2 ^ 61.

(** The callback returns, and what it returns for the text is ASCII. *)
Definition canonical (callback : bytes -> res (PatternErrorOr bytes)) : Prop :=
  forall text, short_text text -> exists r, callback text = Ret r /\ forall value, r = inr value -> Forall (fun b => 0 <= b < 128) value.

(** Text does not become empty. *)
Definition keeps_text (callback : bytes -> res (PatternErrorOr bytes)) : Prop :=
  forall text value, short_text text -> text <> [] -> callback text = Ret (inr value) -> value <> [].
