(* ===== verification/PatternCanonicalization.v ===== *)
(** * URL patterns: canonicalization, [LibURL/Pattern/Canonicalization.cpp]

    Each component of a pattern has a function that brings its fixed text into
    the form that the same component of a URL has, by running the basic URL
    parser onto a dummy URL.  The lemmas say that they return on every
    well-formed text, and what their results look like: ASCII, so that the text
    can be escaped. *)

From S2P Require Import Prelude CharacterTypes Utf8 MemMem Strings TextCodec Percent Ipv4 Ipv6 Host Origin Url UrlParser UrlFacts UrlSafety UrlTheorems UrlRoundtrip FormUrlencoded SearchParams DomUrl UrlSetters UrlFit Tokens Wtf8 PatternTokenizer PatternParts.
Local Open Scope Z_scope.

Section canonicalization.
Context `{LookupTables, Icu, Simdutf, FastFloat, SimdutfCount}.

Definition create_a_dummy_url : res URL :=
  let* url := basic_parse (sv "https://dummy.invalid/") None None in
  unwrap url.

Definition canonicalize_a_protocol (value : bytes) : res (PatternErrorOr bytes) :=
  if sv_is_empty value then Ret (inr value)
  else
    let* parse_result := basic_parse (value ++ sv "://dummy.invalid") None None in
    match parse_result with
    | None => Ret (inl (sv "Failed to canonicalize URL protocol string"))
    | Some url => Ret (inr (scheme url))
    end.

Definition canonicalize_a_username (value : bytes) : res bytes :=
  if sv_is_empty value then Ret value
  else
    let* dummy_url := create_a_dummy_url in
    let* dummy_url := set_username dummy_url value in
    Ret (username dummy_url).

Definition canonicalize_a_password (value : bytes) : res bytes :=
  if sv_is_empty value then Ret value
  else
    let* dummy_url := create_a_dummy_url in
    let* dummy_url := set_password dummy_url value in
    Ret (password dummy_url).

Definition canonicalize_a_hostname (value : bytes) : res (PatternErrorOr bytes) :=
  if sv_is_empty value then Ret (inr value)
  else
    let* dummy_url := create_a_dummy_url in
    let* (dummy_url, parsed) := basic_parse_into value None (Some dummy_url) (Some State.Hostname) None in
    if negb parsed then Ret (inl (sv "Failed to canonicalize URL hostname string"))
    else
      match host dummy_url with
      | None => Ret (inr [])
      | Some host => let* text := host_serialize host in Ret (inr text)
      end.

(** The loop of [canonicalize_an_ipv6_hostname] *)
Fixpoint canonicalize_ipv6_loop (code_points result : list Z) : PatternErrorOr bytes :=
  match code_points with
  | [] => inr result
  | code_point :: code_points =>
      if negb (is_ascii_hex_digit code_point) && negb (code_point =? ch "[") && negb (code_point =? ch "]") && negb (code_point =? ch ":")
      then inl (sv "Failed to canonicalize IPv6 hostname string")
      else canonicalize_ipv6_loop code_points (result ++ [u8 (to_ascii_lowercase code_point)])
  end.

Definition canonicalize_an_ipv6_hostname (value : bytes) : res (PatternErrorOr bytes) :=
  Ret (canonicalize_ipv6_loop (code_points value) []).

Definition canonicalize_a_port (port_value : bytes) (protocol_value : option bytes) : res (PatternErrorOr bytes) :=
  if sv_is_empty port_value then Ret (inr port_value)
  else
    let* dummy_url := create_a_dummy_url in
    let dummy_url := match protocol_value with Some protocol_value => set_scheme dummy_url protocol_value | None => dummy_url end in
    let* (dummy_url, parsed) := basic_parse_into port_value None (Some dummy_url) (Some State.Port) None in
    if negb parsed then Ret (inl (sv "Failed to canonicalize port string"))
    else
      match port dummy_url with
      | None => Ret (inr [])
      | Some port => let* text := format_decimal port in Ret (inr text)
      end.

Definition canonicalize_a_pathname (value : bytes) : res bytes :=
  if sv_is_empty value then Ret value
  else
    let* first := at_index value 0 in
    let leading_slash := first =? ch "/" in
    let modified_value := (if negb leading_slash then sv "/-" else []) ++ value in
    let* dummy_url := create_a_dummy_url in
    let* dummy_url := set_paths dummy_url [] in
    let* (dummy_url, _) := basic_parse_into modified_value None (Some dummy_url) (Some State.PathStart) None in
    let* result := serialize_path dummy_url in
    if negb leading_slash then
      let* view := unicode_substring_view_from result 2 in
      must_from_utf8 view
    else Ret result.

Definition canonicalize_an_opaque_pathname (value : bytes) : res (PatternErrorOr bytes) :=
  if sv_is_empty value then Ret (inr value)
  else
    let* dummy_url := create_a_dummy_url in
    let* dummy_url := set_paths dummy_url [[]] in
    let dummy_url := set_has_an_opaque_path dummy_url true in
    let* (dummy_url, parsed) := basic_parse_into value None (Some dummy_url) (Some State.OpaquePath) None in
    if negb parsed then Ret (inl (sv "Failed to canonicalize opaque pathname string"))
    else let* path := serialize_path dummy_url in Ret (inr path).

Definition canonicalize_a_search (value : bytes) : res bytes :=
  if sv_is_empty value then Ret value
  else
    let* dummy_url := create_a_dummy_url in
    let dummy_url := set_query dummy_url (Some []) in
    let* (dummy_url, _) := basic_parse_into value None (Some dummy_url) (Some State.Query) None in
    unwrap (query dummy_url).

Definition canonicalize_a_hash (value : bytes) : res bytes :=
  if sv_is_empty value then Ret value
  else
    let* dummy_url := create_a_dummy_url in
    let dummy_url := set_fragment dummy_url (Some []) in
    let* (dummy_url, _) := basic_parse_into value None (Some dummy_url) (Some State.Fragment) None in
    unwrap (fragment dummy_url).

(** A function that cannot fail, as an encoding callback *)
Definition as_callback (canonicalize : bytes -> res bytes) (value : bytes) : res (PatternErrorOr bytes) :=
  let* result := canonicalize value in
  Ret (inr result).

End canonicalization.

(** ** The dummy URL *)

Definition dummy_url : URL := with_paths (with_host (with_scheme empty_url (sv "https")) (Some (HostString (sv "dummy.invalid")))) [[]].

Section facts.
Context `{LookupTablesLaws, IcuLaws, SimdutfLaws, FastFloatLaws, SimdutfCountLaws}.

Lemma dummy_domain_ok : domain_ok (sv "dummy.invalid").
Proof.
  assert (Ha : ascii (sv "dummy.invalid")) by by repeat constructor.
  split; [done|]. split; [done|]. split; [by repeat constructor|]. split; [done|]. split; [by vm_compute|].
  rewrite domain_to_ascii_ascii by done. by vm_compute.
Qed.

Lemma dummy_url_ok : url_ok dummy_url.
Proof.
  split; [split; try done|split; [|by split]|done|done].
  - by exists (ch "h"), (sv "ttps").
  - left. split; [apply dummy_domain_ok|done].
  - apply Forall_singleton. by split.
Qed.

Lemma create_dummy : create_a_dummy_url = Ret dummy_url.
Proof.
  unfold create_a_dummy_url. rewrite (serialize_parse dummy_url); [done|apply dummy_url_ok|done|by vm_compute|done].
Qed.

(** The parser onto a record, with what it returned *)
Lemma parse_onto_into u input st u' : parse_onto u input st = Ret u' ->
  exists ok, basic_parse_into input None (Some u) (Some st) None = Ret (u', ok).
Proof.
  unfold parse_onto. destruct (basic_parse_into _ _ _ _ _) as [[v ok]|]; [|done]. cbn [res_bind]. intros [= ->]. by exists ok.
Qed.

(** ** The functions are canonical *)

Lemma short_text_fits text : short_text text -> fits text.
Proof. intros [Hw Hl]. split; [by apply well_formed_bytes|lia]. Qed.

Lemma app_fits extra text : ascii extra -> Z.of_nat (length extra) < 2 ^ 61 -> short_text text -> fits (extra ++ text) /\ fits (text ++ extra).
Proof.
  intros Ha Hl [Hw Hs]. pose proof (well_formed_bytes text Hw). pose proof (ascii_bytes extra Ha).
  split; (split; [by apply Forall_app|rewrite length_app; lia]).
Qed.

Lemma scheme_ascii s : scheme_ok s -> ascii s /\ s <> [].
Proof.
  intros (c & rest & -> & Hc & Hr). split; [|done]. constructor; [ascii_lia|]. apply forallb_Forall_iff in Hr.
  eapply Forall_impl; [exact Hr|]. cbn. intros x Hx. by apply scheme_char_lower.
Qed.

(** Both promises at once *)
Lemma promise callback :
  (forall text, short_text text -> exists r, callback text = Ret r /\ forall value, r = inr value -> ascii value /\ (text <> [] -> value <> [])) ->
  canonical callback /\ keeps_text callback.
Proof.
  intros Hmain. split.
  - intros text Ht. destruct (Hmain text Ht) as (r & E & Hr). exists r. split; [done|]. intros value Hv. by apply Hr.
  - intros text value Ht Hne E. destruct (Hmain text Ht) as (r & E' & Hr). rewrite E' in E. injection E as E. by apply Hr.
Qed.

Lemma protocol_canonical : canonical canonicalize_a_protocol /\ keeps_text canonicalize_a_protocol.
Proof.
  apply promise. intros text Ht. unfold canonicalize_a_protocol.
  destruct text as [|b text]; [exists (inr []); by split; [|intros ? [= <-]]|]. cbn [sv_is_empty].
  destruct (app_fits (sv "://dummy.invalid") (b :: text)) as [_ Hf]; [by repeat constructor|done|done|].
  destruct (basic_parse_ok _ None None Hf ltac:(done)) as (r & -> & Hr). cbn [res_bind].
  destruct r as [u|]; [|by eexists]. eexists. split; [done|]. intros value [= <-].
  destruct (scheme_ascii (scheme u)) as [? ?]; [apply (front_scheme u), ok_front; by apply Hr|done].
Qed.

Lemma code_points_of_encoded cps : scalars cps -> code_points (utf8_encode cps) = cps.
Proof.
  intros Hs. rewrite <- (app_nil_r (utf8_encode cps)), code_points_utf8_encode by by apply scalars_range. apply app_nil_r.
Qed.

(** *** User name and password *)
Lemma userinfo_encoded text : short_text text -> exists s, percent_encode text Userinfo false = Ret s /\ ascii s /\ (text <> [] -> s <> []).
Proof.
  intros [Hw Hl]. rewrite percent_encode_ok by by apply well_formed_bytes. eexists. split; [done|].
  destruct Hw as (cps & Hs & ->). rewrite code_points_of_encoded by done. split.
  - apply Forall_bind. eapply Forall_impl; [by apply scalars_range|]. cbn. intros c Hc. eapply clean_ascii, encoded_unit_clean. done.
  - destruct cps as [|c cps]; [done|]. intros _. cbn. pose proof (encoded_unit_nonempty Userinfo c). by destruct (encoded_unit Userinfo c).
Qed.

Lemma username_canonical : canonical (as_callback canonicalize_a_username) /\ keeps_text (as_callback canonicalize_a_username).
Proof.
  apply promise. intros text Ht. unfold as_callback, canonicalize_a_username.
  destruct text as [|b text]; [exists (inr []); by split; [|intros ? [= <-]]|]. cbn [sv_is_empty].
  rewrite create_dummy. cbn [res_bind]. unfold set_username. destruct (userinfo_encoded _ Ht) as (s & -> & Ha & Hs). cbn [res_bind].
  eexists. split; [done|]. by intros ? [= <-].
Qed.

Lemma password_canonical : canonical (as_callback canonicalize_a_password) /\ keeps_text (as_callback canonicalize_a_password).
Proof.
  apply promise. intros text Ht. unfold as_callback, canonicalize_a_password.
  destruct text as [|b text]; [exists (inr []); by split; [|intros ? [= <-]]|]. cbn [sv_is_empty].
  rewrite create_dummy. cbn [res_bind]. unfold set_password. destruct (userinfo_encoded _ Ht) as (s & -> & Ha & Hs). cbn [res_bind].
  eexists. split; [done|]. by intros ? [= <-].
Qed.

(** *** The hostname *)
Lemma host_serialized_ascii is_opaque h : host_ok is_opaque h -> exists text, host_serialize h = Ret text /\ ascii text.
Proof.
  intros Hok. destruct (host_text_shape is_opaque h Hok) as (text & Hs & _ & _ & Ht). exists text. split; [done|].
  by apply (authority_ascii true), host_text_authority.
Qed.

Lemma hostname_canonical : canonical canonicalize_a_hostname.
Proof.
  intros text Ht. unfold canonicalize_a_hostname. destruct text as [|b text]; [exists (inr []); by split; [|intros ? [= <-]]|]. cbn [sv_is_empty].
  rewrite create_dummy. cbn [res_bind].
  destruct (parse_onto_host dummy_url (b :: text) State.Hostname ltac:(by right) (short_text_fits _ Ht)) as (u' & Hp & Hr).
  apply parse_onto_into in Hp as [ok ->]. cbn [res_bind]. destruct ok; cbn [negb]; [|by eexists].
  assert (Hh : exists h, host u' = Some h /\ host_ok false h).
  { destruct Hr as [->|[(h & [Hok _] & ->)|[(h & n & [Hok _] & _ & _ & ->)|[? _]]]]; [|by exists h..|done].
    exists (HostString (sv "dummy.invalid")). split; [done|]. apply dummy_domain_ok. }
  destruct Hh as (h & -> & Hok). destruct (host_serialized_ascii false h Hok) as (s & -> & Ha). cbn [res_bind].
  eexists. split; [done|]. by intros ? [= <-].
Qed.

Lemma ipv6_loop_ascii cps : forall result r, Forall (fun cp => 0 <= cp <= 0x10FFFF) cps -> ascii result -> canonicalize_ipv6_loop cps result = r ->
  forall value, r = inr value -> ascii value /\ (length result + length cps = length value)%nat.
Proof.
  induction cps as [|c cps IH]; intros result r Hc Hr E value Hv; cbn [canonicalize_ipv6_loop] in E; [simplify_eq; split; [done|cbn; lia]|].
  apply Forall_cons in Hc as [Hc Hcs]. destruct (_ && _) eqn:Et; [by simplify_eq|].
  assert (Hlow : 0 <= u8 (to_ascii_lowercase c) < 128).
  { assert (Hascii : 0 <= c < 128) by ascii_lia. unfold u8. rewrite Z.mod_small; unfold to_ascii_lowercase; destruct (is_ascii_upper_alpha c) eqn:El; ascii_lia. }
  destruct (IH _ r Hcs ltac:(apply Forall_app; split; [exact Hr|by apply Forall_singleton]) E value Hv) as [Ha Hl].
  split; [done|]. rewrite length_app in Hl. cbn [length] in *. lia.
Qed.

Lemma ipv6_hostname_canonical : canonical canonicalize_an_ipv6_hostname /\ keeps_text canonicalize_an_ipv6_hostname.
Proof.
  apply promise. intros text [(cps & Hs & ->) Hl]. unfold canonicalize_an_ipv6_hostname. rewrite code_points_of_encoded by done. eexists. split; [done|].
  intros value Hv. destruct (ipv6_loop_ascii cps [] _ (scalars_range _ Hs) ltac:(constructor) eq_refl value Hv) as [Ha Hlen].
  split; [done|]. intros Hne ->. cbn [length] in Hlen. by destruct cps.
Qed.

(** *** The port *)
Lemma decimal_ascii n : 0 <= n < 2 ^ 64 -> exists s, format_decimal n = Ret s /\ ascii s.
Proof.
  intros Hn. destruct (format_decimal_prints n Hn) as (s & -> & Hp). exists s. split; [done|]. destruct Hp as (_ & Hd & _).
  apply forallb_Forall_iff in Hd. eapply Forall_impl; [exact Hd|]. intros c Hc. change (is_ascii_digit c = true) in Hc. ascii_lia.
Qed.

Lemma port_canonical protocol_value : canonical (fun value => canonicalize_a_port value protocol_value).
Proof.
  intros text Ht. unfold canonicalize_a_port. destruct text as [|b text]; [exists (inr []); by split; [|intros ? [= <-]]|]. cbn [sv_is_empty].
  rewrite create_dummy. cbn [res_bind]. cbv zeta. set (u := match protocol_value with Some _ => _ | None => _ end).
  assert (Hport : port u = None) by (unfold u; by destruct protocol_value).
  destruct (parse_onto_port u (b :: text) (short_text_fits _ Ht)) as (u' & Hp & Hr).
  apply parse_onto_into in Hp as [ok ->]. cbn [res_bind]. destruct ok; cbn [negb]; [|by eexists].
  destruct (port u') as [n|] eqn:Hn; [|exists (inr []); by split; [|intros ? [= <-]]].
  assert (Hrange : 0 <= n < 65536).
  { destruct Hr as [->|(m & Hm & ->)]; [congruence|]. unfold port_set in Hn. cbn in Hn. case_bool_decide; [done|]. congruence. }
  destruct (decimal_ascii n ltac:(lia)) as (s & -> & Ha). cbn [res_bind]. eexists. split; [done|]. by intros ? [= <-].
Qed.

(** *** The path *)
Lemma segments_ascii special segments : Forall (segment_ok special) segments -> ascii (slash_segments segments).
Proof.
  intros Hs. apply Forall_bind. eapply Forall_impl; [exact Hs|]. intros seg (Hp & _). constructor; [cbn; lia|].
  eapply Forall_impl; [exact Hp|]. cbn. intros x (Hc & _). destruct Hc as [Hc _]. lia.
Qed.

(** What is left of ASCII text after its first two characters; when there is
    only one the length wraps around, and the view is the first character. *)
Lemma substring_from_2 s : ascii s -> s <> [] -> exists v, unicode_substring_view_from s 2 = Ret v /\ ascii v.
Proof.
  intros Ha Hne. unfold unicode_substring_view_from.
  assert (Hsc : scalars s) by (eapply Forall_impl; [exact Ha|]; cbn; intros; ascii_lia).
  assert (He : forall l, ascii l -> utf8_encode l = l) by apply utf8_encode_ascii_list.
  assert (Hu : utf8_length s = Z.of_nat (length s)) by (rewrite <- (He s Ha) at 1; by apply utf8_length_encoded). rewrite Hu.
  destruct (decide (size_t (Z.of_nat (length s) - 2) = 2 ^ 64 - 1)) as [->|Hn].
  - destruct s as [|c s]; [done|]. apply Forall_cons in Ha as Hcs. destruct Hcs as [Hc Hs]. exists [c].
    split; [|by apply Forall_singleton]. unfold unicode_substring_view. cbn [unicode_substring_loop length Z.eqb].
    destruct (encode_cons_iterator c s ltac:(lia)) as (Hd & _ & Hi). rewrite (He _ Ha) in Hd, Hi. rewrite (He _ Hs) in Hi.
    rewrite Hd, Hi. change (size_t (2 + (2 ^ 64 - 1) - 1)) with 0. cbn [Z.eqb res_bind length Z.to_nat]. unfold substring_view.
    replace (S (length s) - S (length s))%nat with O by lia. replace (S (length s) - length s)%nat with 1%nat by lia. reflexivity.
  - assert (Hb : 0 <= size_t (Z.of_nat (length s) - 2) < 2 ^ 64) by (unfold size_t; apply Z.mod_pos_bound; lia).
    assert (Hle : (2 + Z.to_nat (size_t (Z.of_nat (length s) - 2)) <= length s)%nat).
    { destruct s as [|c [|d s]]; [done|done|]. assert (size_t (Z.of_nat (length (c :: d :: s)) - 2) <= Z.of_nat (length (c :: d :: s)) - 2)
        by (unfold size_t; apply Z.mod_le; cbn [length]; lia). lia. }
    replace (size_t (Z.of_nat (length s) - 2)) with (Z.of_nat (Z.to_nat (size_t (Z.of_nat (length s) - 2)))) by lia.
    pose proof (unicode_substring_encoded s 2 (Z.to_nat (size_t (Z.of_nat (length s) - 2))) Hsc ltac:(lia) Hle) as Hsub. rewrite (He s Ha) in Hsub. change (Z.of_nat 2) with 2 in Hsub.
    eexists. split; [exact Hsub|]. rewrite He; by apply Forall_take, Forall_drop.
Qed.

Lemma pathname_canonical : canonical (as_callback canonicalize_a_pathname).
Proof.
  intros text Ht. unfold as_callback, canonicalize_a_pathname.
  destruct text as [|b text]; [exists (inr []); by split; [|intros ? [= <-]]|]. cbn [sv_is_empty at_index lookup list_lookup unwrap res_bind]. cbv zeta.
  rewrite create_dummy. cbn [res_bind]. unfold set_paths. cbn [encode_paths res_bind]. set (text' := _ ++ b :: text).
  assert (Hf : fits text').
  { unfold text'. destruct (b =? ch "/"); cbn [negb]; (eapply proj1, app_fits; [by repeat constructor|by vm_compute|exact Ht]). }
  destruct (parse_onto_path dummy_url text' Hf eq_refl) as (u' & Hp & segments & -> & [Hseg _] & Hne).
  apply parse_onto_into in Hp as [ok ->]. cbn [res_bind].
  change (serialize_path (with_paths dummy_url segments)) with (Ret (slash_segments segments)). cbn [res_bind].
  assert (Ha : ascii (slash_segments segments)) by by eapply segments_ascii.
  destruct (negb (b =? ch "/")); cbn [res_bind]; [|exists (inr (slash_segments segments)); by split; [|intros ? [= <-]]].
  destruct (substring_from_2 (slash_segments segments) Ha) as (v & -> & Hv).
  { destruct segments; [|done]. by specialize (Hne (or_introl eq_refl)). }
  cbn [res_bind]. rewrite must_from_utf8_wtf8; [|by apply wtf8_ascii]. cbn [res_bind]. exists (inr v). by split; [|intros ? [= <-]].
Qed.

(** The parser in the opaque path state goes on to the query and the fragment. *)
Definition opaque_result (u' : URL) : Prop := has_an_opaque_path u' = true /\ exists path, paths u' = [path] /\ ascii path.

Definition opaque_inv (p : parser) : Prop :=
  match state p with
  | State.OpaquePath => has_an_opaque_path (url p) = true /\ paths (url p) = [[]] /\ ascii (buffer p)
  | State.Query | State.Fragment => opaque_result (url p) /\ encoder p = UTF8Encoder /\ all_bytes (buffer p)
  | _ => False
  end /\ encoder p = UTF8Encoder.

Lemma opaque_step cps before after p : code_point_range cps -> at_position cps before after p -> state p = State.OpaquePath -> opaque_inv p ->
  step_good cps (fun _ _ => opaque_inv) (fun u' _ => opaque_result u') p (opaque_path_state p (c after)).
Proof.
  intros Hcps Hpos Hs [Hinv Henc]. rewrite Hs in Hinv. destruct Hinv as (Hop & Hpaths & Hb).
  destruct (position_range cps Hcps _ _ _ Hpos) as [_ Hra]. unfold opaque_path_state. rewrite Hpaths. cbn [verify].
  assert (Hres : opaque_result (with_paths (url p) [buffer p])) by (split; [done|by exists (buffer p)]).
  assert (Hstay : forall x rest text, after = x :: rest -> ascii text ->
    step_good cps (fun _ _ => opaque_inv) (fun u' _ => opaque_result u') p (Ret (Advance (with_buffer p (buffer p ++ text))))).
  { intros x rest text -> Htext. eapply step_advance; [done|done|by right|]. unfold opaque_inv; fields. rewrite Hs.
    split; [|done]. split; [done|]. split; [done|]. by apply Forall_app. }
  destruct (c after =? ch "?") eqn:E1.
  { destruct after as [|x after]; [done|]. eapply step_advance; [done|done|ranked|]. split; [|done]. fields. split; [exact Hres|]. by split. }
  destruct (c after =? ch "#") eqn:E2.
  { destruct after as [|x after]; [done|]. eapply step_advance; [done|done|ranked|]. split; [|done]. fields. split; [exact Hres|]. by split. }
  destruct after as [|x after]; [by eapply step_end|]. apply Forall_cons in Hra as [Hx _]. cbn [c] in *. destruct (x =? 32) eqn:E3.
  - destruct (position_remaining cps Hcps _ _ _ _ Hpos) as [-> _]. cbn [res_bind]. destruct (_ || _); (eapply Hstay; [done|by repeat constructor]).
  - replace (x =? end_of_file) with false by (unfold end_of_file; lia). cbn [negb].
    rewrite append_if_necessary_ok by done. cbn [res_bind]. eapply Hstay; [done|]. eapply clean_ascii, encoded_unit_clean. done.
Qed.

Lemma opaque_query_step cps before after p : code_point_range cps -> at_position cps before after p -> state p = State.Query -> opaque_inv p ->
  step_good cps (fun _ _ => opaque_inv) (fun u' _ => opaque_result u') p (query_state (Some State.OpaquePath) p (c after)).
Proof.
  intros Hcps Hpos Hs [Hinv Henc]. rewrite Hs in Hinv. destruct Hinv as (Hres & He & Hb). destruct (position_range cps Hcps _ _ _ Hpos) as [_ Hra].
  unfold query_state. cbn [overridden negb andb orb].
  assert (Hp : (if negb (is_special (url p)) || sv_eqb (scheme (url p)) (sv "ws") || sv_eqb (scheme (url p)) (sv "wss")
    then let* encoder := utf8_encoder in Ret (with_encoder p encoder) else Ret p) = Ret p).
  { destruct (_ || _); [|done]. change utf8_encoder with (Ret UTF8Encoder). cbn [res_bind]. rewrite <- He. by destruct p. }
  rewrite Hp. cbn [res_bind]. destruct (c after =? end_of_file) eqn:Eeof.
  - apply Z.eqb_eq in Eeof as Hc. apply c_eof in Hc; [subst after|done]. rewrite He.
    destruct (percent_encode_after_encoding_clean UTF8Encoder (buffer p) (if is_special (url p) then SpecialQuery else Query) Hb) as (q & -> & _).
    cbn [res_bind c]. eapply step_end; [done|done|]. fields. exact Hres.
  - destruct after as [|x after]; [done|]. apply Forall_cons in Hra as [Hx _]. cbn [c]. eapply step_advance; [done|done|by right|]. unfold opaque_inv; fields.
    rewrite Hs. split; [|done]. split; [done|]. split; [done|]. by apply buffer_append.
Qed.

Lemma opaque_fragment_step cps before after p : code_point_range cps -> at_position cps before after p -> state p = State.Fragment -> opaque_inv p ->
  step_good cps (fun _ _ => opaque_inv) (fun u' _ => opaque_result u') p (fragment_state p (c after)).
Proof.
  intros Hcps Hpos Hs [Hinv Henc]. rewrite Hs in Hinv. destruct Hinv as (Hres & He & Hb). destruct (position_range cps Hcps _ _ _ Hpos) as [_ Hra].
  unfold fragment_state. destruct (c after =? end_of_file) eqn:Eeof; cbn [negb].
  - apply Z.eqb_eq in Eeof as Hc. apply c_eof in Hc; [subst after|done]. change utf8_encoder with (Ret UTF8Encoder). cbn [res_bind].
    destruct (percent_encode_after_encoding_clean UTF8Encoder (buffer p) Fragment Hb) as (f & -> & _).
    cbn [res_bind]. eapply step_end; [done|done|]. fields. exact Hres.
  - destruct after as [|x after]; [done|]. apply Forall_cons in Hra as [Hx _]. cbn [c]. eapply step_advance; [done|done|by right|]. unfold opaque_inv; fields.
    rewrite Hs. split; [|done]. split; [done|]. split; [done|]. by apply buffer_append.
Qed.

Lemma parse_onto_opaque u input : fits input -> has_an_opaque_path u = true -> paths u = [[]] ->
  exists u', parse_onto u input State.OpaquePath = Ret u' /\ opaque_result u'.
Proof.
  intros Hin Hop Hpaths. destruct (parse_onto_ends u input State.OpaquePath (fun _ _ => opaque_inv) (fun _ => opaque_result))
    as (cps & u' & _ & _ & Hp & Hr); [done|..|by exists u'].
  - intros cps before after p Hcps Hpos Hinv. unfold run_state. pose proof Hinv as [Hst _].
    destruct (state p) eqn:Hs; try done; [by eapply opaque_step|by eapply opaque_query_step|by eapply opaque_fragment_step].
  - intros cps. split; [|done]. cbn. split; [done|]. split; [done|constructor].
Qed.

Lemma opaque_pathname_canonical : canonical canonicalize_an_opaque_pathname.
Proof.
  intros text Ht. unfold canonicalize_an_opaque_pathname.
  destruct text as [|b text]; [exists (inr []); by split; [|intros ? [= <-]]|]. cbn [sv_is_empty].
  rewrite create_dummy. cbn [res_bind]. change (set_paths dummy_url [[]]) with (Ret (with_paths dummy_url [[]])). cbn [res_bind].
  destruct (parse_onto_opaque (set_has_an_opaque_path (with_paths dummy_url [[]]) true) (b :: text) (short_text_fits _ Ht) eq_refl eq_refl)
    as (u' & Hp & Hop & path & Hpaths & Ha).
  apply parse_onto_into in Hp as [ok ->]. cbn [res_bind]. destruct ok; cbn [negb]; [|by eexists].
  unfold serialize_path. rewrite Hop, Hpaths. cbn. exists (inr path). by split; [|intros ? [= <-]].
Qed.

(** *** The query and the fragment *)
Lemma search_canonical : canonical (as_callback canonicalize_a_search).
Proof.
  intros text Ht. unfold as_callback, canonicalize_a_search.
  destruct text as [|b text]; [exists (inr []); by split; [|intros ? [= <-]]|]. cbn [sv_is_empty]. rewrite create_dummy. cbn [res_bind].
  destruct (parse_onto_query dummy_url (b :: text) (short_text_fits _ Ht)) as (cps & q & Hs & _ & Hq & Hp).
  destruct (percent_encode_after_encoding_clean UTF8Encoder (utf8_encode cps) (query_set (is_special dummy_url))) as (q' & Hq' & Hc).
  { by apply utf8_encode_bytes, scalars_range. }
  rewrite Hq in Hq'. injection Hq' as <-.
  apply parse_onto_into in Hp as [ok Hp]. unfold set_query. rewrite Hp. cbn. exists (inr q). split; [done|]. intros ? [= <-]. by eapply clean_ascii.
Qed.

Lemma hash_canonical : canonical (as_callback canonicalize_a_hash).
Proof.
  intros text Ht. unfold as_callback, canonicalize_a_hash.
  destruct text as [|b text]; [exists (inr []); by split; [|intros ? [= <-]]|]. cbn [sv_is_empty]. rewrite create_dummy. cbn [res_bind].
  destruct (parse_onto_fragment dummy_url (b :: text) (short_text_fits _ Ht)) as (f & Hp & Hc).
  apply parse_onto_into in Hp as [ok Hp]. unfold set_fragment. rewrite Hp. cbn. exists (inr f). split; [done|]. intros ? [= <-]. by eapply clean_ascii.
Qed.
End facts.
