(* ===== verification/PatternFacts.v ===== *)
(** * URL patterns: what the pattern parser guarantees

    The tokens in front of the parser are the list [rest]; every step takes at
    least one of them or fails, and the parts that it adds are well-formed. *)

From S2P Require Import Prelude CharacterTypes Utf8 MemMem Strings Tokens Host Wtf8 PatternTokenizer PatternParts.
Local Open Scope Z_scope.

(** ** The parser between two lists of tokens *)

Definition pp_at (before rest : list Token) (parts : list Part) (pending : bytes) (number : Z) : PatternParser :=
  {| pp_token_list := before ++ rest; pp_part_list := parts; pp_pending_fixed_value := pending; pp_index := length before;
     pp_next_numeric_name := number |}.

Lemma try_at before token rest parts pending number type :
  try_to_consume_a_token (pp_at before (token :: rest) parts pending number) type
  = Ret (if bool_decide (token_type token = type) then (Some token, pp_at (before ++ [token]) rest parts pending number)
         else (None, pp_at before (token :: rest) parts pending number)).
Proof.
  unfold try_to_consume_a_token. cbn [pp_index pp_token_list pp_at]. rewrite length_app, (proj2 (Nat.ltb_lt _ _)) by (cbn; lia).
  cbn [verify]. unfold at_index. rewrite (list_lookup_middle before rest token (length before)) by done. cbn [unwrap res_bind].
  case_bool_decide; [|done]. unfold pp_at, with_index_pp. cbn. rewrite <- app_assoc, length_app, Nat.add_1_r. done.
Qed.

Lemma modifier_at before token rest parts pending number :
  try_to_consume_a_modifier_token (pp_at before (token :: rest) parts pending number)
  = Ret (if bool_decide (token_type token = Tok_OtherModifier \/ token_type token = Tok_Asterisk)
         then (Some token, pp_at (before ++ [token]) rest parts pending number)
         else (None, pp_at before (token :: rest) parts pending number)).
Proof.
  unfold try_to_consume_a_modifier_token. rewrite try_at. cbn [res_bind].
  destruct (decide (token_type token = Tok_OtherModifier)) as [E|N]; [by rewrite !bool_decide_eq_true_2 by auto|].
  rewrite (bool_decide_eq_false_2 _ N). cbn [res_bind]. rewrite try_at.
  destruct (decide (token_type token = Tok_Asterisk)) as [E|N']; [by rewrite !bool_decide_eq_true_2 by auto|].
  by rewrite !bool_decide_eq_false_2 by tauto.
Qed.

Lemma regexp_or_wildcard_at before token rest parts pending number name_token :
  try_to_consume_a_regexp_or_wildcard_token (pp_at before (token :: rest) parts pending number) name_token
  = Ret (if bool_decide (token_type token = Tok_Regexp \/ (name_token = None /\ token_type token = Tok_Asterisk))
         then (Some token, pp_at (before ++ [token]) rest parts pending number)
         else (None, pp_at before (token :: rest) parts pending number)).
Proof.
  unfold try_to_consume_a_regexp_or_wildcard_token. rewrite try_at. cbn [res_bind]. destruct name_token as [t|].
  - destruct (decide (token_type token = Tok_Regexp)) as [E|N].
    + by rewrite !bool_decide_eq_true_2 by auto.
    + rewrite bool_decide_eq_false_2 by done. rewrite bool_decide_eq_false_2 by (intros [?|[? _]]; done). done.
  - destruct (decide (token_type token = Tok_Regexp)) as [E|N]; [by rewrite !bool_decide_eq_true_2 by auto|].
    rewrite (bool_decide_eq_false_2 _ N). cbn [res_bind]. rewrite try_at.
    destruct (decide (token_type token = Tok_Asterisk)) as [E|N']; [by rewrite !bool_decide_eq_true_2 by auto|].
    by rewrite !bool_decide_eq_false_2 by tauto.
Qed.

(** The tokens of plain text *)
Definition is_text (token : Token) : bool := bool_decide (token_type token = Tok_Char) || bool_decide (token_type token = Tok_EscapedChar).

Lemma consume_text_at fuel : forall texts before token rest parts pending number result,
  Forall (fun t => is_text t = true) texts -> is_text token = false -> (length texts < fuel)%nat ->
  consume_text_loop fuel (pp_at before (texts ++ token :: rest) parts pending number) result
  = Ret (result ++ concat (map token_value texts), pp_at (before ++ texts) (token :: rest) parts pending number).
Proof.
  induction fuel as [|fuel IH]; intros texts before token rest parts pending number result Ht Hn Hf; [lia|]. cbn [consume_text_loop].
  apply orb_false_iff in Hn as Hn'. destruct Hn' as [Hn1 Hn2]. destruct Ht as [|t texts Ht Hts].
  - cbn [app map concat]. rewrite try_at, Hn1. cbn [res_bind]. rewrite try_at, Hn2. cbn [res_bind]. by rewrite !app_nil_r.
  - cbn [app]. rewrite try_at. cbn [res_bind length] in *. apply orb_true_iff in Ht as [Ht|Ht].
    + rewrite Ht. cbn [res_bind]. rewrite IH by (done || lia). cbn [map concat]. by rewrite <- !app_assoc.
    + apply bool_decide_eq_true_1 in Ht as Et. rewrite bool_decide_eq_false_2 by by rewrite Et. cbn [res_bind]. rewrite try_at, Ht. cbn [res_bind].
      rewrite IH by (done || lia). cbn [map concat]. by rewrite <- !app_assoc.
Qed.

Lemma consume_text_spec texts before token rest parts pending number :
  Forall (fun t => is_text t = true) texts -> is_text token = false ->
  consume_text (pp_at before (texts ++ token :: rest) parts pending number)
  = Ret (concat (map token_value texts), pp_at (before ++ texts) (token :: rest) parts pending number).
Proof.
  intros Ht Hn. unfold consume_text. cbn [pp_token_list pp_at]. apply (consume_text_at _ texts before token rest parts pending number []); try done.
  rewrite !length_app. lia.
Qed.

(** Text in front of the last token stops somewhere. *)
Lemma split_texts rest last : is_text last = false ->
  exists texts token rest', rest ++ [last] = texts ++ token :: rest' /\ Forall (fun t => is_text t = true) texts /\ is_text token = false
    /\ (token :: rest' = [last] \/ exists rest'', rest' = rest'' ++ [last] /\ rest = texts ++ token :: rest'').
Proof.
  intros Hl. induction rest as [|t rest IH]; [exists [], last, []; by auto|]. cbn [app]. destruct (is_text t) eqn:E.
  - destruct IH as (texts & token & rest' & -> & Ht & Hn & Hr). exists (t :: texts), token, rest'. split; [done|]. split; [by constructor|].
    split; [done|]. destruct Hr as [Hr|(rest'' & -> & ->)]; [by left|]. right. by exists rest''.
  - exists [], t, (rest ++ [last]). split; [done|]. split; [constructor|]. split; [done|]. right. by exists rest.
Qed.

(** ** Well-formed parts *)

Definition group_names (parts : list Part) : list bytes :=
  part_name <$> List.filter (fun part => negb (bool_decide (part_type part = FixedText))) parts.

Lemma group_names_app parts1 parts2 : group_names (parts1 ++ parts2) = group_names parts1 ++ group_names parts2.
Proof. unfold group_names. by rewrite List.filter_app, fmap_app. Qed.

Section parsing.
Context `{SimdutfLaws, SimdutfCountLaws, IcuIdentifiers}.
Variable callback : bytes -> res (PatternErrorOr bytes).
Variable segment_wildcard_regexp : bytes.

(** A text that the callback returned *)
Definition encoded_text (value : bytes) : Prop := exists text, short_text text /\ callback text = Ret (inr value).

Definition part_ok (part : Part) : Prop :=
  match part_type part with
  | FixedText =>
      part_name part = [] /\ part_prefix part = [] /\ part_suffix part = []
      /\ exists text, text <> [] /\ short_text text /\ callback text = Ret (inr (part_value part))
  | type =>
      part_name part <> [] /\ well_formed_utf8 (part_name part) /\ encoded_text (part_prefix part) /\ encoded_text (part_suffix part)
      /\ if bool_decide (type = Part_Regexp) then part_value part <> [] /\ Forall (fun c => 0 <= c < 128) (part_value part)
         else part_value part = []
  end.

Definition parts_ok (parts : list Part) : Prop := Forall part_ok parts /\ NoDup (group_names parts).

Hypothesis Hcallback : forall text, short_text text -> exists r, callback text = Ret r.

Record parser_ok (before rest : list Token) (parts : list Part) (pending : bytes) (number : Z) : Prop := {
  rest_ok : rest = [] \/ exists body last, rest = body ++ [last] /\ Forall token_ok body /\ token_type last = Tok_End;
  rest_parts : parts_ok parts;
  rest_pending : well_formed_utf8 pending /\ (length pending <= 4 * length before)%nat;
  rest_number : 0 <= number <= Z.of_nat (length before);
  rest_size : Z.of_nat (length (before ++ rest)) < 2 ^ 58
}.

(** A result: an error, or a parser with at most [n] tokens in front of it *)
Definition advances (n : nat) (r : res (PatternErrorOr PatternParser)) : Prop :=
  (exists error, r = Ret (inl error)) \/
  exists before rest parts pending number, r = Ret (inr (pp_at before rest parts pending number))
    /\ parser_ok before rest parts pending number /\ (length rest <= n)%nat.

Lemma token_text_wf token : token_ok token -> is_text token = true -> well_formed_utf8 (token_value token) /\ (length (token_value token) <= 4)%nat.
Proof.
  assert (Hone : forall c, scalars [c] -> well_formed_utf8 (utf8_encode [c]) /\ (length (utf8_encode [c]) <= 4)%nat).
  { intros c Hc. split; [by apply encode_wf|]. apply Forall_cons in Hc as [Hc _]. rewrite utf8_encode_cons by by apply scalar_range.
    cbn [utf8_encode]. rewrite app_nil_r. unfold encoded. repeat case_match; cbn; lia. }
  unfold token_ok, is_text. intros Hok Ht. destruct (token_type token); try done.
  - destruct Hok as (c & Hc & -> & _). by apply Hone.
  - destruct Hok as (c & Hc & ->). by apply Hone.
Qed.

Lemma texts_wf texts : Forall token_ok texts -> Forall (fun t => is_text t = true) texts ->
  well_formed_utf8 (concat (map token_value texts)) /\ (length (concat (map token_value texts)) <= 4 * length texts)%nat.
Proof.
  induction 1 as [|t texts Hok Hoks IH]; intros Ht; [split; [by apply encode_wf with (cps := [])|done]|]. apply Forall_cons in Ht as [Ht Hts].
  cbn [map concat]. destruct (token_text_wf t Hok Ht) as [Hw Hl]. destruct (IH Hts) as [Hws Hls].
  split; [by apply well_formed_app|rewrite length_app; cbn [length]; lia].
Qed.

(** Text that came from the tokens before is short. *)
Lemma before_short before rest parts pending number text : parser_ok before rest parts pending number ->
  well_formed_utf8 text -> (length text <= 4 * length before)%nat -> short_text text.
Proof. intros [_ _ _ _ Hs] Hw Hl. split; [done|]. rewrite length_app in Hs. lia. Qed.

Lemma flush_at before rest parts pending number :
  parser_ok before rest parts pending number ->
  (exists error, maybe_add_a_part_from_the_pending_fixed_value callback (pp_at before rest parts pending number) = Ret (inl error)) \/
  exists parts', maybe_add_a_part_from_the_pending_fixed_value callback (pp_at before rest parts pending number)
      = Ret (inr (pp_at before rest parts' [] number)) /\ parser_ok before rest parts' [] number.
Proof.
  intros [Hr [Hp Hnd] Hw Hn Hs]. unfold maybe_add_a_part_from_the_pending_fixed_value. cbn [pp_pending_fixed_value pp_at].
  assert (Hnil : well_formed_utf8 []) by by apply encode_wf with (cps := []).
  destruct pending as [|b pending]; [right; by exists parts|]. cbn [sv_is_empty].
  assert (Hshort : short_text (b :: pending)) by (split; [apply Hw|rewrite length_app in Hs; lia]).
  destruct (Hcallback (b :: pending) Hshort) as [[error|value] E].
  - left. exists error. by rewrite E.
  - right. exists (parts ++ [simple_part FixedText value Modifier_None]). rewrite E. cbn [res_bind]. split; [done|].
    split; try done; [|by split; [|cbn; lia]]. split.
    + apply Forall_app. split; [done|]. apply Forall_singleton. split; [done|]. split; [done|]. split; [done|]. by exists (b :: pending).
    + rewrite group_names_app. by rewrite app_nil_r.
Qed.

Lemma part_added before rest parts pending number part :
  parser_ok before rest parts pending number -> part_ok part -> (part_type part = FixedText \/ part_name part ∉ group_names parts) ->
  parser_ok before rest (parts ++ [part]) pending number.
Proof.
  intros [Hr [Hp Hnd] Hw Hn Hs] Hok Hnew. split; try done. split; [apply Forall_app; split; [done|by apply Forall_singleton]|].
  rewrite group_names_app. unfold group_names at 2. cbn [List.filter]. case_bool_decide as Ht; cbn [negb]; [by rewrite app_nil_r|].
  destruct Hnew as [?|Hnew]; [done|]. apply NoDup_app. split; [done|]. split; [|apply NoDup_singleton].
  intros name Hin Hin'. apply list_elem_of_singleton in Hin' as ->. done.
Qed.

Lemma duplicate_spec before rest parts pending number name : name <> [] -> parts_ok parts ->
  is_a_duplicate_name (pp_at before rest parts pending number) name = false -> name ∉ group_names parts.
Proof.
  intros Hne _ Hd Hin. unfold is_a_duplicate_name in Hd. cbn [pp_part_list pp_at] in Hd. apply existsb_false_forall in Hd.
  unfold group_names in Hin. apply list_elem_of_fmap in Hin as (part & -> & Hin). apply list_elem_of_In, List.filter_In in Hin as [Hin _].
  apply list_elem_of_In in Hin. rewrite Forall_forall in Hd. specialize (Hd part Hin). cbn in Hd. by rewrite sv_eqb_refl in Hd.
Qed.

(** The tokens that make a matching group *)
Definition group_tokens_ok (name_token regexp_or_wildcard_token : option Token) : Prop :=
  match name_token with Some t => token_ok t /\ token_type t = Tok_Name | None => True end
  /\ match regexp_or_wildcard_token with
     | Some t => token_ok t /\ (token_type t = Tok_Regexp \/ token_type t = Tok_Asterisk)
     | None => True
     end
  /\ (name_token <> None \/ regexp_or_wildcard_token <> None).

(** [number] after a group without a name has been added *)
Lemma add_a_group_at before rest parts number prefix suffix name_token regexp_or_wildcard_token modifier :
  parser_ok before rest parts [] number -> number < Z.of_nat (length before) \/ name_token <> None ->
  short_text prefix -> short_text suffix -> group_tokens_ok name_token regexp_or_wildcard_token ->
  advances (length rest) (add_a_group callback segment_wildcard_regexp (pp_at before rest parts [] number) prefix name_token
    regexp_or_wildcard_token suffix modifier).
Proof.
  intros Hp Hnum Hpre Hsuf (Hname & Hregexp & Hsome). unfold add_a_group.
  set (tv := type_and_value segment_wildcard_regexp regexp_or_wildcard_token).
  assert (Htv : tv.1 <> FixedText /\ if bool_decide (tv.1 = Part_Regexp) then tv.2 <> [] /\ Forall (fun c => 0 <= c < 128) tv.2 else tv.2 = []).
  { unfold tv, type_and_value. cbv zeta. set (v := match regexp_or_wildcard_token with Some _ => _ | None => _ end).
    destruct (sv_eqb v segment_wildcard_regexp) eqn:E1; [done|]. destruct (sv_eqb v full_wildcard_regexp_value) eqn:E2; [done|].
    split; [done|]. cbn [fst snd]. rewrite bool_decide_eq_true_2 by done. unfold v in *. destruct regexp_or_wildcard_token as [t|].
    - destruct Hregexp as [Hok [Et|Et]]; rewrite Et in *; [|done]. cbn [bool_decide] in *. rewrite bool_decide_eq_false_2 by done.
      unfold token_ok in Hok. rewrite Et in Hok. by destruct Hok as (? & ? & _).
    - by rewrite sv_eqb_refl in E1. }
  destruct tv as [type value]. cbn [fst snd] in Htv. destruct Htv as [Hfix Hval].
  assert (Hend : forall name number', name <> [] -> well_formed_utf8 name -> 0 <= number' <= Z.of_nat (length before) ->
    advances (length rest)
      (if is_a_duplicate_name (pp_at before rest parts [] number') name then Ret (inl (sv "Duplicate name '" ++ name ++ sv "' provided in URL pattern"))
       else try* encoded_prefix := callback prefix in try* encoded_suffix := callback suffix in
         Ret (inr (with_part (pp_at before rest parts [] number') {| part_type := type; part_value := value; part_modifier := modifier;
           part_name := name; part_prefix := encoded_prefix; part_suffix := encoded_suffix |})))).
  { intros name number' Hne Hwf Hn'. destruct (is_a_duplicate_name _ name) eqn:Ed; [left; by eexists|].
    destruct (Hcallback prefix Hpre) as [[e|ep] Ep]; rewrite Ep; cbn [res_bind]; [left; by eexists|].
    destruct (Hcallback suffix Hsuf) as [[e|es] Es]; rewrite Es; cbn [res_bind]; [left; by eexists|].
    right. eexists before, rest, (parts ++ [_]), [], number'. split; [done|]. split; [|done].
    apply part_added; [destruct Hp; by split| |right; cbn [part_name]; destruct Hp; by eapply duplicate_spec].
    unfold part_ok. cbn. destruct type; [done|..]; (split; [done|]); (split; [done|]); (split; [by exists prefix|]); (split; [by exists suffix|]); done. }
  destruct name_token as [t|].
  - destruct Hname as [Hok Et]. unfold token_ok in Hok. rewrite Et in Hok. destruct Hok as (name & Hs & Ev & Hne & _). cbn [res_bind]. rewrite Ev.
    apply Hend; [|by apply encode_wf|apply Hp]. intros E. destruct name as [|c name]; [done|]. apply Forall_cons in Hs as [Hc _].
    rewrite utf8_encode_cons in E by by apply scalar_range. apply app_eq_nil in E as [E _]. by apply encoded_nonempty in E.
  - destruct regexp_or_wildcard_token as [t|]; [|by destruct Hsome]. cbn [pp_next_numeric_name pp_at]. destruct Hnum as [Hnum|]; [|done].
    pose proof (rest_number _ _ _ _ _ Hp). pose proof (rest_size _ _ _ _ _ Hp) as Hsz. rewrite length_app in Hsz.
    destruct (format_decimal_prints number) as (name & -> & Hprints); [lia|]. cbn [res_bind].
    destruct Hprints as (Hne & Hdig & _). unfold size_t. rewrite Z.mod_small by lia.
    apply (Hend name (number + 1)); [done| |lia]. apply well_formed_ascii. apply forallb_Forall_iff in Hdig.
    eapply Forall_impl; [exact Hdig|]. intros c Hc. change (is_ascii_digit c = true) in Hc. unfold is_ascii_digit in Hc. lia.
Qed.

Lemma advances_mono n m r : (n <= m)%nat -> advances n r -> advances m r.
Proof.
  intros Hnm [Herr|(before & rest & parts & pending & number & E & Hok & Hl)]; [by left|]. right.
  exists before, rest, parts, pending, number. split; [done|]. split; [done|lia].
Qed.

Lemma after_flush n before rest parts pending number (k : PatternParser -> res (PatternErrorOr PatternParser)) :
  parser_ok before rest parts pending number ->
  (forall parts', parser_ok before rest parts' [] number -> advances n (k (pp_at before rest parts' [] number))) ->
  advances n (try* p := maybe_add_a_part_from_the_pending_fixed_value callback (pp_at before rest parts pending number) in k p).
Proof.
  intros Hp Hk. destruct (flush_at _ _ _ _ _ Hp) as [[error ->]|(parts' & -> & Hp')]; cbn [res_bind]; [left; by exists error|by apply Hk].
Qed.

Lemma pending_ok before rest parts pending number pending' :
  parser_ok before rest parts pending number -> well_formed_utf8 pending' -> (length pending' <= 4 * length before)%nat ->
  parser_ok before rest parts pending' number.
Proof. intros [Hr Hp Hw Hn Hs] Hw' Hl'. by split. Qed.

Lemma add_a_part_at before rest parts pending number prefix suffix name_token regexp_or_wildcard_token modifier_token :
  parser_ok before rest parts pending number ->
  (name_token = None -> regexp_or_wildcard_token <> None -> number < Z.of_nat (length before)) ->
  well_formed_utf8 prefix -> (length pending + length prefix <= 4 * length before)%nat -> short_text suffix ->
  (name_token = None -> regexp_or_wildcard_token = None -> suffix = []) ->
  (name_token <> None \/ regexp_or_wildcard_token <> None -> group_tokens_ok name_token regexp_or_wildcard_token) ->
  advances (length rest) (add_a_part callback segment_wildcard_regexp (pp_at before rest parts pending number) prefix name_token
    regexp_or_wildcard_token suffix modifier_token).
Proof.
  intros Hp Hnum Hwf Hlen Hsuf Hnone Htok. unfold add_a_part. cbv zeta.
  assert (Hpre : short_text prefix) by (eapply before_short; [exact Hp|done|lia]).
  assert (Hgroup : name_token <> None \/ regexp_or_wildcard_token <> None -> advances (length rest)
    (try* p := maybe_add_a_part_from_the_pending_fixed_value callback (pp_at before rest parts pending number) in
     add_a_group callback segment_wildcard_regexp p prefix name_token regexp_or_wildcard_token suffix (modifier_of modifier_token))).
  { intros Hsome. apply after_flush; [done|]. intros parts' Hp'. apply add_a_group_at; try done; [|by apply Htok].
    destruct name_token; [by right|]. left. apply Hnum; [done|]. by destruct Hsome. }
  destruct name_token as [nt|]; [by apply Hgroup; left|]. destruct regexp_or_wildcard_token as [rt|]; [by apply Hgroup; right|].
  rewrite (Hnone eq_refl eq_refl). case_bool_decide as Hm.
  - right. exists before, rest, parts, (pending ++ prefix), number. split; [done|]. split; [|done].
    eapply pending_ok; [exact Hp|apply well_formed_app; [apply Hp|done]|rewrite length_app; lia].
  - apply after_flush; [done|]. intros parts' Hp'. cbn [sv_is_empty verify]. destruct (sv_is_empty prefix) eqn:Ee.
    { right. eexists before, rest, parts', [], number. split; [done|]. by split. }
    destruct (Hcallback prefix Hpre) as [[e|value] E]; rewrite E; cbn [res_bind]; [left; by eexists|]. right.
    eexists before, rest, (parts' ++ [_]), [], number. split; [done|]. split; [|done]. apply part_added; [done| |by left].
    split; [done|]. split; [done|]. split; [done|]. exists prefix. by destruct prefix.
Qed.

(** Taking a token that is not the last one *)
Lemma parser_ok_next before token rest parts pending number :
  parser_ok before (token :: rest) parts pending number -> token_type token <> Tok_End ->
  token_ok token /\ parser_ok (before ++ [token]) rest parts pending number /\ exists t rest', rest = t :: rest'.
Proof.
  intros [Hr Hp Hw Hn Hs] Ht. destruct Hr as [?|(body & last & E & Hb & Hl)]; [done|]. destruct body as [|t body].
  { injection E as -> ->. by rewrite Hl in Ht. }
  injection E as -> ->. apply Forall_cons in Hb as [Hok Hb]. split; [done|]. split.
  - split; try done; [right; by exists body, last|split; [apply Hw|rewrite length_app; lia]|rewrite length_app; lia|by rewrite <- app_assoc].
  - destruct body as [|t' body]; by eexists _, _.
Qed.

Lemma text_not_end token : is_text token = true -> token_type token <> Tok_End.
Proof. unfold is_text. intros Ht E. rewrite E in Ht. done. Qed.

(** Reading text *)
Lemma consume_text_ok before t rest parts pending number :
  parser_ok before (t :: rest) parts pending number ->
  exists text before' token rest', consume_text (pp_at before (t :: rest) parts pending number)
      = Ret (text, pp_at before' (token :: rest') parts pending number)
    /\ parser_ok before' (token :: rest') parts pending number /\ is_text token = false /\ well_formed_utf8 text
    /\ (length text + 4 * length before <= 4 * length before')%nat /\ (length rest' <= length rest)%nat /\ (is_text t = false -> text = [] /\ before' = before).
Proof.
  intros Hp. destruct (rest_ok _ _ _ _ _ Hp) as [?|(body & last & E & Hb & Hl)]; [done|].
  assert (Hlast : is_text last = false) by (unfold is_text; by rewrite Hl).
  destruct (split_texts body last Hlast) as (texts & token & rest' & Es & Ht & Hn & Hcase).
  assert (Htexts : Forall token_ok texts).
  { destruct Hcase as [Hr|(rest'' & -> & Eb)]; [|rewrite Eb in Hb; by apply Forall_app in Hb as [? _]].
    rewrite Hr in Es. apply app_inj_2 in Es as [<- _]; done. }
  assert (Hp' : parser_ok (before ++ texts) (token :: rest') parts pending number).
  { destruct Hp as [Hr Hpp Hw Hn' Hs].
    split; try done; [|split; [apply Hw|rewrite length_app; lia]|rewrite length_app; lia|by rewrite <- app_assoc, <- Es, <- E].
    right. destruct Hcase as [Hr'|(rest'' & -> & Eb)].
    - exists [], last. by rewrite Hr'.
    - exists (token :: rest''), last. split; [done|]. split; [|done]. rewrite Eb in Hb. by apply Forall_app in Hb as [_ ?]. }
  assert (Eall : t :: rest = texts ++ token :: rest') by by rewrite <- Es.
  exists (concat (map token_value texts)), (before ++ texts), token, rest'. rewrite Eall at 1. rewrite consume_text_spec by done.
  destruct (texts_wf texts Htexts Ht) as [Hwf Hlen'].
  split; [done|]. split; [done|]. split; [done|]. split; [done|]. split; [rewrite length_app; lia|].
  pose proof (f_equal length Eall) as Hlen. rewrite length_app in Hlen. cbn [length] in Hlen. split; [lia|].
  intros Ht'. destruct texts as [|t' texts]; [by rewrite app_nil_r|]. injection Eall as <- _. apply Forall_cons in Ht as [Ht _]. congruence.
Qed.
(** Taking an optional token *)
Definition takes before t rest parts pending number (P : TokenType -> Prop) (r : res (option Token * PatternParser)) : Prop :=
  (r = Ret (None, pp_at before (t :: rest) parts pending number) /\ ~ P (token_type t))
  \/ exists t' rest', rest = t' :: rest' /\ r = Ret (Some t, pp_at (before ++ [t]) rest parts pending number)
       /\ P (token_type t) /\ token_ok t /\ parser_ok (before ++ [t]) rest parts pending number.

Lemma takes_intro before t rest parts pending number (P : TokenType -> Prop) (b : bool) :
  parser_ok before (t :: rest) parts pending number -> ~ P Tok_End -> (b = true <-> P (token_type t)) ->
  takes before t rest parts pending number P
    (Ret (if b then (Some t, pp_at (before ++ [t]) rest parts pending number) else (None, pp_at before (t :: rest) parts pending number))).
Proof.
  intros Hp Hend Hb. destruct b.
  - right. assert (Ht : P (token_type t)) by by apply Hb. assert (Hne : token_type t <> Tok_End) by (intros E; by rewrite E in Ht).
    destruct (parser_ok_next _ _ _ _ _ _ Hp Hne) as (Hok & Hp' & t' & rest' & ->). by exists t', rest'.
  - left. split; [done|]. intros Ht. by apply Hb in Ht.
Qed.

Lemma try_takes before t rest parts pending number type : parser_ok before (t :: rest) parts pending number -> type <> Tok_End ->
  takes before t rest parts pending number (fun ty => ty = type) (try_to_consume_a_token (pp_at before (t :: rest) parts pending number) type).
Proof. intros Hp Ht. rewrite try_at. apply takes_intro; [done|congruence|apply bool_decide_eq_true]. Qed.

Lemma modifier_takes before t rest parts pending number : parser_ok before (t :: rest) parts pending number ->
  takes before t rest parts pending number (fun ty => ty = Tok_OtherModifier \/ ty = Tok_Asterisk)
    (try_to_consume_a_modifier_token (pp_at before (t :: rest) parts pending number)).
Proof. intros Hp. rewrite modifier_at. apply takes_intro; [done|by intros []|apply bool_decide_eq_true]. Qed.

Lemma regexp_takes before t rest parts pending number name_token : parser_ok before (t :: rest) parts pending number ->
  takes before t rest parts pending number (fun ty => ty = Tok_Regexp \/ (name_token = None /\ ty = Tok_Asterisk))
    (try_to_consume_a_regexp_or_wildcard_token (pp_at before (t :: rest) parts pending number) name_token).
Proof. intros Hp. rewrite regexp_or_wildcard_at. apply takes_intro; [done|by intros [|[]]|apply bool_decide_eq_true]. Qed.

(** The optional name and regular expression of a group *)
Lemma group_takes {A} before t rest parts pending number (k : option Token -> option Token -> PatternParser -> res A) (Q : res A -> Prop) :
  parser_ok before (t :: rest) parts pending number ->
  (forall name_token regexp_or_wildcard_token before' t' rest', parser_ok before' (t' :: rest') parts pending number ->
     (length before <= length before')%nat -> (length rest' <= length rest)%nat ->
     (name_token = None -> regexp_or_wildcard_token = None -> before' = before /\ t' = t /\ rest' = rest
        /\ token_type t <> Tok_Name /\ token_type t <> Tok_Regexp /\ token_type t <> Tok_Asterisk) ->
     (name_token <> None \/ regexp_or_wildcard_token <> None -> group_tokens_ok name_token regexp_or_wildcard_token
        /\ (length before < length before')%nat /\ (length rest' < length rest)%nat) ->
     Q (k name_token regexp_or_wildcard_token (pp_at before' (t' :: rest') parts pending number))) ->
  Q (let* (name_token, p) := try_to_consume_a_token (pp_at before (t :: rest) parts pending number) Tok_Name in
     let* (regexp_or_wildcard_token, p) := try_to_consume_a_regexp_or_wildcard_token p name_token in
     k name_token regexp_or_wildcard_token p).
Proof.
  intros Hp Hk. destruct (try_takes before t rest parts pending number Tok_Name Hp ltac:(done)) as [[-> Hn]|(t1 & rest1 & -> & -> & Ht & Hok & Hp1)].
  - cbn [res_bind]. destruct (regexp_takes before t rest parts pending number None Hp) as [[-> Hr]|(t2 & rest2 & -> & -> & Hr & Hok & Hp2)]; cbn [res_bind].
    + apply Hk; [done|lia..| |by intros []]. intros _ _. by repeat split; intros E; tauto.
    + apply Hk; [done|rewrite length_app; lia|cbn; lia|done|]. intros _. split; [|rewrite length_app; cbn; lia].
      split; [done|]. split; [|by right]. split; [done|]. tauto.
  - cbn [res_bind]. destruct (regexp_takes (before ++ [t]) t1 rest1 parts pending number (Some t) Hp1) as [[-> Hr]|(t2 & rest2 & -> & -> & Hr & Hok2 & Hp2)]; cbn [res_bind].
    + apply Hk; [done|rewrite length_app; lia|cbn; lia|done|]. intros _. split; [|rewrite length_app; cbn; lia]. split; [done|]. split; [done|by left].
    + apply Hk; [done|rewrite !length_app; lia|cbn; lia|done|]. intros _. split; [|rewrite !length_app; cbn; lia]. split; [done|].
      split; [|by left]. split; [done|]. tauto.
Qed.

Lemma grouping_at before t rest parts pending number : parser_ok before (t :: rest) parts pending number ->
  advances (S (length rest)) (parse_a_grouping callback segment_wildcard_regexp (pp_at before (t :: rest) parts pending number)).
Proof.
  intros Hp. unfold parse_a_grouping.
  destruct (consume_text_ok before t rest parts pending number Hp) as (prefix & b1 & t1 & r1 & -> & Hp1 & Hn1 & Hpre & Hb1 & Hr1 & _). cbn [res_bind].
  apply group_takes; [done|]. intros name_token rw b2 t2 r2 Hp2 Hb2 Hr2 Hnone Hsome.
  destruct (consume_text_ok b2 t2 r2 parts pending number Hp2) as (suffix & b3 & t3 & r3 & -> & Hp3 & Hn3 & Hsuf & Hb3 & Hr3 & Hempty). cbn [res_bind].
  unfold consume_a_required_token. rewrite try_at. case_bool_decide as Hc; cbn [res_bind]; [|left; by eexists].
  destruct (parser_ok_next _ _ _ _ _ _ Hp3) as (_ & Hp4 & t4 & r4 & ->); [by rewrite Hc|].
  assert (Hadd : forall modifier b5 r5, parser_ok b5 r5 parts pending number -> (length b3 < length b5)%nat -> (length r5 <= length (t4 :: r4))%nat ->
    advances (S (length rest)) (add_a_part callback segment_wildcard_regexp (pp_at b5 r5 parts pending number) prefix name_token rw suffix modifier)).
  { intros modifier b5 r5 Hp5 Hb5 Hr5. pose proof (rest_pending _ _ _ _ _ Hp) as [_ Hpend]. eapply advances_mono; [|apply add_a_part_at; try done].
    - cbn [length] in *. lia.
    - intros _ _. pose proof (rest_number _ _ _ _ _ Hp3). lia.
    - lia.
    - eapply before_short; [exact Hp5|done|lia].
    - intros En Er. destruct (Hnone En Er) as (-> & -> & _). by apply Hempty.
    - intros Hs. by apply Hsome. }
  destruct (modifier_takes (b3 ++ [t3]) t4 r4 parts pending number Hp4) as [[-> _]|(t5 & r5 & -> & -> & _ & _ & Hp5)]; cbn [res_bind];
    (apply Hadd; [done|rewrite !length_app; cbn [length]; lia|cbn [length]; lia]).
Qed.

Lemma group_at options before t rest parts pending number char_token name_token regexp_or_wildcard_token :
  parser_ok before (t :: rest) parts pending number ->
  (name_token = None -> number < Z.of_nat (length before)) ->
  match char_token with Some c => well_formed_utf8 (token_value c) /\ (length pending + length (token_value c) <= 4 * length before)%nat | None => True end ->
  group_tokens_ok name_token regexp_or_wildcard_token ->
  advances (S (length rest)) (parse_a_group callback segment_wildcard_regexp options (pp_at before (t :: rest) parts pending number)
    char_token name_token regexp_or_wildcard_token).
Proof.
  intros Hp Hnum Hchar Htok. unfold parse_a_group. cbv zeta.
  assert (Hnil : well_formed_utf8 []) by by apply encode_wf with (cps := []).
  set (prefix := match char_token with Some token => token_value token | None => [] end).
  assert (Hnil' : short_text []) by (by split).
  assert (Hpre : well_formed_utf8 prefix /\ (length pending + length prefix <= 4 * length before)%nat).
  { unfold prefix. destruct char_token; [done|]. split; [done|]. pose proof (rest_pending _ _ _ _ _ Hp) as [_ ?]. cbn. lia. }
  destruct Hpre as [Hpre Hlen].
  assert (Hmain : forall pending' prefix', well_formed_utf8 pending' -> well_formed_utf8 prefix' ->
    (length pending' <= 4 * length before)%nat -> (length prefix' <= 4 * length before)%nat -> advances (S (length rest))
    (try* p := maybe_add_a_part_from_the_pending_fixed_value callback (pp_at before (t :: rest) parts pending' number) in
     let* (modifier_token, p) := try_to_consume_a_modifier_token p in
     add_a_part callback segment_wildcard_regexp p prefix' name_token regexp_or_wildcard_token [] modifier_token)).
  { intros pending' prefix' Hw' Hpre' Hl1 Hl2. apply after_flush; [by eapply pending_ok|]. intros parts' Hp'.
    assert (Hadd : forall modifier b5 r5, parser_ok b5 r5 parts' [] number -> (length before <= length b5)%nat -> (length r5 <= S (length rest))%nat ->
      advances (S (length rest)) (add_a_part callback segment_wildcard_regexp (pp_at b5 r5 parts' [] number) prefix' name_token
        regexp_or_wildcard_token [] modifier)).
    { intros modifier b5 r5 Hp5 Hb5 Hr5. eapply advances_mono; [exact Hr5|]. apply add_a_part_at; try done; [|cbn; lia]. intros En _. specialize (Hnum En). lia. }
    destruct (modifier_takes before t rest parts' [] number Hp') as [[-> _]|(t5 & r5 & -> & -> & _ & _ & Hp5)]; cbn [res_bind];
      (apply Hadd; [done|rewrite ?length_app; lia|cbn [length]; lia]). }
  pose proof (rest_pending _ _ _ _ _ Hp) as [Hw Hpend]. destruct (_ && _); [|apply Hmain; (done || lia)].
  apply (Hmain (pending ++ prefix) []); [by apply well_formed_app|done|rewrite length_app; lia|cbn; lia].
Qed.

(** The end of the pattern *)
Lemma end_at before t rest parts pending number : parser_ok before (t :: rest) parts pending number ->
  advances (length rest) (try* p := maybe_add_a_part_from_the_pending_fixed_value callback (pp_at before (t :: rest) parts pending number) in
    consume_a_required_token p Tok_End).
Proof.
  intros Hp. apply after_flush; [done|]. intros parts' Hp'. unfold consume_a_required_token. rewrite try_at.
  case_bool_decide as Ht; cbn [res_bind]; [|left; by eexists]. right. exists (before ++ [t]), rest, parts', [], number. split; [done|]. split; [|done].
  destruct Hp' as [Hr Hpp Hw Hn Hs].
  split; try done; [|split; [apply Hw|cbn; lia]|rewrite length_app; lia|by rewrite <- app_assoc].
  destruct Hr as [?|(body & last & E & Hb & Hl)]; [done|]. left. destruct body as [|t' body]; [by injection E|].
  injection E as <- ->. apply Forall_cons in Hb as [Hok _]. unfold token_ok in Hok. by rewrite Ht in Hok.
Qed.

Lemma parse_step_at options before t rest parts pending number : parser_ok before (t :: rest) parts pending number ->
  advances (length rest) (parse_step callback segment_wildcard_regexp options (pp_at before (t :: rest) parts pending number)).
Proof.
  intros Hp. unfold parse_step.
  assert (Hgroup : forall char_token name_token regexp_or_wildcard_token b t' r, parser_ok b (t' :: r) parts pending number ->
    match char_token with Some c => well_formed_utf8 (token_value c) /\ (length pending + length (token_value c) <= 4 * length b)%nat | None => True end ->
    group_tokens_ok name_token regexp_or_wildcard_token -> (length before < length b)%nat -> (length r < length rest)%nat ->
    advances (length rest) (parse_a_group callback segment_wildcard_regexp options (pp_at b (t' :: r) parts pending number) char_token name_token
      regexp_or_wildcard_token)).
  { intros c n w b t' r Hp' Hc Htok Hb Hr. eapply advances_mono; [|by apply group_at; try done; intros _; pose proof (rest_number _ _ _ _ _ Hp); lia]. lia. }
  destruct (try_takes before t rest parts pending number Tok_Char Hp ltac:(done)) as [[-> Hn]|(t1 & rest1 & -> & -> & Ht & Hok & Hp1)]; cbn [res_bind].
  - apply group_takes; [done|]. intros name_token rw b t' r Hp' Hb Hr Hnone Hsome.
    assert (Hdo : name_token <> None \/ rw <> None -> advances (length rest)
      (parse_a_group callback segment_wildcard_regexp options (pp_at b (t' :: r) parts pending number) None name_token rw)).
    { intros Hs. destruct (Hsome Hs) as (Htok & Hb' & Hr'). by apply Hgroup. }
    destruct name_token as [nt|]; [by apply Hdo; left|]. destruct rw as [rt|]; [by apply Hdo; right|].
    destruct (Hnone eq_refl eq_refl) as (-> & -> & -> & _).
    destruct (try_takes before t rest parts pending number Tok_EscapedChar Hp ltac:(done)) as [[-> _]|(t1 & rest1 & -> & -> & Ht & Hok & Hp1)]; cbn [res_bind].
    + destruct (try_takes before t rest parts pending number Tok_Open Hp ltac:(done)) as [[-> _]|(t1 & rest1 & -> & -> & Ht & Hok & Hp1)]; cbn [res_bind];
        [by apply end_at|by apply grouping_at].
    + right. exists (before ++ [t]), (t1 :: rest1), parts, (pending ++ token_value t), number. split; [done|]. split; [|done].
      destruct (token_text_wf t Hok ltac:(unfold is_text; by rewrite Ht)) as [Hw Hl]. pose proof (rest_pending _ _ _ _ _ Hp) as [Hwp Hlp].
      eapply pending_ok; [exact Hp1|by apply well_formed_app|rewrite !length_app; cbn [length]; lia].
  - destruct (token_text_wf t Hok ltac:(unfold is_text; by rewrite Ht)) as [Hw Hl]. pose proof (rest_pending _ _ _ _ _ Hp) as [Hwp Hlp].
    apply group_takes; [done|]. intros name_token rw b t' r Hp' Hb Hr Hnone Hsome. rewrite length_app in Hb, Hsome. cbn [length] in Hb, Hsome.
    assert (Hdo : name_token <> None \/ rw <> None -> advances (length (t1 :: rest1))
      (parse_a_group callback segment_wildcard_regexp options (pp_at b (t' :: r) parts pending number) (Some t) name_token rw)).
    { intros Hs. destruct (Hsome Hs) as (Htok & Hb' & Hr'). apply Hgroup; try done; [split; [done|]; lia|lia|cbn [length]; lia]. }
    destruct name_token as [nt|]; [by apply Hdo; left|]. destruct rw as [rt|]; [by apply Hdo; right|].
    destruct (Hnone eq_refl eq_refl) as (-> & -> & -> & _). cbn [res_bind].
    right. exists (before ++ [t]), (t1 :: rest1), parts, (pending ++ token_value t), number. split; [done|]. split; [|done].
    eapply pending_ok; [exact Hp1|by apply well_formed_app|rewrite !length_app; cbn [length]; lia].
Qed.

Lemma parse_loop_at options fuel : forall before rest parts pending number, parser_ok before rest parts pending number -> (length rest < fuel)%nat ->
  (exists error, parse_loop callback segment_wildcard_regexp fuel options (pp_at before rest parts pending number) = Ret (inl error))
  \/ exists p, parse_loop callback segment_wildcard_regexp fuel options (pp_at before rest parts pending number) = Ret (inr p) /\ parts_ok (pp_part_list p).
Proof.
  induction fuel as [|fuel IH]; intros before rest parts pending number Hp Hf; [lia|]. cbn [parse_loop pp_index pp_token_list pp_at].
  rewrite length_app. destruct rest as [|t rest].
  - rewrite (proj2 (Nat.ltb_ge _ _)) by (cbn; lia). right. eexists. split; [done|]. apply Hp.
  - rewrite (proj2 (Nat.ltb_lt _ _)) by (cbn; lia). fold (pp_at before (t :: rest) parts pending number).
    destruct (parse_step_at options before t rest parts pending number Hp) as [[error ->]|(b & r & ps & pe & nu & -> & Hp' & Hl)]; cbn [res_bind];
      [left; by exists error|]. apply IH; [done|]. cbn [length] in Hf. lia.
Qed.
End parsing.

(** The tokens of a pattern that is not an error *)
Lemma tokens_parse `{SimdutfLaws, SimdutfCountLaws, IcuIdentifiers} callback segment_wildcard_regexp options body last :
  (forall text, short_text text -> exists r, callback text = Ret r) ->
  Forall token_ok body -> token_type last = Tok_End -> Z.of_nat (length (body ++ [last])) < 2 ^ 58 ->
  (exists error, parse_loop callback segment_wildcard_regexp (S (length (body ++ [last]))) options (pp_at [] (body ++ [last]) [] [] 0) = Ret (inl error))
  \/ exists p, parse_loop callback segment_wildcard_regexp (S (length (body ++ [last]))) options (pp_at [] (body ++ [last]) [] [] 0) = Ret (inr p)
       /\ parts_ok callback (pp_part_list p).
Proof.
  intros Hcb Hb Hl Hs. apply parse_loop_at; [done| |lia]. split; [right; by exists body, last|split; [done|by apply NoDup_nil_2]|by split; [apply encode_wf with (cps := [])|]|cbn; lia|done].
Qed.

(** The delimiter of an options struct is a [char]; the code uses ASCII. *)
Definition options_ok (options : Options) : Prop :=
  match delimiter_code_point options with Some c => 0 <= c < 128 | None => True end.

Lemma segment_wildcard_spec `{SimdutfLaws} options : options_ok options -> exists r, generate_a_segment_wildcard_regexp options = Ret r.
Proof.
  unfold options_ok, generate_a_segment_wildcard_regexp. intros Ho. destruct (delimiter_code_point options) as [c|]; [|by eexists].
  unfold escape_a_regexp_string, string_from_code_point. rewrite code_point_to_utf8_encoded by lia. unfold encoded.
  replace (c <=? 127) with true by lia. rewrite sv_is_ascii_spec. cbn [forallb]. replace (is_ascii c) with true by (unfold is_ascii; lia).
  cbn [verify andb res_bind]. by eexists.
Qed.

(** ** Escaped text *)

Lemma lex_escaped `{IcuIdentifiers} (s : bytes) : forall index fuel, Forall (fun c => 0 <= c < 128) s -> (length (escape_characters pattern_special s) <= fuel)%nat ->
  exists body, lex_all fuel Strict index (escape_characters pattern_special s) = Some body /\ Forall (fun t => is_text t = true) body
    /\ concat (map token_value body) = s /\ length body = length s.
Proof.
  induction s as [|c s IH]; intros index fuel Hs Hf; [exists []; by destruct fuel|]. apply Forall_cons in Hs as [Hc Hs].
  assert (Hone : utf8_encode [c] = [c]) by (apply encode_ascii, Forall_singleton; unfold is_ascii; lia).
  change (escape_characters pattern_special (c :: s))
    with ((if contains_char pattern_special c then [92; c] else [c]) ++ escape_characters pattern_special s) in *.
  destruct (contains_char pattern_special c) eqn:Ec; cbn [app length] in *; (destruct fuel as [|fuel]; [lia|]).
  - cbn [lex_all]. change (lex_one (92 :: c :: escape_characters pattern_special s)) with (Some (Tok_EscapedChar, 1, 1, 2)%nat). cbn [drop take].
    rewrite drop_0, take_0.
    destruct (IH (index + 2)%nat fuel Hs ltac:(lia)) as (body & -> & Ht & Hv & Hl). eexists. split; [reflexivity|]. split; [by constructor|].
    cbn [map concat length token_value]. by rewrite Hone, Hv, Hl.
  - assert (El : forall r, lex_one (c :: r) = Some (Tok_Char, 0, 1, 1)%nat).
    { intros r. apply contains_char_false in Ec. unfold pattern_special in Ec. cbn in Ec. rewrite !Forall_cons in Ec. unfold lex_one.
      repeat match goal with |- context [c =? ?x] => replace (c =? x) with false by (symmetry; apply Z.eqb_neq; intros ->; cbn in Ec; tauto) end. done. }
    cbn [lex_all]. rewrite El. cbn [drop take]. rewrite !drop_0, take_0.
    destruct (IH (index + 1)%nat fuel Hs ltac:(lia)) as (body & -> & Ht & Hv & Hl). eexists. split; [reflexivity|]. split; [by constructor|].
    cbn [map concat length token_value]. by rewrite Hone, Hv, Hl.
Qed.

Lemma escaped_ascii (s : bytes) : Forall (fun c => 0 <= c < 128) s ->
  Forall (fun c => 0 <= c < 128) (escape_characters pattern_special s) /\ (length (escape_characters pattern_special s) <= 2 * length s)%nat.
Proof.
  induction 1 as [|c s Hc Hs [IH1 IH2]]; [done|].
  change (escape_characters pattern_special (c :: s))
    with ((if contains_char pattern_special c then [92; c] else [c]) ++ escape_characters pattern_special s).
  destruct (contains_char pattern_special c); cbn [app length]; (split; [repeat (constructor; [lia|]); done|lia]).
Qed.

Section escaped.
Context `{IcuIdentifiers}.
Variable callback : bytes -> res (PatternErrorOr bytes).
Variable segment_wildcard_regexp : bytes.
Variable options : Options.

(** A token after which the text goes on or the pattern ends *)
Definition text_or_end (token : Token) : Prop := is_text token = true \/ token_type token = Tok_End.

Lemma text_step before t u rest parts pending number : is_text t = true -> text_or_end u ->
  parse_step callback segment_wildcard_regexp options (pp_at before (t :: u :: rest) parts pending number)
  = Ret (inr (pp_at (before ++ [t]) (u :: rest) parts (pending ++ token_value t) number)).
Proof.
  intros Ht Hu. unfold is_text in Ht. unfold text_or_end, is_text in Hu.
  assert (Hn : token_type u <> Tok_Name /\ token_type u <> Tok_Regexp /\ token_type u <> Tok_Asterisk)
    by (destruct (token_type u); destruct Hu; repeat split; done).
  clear Hu. destruct Hn as (Hn1 & Hn2 & Hn3). unfold parse_step. rewrite try_at. case_bool_decide as Hc; cbn [res_bind orb] in *.
  - rewrite try_at, (bool_decide_eq_false_2 _ Hn1). cbn [res_bind]. rewrite regexp_or_wildcard_at, bool_decide_eq_false_2 by tauto. done.
  - apply bool_decide_eq_true_1 in Ht. rewrite try_at, bool_decide_eq_false_2 by congruence. cbn [res_bind].
    rewrite regexp_or_wildcard_at, bool_decide_eq_false_2 by (rewrite Ht; intros [|[]]; done). cbn [res_bind].
    rewrite try_at, bool_decide_eq_true_2 by done. done.
Qed.

Lemma end_step before t parts pending number : token_type t = Tok_End ->
  parse_step callback segment_wildcard_regexp options (pp_at before [t] parts pending number)
  = try* p := maybe_add_a_part_from_the_pending_fixed_value callback (pp_at before [t] parts pending number) in consume_a_required_token p Tok_End.
Proof.
  intros Ht. unfold parse_step. rewrite !try_at, bool_decide_eq_false_2 by by rewrite Ht. cbn [res_bind].
  rewrite try_at, bool_decide_eq_false_2 by by rewrite Ht. cbn [res_bind].
  rewrite regexp_or_wildcard_at, bool_decide_eq_false_2 by (rewrite Ht; intros [|[]]; done). cbn [res_bind].
  rewrite try_at, bool_decide_eq_false_2 by by rewrite Ht. cbn [res_bind]. by rewrite try_at, bool_decide_eq_false_2 by by rewrite Ht.
Qed.

Lemma texts_loop last : token_type last = Tok_End -> forall texts fuel before pending number value,
  Forall (fun t => is_text t = true) texts -> (length texts + 1 < fuel)%nat -> pending ++ concat (map token_value texts) <> [] ->
  callback (pending ++ concat (map token_value texts)) = Ret (inr value) ->
  exists p, parse_loop callback segment_wildcard_regexp fuel options (pp_at before (texts ++ [last]) [] pending number) = Ret (inr p)
    /\ pp_part_list p = [simple_part FixedText value Modifier_None].
Proof.
  intros Hl texts. induction texts as [|t texts IH]; intros fuel before pending number value Ht Hf Hne Hcb; (destruct fuel as [|fuel]; [lia|]);
    cbn [parse_loop pp_index pp_token_list]; (rewrite (proj2 (Nat.ltb_lt _ _)) by (cbn [pp_index pp_token_list pp_at]; rewrite !length_app; cbn [length]; lia)).
  - cbn [app map concat] in *. rewrite app_nil_r in *. rewrite end_step by done. unfold maybe_add_a_part_from_the_pending_fixed_value.
    cbn [pp_pending_fixed_value pp_at]. destruct pending as [|b pending]; [done|]. cbn [sv_is_empty]. rewrite Hcb. cbn [res_bind].
    change (with_part (with_pending (pp_at before [last] [] (b :: pending) number) []) (simple_part FixedText value Modifier_None))
      with (pp_at before [last] [simple_part FixedText value Modifier_None] [] number).
    unfold consume_a_required_token. rewrite try_at, bool_decide_eq_true_2 by done. cbn [res_bind]. destruct fuel as [|fuel]; [cbn in Hf; lia|].
    cbn [parse_loop pp_at pp_index pp_token_list]. rewrite app_nil_r, Nat.ltb_irrefl. by eexists.
  - apply Forall_cons in Ht as [Ht Hts]. cbn [app map concat length] in *.
    assert (Hstep : parse_step callback segment_wildcard_regexp options (pp_at before (t :: texts ++ [last]) [] pending number)
      = Ret (inr (pp_at (before ++ [t]) (texts ++ [last]) [] (pending ++ token_value t) number))).
    { destruct texts as [|u texts]; cbn [app]; apply text_step; try done; [by right|]. left. by apply Forall_cons in Hts as [? _]. }
    rewrite Hstep. cbn [res_bind]. apply IH; [done|lia|by rewrite <- app_assoc|by rewrite <- app_assoc].
Qed.
End escaped.

(** Every token has some text. *)
Lemma tokens_shorter `{IcuIdentifiers} body : Forall token_ok body -> (length body <= length (concat (map token_text body)))%nat.
Proof.
  induction 1 as [|t body Ht Hb IH]; [done|]. cbn [map concat length]. rewrite length_app.
  assert (Hl : (1 <= length (token_text t))%nat); [|lia]. unfold token_ok, token_text in *.
  assert (Hone : forall c, scalars [c] -> (1 <= length (utf8_encode [c]))%nat) by (intros c Hc; apply (encode_length [c] Hc)).
  destruct (token_type t); rewrite ?length_app; cbn [length app]; try lia; try (rewrite Ht; cbn; lia).
  - destruct Ht as (c & Hc & -> & _). by apply Hone.
  - destruct Ht as [-> | ->]; cbn; lia.
  - destruct Ht as (c & Hc & ->). by apply Hone.
Qed.

Lemma parse_spec `{SimdutfLaws, SimdutfCountLaws, IcuIdentifiers} input options callback :
  well_formed_utf8 input -> Z.of_nat (length input) < 2 ^ 32 -> options_ok options -> (forall text, short_text text -> exists r, callback text = Ret r) ->
  exists r, parse_a_pattern_string input options callback = Ret r /\ match r with inl _ => True | inr parts => parts_ok callback parts end.
Proof.
  intros Hinput Hsize Hoptions Hcallback. destruct Hinput as (cps & Hs & ->). pose proof (encode_length cps Hs) as Hlen. unfold parse_a_pattern_string.
  destruct (segment_wildcard_spec options Hoptions) as [wildcard ->]. cbn [res_bind]. rewrite tokenize_spec by (done || lia). cbn [res_bind].
  unfold reference_tokenize. destruct (lex_all (length cps) Strict 0 cps) as [body|] eqn:E; [|by eexists (inl _)].
  destruct (lex_all_lossless Strict _ _ _ _ Hs E) as (Hc & Hok & _).
  assert (Hbody : (length body <= length (utf8_encode cps))%nat) by (rewrite <- Hc; by apply tokens_shorter).
  destruct (tokens_parse callback wildcard options body (end_token cps) Hcallback Hok eq_refl) as [[error E']|(p & E' & Hp)];
    [rewrite length_app; cbn [length]; lia| |]; unfold pp_at in E'; cbn [app length] in E'; rewrite E'; cbn [res_bind];
    [by eexists (inl _)|by exists (inr (pp_part_list p))].
Qed.

(** ** Properties *)

(** C17: parsing a pattern string terminates without stopping the process when
    the encoding callback of the component does.  The result is an error or a
    list of parts in which fixed text has come through the callback from text
    that is not empty and has no name, prefix or suffix, every matching group
    has a name of its own and a prefix and a suffix that the callback returned,
    a regular expression is ASCII text and not empty, and a wildcard has no
    value. *)
Theorem pattern_parse_safe `{SimdutfLaws, SimdutfCountLaws, IcuIdentifiers} (input : bytes) (options : Options)
    (callback : bytes -> res (PatternErrorOr bytes)) (Hinput : well_formed_utf8 input) (Hsize : Z.of_nat (length input) < 2 ^ 32)
    (Hoptions : options_ok options) (Hcallback : forall text, short_text text -> exists r, callback text = Ret r) :
  exists r, parse_a_pattern_string input options callback = Ret r /\ match r with inl _ => True | inr parts => parts_ok callback parts end.
Proof. by apply parse_spec. Qed.

(** Text without a callback that changes it *)
Definition identity_callback (text : bytes) : res (PatternErrorOr bytes) := Ret (inr text).

Definition example_parts : list Part :=
  [{| part_type := Part_Regexp; part_value := sv "\d+"; part_modifier := Modifier_None; part_name := sv "id"; part_prefix := sv "/"; part_suffix := [] |};
   simple_part FixedText (sv "/") Modifier_None;
   {| part_type := SegmentWildcard; part_value := []; part_modifier := ZeroOrMore; part_name := sv "b"; part_prefix := sv "a-"; part_suffix := sv "-c" |}].

Lemma pattern_parse_safe_witness :
  parse_a_pattern_string (sv "/:id(\d+)/{a-:b(.*)-c}*") pathname_options identity_callback
    <> parse_a_pattern_string (sv "/:id(\d+)/{a-:b-c}*") pathname_options identity_callback
  /\ parse_a_pattern_string (sv "/:id(\d+)/{a-:b-c}*") pathname_options identity_callback = Ret (inr example_parts)
  /\ parts_ok identity_callback example_parts.
Proof.
  assert (Hparts : parse_a_pattern_string (sv "/:id(\d+)/{a-:b-c}*") pathname_options identity_callback = Ret (inr example_parts))
    by (vm_compute; reflexivity).
  split; [vm_compute; discriminate|]. split; [exact Hparts|].
  destruct (pattern_parse_safe (sv "/:id(\d+)/{a-:b-c}*") pathname_options identity_callback) as (r & E & Hr).
  { apply well_formed_ascii. by repeat constructor. }
  { reflexivity. }
  { change (0 <= 47 < 128). lia. }
  { intros text _. by eexists. }
  rewrite Hparts in E. injection E as <-. exact Hr.
Defined.



(** ** Where the generated string does not stand for the parts *)

Definition reparsed (options : Options) (pattern : bytes) : res (PatternErrorOr bytes) :=
  try* parts := parse_a_pattern_string pattern options identity_callback in
  let* s := generate_a_pattern_string parts options in
  Ret (inr s).

(** The group needs its braces, because the fixed text in front of it ends with
    the prefix code point: the specification looks at the last code point of
    that text, the code at the whole text. *)
Lemma generated_prefix_lost :
  reparsed pathname_options (sv "/foo/{:bar}?") = Ret (inr (sv "/foo/:bar?"))
  /\ parse_a_pattern_string (sv "/foo/{:bar}?") pathname_options identity_callback
     <> parse_a_pattern_string (sv "/foo/:bar?") pathname_options identity_callback.
Proof. split; vm_compute; [reflexivity|discriminate]. Qed.

(** A prefix in a component without a prefix code point: the braces get lost. *)
Lemma generated_braces_lost :
  reparsed hostname_options (sv "{sub:name}?") = Ret (inr (sv "sub:name?"))
  /\ parse_a_pattern_string (sv "{sub:name}?") hostname_options identity_callback
     <> parse_a_pattern_string (sv "sub:name?") hostname_options identity_callback.
Proof. split; vm_compute; [reflexivity|discriminate]. Qed.

(** A part of fixed text that the callback has made empty, after a segment
    wildcard: there is no first code point to look at. *)
Lemma generated_from_empty_text :
  let callback text := Ret (inr (if bool_decide (text = sv "443") then [] else text)) in
  let x := {| part_type := SegmentWildcard; part_value := []; part_modifier := Modifier_None; part_name := sv "x"; part_prefix := [];
              part_suffix := [] |} in
  parse_a_pattern_string (sv ":x{443}") default_options callback = Ret (inr [x; simple_part FixedText [] Modifier_None])
  /\ generate_a_pattern_string [x; simple_part FixedText [] Modifier_None] default_options = Crash.
Proof. split; vm_compute; reflexivity. Qed.
