(* ===== verification/PatternComponent.v ===== *)
(** * URL patterns: components, [LibURL/Pattern/Component.{h,cpp}]

    A component of a pattern is compiled to a regular expression with one
    capture group for each matching group of the pattern.  The engine that runs
    regular expressions, [LibRegex], is a parameter; what the component relies on
    is that a match has the capture groups that the expression has.  The theorems
    say that compiling returns, and that the groups of a match result are the
    names in the pattern. *)

From S2P Require Import Prelude CharacterTypes Utf8 MemMem Strings TextCodec Percent Ipv4 Ipv6 Host Origin Url UrlParser UrlFacts UrlSafety Tokens Wtf8 PatternTokenizer PatternParts PatternFacts.
Local Open Scope Z_scope.

(** ** The engine *)

(** [regex::RegexResult]; the captures are those of the first match, and a view
    that is null is [None]. *)
Record RegexResult := {
  rx_success : bool;
  rx_n_capture_groups : nat;
  rx_capture_group_matches : list (option bytes)
}.

(** [Regex<ECMA262>]: compiling a text, with the flags of a component, and
    [Regex::match] *)
Class RegexEngine := {
  Regex : Type;
  regex_compile : bytes -> bool -> (bytes + Regex)%type;
  regex_match : Regex -> bytes -> RegexResult
}.

(** The capture groups in the text of a regular expression, without those that
    have names of their own; [in_class] is true between brackets. *)
Fixpoint count_groups (in_class : bool) (s : bytes) : option nat :=
  match s with
  | [] => if in_class then None else Some O
  | c :: rest =>
      if c =? 92 then match rest with [] => None | _ :: rest => count_groups in_class rest end
      else if in_class then
        if c =? ch "]" then count_groups false rest else if c =? ch "[" then None else count_groups true rest
      else if c =? ch "[" then count_groups true rest
      else if c =? ch "(" then
        match rest with
        | [] => None
        | d :: rest' =>
            if d =? ch "?" then match rest' with [] => None | e :: _ => if e =? ch "<" then None else count_groups false rest' end
            else S <$> count_groups false rest
        end
      else count_groups false rest
  end.

(** ** Components *)

Section component.
Context `{Simdutf, SimdutfCount, IcuIdentifiers, RegexEngine}.

Record Component := {
  c_pattern_string : bytes;
  c_regular_expression : Regex;
  c_group_name_list : list bytes;
  c_has_regexp_groups : bool
}.

(** [Component::Result]; the groups are an ordered map. *)
Record ComponentResult := {
  cr_input : bytes;
  cr_groups : list (bytes * option bytes)
}.

Definition protocol_component_matches_a_special_scheme (protocol_component : Component) : bool :=
  existsb (fun scheme => rx_success (regex_match (c_regular_expression protocol_component) scheme)) special_schemes.

(** The text of a part that is a matching group *)
Definition generate_a_group_regexp (options : Options) (part : Part) : res bytes :=
  let* regexp_value :=
    match part_type part with
    | SegmentWildcard => generate_a_segment_wildcard_regexp options
    | FullWildcard => Ret full_wildcard_regexp_value
    | _ => Ret (part_value part)
    end in
  let modifier := convert_modifier_to_string (part_modifier part) in
  let none_or_optional := bool_decide (part_modifier part = Modifier_None) || bool_decide (part_modifier part = Modifier_Optional) in
  if sv_is_empty (part_prefix part) && sv_is_empty (part_suffix part) then
    if none_or_optional then Ret (sv "(" ++ regexp_value ++ sv ")" ++ modifier)
    else Ret (sv "((?:" ++ regexp_value ++ sv ")" ++ modifier ++ sv ")")
  else
    let* prefix := escape_a_regexp_string (part_prefix part) in
    let* suffix := escape_a_regexp_string (part_suffix part) in
    if none_or_optional then Ret (sv "(?:" ++ prefix ++ sv "(" ++ regexp_value ++ sv ")" ++ suffix ++ sv ")" ++ modifier)
    else
      Ret (sv "(?:" ++ prefix ++ sv "((?:" ++ regexp_value ++ sv ")(?:" ++ suffix ++ prefix ++ sv "(?:" ++ regexp_value ++ sv "))*)" ++ suffix
           ++ sv ")" ++ (if bool_decide (part_modifier part = ZeroOrMore) then sv "?" else [])).

(** The loop: the text and the names of the parts *)
Fixpoint generate_regexp_parts (options : Options) (part_list : list Part) : res (bytes * list bytes) :=
  match part_list with
  | [] => Ret ([], [])
  | part :: part_list =>
      if bool_decide (part_type part = FixedText) then
        let* value := escape_a_regexp_string (part_value part) in
        let text := if bool_decide (part_modifier part = Modifier_None) then value
                    else sv "(?:" ++ value ++ sv ")" ++ convert_modifier_to_string (part_modifier part) in
        let* (rest, names) := generate_regexp_parts options part_list in
        Ret (text ++ rest, names)
      else
        verify (negb (sv_is_empty (part_name part)))
          (let* text := generate_a_group_regexp options part in
           let* (rest, names) := generate_regexp_parts options part_list in
           Ret (text ++ rest, part_name part :: names))
  end.

Definition generate_a_regular_expression_and_name_list (part_list : list Part) (options : Options) : res (bytes * list bytes) :=
  let* (text, names) := generate_regexp_parts options part_list in
  Ret (sv "^" ++ text ++ sv "$", names).

Definition compile (input : bytes) (encoding_callback : bytes -> res (PatternErrorOr bytes)) (options : Options) : res (PatternErrorOr Component) :=
  try* part_list := parse_a_pattern_string input options encoding_callback in
  let* (regular_expression_string, name_list) := generate_a_regular_expression_and_name_list part_list options in
  match regex_compile regular_expression_string (ignore_case options) with
  | inl error => Ret (inl (sv "RegExp compile error: " ++ error))
  | inr regex =>
      let* pattern_string := generate_a_pattern_string part_list options in
      Ret (inr {| c_pattern_string := pattern_string; c_regular_expression := regex; c_group_name_list := name_list;
                  c_has_regexp_groups := existsb (fun part => bool_decide (part_type part = Part_Regexp)) part_list |})
  end.

(** [OrderedHashMap::set] *)
Fixpoint groups_set (groups : list (bytes * option bytes)) (name : bytes) (value : option bytes) : list (bytes * option bytes) :=
  match groups with
  | [] => [(name, value)]
  | (n, v) :: groups => if sv_eqb n name then (n, value) :: groups else (n, v) :: groups_set groups name value
  end.

(** The loop of [create_match_result], from [index] on *)
Fixpoint match_groups (count index : nat) (component : Component) (exec_result : RegexResult) (groups : list (bytes * option bytes))
    : res (list (bytes * option bytes)) :=
  match count with
  | O => Ret groups
  | S count =>
      let* capture := at_index (rx_capture_group_matches exec_result) index in
      let* name := at_index (c_group_name_list component) index in
      let* value := match capture with None => Ret None | Some view => let* text := must_from_utf8 view in Ret (Some text) end in
      match_groups count (S index) component exec_result (groups_set groups name value)
  end.

Definition create_match_result (component : Component) (input : bytes) (exec_result : RegexResult) : res ComponentResult :=
  let* groups := match_groups (rx_n_capture_groups exec_result) 0 component exec_result [] in
  Ret {| cr_input := input; cr_groups := groups |}.

End component.

(** ** The groups of the generated expression *)

(** [s] has [n] groups wherever it stands outside brackets. *)
Definition groups_in (s : bytes) (n : nat) : Prop :=
  forall rest, count_groups false (s ++ rest) = Nat.add n <$> count_groups false rest.

Lemma groups_nil : groups_in [] 0.
Proof. intros rest. cbn. by destruct (count_groups false rest). Qed.

Lemma groups_app s1 s2 n1 n2 : groups_in s1 n1 -> groups_in s2 n2 -> groups_in (s1 ++ s2) (n1 + n2).
Proof.
  intros H1 H2 rest. rewrite <- app_assoc, H1, H2. destruct (count_groups false rest); [|done]. cbn. f_equal. lia.
Qed.

(** A character that means nothing to the count *)
Lemma groups_plain c : c <> 92 -> c <> ch "[" -> c <> ch "(" -> groups_in [c] 0.
Proof.
  intros H1 H2 H3 rest. cbn [app count_groups]. rewrite !(proj2 (Z.eqb_neq _ _)) by done. by destruct (count_groups false rest).
Qed.

Lemma groups_escaped s : groups_in (escape_characters regexp_special s) 0.
Proof.
  induction s as [|c s IH]; [apply groups_nil|].
  change (escape_characters regexp_special (c :: s)) with ((if contains_char regexp_special c then [92; c] else [c]) ++ escape_characters regexp_special s).
  apply (groups_app _ _ 0 0); [|done]. destruct (contains_char regexp_special c) eqn:E.
  - intros rest. cbn. by destruct (count_groups false rest).
  - apply contains_char_false in E. unfold regexp_special in E. cbn in E. rewrite !Forall_cons in E. apply groups_plain; intros ->; cbn in E; tauto.
Qed.

(** Plain literals of the generator *)
Ltac groups_literal := intros rest; cbn; by destruct (count_groups false rest).

Lemma groups_open_group : groups_in (sv "(?:") 0.
Proof. groups_literal. Qed.
Lemma groups_close : groups_in (sv ")") 0.
Proof. groups_literal. Qed.
Lemma groups_capture_group : groups_in (sv "((?:") 1.
Proof. groups_literal. Qed.
Lemma groups_close_open : groups_in (sv ")(?:") 0.
Proof. groups_literal. Qed.
Lemma groups_close_star : groups_in (sv "))*)") 0.
Proof. groups_literal. Qed.
Lemma groups_modifier m : groups_in (convert_modifier_to_string m) 0.
Proof. destruct m; groups_literal. Qed.
Lemma groups_optional (b : bool) : groups_in (if b then sv "?" else []) 0.
Proof. destruct b; groups_literal. Qed.
Lemma groups_full_wildcard : groups_in full_wildcard_regexp_value 0.
Proof. groups_literal. Qed.

(** A capture group around a value that does not start with a question mark *)
Lemma groups_capture value n : groups_in value n -> head value <> None -> head value <> Some (ch "?") -> groups_in (sv "(" ++ value) (S n).
Proof.
  intros Hv Hne Hq rest. specialize (Hv rest). destruct value as [|d value]; [done|].
  change (count_groups false ((sv "(" ++ d :: value) ++ rest))
    with (if d =? ch "?" then match value ++ rest with [] => None | e :: _ => if e =? ch "<" then None else count_groups false (value ++ rest) end
          else S <$> count_groups false ((d :: value) ++ rest)).
  rewrite (proj2 (Z.eqb_neq _ _)) by (intros ->; done). rewrite Hv. by destruct (count_groups false rest).
Qed.

Create HintDb groups.
#[export] Hint Resolve groups_nil groups_escaped groups_open_group groups_close groups_capture_group groups_close_open groups_close_star
  groups_modifier groups_optional groups_full_wildcard : groups.

Section facts.
Context `{SimdutfLaws, SimdutfCountLaws, IcuIdentifiers, RegexEngine}.

Lemma escaped_regexp_ret s : Forall (fun b => 0 <= b < 128) s -> escape_a_regexp_string s = Ret (escape_characters regexp_special s).
Proof. intros Hs. unfold escape_a_regexp_string. by rewrite sv_is_ascii_spec, Forall_is_ascii. Qed.

Lemma escaped_pattern_ret s : Forall (fun b => 0 <= b < 128) s -> escape_a_pattern_string s = Ret (escape_characters pattern_special s).
Proof. intros Hs. unfold escape_a_pattern_string. by rewrite sv_is_ascii_spec, Forall_is_ascii. Qed.

Lemma segment_wildcard_groups options : options_ok options ->
  exists r, generate_a_segment_wildcard_regexp options = Ret r /\ groups_in r 0 /\ head r = Some (ch "[").
Proof.
  unfold options_ok, generate_a_segment_wildcard_regexp. intros Ho. destruct (delimiter_code_point options) as [c|].
  - unfold string_from_code_point. rewrite code_point_to_utf8_encoded by lia. unfold encoded. replace (c <=? 127) with true by lia.
    rewrite escaped_regexp_ret by by apply Forall_singleton. cbn [res_bind]. eexists. split; [done|]. split; [|done]. intros rest.
    unfold escape_characters. cbn [mbind list_bind app]. destruct (contains_char regexp_special c) eqn:E; cbn; [by destruct (count_groups false rest)|].
    apply contains_char_false in E. unfold regexp_special in E. cbn in E. rewrite !Forall_cons in E.
    rewrite !(proj2 (Z.eqb_neq _ _)) by (intros ->; tauto). by destruct (count_groups false rest).
  - cbn [res_bind]. eexists. split; [done|]. split; [|done]. groups_literal.
Qed.

(** The text of a group has one capture group, when the group is a wildcard. *)
Definition is_wildcard (part : Part) : Prop := part_type part = SegmentWildcard \/ part_type part = FullWildcard.

Definition ascii_part (part : Part) : Prop :=
  Forall (fun b => 0 <= b < 128) (part_value part) /\ Forall (fun b => 0 <= b < 128) (part_prefix part)
  /\ Forall (fun b => 0 <= b < 128) (part_suffix part).

Ltac groups_zero := repeat (apply (groups_app _ _ 0 0)); auto with groups.

Lemma group_text_groups part value prefix suffix : groups_in value 0 -> head value <> None -> head value <> Some (ch "?") ->
  groups_in prefix 0 -> groups_in suffix 0 ->
  let modifier := convert_modifier_to_string (part_modifier part) in
  groups_in (sv "(" ++ value ++ sv ")" ++ modifier) 1
  /\ groups_in (sv "((?:" ++ value ++ sv ")" ++ modifier ++ sv ")") 1
  /\ groups_in (sv "(?:" ++ prefix ++ sv "(" ++ value ++ sv ")" ++ suffix ++ sv ")" ++ modifier) 1
  /\ groups_in (sv "(?:" ++ prefix ++ sv "((?:" ++ value ++ sv ")(?:" ++ suffix ++ prefix ++ sv "(?:" ++ value ++ sv "))*)" ++ suffix
           ++ sv ")" ++ (if bool_decide (part_modifier part = ZeroOrMore) then sv "?" else [])) 1.
Proof.
  intros Hv Hne Hq Hp Hs modifier. subst modifier. assert (Hc : groups_in (sv "(" ++ value) 1) by by apply groups_capture.
  repeat split.
  - rewrite app_assoc. apply (groups_app _ _ 1 0); [done|]. groups_zero.
  - apply (groups_app _ _ 1 0); [apply groups_capture_group|]. groups_zero.
  - apply (groups_app _ _ 0 1); [apply groups_open_group|]. apply (groups_app _ _ 0 1); [done|]. rewrite app_assoc.
    apply (groups_app _ _ 1 0); [done|]. groups_zero.
  - apply (groups_app _ _ 0 1); [apply groups_open_group|]. apply (groups_app _ _ 0 1); [done|].
    apply (groups_app _ _ 1 0); [apply groups_capture_group|]. groups_zero.
Qed.

Lemma group_regexp_ok options part : options_ok options -> ascii_part part ->
  exists text, generate_a_group_regexp options part = Ret text /\ (is_wildcard part -> groups_in text 1).
Proof.
  intros Ho (_ & Hp & Hs). unfold generate_a_group_regexp.
  assert (Hv : exists value, match part_type part with
      | SegmentWildcard => generate_a_segment_wildcard_regexp options | FullWildcard => Ret full_wildcard_regexp_value | _ => Ret (part_value part)
      end = Ret value /\ (is_wildcard part -> groups_in value 0 /\ head value <> None /\ head value <> Some (ch "?"))).
  { destruct (segment_wildcard_groups options Ho) as (r & Hr & Hg & Hh). unfold is_wildcard.
    destruct (part_type part); [by eexists; split; [|intros [|]]..| |].
    - exists r. split; [done|]. intros _. by rewrite Hh.
    - eexists. split; [done|]. intros _. split; [apply groups_full_wildcard|done]. }
  destruct Hv as (value & -> & Hv). cbn [res_bind]. cbv zeta. rewrite (escaped_regexp_ret _ Hp), (escaped_regexp_ret _ Hs). cbn [res_bind].
  assert (Htext : is_wildcard part -> _) by (intros Hw; destruct (Hv Hw) as (Hv1 & Hv2 & Hv3);
    exact (group_text_groups part value _ _ Hv1 Hv2 Hv3 (groups_escaped (part_prefix part)) (groups_escaped (part_suffix part)))).
  destruct (_ && _); destruct (_ || _); (eexists; split; [done|]; intros Hw; by apply Htext in Hw as (? & ? & ? & ?)).
Qed.

(** ** The whole expression *)
Lemma generate_regexp_ok options parts : options_ok options -> Forall ascii_part parts ->
  Forall (fun part => part_type part = FixedText \/ part_name part <> []) parts ->
  exists text, generate_regexp_parts options parts = Ret (text, group_names parts)
    /\ (Forall (fun part => part_type part <> Part_Regexp) parts -> groups_in text (length (group_names parts))).
Proof.
  intros Ho Ha Hn. induction Ha as [|part parts Hp Ha IH]; [exists []; split; [done|]; intros _; apply groups_nil|].
  apply Forall_cons in Hn as [Hpn Hn]. destruct (IH Hn) as (rest & Hrest & Hg). cbn [generate_regexp_parts]. unfold group_names in *. cbn [List.filter].
  case_bool_decide as Ht; cbn [negb].
  - destruct Hp as (Hv & _). rewrite (escaped_regexp_ret _ Hv). cbn [res_bind]. cbv zeta. rewrite Hrest. cbn [res_bind].
    eexists. split; [done|]. intros [_ Hr]%Forall_cons. apply (groups_app _ _ 0); [|by apply Hg]. destruct (bool_decide _); groups_zero.
  - destruct Hpn as [?|Hne]; [done|]. replace (sv_is_empty (part_name part)) with false by by destruct (part_name part). cbn [negb verify].
    destruct (group_regexp_ok options part Ho Hp) as (text & -> & Hw). cbn [res_bind]. rewrite Hrest. cbn [res_bind fmap list_fmap length].
    eexists. split; [done|]. intros [Hr Hrs]%Forall_cons. apply (groups_app _ _ 1); [|by apply Hg]. apply Hw. unfold is_wildcard.
    destruct (part_type part); auto; done.
Qed.

(** What the callback promises, for the parts *)
Lemma parts_ascii callback parts : canonical callback -> parts_ok callback parts ->
  Forall ascii_part parts /\ Forall (fun part => part_type part = FixedText \/ part_name part <> []) parts.
Proof.
  intros Hc [Hp _].
  assert (Hv : forall text value, short_text text -> callback text = Ret (inr value) -> Forall (fun b => 0 <= b < 128) value).
  { intros text value Ht E. destruct (Hc text Ht) as (r & E' & Hr). rewrite E in E'. injection E' as <-. by apply Hr. }
  apply Forall_and. eapply Forall_impl; [exact Hp|]. intros part Hok. unfold part_ok in Hok. unfold ascii_part.
  destruct (part_type part).
  - destruct Hok as (_ & -> & -> & text & _ & Ht & E). split; [|by left]. split; [by eapply Hv|done].
  - destruct Hok as (Hn & _ & (t1 & Ht1 & E1) & (t2 & Ht2 & E2) & _ & Ha). split; [|by right]. split; [done|]. split; [exact (Hv _ _ Ht1 E1)|exact (Hv _ _ Ht2 E2)].
  - destruct Hok as (Hn & _ & (t1 & Ht1 & E1) & (t2 & Ht2 & E2) & ->). split; [|by right]. split; [done|]. split; [exact (Hv _ _ Ht1 E1)|exact (Hv _ _ Ht2 E2)].
  - destruct Hok as (Hn & _ & (t1 & Ht1 & E1) & (t2 & Ht2 & E2) & ->). split; [|by right]. split; [done|]. split; [exact (Hv _ _ Ht1 E1)|exact (Hv _ _ Ht2 E2)].
Qed.

(** ** The pattern string *)

(** There is a first code point to look at. *)
Definition has_first (part : Part) : Prop :=
  if bool_decide (part_type part = FixedText) then part_value part <> [] else part_name part <> [].

Lemma deref_nonempty s : s <> [] -> exists c, iterator_deref s = Ret c.
Proof. destruct s as [|b s]; [done|]. intros _. by eexists. Qed.

Lemma needs_grouping_ok options custom_name previous_part part next_part : match next_part with Some next => has_first next | None => True end ->
  exists b, needs_grouping options custom_name previous_part part next_part = Ret b.
Proof.
  intros Hnext. unfold needs_grouping. destruct next_part as [next|]; [|by eexists].
  destruct (_ && _ && _ && _ && _ && _); [|by eexists]. unfold needs_grouping_before. unfold has_first in Hnext.
  destruct (part_type next); (case_bool_decide; [|]); try done; destruct (deref_nonempty _ Hnext) as [c ->]; by eexists.
Qed.

Lemma generate_a_part_ok options previous_part part next_part : options_ok options -> ascii_part part -> has_first part ->
  match next_part with Some next => has_first next | None => True end ->
  exists s, generate_a_part options previous_part part next_part = Ret s.
Proof.
  intros Ho (Hv & Hp & Hs) Hf Hnext. unfold generate_a_part. unfold has_first in Hf. case_bool_decide as Ht.
  - rewrite (escaped_pattern_ret _ Hv). cbn [res_bind]. case_bool_decide; by eexists.
  - destruct (part_name part) as [|b name] eqn:En; [done|]. cbn [at_index lookup list_lookup unwrap res_bind]. cbv zeta.
    set (custom_name := negb (is_ascii_digit b)).
    destruct (needs_grouping_ok options custom_name previous_part part next_part Hnext) as [grouped ->]. cbn [res_bind sv_is_empty negb verify].
    rewrite (escaped_pattern_ret _ Hp), (escaped_pattern_ret _ Hs). cbn [res_bind].
    assert (Hval : exists v, generate_a_value options custom_name grouped previous_part part = Ret v).
    { unfold generate_a_value. destruct (segment_wildcard_groups options Ho) as (r & Hr & _).
      destruct (part_type part); [by eexists..| |by destruct (_ && _); eexists]. destruct custom_name; [by eexists|]. rewrite Hr. by eexists. }
    destruct Hval as [v ->]. cbn [res_bind]. destruct (bool_decide _ && custom_name && _) eqn:Eb; [|by eexists].
    destruct (deref_nonempty (part_suffix part)) as [c ->]; [|by eexists]. destruct (part_suffix part); [|done].
    by rewrite andb_false_r in Eb.
Qed.

Lemma generate_parts_ok options parts : options_ok options -> Forall ascii_part parts -> Forall has_first parts ->
  forall previous_part, exists s, generate_parts options previous_part parts = Ret s.
Proof.
  intros Ho Ha Hf. induction Ha as [|part parts Hp Ha IH]; intros previous_part; [by exists []|]. apply Forall_cons in Hf as [Hfp Hf].
  cbn [generate_parts]. destruct (generate_a_part_ok options previous_part part (head parts) Ho Hp Hfp) as [text ->].
  { destruct Hf; [done|]. done. }
  cbn [res_bind]. destruct (IH Hf (Some part)) as [rest ->]. by eexists.
Qed.

Lemma parts_first callback parts : keeps_text callback -> parts_ok callback parts -> Forall has_first parts.
Proof.
  intros Hk [Hp _]. eapply Forall_impl; [exact Hp|]. intros part Hok. unfold part_ok in Hok. unfold has_first.
  destruct (part_type part); cbn; [|apply Hok..]. destruct Hok as (_ & _ & _ & text & Hne & Ht & E). by eapply Hk.
Qed.

(** ** Match results *)

Lemma groups_set_new groups name value : name ∉ groups.*1 -> groups_set groups name value = groups ++ [(name, value)].
Proof.
  induction groups as [|[n v] groups IH]; [done|]. cbn. rewrite not_elem_of_cons. intros [Hn Hg].
  destruct (sv_eqb n name) eqn:E; [apply sv_eqb_true in E; congruence|]. by rewrite IH.
Qed.

Lemma match_groups_ok component exec_result : NoDup (c_group_name_list component) ->
  Forall (fun capture => forall view, capture = Some view -> well_formed_utf8 view) (rx_capture_group_matches exec_result) ->
  length (rx_capture_group_matches exec_result) = length (c_group_name_list component) ->
  forall count index groups, (index + count)%nat = length (c_group_name_list component) -> groups.*1 = take index (c_group_name_list component) ->
  match_groups count index component exec_result groups
  = Ret (groups ++ zip (drop index (c_group_name_list component)) (drop index (rx_capture_group_matches exec_result))).
Proof.
  intros Hnd Hwf Hlen. induction count as [|count IH]; intros index groups Hi Hg; cbn [match_groups].
  - rewrite (drop_ge (c_group_name_list component)) by lia. by rewrite app_nil_r.
  - destruct (lookup_lt_is_Some_2 (rx_capture_group_matches exec_result) index) as [capture Hc]; [lia|].
    destruct (lookup_lt_is_Some_2 (c_group_name_list component) index) as [name Hn]; [lia|].
    unfold at_index. rewrite Hc, Hn. cbn [unwrap res_bind].
    assert (Hv : match capture with None => Ret None | Some view => let* text := must_from_utf8 view in Ret (Some text) end = Ret capture).
    { destruct capture as [view|]; [|done]. rewrite must_from_utf8_wtf8; [done|]. apply well_formed_wtf8.
      rewrite Forall_lookup in Hwf. by apply (Hwf index _ Hc). }
    rewrite Hv. cbn [res_bind]. rewrite (drop_S _ _ _ Hn), (drop_S _ _ _ Hc). cbn [zip].
    assert (Hnew : name ∉ groups.*1).
    { rewrite Hg. intros (j & Hj)%list_elem_of_lookup. apply lookup_take_Some in Hj as [Hj Hlt].
      rewrite (NoDup_lookup _ j index name Hnd Hj Hn) in Hlt. lia. }
    rewrite groups_set_new by done. rewrite IH; [by rewrite <- app_assoc|lia|].
    rewrite fmap_app, Hg. cbn. by rewrite (take_S_r _ _ name).
Qed.

(** ** Compiling *)
Lemma compile_spec input options callback : well_formed_utf8 input -> Z.of_nat (length input) < 2 ^ 32 ->
  options_ok options -> canonical callback -> keeps_text callback ->
  exists r, compile input callback options = Ret r
    /\ forall component, r = inr component ->
         exists parts text, parse_a_pattern_string input options callback = Ret (inr parts)
           /\ generate_a_pattern_string parts options = Ret (c_pattern_string component)
           /\ generate_a_regular_expression_and_name_list parts options = Ret (text, c_group_name_list component)
           /\ regex_compile text (ignore_case options) = inr (c_regular_expression component)
           /\ c_has_regexp_groups component = existsb (fun part => bool_decide (part_type part = Part_Regexp)) parts
           /\ c_group_name_list component = group_names parts /\ NoDup (c_group_name_list component).
Proof.
  intros Hinput Hsize Ho Hc Hk. unfold compile.
  destruct (parse_spec input options callback Hinput Hsize Ho) as (r & -> & Hr).
  { intros text Ht. destruct (Hc text Ht) as (v & E & _). by exists v. }
  destruct r as [error|parts]; cbn [res_bind]; [by eexists|]. destruct (parts_ascii callback parts Hc Hr) as [Ha Hn].
  destruct (generate_regexp_ok options parts Ho Ha Hn) as (text & Htext & _).
  assert (Hregexp : generate_a_regular_expression_and_name_list parts options = Ret (sv "^" ++ text ++ sv "$", group_names parts))
    by (unfold generate_a_regular_expression_and_name_list; by rewrite Htext).
  rewrite Hregexp. cbn [res_bind]. destruct (regex_compile _ _) as [error|regex] eqn:Er; [by eexists|].
  destruct (generate_parts_ok options parts Ho Ha (parts_first callback parts Hk Hr) None) as [pattern_string Hs].
  unfold generate_a_pattern_string. rewrite Hs. cbn [res_bind]. eexists. split; [done|]. intros component [= <-].
  exists parts, (sv "^" ++ text ++ sv "$"). do 6 (split; [done|]). apply Hr.
Qed.

(** The expression of parts without regular expressions of their own *)
Lemma compiled_groups callback options parts text names : options_ok options -> canonical callback -> parts_ok callback parts ->
  generate_a_regular_expression_and_name_list parts options = Ret (text, names) ->
  existsb (fun part => bool_decide (part_type part = Part_Regexp)) parts = false -> count_groups false text = Some (length names).
Proof.
  intros Ho Hc Hp Htext Hno. destruct (parts_ascii callback parts Hc Hp) as [Ha Hn].
  destruct (generate_regexp_ok options parts Ho Ha Hn) as (body & Hbody & Hg). unfold generate_a_regular_expression_and_name_list in Htext.
  rewrite Hbody in Htext. injection Htext as <- <-. apply existsb_false_forall in Hno.
  assert (Hw : groups_in (sv "^" ++ body) (0 + length (group_names parts))).
  { apply groups_app; [groups_literal|]. apply Hg. eapply Forall_impl; [exact Hno|]. cbn. intros part Hb. by apply bool_decide_eq_false in Hb. }
  change (count_groups false (sv "^" ++ body ++ sv "$") = Some (length (group_names parts))). rewrite app_assoc, Hw. cbn. f_equal. lia.
Qed.
End facts.

(** ** Properties *)

(** C19: compiling a component of a pattern terminates without stopping the
    process when the callback of the component returns ASCII text and does not
    make text empty: the result is an error, or a component whose pattern string
    and regular expression were both generated from the parts of the input, and
    whose names are those of the groups, each once.  *)
Theorem component_compile_safe `{SimdutfLaws, SimdutfCountLaws, IcuIdentifiers, RegexEngine} (input : bytes) (options : Options)
    (callback : bytes -> res (PatternErrorOr bytes)) (Hinput : well_formed_utf8 input) (Hsize : Z.of_nat (length input) < 2 ^ 32)
    (Hoptions : options_ok options) (Hcanonical : canonical callback) (Hkeeps : keeps_text callback) :
  exists r, compile input callback options = Ret r
    /\ forall component, r = inr component ->
         exists parts text, parse_a_pattern_string input options callback = Ret (inr parts)
           /\ generate_a_pattern_string parts options = Ret (c_pattern_string component)
           /\ generate_a_regular_expression_and_name_list parts options = Ret (text, c_group_name_list component)
           /\ regex_compile text (ignore_case options) = inr (c_regular_expression component)
           /\ c_has_regexp_groups component = existsb (fun part => bool_decide (part_type part = Part_Regexp)) parts
           /\ c_group_name_list component = group_names parts /\ NoDup (c_group_name_list component).
Proof. by apply compile_spec. Qed.

(** An engine for the witnesses: an expression without groups matches its own
    text, and any other expression matches everything, with the whole text as
    its first capture. *)
#[export] Instance text_engine : RegexEngine | 100 := {
  Regex := (bytes * nat)%type;
  regex_compile text _ := match count_groups false text with Some n => inr (text, n) | None => inl (sv "unsupported") end;
  regex_match r input :=
    {| rx_success := match r.2 with O => sv_eqb r.1 (sv "^" ++ escape_characters regexp_special input ++ sv "$") | _ => true end;
       rx_n_capture_groups := r.2;
       rx_capture_group_matches := match r.2 with O => [] | S n => Some input :: replicate n None end |}
}.

Lemma identity_on_ascii : canonical (fun text => if sv_is_ascii text then Ret (inr text) else Ret (inl [])).
Proof.
  intros text [Hw _]. rewrite sv_is_ascii_spec. destruct (forallb is_ascii text) eqn:E; [|by exists (inl [])]. exists (inr text). split; [done|].
  intros ? [= <-]. apply is_ascii_Forall; [|done]. by apply well_formed_bytes.
Qed.

Definition ascii_callback (text : bytes) : res (PatternErrorOr bytes) := if sv_is_ascii text then Ret (inr text) else Ret (inl []).

Lemma ascii_callback_keeps : keeps_text ascii_callback.
Proof. intros text value _ Hne. unfold ascii_callback. destruct (sv_is_ascii text); [|done]. by intros [= <-]. Qed.

Definition example_component : Component :=
  {| c_pattern_string := sv "/:id/a-*"; c_regular_expression := (sv "^(?:\/([^\/]+?))\/a-(.*)$", 2%nat);
     c_group_name_list := [sv "id"; sv "0"]; c_has_regexp_groups := false |}.

Lemma example_component_compiles : compile (sv "/:id/a-*") ascii_callback pathname_options = Ret (inr example_component).
Proof. vm_compute. reflexivity. Qed.

Lemma component_compile_safe_witness :
  compile (sv "/:id/a-*") ascii_callback pathname_options = Ret (inr example_component) /\ NoDup (c_group_name_list example_component).
Proof.
  split; [exact example_component_compiles|].
  destruct (component_compile_safe (sv "/:id/a-*") pathname_options ascii_callback) as (r & E & Hr).
  { apply well_formed_ascii. by repeat constructor. }
  { reflexivity. }
  { change (0 <= 47 < 128). lia. }
  { exact identity_on_ascii. }
  { exact ascii_callback_keeps. }
  rewrite example_component_compiles in E. injection E as <-. destruct (Hr _ eq_refl) as (parts & text & _ & _ & _ & _ & _ & _ & Hnd). exact Hnd.
Defined.

(** What [compile] returned was made from the parts of the input. *)
Lemma compile_inv `{SimdutfLaws, SimdutfCountLaws, IcuIdentifiers, RegexEngine} pattern options callback component :
  well_formed_utf8 pattern -> Z.of_nat (length pattern) < 2 ^ 32 -> options_ok options -> canonical callback ->
  compile pattern callback options = Ret (inr component) ->
  exists parts text, parts_ok callback parts
    /\ generate_a_regular_expression_and_name_list parts options = Ret (text, c_group_name_list component)
    /\ regex_compile text (ignore_case options) = inr (c_regular_expression component)
    /\ c_has_regexp_groups component = existsb (fun part => bool_decide (part_type part = Part_Regexp)) parts
    /\ NoDup (c_group_name_list component).
Proof.
  intros Hp Hs Ho Hc. unfold compile. destruct (parse_spec pattern options callback Hp Hs Ho) as (r & -> & Hok).
  { intros t Ht. destruct (Hc t Ht) as (v & Ev & _). by exists v. }
  destruct r as [error|parts]; cbn [res_bind]; [done|]. destruct (parts_ascii callback parts Hc Hok) as [Ha Hn].
  destruct (generate_regexp_ok options parts Ho Ha Hn) as (text & Htext & _).
  assert (Hregexp : generate_a_regular_expression_and_name_list parts options = Ret (sv "^" ++ text ++ sv "$", group_names parts))
    by (unfold generate_a_regular_expression_and_name_list; by rewrite Htext).
  rewrite Hregexp. cbn [res_bind]. destruct (regex_compile _ _) as [error|regex] eqn:Er; [done|].
  destruct (generate_a_pattern_string parts options) as [pattern_string|]; [|done]. intros [= <-].
  exists parts, (sv "^" ++ text ++ sv "$"). do 4 (split; [done|]). apply Hok.
Qed.

(** The match has a capture for every name of the component, and captures are
    text. *)
Record captured `{RegexEngine} (component : Component) (exec_result : RegexResult) : Prop := {
  captured_names : NoDup (c_group_name_list component);
  captured_count : rx_n_capture_groups exec_result = length (c_group_name_list component);
  captured_all : length (rx_capture_group_matches exec_result) = length (c_group_name_list component);
  captured_text : Forall (fun capture => forall view, capture = Some view -> well_formed_utf8 view) (rx_capture_group_matches exec_result)
}.

Lemma match_result_spec `{SimdutfLaws, RegexEngine} component input exec_result : captured component exec_result ->
  create_match_result component input exec_result
  = Ret {| cr_input := input; cr_groups := zip (c_group_name_list component) (rx_capture_group_matches exec_result) |}.
Proof. intros [Hnd Hn Hlen Hwf]. unfold create_match_result. rewrite Hn. by rewrite match_groups_ok. Qed.

(** The expression of a component without custom regular expressions has as
    many groups as the component has names, which are distinct: that is what
    lets a match give every name its capture. *)
Theorem component_groups `{SimdutfLaws, SimdutfCountLaws, IcuIdentifiers, RegexEngine} (pattern : bytes) (options : Options)
    (callback : bytes -> res (PatternErrorOr bytes)) (component : Component)
    (Hpattern : well_formed_utf8 pattern) (Hsize : Z.of_nat (length pattern) < 2 ^ 32)
    (Hoptions : options_ok options) (Hcanonical : canonical callback)
    (Hcompile : compile pattern callback options = Ret (inr component)) (Hregexp : c_has_regexp_groups component = false) :
  NoDup (c_group_name_list component)
  /\ exists text, regex_compile text (ignore_case options) = inr (c_regular_expression component)
       /\ count_groups false text = Some (length (c_group_name_list component)).
Proof.
  destruct (compile_inv pattern options callback component Hpattern Hsize Hoptions Hcanonical Hcompile) as (parts & text & Hok & Htext & Hregex & Hhas & Hnd).
  rewrite Hregexp in Hhas. split; [done|]. exists text. split; [done|]. by eapply compiled_groups.
Qed.

Lemma component_groups_witness :
  NoDup [sv "id"; sv "0"]
  /\ exists text, regex_compile text false = inr (c_regular_expression example_component) /\ count_groups false text = Some 2%nat.
Proof.
  apply (component_groups (sv "/:id/a-*") pathname_options ascii_callback example_component).
  - apply well_formed_ascii. by repeat constructor.
  - reflexivity.
  - change (0 <= 47 < 128). lia.
  - exact identity_on_ascii.
  - exact example_component_compiles.
  - reflexivity.
Defined.

(** A regular expression of the pattern with a named group of its own has more
    captures than the component has names, and the access to the name is out of
    range. *)
Lemma extra_capture_crashes `{Simdutf, RegexEngine} component input exec_result :
  (length (c_group_name_list component) < rx_n_capture_groups exec_result)%nat -> create_match_result component input exec_result = Crash.
Proof.
  intros Hlt. unfold create_match_result.
  assert (Hgen : forall count index groups, (length (c_group_name_list component) < index + count)%nat -> (index <= length (c_group_name_list component))%nat ->
    match_groups count index component exec_result groups = Crash); [|by rewrite Hgen by lia].
  induction count as [|count IH]; intros index groups Hi Hle; [lia|]. cbn [match_groups]. unfold at_index.
  destruct (rx_capture_group_matches exec_result !! index) as [capture|]; [|done]. cbn [unwrap res_bind].
  destruct (c_group_name_list component !! index) as [name|] eqn:En; [|done]. cbn [unwrap res_bind]. apply lookup_lt_Some in En.
  destruct (match capture with None => _ | Some view => _ end) as [value|]; [|done]. cbn [res_bind]. apply IH; lia.
Qed.
