(* ===== verification/PatternInit.v ===== *)
(** * URL patterns: component dictionaries, [LibURL/Pattern/Init.{h,cpp}]

    [process_a_url_pattern_init] completes a dictionary of components with those
    of a base URL and canonicalizes them.  The theorem says that processing
    returns, for a pattern and for a URL, and what the components are then. *)

From S2P Require Import Prelude CharacterTypes Utf8 MemMem Strings TextCodec Percent Ipv4 Ipv6 Host Origin Url UrlParser UrlFacts UrlSafety UrlTheorems UrlRoundtrip Tokens PublicSuffix Wtf8 PatternTokenizer PatternParts PatternCanonicalization PatternFacts.
Local Open Scope Z_scope.

Record Init := {
  i_protocol : option bytes;
  i_username : option bytes;
  i_password : option bytes;
  i_hostname : option bytes;
  i_port : option bytes;
  i_pathname : option bytes;
  i_search : option bytes;
  i_hash : option bytes;
  i_base_url : option bytes
}.

Definition empty_init : Init :=
  {| i_protocol := None; i_username := None; i_password := None; i_hostname := None; i_port := None; i_pathname := None;
     i_search := None; i_hash := None; i_base_url := None |}.

Inductive PatternProcessType := ProcessPattern | ProcessURL.

#[export] Instance PatternProcessType_eq_dec : EqDecision PatternProcessType.
Proof. solve_decision. Defined.

(** [Optional::has_value] *)
Definition given {A} (value : option A) : bool := match value with Some _ => true | None => false end.

Section init.
Context `{LookupTables, Icu, Simdutf, FastFloat, SimdutfCount}.

Definition process_a_base_url_string (input : bytes) (type : PatternProcessType) : res bytes :=
  match type with
  | ProcessPattern => escape_a_pattern_string input
  | ProcessURL => Ret input
  end.

Definition is_an_absolute_pathname (input : bytes) (type : PatternProcessType) : bool :=
  match input with
  | [] => false
  | first :: rest =>
      if first =? ch "/" then true
      else
        match type, rest with
        | ProcessURL, _ => false
        | ProcessPattern, [] => false
        | ProcessPattern, second :: _ =>
            if (first =? 92) && (second =? ch "/") then true else (first =? ch "{") && (second =? ch "/")
        end
  end.

Definition process_protocol_for_init (value : bytes) (type : PatternProcessType) : res (PatternErrorOr bytes) :=
  let* stripped_value :=
    if ends_with_char value (ch ":") then
      let* view := substring_view value 0 (length value - 1) in must_from_utf8 view
    else Ret value in
  match type with
  | ProcessPattern => Ret (inr stripped_value)
  | ProcessURL => canonicalize_a_protocol stripped_value
  end.

Definition process_username_for_init (value : bytes) (type : PatternProcessType) : res bytes :=
  match type with ProcessPattern => Ret value | ProcessURL => canonicalize_a_username value end.

Definition process_password_for_init (value : bytes) (type : PatternProcessType) : res bytes :=
  match type with ProcessPattern => Ret value | ProcessURL => canonicalize_a_password value end.

Definition process_hostname_for_init (value : bytes) (type : PatternProcessType) : res (PatternErrorOr bytes) :=
  match type with ProcessPattern => Ret (inr value) | ProcessURL => canonicalize_a_hostname value end.

Definition process_port_for_init (port_value protocol_value : bytes) (type : PatternProcessType) : res (PatternErrorOr bytes) :=
  match type with ProcessPattern => Ret (inr port_value) | ProcessURL => canonicalize_a_port port_value (Some protocol_value) end.

Definition process_pathname_for_init (pathname_value protocol_value : bytes) (type : PatternProcessType) : res (PatternErrorOr bytes) :=
  match type with
  | ProcessPattern => Ret (inr pathname_value)
  | ProcessURL =>
      if sv_is_empty protocol_value || is_special_scheme protocol_value then as_callback canonicalize_a_pathname pathname_value
      else canonicalize_an_opaque_pathname pathname_value
  end.

(** Without the leading character, if it is there *)
Definition strip_leading_char (value : bytes) (c : Z) : res bytes :=
  if starts_with_char value c then substring_from_byte_offset value 1 else Ret value.

Definition process_search_for_init (value : bytes) (type : PatternProcessType) : res bytes :=
  let* stripped_value := strip_leading_char value (ch "?") in
  match type with ProcessPattern => Ret stripped_value | ProcessURL => canonicalize_a_search stripped_value end.

Definition process_hash_for_init (value : bytes) (type : PatternProcessType) : res bytes :=
  let* stripped_value := strip_leading_char value (ch "#") in
  match type with ProcessPattern => Ret stripped_value | ProcessURL => canonicalize_a_hash stripped_value end.

(** Step 11: what the base URL adds to [result] *)
Definition apply_base_url (init result : Init) (base_url : URL) (type : PatternProcessType) : res Init :=
  let pattern := bool_decide (type = ProcessPattern) in
  let process input := let* s := process_a_base_url_string input type in Ret (Some s) in
  let no_protocol := negb (given (i_protocol init)) in
  let no_host := no_protocol && negb (given (i_hostname init)) in
  let no_port := no_host && negb (given (i_port init)) in
  let no_path := no_port && negb (given (i_pathname init)) in
  let no_search := no_path && negb (given (i_search init)) in
  let* protocol := if no_protocol then process (scheme base_url) else Ret (i_protocol result) in
  let* username := if negb pattern && no_port && negb (given (i_username init)) then process (username base_url) else Ret (i_username result) in
  let* password := if negb pattern && no_port && negb (given (i_username init)) && negb (given (i_password init))
                   then process (password base_url) else Ret (i_password result) in
  let* hostname := if no_host then
                     let* base_host := match host base_url with Some host => host_serialize host | None => Ret [] end in
                     process base_host
                   else Ret (i_hostname result) in
  let* port := if no_port then
                 match port base_url with None => Ret (Some []) | Some port => let* s := format_decimal port in Ret (Some s) end
               else Ret (i_port result) in
  let* pathname := if no_path then let* path := serialize_path base_url in process path else Ret (i_pathname result) in
  let* search := if no_search then process (default [] (query base_url)) else Ret (i_search result) in
  let* hash := if no_search && negb (given (i_hash init)) then process (default [] (fragment base_url)) else Ret (i_hash result) in
  Ret {| i_protocol := protocol; i_username := username; i_password := password; i_hostname := hostname; i_port := port; i_pathname := pathname;
         i_search := search; i_hash := hash; i_base_url := i_base_url result |}.

(** Step 18.2: a relative path goes after the last slash of the base URL's. *)
Definition resolve_pathname (pathname : bytes) (base_url : option URL) (type : PatternProcessType) : res bytes :=
  match base_url with
  | Some base_url =>
      if negb (has_an_opaque_path base_url) && negb (is_an_absolute_pathname pathname type) then
        let* path := serialize_path base_url in
        let* base_url_path := process_a_base_url_string path type in
        match find_last base_url_path (ch "/") with
        | Some slash_index =>
            let* new_pathname := substring_view base_url_path 0 (slash_index + 1) in
            Ret (new_pathname ++ pathname)
        | None => Ret pathname
        end
      else Ret pathname
  | None => Ret pathname
  end.

(** A member that is processed when [init] has it *)
Definition process_member (member result : option bytes) (process : bytes -> res (PatternErrorOr bytes)) : res (PatternErrorOr (option bytes)) :=
  match member with
  | Some value => try* value := process value in Ret (inr (Some value))
  | None => Ret (inr result)
  end.

Definition infallible (process : bytes -> res bytes) (value : bytes) : res (PatternErrorOr bytes) :=
  let* value := process value in Ret (inr value).

Definition process_a_url_pattern_init (init : Init) (type : PatternProcessType)
    (protocol username password hostname port pathname search hash : option bytes) : res (PatternErrorOr Init) :=
  let result := {| i_protocol := protocol; i_username := username; i_password := password; i_hostname := hostname; i_port := port;
                   i_pathname := pathname; i_search := search; i_hash := hash; i_base_url := None |} in
  try* base_url :=
    match i_base_url init with
    | None => Ret (inr None)
    | Some text =>
        let* base_url := basic_parse text None None in
        match base_url with
        | None => Ret (inl (sv "Invalid base URL '" ++ text ++ sv "' provided for URLPattern"))
        | Some base_url => Ret (inr (Some base_url))
        end
    end in
  let* result := match base_url with Some base_url => apply_base_url init result base_url type | None => Ret result end in
  try* protocol := process_member (i_protocol init) (i_protocol result) (fun value => process_protocol_for_init value type) in
  try* username := process_member (i_username init) (i_username result) (infallible (fun value => process_username_for_init value type)) in
  try* password := process_member (i_password init) (i_password result) (infallible (fun value => process_password_for_init value type)) in
  try* hostname := process_member (i_hostname init) (i_hostname result) (fun value => process_hostname_for_init value type) in
  let result_protocol_string := default [] protocol in
  try* port := process_member (i_port init) (i_port result) (fun value => process_port_for_init value result_protocol_string type) in
  try* pathname := process_member (i_pathname init) (i_pathname result) (fun value =>
    let* value := resolve_pathname value base_url type in
    process_pathname_for_init value result_protocol_string type) in
  try* search := process_member (i_search init) (i_search result) (infallible (fun value => process_search_for_init value type)) in
  try* hash := process_member (i_hash init) (i_hash result) (infallible (fun value => process_hash_for_init value type)) in
  Ret (inr {| i_protocol := protocol; i_username := username; i_password := password; i_hostname := hostname; i_port := port;
              i_pathname := pathname; i_search := search; i_hash := hash; i_base_url := i_base_url result |}).

End init.

(** ** Facts *)

(** What a processed member looks like *)
Definition text_for (type : PatternProcessType) (s : bytes) : Prop :=
  match type with ProcessURL => ascii s | ProcessPattern => well_formed_utf8 s end.

Definition member_for (type : PatternProcessType) (member : option bytes) : Prop := forall s, member = Some s -> text_for type s.

Definition short_member (member : option bytes) : Prop :=
  forall s, member = Some s -> well_formed_utf8 s /\ Z.of_nat (length s) < 2 ^ 60.

Lemma ascii_text_for type s : ascii s -> text_for type s.
Proof. intros Ha. destruct type; [by apply well_formed_ascii|done]. Qed.

Lemma some_text_for type s : text_for type s -> member_for type (Some s).
Proof. by intros Hs ? [= <-]. Qed.

(** The members, without the base URL *)
Definition members (i : Init) : list (option bytes) :=
  [i_protocol i; i_username i; i_password i; i_hostname i; i_port i; i_pathname i; i_search i; i_hash i].

Definition init_for (type : PatternProcessType) (i : Init) : Prop := Forall (member_for type) (members i).

(** Every member that [a] has, [b] has. *)
Definition covers (a b : Init) : Prop := Forall2 (fun x y => given x = true -> given y = true) (members a) (members b).

Lemma find_last_bound s c i : find_last s c = Some i -> (i < length s)%nat.
Proof.
  unfold find_last. assert (Hgen : forall k j, find_last_from k s c = Some j -> (j < k)%nat).
  { induction k as [|k IH]; intros j; cbn [find_last_from]; [done|]. repeat case_match; intros E; simplify_eq; try lia; apply IH in E; lia. }
  apply Hgen.
Qed.

Lemma covers_intro (a : Init) v1 v2 v3 v4 v5 v6 v7 v8 base :
  (given (i_protocol a) = true -> given v1 = true) -> (given (i_username a) = true -> given v2 = true) ->
  (given (i_password a) = true -> given v3 = true) -> (given (i_hostname a) = true -> given v4 = true) ->
  (given (i_port a) = true -> given v5 = true) -> (given (i_pathname a) = true -> given v6 = true) ->
  (given (i_search a) = true -> given v7 = true) -> (given (i_hash a) = true -> given v8 = true) ->
  covers a {| i_protocol := v1; i_username := v2; i_password := v3; i_hostname := v4; i_port := v5; i_pathname := v6; i_search := v7;
              i_hash := v8; i_base_url := base |}.
Proof. intros. unfold covers, members. do 8 (apply Forall2_cons; split; [done|]). constructor. Qed.

Section facts.
Context `{LookupTablesLaws, IcuLaws, SimdutfLaws, FastFloatLaws, SimdutfCountLaws}.

(** A step that returns, and sets a member if it does not fail *)
Definition processes (type : PatternProcessType) (process : bytes -> res (PatternErrorOr bytes)) (value : bytes) : Prop :=
  exists r, process value = Ret r /\ forall s, r = inr s -> text_for type s.

Lemma process_member_ok {A} type member result process (k : option bytes -> res (PatternErrorOr A)) (Q : A -> Prop) :
  member_for type result -> (forall value, member = Some value -> processes type process value) ->
  (forall v, member_for type v -> (given member || given result = true -> given v = true) ->
     exists r, k v = Ret r /\ forall x, r = inr x -> Q x) ->
  exists r, (try* v := process_member member result process in k v) = Ret r /\ forall x, r = inr x -> Q x.
Proof.
  intros Hres Hproc Hk. destruct member as [value|]; cbn [process_member res_bind given orb].
  - destruct (Hproc value eq_refl) as (r & -> & Hr). cbn [res_bind]. destruct r as [error|s]; [by eexists|]. cbn [res_bind].
    apply Hk; [|done]. by apply some_text_for, Hr.
  - by apply Hk.
Qed.

(** The base URL *)
Lemma base_string_ok input type : ascii input -> exists s, process_a_base_url_string input type = Ret s /\ ascii s
  /\ (length s <= 2 * length input)%nat.
Proof.
  intros Ha. destruct type; cbn; [|exists input; split; [done|]; split; [done|lia]].
  unfold escape_a_pattern_string. rewrite sv_is_ascii_spec, Forall_is_ascii by done. cbn [verify]. eexists. split; [done|].
  destruct (escaped_ascii input Ha). by split.
Qed.

Lemma base_host_ascii u : url_ok u -> exists s, match host u with Some host => host_serialize host | None => Ret [] end = Ret s /\ ascii s.
Proof.
  intros Hu. pose proof (front_host u (ok_front u Hu)) as Hh. unfold url_host_ok in Hh.
  destruct (host u) as [h|]; [|by exists []]. destruct Hh as [[Hok _]|[-> _]]; [by eapply host_serialized_ascii|]. by exists [].
Qed.

Lemma base_path_ascii u : url_ok u -> exists s, serialize_path u = Ret s /\ ascii s.
Proof.
  intros Hu. pose proof (ok_path u Hu) as Hp. unfold path_ok in Hp. unfold serialize_path. destruct (has_an_opaque_path u).
  - destruct Hp as (_ & _ & path & -> & Ho & _). exists path. split; [done|]. eapply Forall_impl; [exact Ho|]. cbn. intros x ([Hx _] & _). lia.
  - destruct Hp as (Hs & _). eexists. split; [done|]. by eapply segments_ascii.
Qed.

(** One member of [apply_base_url]: taken from the base URL, or kept *)
Lemma base_choice {A} (b : bool) old type (step : res (option bytes)) (k : option bytes -> res A) (Q : A -> Prop) : member_for type old ->
  (exists s, step = Ret (Some s) /\ text_for type s) ->
  (forall v, (given old = true -> given v = true) -> member_for type v -> exists r, k v = Ret r /\ Q r) ->
  exists r, (let* v := (if b then step else Ret old) in k v) = Ret r /\ Q r.
Proof.
  intros Hold (s & Hstep & Hs) Hk. destruct b; [rewrite Hstep; cbn [res_bind]|cbn [res_bind]; by apply Hk]. apply Hk; [done|]. by apply some_text_for.
Qed.

Lemma processed_base input type : ascii input ->
  exists s, (let* s := process_a_base_url_string input type in Ret (Some s)) = Ret (Some s) /\ text_for type s.
Proof.
  intros Ha. destruct (base_string_ok input type Ha) as (s & -> & Hs & _). exists s. split; [done|]. by apply ascii_text_for.
Qed.

Lemma apply_base_url_ok init result base_url type : url_ok base_url -> init_for type result ->
  exists result', apply_base_url init result base_url type = Ret result' /\ init_for type result' /\ covers result result'
    /\ i_base_url result' = i_base_url result.
Proof.
  intros Hu Hr. pose proof (ok_front _ Hu) as Hfront. unfold init_for, members in Hr. rewrite !Forall_cons in Hr.
  destruct Hr as (R1 & R2 & R3 & R4 & R5 & R6 & R7 & R8 & _). unfold apply_base_url. cbv zeta.
  assert (Hclean : forall set t, Forall (clean set) t -> ascii t) by (intros set t; apply clean_ascii).
  destruct (scheme_ascii _ (front_scheme _ Hfront)) as [Hscheme _].
  apply (base_choice _ _ type); [done|by apply processed_base|]. intros v1 G1 M1.
  apply (base_choice _ _ type); [done|apply processed_base; eapply Hclean, (front_username _ Hfront)|]. intros v2 G2 M2.
  apply (base_choice _ _ type); [done|apply processed_base; eapply Hclean, (front_password _ Hfront)|]. intros v3 G3 M3.
  apply (base_choice _ _ type); [done|..].
  { destruct (base_host_ascii _ Hu) as (h & -> & Hh). by apply processed_base. }
  intros v4 G4 M4. apply (base_choice _ _ type); [done|..].
  { destruct (port base_url) as [n|] eqn:Hn; [|exists []; split; [done|by apply ascii_text_for]].
    pose proof (front_port _ Hfront) as Hport. unfold url_port_ok in Hport. rewrite Hn in Hport.
    destruct (decimal_ascii n ltac:(lia)) as (t & -> & Ht). exists t. split; [done|]. by apply ascii_text_for. }
  intros v5 G5 M5. apply (base_choice _ _ type); [done|..].
  { destruct (base_path_ascii _ Hu) as (h & -> & Hh). by apply processed_base. }
  intros v6 G6 M6. apply (base_choice _ _ type); [done|apply processed_base|].
  { pose proof (ok_query _ Hu) as Hq. unfold query_ok in Hq. destruct (query base_url); [by eapply Hclean|constructor]. }
  intros v7 G7 M7. apply (base_choice _ _ type); [done|apply processed_base|].
  { pose proof (ok_fragment _ Hu) as Hf. unfold fragment_ok in Hf. destruct (fragment base_url); [by eapply Hclean|constructor]. }
  intros v8 G8 M8. eexists. split; [done|]. split; [|split; [|done]]; by repeat constructor.
Qed.

(** *** Each member *)
Lemma short_member_text member value : short_member member -> member = Some value -> short_text value.
Proof. intros Hm Hv. destruct (Hm value Hv) as [Hw Hl]. split; [done|lia]. Qed.

Lemma canonical_for callback type value : canonical callback -> short_text value ->
  processes type (fun value => match type with ProcessPattern => Ret (inr value) | ProcessURL => callback value end) value.
Proof.
  intros Hc Hv. destruct type; [|by apply Hc]. exists (inr value). split; [done|]. intros s [= <-]. apply Hv.
Qed.

Lemma infallible_for f type value : canonical (as_callback f) -> short_text value ->
  processes type (infallible (fun value => match type with ProcessPattern => Ret value | ProcessURL => f value end)) value.
Proof.
  intros Hc Hv. destruct type; [|by apply Hc]. exists (inr value). split; [done|]. intros s [= <-]. apply Hv.
Qed.

Lemma protocol_for type value : short_text value -> processes type (fun value => process_protocol_for_init value type) value.
Proof.
  intros Hv.
  assert (Hs : exists t, (if ends_with_char value (ch ":") then let* view := substring_view value 0 (length value - 1) in must_from_utf8 view
    else Ret value) = Ret t /\ short_text t).
  { destruct (ends_with_char value (ch ":")) eqn:E; [|by exists value]. destruct Hv as [Hw Hl].
    assert (Hlast : exists v, value = v ++ [ch ":"]).
    { unfold ends_with_char in E. destruct (last value) as [x|] eqn:El; [|done]. apply Z.eqb_eq in E as <-.
      apply last_Some in El as [v ->]. by exists v. }
    destruct Hlast as [v ->]. rewrite length_app in *. cbn [length] in *. unfold substring_view. rewrite length_app. cbn [length].
    rewrite (proj2 (Nat.leb_le _ _)) by lia. cbn [verify res_bind]. rewrite drop_0, take_app_length' by lia.
    assert (Hwv : well_formed_utf8 v) by (eapply well_formed_ascii_suffix; [|exact Hw]; apply Forall_singleton; cbn; lia).
    exists v. rewrite must_from_utf8_wtf8 by by apply well_formed_wtf8. split; [done|]. split; [done|lia]. }
  unfold processes, process_protocol_for_init. destruct Hs as (t & -> & Ht). cbn [res_bind].
  destruct (canonical_for canonicalize_a_protocol type t (proj1 protocol_canonical) Ht) as (r & E & Hr). by exists r.
Qed.

Lemma stripped_short value c : 0 <= c < 128 -> short_text value -> exists t, strip_leading_char value c = Ret t /\ short_text t.
Proof.
  intros Hc [Hw Hl]. unfold strip_leading_char, starts_with_char. destruct value as [|b value]; [by exists []|]. cbn [length] in Hl.
  destruct (Z.eqb_spec c b) as [->|]; [|exists (b :: value); split; [done|]; by split; [|cbn [length]; lia]].
  unfold substring_from_byte_offset, substring_view_from, substring_view. rewrite !(proj2 (Nat.leb_le _ _)) by (cbn; lia). cbn [verify res_bind drop].
  rewrite drop_0, take_ge by (cbn; lia).
  assert (Hwv : well_formed_utf8 value) by (apply (well_formed_ascii_prefix [b]); [by apply Forall_singleton|done]).
  rewrite validate_well_formed by done. exists value. split; [done|]. split; [done|lia].
Qed.

Lemma stripped_for f c type value : 0 <= c < 128 -> canonical (as_callback f) -> short_text value ->
  processes type (infallible (fun value => let* stripped := strip_leading_char value c in
    match type with ProcessPattern => Ret stripped | ProcessURL => f stripped end)) value.
Proof.
  intros Hc Hf Hv. destruct (stripped_short value c Hc Hv) as (t & E & Ht). destruct (infallible_for f type t Hf Ht) as (r & Er & Hr).
  exists r. split; [|done]. unfold infallible in *. rewrite E. exact Er.
Qed.

(** The path of the base URL fits in the address space with that of the pattern. *)
Definition base_path_fits (u : URL) : Prop := forall path, serialize_path u = Ret path -> Z.of_nat (length path) < 2 ^ 58.

Lemma resolve_pathname_ok value base_url type : well_formed_utf8 value -> Z.of_nat (length value) < 2 ^ 60 ->
  (forall u, base_url = Some u -> url_ok u /\ base_path_fits u) -> exists t, resolve_pathname value base_url type = Ret t /\ short_text t.
Proof.
  intros Hw Hl Hbase. assert (Hsame : short_text value) by (split; [done|lia]). unfold resolve_pathname. destruct base_url as [u|]; [|by exists value].
  destruct (Hbase u eq_refl) as [Hu Hfits]. destruct (_ && _); [|by exists value].
  destruct (base_path_ascii u Hu) as (path & Hp & Ha). specialize (Hfits path Hp). rewrite Hp. cbn [res_bind].
  destruct (base_string_ok path type Ha) as (t & -> & Ht & Htl). cbn [res_bind].
  destruct (find_last t (ch "/")) as [i|] eqn:E; [|by exists value]. apply find_last_bound in E.
  unfold substring_view. rewrite (proj2 (Nat.leb_le _ _)) by lia. cbn [verify res_bind]. eexists. split; [done|]. rewrite drop_0. split.
  - apply well_formed_app; [|done]. by apply well_formed_ascii, Forall_take.
  - rewrite length_app, length_take. lia.
Qed.

Lemma pathname_for value base_url protocol type : well_formed_utf8 value -> Z.of_nat (length value) < 2 ^ 60 ->
  (forall u, base_url = Some u -> url_ok u /\ base_path_fits u) ->
  processes type (fun value => let* value := resolve_pathname value base_url type in process_pathname_for_init value protocol type) value.
Proof.
  intros Hw Hl Hbase. destruct (resolve_pathname_ok value base_url type Hw Hl Hbase) as (t & E & Ht). unfold processes. rewrite E. cbn [res_bind].
  unfold process_pathname_for_init. destruct type; [exists (inr t); split; [done|]; intros ? [= <-]; apply Ht|].
  destruct (_ || _); [by apply pathname_canonical|by apply opaque_pathname_canonical].
Qed.

(** *** The whole dictionary *)
Record init_short (init : Init) : Prop := {
  short_members : Forall short_member (members init);
  short_base_url : short_member (i_base_url init);
  short_base_path : forall text u, i_base_url init = Some text -> basic_parse text None None = Ret (Some u) -> base_path_fits u
}.

Lemma base_url_for_init {A} init (k : option URL -> res (PatternErrorOr A)) (Q : A -> Prop) : init_short init ->
  (forall base_url, (forall u, base_url = Some u -> url_ok u /\ base_path_fits u) -> exists r, k base_url = Ret r /\ forall x, r = inr x -> Q x) ->
  exists r, (try* base_url :=
      match i_base_url init with
      | None => Ret (inr None)
      | Some text =>
          let* base_url := basic_parse text None None in
          match base_url with
          | None => Ret (inl (sv "Invalid base URL '" ++ text ++ sv "' provided for URLPattern"))
          | Some base_url => Ret (inr (Some base_url))
          end
      end in k base_url) = Ret r /\ forall x, r = inr x -> Q x.
Proof.
  intros [_ Hbase Hpath] Hk. destruct (i_base_url init) as [text|] eqn:E; [|cbn [res_bind]; apply Hk; done].
  destruct (basic_parse_ok text None None (short_text_fits _ (short_member_text _ _ Hbase eq_refl)) ltac:(done)) as (r & Hr & Hok). rewrite Hr. cbn [res_bind].
  destruct r as [u|]; cbn [res_bind]; [|by eexists]. apply Hk. intros ? [= <-]. split; [by apply Hok|]. by apply (Hpath text u).
Qed.

Lemma process_init_ok init type a : init_short init -> init_for type a ->
  exists r, process_a_url_pattern_init init type (i_protocol a) (i_username a) (i_password a) (i_hostname a) (i_port a) (i_pathname a)
      (i_search a) (i_hash a) = Ret r
    /\ forall i, r = inr i -> init_for type i /\ covers init i /\ covers a i.
Proof.
  intros Hi Ha. unfold process_a_url_pattern_init. apply base_url_for_init; [done|]. intros base_url Hbase.
  set (result0 := {| i_protocol := i_protocol a; i_base_url := None |}).
  assert (Hresult : exists result, match base_url with Some base_url => apply_base_url init result0 base_url type | None => Ret result0 end = Ret result
    /\ init_for type result /\ covers a result).
  { assert (Hcov : covers a result0) by (unfold covers; change (members result0) with (members a); by apply Forall_Forall2_diag, Forall_forall). destruct base_url as [u|]; [|by exists result0].
    destruct (apply_base_url_ok init result0 u type) as (result & -> & Hr & Hc & _); [by apply Hbase|done|]. by exists result. }
  destruct Hresult as (result & -> & Hr & Hc). cbn [res_bind]. pose proof (short_members _ Hi) as Hs.
  unfold init_for, members in Hr. rewrite !Forall_cons in Hr. destruct Hr as (R1 & R2 & R3 & R4 & R5 & R6 & R7 & R8 & _).
  unfold members in Hs. rewrite !Forall_cons in Hs. destruct Hs as (S1 & S2 & S3 & S4 & S5 & S6 & S7 & S8 & _).
  pose proof (fun m v Hm Hv => short_member_text m v Hm Hv) as Hshort.
  apply (process_member_ok type); [done|intros v Hv; apply protocol_for; exact (Hshort _ _ S1 Hv)|]. intros v1 M1 G1.
  apply (process_member_ok type); [done|intros v Hv; eapply infallible_for; [apply username_canonical|exact (Hshort _ _ S2 Hv)]|]. intros v2 M2 G2.
  apply (process_member_ok type); [done|intros v Hv; eapply infallible_for; [apply password_canonical|exact (Hshort _ _ S3 Hv)]|]. intros v3 M3 G3.
  apply (process_member_ok type); [done|intros v Hv; eapply canonical_for; [apply hostname_canonical|exact (Hshort _ _ S4 Hv)]|]. intros v4 M4 G4. cbv zeta.
  apply (process_member_ok type); [done|intros v Hv; eapply canonical_for; [apply port_canonical|exact (Hshort _ _ S5 Hv)]|]. intros v5 M5 G5.
  apply (process_member_ok type); [done|intros v Hv; destruct (S6 v Hv); by apply pathname_for|]. intros v6 M6 G6.
  apply (process_member_ok type); [done|intros v Hv; eapply stripped_for; [|apply search_canonical|exact (Hshort _ _ S7 Hv)]; cbn; lia|]. intros v7 M7 G7.
  apply (process_member_ok type); [done|intros v Hv; eapply stripped_for; [|apply hash_canonical|exact (Hshort _ _ S8 Hv)]; cbn; lia|]. intros v8 M8 G8.
  eexists. split; [done|]. intros i [= <-]. split; [by repeat constructor|].
  unfold covers, members in Hc. rewrite !Forall2_cons in Hc. destruct Hc as (C1 & C2 & C3 & C4 & C5 & C6 & C7 & C8 & _).
  split; apply covers_intro; intros Hg; [apply G1|apply G2|apply G3|apply G4|apply G5|apply G6|apply G7|apply G8|
    apply G1|apply G2|apply G3|apply G4|apply G5|apply G6|apply G7|apply G8]; apply orb_true_iff; auto.
Qed.
End facts.

(** The arguments of [process_a_url_pattern_init] for a URL: empty strings *)
Definition blank_init : Init :=
  {| i_protocol := Some []; i_username := Some []; i_password := Some []; i_hostname := Some []; i_port := Some []; i_pathname := Some [];
     i_search := Some []; i_hash := Some []; i_base_url := None |}.

(** All members are given, and they are ASCII text. *)
Lemma given_ascii i : init_for ProcessURL i -> covers blank_init i -> Forall (fun m => exists s, m = Some s /\ ascii s) (members i).
Proof.
  unfold init_for, covers. generalize (members i). intros ms Hfor Hcov. apply Forall_forall. intros m Hm.
  apply list_elem_of_lookup in Hm as [k Hk]. rewrite Forall_lookup in Hfor. specialize (Hfor k m Hk).
  destruct (Forall2_lookup_r _ _ _ _ _ Hcov Hk) as (x & Hx & Hg).
  assert (Hgiven : given m = true).
  { apply Hg. destruct k as [|[|[|[|[|[|[|[|k]]]]]]]]; cbn in Hx; by simplify_eq. }
  destruct m as [s|]; [|done]. exists s. split; [done|]. by apply Hfor.
Qed.

(** ** Properties *)

(** Processing a dictionary of components returns without stopping the
    process.  For a pattern, a result has every member of the dictionary, and
    its members are well-formed text; for a URL, a result has all eight members,
    and they are ASCII text, as the members of a parsed URL are. *)
Theorem pattern_init_safe `{LookupTablesLaws, IcuLaws, SimdutfLaws, FastFloatLaws, SimdutfCountLaws} (init : Init) (Hinit : init_short init) :
  (exists r, process_a_url_pattern_init init ProcessPattern None None None None None None None None = Ret r
     /\ forall i, r = inr i -> covers init i /\ Forall (fun m => forall s, m = Some s -> well_formed_utf8 s) (members i))
  /\ exists r, process_a_url_pattern_init init ProcessURL (Some []) (Some []) (Some []) (Some []) (Some []) (Some []) (Some []) (Some []) = Ret r
     /\ forall i, r = inr i -> Forall (fun m => exists s, m = Some s /\ ascii s) (members i).
Proof.
  split.
  - destruct (process_init_ok init ProcessPattern empty_init Hinit) as (r & E & Hr); [unfold init_for; by repeat (constructor; [done|])|].
    exists r. split; [exact E|]. intros i Hi. by destruct (Hr i Hi) as (Hfor & Hcov & _).
  - destruct (process_init_ok init ProcessURL blank_init Hinit) as (r & E & Hr).
    { unfold init_for. repeat (constructor; [intros ? [= <-]; constructor|]). constructor. }
    exists r. split; [exact E|]. intros i Hi. destruct (Hr i Hi) as (Hfor & _ & Hcov). by apply given_ascii.
Qed.

Definition example_init : Init :=
  {| i_protocol := None; i_username := None; i_password := None; i_hostname := None; i_port := None; i_pathname := Some (sv "b c");
     i_search := Some (sv "?q"); i_hash := None; i_base_url := Some (sv "https://example.com/x/y") |}.

Lemma example_init_short : init_short example_init.
Proof.
  assert (Htext : forall s, forallb (fun b => (0 <=? b) && (b <? 128)) s = true -> (Z.of_nat (length s) <? 2 ^ 60) = true -> short_member (Some s)).
  { intros s Hs Hl ? [= <-]. split; [|lia]. apply well_formed_ascii. apply forallb_Forall_iff in Hs. eapply Forall_impl; [exact Hs|]. cbn. lia. }
  split.
  - unfold members. repeat (constructor; [first [by apply Htext|done]|]). constructor.
  - by apply Htext.
  - intros text u [= <-] Hu path Hp. vm_compute in Hu. injection Hu as <-. vm_compute in Hp. injection Hp as <-. vm_compute. reflexivity.
Qed.

Lemma pattern_init_safe_witness :
  exists i, process_a_url_pattern_init example_init ProcessURL (Some []) (Some []) (Some []) (Some []) (Some []) (Some []) (Some []) (Some [])
      = Ret (inr i) /\ i_pathname i = Some (sv "/x/b%20c") /\ Forall (fun m => exists s, m = Some s /\ ascii s) (members i).
Proof.
  destruct (pattern_init_safe example_init example_init_short) as [_ (r & E & Hr)].
  set (i := {| i_protocol := Some (sv "https"); i_username := Some []; i_password := Some []; i_hostname := Some (sv "example.com");
    i_port := Some []; i_pathname := Some (sv "/x/b%20c"); i_search := Some (sv "q"); i_hash := Some []; i_base_url := None |}).
  assert (Ei : process_a_url_pattern_init example_init ProcessURL (Some []) (Some []) (Some []) (Some []) (Some []) (Some []) (Some []) (Some [])
    = Ret (inr i)) by (vm_compute; reflexivity).
  exists i. split; [exact Ei|]. split; [reflexivity|]. rewrite Ei in E. injection E as <-. by apply Hr.
Defined.
