(* ===== verification/PatternConstructor.v ===== *)
(** * URL patterns: constructor strings, [LibURL/Pattern/ConstructorStringParser.{h,cpp}]

    The parser of constructor strings is a state machine over the tokens of the
    string, which cuts it into components.  It goes back to the start of a
    component twice at most: from "init" to "protocol", and from "authority" to
    "username" or "hostname". *)

From S2P Require Import Prelude CharacterTypes Utf8 MemMem Strings TextCodec Percent Ipv4 Ipv6 Host Origin Url UrlParser UrlFacts UrlSafety Tokens Wtf8 PatternTokenizer PatternParts PatternCanonicalization PatternFacts PatternComponent PatternInit.
Local Open Scope Z_scope.

Inductive CState :=
| CInitial | CProtocol | CAuthority | CUsername | CPassword | CHostname | CPort | CPathname | CSearch | CHash | CDone.

#[export] Instance CState_eq_dec : EqDecision CState.
Proof. solve_decision. Defined.

Record ConstructorStringParser := {
  cs_input : bytes;
  cs_token_list : list Token;
  cs_result : Init;
  cs_component_start : Z;
  cs_token_index : Z;
  cs_token_increment : Z;
  cs_group_depth : Z;
  cs_hostname_ipv6_bracket_depth : Z;
  cs_protocol_matches_a_special_scheme : bool;
  cs_state : CState
}.

(** ** Updates of members *)

Definition with_position (p : ConstructorStringParser) (start index increment : Z) (state : CState) : ConstructorStringParser :=
  {| cs_input := cs_input p; cs_token_list := cs_token_list p; cs_result := cs_result p; cs_component_start := start; cs_token_index := index;
     cs_token_increment := increment; cs_group_depth := cs_group_depth p;
     cs_hostname_ipv6_bracket_depth := cs_hostname_ipv6_bracket_depth p;
     cs_protocol_matches_a_special_scheme := cs_protocol_matches_a_special_scheme p; cs_state := state |}.

Definition with_depths (p : ConstructorStringParser) (group_depth bracket_depth : Z) : ConstructorStringParser :=
  {| cs_input := cs_input p; cs_token_list := cs_token_list p; cs_result := cs_result p; cs_component_start := cs_component_start p;
     cs_token_index := cs_token_index p; cs_token_increment := cs_token_increment p; cs_group_depth := group_depth;
     cs_hostname_ipv6_bracket_depth := bracket_depth;
     cs_protocol_matches_a_special_scheme := cs_protocol_matches_a_special_scheme p; cs_state := cs_state p |}.

Definition with_result (p : ConstructorStringParser) (result : Init) (special : bool) : ConstructorStringParser :=
  {| cs_input := cs_input p; cs_token_list := cs_token_list p; cs_result := result; cs_component_start := cs_component_start p;
     cs_token_index := cs_token_index p; cs_token_increment := cs_token_increment p; cs_group_depth := cs_group_depth p;
     cs_hostname_ipv6_bracket_depth := cs_hostname_ipv6_bracket_depth p;
     cs_protocol_matches_a_special_scheme := special; cs_state := cs_state p |}.

(** [m_token_index += m_token_increment] *)
Definition advance_token (p : ConstructorStringParser) : ConstructorStringParser :=
  with_position p (cs_component_start p) (u32 (cs_token_index p + cs_token_increment p)) (cs_token_increment p) (cs_state p).

Definition rewind (p : ConstructorStringParser) : ConstructorStringParser :=
  with_position p (cs_component_start p) (cs_component_start p) 0 (cs_state p).

Definition rewind_and_set_state (p : ConstructorStringParser) (state : CState) : ConstructorStringParser :=
  with_position (rewind p) (cs_component_start p) (cs_component_start p) 0 state.

Definition state_to_string (state : CState) : bytes :=
  match state with
  | CInitial => sv "Initial" | CProtocol => sv "Protocol" | CAuthority => sv "Authority" | CUsername => sv "Username"
  | CPassword => sv "Password" | CHostname => sv "Hostname" | CPort => sv "Port" | CPathname => sv "Pathname"
  | CSearch => sv "Search" | CHash => sv "Hash" | CDone => sv "Done"
  end.

(** The member of the result that the state stands for *)
Definition result_for_active_state (p : ConstructorStringParser) : res (option bytes) :=
  match cs_state p with
  | CProtocol => Ret (i_protocol (cs_result p)) | CUsername => Ret (i_username (cs_result p)) | CPassword => Ret (i_password (cs_result p))
  | CHostname => Ret (i_hostname (cs_result p)) | CPort => Ret (i_port (cs_result p)) | CPathname => Ret (i_pathname (cs_result p))
  | CSearch => Ret (i_search (cs_result p)) | CHash => Ret (i_hash (cs_result p))
  | CInitial | CAuthority | CDone => Crash
  end.

Definition set_result_for_active_state (result : Init) (state : CState) (value : bytes) : res Init :=
  let '(Build_Init protocol username password hostname port pathname search hash base_url) := result in
  match state with
  | CProtocol => Ret (Build_Init (Some value) username password hostname port pathname search hash base_url)
  | CUsername => Ret (Build_Init protocol (Some value) password hostname port pathname search hash base_url)
  | CPassword => Ret (Build_Init protocol username (Some value) hostname port pathname search hash base_url)
  | CHostname => Ret (Build_Init protocol username password (Some value) port pathname search hash base_url)
  | CPort => Ret (Build_Init protocol username password hostname (Some value) pathname search hash base_url)
  | CPathname => Ret (Build_Init protocol username password hostname port (Some value) search hash base_url)
  | CSearch => Ret (Build_Init protocol username password hostname port pathname (Some value) hash base_url)
  | CHash => Ret (Build_Init protocol username password hostname port pathname search (Some value) base_url)
  | CInitial | CAuthority | CDone => Crash
  end.

(** A member that is set to [value] when it is not there and [b] holds *)
Definition set_missing (b : bool) (value : bytes) (member : option bytes) : option bytes :=
  match member with Some _ => member | None => if b then Some value else None end.

Definition state_is_one_of (state : CState) (states : list CState) : bool := bool_decide (state ∈ states).

(** Step 2 of [change_state] *)
Definition set_defaults (result : Init) (special : bool) (state new_state : CState) : Init :=
  let '(Build_Init protocol username password hostname port pathname search hash base_url) := result in
  Build_Init protocol username password
    (set_missing (state_is_one_of state [CProtocol; CAuthority; CUsername; CPassword] && state_is_one_of new_state [CPort; CPathname; CSearch; CHash]) [] hostname)
    port
    (set_missing (state_is_one_of state [CProtocol; CAuthority; CUsername; CPassword; CHostname; CPort] && state_is_one_of new_state [CSearch; CHash])
       (if special then sv "/" else []) pathname)
    (set_missing (state_is_one_of state [CProtocol; CAuthority; CUsername; CPassword; CHostname; CPort; CPathname] && bool_decide (new_state = CHash))
       [] search)
    hash base_url.

(** ** Reading tokens *)

Definition token_at (p : ConstructorStringParser) (index : Z) : res Token := at_index (cs_token_list p) (Z.to_nat index).

Definition get_a_safe_token (p : ConstructorStringParser) (index : Z) : res Token :=
  let index := u32 index in
  if index <? Z.of_nat (length (cs_token_list p)) then token_at p index
  else
    let* token := unwrap (last (cs_token_list p)) in
    verify (bool_decide (token_type token = Tok_End)) (Ret token).

Definition is_a_non_special_pattern_char (p : ConstructorStringParser) (index value : Z) : res bool :=
  let* token := get_a_safe_token p index in
  Ret (match token_value token with
       | [] => false
       | first :: _ =>
           (first =? value)
           && (bool_decide (token_type token = Tok_Char) || bool_decide (token_type token = Tok_EscapedChar)
               || bool_decide (token_type token = Tok_InvalidChar))
       end).

Definition next_is_authority_slashes (p : ConstructorStringParser) : res bool :=
  let* first := is_a_non_special_pattern_char p (cs_token_index p + 1) (ch "/") in
  if negb first then Ret false else is_a_non_special_pattern_char p (cs_token_index p + 2) (ch "/").

Definition is_an_identity_terminator (p : ConstructorStringParser) : res bool := is_a_non_special_pattern_char p (cs_token_index p) (ch "@").
Definition is_a_password_prefix (p : ConstructorStringParser) : res bool := is_a_non_special_pattern_char p (cs_token_index p) (ch ":").
Definition is_a_port_prefix (p : ConstructorStringParser) : res bool := is_a_non_special_pattern_char p (cs_token_index p) (ch ":").
Definition is_a_pathname_start (p : ConstructorStringParser) : res bool := is_a_non_special_pattern_char p (cs_token_index p) (ch "/").
Definition is_a_protocol_suffix (p : ConstructorStringParser) : res bool := is_a_non_special_pattern_char p (cs_token_index p) (ch ":").
Definition is_a_hash_prefix (p : ConstructorStringParser) : res bool := is_a_non_special_pattern_char p (cs_token_index p) (ch "#").
Definition is_an_ipv6_open (p : ConstructorStringParser) : res bool := is_a_non_special_pattern_char p (cs_token_index p) (ch "[").
Definition is_an_ipv6_close (p : ConstructorStringParser) : res bool := is_a_non_special_pattern_char p (cs_token_index p) (ch "]").

Definition is_a_search_prefix (p : ConstructorStringParser) : res bool :=
  let* prefix := is_a_non_special_pattern_char p (cs_token_index p) (ch "?") in
  if prefix then Ret true
  else
    let* token := token_at p (cs_token_index p) in
    if negb (sv_eqb (token_value token) (sv "?")) then Ret false
    else if cs_token_index p =? 0 then Ret true
    else
      let* previous_token := get_a_safe_token p (cs_token_index p - 1) in
      Ret (negb (bool_decide (token_type previous_token ∈ [Tok_Name; Tok_Regexp; Tok_Close; Tok_Asterisk]))).

Definition is_a_group_open (p : ConstructorStringParser) : res bool :=
  let* token := token_at p (cs_token_index p) in Ret (bool_decide (token_type token = Tok_Open)).

Definition is_a_group_close (p : ConstructorStringParser) : res bool :=
  let* token := token_at p (cs_token_index p) in Ret (bool_decide (token_type token = Tok_Close)).

(** ** The machine *)

Section constructor.
Context `{LookupTables, Icu, Simdutf, FastFloat, SimdutfCount, IcuIdentifiers, RegexEngine}.

Definition make_a_component_string (p : ConstructorStringParser) : res bytes :=
  verify (cs_token_index p <? Z.of_nat (length (cs_token_list p)))
    (let* token := token_at p (cs_token_index p) in
     let* component_start_token := get_a_safe_token p (cs_component_start p) in
     let component_start_input_index := token_index component_start_token in
     let* sub_view := unicode_substring_view (cs_input p) component_start_input_index (size_t (u32 (token_index token - component_start_input_index))) in
     must_from_utf8 sub_view).

Definition compute_protocol_matches_a_special_scheme_flag (p : ConstructorStringParser) : res (PatternErrorOr ConstructorStringParser) :=
  let* protocol_string := make_a_component_string p in
  try* protocol_component := compile protocol_string canonicalize_a_protocol default_options in
  Ret (inr (if protocol_component_matches_a_special_scheme protocol_component then with_result p (cs_result p) true else p)).

Definition change_state (p : ConstructorStringParser) (new_state : CState) (skip : Z) : res ConstructorStringParser :=
  let* result :=
    if negb (state_is_one_of (cs_state p) [CInitial; CAuthority; CDone]) then
      let* value := make_a_component_string p in
      set_result_for_active_state (cs_result p) (cs_state p) value
    else Ret (cs_result p) in
  let result :=
    if negb (bool_decide (cs_state p = CInitial)) && negb (bool_decide (new_state = CDone))
    then set_defaults result (cs_protocol_matches_a_special_scheme p) (cs_state p) new_state else result in
  let index := u32 (cs_token_index p + skip) in
  Ret (with_position (with_result p result (cs_protocol_matches_a_special_scheme p)) index index 0 new_state).

(** The first of the conditions that holds *)
Fixpoint first_of {A} (cases : list (res bool * res A)) (otherwise : res A) : res A :=
  match cases with
  | [] => otherwise
  | (condition, action) :: cases => let* b := condition in if b then action else first_of cases otherwise
  end.

(** The steps at the end of the string: the parser to go on with, or to stop with *)
Definition at_end_token (p : ConstructorStringParser) : res (ConstructorStringParser + ConstructorStringParser) :=
  match cs_state p with
  | CInitial =>
      let p := rewind p in
      let* p := first_of [(is_a_hash_prefix p, change_state p CHash 1); (is_a_search_prefix p, change_state p CSearch 1)]
                  (change_state p CPathname 0) in
      Ret (inl (advance_token p))
  | CAuthority => Ret (inl (advance_token (rewind_and_set_state p CHostname)))
  | _ => let* p := change_state p CDone 0 in Ret (inr p)
  end.

Definition protocol_state (p : ConstructorStringParser) : res (PatternErrorOr ConstructorStringParser) :=
  let* suffix := is_a_protocol_suffix p in
  if suffix then
    try* p := compute_protocol_matches_a_special_scheme_flag p in
    let* slashes := next_is_authority_slashes p in
    let* p :=
      if slashes then change_state p CAuthority 3
      else if cs_protocol_matches_a_special_scheme p then change_state p CAuthority 1
      else change_state p CPathname 1 in
    Ret (inr p)
  else Ret (inr p).

Definition search_or_hash (p : ConstructorStringParser) : list (res bool * res ConstructorStringParser) :=
  [(is_a_search_prefix p, change_state p CSearch 1); (is_a_hash_prefix p, change_state p CHash 1)].

Definition hostname_state (p : ConstructorStringParser) : res ConstructorStringParser :=
  let depth := cs_hostname_ipv6_bracket_depth p in
  first_of
    ([(is_an_ipv6_open p, Ret (with_depths p (cs_group_depth p) (u32 (depth + 1))));
      (is_an_ipv6_close p, verify (negb (depth =? 0)) (Ret (with_depths p (cs_group_depth p) (u32 (depth - 1)))));
      (let* port := is_a_port_prefix p in Ret (port && (depth =? 0)), change_state p CPort 1);
      (is_a_pathname_start p, change_state p CPathname 0)] ++ search_or_hash p)
    (Ret p).

(** The [switch] *)
Definition run_constructor_state (p : ConstructorStringParser) : res (PatternErrorOr ConstructorStringParser) :=
  let keep (r : res ConstructorStringParser) : res (PatternErrorOr ConstructorStringParser) := let* p := r in Ret (inr p) in
  match cs_state p with
  | CInitial => keep (first_of [(is_a_protocol_suffix p, Ret (rewind_and_set_state p CProtocol))] (Ret p))
  | CProtocol => protocol_state p
  | CAuthority =>
      keep (first_of
        [(is_an_identity_terminator p, Ret (rewind_and_set_state p CUsername));
         (is_a_pathname_start p, Ret (rewind_and_set_state p CHostname));
         (is_a_search_prefix p, Ret (rewind_and_set_state p CHostname));
         (is_a_hash_prefix p, Ret (rewind_and_set_state p CHostname))] (Ret p))
  | CUsername => keep (first_of [(is_a_password_prefix p, change_state p CPassword 1); (is_an_identity_terminator p, change_state p CHostname 1)] (Ret p))
  | CPassword => keep (first_of [(is_an_identity_terminator p, change_state p CHostname 1)] (Ret p))
  | CHostname => keep (hostname_state p)
  | CPort => keep (first_of ((is_a_pathname_start p, change_state p CPathname 0) :: search_or_hash p) (Ret p))
  | CPathname => keep (first_of (search_or_hash p) (Ret p))
  | CSearch => keep (first_of [(is_a_hash_prefix p, change_state p CHash 1)] (Ret p))
  | CHash => Ret (inr p)
  | CDone => Crash
  end.

(** One iteration of the loop: go on with [inl], stop with [inr] *)
Definition constructor_step (p : ConstructorStringParser) : res (PatternErrorOr (ConstructorStringParser + ConstructorStringParser)) :=
  let p := with_position p (cs_component_start p) (cs_token_index p) 1 (cs_state p) in
  let* token := token_at p (cs_token_index p) in
  if bool_decide (token_type token = Tok_End) then let* r := at_end_token p in Ret (inr r)
  else
    let* open := is_a_group_open p in
    if open then Ret (inr (inl (advance_token (with_depths p (u32 (cs_group_depth p + 1)) (cs_hostname_ipv6_bracket_depth p)))))
    else
      let* close := is_a_group_close p in
      if (0 <? cs_group_depth p) && negb close then Ret (inr (inl (advance_token p)))
      else
        let p := if 0 <? cs_group_depth p then with_depths p (u32 (cs_group_depth p - 1)) (cs_hostname_ipv6_bracket_depth p) else p in
        try* p := run_constructor_state p in
        Ret (inr (inl (advance_token p))).

Fixpoint constructor_loop (fuel : nat) (p : ConstructorStringParser) : res (PatternErrorOr ConstructorStringParser) :=
  match fuel with
  | O => Crash
  | S fuel =>
      if cs_token_index p <? Z.of_nat (length (cs_token_list p)) then
        try* r := constructor_step p in
        match r with inl p => constructor_loop fuel p | inr p => Ret (inr p) end
      else Ret (inr p)
  end.

Definition constructor_fuel (tokens : nat) : nat := 6 * (tokens + 2).

(** [ConstructorStringParser::parse] *)
Definition parse_a_constructor_string (input : bytes) : res (PatternErrorOr Init) :=
  try* token_list := tokenize input Lenient in
  let p := {| cs_input := input; cs_token_list := token_list; cs_result := empty_init; cs_component_start := 0; cs_token_index := 0;
              cs_token_increment := 1; cs_group_depth := 0; cs_hostname_ipv6_bracket_depth := 0;
              cs_protocol_matches_a_special_scheme := false; cs_state := CInitial |} in
  try* p := constructor_loop (constructor_fuel (length token_list)) p in
  let '(Build_Init protocol username password hostname port pathname search hash base_url) := cs_result p in
  Ret (inr (Build_Init protocol username password hostname (set_missing (given hostname) [] port) pathname search hash base_url)).

End constructor.

(** ** Examples, with the engine of the witnesses *)

Definition components (r : res (PatternErrorOr Init)) : option (list (option bytes)) :=
  match r with Ret (inr i) => Some (members i) | _ => None end.

Lemma constructor_example :
  components (parse_a_constructor_string (sv "https://me\:pw@{sub.}?example.com:8080/a/:id\?q#f"))
  = Some [Some (sv "https"); Some (sv "me"); Some (sv "pw"); Some (sv "{sub.}?example.com"); Some (sv "8080"); Some (sv "/a/:id"); Some (sv "q"); Some (sv "f")].
Proof. vm_compute. reflexivity. Qed.

Lemma constructor_relative :
  components (parse_a_constructor_string (sv "../x?y")) = Some [None; None; None; None; None; Some (sv "../x"); Some (sv "y"); None].
Proof. vm_compute. reflexivity. Qed.
