(* ===== verification/PatternCuts.v ===== *)
(** * URL patterns: what a constructor string says

    A specification of constructor strings that does not run the parser of
    [PatternConstructor]: the tokens are cut into components, each after the
    delimiter that introduces it, and each component of the result is the text of
    its cut, or what a component that was skipped stands for. *)

From S2P Require Import Prelude CharacterTypes Utf8 MemMem Strings TextCodec Percent Ipv4 Ipv6 Host Origin Url UrlParser UrlFacts UrlSafety Tokens Wtf8 PatternTokenizer PatternParts PatternCanonicalization PatternFacts PatternComponent PatternInit PatternConstructor.
Local Open Scope Z_scope.

(** ** Delimiters *)

(** A token that stands for the character [value] itself *)
Definition char_token (value : Z) (token : Token) : Prop :=
  token_value token = [value] /\ token_type token ∈ [Tok_Char; Tok_EscapedChar; Tok_InvalidChar].

Definition char_at (tokens : list Token) (i : nat) (value : Z) : Prop := exists token, tokens !! i = Some token /\ char_token value token.

(** A question mark that is not a modifier of what stands before it *)
Definition question_at (tokens : list Token) (i : nat) : Prop :=
  char_at tokens i (ch "?")
  \/ exists token, tokens !! i = Some token /\ token_value token = sv "?"
       /\ forall j previous, i = S j -> tokens !! j = Some previous -> token_type previous ∉ [Tok_Name; Tok_Regexp; Tok_Close; Tok_Asterisk].

(** The token at [i] ends the component, or what the parser looks for in a state
    that is not one *)
Definition ends_component (tokens : list Token) (state : CState) (i : nat) : Prop :=
  match state with
  | CProtocol => char_at tokens i (ch ":")
  | CUsername => char_at tokens i (ch ":") \/ char_at tokens i (ch "@")
  | CPassword => char_at tokens i (ch "@")
  | CHostname => char_at tokens i (ch ":") \/ char_at tokens i (ch "/") \/ question_at tokens i \/ char_at tokens i (ch "#")
  | CPort => char_at tokens i (ch "/") \/ question_at tokens i \/ char_at tokens i (ch "#")
  | CPathname => question_at tokens i \/ char_at tokens i (ch "#")
  | CSearch => char_at tokens i (ch "#")
  | CInitial => char_at tokens i (ch ":")
  | CAuthority => char_at tokens i (ch "@") \/ char_at tokens i (ch "/") \/ question_at tokens i \/ char_at tokens i (ch "#")
  | CHash | CDone => False
  end.

(** No braces, in which delimiters do not count, and no opening brackets, in
    which a colon does not *)
Definition plain (tokens : list Token) : Prop := Forall (fun token => token_type token <> Tok_Open /\ ~ char_token (ch "[") token) tokens.

(** The tokens from [first] to the one before [k] do not end the component. *)
Definition runs_to (tokens : list Token) (state : CState) (first k : nat) : Prop :=
  plain tokens -> forall i, (first <= i < k)%nat -> ~ ends_component tokens state i.

Definition text_between (tokens : list Token) (first last : nat) : bytes := concat (map token_text (take (last - first) (drop first tokens))).

Section delimiters.
Context `{LookupTables, Icu, Simdutf, FastFloat, SimdutfCount, IcuIdentifiers, RegexEngine}.

(** The protocol pattern matches a special scheme. *)
Definition special_scheme (protocol : bytes) : bool :=
  match compile protocol canonicalize_a_protocol default_options with
  | Ret (inr component) => protocol_component_matches_a_special_scheme component
  | _ => false
  end.

(** What the authority begins with: there are credentials when an "@" comes
    before its end. *)
Definition authority_starts (tokens : list Token) (state : CState) (first : nat) : Prop :=
  exists k, (first <= k)%nat /\ runs_to tokens CAuthority first k
    /\ (state = CUsername /\ char_at tokens k (ch "@")
        \/ state = CHostname /\ (char_at tokens k (ch "/") \/ question_at tokens k \/ char_at tokens k (ch "#") \/ length tokens = S k)).

Definition slashes_at (tokens : list Token) (i : nat) : Prop := char_at tokens i (ch "/") /\ char_at tokens (S i) (ch "/").

(** What stands between the end of a component, at [e], and the first token of
    the next one *)
Inductive separator (tokens : list Token) : option CState -> nat -> CState -> nat -> Prop :=
| separator_protocol k : char_at tokens k (ch ":") -> separator tokens None 0 CProtocol 0
| separator_relative : runs_to tokens CInitial 0 (length tokens) -> ~ question_at tokens 0 -> ~ char_at tokens 0 (ch "#") ->
    separator tokens None 0 CPathname 0
| separator_relative_search : runs_to tokens CInitial 0 (length tokens) -> question_at tokens 0 -> separator tokens None 0 CSearch 1
| separator_relative_hash : runs_to tokens CInitial 0 (length tokens) -> char_at tokens 0 (ch "#") -> separator tokens None 0 CHash 1
| separator_opaque e : char_at tokens e (ch ":") -> ~ slashes_at tokens (S e) -> special_scheme (text_between tokens 0 e) = false ->
    separator tokens (Some CProtocol) e CPathname (S e)
| separator_authority e state : char_at tokens e (ch ":") -> ~ slashes_at tokens (S e) -> special_scheme (text_between tokens 0 e) = true ->
    authority_starts tokens state (S e) -> separator tokens (Some CProtocol) e state (S e)
| separator_slashes e state : char_at tokens e (ch ":") -> slashes_at tokens (S e) -> authority_starts tokens state (S (S (S e))) ->
    separator tokens (Some CProtocol) e state (S (S (S e)))
| separator_password e : char_at tokens e (ch ":") -> separator tokens (Some CUsername) e CPassword (S e)
| separator_hostname e previous : previous ∈ [CUsername; CPassword] -> char_at tokens e (ch "@") -> separator tokens (Some previous) e CHostname (S e)
| separator_port e : char_at tokens e (ch ":") -> separator tokens (Some CHostname) e CPort (S e)
| separator_pathname e previous : previous ∈ [CHostname; CPort] -> char_at tokens e (ch "/") -> separator tokens (Some previous) e CPathname e
| separator_search e previous : previous ∈ [CHostname; CPort; CPathname] -> question_at tokens e -> separator tokens (Some previous) e CSearch (S e)
| separator_hash e previous : previous ∈ [CHostname; CPort; CPathname; CSearch] -> char_at tokens e (ch "#") ->
    separator tokens (Some previous) e CHash (S e).
End delimiters.

(** ** Cuts *)

(** A component and its tokens, from [cut_first] to the one before [cut_last] *)
Record Cut := { cut_state : CState; cut_first : nat; cut_last : nat }.

Definition cut_text (tokens : list Token) (cut : Cut) : bytes := text_between tokens (cut_first cut) (cut_last cut).

(** ** The components of the result *)

Definition component_states : list CState := [CProtocol; CUsername; CPassword; CHostname; CPort; CPathname; CSearch; CHash].

(** The order of the states *)
Definition state_order (state : CState) : nat :=
  match state with
  | CInitial => 0 | CProtocol => 1 | CAuthority => 2 | CUsername => 3 | CPassword => 4 | CHostname => 5 | CPort => 6
  | CPathname => 7 | CSearch => 8 | CHash => 9 | CDone => 10
  end.

Fixpoint cut_of (cuts : list Cut) (state : CState) : option Cut :=
  match cuts with
  | [] => None
  | cut :: cuts => if decide (cut_state cut = state) then Some cut else cut_of cuts state
  end.

(** There are components before and after [state]. *)
Definition skipped (states : list CState) (state : CState) : bool :=
  existsb (fun s => (state_order s <? state_order state)%nat) states && existsb (fun s => (state_order state <? state_order s)%nat) states.

Section specification.
Context `{LookupTables, Icu, Simdutf, FastFloat, SimdutfCount, IcuIdentifiers, RegexEngine}.

(** The cuts cover the tokens before [e]; the last one is of the state given. *)
Inductive cut_up (tokens : list Token) : list Cut -> option CState -> nat -> Prop :=
| cut_up_nil : cut_up tokens [] None 0
| cut_up_snoc cuts previous e cut : cut_up tokens cuts previous e -> separator tokens previous e (cut_state cut) (cut_first cut) ->
    (cut_first cut <= cut_last cut)%nat ->
    runs_to tokens (cut_state cut) (cut_first cut) (cut_last cut) ->
    cut_up tokens (cuts ++ [cut]) (Some (cut_state cut)) (cut_last cut).

Definition special_cuts (tokens : list Token) (cuts : list Cut) : bool :=
  match cut_of cuts CProtocol with Some cut => special_scheme (cut_text tokens cut) | None => false end.

(** What a component that is skipped stands for *)
Definition skip_default (special : bool) (state : CState) : option bytes :=
  match state with
  | CHostname | CSearch => Some []
  | CPathname => Some (if special then sv "/" else [])
  | _ => None
  end.

(** The text of a component, or what it stands for when it is skipped *)
Definition cut_value (tokens : list Token) (cuts : list Cut) (states : list CState) (special : bool) (state : CState) : option bytes :=
  match cut_of cuts state with
  | Some cut => Some (cut_text tokens cut)
  | None => if skipped states state then skip_default special state else None
  end.

(** The component of the result: a port that is not there is empty, when there is
    a hostname. *)
Definition component_value (tokens : list Token) (cuts : list Cut) (state : CState) : option bytes :=
  let value := cut_value tokens cuts (map cut_state cuts) (special_cuts tokens cuts) in
  if bool_decide (state = CPort) then set_missing (given (value CHostname)) [] (value CPort) else value state.
End specification.

(** ** Components and the members of the dictionary *)

Definition member_of (i : Init) (state : CState) : option bytes :=
  match state with
  | CProtocol => i_protocol i | CUsername => i_username i | CPassword => i_password i | CHostname => i_hostname i
  | CPort => i_port i | CPathname => i_pathname i | CSearch => i_search i | CHash => i_hash i
  | CInitial | CAuthority | CDone => None
  end.

Lemma members_of i : members i = map (member_of i) component_states.
Proof. done. Qed.

(** The component that a state reads *)
Definition active (state : CState) : list CState := if decide (state ∈ component_states) then [state] else [].

Lemma set_result_member result state v : state ∈ component_states ->
  exists result', set_result_for_active_state result state v = Ret result' /\ i_base_url result' = i_base_url result
    /\ forall s, s ∈ component_states -> member_of result' s = if decide (s = state) then Some v else member_of result s.
Proof.
  intros Hs. destruct result. unfold component_states in *. destruct state; try (apply (bool_decide_pack _) in Hs; destruct Hs; fail);
    (eexists; split; [reflexivity|]; split; [reflexivity|]; intros s _; destruct s; reflexivity).
Qed.

Lemma set_defaults_member result special state new_state s : state ∈ component_states -> s ∈ component_states -> new_state <> CDone ->
  member_of (set_defaults result special state new_state) s =
    match member_of result s with
    | Some v => Some v
    | None => if (state_order state <? state_order s)%nat && (state_order s <? state_order new_state)%nat then skip_default special s else None
    end.
Proof.
  intros Hs Hm Hd. destruct result as [protocol username password hostname port pathname search hash base_url]. unfold component_states in *.
  assert (Hn : state <> CInitial /\ state <> CAuthority /\ state <> CDone) by (repeat split; intros ->; apply (bool_decide_pack _) in Hs; destruct Hs).
  destruct Hn as (H1 & H2 & H3).
  destruct s; try (apply (bool_decide_pack _) in Hm; destruct Hm; fail); destruct state; try done; destruct new_state; try done;
    cbn [set_defaults member_of i_protocol i_username i_password i_hostname i_port i_pathname i_search i_hash];
    (match goal with |- context [match ?m with Some _ => _ | None => _ end] => destruct m; reflexivity end).
Qed.

Lemma cut_of_snoc cuts cut state :
  cut_of (cuts ++ [cut]) state = match cut_of cuts state with Some c => Some c | None => if decide (cut_state cut = state) then Some cut else None end.
Proof. induction cuts as [|c cuts IH]; [done|]. cbn [app cut_of]. by destruct (decide (cut_state c = state)). Qed.

Lemma cut_of_above cuts state : Forall (fun cut => (state_order (cut_state cut) < state_order state)%nat) cuts -> cut_of cuts state = None.
Proof. induction 1 as [|cut cuts Hc _ IH]; [done|]. cbn [cut_of]. destruct (decide (cut_state cut = state)) as [<-|]; [lia|done]. Qed.

Lemma state_order_inj s s' : state_order s = state_order s' -> s = s'.
Proof. by destruct s, s'. Qed.

(** Skipped components, when a new one is started after the last one *)
Lemma skipped_snoc states last next s : Forall (fun s' => (state_order s' < state_order last)%nat) states -> s <> last ->
  Forall (fun s' => (state_order last < state_order s')%nat) next ->
  skipped ((states ++ [last]) ++ next) s
  = skipped (states ++ [last]) s || (state_order last <? state_order s)%nat && existsb (fun s' => (state_order s <? state_order s')%nat) next.
Proof.
  intros Hb Hne Hn. assert (Ho : state_order s <> state_order last) by (by intros ?%state_order_inj).
  unfold skipped. rewrite !existsb_app. cbn [existsb]. rewrite !orb_false_r.
  destruct (Nat.ltb_spec (state_order s) (state_order last)) as [Hlt|Hge].
  - rewrite (proj2 (Nat.ltb_ge (state_order last) (state_order s))) by lia. rewrite !orb_true_r, orb_false_r, !andb_true_r. cbn [andb orb].
    assert (E : existsb (fun s' => (state_order s' <? state_order s)%nat) next = false).
    { clear - Hn Hlt. induction Hn as [|s' next Hs _ IH]; [done|]. cbn [existsb]. rewrite IH, orb_false_r. apply Nat.ltb_ge. lia. }
    by rewrite E, !orb_false_r.
  - assert (E : existsb (fun s' => (state_order s <? state_order s')%nat) states = false).
    { clear - Hb Hge. induction Hb as [|s' states Hs _ IH]; [done|]. cbn [existsb]. rewrite IH, orb_false_r. apply Nat.ltb_ge. lia. }
    rewrite E, (proj2 (Nat.ltb_lt (state_order last) (state_order s))) by lia. by rewrite !orb_true_r.
Qed.

Section values.
Context `{LookupTables, Icu, Simdutf, FastFloat, SimdutfCount, IcuIdentifiers, RegexEngine}.

(** The values when the component [cut] ends and the state [next] begins *)
Lemma cut_value_snoc tokens cuts cut next special s :
  Forall (fun c => (state_order (cut_state c) < state_order (cut_state cut))%nat) cuts ->
  (state_order (cut_state cut) < state_order next)%nat -> s ∈ component_states ->
  cut_value tokens (cuts ++ [cut]) (map cut_state (cuts ++ [cut]) ++ active next) special s
  = if decide (s = cut_state cut) then Some (cut_text tokens cut)
    else match cut_value tokens cuts (map cut_state cuts ++ [cut_state cut]) special s with
         | Some v => Some v
         | None => if (state_order (cut_state cut) <? state_order s)%nat && existsb (fun s' => (state_order s <? state_order s')%nat) (active next)
                   then skip_default special s else None
         end.
Proof.
  intros Hb Hn Hs. unfold cut_value. rewrite cut_of_snoc, map_app. cbn [map]. destruct (decide (s = cut_state cut)) as [->|Hne].
  { rewrite (cut_of_above _ _ Hb). by rewrite decide_True. }
  rewrite (decide_False _ _ (fun e : cut_state cut = s => Hne (eq_sym e))). destruct (cut_of cuts s); [done|].
  rewrite skipped_snoc; [|by apply Forall_map|done|].
  - destruct (skipped _ s); cbn [orb]; [|by destruct (_ && _)]. destruct (skip_default special s); [done|]. by destruct (_ && _).
  - unfold active. destruct (decide _); repeat constructor. lia.
Qed.
End values.

(** ** There is one way to cut up a plain string *)

Section unique.
Context `{LookupTables, Icu, Simdutf, FastFloat, SimdutfCount, IcuIdentifiers, RegexEngine}.
Variable tokens : list Token.
Hypothesis Hplain : plain tokens.
Hypothesis Hlast : forall i t, tokens !! i = Some t -> token_value t <> [] -> (S i < length tokens)%nat.

Definition value_at (i : nat) (v : Z) : Prop := exists t, tokens !! i = Some t /\ token_value t = [v].

Lemma char_value i v : char_at tokens i v -> value_at i v.
Proof. intros (t & Ht & Hv & _). by exists t. Qed.

Lemma question_value i : question_at tokens i -> value_at i (ch "?").
Proof. intros [Hc|(t & Ht & Hv & _)]; [by apply char_value|by exists t]. Qed.

Lemma value_fun i v v' : value_at i v -> value_at i v' -> v = v'.
Proof. intros (t & Ht & Hv) (t' & Ht' & Hv'). rewrite Ht in Ht'. injection Ht' as <-. rewrite Hv in Hv'. by injection Hv'. Qed.

Lemma value_inside i v : value_at i v -> (S i < length tokens)%nat.
Proof. intros (t & Ht & Hv). apply (Hlast i t Ht). by rewrite Hv. Qed.

(** Two different delimiters at one place *)
Ltac clash :=
  exfalso; repeat match goal with
    | Hc : char_at tokens _ _ |- _ => apply char_value in Hc
    | Hq : question_at tokens _ |- _ => apply question_value in Hq
    end;
  match goal with H1 : value_at ?i ?v, H2 : value_at ?i ?v' |- _ => pose proof (value_fun i v v' H1 H2); discriminate end.

Lemma ends_inside state i : ends_component tokens state i -> (S i < length tokens)%nat.
Proof.
  assert (Hc : forall v, char_at tokens i v -> (S i < length tokens)%nat) by (intros v Hv%char_value; by apply value_inside in Hv).
  assert (Hq : question_at tokens i -> (S i < length tokens)%nat) by (intros Hv%question_value; by apply value_inside in Hv).
  destruct state; cbn; intuition eauto.
Qed.

Ltac members_of_lists :=
  repeat match goal with Hin : _ ∈ _ :: _ |- _ => apply elem_of_cons in Hin as [->|Hin] | Hin : _ ∈ [] |- _ => by apply not_elem_of_nil in Hin end.

Lemma separator_ends state e next first : separator tokens (Some state) e next first -> ends_component tokens state e.
Proof.
  intros Hs. remember (Some state) as previous eqn:Ep. destruct Hs; simplify_eq; members_of_lists; cbn; auto 6.
Qed.

Lemma authority_end state first k : (state = CUsername /\ char_at tokens k (ch "@")
    \/ state = CHostname /\ (char_at tokens k (ch "/") \/ question_at tokens k \/ char_at tokens k (ch "#") \/ length tokens = S k)) ->
  (forall k', (k' < k)%nat -> (first <= k')%nat -> runs_to tokens CAuthority first k -> ~ ends_component tokens CAuthority k')
  /\ (ends_component tokens CAuthority k \/ length tokens = S k).
Proof. intros Hs. split; [intros k' Hlt Hle Hr; apply Hr; [done|lia]|]. cbn. tauto. Qed.

Lemma authority_fun state state' first : authority_starts tokens state first -> authority_starts tokens state' first -> state = state'.
Proof.
  intros (k & Hle & Hk & Hs) (k' & Hle' & Hk' & Hs'). destruct (authority_end _ first _ Hs) as [Hb He]. destruct (authority_end _ first _ Hs') as [Hb' He'].
  assert (Hin : forall j, ends_component tokens CAuthority j \/ length tokens = S j -> (S j <= length tokens)%nat).
  { intros j [Hj%ends_inside|Hj]; lia. }
  pose proof (Hin k He). pose proof (Hin k' He'). destruct (Nat.lt_trichotomy k k') as [Hlt|[->|Hlt]].
  - destruct He as [He|He]; [by destruct (Hb' k Hlt Hle Hk')|lia].
  - destruct Hs as [[-> Hs]|[-> Hs]], Hs' as [[-> Hs']|[-> Hs']]; try done; exfalso.
    + pose proof (value_inside _ _ (char_value _ _ Hs)). destruct Hs' as [?|[?|[?|?]]]; [clash..|lia].
    + pose proof (value_inside _ _ (char_value _ _ Hs')). destruct Hs as [?|[?|[?|?]]]; [clash..|lia].
  - destruct He' as [He'|He']; [by destruct (Hb k' Hlt Hle' Hk)|lia].
Qed.

Lemma relative_colon k : runs_to tokens CInitial 0 (length tokens) -> char_at tokens k (ch ":") -> False.
Proof. intros Hr Hc. apply (Hr Hplain k); [|done]. pose proof (value_inside _ _ (char_value _ _ Hc)). lia. Qed.

Lemma separator_fun previous e next first next' first' :
  separator tokens previous e next first -> separator tokens previous e next' first' -> next = next' /\ first = first'.
Proof.
  intros Hs Hs'. destruct Hs; inversion Hs'; subst; try done; members_of_lists; try discriminate; try clash; try (by split);
    try (exfalso; by eapply relative_colon); try congruence; (split; [by eapply authority_fun|done]).
Qed.

(** What follows a cut *)
Lemma cut_up_middle before cut after last e : cut_up tokens (before ++ cut :: after) last e ->
  exists previous e0, cut_up tokens before previous e0 /\ separator tokens previous e0 (cut_state cut) (cut_first cut)
    /\ (cut_first cut <= cut_last cut)%nat /\ runs_to tokens (cut_state cut) (cut_first cut) (cut_last cut)
    /\ (after = [] /\ e = cut_last cut \/ after <> [] /\ ends_component tokens (cut_state cut) (cut_last cut)).
Proof.
  revert last e. induction after as [|next after IH] using rev_ind; intros last e Hc.
  - inversion Hc as [E|cuts previous e0 cut' H1' H2' H3' H4' E]; [by destruct before|]. apply app_inj_tail in E as [<- <-]. exists previous, e0. auto 8.
  - rewrite app_comm_cons, app_assoc in Hc. inversion Hc as [E|cuts previous e0 cut' H1' H2' H3' H4' E]; [by destruct before|].
    apply app_inj_tail in E as [-> <-]. destruct (IH _ _ H1') as (previous0 & e1 & Hb & Hs & Hle & Hr & Hend). exists previous0, e1.
    split; [done|]. split; [done|]. split; [done|]. split; [done|]. right. split; [by destruct after|]. destruct Hend as [[-> ->]|[_ ?]]; [|done].
    apply (separator_ends _ _ (cut_state cut') (cut_first cut')). inversion H1' as [E|cuts2 previous2 e2 cut2 Hx1 Hx2 Hx3 Hx4 E Ep Ee]; [by destruct before|].
    apply app_inj_tail in E as [_ <-]. by rewrite Ep.
Qed.

Lemma cut_up_fun cuts previous previous' e e' : cut_up tokens cuts previous e -> cut_up tokens cuts previous' e' -> previous = previous' /\ e = e'.
Proof.
  intros Hc Hc'. destruct Hc as [|cuts previous e cut Hc Hs Hle Hr]; inversion Hc' as [E|cuts2 previous2 e2 cut2 Hx1 Hx2 Hx3 Hx4 E]; try done.
  - by destruct cuts2.
  - by destruct cuts.
  - by apply app_inj_tail in E as [_ <-].
Qed.

Lemma cut_up_unique after : forall before after' last last' e, S e = length tokens ->
  cut_up tokens (before ++ after) (Some last) e -> cut_up tokens (before ++ after') (Some last') e -> after = after'.
Proof.
  assert (Hshort : forall before cut after last last' e, S e = length tokens -> cut_up tokens before (Some last) e ->
    cut_up tokens (before ++ cut :: after) (Some last') e -> False).
  { intros before cut after0 last last' e He Hc Hc'. destruct (cut_up_middle _ _ _ _ _ Hc') as (previous & e0 & Hb & Hs & _).
    destruct (cut_up_fun _ _ _ _ _ Hc Hb) as [<- <-]. apply separator_ends, ends_inside in Hs. lia. }
  induction after as [|cut after IH]; intros before after' last last' e He Hc Hc'.
  { destruct after' as [|cut' after']; [done|]. rewrite app_nil_r in Hc. by destruct (Hshort _ _ _ _ _ _ He Hc Hc'). }
  destruct after' as [|cut' after']; [rewrite app_nil_r in Hc'; by destruct (Hshort _ _ _ _ _ _ He Hc' Hc)|].
  destruct (cut_up_middle _ _ _ _ _ Hc) as (previous & e0 & Hb & Hs & Hle & Hr & Hend).
  destruct (cut_up_middle _ _ _ _ _ Hc') as (previous' & e0' & Hb' & Hs' & Hle' & Hr' & Hend').
  destruct (cut_up_fun _ _ _ _ _ Hb Hb') as [<- <-]. destruct (separator_fun _ _ _ _ _ _ Hs Hs') as [Est Ef].
  assert (Hlast_eq : cut_last cut = cut_last cut').
  { assert (Hin : (S (cut_last cut) <= length tokens)%nat) by (destruct Hend as [[_ <-]|[_ Hx%ends_inside]]; lia).
    assert (Hin' : (S (cut_last cut') <= length tokens)%nat) by (destruct Hend' as [[_ <-]|[_ Hx%ends_inside]]; lia).
    destruct (Nat.lt_trichotomy (cut_last cut) (cut_last cut')) as [Hlt|[?|Hlt]]; [exfalso|done|exfalso].
    - destruct Hend as [[_ ?]|[_ Hx]]; [lia|]. rewrite Est in Hx. apply (Hr' Hplain (cut_last cut)); [lia|done].
    - destruct Hend' as [[_ ?]|[_ Hx]]; [lia|]. rewrite <- Est in Hx. apply (Hr Hplain (cut_last cut')); [lia|done]. }
  assert (cut' = cut) as -> by (destruct cut, cut'; cbn in *; congruence). f_equal.
  rewrite cons_middle, app_assoc in Hc, Hc'. by apply (IH (before ++ [cut]) after' last last' e).
Qed.
End unique.
