(* ===== verification/PatternConstructorFacts.v ===== *)
(** * URL patterns: what the constructor string parser guarantees

    The parser is somewhere in the tokens, with the start of the component before
    it; the measure that decreases is the number of states still to come, and
    then the number of tokens.  The tokens before the start of the component are
    cut up as [PatternCuts] says. *)

From S2P Require Import Prelude CharacterTypes Utf8 MemMem Strings TextCodec Percent Ipv4 Ipv6 Host Origin Url UrlParser UrlFacts UrlSafety Tokens Wtf8 PatternTokenizer PatternParts PatternCanonicalization PatternFacts PatternComponent PatternInit PatternConstructor PatternCuts.
Local Open Scope Z_scope.

(** The states still to come *)
Definition state_rank (state : CState) : nat :=
  match state with
  | CInitial => 4 | CProtocol => 3 | CAuthority => 2
  | CUsername | CPassword | CHostname | CPort => 1
  | CPathname | CSearch | CHash | CDone => 0
  end.

(** ** Texts of tokens *)

Lemma token_text_valid `{IcuIdentifiers} token : token_ok token -> well_formed_utf8 (token_text token).
Proof.
  unfold token_ok, token_text. intros Ht.
  assert (Hascii : forall s, Forall (fun x => 0 <= x < 128) s -> well_formed_utf8 s) by apply well_formed_ascii.
  destruct (token_type token); try done.
  - rewrite Ht. apply Hascii. by repeat constructor.
  - rewrite Ht. apply Hascii. by repeat constructor.
  - destruct Ht as (_ & Ha & _). apply Hascii. cbn. constructor; [done|]. apply Forall_app. split; [done|]. by repeat constructor.
  - destruct Ht as (name & Hn & -> & _). apply well_formed_app; [apply Hascii; by repeat constructor|]. by apply encode_wf.
  - destruct Ht as (c & Hc & -> & _). by apply encode_wf.
  - destruct Ht as (c & Hc & ->). apply well_formed_app; [apply Hascii; by repeat constructor|]. by apply encode_wf.
  - destruct Ht as [-> | ->]; apply Hascii; by repeat constructor.
  - rewrite Ht. apply Hascii. by repeat constructor.
  - destruct Ht as (c & Hc & ->). by apply encode_wf.
Qed.

Lemma texts_valid `{IcuIdentifiers} tokens : Forall token_ok tokens -> exists cps, scalars cps /\ concat (map token_text tokens) = utf8_encode cps.
Proof.
  intros Ht. assert (Hw : well_formed_utf8 (concat (map token_text tokens))).
  { induction Ht as [|t tokens Ht _ IH]; [by apply well_formed_ascii|]. cbn [map concat]. apply well_formed_app; [by apply token_text_valid|done]. }
  destruct Hw as (cps & Hs & ->). by exists cps.
Qed.

(** An encoded character that begins with an ASCII byte is that byte. *)
Lemma encoded_ascii_head c v rest : scalars [c] -> 0 <= v < 128 -> utf8_encode [c] = v :: rest -> rest = [].
Proof.
  intros Hc Hv E. destruct (utf8_head_ascii v [c] rest) as (l & [= -> <-] & ->); [by apply scalars_range|done|done|done].
Qed.

Section constructor.
Context `{LookupTablesLaws, IcuLaws, SimdutfLaws, FastFloatLaws, SimdutfCountLaws, IcuIdentifiers, RegexEngine}.
Variables (cps : list Z) (body : list Token).
Hypothesis Hcps : scalars cps.
Hypothesis Hsize : Z.of_nat (length (utf8_encode cps)) < 2 ^ 31.
Hypothesis Hlex : lex_all (length cps) Lenient 0 cps = Some body.

Let tokens : list Token := body ++ [end_token cps].

Hypothesis Hbracket : forall i, ~ char_at tokens i (ch "]").

Lemma body_ok : Forall token_ok body.
Proof. by destruct (lex_all_lossless Lenient _ _ _ _ Hcps Hlex) as (_ & Hok & _). Qed.

Lemma body_text : concat (map token_text body) = utf8_encode cps.
Proof. by destruct (lex_all_lossless Lenient _ _ _ _ Hcps Hlex) as (Hc & _). Qed.

Lemma tokens_length : length tokens = S (length body).
Proof. unfold tokens. rewrite length_app. cbn. lia. Qed.

Lemma tokens_size : Z.of_nat (length tokens) < 2 ^ 31 + 1.
Proof. rewrite tokens_length. pose proof (tokens_shorter body body_ok) as Hs. rewrite body_text in Hs. lia. Qed.

(** The code points before a token *)
Lemma token_position i t : tokens !! i = Some t -> token_index t = Z.of_nat (length (code_points (concat (map token_text (take i body))))).
Proof.
  unfold tokens. intros [Ht|[Hge Ht]]%lookup_app_Some.
  - destruct (lex_all_lossless Lenient _ _ _ _ Hcps Hlex) as (_ & _ & _ & Hi). apply (Hi _ t (drop (S i) body)). by rewrite take_drop_middle.
  - apply list_lookup_singleton_Some in Ht as [Hz <-]. rewrite firstn_all2, body_text by lia. cbn [token_index end_token].
    by rewrite <- (app_nil_r (utf8_encode cps)), code_points_utf8_encode, app_nil_r by by apply scalars_range.
Qed.

Lemma text_between_body first last : (first <= last <= length body)%nat ->
  text_between tokens first last = concat (map token_text (take (last - first) (drop first body))).
Proof. intros Hl. unfold text_between, tokens. rewrite drop_app_le, take_app_le by (rewrite ?length_drop; lia). done. Qed.

(** The code points between two tokens *)
Lemma text_between_encoded first last t0 t : (first <= last)%nat -> tokens !! first = Some t0 -> tokens !! last = Some t ->
  0 <= token_index t0 <= token_index t /\ token_index t <= Z.of_nat (length cps)
  /\ utf8_encode (take (Z.to_nat (token_index t - token_index t0)) (drop (Z.to_nat (token_index t0)) cps)) = text_between tokens first last.
Proof.
  intros Hle Ht0 Ht1. apply lookup_lt_Some in Ht1 as Hlt. rewrite tokens_length in Hlt. rewrite text_between_body by lia.
  rewrite (token_position _ _ Ht0), (token_position _ _ Ht1). pose proof body_ok as Hok.
  destruct (texts_valid (take first body)) as (a & Ha & Ea); [by apply Forall_take|].
  destruct (texts_valid (take (last - first) (drop first body))) as (b & Hb & Eb); [by apply Forall_take, Forall_drop|].
  destruct (texts_valid (drop last body)) as (c & Hc & Ec); [by apply Forall_drop|].
  assert (E : take last body = take first body ++ take (last - first) (drop first body)).
  { rewrite <- (firstn_skipn first (take last body)) at 1. rewrite take_take, Nat.min_l, skipn_firstn_comm by lia. done. }
  assert (Hcp : forall l, scalars l -> code_points (utf8_encode l) = l).
  { intros l Hl. by rewrite <- (app_nil_r (utf8_encode l)), code_points_utf8_encode, app_nil_r by by apply scalars_range. }
  assert (Hall : cps = a ++ b ++ c).
  { rewrite <- (Hcp cps Hcps), <- body_text, <- (firstn_skipn last body), E, !map_app, !concat_app, Ea, Eb, Ec, <- !utf8_encode_app, <- app_assoc.
    apply Hcp. by repeat apply Forall_app_2. }
  rewrite E, map_app, concat_app, Ea, Eb, <- utf8_encode_app, !Hcp by (done || by apply Forall_app_2). rewrite length_app, Hall, !length_app.
  split; [lia|]. split; [lia|]. rewrite Nat2Z.id. replace (Z.to_nat _) with (length b) by lia. by rewrite drop_app_length, take_app_length.
Qed.

(** ** The invariant *)

(** How the parser got to the component, or to the states that look for one *)
Definition arrived (previous : option CState) (e : nat) (state : CState) (first : nat) : Prop :=
  match state with
  | CInitial => previous = None /\ e = 0%nat /\ first = 0%nat
  | CAuthority =>
      previous = Some CProtocol /\ char_at tokens e (ch ":")
      /\ (~ slashes_at tokens (S e) /\ special_scheme (text_between tokens 0 e) = true /\ first = S e \/ slashes_at tokens (S e) /\ first = S (S (S e)))
  | CDone => False
  | _ => separator tokens previous e state first
  end.

(** The dictionary holds what the cuts say. *)
Definition result_ok (cuts : list Cut) (states : list CState) (special : bool) (result : Init) : Prop :=
  i_base_url result = None /\ forall s, s ∈ component_states -> member_of result s = cut_value tokens cuts states special s.

Record cs_ok (cuts : list Cut) (p : ConstructorStringParser) : Prop := {
  ok_input : cs_input p = utf8_encode cps;
  ok_tokens : cs_token_list p = tokens;
  ok_index : 0 <= cs_component_start p <= cs_token_index p /\ cs_token_index p < Z.of_nat (length tokens);
  ok_cuts : exists previous e, cut_up tokens cuts previous e /\ arrived previous e (cs_state p) (Z.to_nat (cs_component_start p));
  ok_below : Forall (fun cut => (state_order (cut_state cut) < state_order (cs_state p))%nat) cuts;
  ok_result : result_ok cuts (map cut_state cuts ++ active (cs_state p)) (cs_protocol_matches_a_special_scheme p) (cs_result p);
  ok_depths : plain tokens -> cs_group_depth p = 0 /\ cs_hostname_ipv6_bracket_depth p = 0;
  ok_quiet : runs_to tokens (cs_state p) (Z.to_nat (cs_component_start p)) (Z.to_nat (cs_token_index p))
}.

Definition inv (p : ConstructorStringParser) : Prop :=
  exists cuts, cs_ok cuts p /\ cs_protocol_matches_a_special_scheme p = special_cuts tokens cuts.

(** ** Reading tokens *)

Section reading.
Variables (cuts : list Cut) (p : ConstructorStringParser).
Hypothesis Hp : cs_ok cuts p.

Lemma index_range : 0 <= cs_token_index p < 2 ^ 31 + 1.
Proof. pose proof tokens_size as Hn. pose proof (ok_index cuts p Hp) as [[Hz Hle] Hl]. lia. Qed.

Lemma token_at_ok i : 0 <= i < Z.of_nat (length tokens) -> exists t, token_at p i = Ret t /\ tokens !! Z.to_nat i = Some t.
Proof.
  intros Hi. destruct (lookup_lt_is_Some_2 tokens (Z.to_nat i)) as [t Ht]; [lia|]. exists t. split; [|done].
  unfold token_at, at_index. by rewrite (ok_tokens cuts p Hp), Ht.
Qed.

Lemma safe_token_ok i : 0 <= i < 2 ^ 32 ->
  exists t, get_a_safe_token p i = Ret t /\ (i < Z.of_nat (length tokens) /\ tokens !! Z.to_nat i = Some t \/ Z.of_nat (length tokens) <= i /\ t = end_token cps).
Proof.
  intros Hi. unfold get_a_safe_token, u32. rewrite Z.mod_small by done. rewrite (ok_tokens cuts p Hp).
  destruct (Z.ltb_spec i (Z.of_nat (length tokens))) as [Hlt|Hge].
  - destruct (token_at_ok i) as (t & -> & Ht); [lia|]. exists t. split; [done|]. by left.
  - exists (end_token cps). split; [|by right]. unfold tokens. by rewrite last_snoc.
Qed.

(** A token with a value is not the last one. *)
Lemma valued_token i t : tokens !! i = Some t -> token_value t <> [] -> (S i < length tokens)%nat /\ t ∈ body.
Proof.
  intros Ht Hv. rewrite tokens_length. unfold tokens in *. apply lookup_app_Some in Ht as [Ht|[_ Ht]].
  - split; [|by eapply list_elem_of_lookup_2]. apply lookup_lt_Some in Ht. lia.
  - apply list_lookup_singleton_Some in Ht as [_ <-]. done.
Qed.

Lemma char_at_inside i v : char_at tokens i v -> (S i < length tokens)%nat.
Proof. intros (t & Ht & Hv & _). apply (valued_token i t Ht). by rewrite Hv. Qed.

Lemma question_inside i : question_at tokens i -> (S i < length tokens)%nat.
Proof. intros [Hc|(t & Ht & Hv & _)]; [by eapply char_at_inside|]. apply (valued_token i t Ht). by rewrite Hv. Qed.

Lemma non_special_ok i v : 0 <= i < 2 ^ 32 -> 0 <= v < 128 ->
  exists b, is_a_non_special_pattern_char p i v = Ret b /\ (b = true <-> char_at tokens (Z.to_nat i) v).
Proof.
  intros Hi Hv. unfold is_a_non_special_pattern_char. destruct (safe_token_ok i Hi) as (t & -> & Ht). cbn [res_bind]. eexists. split; [done|].
  destruct Ht as [[Hlt Ht]|[Hge ->]].
  2:{ cbn. split; [done|]. intros Hc%char_at_inside. lia. }
  assert (Hone : forall first rest, token_value t = first :: rest -> token_type t ∈ [Tok_Char; Tok_EscapedChar; Tok_InvalidChar] -> first = v -> rest = []).
  { intros first rest E Hty ->. destruct (valued_token _ t Ht ltac:(by rewrite E)) as [_ Hin]. pose proof body_ok as Hok. rewrite Forall_forall in Hok.
    specialize (Hok t Hin). unfold token_ok in Hok. rewrite !elem_of_cons in Hty. destruct Hty as [Hty|[Hty|[Hty|[]%not_elem_of_nil]]]; rewrite Hty in Hok;
      destruct Hok as (c & Hc & Hval & _) || destruct Hok as (c & Hc & Hval); rewrite E in Hval; by apply (encoded_ascii_head c v). }
  split.
  - destruct (token_value t) as [|first rest] eqn:Ev; [done|]. intros [Hb Hty]%andb_prop. apply Z.eqb_eq in Hb as ->. exists t. split; [done|].
    assert (Hin : token_type t ∈ [Tok_Char; Tok_EscapedChar; Tok_InvalidChar]).
    { rewrite !elem_of_cons. apply orb_prop in Hty as [[Hty|Hty]%orb_prop|Hty]; apply bool_decide_eq_true in Hty; auto. }
    split; [|done]. by rewrite Ev, (Hone v rest).
  - intros (t' & Ht' & Hval & Hty). rewrite Ht in Ht'. injection Ht' as <-. rewrite Hval, Z.eqb_refl. cbn [andb].
    rewrite !elem_of_cons in Hty. destruct Hty as [-> | [-> | [-> | []%not_elem_of_nil]]]; done.
Qed.

(** A question mark before a component *)
Lemma search_prefix_ok : exists b, is_a_search_prefix p = Ret b /\ (b = true <-> question_at tokens (Z.to_nat (cs_token_index p))).
Proof.
  destruct (ok_index cuts p Hp) as [[Hz Hle] Hlt]. pose proof tokens_size as Hn. unfold is_a_search_prefix, question_at.
  destruct (non_special_ok (cs_token_index p) (ch "?")) as (b & -> & Hb); [lia|done|]. cbn [res_bind]. destruct b; [exists true; split; [done|]; tauto|].
  destruct (token_at_ok (cs_token_index p)) as (t & -> & Ht); [lia|]. cbn [res_bind].
  assert (Hnc : ~ char_at tokens (Z.to_nat (cs_token_index p)) (ch "?")) by (by intros ?%Hb). clear Hb.
  destruct (sv_eqb (token_value t) (sv "?")) eqn:Ev; cbn [negb].
  2:{ exists false. split; [done|]. split; [done|]. intros [?|(t' & Ht' & Ev' & _)]; [done|]. rewrite Ht in Ht'. injection Ht' as <-.
      by rewrite Ev', (proj2 (sv_eqb_true _ _) eq_refl) in Ev. }
  apply sv_eqb_true in Ev. destruct (Z.eqb_spec (cs_token_index p) 0) as [E0|Hne].
  { exists true. split; [done|]. split; [|done]. intros _. right. exists t. split; [done|]. split; [done|]. intros j previous Hj. lia. }
  destruct (safe_token_ok (cs_token_index p - 1)) as (t' & -> & Ht'); [lia|]. cbn [res_bind]. eexists. split; [done|].
  destruct Ht' as [[_ Ht']|[? _]]; [|lia]. rewrite negb_true_iff, bool_decide_eq_false. split.
  - intros Hty. right. exists t. split; [done|]. split; [done|]. intros j previous Hj Hprev. replace (Z.to_nat (cs_token_index p - 1)) with j in Ht' by lia.
    rewrite Hprev in Ht'. by injection Ht' as ->.
  - intros [?|(t2 & _ & _ & Hty)]; [done|]. apply (Hty (Z.to_nat (cs_token_index p - 1))); [lia|done].
Qed.

(** The string of a component *)
Lemma component_string_ok : make_a_component_string p = Ret (text_between tokens (Z.to_nat (cs_component_start p)) (Z.to_nat (cs_token_index p)))
  /\ well_formed_utf8 (text_between tokens (Z.to_nat (cs_component_start p)) (Z.to_nat (cs_token_index p)))
  /\ Z.of_nat (length (text_between tokens (Z.to_nat (cs_component_start p)) (Z.to_nat (cs_token_index p)))) < 2 ^ 31.
Proof.
  destruct (ok_index cuts p Hp) as [[Hz Hle] Hlt]. pose proof tokens_size as Hn. pose proof (encode_length cps Hcps) as Hlen.
  unfold make_a_component_string. rewrite (ok_tokens cuts p Hp), (proj2 (Z.ltb_lt _ _)) by done. cbn [verify].
  destruct (token_at_ok (cs_token_index p)) as (t & -> & Ht); [lia|]. cbn [res_bind].
  destruct (safe_token_ok (cs_component_start p)) as (t0 & -> & Ht0); [lia|]. cbn [res_bind]. cbv zeta. destruct Ht0 as [[_ Ht0]|[? _]]; [|lia].
  destruct (text_between_encoded (Z.to_nat (cs_component_start p)) (Z.to_nat (cs_token_index p)) t0 t ltac:(lia) Ht0 Ht) as ([Hi0 Hi1] & Hi2 & <-).
  set (o := Z.to_nat (token_index t0)). set (l := Z.to_nat (token_index t - token_index t0)).
  assert (Hsub : unicode_substring_view (cs_input p) (token_index t0) (size_t (u32 (token_index t - token_index t0))) = Ret (utf8_encode (take l (drop o cps)))).
  { unfold u32, size_t. rewrite !Z.mod_small by (rewrite ?Z.mod_small by lia; lia). rewrite (ok_input cuts p Hp).
    replace (token_index t0) with (Z.of_nat o) at 1 by lia. replace (token_index t - token_index t0) with (Z.of_nat l) by lia.
    apply unicode_substring_encoded; [done|lia|lia]. }
  assert (Hw : well_formed_utf8 (utf8_encode (take l (drop o cps)))) by by apply encode_wf, Forall_take, Forall_drop.
  rewrite Hsub. cbn [res_bind]. split; [by rewrite must_from_utf8_wtf8 by by apply well_formed_wtf8|]. split; [done|].
  rewrite (encoded_split cps o l), !length_app in Hsize. lia.
Qed.
End reading.

(** ** Leaving a component *)

Lemma cut_up_none cuts e : cut_up tokens cuts None e -> cuts = [] /\ e = 0%nat.
Proof. by inversion 1. Qed.

(** Nothing is skipped as long as there is one component only. *)
Lemma cut_value_none state special s : s ∈ component_states -> cut_value tokens [] (active state) special s = None.
Proof.
  intros _. unfold cut_value. cbn [cut_of]. unfold skipped, active. destruct (decide (state ∈ component_states)); [|done]. cbn [existsb].
  rewrite !orb_false_r. destruct (Nat.ltb_spec (state_order state) (state_order s)); [|done].
  by rewrite (proj2 (Nat.ltb_ge (state_order s) (state_order state))) by lia.
Qed.

Lemma first_result special special' result state state' : result_ok [] (active state) special result -> result_ok [] (active state') special' result.
Proof. intros [Hb Hr]. split; [done|]. intros s Hs. by rewrite (Hr s Hs), !cut_value_none. Qed.

(** The components that a change of state skips *)
Lemma between_states state next s : state ∈ component_states -> next ∈ CAuthority :: component_states -> s ∈ component_states ->
  (state_order state <? state_order s)%nat && (state_order s <? state_order next)%nat
  = (state_order state <? state_order s)%nat && existsb (fun s' => (state_order s <? state_order s')%nat) (active next).
Proof.
  intros Hs Hn Hm. apply (bool_decide_pack _) in Hs, Hn, Hm. by destruct state; try (destruct Hs; fail); destruct next; try (destruct Hn; fail); destruct s.
Qed.

(** The cut that the parser has come to the end of *)
Definition current_cut (p : ConstructorStringParser) : Cut :=
  {| cut_state := cs_state p; cut_first := Z.to_nat (cs_component_start p); cut_last := Z.to_nat (cs_token_index p) |}.

Section leaving.
Variables (cuts : list Cut) (p : ConstructorStringParser).
Hypothesis Hp : cs_ok cuts p.
Hypothesis Hstate : cs_state p ∈ component_states.

Lemma active_component : active (cs_state p) = [cs_state p].
Proof. unfold active. by rewrite decide_True. Qed.

Lemma current_cut_up : cut_up tokens (cuts ++ [current_cut p]) (Some (cs_state p)) (Z.to_nat (cs_token_index p)).
Proof.
  destruct (ok_cuts cuts p Hp) as (previous & e & Hc & Ha). pose proof (ok_index cuts p Hp) as [[Hz Hle] _].
  apply (cut_up_snoc tokens cuts previous e (current_cut p)); [done| |cbn; lia|apply (ok_quiet cuts p Hp)].
  pose proof Hstate as Hs. apply (bool_decide_pack _) in Hs. cbn. by destruct (cs_state p).
Qed.

Lemma leave_result next skip : (state_order (cs_state p) < state_order next)%nat -> next ∈ CDone :: CAuthority :: component_states ->
  exists result, result_ok (cuts ++ [current_cut p]) (map cut_state (cuts ++ [current_cut p]) ++ active next) (cs_protocol_matches_a_special_scheme p) result
    /\ change_state p next skip = Ret (with_position (with_result p result (cs_protocol_matches_a_special_scheme p)) (u32 (cs_token_index p + skip))
         (u32 (cs_token_index p + skip)) 0 next).
Proof.
  intros Ho Hn. unfold change_state.
  assert (Hin : state_is_one_of (cs_state p) [CInitial; CAuthority; CDone] = false /\ cs_state p <> CInitial).
  { pose proof Hstate as Hs. apply (bool_decide_pack _) in Hs. by destruct (cs_state p). }
  destruct Hin as [-> Hni]. cbn [negb]. destruct (component_string_ok cuts p Hp) as (-> & _). cbn [res_bind].
  set (v := text_between _ _ _). destruct (set_result_member (cs_result p) (cs_state p) v Hstate) as (result & -> & Hb & Hm). cbn [res_bind]. cbv zeta.
  rewrite (bool_decide_eq_false_2 _ Hni). cbn [negb andb]. eexists. split; [|done]. destruct (ok_result cuts p Hp) as [Hbase Hmembers].
  assert (Hv : forall s, s ∈ component_states -> cut_value tokens (cuts ++ [current_cut p]) (map cut_state (cuts ++ [current_cut p]) ++ active next)
      (cs_protocol_matches_a_special_scheme p) s
    = match member_of result s with
      | Some v => Some v
      | None => if (state_order (cs_state p) <? state_order s)%nat && existsb (fun s' => (state_order s <? state_order s')%nat) (active next)
                then skip_default (cs_protocol_matches_a_special_scheme p) s else None
      end).
  { intros s Hs. rewrite cut_value_snoc by (done || apply (ok_below cuts p Hp)). rewrite (Hm s Hs), (Hmembers s Hs), active_component. cbn [current_cut cut_state].
    by destruct (decide (s = cs_state p)). }
  case_bool_decide as Hd; cbn [negb].
  - split; [by rewrite Hb|]. intros s Hs. rewrite (Hv s Hs), Hd. unfold active. rewrite decide_False by (intros Hx; apply (bool_decide_pack _) in Hx; done).
    cbn [existsb]. rewrite andb_false_r. by destruct (member_of result s).
  - split; [by rewrite <- Hbase, <- Hb; destruct result|]. intros s Hs. rewrite (Hv s Hs), set_defaults_member by done.
    apply elem_of_cons in Hn as [?|Hn]; [done|]. by rewrite between_states.
Qed.
End leaving.

(** ** Steps of the machine *)

(** Where an action of a state leaves the parser: where it was, at a token that
    does not end the component, or in a later state, or in one that is not earlier
    and further on. *)
Definition progress (p p' : ConstructorStringParser) : Prop :=
  cs_token_increment p' = 1 /\ cs_token_index p' = cs_token_index p /\ cs_component_start p' = cs_component_start p /\ cs_state p' = cs_state p
    /\ (plain tokens -> ~ ends_component tokens (cs_state p) (Z.to_nat (cs_token_index p)))
  \/ cs_token_increment p' = 0
    /\ ((state_rank (cs_state p') < state_rank (cs_state p))%nat \/ (state_rank (cs_state p') <= state_rank (cs_state p))%nat /\ cs_token_index p < cs_token_index p').

Definition moved (p p' : ConstructorStringParser) : Prop := inv p' /\ progress p p'.

Lemma runs_to_nil state k : runs_to tokens state k k.
Proof. intros _ i Hi. lia. Qed.

Lemma leave_ok cuts p next skip : cs_ok cuts p -> cs_state p ∈ component_states -> (state_order (cs_state p) < state_order next)%nat ->
  next ∈ CAuthority :: component_states -> 0 <= skip -> cs_token_index p + skip < Z.of_nat (length tokens) ->
  arrived (Some (cs_state p)) (Z.to_nat (cs_token_index p)) next (Z.to_nat (cs_token_index p + skip)) ->
  exists p', change_state p next skip = Ret p' /\ cs_ok (cuts ++ [current_cut p]) p'
    /\ cs_protocol_matches_a_special_scheme p' = cs_protocol_matches_a_special_scheme p
    /\ cs_state p' = next /\ cs_token_index p' = cs_token_index p + skip /\ cs_token_increment p' = 0.
Proof.
  intros Hp Hs Ho Hn Hk Hlt Ha. destruct (leave_result cuts p Hp Hs next skip Ho) as (result & Hr & ->); [by right|]. eexists. split; [done|].
  pose proof tokens_size as Hsz. pose proof (ok_index cuts p Hp) as [[Hz Hle] Hl]. unfold u32. rewrite Z.mod_small by lia. split; [|done].
  split; cbn [with_position with_result cs_input cs_token_list cs_component_start cs_token_index cs_state cs_result cs_group_depth
    cs_hostname_ipv6_bracket_depth cs_protocol_matches_a_special_scheme].
  - apply (ok_input cuts p Hp).
  - apply (ok_tokens cuts p Hp).
  - lia.
  - exists (Some (cs_state p)), (Z.to_nat (cs_token_index p)). split; [by apply current_cut_up|done].
  - apply Forall_app. split; [|by repeat constructor]. eapply Forall_impl; [apply (ok_below cuts p Hp)|]. cbn beta. intros c Hc. lia.
  - done.
  - apply (ok_depths cuts p Hp).
  - apply runs_to_nil.
Qed.

(** A component other than the protocol ends. *)
Lemma leave_moved p next skip : inv p -> cs_state p ∈ component_states -> cs_state p <> CProtocol -> next ∈ component_states ->
  (state_order (cs_state p) < state_order next)%nat -> 0 <= skip ->
  cs_token_index p + skip < Z.of_nat (length tokens) ->
  separator tokens (Some (cs_state p)) (Z.to_nat (cs_token_index p)) next (Z.to_nat (cs_token_index p + skip)) ->
  ((state_rank next < state_rank (cs_state p))%nat \/ (state_rank next <= state_rank (cs_state p))%nat /\ 0 < skip) ->
  exists p', change_state p next skip = Ret p' /\ moved p p'.
Proof.
  intros (cuts & Hp & Hf) Hs Hnp Hn Ho Hk Hlt Ha Hr.
  assert (Ha' : arrived (Some (cs_state p)) (Z.to_nat (cs_token_index p)) next (Z.to_nat (cs_token_index p + skip))).
  { pose proof Hn as Hx. apply (bool_decide_pack _) in Hx. by destruct next. }
  destruct (leave_ok cuts p next skip Hp Hs Ho ltac:(by right) Hk Hlt Ha') as (p' & E & Hp' & Hf' & Hst & Hi & Hinc).
  exists p'. split; [done|]. split.
  - exists (cuts ++ [current_cut p]). split; [done|]. rewrite Hf', Hf. unfold special_cuts. rewrite cut_of_snoc. destruct (cut_of cuts CProtocol); [done|].
    by rewrite decide_False.
  - right. split; [done|]. rewrite Hst, Hi. destruct Hr as [?|[? ?]]; [by left|right; lia].
Qed.

(** The start of the string *)
Lemma initial_cuts cuts p : cs_ok cuts p -> cs_state p = CInitial -> cuts = [] /\ cs_component_start p = 0.
Proof.
  intros Hp Hs. destruct (ok_cuts cuts p Hp) as (previous & e & Hc & Ha). rewrite Hs in Ha. destruct Ha as (-> & -> & Hst).
  destruct (cut_up_none _ _ Hc) as [-> _]. destruct (ok_index [] p Hp). split; [done|lia].
Qed.

(** The first component begins. *)
Lemma first_ok p result next k : inv p -> cs_state p = CInitial -> result = cs_result p -> next ∈ component_states -> 0 <= k < Z.of_nat (length tokens) ->
  separator tokens None 0 next (Z.to_nat k) ->
  inv (with_position (with_result p result (cs_protocol_matches_a_special_scheme p)) k k 0 next).
Proof.
  intros (cuts & Hp & Hf) Hs -> Hn Hk Hsep. destruct (initial_cuts cuts p Hp Hs) as [-> Hst]. exists []. split; [|done].
  split; cbn [with_position with_result cs_input cs_token_list cs_component_start cs_token_index cs_state cs_result cs_group_depth
    cs_hostname_ipv6_bracket_depth cs_protocol_matches_a_special_scheme].
  - apply (ok_input [] p Hp).
  - apply (ok_tokens [] p Hp).
  - lia.
  - exists None, 0%nat. split; [constructor|]. pose proof Hn as Hx. apply (bool_decide_pack _) in Hx. by destruct next.
  - done.
  - apply (first_result (cs_protocol_matches_a_special_scheme p) _ _ (cs_state p)). apply (ok_result [] p Hp).
  - apply (ok_depths [] p Hp).
  - apply runs_to_nil.
Qed.

Lemma protocol_cut cuts e : cut_up tokens cuts (Some CProtocol) e -> cuts = [{| cut_state := CProtocol; cut_first := 0; cut_last := e |}].
Proof.
  inversion 1 as [|cuts' previous e' cut Hc Hs Hle Hq]. subst. destruct cut as [state first last]. cbn in *. subst.
  assert (Hnone : previous = None /\ first = 0%nat).
  { inversion Hs; try done;
      match goal with Ha : authority_starts _ _ _ |- _ => destruct Ha as (k & _ & _ & [[? _]|[? _]]); done end. }
  destruct Hnone as [-> ->]. by destruct (cut_up_none _ _ Hc) as [-> _].
Qed.

(** The authority begins with a username or a hostname. *)
Lemma authority_ok p state : inv p -> cs_state p = CAuthority -> authority_starts tokens state (Z.to_nat (cs_component_start p)) ->
  moved p (rewind_and_set_state p state).
Proof.
  intros (cuts & Hp & Hf) Hs Hstart.
  assert (Hst : state = CUsername \/ state = CHostname) by (destruct Hstart as (k & _ & _ & [[-> _]|[-> _]]); auto).
  destruct (ok_cuts cuts p Hp) as (previous & e & Hc & Ha). rewrite Hs in Ha. destruct Ha as (-> & Hcolon & Hfirst).
  pose proof (protocol_cut cuts e Hc) as ->. pose proof (ok_index _ p Hp) as [[Hz Hle] Hl]. split.
  2:{ right. cbn. split; [done|]. left. rewrite Hs. destruct Hst as [-> | ->]; cbn; lia. }
  eexists. split; [|exact Hf]. split; cbn [rewind_and_set_state rewind with_position with_result cs_input cs_token_list cs_component_start cs_token_index cs_state
    cs_result cs_group_depth cs_hostname_ipv6_bracket_depth cs_protocol_matches_a_special_scheme].
  - apply (ok_input _ p Hp).
  - apply (ok_tokens _ p Hp).
  - lia.
  - exists (Some CProtocol), e. split; [done|].
    assert (Hsep : separator tokens (Some CProtocol) e state (Z.to_nat (cs_component_start p))).
    { destruct Hfirst as [(Hns & Hsp & E)|(Hsl & E)]; rewrite E in *; [by apply separator_authority|by apply separator_slashes]. }
    by destruct Hst as [-> | ->].
  - repeat constructor. cbn. destruct Hst as [-> | ->]; cbn; lia.
  - destruct (ok_result _ p Hp) as [Hb Hm]. split; [done|]. intros s Hin. rewrite (Hm s Hin), Hs. unfold cut_value. cbn [cut_of cut_state map].
    destruct (decide (CProtocol = s)); [done|]. apply (bool_decide_pack _) in Hin. by destruct Hst as [-> | ->], s.
  - apply (ok_depths _ p Hp).
  - apply runs_to_nil.
Qed.

Lemma protocol_ok p : inv p -> cs_state p = CInitial -> char_at tokens (Z.to_nat (cs_token_index p)) (ch ":") -> moved p (rewind_and_set_state p CProtocol).
Proof.
  intros Hinv Hs Hc. pose proof Hinv as (cuts & Hp & Hf). destruct (initial_cuts cuts p Hp Hs) as [_ Hst]. split.
  - apply (first_ok p (cs_result p) CProtocol 0) in Hinv; [|done|done|by left|rewrite tokens_length; lia|by apply (separator_protocol tokens _ Hc)].
    unfold rewind_and_set_state. rewrite Hst. exact Hinv.
  - right. rewrite Hs. cbn. split; [done|]. left. lia.
Qed.

(** Conditions in a row *)
Lemma first_of_ok {A} (cases : list (res bool * res A)) otherwise (Q : A -> Prop) :
  Forall (fun '(condition, action) => exists b, condition = Ret b /\ (b = true -> exists x, action = Ret x /\ Q x)) cases ->
  (Forall (fun '(condition, _) => condition = Ret false) cases -> exists x, otherwise = Ret x /\ Q x) -> exists x, first_of cases otherwise = Ret x /\ Q x.
Proof.
  induction 1 as [|[condition action] cases (b & -> & Hb) Hcs IH]; intros Ho; [by apply Ho|]. cbn [first_of res_bind].
  destruct b; [by apply Hb|]. apply IH. intros Hf. apply Ho. by constructor.
Qed.

Section state.
Variable p : ConstructorStringParser.
Hypothesis Hp : inv p.

Let i := Z.to_nat (cs_token_index p).

Lemma char_condition v : 0 <= v < 128 -> exists b, is_a_non_special_pattern_char p (cs_token_index p) v = Ret b /\ (b = true <-> char_at tokens i v).
Proof. intros Hv. destruct Hp as (cuts & Hok & _). pose proof (index_range cuts p Hok). apply (non_special_ok cuts p Hok); [lia|done]. Qed.

Lemma char_false v : 0 <= v < 128 -> is_a_non_special_pattern_char p (cs_token_index p) v = Ret false -> ~ char_at tokens i v.
Proof. intros Hv E Hc. destruct (char_condition v Hv) as (b & E' & Hb). rewrite E in E'. injection E' as <-. by apply Hb in Hc. Qed.

Lemma search_false : is_a_search_prefix p = Ret false -> ~ question_at tokens i.
Proof.
  intros E Hc. destruct Hp as (cuts & Hok & _). destruct (search_prefix_ok cuts p Hok) as (b & E' & Hb). rewrite E in E'. injection E' as <-. by apply Hb in Hc.
Qed.

(** The delimiter of the next component, which is skipped *)
Lemma skip_delimiter next : cs_state p ∈ component_states -> cs_state p <> CProtocol -> next ∈ component_states ->
  (state_order (cs_state p) < state_order next)%nat -> (state_rank next <= state_rank (cs_state p))%nat -> (S i < length tokens)%nat ->
  separator tokens (Some (cs_state p)) i next (S i) -> exists p', change_state p next 1 = Ret p' /\ moved p p'.
Proof.
  intros Hs Hnp Hn Ho Hr Hlt Hsep. destruct Hp as (cuts & Hok & _). pose proof (index_range cuts p Hok).
  apply leave_moved; try done; [subst i; lia|subst i; by replace (Z.to_nat (cs_token_index p + 1)) with (S (Z.to_nat (cs_token_index p))) by lia|right; lia].
Qed.

Lemma char_case v next : 0 <= v < 128 -> cs_state p ∈ component_states -> cs_state p <> CProtocol -> next ∈ component_states ->
  (state_order (cs_state p) < state_order next)%nat -> (state_rank next <= state_rank (cs_state p))%nat ->
  (char_at tokens i v -> separator tokens (Some (cs_state p)) i next (S i)) ->
  exists b, is_a_non_special_pattern_char p (cs_token_index p) v = Ret b /\ (b = true -> exists p', change_state p next 1 = Ret p' /\ moved p p').
Proof.
  intros Hv Hs Hnp Hn Ho Hr Hsep. destruct (char_condition v Hv) as (b & -> & Hb). exists b. split; [done|]. intros Hbt%Hb.
  apply skip_delimiter; try done; [by eapply char_at_inside|by apply Hsep].
Qed.

Lemma search_case : cs_state p ∈ [CHostname; CPort; CPathname] ->
  exists b, is_a_search_prefix p = Ret b /\ (b = true -> exists p', change_state p CSearch 1 = Ret p' /\ moved p p').
Proof.
  intros Hs. destruct Hp as (cuts & Hok & _). destruct (search_prefix_ok cuts p Hok) as (b & -> & Hb). exists b. split; [done|]. intros Hbt%Hb.
  assert (Hc : cs_state p ∈ component_states /\ cs_state p <> CProtocol /\ (state_order (cs_state p) < 8)%nat).
  { rewrite !elem_of_cons in Hs. destruct Hs as [-> | [-> | [-> | []%not_elem_of_nil]]]; (split; [by apply (bool_decide_unpack _)|]; split; [done|cbn; lia]). }
  destruct Hc as (Hc & Hnp & Ho). apply skip_delimiter; try done; [by apply (bool_decide_unpack _)|cbn; lia|by apply question_inside|by apply separator_search].
Qed.

Lemma hash_case : cs_state p ∈ [CHostname; CPort; CPathname; CSearch] ->
  exists b, is_a_hash_prefix p = Ret b /\ (b = true -> exists p', change_state p CHash 1 = Ret p' /\ moved p p').
Proof.
  intros Hs. unfold is_a_hash_prefix.
  assert (Hc : cs_state p ∈ component_states /\ cs_state p <> CProtocol /\ (state_order (cs_state p) < 9)%nat).
  { rewrite !elem_of_cons in Hs. destruct Hs as [-> | [-> | [-> | [-> | []%not_elem_of_nil]]]];
      (split; [by apply (bool_decide_unpack _)|]; split; [done|cbn; lia]). }
  destruct Hc as (Hc & Hnp & Ho). apply char_case; try done; [by apply (bool_decide_unpack _)|cbn; lia|]. by apply separator_hash.
Qed.

Lemma path_case : cs_state p ∈ [CHostname; CPort] ->
  exists b, is_a_pathname_start p = Ret b /\ (b = true -> exists p', change_state p CPathname 0 = Ret p' /\ moved p p').
Proof.
  intros Hs. unfold is_a_pathname_start. destruct (char_condition (ch "/") ltac:(done)) as (b & -> & Hb). exists b. split; [done|]. intros Hbt%Hb.
  destruct Hp as (cuts & Hok & _). pose proof (index_range cuts p Hok). pose proof (char_at_inside _ _ Hbt) as Hin.
  assert (Hc : cs_state p ∈ component_states /\ cs_state p <> CProtocol /\ (state_order (cs_state p) < 7)%nat /\ state_rank (cs_state p) = 1%nat).
  { rewrite !elem_of_cons in Hs. destruct Hs as [-> | [-> | []%not_elem_of_nil]];
      (split; [by apply (bool_decide_unpack _)|]; split; [done|]; split; [cbn; lia|done]). }
  destruct Hc as (Hc & Hnp & Ho & Hr). apply leave_moved; try done; [by apply (bool_decide_unpack _)|subst i; lia| |rewrite Hr; cbn; lia].
  rewrite Z.add_0_r. by apply separator_pathname.
Qed.

Hypothesis Hincrement : cs_token_increment p = 1.

Lemma stay : (plain tokens -> ~ ends_component tokens (cs_state p) i) -> exists p', Ret p = Ret p' /\ moved p p'.
Proof. intros Hq. exists p. split; [done|]. split; [done|]. by left. Qed.

Lemma hostname_state_ok : cs_state p = CHostname -> exists p', hostname_state p = Ret p' /\ moved p p'.
Proof.
  intros Hs. unfold hostname_state. apply first_of_ok.
  - constructor; [|constructor; [|constructor; [|constructor; [|constructor; [|constructor; [|done]]]]]].
    + destruct (char_condition (ch "[") ltac:(done)) as (b & E & Hb). exists b. split; [done|]. intros Hbt%Hb. eexists. split; [done|].
      assert (Hnp : ~ plain tokens).
      { destruct Hbt as (t & Ht & Hc). intros Hpl. unfold plain in Hpl. rewrite Forall_lookup in Hpl. by destruct (Hpl _ _ Ht). }
      destruct Hp as (cuts & [I1 I2 I3 I4 I5 I6 I7 I8] & Hf). split; [|by left]. exists cuts. split; [by split|done].
    + destruct (char_condition (ch "]") ltac:(done)) as (b & E & Hb). exists b. split; [done|]. intros Hbt%Hb. by apply Hbracket in Hbt.
    + destruct (char_case (ch ":") CPort) as (b & E & Hb); try (rewrite ?Hs; done); [by rewrite Hs; apply (bool_decide_unpack _)|by apply (bool_decide_unpack _)|
        rewrite Hs; cbn; lia|rewrite Hs; by apply separator_port|].
      eexists. unfold is_a_port_prefix. rewrite E. split; [done|]. intros [Hbt _]%andb_prop. by apply Hb.
    + apply path_case. rewrite Hs. by apply (bool_decide_unpack _).
    + apply search_case. rewrite Hs. by apply (bool_decide_unpack _).
    + apply hash_case. rewrite Hs. by apply (bool_decide_unpack _).
  - intros Hf. apply stay. rewrite Hs. intros Hpl. unfold search_or_hash in Hf. cbn [app] in Hf. rewrite !Forall_cons in Hf. destruct Hf as (_ & _ & E1 & E2 & E3 & E4 & _).
    assert (Hport : ~ char_at tokens i (ch ":")).
    { destruct Hp as (cuts & Hok & _). destruct (ok_depths cuts p Hok Hpl) as [_ Hd]. rewrite Hd in E1. cbn in E1. apply char_false; [done|].
      unfold is_a_port_prefix in E1. destruct (char_condition (ch ":") ltac:(done)) as (b & E & _). rewrite E in *. cbn in E1. by rewrite andb_true_r in E1. }
    cbn [ends_component]. intros [?|[Hc|[Hc|Hc]]]; [done|by apply char_false in E2|by apply search_false in E3|by apply char_false in E4].
Qed.
End state.

(** ** The protocol *)

Lemma protocol_start cuts p : cs_ok cuts p -> cs_state p = CProtocol -> cuts = [] /\ cs_component_start p = 0.
Proof.
  intros Hp Hs. destruct (ok_cuts cuts p Hp) as (previous & e & Hc & Ha). rewrite Hs in Ha. cbn in Ha. destruct (ok_index cuts p Hp).
  inversion Ha; subst.
  - destruct (cut_up_none _ _ Hc) as [-> _]. split; [done|lia].
  - match goal with Hx : authority_starts _ _ _ |- _ => destruct Hx as (k & _ & _ & [[? _]|[? _]]); done end.
  - match goal with Hx : authority_starts _ _ _ |- _ => destruct Hx as (k & _ & _ & [[? _]|[? _]]); done end.
Qed.

(** Compiling the protocol returns, and the flag says whether it matches. *)
Lemma protocol_flag_ok p : inv p -> cs_state p = CProtocol ->
  exists r, compute_protocol_matches_a_special_scheme_flag p = Ret r
    /\ forall q, r = inr q -> cs_ok [] q /\ cs_token_index q = cs_token_index p /\ cs_component_start q = 0 /\ cs_state q = CProtocol
         /\ cs_protocol_matches_a_special_scheme q = special_scheme (text_between tokens 0 (Z.to_nat (cs_token_index p))).
Proof.
  intros (cuts & Hp & Hf) Hs. destruct (protocol_start cuts p Hp Hs) as [-> Hst]. unfold compute_protocol_matches_a_special_scheme_flag.
  destruct (component_string_ok [] p Hp) as (-> & Hw & Hl). cbn [res_bind]. rewrite Hst in *. change (Z.to_nat 0) with 0%nat in *.
  unfold special_scheme. set (text := text_between tokens 0 _) in *.
  destruct (compile_spec text default_options canonicalize_a_protocol Hw) as (r & -> & _); [lia|done|apply protocol_canonical..|].
  destruct r as [error|component]; cbn [res_bind]; [by eexists|]. eexists. split; [done|]. intros q [= <-].
  destruct (protocol_component_matches_a_special_scheme component); [|by rewrite Hf].
  split; [|done]. pose proof (ok_result [] p Hp) as Hr. destruct Hp as [I1 I2 I3 I4 I5 I6 I7 I8]. split; try done.
  by apply (first_result (cs_protocol_matches_a_special_scheme p) _ _ (cs_state p)).
Qed.

Lemma slashes_ok cuts p : cs_ok cuts p ->
  exists b, next_is_authority_slashes p = Ret b /\ (b = true <-> slashes_at tokens (S (Z.to_nat (cs_token_index p)))).
Proof.
  intros Hp. pose proof (index_range cuts p Hp) as Hr. unfold next_is_authority_slashes, slashes_at.
  destruct (non_special_ok cuts p Hp (cs_token_index p + 1) (ch "/")) as (b & -> & Hb); [lia|done|].
  replace (Z.to_nat (cs_token_index p + 1)) with (S (Z.to_nat (cs_token_index p))) in Hb by lia. cbn [res_bind].
  destruct b; cbn [negb]; [|exists false; split; [done|]; split; [done|]; by intros [?%Hb _]].
  destruct (non_special_ok cuts p Hp (cs_token_index p + 2) (ch "/")) as (b & -> & Hb2); [lia|done|].
  replace (Z.to_nat (cs_token_index p + 2)) with (S (S (Z.to_nat (cs_token_index p)))) in Hb2 by lia. exists b. split; [done|]. tauto.
Qed.

(** The protocol ends at a colon. *)
Lemma after_protocol_ok q slashes : cs_ok [] q -> cs_state q = CProtocol -> cs_component_start q = 0 ->
  cs_protocol_matches_a_special_scheme q = special_scheme (text_between tokens 0 (Z.to_nat (cs_token_index q))) ->
  char_at tokens (Z.to_nat (cs_token_index q)) (ch ":") -> (slashes = true <-> slashes_at tokens (S (Z.to_nat (cs_token_index q)))) ->
  exists q', (if slashes then change_state q CAuthority 3 else if cs_protocol_matches_a_special_scheme q then change_state q CAuthority 1
    else change_state q CPathname 1) = Ret q' /\ inv q' /\ cs_token_increment q' = 0 /\ (state_rank (cs_state q') < state_rank CProtocol)%nat.
Proof.
  intros Hq Hs Hst Hf Hcolon Hslash. pose proof (index_range [] q Hq) as Hr. pose proof (char_at_inside _ _ Hcolon) as Hin.
  set (e := Z.to_nat (cs_token_index q)) in *.
  assert (Hgo : forall next k, next = CAuthority \/ next = CPathname -> 0 <= k -> cs_token_index q + k < Z.of_nat (length tokens) ->
    arrived (Some CProtocol) e next (e + Z.to_nat k) -> 
    exists q', change_state q next k = Ret q' /\ inv q' /\ cs_token_increment q' = 0 /\ (state_rank (cs_state q') < state_rank CProtocol)%nat).
  { intros next k Hnext Hk Hlt Ha. destruct (leave_ok [] q next k Hq) as (q' & E & Hq' & Hf' & Hsq & Hiq & Hinc); try done.
    - rewrite Hs. by apply (bool_decide_unpack _).
    - rewrite Hs. destruct Hnext as [-> | ->]; cbn; lia.
    - destruct Hnext as [-> | ->]; by apply (bool_decide_unpack _).
    - rewrite Hs. by replace (Z.to_nat (cs_token_index q + k)) with (e + Z.to_nat k)%nat by lia.
    - exists q'. split; [done|]. split; [exists ([] ++ [current_cut q]); split; [done|]|].
      + rewrite Hf', Hf. unfold special_cuts, current_cut, cut_text. cbn [app cut_of cut_state cut_first cut_last]. by rewrite Hs, Hst, decide_True.
      + split; [done|]. rewrite Hsq. destruct Hnext as [-> | ->]; cbn; lia. }
  destruct slashes.
  - destruct (proj1 Hslash eq_refl) as [Hs1 Hs2]. pose proof (char_at_inside _ _ Hs2). apply Hgo; [by left|lia|lia|].
    change (Z.to_nat 3) with 3%nat. split; [done|]. split; [done|]. right. split; [done|lia].
  - assert (Hns : ~ slashes_at tokens (S e)) by (by intros ?%Hslash). change (e + Z.to_nat 1)%nat with (e + 1)%nat in Hgo.
    destruct (cs_protocol_matches_a_special_scheme q).
    + apply Hgo; [by left|lia|lia|]. split; [done|]. split; [done|]. left. split; [done|]. split; [done|]. change (Z.to_nat 1) with 1%nat. lia.
    + apply Hgo; [by right|lia|lia|]. change (Z.to_nat 1) with 1%nat. rewrite Nat.add_1_r. by apply separator_opaque.
Qed.

Lemma protocol_state_ok p : inv p -> cs_token_increment p = 1 -> cs_state p = CProtocol ->
  exists r, protocol_state p = Ret r /\ forall p', r = inr p' -> moved p p'.
Proof.
  intros Hp Hinc Hs. unfold protocol_state, is_a_protocol_suffix. destruct (char_condition p Hp (ch ":") ltac:(done)) as (b & -> & Hb). cbn [res_bind].
  destruct b.
  2:{ eexists. split; [done|]. intros p' [= <-]. split; [done|]. left. repeat (split; [done|]). rewrite Hs. cbn [ends_component]. by intros _ ?%Hb. }
  destruct (protocol_flag_ok p Hp Hs) as (r & -> & Hr). destruct r as [error|q]; cbn [res_bind]; [by eexists|].
  destruct (Hr q eq_refl) as (Hq & Hi & Hst & Hsq & Hf). destruct (slashes_ok [] q Hq) as (slashes & -> & Hslash). cbn [res_bind]. rewrite <- Hi in *.
  destruct (after_protocol_ok q slashes Hq Hsq Hst Hf (proj1 Hb eq_refl) Hslash) as (q' & -> & Hinv & Hinc' & Hrank). cbn [res_bind]. eexists.
  split; [done|]. intros p' [= <-]. split; [done|]. right. split; [done|]. left. by rewrite Hs.
Qed.

Lemma rewind_case p (condition : res bool) (starts : Prop) state : inv p ->
  (exists b, condition = Ret b /\ (b = true <-> starts)) -> (starts -> moved p (rewind_and_set_state p state)) ->
  exists b, condition = Ret b /\ (b = true -> exists p', Ret (rewind_and_set_state p state) = Ret p' /\ moved p p').
Proof. intros Hp (b & -> & Hb) Hm. exists b. split; [done|]. intros Hbt%Hb. eexists. split; [done|]. by apply Hm. Qed.

Lemma authority_state_ok p : inv p -> cs_token_increment p = 1 -> cs_state p = CAuthority ->
  exists p', first_of
    [(is_an_identity_terminator p, Ret (rewind_and_set_state p CUsername)); (is_a_pathname_start p, Ret (rewind_and_set_state p CHostname));
     (is_a_search_prefix p, Ret (rewind_and_set_state p CHostname)); (is_a_hash_prefix p, Ret (rewind_and_set_state p CHostname))] (Ret p) = Ret p' /\ moved p p'.
Proof.
  intros Hp Hinc Hs. pose proof Hp as (cuts & Hok & _). pose proof (ok_quiet cuts p Hok) as Hq. rewrite Hs in Hq.
  assert (Hat : forall state, (state = CUsername /\ char_at tokens (Z.to_nat (cs_token_index p)) (ch "@")
      \/ state = CHostname /\ (char_at tokens (Z.to_nat (cs_token_index p)) (ch "/") \/ question_at tokens (Z.to_nat (cs_token_index p))
           \/ char_at tokens (Z.to_nat (cs_token_index p)) (ch "#") \/ length tokens = S (Z.to_nat (cs_token_index p)))) ->
    moved p (rewind_and_set_state p state)).
  { intros state Hst. apply authority_ok; [done|done|]. destruct (ok_index cuts p Hok). exists (Z.to_nat (cs_token_index p)). split; [lia|]. by split. }
  apply first_of_ok.
  - constructor; [eapply rewind_case; [done|by apply char_condition|intros ?; apply Hat; auto 8]|]. constructor; [eapply rewind_case; [done|by apply char_condition|intros ?; apply Hat; auto 8]|].
    constructor; [eapply rewind_case; [done|by apply (search_prefix_ok cuts)|intros ?; apply Hat; auto 8]|]. constructor; [eapply rewind_case; [done|by apply char_condition|intros ?; apply Hat; auto 8]|done].
  - intros Hf. apply stay; [done|done|]. rewrite Hs. rewrite !Forall_cons in Hf. destruct Hf as (E1 & E2 & E3 & E4 & _). intros _. cbn [ends_component].
    intros [Hc|[Hc|[Hc|Hc]]]; [by apply char_false in E1|by apply char_false in E2|by apply search_false in E3|by apply char_false in E4].
Qed.

Lemma run_state_ok p : inv p -> cs_token_increment p = 1 -> exists r, run_constructor_state p = Ret r /\ forall p', r = inr p' -> moved p p'.
Proof.
  intros Hp Hinc. unfold run_constructor_state. cbv zeta.
  assert (Hkeep : forall action, (exists p', action = Ret p' /\ moved p p') ->
    exists r, (let* q := action in Ret (inr q)) = Ret r /\ forall p', r = (inr p' : PatternErrorOr ConstructorStringParser) -> moved p p').
  { intros action (q & -> & Hq). eexists. split; [done|]. by intros ? [= <-]. }
  pose proof (stay p Hp Hinc) as Hstay. pose proof (char_false p Hp) as Hcf. pose proof (search_false p Hp) as Hsf.
  destruct (cs_state p) eqn:Hs; try apply Hkeep.
  - apply first_of_ok.
    + constructor; [|done]. eapply rewind_case; [done|by apply char_condition|]. by apply protocol_ok.
    + intros [E _]%Forall_cons. apply Hstay. intros _. by apply (Hcf (ch ":")).
  - by apply protocol_state_ok.
  - by apply authority_state_ok.
  - apply first_of_ok.
    + constructor; [apply char_case|constructor; [apply char_case|done]]; rewrite ?Hs; try done; try (by apply (bool_decide_unpack _)); try (cbn; lia).
      * apply separator_password.
      * apply separator_hostname. by apply (bool_decide_unpack _).
    + intros [E1 [E2 _]%Forall_cons]%Forall_cons. apply Hstay. intros _ [?|?]; [by apply (Hcf (ch ":")) in E1|by apply (Hcf (ch "@")) in E2].
  - apply first_of_ok.
    + constructor; [apply char_case|done]; rewrite ?Hs; try done; try (by apply (bool_decide_unpack _)); try (cbn; lia).
      apply separator_hostname. by apply (bool_decide_unpack _).
    + intros [E _]%Forall_cons. apply Hstay. intros _. by apply (Hcf (ch "@")).
  - by apply hostname_state_ok.
  - apply first_of_ok.
    + constructor; [|constructor; [|constructor; [|done]]];
        [apply path_case|apply search_case|apply hash_case]; (done || rewrite Hs; by apply (bool_decide_unpack _)).
    + unfold search_or_hash. rewrite !Forall_cons. intros (E1 & E2 & E3 & _). apply Hstay.
      intros _ [?|[?|?]]; [by apply (Hcf (ch "/")) in E1|by apply Hsf in E2|by apply (Hcf (ch "#")) in E3].
  - apply first_of_ok.
    + constructor; [|constructor; [|done]]; [apply search_case|apply hash_case]; (done || rewrite Hs; by apply (bool_decide_unpack _)).
    + unfold search_or_hash. rewrite !Forall_cons. intros (E2 & E3 & _). apply Hstay. intros _ [?|?]; [by apply Hsf in E2|by apply (Hcf (ch "#")) in E3].
  - apply first_of_ok.
    + constructor; [|done]. apply hash_case; (done || rewrite Hs; by apply (bool_decide_unpack _)).
    + intros [E _]%Forall_cons. apply Hstay. intros _. by apply (Hcf (ch "#")).
  - destruct (Hstay (fun _ (F : False) => F)) as (q & [= <-] & Hq). eexists. split; [done|]. by intros ? [= <-].
  - destruct Hp as (cuts & Hok & _). destruct (ok_cuts cuts p Hok) as (previous & e & _ & Ha). by rewrite Hs in Ha.
Qed.

(** ** One iteration *)

Definition cs_measure (p : ConstructorStringParser) : nat :=
  state_rank (cs_state p) * length tokens + (length tokens - Z.to_nat (cs_token_index p)).

Lemma advance_ok p p' : inv p -> moved p p' -> (cs_token_increment p' = 1 -> cs_token_index p + 1 < Z.of_nat (length tokens)) ->
  inv (advance_token p') /\ (cs_measure (advance_token p') < cs_measure p)%nat.
Proof.
  intros (cuts0 & Hp & _) [(cuts & Hp' & Hf) Hm] Hlast. pose proof (index_range _ p Hp) as Hr. pose proof (index_range _ p' Hp') as Hr'.
  pose proof (ok_index _ p Hp) as [_ Hlt]. pose proof (ok_index _ p' Hp') as [Hle' Hlt'].
  assert (Hi : u32 (cs_token_index p' + cs_token_increment p') = cs_token_index p' + cs_token_increment p').
  { unfold u32. apply Z.mod_small. destruct Hm as [(-> & _)|(-> & _)]; lia. }
  split.
  - exists cuts. split; [|done]. destruct Hp' as [I1 I2 I3 I4 I5 I6 I7 I8].
    split; unfold advance_token, with_position; cbn [cs_input cs_token_list cs_component_start cs_token_index cs_state cs_result cs_group_depth
      cs_hostname_ipv6_bracket_depth cs_protocol_matches_a_special_scheme]; try done; rewrite Hi.
    + destruct Hm as [(Hinc & Hidx & _)|(Hinc & _)]; rewrite Hinc in *; [specialize (Hlast eq_refl)|]; lia.
    + destruct Hm as [(Hinc & Hidx & Hst & Hstate & Hq)|(Hinc & _)]; rewrite Hinc; [|by rewrite Z.add_0_r].
      intros Hpl k Hk. destruct (decide (k = Z.to_nat (cs_token_index p'))) as [->|Hne]; [|apply I8; [done|lia]].
      rewrite Hidx, Hstate. by apply Hq.
  - unfold cs_measure, advance_token, with_position. cbn [cs_token_index cs_state]. rewrite Hi.
    destruct Hm as [(Hinc & Hidx & _ & -> & _)|(Hinc & [Hrank|[Hrank Hidx]])]; rewrite Hinc in *; [specialize (Hlast eq_refl); lia|nia|nia].
Qed.

(** The parser has come to the end of the string. *)
Definition finished (p : ConstructorStringParser) : Prop :=
  exists cuts last, cut_up tokens cuts (Some last) (length body) /\ result_ok cuts (map cut_state cuts) (special_cuts tokens cuts) (cs_result p).

(** What an iteration does *)
Definition iteration_ok (p : ConstructorStringParser) (r : ConstructorStringParser + ConstructorStringParser) : Prop :=
  match r with
  | inl p' => inv p' /\ (cs_measure p' < cs_measure p)%nat
  | inr p' => finished p'
  end.

Lemma end_position i t : tokens !! i = Some t -> token_type t = Tok_End -> i = length body.
Proof.
  unfold tokens. intros [Ht|[Hge Ht]]%lookup_app_Some Hty.
  - pose proof body_ok as Hok. rewrite Forall_lookup in Hok. specialize (Hok i t Ht). unfold token_ok in Hok. by rewrite Hty in Hok.
  - apply list_lookup_singleton_Some in Ht as [Hz _]. lia.
Qed.

(** A protocol alone does not skip anything. *)
Lemma protocol_alone cut special special' result : cut_state cut = CProtocol ->
  result_ok [cut] (map cut_state [cut]) special result -> result_ok [cut] (map cut_state [cut]) special' result.
Proof.
  intros Hc [Hb Hm]. split; [done|]. intros s Hs. rewrite (Hm s Hs). unfold cut_value. cbn [cut_of map]. rewrite Hc.
  destruct (decide (CProtocol = s)); [done|]. apply (bool_decide_pack _) in Hs. by destruct s.
Qed.

Lemma done_ok p : inv p -> cs_state p ∈ component_states -> Z.to_nat (cs_token_index p) = length body ->
  exists p', change_state p CDone 0 = Ret p' /\ finished p'.
Proof.
  intros (cuts & Hp & Hf) Hs Hend. destruct (leave_result cuts p Hp Hs CDone 0) as (result & Hr & ->).
  { apply (bool_decide_pack _) in Hs. destruct (cs_state p); (done || cbn; lia). }
  { by left. }
  eexists. split; [done|]. exists (cuts ++ [current_cut p]), (cs_state p). split; [rewrite <- Hend; by apply current_cut_up|].
  cbn [with_position with_result cs_result]. unfold active in Hr. rewrite decide_False, app_nil_r in Hr by (intros Hx; by apply (bool_decide_pack _) in Hx).
  destruct (decide (cs_state p = CProtocol)) as [Hpr|Hnp].
  - destruct (protocol_start cuts p Hp Hpr) as [-> _]. by apply (protocol_alone _ (cs_protocol_matches_a_special_scheme p)).
  - replace (special_cuts tokens (cuts ++ [current_cut p])) with (cs_protocol_matches_a_special_scheme p); [done|]. rewrite Hf. unfold special_cuts.
    rewrite cut_of_snoc. destruct (cut_of cuts CProtocol); [done|]. by rewrite decide_False.
Qed.

(** A string without a protocol *)
Lemma relative_ok q : inv q -> cs_state q = CInitial -> cs_token_index q = 0 -> runs_to tokens CInitial 0 (length tokens) ->
  exists q', first_of [(is_a_hash_prefix q, change_state q CHash 1); (is_a_search_prefix q, change_state q CSearch 1)] (change_state q CPathname 0) = Ret q'
    /\ inv q' /\ state_rank (cs_state q') = 0%nat /\ cs_token_increment q' = 0.
Proof.
  intros Hq Hs Hi Hr. pose proof Hq as (cuts & Hok & _).
  assert (Hgo : forall next skip, next ∈ component_states -> state_rank next = 0%nat -> 0 <= skip < Z.of_nat (length tokens) ->
    separator tokens None 0 next (Z.to_nat skip) -> exists q', change_state q next skip = Ret q' /\ inv q' /\ state_rank (cs_state q') = 0%nat /\ cs_token_increment q' = 0).
  { intros next skip Hn Hrank Hk Hsep. unfold change_state. rewrite Hs, Hi. cbn [state_is_one_of negb res_bind bool_decide andb]. eexists. split; [reflexivity|].
    pose proof tokens_size. unfold u32. rewrite Z.add_0_l, Z.mod_small by lia. split; [|done]. by apply first_ok. }
  assert (Hz : Z.to_nat (cs_token_index q) = 0%nat) by (by rewrite Hi).
  apply first_of_ok; [constructor; [|constructor; [|done]]|].
  - destruct (char_condition q Hq (ch "#") ltac:(done)) as (b & E & Hb). exists b. split; [done|]. intros Hbt%Hb. rewrite Hz in Hbt.
    pose proof (char_at_inside _ _ Hbt). apply Hgo; [by apply (bool_decide_unpack _)|done|lia|by apply separator_relative_hash].
  - destruct (search_prefix_ok cuts q Hok) as (b & E & Hb). exists b. split; [done|]. intros Hbt%Hb. rewrite Hz in Hbt.
    pose proof (question_inside _ Hbt). apply Hgo; [by apply (bool_decide_unpack _)|done|lia|by apply separator_relative_search].
  - rewrite !Forall_cons. intros (E1 & E2 & _). apply char_false in E1; [|done|done]. apply search_false in E2; [|done]. rewrite Hz in *.
    apply Hgo; [by apply (bool_decide_unpack _)|done|rewrite tokens_length; lia|by apply separator_relative].
Qed.

Lemma rewind_inv p : inv p -> cs_state p = CInitial -> inv (rewind p).
Proof.
  intros (cuts & Hp & Hf) Hs. exists cuts. split; [|done]. destruct Hp as [I1 I2 I3 I4 I5 I6 I7 I8]. split; try done; cbn; [lia|]. apply runs_to_nil.
Qed.

Lemma at_end_ok p t : inv p -> tokens !! Z.to_nat (cs_token_index p) = Some t -> token_type t = Tok_End ->
  exists r, at_end_token p = Ret r /\ iteration_ok p r.
Proof.
  intros Hp Ht Hty. pose proof (end_position _ _ Ht Hty) as Hend. unfold at_end_token. pose proof Hp as (cuts & Hok & _).
  assert (Hdone : cs_state p ∈ component_states -> exists r, (let* q := change_state p CDone 0 in Ret (inr q)) = Ret r /\ iteration_ok p r).
  { intros Hs. destruct (done_ok p Hp Hs Hend) as (q & -> & Hq). eexists. by split. }
  destruct (cs_state p) eqn:Hs; try (apply Hdone; by apply (bool_decide_unpack _)).
  - assert (Hr : runs_to tokens CInitial 0 (length tokens)).
    { pose proof (ok_quiet cuts p Hok) as Hq. destruct (initial_cuts cuts p Hok Hs) as [_ Hst]. rewrite Hs, Hst, Hend in Hq. intros Hpl k Hk.
      rewrite tokens_length in Hk. destruct (decide (k = length body)) as [->|Hne]; [|apply Hq; [done|lia]]. cbn [ends_component].
      intros Hc%char_at_inside. rewrite tokens_length in Hc. lia. }
    assert (Hi0 : cs_token_index (rewind p) = 0) by (cbn; by apply (initial_cuts cuts p)).
    destruct (relative_ok (rewind p) (rewind_inv p Hp Hs) Hs Hi0 Hr) as (q & -> & Hq & Hrank & Hinc). cbn [res_bind]. eexists. split; [done|].
    destruct (advance_ok (rewind p) q (rewind_inv p Hp Hs)) as [Ha _]; [|congruence|].
    { split; [done|]. right. split; [done|]. left. rewrite Hrank. cbn [rewind with_position cs_state]. rewrite Hs. cbn. lia. }
    split; [done|]. unfold cs_measure. cbn [advance_token with_position cs_state cs_token_index]. rewrite Hrank, Hs. cbn [state_rank]. rewrite tokens_length. lia.
  - eexists. split; [done|]. apply advance_ok; [done| |done]. apply authority_ok; [done|done|]. exists (length body). destruct (ok_index cuts p Hok). split; [lia|]. split.
    + rewrite <- Hend, <- Hs. apply (ok_quiet cuts p Hok).
    + right. split; [done|]. right. right. right. apply tokens_length.
  - destruct (ok_cuts cuts p Hok) as (previous & e & _ & Ha). by rewrite Hs in Ha.
Qed.

(** Members that the steps do not look at *)
Lemma inv_ext p q : cs_input q = cs_input p -> cs_token_list q = cs_token_list p -> cs_component_start q = cs_component_start p ->
  cs_token_index q = cs_token_index p -> cs_state q = cs_state p -> cs_result q = cs_result p ->
  cs_protocol_matches_a_special_scheme q = cs_protocol_matches_a_special_scheme p ->
  (plain tokens -> cs_group_depth q = cs_group_depth p /\ cs_hostname_ipv6_bracket_depth q = cs_hostname_ipv6_bracket_depth p) -> inv p -> inv q.
Proof.
  intros E1 E2 E3 E4 E5 E6 E7 E8 (cuts & [I1 I2 I3 I4 I5 I6 I7 I8] & Hf). exists cuts. split; [|congruence].
  split; rewrite ?E1, ?E2, ?E3, ?E4, ?E5, ?E6, ?E7; try done. intros Hpl. destruct (E8 Hpl) as [-> ->]. by apply I7.
Qed.

Lemma constructor_step_ok p : inv p -> exists r, constructor_step p = Ret r /\ forall x, r = inr x -> iteration_ok p x.
Proof.
  intros Hp. unfold constructor_step. set (q := with_position p (cs_component_start p) (cs_token_index p) 1 (cs_state p)). cbv zeta.
  assert (Hq : inv q) by (by apply (inv_ext p)). pose proof Hq as (cuts & Hok & _). pose proof (ok_index cuts q Hok) as [[Hz Hle] Hlt].
  destruct (token_at_ok cuts q Hok (cs_token_index q) ltac:(lia)) as (t & Et & Ht). rewrite Et. cbn [res_bind]. case_bool_decide as Hend.
  { destruct (at_end_ok q t Hq Ht Hend) as (r & -> & Hr). cbn [res_bind]. eexists. split; [done|]. by intros ? [= <-]. }
  assert (Hnext : cs_token_index q + 1 < Z.of_nat (length tokens)).
  { rewrite tokens_length in *. unfold tokens in Ht. apply lookup_app_Some in Ht as [Ht|[_ Ht]]; [apply lookup_lt_Some in Ht; lia|].
    apply list_lookup_singleton_Some in Ht as [_ <-]. done. }
  assert (Hgo : forall q', inv q' -> cs_token_index q' = cs_token_index q -> cs_state q' = cs_state q -> cs_component_start q' = cs_component_start q ->
    cs_token_increment q' = 1 -> ~ plain tokens -> iteration_ok p (inl (advance_token q'))).
  { intros q' Hq' Hi Hst Hc Hinc Hnp. cbn [iteration_ok]. apply (advance_ok q); [done| |done]. split; [done|]. left. by repeat split. }
  unfold is_a_group_open, is_a_group_close. rewrite Et. cbn [res_bind]. case_bool_decide as Hopen.
  { assert (Hnp : ~ plain tokens) by (unfold plain; rewrite Forall_lookup; intros Hpl; by destruct (Hpl _ _ Ht)).
    eexists. split; [done|]. intros ? [= <-]. apply Hgo; try done. by apply (inv_ext q). }
  assert (Hdepth : 0 < cs_group_depth q -> ~ plain tokens) by (intros Hd Hpl; destruct (ok_depths cuts q Hok Hpl); lia).
  destruct (Z.ltb_spec 0 (cs_group_depth q)) as [Hd|Hd]; cbn [andb].
  - destruct (negb _); [eexists; split; [done|]; intros ? [= <-]; apply Hgo; auto|].
    set (q1 := with_depths q _ _). assert (Hq1 : inv q1) by (apply (inv_ext q); try done; intros Hpl; by apply Hdepth in Hpl).
    destruct (run_state_ok q1 Hq1 eq_refl) as (r & -> & Hr). destruct r as [error|q2]; cbn [res_bind]; [by eexists|]. eexists. split; [done|].
    intros ? [= <-]. apply (advance_ok q1 q2 Hq1 (Hr q2 eq_refl)). done.
  - destruct (run_state_ok q Hq eq_refl) as (r & -> & Hr). destruct r as [error|q2]; cbn [res_bind]; [by eexists|]. eexists. split; [done|].
    intros ? [= <-]. apply (advance_ok q q2 Hq (Hr q2 eq_refl)). done.
Qed.

Lemma constructor_loop_ok fuel : forall p, inv p -> (cs_measure p < fuel)%nat ->
  exists r, constructor_loop fuel p = Ret r /\ forall q, r = inr q -> finished q.
Proof.
  induction fuel as [|fuel IH]; intros p Hp Hf; [lia|]. cbn [constructor_loop]. pose proof Hp as (cuts & Hok & _). pose proof (ok_index cuts p Hok) as [_ Hlt].
  rewrite (ok_tokens cuts p Hok), (proj2 (Z.ltb_lt _ _)) by done. destruct (constructor_step_ok p Hp) as (r & -> & Hr).
  destruct r as [error|x]; cbn [res_bind]; [by eexists|]. specialize (Hr x eq_refl). destruct x as [q|q]; cbn [iteration_ok] in Hr.
  - apply IH; [apply Hr|]. lia.
  - eexists. split; [done|]. by intros ? [= <-].
Qed.

(** The dictionary of a string without a stray bracket *)
Lemma constructor_body_ok : exists r, parse_a_constructor_string (utf8_encode cps) = Ret r
  /\ forall i, r = inr i -> exists cuts last, cut_up tokens cuts (Some last) (length body)
       /\ members i = map (component_value tokens cuts) component_states /\ i_base_url i = None.
Proof.
  pose proof (encode_length cps Hcps) as Hlen. unfold parse_a_constructor_string. rewrite tokenize_spec by (done || lia). unfold reference_tokenize.
  rewrite Hlex. cbn [res_bind]. fold tokens. set (p := {| cs_input := utf8_encode cps; cs_state := CInitial |}).
  assert (Hp : inv p).
  { exists []. split; [|done]. split; cbn; try done; [rewrite tokens_length; lia|by exists None, 0%nat; split; [constructor|]| |apply runs_to_nil].
    split; [done|]. intros s Hs. apply (bool_decide_pack _) in Hs. by destruct s. }
  destruct (constructor_loop_ok (constructor_fuel (length tokens)) p Hp) as (r & E & Hr).
  { unfold cs_measure, constructor_fuel. cbn [p cs_state state_rank cs_token_index]. lia. }
  rewrite E. destruct r as [error|q]; cbn [res_bind]; [by eexists|]. destruct (Hr q eq_refl) as (cuts & last & Hc & Hb & Hm).
  assert (Hms : members (cs_result q) = map (cut_value tokens cuts (map cut_state cuts) (special_cuts tokens cuts)) component_states).
  { rewrite members_of. apply map_ext_in. intros s Hs%list_elem_of_In. by apply Hm. }
  destruct (cs_result q) as [protocol username password hostname port pathname search hash base_url]. cbn in Hb. subst base_url. eexists. split; [done|].
  intros i [= <-]. exists cuts, last. split; [done|]. split; [|done]. unfold members in *. cbn in Hms |- *. by simplify_eq.
Qed.
End constructor.

(** ** Properties *)

(** C16: parsing a constructor string of well-formed UTF-8 terminates without
    stopping the process, as long as no token of the string is a closing
    bracket (one in the hostname without an opening bracket stops the process,
    see [stray_bracket_crashes]; brackets in a regular expression are not such
    tokens).  The result is an error, or a dictionary that is the
    one of a way to cut up the string: every token of the string belongs to one
    component or to the delimiter before it, the components come in their order,
    each after the delimiter that introduces it and, in a string without braces
    and opening brackets, up to the first token that ends it, so that there is
    no other way to cut it up; a component has exactly the text of its tokens; and a hostname, pathname or search that is
    skipped between two components is empty, or "/" for the pathname when the
    protocol matches a special scheme, as is the port when there is a hostname. *)
Theorem constructor_string_safe `{LookupTablesLaws, IcuLaws, SimdutfLaws, FastFloatLaws, SimdutfCountLaws, IcuIdentifiers, RegexEngine}
    (input : bytes) (tokens : list Token) (Hinput : well_formed_utf8 input) (Hsize : Z.of_nat (length input) < 2 ^ 31)
    (Htokens : tokenize input Lenient = Ret (inr tokens)) (Hbracket : forall i, ~ char_at tokens i (ch "]")) :
  concat (map token_text tokens) = input
  /\ exists r, parse_a_constructor_string input = Ret r
    /\ forall i, r = inr i -> exists cuts last, cut_up tokens cuts (Some last) (length tokens - 1)
         /\ members i = map (component_value tokens cuts) component_states /\ i_base_url i = None
         /\ (plain tokens -> forall cuts' last', cut_up tokens cuts' (Some last') (length tokens - 1) -> cuts' = cuts).
Proof.
  destruct Hinput as (cps & Hs & ->). pose proof (encode_length cps Hs) as Hlen. rewrite tokenize_spec in Htokens by (done || lia).
  unfold reference_tokenize in Htokens. destruct (lex_all_lenient (length cps) 0 cps ltac:(done)) as [body Hlex]. rewrite Hlex in Htokens.
  injection Htokens as <-. rewrite length_app, Nat.add_sub, map_app, concat_app, (body_text cps body Hs Hlex). split; [by rewrite app_nil_r|].
  destruct (constructor_body_ok cps body Hs Hsize Hlex Hbracket) as (r & -> & Hr). exists r. split; [done|]. intros i Hi.
  destruct (Hr i Hi) as (cuts & last & Hc & Hm & Hb). exists cuts, last. repeat (split; [done|]). intros Hpl cuts' last' Hc'.
  apply (cut_up_unique _ Hpl (fun k t Ht Hv => proj1 (valued_token cps body k t Ht Hv)) cuts' [] cuts last' last (length body)); [|done|done].
  rewrite length_app. cbn. lia.
Qed.

Lemma constructor_string_safe_witness :
  exists i tokens cuts last, parse_a_constructor_string (sv "https://example.com/:id([a-z])#f") = Ret (inr i)
    /\ members i = [Some (sv "https"); None; None; Some (sv "example.com"); Some []; Some (sv "/:id([a-z])"); Some []; Some (sv "f")]
    /\ tokenize (sv "https://example.com/:id([a-z])#f") Lenient = Ret (inr tokens)
    /\ cut_up tokens cuts (Some last) (length tokens - 1) /\ members i = map (component_value tokens cuts) component_states.
Proof.
  set (tokens := match tokenize (sv "https://example.com/:id([a-z])#f") Lenient with Ret (inr tokens) => tokens | _ => [] end).
  assert (Et : tokenize (sv "https://example.com/:id([a-z])#f") Lenient = Ret (inr tokens)) by (vm_compute; reflexivity).
  destruct (constructor_string_safe (sv "https://example.com/:id([a-z])#f") tokens) as (_ & r & E & Hr).
  { apply well_formed_ascii. by repeat constructor. }
  { reflexivity. }
  { exact Et. }
  { intros k (t & Ht & Hv & _). apply list_elem_of_lookup_2 in Ht.
    assert (Hall : forallb (fun t => negb (sv_eqb (token_value t) (sv "]"))) tokens = true) by (vm_compute; reflexivity).
    rewrite forallb_forall in Hall. apply list_elem_of_In, Hall in Ht. by rewrite Hv in Ht. }
  set (i := {| i_protocol := Some (sv "https"); i_username := None; i_password := None; i_hostname := Some (sv "example.com"); i_port := Some [];
    i_pathname := Some (sv "/:id([a-z])"); i_search := Some []; i_hash := Some (sv "f"); i_base_url := None |}).
  assert (Ei : parse_a_constructor_string (sv "https://example.com/:id([a-z])#f") = Ret (inr i)) by (vm_compute; reflexivity).
  rewrite Ei in E. injection E as <-. destruct (Hr i eq_refl) as (cuts & last & Hc & Hm & _).
  exists i, tokens, cuts, last. split; [exact Ei|]. split; [reflexivity|]. split; [exact Et|]. split; [exact Hc|exact Hm].
Defined.

(** A closing bracket in the hostname without an opening one: the assertion
    fails that the depth is not zero. *)
Lemma stray_bracket_crashes : parse_a_constructor_string (sv "https://]") = Crash.
Proof. vm_compute. reflexivity. Qed.
