(* ===== verification/UrlPattern.v ===== *)
(** * URL patterns: [LibURL/Pattern/Pattern.{h,cpp}]

    A pattern is made of eight components, compiled from a constructor string or
    a dictionary, and matches a URL when each of them matches its part of the
    URL.  The theorems say what creating a pattern does with the components, and
    that matching succeeds exactly when all eight expressions match. *)

From S2P Require Import Prelude CharacterTypes Utf8 MemMem Strings TextCodec Percent Ipv4 Ipv6 Host Origin Url UrlParser UrlFacts UrlSafety UrlTheorems UrlRoundtrip Tokens Wtf8 PatternTokenizer PatternParts PatternCanonicalization PatternFacts PatternComponent PatternInit PatternConstructor PatternConstructorFacts.
Local Open Scope Z_scope.

(** [URL::Pattern::Input], and what [match] takes *)
Inductive PatternInput := InputString (s : bytes) | InputInit (i : Init).
Inductive MatchInput := MatchString (s : bytes) | MatchInit (i : Init) | MatchURL (u : URL).

Section pattern.
Context `{LookupTables, Icu, Simdutf, FastFloat, SimdutfCount, IcuIdentifiers, RegexEngine}.

Record Pattern := {
  m_protocol_component : Component;
  m_username_component : Component;
  m_password_component : Component;
  m_hostname_component : Component;
  m_port_component : Component;
  m_pathname_component : Component;
  m_search_component : Component;
  m_hash_component : Component
}.

Record Result := {
  r_inputs : list PatternInput;
  r_protocol : ComponentResult;
  r_username : ComponentResult;
  r_password : ComponentResult;
  r_hostname : ComponentResult;
  r_port : ComponentResult;
  r_pathname : ComponentResult;
  r_search : ComponentResult;
  r_hash : ComponentResult
}.

Definition hostname_pattern_is_an_ipv6_address (input : bytes) : bool :=
  match input with
  | first :: second :: _ =>
      if first =? ch "[" then true
      else if (first =? ch "{") && (second =? ch "[") then true
      else (first =? 92) && (second =? ch "[")
  | _ => false
  end.

(** Steps 1 to 3 of [create] *)
Definition init_of_input (input : PatternInput) (base_url : option bytes) : res (PatternErrorOr Init) :=
  match input with
  | InputString s =>
      try* init := parse_a_constructor_string s in
      if negb (given base_url) && negb (given (i_protocol init))
      then Ret (inl (sv "Relative URLPattern constructor must provide one of baseURL or protocol"))
      else
        let '(Build_Init protocol username password hostname port pathname search hash init_base_url) := init in
        Ret (inr (Build_Init protocol username password hostname port pathname search hash
                    (match base_url with Some _ => base_url | None => init_base_url end)))
  | InputInit init =>
      if given base_url then Ret (inl (sv "Constructor with URLPatternInit should provide no baseURL")) else Ret (inr init)
  end.

(** Step 6: a port that is the default one of the scheme *)
Definition pattern_port (protocol port : bytes) : res bytes :=
  if is_special_scheme protocol then
    match parse_number (2 ^ 16 - 1) port 10 with
    | Some number =>
        let* default_port := unwrap (default_port_for_scheme protocol) in
        Ret (if number =? default_port then [] else port)
    | None => Ret port
    end
  else Ret port.

Definition with_ignore_case (options : Options) (ignore_case : bool) : Options :=
  {| delimiter_code_point := delimiter_code_point options; prefix_code_point := prefix_code_point options; ignore_case := ignore_case |}.

(** Steps 7 to 19 *)
Definition compile_components (protocol username password hostname port pathname search hash : bytes) (ignore_case : bool)
    : res (PatternErrorOr Pattern) :=
  try* protocol_component := compile protocol canonicalize_a_protocol default_options in
  try* username_component := compile username (as_callback canonicalize_a_username) default_options in
  try* password_component := compile password (as_callback canonicalize_a_password) default_options in
  try* hostname_component :=
    if hostname_pattern_is_an_ipv6_address hostname then compile hostname canonicalize_an_ipv6_hostname hostname_options
    else compile hostname canonicalize_a_hostname hostname_options in
  try* port_component := compile port (fun value => canonicalize_a_port value None) default_options in
  let compile_options := with_ignore_case default_options ignore_case in
  try* pathname_component :=
    if protocol_component_matches_a_special_scheme protocol_component
    then compile pathname (as_callback canonicalize_a_pathname) (with_ignore_case pathname_options ignore_case)
    else compile pathname canonicalize_an_opaque_pathname compile_options in
  try* search_component := compile search (as_callback canonicalize_a_search) compile_options in
  try* hash_component := compile hash (as_callback canonicalize_a_hash) compile_options in
  Ret (inr {| m_protocol_component := protocol_component; m_username_component := username_component;
              m_password_component := password_component; m_hostname_component := hostname_component;
              m_port_component := port_component; m_pathname_component := pathname_component;
              m_search_component := search_component; m_hash_component := hash_component |}).

(** [Pattern::create] *)
Definition pattern_create (input : PatternInput) (base_url : option bytes) (ignore_case : bool) : res (PatternErrorOr Pattern) :=
  try* init := init_of_input input base_url in
  try* processed_init := process_a_url_pattern_init init ProcessPattern None None None None None None None None in
  let or_wildcard (member : option bytes) : bytes := default (sv "*") member in
  let protocol := or_wildcard (i_protocol processed_init) in
  let* port := pattern_port protocol (or_wildcard (i_port processed_init)) in
  compile_components protocol (or_wildcard (i_username processed_init)) (or_wildcard (i_password processed_init))
    (or_wildcard (i_hostname processed_init)) port (or_wildcard (i_pathname processed_init)) (or_wildcard (i_search processed_init))
    (or_wildcard (i_hash processed_init)) ignore_case.

(** The parts of a URL, in the order of the components *)
Definition url_parts (u : URL) : res (list bytes) :=
  let* hostname := match host u with Some host => host_serialize host | None => Ret [] end in
  let* port := match port u with Some port => format_decimal port | None => Ret [] end in
  let* pathname := serialize_path u in
  Ret [scheme u; username u; password u; hostname; port; pathname; default [] (query u); default [] (fragment u)].

(** Steps 10 to 13 of [match]: the inputs and the parts, or nothing *)
Definition match_parts (input : MatchInput) (base_url_string : option bytes)
    : res (PatternErrorOr (option (list PatternInput * list bytes))) :=
  match input with
  | MatchInit init =>
      if given base_url_string then Ret (inl (sv "Base URL cannot be provided when URLPatternInput is provided"))
      else
        let* apply_result := process_a_url_pattern_init init ProcessURL (Some []) (Some []) (Some []) (Some []) (Some []) (Some []) (Some []) (Some []) in
        match apply_result with
        | inl _ => Ret (inr None)
        | inr i =>
            let* protocol := unwrap (i_protocol i) in let* username := unwrap (i_username i) in let* password := unwrap (i_password i) in
            let* hostname := unwrap (i_hostname i) in let* port := unwrap (i_port i) in let* pathname := unwrap (i_pathname i) in
            let* search := unwrap (i_search i) in let* hash := unwrap (i_hash i) in
            Ret (inr (Some ([InputInit init], [protocol; username; password; hostname; port; pathname; search; hash])))
        end
  | MatchString s =>
      let* base_url :=
        match base_url_string with
        | None => Ret (Some None)
        | Some text => let* base_url := basic_parse text None None in Ret (option_map Some base_url)
        end in
      match base_url with
      | None => Ret (inr None)
      | Some base_url =>
          let* maybe_url := basic_parse s base_url None in
          match maybe_url with
          | None => Ret (inr None)
          | Some u =>
              let* parts := url_parts u in
              Ret (inr (Some (InputString s :: match base_url_string with Some text => [InputString text] | None => [] end, parts)))
          end
      end
  | MatchURL u =>
      let* text := serialize u ExcludeFragment_No in
      let* parts := url_parts u in
      Ret (inr (Some ([InputString text], parts)))
  end.

Definition pattern_components (p : Pattern) : list Component :=
  [m_protocol_component p; m_username_component p; m_password_component p; m_hostname_component p; m_port_component p;
   m_pathname_component p; m_search_component p; m_hash_component p].

(** Steps 14 to 21: all expressions run before the first that fails *)
Fixpoint exec_components (components : list Component) (parts : list bytes) : option (list (Component * bytes * RegexResult)) :=
  match components, parts with
  | component :: components, part :: parts =>
      let exec_result := regex_match (c_regular_expression component) part in
      if negb (rx_success exec_result) then None
      else cons (component, part, exec_result) <$> exec_components components parts
  | _, _ => Some []
  end.

Fixpoint match_results (execs : list (Component * bytes * RegexResult)) : res (list ComponentResult) :=
  match execs with
  | [] => Ret []
  | (component, part, exec_result) :: execs =>
      let* result := create_match_result component part exec_result in
      let* results := match_results execs in
      Ret (result :: results)
  end.

(** [Pattern::match] *)
Definition pattern_match (p : Pattern) (input : MatchInput) (base_url_string : option bytes) : res (PatternErrorOr (option Result)) :=
  try* found := match_parts input base_url_string in
  match found with
  | None => Ret (inr None)
  | Some (inputs, parts) =>
      match exec_components (pattern_components p) parts with
      | None => Ret (inr None)
      | Some execs =>
          let* results := match_results execs in
          match results with
          | [protocol; username; password; hostname; port; pathname; search; hash] =>
              Ret (inr (Some {| r_inputs := inputs; r_protocol := protocol; r_username := username; r_password := password;
                                r_hostname := hostname; r_port := port; r_pathname := pathname; r_search := search; r_hash := hash |}))
          | _ => Crash
          end
      end
  end.

(** [Pattern::has_regexp_groups] *)
Definition pattern_has_regexp_groups (p : Pattern) : bool := existsb c_has_regexp_groups (pattern_components p).

End pattern.

(** ** Facts *)

Section facts.
Context `{LookupTablesLaws, IcuLaws, SimdutfLaws, FastFloatLaws, SimdutfCountLaws, IcuIdentifiers, RegexEngine}.

(** ** Creating *)

(** A component that was compiled from text of its pattern *)
Definition compiled (component : Component) : Prop :=
  exists text callback options, well_formed_utf8 text /\ Z.of_nat (length text) < 2 ^ 32 /\ options_ok options /\ canonical callback
    /\ compile text callback options = Ret (inr component).

Definition text_32 (text : bytes) : Prop := well_formed_utf8 text /\ Z.of_nat (length text) < 2 ^ 32.

Lemma compiled_intro text callback options component : text_32 text -> options_ok options -> canonical callback ->
  compile text callback options = Ret (inr component) -> compiled component.
Proof. intros [Hw Hl] Ho Hc E. by exists text, callback, options. Qed.

Lemma options_fit ignore_case : options_ok default_options /\ options_ok hostname_options /\ options_ok (with_ignore_case default_options ignore_case)
  /\ options_ok (with_ignore_case pathname_options ignore_case).
Proof. unfold options_ok. cbn. lia. Qed.

(** [TRY] of a component *)
Lemma try_component {A} (r : res (PatternErrorOr Component)) (k : Component -> res (PatternErrorOr A)) (a : A) (Q : Prop) :
  (try* c := r in k c) = Ret (inr a) -> (forall c, r = Ret (inr c) -> k c = Ret (inr a) -> Q) -> Q.
Proof. destruct r as [[error|c]|]; cbn [res_bind]; [done| |done]. intros E HQ. by apply (HQ c). Qed.

Lemma compiled_components protocol username password hostname port pathname search hash ignore_case p :
  Forall text_32 [protocol; username; password; hostname; port; pathname; search; hash] ->
  compile_components protocol username password hostname port pathname search hash ignore_case = Ret (inr p) ->
  Forall compiled (pattern_components p).
Proof.
  intros Ht E. rewrite !Forall_cons in Ht. destruct Ht as (T1 & T2 & T3 & T4 & T5 & T6 & T7 & T8 & _).
  destruct (options_fit ignore_case) as (O1 & O2 & O3 & O4). unfold compile_components in E.
  eapply try_component; [exact E|]. clear E. intros c1 E1 E.
  eapply try_component; [exact E|]. clear E. intros c2 E2 E.
  eapply try_component; [exact E|]. clear E. intros c3 E3 E.
  eapply try_component; [exact E|]. clear E. intros c4 E4 E.
  eapply try_component; [exact E|]. clear E. intros c5 E5 E. cbv zeta in E.
  eapply try_component; [exact E|]. clear E. intros c6 E6 E.
  eapply try_component; [exact E|]. clear E. intros c7 E7 E.
  eapply try_component; [exact E|]. clear E. intros c8 E8 [= <-]. unfold pattern_components. cbn.
  assert (C4 : compiled c4).
  { destruct (hostname_pattern_is_an_ipv6_address hostname); [apply (compiled_intro _ _ _ _ T4 O2 (proj1 ipv6_hostname_canonical) E4)|].
    apply (compiled_intro _ _ _ _ T4 O2 hostname_canonical E4). }
  assert (C6 : compiled c6).
  { destruct (protocol_component_matches_a_special_scheme c1); [apply (compiled_intro _ _ _ _ T6 O4 pathname_canonical E6)|].
    apply (compiled_intro _ _ _ _ T6 O3 opaque_pathname_canonical E6). }
  repeat (apply Forall_cons; split); [| | |exact C4| |exact C6| | |apply Forall_nil_2].
  - exact (compiled_intro _ _ _ _ T1 O1 (proj1 protocol_canonical) E1).
  - exact (compiled_intro _ _ _ _ T2 O1 (proj1 username_canonical) E2).
  - exact (compiled_intro _ _ _ _ T3 O1 (proj1 password_canonical) E3).
  - exact (compiled_intro _ _ _ _ T5 O1 (port_canonical None) E5).
  - exact (compiled_intro _ _ _ _ T7 O3 search_canonical E7).
  - exact (compiled_intro _ _ _ _ T8 O3 hash_canonical E8).
Qed.

(** The members that the components are compiled from fit in 32 bits. *)
Definition processed_32 (init : Init) : Prop :=
  forall i, process_a_url_pattern_init init ProcessPattern None None None None None None None None = Ret (inr i) ->
    Forall (fun m => forall v, m = Some v -> Z.of_nat (length v) < 2 ^ 32) (members i).

Lemma created_components input base_url init ignore_case p : init_of_input input base_url = Ret (inr init) -> init_short init -> processed_32 init ->
  pattern_create input base_url ignore_case = Ret (inr p) -> Forall compiled (pattern_components p).
Proof.
  intros Hinput Hshort H32 E. unfold pattern_create in E. rewrite Hinput in E. cbn [res_bind] in E.
  destruct (process_init_ok init ProcessPattern empty_init Hshort) as (r & Er & Hr); [unfold init_for; by repeat (constructor; [done|])|].
  cbn [i_protocol i_username i_password i_hostname i_port i_pathname i_search i_hash empty_init] in Er.
  rewrite Er in E. destruct r as [error|i]; cbn [res_bind] in E; [done|]. destruct (Hr i eq_refl) as (Hfor & _). specialize (H32 i Er). clear Hr.
  assert (Hstar : text_32 (sv "*")) by (split; [apply well_formed_ascii; by repeat constructor|done]).
  assert (Hmem : forall m, m ∈ members i -> text_32 (default (sv "*") m)).
  { intros [v|] Hm; [|done]. unfold init_for in Hfor. rewrite Forall_forall in Hfor, H32. split; [by apply (Hfor _ Hm)|by apply (H32 _ Hm)]. }
  assert (Hport : forall port, pattern_port (default (sv "*") (i_protocol i)) (default (sv "*") (i_port i)) = Ret port -> text_32 port).
  { intros port. pose proof (Hmem (i_port i) ltac:(unfold members; rewrite !elem_of_cons; tauto)) as Hp. unfold pattern_port.
    destruct (is_special_scheme _); [|by intros [= <-]]. destruct (parse_number _ _ _); [|by intros [= <-]].
    destruct (unwrap _) as [d|]; [|done]. cbn [res_bind]. intros [= <-]. destruct (_ =? _); [|done].
    split; [by apply encode_wf with (cps := [])|done]. }
  destruct (pattern_port _ _) as [port|] eqn:Ep; [|done]. cbn [res_bind] in E. specialize (Hport port eq_refl).
  eapply compiled_components; [|exact E].
  repeat (apply Forall_cons; split; [first [exact Hport|apply Hmem; unfold members; rewrite !elem_of_cons; tauto]|]). apply Forall_nil_2.
Qed.

(** ** Matching *)

(** The expression of the component matches the part. *)
Definition matches (component : Component) (part : bytes) : Prop := rx_success (regex_match (c_regular_expression component) part) = true.

Definition exec_of (component : Component) (part : bytes) : Component * bytes * RegexResult :=
  (component, part, regex_match (c_regular_expression component) part).

Lemma exec_components_spec components parts : length components = length parts ->
  match exec_components components parts with
  | None => ~ Forall2 matches components parts
  | Some execs => Forall2 matches components parts /\ execs = zip_with exec_of components parts
  end.
Proof.
  revert parts. induction components as [|c components IH]; intros [|part parts] Hlen; try done.
  cbn [exec_components]. cbv zeta. specialize (IH parts ltac:(by injection Hlen)).
  destruct (rx_success (regex_match (c_regular_expression c) part)) eqn:Es; cbn [negb].
  2:{ intros Hall. apply Forall2_cons in Hall as [Hall _]. unfold matches in Hall. congruence. }
  destruct (exec_components components parts) as [execs|]; cbn [fmap option_fmap option_map].
  - destruct IH as [Hall ->]. by split; [constructor|].
  - intros Hall. by apply Forall2_cons in Hall as [_ Hall].
Qed.

(** The results, if there are any, are those of the parts. *)
Lemma match_results_inputs components parts results : length components = length parts ->
  match_results (zip_with exec_of components parts) = Ret results -> cr_input <$> results = parts.
Proof.
  revert parts results. induction components as [|c components IH]; intros [|part parts] results Hlen; try done; [by intros [= <-]|].
  cbn [zip_with match_results]. unfold exec_of at 1, create_match_result. destruct (match_groups _ _ _ _ _) as [groups|]; [|done]. cbn [res_bind].
  destruct (match_results _) as [rest|] eqn:Er; [|done]. cbn [res_bind]. intros [= <-]. cbn. f_equal. apply IH; [by injection Hlen|exact Er].
Qed.

(** They are there when every match has its captures. *)
Lemma match_results_captured components parts :
  Forall2 (fun c part => captured c (regex_match (c_regular_expression c) part)) components parts ->
  exists results, match_results (zip_with exec_of components parts) = Ret results
    /\ Forall2 (fun c result => (cr_groups result).*1 = c_group_name_list c) components results.
Proof.
  induction 1 as [|c part components parts Hc _ (results & Hr & Hg)]; [exists []; by split; constructor|].
  cbn [zip_with match_results]. unfold exec_of at 1. rewrite match_result_spec by done. cbn [res_bind]. rewrite Hr. cbn [res_bind].
  eexists. split; [done|]. constructor; [|done]. cbn. apply fst_zip. destruct Hc. lia.
Qed.

Definition result_components (r : Result) : list ComponentResult :=
  [r_protocol r; r_username r; r_password r; r_hostname r; r_port r; r_pathname r; r_search r; r_hash r].

(** The texts that are matched: those of the members of the record, the host,
    port and path serialized *)
Record matched_texts (u : URL) (hostname port_text pathname : bytes) : Prop := {
  texts_host : match host u with Some h => host_serialize h = Ret hostname | None => hostname = [] end;
  texts_port : match port u with Some n => format_decimal n = Ret port_text | None => port_text = [] end;
  texts_path : serialize_path u = Ret pathname
}.

Lemma url_parts_texts u : url_ok u -> exists hostname port_text pathname, matched_texts u hostname port_text pathname.
Proof.
  intros Hu. pose proof (ok_front u Hu) as Hf. destruct (base_path_ascii u Hu) as (path & Hpath & _).
  destruct (base_host_ascii u Hu) as (h & Hh & _).
  assert (Hport : exists t, match port u with Some n => format_decimal n = Ret t | None => t = [] end).
  { destruct (port u) as [n|] eqn:Hn; [|by exists []]. pose proof (front_port u Hf) as Hp. unfold url_port_ok in Hp. rewrite Hn in Hp.
    destruct (decimal_ascii n ltac:(lia)) as (t & Ht & _). by exists t. }
  destruct Hport as (t & Ht). exists h, t, path. split; [|done|done]. destruct (host u); [done|by injection Hh].
Qed.

Lemma url_parts_value u hostname port_text pathname : matched_texts u hostname port_text pathname ->
  url_parts u = Ret [scheme u; username u; password u; hostname; port_text; pathname; default [] (query u); default [] (fragment u)].
Proof.
  intros [Hh Hp Hpath]. unfold url_parts. rewrite Hpath. destruct (host u); [rewrite Hh|rewrite Hh]; cbn [res_bind];
    (destruct (port u); rewrite Hp; done).
Qed.

(** What matching does behind the parts *)
Lemma matched_parts (p : Pattern) input inputs parts : length parts = 8%nat -> match_parts input None = Ret (inr (Some (inputs, parts))) ->
  (pattern_match p input None = Ret (inr None) <-> ~ Forall2 matches (pattern_components p) parts)
  /\ (forall result, pattern_match p input None = Ret (inr (Some result)) ->
        Forall2 matches (pattern_components p) parts /\ cr_input <$> result_components result = parts)
  /\ (Forall2 matches (pattern_components p) parts ->
      Forall2 (fun c part => captured c (regex_match (c_regular_expression c) part)) (pattern_components p) parts ->
      exists result, pattern_match p input None = Ret (inr (Some result))
        /\ Forall2 (fun c result => (cr_groups result).*1 = c_group_name_list c) (pattern_components p) (result_components result)).
Proof.
  intros Hlen Hparts. unfold pattern_match. rewrite Hparts. cbn [res_bind].
  assert (Hl : length (pattern_components p) = length parts) by (by rewrite Hlen). pose proof (exec_components_spec _ _ Hl) as Hexec.
  destruct (exec_components (pattern_components p) parts) as [execs|]; [|split; [done|]; split; [done|]; intros Hall; by destruct Hexec].
  destruct Hexec as [Hall ->]. split; [|split].
  - split; [|done]. destruct (match_results _) as [results|]; [|done]. cbn [res_bind].
    by destruct results as [|r1 [|r2 [|r3 [|r4 [|r5 [|r6 [|r7 [|r8 [|r9 rest]]]]]]]]].
  - intros result. destruct (match_results _) as [results|] eqn:Er; [|done]. cbn [res_bind]. pose proof (match_results_inputs _ _ _ Hl Er) as Hin.
    destruct results as [|r1 [|r2 [|r3 [|r4 [|r5 [|r6 [|r7 [|r8 [|r9 rest]]]]]]]]]; try done. intros [= <-]. by split.
  - intros _ Hcap. destruct (match_results_captured _ _ Hcap) as (results & -> & Hg). cbn [res_bind]. pose proof (Forall2_length _ _ _ Hg) as Hr.
    destruct results as [|r1 [|r2 [|r3 [|r4 [|r5 [|r6 [|r7 [|r8 [|r9 rest]]]]]]]]]; try done. by eexists.
Qed.

(** A URL and its text have the same parts. *)
Lemma text_parts u text : url_ok u -> no_trailing_space u -> serialize u ExcludeFragment_No = Ret text -> Z.of_nat (length text) < 2 ^ 62 ->
  match_parts (MatchString text) None = match_parts (MatchURL u) None.
Proof.
  intros Hu Hspace Htext Hlen. unfold match_parts. cbn [res_bind]. rewrite (serialize_parse u text) by done. by rewrite Htext.
Qed.

End facts.

(** ** Properties *)

(** C15: for every regular expression engine, a pattern matches a URL exactly
    when its eight expressions match, in this order, the scheme, the username,
    the password, the serialized host and port (empty if the URL has none), the
    serialized path, the query and the fragment (empty if it has none): matching
    returns nothing if one of them fails, a result only if none fails, and does
    return one if the engine captures what the components have names for.  In
    the result each component has its part of the URL as input, and its groups
    are the names of the component in order.  Matching the text of the URL,
    whose opaque path does not end in a space, gives the very same. *)
Theorem pattern_match_correct `{LookupTablesLaws, IcuLaws, SimdutfLaws, FastFloatLaws, SimdutfCountLaws, IcuIdentifiers, RegexEngine}
    (p : Pattern) (u : URL) (Hu : url_ok u) :
  exists hostname port_text pathname, matched_texts u hostname port_text pathname
    /\ let parts := [scheme u; username u; password u; hostname; port_text; pathname; default [] (query u); default [] (fragment u)] in
       (pattern_match p (MatchURL u) None = Ret (inr None) <-> ~ Forall2 matches (pattern_components p) parts)
       /\ (forall result, pattern_match p (MatchURL u) None = Ret (inr (Some result)) ->
             Forall2 matches (pattern_components p) parts /\ cr_input <$> result_components result = parts)
       /\ (Forall2 matches (pattern_components p) parts ->
           Forall2 (fun c part => captured c (regex_match (c_regular_expression c) part)) (pattern_components p) parts ->
           exists result, pattern_match p (MatchURL u) None = Ret (inr (Some result))
             /\ Forall2 (fun c result => (cr_groups result).*1 = c_group_name_list c) (pattern_components p) (result_components result))
       /\ forall text, no_trailing_space u -> serialize u ExcludeFragment_No = Ret text -> Z.of_nat (length text) < 2 ^ 62 ->
            pattern_match p (MatchString text) None = pattern_match p (MatchURL u) None.
Proof.
  destruct (url_parts_texts u Hu) as (hostname & port_text & pathname & Ht). exists hostname, port_text, pathname. split; [done|]. intros parts.
  destruct (serialize_ok u ExcludeFragment_No Hu) as [href Hhref].
  destruct (matched_parts p (MatchURL u) [InputString href] parts eq_refl) as (H1' & H2' & H3').
  { unfold match_parts. rewrite Hhref. cbn [res_bind]. by rewrite (url_parts_value u hostname port_text pathname Ht). }
  split; [done|]. split; [done|]. split; [done|]. intros text Hspace Htext Hlen. unfold pattern_match. by rewrite (text_parts u text).
Qed.

(** The pattern https://example.com/:id *)
Definition id_init : Init :=
  {| i_protocol := Some (sv "https"); i_username := None; i_password := None; i_hostname := Some (sv "example.com"); i_port := Some [];
     i_pathname := Some (sv "/:id"); i_search := None; i_hash := None; i_base_url := None |}.

Lemma pattern_match_correct_witness :
  exists p u result, pattern_create (InputInit id_init) None false = Ret (inr p)
    /\ basic_parse (sv "https://example.com/x?q#f") None None = Ret (Some u)
    /\ pattern_match p (MatchURL u) None = Ret (inr (Some result))
    /\ cr_input <$> result_components result = [sv "https"; []; []; sv "example.com"; []; sv "/x"; sv "q"; sv "f"].
Proof.
  destruct (pattern_create (InputInit id_init) None false) as [[error|p]|] eqn:Ep; [vm_compute in Ep; discriminate| |vm_compute in Ep; discriminate].
  destruct (basic_parse (sv "https://example.com/x?q#f") None None) as [[u|]|] eqn:Eu; [|vm_compute in Eu; discriminate..].
  destruct (pattern_match_correct p u) as (hostname & port_text & pathname & [Hh Hp Hpath] & _ & Hres & _).
  { destruct (basic_parse_ok (sv "https://example.com/x?q#f") None None) as (r & Er & Hok); [by apply fits_decide|done|].
    rewrite Eu in Er. injection Er as <-. by apply Hok. }
  destruct (pattern_match p (MatchURL u) None) as [[error|[result|]]|] eqn:Em; [| |exfalso..].
  1,3,4: vm_compute in Ep; injection Ep as <-; vm_compute in Eu; injection Eu as <-; vm_compute in Em; discriminate.
  exists p, u, result. split; [done|]. split; [done|]. split; [done|]. destruct (Hres result eq_refl) as [_ ->].
  vm_compute in Eu. injection Eu as <-. cbn in Hh, Hp. injection Hh as <-. rewrite Hp. vm_compute in Hpath. injection Hpath as <-. reflexivity.
Defined.

(** A pattern that was created without custom regular expressions: the
    expression of each component has as many groups as the component has names,
    and the names are distinct. *)
Theorem created_pattern_groups `{LookupTablesLaws, IcuLaws, SimdutfLaws, FastFloatLaws, SimdutfCountLaws, IcuIdentifiers, RegexEngine}
    (input : PatternInput) (base_url : option bytes) (init : Init) (ignore_case : bool) (p : Pattern)
    (Hinput : init_of_input input base_url = Ret (inr init)) (Hshort : init_short init) (H32 : processed_32 init)
    (Hcreate : pattern_create input base_url ignore_case = Ret (inr p)) (Hno : pattern_has_regexp_groups p = false) :
  Forall (fun c => NoDup (c_group_name_list c)
    /\ exists text flag, regex_compile text flag = inr (c_regular_expression c) /\ count_groups false text = Some (length (c_group_name_list c)))
    (pattern_components p).
Proof.
  pose proof (created_components input base_url init ignore_case p Hinput Hshort H32 Hcreate) as Hc. apply existsb_false_forall in Hno.
  rewrite !Forall_forall in *. intros c Hin. destruct (Hc c Hin) as (text & callback & options & Hw & Hl & Ho & Hcan & Ec).
  destruct (component_groups text options callback c Hw Hl Ho Hcan Ec (Hno c Hin)) as [Hnd (regexp & Hr & Hg)]. split; [done|]. by exists regexp, (PatternParts.ignore_case options).
Qed.

Lemma id_init_short : init_short id_init /\ processed_32 id_init.
Proof.
  assert (Htext : forall s, forallb (fun b => (0 <=? b) && (b <? 128)) s = true -> (Z.of_nat (length s) <? 2 ^ 60) = true -> short_member (Some s)).
  { intros s Hs Hl ? [= <-]. split; [|lia]. apply well_formed_ascii. apply forallb_Forall_iff in Hs. eapply Forall_impl; [exact Hs|]. cbn. lia. }
  split; [split|].
  - unfold members. repeat (constructor; [first [by apply Htext|done]|]). constructor.
  - done.
  - intros text u [=].
  - intros i Hi. vm_compute in Hi. injection Hi as <-. unfold members. cbn. repeat (constructor; [first [by intros ? [= <-]|done]|]). constructor.
Qed.

Lemma created_pattern_groups_witness :
  exists p, pattern_create (InputInit id_init) None false = Ret (inr p) /\ Forall (fun c => NoDup (c_group_name_list c)) (pattern_components p).
Proof.
  destruct (pattern_create (InputInit id_init) None false) as [[error|p]|] eqn:Ep; [vm_compute in Ep; discriminate| |vm_compute in Ep; discriminate].
  exists p. split; [done|]. eapply Forall_impl; [apply (created_pattern_groups (InputInit id_init) None id_init false p)|by intros c [? _]].
  - reflexivity.
  - apply id_init_short.
  - apply id_init_short.
  - exact Ep.
  - vm_compute in Ep. injection Ep as <-. reflexivity.
Defined.

(** ** Examples *)

(** A scheme that is special but has no default port: the value of an empty
    optional is taken. *)
Lemma file_port_crashes :
  pattern_create (InputInit {| i_protocol := Some (sv "file"); i_username := None; i_password := None; i_hostname := None; i_port := Some (sv "80");
                       i_pathname := None; i_search := None; i_hash := None; i_base_url := None |}) None false = Crash.
Proof. vm_compute. reflexivity. Qed.

(** Fixed text that is a default port becomes empty, and then there is no first
    code point to look at. *)
Lemma default_port_text_crashes :
  pattern_create (InputInit {| i_protocol := None; i_username := None; i_password := None; i_hostname := None; i_port := Some (sv ":x{443}");
                       i_pathname := None; i_search := None; i_hash := None; i_base_url := None |}) None false = Crash.
Proof. vm_compute. reflexivity. Qed.

(** A path that leaves its own directory: the slash of the root stays. *)
Lemma pathname_of_parent : canonicalize_a_pathname (sv "x/../..") = Ret (sv "/").
Proof. vm_compute. reflexivity. Qed.
