(* ===== verification/FloatTables.v ===== *)
(** * The lookup tables of the conversion of doubles to decimals:
      [AK/StringFloatingPointConversions.cpp], [lookup_table<double>]

    Each entry of [lookup_table_lt] and [lookup_table_ge] is the low and the high
    word of a multiplier.  The file also holds certificates for them: a pair of
    numbers for each multiplier that is not exact, which show how far the
    products of 55-bit numbers stay away from the next integer (see
    [FloatToDecimal]). *)

From S2P Require Import Prelude.
Local Open Scope Z_scope.

Definition lookup_table_lt : list (Z * Z) :=
  [(0x0000000000000001, 0x0000000000000000); (0x0000000000000005, 0x0000000000000000);
   (0x0000000000000019, 0x0000000000000000); (0x000000000000007d, 0x0000000000000000);
   (0x0000000000000271, 0x0000000000000000); (0x0000000000000c35, 0x0000000000000000);
   (0x0000000000003d09, 0x0000000000000000); (0x000000000001312d, 0x0000000000000000);
   (0x000000000005f5e1, 0x0000000000000000); (0x00000000001dcd65, 0x0000000000000000);
   (0x00000000009502f9, 0x0000000000000000); (0x0000000002e90edd, 0x0000000000000000);
   (0x000000000e8d4a51, 0x0000000000000000); (0x0000000048c27395, 0x0000000000000000);
   (0x000000016bcc41e9, 0x0000000000000000); (0x000000071afd498d, 0x0000000000000000);
   (0x0000002386f26fc1, 0x0000000000000000); (0x000000b1a2bc2ec5, 0x0000000000000000);
   (0x000003782dace9d9, 0x0000000000000000); (0x00001158e460913d, 0x0000000000000000);
   (0x000056bc75e2d631, 0x0000000000000000); (0x0001b1ae4d6e2ef5, 0x0000000000000000);
   (0x000878678326eac9, 0x0000000000000000); (0x002a5a058fc295ed, 0x0000000000000000);
   (0x00d3c21bcecceda1, 0x0000000000000000); (0x0422ca8b0a00a425, 0x0000000000000000);
   (0x14adf4b7320334b9, 0x0000000000000000); (0x6765c793fa10079d, 0x0000000000000000);
   (0x04fce5e3e2502611, 0x0000000000000002); (0x18f07d736b90be55, 0x000000000000000a);
   (0x7cb2734119d3b7a9, 0x0000000000000032); (0x6f7c40458122964d, 0x00000000000000fc);
   (0x2d6d415b85acef81, 0x00000000000004ee); (0xe32246c99c60ad85, 0x00000000000018a6);
   (0x6fab61f00de36399, 0x0000000000007b42); (0x2e58e9b04570f1fd, 0x000000000002684c);
   (0xe7bc90715b34b9f1, 0x00000000000c097c); (0x86aed236c807a1b5, 0x00000000003c2f70);
   (0xa16a1b11e8262889, 0x00000000012ced32); (0x2712875988becaad, 0x0000000005e0a1fd);
   (0xc35ca4bfabb9f561, 0x000000001d6329f1); (0xd0cf37be5aa1cae5, 0x0000000092efd1b8);
   (0x140c16b7c528f679, 0x00000002deaf189c); (0x643c7196d9ccd05d, 0x0000000e596b7b0c);
   (0xf52e37f2410011d1, 0x00000047bf19673d); (0xc9e717bb45005915, 0x00000166bb7f0435);
   (0xf18376a85901bd69, 0x00000701a97b150c); (0xb7915149bd08b30d, 0x000023084f676940);
   (0x95d69670b12b7f41, 0x0000af298d050e43); (0xed30f03375d97c45, 0x00036bcfc1194751);
   (0xa1f4b1014d3f6d59, 0x00111b0ec57e6499); (0x29c77506823d22bd, 0x00558749db77f700);
   (0xd0e549208b31adb1, 0x01aba4714957d300); (0x147a6da2b7f86475, 0x085a36366eb71f04);
   (0x33321216cbecfb24, 0x14e1878814c9cd8a); (0xbffe969c7ee839ed, 0x1a19e96a19fc40ec);
   (0xf7ff1e21cf512434, 0x105031e2503da893); (0xf5fee5aa43256d41, 0x14643e5ae44d12b8);
   (0x337e9f14d3eec892, 0x197d4df19d605767); (0x802f236d04753d5b, 0x0fee50b7025c36a0);
   (0xa03aec4845928cb2, 0x13e9e4e4c2f34448); (0xc849a75a56f72fde, 0x18e45e1df3b0155a);
   (0x7a5c1130ecb4fbd6, 0x1f1d75a5709c1ab1); (0xec798abe93f11d65, 0x13726987666190ae);
   (0xa797ed6e38ed64bf, 0x184f03e93ff9f4da); (0x517de8c9c728bdef, 0x1e62c4e38ff87211);
   (0xd2eeb17e1c7976b5, 0x12fdbb0e39fb474a); (0x87aa5ddda397d462, 0x17bd29d1c87a191d);
   (0xe994f5550c7dc97b, 0x1dac74463a989f64); (0x11fd195527ce9ded, 0x128bc8abe49f639f);
   (0xd67c5faa71c24568, 0x172ebad6ddc73c86); (0x8c1b77950e32d6c2, 0x1cfa698c95390ba8);
   (0x57912abd28dfc639, 0x121c81f7dd43a749); (0xad75756c7317b7c8, 0x16a3a275d494911b);
   (0x98d2d2c78fdda5ba, 0x1c4c8b1349b9b562); (0x9f83c3bcb9ea8794, 0x11afd6ec0e14115d);
   (0x0764b4abe8652979, 0x161bcca7119915b5); (0x493de1d6e27e73d7, 0x1ba2bfd0d5ff5b22);
   (0x6dc6ad264d8f0866, 0x1145b7e285bf98f5); (0xc938586fe0f2ca80, 0x159725db272f7f32);
   (0x7b866e8bd92f7d20, 0x1afcef51f0fb5eff); (0xad34051767bdae34, 0x10de1593369d1b5f);
   (0x9881065d41ad19c1, 0x15159af804446237); (0x7ea147f492186032, 0x1a5b01b605557ac5);
   (0x6f24ccf8db4f3c1f, 0x1078e111c3556cbb); (0x4aee003712230b27, 0x14971956342ac7ea);
   (0xdda98044d6abcdf0, 0x19bcdfabc13579e4); (0x0a89f02b062b60b6, 0x10160bcb58c16c2f);
   (0xcd2c6c35c7b638e4, 0x141b8ebe2ef1c73a); (0x8077874339a3c71d, 0x1922726dbaae3909);
   (0xe0956914080cb8e4, 0x1f6b0f092959c74b); (0x6c5d61ac8507f38e, 0x13a2e965b9d81c8f);
   (0x4774ba17a649f072, 0x188ba3bf284e23b3); (0x1951e89d8fdc6c8f, 0x1eae8caef261aca0);
   (0x0fd3316279e9c3d9, 0x132d17ed577d0be4); (0x13c7fdbb186434cf, 0x17f85de8ad5c4edd);
   (0x58b9fd29de7d4203, 0x1df67562d8b36294); (0xb7743e3a2b0e4942, 0x12ba095dc7701d9c);
   (0xe5514dc8b5d1db92, 0x17688bb5394c2503); (0xdea5a13ae3465277, 0x1d42aea2879f2e44);
   (0x0b2784c4ce0bf38a, 0x1249ad2594c37ceb); (0xcdf165f6018ef06d, 0x16dc186ef9f45c25);
   (0x416dbf7381f2ac88, 0x1c931e8ab871732f); (0x88e497a83137abd5, 0x11dbf316b346e7fd);
   (0xeb1dbd923d8596ca, 0x1652efdc6018a1fc); (0x25e52cf6cce6fc7d, 0x1be7abd3781eca7c);
   (0x97af3c1a40105dce, 0x1170cb642b133e8d); (0xfd9b0b20d0147542, 0x15ccfe3d35d80e30);
   (0x3d01cde904199292, 0x1b403dcc834e11bd); (0x462120b1a28ffb9b, 0x1108269fd210cb16);
   (0xd7a968de0b33fa82, 0x154a3047c694fddb); (0xcd93c3158e00f923, 0x1a9cbc59b83a3d52);
   (0xc07c59ed78c09bb6, 0x10a1f5b813246653); (0xb09b7068d6f0c2a3, 0x14ca732617ed7fe8);
   (0xdcc24c830cacf34c, 0x19fd0fef9de8dfe2); (0xc9f96fd1e7ec180f, 0x103e29f5c2b18bed);
   (0x3c77cbc661e71e13, 0x144db473335deee9); (0x8b95beb7fa60e598, 0x1961219000356aa3);
   (0x373d9732fc7c8f7f, 0x0fdcb4fa002162a6); (0xc50cfcffbb9bb35f, 0x13d3e2388029bb4f);
   (0xb6503c3faa82a037, 0x18c8dac6a0342a23); (0xa3e44b4f95234844, 0x1efb1178484134ac);
   (0xe66eaf11bd360d2b, 0x135ceaeb2d28c0eb); (0xe00a5ad62c839075, 0x183425a5f872f126);
   (0x980cf18bb7a47493, 0x1e412f0f768fad70); (0x5f0816f752c6c8dc, 0x12e8bd69aa19cc66);
   (0xf6ca1cb527787b13, 0x17a2ecc414a03f7f); (0xf47ca3e2715699d7, 0x1d8ba7f519c84f5f);
   (0xf8cde66d86d62026, 0x127748f9301d319b); (0xf7016008e88ba830, 0x17151b377c247e02);
   (0xb4c1b80b22ae923c, 0x1cda62055b2d9d83); (0x50f91306f5ad1b65, 0x12087d4358fc8272);
   (0xe53757c8b318623f, 0x168a9c942f3ba30e); (0x9e852dbadfde7acf, 0x1c2d43b93b0a8bd2);
   (0xa3133c94cbeb0cc1, 0x119c4a53c4e69763); (0x8bd80bb9fee5cff1, 0x16035ce8b6203d3c);
   (0xaece0ea87e9f43ee, 0x1b843422e3a84c8b); (0x4d40c9294f238a75, 0x1132a095ce492fd7);
   (0x2090fb73a2ec6d12, 0x157f48bb41db7bcd); (0x68b53a508ba78856, 0x1adf1aea12525ac0);
   (0x417144725748b536, 0x10cb70d24b7378b8); (0x51cd958eed1ae283, 0x14fe4d06de5056e6);
   (0xe640faf2a8619b24, 0x1a3de04895e46c9f); (0xefe89cd7a93d00f7, 0x1066ac2d5daec3e3);
   (0xebe2c40d938c4134, 0x14805738b51a74dc); (0x26db7510f86f5181, 0x19a06d06e2611214);
   (0x9849292a9b4592f1, 0x100444244d7cab4c); (0xbe5b73754216f7ad, 0x1405552d60dbd61f);
   (0xadf25052929cb598, 0x1906aa78b912cba7); (0xccb772339ba1f17f, 0x0fa42a8b73abbf48);
   (0xffe54ec0828a6ddf, 0x138d352e5096af1a); (0xbfdea270a32d0957, 0x18708279e4bc5ae1);
   (0x2fd64b0ccbf84bad, 0x1e8ca3185deb719a); (0x5de5eee7ff7b2f4c, 0x1317e5ef3ab32700);
   (0x755f6aa1ff59fb1f, 0x17dddf6b095ff0c0); (0x92b7454a7f3079e7, 0x1dd55745cbb7ecf0);
   (0x5bb28b4e8f7e4c30, 0x12a5568b9f52f416); (0xf29f2e22335ddf3c, 0x174eac2e8727b11b);
   (0xef46f9aac035570b, 0x1d22573a28f19d62); (0xd58c5c0ab8215667, 0x123576845997025d);
   (0x4aef730d6629ac01, 0x16c2d4256ffcc2f5); (0x9dab4fd0bfb41701, 0x1c73892ecbfbf3b2);
   (0xa28b11e277d08e60, 0x11c835bd3f7d784f); (0x8b2dd65b15c4b1f9, 0x163a432c8f5cd663);
   (0x6df94bf1db35de77, 0x1bc8d3f7b3340bfc); (0xc4bbcf772901ab0a, 0x115d847ad000877d);
   (0x35eac354f34215cd, 0x15b4e5998400a95d); (0x8365742a30129b40, 0x1b221effe500d3b4);
   (0xd21f689a5e0ba108, 0x10f5535fef208450); (0x06a742c0f58e894a, 0x1532a837eae8a565);
   (0x4851137132f22b9d, 0x1a7f5245e5a2cebe); (0xed32ac26bfd75b42, 0x108f936baf85c136);
   (0xa87f57306fcd3212, 0x14b378469b673184); (0xd29f2cfc8bc07e97, 0x19e056584240fde5);
   (0xa3a37c1dd7584f1e, 0x102c35f729689eaf); (0x8c8c5b254d2e62e6, 0x14374374f3c2c65b);
   (0x6faf71eea079fb9f, 0x1945145230b377f2); (0x85cda735244c3d43, 0x0fcb2cb35e702af7);
   (0x674111026d5f4c94, 0x13bdf7e0360c35b5); (0xc111554308b71fba, 0x18ad75d8438f4322);
   (0x7155aa93cae4e7a8, 0x1ed8d34e547313eb); (0x26d58a9c5ecf10c9, 0x13478410f4c7ec73);
   (0xf08aed437682d4fb, 0x1819651531f9e78f); (0xecada89454238a3a, 0x1e1fbe5a7e786173);
   (0x73ec895cb4963664, 0x12d3d6f88f0b3ce8); (0x90e7abb3e1bbc3fd, 0x1788ccb6b2ce0c22);
   (0x352196a0da2ab4fd, 0x1d6affe45f818f2b); (0x0134fe24885ab11e, 0x1262dfeebbb0f97b);
   (0xc1823dadaa715d65, 0x16fb97ea6a9d37d9); (0x31e2cd19150db4bf, 0x1cba7de5054485d0);
   (0x1f2dc02fad2890f7, 0x11f48eaf234ad3a2); (0xa6f9303b9872b535, 0x1671b25aec1d888a);
   (0x50b77c4a7e8f6282, 0x1c0e1ef1a724eaad); (0x5272adae8f199d91, 0x1188d357087712ac);
   (0x670f591a32e004f6, 0x15eb082cca94d757); (0x40d32f60bf980633, 0x1b65ca37fd3a0d2d);
   (0x4883fd9c77bf03e0, 0x111f9e62fe44483c); (0x5aa4fd0395aec4d8, 0x156785fbbdd55a4b);
   (0x314e3c447b1a760e, 0x1ac1677aad4ab0de); (0xded0e5aaccf089c9, 0x10b8e0acac4eae8a);
   (0x96851f15802cac3b, 0x14e718d7d7625a2d); (0xfc2666dae037d74a, 0x1a20df0dcd3af0b8);
   (0x9d980048cc22e68e, 0x10548b68a044d673); (0x84fe005aff2ba032, 0x1469ae42c8560c10);
   (0xa63d8071bef6883e, 0x198419d37a6b8f14); (0xe7e67047175a1527, 0x0ff290242c83396c);
   (0x21e00c58dd309a70, 0x13ef342d37a407c8); (0x2a580f6f147cc10d, 0x18eb0138858d09ba);
   (0x5a7709a56ccdf8a8, 0x0f92e0c353782614); (0x7114cc0ec80176d2, 0x137798f428562f99);
   (0xcd59ff127a01d486, 0x18557f31326bbb7f); (0xc0b07ed7188249a8, 0x1e6adefd7f06aa5f);
   (0xd86e4f466f516e09, 0x1302cb5e6f642a7b); (0xce89e3180b25c98b, 0x17c37e360b3d351a);
   (0x822c5bde0def3bee, 0x1db45dc38e0c8261); (0xf15bb96ac8b58575, 0x1290ba9a38c7d17c);
   (0x2db2a7c57ae2e6d2, 0x1734e940c6f9c5dc); (0x391f51b6d99ba086, 0x1d022390f8b83753);
   (0x03b3931248014454, 0x1221563a9b732294); (0x04a077d6da019569, 0x16a9abc9424feb39);
   (0x45c895cc9081fac3, 0x1c5416bb92e3e607); (0x8b9d5d9fda513cba, 0x11b48e353bce6fc4);
   (0xae84b507d0e58be8, 0x1621b1c28ac20bb5); (0x1a25e249c51eeee3, 0x1baa1e332d728ea3);
   (0xf057ad6e1b33554d, 0x114a52dffc679925); (0x6c6d98c9a2002aa1, 0x159ce797fb817f6f);
   (0x4788fefc0a803549, 0x1b04217dfa61df4b); (0x0cb59f5d8690214e, 0x10e294eebc7d2b8f);
   (0xcfe30734e83429a1, 0x151b3a2a6b9c7672); (0x83dbc9022241340a, 0x1a6208b50683940f);
   (0xb2695da15568c086, 0x107d457124123c89); (0x1f03b509aac2f0a7, 0x149c96cd6d16cbac);
   (0x26c4a24c1573acd1, 0x19c3bc80c85c7e97); (0x783ae56f8d684c03, 0x101a55d07d39cf1e);
   (0x16499ecb70c25f03, 0x1420eb449c8842e6); (0x9bdc067e4cf2f6c4, 0x19292615c3aa539f);
   (0xc169840ef017da3b, 0x0fb9b7cd9a4a7443); (0xb1c3e512ac1dd0c9, 0x13a825c100dd1154);
   (0xde34de57572544fc, 0x18922f31411455a9); (0x55c215ed2cee963b, 0x1eb6bafd91596b14);
   (0xb5994db43c151de5, 0x133234de7ad7e2ec); (0xe2ffa1214b1a655e, 0x17fec216198ddba7);
   (0xdbbf89699de0feb6, 0x1dfe729b9ff15291); (0x2957b5e202ac9f31, 0x12bf07a143f6d39b);
   (0xf3ada35a8357c6fe, 0x176ec98994f48881); (0x70990c31242db8bd, 0x1d4a7bebfa31aaa2);
   (0x865fa79eb69c9376, 0x124e8d737c5f0aa5); (0xe7f791866443b854, 0x16e230d05b76cd4e);
   (0xa1f575e7fd54a669, 0x1c9abd04725480a2); (0xa53969b0fe54e801, 0x11e0b622c774d065);
   (0x0e87c41d3dea2202, 0x1658e3ab7952047f); (0xd229b5248d64aa82, 0x1bef1c9657a6859e);
   (0x435a1136d85eea91, 0x117571ddf6c81383); (0x143095848e76a536, 0x15d2ce55747a1864);
   (0x193cbae5b2144e83, 0x1b4781ead1989e7d); (0x2fc5f4cf8f4cb112, 0x110cb132c2ff630e);
   (0xbbb77203731fdd56, 0x154fdd7f73bf3bd1); (0x2aa54e844fe7d4ac, 0x1aa3d4df50af0ac6);
   (0xdaa75112b1f0e4eb, 0x10a6650b926d66bb); (0xd15125575e6d1e26, 0x14cffe4e7708c06a);
   (0x85a56ead360865b0, 0x1a03fde214caf085); (0x7387652c41c53f8e, 0x10427ead4cfed653);
   (0x50693e7752368f71, 0x14531e58a03e8be8); (0x64838e1526c4334e, 0x1967e5eec84e2ee2);
   (0x7ed238cd383aa011, 0x0fe0efb53d30dd4d); (0xde86c70086494815, 0x13d92ba28c7d14a0);
   (0x162878c0a7db9a1a, 0x18cf768b2f9c59c9); (0xadd94b7868e94050, 0x0f81aa16fdc1b81d);
   (0x194f9e5683239064, 0x1362149cbd322625); (0x5fa385ec23ec747e, 0x183a99c3ec7eafae);
   (0xf78c67672ce7919d, 0x1e494034e79e5b99); (0x3ab7c0a07c10bb02, 0x12edc82110c2f940);
   (0x4965b0c89b14e9c3, 0x17a93a2954f3b790); (0x5bbf1cfac1da2433, 0x1d9388b3aa30a574);
   (0xb957721cb92856a0, 0x127c35704a5e6768); (0xe7ad4ea3e7726c48, 0x171b42cc5cf60142);
   (0xa198a24ce14f075a, 0x1ce2137f74338193); (0x44ff65700cd16498, 0x120d4c2fa8a030fc);
   (0x563f3ecc1005bdbe, 0x16909f3b92c83d3b); (0x2bcf0e7f14072d2e, 0x1c34c70a777a4c8a);
   (0x5b61690f6c847c3d, 0x11a0fc668aac6fd6); (0xf239c35347a59b4c, 0x16093b802d578bcb);
   (0xeec83428198f021f, 0x1b8b8a6038ad6ebe); (0x553d20990ff96153, 0x1137367c236c6537);
   (0x2a8c68bf53f7b9a8, 0x1585041b2c477e85); (0x752f82ef28f5a812, 0x1ae64521f7595e26);
   (0x093db1d57999890b, 0x10cfeb353a97dad8); (0x0b8d1e4ad7ffeb4e, 0x1503e602893dd18e);
   (0x8e7065dd8dffe622, 0x1a44df832b8d45f1); (0xf9063faa78bfefd5, 0x106b0bb1fb384bb6);
   (0xb747cf9516efebca, 0x1485ce9e7a065ea4); (0xe519c37a5cabe6bd, 0x19a742461887f64d);
   (0xaf301a2c79eb7036, 0x1008896bcf54f9f0); (0xdafc20b798664c43, 0x140aabc6c32a386c);
   (0x11bb28e57e7fdf54, 0x190d56b873f4c688); (0x0b14f98f6f0feb95, 0x0fa856334878fc15);
   (0x4dda37f34ad3e67a, 0x13926bc01a973b1a); (0xe150c5f01d88e019, 0x187706b0213d09e0);
   (0x8cd27bb612758c0f, 0x0f4a642e14c6262c); (0xb0071aa39712ef13, 0x131cfd3999f7afb7);
   (0x9c08e14c7cd7aad8, 0x17e43c8800759ba5); (0x030b199f9c0d958e, 0x1ddd4baa0093028f);
   (0x61e6f003c1887d79, 0x12aa4f4a405be199); (0xba60ac04b1ea9cd7, 0x1754e31cd072d9ff);
   (0xa8f8d705de65440d, 0x1d2a1be4048f907f); (0xc99b8663aaff4a88, 0x123a516e82d9ba4f);
   (0xbc0267fc95bf1d2a, 0x16c8e5ca239028e3); (0xab0301fbbb2ee474, 0x1c7b1f3cac74331c);
   (0xeae1e13d54fd4ec9, 0x11ccf385ebc89ff1); (0x659a598caa3ca27b, 0x1640306766bac7ee);
   (0xff00efefd4cbcb1a, 0x1bd03c81406979e9); (0x3f6095f5e4ff5ef0, 0x116225d0c841ec32);
   (0xcf38bb735e3f36ac, 0x15baaf44fa52673e); (0x8306ea5035cf0457, 0x1b295b1638e7010e);
   (0x11e4527221a162b6, 0x10f9d8ede39060a9); (0x565d670eaa09bb64, 0x15384f295c7478d3);
   (0x2bf4c0d2548c2a3d, 0x1a8662f3b3919708); (0x1b78f88374d79a66, 0x1093fdd8503afe65);
   (0x625736a4520d8100, 0x14b8fd4e6449bdfe); (0xfaed044d6690e140, 0x19e73ca1fd5c2d7d);
   (0xbcd422b0601a8cc8, 0x103085e53e599c6e); (0x6c092b5c78212ffa, 0x143ca75e8df0038a);
   (0x070b763396297bf8, 0x194bd136316c046d); (0x246729e03dd9ed7b, 0x0fcf62c1dee382c4);
   (0x2d80f4584d5068da, 0x13c33b72569c6375); (0x78e1316e60a48310, 0x18b40a4eec437c52)].

Definition lookup_table_ge : list (Z * Z) :=
  [(0x0000000000000001, 0x2000000000000000); (0x999999999999999a, 0x1999999999999999);
   (0x47ae147ae147ae15, 0x147ae147ae147ae1); (0x6c8b4395810624de, 0x10624dd2f1a9fbe7);
   (0x7a786c226809d496, 0x1a36e2eb1c432ca5); (0x61f9f01b866e43ab, 0x14f8b588e368f084);
   (0xb4c7f34938583622, 0x10c6f7a0b5ed8d36); (0x87a6520ec08d236a, 0x1ad7f29abcaf4857);
   (0x9fb841a566d74f88, 0x15798ee2308c39df); (0xe62d01511f12a607, 0x112e0be826d694b2);
   (0xd6ae6881cb5109a4, 0x1b7cdfd9d7bdbab7); (0xdef1ed34a2a73aea, 0x15fd7fe17964955f);
   (0x7f27f0f6e885c8bb, 0x119799812dea1119); (0x650cb4be40d60df8, 0x1c25c268497681c2);
   (0xea70909833de7193, 0x16849b86a12b9b01); (0x21f3a6e0297ec143, 0x1203af9ee756159b);
   (0x6985d7cd0f313537, 0x1cd2b297d889bc2b); (0x2137dfd73f5a90f9, 0x170ef54646d49689);
   (0xe75fe645cc4873fa, 0x12725dd1d243aba0); (0xa5663d3c7a0d865d, 0x1d83c94fb6d2ac34);
   (0x511e976394d79eb1, 0x179ca10c9242235d); (0xda7edf82dd794bc1, 0x12e3b40a0e9b4f7d);
   (0x2a6498d1625bac68, 0x1e392010175ee596); (0xeeb6e0a781e2f053, 0x182db34012b25144);
   (0x58924d52ce4f26a9, 0x1357c299a88ea76a); (0x27507bb7b07ea441, 0x1ef2d0f5da7dd8aa);
   (0x52a6c95fc0655034, 0x18c240c4aecb13bb); (0x0eebd44c99eaa690, 0x13ce9a36f23c0fc9);
   (0xb17953adc3110a80, 0x1fb0f6be50601941); (0xc12ddc8b02740867, 0x195a5efea6b34767);
   (0x3424b06f3529a052, 0x14484bfeebc29f86); (0x901d59f290ee19db, 0x1039d66589687f9e);
   (0x4cfbc31db4b0295f, 0x19f623d5a8a73297); (0x3d9635b15d59bab2, 0x14c4e977ba1f5bac);
   (0x97ab5e277de16228, 0x109d8792fb4c4956); (0xf2abc9d8c9689d0d, 0x1a95a5b7f87a0ef0);
   (0x5bbca17a3aba173e, 0x154484932d2e725a); (0xafca1ac82efb45cb, 0x11039d428a8b8eae);
   (0xb2dcf7a6b1920945, 0x1b38fb9daa78e44a); (0xf57d92ebc141a104, 0x15c72fb1552d836e);
   (0xc46475896767b403, 0x116c262777579c58); (0x6d6d88dbd8a5ecd2, 0x1be03d0bf225c6f4);
   (0x8abe071646eb23db, 0x164cfda3281e38c3); (0x6efe6c11d255b649, 0x11d7314f534b609c);
   (0xb197134fb6ef8a0e, 0x1c8b821885456760); (0x27ac0f72f8bfa1a5, 0x16d601ad376ab91a);
   (0xb95672c260994e1e, 0x1244ce242c5560e1); (0xf5571e03cdc21695, 0x1d3ae36d13bbce35);
   (0x2aac18030b01abab, 0x17624f8a762fd82b); (0xbbbce0026f348956, 0x12b50c6ec4f31355);
   (0x92c7ccd0b1eda889, 0x1dee7a4ad4b81eef); (0xdbd30a408e57ba07, 0x17f1fb6f10934bf2);
   (0x7ca8d50071dfc806, 0x1327fc58da0f6ff5); (0xfaa7bb33e9660cd6, 0x1ea6608e29b24cbb);
   (0x9552fc298784d711, 0x18851a0b548ea3c9); (0xaaa8c9bad2d0ac0e, 0x139dae6f76d88307);
   (0xdddadc5e1e1aace3, 0x1f62b0b257c0d1a5); (0x7e48b04b4b488a4f, 0x191bc08eac9a4151);
   (0xcb6d59d5d5d3a1d9, 0x141633a556e1cdda); (0x3c577b1177dc817b, 0x1011c2eaabe7d7e2);
   (0xc6f25e825960cf2a, 0x19b604aaaca62636); (0x6bf518684780a5bb, 0x14919d5556eb51c5);
   (0x232a79ed06008496, 0x10747ddddf22a7d1); (0xd1dd8fe1a3340756, 0x1a53fc9631d10c81);
   (0xa7e4731ae8f66c45, 0x150ffd44f4a73d34); (0x531d28e253f8569e, 0x10d9976a5d52975d);
   (0xeb61db03b98d5762, 0x1af5bf109550f22e); (0xbc4e48cfc7a445e8, 0x159165a6ddda5b58);
   (0x6371d3d96c836b20, 0x11411e1f17e1e2ad); (0x9f1c8628ad9f11cd, 0x1b9b6364f3030448);
   (0xe5b06b53be18db0b, 0x1615e91d8f359d06); (0xeaf3890fcb4715a2, 0x11ab20e472914a6b);
   (0x44b8db4c7871bc37, 0x1c45016d841baa46); (0x03c715d6c6c1635f, 0x169d9abe03495505);
   (0x3638de456bcde919, 0x1217aefe69077737); (0x56c163a2461641c1, 0x1cf2b1970e725858);
   (0xdf011c81d1ab67ce, 0x17288e1271f51379); (0x7f3416ce4155eca5, 0x1286d80ec190dc61);
   (0x6520247d3556476e, 0x1da48ce468e7c702); (0xea801d30f7783925, 0x17b6d71d20b96c01);
   (0xbb99b0f3f92cfa84, 0x12f8ac174d612334); (0x5f5c4e532847f739, 0x1e5aacf215683854);
   (0x7f7d0b75b9d32c2e, 0x18488a5b44536043); (0x9930d5f7c7dc2358, 0x136d3b7c36a919cf);
   (0x8eb4898c72f9d226, 0x1f152bf9f10e8fb2); (0x722a07a38f2e41b8, 0x18ddbcc7f40ba628);
   (0xc1bb394fa5be9afa, 0x13e497065cd61e86); (0x9c5ec2190930f7f6, 0x1fd424d6faf030d7);
   (0x49e56814075a5ff8, 0x197683df2f268d79); (0x6e51201005e1e660, 0x145ecfe5bf520ac7);
   (0xf1da800cd181851a, 0x104bd984990e6f05); (0x4fc400148268d4f5, 0x1a12f5a0f4e3e4d6);
   (0xd96999aa01ed772b, 0x14dbf7b3f71cb711); (0xadee1488018ac5bc, 0x10aff95cc5b09274);
   (0x497ceda668de092c, 0x1ab328946f80ea54); (0x3aca57b853e4d424, 0x155c2076bf9a5510);
   (0x623b7960431d7683, 0x1116805effaeaa73); (0x9d2bf566d1c8bd9e, 0x1b5733cb32b110b8);
   (0x7dbcc452416d647f, 0x15df5ca28ef40d60); (0xcafd69db678ab6cc, 0x117f7d4ed8c33de6);
   (0xab2f0fc572778adf, 0x1bff2ee48e052fd7); (0x88f273045b92d580, 0x1665bf1d3e6a8cac);
   (0xd3f528d049424466, 0x11eaff4a98553d56); (0xb988414d4203a0a3, 0x1cab3210f3bb9557);
   (0x6139cdd76802e6e9, 0x16ef5b40c2fc7779); (0xe761717920025254, 0x125915cd68c9f92d);
   (0xa568b58e999d5086, 0x1d5b561574765b7c); (0x5120913ee14aa6d2, 0x177c44ddf6c515fd);
   (0xa74d40ff1aa21f0e, 0x12c9d0b1923744ca); (0x0baece64f769cb4a, 0x1e0fb44f50586e11);
   (0x3c8bd850c5ee3c3b, 0x180c903f7379f1a7); (0xca0979da37f1c9c9, 0x133d4032c2c7f485);
   (0xa9a8c2f6bfe942db, 0x1ec866b79e0cba6f); (0x2153cf2bccba9be3, 0x18a0522c7e709526);
   (0x1aa9728970954982, 0x13b374f06526ddb8); (0xf775840f1a88759d, 0x1f8587e7083e2f8c);
   (0x5f9136727ba05e17, 0x19379fec0698260a); (0x1940f85b9619e4df, 0x142c7ff0054684d5);
   (0xe100c6afab47ea4c, 0x1023998cd1053710); (0xce67a44c453fdd47, 0x19d28f47b4d524e7);
   (0xd852e9d69dccb106, 0x14a8729fc3ddb71f); (0x79dbee454b0a2738, 0x1086c219697e2c19);
   (0x295fe3a211a9d859, 0x1a71368f0f30468f); (0xbab31c81a7bb137a, 0x15275ed8d8f36ba5);
   (0x6228e39aec95a92f, 0x10ec4be0ad8f8951); (0x9d0e38f7e0ef7517, 0x1b13ac9aaf4c0ee8);
   (0xb0d82d931a592a79, 0x15a956e225d67253); (0x8d79be0f4847552e, 0x11544581b7dec1dc);
   (0x158f967eda0bbb7c, 0x1bba08cf8c979c94); (0x77a611ff14d62f97, 0x162e6d72d6dfb076);
   (0xf951a7ff43de8c79, 0x11bebdf578b2f391); (0xc21c3ffed2fdad8e, 0x1c6463225ab7ec1c);
   (0x01b0333242648ad8, 0x16b6b5b5155ff017); (0x0159c28e9b83a246, 0x122bc490dde659ac);
   (0xcef604175f3903a3, 0x1d12d41afca3c2ac); (0x725e69ac4c2d9c83, 0x17424348ca1c9bbd);
   (0xf5185489d68ae39c, 0x129b69070816e2fd); (0xee8d540fbdab05c6, 0x1dc574d80cf16b2f);
   (0xbed77672fe226b05, 0x17d12a4670c1228c); (0xff12c528cb4ebc04, 0x130dbb6b8d674ed6);
   (0xcb513b74787df9a0, 0x1e7c5f127bd87e24); (0x090dc929f9fe614d, 0x18637f41fcad31b7);
   (0xa0d7d42194cb810a, 0x1382cc34ca2427c5); (0x67bfb9cf5478ce77, 0x1f37ad21436d0c6f);
   (0x1fcc94a5dd2d71f9, 0x18f9574dcf8a7059); (0x7fd6dd517dbdf4c7, 0x13faac3e3fa1f37a);
   (0xffdf17746497f706, 0x0ffbbcfe994e5c61); (0x6631bf20a0f324d6, 0x1992c7fdc216fa36);
   (0xb827cc1a1a5c1d78, 0x14756ccb01abfb5e); (0x935309ae7b7ce460, 0x105df0a267bcc918);
   (0x1eeb42b0c594a099, 0x1a2fe76a3f9474f4); (0xe58902270476e6e1, 0x14f31f8832dd2a5c);
   (0xb7a0ce859d2bebe7, 0x10c27fa028b0eeb0); (0x59014a6f61dfdfd8, 0x1ad0cc33744e4ab4);
   (0xe0cdd525e7e64cad, 0x1573d68f903ea229); (0x4d7177518651d6f1, 0x11297872d9cbb4ee);
   (0x7be8bee8d6e957e8, 0x1b758d848fac54b0); (0xfcba3253df211320, 0x15f7a46a0c89dd59);
   (0x63c8284318e74280, 0x1192e9ee706e4aae); (0x060d0d3827d86a66, 0x1c1e43171a4a1117);
   (0x6b3da42cecad21eb, 0x167e9c127b6e7412); (0x88fe1cf0bd574e56, 0x11fee341fc585cdb);
   (0x419694b462254a23, 0x1ccb0536608d615f); (0x67abaa29e81dd4e9, 0x1708d0f84d3de77f);
   (0xb95621bb2017dd87, 0x126d73f9d764b932); (0xc223692b668c95a5, 0x1d7becc2f23ac1ea);
   (0xce82ba891ed6de1d, 0x179657025b6234bb); (0xa53562074bdf1818, 0x12deac01e2b4f6fc);
   (0x3b889cd87964f359, 0x1e3113363787f194); (0xfc6d4a46c783f5e1, 0x18274291c6065adc);
   (0x30576e9f06032b1a, 0x13529ba7d19eaf17); (0x1a257dcb3cd1de90, 0x1eea92a61c311825);
   (0x481dfe3c30a7e540, 0x18bba884e35a79b7); (0xd34b31c9c0865100, 0x13c9539d82aec7c5);
   (0x5211e942cda3b4cd, 0x1fa885c8d117a609); (0x74db21023e1c90a4, 0x19539e3a40dfb807);
   (0xf715b401cb4a0d50, 0x1442e4fb67196005); (0xf8de299b09080aa7, 0x103583fc527ab337);
   (0x8e304291a80cddd7, 0x19ef3993b72ab859); (0x3e8d020e200a4b13, 0x14bf6142f8eef9e1);
   (0x653d9b3e80083c0f, 0x10991a9bfa58c7e7); (0x6ec8f864000d2ce4, 0x1a8e90f9908e0ca5);
   (0x8bd3f9e999a423ea, 0x153eda614071a3b7); (0x3ca994bae1501cbb, 0x10ff151a99f482f9);
   (0xc775bac49bb3612b, 0x1b31bb5dc320d18e); (0xd2c4956a16291a89, 0x15c162b168e70e0b);
   (0xdbd0778811ba7ba1, 0x11678227871f3e6f); (0x2c80bf401c5d929b, 0x1bd8d03f3e9863e6);
   (0xbd33cc3349e47549, 0x16470cff6546b651); (0xca8fd68f6e505dd4, 0x11d270cc51055ea7);
   (0x4419574be3b3c953, 0x1c83e7ad4e6efdd9); (0x0347790982f63aa9, 0x16cfec8aa52597e1);
   (0xcf6c60d468c4fbba, 0x123ff06eea847980); (0xe57a34870e07f92a, 0x1d331a4b10d3f59a);
   (0x512e906c0b399422, 0x175c1508da432ae2); (0xda8ba6bcd5c7a9b5, 0x12b010d3e1cf5581);
   (0x90df712e22d90f87, 0x1de6815302e5559c); (0xda4c5a8b4f140c6c, 0x17eb9aa8cf1dde16);
   (0xaea37ba2a5a9a38a, 0x1322e220a5b17e78); (0x7dd25f6aa2a905a9, 0x1e9e369aa2b59727);
   (0x97db7f888220d154, 0x187e92154ef7ac1f); (0x797c6606ce80a777, 0x139874ddd8c6234c);
   (0x8f2d700ae4010bf1, 0x1f5a549627a36bad); (0x0c2459a25000d65a, 0x191510781fb5efbe);
   (0x701d1481d99a4515, 0x1410d9f9b2f7f2fe); (0xc017439b147b6a77, 0x100d7b2e28c65bfe);
   (0xccf205c4ed9243f2, 0x19af2b7d0e0a2cca); (0x0a5b37d0be0e9cc2, 0x148c22ca71a1bd6f);
   (0x0848f973cb3ee3ce, 0x10701bd527b4978c); (0xda0e5bec78649fb0, 0x1a4cf9550c5425ac);
   (0x7b3eaff060507fc0, 0x150a6110d6a9b7bd); (0x95cbbff380406633, 0x10d51a73deee2c97);
   (0xefac665266cd7052, 0x1aee90b964b04758); (0x2623850eb8a459db, 0x158ba6fab6f36c47);
   (0x1e82d0d893b6ae49, 0x113c85955f29236c); (0xfd9e1af41f8ab075, 0x1b9408eefea838ac);
   (0x97b1af29b2d559f7, 0x16100725988693bd); (0xac8e25baf5777b2c, 0x11a66c1e139edc97);
   (0x7a7d092b2258c513, 0x1c3d79c9b8fe2dbf); (0x61fda0ef4ead6a76, 0x169794a160cb57cc);
   (0xe7fe1a590bbdeec5, 0x1212dd4de7091309); (0xa6635d5b45fcb13a, 0x1ceafbafd80e84dc);
   (0x851c4aaf6b308dc8, 0x172262f3133ed0b0); (0xd0e36ef2bc26d7d4, 0x1281e8c275cbda26);
   (0xb49f17eac6a48c86, 0x1d9ca79d894629d7); (0x2a18dfef0550706b, 0x17b08617a104ee46);
   (0x54e0b3259dd9f389, 0x12f39e794d9d8b6b); (0x87cdeb6f62f65274, 0x1e5297287c2f4578);
   (0xd30b22bf825ea85d, 0x18421286c9bf6ac6); (0x0f3c1bcc684bb9e4, 0x13680ed23aff889f);
   (0x18602c7a4079296d, 0x1f0ce4839198da98); (0x46b356c833942124, 0x18d71d360e13e213);
   (0x388f78a029434db6, 0x13df4a91a4dcb4dc); (0x2d3f93b35435d7c5, 0x0fe5d54150b090b0);
   (0x153285ebb9efbfa2, 0x196fbb9bb44db44d); (0xaa8ed189618c994e, 0x145962e2f6a4903d);
   (0xeed8a7a11ad6e10c, 0x1047824f2bb6d9ca); (0x7e27729b5e249b45, 0x1a0c03b1df8af611);
   (0xfe85f549181d4904, 0x14d6695b193bf80d); (0xcb9e5dd4134aa0d0, 0x10ab877c142ff9a4);
   (0xdf63c9535211014d, 0x1aac0bf9b9e65c3a); (0x191ca10f74da6771, 0x15566ffafb1eb02f);
   (0xadb080d92a4852c1, 0x1111f32f2f4bc025); (0x15e7348eaa0d5134, 0x1b4feb7eb212cd09);
   (0xab1f5d3eee710dc4, 0x15d98932280f0a6d); (0xbc1917658b8da49d, 0x117ad428200c0857);
   (0x2cf4f23c127c3a94, 0x1bf7b9d9cce00d59); (0xf0c3f4fcdb969543, 0x165fc7e170b33de0);
   (0x5a365d9716121103, 0x11e6398126f5cb1a); (0x9056fc24f01ce804, 0x1ca38f350b22de90);
   (0xd9df301d8ce3ecd0, 0x16e93f5da2824ba6); (0xe17f59b13d8323da, 0x125432b14ecea2eb);
   (0x68cbc2b52f38395c, 0x1d53844ee47dd179); (0x53d6355dbf602de3, 0x177603725064a794);
   (0xa9782ab165e68b1c, 0x12c4cf8ea6b6ec76); (0x0f26aab56fd744fa, 0x1e07b27dd78b13f1);
   (0x3f52222abfdf6a62, 0x18062864ac6f4327); (0x65db4e88997f884e, 0x1338205089f29c1f);
   (0x6fc54a7428cc0d4a, 0x1ec033b40fea9365); (0x596aa1f68709a43b, 0x1899c2f673220f84);
   (0xadeee7f86c07b696, 0x13ae3591f5b4d936); (0x497e3ff3e00c5756, 0x1f7d228322baf524);
   (0xd464fff64cd6ac45, 0x1930e868e89590e9); (0x4383fff83d7889d1, 0x14272053ed4473ee);
   (0xcf9cccc69793a174, 0x101f4d0ff1038ff1); (0x7f6147a425b90252, 0x19cbae7fe805b31c);
   (0xcc4dd2e9b7c7350f, 0x14a2f1ffecd15c16); (0x3d0b0f215fd290d9, 0x10825b3323dab012);
   (0x61ab4b689950e7c1, 0x1a6a2b85062ab350); (0x4e22a2ba1440b967, 0x1521bc6a6b555c40);
   (0x0b4ee894dd009453, 0x10e7c9eebc4449cd); (0x1217da87c800ed51, 0x1b0c764ac6d3a948);
   (0xdb46486ca000bdda, 0x15a391d56bdc876c); (0x490506bd4ccd64af, 0x114fa7ddefe39f8a);
   (0xa8080ac87ae23ab1, 0x1bb2a62fe638ff43); (0x5339a239fbe82ef4, 0x162884f31e93ff69);
   (0x75c7b4fb2fecf25d, 0x11ba03f5b20fff87); (0x22d92191e647ea2e, 0x1c5cd322b67fff3f);
   (0xb57a8141850654f2, 0x16b0a8e891ffff65); (0xc4620101373843f5, 0x1226ed86db3332b7);
   (0x3a366801f1f39fee, 0x1d0b15a491eb8459); (0xfb5eb99b27f6198b, 0x173c115074bc69e0);
   (0x2f7efae2865e7ad6, 0x129674405d6387e7); (0xe597f7d0d6fd9156, 0x1dbd86cd6238d971);
   (0x8479930d78cadaab, 0x17cad23de82d7ac1); (0xd06142712d6f1556, 0x1308a831868ac89a);
   (0x4d686a4eaf182222, 0x1e74404f3daada91); (0xa453883ef279b4e8, 0x185d003f6488aeda);
   (0xe9dc6cff28615d87, 0x137d99cc506d58ae); (0xa960ae650d6895a4, 0x1f2f5c7a1a488de4);
   (0xbab3beb73ded4483, 0x18f2b061aea07183)].

(** For the entries of [lookup_table_lt] from 54 on: two vectors [(s, u)] *)
Definition lt_certificates : list (Z * Z) :=
  [(3872776833515583, 32550528021574292); (18442098775551533, 21393090217040734); (6786641221922773, 33048547770669494);
   (16111007264825781, 21186456906786251); (14080827408041593, 22201546835178345); (22961446142112931, 17761237468142676);
   (25041529611701033, 20881362672524829); (31730007905040483, 6688478293339450); (27716920929036813, 10701565269343120);
   (27716920929036813, 8561252215474496); (27716920929036813, 17935770143994322); (28042227214254945, 8479925644169963);
   (11216890885701978, 33785187616892893); (35840244850331546, 4513659346238183); (9876244577809219, 26233030192096245);
   (19752489155618438, 20369456654647717); (27776878317671669, 32097556648212924); (35561722661991136, 864135666108251);
   (34591858714640609, 3456542664433004); (6227063210041521, 32507360287856579); (34174959029283803, 9266706189117719);
   (15523324849537065, 34056737227772503); (3104664969907413, 33773004904145383); (24837319759259304, 34075652716014311);
   (11782594495054723, 30259260408564737); (11782594495054723, 33633483922895568); (10454655333404939, 27935366875677615);
   (32802948833947031, 22348293500542092); (15499907167006243, 27393545334143396); (15499907167006243, 25229783934221942);
   (22853876113766849, 16291876440491274); (1312399934655115, 34982307264897451); (2099839895448184, 35507267238759497);
   (32681497975447818, 12141069196827541); (21288770701627238, 33429839898454779); (15201476260341851, 21255251015884005);
   (30402952520683702, 32205677073049055); (31435914278197454, 6441135414609811); (30301639754245812, 6441135414609811);
   (22807280028834671, 28721803288043817); (22807280028834671, 32100354641968922); (30915803278254923, 20104438945694587);
   (20711754833465021, 19497123057924153); (20711754833465021, 28024751346418335); (20711754833465021, 22419801077134668);
   (15886185369304158, 27245370541295531); (29961570659683202, 13169985250916487); (26603253577929859, 13169985250916487);
   (26497940347491105, 26287313886613597); (21198352277992884, 15688137747617155); (18060724728469453, 30611234926563177);
   (15244606461382255, 20876842995556651); (6097842584552902, 32606922114283949); (16277932558141433, 24442427336212691);
   (1622687556014035, 34484894660303399); (1298150044811228, 35783044705114627); (22994039487719907, 17801439308474995);
   (35307215390354817, 14241151446779996); (21066063943574821, 15606133946138961); (17790105945113305, 31212267892277922);
   (14232084756090644, 30402345083351895); (32606462957681060, 6080469016670379); (32165639382815227, 6080469016670379);
   (35461261932924788, 6080469016670379); (29380792916254409, 21481067593174370); (29380792916254409, 17184854074539496);
   (26497983472698277, 15743449352761430); (20200603731593705, 25189518964418288); (16160482985274964, 29229639710737029);
   (18774314330367377, 29229639710737029); (22101909910366467, 30893437500736574); (24763986374365739, 14115680518368651);
   (31103733514187512, 6339747139821773); (34550580487127764, 6339747139821773); (21998297720241013, 15785762093176035);
   (28312602557511427, 12628609674540828); (32752969785641804, 17068976902671205); (22511583644039081, 13655181522136964);
   (28933412132940836, 35355240621842591); (22511583644039081, 32786509226281889); (392346495910693, 35999197882132223);
   (9083102756797771, 34763025043548312); (24804933325576650, 25679922286750541); (19843946660461320, 25679922286750541);
   (15875157328369056, 29648711618842805); (33851917694633419, 11859484647537122); (27772148654897914, 9832894967625287);
   (32635963886686318, 13075438455484223); (28723858800445899, 26150876910968446); (21949894284565738, 19376912395088285);
   (18074511805548081, 33576041721618709); (18074511805548081, 23245931016185351); (18074511805548081, 26348782542567713);
   (18074511805548081, 31923733117383019); (18074511805548081, 21924084132796799); (18074511805548081, 27848729890255646);
   (18074511805548081, 25893886273314133); (29406371462880125, 6742652148216037); (31129127174160149, 7604030003856049);
   (35834146608220969, 17014068871977689); (15056062188994624, 24542099966475001); (31678529724375700, 25325302639668227);
   (25342823779500560, 18989596694793087); (20274259023600448, 34195290962493423); (23058465411379043, 22273651102228760);
   (14149004970487539, 31967925852270547); (34063743664108961, 19914738693621422); (28298009940975078, 24421193937189661);
   (21863044752022979, 17986228748237562); (27506809849803837, 33150574947584695); (23835744535495141, 13260229979033878);
   (25446573789038710, 13797173063548401); (20357259031230968, 34154432094779369); (35331049062679229, 13797173063548401);
   (25505404637433703, 13797173063548401); (7442727242263801, 35037073369360603); (29770908969055204, 12526283899291481);
   (33837754294677348, 12526283899291481); (34585973775316767, 12526283899291481); (1906681195346761, 34851686034391836);
   (14215725749196059, 27393727684814089); (11580125362072453, 33702652272639330); (25061186271128185, 26962121818111464);
   (20048949016902548, 28863057365094743); (14760484007987231, 21811770686540987); (11676805076213841, 28863057365094743);
   (30754439588683818, 10443333503504485); (34356212068255975, 4177333401401794); (23580576019258371, 16709333605607176);
   (23580576019258371, 12586588157416459); (28933731341339864, 34286886663421357); (10502861472119647, 31712033588402280);
   (33487087207556867, 16845268189800103); (26911739269271497, 13557594220657418); (34802156795213941, 8093866697985783);
   (31727369453654299, 32375466791943132); (30431174777076633, 6604712826046393); (22740010432504882, 24579430868345227);
   (21636358171000675, 24579430868345227); (8654543268400270, 27522503565689779); (6923634614720216, 30984320873049887);
   (31121948787602755, 6854820657443782); (24897559030082204, 25527989930005435); (34478324102161147, 10211195972002174);
   (22729233655697123, 19653444706773423); (21498918076127643, 19038286916988683); (21991044307955435, 20022539380644267);
   (17592835446364348, 28818957103826441); (31365642619387343, 26272271588265539); (33080824458773457, 4235780111428747);
   (35783375812162009, 4235780111428747); (10924726235721806, 33330209799297697); (34514299080603956, 2296151465570817);
   (10117471867919935, 29419549598123138); (8093977494335948, 32533672339654445); (22694689456602785, 35708158392464563);
   (18155751565282228, 35708158392464563); (32801021765127989, 14041925461745868); (35653241682742319, 1864950924021923);
   (35236416672672778, 1864950924021923); (34744835957622138, 1864950924021923); (22476708633549701, 26206610481593547);
   (22476708633549701, 29955971838694718); (22476708633549701, 29948188035071788); (7496387573115463, 29935733949275100);
   (13483534362970483, 23948587159420080); (13483534362970483, 24834205092101645); (34066773378200616, 4966841018420329);
   (7806722879324189, 35480809832329694); (10078628368047277, 32217897930451681); (31821495365189711, 21742866997142434);
   (30870129208560983, 10712872472466429); (27092375503109733, 19536868092207233); (25581274020929233, 19536868092207233);
   (21954630463696033, 17119105720718433); (23888840360887073, 20020420566504993); (22341472443134241, 16152000772122913);
   (28530944114145569, 12166989131678279); (18712571124665195, 24333978263356558); (29940113799464312, 35561520938155675);
   (24318706660772949, 14224608375262270); (32853471685930311, 11379686700209816); (31348887394707830, 29844303103485349);
   (25079109915766264, 11034970666660651); (35311094614696609, 7222816116485383); (27125506855552333, 28891264465941532);
   (4718798326954787, 35375820403285518); (33494367892053757, 16037847492096122); (27930432639932216, 12546543412104595);
   (33933161404680375, 2509308682420919); (31138425338818583, 5018617364841838); (25298431054162701, 14850507864572003);
   (35746354243753399, 13089473994579481); (25979188596086823, 13089473994579481); (5115933961988509, 31494641344219610);
   (30311647037364197, 25195713075375688); (27318878007084463, 22202944045095954); (34153682040327441, 13669608066485956);
   (16387259179073188, 25960052450790847); (8469462325972807, 27615048869408125); (16938924651945614, 30561501421499307);
   (20989979158813121, 25775740290156214); (18706287779587734, 23492048910930827); (6525362885566475, 35672973804952086);
   (5220290308453180, 33498842873618617); (4176232246762544, 33498842873618617); (33427654954004005, 16722725966953829);
   (6685530990800801, 33498842873618617); (6685530990800801, 29473286695215214); (6685530990800801, 35612585139613613);
   (30316456520561763, 23167791405844645); (28198005072941023, 9267116562337858); (13053294264458491, 24015171984892941);
   (26106588528916982, 21822796440806051); (22598787658377958, 18314995570267027); (32731026582915988, 18314995570267027);
   (14416031012648961, 26420786709897451); (19217933291548357, 28821737849347149); (23063584785048183, 15372281798048531);
   (23063584785048183, 19982933919868013); (21215194265940081, 18750673573795945); (13714924836421703, 28715463695458459);
   (27429849672843406, 31201325858219789); (23452470212425278, 27223946397801661); (19516271407015499, 23287747592391882);
   (28208853302923692, 31980329488300075); (24437377117547309, 12792131795320030); (26995803476611315, 10233705436256024);
   (25866571567834311, 30136500354379570); (13811971426082483, 24109200283503656); (13109022912350221, 23406251769771394);
   (33521100761124765, 14606109872848646); (26816880608899812, 22507999593472339); (6225152324865457, 32565694537213764);
   (22698534952092941, 20496460604724054); (33539608410825227, 11857461493360655); (34555757099071406, 2371492298672131);
   (34217136608208889, 4742984597344262); (14432202677392597, 23511674101361499); (29934951605469933, 27793859104100455);
   (30799457288758276, 5558771820820091); (16165680735227819, 28304493831332909); (16165680735227819, 25876731212111891);
   (33633929557871768, 9059766433176007); (23532108654762857, 17077478396419110); (23532108654762857, 13661982717135288);
   (35978437540274175, 6223164442755659); (8168210573354011, 33060868344376647); (31194410599129483, 14857989452421461);
   (33870322150756463, 14857989452421461); (8435801728516709, 33997437387446090); (15235289206005927, 27197949909956872);
   (32863110552802043, 4785064281580378); (11231218508488666, 35987084889054511); (35022527481728326, 4951173276113169);
   (31978960606273196, 4951173276113169); (7386026776477273, 32223359432428079); (7386026776477273, 30210303611828827);
   (29544107105909092, 14905292854138493); (32685052838157527, 26936118578396445); (33770184470402906, 5387223715679289);
   (18605929068575017, 21548894862717156); (18605929068575017, 28402673331318735); (33095648540670063, 4116209596479971);
   (33062454186904004, 20647436689931973); (9095494336775207, 32199379043088739); (33580299273193163, 5603356147815330);
   (33580299273193163, 4482684918252264); (19251642580265445, 18811341611179982); (30802628128424712, 22661670127233071);
   (33706770553632998, 22661670127233071); (24756396357626413, 13711295931226486)].

(** For the entries of [lookup_table_ge] from 29 on: two vectors [(s, t, u, t')] *)
Definition ge_certificates : list (Z * Z * Z * Z) :=
  [(17322448369349593, 219588120728285252, 135142804880308719, 1713138577230498373);
   (211340797005910508, 2143250305418038741, 124728555159162543, 1264897822504897733);
   (141617076456797712, 2297868441254741431, 19058156656207289, 309236271673405380);
   (138905032258582562, 1803090406577292823, 19058156656207289, 247389017338724304);
   (221276681963746425, 2297868441254741431, 196079502227204429, 2036205966874772588);
   (101189398580669964, 1681297268375811839, 69692923909992469, 1157972319615874153);
   (126486748225837455, 1681297268375811839, 120287623200327451, 1598896763043024058);
   (257622840220807413, 2739515932600971611, 124936966969459954, 1328557713634091915);
   (119005978950636841, 2024781809753304243, 62468483484729977, 1062846170907273532);
   (90737231217683409, 1235051192264231110, 110802593102983238, 1508166745682431509);
   (274609088205254161, 2990228176399508841, 183871856987570752, 2002187222588123953);
   (136705195464576097, 2381740415133465402, 114919910617231720, 2002187222588123953);
   (107975217810268167, 1504954887589147531, 143649888271539650, 2002187222588123953);
   (89900080973018996, 1002419399553283803, 269224639705830129, 3001955045622964103);
   (112375101216273745, 2004838799106567606, 33474728758268694, 597209117302460437);
   (47818868418569699, 682493696182134955, 131505690314241434, 1876911930787055829);
   (47818868418569699, 545994956945707964, 283929283939226040, 3241899323151325739);
   (118801189403376209, 2170351660373663038, 58654613058640066, 1071547662777662701);
   (44736941437028088, 653831131593932675, 101899591209572077, 1489264193961392727);
   (11184235359257022, 130766226318786535, 285813248862719945, 3341732249469840208);
   (5592117679628511, 104612981055029228, 140572000992795130, 2629711483057297831);
   (27960588398142555, 418451924220116912, 116228706602812192, 1739452876849798611);
   (252741883835843488, 3025982890378707959, 112938941845130713, 1352175193498240311);
   (108210206511232339, 2072895736933006645, 49753470886169841, 953087153445701314);
   (108210206511232339, 1658316589546405316, 89244390235520386, 1367666300832302643);
   (76416200814496266, 936859895985022655, 223110975588800965, 2735332601664605286);
   (38208100407248133, 749487916788018124, 116504292755196641, 2285341556980133545);
   (18634052320261006, 292419605391991415, 135138345075457647, 2120692850976098251);
   (9317026160130503, 116967842156796566, 286602218807926351, 3598062570089815389);
   (71928753721496493, 1444813135390101787, 97272376642340471, 1953883533525831046);
   (29628471130537252, 476111174528894863, 122615999563184449, 1970363145329248244);
   (37035588913171565, 476111174528894863, 107801763997915823, 1385846046451840650);
   (73244927140943412, 753280383819262993, 254291618279802647, 2615237604799998506);
   (91556158926179265, 1506560767638525986, 99678961462047544, 1640221853548441009);
   (66636418560667379, 877204243401132587, 124598701827559430, 1640221853548441009);
   (2168533823443832, 22837326650764833, 287642882511016423, 3029233113938468855);
   (1355333639652395, 22837326650764833, 143977516707862553, 2426016357320477870);
   (85125223614364957, 1147485744336275731, 78348555416102982, 1056136437733216399);
   (179672583785362697, 1937585310561013251, 195871388540257455, 2112272875466432798);
   (85786590703957659, 1480193222486642782, 63141801295597277, 1089471741054160485);
   (123018688703846393, 1698087570697474879, 63141801295597277, 871577392843328388);
   (182895576112095509, 2019678198841297096, 108049466851784114, 1193168020987150605);
   (107063819931862258, 1891653959905723103, 54024733425892057, 954534416789720484);
   (143960861379462717, 2034854602970172560, 246411729980464, 3482974734743573);
   (269630843669499357, 3048937374151515832, 269938858331974937, 3052420348886259405);
   (134776920001940231, 2438453304374263951, 135161938330034706, 2445419253843751097);
   (33597975418461439, 486297470980955361, 136316993314318131, 1973053681801770028);
   (260865582403194246, 3020617079657512955, 92875705310887051, 1075427195733691511);
   (130432791201597123, 2416493663726010364, 83486433838209533, 1546730975535880431);
   (53479806259951664, 792644927852378159, 96553331631337681, 1431054335029252770);
   (66849757824939580, 792644927852378159, 230252847281216841, 2730133323728158534);
   (83562197281174475, 1585289855704756318, 123482643368725868, 2342635644553002459);
   (136253733720167483, 2067936640217009617, 9049785245369926, 137349502167996421);
   (258932789572280077, 3143879221745619682, 70389313171426223, 854644556520403131);
   (88301131943176751, 1715398621743291183, 58448100656925871, 1135453069558880894);
   (103227647586302191, 1604297118268397062, 65911358478488591, 1024351566083986773);
   (84569503032395391, 1051459473740953534, 207063147712419173, 2574432869038450313);
   (96230843378587141, 1914313378859289770, 67077492513107766, 1334367826674879481);
   (131962287330678278, 2100093178218595389, 35731443952091137, 568642475131163573);
   (126480543091835143, 1610283853652452750, 50856293808715138, 647475625696184507);
   (126810638806811494, 1291589167157165607, 253951373328599339, 2586540418549534621);
   (126480543091835143, 2061163332675139520, 47636513481298398, 776298333988380727);
   (122785913397540569, 1600763667058436535, 119091283703245995, 1552596667976761454);
   (122785913397540569, 1280610933646749228, 179560582978442636, 1872749401388448761);
   (128728175315686273, 2148138387750468639, 95722553407367022, 1597360415026428883);
   (40433449306001381, 539783272094901679, 118006035600413412, 1575371013768152729);
   (272102204736111639, 2906033908809158605, 69934958206104734, 746900820429551889);
   (24316202305212451, 415512743094111553, 126204990904836933, 2156577795529984450);
   (61946500607724797, 846828302200108443, 126204990904836933, 1725262236423987560);
   (263850625005177222, 2885537353885122841, 217968746971730459, 2383761498969811910);
   (110414453885303149, 1932032754297198077, 107554293086427310, 1881985644054500979);
   (28318653671044747, 396415972907979035, 127292464360844540, 1781891423569106783);
   (28318653671044747, 317132778326383228, 272390195135234663, 3050422536874639695);
   (141593268355223735, 2537062226611065824, 16349615847501366, 292951729048544711);
   (58534422291985843, 839053853215299503, 99408461910739258, 1424957311312388925);
   (270596633118388680, 3103065017742987931, 49704230955369629, 569982924524955570);
   (119418664743623296, 2191092338503059019, 49704230955369629, 911972679239928912);
   (129263128096645082, 1897374754484498063, 119258026680203063, 1750515962475217585);
   (221207923460907884, 2597581139474585097, 119258026680203063, 1400412769980174068);
   (116619789788694625, 2191092338503059019, 31978022907488046, 600813988089222235);
   (139653865661168344, 2099091522267073545, 15989011453744023, 240325595235688894);
   (114858523684012201, 1381120685396170285, 194803580952732316, 2342423066338925861);
   (114858523684012201, 2209793096633872456, 64322976253451597, 1237526518021989633);
   (140126297399292503, 2156741108751851094, 76956863111091748, 1184474530139968271);
   (217083160510384251, 2672972511113455492, 96196078888864685, 1184474530139968271);
   (138763350660572017, 2733777201280159282, 57036173963958568, 1123669839973264481);
   (95986220187603091, 1512819857040168737, 71295217454948210, 1123669839973264481);
   (65816914457538598, 829861910810720391, 244054958094909123, 3077201590757249353);
   (111755660927311539, 2254539389102125901, 52786625216534956, 1064908254140755663);
   (138148973535579017, 2229594812938002986, 65983281520668695, 1064908254140755663);
   (87115909771517089, 1124775236934650659, 80933499277275462, 1044952593209457331);
   (168049409048792551, 1735782264115286392, 185191578620990603, 1912843725267100527);
   (143706038270287789, 2374943358744340885, 4285542393049513, 70824584460725654);
   (94852717472002751, 1254059100816850371, 116280429437250316, 1537357438659752987);
   (182063039549940488, 1925661743849332089, 145350536796562895, 1537357438659752987);
   (113789399718712805, 1925661743849332089, 54319017021592651, 919242506776139108);
   (136384043906284098, 1846425318850568915, 12291912836516287, 166413155295817047);
   (133017815021003791, 1440681501901975443, 197843608088865533, 2142792876263723320);
   (107866585399235561, 1869240077154720107, 89977022689629972, 1559228524867237205);
   (134436324892842931, 1863737619096826490, 22494255672407493, 311845704973447441);
   (174198179175757564, 1931976048686602503, 286669457537795029, 3179358868580392267);
   (96187767597769136, 1706860212246211693, 121559956371927819, 2157091885126993313);
   (120234709497211420, 1706860212246211693, 25372188774158683, 360185338304625296);
   (235782930394278668, 2677752567788396607, 85489543522764393, 970892355542184914);
   (45673827136472304, 829937656239290033, 112033354446959119, 2035754510619633082);
   (57092283920590380, 829937656239290033, 100614897662841043, 1462616077247848459);
   (286164820404759778, 3327930768020432853, 214799465504021803, 2497993111781142820);
   (17753413624958509, 330339033883061469, 143785811004187767, 2675432843317582636);
   (129151874282079114, 1922510510972374697, 40384806157286569, 601154375440128821);
   (238210727262062327, 2836738557815785517, 226115161770185833, 2692698205797362106);
   (122129255004000287, 2327006987059997778, 45945170637154526, 875422789493152067);
   (26605749524134249, 405549121128107871, 141468676117020564, 2156394700114412005);
   (274497423737691809, 3347312244603961088, 35367169029255141, 431278940022882401);
   (130516901735619449, 2546505929905655158, 23159471705328128, 451862795138702025);
   (143076131160878429, 2233238525181464992, 5789867926332032, 90372559027740405);
   (286930429255821777, 3582898606283627992, 1447466981583008, 18074511805548081);
   (143812131451801861, 2873250002416098373, 904666863489380, 18074511805548081);
   (143359798020057171, 2291370197210659466, 1130833579361725, 18074511805548081);
   (287167712518157674, 3671922238468580695, 5654167896808625, 72298047222192324);
   (85369933161845178, 1746557108804408675, 113640772645888303, 2324941486581947267);
   (42684966580922589, 698622843521763470, 134704548581491696, 2204703020837722389);
   (42684966580922589, 558898274817410776, 125695719145942031, 1645804746020311613);
   (212835037755406511, 2229415083583258961, 212245242606200077, 2223237067896874818);
   (53282483832502432, 893001636570580413, 105090479791988779, 1761291210395624254);
   (66603104790628040, 893001636570580413, 78449237875737563, 1051832313688267238);
   (83253880988285050, 893001636570580413, 261607776049964673, 2806069451405890699);
   (98144284692801551, 1684351639785841258, 54995208888955537, 943827453248240197);
   (38284873395439272, 525635818606816291, 121836550863020597, 1672766538565695624);
   (47856091744299090, 525635818606816291, 255833607747058049, 2809993522951642114);
   (119640229360747725, 2102543274427265164, 105832482213026216, 1859887555230199653);
   (66723988254234617, 938079597449732270, 132290602766282770, 1859887555230199653);
   (198725247584970771, 2235119394210092561, 132001259330736154, 1484655716250306745);
   (132905457566819329, 2391720785669755679, 66000629665368077, 1187724573000245396);
   (99453043616093703, 1431778143468000430, 115275052355373341, 1659560074266490577);
   (99453043616093703, 1145422514774400344, 268410119964333805, 3091338217734491007);
   (3743626360493413, 68985865317742005, 141620713833594280, 2609722913009712277);
   (3743626360493413, 55188692254193604, 143333255047552133, 2113024682721969841);
   (158437077068047309, 1868548673604266393, 139718945265580244, 1647793904587491977);
   (61753670375826124, 1165280157965914719, 112895011206149181, 2130307651209069235);
   (77192087969782655, 1165280157965914719, 112895011206149181, 1704246120967255388);
   (172235637557748573, 2080034637945999818, 237608873969914795, 2869526278933170107);
   (51230563940957921, 989912183375833985, 112202527089457634, 2168054380572847171);
   (51230563940957921, 791929746700667188, 114637876891343082, 1772089507222513577);
   (256152819704789605, 3167718986802668752, 105505315134272652, 1304733597485303341);
   (88511916677042558, 1751335030950952997, 131881643917840815, 2609467194970606682);
   (88955032225904069, 1408082165343091523, 132324759466702326, 2094587896558814471);
   (11396326246276453, 144315286825473715, 285226593681650003, 3611914645815734082);
   (11396326246276453, 230904458920757944, 139804019969848223, 2832612096958176021);
   (132581804339444603, 2149024458034605362, 37800086554031169, 612703311175786793);
   (42595472723368943, 552345553842078431, 103809487323417959, 1346122137018990310);
   (212977363616844715, 2209382215368313724, 185685394543488026, 1926261088930033355);
   (103746984295503871, 1721998906234580751, 92842697271744013, 1541008871144026684);
   (49147420391811971, 652601555475721487, 120181543616036268, 1595824596246056327);
   (245737101959059855, 2610406221902885948, 79192806295821038, 841246163629788455);
   (138886664070205113, 2360575487464491149, 39596403147910519, 672996930903830764);
   (123813573100349946, 1683509573119793605, 74168442639202649, 1008478150495529451);
   (61906786550174973, 673403829247917442, 278281286423269082, 3027062044862935065);
   (42598322384810081, 741395249523247871, 139140643211634541, 2421649635890348052);
   (79523806741018013, 1107246844308954818, 66733902591516196, 929167076892018333);
   (263042038867687552, 2929965044609604187, 83417378239395245, 929167076892018333);
   (129087537247358006, 2300602434242828871, 17656868522473357, 314681305183387658);
   (23443450050602823, 334247964775210711, 135171242713572431, 1927221150283972054);
   (256876991081726125, 2929965044609604187, 79307346382087627, 904587646023673106);
   (135546602516661779, 2473693299610834271, 37284304199110908, 680429695511221511);
   (98262298317550871, 1434610883279690208, 46605380248888635, 680429695511221511);
   (191473058815328141, 2236376219441706584, 106124990014942829, 1239523750371648157);
   (127462007215039157, 2381978988222660422, 74119464214798337, 1385126519152601995);
   (140797642965099362, 2104953684392140023, 74119464214798337, 1108101215322081596);
   (279734964564074396, 3345676145777019403, 72259142848674009, 864231223007260643);
   (71096441994846304, 1360520207561212395, 76909946263984829, 1471768953813235564);
   (17774110498711576, 272104041512242479, 135712184337962081, 2077619234081547550);
   (22217638123389470, 272104041512242479, 269018013078298901, 3294719636338692914);
   (55544095308473675, 1088416166048969916, 103358165220082614, 2025358362467307611);
   (57476601657689859, 901027726765302377, 105290671569298798, 1650581483899972533);
   (112537570378859488, 1411349568898357359, 275304843605848145, 3452636937430577287);
   (70335981486787180, 1411349568898357359, 78364095442844041, 1572440306973523054);
   (87919976858483975, 1411349568898357359, 95948090814540836, 1540222159358489915);
   (271690725366973412, 3489087252491543555, 23987022703635209, 308044431871697983);
   (67922681341743353, 1395634900996617422, 93928897429959699, 1929995177985100643);
   (40462894692925763, 665126015796343613, 105478434913466628, 1733846569773310055);
   (123205647279528844, 1620196121321388419, 26369608728366657, 346769313954662011);
   (285855102741244340, 3007273377140036463, 140711649824864393, 1480324802019744194);
   (2215901545757777, 37299018480438460, 142097063708274392, 2391839572212801873);
   (2215901545757777, 29839214784350768, 142166904903218558, 1914412135663189585);
   (167562471185752786, 1805110006653630647, 219723459004740753, 2367027722492373172);
   (65605803626854516, 1130808747647139617, 117766791445842483, 2029877092989127657);
   (82007254533568145, 1130808747647139617, 134168242352556112, 1850063423920730049);
   (182633436297985229, 2014685052470149723, 167710302940695140, 1850063423920730049);
   (28425354546231937, 501709987623681749, 124361815037173114, 2194996884970414851);
   (73728485578641184, 1041051362142501069, 79058684004763867, 1116314135932776211);
   (92160606973301480, 1041051362142501069, 244947776556706531, 2766943760602722893);
   (57600379358313425, 1041051362142501069, 118226941968416996, 2136797020250854277);
   (85644023224522601, 1238322775377830855, 116713850342521923, 1687559897814342566);
   (252947341958805655, 2925882673192173421, 167303318734283054, 1935224452889908737);
   (42323920647916032, 783308178698887621, 121990852300295411, 2257740560667421601);
   (52904900809895040, 783308178698887621, 132571832462274419, 1962854084273714805);
   (66131126012368800, 783308178698887621, 264834084487012019, 3136899624816747086);
   (41331953757730500, 783308178698887621, 116039050959182219, 2199129956390799902);
   (51664942197163125, 783308178698887621, 136705027838047469, 2072627236592194970);
   (227919790198873586, 2764449983415101857, 197514869411931547, 2395667252034653230);
   (140652037565404857, 2729560412990624978, 5686283184652669, 110350719026482019);
   (39427721779840716, 612122514014014207, 107286859482944777, 1665647904133956490);
   (156571511707745672, 1944640837321179399, 263858371190690449, 3277159160628344591);
   (97857194817341045, 1944640837321179399, 126858298446412986, 2520957484755700187);
   (86070113985336380, 1368324189886658611, 80643172020273769, 1282047831879611797);
   (123678229012941959, 1572967941458352882, 263447044557155402, 3350579634488400035);
   (55805144557244173, 1135588102223665743, 131723522278577701, 2680463707590720028);
   (127188967343553809, 2070551440307376116, 18979594430333382, 308975121073410857);
   (248645529367527379, 3238226520495555131, 47448986075833455, 617950242146821714);
   (51724210696468494, 1077805573291782679, 96323047025211923, 2007135836822118797);
   (129310526741171235, 2155611146583565358, 35230470838488838, 587293220070490983);
   (91078116499452246, 1214620390675720733, 88076177096222095, 1174586440140981966);
   (227695291248630615, 2429240781351441466, 66807617672974109, 712758654191536933);
   (77034782009114717, 1314992737972557493, 137024290124661754, 2339020657168284319);
   (72773463535722797, 993801226622679861, 124240334704485994, 1696637634468529055);
   (150873575163185494, 1648274926351653911, 212993742515428491, 2326929980139065533);
   (136459266773751183, 2385280657909547627, 34389238733458936, 601117006785295431);
   (110667337723656981, 1547554322256460843, 42986548416823670, 601117006785295431);
   (259519773841740923, 2903266354686706975, 107466371042059175, 1202234013570590862);
   (120613733157463447, 2158903196965733292, 34726510171069369, 621580742633249467);
   (42943611493197039, 614928981732993530, 108288081174271942, 1550625976132995699);
   (156831907214438447, 1796597568826193111, 270720202935679855, 3101251952265991398);
   (99887759353817743, 1830832603370070348, 71180184825775880, 1304654383439798287);
   (82092713147373773, 1203735206008096621, 88975231032219850, 1304654383439798287);
   (18802548815631924, 220563205715278991, 278845724027445397, 3270998384025433547);
   (23503186019539905, 441126411430557982, 132371906207860727, 2484460783791179443);
   (38968773056850158, 585117439044347485, 116296708243401423, 1746198988543852982);
   (19484386528425079, 234046975617738994, 280999577344291018, 3375374489278836467);
   (97421932642125395, 1872375804941911952, 137417976442268042, 2641069493044774843);
   (126134877063116769, 1939373490689149186, 54352516010638334, 835691373850100125);
   (274572805649813172, 3377332157068238297, 27176258005319167, 334276549540040050);
   (130843616523154482, 2575068438172142177, 27176258005319167, 534842479264064080);
   (122790133645964352, 1933257463055265281, 27176258005319167, 427873983411251264);
   (282326406271707433, 3556048784936166247, 139402565432767756, 1755848239527057101);
   (88887241098565808, 1791330084232698737, 85365965692393887, 1720366394821415465);
   (111109051373207260, 1791330084232698737, 85365965692393887, 1376293115857132372);
   (138886314216509075, 1791330084232698737, 252029542752204777, 3250630593764944382);
   (102893374935826530, 2123359658933151829, 56571614267847851, 1167440407625796516);
   (48884224067945972, 807039632309572491, 110580765135728409, 1825600420937586185);
   (61105280084932465, 807039632309572491, 110580765135728409, 1460480336750068948);
   (98211893873029423, 1037696128511955867, 258268144059553776, 2728832961464408191);
   (65928375865585201, 1114547213326247749, 95489214171635909, 1614285748138160442);
   (139246961307683079, 1883223248284378937, 88099004595123232, 1191480891548145815);
   (277764534711580043, 3005265605254561651, 22024751148780808, 238296178309629163);
   (137356746138102392, 2377803949649081179, 13765469467988005, 238296178309629163);
   (75635594938489613, 1047471617872926227, 68827347339940025, 953184713238516652);
   (1702061899637397, 18857380926881915, 287968694011666024, 3190445282366963413);
   (1702061899637397, 30171809483011064, 142535071965268531, 2526665473740720005);
   (118074238222662683, 1674445998122531410, 54781964362237849, 776879380095243577);
   (97996015008462982, 1111768579719749859, 273909821811189245, 3107517520380974308);
   (83536122863447087, 1516352870686320046, 80726957328855184, 1465360724096339695);
   (135136263666242291, 1962401455275529038, 20181739332213796, 293072144819267939);
   (271363004158685414, 3152510746244470101, 25227174165267245, 293072144819267939);
   (115908691556954223, 2154477302309087303, 126135870826336225, 2344577158554143512);
   (95454333018190219, 1419422071855179908, 60511140595822612, 899810892172646163);
   (261859969656702402, 3115121620263965485, 75638925744778265, 899810892172646163);
   (130929984828351201, 2492097296211172388, 61816160973885031, 1176597460292499229);
   (82743448377792143, 1259938885668203587, 75445785497211004, 1148816985167264443);
   (158189233875003147, 1927004696668374424, 252496465746516902, 3075821681835638867);
   (39926251252180870, 778187711501109981, 142218733374130799, 2771932430068955086);
   (101054055126201052, 1575685598928248023, 102292482121949929, 1594995774854276084);
   (126317568907751315, 1575685598928248023, 178083023466600718, 2221407979240369681)].
