(* ===== verification/FloatToDecimal.v ===== *)
(** * Doubles in decimal: [AK/StringFloatingPointConversions.cpp]

    The conversion of a double to the shortest decimal that rounds back to it,
    with the Ryu algorithm.  A double is the number of its 64 bits.  The lookup
    tables are those of [FloatTables]; reading past their end is [Crash]. *)

From S2P Require Import Prelude FloatTables.
Local Open Scope Z_scope.

(** ** The fields of a double, [FloatExtractor<f64>] *)

Definition mantissa_bits : Z := 52.
Definition exponent_bias : Z := 1023.
Definition exponent_max : Z := 2047.

Definition fp_mantissa (bits : Z) : Z := bits mod 2 ^ mantissa_bits.
Definition fp_exponent (bits : Z) : Z := (bits / 2 ^ mantissa_bits) mod 2 ^ 11.
Definition fp_sign (bits : Z) : bool := negb (bits / 2 ^ 63 =? 0).

Record FloatingPointExponentialForm := { ef_sign : bool; ef_fraction : Z; ef_exponent : Z }.

(** ** The constants *)

Definition log10_5_num : Z := 10043.
Definition log10_5_denum : Z := 14369.
Definition log10_2_num : Z := 1406.
Definition log10_2_denum : Z := 4671.
Definition log2_5_num : Z := 8245.
Definition log2_5_denum : Z := 3551.

Definition table_b0 : Z := -125.
Definition table_b1 : Z := 125.

(** ** The operations *)

Definition u128 (z : Z) : Z := z mod 2 ^ 128.

(** The lambda [multiply_and_shift] for doubles *)
Definition multiply_and_shift (operand : Z) (multiplier : Z * Z) (shift : Z) : res Z :=
  let a := operand * multiplier.1 in
  let b := u128 (operand * multiplier.2 + a / 2 ^ 64) in
  let c := size_t a in
  if (0 <=? shift) && (shift <? 64) then Ret (Z.lor (Z.shiftr c shift) (size_t (u128 (Z.shiftl b (64 - shift)))))
  else if shift <? 0 then Ret (size_t (Z.shiftl c (- shift)))
  else verify ((64 <=? shift) && (shift <=? 128)) (Ret (size_t (Z.shiftr b (shift - 64)))).

Definition multiply_and_shift_all (u v w : Z) (multiplier : Z * Z) (shift : Z) : res (Z * Z * Z) :=
  let* u := multiply_and_shift u multiplier shift in
  let* v := multiply_and_shift v multiplier shift in
  let* w := multiply_and_shift w multiplier shift in
  Ret (u, v, w).

Fixpoint pos_trailing_zeroes (p : positive) : Z :=
  match p with xO p => 1 + pos_trailing_zeroes p | _ => 0 end.

(** [count_trailing_zeroes] of a number that is not zero *)
Definition count_trailing_zeroes (value : Z) : Z :=
  match value with Zpos p => pos_trailing_zeroes p | _ => 64 end.

(** The loop of the lambda [is_divisible_by_pow_5], over the powers from the
    last to the first *)
Fixpoint power_of_5_loop (powers : list (Z * Z)) (value result : Z) : Z :=
  match powers with
  | [] => result
  | (power, weight) :: powers =>
      if value mod power =? 0 then power_of_5_loop powers (value / power) (result + weight)
      else power_of_5_loop powers value result
  end.

Definition is_divisible_by_pow_5 (value power : Z) : bool :=
  if (power <=? 0) || (value =? 0) then true
  else if 28 <=? power then false
  else power <=? power_of_5_loop [(152587890625, 16); (390625, 8); (625, 4); (25, 2); (5, 1)] value 0.

(** Step 3': the bounds with most digits removed, whether the removed digits of
    each were zeroes, and how many there were *)
Definition remove_digits (synthetic_exponent u v w : Z) : res (Z * Z * Z * (bool * bool * bool) * Z) :=
  if synthetic_exponent <? 0 then
    let skipped_iters := Z.max 0 (Z.quot (- synthetic_exponent * log10_5_num) log10_5_denum - 1) in
    let zeroes x := skipped_iters <=? count_trailing_zeroes x in
    let index := - synthetic_exponent - skipped_iters in
    let* multiplier := at_index lookup_table_lt (Z.to_nat index) in
    let k_numerator := (log2_5_num + 1) * index in
    let k := Z.max 0 (Z.quot (k_numerator + log2_5_denum - 1) log2_5_denum + table_b0) in
    let* (u', v', w') := multiply_and_shift_all u v w multiplier (skipped_iters - k) in
    Ret (u', v', w', (zeroes u, zeroes v, zeroes w), skipped_iters)
  else
    let skipped_iters := Z.max 0 (Z.quot (synthetic_exponent * log10_2_num) log10_2_denum - 1) in
    let zeroes x := is_divisible_by_pow_5 x skipped_iters in
    let* multiplier := at_index lookup_table_ge (Z.to_nat skipped_iters) in
    let k := Z.quot (log2_5_num * skipped_iters) log2_5_denum + table_b1 in
    let* (u', v', w') := multiply_and_shift_all u v w multiplier (skipped_iters + k - synthetic_exponent) in
    Ret (u', v', w', (zeroes u, zeroes v, zeroes w), skipped_iters).

(** The variables of step 4' *)
Record Digits := {
  d_u : Z; d_v : Z; d_w : Z;
  d_all_a_zero : bool;
  d_all_b_zero : bool;
  d_last_digit : Z;
  d_exponent10 : Z
}.

(** The body that both loops share *)
Definition drop_digit (d : Digits) (all_a_zero : bool) : Digits :=
  {| d_u := d_u d / 10; d_v := d_v d / 10; d_w := d_w d / 10;
     d_all_a_zero := all_a_zero;
     d_all_b_zero := d_all_b_zero d && (d_last_digit d =? 0);
     d_last_digit := d_v d mod 10;
     d_exponent10 := d_exponent10 d + 1 |}.

Fixpoint shorten_loop (fuel : nat) (d : Digits) : res Digits :=
  match fuel with
  | O => Crash
  | S fuel =>
      if d_u d / 10 <? d_w d / 10 then shorten_loop fuel (drop_digit d (d_all_a_zero d && (d_u d mod 10 =? 0)))
      else Ret d
  end.

Fixpoint strip_zeroes_loop (fuel : nat) (d : Digits) : res Digits :=
  match fuel with
  | O => Crash
  | S fuel => if d_u d mod 10 =? 0 then strip_zeroes_loop fuel (drop_digit d (d_all_a_zero d)) else Ret d
  end.

(** Each iteration divides a [u64] by ten. *)
Definition digit_fuel : nat := 21.

(** The end of step 4' *)
Definition round_result (sign : bool) (d : Digits) : FloatingPointExponentialForm :=
  let is_tie := d_all_b_zero d && (d_last_digit d =? 5) in
  let want_round_down := (d_last_digit d <? 5) || (is_tie && (d_v d mod 2 =? 0)) in
  let round_down := (want_round_down && (negb (d_u d =? d_v d) || d_all_a_zero d)) || (d_w d <? d_v d + 1) in
  {| ef_sign := sign; ef_fraction := if round_down then d_v d else d_v d + 1; ef_exponent := d_exponent10 d |}.

Definition shortest_digits (d : Digits) : res Digits :=
  let* d := shorten_loop digit_fuel d in
  if d_all_a_zero d then strip_zeroes_loop digit_fuel d else Ret d.

(** [convert_floating_point_to_decimal_exponential_form<double>] *)
Definition convert_to_decimal (bits : Z) : res FloatingPointExponentialForm :=
  let sign := fp_sign bits in
  let exponent := fp_exponent bits in
  let mantissa := fp_mantissa bits in
  if (exponent =? 0) && (mantissa =? 0) then Ret {| ef_sign := sign; ef_fraction := 0; ef_exponent := 0 |}
  else verify (negb (exponent =? exponent_max))
    (let real_mantissa := (if exponent =? 0 then 0 else Z.shiftl 1 mantissa_bits) + mantissa in
     let real_exponent := (if exponent =? 0 then 1 else exponent) - exponent_bias - mantissa_bits in
     let synthetic_exponent := real_exponent - 2 in
     let u := 4 * real_mantissa - (if (mantissa =? 0) && (1 <? exponent) then 1 else 2) in
     let v := 4 * real_mantissa in
     let w := 4 * real_mantissa + 2 in
     let* (u, v, w, (all_u_zero, all_v_zero, all_w_zero), skipped_iters) := remove_digits synthetic_exponent u v w in
     let is_even := Z.even mantissa in
     let accept_smaller := is_even && all_u_zero in
     let accept_larger := is_even || negb all_w_zero in
     let w := if negb accept_larger then w - 1 else w in
     let* d := shortest_digits
       {| d_u := u; d_v := v; d_w := w; d_all_a_zero := accept_smaller; d_all_b_zero := all_v_zero; d_last_digit := 0;
          d_exponent10 := skipped_iters - Z.max (- synthetic_exponent) 0 |} in
     Ret (round_result sign d)).
