(* ===== verification/FloatFacts.v ===== *)
(** * Doubles in decimal: the loops and the products

    The facts about [FloatToDecimal] that do not depend on the tables: when the
    product with a truncated multiplier still gives the exact integer part, and
    what the loops of step 4' leave. *)

From S2P Require Import Prelude FloatTables FloatToDecimal.
Local Open Scope Z_scope.

(** ** How far a product stays away from a multiple

    Two vectors [(s, a * s - b * t)] and [(u, a * u - b * t')] of determinant one
    are a basis of the lattice of all pairs [(m, a * m - b * n)].  When the second
    coordinates have different signs, a pair with a small [m] cannot have a small
    second coordinate. *)

Lemma lattice_bound a b s t u t' m n :
  s * t' - u * t = 1 -> 0 <= s -> 0 <= u -> 0 < a * s - b * t -> 0 < b * t' - a * u -> 0 < m < s + u ->
  (0 <= a * m - b * n -> a * s - b * t <= a * m - b * n)
  /\ (a * m - b * n < 0 -> b * t' - a * u <= b * n - a * m).
Proof.
  intros Hdet Hs Hu Ha Hb Hm. set (x := m * t' - u * n). set (y := s * n - m * t).
  set (al := a * s - b * t) in *. set (be := b * t' - a * u) in *.
  assert (Em : m = x * s + y * u) by (unfold x, y; nia).
  assert (Er : a * m - b * n = x * al - y * be).
  { unfold x, y, al, be. transitivity ((s * t' - u * t) * (a * m - b * n)); [rewrite Hdet; lia|ring]. }
  rewrite Er. replace (b * n - a * m) with (y * be - x * al) by lia. clearbody x y al be. clear Er Hdet. split; intros Hr.
  - destruct (Z.le_gt_cases y 0); [|destruct (Z.le_gt_cases x 0); nia]. destruct (Z.le_gt_cases x 0); nia.
  - destruct (Z.le_gt_cases x 0); [|destruct (Z.le_gt_cases y 0); nia]. destruct (Z.le_gt_cases y 0); nia.
Qed.

(** ** Products with a truncated multiplier *)

(** A multiplier that was rounded down after dividing by [2 ^ k] *)
Lemma truncated_product a k q m : 0 <= k <= q -> 0 <= a -> 0 <= m ->
  m * 2 ^ k <= (m * a) mod 2 ^ q \/ k = 0 ->
  m * (a / 2 ^ k) / 2 ^ (q - k) = m * a / 2 ^ q.
Proof.
  intros Hk Ha Hm [Hbig| ->]; [|by rewrite Z.pow_0_r, Z.div_1_r, Z.sub_0_r].
  assert (Hp : 0 < 2 ^ k) by (apply Z.pow_pos_nonneg; lia). assert (Hp2 : 0 < 2 ^ (q - k)) by (apply Z.pow_pos_nonneg; lia).
  assert (Eq : 2 ^ q = 2 ^ (q - k) * 2 ^ k) by (rewrite <- Z.pow_add_r by lia; f_equal; lia).
  pose proof (Z.div_mod a (2 ^ k) ltac:(lia)) as Ea. pose proof (Z.mod_pos_bound a (2 ^ k) Hp) as Hr.
  pose proof (Z.div_mod (m * a) (2 ^ q) ltac:(nia)) as Ed. pose proof (Z.mod_pos_bound (m * a) (2 ^ q) ltac:(nia)) as Hd.
  set (c := a / 2 ^ k) in *. set (r := a mod 2 ^ k) in *. set (D := m * a / 2 ^ q) in *. set (rho := (m * a) mod 2 ^ q) in *.
  rewrite <- (Z.div_mul_cancel_r (m * c) (2 ^ (q - k)) (2 ^ k)), <- Eq by lia.
  symmetry. apply (Z.div_unique_pos _ _ _ (rho - m * r)); [nia|]. rewrite Ea in Ed. lia.
Qed.

(** A multiplier that was rounded up *)
Lemma rounded_up_product e d b k c r beta m : 0 < b -> 0 <= e -> 0 <= d -> e + d <= k -> c * b = 2 ^ k + r -> 0 < r ->
  0 <= m -> m * 2 ^ d * 2 ^ e * r < beta * 2 ^ k ->
  beta <= b - (m * 2 ^ d * 2 ^ e) mod b ->
  m * c / 2 ^ (k - (e + d)) = m * 2 ^ (e + d) / b.
Proof.
  intros Hb He Hd Hk Hc Hr Hm Hbeta Hfar.
  assert (Hpk : 0 < 2 ^ k) by (apply Z.pow_pos_nonneg; lia). assert (Hpe : 0 < 2 ^ (e + d)) by (apply Z.pow_pos_nonneg; lia).
  assert (Hp2 : 0 < 2 ^ (k - (e + d))) by (apply Z.pow_pos_nonneg; lia).
  assert (Ek : 2 ^ k = 2 ^ (k - (e + d)) * 2 ^ (e + d)) by (rewrite <- Z.pow_add_r by lia; f_equal; lia).
  assert (Ee : m * 2 ^ d * 2 ^ e = m * 2 ^ (e + d)) by (rewrite Z.pow_add_r by lia; ring). rewrite Ee in *.
  set (x := m * 2 ^ (e + d)) in *. pose proof (Z.div_mod x b ltac:(lia)) as Ex. pose proof (Z.mod_pos_bound x b Hb).
  set (D := x / b) in *. set (rho := x mod b) in *.
  rewrite <- (Z.div_mul_cancel_r (m * c) (2 ^ (k - (e + d))) (2 ^ (e + d))), <- Ek by lia.
  replace (m * c * 2 ^ (e + d)) with (c * x) by (unfold x; ring).
  assert (Hcx : c * x * b = D * b * 2 ^ k + (rho * 2 ^ k + x * r)).
  { transitivity ((c * b) * x); [ring|]. rewrite Hc, Ex at 1. rewrite <- Ex. nia. }
  assert (Hlt : 0 <= rho * 2 ^ k + x * r < b * 2 ^ k) by (unfold x in *; nia).
  symmetry. apply (Z.div_unique_pos _ _ _ (c * x - D * 2 ^ k)); [|lia]. nia.
Qed.

(** [multiply_and_shift] is the integer part when that fits in 64 bits. *)
Lemma multiply_and_shift_exact operand lo hi shift :
  0 <= operand < 2 ^ 64 -> 0 <= lo < 2 ^ 64 -> 0 <= hi < 2 ^ 64 -> 0 <= shift <= 128 ->
  operand * (lo + hi * 2 ^ 64) / 2 ^ shift < 2 ^ 64 ->
  multiply_and_shift operand (lo, hi) shift = Ret (operand * (lo + hi * 2 ^ 64) / 2 ^ shift).
Proof.
  intros Ho Hl Hh Hs Hfit. unfold multiply_and_shift. cbn [fst snd].
  pose proof (Z.div_mod (operand * lo) (2 ^ 64) ltac:(lia)) as Ea. pose proof (Z.mod_pos_bound (operand * lo) (2 ^ 64) ltac:(lia)) as Hc.
  unfold size_t at 1 3. set (a := operand * lo / 2 ^ 64) in *. set (c := (operand * lo) mod 2 ^ 64) in *.
  assert (Ha : 0 <= a < 2 ^ 64) by nia.
  assert (Hb : 0 <= operand * hi + a < 2 ^ 128) by (change (2 ^ 128) with (2 ^ 64 * 2 ^ 64); nia).
  assert (EX : operand * (lo + hi * 2 ^ 64) = (operand * hi + a) * 2 ^ 64 + c) by lia.
  rewrite EX in *. unfold u128. rewrite (Z.mod_small (operand * hi + a)) by lia. set (b := operand * hi + a) in *. clearbody a b c.
  assert (Hps : 0 < 2 ^ shift) by (apply Z.pow_pos_nonneg; lia).
  destruct (Z.ltb_spec shift 64) as [Hlt|Hge].
  - replace (0 <=? shift) with true by lia. cbn [andb]. set (p := 2 ^ (64 - shift)).
    assert (Hp : 0 < p) by (apply Z.pow_pos_nonneg; lia).
    assert (E64 : 2 ^ 64 = p * 2 ^ shift) by (unfold p; rewrite <- Z.pow_add_r by lia; f_equal; lia).
    assert (Esh : (b * 2 ^ 64 + c) / 2 ^ shift = b * p + c / 2 ^ shift).
    { rewrite E64, Z.mul_assoc, Z.add_comm, Z.div_add by lia. lia. }
    rewrite Esh in *. assert (Hcs : 0 <= c / 2 ^ shift < p).
    { split; [apply Z.div_pos; lia|]. apply Z.div_lt_upper_bound; [lia|]. rewrite Z.mul_comm, <- E64. lia. }
    rewrite Z.shiftl_mul_pow2 by lia. fold p. unfold size_t.
    assert (Hbp : 0 <= b * p < 2 ^ 64) by (split; [apply Z.mul_nonneg_nonneg; lia|lia]).
    rewrite (Z.mod_small (b * p) (2 ^ 128)), Z.mod_small by lia. f_equal.
    rewrite Z.lor_comm, Z.shiftr_div_pow2 by lia. unfold p in *. rewrite <- Z.shiftl_mul_pow2 at 1 by lia. apply lor_shiftl_add; lia.
  - replace (0 <=? shift) with true by lia. replace (shift <? 0) with false by lia. replace (64 <=? shift) with true by lia.
    replace (shift <=? 128) with true by lia. cbn [andb verify]. f_equal. rewrite Z.shiftr_div_pow2 by lia.
    assert (Esh : (b * 2 ^ 64 + c) / 2 ^ shift = b / 2 ^ (shift - 64)).
    { replace shift with (64 + (shift - 64)) at 1 by lia. rewrite Z.pow_add_r, <- Z.div_div by lia.
      rewrite Z.add_comm, Z.div_add, (Z.div_small c) by lia. done. }
    rewrite Esh in *. unfold size_t. rewrite Z.mod_small; [done|]. split; [apply Z.div_pos; lia|lia].
Qed.

(** ** Divisibility *)

Lemma pos_trailing_zeroes_nonneg p : 0 <= pos_trailing_zeroes p.
Proof. induction p; cbn; lia. Qed.

Lemma count_trailing_zeroes_spec q x : 0 < x -> 0 <= q -> (q <=? count_trailing_zeroes x) = (x mod 2 ^ q =? 0).
Proof.
  intros Hx Hq. destruct x as [|p|p]; try lia. clear Hx. unfold count_trailing_zeroes. revert q Hq.
  induction p as [p IH|p IH|]; intros q Hq; cbn [pos_trailing_zeroes]; destruct (Z.eq_dec q 0) as [->|Hn].
  all: try (rewrite Z.pow_0_r, Z.mod_1_r; pose proof (pos_trailing_zeroes_nonneg p); lia).
  all: try done.
  - replace (q <=? 0) with false by lia. symmetry. apply Z.eqb_neq. intros E. apply Z.mod_divide in E; [|apply Z.pow_nonzero; lia].
    destruct E as [z Hz]. replace q with (Z.succ (q - 1)) in Hz by lia. rewrite Z.pow_succ_r in Hz by lia. lia.
  - replace q with (Z.succ (q - 1)) at 2 by lia. rewrite Z.pow_succ_r by lia. change (Z.pos p~0) with (2 * Z.pos p).
    rewrite Z.mul_mod_distr_l by (try apply Z.pow_nonzero; lia). specialize (IH (q - 1) ltac:(lia)).
    destruct (_ mod _ =? 0) eqn:E in IH; lia.
  - replace (q <=? 0) with false by lia. symmetry. apply Z.eqb_neq. intros E. rewrite Z.mod_1_l in E; [done|].
    apply Z.pow_gt_1; lia.
Qed.

(** Greedy division by [5 ^ 16], ..., [5 ^ 1] counts the factors of a number
    with less than 32 of them. *)
Lemma power_of_5_loop_spec c t result : 0 <= t < 32 -> c mod 5 <> 0 ->
  power_of_5_loop [(152587890625, 16); (390625, 8); (625, 4); (25, 2); (5, 1)] (5 ^ t * c) result = result + t.
Proof.
  intros Ht Hc.
  assert (Hstep : forall weight powers t result, 0 < weight -> 0 <= t < 2 * weight ->
    power_of_5_loop ((5 ^ weight, weight) :: powers) (5 ^ t * c) result
    = if weight <=? t then power_of_5_loop powers (5 ^ (t - weight) * c) (result + weight) else power_of_5_loop powers (5 ^ t * c) result).
  { clear t result Ht. intros weight powers t result Hw Ht. cbn [power_of_5_loop]. assert (Hp : 0 < 5 ^ weight) by (apply Z.pow_pos_nonneg; lia).
    destruct (Z.leb_spec weight t) as [Hle|Hlt].
    - replace (5 ^ t * c) with (5 ^ (t - weight) * c * 5 ^ weight)
        by (rewrite <- Z.mul_assoc, (Z.mul_comm c), Z.mul_assoc, <- Z.pow_add_r by lia; do 2 f_equal; lia).
      by rewrite Z.mod_mul, Z.div_mul by lia.
    - destruct (_ =? 0) eqn:E; [|done]. exfalso. apply Z.eqb_eq, Z.mod_divide in E as [z Hz]; [|lia].
      apply Hc, Z.mod_divide; [lia|]. exists (z * 5 ^ (weight - t - 1)). apply (Z.mul_reg_l _ _ (5 ^ t)); [apply Z.pow_nonzero; lia|].
      rewrite Hz. replace weight with (t + (weight - t - 1 + 1)) at 1 by lia. rewrite !Z.pow_add_r by lia. ring. }
  change 152587890625 with (5 ^ 16). change 390625 with (5 ^ 8). change 625 with (5 ^ 4). change 25 with (5 ^ 2). change 5 with (5 ^ 1) at 5.
  rewrite Hstep by lia. destruct (16 <=? t) eqn:E1; rewrite Hstep by lia; destruct (8 <=? _) eqn:E2; rewrite Hstep by lia; destruct (4 <=? _) eqn:E3; rewrite Hstep by lia; destruct (2 <=? _) eqn:E4; rewrite Hstep by lia; destruct (1 <=? _) eqn:E5; cbn [power_of_5_loop]; lia.
Qed.

Lemma factor_5 x : 0 < x -> exists t c, x = 5 ^ t * c /\ 0 <= t /\ c mod 5 <> 0 /\ 0 < c.
Proof.
  intros Hx. pose proof (Z.lt_le_incl _ _ Hx) as H0. revert Hx. pattern x. apply Z_lt_induction; [clear|exact H0]. intros x IH Hx.
  destruct (Z.eq_dec (x mod 5) 0) as [E|E].
  - apply Z.mod_divide in E as [y Hy]; [|lia]. destruct (IH y ltac:(lia) ltac:(lia)) as (t & c & -> & Ht & Hc & Hpos).
    exists (t + 1), c. rewrite Z.pow_add_r by lia. split; [lia|]. split; [lia|done].
  - exists 0, x. split; [by rewrite Z.pow_0_r, Z.mul_1_l|done].
Qed.

Lemma is_divisible_by_pow_5_spec x power : 0 < x < 2 ^ 64 -> 0 <= power -> is_divisible_by_pow_5 x power = (x mod 5 ^ power =? 0).
Proof.
  intros Hx Hp. unfold is_divisible_by_pow_5. replace (x =? 0) with false by lia. rewrite orb_false_r.
  destruct (Z.leb_spec power 0) as [Hle|Hgt].
  { replace power with 0 by lia. by rewrite Z.pow_0_r, Z.mod_1_r. }
  destruct (Z.leb_spec 28 power) as [Hbig|Hsmall].
  { symmetry. apply Z.eqb_neq. rewrite Z.mod_small; [lia|]. pose proof (Z.pow_le_mono_r 5 28 power ltac:(lia) ltac:(lia)) as Hm.
    change (5 ^ 28) with 37252902984619140625 in Hm. lia. }
  destruct (factor_5 x) as (t & c & -> & Ht & Hc & Hpos); [lia|].
  assert (Ht28 : t < 28).
  { destruct (Z.lt_ge_cases t 28); [done|]. pose proof (Z.pow_le_mono_r 5 28 t ltac:(lia) ltac:(lia)) as Hm.
    change (5 ^ 28) with 37252902984619140625 in Hm. nia. }
  rewrite power_of_5_loop_spec, Z.add_0_l by (done || lia).
  destruct (Z.leb_spec power t) as [Hle|Hlt]; symmetry.
  - apply Z.eqb_eq, Z.mod_divide; [apply Z.pow_nonzero; lia|]. exists (5 ^ (t - power) * c).
    replace t with (t - power + power) at 1 by lia. rewrite Z.pow_add_r by lia. ring.
  - apply Z.eqb_neq. intros [z Hz]%Z.mod_divide; [|apply Z.pow_nonzero; lia]. apply Hc, Z.mod_divide; [lia|].
    exists (z * 5 ^ (power - t - 1)). apply (Z.mul_reg_l _ _ (5 ^ t)); [apply Z.pow_nonzero; lia|].
    rewrite Hz. replace power with (t + (power - t - 1 + 1)) at 1 by lia. rewrite !Z.pow_add_r by lia. ring.
Qed.

(** ** The loops of step 4' *)

Section digits.
(** The numbers of step 3', the flags, and the exponent that goes with them *)
Variables (u v w : Z) (accept_smaller all_v_zero : bool) (exponent10 : Z).
Hypothesis Hu : 0 < u.
Hypothesis Huv : u <= v.
Hypothesis Hvw : v <= w.
Hypothesis Huw : u < w.
Hypothesis Hw : w < 2 ^ 64.

Local Abbreviation ten j := (10 ^ Z.of_nat j).

(** The variables after [j] digits have been dropped *)
Definition digits_at (j : nat) : Digits :=
  {| d_u := u / ten j; d_v := v / ten j; d_w := w / ten j;
     d_all_a_zero := accept_smaller && (u mod ten j =? 0);
     d_all_b_zero := all_v_zero && match j with O => true | S i => v mod ten i =? 0 end;
     d_last_digit := match j with O => 0 | S i => (v / ten i) mod 10 end;
     d_exponent10 := exponent10 + Z.of_nat j |}.

Lemma ten_pos j : 0 < ten j.
Proof. apply Z.pow_pos_nonneg; lia. Qed.

Lemma ten_succ j : ten (S j) = ten j * 10.
Proof. rewrite Nat2Z.inj_succ, Z.pow_succ_r by lia. lia. Qed.

Lemma div_ten_succ x j : x / ten (S j) = x / ten j / 10.
Proof. pose proof (ten_pos j). rewrite ten_succ, Z.div_div by lia. done. Qed.

Lemma mod_ten_succ x j : x mod ten (S j) = x mod ten j + ten j * ((x / ten j) mod 10).
Proof. pose proof (ten_pos j). rewrite ten_succ, Z.rem_mul_r by lia. lia. Qed.

Lemma zero_ten_succ x j : (x mod ten (S j) =? 0) = (x mod ten j =? 0) && ((x / ten j) mod 10 =? 0).
Proof.
  pose proof (ten_pos j). rewrite mod_ten_succ. pose proof (Z.mod_pos_bound x (ten j) ltac:(lia)).
  pose proof (Z.mod_pos_bound (x / ten j) 10 ltac:(lia)). destruct (Z.eqb_spec (x mod ten j) 0), (Z.eqb_spec ((x / ten j) mod 10) 0); cbn [andb]; nia.
Qed.

Lemma drop_digit_at j all_a_zero : all_a_zero = accept_smaller && (u mod ten (S j) =? 0) ->
  drop_digit (digits_at j) all_a_zero = digits_at (S j).
Proof.
  intros ->. unfold drop_digit, digits_at. cbn [d_u d_v d_w d_all_b_zero d_last_digit d_exponent10].
  rewrite !div_ten_succ. f_equal; [|lia]. rewrite <- andb_assoc. f_equal. destruct j as [|j]; [by rewrite Z.pow_0_r, Z.mod_1_r|].
  by rewrite zero_ten_succ.
Qed.

Lemma shorten_loop_ok fuel : forall j, u / ten j < w / ten j -> w < ten (j + fuel) -> (0 < fuel)%nat ->
  exists j', shorten_loop fuel (digits_at j) = Ret (digits_at j') /\ u / ten j' < w / ten j' /\ u / ten (S j') = w / ten (S j') /\ (j <= j')%nat.
Proof.
  induction fuel as [|fuel IH]; intros j Hlt Hf Hpos; [lia|]. cbn [shorten_loop]. cbn [d_u d_w d_all_a_zero digits_at].
  rewrite <- !div_ten_succ, <- andb_assoc, <- zero_ten_succ. pose proof (ten_pos (S j)).
  pose proof (Z.div_le_mono u w (ten (S j)) ltac:(lia) ltac:(lia)).
  destruct (Z.ltb_spec (u / ten (S j)) (w / ten (S j))) as [Hl|Hge]; [|exists j; split; [done|]; split; [done|]; split; [lia|done]].
  change (accept_smaller && (u mod ten (S j) =? 0)) with (accept_smaller && (u mod ten (S j) =? 0)).
  rewrite drop_digit_at by done. destruct (IH (S j)) as (j' & -> & H1 & H2 & H3); [done|by replace (S j + fuel)%nat with (j + S fuel)%nat by lia| |].
  - destruct fuel; [|lia]. exfalso. rewrite Nat.add_1_r in Hf. rewrite (Z.div_small w) in Hl by lia. pose proof (Z.div_pos u (ten (S j)) ltac:(lia) ltac:(lia)). lia.
  - exists j'. split; [done|]. split; [done|]. split; [done|lia].
Qed.

Lemma strip_zeroes_loop_ok fuel : forall j, accept_smaller && (u mod ten j =? 0) = true -> u < ten (j + fuel) -> (0 < fuel)%nat ->
  exists j', strip_zeroes_loop fuel (digits_at j) = Ret (digits_at j') /\ (j <= j')%nat
    /\ accept_smaller && (u mod ten j' =? 0) = true /\ u mod ten (S j') <> 0.
Proof.
  induction fuel as [|fuel IH]; intros j Ha Hf Hpos; [lia|]. cbn [strip_zeroes_loop]. cbn [d_u d_all_a_zero digits_at].
  apply andb_prop in Ha as [Hs Hz]. pose proof (zero_ten_succ u j) as E. rewrite Hz in E. cbn [andb] in E.
  revert E. destruct ((u / ten j) mod 10 =? 0); intros E.
  2:{ exists j. split; [done|]. split; [done|]. split; [by rewrite Hs, Hz|by apply Z.eqb_neq]. }
  rewrite drop_digit_at by (by rewrite Hs, Hz, E). destruct (IH (S j)) as (j' & -> & H1 & H2 & H3).
  - by rewrite Hs, E.
  - by replace (S j + fuel)%nat with (j + S fuel)%nat by lia.
  - destruct fuel; [|lia]. exfalso. rewrite Nat.add_1_r in Hf. rewrite Z.mod_small in E by lia. lia.
  - exists j'. split; [done|]. split; [lia|done].
Qed.

(** A number with [j] dropped digits that lies between the bounds *)
Definition admissible (j : nat) (y : Z) : Prop :=
  (u < y * ten j \/ accept_smaller = true /\ u = y * ten j) /\ y * ten j <= w.

Lemma admissible_iff j y :
  admissible j y <-> (u / ten j < y \/ accept_smaller && (u mod ten j =? 0) = true /\ y = u / ten j) /\ y <= w / ten j.
Proof.
  pose proof (ten_pos j) as Ht. unfold admissible. pose proof (Z.div_mod u (ten j) ltac:(lia)). pose proof (Z.mod_pos_bound u (ten j) Ht).
  pose proof (Z.div_mod w (ten j) ltac:(lia)). pose proof (Z.mod_pos_bound w (ten j) Ht).
  set (t := ten j) in *. set (a := u / t) in *. set (b := w / t) in *. clearbody t a b.
  assert (Hw' : y * t <= w <-> y <= b) by (split; intros; nia). rewrite Hw'.
  assert (Hl : u < y * t <-> a < y) by (split; intros; nia). rewrite Hl, andb_true_iff, Z.eqb_eq.
  assert (He : u = y * t <-> u mod t = 0 /\ y = a) by (split; [intros E; assert (a = y) by nia; nia|intros [Em ->]; lia]). rewrite He. tauto.
Qed.

Lemma shortest_digits_ok : exists j, shortest_digits (digits_at 0) = Ret (digits_at j)
  /\ (u / ten j < w / ten j \/ accept_smaller && (u mod ten j =? 0) = true /\ u / ten j = w / ten j)
  /\ (u / 10 < w / 10 -> (0 < j)%nat) /\ forall y, ~ admissible (S j) y.
Proof.
  unfold shortest_digits. destruct (shorten_loop_ok digit_fuel 0) as (j & -> & Hlt & Heq & _).
  { by rewrite Z.pow_0_r, !Z.div_1_r. } { pose proof Hw. change (ten (0 + digit_fuel)) with (10 ^ 21). lia. } { unfold digit_fuel. lia. }
  cbn [res_bind]. assert (Hj : u / 10 < w / 10 -> (0 < j)%nat).
  { intros H10. destruct j; [|lia]. exfalso. change (ten 1) with 10 in Heq. lia. }
  destruct (d_all_a_zero (digits_at j)) eqn:Ea; cbn [d_all_a_zero digits_at] in Ea.
  - destruct (strip_zeroes_loop_ok digit_fuel j Ea) as (j' & -> & Hle & Ha' & Hnz).
    { pose proof Hw. pose proof Huw. change (10 ^ 21) with (ten 21). apply Z.lt_le_trans with (10 ^ 21); [lia|]. apply Z.pow_le_mono_r; unfold digit_fuel; lia. }
    { unfold digit_fuel. lia. }
    exists j'. assert (Hsame : forall i, (j < i)%nat -> u / ten i = w / ten i).
    { intros i Hi. induction Hi as [|i Hi IH]; [done|]. rewrite !div_ten_succ. by rewrite IH. }
    split; [done|]. split; [|split; [intros; specialize (Hj ltac:(done)); lia|]].
    + destruct (Nat.eq_dec j j') as [<-|]; [by left|right; split; [done|apply Hsame; lia]].
    + intros y [[Hy|[Hc _]] Hyw]%admissible_iff; [rewrite (Hsame (S j')) in Hy by lia; lia|].
      by apply andb_prop in Hc as [_ Hc%Z.eqb_eq].
  - exists j. split; [done|]. split; [by left|]. split; [done|]. intros y [[Hy|[Hc _]] Hyw]%admissible_iff; [lia|].
    rewrite zero_ten_succ, andb_assoc, Ea in Hc. done.
Qed.

(** Rounding: [v] is the integer part of [p / b]. *)
Section rounding.
Variables p b : Z.
Hypothesis Hb : 0 < b.
Hypothesis Hv : v = p / b.
Hypothesis Hz : all_v_zero = (p mod b =? 0).

Definition wants_round_down (d : Digits) : bool :=
  (d_last_digit d <? 5) || (d_all_b_zero d && (d_last_digit d =? 5) && (d_v d mod 2 =? 0)).

Lemma half_way j : b = 1 \/ (0 < j)%nat ->
  let r := p - v / ten j * ten j * b in
  0 <= r < ten j * b /\ if wants_round_down (digits_at j) then 2 * r <= ten j * b else ten j * b <= 2 * r.
Proof.
  intros Hj r. pose proof (Z.div_mod p b ltac:(lia)) as Ep. pose proof (Z.mod_pos_bound p b Hb) as Hp. rewrite <- Hv in Ep.
  destruct j as [|j].
  - destruct Hj as [Hb1|]; [|lia]. unfold r. rewrite Z.pow_0_r, Z.div_1_r. unfold wants_round_down. cbn. lia.
  - pose proof (ten_pos j) as Ht. unfold wants_round_down. cbn [d_last_digit d_all_b_zero d_v digits_at].
    pose proof (Z.div_mod v (ten (S j)) ltac:(pose proof (ten_pos (S j)); lia)) as Ev. rewrite mod_ten_succ in Ev.
    pose proof (Z.mod_pos_bound v (ten j) Ht). pose proof (Z.mod_pos_bound (v / ten j) 10 ltac:(lia)).
    assert (Er : r = (v mod ten j + ten j * ((v / ten j) mod 10)) * b + p mod b) by (unfold r; nia). clearbody r.
    rewrite ten_succ in *. set (t := ten j) in *. set (l := (v / t) mod 10) in *. set (r' := v mod t) in *.
    assert (Hfrac : 0 <= r' * b + p mod b < t * b) by nia.
    assert (Er2 : r = l * (t * b) + (r' * b + p mod b)) by lia. split; [nia|].
    destruct (Z.ltb_spec l 5); cbn [orb]; [nia|]. rewrite Hz. destruct (Z.eqb_spec l 5) as [->|]; [|rewrite andb_false_r; cbn [andb]; nia].
    destruct (Z.eqb_spec (p mod b) 0), (Z.eqb_spec r' 0); cbn [andb]; [|lia..]. destruct (_ =? 0); lia.
Qed.

Definition rounded (j : nat) : Z := ef_fraction (round_result false (digits_at j)).

Lemma rounded_cases j : b = 1 \/ (0 < j)%nat ->
  (u / ten j < w / ten j \/ accept_smaller && (u mod ten j =? 0) = true /\ u / ten j = w / ten j) ->
  admissible j (rounded j) /\ forall y, admissible j y -> Z.abs (rounded j * ten j * b - p) <= Z.abs (y * ten j * b - p).
Proof.
  intros Hj Hne. destruct (half_way j Hj) as [Hr Hhalf]. set (r := p - v / ten j * ten j * b) in *. pose proof (ten_pos j) as Ht.
  pose proof (Z.div_le_mono u v (ten j) ltac:(lia) Huv). pose proof (Z.div_le_mono v w (ten j) ltac:(lia) Hvw).
  unfold rounded, round_result. cbn [ef_fraction]. fold (wants_round_down (digits_at j)).
  assert (Htb : 0 < ten j * b) by nia.
  assert (Hd : forall y, y * ten j * b - p = (y - v / ten j) * (ten j * b) - r) by (intros; unfold r; ring).
  cbn [d_u d_v d_w d_all_a_zero digits_at]. setoid_rewrite admissible_iff. setoid_rewrite Hd.
  set (tb := ten j * b) in *. set (a := u / ten j) in *. set (m := v / ten j) in *. set (c := w / ten j) in *.
  set (aa := accept_smaller && (u mod ten j =? 0)) in *. clearbody r tb a m c aa. clear - Hr Hhalf Hne H H0 Htb.
  destruct (wants_round_down (digits_at j)) eqn:Ew, (Z.eqb_spec a m) as [Ea|Ea], aa, (Z.ltb_spec c (m + 1)); cbn [negb orb andb] in *.
  all: split; [intuition lia|intros y [Hy1 Hy2]].
  all: assert (y <= m \/ m + 1 <= y) as [Hle|Hge] by lia; nia.
Qed.

End rounding.
End digits.
