(* ===== verification/FloatExact.v ===== *)
(** * Doubles in decimal: the tables are precise enough

    Every multiplier of [lookup_table_lt] and [lookup_table_ge] is checked once,
    by computation, with its certificate: it is the power that it stands for, cut
    to 128 bits, and its product with any 55-bit number has the integer part of
    the exact product.  So step 3' of the conversion is exact for every
    exponent. *)

From S2P Require Import Prelude FloatTables FloatToDecimal FloatFacts.
Local Open Scope Z_scope.

(** The largest number that is multiplied *)
Definition max_operand : Z := 4 * (2 ^ 53 - 1) + 2.

(** ** Negative exponents: [- n], with [i] the index and [q] the digits removed *)

Definition lt_skipped (n : Z) : Z := Z.max 0 (n * log10_5_num / log10_5_denum - 1).
Definition lt_shift (i : Z) : Z := Z.max 0 (((log2_5_num + 1) * i + log2_5_denum - 1) / log2_5_denum + table_b0).

(** The exponents with index [i] lie between these. *)
Definition lt_first (i : Z) : Z := (i - 2) * 14369 / 4326 + 1.
Definition lt_last (i : Z) : Z := Z.max 1 ((i - 1) * 14369 / 4326).

Definition lt_row_ok (i power : Z) (entry certificate : Z * Z) : bool :=
  let k := lt_shift i in
  let q0 := lt_skipped (lt_first i) in
  let q1 := lt_skipped (lt_last i) in
  (0 <=? entry.1) && (entry.1 <? 2 ^ 64) && (0 <=? entry.2) && (entry.2 <? 2 ^ 64)
  && (entry.1 + Z.shiftl entry.2 64 =? Z.shiftr power k)
  && ((q1 =? 0) || (Z.shiftl 10 q1 <=? power)) && (max_operand * power <? Z.shiftl 1 (64 + q0))
  && (k <=? q0) && (q1 - k <=? 128)
  && ((k =? 0)
      || let (s, u) := certificate in
         let x := power * s in
         let t := Z.shiftr x q0 in
         let t' := Z.shiftr (power * u) q0 + 1 in
         (s * t' - u * t =? 1) && (0 <=? s) && (0 <=? u) && (max_operand <? s + u)
         && (Z.shiftl max_operand k <=? x - Z.shiftl t q0)).

Fixpoint lt_rows_ok (i power : Z) (table certificates : list (Z * Z)) : bool :=
  match table with
  | [] => true
  | entry :: table =>
      if lt_shift i =? 0 then lt_row_ok i power entry (0, 0) && lt_rows_ok (i + 1) (power * 5) table certificates
      else
        match certificates with
        | [] => false
        | certificate :: certificates =>
            lt_row_ok i power entry certificate && lt_rows_ok (i + 1) (power * 5) table certificates
        end
  end.

(** ** Exponents from zero on: [q] is the index and the digits removed *)

Definition ge_skipped (e : Z) : Z := Z.max 0 (e * log10_2_num / log10_2_denum - 1).
Definition ge_shift (q : Z) : Z := log2_5_num * q / log2_5_denum + table_b1.

Definition ge_first (q : Z) : Z := if q =? 0 then 0 else ((q + 1) * 4671 + 1405) / 1406.
Definition ge_last (q : Z) : Z := ((q + 2) * 4671 + 1405) / 1406 - 1.

Definition ge_row_ok (q power : Z) (entry : Z * Z) (certificate : Z * Z * Z * Z) : bool :=
  let k := ge_shift q in
  let e0 := ge_first q in
  let e1 := ge_last q in
  let c := entry.1 + Z.shiftl entry.2 64 in
  let r := c * power - Z.shiftl 1 k in
  let reach := Z.shiftl max_operand (e1 - q) in
  (0 <=? entry.1) && (entry.1 <? 2 ^ 64) && (0 <=? entry.2) && (entry.2 <? 2 ^ 64)
  && (0 <? r) && (r <=? power) && (q <=? e0) && (e0 <=? e1)
  && ((q =? 0) || (10 * power <=? Z.shiftl 1 (e0 - q))) && (reach <? Z.shiftl power 64)
  && (0 <=? q + k - e1) && (q + k - e0 <=? 128)
  && ((reach * r <? Z.shiftl 1 k)
      || let '(s, t, u, t') := certificate in
         let beta := power * t' - Z.shiftl u (e0 - q) in
         (s * t' - u * t =? 1) && (0 <=? s) && (0 <=? u) && (Z.shiftl max_operand (e1 - e0) <? s + u)
         && (0 <? Z.shiftl s (e0 - q) - power * t) && (0 <? beta) && (reach * r <? Z.shiftl beta k)).

Fixpoint ge_rows_ok (q power : Z) (table : list (Z * Z)) (certificates : list (Z * Z * Z * Z)) : bool :=
  match table with
  | [] => true
  | entry :: table =>
      if q <? 29 then ge_row_ok q power entry (0, 0, 0, 0) && ge_rows_ok (q + 1) (power * 5) table certificates
      else
        match certificates with
        | [] => false
        | certificate :: certificates =>
            ge_row_ok q power entry certificate && ge_rows_ok (q + 1) (power * 5) table certificates
        end
  end.

(** ** The checks *)

Lemma lt_table_ok : lt_rows_ok 0 1 lookup_table_lt lt_certificates = true.
Proof. vm_compute. reflexivity. Qed.

Lemma ge_table_ok : ge_rows_ok 0 1 lookup_table_ge ge_certificates = true.
Proof. vm_compute. reflexivity. Qed.

Definition lt_exponent_ok (n : Z) : bool :=
  let i := n - lt_skipped n in (1 <=? i) && (i <? 326) && (lt_first i <=? n) && (n <=? lt_last i).

Definition ge_exponent_ok (e : Z) : bool :=
  let q := ge_skipped e in (0 <=? q) && (q <? 291) && (ge_first q <=? e) && (e <=? ge_last q).

Lemma lt_exponents_ok : forallb lt_exponent_ok (seqZ 1 1076) = true.
Proof. vm_compute. reflexivity. Qed.

Lemma ge_exponents_ok : forallb ge_exponent_ok (seqZ 0 970) = true.
Proof. vm_compute. reflexivity. Qed.

Lemma forallb_seqZ p start len n : forallb p (seqZ start len) = true -> start <= n < start + len -> p n = true.
Proof. intros Hall Hn. rewrite forallb_forall in Hall. apply Hall, list_elem_of_In, elem_of_seqZ. lia. Qed.

Lemma lt_row table : forall i certificates, 0 <= i -> lt_rows_ok i (5 ^ i) table certificates = true ->
  forall j entry, table !! j = Some entry -> exists certificate, lt_row_ok (i + Z.of_nat j) (5 ^ (i + Z.of_nat j)) entry certificate = true.
Proof.
  induction table as [|e table IH]; intros i certificates Hi Hok j entry Hj; [done|]. cbn [lt_rows_ok] in Hok.
  assert (Hstep : forall c certificates', lt_row_ok i (5 ^ i) e c = true -> lt_rows_ok (i + 1) (5 ^ i * 5) table certificates' = true ->
    exists certificate, lt_row_ok (i + Z.of_nat j) (5 ^ (i + Z.of_nat j)) entry certificate = true).
  { intros c certificates' Hc Hrest. destruct j as [|j]; [injection Hj as <-; exists c; by rewrite Z.add_0_r|]. cbn [lookup list_lookup] in Hj.
    rewrite Z.mul_comm, <- Z.pow_succ_r in Hrest by lia. replace (i + Z.of_nat (S j)) with (i + 1 + Z.of_nat j) by lia. by apply (IH (i + 1) certificates'); [lia|..]. }
  destruct (_ =? 0); [|destruct certificates as [|c certificates]; [done|]]; apply andb_prop in Hok as [H1 H2]; by eapply Hstep.
Qed.

Lemma ge_row table : forall q certificates, 0 <= q -> ge_rows_ok q (5 ^ q) table certificates = true ->
  forall j entry, table !! j = Some entry -> exists certificate, ge_row_ok (q + Z.of_nat j) (5 ^ (q + Z.of_nat j)) entry certificate = true.
Proof.
  induction table as [|e table IH]; intros q certificates Hq Hok j entry Hj; [done|]. cbn [ge_rows_ok] in Hok.
  assert (Hstep : forall c certificates', ge_row_ok q (5 ^ q) e c = true -> ge_rows_ok (q + 1) (5 ^ q * 5) table certificates' = true ->
    exists certificate, ge_row_ok (q + Z.of_nat j) (5 ^ (q + Z.of_nat j)) entry certificate = true).
  { intros c certificates' Hc Hrest. destruct j as [|j]; [injection Hj as <-; exists c; by rewrite Z.add_0_r|]. cbn [lookup list_lookup] in Hj.
    rewrite Z.mul_comm, <- Z.pow_succ_r in Hrest by lia. replace (q + Z.of_nat (S j)) with (q + 1 + Z.of_nat j) by lia. by apply (IH (q + 1) certificates'); [lia|..]. }
  destruct (_ <? 29); [|destruct certificates as [|c certificates]; [done|]]; apply andb_prop in Hok as [H1 H2]; by eapply Hstep.
Qed.

Lemma lt_skipped_mono m n : m <= n -> lt_skipped m <= lt_skipped n.
Proof. intros. unfold lt_skipped, log10_5_num, log10_5_denum. pose proof (Z.div_le_mono (m * 10043) (n * 10043) 14369 ltac:(lia) ltac:(lia)). lia. Qed.

Lemma pow2_pos n : 0 <= n -> 0 < 2 ^ n.
Proof. intros. apply Z.pow_pos_nonneg; lia. Qed.

Lemma pow5_pos n : 0 <= n -> 0 < 5 ^ n.
Proof. intros. apply Z.pow_pos_nonneg; lia. Qed.

(** ** Step 3' for negative exponents *)

Lemma lt_exact n (q := lt_skipped n) (i := n - q) : 1 <= n <= 1076 ->
  1 <= i /\ 0 <= q /\ (q = 0 \/ 10 * 2 ^ q <= 5 ^ i) /\ max_operand * 5 ^ i < 2 ^ 64 * 2 ^ q /\
  exists entry, lookup_table_lt !! Z.to_nat i = Some entry
    /\ forall m, 0 < m <= max_operand -> multiply_and_shift m entry (q - lt_shift i) = Ret (m * 5 ^ i / 2 ^ q).
Proof.
  intros Hn. pose proof (forallb_seqZ _ _ _ n lt_exponents_ok ltac:(lia)) as Hi. unfold lt_exponent_ok in Hi. fold q i in Hi.
  assert (Hq : 0 <= q) by (unfold q, lt_skipped; lia).
  assert (Hlen : length lookup_table_lt = 326%nat) by reflexivity.
  destruct (lookup_lt_is_Some_2 lookup_table_lt (Z.to_nat i)) as [entry He]; [rewrite Hlen; blia|].
  destruct (lt_row _ 0 _ ltac:(lia) lt_table_ok _ _ He) as [[s u] Hrow]. replace (0 + Z.of_nat (Z.to_nat i)) with i in Hrow by blia.
  unfold lt_row_ok in Hrow. assert (Hk : 0 <= lt_shift i) by (unfold lt_shift; lia).
  pose proof (lt_skipped_mono (lt_first i) n ltac:(blia)) as Hq0. pose proof (lt_skipped_mono n (lt_last i) ltac:(blia)) as Hq1. fold q in Hq0, Hq1.
  assert (Hq00 : 0 <= lt_skipped (lt_first i)) by (unfold lt_skipped; lia).
  set (q0 := lt_skipped (lt_first i)) in *. set (q1 := lt_skipped (lt_last i)) in *. set (k := lt_shift i) in *.
  rewrite !Z.shiftr_div_pow2, !Z.shiftl_mul_pow2 in Hrow by lia. rewrite !andb_true_iff in Hrow.
  destruct Hrow as (((((((((Hl0 & Hl1) & Hh0) & Hh1) & Hentry) & Hunit) & Hbig) & Hkq) & Hs) & Hcert).
  pose proof (pow5_pos i ltac:(blia)) as Hp5. pose proof (pow2_pos q Hq) as Hp2. pose proof (pow2_pos q0 Hq00) as Hpq0.
  pose proof (Z.pow_le_mono_r 2 q0 q ltac:(lia) Hq0) as Hm0. pose proof (Z.pow_le_mono_r 2 q q1 ltac:(lia) Hq1) as Hm1.
  rewrite Z.pow_add_r in Hbig by lia. split; [blia|]. split; [done|].
  split; [destruct (q1 =? 0) eqn:E; cbn [orb] in Hunit; [left; lia|right; lia]|]. split; [nia|].
  exists entry. split; [done|]. intros m Hm. destruct entry as [lo hi]. cbn [fst snd] in *.
  apply Z.eqb_eq in Hentry.
  assert (Hexact : m * (lo + hi * 2 ^ 64) / 2 ^ (q - k) = m * 5 ^ i / 2 ^ q).
  { rewrite Hentry. apply truncated_product; [lia..|]. destruct (Z.eqb_spec k 0) as [Ek|Ek]; [by right|left]. cbn [orb] in Hcert.
    rewrite !andb_true_iff in Hcert. destruct Hcert as ((((Hdet & Hs0) & Hu0) & Hsu) & Hal).
    pose proof (Z.div_mod (5 ^ i * u) (2 ^ q0) ltac:(lia)). pose proof (Z.mod_pos_bound (5 ^ i * u) (2 ^ q0) Hpq0).
    assert (Hk2 : 0 < max_operand * 2 ^ k) by (pose proof (pow2_pos k Hk); unfold max_operand; lia).
    destruct (lattice_bound (5 ^ i) (2 ^ q0) s (5 ^ i * s / 2 ^ q0) u (5 ^ i * u / 2 ^ q0 + 1) m (m * 5 ^ i / 2 ^ q0)) as [Hfar _]; [lia..|].
    pose proof (Z.div_mod (m * 5 ^ i) (2 ^ q0) ltac:(lia)). pose proof (Z.mod_pos_bound (m * 5 ^ i) (2 ^ q0) Hpq0).
    assert (Hmod : (m * 5 ^ i) mod 2 ^ q0 <= (m * 5 ^ i) mod 2 ^ q).
    { replace q with (q0 + (q - q0)) by lia. rewrite Z.pow_add_r, Z.rem_mul_r by (try apply Z.pow_nonzero; try (apply pow2_pos); lia).
      pose proof (Z.mod_pos_bound (m * 5 ^ i / 2 ^ q0) (2 ^ (q - q0)) ltac:(apply pow2_pos; lia)). nia. }
    pose proof (pow2_pos k Hk). nia. }
  rewrite <- Hexact. apply multiply_and_shift_exact; [unfold max_operand in *; lia|lia..|]. rewrite Hexact. apply Z.div_lt_upper_bound; [lia|]. nia.
Qed.

(** ** Step 3' for the other exponents *)

Lemma mul_shift m a b : 0 <= a -> 0 <= b -> m * 2 ^ a * 2 ^ b = m * 2 ^ (a + b).
Proof. intros. rewrite Z.pow_add_r by lia. ring. Qed.

(** The distance of a product to the next multiple, from a certificate or
    because it is at least one *)
Lemma ge_far power e d x r k s t u t' m : 0 < power -> 0 <= e -> 0 <= x <= d -> 0 < m <= max_operand -> 0 < r ->
  max_operand * 2 ^ (e + d) * r < 2 ^ k
  \/ s * t' - u * t = 1 /\ 0 <= s /\ 0 <= u /\ max_operand * 2 ^ d < s + u /\ 0 < s * 2 ^ e - power * t
     /\ 0 < power * t' - u * 2 ^ e /\ max_operand * 2 ^ (e + d) * r < (power * t' - u * 2 ^ e) * 2 ^ k ->
  exists beta, m * 2 ^ x * 2 ^ e * r < beta * 2 ^ k /\ beta <= power - (m * 2 ^ x * 2 ^ e) mod power.
Proof.
  intros Hp He Hx Hm Hr Hcase. pose proof (Z.mod_pos_bound (m * 2 ^ x * 2 ^ e) power Hp) as Hmod.
  assert (Hle : m * 2 ^ x * 2 ^ e * r <= max_operand * 2 ^ (e + d) * r).
  { rewrite mul_shift by lia. pose proof (Z.pow_le_mono_r 2 (x + e) (e + d) ltac:(lia) ltac:(lia)). pose proof (pow2_pos (x + e) ltac:(lia)).
    apply Z.mul_le_mono_nonneg_r; [lia|]. apply Z.mul_le_mono_nonneg; lia. }
  destruct Hcase as [Hsmall|(Hdet & Hs & Hu & Hsu & Ha & Hb & Hbeta)]; [exists 1; lia|].
  exists (power * t' - u * 2 ^ e). split; [lia|].
  assert (Hmx : 0 < m * 2 ^ x < s + u).
  { pose proof (Z.pow_le_mono_r 2 x d ltac:(lia) ltac:(lia)). pose proof (pow2_pos x ltac:(lia)). split; [apply Z.mul_pos_pos; lia|].
    apply Z.le_lt_trans with (max_operand * 2 ^ d); [apply Z.mul_le_mono_nonneg; lia|done]. }
  destruct (lattice_bound (2 ^ e) power s t u t' (m * 2 ^ x) (m * 2 ^ x * 2 ^ e / power + 1)) as [_ Hfar]; [lia..|].
  pose proof (Z.div_mod (m * 2 ^ x * 2 ^ e) power ltac:(lia)). lia.
Qed.

Lemma ge_exact e (q := ge_skipped e) : 0 <= e < 970 ->
  0 <= q <= e /\ (q = 0 \/ 10 * 5 ^ q <= 2 ^ (e - q)) /\ max_operand * 2 ^ (e - q) < 2 ^ 64 * 5 ^ q /\
  exists entry, lookup_table_ge !! Z.to_nat q = Some entry
    /\ forall m, 0 < m <= max_operand -> multiply_and_shift m entry (q + ge_shift q - e) = Ret (m * 2 ^ (e - q) / 5 ^ q).
Proof.
  intros He. pose proof (forallb_seqZ _ _ _ e ge_exponents_ok ltac:(lia)) as Hi. unfold ge_exponent_ok in Hi. fold q in Hi.
  assert (Hlen : length lookup_table_ge = 291%nat) by reflexivity.
  destruct (lookup_lt_is_Some_2 lookup_table_ge (Z.to_nat q)) as [entry Hentry]; [rewrite Hlen; blia|].
  destruct (ge_row _ 0 _ ltac:(lia) ge_table_ok _ _ Hentry) as [[[[s t] u] t'] Hrow]. replace (0 + Z.of_nat (Z.to_nat q)) with q in Hrow by blia.
  unfold ge_row_ok in Hrow. set (e0 := ge_first q) in *. set (e1 := ge_last q) in *. set (k := ge_shift q) in *.
  rewrite !andb_true_iff in Hi. destruct Hi as (((Hq0 & Hq1) & Hf) & Hl). pose proof (pow5_pos q ltac:(lia)) as Hp5.
  assert (Hk : 0 <= k) by (unfold k, ge_shift, log2_5_num, log2_5_denum, table_b1; pose proof (Z.div_pos (8245 * q) 3551 ltac:(lia) ltac:(lia)); lia).
  rewrite !andb_true_iff in Hrow. destruct Hrow as ((((((((((((Hl0 & Hl1) & Hh0) & Hh1) & Hr) & Hrp) & Hqe) & Hee) & Hunit) & Hreach) & Hs0) & Hs1) & Hcert).
  rewrite !Z.shiftl_mul_pow2 in * by lia. set (c := entry.1 + entry.2 * 2 ^ 64) in *. set (r := c * 5 ^ q - 1 * 2 ^ k) in *.
  pose proof (Z.pow_le_mono_r 2 (e0 - q) (e - q) ltac:(lia) ltac:(lia)) as Hm0. pose proof (Z.pow_le_mono_r 2 (e - q) (e1 - q) ltac:(lia) ltac:(lia)) as Hm1.
  split; [lia|]. split; [destruct (q =? 0) eqn:E; cbn [orb] in Hunit; [left; lia|right; lia]|].
  assert (Hfit : max_operand * 2 ^ (e - q) < 2 ^ 64 * 5 ^ q) by (unfold max_operand in *; lia). split; [done|].
  exists entry. split; [done|]. intros m Hm. destruct entry as [lo hi]. cbn [fst snd] in *.
  assert (Hex : m * c / 2 ^ (q + k - e) = m * 2 ^ (e - q) / 5 ^ q).
  { destruct (ge_far (5 ^ q) (e0 - q) (e1 - e0) (e - e0) r k s t u t' m) as (beta & Hb1 & Hb2); [lia..| |].
    { replace (e0 - q + (e1 - e0)) with (e1 - q) by lia. destruct (max_operand * 2 ^ (e1 - q) * r <? 1 * 2 ^ k) eqn:E; [left; lia|right].
      cbn [orb] in Hcert. rewrite !andb_true_iff in Hcert. lia. }
    replace (q + k - e) with (k - (e0 - q + (e - e0))) by lia. replace (e - q) with (e0 - q + (e - e0)) by lia.
    apply (rounded_up_product (e0 - q) (e - e0) (5 ^ q) k c r beta); lia. }
  rewrite <- Hex. apply multiply_and_shift_exact; [unfold max_operand in *; lia|lia..|]. fold c. rewrite Hex. apply Z.div_lt_upper_bound; [lia|].
  pose proof (pow2_pos (e - q) ltac:(lia)). nia.
Qed.

(** ** Step 3' *)

Lemma zero_coprime x a b : 0 < b -> Z.gcd b a = 1 -> ((x * a) mod b =? 0) = (x mod b =? 0).
Proof.
  intros Hb Hg. assert (Hiff : (x * a) mod b = 0 <-> x mod b = 0).
  { rewrite !Z.mod_divide by lia. split; [rewrite Z.mul_comm; intros H; by apply (Z.gauss b a x)|]. intros [z ->]. exists (z * a). ring. }
  destruct (Z.eqb_spec ((x * a) mod b) 0), (Z.eqb_spec (x mod b) 0); tauto.
Qed.

Lemma gcd_2_5 i j : 0 <= i -> 0 <= j -> Z.gcd (2 ^ i) (5 ^ j) = 1.
Proof. intros. apply Z.coprime_pow_l, Z.coprime_pow_r; [lia..|]. reflexivity. Qed.

(** The factor [a / b] by which step 3' multiplies: two to the exponent, over ten
    to the exponent of the digits *)
Definition scaling (exponent q a b : Z) : Prop :=
  if exponent <? 0 then a = 5 ^ (- exponent - q) /\ b = 2 ^ q /\ 0 <= q <= - exponent
  else a = 2 ^ (exponent - q) /\ b = 5 ^ q /\ 0 <= q <= exponent.

Lemma remove_digits_ok exponent u v w : -1076 <= exponent < 970 -> 0 < u <= max_operand -> 0 < v <= max_operand -> 0 < w <= max_operand ->
  exists q a b, remove_digits exponent u v w
      = Ret (u * a / b, v * a / b, w * a / b, ((u * a) mod b =? 0, (v * a) mod b =? 0, (w * a) mod b =? 0), q)
    /\ 0 < a /\ 0 < b /\ scaling exponent q a b /\ (b = 1 \/ 10 * b <= a) /\ max_operand * a < 2 ^ 64 * b.
Proof.
  intros He Hu Hv Hw. unfold remove_digits, scaling, multiply_and_shift_all, at_index. destruct (Z.ltb_spec exponent 0) as [Hneg|Hpos].
  - destruct (lt_exact (- exponent)) as (Hi & Hq & Hunit & Hfit & entry & Hentry & Hmul); [lia|].
    rewrite Z.quot_div_nonneg by (unfold log10_5_num, log10_5_denum; lia). fold (lt_skipped (- exponent)). set (q := lt_skipped (- exponent)) in *.
    rewrite Hentry. cbn [unwrap res_bind]. rewrite Z.quot_div_nonneg by (unfold log2_5_num, log2_5_denum; lia).
    fold (lt_shift (- exponent - q)). rewrite !Hmul by done. cbn [res_bind]. exists q, (5 ^ (- exponent - q)), (2 ^ q).
    pose proof (pow2_pos q Hq). pose proof (pow5_pos (- exponent - q) ltac:(lia)).
    split; [|split; [done|]; split; [done|]; split; [split; [done|]; split; [done|lia]|]; split; [|done]; destruct Hunit as [-> |]; [by left|by right]].
    rewrite !count_trailing_zeroes_spec, !zero_coprime by (try apply gcd_2_5; lia). done.
  - destruct (ge_exact exponent) as (Hq & Hunit & Hfit & entry & Hentry & Hmul); [lia|].
    rewrite Z.quot_div_nonneg by (unfold log10_2_num, log10_2_denum; lia). fold (ge_skipped exponent). set (q := ge_skipped exponent) in *.
    rewrite Hentry. cbn [unwrap res_bind]. rewrite Z.quot_div_nonneg by (unfold log2_5_num, log2_5_denum; lia).
    fold (ge_shift q). rewrite !Hmul by done. cbn [res_bind]. exists q, (2 ^ (exponent - q)), (5 ^ q).
    pose proof (pow2_pos (exponent - q) ltac:(lia)). pose proof (pow5_pos q ltac:(lia)).
    split; [|split; [done|]; split; [done|]; split; [split; [done|]; split; [done|lia]|]; split; [|done]; destruct Hunit as [-> |]; [by left|by right]].
    rewrite !is_divisible_by_pow_5_spec, !zero_coprime by (try (rewrite Z.gcd_comm; apply gcd_2_5); unfold max_operand in *; lia). done.
Qed.

(** ** The whole conversion, in integers

    A number [y * 10 ^ j] of digits lies between the bounds [u] and [w], or on one
    of them when the mantissa is even. *)
Definition inside (even : bool) (u w a b : Z) (j : nat) (y : Z) : Prop :=
  (u * a < y * 10 ^ Z.of_nat j * b \/ even = true /\ u * a = y * 10 ^ Z.of_nat j * b)
  /\ (y * 10 ^ Z.of_nat j * b < w * a \/ even = true /\ y * 10 ^ Z.of_nat j * b = w * a).

Lemma inside_admissible even u w a b j y (upper := if negb (even || negb ((w * a) mod b =? 0)) then w * a / b - 1 else w * a / b) :
  0 < b -> inside even u w a b j y <-> admissible (u * a / b) upper (even && ((u * a) mod b =? 0)) j y.
Proof.
  intros Hb. unfold inside, admissible, upper. set (x := y * 10 ^ Z.of_nat j).
  pose proof (Z.div_mod (u * a) b ltac:(lia)). pose proof (Z.mod_pos_bound (u * a) b Hb).
  pose proof (Z.div_mod (w * a) b ltac:(lia)). pose proof (Z.mod_pos_bound (w * a) b Hb).
  set (p := u * a / b) in *. set (r := w * a / b) in *.
  assert (Hlow : u * a < x * b <-> p < x) by (split; intros; nia). rewrite Hlow.
  assert (Heq : u * a = x * b <-> (u * a) mod b = 0 /\ p = x) by (split; [intros E; assert (p = x) by nia; nia|intros [? <-]; lia]). rewrite Heq.
  assert (Hup : x * b < w * a <-> x < r \/ x = r /\ (w * a) mod b <> 0).
  { split; [intros Hl; destruct (Z.lt_total x r) as [|[->|]]; [by left|right; split; [done|nia]|nia]|intros [|[-> ?]]; nia]. }
  assert (Hue : x * b = w * a <-> (w * a) mod b = 0 /\ r = x) by (split; [intros E; assert (r = x) by nia; nia|intros [? <-]; lia]). rewrite Hup, Hue.
  destruct even, (Z.eqb_spec ((u * a) mod b) 0), (Z.eqb_spec ((w * a) mod b) 0); cbn [negb orb andb]; intuition lia.
Qed.

Lemma divide_gap x y a b c : 0 < b -> b = 1 \/ 10 * b <= a -> 0 < a -> x + c <= y -> 0 <= c ->
  x * a / b + c <= y * a / b /\ (b <> 1 -> x * a / b + 10 * c <= y * a / b).
Proof.
  intros Hb Hunit Ha Hxy Hc. pose proof (Z.div_mod (x * a) b ltac:(lia)). pose proof (Z.mod_pos_bound (x * a) b Hb).
  assert (Hle : forall d, d * b <= c * a -> x * a / b + d <= y * a / b).
  { intros d Hd. rewrite <- Z.div_add by lia. apply Z.div_le_mono; [lia|]. nia. }
  split; [apply Hle; nia|]. intros Hn. apply Hle. nia.
Qed.

(** The fields of a double that is not zero and not infinite *)
Definition finite_nonzero (bits : Z) : Prop :=
  fp_exponent bits <> exponent_max /\ ~ (fp_exponent bits = 0 /\ fp_mantissa bits = 0).

Definition fp_integer (bits : Z) : Z := (if fp_exponent bits =? 0 then 0 else 2 ^ mantissa_bits) + fp_mantissa bits.
Definition fp_scale (bits : Z) : Z := (if fp_exponent bits =? 0 then 1 else fp_exponent bits) - exponent_bias - mantissa_bits.

(** The lower bound is closer when the double below has a smaller exponent. *)
Definition fp_lower (bits : Z) : Z := 4 * fp_integer bits - (if (fp_mantissa bits =? 0) && (1 <? fp_exponent bits) then 1 else 2).

Lemma fp_ranges bits : 0 <= fp_mantissa bits < 2 ^ 52 /\ 0 <= fp_exponent bits < 2048.
Proof. unfold fp_mantissa, fp_exponent, mantissa_bits. pose proof (Z.mod_pos_bound bits (2 ^ 52)). pose proof (Z.mod_pos_bound (bits / 2 ^ 52) (2 ^ 11)). lia. Qed.

(** Step 4' from the exact integer parts *)
Section step4.
Variables (u v a b exponent10 : Z) (even : bool).
Hypothesis Hu : 2 <= u.
Hypothesis Huv : v - 2 <= u <= v - 1.
Hypothesis Ha : 0 < a.
Hypothesis Hb : 0 < b.
Hypothesis Hunit : b = 1 \/ 10 * b <= a.
Hypothesis Hfit : (v + 2) * a < 2 ^ 64 * b.

Let w : Z := if negb (even || negb (((v + 2) * a) mod b =? 0)) then (v + 2) * a / b - 1 else (v + 2) * a / b.

Local Abbreviation step4_at := (digits_at (u * a / b) (v * a / b) w (even && ((u * a) mod b =? 0)) ((v * a) mod b =? 0) exponent10).
Local Abbreviation step4_result j := (rounded (u * a / b) (v * a / b) w (even && ((u * a) mod b =? 0)) ((v * a) mod b =? 0) exponent10 j).

Lemma step4_start : step4_at 0 =
  {| d_u := u * a / b; d_v := v * a / b; d_w := w; d_all_a_zero := even && ((u * a) mod b =? 0); d_all_b_zero := (v * a) mod b =? 0;
     d_last_digit := 0; d_exponent10 := exponent10 |}.
Proof. unfold digits_at. cbn [Z.of_nat]. rewrite Z.pow_0_r, !Z.div_1_r, Z.mod_1_r, !andb_true_r, Z.add_0_r. done. Qed.

Lemma step4_bounds : 0 < u * a / b /\ u * a / b <= v * a / b <= w /\ u * a / b < w < 2 ^ 64 /\ (b <> 1 -> u * a / b + 10 <= w).
Proof.
  destruct (divide_gap u v a b 1) as [G1 G1']; [lia..|]. destruct (divide_gap v (v + 2) a b 2) as [G2 G2']; [lia..|].
  destruct (divide_gap 0 u a b 2) as [G _]; [lia..|]. rewrite Z.mul_0_l, Z.div_0_l in G by lia.
  assert (Hw : (v + 2) * a / b - 1 <= w <= (v + 2) * a / b) by (unfold w; destruct (negb _); lia).
  assert (Hw64 : (v + 2) * a / b < 2 ^ 64) by (apply Z.div_lt_upper_bound; lia). lia.
Qed.

Lemma step4_ok : exists j, shortest_digits (step4_at 0) = Ret (step4_at j) /\ 0 < step4_result j /\ step4_result j * 10 ^ Z.of_nat j < 2 ^ 64
  /\ inside even u (v + 2) a b j (step4_result j)
  /\ (forall y, ~ inside even u (v + 2) a b (S j) y)
  /\ forall y, inside even u (v + 2) a b j y ->
       Z.abs (step4_result j * 10 ^ Z.of_nat j * b - v * a) <= Z.abs (y * 10 ^ Z.of_nat j * b - v * a).
Proof.
  destruct step4_bounds as (H0 & H1 & H2 & H3).
  destruct (shortest_digits_ok (u * a / b) (v * a / b) w (even && ((u * a) mod b =? 0)) ((v * a) mod b =? 0) exponent10
    ltac:(lia) ltac:(lia) ltac:(lia)) as (j & Hd & Hcase & Hj & Hshort).
  destruct (rounded_cases (u * a / b) (v * a / b) w (even && ((u * a) mod b =? 0)) ((v * a) mod b =? 0) exponent10 ltac:(lia) ltac:(lia) ltac:(lia) ltac:(lia) ltac:(lia)
    (v * a) b ltac:(lia) eq_refl eq_refl j) as [Hin Hnear]; [|done|].
  { destruct (Z.eq_dec b 1); [by left|right]. apply Hj. apply Z.lt_le_trans with ((u * a / b + 1 * 10) / 10); [|apply Z.div_le_mono; lia].
    rewrite Z.div_add by lia. lia. }
  assert (Hadm : forall i y, inside even u (v + 2) a b i y <-> admissible (u * a / b) w (even && ((u * a) mod b =? 0)) i y) by (intros; by apply inside_admissible).
  exists j. split; [done|]. pose proof (Z.pow_pos_nonneg 10 (Z.of_nat j) ltac:(lia) ltac:(lia)). pose proof Hin as [Hlow Hup].
  split; [nia|]. split; [lia|]. split; [by apply Hadm|]. split; [intros y; rewrite Hadm; apply Hshort|intros y Hy; by apply Hnear, Hadm].
Qed.

End step4.

Lemma convert_spec bits : finite_nonzero bits ->
  let even := Z.even (fp_mantissa bits) in
  let exponent := fp_scale bits - 2 in
  exists q a b j f, convert_to_decimal bits
      = Ret {| ef_sign := fp_sign bits; ef_fraction := f; ef_exponent := q - Z.max (- exponent) 0 + Z.of_nat j |}
    /\ 0 < a /\ 0 < b /\ scaling exponent q a b /\ 0 < f /\ f * 10 ^ Z.of_nat j < 2 ^ 64
    /\ inside even (fp_lower bits) (4 * fp_integer bits + 2) a b j f
    /\ (forall y, ~ inside even (fp_lower bits) (4 * fp_integer bits + 2) a b (S j) y)
    /\ forall y, inside even (fp_lower bits) (4 * fp_integer bits + 2) a b j y ->
         Z.abs (f * 10 ^ Z.of_nat j * b - 4 * fp_integer bits * a) <= Z.abs (y * 10 ^ Z.of_nat j * b - 4 * fp_integer bits * a).
Proof.
  intros [Hmax Hnz] even exponent. destruct (fp_ranges bits) as [Hm He].
  assert (Hi : 0 < fp_integer bits < 2 ^ 53) by (unfold fp_integer, mantissa_bits; destruct (Z.eqb_spec (fp_exponent bits) 0); lia).
  assert (Hexp : -1076 <= exponent < 970) by (unfold exponent, fp_scale, exponent_max, exponent_bias, mantissa_bits in *; destruct (Z.eqb_spec (fp_exponent bits) 0); lia).
  set (v := 4 * fp_integer bits) in *. set (u := fp_lower bits). assert (Hu : v - 2 <= u <= v - 1) by (unfold u, v, fp_lower; destruct (_ && _); lia).
  unfold convert_to_decimal. replace ((fp_exponent bits =? 0) && (fp_mantissa bits =? 0)) with false by (unfold exponent_max in *; lia).
  replace (fp_exponent bits =? exponent_max) with false by lia. cbn [negb verify]. change (Z.shiftl 1 mantissa_bits) with (2 ^ mantissa_bits).
  fold (fp_integer bits). fold (fp_scale bits). fold exponent. fold v.
  change (v - (if (fp_mantissa bits =? 0) && (1 <? fp_exponent bits) then 1 else 2)) with u. fold even.
  destruct (remove_digits_ok exponent u v (v + 2)) as (q & a & b & -> & Ha & Hb & Hsc & Hunit & Hfit); [unfold max_operand; lia..|].
  cbn [res_bind]. rewrite <- step4_start.
  destruct (step4_ok u v a b (q - Z.max (- exponent) 0) even) as (j & -> & Hf & Hf2 & Hin & Hshort & Hnear); [try done; try lia..|].
  { unfold max_operand in *. nia. }
  cbn [res_bind]. exists q, a, b, j. eexists. split; [reflexivity|]. repeat (split; [assumption|]). assumption.
Qed.
