(* ===== verification/FloatTheorems.v ===== *)
(** * Doubles in decimal: what the conversion guarantees

    A decimal rounds to a double when it is nearer to it than to the doubles next
    to it, or half way and the double is the even one of the two.  The
    conversion returns a decimal that rounds to the double, that no decimal with
    fewer digits does, and that no other one of its length is closer. *)

From Stdlib Require Import QArith Qpower Qabs.
From S2P Require Import Prelude FloatTables FloatToDecimal FloatFacts FloatExact.
Local Open Scope Z_scope.

(** ** The value of a double *)

Definition fp_value (bits : Z) : Q := inject_Z (fp_integer bits) * 2 ^ fp_scale bits.

Definition decimal (y e : Z) : Q := inject_Z y * 10 ^ e.

(** [x] rounds to the double with the absolute value of [bits]. *)
Definition rounds_to (x : Q) (bits : Z) : Prop :=
  let magnitude := bits mod 2 ^ 63 in
  let low := ((fp_value (magnitude - 1) + fp_value magnitude) / 2)%Q in
  let high := ((fp_value magnitude + fp_value (magnitude + 1)) / 2)%Q in
  let even := Z.even (fp_mantissa bits) in
  ((low < x)%Q \/ even = true /\ (low == x)%Q) /\ ((x < high)%Q \/ even = true /\ (x == high)%Q).

(** ** Powers *)

Lemma two_power_pos n : (0 < 2 ^ n)%Q.
Proof. by apply Qpower_0_lt. Qed.

Lemma ten_power_pos n : (0 < 10 ^ n)%Q.
Proof. by apply Qpower_0_lt. Qed.

Lemma power_Z base n : 0 <= n -> (inject_Z (base ^ n) == inject_Z base ^ n)%Q.
Proof. intros. by rewrite Zpower_Qpower. Qed.

Lemma scaling_Q exponent q a b : scaling exponent q a b -> 0 < b ->
  (inject_Z a * 10 ^ (q - Z.max (- exponent) 0) == inject_Z b * 2 ^ exponent)%Q.
Proof.
  assert (H10 : forall n, (10 ^ n == 2 ^ n * 5 ^ n)%Q) by (intros; rewrite <- Qmult_power; done).
  unfold scaling. intros Hs Hb. destruct (Z.ltb_spec exponent 0) as [Hneg|Hpos]; destruct Hs as (-> & -> & Hq); rewrite !power_Z, H10 by lia.
  - replace (Z.max (- exponent) 0) with (- exponent) by lia. change (inject_Z 5) with 5%Q. change (inject_Z 2) with 2%Q.
    rewrite (Qmult_comm (2 ^ _)), Qmult_assoc, <- !Qpower_plus by done. replace (- exponent - q + (q - - exponent)) with 0 by lia.
    rewrite Qmult_1_l. by replace (q - - exponent) with (q + exponent) by lia.
  - replace (Z.max (- exponent) 0) with 0 by lia. change (inject_Z 5) with 5%Q. change (inject_Z 2) with 2%Q.
    rewrite Z.sub_0_r, Qmult_assoc, <- Qpower_plus, Qmult_comm by done. by replace (exponent - q + q) with exponent by lia.
Qed.

(** ** The neighbours of a double *)

Lemma fp_fields e m : 0 <= m < 2 ^ 52 -> 0 <= e < 2048 -> fp_mantissa (e * 2 ^ 52 + m) = m /\ fp_exponent (e * 2 ^ 52 + m) = e.
Proof.
  intros Hm He. unfold fp_mantissa, fp_exponent, mantissa_bits. rewrite Z.add_comm, Z.mod_add, Z.div_add, (Z.div_small m) by lia.
  rewrite !Z.mod_small by lia. done.
Qed.

Lemma magnitude_fields bits : bits mod 2 ^ 63 = fp_exponent bits * 2 ^ 52 + fp_mantissa bits.
Proof. unfold fp_exponent, fp_mantissa, mantissa_bits. change (2 ^ 63) with (2 ^ 52 * 2 ^ 11). rewrite Z.rem_mul_r by lia. lia. Qed.

Lemma fp_value_fields e m : 0 <= m < 2 ^ 52 -> 0 <= e < 2048 ->
  fp_value (e * 2 ^ 52 + m) = (inject_Z ((if (e =? 0)%Z then 0 else 2 ^ 52) + m) * 2 ^ ((if (e =? 0)%Z then 1 else e) - 1075))%Q.
Proof.
  intros Hm He. unfold fp_value, fp_integer, fp_scale, exponent_bias, mantissa_bits. destruct (fp_fields e m Hm He) as [-> ->].
  do 2 f_equal. lia.
Qed.

Lemma double_power n : (2 ^ (n + 1) == 2 * 2 ^ n)%Q.
Proof. rewrite Qpower_plus, Qmult_comm by done. done. Qed.

Lemma fp_value_magnitude bits : fp_value (bits mod 2 ^ 63) = fp_value bits.
Proof.
  destruct (fp_ranges bits) as [Hm He]. rewrite magnitude_fields, fp_value_fields by lia.
  unfold fp_value, fp_integer, fp_scale, exponent_bias, mantissa_bits. do 2 f_equal. lia.
Qed.

Lemma fp_value_next bits : fp_exponent bits <> exponent_max ->
  (fp_value (bits mod 2 ^ 63 + 1) == inject_Z (fp_integer bits + 1) * 2 ^ fp_scale bits)%Q.
Proof.
  intros Hmax. destruct (fp_ranges bits) as [Hm He]. rewrite magnitude_fields. unfold fp_integer, fp_scale, exponent_bias, mantissa_bits, exponent_max in *.
  set (e := fp_exponent bits) in *. set (m := fp_mantissa bits) in *. destruct (Z.eq_dec m (2 ^ 52 - 1)) as [E|E].
  - replace (e * 2 ^ 52 + m + 1) with ((e + 1) * 2 ^ 52 + 0) by lia. rewrite fp_value_fields by lia. replace (e + 1 =? 0) with false by lia.
    destruct (Z.eqb_spec e 0) as [->|]; [rewrite E; by cbn|]. replace (e + 1 - 1075) with (e - 1023 - 52 + 1) by lia.
    rewrite double_power, Qmult_assoc. apply Qmult_comp; [|done]. replace (2 ^ 52 + m + 1) with ((2 ^ 52 + 0) * 2) by lia. by rewrite inject_Z_mult.
  - replace (e * 2 ^ 52 + m + 1) with (e * 2 ^ 52 + (m + 1)) by lia. rewrite fp_value_fields by lia. rewrite <- Z.add_assoc.
    by replace ((if e =? 0 then 1 else e) - 1075) with ((if e =? 0 then 1 else e) - 1023 - 52) by lia.
Qed.

Lemma quarter n : (2 ^ n == 4 * 2 ^ (n - 2))%Q.
Proof. replace n with (n - 2 + 1 + 1) at 1 by lia. rewrite !double_power. ring. Qed.

(** The bounds of step 2 are half way to the neighbours. *)
Lemma fp_middle_low bits : finite_nonzero bits ->
  ((fp_value (bits mod 2 ^ 63 - 1) + fp_value (bits mod 2 ^ 63)) / 2 == inject_Z (fp_lower bits) * 2 ^ (fp_scale bits - 2))%Q.
Proof.
  intros [Hmax Hnz]. destruct (fp_ranges bits) as [Hm He]. rewrite fp_value_magnitude, magnitude_fields. unfold fp_value at 2, fp_lower.
  assert (Hprev : (fp_value (fp_exponent bits * 2 ^ 52 + fp_mantissa bits - 1)
    == inject_Z (4 * fp_integer bits - (if (fp_mantissa bits =? 0) && (1 <? fp_exponent bits) then 2 else 4)) * 2 ^ (fp_scale bits - 2))%Q).
  { unfold fp_integer, fp_scale, exponent_bias, mantissa_bits, exponent_max in *.
    set (e := fp_exponent bits) in *. set (m := fp_mantissa bits) in *. destruct (Z.eqb_spec m 0) as [->|Em]; cbn [andb].
    - replace (e * 2 ^ 52 + 0 - 1) with ((e - 1) * 2 ^ 52 + (2 ^ 52 - 1)) by lia. rewrite fp_value_fields by lia.
      replace (e =? 0) with false by lia. destruct (Z.ltb_spec 1 e).
      + replace (e - 1 =? 0) with false by lia. replace (e - 1 - 1075) with (e - 1023 - 52 - 2 + 1) by lia.
        rewrite double_power, Qmult_assoc. apply Qmult_comp; [|done]. by vm_compute.
      + replace (e - 1 =? 0) with true by lia. replace (e - 1023 - 52) with (1 - 1075) by lia. rewrite (quarter (1 - 1075)), Qmult_assoc.
        apply Qmult_comp; [|done]. by vm_compute.
    - replace (e * 2 ^ 52 + m - 1) with (e * 2 ^ 52 + (m - 1)) by lia. rewrite fp_value_fields by lia.
      replace ((if e =? 0 then 1 else e) - 1075) with ((if e =? 0 then 1 else e) - 1023 - 52) by lia.
      rewrite (quarter ((if e =? 0 then 1 else e) - 1023 - 52)), Qmult_assoc. apply Qmult_comp; [|done].
      change 4%Q with (inject_Z 4). rewrite <- inject_Z_mult. apply inject_Z_injective. lia. }
  rewrite Hprev, (quarter (fp_scale bits)). change 4%Q with (inject_Z 4). rewrite Qmult_assoc, <- inject_Z_mult, <- Qmult_plus_distr_l, <- inject_Z_plus.
  destruct (_ && _).
  - replace (4 * fp_integer bits - 2 + fp_integer bits * 4) with (2 * (4 * fp_integer bits - 1)) by lia. rewrite inject_Z_mult. field.
  - replace (4 * fp_integer bits - 4 + fp_integer bits * 4) with (2 * (4 * fp_integer bits - 2)) by lia. rewrite inject_Z_mult. field.
Qed.

Lemma fp_middle_high bits : finite_nonzero bits ->
  ((fp_value (bits mod 2 ^ 63) + fp_value (bits mod 2 ^ 63 + 1)) / 2 == inject_Z (4 * fp_integer bits + 2) * 2 ^ (fp_scale bits - 2))%Q.
Proof.
  intros [Hmax Hnz]. rewrite fp_value_next by done. rewrite fp_value_magnitude. unfold fp_value. rewrite <- Qmult_plus_distr_l, <- inject_Z_plus.
  rewrite (quarter (fp_scale bits)). replace (4 * fp_integer bits + 2) with (2 * (fp_integer bits + (fp_integer bits + 1))) by lia.
  rewrite (inject_Z_mult 2). change (inject_Z 2) with 2%Q. field.
Qed.

(** ** Comparing decimals with the bounds *)

Section compare.
Variables (exponent q a b : Z).
Hypothesis Hs : scaling exponent q a b.
Hypothesis Hb : 0 < b.
Let exponent10 : Z := q - Z.max (- exponent) 0.

Lemma decimal_shift y (j : nat) : (decimal y (exponent10 + Z.of_nat j) == inject_Z (y * 10 ^ Z.of_nat j) * 10 ^ exponent10)%Q.
Proof. unfold decimal. rewrite Qpower_plus, inject_Z_mult, power_Z by (done || lia). change (inject_Z 10) with 10%Q. ring. Qed.

Lemma b_positive : (0 < inject_Z b)%Q.
Proof. change 0%Q with (inject_Z 0). by rewrite <- Zlt_Qlt. Qed.

Lemma bound_times_b x : (inject_Z x * 2 ^ exponent * inject_Z b == inject_Z (x * a) * 10 ^ exponent10)%Q.
Proof. rewrite inject_Z_mult, <- !Qmult_assoc. apply Qmult_comp; [done|]. rewrite (Qmult_comm (2 ^ exponent)). by rewrite <- (scaling_Q exponent q a b). Qed.

Lemma decimal_times_b y (j : nat) : (decimal y (exponent10 + Z.of_nat j) * inject_Z b == inject_Z (y * 10 ^ Z.of_nat j * b) * 10 ^ exponent10)%Q.
Proof. rewrite decimal_shift, (inject_Z_mult _ b). ring. Qed.

Lemma compare_lt x y j : (inject_Z x * 2 ^ exponent < decimal y (exponent10 + Z.of_nat j))%Q <-> x * a < y * 10 ^ Z.of_nat j * b.
Proof.
  rewrite <- (Qmult_lt_r _ _ (inject_Z b)) by apply b_positive. rewrite bound_times_b, decimal_times_b.
  rewrite Qmult_lt_r by apply ten_power_pos. by rewrite <- Zlt_Qlt.
Qed.

Lemma compare_gt x y j : (decimal y (exponent10 + Z.of_nat j) < inject_Z x * 2 ^ exponent)%Q <-> y * 10 ^ Z.of_nat j * b < x * a.
Proof.
  rewrite <- (Qmult_lt_r _ _ (inject_Z b)) by apply b_positive. rewrite bound_times_b, decimal_times_b.
  rewrite Qmult_lt_r by apply ten_power_pos. by rewrite <- Zlt_Qlt.
Qed.

Lemma compare_eq x y j : (inject_Z x * 2 ^ exponent == decimal y (exponent10 + Z.of_nat j))%Q <-> x * a = y * 10 ^ Z.of_nat j * b.
Proof.
  pose proof b_positive as Hpos. pose proof (ten_power_pos exponent10) as Hten. split.
  - intros E. assert (E2 : (inject_Z x * 2 ^ exponent * inject_Z b == decimal y (exponent10 + Z.of_nat j) * inject_Z b)%Q) by by rewrite E.
    rewrite bound_times_b, decimal_times_b in E2. apply Qmult_inj_r in E2; [by apply inject_Z_injective|]. intros E3. by rewrite E3 in Hten.
  - intros E. apply (Qmult_inj_r _ _ (inject_Z b)); [intros E3; by rewrite E3 in Hpos|]. by rewrite bound_times_b, decimal_times_b, E.
Qed.

(** How far a decimal is from the value *)
Lemma compare_distance v y z j : Z.abs (y * 10 ^ Z.of_nat j * b - v * a) <= Z.abs (z * 10 ^ Z.of_nat j * b - v * a) ->
  (Qabs (decimal y (exponent10 + Z.of_nat j) - inject_Z v * 2 ^ exponent) <= Qabs (decimal z (exponent10 + Z.of_nat j) - inject_Z v * 2 ^ exponent))%Q.
Proof.
  intros Hle. pose proof b_positive as Hpos. pose proof (ten_power_pos exponent10) as Hten.
  apply (Qmult_le_r _ _ (inject_Z b)); [done|].
  assert (Habs : forall y, (Qabs (decimal y (exponent10 + Z.of_nat j) - inject_Z v * 2 ^ exponent) * inject_Z b
    == inject_Z (Z.abs (y * 10 ^ Z.of_nat j * b - v * a)) * 10 ^ exponent10)%Q).
  { intros y'. rewrite <- (Qabs_pos (inject_Z b)) by by apply Qlt_le_weak. rewrite <- Qabs_Qmult.
    assert (E : ((decimal y' (exponent10 + Z.of_nat j) - inject_Z v * 2 ^ exponent) * inject_Z b
      == inject_Z (y' * 10 ^ Z.of_nat j * b - v * a) * 10 ^ exponent10)%Q).
    { transitivity (decimal y' (exponent10 + Z.of_nat j) * inject_Z b - inject_Z v * 2 ^ exponent * inject_Z b)%Q; [ring|].
      rewrite decimal_times_b, bound_times_b. unfold Z.sub. rewrite inject_Z_plus, inject_Z_opp. ring. }
    rewrite E, Qabs_Qmult, (Qabs_pos (10 ^ exponent10)) by by apply Qlt_le_weak. done. }
  rewrite !Habs. apply Qmult_le_r; [done|]. by rewrite <- Zle_Qle.
Qed.

Lemma inside_rounds_to bits j y : finite_nonzero bits -> exponent = fp_scale bits - 2 ->
  inside (Z.even (fp_mantissa bits)) (fp_lower bits) (4 * fp_integer bits + 2) a b j y <-> rounds_to (decimal y (exponent10 + Z.of_nat j)) bits.
Proof.
  intros Hf He. unfold inside, rounds_to. rewrite fp_middle_low, fp_middle_high, <- He by done. rewrite <- compare_lt, <- compare_gt, <- compare_eq.
  assert (Hsym : (4 * fp_integer bits + 2) * a = y * 10 ^ Z.of_nat j * b <-> y * 10 ^ Z.of_nat j * b = (4 * fp_integer bits + 2) * a) by (split; congruence).
  rewrite <- Hsym, <- compare_eq. assert (Hq : forall x z : Q, (x == z)%Q <-> (z == x)%Q) by (intros; split; intros; by symmetry). rewrite (Hq (decimal _ _)). done.
Qed.

End compare.

Lemma fp_value_quarter bits : (fp_value bits == inject_Z (4 * fp_integer bits) * 2 ^ (fp_scale bits - 2))%Q.
Proof. unfold fp_value. rewrite (quarter (fp_scale bits)), inject_Z_mult. change (inject_Z 4) with 4%Q. ring. Qed.

Lemma exponent_range bits q a b (j : nat) f : finite_nonzero bits -> scaling (fp_scale bits - 2) q a b -> 0 < f -> f * 10 ^ Z.of_nat j < 2 ^ 64 ->
  -2000 < q - Z.max (- (fp_scale bits - 2)) 0 + Z.of_nat j < 2000.
Proof.
  intros [Hmax _] Hs Hf Hj. destruct (fp_ranges bits) as [_ He]. assert (Hj20 : (j < 20)%nat).
  { destruct (Nat.lt_ge_cases j 20); [done|]. pose proof (Z.pow_le_mono_r 10 20 (Z.of_nat j) ltac:(lia) ltac:(lia)) as Hm.
    change (10 ^ 20) with 100000000000000000000 in Hm. nia. }
  assert (Hscale : -1074 <= fp_scale bits < 972).
  { unfold fp_scale, exponent_bias, mantissa_bits, exponent_max in *. destruct (Z.eqb_spec (fp_exponent bits) 0); lia. }
  unfold scaling in Hs. destruct (Z.ltb_spec (fp_scale bits - 2) 0); lia.
Qed.

Lemma convert_rounds bits : finite_nonzero bits ->
  exists f e, convert_to_decimal bits = Ret {| ef_sign := fp_sign bits; ef_fraction := f; ef_exponent := e |} /\ 0 < f < 2 ^ 64 /\ -2000 < e < 2000
    /\ rounds_to (decimal f e) bits
    /\ (forall y e', e < e' -> ~ rounds_to (decimal y e') bits)
    /\ forall y, rounds_to (decimal y e) bits -> (Qabs (decimal f e - fp_value bits) <= Qabs (decimal y e - fp_value bits))%Q.
Proof.
  intros Hf. destruct (convert_spec bits Hf) as (q & a & b & j & f & Hc & Ha & Hb & Hs & Hf0 & Hf1 & Hin & Hshort & Hnear).
  set (e := q - Z.max (- (fp_scale bits - 2)) 0 + Z.of_nat j) in *. exists f, e. split; [done|].
  pose proof (Z.pow_pos_nonneg 10 (Z.of_nat j) ltac:(lia) ltac:(lia)) as Hten. split; [nia|]. split; [by apply (exponent_range bits q a b j f)|].
  split; [by apply (inside_rounds_to _ q a b Hs Hb bits j f)|]. split.
  - intros y e' He Hr. apply (Hshort (y * 10 ^ (e' - e - 1))). apply (inside_rounds_to _ q a b Hs Hb bits (S j)); [done..|].
    unfold rounds_to in *. assert (E : (decimal (y * 10 ^ (e' - e - 1)) (q - Z.max (- (fp_scale bits - 2)) 0 + Z.of_nat (S j)) == decimal y e')%Q).
    { unfold decimal. rewrite inject_Z_mult, power_Z, <- Qmult_assoc by lia. change (inject_Z 10) with 10%Q. rewrite <- Qpower_plus by done.
      by replace (e' - e - 1 + _) with e' by lia. }
    by rewrite E.
  - intros y Hy. rewrite fp_value_quarter. apply (compare_distance _ q a b Hs Hb). apply Hnear. by apply (inside_rounds_to _ q a b Hs Hb bits j y).
Qed.

(** ** Properties *)

(** C5: the conversion of a double to decimal is the shortest one that rounds
    back.  For every finite double that is not zero the tables are read in range
    and the loops end; the decimal that is returned, with the sign of the double,
    is one that rounds to the double (to nearest, ties to even); no decimal with
    a larger exponent does, so no digit can be left out; and among the decimals
    with its exponent that round to the double none is closer to it. *)
Theorem shortest_decimal_correct (bits : Z) (Hfinite : finite_nonzero bits) :
  exists f e, convert_to_decimal bits = Ret {| ef_sign := fp_sign bits; ef_fraction := f; ef_exponent := e |} /\ 0 < f < 2 ^ 64
    /\ rounds_to (decimal f e) bits
    /\ (forall y e', e < e' -> ~ rounds_to (decimal y e') bits)
    /\ forall y, rounds_to (decimal y e) bits -> (Qabs (decimal f e - fp_value bits) <= Qabs (decimal y e - fp_value bits))%Q.
Proof. destruct (convert_rounds bits Hfinite) as (f & e & Hc & Hf & _ & Hrest). by exists f, e. Qed.

Lemma shortest_decimal_correct_witness :
  convert_to_decimal 0x400921fb54442d18 = Ret {| ef_sign := false; ef_fraction := 3141592653589793; ef_exponent := -15 |}
  /\ rounds_to (decimal 3141592653589793 (-15)) 0x400921fb54442d18
  /\ ~ rounds_to (decimal 314159265358979 (-14)) 0x400921fb54442d18.
Proof.
  assert (Hf : finite_nonzero 0x400921fb54442d18) by (split; [by vm_compute|intros [H _]; by vm_compute in H]).
  assert (E : convert_to_decimal 0x400921fb54442d18 = Ret {| ef_sign := false; ef_fraction := 3141592653589793; ef_exponent := -15 |}) by (vm_compute; reflexivity).
  destruct (shortest_decimal_correct 0x400921fb54442d18 Hf) as (f & e & Hc & _ & Hr & Hshort & _). rewrite E in Hc. injection Hc as <- <-.
  split; [exact E|]. split; [exact Hr|]. apply Hshort. reflexivity.
Defined.
