(* ===== verification/FloatFormat.v ===== *)
(** * Printing and reading doubles: [AK/Format.cpp] and
      [AK/StringConversions.cpp]

    [format_double] is what ["{}"] prints for a double, and
    [parse_first_number_double] reads the number at the start of a string.  The
    parser is [fast_float]: a class, with its documented guarantee that the
    result is correctly rounded. *)

From Stdlib Require Import QArith Qpower Qabs.
From S2P Require Import Prelude CharacterTypes Utf8 MemMem Strings Tokens CodeUnits Lexer.
From S2P Require Import FloatTables FloatToDecimal FloatFacts FloatExact FloatTheorems.
Local Open Scope Z_scope.

(** ** Printing *)

(** The loop of the lambda [convert_to_decimal_digits_array], least significant
    digit first, into an array with room for [size] digits *)
Fixpoint decimal_digits_loop (size : nat) (x : Z) : res bytes :=
  if x =? 0 then Ret []
  else
    match size with
    | O => Crash
    | S size =>
        let* digits := decimal_digits_loop size (x / 10) in
        Ret (Z.lor (x mod 10) (ch "0") :: digits)
    end.

Definition convert_to_decimal_digits_array (size : nat) (x : Z) : res bytes :=
  let* digits := decimal_digits_loop size x in
  Ret (rev digits).

Definition fp_is_nan (bits : Z) : bool := (fp_exponent bits =? exponent_max) && negb (fp_mantissa bits =? 0).
Definition fp_is_inf (bits : Z) : bool := (fp_exponent bits =? exponent_max) && (fp_mantissa bits =? 0).
Definition fp_is_zero (bits : Z) : bool := (fp_exponent bits =? 0) && (fp_mantissa bits =? 0).

(** The comparison [value < 0] *)
Definition fp_is_negative (bits : Z) : bool := fp_sign bits && negb (fp_is_nan bits) && negb (fp_is_zero bits).

Definition minus_if (b : bool) : bytes := if b then [ch "-"] else [].

(** The scientific notation, for [n] digits in front of the point *)
Definition scientific_notation (sign : bool) (n : Z) (mantissa_text : bytes) : res bytes :=
  let exponent_sign := if n <? 0 then ch "-" else ch "+" in
  let* exponent_text := convert_to_decimal_digits_array 5 (Z.abs (n - 1)) in
  if (length mantissa_text =? 1)%nat then Ret (minus_if sign ++ mantissa_text ++ [ch "e"; exponent_sign] ++ exponent_text)
  else
    let* first := substring_view mantissa_text 0 1 in
    let* rest := substring_view_from mantissa_text 1 in
    Ret (minus_if sign ++ first ++ [ch "."] ++ rest ++ [ch "e"; exponent_sign] ++ exponent_text).

(** The notation without an exponent *)
Definition plain_notation (sign : bool) (exponent n : Z) (mantissa_text : bytes) : res bytes :=
  if 0 <=? exponent then Ret (minus_if sign ++ mantissa_text ++ repeat (ch "0") (Z.to_nat exponent))
  else if 0 <? n then
    let* whole := substring_view mantissa_text 0 (Z.to_nat n) in
    let* fraction := substring_view_from mantissa_text (Z.to_nat n) in
    Ret (minus_if sign ++ whole ++ [ch "."] ++ fraction)
  else Ret (minus_if sign ++ sv "0." ++ repeat (ch "0") (Z.to_nat (- n)) ++ mantissa_text).

(** [FormatBuilder::put_f32_or_f64<double>] as [Formatter<double>] calls it for
    ["{}"]: base 10, no width, no precision, no separator, the default sign *)
Definition format_double (bits : Z) : res bytes :=
  if fp_is_nan bits || fp_is_inf bits then
    Ret (minus_if (fp_is_negative bits) ++ (if fp_is_nan bits then sv "nan" else sv "inf"))
  else
    let* form := convert_to_decimal bits in
    let* mantissa_text := convert_to_decimal_digits_array 20 (ef_fraction form) in
    let n := ef_exponent form + Z.of_nat (length mantissa_text) in
    if (n <? -5) || (21 <? n) then scientific_notation (ef_sign form) n mantissa_text
    else if fp_is_zero bits then Ret (minus_if (fp_is_negative bits) ++ [ch "0"])
    else plain_notation (ef_sign form) (ef_exponent form) n mantissa_text.

(** ** Reading *)

Inductive errc := Errc_None | Errc_InvalidArgument | Errc_ResultOutOfRange.

#[export] Instance errc_eq_dec : EqDecision errc.
Proof. solve_decision. Defined.

(** [fast_float::from_chars_advanced] for a double, without infinities and NaN:
    the bits of the value, the number of characters parsed, and the error *)
Class FastFloatDouble := { from_chars_double : bytes -> Z * nat * errc }.

(** [parse_first_number<double>(string, TrimWhitespace::No)] *)
Definition parse_first_number_double `{FastFloatDouble} (string : bytes) : option (Z * nat) :=
  let '(value, characters_parsed, ec) := from_chars_double string in
  let ec := if bool_decide (ec = Errc_ResultOutOfRange) && (fp_is_inf value || fp_is_zero value) then Errc_None else ec in
  if negb (bool_decide (ec = Errc_None)) then None else Some (value, characters_parsed).

(** A number in decimal notation *)
Record NumberText := {
  nt_minus : bool;
  nt_whole : bytes;
  nt_fraction : option bytes;
  nt_exponent : option (bool * bytes)
}.

Definition digits (s : bytes) : Prop := s <> [] /\ Forall (fun c => is_ascii_digit c = true) s.

Definition number_ok (t : NumberText) : Prop :=
  digits (nt_whole t)
  /\ (forall s, nt_fraction t = Some s -> digits s)
  /\ (forall minus s, nt_exponent t = Some (minus, s) -> digits s).

Definition number_text (t : NumberText) : bytes :=
  minus_if (nt_minus t) ++ nt_whole t
  ++ match nt_fraction t with Some s => ch "." :: s | None => [] end
  ++ match nt_exponent t with Some (minus, s) => ch "e" :: (if minus : bool then ch "-" else ch "+") :: s | None => [] end.

(** The absolute value *)
Definition number_value (t : NumberText) : Q :=
  let fraction := match nt_fraction t with Some s => s | None => [] end in
  decimal (digits_value 10 (nt_whole t ++ fraction))
    (match nt_exponent t with Some (minus, s) => if minus : bool then - digits_value 10 s else digits_value 10 s | None => 0 end
     - Z.of_nat (length fraction)).

(** A character that ends a number *)
Definition ends_number (rest : bytes) : Prop :=
  match rest with
  | c :: _ => is_ascii_digit c = false /\ c <> ch "." /\ c <> ch "e" /\ c <> ch "E"
  | [] => True
  end.

(** Documented behaviour: only characters of numbers are read, and a number at
    the start is read to its end and rounded to the nearest double, to the even
    one of two. *)
Class FastFloatDoubleLaws `{FastFloatDouble} : Prop := {
  from_chars_double_bounds (s : bytes) (value : Z) (parsed : nat) (ec : errc) :
    from_chars_double s = (value, parsed, ec) ->
    0 <= value < 2 ^ 64 /\ (parsed <= length s)%nat /\ Forall (fun c => 0 <= c < 128) (take parsed s);
  from_chars_double_rounds (t : NumberText) (rest : bytes) (bits : Z) :
    number_ok t -> ends_number rest -> 0 <= bits < 2 ^ 64 -> finite_nonzero bits -> fp_sign bits = nt_minus t ->
    rounds_to (number_value t) bits ->
    from_chars_double (number_text t ++ rest) = (bits, length (number_text t), Errc_None)
}.

(** ** Facts: digits *)

Lemma digits_value_concat a b : digits_value 10 (a ++ b) = digits_value 10 a * 10 ^ Z.of_nat (length b) + digits_value 10 b.
Proof.
  induction b as [|c b IH] using rev_ind.
  - rewrite app_nil_r. cbn. lia.
  - rewrite app_assoc, !digits_value_app, IH, length_app. cbn [length]. rewrite Nat2Z.inj_add, Z.pow_add_r by lia. lia.
Qed.

Lemma digits_value_zeroes n : digits_value 10 (repeat (ch "0") n) = 0.
Proof. induction n as [|n IH]; [done|]. cbn [repeat]. change (48 :: repeat 48 n) with ([48] ++ repeat 48 n). rewrite digits_value_concat, IH. cbn. lia. Qed.

Lemma digit_of_number d : 0 <= d < 10 -> Z.lor d (ch "0") = 48 + d /\ is_ascii_digit (48 + d) = true /\ hex_value (48 + d) = d.
Proof.
  intros Hd. assert (Hall : Forall (fun d => Z.lor d 48 = 48 + d /\ is_ascii_digit (48 + d) = true /\ hex_value (48 + d) = d) (seqZ 0 10)) by (repeat constructor).
  rewrite Forall_forall in Hall. apply Hall, elem_of_seqZ. lia.
Qed.

(** Digits without a leading zero *)
Definition plain_digits (x : Z) (s : bytes) : Prop :=
  digits s /\ digits_value 10 s = x /\ starts_with_char s (ch "0") = false.

Lemma decimal_digits_ok size x : 0 < x < 10 ^ Z.of_nat size -> exists s, convert_to_decimal_digits_array size x = Ret s /\ plain_digits x s.
Proof.
  unfold convert_to_decimal_digits_array. revert x. induction size as [|size IH]; intros x Hx; [change (10 ^ Z.of_nat 0) with 1 in Hx; lia|].
  rewrite Nat2Z.inj_succ, Z.pow_succ_r in Hx by lia. cbn [decimal_digits_loop]. replace (x =? 0) with false by lia.
  pose proof (Z.div_mod x 10 ltac:(lia)) as Ex. pose proof (Z.mod_pos_bound x 10 ltac:(lia)) as Hm. destruct (digit_of_number (x mod 10) Hm) as (-> & Hd & Hv).
  destruct (Z.eq_dec (x / 10) 0) as [E|E].
  - rewrite E. replace (decimal_digits_loop size 0) with (@Ret bytes []) by by destruct size. cbn [res_bind rev app]. exists [48 + x mod 10].
    split; [done|]. split; [split; [done|by repeat constructor]|]. split; [unfold digits_value; cbn [fold_left]; lia|]. unfold starts_with_char. lia.
  - destruct (IH (x / 10)) as (s & Hs & Hok & Hval & Hz); [pose proof (Z.div_lt_upper_bound x 10 (10 ^ Z.of_nat size)); lia|].
    destruct (decimal_digits_loop size (x / 10)) as [l|]; cbn [res_bind] in Hs |- *; [|done]. injection Hs as <-. cbn [rev].
    exists (rev l ++ [48 + x mod 10]). split; [done|]. destruct Hok as [Hne Hall]. split; [split; [by destruct (rev l)|]|split].
    + apply Forall_app. split; [done|by repeat constructor].
    + rewrite digits_value_app. lia.
    + by destruct (rev l).
Qed.

Lemma digits_take n s : Forall (fun c => is_ascii_digit c = true) s -> (0 < n <= length s)%nat -> digits (take n s).
Proof. intros Hs Hn. split; [destruct s, n; cbn in *; [lia..|done]|by apply Forall_take]. Qed.

Lemma digits_drop n s : Forall (fun c => is_ascii_digit c = true) s -> (n < length s)%nat -> digits (drop n s).
Proof. intros Hs Hn. split; [intros E; apply (f_equal length) in E; rewrite length_drop in E; cbn in E; lia|by apply Forall_drop]. Qed.

(** ** Facts: printing *)

Lemma rounds_to_proper x y bits : (x == y)%Q -> rounds_to x bits -> rounds_to y bits.
Proof. intros E. unfold rounds_to. by rewrite E. Qed.

Lemma decimal_shift_zeroes f n : 0 <= n -> (decimal (f * 10 ^ n) 0 == decimal f n)%Q.
Proof. intros Hn. unfold decimal. rewrite inject_Z_mult, power_Z by done. change (inject_Z 10) with 10%Q. rewrite Qpower_0_r. ring. Qed.

(** The text of a number has the shape of a number in JSON: no leading zero. *)
Definition no_leading_zero (t : NumberText) : Prop :=
  nt_whole t = [ch "0"] \/ starts_with_char (nt_whole t) (ch "0") = false.

Definition denotes (t : NumberText) (sign : bool) (f e : Z) : Prop :=
  number_ok t /\ no_leading_zero t /\ nt_minus t = sign /\ (number_value t == decimal f e)%Q.

Section notation.
Variables (sign : bool) (f e : Z) (mantissa : bytes).
Hypothesis Hm : plain_digits f mantissa.
Let n : Z := e + Z.of_nat (length mantissa).

Lemma mantissa_length : (0 < length mantissa)%nat.
Proof. destruct Hm as [[Hne _] _]. destruct mantissa; [done|cbn; lia]. Qed.

Lemma take_no_zero k : (0 < k)%nat -> starts_with_char (take k mantissa) (ch "0") = false.
Proof. intros Hk. destruct Hm as (_ & _ & Hz). destruct mantissa, k; [done|done|lia|done]. Qed.

Lemma scientific_ok : n < -5 \/ 21 < n -> -2000 < e < 2000 -> (length mantissa <= 20)%nat ->
  exists t, scientific_notation sign n mantissa = Ret (number_text t) /\ denotes t sign f e /\ nt_exponent t <> None.
Proof.
  intros Hn He Hlen. unfold scientific_notation. pose proof mantissa_length as Hpos. destruct Hm as ((Hne & Hall) & Hval & Hz).
  destruct (decimal_digits_ok 5 (Z.abs (n - 1))) as (s & -> & Hd & Hs & _); [change (10 ^ Z.of_nat 5) with 100000; lia|]. cbn [res_bind].
  assert (Hexp : (if n <? 0 then - digits_value 10 s else digits_value 10 s) = n - 1) by (rewrite Hs; destruct (Z.ltb_spec n 0); lia).
  destruct (Nat.eqb_spec (length mantissa) 1) as [E1|E1].
  - exists {| nt_minus := sign; nt_whole := mantissa; nt_fraction := None; nt_exponent := Some (n <? 0, s) |}. split; [by destruct (n <? 0)|]. split; [|done].
    split; [split; [done|split; [done|by intros ?? [= <- <-]]]|]. split; [by right|]. split; [done|].
    unfold number_value. cbn [nt_whole nt_fraction nt_exponent]. rewrite app_nil_r, Hval, Hexp. cbn [length].
    replace (n - 1 - Z.of_nat 0) with e by lia. done.
  - exists {| nt_minus := sign; nt_whole := take 1 mantissa; nt_fraction := Some (drop 1 mantissa); nt_exponent := Some (n <? 0, s) |}.
    unfold substring_view_from, substring_view. rewrite !(proj2 (Nat.leb_le _ _)) by lia. cbn [verify res_bind].
    rewrite drop_0, (take_ge (drop 1 mantissa)) by (rewrite length_drop; lia).
    split; [unfold number_text; cbn [nt_minus nt_whole nt_fraction nt_exponent]; by destruct (n <? 0)|]. split; [|done].
    split; [split; [apply digits_take; [done|lia]|split; [intros ? [= <-]; apply digits_drop; [done|lia]|by intros ?? [= <- <-]]]|].
    split; [right; apply take_no_zero; lia|]. split; [done|].
    unfold number_value. cbn [nt_whole nt_fraction nt_exponent].
    rewrite take_drop, Hval, Hexp, length_drop. replace (n - 1 - Z.of_nat (length mantissa - 1)) with e by lia. done.
Qed.

Lemma plain_ok : exists t, plain_notation sign e n mantissa = Ret (number_text t) /\ denotes t sign f e
  /\ nt_exponent t = None /\ if 0 <=? e then nt_fraction t = None /\ digits_value 10 (nt_whole t) = f * 10 ^ e else nt_fraction t <> None.
Proof.
  unfold plain_notation. pose proof mantissa_length as Hpos. destruct Hm as ((Hne & Hall) & Hval & Hz).
  destruct (Z.leb_spec 0 e) as [He|He]; [|destruct (Z.ltb_spec 0 n) as [Hn|Hn]].
  - exists {| nt_minus := sign; nt_whole := mantissa ++ repeat 48 (Z.to_nat e); nt_fraction := None; nt_exponent := None |}.
    assert (Hv : digits_value 10 (mantissa ++ repeat 48 (Z.to_nat e)) = f * 10 ^ e).
    { rewrite digits_value_concat, digits_value_zeroes, Hval, repeat_length. rewrite Z2Nat.id by lia. lia. }
    split; [unfold number_text; cbn [nt_minus nt_whole nt_fraction nt_exponent]; by rewrite !app_nil_r|]. split; [|done].
    split; [split; [split; [by destruct mantissa|apply Forall_app; split; [done|apply Forall_forall; intros x Hx%list_elem_of_In%repeat_spec; by subst]]|done]|].
    split; [right; by destruct mantissa|]. split; [done|].
    unfold number_value. cbn [nt_whole nt_fraction nt_exponent]. rewrite app_nil_r, Hv. cbn [length]. by apply decimal_shift_zeroes.
  - exists {| nt_minus := sign; nt_whole := take (Z.to_nat n) mantissa; nt_fraction := Some (drop (Z.to_nat n) mantissa); nt_exponent := None |}.
    unfold substring_view_from, substring_view. rewrite !(proj2 (Nat.leb_le _ _)) by lia. cbn [verify res_bind].
    rewrite drop_0, (take_ge (drop _ mantissa)) by (rewrite length_drop; lia).
    split; [unfold number_text; cbn [nt_minus nt_whole nt_fraction nt_exponent]; by rewrite !app_nil_r|].
    split; [|done]. split; [split; [apply digits_take; [done|lia]|split; [intros ? [= <-]; apply digits_drop; [done|lia]|done]]|].
    split; [right; apply take_no_zero; lia|]. split; [done|].
    unfold number_value. cbn [nt_whole nt_fraction nt_exponent].
    rewrite take_drop, Hval, length_drop. by replace (0 - Z.of_nat (length mantissa - Z.to_nat n)) with e by lia.
  - exists {| nt_minus := sign; nt_whole := [48]; nt_fraction := Some (repeat 48 (Z.to_nat (- n)) ++ mantissa); nt_exponent := None |}.
    split; [unfold number_text; cbn [nt_minus nt_whole nt_fraction nt_exponent]; by rewrite !app_nil_r|].
    split; [|done]. split; [split; [split; [done|by repeat constructor]|split; [|done]]|split; [by left|]].
    + intros ? [= <-]. split; [by destruct (repeat 48 (Z.to_nat (- n))), mantissa|]. apply Forall_app. split; [|done].
      apply Forall_forall. intros x Hx%list_elem_of_In%repeat_spec. by subst.
    + split; [done|]. unfold number_value. cbn [nt_whole nt_fraction nt_exponent].
      rewrite !digits_value_concat, digits_value_zeroes, Hval, length_app, repeat_length. replace (digits_value 10 [48]) with 0 by done.
      replace (0 - Z.of_nat (Z.to_nat (- n) + length mantissa)) with e by lia. by replace (0 * _ + (0 * _ + f)) with f by lia.
Qed.

End notation.

Lemma plain_digits_length x s : plain_digits x s -> x < 2 ^ 64 -> (length s <= 20)%nat.
Proof.
  intros ((Hne & Hall) & Hv & Hz) Hx. destruct s as [|c s]; [done|]. change (c :: s) with ([c] ++ s) in Hv. rewrite digits_value_concat in Hv.
  assert (Hs : 0 <= digits_value 10 s). { apply digits_value_nonneg; [lia|]. apply forallb_Forall_iff. inversion Hall; subst. eapply Forall_impl; [eassumption|]. intros y Hy. by apply is_ascii_digit_hex. }
  assert (Hc : 1 <= digits_value 10 [c]).
  { inversion Hall as [|? ? Hd _]; subst. unfold digits_value. cbn [fold_left]. unfold starts_with_char in Hz. unfold hex_value. rewrite Hd. ascii_lia. }
  destruct (Nat.le_gt_cases (length (c :: s)) 20) as [|Hl]; [done|]. cbn [length] in Hl.
  pose proof (Z.pow_le_mono_r 10 20 (Z.of_nat (length s)) ltac:(lia) ltac:(lia)) as Hm. change (10 ^ 20) with 100000000000000000000 in Hm. nia.
Qed.

Lemma format_double_text bits : finite_nonzero bits ->
  exists t f e, format_double bits = Ret (number_text t) /\ denotes t (fp_sign bits) f e /\ rounds_to (decimal f e) bits
    /\ 0 < f /\ (nt_fraction t = None /\ nt_exponent t = None -> 0 <= e /\ digits_value 10 (nt_whole t) = f * 10 ^ e).
Proof.
  intros Hf. destruct (convert_rounds bits Hf) as (f & e & Hc & Hrange & He & Hround & _). destruct Hf as [Hmax Hnz]. unfold format_double.
  replace (fp_is_nan bits) with false by (unfold fp_is_nan; lia). replace (fp_is_inf bits) with false by (unfold fp_is_inf; lia).
  replace (fp_is_zero bits) with false by (unfold fp_is_zero; lia). cbn [orb]. rewrite Hc. cbn [res_bind ef_fraction ef_exponent ef_sign].
  destruct (decimal_digits_ok 20 f) as (mantissa & -> & Hm); [change (10 ^ Z.of_nat 20) with 100000000000000000000; lia|]. cbn [res_bind].
  pose proof (plain_digits_length f mantissa Hm ltac:(lia)) as Hlen. destruct (_ || _) eqn:En.
  - destruct (scientific_ok (fp_sign bits) f e mantissa Hm) as (t & Ht & Hd & Hx); [lia..|]. exists t, f, e. split; [done|]. split; [done|]. split; [done|].
    split; [lia|]. by intros [_ ?].
  - destruct (plain_ok (fp_sign bits) f e mantissa Hm) as (t & Ht & Hd & Hx & Hcase). exists t, f, e. split; [done|]. split; [done|]. split; [done|].
    split; [lia|]. intros [Hfr _]. destruct (Z.leb_spec 0 e); [split; [lia|by apply Hcase]|done].
Qed.

(** ** A reference parser

    It reads the text and looks for the double in between whose neighbours the
    number lies, with a binary search over all magnitudes. *)

Definition fp_infinity : Z := exponent_max * 2 ^ 52.
Definition fp_high (b : Z) : Q := ((fp_value b + fp_value (b + 1)) / 2)%Q.

(** [x] rounds to the magnitude [b] or to a smaller one. *)
Definition at_most (x : Q) (b : Z) : bool :=
  (fp_infinity <=? b) || negb (Qle_bool (fp_high b) x) || (Z.even b && Qeq_bool x (fp_high b)).

Fixpoint search_magnitude (n : nat) (x : Q) (low : Z) : Z :=
  match n with
  | O => low
  | S n =>
      let half := 2 ^ Z.of_nat n in
      if at_most x (low + half - 1) then search_magnitude n x low else search_magnitude n x (low + half)
  end.

Definition ref_fraction (s : bytes) : option bytes * bytes :=
  match s with
  | c :: r =>
      if (c =? ch ".") && negb (sv_is_empty (take_while is_ascii_digit r))
      then (Some (take_while is_ascii_digit r), drop_while is_ascii_digit r) else (None, s)
  | [] => (None, [])
  end.

Definition ref_sign (s : bytes) : bool * bytes :=
  match s with c :: r => if c =? ch "-" then (true, r) else if c =? ch "+" then (false, r) else (false, s) | [] => (false, []) end.

Definition ref_exponent (s : bytes) : option (bool * bytes) * bytes :=
  match s with
  | c :: r =>
      let (minus, r) := ref_sign r in
      if ((c =? ch "e") || (c =? ch "E")) && negb (sv_is_empty (take_while is_ascii_digit r))
      then (Some (minus, take_while is_ascii_digit r), drop_while is_ascii_digit r) else (None, s)
  | [] => (None, [])
  end.

Definition ref_number (s : bytes) : NumberText * bytes :=
  let (minus, s) := ref_sign s in
  let whole := take_while is_ascii_digit s in
  let (fraction, s) := ref_fraction (drop_while is_ascii_digit s) in
  let (exponent, s) := ref_exponent s in
  ({| nt_minus := minus; nt_whole := whole; nt_fraction := fraction; nt_exponent := exponent |}, s).

#[export] Instance reference_fast_float_double : FastFloatDouble := {
  from_chars_double s :=
    let (t, rest) := ref_number s in
    if sv_is_empty (nt_whole t) && match nt_fraction t with Some _ => false | None => true end then (0, 0%nat, Errc_InvalidArgument)
    else
      let magnitude := search_magnitude 63 (number_value t) 0 in
      ((if nt_minus t then 2 ^ 63 + magnitude else magnitude), (length s - length rest)%nat,
       if magnitude =? fp_infinity then Errc_ResultOutOfRange else Errc_None)
}.

Lemma search_range n : forall x low, low <= search_magnitude n x low < low + 2 ^ Z.of_nat n.
Proof.
  induction n as [|n IH]; intros x low; [cbn; lia|]. rewrite Nat2Z.inj_succ, Z.pow_succ_r by lia. cbn [search_magnitude].
  destruct (at_most _ _); [specialize (IH x low)|specialize (IH x (low + 2 ^ Z.of_nat n))]; lia.
Qed.

Lemma search_finds n : forall x low b, low <= b < low + 2 ^ Z.of_nat n ->
  (forall c, b <= c -> at_most x c = true) -> (forall c, 0 <= c < b -> at_most x c = false) -> 0 <= low -> search_magnitude n x low = b.
Proof.
  induction n as [|n IH]; intros x low b Hb Hyes Hno Hlow; [change (2 ^ Z.of_nat 0) with 1 in Hb; cbn; lia|].
  rewrite Nat2Z.inj_succ, Z.pow_succ_r in Hb by lia. cbn [search_magnitude]. pose proof (Z.pow_pos_nonneg 2 (Z.of_nat n) ltac:(lia) ltac:(lia)).
  destruct (Z.lt_ge_cases b (low + 2 ^ Z.of_nat n)) as [Hl|Hr].
  - rewrite Hyes by lia. apply IH; (done || lia).
  - rewrite Hno by lia. apply IH; (done || lia).
Qed.

Lemma fp_value_step b : 0 <= b < fp_infinity -> (fp_value b < fp_value (b + 1))%Q.
Proof.
  intros Hb. unfold fp_infinity, exponent_max in Hb. assert (Hm : b mod 2 ^ 63 = b) by (apply Z.mod_small; lia).
  assert (He : fp_exponent b <> exponent_max).
  { unfold fp_exponent, mantissa_bits, exponent_max. rewrite Z.mod_small; [apply Z.lt_neq, Z.div_lt_upper_bound; lia|].
    split; [apply Z.div_pos; lia|apply Z.div_lt_upper_bound; lia]. }
  pose proof (fp_value_next b He) as Hn. rewrite Hm in Hn. rewrite Hn. unfold fp_value. apply Qmult_lt_r; [apply two_power_pos|]. rewrite <- Zlt_Qlt. lia.
Qed.

Lemma fp_high_mono b c : 0 <= b < c -> c < fp_infinity -> (fp_high b < fp_high c)%Q.
Proof.
  intros Hb Hc. unfold fp_high. apply Qmult_lt_r; [done|].
  assert (Hmono : forall k b, 0 <= b -> b + Z.of_nat k < fp_infinity + 1 -> (0 < k)%nat -> (fp_value b < fp_value (b + Z.of_nat k))%Q).
  { clear. induction k as [|k IH]; intros b Hb Hk Hpos; [lia|]. destruct k as [|k]; [apply fp_value_step; lia|].
    apply Qlt_trans with (fp_value (b + Z.of_nat (S k))); [apply IH; lia|]. replace (b + Z.of_nat (S (S k))) with (b + Z.of_nat (S k) + 1) by lia. apply fp_value_step. lia. }
  pose proof (Hmono (Z.to_nat (c - b)) b ltac:(lia) ltac:(lia) ltac:(lia)) as H1.
  pose proof (Hmono (Z.to_nat (c - b)) (b + 1) ltac:(lia) ltac:(lia) ltac:(lia)) as H2.
  replace (b + Z.of_nat (Z.to_nat (c - b))) with c in H1 by lia. replace (b + 1 + Z.of_nat (Z.to_nat (c - b))) with (c + 1) in H2 by lia.
  by apply Qplus_lt_le_compat; [|apply Qlt_le_weak].
Qed.

Lemma at_most_spec x b : b < fp_infinity -> at_most x b = true <-> (x < fp_high b)%Q \/ Z.even b = true /\ (x == fp_high b)%Q.
Proof.
  intros Hb. unfold at_most. replace (fp_infinity <=? b) with false by lia. cbn [orb]. rewrite orb_true_iff, andb_true_iff, Qeq_bool_iff, negb_true_iff.
  assert (Hle : Qle_bool (fp_high b) x = false <-> (x < fp_high b)%Q).
  { rewrite <- not_true_iff_false, Qle_bool_iff. split; [apply Qnot_le_lt|apply Qlt_not_le]. }
  by rewrite Hle.
Qed.

Lemma even_magnitude bits : Z.even (fp_mantissa bits) = Z.even (bits mod 2 ^ 63).
Proof.
  rewrite magnitude_fields, Z.even_add. replace (Z.even (fp_exponent bits * 2 ^ 52)) with true; [by destruct (Z.even (fp_mantissa bits))|].
  rewrite Z.even_mul. symmetry. apply orb_true_r.
Qed.

Lemma rounds_to_found x bits : finite_nonzero bits -> rounds_to x bits -> search_magnitude 63 x 0 = bits mod 2 ^ 63.
Proof.
  intros [Hmax Hnz] [Hlow Hhigh]. rewrite even_magnitude in *. pose proof (magnitude_fields bits) as Hb. destruct (fp_ranges bits) as [Hm He].
  unfold exponent_max in Hmax. assert (Hrange : 0 < bits mod 2 ^ 63 < fp_infinity) by (unfold fp_infinity, exponent_max; lia).
  set (b := bits mod 2 ^ 63) in *. clearbody b. fold (fp_high b) in Hhigh.
  assert (Hlow' : (fp_high (b - 1) < x)%Q \/ Z.even b = true /\ (fp_high (b - 1) == x)%Q) by (unfold fp_high; by replace (b - 1 + 1) with b by lia).
  apply search_finds; [unfold fp_infinity, exponent_max in *; change (2 ^ Z.of_nat 63) with (2 ^ 63); lia|..|done].
  - intros c Hc. destruct (Z.lt_ge_cases c fp_infinity) as [Hi|Hi]; [|unfold at_most; by replace (fp_infinity <=? c) with true by lia].
    apply at_most_spec; [done|]. destruct (Z.eq_dec b c) as [->|Hne]; [done|left]. pose proof (fp_high_mono b c ltac:(lia) Hi).
    destruct Hhigh as [H1|[_ ->]]; [by apply Qlt_trans with (fp_high b)|done].
  - intros c Hc. apply not_true_iff_false. rewrite at_most_spec by lia. destruct (Z.eq_dec c (b - 1)) as [->|Hne].
    + intros [Hx|[Hev Hx]]; destruct Hlow' as [Hl|[He' Hl]].
      * by apply (Qlt_irrefl x), Qlt_trans with (fp_high (b - 1)).
      * rewrite Hl in Hx. by apply (Qlt_irrefl x).
      * rewrite Hx in Hl. by apply (Qlt_irrefl (fp_high (b - 1))).
      * rewrite Z.even_sub, He' in Hev. done.
    + pose proof (fp_high_mono c (b - 1) ltac:(lia) ltac:(lia)) as Hc1.
      assert (Hcx : (fp_high c < x)%Q) by (destruct Hlow' as [Hl|[_ <-]]; [by apply Qlt_trans with (fp_high (b - 1))|done]).
      intros [Hx|[_ Hx]]; [by apply (Qlt_irrefl x), Qlt_trans with (fp_high c)|rewrite Hx in Hcx; by apply (Qlt_irrefl (fp_high c))].
Qed.

(** The double of an integer below 2^53 *)
Definition small_integer_bits (n : Z) : Z := (Z.log2 n + 1023) * 2 ^ 52 + (n * 2 ^ (52 - Z.log2 n) - 2 ^ 52).

Lemma small_integer_bits_value n : 0 < n < 2 ^ 53 -> let b := small_integer_bits n in
  2 ^ 52 <= b < fp_infinity - 1 /\ (fp_value b == inject_Z n)%Q.
Proof.
  intros Hn. pose proof (Z.log2_spec n ltac:(lia)) as [Hl Hh]. pose proof (Z.log2_nonneg n) as H0. set (e := Z.log2 n) in *.
  assert (He : e < 53) by (apply (Z.pow_lt_mono_r_iff 2); lia).
  assert (Hp : 2 ^ e * 2 ^ (52 - e) = 2 ^ 52) by (rewrite <- Z.pow_add_r by lia; f_equal; lia).
  assert (Hq : 0 < 2 ^ (52 - e)) by (apply Z.pow_pos_nonneg; lia). rewrite Z.pow_succ_r in Hh by done.
  assert (Hm : 0 <= n * 2 ^ (52 - e) - 2 ^ 52 < 2 ^ 52) by nia. cbv zeta. unfold small_integer_bits. fold e.
  split; [unfold fp_infinity, exponent_max; lia|]. rewrite fp_value_fields by lia. replace (e + 1023 =? 0)%Z with false by lia.
  replace (2 ^ 52 + (n * 2 ^ (52 - e) - 2 ^ 52))%Z with (n * 2 ^ (52 - e))%Z by lia. rewrite inject_Z_mult.
  replace (e + 1023 - 1075)%Z with (- (52 - e))%Z by lia. rewrite Zpower_Qpower by lia. change (inject_Z 2) with 2%Q.
  rewrite <- Qmult_assoc, <- Qpower_plus by done. replace (52 - e + - (52 - e))%Z with 0%Z by lia. rewrite Qpower_0_r. by rewrite Qmult_1_r.
Qed.

Lemma between_lt a b : (a < b -> a < (a + b) / 2 /\ (a + b) / 2 < b)%Q.
Proof.
  intros H. assert (E : forall c, (c == (c + c) / 2)%Q) by (intros c; field).
  split; [rewrite (E a) at 1|rewrite (E b) at 2]; (apply Qmult_lt_r; [done|]); [by apply Qplus_lt_r|by apply Qplus_lt_l].
Qed.

(** Below 2^53 an integer rounds to no double but itself. *)
Lemma small_integer_exact n bits : finite_nonzero bits -> 0 < n < 2 ^ 53 -> rounds_to (inject_Z n) bits -> (fp_value bits == inject_Z n)%Q.
Proof.
  intros Hf Hn Hr. destruct (small_integer_bits_value n Hn) as [Hb Hv]. set (b := small_integer_bits n) in *. clearbody b.
  assert (Hmod : b mod 2 ^ 63 = b) by (apply Z.mod_small; unfold fp_infinity, exponent_max in Hb; lia).
  assert (Hrb : rounds_to (inject_Z n) b).
  { unfold rounds_to. rewrite Hmod. pose proof (fp_value_step (b - 1) ltac:(lia)) as Hlow. pose proof (fp_value_step b ltac:(lia)) as Hhigh.
    replace (b - 1 + 1) with b in Hlow by lia. apply between_lt in Hlow as [_ Hlow], Hhigh as [Hhigh _]. rewrite Hv in Hlow, Hhigh. rewrite Hv. split; by left. }
  assert (Hfb : finite_nonzero b).
  { pose proof (magnitude_fields b) as Hmf. rewrite Hmod in Hmf. destruct (fp_ranges b). unfold fp_infinity, exponent_max in *. split; [unfold exponent_max; lia|lia]. }
  rewrite <- (fp_value_magnitude bits), <- (rounds_to_found _ _ Hf Hr), (rounds_to_found _ _ Hfb Hrb), Hmod. exact Hv.
Qed.

Lemma scan_digits s rest : digits s -> (forall c r, rest = c :: r -> is_ascii_digit c = false) ->
  take_while is_ascii_digit (s ++ rest) = s /\ drop_while is_ascii_digit (s ++ rest) = rest.
Proof. intros [_ Hs] Hrest. apply take_while_app; [done|]. destruct rest; [done|by eapply Hrest]. Qed.

Definition exponent_part (t : NumberText) : bytes :=
  match nt_exponent t with Some (minus, s) => ch "e" :: (if minus : bool then ch "-" else ch "+") :: s | None => [] end.
Definition fraction_part (t : NumberText) : bytes := match nt_fraction t with Some s => ch "." :: s | None => [] end.

Lemma ref_exponent_ok t rest : number_ok t -> ends_number rest -> ref_exponent (exponent_part t ++ rest) = (nt_exponent t, rest).
Proof.
  intros (_ & _ & Hd) Hend. unfold exponent_part. destruct (nt_exponent t) as [[minus s]|].
  - destruct (scan_digits s rest (Hd _ _ eq_refl)) as [E1 E2]; [intros c r ->; apply Hend|]. destruct (Hd _ _ eq_refl) as [Hne _].
    cbn [app]. unfold ref_exponent, ref_sign. destruct minus; cbn [Z.eqb Pos.eqb]; rewrite E1, E2; by destruct s.
  - cbn [app]. unfold ref_exponent. destruct rest as [|c r]; [done|]. destruct (ref_sign r). destruct Hend as (_ & _ & H1%Z.eqb_neq & H2%Z.eqb_neq). by rewrite H1, H2.
Qed.

Lemma ref_number_ok t rest : number_ok t -> ends_number rest -> ref_number (number_text t ++ rest) = (t, rest).
Proof.
  intros Hok Hend. pose proof (ref_exponent_ok t rest Hok Hend) as Hexp. destruct Hok as (Hw & Hf & Hx). destruct t as [minus whole fraction exponent].
  cbn [nt_whole nt_fraction nt_exponent] in *. unfold number_text. cbn [nt_minus nt_whole nt_fraction nt_exponent]. rewrite <- !app_assoc.
  change (match exponent with Some _ => _ | None => _ end) with (exponent_part {| nt_minus := minus; nt_whole := whole; nt_fraction := fraction; nt_exponent := exponent |}).
  set (tail := exponent_part _ ++ rest) in *.
  assert (Htail : forall c r, tail = c :: r -> is_ascii_digit c = false /\ c <> 46).
  { intros c r. unfold tail, exponent_part. cbn [nt_exponent]. destruct exponent as [[m s]|]; cbn [app]; [intros [= <- _]; done|]. intros ->. destruct Hend as (? & ? & _). done. }
  clearbody tail. assert (Hfrac : ref_fraction (match fraction with Some s => 46 :: s | None => [] end ++ tail) = (fraction, tail)).
  { destruct fraction as [s|]; cbn [app].
    - unfold ref_fraction. destruct (scan_digits s tail (Hf _ eq_refl)) as [-> ->]; [intros c r Hr; by apply (Htail c r)|]. destruct (Hf _ eq_refl) as [Hne _]. by destruct s.
    - unfold ref_fraction. destruct tail as [|c tail]; [done|]. replace (c =? 46) with false; [done|]. symmetry. apply Z.eqb_neq. by eapply Htail. }
  assert (Hscan : take_while is_ascii_digit (whole ++ match fraction with Some s => 46 :: s | None => [] end ++ tail) = whole
    /\ drop_while is_ascii_digit (whole ++ match fraction with Some s => 46 :: s | None => [] end ++ tail) = match fraction with Some s => 46 :: s | None => [] end ++ tail).
  { apply scan_digits; [done|]. intros c r. destruct fraction; cbn [app]; [intros [= <- _]; done|intros Hr; by apply (Htail c r)]. }
  unfold ref_number. assert (Hmin : forall s, ref_sign (minus_if minus ++ whole ++ s) = (minus, whole ++ s)).
  { intros s. destruct minus; [done|]. cbn [minus_if app]. destruct Hw as [Hne Hall]. destruct whole as [|c whole]; [done|]. cbn [app ref_sign].
    apply Forall_cons in Hall as [Hc _]. by replace (c =? 45) with false by ascii_lia; replace (c =? 43) with false by ascii_lia. }
  rewrite Hmin. destruct Hscan as [-> ->]. rewrite Hfrac, Hexp. done.
Qed.

(** The reference parser only reads the characters of numbers. *)
Definition reads_ascii (s rest : bytes) : Prop := exists x, s = x ++ rest /\ Forall (fun c => 0 <= c < 128) x.

Lemma reads_nothing s : reads_ascii s s.
Proof. by exists []. Qed.

Lemma reads_char c s rest : 0 <= c < 128 -> reads_ascii s rest -> reads_ascii (c :: s) rest.
Proof. intros Hc (x & -> & Hx). exists (c :: x). split; [done|by constructor]. Qed.

Lemma reads_digits s : reads_ascii s (drop_while is_ascii_digit s).
Proof.
  exists (take_while is_ascii_digit s). split; [by rewrite take_drop_while|]. eapply Forall_impl; [apply take_while_forall|]. intros c Hc. ascii_lia.
Qed.

Lemma reads_trans s t rest : reads_ascii s t -> reads_ascii t rest -> reads_ascii s rest.
Proof. intros (x & -> & Hx) (y & -> & Hy). exists (x ++ y). rewrite <- app_assoc. split; [done|by apply Forall_app]. Qed.

Lemma ref_sign_reads s m r : ref_sign s = (m, r) -> reads_ascii s r.
Proof.
  unfold ref_sign. destruct s as [|g s]; [intros [= <- <-]; apply reads_nothing|].
  destruct (Z.eqb_spec g 45) as [->|]; [intros [= <- <-]; apply reads_char; [lia|apply reads_nothing]|].
  destruct (Z.eqb_spec g 43) as [->|]; intros [= <- <-]; [apply reads_char; [lia|]|]; apply reads_nothing.
Qed.

Lemma ref_number_reads s t rest : ref_number s = (t, rest) -> reads_ascii s rest.
Proof.
  unfold ref_number. destruct (ref_sign s) as [minus s1] eqn:E1. destruct (ref_fraction _) as [fraction s2] eqn:E2. destruct (ref_exponent s2) as [exponent s3] eqn:E3.
  intros [= _ <-]. apply reads_trans with s1; [by eapply ref_sign_reads|].
  apply reads_trans with (drop_while is_ascii_digit s1); [apply reads_digits|]. apply reads_trans with s2.
  { unfold ref_fraction in E2. destruct (drop_while is_ascii_digit s1) as [|c r]; [injection E2 as <- <-; apply reads_nothing|].
    destruct (Z.eqb_spec c 46) as [->|]; cbn [andb] in E2; [destruct (negb _)|]; injection E2 as <- <-; [apply reads_char; [lia|apply reads_digits]|apply reads_nothing..]. }
  unfold ref_exponent in E3. destruct s2 as [|c r]; [injection E3 as <- <-; apply reads_nothing|]. destruct (ref_sign r) as [m r'] eqn:Er.
  destruct (_ && _) eqn:Ec; injection E3 as <- <-; [|apply reads_nothing]. apply andb_prop in Ec as [Ec _]. apply reads_char; [lia|].
  apply reads_trans with r'; [by eapply ref_sign_reads|apply reads_digits].
Qed.

Lemma bits_of_sign bits : 0 <= bits < 2 ^ 64 -> (if fp_sign bits then 2 ^ 63 + bits mod 2 ^ 63 else bits mod 2 ^ 63) = bits.
Proof.
  intros Hb. unfold fp_sign. pose proof (Z.div_mod bits (2 ^ 63) ltac:(lia)). pose proof (Z.mod_pos_bound bits (2 ^ 63) ltac:(lia)).
  pose proof (Z.div_pos bits (2 ^ 63) ltac:(lia) ltac:(lia)). pose proof (Z.div_lt_upper_bound bits (2 ^ 63) 2 ltac:(lia) ltac:(lia)).
  destruct (Z.eqb_spec (bits / 2 ^ 63) 0); cbn [negb]; lia.
Qed.

#[export] Instance reference_fast_float_double_laws : FastFloatDoubleLaws.
Proof.
  split.
  - intros s value parsed ec. cbn [from_chars_double reference_fast_float_double]. destruct (ref_number s) as [t rest] eqn:Es.
    apply ref_number_reads in Es as (x & -> & Hx). destruct (_ && _); [intros [= <- <- <-]; split; [lia|split; [lia|done]]|]. pose proof (search_range 63 (number_value t) 0) as Hr.
    change (2 ^ Z.of_nat 63) with (2 ^ 63) in Hr. generalize dependent (search_magnitude 63 (number_value t) 0). intros m Hr [= <- <- <-].
    rewrite length_app, Nat.add_sub, take_app_length. split; [destruct (nt_minus t); lia|split; [lia|done]].
  - intros t rest bits Hok Hend Hbits Hf Hsign Hround. cbn [from_chars_double reference_fast_float_double]. rewrite (ref_number_ok t rest Hok Hend).
    destruct (sv_is_empty (nt_whole t)) eqn:E; [destruct Hok as [[Hne _] _]; by destruct (nt_whole t)|]. cbn [andb].
    rewrite (rounds_to_found _ bits Hf Hround), <- Hsign, bits_of_sign, length_app, Nat.add_sub by done.
    replace (bits mod 2 ^ 63 =? fp_infinity) with false; [done|]. symmetry. apply Z.eqb_neq. rewrite magnitude_fields. destruct (fp_ranges bits) as [Hm He].
    destruct Hf as [Hmax _]. unfold fp_infinity, exponent_max in *. lia.
Qed.

(** ** The syntax of decimal numbers

    What [from_chars] accepts for a double: a sign, digits, a point with digits,
    and an exponent, with digits in front of the point or after it. *)

Record DecimalText := {
  dt_sign : bytes;
  dt_whole : bytes;
  dt_fraction : option bytes;
  dt_exponent : option (Z * bytes * bytes)
}.

Definition sign_ok (s : bytes) : Prop := s = [] \/ s = [ch "+"] \/ s = [ch "-"].

Definition decimal_ok (t : DecimalText) : Prop :=
  sign_ok (dt_sign t)
  /\ Forall (fun c => is_ascii_digit c = true) (dt_whole t)
  /\ (forall s, dt_fraction t = Some s -> digits s)
  /\ (forall e sign s, dt_exponent t = Some (e, sign, s) -> (e = ch "e" \/ e = ch "E") /\ sign_ok sign /\ digits s)
  /\ (dt_whole t <> [] \/ dt_fraction t <> None).

Definition dt_fraction_text (t : DecimalText) : bytes := match dt_fraction t with Some s => ch "." :: s | None => [] end.
Definition dt_exponent_text (t : DecimalText) : bytes := match dt_exponent t with Some (e, sign, s) => e :: sign ++ s | None => [] end.
Definition decimal_text_of (t : DecimalText) : bytes := dt_sign t ++ dt_whole t ++ dt_fraction_text t ++ dt_exponent_text t.

(** Documented behaviour: all of such a text is read; a value too large or too
    small for a double is an infinity or a zero, and out of range. *)
Class FastFloatDoubleSyntaxLaws `{FastFloatDouble} : Prop := {
  from_chars_double_decimal (t : DecimalText) : decimal_ok t ->
    exists value ec, from_chars_double (decimal_text_of t) = (value, length (decimal_text_of t), ec)
      /\ (ec = Errc_None \/ ec = Errc_ResultOutOfRange /\ (fp_is_inf value || fp_is_zero value) = true)
}.

Lemma decimal_text_reads `{FastFloatDoubleSyntaxLaws} t : decimal_ok t ->
  exists value, parse_first_number_double (decimal_text_of t) = Some (value, length (decimal_text_of t)).
Proof.
  intros Ht. destruct (from_chars_double_decimal t Ht) as (value & ec & E & Hec). exists value. unfold parse_first_number_double. rewrite E.
  destruct Hec as [->|[-> ->]]; done.
Qed.

Lemma ref_sign_skips sign rest : sign_ok sign -> match rest with c :: _ => c <> 43 /\ c <> 45 | [] => True end -> exists m, ref_sign (sign ++ rest) = (m, rest).
Proof.
  intros [->|[->| ->]] Hr; [|by exists false|by exists true]. cbn [app]. destruct rest as [|c r]; [by exists false|]. destruct Hr as [H1 H2]. exists false.
  unfold ref_sign. by rewrite (proj2 (Z.eqb_neq _ _) H1), (proj2 (Z.eqb_neq _ _) H2).
Qed.

Lemma digits_alone s : Forall (fun c => is_ascii_digit c = true) s -> take_while is_ascii_digit s = s /\ drop_while is_ascii_digit s = [].
Proof. intros Hs. rewrite <- (app_nil_r s) at 1 3. by apply take_while_app. Qed.

Lemma ref_exponent_text t : decimal_ok t -> exists x, ref_exponent (dt_exponent_text t) = (x, []).
Proof.
  intros (_ & _ & _ & He & _). unfold dt_exponent_text. destruct (dt_exponent t) as [[[e sign] s]|]; [|by exists None].
  destruct (He e sign s eq_refl) as (Hc & Hs & [Hne Hd]). unfold ref_exponent.
  destruct (ref_sign_skips sign s Hs) as [m ->]; [destruct s as [|c s]; [done|]; apply Forall_cons in Hd as [Hd _]; ascii_lia|].
  destruct (digits_alone s Hd) as [-> ->]. exists (Some (m, s)). destruct Hc as [->| ->]; by destruct s.
Qed.

Lemma ref_number_text t : decimal_ok t -> exists m x,
  ref_number (decimal_text_of t) = ({| nt_minus := m; nt_whole := dt_whole t; nt_fraction := dt_fraction t; nt_exponent := x |}, []).
Proof.
  intros Hok. destruct (ref_exponent_text t Hok) as [x Hx]. pose proof Hok as (Hs & Hw & Hf & He & Hne). unfold ref_number, decimal_text_of.
  assert (Hexp : match dt_exponent_text t with c :: _ => is_ascii_digit c = false /\ c <> 46 | [] => True end).
  { unfold dt_exponent_text. destruct (dt_exponent t) as [[[e sign] s]|]; [|done]. destruct (He e sign s eq_refl) as ([->| ->] & _); done. }
  destruct (ref_sign_skips (dt_sign t) (dt_whole t ++ dt_fraction_text t ++ dt_exponent_text t) Hs) as [m ->].
  { destruct (dt_whole t) as [|c w]; [|apply Forall_cons in Hw as [Hc _]; cbn [app]; ascii_lia]. unfold dt_fraction_text. cbn [app].
    destruct (dt_fraction t); [done|]. by destruct Hne as [?|?]. }
  destruct (take_while_app is_ascii_digit (dt_whole t) (dt_fraction_text t ++ dt_exponent_text t)) as [-> ->]; [done| |].
  { unfold dt_fraction_text. destruct (dt_fraction t); [done|]. cbn [app]. destruct (dt_exponent_text t); [done|by destruct Hexp]. }
  exists m, x. replace (ref_fraction (dt_fraction_text t ++ dt_exponent_text t)) with (dt_fraction t, dt_exponent_text t); [by rewrite Hx|].
  unfold dt_fraction_text, ref_fraction. destruct (dt_fraction t) as [s|] eqn:E; cbn [app].
  - destruct (Hf s eq_refl) as [Hn Hd]. destruct (take_while_app is_ascii_digit s (dt_exponent_text t)) as [-> ->]; [done|destruct (dt_exponent_text t); [done|by destruct Hexp]|].
    by destruct s.
  - destruct (dt_exponent_text t) as [|c r]; [done|]. destruct Hexp as [_ Hc]. by rewrite (proj2 (Z.eqb_neq _ _) Hc).
Qed.

Lemma infinity_bits m : (if m : bool then 2 ^ 63 + fp_infinity else fp_infinity) = if m then 0xfff0000000000000 else 0x7ff0000000000000.
Proof. by destruct m. Qed.

#[export] Instance reference_fast_float_double_syntax : FastFloatDoubleSyntaxLaws.
Proof.
  split. intros t Hok. cbn [from_chars_double reference_fast_float_double]. destruct (ref_number_text t Hok) as (m & x & ->). cbn [nt_whole nt_fraction nt_minus].
  destruct (sv_is_empty (dt_whole t) && _) eqn:E.
  { destruct Hok as (_ & _ & _ & _ & Hne). apply andb_prop in E as [E1 E2]. destruct (dt_whole t); [|done]. destruct (dt_fraction t); [done|]. by destruct Hne. }
  cbn [length]. rewrite Nat.sub_0_r. generalize (search_magnitude 63 (number_value {| nt_minus := m; nt_whole := dt_whole t; nt_fraction := dt_fraction t; nt_exponent := x |}) 0).
  intros magnitude. eexists _, _. split; [done|]. destruct (Z.eqb_spec magnitude fp_infinity) as [->|]; [right|by left]. split; [done|].
  rewrite infinity_bits. by destruct m.
Qed.

(** ** Properties *)

Lemma double_text_reads `{FastFloatDoubleLaws} bits t rest : 0 <= bits < 2 ^ 64 -> finite_nonzero bits ->
  number_ok t -> nt_minus t = fp_sign bits -> rounds_to (number_value t) bits -> ends_number rest ->
  parse_first_number_double (number_text t ++ rest) = Some (bits, length (number_text t)).
Proof. intros Hb Hf Hok Hs Hr Hend. unfold parse_first_number_double. by rewrite (from_chars_double_rounds t rest bits). Qed.

(** C6: printing a double and reading the text again gives the same double, for
    every finite double that is not zero, whatever follows the text that cannot
    continue a number. *)
Theorem double_text_roundtrip `{FastFloatDoubleLaws} (bits : Z) (rest : bytes) (Hbits : 0 <= bits < 2 ^ 64) (Hfinite : finite_nonzero bits)
    (Hrest : ends_number rest) :
  exists text, format_double bits = Ret text /\ parse_first_number_double (text ++ rest) = Some (bits, length text).
Proof.
  destruct (format_double_text bits Hfinite) as (t & f & e & Ht & (Hok & _ & Hs & Hv) & Hr & _). exists (number_text t). split; [done|].
  apply double_text_reads; try done. by apply (rounds_to_proper (decimal f e)).
Qed.

Lemma double_text_roundtrip_witness :
  format_double 0xc02091eb851eb852 = Ret (sv "-8.285") /\ parse_first_number_double (sv "-8.285,") = Some (0xc02091eb851eb852, 6%nat).
Proof.
  assert (E : format_double 0xc02091eb851eb852 = Ret (sv "-8.285")) by (vm_compute; reflexivity). split; [exact E|].
  destruct (double_text_roundtrip 0xc02091eb851eb852 (sv ",")) as (text & Ht & Hp).
  - split; [discriminate|reflexivity].
  - split; [discriminate|intros [H _]; discriminate H].
  - repeat split; discriminate.
  - rewrite E in Ht. injection Ht as <-. exact Hp.
Defined.

(** The sign of a negative zero is not printed: the formatter compares the value
    with zero. *)
Lemma negative_zero_prints_zero : fp_sign (2 ^ 63) = true /\ format_double (2 ^ 63) = Ret (sv "0").
Proof. split; reflexivity. Qed.
