(* ===== verification/Json.v ===== *)
(** * JSON: [AK/JsonValue.{h,cpp}], [JsonObject.{h,cpp}], [JsonArray.{h,cpp}],
      [JsonParser.cpp] and the serializers

    The parser is a [GenericLexer]; an error is the message.  Doubles are their
    bits.  The members of an object are an [OrderedHashMap], modelled by the
    list of its entries in the order of insertion. *)

From S2P Require Import Prelude CharacterTypes Utf8 MemMem Strings Tokens Wtf8 CodeUnits Lexer.
From S2P Require Import FloatTables FloatToDecimal FloatFacts FloatExact FloatTheorems FloatFormat.
Local Open Scope Z_scope.

(** ** Values *)

Unset Elimination Schemes.
Inductive JsonValue :=
| JNull
| JBool (value : bool)
| JI64 (value : Z)
| JU64 (value : Z)
| JDouble (bits : Z)
| JString (value : bytes)
| JArray (values : list JsonValue)
| JObject (members : list (bytes * JsonValue)).
Set Elimination Schemes.

Inductive JsonType := Type_Null | Type_Bool | Type_Number | Type_String | Type_Array | Type_Object.

Definition json_type (value : JsonValue) : JsonType :=
  match value with
  | JNull => Type_Null
  | JBool _ => Type_Bool
  | JI64 _ | JU64 _ | JDouble _ => Type_Number
  | JString _ => Type_String
  | JArray _ => Type_Array
  | JObject _ => Type_Object
  end.

Definition is_json_null (value : JsonValue) : bool := match value with JNull => true | _ => false end.
Definition is_json_bool (value : JsonValue) : bool := match value with JBool _ => true | _ => false end.
Definition is_json_string (value : JsonValue) : bool := match value with JString _ => true | _ => false end.
Definition is_json_array (value : JsonValue) : bool := match value with JArray _ => true | _ => false end.
Definition is_json_object (value : JsonValue) : bool := match value with JObject _ => true | _ => false end.
Definition is_json_number (value : JsonValue) : bool := match value with JI64 _ | JU64 _ | JDouble _ => true | _ => false end.

(** [JsonValue::JsonValue(StringView)] *)
Definition json_string `{Simdutf} (value : bytes) : res JsonValue :=
  let* value := must_from_utf8 value in Ret (JString value).

(** ** Objects *)

Definition JsonObject := list (bytes * JsonValue).

Fixpoint object_get (members : JsonObject) (key : bytes) : option JsonValue :=
  match members with
  | [] => None
  | (name, value) :: members => if sv_eqb name key then Some value else object_get members key
  end.

Definition object_has (members : JsonObject) (key : bytes) : bool := existsb (fun member => sv_eqb member.1 key) members.

(** [JsonObject::set(String, JsonValue)] *)
Fixpoint object_set (members : JsonObject) (key : bytes) (value : JsonValue) : JsonObject :=
  match members with
  | [] => [(key, value)]
  | (name, old) :: members => if sv_eqb name key then (name, value) :: members else (name, old) :: object_set members key value
  end.

(** [JsonObject::set(StringView, JsonValue)] *)
Definition object_set_view `{Simdutf} (members : JsonObject) (key : bytes) (value : JsonValue) : res JsonObject :=
  let* key := must_from_utf8 key in Ret (object_set members key value).

(** [JsonObject::remove] *)
Fixpoint object_remove (members : JsonObject) (key : bytes) : bool * JsonObject :=
  match members with
  | [] => (false, [])
  | (name, value) :: members =>
      if sv_eqb name key then (true, members)
      else let (found, members) := object_remove members key in (found, (name, value) :: members)
  end.

(** [has_null], [has_bool], [has_string], [has_number], [has_array] and
    [has_object] *)
Definition object_has_kind (kind : JsonValue -> bool) (members : JsonObject) (key : bytes) : bool :=
  match object_get members key with Some value => kind value | None => false end.

Definition object_get_bool (members : JsonObject) (key : bytes) : option bool :=
  match object_get members key with Some (JBool value) => Some value | _ => None end.
Definition object_get_string (members : JsonObject) (key : bytes) : option bytes :=
  match object_get members key with Some (JString value) => Some value | _ => None end.
Definition object_get_object (members : JsonObject) (key : bytes) : option JsonObject :=
  match object_get members key with Some (JObject value) => Some value | _ => None end.
Definition object_get_array (members : JsonObject) (key : bytes) : option (list JsonValue) :=
  match object_get members key with Some (JArray values) => Some values | _ => None end.

(** ** Serializing *)

(** [StringBuilder::try_append_escaped_for_json], one character *)
Definition escape_character_for_json (c : Z) : res bytes :=
  if c =? 8 then Ret (sv "\b")
  else if c =? 10 then Ret (sv "\n")
  else if c =? 9 then Ret (sv "\t")
  else if c =? 34 then Ret [92; 34]
  else if c =? 92 then Ret [92; 92]
  else if (0 <=? c) && (c <=? 0x1f) then
    let* digits := put_u64 c 16 false true false 4 32 in
    Ret (sv "\u" ++ digits)
  else Ret [c].

Fixpoint append_escaped_for_json (builder string : bytes) : res bytes :=
  match string with
  | [] => Ret builder
  | c :: string =>
      let* text := escape_character_for_json c in
      append_escaped_for_json (builder ++ text) string
  end.

(** [FormatBuilder::put_i64] for ["{}"] *)
Definition format_i64 (value : Z) : res bytes :=
  let is_negative := value <? 0 in
  let positive_value := if value =? - 2 ^ 63 then size_t (2 ^ 63 - 1) + 1 else if is_negative then - value else value in
  let* digits := put_u64 positive_value 10 false false false 0 32 in
  Ret (minus_if is_negative ++ digits).

(** [JsonArraySerializer] and [JsonObjectSerializer] over a [StringBuilder] *)
Record Serializer := { s_builder : bytes; s_empty : bool; s_finished : bool }.

Definition array_try_create (builder : bytes) : Serializer := {| s_builder := builder ++ [ch "["]; s_empty := true; s_finished := false |}.
Definition object_try_create (builder : bytes) : Serializer := {| s_builder := builder ++ [ch "{"]; s_empty := true; s_finished := false |}.

Definition array_begin_item (s : Serializer) : res Serializer :=
  verify (negb (s_finished s))
    (Ret {| s_builder := s_builder s ++ (if negb (s_empty s) then [ch ","] else []); s_empty := false; s_finished := s_finished s |}).

Definition object_begin_item (s : Serializer) (key : bytes) : res Serializer :=
  verify (negb (s_finished s))
    (let builder := s_builder s ++ (if negb (s_empty s) then [ch ","] else []) in
     let* builder := append_escaped_for_json (builder ++ [34]) key in
     Ret {| s_builder := builder ++ [34; ch ":"]; s_empty := false; s_finished := s_finished s |}).

Definition array_finish (s : Serializer) : res Serializer :=
  verify (negb (s_finished s)) (Ret {| s_builder := s_builder s ++ [ch "]"]; s_empty := s_empty s; s_finished := true |}).
Definition object_finish (s : Serializer) : res Serializer :=
  verify (negb (s_finished s)) (Ret {| s_builder := s_builder s ++ [ch "}"]; s_empty := s_empty s; s_finished := true |}).

Definition with_builder (s : Serializer) (builder : bytes) : Serializer :=
  {| s_builder := builder; s_empty := s_empty s; s_finished := s_finished s |}.

(** [JsonValue::serialize], with [JsonArray::serialize] and
    [JsonObject::serialize] *)
Fixpoint json_serialize (value : JsonValue) (builder : bytes) : res bytes :=
  match value with
  | JNull => Ret (builder ++ sv "null")
  | JBool value => Ret (builder ++ (if value then sv "true" else sv "false"))
  | JI64 value => let* text := format_i64 value in Ret (builder ++ text)
  | JU64 value => let* text := format_decimal value in Ret (builder ++ text)
  | JDouble bits => let* text := format_double bits in Ret (builder ++ text)
  | JString value =>
      let* builder := append_escaped_for_json (builder ++ [34]) value in
      Ret (builder ++ [34])
  | JArray values =>
      let* s := (fix each (values : list JsonValue) (s : Serializer) : res Serializer :=
        match values with
        | [] => Ret s
        | value :: values =>
            let* s := array_begin_item s in
            let* builder := json_serialize value (s_builder s) in
            each values (with_builder s builder)
        end) values (array_try_create builder) in
      let* s := array_finish s in
      Ret (s_builder s)
  | JObject members =>
      let* s := (fix each (members : list (bytes * JsonValue)) (s : Serializer) : res Serializer :=
        match members with
        | [] => Ret s
        | (key, value) :: members =>
            let* s := object_begin_item s key in
            let* builder := json_serialize value (s_builder s) in
            each members (with_builder s builder)
        end) members (object_try_create builder) in
      let* s := object_finish s in
      Ret (s_builder s)
  end.

(** [JsonValue::serialized] *)
Definition json_serialized `{Simdutf} (value : JsonValue) : res bytes :=
  let* builder := json_serialize value [] in
  must_from_utf8 builder.

(** ** Parsing *)

Definition JsonErrorOr (A : Type) := (bytes + A)%type.

(** [TRY] *)
Notation "'try*' x ':=' e 'in' k" :=
  (res_bind e (fun r => match r with inl error => Ret (inl error) | inr x => k end))
  (at level 10, x pattern, e at level 200, k at level 200) : ak_scope.

Definition is_json_space (c : Z) : bool := (c =? 9) || (c =? 10) || (c =? 13) || (c =? 32).

(** The inner loop of [consume_and_unescape_string]: the literal characters in
    front of the lexer *)
Fixpoint literal_characters (fuel : nat) (lexer : GenericLexer) (count : nat) : res (JsonErrorOr nat) :=
  match fuel with
  | O => Crash
  | S fuel =>
      let c := peek_at lexer count in
      if c =? 0 then Ret (inl (sv "JsonParser: EOF while parsing String"))
      else if is_ascii_c0_control c then Ret (inl (sv "JsonParser: ASCII control sequence encountered"))
      else if (c =? 34) || (c =? 92) then Ret (inr count)
      else literal_characters fuel lexer (S count)
  end.

(** What follows a backslash *)
Definition consume_escape (lexer : GenericLexer) (final_sb : bytes) : res (JsonErrorOr (bytes * GenericLexer)) :=
  let c := peek lexer in
  if c =? 0 then Ret (inl (sv "JsonParser: EOF while parsing String"))
  else if (c =? 34) || (c =? 92) || (c =? ch "/") then
    let* (c, lexer) := consume lexer in
    Ret (inr (final_sb ++ [c], lexer))
  else if c =? ch "b" then Ret (inr (final_sb ++ [8], ignore lexer 1))
  else if c =? ch "f" then Ret (inr (final_sb ++ [12], ignore lexer 1))
  else if c =? ch "n" then Ret (inr (final_sb ++ [10], ignore lexer 1))
  else if c =? ch "r" then Ret (inr (final_sb ++ [13], ignore lexer 1))
  else if c =? ch "t" then Ret (inr (final_sb ++ [9], ignore lexer 1))
  else if c =? ch "u" then
    let lexer := ignore lexer 1 in
    let* (code_point, lexer) := decode_single_or_paired_surrogate true lexer in
    match code_point with
    | inl _ => Ret (inl (sv "JsonParser: Error while parsing Unicode escape"))
    | inr code_point => Ret (inr (append_code_point final_sb code_point, lexer))
    end
  else Ret (inl (sv "JsonParser: Invalid escaped character")).

Fixpoint unescape_loop (fuel : nat) (lexer : GenericLexer) (final_sb : bytes) : res (JsonErrorOr (bytes * GenericLexer)) :=
  match fuel with
  | O => Crash
  | S fuel =>
      try* count := literal_characters (S (tell_remaining lexer)) lexer 0 in
      let* (literal, lexer) := consume_count lexer count in
      let final_sb := final_sb ++ literal in
      if peek lexer =? 34 then
        let* (_, lexer) := consume lexer in
        Ret (inr (final_sb, lexer))
      else
        try* (final_sb, lexer) := consume_escape (ignore lexer 1) final_sb in
        unescape_loop fuel lexer final_sb
  end.

Definition consume_and_unescape_string (lexer : GenericLexer) : res (JsonErrorOr (bytes * GenericLexer)) :=
  let (found, lexer) := consume_specific lexer 34 in
  if negb found then Ret (inl (sv "JsonParser: Expected '" ++ [34] ++ sv "'"))
  else unescape_loop (S (tell_remaining lexer)) lexer [].

Section parser.
Context `{Simdutf, FastFloat, FastFloatSigned, FastFloatDouble}.

Definition parse_string (lexer : GenericLexer) : res (JsonErrorOr (JsonValue * GenericLexer)) :=
  try* (string, lexer) := consume_and_unescape_string lexer in
  let* value := json_string string in
  Ret (inr (value, lexer)).

(** The lambda [fallback_to_double_parse] *)
Definition fallback_to_double_parse (lexer : GenericLexer) (start_index : nat) : res (JsonErrorOr (JsonValue * GenericLexer)) :=
  let* view := substring_view_from (m_input lexer) start_index in
  match parse_first_number_double view with
  | None => Ret (inl (sv "JsonParser: Invalid floating point"))
  | Some (value, characters_parsed) => Ret (inr (JDouble value, with_index lexer (start_index + characters_parsed)))
  end.

(** After the digits *)
Definition finish_integer (lexer : GenericLexer) (start_index : nat) (negative all_zero : bool) (number_buffer : bytes)
  : res (JsonErrorOr (JsonValue * GenericLexer)) :=
  if negative && all_zero then Ret (inr (JDouble (2 ^ 63), lexer))
  else
    match to_number (2 ^ 64 - 1) number_buffer with
    | Some number => Ret (inr (JU64 number, lexer))
    | None =>
        match to_number_signed (- 2 ^ 63) (2 ^ 63 - 1) number_buffer with
        | Some number => Ret (inr (JI64 number, lexer))
        | None => fallback_to_double_parse lexer start_index
        end
    end.

Fixpoint number_loop (fuel : nat) (lexer : GenericLexer) (start_index : nat) (negative all_zero : bool) (number_buffer : bytes)
  : res (JsonErrorOr (JsonValue * GenericLexer)) :=
  match fuel with
  | O => Crash
  | S fuel =>
      let c := peek lexer in
      if c =? ch "." then
        if negb (is_ascii_digit (peek_at lexer 1)) then Ret (inl (sv "JsonParser: Must have digits after decimal point"))
        else fallback_to_double_parse lexer start_index
      else if (c =? ch "e") || (c =? ch "E") then
        let next := peek_at lexer 1 in
        if negb (is_ascii_digit next) && ((negb (next =? ch "+") && negb (next =? ch "-")) || negb (is_ascii_digit (peek_at lexer 2)))
        then Ret (inl (sv "JsonParser: Must have digits after exponent with an optional sign inbetween"))
        else fallback_to_double_parse lexer start_index
      else if is_ascii_digit c then
        number_loop fuel (with_index lexer (S (m_index lexer))) start_index negative (all_zero && (c =? ch "0")) (number_buffer ++ [c])
      else finish_integer lexer start_index negative all_zero number_buffer
  end.

Definition parse_json_number (lexer : GenericLexer) : res (JsonErrorOr (JsonValue * GenericLexer)) :=
  let start_index := tell lexer in
  let negative := peek lexer =? ch "-" in
  let lexer := if negative then with_index lexer (S (m_index lexer)) else lexer in
  if negative && negb (is_ascii_digit (peek lexer)) then Ret (inl (sv "JsonParser: Unexpected '-' without further digits"))
  else if (peek lexer =? ch "0") && is_ascii_digit (peek_at lexer 1) then Ret (inl (sv "JsonParser: Cannot have leading zeros"))
  else number_loop (S (tell_remaining lexer)) lexer start_index negative true (if negative then [ch "-"] else []).

(** [parse_true], [parse_false] and [parse_null] *)
Definition parse_keyword (keyword : bytes) (value : JsonValue) (lexer : GenericLexer) : res (JsonErrorOr (JsonValue * GenericLexer)) :=
  let* (found, lexer) := consume_specific_view lexer keyword in
  if negb found then Ret (inl (sv "JsonParser: Expected '" ++ keyword ++ sv "'")) else Ret (inr (value, lexer)).

Definition starts_number (c : Z) : bool := (c =? ch "-") || is_ascii_digit c.

(** The ends of [parse_array] and [parse_object] *)
Definition finish_array (lexer : GenericLexer) (array : list JsonValue) : res (JsonErrorOr (JsonValue * GenericLexer)) :=
  let lexer := ignore_while lexer is_json_space in
  let (found, lexer) := consume_specific lexer (ch "]") in
  if negb found then Ret (inl (sv "JsonParser: Expected ']'")) else Ret (inr (JArray array, lexer)).

Definition finish_object (lexer : GenericLexer) (object : JsonObject) : res (JsonErrorOr (JsonValue * GenericLexer)) :=
  let (found, lexer) := consume_specific lexer (ch "}") in
  if negb found then Ret (inl (sv "JsonParser: Expected '}'")) else Ret (inr (JObject object, lexer)).

(** One iteration of the loop of [parse_array], and of [parse_object]: [helper] is
    [parse_helper], and [again] the next iteration. *)
Definition array_iteration (helper : GenericLexer -> res (JsonErrorOr (JsonValue * GenericLexer)))
    (again : GenericLexer -> list JsonValue -> res (JsonErrorOr (JsonValue * GenericLexer))) (lexer : GenericLexer) (array : list JsonValue) :
    res (JsonErrorOr (JsonValue * GenericLexer)) :=
  let lexer := ignore_while lexer is_json_space in
  if peek lexer =? ch "]" then finish_array lexer array
  else
    try* (element, lexer) := helper lexer in
    let array := array ++ [element] in
    let lexer := ignore_while lexer is_json_space in
    if peek lexer =? ch "]" then finish_array lexer array
    else
      let (found, lexer) := consume_specific lexer (ch ",") in
      if negb found then Ret (inl (sv "JsonParser: Expected ','"))
      else
        let lexer := ignore_while lexer is_json_space in
        if peek lexer =? ch "]" then Ret (inl (sv "JsonParser: Unexpected ']'")) else again lexer array.

Definition object_iteration (helper : GenericLexer -> res (JsonErrorOr (JsonValue * GenericLexer)))
    (again : GenericLexer -> JsonObject -> res (JsonErrorOr (JsonValue * GenericLexer))) (lexer : GenericLexer) (object : JsonObject) :
    res (JsonErrorOr (JsonValue * GenericLexer)) :=
  let lexer := ignore_while lexer is_json_space in
  if peek lexer =? ch "}" then finish_object lexer object
  else
    let lexer := ignore_while lexer is_json_space in
    try* (name, lexer) := consume_and_unescape_string lexer in
    let lexer := ignore_while lexer is_json_space in
    let (found, lexer) := consume_specific lexer (ch ":") in
    if negb found then Ret (inl (sv "JsonParser: Expected ':'"))
    else
      let lexer := ignore_while lexer is_json_space in
      try* (value, lexer) := helper lexer in
      let* object := object_set_view object name value in
      let lexer := ignore_while lexer is_json_space in
      if peek lexer =? ch "}" then finish_object lexer object
      else
        let (found, lexer) := consume_specific lexer (ch ",") in
        if negb found then Ret (inl (sv "JsonParser: Expected ','"))
        else
          let lexer := ignore_while lexer is_json_space in
          if peek lexer =? ch "}" then Ret (inl (sv "JsonParser: Unexpected '}'")) else again lexer object.

(** [parse_helper], [parse_array] and [parse_object]; the loops of the latter two
    are [array_loop] and [object_loop].  The fuel is for the calls and the
    iterations together. *)
Fixpoint parse_helper (fuel : nat) (lexer : GenericLexer) : res (JsonErrorOr (JsonValue * GenericLexer)) :=
  match fuel with
  | O => Crash
  | S fuel =>
      let lexer := ignore_while lexer is_json_space in
      let type_hint := peek lexer in
      if type_hint =? ch "{" then
        let (found, lexer) := consume_specific lexer (ch "{") in
        if negb found then Ret (inl (sv "JsonParser: Expected '{'")) else object_loop fuel lexer []
      else if type_hint =? ch "[" then
        let (found, lexer) := consume_specific lexer (ch "[") in
        if negb found then Ret (inl (sv "JsonParser: Expected '['")) else array_loop fuel lexer []
      else if type_hint =? 34 then parse_string lexer
      else if starts_number type_hint then parse_json_number lexer
      else if type_hint =? ch "f" then parse_keyword (sv "false") (JBool false) lexer
      else if type_hint =? ch "t" then parse_keyword (sv "true") (JBool true) lexer
      else if type_hint =? ch "n" then parse_keyword (sv "null") JNull lexer
      else Ret (inl (sv "JsonParser: Unexpected character"))
  end
with array_loop (fuel : nat) (lexer : GenericLexer) (array : list JsonValue) : res (JsonErrorOr (JsonValue * GenericLexer)) :=
  match fuel with
  | O => Crash
  | S fuel => array_iteration (parse_helper fuel) (array_loop fuel) lexer array
  end
with object_loop (fuel : nat) (lexer : GenericLexer) (object : JsonObject) : res (JsonErrorOr (JsonValue * GenericLexer)) :=
  match fuel with
  | O => Crash
  | S fuel => object_iteration (parse_helper fuel) (object_loop fuel) lexer object
  end.

(** Every call and iteration but the first follows a character. *)
Definition json_fuel (n : nat) : nat := 2 * n + 3.

Definition parse_json (lexer : GenericLexer) : res (JsonErrorOr JsonValue) :=
  try* (result, lexer) := parse_helper (json_fuel (tell_remaining lexer)) lexer in
  let lexer := ignore_while lexer is_json_space in
  if negb (is_eof lexer) then Ret (inl (sv "JsonParser: Didn't consume all input")) else Ret (inr result).

(** [JsonParser::parse] and [JsonValue::from_string] *)
Definition json_parse (input : bytes) : res (JsonErrorOr JsonValue) := parse_json (lexer_for input).

End parser.
