(* ===== verification/JsonFacts.v ===== *)
(** * JSON: the parser is total

    Every function of the parser returns on text that is valid UTF-8: it reads a
    part of the input that can be cut off, and what it returns is well-formed. *)

From S2P Require Import Prelude CharacterTypes Utf8 MemMem Strings Tokens Wtf8 CodeUnits Lexer.
From S2P Require Import FloatTables FloatToDecimal FloatFacts FloatExact FloatTheorems FloatFormat Json.
Local Open Scope Z_scope.

(** ** Values *)

(** Induction over values, for the elements of arrays and objects as well *)
Section json_ind.
Variable P : JsonValue -> Prop.
Hypothesis Pnull : P JNull.
Hypothesis Pbool : forall b, P (JBool b).
Hypothesis Pi64 : forall z, P (JI64 z).
Hypothesis Pu64 : forall z, P (JU64 z).
Hypothesis Pdouble : forall bits, P (JDouble bits).
Hypothesis Pstring : forall s, P (JString s).
Hypothesis Parray : forall values, Forall P values -> P (JArray values).
Hypothesis Pobject : forall members, Forall (fun member => P member.2) members -> P (JObject members).

Fixpoint json_value_ind (value : JsonValue) : P value :=
  match value with
  | JNull => Pnull
  | JBool b => Pbool b
  | JI64 z => Pi64 z
  | JU64 z => Pu64 z
  | JDouble bits => Pdouble bits
  | JString s => Pstring s
  | JArray values =>
      Parray values ((fix all (values : list JsonValue) : Forall P values :=
        match values with
        | [] => List.Forall_nil P
        | value :: values => List.Forall_cons P value values (json_value_ind value) (all values)
        end) values)
  | JObject members =>
      Pobject members ((fix all (members : list (bytes * JsonValue)) : Forall (fun member => P member.2) members :=
        match members with
        | [] => List.Forall_nil _
        | member :: members => List.Forall_cons _ member members (json_value_ind member.2) (all members)
        end) members)
  end.
End json_ind.

(** Numbers in the range of their type, valid strings, and objects with distinct
    keys *)
Unset Elimination Schemes.
Inductive json_ok : JsonValue -> Prop :=
| ok_null : json_ok JNull
| ok_bool b : json_ok (JBool b)
| ok_i64 z : - 2 ^ 63 <= z < 2 ^ 63 -> json_ok (JI64 z)
| ok_u64 z : 0 <= z < 2 ^ 64 -> json_ok (JU64 z)
| ok_double bits : 0 <= bits < 2 ^ 64 -> json_ok (JDouble bits)
| ok_string s : wtf8 s -> json_ok (JString s)
| ok_array values : Forall json_ok values -> json_ok (JArray values)
| ok_object members :
    NoDup members.*1 -> Forall (fun member => wtf8 member.1) members -> Forall (fun member => json_ok member.2) members ->
    json_ok (JObject members).
Set Elimination Schemes.

(** ** Objects *)

Lemma object_set_keys members key value : (object_set members key value).*1 = if object_has members key then members.*1 else members.*1 ++ [key].
Proof.
  induction members as [|[name old] members IH]; [done|]. cbn [object_set object_has existsb fst]. fold (object_has members key).
  destruct (sv_eqb name key) eqn:E; cbn [orb fmap list_fmap fst]; [done|]. rewrite IH. by destruct (object_has members key).
Qed.

Lemma object_has_In members key : object_has members key = true <-> key ∈ members.*1.
Proof.
  unfold object_has. rewrite existsb_exists, list_elem_of_fmap. split.
  - intros ([name value] & Hin & E). apply sv_eqb_true in E. exists (name, value). split; [done|by apply list_elem_of_In].
  - intros ([name value] & -> & Hin). exists (name, value). split; [by apply list_elem_of_In|]. by apply sv_eqb_true.
Qed.

Lemma object_set_nodup members key value : NoDup members.*1 -> NoDup (object_set members key value).*1.
Proof.
  intros Hnd. rewrite object_set_keys. destruct (object_has members key) eqn:E; [done|]. apply NoDup_app. split; [done|]. split; [|apply NoDup_singleton].
  intros name Hin ->%list_elem_of_singleton. apply object_has_In in Hin. congruence.
Qed.

Lemma object_set_Forall (P : bytes * JsonValue -> Prop) members key value :
  (forall name old, sv_eqb name key = true -> P (name, old) -> P (name, value)) -> P (key, value) -> Forall P members -> Forall P (object_set members key value).
Proof.
  intros Hrep Hnew. induction 1 as [|[name old] members Hm Hms IH]; cbn [object_set]; [by constructor|].
  destruct (sv_eqb name key) eqn:E; constructor; [by eapply Hrep|done|done|done].
Qed.

Lemma object_set_ok members key value : json_ok (JObject members) -> wtf8 key -> json_ok value -> json_ok (JObject (object_set members key value)).
Proof.
  inversion 1 as [| | | | | | |? Hnd Hk Hv]; subst. intros Hkey Hvalue. constructor; [by apply object_set_nodup|apply object_set_Forall..]; done.
Qed.

(** ** Escapes *)

Abbreviation ascii := (fun c : Z => 0 <= c < 128).

Lemma peek_at_pos a b n : peek_at (at_pos a b) n = default 0 (b !! n).
Proof.
  unfold peek_at, at_pos. cbn [m_input m_index]. rewrite length_app. destruct (Nat.ltb_spec (length a + n) (length a + length b)) as [Hl|Hl].
  - by rewrite lookup_app_r, (Nat.add_comm (length a)), Nat.add_sub by lia.
  - by rewrite lookup_ge_None_2 by lia.
Qed.

Lemma decode_one_reads n : forall surrogate a b, 0 <= surrogate < 2 ^ 16 ->
  exists r x y, decode_one_surrogate n surrogate (at_pos a b) = Ret (r, at_pos (a ++ x) y) /\ b = x ++ y
    /\ Forall ascii x /\ (r <> None -> length x = n) /\ forall v, r = Some v -> 0 <= v < 2 ^ 16.
Proof.
  induction n as [|n IH]; intros surrogate a b Hs; cbn [decode_one_surrogate].
  { exists (Some surrogate), [], b. rewrite app_nil_r. do 4 (split; [done|]). by intros v [= <-]. }
  rewrite peek_pos. destruct b as [|c b]; [by exists None, [], []; rewrite app_nil_r|].
  destruct (is_ascii_hex_digit c) eqn:Ec; cbn [negb]; [|by exists None, [], (c :: b); rewrite app_nil_r].
  rewrite consume_pos. cbn [res_bind]. rewrite parse_ascii_hex_digit_ok by done. cbn [res_bind].
  destruct (IH (u16 (Z.lor (Z.shiftl surrogate 4) (hex_value c))) (a ++ [c]) b (u16_range _)) as (r & x & y & -> & -> & Hx & Hl & Hv).
  exists r, (c :: x), y. rewrite <- app_assoc. split; [done|]. split; [done|]. split; [constructor; [ascii_lia|done]|]. split; [|done].
  intros Hne. cbn. by rewrite Hl.
Qed.

Lemma decode_pair_reads a b :
  exists r x y, decode_single_or_paired_surrogate true (at_pos a b) = Ret (r, at_pos (a ++ x) y) /\ b = x ++ y /\ Forall ascii x
    /\ forall code_point, r = inr code_point -> 0 <= code_point <= 0x10FFFF.
Proof.
  unfold decode_single_or_paired_surrogate. destruct (decode_one_reads 4 0 a b ltac:(lia)) as (high & x & y & -> & -> & Hx & _ & Hv).
  cbn [res_bind]. destruct high as [high|]; [|by exists (inl MalformedUnicodeEscape), x, y]. specialize (Hv high eq_refl).
  assert (Hsingle : exists r x' y', Ret (@inr UnicodeEscapeError Z high, at_pos (a ++ x) y) = Ret (r, at_pos (a ++ x') y') /\ x ++ y = x' ++ y' /\ Forall ascii x'
    /\ forall code_point, r = inr code_point -> 0 <= code_point <= 0x10FFFF).
  { exists (inr high), x, y. split; [done|]. split; [done|]. split; [done|]. intros cp [= <-]. lia. }
  destruct (is_utf16_high_surrogate high) eqn:Eh; cbn [negb]; [|exact Hsingle]. rewrite consume_specific_view_pos. cbn [res_bind].
  destruct (bool_decide _) eqn:Ep; cbn [negb]; [|exact Hsingle]. apply bool_decide_eq_true in Ep as [k ->].
  rewrite drop_app_length. destruct (decode_one_reads 4 0 ((a ++ x) ++ [92; 117]) k ltac:(lia)) as (low & x2 & y2 & -> & -> & Hx2 & Hl2 & Hv2).
  cbn [res_bind]. assert (Hall : Forall ascii (x ++ [92; 117] ++ x2)) by (apply Forall_app; split; [done|]; apply Forall_app; split; [repeat constructor; lia|done]).
  destruct low as [low|].
  2:{ exists (inl MalformedUnicodeEscape), (x ++ [92; 117] ++ x2), y2. rewrite <- !app_assoc. done. }
  specialize (Hv2 low eq_refl). specialize (Hl2 ltac:(done)). destruct (is_utf16_low_surrogate low) eqn:El.
  - unfold decode_utf16_surrogate_pair. rewrite Eh, El. cbn [verify res_bind]. eexists _, (x ++ [92; 117] ++ x2), y2.
    rewrite <- !app_assoc. split; [done|]. split; [done|]. split; [done|]. intros cp [= <-].
    unfold is_utf16_high_surrogate, is_utf16_low_surrogate, HIGH_SURROGATE_MIN, LOW_SURROGATE_MIN, FIRST_SUPPLEMENTARY_PLANE_CODE_POINT in *.
    rewrite Z.shiftl_mul_pow2 by lia. lia.
  - exists (inr high), x, ([92; 117] ++ x2 ++ y2). split; [|split; [done|split; [done|intros cp [= <-]; lia]]].
    unfold retreat_by, at_pos at 1. cbn [m_index]. rewrite !length_app, Hl2. cbn [length]. rewrite (proj2 (Nat.leb_le _ _)) by lia. cbn [verify res_bind].
    do 2 f_equal. unfold at_pos, with_index. cbn [m_input m_index]. rewrite <- !app_assoc. f_equal. rewrite !length_app. cbn [length]. lia.
Qed.

(** ** Strings *)

Lemma literal_characters_total a b fuel : forall count, (count <= length b)%nat -> (length b - count < fuel)%nat ->
  exists r, literal_characters fuel (at_pos a b) count = Ret r
    /\ match r with inl _ => True | inr n => exists c, b !! n = Some c /\ (c = 34 \/ c = 92) end.
Proof.
  induction fuel as [|fuel IH]; intros count Hc Hf; [lia|]. cbn [literal_characters]. rewrite peek_at_pos.
  destruct (b !! count) as [c|] eqn:E; cbn [default from_option]; [|by eexists]. apply lookup_lt_Some in E as Hlt. unfold id.
  destruct (c =? 0); [by eexists|]. destruct (is_ascii_c0_control c); [by eexists|].
  destruct ((c =? 34) || (c =? 92)) eqn:Eq; [|apply IH; lia]. eexists. split; [done|]. exists c. split; [done|lia].
Qed.

(** What is read: a part of the input, up to where it can be cut, and a result *)
Definition read_to (a b : bytes) (lexer : GenericLexer) : Prop := exists x y, lexer = at_pos (a ++ x) y /\ b = x ++ y /\ wtf8 y /\ x <> [].

Definition string_read (a b : bytes) (r : JsonErrorOr (bytes * GenericLexer)) : Prop :=
  match r with inl _ => True | inr (s, lexer) => wtf8 s /\ read_to a b lexer end.

Lemma read_to_skip a x b lexer : read_to (a ++ x) b lexer -> read_to a (x ++ b) lexer.
Proof.
  intros (y & z & -> & -> & Hz & Hne). exists (x ++ y), z. rewrite <- !app_assoc. split; [done|]. split; [done|]. split; [done|]. by destruct x, y.
Qed.

Lemma string_read_skip a x b r : string_read (a ++ x) b r -> string_read a (x ++ b) r.
Proof. destruct r as [|[s lexer]]; [done|]. intros [Hs Hr]. split; [done|by apply read_to_skip]. Qed.

Lemma consume_escape_total a b sb : wtf8 b -> wtf8 sb -> exists r, consume_escape (at_pos a b) sb = Ret r /\ string_read a b r.
Proof.
  intros Hb Hsb. unfold consume_escape. rewrite peek_pos. destruct b as [|c b]; [by eexists|].
  destruct (c =? 0) eqn:E0; [by eexists|].
  assert (Hone : forall d, 0 <= c < 128 -> 0 <= d < 128 -> string_read a (c :: b) (inr (sb ++ [d], at_pos (a ++ [c]) b))).
  { intros d Hc Hd. split; [apply wtf8_app; [done|]; apply wtf8_ascii; by apply Forall_singleton|].
    exists [c], b. split; [done|]. split; [done|]. split; [|done]. by apply (wtf8_cut [] c b Hc) in Hb as [_ ?]. }
  destruct ((c =? 34) || (c =? 92) || (c =? 47)) eqn:E1; [rewrite consume_pos; eexists; split; [done|]; apply Hone; lia|].
  rewrite ignore_one_pos. destruct (c =? 98) eqn:E2; [eexists; split; [done|]; apply Hone; lia|].
  destruct (c =? 102) eqn:E3; [eexists; split; [done|]; apply Hone; lia|]. destruct (c =? 110) eqn:E4; [eexists; split; [done|]; apply Hone; lia|].
  destruct (c =? 114) eqn:E5; [eexists; split; [done|]; apply Hone; lia|]. destruct (c =? 116) eqn:E6; [eexists; split; [done|]; apply Hone; lia|].
  destruct (c =? 117) eqn:E7; [|by eexists]. destruct (decode_pair_reads (a ++ [c]) b) as (r & x & y & -> & -> & Hx & Hcp). cbn [res_bind].
  destruct r as [|code_point]; [by eexists|]. eexists. split; [done|]. specialize (Hcp code_point eq_refl). rewrite append_code_point_encoded by done.
  split; [apply wtf8_app; [done|by apply wtf8_encoded]|]. exists (c :: x), y. rewrite <- app_assoc. split; [done|]. split; [done|]. split; [|done].
  apply (wtf8_ascii_prefix (c :: x)); [constructor; [lia|done]|done].
Qed.

Lemma unescape_loop_total fuel : forall a b sb, (length b < fuel)%nat -> wtf8 b -> wtf8 sb ->
  exists r, unescape_loop fuel (at_pos a b) sb = Ret r /\ string_read a b r.
Proof.
  induction fuel as [|fuel IH]; intros a b sb Hf Hb Hsb; [lia|]. cbn [unescape_loop]. rewrite tell_remaining_pos.
  destruct (literal_characters_total a b (S (length b)) 0) as (r & -> & Hr); [lia..|]. cbn [res_bind]. destruct r as [|n]; [by eexists|].
  destruct Hr as (c & Hc & Hcase). apply take_drop_middle in Hc. set (lit := take n b) in *. set (rest := drop (S n) b) in *.
  assert (Hlen : n = length lit).
  { unfold lit. rewrite length_take. apply (f_equal length) in Hc. rewrite length_app in Hc. cbn [length] in Hc. unfold lit, rest in Hc. rewrite length_take, length_drop in Hc. lia. }
  clearbody lit rest. subst b n. apply wtf8_cut in Hb as [Hl Hrest]; [|lia].
  unfold consume_count. rewrite tell_remaining_pos. cbn [m_index m_input at_pos].
  rewrite Nat.min_l by (rewrite length_app; lia). unfold substring_view. rewrite (proj2 (Nat.leb_le _ _)) by (rewrite !length_app; lia). cbn [verify res_bind].
  rewrite drop_app_length, take_app_length. replace (with_index _ _) with (at_pos (a ++ lit) (c :: rest)) by apply at_pos_move.
  rewrite peek_pos, ignore_one_pos, consume_pos. cbn [res_bind]. assert (Hsb' : wtf8 (sb ++ lit)) by by apply wtf8_app.
  destruct (Z.eqb_spec c 34) as [->|Hne].
  - eexists. split; [done|]. split; [done|]. exists (lit ++ [34]), rest. rewrite <- !app_assoc. do 3 (split; [done|]). by destruct lit.
  - destruct (consume_escape_total ((a ++ lit) ++ [c]) rest (sb ++ lit) Hrest Hsb') as (r & -> & Hr). cbn [res_bind].
    destruct r as [|[sb' lexer]]; [by eexists|]. destruct Hr as [Hs (x & y & -> & -> & Hy & Hx)].
    destruct (IH (((a ++ lit) ++ [c]) ++ x) y sb') as (r & -> & Hr); [rewrite !length_app in Hf; cbn [length] in Hf; rewrite length_app in Hf; destruct x; [done|cbn in Hf; lia]|done|done|].
    exists r. split; [done|]. replace (lit ++ c :: x ++ y) with ((lit ++ [c] ++ x) ++ y) by by rewrite <- !app_assoc.
    apply string_read_skip. by rewrite !app_assoc.
Qed.

Lemma consume_string_total a b : wtf8 b -> exists r, consume_and_unescape_string (at_pos a b) = Ret r /\ string_read a b r.
Proof.
  intros Hb. unfold consume_and_unescape_string. rewrite consume_specific_pos. destruct b as [|c b]; [by eexists|].
  destruct (Z.eqb_spec c 34) as [->|]; cbn [negb]; [|by eexists]. rewrite tell_remaining_pos. apply (wtf8_cut [] 34 b) in Hb as [_ Hb]; [|lia].
  destruct (unescape_loop_total (S (length b)) (a ++ [34]) b []) as (r & -> & Hr); [lia|done|apply wtf8_nil|]. exists r. split; [done|].
  by apply (string_read_skip a [34]).
Qed.

(** The call of [parse_helper] in an unfolded loop *)
Ltac fold_helper :=
  match goal with |- context [res_bind (?f ?n (at_pos ?p ?y)) _] => change (f n (at_pos p y)) with (parse_helper n (at_pos p y)) end.

(** ** Numbers *)

Section numbers.
Context `{SimdutfLaws, FastFloatLaws, FastFloatSignedLaws, FastFloatDoubleLaws}.

Lemma sign_digits_trim minus ds : Forall (fun c => is_ascii_digit c = true) ds -> trim_whitespace (minus_if minus ++ ds) = minus_if minus ++ ds.
Proof.
  intros Hd. apply trim_whitespace_id. apply Forall_app. split; [destruct minus; by repeat constructor|]. eapply Forall_impl; [exact Hd|].
  intros c Hc. unfold is_ascii_digit in Hc. unfold contains_char, whitespace_characters. cbn [existsb]. lia.
Qed.

Lemma unsigned_number minus ds : digits ds ->
  to_number (2 ^ 64 - 1) (minus_if minus ++ ds) = if minus then None else if digits_value 10 ds <=? 2 ^ 64 - 1 then Some (digits_value 10 ds) else None.
Proof.
  intros [Hne Hd]. unfold to_number. rewrite sign_digits_trim by done. destruct minus; cbn [minus_if app].
  - unfold parse_number, parse_first_number. pose proof (from_chars_prefix (2 ^ 64 - 1) 10 [] (45 :: ds)) as E. cbn [app sv_is_empty] in E. rewrite E; [done|by right; left|done|done].
  - apply parse_number_digits; [done|]. by apply forallb_Forall_iff.
Qed.

Lemma signed_number minus ds : digits ds ->
  to_number_signed (- 2 ^ 63) (2 ^ 63 - 1) (minus_if minus ++ ds)
  = if minus then if - 2 ^ 63 <=? - digits_value 10 ds then Some (- digits_value 10 ds) else None
    else if digits_value 10 ds <=? 2 ^ 63 - 1 then Some (digits_value 10 ds) else None.
Proof.
  intros [Hne Hd]. unfold to_number_signed. rewrite sign_digits_trim by done. apply forallb_Forall_iff in Hd. destruct minus; cbn [minus_if app].
  - rewrite from_chars_signed_minus by (done || lia). destruct (_ <=? _); [|done]. cbn [length]. by rewrite Nat.eqb_refl.
  - rewrite from_chars_signed_digits by (done || lia). destruct (_ <=? _); [|done]. by rewrite Nat.eqb_refl.
Qed.

Lemma digits_nonneg ds : Forall (fun c => is_ascii_digit c = true) ds -> 0 <= digits_value 10 ds.
Proof.
  intros Hd. apply digits_value_nonneg; [lia|]. apply forallb_Forall_iff. eapply Forall_impl; [exact Hd|]. intros c Hc. by apply is_ascii_digit_hex.
Qed.

(** An integer that fits a 64-bit type *)
Definition integer_result (minus : bool) (ds : bytes) : option JsonValue :=
  let value := digits_value 10 ds in
  if minus then if value <=? 2 ^ 63 then Some (JI64 (- value)) else None
  else if value <? 2 ^ 64 then Some (JU64 value) else None.

Lemma finish_integer_spec lexer start minus all_zero ds : digits ds ->
  finish_integer lexer start minus all_zero (minus_if minus ++ ds)
  = if minus && all_zero then Ret (inr (JDouble (2 ^ 63), lexer))
    else match integer_result minus ds with Some value => Ret (inr (value, lexer)) | None => fallback_to_double_parse lexer start end.
Proof.
  intros Hd. unfold finish_integer, integer_result. rewrite unsigned_number, signed_number by done. pose proof (digits_nonneg ds (proj2 Hd)) as Hnn.
  destruct minus; cbn [andb].
  - destruct all_zero; [done|]. by replace (- 2 ^ 63 <=? - digits_value 10 ds) with (digits_value 10 ds <=? 2 ^ 63) by lia; destruct (_ <=? _).
  - replace (digits_value 10 ds <=? 2 ^ 64 - 1) with (digits_value 10 ds <? 2 ^ 64) by lia. destruct (Z.ltb_spec (digits_value 10 ds) (2 ^ 64)); [done|].
    by replace (digits_value 10 ds <=? 2 ^ 63 - 1) with false by lia.
Qed.

Lemma integer_result_ok minus ds value : Forall (fun c => is_ascii_digit c = true) ds -> integer_result minus ds = Some value -> json_ok value.
Proof.
  intros Hd. pose proof (digits_nonneg ds Hd). unfold integer_result. destruct minus; [destruct (Z.leb_spec (digits_value 10 ds) (2 ^ 63))|destruct (Z.ltb_spec (digits_value 10 ds) (2 ^ 64))].
  all: intros E; simplify_eq; constructor; lia.
Qed.

(** What a function that reads a value does *)
Definition value_read (a b : bytes) (r : JsonErrorOr (JsonValue * GenericLexer)) : Prop :=
  match r with inl _ => True | inr (v, lexer) => json_ok v /\ exists x y, lexer = at_pos (a ++ x) y /\ b = x ++ y /\ wtf8 y end.

Lemma value_read_skip a x b r : value_read (a ++ x) b r -> value_read a (x ++ b) r.
Proof.
  destruct r as [|[v lexer]]; [done|]. intros (Hv & y & z & -> & -> & Hz). split; [done|]. exists (x ++ y), z. by rewrite <- !app_assoc.
Qed.

Lemma fallback_total a x b : wtf8 (x ++ b) -> exists r, fallback_to_double_parse (at_pos (a ++ x) b) (length a) = Ret r /\ value_read a (x ++ b) r.
Proof.
  intros Hb. unfold fallback_to_double_parse, substring_view_from, substring_view. cbn [m_input at_pos].
  rewrite (proj2 (Nat.leb_le _ _)) by (rewrite !length_app; lia). cbn [res_bind]. rewrite <- app_assoc, drop_app_length.
  rewrite (take_ge (x ++ b)) by (rewrite !length_app; lia). cbn [verify]. rewrite (proj2 (Nat.leb_le _ _)) by (rewrite !length_app; lia). cbn [verify res_bind].
  unfold parse_first_number_double. destruct (from_chars_double (x ++ b)) as [[value parsed] ec] eqn:E. apply from_chars_double_bounds in E as (Hv & Hp & Ha).
  destruct (negb _); [by eexists|]. eexists. split; [done|]. split; [by constructor|]. exists (take parsed (x ++ b)), (drop parsed (x ++ b)).
  rewrite take_drop. split; [|split; [done|]].
  - unfold at_pos, with_index. cbn [m_input]. rewrite <- !app_assoc, take_drop, length_app, length_take, Nat.min_l by done. done.
  - apply (wtf8_ascii_prefix (take parsed (x ++ b))); [done|]. by rewrite take_drop.
Qed.

Lemma number_loop_total fuel : forall a minus ds b all_zero, (length b < fuel)%nat -> wtf8 b -> Forall (fun c => is_ascii_digit c = true) ds ->
  ds <> [] \/ (exists c r, b = c :: r /\ is_ascii_digit c = true) ->
  exists r, number_loop fuel (at_pos (a ++ minus_if minus ++ ds) b) (length a) minus all_zero (minus_if minus ++ ds) = Ret r
    /\ value_read a ((minus_if minus ++ ds) ++ b) r.
Proof.
  induction fuel as [|fuel IH]; intros a minus ds b all_zero Hf Hb Hd Hne; [lia|]. cbn [number_loop]. rewrite peek_pos, !peek_at_pos.
  assert (Hall : wtf8 ((minus_if minus ++ ds) ++ b)).
  { apply wtf8_app; [|done]. apply wtf8_ascii, Forall_app. split; [destruct minus; repeat constructor; lia|]. eapply Forall_impl; [exact Hd|]. intros c Hc. ascii_lia. }
  assert (Hfall : exists r, fallback_to_double_parse (at_pos (a ++ minus_if minus ++ ds) b) (length a) = Ret r /\ value_read a ((minus_if minus ++ ds) ++ b) r)
    by by apply fallback_total.
  set (c := match b with x :: _ => x | [] => 0 end). destruct (c =? 46); [destruct (negb _); [by eexists|exact Hfall]|].
  destruct ((c =? 101) || (c =? 69)); [destruct (_ && _); [by eexists|exact Hfall]|].
  destruct (is_ascii_digit c) eqn:Ec.
  - destruct b as [|c' b]; [done|]. unfold c in *. clear c. destruct (IH a minus (ds ++ [c']) b (all_zero && (c' =? 48))) as (r & Hr & Hread).
    { cbn in Hf. lia. } { apply (wtf8_cut [] c' b) in Hb as [_ ?]; [done|ascii_lia]. } { apply Forall_app. by split; [|constructor]. } { left. by destruct ds. }
    exists r. rewrite !app_assoc in *. cbn [m_index at_pos]. rewrite <- Hr. split; [f_equal|by rewrite <- app_assoc in Hread].
    unfold at_pos, with_index. cbn [m_input]. rewrite <- !app_assoc. f_equal. rewrite !length_app. cbn. lia.
  - assert (Hne' : digits ds) by (split; [destruct Hne as [?|(c' & r & -> & Hc)]; [done|unfold c in Ec; congruence]|done]).
    rewrite finish_integer_spec by done. destruct (minus && all_zero); [|destruct (integer_result minus ds) as [value|] eqn:Ei; [|exact Hfall]].
    + eexists. split; [done|]. split; [by constructor|]. by exists (minus_if minus ++ ds), b.
    + eexists. split; [done|]. split; [by eapply integer_result_ok|]. by exists (minus_if minus ++ ds), b.
Qed.

Lemma parse_number_total a b : wtf8 b -> starts_number (peek (at_pos a b)) = true ->
  exists r, parse_json_number (at_pos a b) = Ret r /\ value_read a b r.
Proof.
  intros Hb Hs. unfold parse_json_number. rewrite peek_pos in *. destruct b as [|c b]; [done|].
  destruct (Z.eqb_spec c 45) as [->|Hc].
  - replace (with_index (at_pos a (45 :: b)) (S (m_index (at_pos a (45 :: b))))) with (at_pos (a ++ minus_if true ++ []) b)
      by (unfold at_pos, with_index; cbn [m_input m_index minus_if app]; rewrite <- app_assoc; f_equal; rewrite length_app; cbn; lia).
    rewrite peek_pos, tell_remaining_pos. cbn [andb].
    destruct (is_ascii_digit (match b with x :: _ => x | [] => 0 end)) eqn:Ed; cbn [negb]; [|by eexists]. destruct (_ && _); [by eexists|].
    apply (wtf8_cut [] 45 b) in Hb as [_ Hb]; [|lia].
    destruct (number_loop_total (S (length b)) a true [] b true) as (r & Hr & Hread); [lia|done|done|right; destruct b as [|d b]; [done|by exists d, b]|].
    by exists r.
  - cbn [andb]. rewrite tell_remaining_pos. destruct (_ && _); [by eexists|]. unfold starts_number in Hs. replace (c =? 45) with false in Hs by lia. cbn [orb] in Hs.
    destruct (number_loop_total (S (length (c :: b))) a false [] (c :: b) true) as (r & Hr & Hread); [lia|done|done|right; by exists c, b|].
    exists r. cbn [minus_if app] in *. by rewrite app_nil_r in Hr.
Qed.

Lemma parse_keyword_total keyword value a b : Forall ascii keyword -> json_ok value -> wtf8 b ->
  exists r, parse_keyword keyword value (at_pos a b) = Ret r /\ value_read a b r.
Proof.
  intros Hk Hv Hb. unfold parse_keyword. rewrite consume_specific_view_pos. destruct (bool_decide _) eqn:E; cbn [res_bind negb]; [|by eexists].
  apply bool_decide_eq_true in E as [rest ->]. rewrite drop_app_length. eexists. split; [done|]. split; [done|]. exists keyword, rest.
  split; [done|]. split; [done|]. by apply wtf8_ascii_prefix in Hb.
Qed.

Lemma parse_string_total a b : wtf8 b -> exists r, parse_string (at_pos a b) = Ret r /\ value_read a b r.
Proof.
  intros Hb. unfold parse_string. destruct (consume_string_total a b Hb) as (r & -> & Hr). cbn [res_bind]. destruct r as [|[s lexer]]; [by eexists|].
  destruct Hr as [Hs (x & y & -> & -> & Hy & _)]. unfold json_string. rewrite must_from_utf8_wtf8 by done. cbn [res_bind]. eexists. split; [done|].
  split; [by constructor|]. by exists x, y.
Qed.

(** ** Arrays and objects *)

Lemma skip_space a b : exists x y, ignore_while (at_pos a b) is_json_space = at_pos (a ++ x) y /\ b = x ++ y /\ (wtf8 b -> wtf8 y).
Proof.
  exists (take_while is_json_space b), (drop_while is_json_space b). rewrite ignore_while_pos, take_drop_while. split; [done|]. split; [done|].
  intros Hb. apply (wtf8_ascii_prefix (take_while is_json_space b)); [|by rewrite take_drop_while].
  eapply Forall_impl; [apply take_while_forall|]. intros c Hc. unfold is_json_space in Hc. lia.
Qed.

(** A character that is in front of the lexer *)
Lemma consume_found a b c r : (peek (at_pos a b) =? c) = true -> 0 < c < 128 -> wtf8 b -> r = consume_specific (at_pos a b) c ->
  exists y, b = c :: y /\ r = (true, at_pos (a ++ [c]) y) /\ wtf8 y.
Proof.
  rewrite peek_pos, consume_specific_pos. intros Hp Hc Hb ->. destruct b as [|d b]; [lia|]. apply Z.eqb_eq in Hp as ->. rewrite Z.eqb_refl. exists b.
  split; [done|]. split; [done|]. apply (wtf8_cut [] c b) in Hb as [_ ?]; [done|lia].
Qed.

Lemma consume_maybe a b c : 0 < c < 128 -> wtf8 b ->
  consume_specific (at_pos a b) c = (false, at_pos a b) \/ exists y, b = c :: y /\ consume_specific (at_pos a b) c = (true, at_pos (a ++ [c]) y) /\ wtf8 y.
Proof.
  intros Hc Hb. destruct (peek (at_pos a b) =? c) eqn:E; [right; by apply (consume_found a b c _ E)|left].
  unfold consume_specific, next_is. by rewrite E.
Qed.

Lemma finish_array_total a b array : wtf8 b -> Forall json_ok array -> exists r, finish_array (at_pos a b) array = Ret r /\ value_read a b r.
Proof.
  intros Hb Ha. unfold finish_array. destruct (skip_space a b) as (x & y & -> & -> & Hy). specialize (Hy Hb).
  destruct (consume_maybe (a ++ x) y 93 ltac:(lia) Hy) as [->|(z & -> & -> & Hz)]; cbn [negb]; [by eexists|].
  eexists. split; [done|]. split; [by constructor|]. exists (x ++ [93]), z. by rewrite <- !app_assoc.
Qed.

Lemma finish_object_total a b object : wtf8 b -> json_ok (JObject object) -> exists r, finish_object (at_pos a b) object = Ret r /\ value_read a b r.
Proof.
  intros Hb Ho. unfold finish_object. destruct (consume_maybe a b 125 ltac:(lia) Hb) as [->|(z & -> & -> & Hz)]; cbn [negb]; [by eexists|].
  eexists. split; [done|]. split; [done|]. by exists [125], z.
Qed.

Definition helper_total (fuel : nat) : Prop := forall a b, (2 * length b + 1 <= fuel)%nat -> wtf8 b ->
  exists r, parse_helper fuel (at_pos a b) = Ret r /\ value_read a b r.
Definition array_total (fuel : nat) : Prop := forall a b array, (2 * length b + 2 <= fuel)%nat -> wtf8 b -> Forall json_ok array ->
  exists r, array_loop fuel (at_pos a b) array = Ret r /\ value_read a b r.
Definition object_total (fuel : nat) : Prop := forall a b object, (2 * length b + 2 <= fuel)%nat -> wtf8 b -> json_ok (JObject object) ->
  exists r, object_loop fuel (at_pos a b) object = Ret r /\ value_read a b r.

(** A result for the rest of the input is one for the input. *)
Lemma extend_read (e : res (JsonErrorOr (JsonValue * GenericLexer))) a x b :
  (exists r, e = Ret r /\ value_read (a ++ x) b r) -> exists r, e = Ret r /\ value_read a (x ++ b) r.
Proof. intros (r & -> & Hr). exists r. split; [done|by apply value_read_skip]. Qed.

Lemma helper_step fuel : array_total fuel -> object_total fuel -> helper_total (S fuel).
Proof.
  intros Ha Ho a b Hf Hb. cbn [parse_helper]. destruct (skip_space a b) as (x & y & -> & -> & Hy). specialize (Hy Hb). apply extend_read.
  rewrite length_app in Hf. destruct (peek (at_pos (a ++ x) y) =? 123) eqn:E1.
  { destruct (consume_found _ _ _ _ E1 ltac:(lia) Hy eq_refl) as (z & -> & -> & Hz). cbn [negb]. apply (extend_read _ (a ++ x) [123] z).
    apply Ho; [cbn in Hf; lia|done|]. constructor; [apply NoDup_nil_2|done|done]. }
  destruct (peek (at_pos (a ++ x) y) =? 91) eqn:E2.
  { destruct (consume_found _ _ _ _ E2 ltac:(lia) Hy eq_refl) as (z & -> & -> & Hz). cbn [negb]. apply (extend_read _ (a ++ x) [91] z).
    by apply Ha; [cbn in Hf; lia|..]. }
  destruct (_ =? 34); [by apply parse_string_total|]. destruct (starts_number _) eqn:E3; [by apply parse_number_total|].
  destruct (_ =? 102); [apply parse_keyword_total; [repeat constructor; lia|constructor|done]|].
  destruct (_ =? 116); [apply parse_keyword_total; [repeat constructor; lia|constructor|done]|].
  destruct (_ =? 110); [apply parse_keyword_total; [repeat constructor; lia|constructor|done]|]. by eexists.
Qed.

Lemma array_step fuel : helper_total fuel -> array_total fuel -> array_total (S fuel).
Proof.
  intros Hh Ha a b array Hf Hb Harr. cbn [array_loop]. unfold array_iteration. destruct (skip_space a b) as (x & y & -> & -> & Hy). specialize (Hy Hb). apply extend_read.
  rewrite length_app in Hf. destruct (_ =? 93); [by apply finish_array_total|].
  fold_helper. destruct (Hh (a ++ x) y) as (r & -> & Hr); [lia|done|]. cbn [res_bind]. destruct r as [|[element lexer]]; [by eexists|].
  destruct Hr as (Hel & x2 & y2 & -> & -> & Hy2). apply extend_read. assert (Harr' : Forall json_ok (array ++ [element])) by (apply Forall_app; by split; [|constructor]).
  destruct (skip_space ((a ++ x) ++ x2) y2) as (x3 & y3 & -> & -> & Hy3). specialize (Hy3 Hy2). apply extend_read.
  destruct (_ =? 93); [by apply finish_array_total|].
  destruct (consume_maybe (((a ++ x) ++ x2) ++ x3) y3 44 ltac:(lia) Hy3) as [->|(z & -> & -> & Hz)]; cbn [negb]; [by eexists|].
  apply (extend_read _ _ [44] z). destruct (skip_space ((((a ++ x) ++ x2) ++ x3) ++ [44]) z) as (x4 & y4 & -> & -> & Hy4). specialize (Hy4 Hz). apply extend_read.
  destruct (_ =? 93); [by eexists|]. apply Ha; [|done|done]. rewrite !length_app in Hf. cbn [length] in Hf. rewrite length_app in Hf. lia.
Qed.

Lemma object_step fuel : helper_total fuel -> object_total fuel -> object_total (S fuel).
Proof.
  intros Hh Ho a b object Hf Hb Hobj. cbn [object_loop]. unfold object_iteration. destruct (skip_space a b) as (x & y & -> & -> & Hy). specialize (Hy Hb). apply extend_read.
  rewrite length_app in Hf. destruct (_ =? 125); [by apply finish_object_total|].
  destruct (skip_space (a ++ x) y) as (x1 & y1 & -> & -> & Hy1). specialize (Hy1 Hy). apply extend_read.
  destruct (consume_string_total ((a ++ x) ++ x1) y1 Hy1) as (r & -> & Hr). cbn [res_bind]. destruct r as [|[name lexer]]; [by eexists|].
  destruct Hr as [Hname (x2 & y2 & -> & -> & Hy2 & _)]. apply extend_read.
  destruct (skip_space (((a ++ x) ++ x1) ++ x2) y2) as (x3 & y3 & -> & -> & Hy3). specialize (Hy3 Hy2). apply extend_read.
  match goal with |- context [consume_specific (at_pos ?p y3) _] => destruct (consume_maybe p y3 58 ltac:(lia) Hy3) as [->|(z & -> & -> & Hz)] end; cbn [negb]; [by eexists|].
  apply (extend_read _ _ [58] z). match goal with |- context [ignore_while (at_pos ?p z) _] => destruct (skip_space p z) as (x4 & y4 & -> & -> & Hy4) end.
  specialize (Hy4 Hz). apply extend_read. rewrite !length_app in Hf. cbn [length] in Hf. rewrite !length_app in Hf.
  fold_helper. match goal with |- context [parse_helper _ (at_pos ?p y4)] => destruct (Hh p y4) as (r & -> & Hr); [lia|done|] end. cbn [res_bind].
  destruct r as [|[value lexer]]; [by eexists|]. destruct Hr as (Hval & x5 & y5 & -> & -> & Hy5). apply extend_read.
  unfold object_set_view. rewrite must_from_utf8_wtf8 by done. cbn [res_bind]. pose proof (object_set_ok object name value Hobj Hname Hval) as Hobj'.
  match goal with |- context [ignore_while (at_pos ?p y5) _] => destruct (skip_space p y5) as (x6 & y6 & -> & -> & Hy6) end. specialize (Hy6 Hy5). apply extend_read.
  destruct (_ =? 125); [by apply finish_object_total|].
  match goal with |- context [consume_specific (at_pos ?p y6) _] => destruct (consume_maybe p y6 44 ltac:(lia) Hy6) as [->|(z & -> & -> & Hz')] end; cbn [negb]; [by eexists|].
  apply (extend_read _ _ [44] z). match goal with |- context [ignore_while (at_pos ?p z) _] => destruct (skip_space p z) as (x7 & y7 & -> & -> & Hy7) end.
  specialize (Hy7 Hz'). apply extend_read. destruct (_ =? 125); [by eexists|]. apply Ho; [|done|done].
  rewrite !length_app in Hf. cbn [length] in Hf. rewrite !length_app in Hf. lia.
Qed.

Lemma parse_loops_total fuel : helper_total fuel /\ array_total fuel /\ object_total fuel.
Proof.
  induction fuel as [|fuel (Hh & Ha & Ho)]; [split; [|split]; intros a b; intros; lia|].
  split; [by apply helper_step|]. split; [by apply array_step|by apply object_step].
Qed.

Lemma json_parse_total input : wtf8 input -> exists r, json_parse input = Ret r /\ forall value, r = inr value -> json_ok value.
Proof.
  intros Hi. unfold json_parse, parse_json. rewrite lexer_for_pos, tell_remaining_pos.
  destruct (parse_loops_total (json_fuel (length input))) as [Hh _]. destruct (Hh [] input) as (r & -> & Hr); [unfold json_fuel; lia|done|]. cbn [res_bind].
  destruct r as [|[value lexer]]; [by eexists|]. destruct Hr as (Hv & x & y & -> & -> & Hy). destruct (negb _); [by eexists|]. eexists. split; [done|].
  by intros v [= <-].
Qed.

End numbers.

(** ** Properties *)

(** C4: parsing JSON text that is valid UTF-8 always returns, with an error or a
    value: no nesting, escape, number or missing character makes the parser run
    past the end, loop, or fail an assertion.  The value is well-formed: integers
    are in the range of their type, strings are valid, and the keys of each
    object are distinct. *)
Theorem json_parse_safe `{SimdutfLaws, FastFloatLaws, FastFloatSignedLaws, FastFloatDoubleLaws} (input : bytes) (Hinput : wtf8 input) :
  exists r, json_parse input = Ret r /\ forall value, r = inr value -> json_ok value.
Proof. by apply json_parse_total. Qed.

Lemma json_parse_safe_witness :
  json_parse [91; 49; 44; 34; 92; 117; 48; 48; 101; 57; 34; 93] = Ret (inr (JArray [JU64 1; JString [195; 169]]))
  /\ json_ok (JArray [JU64 1; JString [195; 169]]).
Proof.
  assert (E : json_parse [91; 49; 44; 34; 92; 117; 48; 48; 101; 57; 34; 93] = Ret (inr (JArray [JU64 1; JString [195; 169]]))) by (vm_compute; reflexivity).
  split; [exact E|]. destruct (json_parse_safe [91; 49; 44; 34; 92; 117; 48; 48; 101; 57; 34; 93]) as (r & Hr & Hok).
  - apply wtf8_ascii. repeat constructor; lia.
  - rewrite E in Hr. injection Hr as <-. by apply Hok.
Defined.

(** A string that is not valid UTF-8 stops the process, although the parser
    returns errors: the value is made with [MUST(String::from_utf8(...))]. *)
Lemma json_invalid_utf8_crashes : json_parse [34; 255; 34] = Crash.
Proof. vm_compute. reflexivity. Qed.
