(* ===== verification/JsonRoundtrip.v ===== *)
(** * JSON: parsing what the serializer writes *)

From Stdlib Require Import QArith Qpower.
From S2P Require Import Prelude CharacterTypes Utf8 MemMem Strings Tokens Wtf8 CodeUnits Lexer.
From S2P Require Import FloatTables FloatToDecimal FloatFacts FloatExact FloatTheorems FloatFormat Json JsonFacts.
Local Open Scope Z_scope.

(** ** Escapes *)

Definition escaped_char (c : Z) : bytes := match escape_character_for_json c with Ret text => text | Crash => [] end.
Definition escaped (s : bytes) : bytes := concat (map escaped_char s).

(** Characters that are written as they are *)
Definition is_literal (c : Z) : bool := (0x20 <=? c) && negb (c =? 34) && negb (c =? 92).

(** How a character is escaped: a letter after the backslash, or four digits *)
Definition escape_ok (c : Z) : bool :=
  match escape_character_for_json c with
  | Crash => false
  | Ret text =>
      if is_literal c then sv_eqb text [c]
      else
        match text with
        | [backslash; letter] =>
            (backslash =? 92) && (((letter =? 98) && (c =? 8)) || ((letter =? 110) && (c =? 10)) || ((letter =? 116) && (c =? 9))
                                  || ((letter =? 34) && (c =? 34)) || ((letter =? 92) && (c =? 92)))
        | backslash :: letter :: digits =>
            (backslash =? 92) && (letter =? 117) && (length digits =? 4)%nat && forallb is_ascii_hex_digit digits && (hex_number 0 digits =? c)
            && (c <? 32)
        | _ => false
        end
  end.

Lemma escapes_ok c : 0 <= c < 256 -> escape_ok c = true.
Proof. revert c. apply byte_enumeration. vm_compute. reflexivity. Qed.

Lemma append_escaped_spec s : forall builder, all_bytes s -> append_escaped_for_json builder s = Ret (builder ++ escaped s).
Proof.
  induction s as [|c s IH]; intros builder Hs; cbn [append_escaped_for_json]; [by rewrite app_nil_r|]. apply Forall_cons in Hs as [Hc Hs].
  pose proof (escapes_ok c ltac:(unfold is_byte in Hc; lia)) as He. unfold escape_ok in He. unfold escaped. cbn [map concat]. unfold escaped_char at 1.
  destruct (escape_character_for_json c) as [text|]; [|done]. cbn [res_bind]. rewrite IH by done. by rewrite <- app_assoc.
Qed.

(** The literal characters in front of a quotation mark or a backslash *)
Lemma literal_run a lit c rest fuel : Forall (fun x => is_literal x = true) lit -> c = 34 \/ c = 92 -> forall before,
  (length lit < fuel)%nat ->
  literal_characters fuel (at_pos a (before ++ lit ++ c :: rest)) (length before) = Ret (inr (length before + length lit)%nat).
Proof.
  intros Hl Hc. revert fuel. induction Hl as [|x lit Hx Hl IH]; intros fuel before Hf; (destruct fuel as [|fuel]; [cbn in Hf; lia|]); cbn [literal_characters].
  - rewrite peek_at_pos, lookup_app_r, Nat.sub_diag by lia. cbn [app lookup list_lookup default from_option length]. rewrite Nat.add_0_r. unfold id.
    replace (c =? 0) with false by lia. replace (is_ascii_c0_control c) with false by (destruct Hc as [->| ->]; done). by replace ((c =? 34) || (c =? 92)) with true by lia.
  - rewrite peek_at_pos, lookup_app_r, Nat.sub_diag by lia. cbn [app lookup list_lookup default from_option]. unfold id. unfold is_literal in Hx.
    replace (x =? 0) with false by lia. replace (is_ascii_c0_control x) with false by (unfold is_ascii_c0_control; lia). replace ((x =? 34) || (x =? 92)) with false by lia.
    specialize (IH fuel (before ++ [x]) ltac:(cbn in Hf; lia)). rewrite <- app_assoc, length_app in IH. cbn [app length] in *.
    rewrite Nat.add_1_r in IH. rewrite IH. do 2 f_equal. lia.
Qed.

(** One escaped character *)
Lemma consume_escaped_char a c rest sb : 0 <= c < 256 -> is_literal c = false ->
  exists tail, escaped_char c = 92 :: tail /\ consume_escape (at_pos a (tail ++ rest)) sb = Ret (inr (sb ++ [c], at_pos (a ++ tail) rest)).
Proof.
  intros Hc Hl. pose proof (escapes_ok c Hc) as He. unfold escape_ok in He. unfold escaped_char. destruct (escape_character_for_json c) as [text|]; [|done].
  rewrite Hl in He. destruct text as [|backslash [|letter digits]]; [done..|].
  assert (Hletter : digits = [] -> backslash = 92 /\ (letter = 98 /\ c = 8 \/ letter = 110 /\ c = 10 \/ letter = 116 /\ c = 9 \/ letter = 34 /\ c = 34 \/ letter = 92 /\ c = 92))
    by (intros ->; lia).
  destruct digits as [|d digits].
  - destruct (Hletter eq_refl) as [-> Hcase]. exists [letter]. split; [done|]. cbn [app]. unfold consume_escape. rewrite peek_pos, consume_pos, ignore_one_pos.
    destruct Hcase as [[-> ->]|[[-> ->]|[[-> ->]|[[-> ->]|[-> ->]]]]]; reflexivity.
  - clear Hletter. rewrite !andb_true_iff in He. destruct He as (((((H1 & H2) & H3) & H4) & H5) & H6). apply Z.eqb_eq in H1 as ->, H2 as ->. apply Nat.eqb_eq in H3.
    set (ds := d :: digits) in *. exists (117 :: ds). split; [done|]. unfold consume_escape. cbn [app]. rewrite peek_pos, ignore_one_pos. cbn [Z.eqb Pos.eqb orb].
    unfold decode_single_or_paired_surrogate. rewrite four_digits by (done || by apply forallb_Forall_iff). apply Z.eqb_eq in H5. rewrite H5. cbn [res_bind].
    replace (is_utf16_high_surrogate c) with false by (unfold is_utf16_high_surrogate; lia). cbn [negb res_bind]. rewrite append_code_point_ascii by lia.
    by rewrite <- app_assoc.
Qed.

(** The literal characters at the start of a string *)
Lemma literal_split s : exists lit rest, s = lit ++ rest /\ Forall (fun x => is_literal x = true) lit
  /\ match rest with [] => True | c :: _ => is_literal c = false end.
Proof.
  exists (take_while is_literal s), (drop_while is_literal s). split; [by rewrite take_drop_while|]. split; [apply take_while_forall|apply drop_while_head].
Qed.

Lemma escaped_app s t : escaped (s ++ t) = escaped s ++ escaped t.
Proof. unfold escaped. by rewrite map_app, concat_app. Qed.

Lemma escaped_literal lit : all_bytes lit -> Forall (fun x => is_literal x = true) lit -> escaped lit = lit.
Proof.
  intros Hb. induction 1 as [|c lit Hc _ IH]; [done|]. apply Forall_cons in Hb as [Hcb Hb]. unfold escaped in *. cbn [map concat]. rewrite IH by done.
  pose proof (escapes_ok c ltac:(unfold is_byte in Hcb; lia)) as He. unfold escape_ok in He. unfold escaped_char. destruct (escape_character_for_json c); [|done].
  rewrite Hc in He. by apply sv_eqb_true in He as ->.
Qed.

Lemma consume_literal a lit rest : consume_count (at_pos a (lit ++ rest)) (length lit) = Ret (lit, at_pos (a ++ lit) rest).
Proof.
  unfold consume_count. rewrite tell_remaining_pos, Nat.min_l by (rewrite length_app; lia). cbn [m_index m_input at_pos]. unfold substring_view.
  rewrite (proj2 (Nat.leb_le _ _)) by (rewrite !length_app; lia). cbn [verify res_bind]. rewrite drop_app_length, take_app_length.
  do 3 f_equal. symmetry. apply at_pos_move.
Qed.

Lemma unescape_spec fuel : forall s a rest sb, all_bytes s -> (length (escaped s) < fuel)%nat ->
  unescape_loop fuel (at_pos a (escaped s ++ 34 :: rest)) sb = Ret (inr (sb ++ s, at_pos (a ++ escaped s ++ [34]) rest)).
Proof.
  induction fuel as [|fuel IH]; intros s a rest sb Hs Hf; [lia|]. cbn [unescape_loop]. rewrite tell_remaining_pos.
  destruct (literal_split s) as (lit & tail & -> & Hlit & Htail). apply Forall_app in Hs as [Hlb Htb]. rewrite escaped_app, (escaped_literal lit) in * by done.
  rewrite <- !app_assoc. destruct tail as [|c tail].
  - cbn [escaped map concat app]. rewrite (literal_run a lit 34 rest _ Hlit (or_introl eq_refl) []) by (rewrite length_app; cbn; lia). cbn [res_bind length Nat.add].
    rewrite consume_literal. cbn [res_bind]. rewrite peek_pos, consume_pos. cbn [Z.eqb Pos.eqb res_bind]. rewrite app_nil_r. by rewrite <- app_assoc.
  - apply Forall_cons in Htb as [Hc Htb]. unfold is_byte in Hc.
    destruct (consume_escaped_char ((a ++ lit) ++ [92]) c (escaped tail ++ 34 :: rest) (sb ++ lit) ltac:(lia) Htail) as (e & He & Hesc).
    assert (Ee : escaped (c :: tail) = 92 :: e ++ escaped tail) by (unfold escaped; cbn [map concat]; by rewrite He). rewrite Ee in *. cbn [app]. rewrite <- app_assoc.
    rewrite (literal_run a lit 92 (e ++ escaped tail ++ 34 :: rest) _ Hlit (or_intror eq_refl) []) by (rewrite length_app; cbn; lia). cbn [res_bind length Nat.add].
    rewrite consume_literal. cbn [res_bind]. rewrite peek_pos. cbn [Z.eqb Pos.eqb]. rewrite ignore_one_pos, Hesc. cbn [res_bind].
    rewrite IH; [by rewrite <- !app_assoc|done|]. rewrite length_app in Hf. cbn [length] in Hf. rewrite length_app in Hf. lia.
Qed.

Lemma string_parses s a rest : all_bytes s ->
  consume_and_unescape_string (at_pos a (34 :: escaped s ++ 34 :: rest)) = Ret (inr (s, at_pos (a ++ 34 :: escaped s ++ [34]) rest)).
Proof.
  intros Hs. unfold consume_and_unescape_string. rewrite consume_specific_pos. cbn [Z.eqb Pos.eqb negb]. rewrite tell_remaining_pos.
  rewrite unescape_spec by (done || rewrite length_app; lia). by rewrite <- !app_assoc.
Qed.

Lemma escaped_wtf8 s : wtf8 s -> wtf8 (escaped s).
Proof.
  intros (cps & Hcps & ->). induction Hcps as [|cp cps Hcp Hcps IH]; [apply wtf8_nil|]. rewrite utf8_encode_cons, escaped_app by done. apply wtf8_app; [|done].
  destruct (encoded_ascii_or_high cp Hcp) as [[Hlow ->]|[_ Hhigh]].
  - unfold escaped. cbn [map concat]. rewrite app_nil_r. apply wtf8_ascii. pose proof (escapes_ok cp ltac:(lia)) as He. unfold escape_ok in He. unfold escaped_char.
    destruct (escape_character_for_json cp) as [text|]; [|done]. destruct (is_literal cp); [apply sv_eqb_true in He as ->; apply Forall_singleton; lia|].
    destruct text as [|b [|l ds]]; [done..|]. destruct ds as [|d ds]; [repeat constructor; lia|]. rewrite !andb_true_iff, forallb_Forall_iff in He.
    destruct He as (((((H1 & H2) & _) & H4) & _) & _). constructor; [lia|]. constructor; [lia|]. eapply Forall_impl; [exact H4|]. intros x Hx. cbn beta in Hx. ascii_lia.
  - rewrite escaped_literal; [by apply wtf8_encoded|..].
    + apply wtf8_bytes. by apply wtf8_encoded.
    + eapply Forall_impl; [exact Hhigh|]. intros x Hx. cbn beta in Hx. unfold is_literal. lia.
Qed.

(** ** Numbers *)

(** What can follow a value *)
Definition ends_value (rest : bytes) : Prop := match rest with [] => True | c :: _ => c = 44 \/ c = 93 \/ c = 125 end.

Lemma ends_value_number rest : ends_value rest -> ends_number rest.
Proof. destruct rest as [|c rest]; [done|]. intros [->|[->| ->]]; repeat split; done. Qed.

Section numbers.
Context `{SimdutfLaws, FastFloatLaws, FastFloatSignedLaws, FastFloatDoubleLaws}.

(** Reading digits *)
Lemma number_loop_digits ds : forall fuel a b start minus all_zero buffer, Forall (fun c => is_ascii_digit c = true) ds -> (length ds <= fuel)%nat ->
  number_loop fuel (at_pos a (ds ++ b)) start minus all_zero buffer
  = number_loop (fuel - length ds) (at_pos (a ++ ds) b) start minus (all_zero && forallb (fun c => c =? 48) ds) (buffer ++ ds).
Proof.
  induction ds as [|c ds IH]; intros fuel a b start minus all_zero buffer Hd Hf.
  { cbn [app length forallb]. by rewrite Nat.sub_0_r, !app_nil_r, andb_true_r. }
  apply Forall_cons in Hd as [Hc Hd]. destruct fuel as [|fuel]; [cbn in Hf; lia|]. cbn [number_loop app length forallb Nat.sub]. rewrite peek_pos.
  replace (c =? 46) with false by ascii_lia. replace ((c =? 101) || (c =? 69)) with false by ascii_lia. rewrite Hc.
  replace (with_index (at_pos a (c :: ds ++ b)) (S (m_index (at_pos a (c :: ds ++ b))))) with (at_pos (a ++ [c]) (ds ++ b))
    by (unfold at_pos, with_index; cbn [m_input m_index]; rewrite <- app_assoc; f_equal; rewrite length_app; cbn; lia).
  rewrite IH by (done || cbn in Hf; lia). by rewrite <- !app_assoc, andb_assoc.
Qed.

Lemma fallback_spec a x b : fallback_to_double_parse (at_pos (a ++ x) b) (length a)
  = match parse_first_number_double (x ++ b) with
    | None => Ret (inl (sv "JsonParser: Invalid floating point"))
    | Some (value, n) => Ret (inr (JDouble value, with_index (at_pos (a ++ x) b) (length a + n)))
    end.
Proof.
  unfold fallback_to_double_parse, substring_view_from, substring_view. cbn [m_input at_pos].
  rewrite (proj2 (Nat.leb_le _ _)) by (rewrite !length_app; lia). cbn [verify res_bind]. rewrite <- app_assoc, drop_app_length.
  rewrite (proj2 (Nat.leb_le _ _)) by (rewrite !length_app; lia). cbn [verify res_bind]. by rewrite (take_ge (x ++ b)) by (rewrite !length_app; lia).
Qed.

Definition is_integer_text (t : NumberText) : bool :=
  match nt_fraction t, nt_exponent t with None, None => true | _, _ => false end.

(** The text in front of the point or the exponent, and the text from there on *)
Lemma number_text_parts t : number_text t = minus_if (nt_minus t) ++ nt_whole t ++ fraction_part t ++ exponent_part t.
Proof. done. Qed.

Lemma number_loop_stops t a rest fuel buffer all_zero : number_ok t -> ends_value rest -> (0 < fuel)%nat ->
  number_loop fuel (at_pos (a ++ minus_if (nt_minus t) ++ nt_whole t) ((fraction_part t ++ exponent_part t) ++ rest)) (length a) (nt_minus t) all_zero buffer
  = (if is_integer_text t then finish_integer else fun lexer start _ _ _ => fallback_to_double_parse lexer start)
      (at_pos (a ++ minus_if (nt_minus t) ++ nt_whole t) ((fraction_part t ++ exponent_part t) ++ rest)) (length a) (nt_minus t) all_zero buffer.
Proof.
  intros (_ & Hf & He) Hrest Hfuel. destruct fuel as [|fuel]; [lia|]. cbn [number_loop]. rewrite peek_pos, !peek_at_pos. unfold fraction_part, exponent_part, is_integer_text.
  destruct (nt_fraction t) as [s|]; [|destruct (nt_exponent t) as [[m s]|]].
  - destruct (Hf s eq_refl) as [Hne Hd]. destruct s as [|d s]; [done|]. apply Forall_cons in Hd as [Hd _]. cbn [app lookup list_lookup default from_option Z.eqb Pos.eqb].
    unfold id. rewrite Hd. done.
  - destruct (He m s eq_refl) as [Hne Hd]. destruct s as [|d s]; [done|]. apply Forall_cons in Hd as [Hd _].
    destruct m; cbn [app lookup list_lookup default from_option Z.eqb Pos.eqb orb]; unfold id; rewrite Hd; done.
  - cbn [app]. destruct rest as [|c rest]; [done|]. destruct Hrest as [->|[->| ->]]; reflexivity.
Qed.

Lemma parse_number_text t a rest : number_ok t -> no_leading_zero t -> ends_value rest ->
  parse_json_number (at_pos a (number_text t ++ rest))
  = (if is_integer_text t then finish_integer else fun lexer start _ _ _ => fallback_to_double_parse lexer start)
      (at_pos (a ++ minus_if (nt_minus t) ++ nt_whole t) ((fraction_part t ++ exponent_part t) ++ rest)) (length a) (nt_minus t)
      (forallb (fun c => c =? 48) (nt_whole t)) (minus_if (nt_minus t) ++ nt_whole t).
Proof.
  intros Hok Hlead Hrest. pose proof Hok as ([Hne Hd] & _ & _). rewrite number_text_parts. set (tail := (fraction_part t ++ exponent_part t) ++ rest).
  replace ((minus_if (nt_minus t) ++ nt_whole t ++ fraction_part t ++ exponent_part t) ++ rest) with (minus_if (nt_minus t) ++ nt_whole t ++ tail) by (unfold tail; by rewrite <- !app_assoc).
  assert (Hzero : forall p, (peek (at_pos p (nt_whole t ++ tail)) =? 48) && is_ascii_digit (peek_at (at_pos p (nt_whole t ++ tail)) 1) = false).
  { intros p. rewrite peek_pos, peek_at_pos. destruct Hlead as [E|E].
    - rewrite E. cbn [app lookup list_lookup]. unfold tail, fraction_part, exponent_part. destruct (nt_fraction t); [done|]. destruct (nt_exponent t) as [[[] ?]|]; [done..|].
      cbn [app]. destruct rest as [|c rest]; [done|]. destruct Hrest as [->|[->| ->]]; done.
    - destruct (nt_whole t) as [|c w]; [done|]. cbn [app]. unfold starts_with_char in E. rewrite Z.eqb_sym, E. done. }
  assert (Hgo : forall m, m = nt_minus t -> number_loop (S (length (nt_whole t ++ tail))) (at_pos (a ++ minus_if m) (nt_whole t ++ tail)) (length a) m true (minus_if m)
    = (if is_integer_text t then finish_integer else fun lexer start _ _ _ => fallback_to_double_parse lexer start)
      (at_pos (a ++ minus_if (nt_minus t) ++ nt_whole t) tail) (length a) (nt_minus t) (forallb (fun c => c =? 48) (nt_whole t)) (minus_if (nt_minus t) ++ nt_whole t)).
  { intros m ->. rewrite number_loop_digits by (done || rewrite length_app; lia). cbn [andb]. rewrite <- app_assoc. apply number_loop_stops; [done|done|]. rewrite length_app. lia. }
  unfold parse_json_number. rewrite peek_pos. destruct (nt_minus t) eqn:Em; cbn [minus_if app].
  - cbn [Z.eqb Pos.eqb]. replace (with_index _ _) with (at_pos (a ++ [45]) (nt_whole t ++ tail))
      by (unfold at_pos, with_index; cbn [m_input m_index]; rewrite <- app_assoc; f_equal; rewrite length_app; cbn; lia).
    rewrite Hzero, tell_remaining_pos. replace (is_ascii_digit (peek (at_pos (a ++ [45]) (nt_whole t ++ tail)))) with true.
    + cbn [andb negb]. by apply (Hgo true).
    + rewrite peek_pos. destruct (nt_whole t) as [|c w]; [done|]. apply Forall_cons in Hd as [Hc _]. cbn [app]. by rewrite Hc.
  - assert (Hhead : (match nt_whole t ++ tail with x :: _ => x | [] => 0 end =? 45) = false).
    { destruct (nt_whole t) as [|c w]; [done|]. apply Forall_cons in Hd as [Hc _]. cbn [app]. ascii_lia. }
    rewrite Hhead. cbn [andb]. rewrite Hzero, tell_remaining_pos. specialize (Hgo false eq_refl). cbn [minus_if] in Hgo. rewrite app_nil_r in Hgo. exact Hgo.
Qed.

(** Integers *)
Lemma all_zero_value ds : forallb (fun c => c =? 48) ds = true -> digits_value 10 ds = 0.
Proof.
  induction ds as [|c ds IH] using rev_ind; [done|]. rewrite forallb_app, digits_value_app. cbn [forallb].
  intros [Hz Hc]%andb_prop. rewrite andb_true_r in Hc. apply Z.eqb_eq in Hc as ->. by rewrite IH.
Qed.

Lemma integer_reads minus ds value a rest : digits ds -> ds = [ch "0"] \/ starts_with_char ds (ch "0") = false -> ends_value rest ->
  integer_result minus ds = Some value -> (minus = true -> 0 < digits_value 10 ds) ->
  parse_json_number (at_pos a ((minus_if minus ++ ds) ++ rest)) = Ret (inr (value, at_pos (a ++ minus_if minus ++ ds) rest)).
Proof.
  intros Hd Hlead Hrest Hv Hpos. set (t := {| nt_minus := minus; nt_whole := ds; nt_fraction := None; nt_exponent := None |}).
  assert (Hok : number_ok t) by (split; [done|split; done]). pose proof (parse_number_text t a rest Hok Hlead Hrest) as E.
  unfold number_text in E. cbn [nt_minus nt_whole nt_fraction nt_exponent t is_integer_text fraction_part exponent_part app] in E. rewrite app_nil_r in E. rewrite E.
  rewrite finish_integer_spec by done. rewrite Hv. destruct minus; [|done]. cbn [andb]. destruct (forallb _ ds) eqn:Ez; [|done].
  apply all_zero_value in Ez. specialize (Hpos eq_refl). lia.
Qed.

Lemma decimal_text z : 0 <= z < 2 ^ 64 ->
  exists ds, format_decimal z = Ret ds /\ digits ds /\ digits_value 10 ds = z /\ (ds = [ch "0"] \/ starts_with_char ds (ch "0") = false).
Proof.
  intros Hz. destruct (format_decimal_prints z Hz) as (ds & E & Hne & Hd & Hv & Hl). apply forallb_Forall_iff in Hd.
  exists ds. split; [done|]. split; [by split|]. split; [done|]. destruct ds as [|c [|d ds]]; [done| |right; apply Hl; cbn; lia].
  destruct (Z.eqb_spec c 48) as [->|]; [by left|right]. unfold starts_with_char. lia.
Qed.

(** Doubles: the text is read as an integer when it has neither point nor
    exponent. *)
Definition split_minus (s : bytes) : bool * bytes :=
  match s with c :: r => if c =? ch "-" then (true, r) else (false, s) | [] => (false, []) end.

Definition reparsed_double (bits : Z) : JsonValue :=
  match format_double bits with
  | Ret text =>
      let (minus, ds) := split_minus text in
      if forallb is_ascii_digit ds then default (JDouble bits) (integer_result minus ds) else JDouble bits
  | Crash => JDouble bits
  end.

Lemma split_minus_text t : number_ok t -> split_minus (number_text t) = (nt_minus t, nt_whole t ++ fraction_part t ++ exponent_part t).
Proof.
  intros ([Hne Hd] & _). rewrite number_text_parts. destruct (nt_minus t); [done|]. cbn [minus_if app]. destruct (nt_whole t) as [|c w]; [done|].
  apply Forall_cons in Hd as [Hc _]. cbn [app split_minus]. by replace (c =? 45) with false by ascii_lia.
Qed.

Lemma integer_text_digits t : number_ok t -> forallb is_ascii_digit (nt_whole t ++ fraction_part t ++ exponent_part t) = is_integer_text t.
Proof.
  intros ([_ Hd] & _). rewrite !forallb_app. rewrite (proj2 (forallb_Forall_iff _ _) Hd). unfold is_integer_text, fraction_part, exponent_part.
  destruct (nt_fraction t), (nt_exponent t) as [[[] ?]|]; reflexivity.
Qed.

Lemma finite_double_reads bits : 0 <= bits < 2 ^ 64 -> finite_nonzero bits ->
  exists t, format_double bits = Ret (number_text t) /\ number_ok t
    /\ forall a rest, ends_value rest ->
       parse_json_number (at_pos a (number_text t ++ rest)) = Ret (inr (reparsed_double bits, at_pos (a ++ number_text t) rest)).
Proof.
  intros Hb Hf. destruct (format_double_text bits Hf) as (t & f & e & Ht & (Hok & Hlead & Hs & Hv) & Hr & Hpos & Hint). exists t. split; [done|]. split; [done|].
  intros a rest Hrest. unfold reparsed_double. rewrite Ht, split_minus_text, integer_text_digits by done. rewrite parse_number_text by done.
  set (lexer := at_pos _ _). set (tail := (fraction_part t ++ exponent_part t) ++ rest) in *. set (front := minus_if (nt_minus t) ++ nt_whole t) in *.
  assert (Efb : fallback_to_double_parse lexer (length a) = Ret (inr (JDouble bits, at_pos (a ++ number_text t) rest))).
  { unfold lexer. rewrite fallback_spec. replace (front ++ tail) with (number_text t ++ rest) by (rewrite number_text_parts; unfold front, tail; by rewrite <- !app_assoc).
    rewrite (double_text_reads bits) by (done || by apply ends_value_number || by apply (rounds_to_proper (decimal f e))). do 3 f_equal.
    unfold at_pos, with_index. cbn [m_input]. rewrite length_app. f_equal. unfold tail, front. rewrite number_text_parts, <- !app_assoc. done. }
  destruct (is_integer_text t) eqn:Ei; [|exact Efb]. unfold is_integer_text in Ei. destruct (nt_fraction t) eqn:E1; [done|]. destruct (nt_exponent t) eqn:E2; [done|].
  unfold front. destruct Hok as [Hw _]. rewrite finish_integer_spec by done. unfold fraction_part, exponent_part in *. rewrite E1, E2 in *. cbn [app] in *. rewrite app_nil_r.
  destruct (Hint (conj eq_refl eq_refl)) as [He Hval]. assert (Hp : 0 < digits_value 10 (nt_whole t)) by (rewrite Hval; apply Z.mul_pos_pos; [lia|by apply Z.pow_pos_nonneg]).
  destruct (forallb (fun c => c =? 48) (nt_whole t)) eqn:Ez; [apply all_zero_value in Ez; lia|]. rewrite andb_false_r.
  destruct (integer_result _ _) as [value|]; [|exact Efb]. cbn [default from_option]. unfold id. do 3 f_equal.
  unfold lexer, front, tail, number_text. rewrite E1, E2. cbn [app]. by rewrite app_nil_r.
Qed.

Definition fp_finite (bits : Z) : Prop := fp_exponent bits <> exponent_max.

Lemma zero_bits bits : 0 <= bits < 2 ^ 64 -> fp_is_zero bits = true -> bits = 0 \/ bits = 2 ^ 63.
Proof.
  intros Hb Ez. pose proof (bits_of_sign bits Hb) as E. pose proof (magnitude_fields bits) as Em. unfold fp_is_zero in Ez. destruct (fp_sign bits); lia.
Qed.

Lemma double_reads bits : 0 <= bits < 2 ^ 64 -> fp_finite bits ->
  exists t, format_double bits = Ret (number_text t) /\ number_ok t
    /\ forall a rest, ends_value rest ->
       parse_json_number (at_pos a (number_text t ++ rest)) = Ret (inr (reparsed_double bits, at_pos (a ++ number_text t) rest)).
Proof.
  intros Hb Hfin. destruct (fp_is_zero bits) eqn:Ez; [|apply finite_double_reads; [done|split; [done|unfold fp_is_zero in Ez; lia]]].
  pose proof (zero_bits bits Hb Ez) as Hz.
  exists {| nt_minus := false; nt_whole := [48]; nt_fraction := None; nt_exponent := None |}.
  assert (E : format_double bits = Ret [48] /\ reparsed_double bits = JU64 0) by (destruct Hz as [->| ->]; split; reflexivity). destruct E as [E1 E2].
  split; [done|]. split; [split; [by split; [|repeat constructor]|split; done]|]. intros a rest Hrest. rewrite E2.
  apply (integer_reads false [48] (JU64 0) a rest); [by split; [|repeat constructor]|by left|done|done|done].
Qed.

End numbers.

(** ** Values *)

(** What a value becomes when it is written and read again: integers that are not
    negative are unsigned, and a double whose text has neither a point nor an
    exponent is the integer that the text denotes. *)
Fixpoint reparsed (value : JsonValue) : JsonValue :=
  match value with
  | JI64 z => if 0 <=? z then JU64 z else JI64 z
  | JDouble bits => reparsed_double bits
  | JArray values => JArray (map reparsed values)
  | JObject members => JObject (map (fun member => (member.1, reparsed member.2)) members)
  | _ => value
  end.

Fixpoint json_finite (value : JsonValue) : bool :=
  match value with
  | JDouble bits => negb (fp_exponent bits =? exponent_max)
  | JArray values => forallb json_finite values
  | JObject members => forallb (fun member => json_finite member.2) members
  | _ => true
  end.

(** The first character of a value *)
Definition value_start (c : Z) : bool := negb (is_json_space c) && negb (c =? 93) && negb (c =? 125) && negb (c =? 44).

Definition starts_value (t : bytes) : Prop := match t with c :: _ => value_start c = true | [] => False end.

(** Texts separated by commas, [first] if nothing precedes them *)
Fixpoint joined (first : bool) (ts : list bytes) : bytes :=
  match ts with
  | [] => []
  | t :: ts => (if first then [] else [44]) ++ t ++ joined false ts
  end.

Lemma joined_comma t ts : joined false (t :: ts) = 44 :: joined true (t :: ts).
Proof. done. Qed.

Lemma joined_wtf8 ts first : Forall wtf8 ts -> wtf8 (joined first ts).
Proof.
  intros Ht. revert first. induction Ht as [|t ts Ht _ IH]; intros first; cbn [joined]; [apply wtf8_nil|].
  apply wtf8_app; [destruct first; [apply wtf8_nil|apply wtf8_ascii; repeat constructor; lia]|]. by apply wtf8_app.
Qed.

(** ** Writing *)

Definition writes (value : JsonValue) (t : bytes) : Prop := forall builder, json_serialize value builder = Ret (builder ++ t).

(** The loops of [json_serialize] *)
Definition write_elements : list JsonValue -> Serializer -> res Serializer :=
  fix each (values : list JsonValue) (s : Serializer) : res Serializer :=
    match values with
    | [] => Ret s
    | value :: values =>
        let* s := array_begin_item s in
        let* builder := json_serialize value (s_builder s) in
        each values (with_builder s builder)
    end.

Definition write_members : list (bytes * JsonValue) -> Serializer -> res Serializer :=
  fix each (members : list (bytes * JsonValue)) (s : Serializer) : res Serializer :=
    match members with
    | [] => Ret s
    | (key, value) :: members =>
        let* s := object_begin_item s key in
        let* builder := json_serialize value (s_builder s) in
        each members (with_builder s builder)
    end.

Lemma elements_written values ts : Forall2 writes values ts -> forall builder first, exists empty,
  write_elements values {| s_builder := builder; s_empty := first; s_finished := false |}
  = Ret {| s_builder := builder ++ joined first ts; s_empty := empty; s_finished := false |}.
Proof.
  induction 1 as [|value t values ts Hw _ IH]; intros builder first; cbn [write_elements joined]; [exists first; by rewrite app_nil_r|].
  unfold array_begin_item. cbn [s_finished s_builder s_empty negb verify res_bind]. rewrite Hw. cbn [res_bind with_builder s_finished s_builder s_empty].
  destruct (IH ((builder ++ (if negb first then [ch ","] else [])) ++ t) false) as [empty E]. exists empty. unfold with_builder. cbn [s_empty s_finished].
  rewrite E. do 2 f_equal. rewrite <- !app_assoc. by destruct first.
Qed.

(** The text of a member *)
Definition member_text (key t : bytes) : bytes := 34 :: escaped key ++ 34 :: 58 :: t.

Lemma members_written members ts : Forall2 (fun member t => exists v, writes member.2 v /\ all_bytes member.1 /\ t = member_text member.1 v) members ts ->
  forall builder first, exists empty,
  write_members members {| s_builder := builder; s_empty := first; s_finished := false |}
  = Ret {| s_builder := builder ++ joined first ts; s_empty := empty; s_finished := false |}.
Proof.
  induction 1 as [|[key value] t members ts (v & Hw & Hk & ->) _ IH]; intros builder first; cbn [write_members joined]; [exists first; by rewrite app_nil_r|].
  unfold object_begin_item. cbn [s_finished s_builder s_empty negb verify res_bind fst snd] in *. rewrite append_escaped_spec by done. cbn [res_bind s_builder].
  rewrite Hw. cbn [res_bind]. unfold with_builder. cbn [s_empty s_finished].
  match goal with |- context [{| s_builder := ?b; s_empty := false; s_finished := false |}] => destruct (IH b false) as [empty E] end.
  exists empty. etransitivity; [exact E|]. do 2 f_equal. unfold member_text. rewrite <- !app_assoc. cbn [app]. rewrite <- !app_assoc. by destruct first.
Qed.

Lemma array_written values ts : Forall2 writes values ts -> writes (JArray values) (91 :: joined true ts ++ [93]).
Proof.
  intros Hw builder. destruct (elements_written values ts Hw (builder ++ [91]) true) as [empty E].
  change (json_serialize (JArray values) builder) with (let* s := write_elements values (array_try_create builder) in let* s := array_finish s in Ret (s_builder s)).
  unfold array_try_create. rewrite E. cbn [res_bind]. unfold array_finish. cbn. by rewrite <- !app_assoc.
Qed.

Lemma object_written members ts :
  Forall2 (fun member t => exists v, writes member.2 v /\ all_bytes member.1 /\ t = member_text member.1 v) members ts ->
  writes (JObject members) (123 :: joined true ts ++ [125]).
Proof.
  intros Hw builder. destruct (members_written members ts Hw (builder ++ [123]) true) as [empty E].
  change (json_serialize (JObject members) builder) with (let* s := write_members members (object_try_create builder) in let* s := object_finish s in Ret (s_builder s)).
  unfold object_try_create. rewrite E. cbn [res_bind]. unfold object_finish. cbn. by rewrite <- !app_assoc.
Qed.

(** ** Reading *)

Section values.
Context `{SimdutfLaws, FastFloatLaws, FastFloatSignedLaws, FastFloatDoubleLaws}.

Definition reads (value : JsonValue) (t : bytes) : Prop := forall fuel a rest, ends_value rest -> (2 * length (t ++ rest) + 1 <= fuel)%nat ->
  parse_helper fuel (at_pos a (t ++ rest)) = Ret (inr (value, at_pos (a ++ t) rest)).

Lemma no_space a b : match b with c :: _ => is_json_space c = false | [] => True end -> ignore_while (at_pos a b) is_json_space = at_pos a b.
Proof. intros Hb. rewrite ignore_while_pos. destruct b as [|c b]; cbn [take_while drop_while]; [by rewrite app_nil_r|]. rewrite Hb. by rewrite app_nil_r. Qed.

Lemma value_start_spec c : value_start c = true -> is_json_space c = false /\ (c =? 93) = false /\ (c =? 125) = false.
Proof. unfold value_start. destruct (is_json_space c); [done|]. lia. Qed.

(** In front of a value *)
Lemma at_value a t rest : starts_value t ->
  ignore_while (at_pos a (t ++ rest)) is_json_space = at_pos a (t ++ rest)
  /\ (peek (at_pos a (t ++ rest)) =? 93) = false /\ (peek (at_pos a (t ++ rest)) =? 125) = false.
Proof.
  destruct t as [|c t]; [done|]. intros (? & ? & ?)%value_start_spec. rewrite peek_pos. cbn [app]. split; [by apply no_space|by split].
Qed.

Lemma finish_array_reads a rest array : finish_array (at_pos a (93 :: rest)) array = Ret (inr (JArray array, at_pos (a ++ [93]) rest)).
Proof. unfold finish_array. rewrite no_space by done. rewrite consume_specific_pos. done. Qed.

Lemma elements_read values ts : Forall2 (fun value t => starts_value t /\ reads (reparsed value) t) values ts -> forall fuel a rest array,
  (2 * length (joined true ts ++ 93%Z :: rest) + 2 <= fuel)%nat ->
  array_loop fuel (at_pos a (joined true ts ++ 93 :: rest)) array
  = Ret (inr (JArray (array ++ map reparsed values), at_pos (a ++ joined true ts ++ [93]) rest)).
Proof.
  induction 1 as [|value t values ts [Hs Hr] Hrest IH]; intros fuel a rest array Hf; (destruct fuel as [|fuel]; [lia|]); cbn [array_loop]; unfold array_iteration.
  { cbn [joined app map]. rewrite app_nil_r, no_space, peek_pos by done. apply finish_array_reads. }
  cbn [joined app map] in *. rewrite <- !app_assoc in *. rewrite length_app in Hf.
  destruct (at_value a t (joined false ts ++ 93 :: rest) Hs) as (-> & -> & _). fold_helper.
  rewrite Hr; [|by destruct Hrest; [right; left|left]|rewrite length_app; lia]. cbn [res_bind]. rewrite no_space by by destruct Hrest. rewrite peek_pos.
  destruct Hrest as [|value2 t2 values ts [Hs2 _] _].
  - cbn [joined app map Z.eqb Pos.eqb]. rewrite finish_array_reads. by rewrite <- !app_assoc.
  - rewrite joined_comma in *. cbn [app Z.eqb Pos.eqb] in *. rewrite consume_specific_pos. cbn [Z.eqb Pos.eqb negb]. cbn [length] in Hf.
    specialize (IH fuel ((a ++ t) ++ [44]) rest (array ++ [reparsed value]) ltac:(lia)). cbn [joined app] in IH |- *. rewrite <- !app_assoc in IH |- *.
    destruct (at_value ((a ++ t) ++ [44]) t2 (joined false ts ++ 93 :: rest) Hs2) as (E1 & E2 & _). rewrite <- !app_assoc in E1, E2.
    cbn [app] in *. rewrite E1, E2, IH. cbn [app]. by rewrite <- !app_assoc.
Qed.

Lemma object_set_new members key value : ~ key ∈ members.*1 -> object_set members key value = members ++ [(key, value)].
Proof.
  induction members as [|[name old] members IH]; [done|]. cbn [object_set app fmap list_fmap fst]. intros Hn. apply not_elem_of_cons in Hn as [Hne Hn].
  destruct (sv_eqb name key) eqn:E; [apply sv_eqb_true in E; congruence|]. by rewrite IH.
Qed.

Definition reparsed_member (member : bytes * JsonValue) : bytes * JsonValue := (member.1, reparsed member.2).

Definition member_reads (member : bytes * JsonValue) (t : bytes) : Prop :=
  exists v, wtf8 member.1 /\ starts_value v /\ reads (reparsed member.2) v /\ t = member_text member.1 v.

(** One member: the name, the colon and the value *)
Lemma member_step key value v a rest object (k : JsonObject -> GenericLexer -> res (JsonErrorOr (JsonValue * GenericLexer))) fuel :
  wtf8 key -> starts_value v -> reads value v -> ~ key ∈ object.*1 -> ends_value rest -> (2 * length (v ++ rest) + 1 <= fuel)%nat ->
  (try* (name, lexer) := consume_and_unescape_string (at_pos a (member_text key v ++ rest)) in
   let lexer := ignore_while lexer is_json_space in
   let (found, lexer) := consume_specific lexer (ch ":") in
   if negb found then Ret (inl (sv "JsonParser: Expected ':'"))
   else
     let lexer := ignore_while lexer is_json_space in
     try* (value, lexer) := parse_helper fuel lexer in
     let* object := object_set_view object name value in
     k object lexer)
  = k (object ++ [(key, value)]) (at_pos (a ++ member_text key v) rest).
Proof.
  intros Hk Hs Hr Hn Hrest Hf. unfold member_text. cbn [app]. rewrite <- app_assoc. cbn [app]. rewrite string_parses by by apply wtf8_bytes. cbn [res_bind].
  rewrite no_space by done. rewrite consume_specific_pos. cbn [Z.eqb Pos.eqb negb].
  match goal with |- context [ignore_while (at_pos ?p (v ++ rest)) _] => destruct (at_value p v rest Hs) as (-> & _ & _) end.
  rewrite Hr by done. cbn [res_bind]. unfold object_set_view. rewrite must_from_utf8_wtf8 by done. cbn [res_bind]. rewrite object_set_new by done.
  f_equal. f_equal. rewrite <- !app_assoc. cbn [app]. by rewrite <- !app_assoc.
Qed.

Lemma finish_object_reads a rest object : finish_object (at_pos a (125 :: rest)) object = Ret (inr (JObject object, at_pos (a ++ [125]) rest)).
Proof. unfold finish_object. by rewrite consume_specific_pos. Qed.

Lemma members_read members ts : Forall2 member_reads members ts -> forall fuel a rest object, NoDup (object.*1 ++ members.*1) ->
  (2 * length (joined true ts ++ 125%Z :: rest) + 2 <= fuel)%nat ->
  object_loop fuel (at_pos a (joined true ts ++ 125 :: rest)) object
  = Ret (inr (JObject (object ++ map reparsed_member members), at_pos (a ++ joined true ts ++ [125]) rest)).
Proof.
  induction 1 as [|[key value] t members ts (v & Hk & Hs & Hr & ->) Hrest IH]; intros fuel a rest object Hnd Hf; (destruct fuel as [|fuel]; [lia|]); cbn [object_loop]; unfold object_iteration.
  { cbn [joined app map]. rewrite app_nil_r, no_space, peek_pos by done. apply finish_object_reads. }
  cbn [joined app map fst snd fmap list_fmap] in *. rewrite <- !app_assoc in *. rewrite length_app in Hf.
  rewrite no_space by done. rewrite peek_pos. unfold member_text at 1. cbn [app Z.eqb Pos.eqb]. rewrite no_space by done.
  change (34 :: (escaped key ++ 34 :: 58 :: v) ++ joined false ts ++ 125 :: rest) with (member_text key v ++ joined false ts ++ 125 :: rest).
  apply NoDup_app in Hnd as Hnd'. destruct Hnd' as (_ & Hdis & _).
  rewrite (member_step key (reparsed value) v a (joined false ts ++ 125 :: rest) object); [|done|done|done|..].
  - rewrite no_space by by destruct Hrest. rewrite peek_pos. destruct Hrest as [|[key2 value2] t2 members ts (v2 & _ & _ & _ & ->) _].
    { cbn [joined app map Z.eqb Pos.eqb]. rewrite finish_object_reads. by rewrite <- !app_assoc. }
    rewrite joined_comma in *. cbn [app Z.eqb Pos.eqb] in *. rewrite consume_specific_pos. cbn [Z.eqb Pos.eqb negb]. cbn [length] in Hf.
    rewrite no_space by done. rewrite peek_pos. rewrite IH; [|by rewrite fmap_app, <- app_assoc|lia].
    cbn [joined app map Z.eqb Pos.eqb]. by rewrite <- !app_assoc.
  - intros Hin. by eapply Hdis; [exact Hin|left].
  - by destruct Hrest; [right; right|left].
  - unfold member_text in Hf. cbn [length] in Hf. rewrite length_app in *. cbn [length] in Hf. lia.
Qed.

(** ** Each kind of value *)

Definition value_text (value : JsonValue) (t : bytes) : Prop :=
  writes value t /\ wtf8 t /\ starts_value t /\ reads (reparsed value) t.

Lemma ascii_wtf8 t : Forall (fun c => is_ascii_digit c = true) t -> wtf8 t.
Proof. intros Ht. apply wtf8_ascii. eapply Forall_impl; [exact Ht|]. intros c Hc. ascii_lia. Qed.

Lemma keyword_reads keyword value : starts_value keyword ->
  (forall a rest fuel, parse_helper (S fuel) (at_pos a (keyword ++ rest)) = parse_keyword keyword value (at_pos a (keyword ++ rest))) -> reads value keyword.
Proof.
  intros Hs Hh fuel a rest _ Hf. destruct fuel as [|fuel]; [lia|]. rewrite Hh. unfold parse_keyword. rewrite consume_specific_view_pos.
  rewrite bool_decide_eq_true_2 by by eexists. cbn [res_bind negb]. by rewrite drop_app_length.
Qed.

(** The texts of numbers *)
Lemma number_starts t rest : (exists minus ds tail, t = minus_if minus ++ ds ++ tail /\ digits ds) ->
  exists c r, t ++ rest = c :: r /\ value_start c = true /\ starts_number c = true /\ (c =? 123) = false /\ (c =? 91) = false /\ (c =? 34) = false.
Proof.
  intros (minus & ds & tail & -> & [Hne Hd]). destruct minus; [by exists 45, ((ds ++ tail) ++ rest)|]. destruct ds as [|c ds]; [done|].
  apply Forall_cons in Hd as [Hc _]. exists c, ((ds ++ tail) ++ rest). split; [done|]. unfold starts_number. rewrite Hc. unfold value_start, is_json_space.
  unfold is_ascii_digit in Hc. split; [lia|]. split; [by rewrite orb_true_r|]. lia.
Qed.

Lemma number_reads t value : (exists minus ds tail, t = minus_if minus ++ ds ++ tail /\ digits ds) ->
  (forall a rest, ends_value rest -> parse_json_number (at_pos a (t ++ rest)) = Ret (inr (value, at_pos (a ++ t) rest))) ->
  starts_value t /\ reads value t.
Proof.
  intros Ht Hp. split.
  - destruct (number_starts t [] Ht) as (c & r & E & Hc & _). rewrite app_nil_r in E. by rewrite E.
  - intros fuel a rest Hrest Hf. destruct fuel as [|fuel]; [lia|]. destruct (number_starts t rest Ht) as (c & r & E & Hc & Hn & E1 & E2 & E3).
    apply value_start_spec in Hc as [Hc _]. cbn [parse_helper]. rewrite no_space by by rewrite E. rewrite <- Hp by done. rewrite peek_pos, E, E1, E2, E3, Hn. done.
Qed.

Lemma i64_text z : - 2 ^ 63 <= z < 2 ^ 63 -> exists t, value_text (JI64 z) t.
Proof.
  intros Hz. assert (Hneg : exists ds, format_i64 z = Ret (minus_if (z <? 0) ++ ds) /\ digits ds /\ digits_value 10 ds = Z.abs z
    /\ (ds = [ch "0"] \/ starts_with_char ds (ch "0") = false)).
  { destruct (decimal_text (Z.abs z) ltac:(lia)) as (ds & Hd & Hok). exists ds. split; [|done]. unfold format_i64. unfold format_decimal in Hd.
    replace (if z =? - 2 ^ 63 then _ else _) with (Z.abs z); [by rewrite Hd|].
    destruct (Z.eqb_spec z (- 2 ^ 63)) as [->|]; [done|]. destruct (Z.ltb_spec z 0); lia. }
  destruct Hneg as (ds & Hw & Hd & Hv & Hlead). exists (minus_if (z <? 0) ++ ds).
  assert (Hr : starts_value (minus_if (z <? 0) ++ ds) /\ reads (reparsed (JI64 z)) (minus_if (z <? 0) ++ ds)).
  { apply number_reads; [exists (z <? 0), ds, []; by rewrite app_nil_r|]. intros a rest Hrest. apply integer_reads; [done|done|done| |intros; lia].
    unfold integer_result. rewrite Hv. cbn [reparsed]. destruct (Z.ltb_spec z 0).
    - replace (Z.abs z <=? 2 ^ 63) with true by lia. replace (0 <=? z) with false by lia. do 2 f_equal. lia.
    - replace (Z.abs z <? 2 ^ 64) with true by lia. replace (0 <=? z) with true by lia. do 2 f_equal. lia. }
  split; [intros builder; cbn [json_serialize]; by rewrite Hw|]. split; [|done]. apply wtf8_app; [destruct (z <? 0); apply wtf8_ascii; repeat constructor; lia|].
  by apply ascii_wtf8, Hd.
Qed.

Lemma u64_text z : 0 <= z < 2 ^ 64 -> exists t, value_text (JU64 z) t.
Proof.
  intros Hz. destruct (decimal_text z Hz) as (ds & Hw & Hd & Hv & Hlead). exists ds. split; [intros builder; cbn [json_serialize]; by rewrite Hw|].
  split; [by apply ascii_wtf8, Hd|]. apply number_reads; [exists false, ds, []; by rewrite app_nil_r|]. intros a rest Hrest.
  apply (integer_reads false); [done|done|done| |done]. unfold integer_result. rewrite Hv. by replace (z <? 2 ^ 64) with true by lia.
Qed.

Lemma number_text_ascii t : number_ok t -> wtf8 (number_text t).
Proof.
  intros ([_ Hw] & Hf & Hx). rewrite number_text_parts. repeat apply wtf8_app.
  - destruct (nt_minus t); apply wtf8_ascii; repeat constructor; lia.
  - by apply ascii_wtf8.
  - unfold fraction_part. destruct (nt_fraction t) as [s|]; [|apply wtf8_nil]. apply (wtf8_app [46]); [apply wtf8_ascii; repeat constructor; lia|]. by apply ascii_wtf8, Hf.
  - unfold exponent_part. destruct (nt_exponent t) as [[m s]|]; [|apply wtf8_nil].
    apply (wtf8_app [101; if m then 45 else 43]); [apply wtf8_ascii; destruct m; repeat constructor; lia|]. by apply ascii_wtf8, (Hx m).
Qed.

Lemma double_text bits : 0 <= bits < 2 ^ 64 -> fp_finite bits -> exists t, value_text (JDouble bits) t.
Proof.
  intros Hb Hf. destruct (double_reads bits Hb Hf) as (t & Hw & Hok & Hp). exists (number_text t). split; [intros builder; cbn [json_serialize]; by rewrite Hw|].
  split; [by apply number_text_ascii|]. apply number_reads; [|done]. exists (nt_minus t), (nt_whole t), (fraction_part t ++ exponent_part t).
  split; [apply number_text_parts|exact (proj1 Hok)].
Qed.

Lemma string_text s : wtf8 s -> value_text (JString s) (34 :: escaped s ++ [34]).
Proof.
  intros Hs. pose proof (wtf8_bytes s Hs) as Hb. split; [|split; [|split; [done|]]].
  - intros builder. cbn [json_serialize]. rewrite append_escaped_spec by done. cbn [res_bind]. by rewrite <- !app_assoc.
  - apply (wtf8_app [34]); [apply wtf8_ascii; repeat constructor; lia|]. apply wtf8_app; [by apply escaped_wtf8|apply wtf8_ascii; repeat constructor; lia].
  - intros fuel a rest _ Hf. destruct fuel as [|fuel]; [lia|]. cbn [parse_helper app]. rewrite no_space by done. rewrite peek_pos. cbn [Z.eqb Pos.eqb].
    unfold parse_string. rewrite <- app_assoc. cbn [app]. rewrite string_parses by done. cbn [res_bind]. unfold json_string. by rewrite must_from_utf8_wtf8.
Qed.

Lemma array_text values ts : Forall2 value_text values ts -> value_text (JArray values) (91 :: joined true ts ++ [93]).
Proof.
  intros Ht. split; [|split; [|split; [done|]]].
  - apply array_written. eapply Forall2_impl; [exact Ht|]. by intros v t (Hw & _).
  - apply (wtf8_app [91]); [apply wtf8_ascii; repeat constructor; lia|]. apply wtf8_app; [|apply wtf8_ascii; repeat constructor; lia].
    apply joined_wtf8. eapply Forall2_Forall_r; [exact Ht|]. apply Forall_true. by intros v t (_ & Hw & _).
  - intros fuel a rest Hrest Hf. destruct fuel as [|fuel]; [lia|]. cbn [parse_helper app]. rewrite no_space by done. rewrite peek_pos.
    cbn [Z.eqb Pos.eqb]. rewrite consume_specific_pos. cbn [Z.eqb Pos.eqb negb app length] in *. rewrite <- !app_assoc in *. cbn [app] in *.
    etransitivity; [apply (elements_read values ts); [eapply Forall2_impl; [exact Ht|]; by intros v t (_ & _ & Hs)|lia]|]. cbn [reparsed app]. by rewrite <- !app_assoc.
Qed.

Lemma object_text members vs : NoDup members.*1 -> Forall (fun member => wtf8 member.1) members -> Forall2 (fun member => value_text member.2) members vs ->
  exists t, value_text (JObject members) t.
Proof.
  intros Hnd Hk Hv.
  assert (Hall : exists ts, Forall wtf8 ts /\ Forall2 member_reads members ts
    /\ Forall2 (fun member t => exists v, writes member.2 v /\ all_bytes member.1 /\ t = member_text member.1 v) members ts).
  { clear Hnd. induction Hv as [|[key value] v members vs (Hw & Hu & Hs & Hr) _ IH]; [exists []; by repeat constructor|]. apply Forall_cons in Hk as [Hkey Hk].
    destruct (IH Hk) as (ts & H1' & H2' & H3'). exists (member_text key v :: ts). cbn [fst snd] in *. split; [|split]; constructor; try done.
    - apply (wtf8_app [34]); [apply wtf8_ascii; repeat constructor; lia|]. apply wtf8_app; [by apply escaped_wtf8|].
      apply (wtf8_app [34; 58]); [apply wtf8_ascii; repeat constructor; lia|done].
    - by exists v.
    - exists v. split; [done|]. split; [by apply wtf8_bytes|done]. }
  destruct Hall as (ts & Hu & Hr & Hw). exists (123 :: joined true ts ++ [125]). split; [by apply object_written|]. split; [|split; [done|]].
  - apply (wtf8_app [123]); [apply wtf8_ascii; repeat constructor; lia|]. apply wtf8_app; [by apply joined_wtf8|apply wtf8_ascii; repeat constructor; lia].
  - intros fuel a rest Hrest Hf. destruct fuel as [|fuel]; [lia|]. cbn [parse_helper app]. rewrite no_space by done. rewrite peek_pos.
    cbn [Z.eqb Pos.eqb]. rewrite consume_specific_pos. cbn [Z.eqb Pos.eqb negb app length] in *. rewrite <- !app_assoc in *. cbn [app] in *. etransitivity; [apply (members_read members ts Hr); [done|lia]|]. cbn [reparsed app]. by rewrite <- !app_assoc.
Qed.

Lemma all_texts {A} (f : A -> JsonValue) (xs : list A) :
  Forall (fun x => json_ok (f x) -> json_finite (f x) = true -> exists t, value_text (f x) t) xs -> Forall (fun x => json_ok (f x)) xs ->
  forallb (fun x => json_finite (f x)) xs = true -> exists ts, Forall2 (fun x => value_text (f x)) xs ts.
Proof.
  induction 1 as [|x xs Hx _ IH]; intros Hok Hfin; [by exists []|]. apply Forall_cons in Hok as [Hok1 Hok]. cbn [forallb] in Hfin. apply andb_prop in Hfin as [Hf1 Hf].
  destruct (Hx Hok1 Hf1) as [t Ht]. destruct (IH Hok Hf) as [ts Hts]. exists (t :: ts). by constructor.
Qed.

Lemma value_has_text value : json_ok value -> json_finite value = true -> exists t, value_text value t.
Proof.
  induction value as [|b|z|z|bits|s|values IH|members IH] using json_value_ind; intros Hok Hfin; inversion Hok; subst.
  - exists (sv "null"). split; [done|]. split; [apply wtf8_ascii; repeat constructor; lia|]. split; [done|]. apply keyword_reads; [done|]. intros a rest fuel.
    cbn [parse_helper]. rewrite no_space by done. by rewrite peek_pos.
  - exists (if b then sv "true" else sv "false"). split; [done|]. destruct b; (split; [apply wtf8_ascii; repeat constructor; lia|]); (split; [done|]);
      (apply keyword_reads; [done|]); intros a rest fuel; cbn [parse_helper]; rewrite no_space by done; by rewrite peek_pos.
  - by apply i64_text.
  - by apply u64_text.
  - apply double_text; [done|]. cbn [json_finite] in Hfin. unfold fp_finite. lia.
  - eexists. by apply string_text.
  - destruct (all_texts (fun v => v) values IH) as [ts Hts]; [done..|]. eexists. by apply array_text.
  - destruct (all_texts snd members IH) as [vs Hvs]; [done..|]. by apply (object_text members vs).
Qed.

Lemma value_parses value t : value_text value t -> json_parse t = Ret (inr (reparsed value)).
Proof.
  intros (_ & _ & _ & Hr). unfold json_parse, parse_json. rewrite lexer_for_pos, tell_remaining_pos. specialize (Hr (json_fuel (length t)) [] [] I).
  rewrite app_nil_r in Hr. rewrite Hr by (unfold json_fuel; lia). cbn [res_bind app]. rewrite no_space by done. by rewrite is_eof_pos.
Qed.

End values.

(** ** What comes back *)

(** [value] is read back as the second value.  A double is read back as itself,
    or as an integer that rounds to it, which below 2^53 is its value. *)
Unset Elimination Schemes.
Inductive read_back : JsonValue -> JsonValue -> Prop :=
| back_null : read_back JNull JNull
| back_bool b : read_back (JBool b) (JBool b)
| back_negative z : z < 0 -> read_back (JI64 z) (JI64 z)
| back_natural z : 0 <= z -> read_back (JI64 z) (JU64 z)
| back_unsigned z : read_back (JU64 z) (JU64 z)
| back_double bits : read_back (JDouble bits) (JDouble bits)
| back_zero bits : bits = 0 \/ bits = 2 ^ 63 -> read_back (JDouble bits) (JU64 0)
| back_whole bits n :
    0 < n -> rounds_to (inject_Z n) bits -> (n < 2 ^ 53 -> (fp_value bits == inject_Z n)%Q) ->
    read_back (JDouble bits) (if fp_sign bits then JI64 (- n) else JU64 n)
| back_string s : read_back (JString s) (JString s)
| back_array values values' : Forall2 read_back values values' -> read_back (JArray values) (JArray values')
| back_object members members' :
    Forall2 (fun m m' => m'.1 = m.1 /\ read_back m.2 m'.2) members members' -> read_back (JObject members) (JObject members').
Set Elimination Schemes.

(** The integer that the text of a double denotes *)
Lemma reparsed_double_cases bits : finite_nonzero bits ->
  reparsed_double bits = JDouble bits
  \/ exists n, 0 < n /\ rounds_to (inject_Z n) bits /\ reparsed_double bits = if fp_sign bits then JI64 (- n) else JU64 n.
Proof.
  intros Hf. destruct (format_double_text bits Hf) as (t & f & e & Ht & (Hok & _ & Hs & _) & Hr & Hpos & Hint).
  unfold reparsed_double. rewrite Ht, split_minus_text, integer_text_digits by done. destruct (is_integer_text t) eqn:Ei; [|by left].
  assert (Hnone : nt_fraction t = None /\ nt_exponent t = None) by (unfold is_integer_text in Ei; by destruct (nt_fraction t), (nt_exponent t)).
  destruct (Hint Hnone) as [He Hval]. destruct Hnone as [E1 E2]. unfold fraction_part, exponent_part. rewrite E1, E2, !app_nil_r.
  destruct (integer_result _ _) as [value|] eqn:Er; [|by left]. right. exists (digits_value 10 (nt_whole t)).
  split; [rewrite Hval; apply Z.mul_pos_pos; [lia|by apply Z.pow_pos_nonneg]|]. split.
  - apply (rounds_to_proper (decimal f e)); [|done]. rewrite Hval. unfold decimal. rewrite inject_Z_mult, Zpower_Qpower by done. done.
  - unfold integer_result in Er. rewrite Hs in Er. cbn [default from_option]. unfold id.
    destruct (fp_sign bits); [destruct (_ <=? _)|destruct (_ <? _)]; by simplify_eq.
Qed.

Lemma double_back bits : 0 <= bits < 2 ^ 64 -> fp_finite bits -> read_back (JDouble bits) (reparsed_double bits).
Proof.
  intros Hb Hfin. destruct (fp_is_zero bits) eqn:Ez.
  { pose proof (zero_bits bits Hb Ez) as Hz. replace (reparsed_double bits) with (JU64 0) by (by destruct Hz as [->| ->]). by constructor. }
  assert (Hf : finite_nonzero bits) by (split; [done|unfold fp_is_zero in Ez; lia]).
  destruct (reparsed_double_cases bits Hf) as [->|(n & Hn & Hr & ->)]; [constructor|]. constructor; [done|done|]. intros Hsmall. by apply small_integer_exact.
Qed.

Lemma value_back value : json_ok value -> json_finite value = true -> read_back value (reparsed value).
Proof.
  induction value as [|b|z|z|bits|s|values IH|members IH] using json_value_ind; intros Hok Hfin; inversion Hok as [| | | |? Hb| |? Hv|? _ _ Hv]; subst; cbn [reparsed json_finite] in *.
  - constructor.
  - constructor.
  - destruct (Z.leb_spec 0 z); by constructor.
  - constructor.
  - apply double_back; [done|]. unfold fp_finite. lia.
  - constructor.
  - constructor. clear Hok. induction IH as [|v vs Hx _ IH]; [constructor|]. apply Forall_cons in Hv as [Hv1 Hv]. cbn [forallb map] in *.
    apply andb_prop in Hfin as [Hf1 Hf]. constructor; auto.
  - constructor. clear Hok. induction IH as [|[k v] vs Hx _ IH]; [constructor|]. apply Forall_cons in Hv as [Hv1 Hv]. cbn [forallb map fst snd] in *.
    apply andb_prop in Hfin as [Hf1 Hf]. constructor; auto.
Qed.

Lemma reparsed_finite value : json_finite value = true -> json_finite (reparsed value) = true.
Proof.
  induction value as [|b|z|z|bits|s|values IH|members IH] using json_value_ind; intros Hfin; cbn [reparsed json_finite] in *; try done.
  - by destruct (0 <=? z).
  - unfold reparsed_double. destruct (format_double bits) as [text|]; [|done]. destruct (split_minus text) as [minus ds].
    destruct (forallb _ ds); [|done]. unfold integer_result. by destruct minus; [destruct (_ <=? _)|destruct (_ <? _)].
  - induction IH as [|v vs Hx _ IH]; [done|]. cbn [forallb map] in *. apply andb_prop in Hfin as [Hf1 Hf]. by rewrite Hx, IH.
  - induction IH as [|[k v] vs Hx _ IH]; [done|]. cbn [forallb map fst snd] in *. apply andb_prop in Hfin as [Hf1 Hf]. by rewrite Hx, IH.
Qed.

(** ** A second trip *)

Lemma reparsed_double_stable bits : 0 <= bits < 2 ^ 64 -> fp_finite bits -> reparsed (reparsed_double bits) = reparsed_double bits.
Proof.
  intros Hb Hfin. destruct (fp_is_zero bits) eqn:Ez; [by destruct (zero_bits bits Hb Ez) as [->| ->]|].
  destruct (reparsed_double_cases bits) as [E|(n & Hn & _ & E)]; [split; [done|unfold fp_is_zero in Ez; lia]| |]; rewrite E; [exact E|].
  destruct (fp_sign bits); [|done]. cbn [reparsed]. by replace (0 <=? - n) with false by lia.
Qed.

Lemma reparsed_stable value : json_ok value -> json_finite value = true -> reparsed (reparsed value) = reparsed value.
Proof.
  induction value as [|b|z|z|bits|s|values IH|members IH] using json_value_ind; intros Hok Hfin; inversion Hok as [| | | |? Hb| |? Hv|? _ _ Hv]; subst; try done.
  - cbn [reparsed]. destruct (0 <=? z) eqn:E; [done|]. cbn [reparsed]. by rewrite E.
  - apply reparsed_double_stable; [done|]. cbn [json_finite] in Hfin. unfold fp_finite. lia.
  - cbn [reparsed json_finite] in *. f_equal. clear Hok. induction IH as [|v vs Hx _ IH]; [done|]. apply Forall_cons in Hv as [Hv1 Hv]. cbn [forallb map] in *.
    apply andb_prop in Hfin as [Hf1 Hf]. by rewrite Hx, IH.
  - cbn [reparsed json_finite] in *. f_equal. clear Hok. induction IH as [|[k v] vs Hx _ IH]; [done|]. apply Forall_cons in Hv as [Hv1 Hv]. cbn [forallb map fst snd] in *.
    apply andb_prop in Hfin as [Hf1 Hf]. by rewrite Hx, IH.
Qed.

Lemma value_trip `{SimdutfLaws, FastFloatLaws, FastFloatSignedLaws, FastFloatDoubleLaws} value : json_ok value -> json_finite value = true ->
  exists text, json_serialized value = Ret text /\ json_parse text = Ret (inr (reparsed value)) /\ json_ok (reparsed value).
Proof.
  intros Hok Hfinite. destruct (value_has_text value Hok Hfinite) as (t & Ht). exists t. pose proof (value_parses value t Ht) as Hp.
  destruct Ht as (Hw & Hu & _). split; [|split; [done|]].
  - unfold json_serialized. rewrite Hw. cbn [res_bind app]. by apply must_from_utf8_wtf8.
  - destruct (json_parse_total t Hu) as (r & Hr & Hrok). rewrite Hp in Hr. injection Hr as <-. by apply Hrok.
Qed.

(** ** Properties *)

(** C3: what the serializer writes is parsed, for every well-formed value of any
    nesting whose doubles are finite, and gives the value back: strings and keys
    with characters that must be escaped, the order of members and the limits of
    the integer types survive.  Only numbers can come back as another
    alternative of the variant: an integer that is not negative as an unsigned
    one; a zero of either sign as the integer 0; and a double as an integer that
    rounds to it to nearest-even, which is its value below 2^53 and from there
    on need not be (see [large_double_becomes_other_integer]).  The value that
    came back is not changed by a second trip. *)
Theorem json_roundtrip `{SimdutfLaws, FastFloatLaws, FastFloatSignedLaws, FastFloatDoubleLaws} (value : JsonValue)
    (Hok : json_ok value) (Hfinite : json_finite value = true) :
  exists text back, json_serialized value = Ret text /\ json_parse text = Ret (inr back) /\ read_back value back
    /\ exists text', json_serialized back = Ret text' /\ json_parse text' = Ret (inr back).
Proof.
  destruct (value_trip value Hok Hfinite) as (text & Hs & Hp & Hback). exists text, (reparsed value). split; [done|]. split; [done|].
  split; [by apply value_back|]. destruct (value_trip (reparsed value) Hback (reparsed_finite value Hfinite)) as (text' & Hs' & Hp' & _).
  exists text'. split; [done|]. by rewrite reparsed_stable in Hp'.
Qed.

(** {"a\n":[-1,0.5,null],"b":{}} *)
Definition sample_value : JsonValue :=
  JObject [([97; 10], JArray [JI64 (-1); JDouble 0x3fe0000000000000; JNull]); (sv "b", JObject [])].

Lemma json_roundtrip_witness :
  exists text back, json_serialized sample_value = Ret text /\ length text = 28%nat /\ json_parse text = Ret (inr back)
    /\ read_back sample_value back /\ back = sample_value.
Proof.
  destruct (json_roundtrip sample_value) as (text & back & Hs & Hp & Hb & _).
  - constructor; [apply (bool_decide_unpack _); vm_compute; exact I|repeat constructor; apply wtf8_ascii; repeat constructor; lia|].
    repeat constructor; cbn; try lia; apply NoDup_nil_2.
  - reflexivity.
  - exists text, back.
    assert (E : match json_serialized sample_value with Ret text => (length text, json_parse text) | Crash => (O, Crash) end = (28%nat, Ret (inr sample_value)))
      by (vm_compute; reflexivity).
    rewrite Hs, Hp in E. injection E as E1 E2. split; [exact Hs|]. split; [exact E1|]. split; [exact Hp|]. split; [exact Hb|exact E2].
Defined.

(** The double 2^60 prints as 1152921504606847000, which is read as that integer:
    the shortest digits identify the double and are not its value. *)
Lemma large_double_becomes_other_integer : fp_integer 0x43b0000000000000 * 2 ^ fp_scale 0x43b0000000000000 = 2 ^ 60
  /\ json_serialized (JDouble 0x43b0000000000000) = Ret (sv "1152921504606847000")
  /\ json_parse (sv "1152921504606847000") = Ret (inr (JU64 1152921504606847000)) /\ 2 ^ 60 = 1152921504606846976.
Proof. repeat split; vm_compute; reflexivity. Qed.

(** A number too large for a double is an infinity, which the serializer writes
    as inf, which is not JSON. *)
Lemma json_infinity : json_parse (sv "1e999") = Ret (inr (JDouble 0x7ff0000000000000))
  /\ json_serialized (JDouble 0x7ff0000000000000) = Ret (sv "inf") /\ json_parse (sv "inf") = Ret (inl (sv "JsonParser: Unexpected character")).
Proof. repeat split; vm_compute; reflexivity. Qed.
