(* ===== verification/CssTokens.v ===== *)
(** * CSS tokens: [LibWeb/CSS/CharacterTypes.h], [Number.h], [Serialize.cpp] and
      [Parser/Token.{h,cpp}]

    Code points are [Z], with [TOKENIZER_EOF] for the end of the input; strings
    are their UTF-8 bytes, and the value of a number is the bits of a double. *)

From S2P Require Import Prelude CharacterTypes Utf8 MemMem Strings Tokens Wtf8 PatternTokenizer.
From S2P Require Import FloatTables FloatToDecimal FloatFacts FloatExact FloatTheorems FloatFormat.
Local Open Scope Z_scope.

(** ** Classes of code points *)

Definition is_digit (code_point : Z) : bool := (0x30 <=? code_point) && (code_point <=? 0x39).
Definition is_hex_digit (code_point : Z) : bool :=
  is_digit code_point || ((0x41 <=? code_point) && (code_point <=? 0x46)) || ((0x61 <=? code_point) && (code_point <=? 0x66)).
Definition is_ident_start_code_point (code_point : Z) : bool :=
  is_ascii_alpha code_point || (negb (is_ascii code_point) && is_unicode code_point) || (code_point =? ch "_").
Definition is_ident_code_point (code_point : Z) : bool :=
  is_ident_start_code_point code_point || is_ascii_digit code_point || (code_point =? ch "-").
Definition is_non_printable_code_point (code_point : Z) : bool :=
  (code_point <=? 0x8) || (code_point =? 0xB) || ((0xE <=? code_point) && (code_point <=? 0x1F)) || (code_point =? 0x7F).
Definition is_newline (code_point : Z) : bool := code_point =? 0xA.
Definition is_whitespace (code_point : Z) : bool := is_newline code_point || (code_point =? 9) || (code_point =? 32).
Definition is_greater_than_maximum_allowed_code_point (code_point : Z) : bool := 0x10FFFF <? code_point.

(** ** Tokens *)

Inductive NumberType := NumberType_Number | NumberType_IntegerWithExplicitSign | NumberType_Integer.
Record Number := { number_type : NumberType; number_bits : Z }.
Definition default_number : Number := {| number_type := NumberType_Number; number_bits := 0 |}.

Inductive TokenType :=
| Invalid | EndOfFile | Ident | Function_ | AtKeyword | Hash | String_ | BadString | Url | BadUrl | Delim | Number_ | Percentage | Dimension
| Whitespace | CDO | CDC | Colon | Semicolon | Comma | OpenSquare | CloseSquare | OpenParen | CloseParen | OpenCurly | CloseCurly.

#[export] Instance token_type_eq_dec : EqDecision TokenType.
Proof. solve_decision. Defined.

Inductive HashType := HashId | HashUnrestricted.

Record Position := { line : nat; column : nat }.
Definition start_of_text : Position := {| line := 0; column := 0 |}.

Record Token := {
  m_type : TokenType;
  m_value : bytes;
  m_number_value : Number;
  m_hash_type : HashType;
  m_original_source_text : bytes;
  m_start_position : Position;
  m_end_position : Position
}.

Definition token_is (token : Token) (type : TokenType) : bool := bool_decide (m_type token = type).

(** A token with the defaults of the members *)
Definition plain_token (type : TokenType) (value : bytes) (number : Number) (hash_type : HashType) (original_source_text : bytes) : Token :=
  {| m_type := type; m_value := value; m_number_value := number; m_hash_type := hash_type;
     m_original_source_text := original_source_text; m_start_position := start_of_text; m_end_position := start_of_text |}.

(** The types that [Token::create] accepts *)
Definition has_no_value (type : TokenType) : bool :=
  match type with
  | Invalid | EndOfFile | BadString | BadUrl | CDO | CDC | Colon | Semicolon | Comma | OpenSquare | CloseSquare | OpenParen | CloseParen
  | OpenCurly | CloseCurly => true
  | _ => false
  end.

Definition create_token (type : TokenType) (source : bytes) : res Token :=
  verify (has_no_value type) (Ret (plain_token type [] default_number HashUnrestricted source)).
Definition create_ident (ident source : bytes) : Token := plain_token Ident ident default_number HashUnrestricted source.
Definition create_function (name source : bytes) : Token := plain_token Function_ name default_number HashUnrestricted source.
Definition create_at_keyword (name source : bytes) : Token := plain_token AtKeyword name default_number HashUnrestricted source.
Definition create_hash (value : bytes) (hash_type : HashType) (source : bytes) : Token := plain_token Hash value default_number hash_type source.
Definition create_string (value source : bytes) : Token := plain_token String_ value default_number HashUnrestricted source.
Definition create_url (url source : bytes) : Token := plain_token Url url default_number HashUnrestricted source.
Definition create_number (value : Number) (source : bytes) : Token := plain_token Number_ [] value HashUnrestricted source.
Definition create_percentage (value : Number) (source : bytes) : Token := plain_token Percentage [] value HashUnrestricted source.
Definition create_dimension (value : Number) (unit source : bytes) : Token := plain_token Dimension unit value HashUnrestricted source.
Definition create_whitespace (source : bytes) : Token := plain_token Whitespace [] default_number HashUnrestricted source.

(** [String::from_code_point] *)
Definition from_code_point (code_point : Z) : res bytes := verify (is_unicode code_point) (Ret (code_point_to_utf8 code_point).1).

Definition create_delim (delim : Z) (source : bytes) : res Token :=
  let* value := from_code_point delim in
  Ret (plain_token Delim value default_number HashUnrestricted source).

Definition set_position_range (token : Token) (start end_ : Position) : Token :=
  {| m_type := m_type token; m_value := m_value token; m_number_value := m_number_value token; m_hash_type := m_hash_type token;
     m_original_source_text := m_original_source_text token; m_start_position := start; m_end_position := end_ |}.

Definition mirror_variant (token : Token) : TokenType :=
  match m_type token with
  | OpenCurly => CloseCurly
  | OpenSquare => CloseSquare
  | OpenParen => CloseParen
  | _ => Invalid
  end.

Definition bracket_string (token : Token) : bytes :=
  match m_type token with
  | OpenCurly => sv "{" | CloseCurly => sv "}" | OpenSquare => sv "[" | CloseSquare => sv "]" | OpenParen => sv "(" | CloseParen => sv ")"
  | _ => []
  end.

Definition bracket_mirror_string (token : Token) : bytes :=
  match m_type token with
  | OpenCurly => sv "}" | CloseCurly => sv "{" | OpenSquare => sv "]" | CloseSquare => sv "[" | OpenParen => sv ")" | CloseParen => sv "("
  | _ => []
  end.

(** ** Serializing *)

Definition escape_a_character (builder : bytes) (character : Z) : bytes := append_code_point (builder ++ [92]) character.

Definition escape_a_character_as_code_point (builder : bytes) (character : Z) : res bytes :=
  let* digits := format_hex character in
  Ret (builder ++ [92] ++ digits ++ [32]).

Definition is_control (character : Z) : bool := ((1 <=? character) && (character <=? 0x1F)) || (character =? 0x7F).

Section serialize.
Context `{Simdutf, SimdutfCount}.

(** One character of [serialize_an_identifier]; [length_] is the length of the
    identifier in code points. *)
Definition serialize_ident_character (first_character length_ : Z) (builder : bytes) (character : Z) : res bytes :=
  if character =? 0 then Ret (append_code_point builder 0xFFFD)
  else if is_control character then escape_a_character_as_code_point builder character
  else if sv_is_empty builder && (ch "0" <=? character) && (character <=? ch "9") then escape_a_character_as_code_point builder character
  else if (length builder =? 1)%nat && (first_character =? ch "-") && (ch "0" <=? character) && (character <=? ch "9")
  then escape_a_character_as_code_point builder character
  else if sv_is_empty builder && (character =? ch "-") && (length_ =? 1) then Ret (escape_a_character builder character)
  else if (0x80 <=? character) || (character =? ch "-") || (character =? ch "_") || ((ch "0" <=? character) && (character <=? ch "9"))
          || ((ch "A" <=? character) && (character <=? ch "Z")) || ((ch "a" <=? character) && (character <=? ch "z"))
  then Ret (append_code_point builder character)
  else Ret (escape_a_character builder character).

Fixpoint serialize_ident_characters (first_character length_ : Z) (builder : bytes) (characters : list Z) : res bytes :=
  match characters with
  | [] => Ret builder
  | character :: characters =>
      let* builder := serialize_ident_character first_character length_ builder character in
      serialize_ident_characters first_character length_ builder characters
  end.

(** [serialize_an_identifier(StringBuilder&, StringView)] *)
Definition serialize_an_identifier_into (builder ident : bytes) : res bytes :=
  let first_character := match ident with [] => 0 | b0 :: rest => deref_at b0 rest end in
  serialize_ident_characters first_character (utf8_length ident) builder (code_points ident).

(** [serialize_an_identifier(StringView)] *)
Definition serialize_an_identifier (ident : bytes) : res bytes := serialize_an_identifier_into [] ident.

Definition serialize_string_character (builder : bytes) (character : Z) : res bytes :=
  if character =? 0 then Ret (append_code_point builder 0xFFFD)
  else if is_control character then escape_a_character_as_code_point builder character
  else if (character =? 0x22) || (character =? 0x5C) then Ret (escape_a_character builder character)
  else Ret (append_code_point builder character).

Fixpoint serialize_string_characters (builder : bytes) (characters : list Z) : res bytes :=
  match characters with
  | [] => Ret builder
  | character :: characters =>
      let* builder := serialize_string_character builder character in
      serialize_string_characters builder characters
  end.

Definition serialize_a_string_into (builder string : bytes) : res bytes :=
  let* builder := serialize_string_characters (builder ++ [34]) (code_points string) in
  Ret (builder ++ [34]).

Definition serialize_a_string (string : bytes) : res bytes := serialize_a_string_into [] string.

Definition serialize_a_url_into (builder url : bytes) : res bytes :=
  let* builder := serialize_a_string_into (builder ++ sv "url(") url in
  Ret (builder ++ [ch ")"]).

Definition serialize_a_url (url : bytes) : res bytes := serialize_a_url_into [] url.

(** [Token::to_string] *)
Definition token_to_string (token : Token) : res bytes :=
  let text_of_number := format_double (number_bits (m_number_value token)) in
  match m_type token with
  | EndOfFile | BadString => Ret []
  | Ident => serialize_an_identifier (m_value token)
  | Function_ => let* name := serialize_an_identifier (m_value token) in Ret (name ++ sv "(")
  | AtKeyword => let* name := serialize_an_identifier (m_value token) in Ret (sv "@" ++ name)
  | Hash =>
      match m_hash_type token with
      | HashId => let* value := serialize_an_identifier (m_value token) in Ret (sv "#" ++ value)
      | HashUnrestricted => Ret (sv "#" ++ m_value token)
      end
  | String_ => serialize_a_string (m_value token)
  | Url => serialize_a_url (m_value token)
  | BadUrl => Ret (sv "url()")
  | Delim => Ret (m_value token)
  | Number_ => text_of_number
  | Percentage => let* text := text_of_number in Ret (text ++ sv "%")
  | Dimension => let* text := text_of_number in Ret (text ++ m_value token)
  | Whitespace => Ret (sv " ")
  | CDO => Ret (sv "<!--")
  | CDC => Ret (sv "-->")
  | Colon => Ret (sv ":")
  | Semicolon => Ret (sv ";")
  | Comma => Ret (sv ",")
  | OpenSquare => Ret (sv "[")
  | CloseSquare => Ret (sv "]")
  | OpenParen => Ret (sv "(")
  | CloseParen => Ret (sv ")")
  | OpenCurly => Ret (sv "{")
  | CloseCurly => Ret (sv "}")
  | Invalid => Crash
  end.

End serialize.
