(* ===== verification/CssTokenizer.v ===== *)
(** * The CSS tokenizer: [LibWeb/CSS/Parser/Tokenizer.{h,cpp}]

    A method of the tokenizer is a function in the monad [M] of its members.  The
    iterator is the list of the bytes in front of it, as in [Utf8]; the previous
    iterator is absent until a code point has been consumed, and going back to it
    then is [Crash].  Parse errors only reach the debug log. *)

From S2P Require Import Prelude CharacterTypes Utf8 Utf16 MemMem Strings Tokens Wtf8 BinarySearch TextCodec Decoders PatternTokenizer.
From S2P Require Import FloatTables FloatToDecimal FloatFacts FloatExact FloatTheorems FloatFormat CssTokens.
Local Open Scope Z_scope.

Definition TOKENIZER_EOF : Z := 0xFFFFFFFF.
Definition is_eof (code_point : Z) : bool := code_point =? TOKENIZER_EOF.

Record Tokenizer := {
  m_decoded_input : bytes;
  m_utf8_iterator : bytes;
  m_prev_utf8_iterator : option bytes;
  m_position : Position;
  m_prev_position : Position
}.

(** ** The monad *)

Definition M (A : Type) : Type := Tokenizer -> res (A * Tokenizer).

Definition mreturn {A} (a : A) : M A := fun t => Ret (a, t).
Definition mbind {A B} (e : M A) (k : A -> M B) : M B := fun t => let* (a, t) := e t in k a t.
(** A fallible computation that does not look at the tokenizer *)
Definition mlift {A} (e : res A) : M A := fun t => let* a := e in Ret (a, t).
(** A function of the members *)
Definition mget {A} (f : Tokenizer -> A) : M A := fun t => Ret (f t, t).
Definition mget_res {A} (f : Tokenizer -> res A) : M A := fun t => let* a := f t in Ret (a, t).
(** A loop with the fuel for its members *)
Definition mloop {A} (f : nat -> M A) : M A := fun t => f (S (length (m_utf8_iterator t))) t.

Declare Scope css_scope.
Delimit Scope css_scope with css.
Notation "'do*' x ':=' e 'in' k" := (mbind e (fun x => k)) (at level 10, x pattern, e at level 200, k at level 200) : css_scope.
Notation "e ';;;' k" := (mbind e (fun _ => k)) (at level 100, right associativity) : css_scope.
Local Open Scope css_scope.

(** ** Reading code points *)

Definition advance_position (position : Position) (code_point : Z) : Position :=
  if is_newline code_point then {| line := S (line position); column := 0 |} else {| line := line position; column := S (column position) |}.

Definition next_code_point : M Z := fun t =>
  match m_utf8_iterator t with
  | [] => Ret (TOKENIZER_EOF, t)
  | b0 :: rest =>
      let code_point := deref_at b0 rest in
      Ret (code_point,
           {| m_decoded_input := m_decoded_input t; m_utf8_iterator := incr_at b0 rest; m_prev_utf8_iterator := Some (m_utf8_iterator t);
              m_position := advance_position (m_position t) code_point; m_prev_position := m_position t |})
  end.

Definition reconsume_current_input_code_point : M unit := fun t =>
  match m_prev_utf8_iterator t with
  | None => Crash
  | Some it =>
      Ret (tt, {| m_decoded_input := m_decoded_input t; m_utf8_iterator := it; m_prev_utf8_iterator := m_prev_utf8_iterator t;
                  m_position := m_prev_position t; m_prev_position := m_prev_position t |})
  end.

(** The code point at an iterator, and the next one *)
Definition value_at (it : bytes) : Z := match it with [] => TOKENIZER_EOF | b0 :: rest => deref_at b0 rest end.
Definition step_iterator (it : bytes) : bytes := match it with [] => [] | b0 :: rest => incr_at b0 rest end.

(** [peek_code_point()], which is always called without an offset *)
Definition peek_code_point (t : Tokenizer) : Z := value_at (m_utf8_iterator t).

Definition peek_twin (t : Tokenizer) : Z * Z :=
  let it := m_utf8_iterator t in (value_at it, value_at (step_iterator it)).

Definition peek_triplet (t : Tokenizer) : Z * Z * Z :=
  let it := m_utf8_iterator t in (value_at it, value_at (step_iterator it), value_at (step_iterator (step_iterator it))).

Definition start_of_input_stream_twin : M (Z * Z) :=
  reconsume_current_input_code_point;;;
  do* first := next_code_point in
  do* second := mget peek_code_point in
  mreturn (first, second).

Definition start_of_input_stream_triplet : M (Z * Z * Z) :=
  reconsume_current_input_code_point;;;
  do* first := next_code_point in
  do* (second, third) := mget peek_twin in
  mreturn (first, second, third).

Definition current_byte_offset (t : Tokenizer) : nat := length (m_decoded_input t) - length (m_utf8_iterator t).

(** A negative length wraps around and is out of range. *)
Definition input_since (offset : nat) (t : Tokenizer) : res bytes :=
  verify (offset <=? current_byte_offset t)%nat (substring_view (m_decoded_input t) offset (current_byte_offset t - offset)).

Definition create_eof_token : res Token := create_token EndOfFile [].

(** ** What the next code points would start *)

Definition would_start_a_number (values : Z * Z * Z) : bool :=
  let '(first, second, third) := values in
  if (first =? ch "+") || (first =? ch "-") then is_digit second || ((second =? ch ".") && is_digit third)
  else if first =? ch "." then is_digit second
  else is_digit first.

Definition is_valid_escape_sequence (values : Z * Z) : bool :=
  if negb (values.1 =? 0x5C) then false else negb (is_newline values.2).

Definition would_start_an_ident_sequence (values : Z * Z * Z) : bool :=
  let '(first, second, third) := values in
  if first =? ch "-" then is_ident_start_code_point second || (second =? ch "-") || is_valid_escape_sequence (second, third)
  else if is_ident_start_code_point first then true
  else if first =? 0x5C then is_valid_escape_sequence (first, second)
  else false.

Section tokenizer.
Context `{LookupTables} `{Simdutf} `{SimdutfUtf16} `{FastFloat} `{FastFloatDouble}.

(** ** Pieces of tokens *)

(** The loop over at most [n] hexadecimal digits *)
Fixpoint hex_digits_loop (n : nat) (builder : bytes) : M bytes :=
  match n with
  | O => mreturn builder
  | S n =>
      do* next := mget peek_code_point in
      if is_hex_digit next then do* code_point := next_code_point in hex_digits_loop n (append_code_point builder code_point)
      else mreturn builder
  end.

Definition consume_escaped_code_point : M Z :=
  do* input := next_code_point in
  if is_hex_digit input then
    do* digits := hex_digits_loop 5 (append_code_point [] input) in
    do* next := mget peek_code_point in
    (if is_whitespace next then do* _ := next_code_point in mreturn tt else mreturn tt);;;
    let unhexed := default 0 (parse_number (2 ^ 32 - 1) (trim_whitespace digits) 16) in
    if (unhexed =? 0) || is_unicode_surrogate unhexed || is_greater_than_maximum_allowed_code_point unhexed then mreturn 0xFFFD
    else mreturn unhexed
  else if is_eof input then mreturn 0xFFFD
  else mreturn input.

Fixpoint ident_sequence_loop (fuel : nat) (result : bytes) : M bytes :=
  match fuel with
  | O => fun _ => Crash
  | S fuel =>
      do* input := next_code_point in
      if is_eof input then mreturn result
      else if is_ident_code_point input then ident_sequence_loop fuel (append_code_point result input)
      else
        do* twin := start_of_input_stream_twin in
        if is_valid_escape_sequence twin then
          do* code_point := consume_escaped_code_point in
          ident_sequence_loop fuel (append_code_point result code_point)
        else
          reconsume_current_input_code_point;;;
          mreturn result
  end.

Definition consume_an_ident_sequence : M bytes := mloop (fun fuel => ident_sequence_loop fuel []).

Fixpoint whitespace_loop (fuel : nat) : M unit :=
  match fuel with
  | O => fun _ => Crash
  | S fuel =>
      do* next := mget peek_code_point in
      if is_whitespace next then do* _ := next_code_point in whitespace_loop fuel else mreturn tt
  end.

Definition consume_as_much_whitespace_as_possible : M unit := mloop whitespace_loop.

Fixpoint bad_url_loop (fuel : nat) : M unit :=
  match fuel with
  | O => fun _ => Crash
  | S fuel =>
      do* input := next_code_point in
      if is_eof input || (input =? ch ")") then mreturn tt
      else
        do* twin := start_of_input_stream_twin in
        if is_valid_escape_sequence twin then do* _ := consume_escaped_code_point in bad_url_loop fuel
        else bad_url_loop fuel
  end.

Definition consume_the_remnants_of_a_bad_url : M unit := mloop bad_url_loop.

(** Returning a token *)
Definition url_token (builder : bytes) (start_byte_offset : nat) : M Token :=
  do* source := mget_res (input_since start_byte_offset) in
  mreturn (create_url builder source).

Definition valueless_token (type : TokenType) (start_byte_offset : nat) : M Token :=
  do* source := mget_res (input_since start_byte_offset) in
  mlift (create_token type source).

Definition bad_url_token (start_byte_offset : nat) : M Token :=
  consume_the_remnants_of_a_bad_url;;;
  valueless_token BadUrl start_byte_offset.

Fixpoint url_loop (fuel : nat) (start_byte_offset : nat) (builder : bytes) : M Token :=
  match fuel with
  | O => fun _ => Crash
  | S fuel =>
      do* input := next_code_point in
      if input =? ch ")" then url_token builder start_byte_offset
      else if is_eof input then url_token builder start_byte_offset
      else if is_whitespace input then
        consume_as_much_whitespace_as_possible;;;
        do* input := mget peek_code_point in
        if (input =? ch ")") || is_eof input then do* _ := next_code_point in url_token builder start_byte_offset
        else bad_url_token start_byte_offset
      else if (input =? 34) || (input =? 39) || (input =? ch "(") || is_non_printable_code_point input then bad_url_token start_byte_offset
      else if input =? 0x5C then
        do* twin := start_of_input_stream_twin in
        if is_valid_escape_sequence twin then
          do* code_point := consume_escaped_code_point in
          url_loop fuel start_byte_offset (append_code_point builder code_point)
        else bad_url_token start_byte_offset
      else url_loop fuel start_byte_offset (append_code_point builder input)
  end.

Definition consume_a_url_token (start_byte_offset : nat) : M Token :=
  consume_as_much_whitespace_as_possible;;;
  mloop (fun fuel => url_loop fuel start_byte_offset []).

(** While the next two code points are whitespace *)
Fixpoint whitespace_twin_loop (fuel : nat) : M unit :=
  match fuel with
  | O => fun _ => Crash
  | S fuel =>
      do* (first, second) := mget peek_twin in
      if is_whitespace first && is_whitespace second then do* _ := next_code_point in whitespace_twin_loop fuel else mreturn tt
  end.

Definition is_quote (code_point : Z) : bool := (code_point =? 34) || (code_point =? 39).

Definition consume_an_ident_like_token : M Token :=
  do* start_byte_offset := mget current_byte_offset in
  do* string := consume_an_ident_sequence in
  do* next := mget peek_code_point in
  if equals_ignoring_ascii_case string (sv "url") && (next =? ch "(") then
    do* _ := next_code_point in
    mloop whitespace_twin_loop;;;
    do* (first, second) := mget peek_twin in
    if is_quote first || (is_whitespace first && is_quote second) then
      do* source := mget_res (input_since start_byte_offset) in
      mreturn (create_function string source)
    else consume_a_url_token start_byte_offset
  else if next =? ch "(" then
    do* _ := next_code_point in
    do* source := mget_res (input_since start_byte_offset) in
    mreturn (create_function string source)
  else
    do* source := mget_res (input_since start_byte_offset) in
    mreturn (create_ident string source).

(** ** Numbers *)

(** Appending the next code point *)
Definition append_next (repr : bytes) : M bytes :=
  do* code_point := next_code_point in
  mreturn (append_code_point repr code_point).

Fixpoint digits_loop (fuel : nat) (repr : bytes) : M bytes :=
  match fuel with
  | O => fun _ => Crash
  | S fuel =>
      do* next := mget peek_code_point in
      if is_digit next then do* repr := append_next repr in digits_loop fuel repr else mreturn repr
  end.

Definition consume_digits (repr : bytes) : M bytes := mloop (fun fuel => digits_loop fuel repr).

Definition is_sign (code_point : Z) : bool := (code_point =? ch "+") || (code_point =? ch "-").

(** [convert_a_string_to_a_number] *)
Definition convert_a_string_to_a_number (string : bytes) : res Z :=
  match parse_first_number_double string with
  | Some (value, characters_parsed) => verify (characters_parsed =? length string)%nat (Ret value)
  | None => Crash
  end.

(** Step 4 *)
Definition consume_fraction (repr : bytes) (type : NumberType) : M (bytes * NumberType) :=
  do* (first, second) := mget peek_twin in
  if (first =? ch ".") && is_digit second then
    do* repr := append_next repr in
    do* repr := append_next repr in
    do* repr := consume_digits repr in
    mreturn (repr, NumberType_Number)
  else mreturn (repr, type).

(** Step 5 *)
Definition consume_exponent (repr : bytes) (type : NumberType) : M (bytes * NumberType) :=
  do* (first, second, third) := mget peek_triplet in
  if ((first =? ch "E") || (first =? ch "e")) && ((is_sign second && is_digit third) || is_digit second) then
    do* repr := (if is_sign second then
                   if is_digit third then
                     do* repr := append_next repr in
                     do* repr := append_next repr in
                     append_next repr
                   else mreturn repr
                 else if is_digit second then
                   do* repr := append_next repr in
                   append_next repr
                 else mreturn repr) in
    do* repr := consume_digits repr in
    mreturn (repr, NumberType_Number)
  else mreturn (repr, type).

Definition consume_a_number : M Number :=
  do* next_input := mget peek_code_point in
  let has_explicit_sign := is_sign next_input in
  do* repr := (if has_explicit_sign then append_next [] else mreturn []) in
  do* repr := consume_digits repr in
  do* (repr, type) := consume_fraction repr NumberType_Integer in
  do* (repr, type) := consume_exponent repr type in
  do* value := mlift (convert_a_string_to_a_number repr) in
  mreturn (match type with
           | NumberType_Integer =>
               {| number_type := if has_explicit_sign then NumberType_IntegerWithExplicitSign else NumberType_Integer; number_bits := value |}
           | _ => {| number_type := type; number_bits := value |}
           end).

Definition consume_a_numeric_token : M Token :=
  do* start_byte_offset := mget current_byte_offset in
  do* number := consume_a_number in
  do* triplet := mget peek_triplet in
  if would_start_an_ident_sequence triplet then
    do* unit := consume_an_ident_sequence in
    mlift (verify (negb (sv_is_empty unit)) (Ret tt));;;
    do* source := mget_res (input_since start_byte_offset) in
    mreturn (create_dimension number unit source)
  else
    do* next := mget peek_code_point in
    if next =? ch "%" then
      do* _ := next_code_point in
      do* source := mget_res (input_since start_byte_offset) in
      mreturn (create_percentage number source)
    else
      do* source := mget_res (input_since start_byte_offset) in
      mreturn (create_number number source).

(** ** Strings *)

Definition string_token (builder : bytes) (start : nat) : M Token :=
  do* source := mget_res (input_since start) in
  mreturn (create_string builder source).

Fixpoint string_loop (fuel : nat) (ending_code_point : Z) (start : nat) (builder : bytes) : M Token :=
  match fuel with
  | O => fun _ => Crash
  | S fuel =>
      do* input := next_code_point in
      if input =? ending_code_point then string_token builder start
      else if is_eof input then string_token builder start
      else if is_newline input then
        reconsume_current_input_code_point;;;
        valueless_token BadString start
      else if input =? 0x5C then
        do* next_input := mget peek_code_point in
        if is_eof next_input then string_loop fuel ending_code_point start builder
        else if is_newline next_input then do* _ := next_code_point in string_loop fuel ending_code_point start builder
        else
          do* escaped := consume_escaped_code_point in
          string_loop fuel ending_code_point start (append_code_point builder escaped)
      else string_loop fuel ending_code_point start (append_code_point builder input)
  end.

Definition consume_string_token (ending_code_point : Z) : M Token :=
  do* offset := mget current_byte_offset in
  let start := (offset - 1)%nat in
  mloop (fun fuel => string_loop fuel ending_code_point start []).

(** ** Comments *)

(** The inner loop: whether the end of the comment was found *)
Fixpoint comment_loop (fuel : nat) : M bool :=
  match fuel with
  | O => fun _ => Crash
  | S fuel =>
      do* (first, second) := mget peek_twin in
      if is_eof first || is_eof second then mreturn false
      else if (first =? ch "*") && (second =? ch "/") then
        do* _ := next_code_point in
        do* _ := next_code_point in
        mreturn true
      else do* _ := next_code_point in comment_loop fuel
  end.

Fixpoint comments_loop (fuel : nat) : M unit :=
  match fuel with
  | O => fun _ => Crash
  | S fuel =>
      do* (first, second) := mget peek_twin in
      if negb ((first =? ch "/") && (second =? ch "*")) then mreturn tt
      else
        do* _ := next_code_point in
        do* _ := next_code_point in
        do* found := mloop comment_loop in
        if found : bool then comments_loop fuel else mreturn tt
  end.

Definition consume_comments : M unit := mloop comments_loop.

(** ** Tokens *)

Definition delim_token (input : Z) (start_byte_offset : nat) : M Token :=
  do* source := mget_res (input_since start_byte_offset) in
  mlift (create_delim input source).

(** Reconsuming the current code point as a numeric or an ident-like token *)
Definition reconsume_as (consume : M Token) : M Token :=
  reconsume_current_input_code_point;;;
  consume.

(** The case of U+0023 *)
Definition consume_hash (input : Z) (start_byte_offset : nat) : M Token :=
  do* next_input := mget peek_code_point in
  do* maybe_escape := mget peek_twin in
  if is_ident_code_point next_input || is_valid_escape_sequence maybe_escape then
    do* triplet := mget peek_triplet in
    let hash_type := if would_start_an_ident_sequence triplet then HashId else HashUnrestricted in
    do* value := consume_an_ident_sequence in
    do* source := mget_res (input_since start_byte_offset) in
    mreturn (create_hash value hash_type source)
  else delim_token input start_byte_offset.

(** The cases of U+002B and U+002E *)
Definition consume_number_or_delim (input : Z) (start_byte_offset : nat) : M Token :=
  do* triplet := start_of_input_stream_triplet in
  if would_start_a_number triplet then reconsume_as consume_a_numeric_token else delim_token input start_byte_offset.

(** The case of U+002D *)
Definition consume_hyphen (input : Z) (start_byte_offset : nat) : M Token :=
  do* triplet := start_of_input_stream_triplet in
  if would_start_a_number triplet then reconsume_as consume_a_numeric_token
  else
    do* (first, second) := mget peek_twin in
    if (first =? ch "-") && (second =? ch ">") then
      do* _ := next_code_point in
      do* _ := next_code_point in
      valueless_token CDC start_byte_offset
    else
      do* triplet := start_of_input_stream_triplet in
      if would_start_an_ident_sequence triplet then reconsume_as consume_an_ident_like_token else delim_token input start_byte_offset.

(** The case of U+003C *)
Definition consume_less_than (input : Z) (start_byte_offset : nat) : M Token :=
  do* (first, second, third) := mget peek_triplet in
  if (first =? ch "!") && (second =? ch "-") && (third =? ch "-") then
    do* _ := next_code_point in
    do* _ := next_code_point in
    do* _ := next_code_point in
    valueless_token CDO start_byte_offset
  else delim_token input start_byte_offset.

(** The case of U+0040; the name is consumed before the source text is taken *)
Definition consume_at (input : Z) (start_byte_offset : nat) : M Token :=
  do* triplet := mget peek_triplet in
  if would_start_an_ident_sequence triplet then
    do* name := consume_an_ident_sequence in
    do* source := mget_res (input_since start_byte_offset) in
    mreturn (create_at_keyword name source)
  else delim_token input start_byte_offset.

(** The case of U+005C *)
Definition consume_reverse_solidus (input : Z) (start_byte_offset : nat) : M Token :=
  do* twin := start_of_input_stream_twin in
  if is_valid_escape_sequence twin then reconsume_as consume_an_ident_like_token else delim_token input start_byte_offset.

Definition consume_a_token : M Token :=
  do* start_byte_offset := mget current_byte_offset in
  consume_comments;;;
  do* after_comments_byte_offset := mget current_byte_offset in
  if negb (after_comments_byte_offset =? start_byte_offset)%nat then
    do* source := mget_res (input_since start_byte_offset) in
    mreturn (create_whitespace source)
  else
    do* input := next_code_point in
    if is_whitespace input then
      consume_as_much_whitespace_as_possible;;;
      do* source := mget_res (input_since start_byte_offset) in
      mreturn (create_whitespace source)
    else if input =? 34 then consume_string_token input
    else if input =? ch "#" then consume_hash input start_byte_offset
    else if input =? 39 then consume_string_token input
    else if input =? ch "(" then valueless_token OpenParen start_byte_offset
    else if input =? ch ")" then valueless_token CloseParen start_byte_offset
    else if input =? ch "+" then consume_number_or_delim input start_byte_offset
    else if input =? ch "," then valueless_token Comma start_byte_offset
    else if input =? ch "-" then consume_hyphen input start_byte_offset
    else if input =? ch "." then consume_number_or_delim input start_byte_offset
    else if input =? ch ":" then valueless_token Colon start_byte_offset
    else if input =? ch ";" then valueless_token Semicolon start_byte_offset
    else if input =? ch "<" then consume_less_than input start_byte_offset
    else if input =? ch "@" then consume_at input start_byte_offset
    else if input =? ch "[" then valueless_token OpenSquare start_byte_offset
    else if input =? 0x5C then consume_reverse_solidus input start_byte_offset
    else if input =? ch "]" then valueless_token CloseSquare start_byte_offset
    else if input =? ch "{" then valueless_token OpenCurly start_byte_offset
    else if input =? ch "}" then valueless_token CloseCurly start_byte_offset
    else if is_digit input then reconsume_as consume_a_numeric_token
    else if is_ident_start_code_point input then reconsume_as consume_an_ident_like_token
    else if is_eof input then mlift create_eof_token
    else delim_token input start_byte_offset.

Fixpoint tokenize_loop (fuel : nat) : M (list Token) :=
  match fuel with
  | O => fun _ => Crash
  | S fuel =>
      do* token_start := mget m_position in
      do* token := consume_a_token in
      do* token_end := mget m_position in
      let token := set_position_range token token_start token_end in
      if token_is token EndOfFile then mreturn [token]
      else
        do* tokens := tokenize_loop fuel in
        mreturn (token :: tokens)
  end.

(** The constructor and [Tokenizer::tokenize()] *)
Definition tokenizer_for (decoded_input : bytes) : Tokenizer :=
  {| m_decoded_input := decoded_input; m_utf8_iterator := decoded_input; m_prev_utf8_iterator := None;
     m_position := start_of_text; m_prev_position := start_of_text |}.

Definition tokenize_decoded (decoded_input : bytes) : res (list Token) :=
  let* (tokens, _) := mloop tokenize_loop (tokenizer_for decoded_input) in
  Ret tokens.

(** ** Preprocessing *)

Definition is_filterable (code_point : Z) : bool :=
  (code_point =? 13) || (code_point =? 12) || (code_point =? 0) || is_unicode_surrogate code_point.

(** The loop of [filter_code_points] *)
Fixpoint filter_loop (builder : bytes) (last_was_carriage_return : bool) (code_points : list Z) : bytes :=
  match code_points with
  | [] => builder
  | code_point :: code_points =>
      if code_point =? 13 then
        if last_was_carriage_return then filter_loop (builder ++ [10]) true code_points else filter_loop builder true code_points
      else
        let builder := if last_was_carriage_return then builder ++ [10] else builder in
        let builder :=
          if code_point =? 10 then if negb last_was_carriage_return then builder ++ [10] else builder
          else if code_point =? 12 then builder ++ [10]
          else if (code_point =? 0) || is_unicode_surrogate code_point then append_code_point builder 0xFFFD
          else append_code_point builder code_point in
        filter_loop builder false code_points
  end.

Definition filter_decoded (decoded_input : bytes) : bytes :=
  if existsb is_filterable (code_points decoded_input) then filter_loop [] false (code_points decoded_input) else decoded_input.

Definition filter_code_points (input encoding : bytes) : res bytes :=
  match decoder_for encoding with
  | None => Crash
  | Some decoder =>
      let* decoded_input := to_utf8 decoder input in
      Ret (filter_decoded decoded_input)
  end.

(** [Tokenizer::tokenize(StringView, StringView)] *)
Definition css_tokenize (input encoding : bytes) : res (list Token) :=
  let* decoded_input := filter_code_points input encoding in
  tokenize_decoded decoded_input.

End tokenizer.
