(* ===== verification/CssTokenizerFacts.v ===== *)
(** * The CSS tokenizer is total and loses nothing

    Every method consumes a prefix of the code points in front of the tokenizer,
    and its token, if it makes one, has the text of that prefix. *)

From S2P Require Import Prelude CharacterTypes Utf8 Utf16 MemMem Strings Tokens Wtf8 BinarySearch TextCodec Decoders DecoderSafety PatternTokenizer.
From S2P Require Import CodeUnits Lexer FloatTables FloatToDecimal FloatFacts FloatExact FloatTheorems FloatFormat CssTokens CssTokenizer.
Local Open Scope Z_scope.
Local Open Scope css_scope.

(** ** States *)

Abbreviation in_range := (Forall (fun cp : Z => 0 <= cp <= 0x10FFFF)).

(** The tokenizer after the bytes [a] and in front of the code points [cps] *)
Definition css_state (a : bytes) (cps : list Z) (prev : option bytes) (pos ppos : Position) : Tokenizer :=
  {| m_decoded_input := a ++ utf8_encode cps; m_utf8_iterator := utf8_encode cps; m_prev_utf8_iterator := prev;
     m_position := pos; m_prev_position := ppos |}.

(** The tokenizer when [c] has just been consumed *)
Definition css_after (a : bytes) (c : Z) (cps : list Z) (pos : Position) : Tokenizer :=
  css_state (a ++ utf8_encode [c]) cps (Some (utf8_encode (c :: cps))) (advance_position pos c) pos.

Definition advance_all (pos : Position) (x : list Z) : Position := fold_left advance_position x pos.

(** [t'] is the tokenizer after consuming [x] *)
Definition consumed (a : bytes) (cps : list Z) (pos : Position) (x : list Z) (t' : Tokenizer) : Prop :=
  exists rest prev ppos, cps = x ++ rest /\ t' = css_state (a ++ utf8_encode x) rest prev (advance_all pos x) ppos.

Definition hd_cp (cps : list Z) : Z := match cps with c :: _ => c | [] => TOKENIZER_EOF end.

Lemma encode_cons c cps : utf8_encode (c :: cps) = utf8_encode [c] ++ utf8_encode cps.
Proof. apply (utf8_encode_app [c] cps). Qed.

Lemma encode_head c cps : 0 <= c <= 0x10FFFF ->
  exists b0 rest, utf8_encode (c :: cps) = b0 :: rest /\ deref_at b0 rest = c /\ incr_at b0 rest = utf8_encode cps.
Proof.
  intros Hc. rewrite utf8_encode_cons by done. destruct (decode_encoded c (utf8_encode cps) Hc) as (b0 & tl & E & Hd & Hi & _). by exists b0, tl.
Qed.

Lemma value_at_encode cps : in_range cps -> value_at (utf8_encode cps) = hd_cp cps.
Proof. intros Hr. destruct cps as [|c cps]; [done|]. apply Forall_cons in Hr as [Hc _]. by destruct (encode_head c cps Hc) as (b0 & rest & -> & Hd & _). Qed.

Lemma step_iterator_encode cps : in_range cps -> step_iterator (utf8_encode cps) = utf8_encode (tail cps).
Proof. intros Hr. destruct cps as [|c cps]; [done|]. apply Forall_cons in Hr as [Hc _]. by destruct (encode_head c cps Hc) as (b0 & rest & -> & _ & Hi). Qed.

Lemma in_range_tail cps : in_range cps -> in_range (tail cps).
Proof. destruct 1; [constructor|done]. Qed.

Lemma encode_length_range cps : in_range cps -> (length cps <= length (utf8_encode cps))%nat.
Proof.
  induction 1 as [|c cps Hc _ IH]; [cbn; lia|]. rewrite utf8_encode_cons, length_app by done. pose proof (encoded_nonempty c) as Hn.
  destruct (encoded c); [done|]. cbn [length]. lia.
Qed.

Lemma consumed_nil a cps pos prev ppos : consumed a cps pos [] (css_state a cps prev pos ppos).
Proof. exists cps, prev, ppos. by rewrite app_nil_r. Qed.

Lemma consumed_after a c cps pos : consumed a (c :: cps) pos [c] (css_after a c cps pos).
Proof. by exists cps, (Some (utf8_encode (c :: cps))), pos. Qed.

Lemma consumed_trans a x cps pos y t : consumed (a ++ utf8_encode x) cps (advance_all pos x) y t -> consumed a (x ++ cps) pos (x ++ y) t.
Proof.
  intros (rest & prev & ppos & -> & ->). exists rest, prev, ppos. rewrite utf8_encode_app, !app_assoc. split; [done|]. unfold advance_all. by rewrite fold_left_app.
Qed.

Lemma consumed_after_trans a c cps pos y t : consumed (a ++ utf8_encode [c]) cps (advance_position pos c) y t -> consumed a (c :: cps) pos (c :: y) t.
Proof. apply (consumed_trans a [c] cps pos y t). Qed.

(** ** Steps *)

Lemma mbind_run {A B} (e : M A) (k : A -> M B) t v t' : e t = Ret (v, t') -> mbind e k t = k v t'.
Proof. intros E. unfold mbind. by rewrite E. Qed.

Lemma mloop_run {A} (f : nat -> M A) a cps prev pos ppos :
  mloop f (css_state a cps prev pos ppos) = f (S (length (utf8_encode cps))) (css_state a cps prev pos ppos).
Proof. done. Qed.

Lemma next_end a prev pos ppos : next_code_point (css_state a [] prev pos ppos) = Ret (TOKENIZER_EOF, css_state a [] prev pos ppos).
Proof. done. Qed.

Lemma next_cons a c cps prev pos ppos : 0 <= c <= 0x10FFFF -> next_code_point (css_state a (c :: cps) prev pos ppos) = Ret (c, css_after a c cps pos).
Proof.
  intros Hc. unfold next_code_point, css_after, css_state. cbn [m_utf8_iterator m_decoded_input m_position].
  destruct (encode_head c cps Hc) as (b0 & rest & E & Hd & Hi). rewrite E, Hd, Hi, <- E, encode_cons, app_assoc. done.
Qed.

Lemma reconsume_after a c cps pos :
  reconsume_current_input_code_point (css_after a c cps pos) = Ret (tt, css_state a (c :: cps) (Some (utf8_encode (c :: cps))) pos pos).
Proof. unfold reconsume_current_input_code_point, css_after, css_state. cbn [m_prev_utf8_iterator m_decoded_input m_prev_position].
  by rewrite <- app_assoc, <- encode_cons. Qed.

Lemma peek_code_point_run a cps prev pos ppos : in_range cps -> peek_code_point (css_state a cps prev pos ppos) = hd_cp cps.
Proof. intros Hr. by apply value_at_encode. Qed.

Lemma peek_twin_run a cps prev pos ppos : in_range cps -> peek_twin (css_state a cps prev pos ppos) = (hd_cp cps, hd_cp (tail cps)).
Proof. intros Hr. unfold peek_twin. cbn [m_utf8_iterator css_state]. by rewrite step_iterator_encode, !value_at_encode by (done || by apply in_range_tail). Qed.

Lemma peek_triplet_run a cps prev pos ppos : in_range cps ->
  peek_triplet (css_state a cps prev pos ppos) = (hd_cp cps, hd_cp (tail cps), hd_cp (tail (tail cps))).
Proof.
  intros Hr. unfold peek_triplet. cbn [m_utf8_iterator css_state]. by rewrite !step_iterator_encode, !value_at_encode by (done || by repeat apply in_range_tail).
Qed.

Lemma twin_after a c cps pos : in_range (c :: cps) -> start_of_input_stream_twin (css_after a c cps pos) = Ret (c, hd_cp cps, css_after a c cps pos).
Proof.
  intros Hr. apply Forall_cons in Hr as [Hc Hr]. unfold start_of_input_stream_twin. erewrite mbind_run by apply reconsume_after. erewrite mbind_run by by apply next_cons.
  unfold mbind, mget, css_after. by rewrite peek_code_point_run.
Qed.

Lemma triplet_after a c cps pos : in_range (c :: cps) ->
  start_of_input_stream_triplet (css_after a c cps pos) = Ret (c, hd_cp cps, hd_cp (tail cps), css_after a c cps pos).
Proof.
  intros Hr. apply Forall_cons in Hr as [Hc Hr]. unfold start_of_input_stream_triplet. erewrite mbind_run by apply reconsume_after.
  erewrite mbind_run by by apply next_cons. unfold mbind, mget, css_after. by rewrite peek_twin_run.
Qed.

Lemma offset_run a cps prev pos ppos : current_byte_offset (css_state a cps prev pos ppos) = length a.
Proof. unfold current_byte_offset. cbn [m_decoded_input m_utf8_iterator css_state]. rewrite length_app. lia. Qed.

Lemma input_since_run a x cps prev pos ppos : input_since (length a) (css_state (a ++ x) cps prev pos ppos) = Ret x.
Proof.
  unfold input_since. rewrite offset_run, length_app. rewrite (proj2 (Nat.leb_le _ _)) by lia. cbn [verify]. unfold substring_view. cbn [m_decoded_input css_state].
  rewrite (proj2 (Nat.leb_le _ _)) by (rewrite !length_app; lia). cbn [verify]. rewrite <- app_assoc, drop_app_length, Nat.add_comm, Nat.add_sub, take_app_length. done.
Qed.

Lemma mget_run {A} (f : Tokenizer -> A) t : mget f t = Ret (f t, t).
Proof. done. Qed.

Lemma mget_res_run {A} (f : Tokenizer -> res A) t v : f t = Ret v -> mget_res f t = Ret (v, t).
Proof. intros E. unfold mget_res. by rewrite E. Qed.

(** ** A program logic

    [spec f cps Q a]: in front of [cps], after the bytes [a], the method [f]
    returns; it consumes some [x] of [cps] and returns a [v] with [Q x v].
    [spec_after f c cps Q a] is the same when [c] has just been consumed, with [x]
    counted from before [c]. *)

Definition spec {A} (f : M A) (cps : list Z) (Q : list Z -> A -> Prop) (a : bytes) : Prop :=
  forall prev pos ppos, exists x v t', f (css_state a cps prev pos ppos) = Ret (v, t') /\ consumed a cps pos x t' /\ Q x v.

Definition spec_after {A} (f : M A) (c : Z) (cps : list Z) (Q : list Z -> A -> Prop) (a : bytes) : Prop :=
  forall pos, exists x v t', f (css_after a c cps pos) = Ret (v, t') /\ consumed a (c :: cps) pos x t' /\ Q x v.

Section rules.
Context {A B : Type}.
Implicit Types (R : list Z -> B -> Prop) (k : A -> M B) (f : M B).

Lemma spec_weaken f cps (Q R : list Z -> B -> Prop) a : spec f cps Q a -> (forall x v rest, cps = x ++ rest -> Q x v -> R x v) -> spec f cps R a.
Proof.
  intros Hf HQ prev pos ppos. destruct (Hf prev pos ppos) as (x & v & t & E & Hc & Hq). exists x, v, t. split; [done|]. split; [done|].
  destruct Hc as (rest & _ & _ & -> & _). by eapply HQ.
Qed.

Lemma spec_ret v cps R a : R [] v -> spec (mreturn v) cps R a.
Proof. intros Hr prev pos ppos. eexists [], v, _. split; [done|]. split; [apply consumed_nil|done]. Qed.

Lemma spec_lift (e : res B) v cps R a : e = Ret v -> R [] v -> spec (mlift e) cps R a.
Proof. intros -> Hr. by apply spec_ret. Qed.

Lemma spec_bind (e : M A) k cps Q R a : spec e cps Q a ->
  (forall x v rest, cps = x ++ rest -> Q x v -> spec (k v) rest (fun y w => R (x ++ y) w) (a ++ utf8_encode x)) -> spec (mbind e k) cps R a.
Proof.
  intros He Hk prev pos ppos. destruct (He prev pos ppos) as (x & v & t & E & (rest & p & pp & Hcps & ->) & Hq).
  destruct (Hk x v rest Hcps Hq p (advance_all pos x) pp) as (y & w & t & Ek & Hy & Hr). exists (x ++ y), w, t.
  split; [by rewrite (mbind_run _ _ _ _ _ E)|]. split; [|done]. rewrite Hcps. by apply consumed_trans.
Qed.

Lemma spec_loop (g : nat -> M B) cps R a : spec (g (S (length (utf8_encode cps)))) cps R a -> spec (mloop g) cps R a.
Proof. done. Qed.

(** *** Reading members *)

Lemma spec_get (g : Tokenizer -> A) v k cps R a : (forall prev pos ppos, g (css_state a cps prev pos ppos) = v) -> spec (k v) cps R a -> spec (mbind (mget g) k) cps R a.
Proof. intros Hg Hk prev pos ppos. destruct (Hk prev pos ppos) as (x & w & t & E & H). exists x, w, t. split; [|done]. unfold mbind, mget. by rewrite Hg. Qed.

Lemma spec_get_res (g : Tokenizer -> res A) v k cps R a :
  (forall prev pos ppos, g (css_state a cps prev pos ppos) = Ret v) -> spec (k v) cps R a -> spec (mbind (mget_res g) k) cps R a.
Proof. intros Hg Hk prev pos ppos. destruct (Hk prev pos ppos) as (x & w & t & E & H). exists x, w, t. split; [|done]. unfold mbind, mget_res. by rewrite Hg. Qed.

Lemma spec_lift_bind (e : res A) v k cps R a : e = Ret v -> spec (k v) cps R a -> spec (mbind (mlift e) k) cps R a.
Proof. by intros ->. Qed.

Lemma spec_after_get (g : Tokenizer -> A) v k c cps R a :
  (forall prev pos ppos, g (css_state (a ++ utf8_encode [c]) cps prev pos ppos) = v) -> spec_after (k v) c cps R a -> spec_after (mbind (mget g) k) c cps R a.
Proof. intros Hg Hk pos. destruct (Hk pos) as (x & w & t & E & H). exists x, w, t. split; [|done]. unfold mbind, mget, css_after. by rewrite Hg. Qed.

(** *** After a code point *)

Lemma spec_after_intro f c cps R a : spec f cps (fun y w => R (c :: y) w) (a ++ utf8_encode [c]) -> spec_after f c cps R a.
Proof.
  intros Hf pos. destruct (Hf (Some (utf8_encode (c :: cps))) (advance_position pos c) pos) as (y & w & t & E & Hc & Hr). exists (c :: y), w, t.
  split; [done|]. split; [by apply consumed_after_trans|done].
Qed.

Lemma spec_after_reconsume f c cps R a : spec f (c :: cps) R a -> spec_after (reconsume_current_input_code_point;;; f) c cps R a.
Proof.
  intros Hf pos. destruct (Hf (Some (utf8_encode (c :: cps))) pos pos) as (y & w & t & E & Hc & Hr). exists y, w, t. split; [|done].
  erewrite mbind_run by apply reconsume_after. done.
Qed.
End rules.

Lemma spec_next_cons {B} (k : Z -> M B) c cps R a : in_range (c :: cps) -> spec_after (k c) c cps R a -> spec (mbind next_code_point k) (c :: cps) R a.
Proof.
  intros Hr Hk prev pos ppos. apply Forall_cons in Hr as [Hc _]. destruct (Hk pos) as (x & w & t & E & H). exists x, w, t. split; [|done].
  by erewrite mbind_run by by apply next_cons.
Qed.

Lemma spec_next_end {B} (k : Z -> M B) R a : spec (k TOKENIZER_EOF) [] R a -> spec (mbind next_code_point k) [] R a.
Proof. intros Hk prev pos ppos. exact (Hk prev pos ppos). Qed.

Lemma spec_after_twin {B} (k : Z * Z -> M B) c cps R a : in_range (c :: cps) -> spec_after (k (c, hd_cp cps)) c cps R a ->
  spec_after (mbind start_of_input_stream_twin k) c cps R a.
Proof. intros Hr Hk pos. destruct (Hk pos) as (x & w & t & E & H). exists x, w, t. split; [|done]. by erewrite mbind_run by by apply twin_after. Qed.

Lemma spec_after_triplet {B} (k : Z * Z * Z -> M B) c cps R a : in_range (c :: cps) -> spec_after (k (c, hd_cp cps, hd_cp (tail cps))) c cps R a ->
  spec_after (mbind start_of_input_stream_triplet k) c cps R a.
Proof. intros Hr Hk pos. destruct (Hk pos) as (x & w & t & E & H). exists x, w, t. split; [|done]. by erewrite mbind_run by by apply triplet_after. Qed.

Lemma spec_peek {B} (k : Z -> M B) cps R a : in_range cps -> spec (k (hd_cp cps)) cps R a -> spec (mbind (mget peek_code_point) k) cps R a.
Proof. intros Hr. apply spec_get. intros. by apply peek_code_point_run. Qed.

Lemma spec_twin {B} (k : Z * Z -> M B) cps R a : in_range cps -> spec (k (hd_cp cps, hd_cp (tail cps))) cps R a -> spec (mbind (mget peek_twin) k) cps R a.
Proof. intros Hr. apply spec_get. intros. by apply peek_twin_run. Qed.

Lemma spec_triplet {B} (k : Z * Z * Z -> M B) cps R a : in_range cps -> spec (k (hd_cp cps, hd_cp (tail cps), hd_cp (tail (tail cps)))) cps R a ->
  spec (mbind (mget peek_triplet) k) cps R a.
Proof. intros Hr. apply spec_get. intros. by apply peek_triplet_run. Qed.

Lemma spec_offset {B} (k : nat -> M B) cps R a : spec (k (length a)) cps R a -> spec (mbind (mget current_byte_offset) k) cps R a.
Proof. apply spec_get. intros. apply offset_run. Qed.

Lemma spec_source {B} (k : bytes -> M B) cps R a y : spec (k y) cps R (a ++ y) -> spec (mbind (mget_res (input_since (length a))) k) cps R (a ++ y).
Proof. apply spec_get_res. intros. apply input_since_run. Qed.

(** Consuming a code point whose value is not used *)
Lemma spec_skip {B} (f : M B) c cps R a : in_range (c :: cps) -> spec f cps (fun y w => R (c :: y) w) (a ++ utf8_encode [c]) ->
  spec (mbind next_code_point (fun _ => f)) (c :: cps) R a.
Proof. intros Hr Hf. apply spec_next_cons; [done|]. by apply spec_after_intro. Qed.

(** ** Escapes and sequences *)

Lemma hd_in_range cps : in_range cps -> hd_cp cps = TOKENIZER_EOF \/ 0 <= hd_cp cps <= 0x10FFFF.
Proof. destruct 1; [by left|by right]. Qed.

Lemma hd_not_eof c cps : in_range (c :: cps) -> is_eof c = false.
Proof. intros Hr. apply Forall_cons in Hr as [Hc _]. unfold is_eof, TOKENIZER_EOF. lia. Qed.

(** A class of code points that the end of the input is not in *)
Lemma hd_class (p : Z -> bool) cps : p TOKENIZER_EOF = false -> p (hd_cp cps) = true -> exists c rest, cps = c :: rest /\ p c = true.
Proof. intros He Hp. destruct cps as [|c rest]; [cbn in Hp; congruence|]. by exists c, rest. Qed.

Lemma hex_digits_equal c : is_hex_digit c = is_ascii_hex_digit c.
Proof. unfold is_hex_digit, is_digit. ascii_lia. Qed.

Lemma append_run r c : 0 <= c < 128 -> append_code_point r c = r ++ [c].
Proof. apply append_code_point_ascii. Qed.

Lemma append_wtf8 r c : 0 <= c <= 0x10FFFF -> wtf8 r -> wtf8 (append_code_point r c).
Proof. intros Hc Hr. rewrite append_code_point_encoded by done. apply wtf8_app; [done|by apply wtf8_encoded]. Qed.

Lemma append_nonempty r c : 0 <= c <= 0x10FFFF -> append_code_point r c <> [].
Proof. intros Hc. rewrite append_code_point_encoded by done. intros E. apply app_eq_nil in E as [_ E]. by apply encoded_nonempty in E. Qed.

Lemma hex_loop_spec n : forall cps b a, in_range cps ->
  spec (hex_digits_loop n b) cps (fun x v => x = take n (take_while is_hex_digit cps) /\ v = b ++ x) a.
Proof.
  induction n as [|n IH]; intros cps b a Hr; cbn [hex_digits_loop]; [apply spec_ret; by rewrite app_nil_r|].
  apply spec_peek; [done|]. destruct (is_hex_digit (hd_cp cps)) eqn:E.
  - apply hd_class in E as (c & rest & -> & Hc); [|done]. apply spec_next_cons; [done|]. apply spec_after_intro.
    eapply spec_weaken; [apply IH; by apply Forall_cons in Hr as [_ Hr]|]. intros x v _ _ [-> ->]. cbn [take_while]. rewrite Hc. cbn [take]. split; [done|].
    rewrite append_run by (unfold is_hex_digit, is_digit in Hc; lia). by rewrite <- app_assoc.
  - apply spec_ret. rewrite app_nil_r. destruct cps as [|c cps]; [done|]. cbn [hd_cp] in E. cbn [take_while]. by rewrite E.
Qed.

(** The text of an escape after the backslash, and its value *)
Definition escape_digits (cps : list Z) : list Z := take 6 (take_while is_hex_digit cps).
Definition escape_text (cps : list Z) : list Z :=
  if is_hex_digit (hd_cp cps) then
    let ds := escape_digits cps in
    ds ++ if is_whitespace (hd_cp (drop (length ds) cps)) then [hd_cp (drop (length ds) cps)] else []
  else take 1 cps.
Definition escape_value (cps : list Z) : Z :=
  if is_hex_digit (hd_cp cps) then
    let value := digits_value 16 (escape_digits cps) in
    if (value =? 0) || is_unicode_surrogate value || (0x10FFFF <? value) then 0xFFFD else value
  else if is_eof (hd_cp cps) then 0xFFFD else hd_cp cps.

Lemma take_while_prefix p n cps : exists rest, cps = take n (take_while p cps) ++ rest.
Proof. exists (drop n (take_while p cps) ++ drop_while p cps). by rewrite app_assoc, take_drop, take_drop_while. Qed.

Lemma hex_forall cps n : Forall (fun c => is_hex_digit c = true) (take n (take_while is_hex_digit cps)).
Proof. apply Forall_take, take_while_forall. Qed.

Lemma hex_bound s : Forall (fun c => is_hex_digit c = true) s -> 0 <= digits_value 16 s < 16 ^ Z.of_nat (length s).
Proof.
  induction s as [|c s IH] using rev_ind; [done|]. intros [Hs Hc]%Forall_app. apply Forall_cons in Hc as [Hc _]. rewrite digits_value_app, length_app. cbn [length].
  rewrite Nat2Z.inj_add, Z.pow_add_r by lia. specialize (IH Hs). rewrite hex_digits_equal in Hc.
  pose proof (hex_value_range c Hc). lia.
Qed.

Lemma escape_value_range cps : in_range cps -> 0 <= escape_value cps <= 0x10FFFF.
Proof.
  intros Hr. unfold escape_value. destruct (is_hex_digit (hd_cp cps)).
  - pose proof (hex_bound _ (hex_forall cps 6)) as Hb. fold (escape_digits cps) in Hb. destruct (_ || _) eqn:E; [lia|]. lia.
  - destruct cps as [|c cps]; [done|]. cbn [hd_cp]. rewrite (hd_not_eof c cps Hr). by apply Forall_cons in Hr as [Hc _].
Qed.

Section methods.
Context `{LookupTables} `{Simdutf} `{SimdutfUtf16} `{FastFloatLaws} `{FastFloatDoubleSyntaxLaws}.

Lemma unhex_run ds : ds <> [] -> Forall (fun c => is_hex_digit c = true) ds -> (length ds <= 6)%nat ->
  default 0 (parse_number (2 ^ 32 - 1) (trim_whitespace ds) 16) = digits_value 16 ds.
Proof.
  intros Hne Hd Hl. rewrite trim_whitespace_id.
  2:{ eapply Forall_impl; [exact Hd|]. intros c Hc. unfold is_hex_digit, is_digit in Hc. unfold contains_char, whitespace_characters. cbn [existsb]. lia. }
  rewrite parse_number_digits; [|done|].
  - pose proof (hex_bound ds Hd) as Hb. assert (16 ^ Z.of_nat (length ds) <= 16 ^ 6) by (apply Z.pow_le_mono_r; lia).
    rewrite (proj2 (Z.leb_le _ _)) by lia. done.
  - apply forallb_Forall_iff. eapply Forall_impl; [exact Hd|]. intros c Hc. cbn beta in Hc. by rewrite hex_digits_equal in Hc.
Qed.

Lemma escape_spec cps a : in_range cps -> spec consume_escaped_code_point cps (fun x v => x = escape_text cps /\ v = escape_value cps) a.
Proof.
  intros Hr. unfold consume_escaped_code_point. destruct cps as [|c cps].
  { apply spec_next_end. by apply spec_ret. }
  apply spec_next_cons; [done|]. apply spec_after_intro. pose proof Hr as Hr'. apply Forall_cons in Hr' as [Hc Hcps].
  unfold escape_text, escape_value. cbn [hd_cp]. destruct (is_hex_digit c) eqn:E; [|by destruct (is_eof c); apply spec_ret].
  assert (Hds : escape_digits (c :: cps) = c :: take 5 (take_while is_hex_digit cps)) by (unfold escape_digits; cbn [take_while]; rewrite E; done).
  eapply spec_bind; [by apply hex_loop_spec|]. cbv beta. intros x v rest Ecps [Ex ->].
  assert (Hrest : drop (length (escape_digits (c :: cps))) (c :: cps) = rest).
  { rewrite Hds. cbn [length drop]. rewrite <- Ex, Ecps. apply drop_app_length. }
  rewrite Hrest, Hds, <- Ex. assert (Hrr : in_range rest) by (rewrite Ecps in Hcps; by apply Forall_app in Hcps as [_ ?]).
  assert (Hval : append_code_point [] c ++ x = c :: x) by (rewrite append_run by (unfold is_hex_digit, is_digit in E; lia); done).
  rewrite Hval. assert (Hun : default 0 (parse_number (2 ^ 32 - 1) (trim_whitespace (c :: x)) 16) = digits_value 16 (c :: x)).
  { apply unhex_run; [done|constructor; [done|rewrite Ex; apply hex_forall]|]. rewrite Ex. cbn [length]. rewrite length_take. lia. }
  apply spec_peek; [done|]. rewrite Hun. unfold is_greater_than_maximum_allowed_code_point.
  destruct (is_whitespace (hd_cp rest)) eqn:Ew.
  - apply hd_class in Ew as (w & rest' & -> & Hw); [|done]. eapply spec_bind with (Q := fun y _ => y = [w]).
    { apply spec_skip; [done|]. by apply spec_ret. }
    intros y _ rest'' _ ->. destruct (_ || _); apply spec_ret; cbn [hd_cp]; by rewrite app_nil_r.
  - eapply spec_bind with (Q := fun y _ => y = []); [by apply spec_ret|]. intros y _ rest'' _ ->. destruct (_ || _); apply spec_ret; by rewrite !app_nil_r.
Qed.

Lemma loop_fuel cps : in_range cps -> (length cps < S (length (utf8_encode cps)))%nat.
Proof. intros Hr. pose proof (encode_length_range cps Hr). lia. Qed.

Lemma whitespace_loop_spec fuel : forall cps a, in_range cps -> (length cps < fuel)%nat ->
  spec (whitespace_loop fuel) cps (fun x _ => x = take_while is_whitespace cps) a.
Proof.
  induction fuel as [|fuel IH]; intros cps a Hr Hf; [lia|]. cbn [whitespace_loop]. apply spec_peek; [done|]. destruct (is_whitespace (hd_cp cps)) eqn:E.
  - apply hd_class in E as (c & rest & -> & Hc); [|done]. apply spec_skip; [done|]. eapply spec_weaken; [apply IH; [by apply Forall_cons in Hr as [_ Hr]|cbn in Hf; lia]|].
    intros x v _ _ ->. cbn [take_while]. by rewrite Hc.
  - apply spec_ret. destruct cps as [|c cps]; [done|]. cbn [hd_cp] in E. cbn [take_while]. by rewrite E.
Qed.

Lemma whitespace_spec cps a : in_range cps -> spec consume_as_much_whitespace_as_possible cps (fun x _ => x = take_while is_whitespace cps) a.
Proof. intros Hr. apply spec_loop, whitespace_loop_spec; [done|by apply loop_fuel]. Qed.

Definition starts_ident (cps : list Z) : bool := is_ident_code_point (hd_cp cps) || is_valid_escape_sequence (hd_cp cps, hd_cp (tail cps)).

(** The rest of the input, after some of it *)
Lemma in_range_rest x rest cps : cps = x ++ rest -> in_range cps -> in_range rest.
Proof. intros -> Hr. by apply Forall_app in Hr as [_ ?]. Qed.

Lemma ident_loop_spec fuel : forall cps r a, in_range cps -> (length cps < fuel)%nat -> wtf8 r ->
  spec (ident_sequence_loop fuel r) cps (fun x v => wtf8 v /\ (r <> [] \/ starts_ident cps = true -> v <> []) /\ (starts_ident cps = true -> x <> [])) a.
Proof.
  induction fuel as [|fuel IH]; intros cps r a Hr Hf Hw; [lia|]. cbn [ident_sequence_loop]. destruct cps as [|c cps].
  { apply spec_next_end, spec_ret. split; [done|]. split; [by intros [?|?]|done]. }
  apply spec_next_cons; [done|]. rewrite (hd_not_eof c cps Hr). pose proof Hr as Hr'. apply Forall_cons in Hr' as [Hc Hcps]. unfold starts_ident. cbn [hd_cp tail].
  destruct (is_ident_code_point c) eqn:Ei.
  { apply spec_after_intro. eapply spec_weaken; [apply IH; [done|cbn in Hf; lia|by apply append_wtf8]|]. cbn [orb]. intros x v _ _ (H1' & H2' & _).
    split; [done|]. split; [intros _; apply H2'; left; by apply append_nonempty|done]. }
  apply spec_after_twin; [done|]. cbn [orb]. destruct (is_valid_escape_sequence _) eqn:Ev.
  - apply spec_after_intro. eapply spec_bind; [by apply escape_spec|]. cbv beta. intros x v rest Ecps [_ ->].
    assert (Hrest : in_range rest) by by eapply in_range_rest. pose proof (escape_value_range cps Hcps) as Hv.
    eapply spec_weaken; [apply IH; [done|rewrite Ecps in Hf; cbn [length] in Hf; rewrite length_app in Hf; lia|by apply append_wtf8]|]. intros y w _ _ (H1' & H2' & _).
    split; [done|]. split; [intros _; apply H2'; left; by apply append_nonempty|done].
  - apply spec_after_reconsume, spec_ret. split; [done|]. split; [by intros [?|?]|done].
Qed.

Lemma ident_spec cps a : in_range cps ->
  spec consume_an_ident_sequence cps (fun x v => wtf8 v /\ (starts_ident cps = true -> v <> [] /\ x <> [])) a.
Proof.
  intros Hr. apply spec_loop. eapply spec_weaken; [apply ident_loop_spec; [done|by apply loop_fuel|apply wtf8_nil]|]. cbv beta. intros x v _ _ (H1' & H2' & H3').
  split; [done|]. intros Hs. split; [apply H2'; by right|by apply H3'].
Qed.

Lemma bad_url_loop_spec fuel : forall cps a, in_range cps -> (length cps < fuel)%nat -> spec (bad_url_loop fuel) cps (fun _ _ => True) a.
Proof.
  induction fuel as [|fuel IH]; intros cps a Hr Hf; [lia|]. cbn [bad_url_loop]. destruct cps as [|c cps]; [by apply spec_next_end, spec_ret|].
  apply spec_next_cons; [done|]. pose proof Hr as Hr'. apply Forall_cons in Hr' as [Hc Hcps]. destruct (_ || _); [by apply spec_after_intro, spec_ret|].
  apply spec_after_twin; [done|]. apply spec_after_intro. destruct (is_valid_escape_sequence _).
  - eapply spec_bind; [by apply escape_spec|]. cbv beta. intros x v rest Ecps _. apply IH; [by eapply in_range_rest|].
    rewrite Ecps in Hf. cbn [length] in Hf. rewrite length_app in Hf. lia.
  - apply IH; [done|cbn in Hf; lia].
Qed.

(** ** Tokens of URLs and identifiers *)

(** A token of the text [x], which is not the end of the input *)
Definition token_of (x : list Z) (token : Token) : Prop :=
  m_original_source_text token = utf8_encode x /\ m_type token <> EndOfFile /\ m_type token <> Invalid /\ wtf8 (m_value token) /\
  (m_type token = Delim -> m_value token <> []).

Lemma spec_url_token builder a y cps : wtf8 builder ->
  spec (url_token builder (length a)) cps (fun x token => token_of (y ++ x) token) (a ++ utf8_encode y).
Proof. intros Hw. unfold url_token. apply spec_source, spec_ret. rewrite app_nil_r. by repeat split. Qed.

Lemma spec_valueless type a y cps : has_no_value type = true -> type <> EndOfFile -> type <> Invalid ->
  spec (valueless_token type (length a)) cps (fun x token => token_of (y ++ x) token) (a ++ utf8_encode y).
Proof.
  intros Ht He Hi. unfold valueless_token. apply spec_source. unfold create_token. rewrite Ht. eapply spec_lift; [done|]. rewrite app_nil_r.
  repeat split; [done..|apply wtf8_nil|]. cbn [m_type plain_token]. by intros ->.
Qed.

Lemma spec_bad_url a y cps : in_range cps -> spec (bad_url_token (length a)) cps (fun x token => token_of (y ++ x) token) (a ++ utf8_encode y).
Proof.
  intros Hr. unfold bad_url_token. eapply spec_bind; [apply spec_loop, bad_url_loop_spec; [done|by apply loop_fuel]|]. cbv beta. intros x [] rest _ _.
  rewrite <- app_assoc, <- utf8_encode_app. eapply spec_weaken; [by apply spec_valueless|]. intros z v _ _ Hv. cbv beta in Hv. by rewrite <- app_assoc in Hv.
Qed.

(** A specification that counts from an earlier place *)
Lemma spec_shift {B} (f : M B) a y z cps (R : list Z -> B -> Prop) :
  spec f cps (fun x v => R ((y ++ z) ++ x) v) (a ++ utf8_encode (y ++ z)) -> spec f cps (fun x v => R (y ++ z ++ x) v) ((a ++ utf8_encode y) ++ utf8_encode z).
Proof.
  rewrite utf8_encode_app, app_assoc. intros Hf. eapply spec_weaken; [exact Hf|]. cbv beta. intros x v _ _ Hv. by rewrite <- app_assoc in Hv.
Qed.

Lemma spec_shift_cons {B} (f : M B) a y c cps (R : list Z -> B -> Prop) :
  spec f cps (fun x v => R ((y ++ [c]) ++ x) v) (a ++ utf8_encode (y ++ [c])) -> spec f cps (fun x v => R (y ++ c :: x) v) ((a ++ utf8_encode y) ++ utf8_encode [c]).
Proof. apply (spec_shift f a y [c] cps R). Qed.

Lemma url_loop_spec fuel : forall cps builder a y, in_range cps -> (length cps < fuel)%nat -> wtf8 builder ->
  spec (url_loop fuel (length a) builder) cps (fun x token => token_of (y ++ x) token) (a ++ utf8_encode y).
Proof.
  induction fuel as [|fuel IH]; intros cps builder a y Hr Hf Hw; [lia|]. cbn [url_loop]. destruct cps as [|c cps].
  { apply spec_next_end. cbn [Z.eqb TOKENIZER_EOF Pos.eqb]. by apply spec_url_token. }
  apply spec_next_cons; [done|]. rewrite (hd_not_eof c cps Hr). pose proof Hr as Hr'. apply Forall_cons in Hr' as [Hc Hcps].
  assert (Hgo : forall b, wtf8 b -> spec (url_loop fuel (length a) b) cps (fun x token => token_of (y ++ c :: x) token) ((a ++ utf8_encode y) ++ utf8_encode [c])).
  { intros b Hb. apply spec_shift_cons, IH; [done|cbn in Hf; lia|done]. }
  destruct (c =? 41); [apply spec_after_intro, spec_shift_cons; by apply spec_url_token|].
  assert (Hbad : forall rest z, in_range rest -> spec (bad_url_token (length a)) rest (fun x token => token_of (y ++ z ++ x) token) ((a ++ utf8_encode y) ++ utf8_encode z))
    by (intros rest z Hrest; by apply spec_shift, spec_bad_url).
  destruct (is_whitespace c).
  { apply spec_after_intro. eapply spec_bind; [by apply whitespace_spec|]. cbv beta. intros x [] rest Ecps _. assert (Hrest : in_range rest) by by eapply in_range_rest.
    rewrite <- app_assoc, <- encode_cons. apply spec_peek; [done|].
    apply (spec_shift _ a y (c :: x)). destruct rest as [|d rest].
    - cbn [hd_cp Z.eqb TOKENIZER_EOF Pos.eqb orb]. apply spec_next_end. by apply spec_url_token.
    - cbn [hd_cp]. rewrite (hd_not_eof d rest Hrest), orb_false_r. destruct (d =? 41); [|by apply spec_bad_url].
      apply spec_skip; [done|]. apply spec_shift_cons. by apply spec_url_token. }
  destruct (_ || is_non_printable_code_point c); [apply spec_after_intro; by apply (Hbad cps [c])|].
  destruct (c =? 92); [|apply spec_after_intro, Hgo; by apply append_wtf8].
  apply spec_after_twin; [done|]. apply spec_after_intro. destruct (is_valid_escape_sequence _); [|by apply (Hbad cps [c])].
  eapply spec_bind; [by apply escape_spec|]. cbv beta. intros x v rest Ecps [_ ->]. rewrite <- app_assoc, <- encode_cons. apply (spec_shift _ a y (c :: x)).
  apply IH; [by eapply in_range_rest| |apply append_wtf8; [by apply escape_value_range|done]]. rewrite Ecps in Hf. cbn [length] in Hf. rewrite length_app in Hf. lia.
Qed.

Lemma url_token_spec cps a y : in_range cps ->
  spec (consume_a_url_token (length a)) cps (fun x token => token_of (y ++ x) token) (a ++ utf8_encode y).
Proof.
  intros Hr. unfold consume_a_url_token. eapply spec_bind; [by apply whitespace_spec|]. cbv beta. intros x [] rest Ecps _. apply spec_shift.
  assert (Hrest : in_range rest) by by eapply in_range_rest. apply spec_loop, url_loop_spec; [done|by apply loop_fuel|apply wtf8_nil].
Qed.

Lemma whitespace_twin_spec fuel : forall cps a, in_range cps -> (length cps < fuel)%nat -> spec (whitespace_twin_loop fuel) cps (fun _ _ => True) a.
Proof.
  induction fuel as [|fuel IH]; intros cps a Hr Hf; [lia|]. cbn [whitespace_twin_loop]. apply spec_twin; [done|].
  destruct (is_whitespace (hd_cp cps)) eqn:E; [|by apply spec_ret]. cbn [andb]. destruct (is_whitespace (hd_cp (tail cps))); [|by apply spec_ret].
  apply hd_class in E as (c & rest & -> & Hc); [|done]. apply spec_skip; [done|]. apply IH; [by apply Forall_cons in Hr as [_ Hr]|cbn in Hf; lia].
Qed.

(** Returning a token of the text so far *)
Lemma spec_return_token (make : bytes -> Token) a x cps :
  (forall source, m_original_source_text (make source) = source) ->
  (forall source, m_type (make source) <> EndOfFile /\ m_type (make source) <> Invalid /\ wtf8 (m_value (make source)) /\ (m_type (make source) = Delim -> m_value (make source) <> [])) ->
  spec (do* source := mget_res (input_since (length a)) in mreturn (make source)) cps (fun y token => token_of (x ++ y) token) (a ++ utf8_encode x).
Proof.
  intros Hs Ht. apply spec_source, spec_ret. rewrite app_nil_r. split; [apply Hs|apply Ht].
Qed.

Lemma ident_like_spec cps a : in_range cps -> starts_ident cps = true ->
  spec consume_an_ident_like_token cps (fun x token => token_of x token /\ x <> []) a.
Proof.
  intros Hr Hs. unfold consume_an_ident_like_token. apply spec_offset. eapply spec_bind; [by apply ident_spec|]. cbv beta. intros x string rest Ecps [Hw Hx].
  destruct (Hx Hs) as [_ Hne]. assert (Hrest : in_range rest) by by eapply in_range_rest. apply spec_peek; [done|].
  assert (Hweak : forall (f : M Token), spec f rest (fun y token => token_of (x ++ y) token) (a ++ utf8_encode x)
    -> spec f rest (fun y token => token_of (x ++ y) token /\ x ++ y <> []) (a ++ utf8_encode x)).
  { intros f Hf. eapply spec_weaken; [exact Hf|]. intros y v _ _ Hv. split; [done|]. by destruct x. }
  apply Hweak. destruct (equals_ignoring_ascii_case string _ && _) eqn:E.
  - apply andb_prop in E as [_ E]. destruct rest as [|c rest]; [done|]. apply spec_skip; [done|]. apply Forall_cons in Hrest as [Hc Hrest]. apply spec_shift_cons.
    eapply spec_bind; [apply spec_loop, whitespace_twin_spec; [done|by apply loop_fuel]|]. cbv beta. intros z [] rest' Erest _. apply spec_shift.
    assert (Hrest' : in_range rest') by by eapply in_range_rest. apply spec_twin; [done|]. destruct (_ || _); [by apply spec_return_token|by apply url_token_spec].
  - destruct (hd_cp rest =? 40) eqn:Eh; [|by apply spec_return_token]. destruct rest as [|c rest]; [done|]. apply spec_skip; [done|]. apply spec_shift_cons.
    by apply spec_return_token.
Qed.

(** ** Numbers *)

Lemma digit_classes c : is_digit c = is_ascii_digit c.
Proof. done. Qed.

Lemma append_next_spec r c cps a : in_range (c :: cps) -> 0 <= c < 128 -> spec (append_next r) (c :: cps) (fun x v => x = [c] /\ v = r ++ [c]) a.
Proof. intros Hr Hc. apply spec_next_cons; [done|]. apply spec_after_intro, spec_ret. by rewrite append_run. Qed.

Lemma digits_loop_spec fuel : forall cps r a, in_range cps -> (length cps < fuel)%nat ->
  spec (digits_loop fuel r) cps (fun x v => x = take_while is_ascii_digit cps /\ v = r ++ x) a.
Proof.
  induction fuel as [|fuel IH]; intros cps r a Hr Hf; [lia|]. cbn [digits_loop]. apply spec_peek; [done|]. destruct (is_digit (hd_cp cps)) eqn:E.
  - apply hd_class in E as (c & rest & -> & Hc); [|done]. pose proof Hr as Hr'. apply Forall_cons in Hr' as [_ Hr'].
    eapply spec_bind; [apply append_next_spec; [done|unfold is_digit in Hc; lia]|]. cbv beta. intros x v rest' Erest [-> ->]. injection Erest as <-.
    eapply spec_weaken; [apply IH; [done|cbn in Hf; lia]|]. intros y w _ _ [-> ->]. cbn [take_while app]. rewrite digit_classes in Hc. rewrite Hc, <- app_assoc. done.
  - apply spec_ret. rewrite app_nil_r. destruct cps as [|c cps]; [done|]. cbn [hd_cp] in E. rewrite digit_classes in E. cbn [take_while]. by rewrite E.
Qed.

Lemma consume_digits_spec cps r a : in_range cps -> spec (consume_digits r) cps (fun x v => x = take_while is_ascii_digit cps /\ v = r ++ x) a.
Proof. intros Hr. apply spec_loop, digits_loop_spec; [done|by apply loop_fuel]. Qed.

Lemma hd_digit cps : is_digit (hd_cp cps) = true -> take_while is_ascii_digit cps <> [].
Proof. intros E. apply hd_class in E as (c & rest & -> & Hc); [|done]. rewrite digit_classes in Hc. cbn [take_while]. by rewrite Hc. Qed.

Lemma digits_cons d rest : is_digit d = true -> digits (d :: take_while is_ascii_digit rest).
Proof. intros Hd. split; [done|]. constructor; [done|apply take_while_forall]. Qed.

Lemma fraction_spec cps r type a : in_range cps ->
  spec (consume_fraction r type) cps
    (fun x v => exists fraction, x = match fraction with Some s => 46 :: s | None => [] end /\ v.1 = r ++ x
       /\ (forall s, fraction = Some s -> digits s) /\ (hd_cp cps = 46 /\ is_digit (hd_cp (tail cps)) = true -> fraction <> None)) a.
Proof.
  intros Hr. unfold consume_fraction. apply spec_twin; [done|]. destruct (Z.eqb_spec (hd_cp cps) 46) as [E1|E1]; cbn [andb].
  2:{ apply spec_ret. exists None. rewrite app_nil_r. split; [done|]. split; [done|]. split; [done|]. by intros [? _]. }
  destruct (is_digit (hd_cp (tail cps))) eqn:E2.
  2:{ apply spec_ret. exists None. rewrite app_nil_r. split; [done|]. split; [done|]. split; [done|]. by intros [_ ?]. }
  destruct cps as [|c cps]; [done|]. cbn [hd_cp tail] in *. subst c. apply hd_class in E2 as (d & rest & -> & Hd); [|done].
  pose proof Hr as Hr'. apply Forall_cons in Hr' as [_ Hr']. pose proof Hr' as Hrest. apply Forall_cons in Hrest as [_ Hrest].
  eapply spec_bind; [by apply append_next_spec|]. cbv beta. intros x v rest' Erest [-> ->]. injection Erest as <-.
  eapply spec_bind; [apply append_next_spec; [done|unfold is_digit in Hd; lia]|]. cbv beta. intros x v rest' Erest [-> ->]. injection Erest as <-.
  eapply spec_bind; [by apply consume_digits_spec|]. cbv beta. intros x v rest' _ [-> ->]. apply spec_ret. exists (Some (d :: take_while is_ascii_digit rest)).
  cbn [app fst]. rewrite app_nil_r, <- !app_assoc. split; [done|]. split; [done|]. split; [intros s [= <-]; by apply digits_cons|done].
Qed.

(** The code points up to the first digit of an exponent *)
Definition exponent_start (cps x : list Z) : Prop :=
  exists e sign d rest, cps = e :: sign ++ d :: rest /\ x = e :: sign ++ [d] /\ (e = ch "e" \/ e = ch "E") /\ sign_ok sign /\ is_digit d = true.

Lemma exponent_start_spec c second third r cps a : in_range (c :: cps) -> (c = ch "e" \/ c = ch "E") -> second = hd_cp cps -> third = hd_cp (tail cps) ->
  (is_sign second && is_digit third) || is_digit second = true ->
  spec (if is_sign second then
          if is_digit third then do* repr := append_next r in do* repr := append_next repr in append_next repr else mreturn r
        else if is_digit second then do* repr := append_next r in append_next repr else mreturn r)
    (c :: cps) (fun x v => exponent_start (c :: cps) x /\ v = r ++ x) a.
Proof.
  intros Hr Hc -> -> Hd. pose proof Hr as Hr'. apply Forall_cons in Hr' as [_ Hcps]. assert (Hca : 0 <= c < 128) by lia.
  destruct (is_sign (hd_cp cps)) eqn:Es.
  - assert (Hnd : is_digit (hd_cp cps) = false) by (unfold is_sign in Es; unfold is_digit; lia). rewrite Hnd, orb_false_r in Hd. cbn [andb] in Hd. rewrite Hd.
    apply hd_class in Es as (sg & rest & -> & Hsg); [|done]. cbn [tail] in *. apply hd_class in Hd as (d & rest' & -> & Hd); [|done].
    pose proof Hcps as Hrest. apply Forall_cons in Hrest as [_ Hrest].
    eapply spec_bind; [by apply append_next_spec|]. cbv beta. intros x v w E [-> ->]. injection E as <-.
    eapply spec_bind; [apply append_next_spec; [done|unfold is_sign in Hsg; lia]|]. cbv beta. intros x v w E [-> ->]. injection E as <-.
    eapply spec_weaken; [apply append_next_spec; [done|unfold is_digit in Hd; lia]|]. cbv beta. intros x v w _ [-> ->]. cbn [app]. rewrite <- !app_assoc. split; [|done].
    exists c, [sg], d, rest'. split; [done|]. split; [done|]. split; [done|]. split; [|done]. unfold is_sign in Hsg. unfold sign_ok.
    destruct (Z.eqb_spec sg 43) as [->|]; [by right; left|]. destruct (Z.eqb_spec sg 45) as [->|]; [by right; right|done].
  - cbn [andb orb] in Hd. rewrite Hd. apply hd_class in Hd as (d & rest & -> & Hd); [|done].
    eapply spec_bind; [by apply append_next_spec|]. cbv beta. intros x v w E [-> ->]. injection E as <-.
    eapply spec_weaken; [apply append_next_spec; [done|unfold is_digit in Hd; lia]|]. cbv beta. intros x v w _ [-> ->]. cbn [app]. rewrite <- !app_assoc. split; [|done].
    exists c, [], d, rest. split; [done|]. split; [done|]. split; [done|]. split; [by left|done].
Qed.

Lemma exponent_spec cps r type a : in_range cps ->
  spec (consume_exponent r type) cps
    (fun x v => exists exponent, x = match exponent with Some (e, sign, s) => e :: sign ++ s | None => [] end /\ v.1 = r ++ x
       /\ (forall e sign s, exponent = Some (e, sign, s) -> (e = ch "e" \/ e = ch "E") /\ sign_ok sign /\ digits s)) a.
Proof.
  intros Hr. unfold consume_exponent. apply spec_triplet; [done|].
  destruct ((hd_cp cps =? 69) || (hd_cp cps =? 101)) eqn:E1; cbn [andb]; [|apply spec_ret; exists None; by rewrite app_nil_r].
  destruct (is_sign (hd_cp (tail cps)) && _ || _) eqn:E2; [|apply spec_ret; exists None; by rewrite app_nil_r].
  destruct cps as [|c cps]; [done|]. cbn [hd_cp tail] in *.
  eapply spec_bind; [apply (exponent_start_spec c _ _ r cps a Hr); [lia|done|done|exact E2]|]. cbv beta.
  intros x v rest Ecps [(e & sign & d & rest' & Ec & -> & He & Hs & Hd) ->]. assert (Hrest : in_range rest) by by eapply in_range_rest.
  eapply spec_bind; [by apply consume_digits_spec|]. cbv beta. intros y w rest'' _ [-> ->]. apply spec_ret. exists (Some (e, sign, d :: take_while is_ascii_digit rest)).
  cbn [fst]. rewrite app_nil_r, <- !app_assoc. cbn [app]. rewrite <- !app_assoc. split; [done|]. split; [done|]. intros e' sign' s' [= <- <- <-]. split; [done|]. split; [done|].
  by apply digits_cons.
Qed.

(** What starts the digits of a number, after the sign *)
Definition starts_digits (cps : list Z) : Prop := is_digit (hd_cp cps) = true \/ hd_cp cps = 46 /\ is_digit (hd_cp (tail cps)) = true.

Lemma convert_run t : decimal_ok t -> exists value, convert_a_string_to_a_number (decimal_text_of t) = Ret value.
Proof. intros Ht. destruct (decimal_text_reads t Ht) as [value E]. exists value. unfold convert_a_string_to_a_number. by rewrite E, Nat.eqb_refl. Qed.

(** The sign of a number and what follows it *)
Lemma number_sign cps : would_start_a_number (hd_cp cps, hd_cp (tail cps), hd_cp (tail (tail cps))) = true ->
  exists sign rest, cps = sign ++ rest /\ sign_ok sign /\ starts_digits rest /\ is_sign (hd_cp cps) = negb (sv_is_empty sign).
Proof.
  unfold would_start_a_number, is_sign. destruct ((hd_cp cps =? 43) || (hd_cp cps =? 45)) eqn:E.
  - intros Hd. destruct cps as [|c cps]; [done|]. cbn [hd_cp tail] in *. exists [c], cps. split; [done|]. split; [unfold sign_ok; right|split; [|done]].
    + destruct (Z.eqb_spec c 43) as [->|]; [by left|]. right. f_equal. lia.
    + apply orb_prop in Hd as [Hd|Hd]; [by left|right]. apply andb_prop in Hd as [Hd1 Hd2]. split; [lia|done].
  - intros Hd. exists [], cps. split; [done|]. split; [by left|]. split; [|done]. destruct (Z.eqb_spec (hd_cp cps) 46) as [Ep|]; [by right|by left].
Qed.

Lemma number_spec cps a : in_range cps -> would_start_a_number (hd_cp cps, hd_cp (tail cps), hd_cp (tail (tail cps))) = true ->
  spec consume_a_number cps (fun x _ => x <> []) a.
Proof.
  intros Hr Hw. apply number_sign in Hw as (sign & cps' & -> & Hsign & Hstart & Hexp). unfold consume_a_number. apply spec_peek; [done|]. rewrite Hexp.
  eapply spec_bind with (Q := fun x v => x = sign /\ v = sign).
  { destruct Hsign as [->|[->| ->]]; cbn [sv_is_empty negb app]; [by apply spec_ret|..]; (eapply spec_weaken; [by apply append_next_spec|]); cbv beta; by intros x v _ _ [-> ->]. }
  cbv beta. intros x v rest Erest [-> ->]. apply app_inv_head in Erest as <-. assert (Hcps : in_range cps') by by apply Forall_app in Hr as [_ ?].
  eapply spec_bind; [by apply consume_digits_spec|]. cbv beta. intros whole v rest Erest [Ewhole ->]. assert (Hrest : in_range rest) by by eapply in_range_rest.
  eapply spec_bind; [by apply fraction_spec|]. cbv beta. intros x [v ty] rest2 Erest2 (fraction & -> & Hv & Hfr & Hfrac). cbn [fst] in Hv. subst v.
  assert (Hrest2 : in_range rest2) by by eapply in_range_rest.
  eapply spec_bind; [by apply exponent_spec|]. cbv beta. intros x [v ty'] rest3 Erest3 (exponent & -> & Hv & Hex). cbn [fst] in Hv. subst v.
  set (t := {| dt_sign := sign; dt_whole := whole; dt_fraction := fraction; dt_exponent := exponent |}).
  assert (Ht : decimal_ok t).
  { unfold decimal_ok, t. cbn [dt_sign dt_whole dt_fraction dt_exponent]. split; [done|]. split; [rewrite Ewhole; apply take_while_forall|]. split; [done|]. split; [done|]. destruct Hstart as [Hd|[Hd1 Hd2]].
    - left. rewrite Ewhole. by apply hd_digit.
    - right. apply Hfrac. destruct cps' as [|c cps']; [done|]. cbn [hd_cp tail] in *. subst c. cbn [take_while] in Ewhole.
      change (is_ascii_digit 46) with false in Ewhole. subst whole. cbn [app] in Erest. by subst rest. }
  destruct (convert_run t Ht) as [value Ev]. eapply spec_lift_bind.
  { replace (((sign ++ whole) ++ match fraction with Some s => 46 :: s | None => [] end) ++ match exponent with Some (e, sign, s) => e :: sign ++ s | None => [] end)
      with (decimal_text_of t); [exact Ev|]. unfold decimal_text_of, dt_fraction_text, dt_exponent_text. cbn. by rewrite <- !app_assoc. }
  apply spec_ret. destruct Ht as (_ & _ & _ & _ & Hne). cbn [dt_whole dt_fraction t] in Hne. intros E. apply app_eq_nil in E as [_ E]. apply app_eq_nil in E as [-> E].
  apply app_eq_nil in E as [E _]. destruct Hne as [?|Hne]; [done|]. by destruct fraction.
Qed.

Lemma would_start_starts cps : would_start_an_ident_sequence (hd_cp cps, hd_cp (tail cps), hd_cp (tail (tail cps))) = true -> starts_ident cps = true.
Proof.
  unfold would_start_an_ident_sequence, starts_ident, is_ident_code_point. destruct (Z.eqb_spec (hd_cp cps) 45) as [->|]; [done|].
  destruct (is_ident_start_code_point (hd_cp cps)); [done|]. destruct (hd_cp cps =? 92); [|done]. intros ->. apply orb_true_r.
Qed.

(** A token of a text that is not empty *)
Definition real_token (x : list Z) (token : Token) : Prop := token_of x token /\ x <> [].

Lemma spec_real (f : M Token) x cps a : x <> [] -> spec f cps (fun y token => token_of (x ++ y) token) a -> spec f cps (fun y token => real_token (x ++ y) token) a.
Proof. intros Hx Hf. eapply spec_weaken; [exact Hf|]. intros y v _ _ Hv. split; [done|]. by destruct x. Qed.

Lemma numeric_spec cps a : in_range cps -> would_start_a_number (hd_cp cps, hd_cp (tail cps), hd_cp (tail (tail cps))) = true ->
  spec consume_a_numeric_token cps real_token a.
Proof.
  intros Hr Hw. unfold consume_a_numeric_token. apply spec_offset. eapply spec_bind; [by apply number_spec|]. cbv beta. intros x number rest Erest Hx.
  assert (Hrest : in_range rest) by by eapply in_range_rest. apply spec_real; [done|]. apply spec_triplet; [done|]. destruct (would_start_an_ident_sequence _) eqn:Ei.
  - apply would_start_starts in Ei. eapply spec_bind; [by apply ident_spec|]. cbv beta. intros y unit rest' _ [Hwt Hy]. destruct (Hy Ei) as [Hne _]. apply spec_shift.
    eapply spec_lift_bind; [by destruct unit|]. by apply spec_return_token.
  - apply spec_peek; [done|]. destruct (hd_cp rest =? 37) eqn:Ep; [|apply spec_return_token; [done|by repeat split; [..|apply wtf8_nil|]]].
    destruct rest as [|c rest]; [done|]. apply spec_skip; [done|]. apply spec_shift_cons. apply spec_return_token; [done|by repeat split; [..|apply wtf8_nil|]].
Qed.

(** ** Strings and comments *)

Lemma string_loop_spec fuel : forall cps ending builder a y, in_range cps -> (length cps < fuel)%nat -> wtf8 builder ->
  spec (string_loop fuel ending (length a) builder) cps (fun x token => token_of (y ++ x) token) (a ++ utf8_encode y).
Proof.
  induction fuel as [|fuel IH]; intros cps ending builder a y Hr Hf Hw; [lia|]. cbn [string_loop].
  assert (Htok : forall rest y, spec (string_token builder (length a)) rest (fun x token => token_of (y ++ x) token) (a ++ utf8_encode y)).
  { intros rest y'. by apply spec_return_token. }
  destruct cps as [|c cps]; [apply spec_next_end; destruct (_ =? _); apply Htok|].
  apply spec_next_cons; [done|]. rewrite (hd_not_eof c cps Hr). pose proof Hr as Hr'. apply Forall_cons in Hr' as [Hc Hcps].
  destruct (c =? ending); [apply spec_after_intro, spec_shift_cons, Htok|]. destruct (is_newline c).
  { apply spec_after_reconsume. by apply spec_valueless. }
  apply spec_after_intro, spec_shift_cons. destruct (c =? 92); [|apply IH; [done|cbn in Hf; lia|by apply append_wtf8]].
  apply spec_peek; [done|]. destruct cps as [|d cps]; [apply IH; [done|cbn in Hf |- *; lia|done]|]. cbn [hd_cp]. rewrite (hd_not_eof d cps Hcps).
  pose proof Hcps as Hcps'. apply Forall_cons in Hcps' as [Hd Hcps']. destruct (is_newline d).
  { apply spec_skip; [done|]. apply spec_shift_cons, IH; [done|cbn in Hf; lia|done]. }
  eapply spec_bind; [by apply escape_spec|]. cbv beta. intros x v rest Erest [_ ->]. apply spec_shift.
  apply IH; [by eapply in_range_rest| |apply append_wtf8; [by apply escape_value_range|done]]. cbn [length] in Hf. apply (f_equal length) in Erest. rewrite length_app in Erest.
  cbn [length] in Erest. lia.
Qed.

Lemma string_spec c cps a : in_range (c :: cps) -> c < 128 -> spec_after (consume_string_token c) c cps real_token a.
Proof.
  intros Hr Ha. pose proof Hr as Hr'. apply Forall_cons in Hr' as [Hc Hcps]. apply spec_after_intro. unfold consume_string_token. apply spec_offset.
  replace (length (a ++ utf8_encode [c]) - 1)%nat with (length a).
  - apply (spec_real _ [c]); [done|]. apply spec_loop, string_loop_spec; [done|by apply loop_fuel|apply wtf8_nil].
  - rewrite utf8_encode_single by done. unfold encoded. replace (c <=? 127) with true by lia. rewrite length_app. cbn [length]. lia.
Qed.

Lemma comment_loop_spec fuel : forall cps a, in_range cps -> (length cps < fuel)%nat -> spec (comment_loop fuel) cps (fun _ _ => True) a.
Proof.
  induction fuel as [|fuel IH]; intros cps a Hr Hf; [lia|]. cbn [comment_loop]. apply spec_twin; [done|]. destruct cps as [|c [|d cps]]; [by apply spec_ret..| |].
  { cbn [hd_cp tail]. rewrite orb_true_r. by apply spec_ret. }
  cbn [hd_cp tail]. pose proof Hr as Hr'. apply Forall_cons in Hr' as [_ Hr']. rewrite (hd_not_eof c _ Hr), (hd_not_eof d cps Hr'). cbn [orb].
  destruct (_ && _); [|apply spec_skip; [done|]; apply IH; [done|cbn in Hf |- *; lia]]. apply spec_skip; [done|]. apply spec_skip; [done|]. by apply spec_ret.
Qed.

Lemma comments_loop_spec fuel : forall cps a, in_range cps -> (length cps < fuel)%nat -> spec (comments_loop fuel) cps (fun _ _ => True) a.
Proof.
  induction fuel as [|fuel IH]; intros cps a Hr Hf; [lia|]. cbn [comments_loop]. apply spec_twin; [done|]. destruct (negb _) eqn:E; [by apply spec_ret|].
  destruct cps as [|c [|d cps]]; [done| |].
  { cbn [hd_cp tail] in E. rewrite andb_false_r in E. done. }
  pose proof Hr as Hr'. apply Forall_cons in Hr' as [_ Hr']. apply spec_skip; [done|]. apply spec_skip; [done|]. apply Forall_cons in Hr' as [_ Hr'].
  eapply spec_bind; [apply spec_loop, comment_loop_spec; [done|by apply loop_fuel]|]. cbv beta. intros x found rest Erest _. destruct found; [|by apply spec_ret].
  eapply spec_weaken; [apply IH; [by eapply in_range_rest|]|done]. cbn [length] in Hf. apply (f_equal length) in Erest. rewrite length_app in Erest. lia.
Qed.

(** ** Tokens *)

Lemma delim_spec c cps a : in_range (c :: cps) -> spec_after (delim_token c (length a)) c cps real_token a.
Proof.
  intros Hr. apply Forall_cons in Hr as [Hc _]. apply spec_after_intro. apply (spec_real _ [c]); [done|]. unfold delim_token. apply spec_source.
  assert (Hu : is_unicode c = true) by ascii_lia. eapply spec_lift; [unfold create_delim, from_code_point; rewrite Hu; done|]. rewrite app_nil_r.
  repeat split; [done..| |intros _]; cbn [m_value plain_token]; rewrite code_point_to_utf8_encoded by done; [by apply wtf8_encoded|by apply encoded_nonempty].
Qed.

Lemma valueless_spec type c cps a : has_no_value type = true -> type <> EndOfFile -> type <> Invalid -> spec_after (valueless_token type (length a)) c cps real_token a.
Proof. intros Ht He Hi. apply spec_after_intro. apply (spec_real _ [c]); [done|]. by apply spec_valueless. Qed.

Lemma reconsume_ident_spec c cps a : in_range (c :: cps) -> starts_ident (c :: cps) = true -> spec_after (reconsume_as consume_an_ident_like_token) c cps real_token a.
Proof. intros Hr Hs. apply spec_after_reconsume. by apply ident_like_spec. Qed.

Lemma reconsume_numeric_spec c cps a : in_range (c :: cps) -> would_start_a_number (c, hd_cp cps, hd_cp (tail cps)) = true ->
  spec_after (reconsume_as consume_a_numeric_token) c cps real_token a.
Proof. intros Hr Hs. apply spec_after_reconsume. by apply numeric_spec. Qed.

(** A token that ends with an identifier *)
Lemma ident_token_spec (make : bytes -> bytes -> Token) c cps a : in_range (c :: cps) ->
  (forall v source, m_original_source_text (make v source) = source) ->
  (forall v source, wtf8 v -> m_type (make v source) <> EndOfFile /\ m_type (make v source) <> Invalid /\ wtf8 (m_value (make v source)) /\ (m_type (make v source) = Delim -> m_value (make v source) <> [])) ->
  spec_after (do* v := consume_an_ident_sequence in do* source := mget_res (input_since (length a)) in mreturn (make v source)) c cps real_token a.
Proof.
  intros Hr Hs Hm. apply Forall_cons in Hr as [_ Hr]. apply spec_after_intro. apply (spec_real _ [c]); [done|]. eapply spec_bind; [by apply ident_spec|]. cbv beta.
  intros x v rest _ [Hw _]. apply (spec_shift _ a [c] x). apply spec_return_token; [done|]. intros source. by apply Hm.
Qed.

Lemma hash_spec c cps a : in_range (c :: cps) -> spec_after (consume_hash c (length a)) c cps real_token a.
Proof.
  intros Hr. pose proof Hr as Hr'. apply Forall_cons in Hr' as [_ Hcps]. unfold consume_hash. eapply spec_after_get; [intros; by apply peek_code_point_run|].
  eapply spec_after_get; [intros; by apply peek_twin_run|]. destruct (_ || _); [|by apply delim_spec]. eapply spec_after_get; [intros; by apply peek_triplet_run|].
  by apply (ident_token_spec (fun v source => create_hash v _ source)).
Qed.

Lemma at_spec c cps a : in_range (c :: cps) -> spec_after (consume_at c (length a)) c cps real_token a.
Proof.
  intros Hr. pose proof Hr as Hr'. apply Forall_cons in Hr' as [_ Hcps]. unfold consume_at. eapply spec_after_get; [intros; by apply peek_triplet_run|].
  destruct (would_start_an_ident_sequence _); [|by apply delim_spec]. by apply (ident_token_spec create_at_keyword).
Qed.

Lemma number_or_delim_spec c cps a : in_range (c :: cps) -> spec_after (consume_number_or_delim c (length a)) c cps real_token a.
Proof. intros Hr. apply spec_after_triplet; [done|]. destruct (would_start_a_number _) eqn:E; [by apply reconsume_numeric_spec|by apply delim_spec]. Qed.

Lemma hyphen_spec cps a : in_range (45 :: cps) -> spec_after (consume_hyphen 45 (length a)) 45 cps real_token a.
Proof.
  intros Hr. apply spec_after_triplet; [done|]. destruct (would_start_a_number _) eqn:E; [by apply reconsume_numeric_spec|].
  pose proof Hr as Hr'. apply Forall_cons in Hr' as [_ Hcps]. eapply spec_after_get; [intros; by apply peek_twin_run|]. cbv beta iota. destruct (_ && _) eqn:E2.
  - apply andb_prop in E2 as [E2 E3]. destruct cps as [|d [|g cps]]; [done..|]. apply spec_after_intro. apply (spec_real _ [45]); [done|].
    apply spec_skip; [done|]. apply (spec_shift_cons _ a [45]). apply Forall_cons in Hcps as [_ Hcps]. apply spec_skip; [done|]. apply spec_shift_cons. by apply spec_valueless.
  - apply spec_after_triplet; [done|]. destruct (would_start_an_ident_sequence _) eqn:E3; [|by apply delim_spec]. apply reconsume_ident_spec; [done|]. by apply would_start_starts.
Qed.

Lemma less_than_spec c cps a : in_range (c :: cps) -> spec_after (consume_less_than c (length a)) c cps real_token a.
Proof.
  intros Hr. pose proof Hr as Hr'. apply Forall_cons in Hr' as [_ Hcps]. eapply spec_after_get; [intros; by apply peek_triplet_run|].
  cbv beta iota. destruct (_ && _ && _) eqn:E; [|by apply delim_spec]. rewrite !andb_true_iff in E. destruct E as [[E1 E2] E3].
  destruct cps as [|d [|g [|h cps]]]; [done..|]. apply spec_after_intro. apply (spec_real _ [c]); [done|].
  apply spec_skip; [done|]. apply (spec_shift_cons _ a [c]). apply Forall_cons in Hcps as [_ Hcps]. apply spec_skip; [done|]. apply spec_shift_cons.
  apply Forall_cons in Hcps as [_ Hcps]. apply spec_skip; [done|]. apply spec_shift_cons. by apply spec_valueless.
Qed.

Lemma reverse_solidus_spec c cps a : in_range (c :: cps) -> spec_after (consume_reverse_solidus c (length a)) c cps real_token a.
Proof.
  intros Hr. apply spec_after_twin; [done|]. destruct (is_valid_escape_sequence _) eqn:E; [|by apply delim_spec]. apply reconsume_ident_spec; [done|].
  unfold starts_ident. cbn [hd_cp tail]. rewrite E. apply orb_true_r.
Qed.

(** One token: at the end of the input the token that says so, otherwise a token
    of a text that is not empty *)
Definition next_token (cps x : list Z) (token : Token) : Prop :=
  match cps with [] => x = [] /\ create_eof_token = Ret token | _ => real_token x token end.

Lemma encode_empty x : in_range x -> utf8_encode x = [] -> x = [].
Proof. intros Hr E. pose proof (encode_length_range x Hr) as Hl. rewrite E in Hl. destruct x; [done|cbn in Hl; lia]. Qed.

Lemma token_spec cps a : in_range cps -> spec consume_a_token cps (next_token cps) a.
Proof.
  intros Hr. unfold consume_a_token. apply spec_offset. eapply spec_bind; [apply spec_loop, comments_loop_spec; [done|by apply loop_fuel]|]. cbv beta.
  intros x [] rest Erest _. apply spec_offset. destruct (Nat.eqb_spec (length (a ++ utf8_encode x)) (length a)) as [El|El]; cbn [negb].
  2:{ assert (Hx : x <> []) by (intros ->; by rewrite app_nil_r in El). unfold next_token. destruct cps as [|c cps]; [by destruct x|]. apply spec_real; [done|].
      apply spec_return_token; [done|]. by repeat split; [..|apply wtf8_nil|]. }
  assert (x = []) as ->.
  { apply encode_empty; [rewrite Erest in Hr; by apply Forall_app in Hr as [? _]|]. rewrite length_app in El. destruct (utf8_encode x); [done|cbn in El; lia]. }
  cbn [app] in *. subst rest. rewrite app_nil_r. destruct cps as [|c cps]; [by apply spec_next_end; eapply spec_lift|]. apply spec_next_cons; [done|].
  pose proof Hr as Hr'. apply Forall_cons in Hr' as [Hc Hcps]. cbn [next_token].
  destruct (is_whitespace c).
  { apply spec_after_intro. apply (spec_real _ [c]); [done|]. eapply spec_bind; [by apply whitespace_spec|]. cbv beta. intros x [] rest _ _. apply (spec_shift _ a [c] x).
    apply spec_return_token; [done|]. by repeat split; [..|apply wtf8_nil|]. }
  destruct (Z.eqb_spec c 34) as [->|]; [by apply string_spec|]. destruct (Z.eqb_spec c 35) as [->|]; [by apply hash_spec|].
  destruct (Z.eqb_spec c 39) as [->|]; [by apply string_spec|].
  destruct (c =? 40); [by apply valueless_spec|]. destruct (c =? 41); [by apply valueless_spec|]. destruct (c =? 43); [by apply number_or_delim_spec|].
  destruct (c =? 44); [by apply valueless_spec|]. destruct (Z.eqb_spec c 45) as [->|]; [by apply hyphen_spec|]. destruct (c =? 46); [by apply number_or_delim_spec|].
  destruct (c =? 58); [by apply valueless_spec|]. destruct (c =? 59); [by apply valueless_spec|]. destruct (c =? 60); [by apply less_than_spec|].
  destruct (c =? 64); [by apply at_spec|]. destruct (c =? 91); [by apply valueless_spec|]. destruct (c =? 92); [by apply reverse_solidus_spec|].
  destruct (c =? 93); [by apply valueless_spec|]. destruct (c =? 123); [by apply valueless_spec|]. destruct (c =? 125); [by apply valueless_spec|].
  destruct (is_digit c) eqn:Ed.
  { apply reconsume_numeric_spec; [done|]. unfold would_start_a_number. rewrite Ed. unfold is_digit in Ed.
    replace ((c =? 43) || (c =? 45)) with false by lia. by replace (c =? 46) with false by lia. }
  destruct (is_ident_start_code_point c) eqn:Ei; [apply reconsume_ident_spec; [done|]; unfold starts_ident, is_ident_code_point; cbn [hd_cp]; by rewrite Ei|].
  rewrite (hd_not_eof c cps Hr). by apply delim_spec.
Qed.

(** ** Whole texts *)

(** [tokens] are the tokens of [cps] when its first code point is at [pos]: each
    has the text of a part that is not empty, starts where the one before ended,
    and ends where its text does; the last one stands for the end of the input. *)
Inductive covers : Position -> list Z -> list Token -> Prop :=
| covers_end pos token : create_eof_token = Ret token -> covers pos [] [set_position_range token pos pos]
| covers_token pos x rest token tokens :
    x <> [] -> token_of x token -> m_start_position token = pos -> m_end_position token = advance_all pos x ->
    covers (advance_all pos x) rest tokens -> covers pos (x ++ rest) (token :: tokens).

Lemma tokenize_loop_run fuel : forall cps a prev pos ppos, in_range cps -> (length cps < fuel)%nat ->
  exists tokens t', tokenize_loop fuel (css_state a cps prev pos ppos) = Ret (tokens, t') /\ covers pos cps tokens.
Proof.
  induction fuel as [|fuel IH]; intros cps a prev pos ppos Hr Hf; [lia|]. cbn [tokenize_loop]. rewrite (mbind_run _ _ _ _ _ (mget_run _ _)).
  destruct (token_spec cps a Hr prev pos ppos) as (x & token & t & E & (rest & p & pp & Ecps & ->) & Ht). rewrite (mbind_run _ _ _ _ _ E), (mbind_run _ _ _ _ _ (mget_run _ _)).
  cbn [m_position css_state]. destruct cps as [|c cps].
  { destruct Ht as [-> Ht]. pose proof Ht as Ht'. injection Ht' as <-. do 2 eexists. split; [done|]. by apply covers_end. }
  destruct Ht as [Ht Hx]. assert (Ht' : token_is (set_position_range token pos (advance_all pos x)) EndOfFile = false).
  { destruct Ht as (_ & Hne & _). unfold token_is. cbn [m_type set_position_range]. by destruct (m_type token). }
  rewrite Ht'. destruct (IH rest (a ++ utf8_encode x) p (advance_all pos x) pp) as (tokens & t' & E' & Hc); [by eapply in_range_rest| |].
  { apply (f_equal length) in Ecps. rewrite length_app in Ecps. destruct x; [done|]. cbn [length] in *. lia. }
  rewrite (mbind_run _ _ _ _ _ E'). do 2 eexists. split; [done|]. rewrite Ecps. by apply covers_token.
Qed.

Lemma tokenize_decoded_covers cps : in_range cps -> exists tokens, tokenize_decoded (utf8_encode cps) = Ret tokens /\ covers start_of_text cps tokens.
Proof.
  intros Hr. destruct (tokenize_loop_run (S (length (utf8_encode cps))) cps [] None start_of_text start_of_text Hr (loop_fuel cps Hr)) as (tokens & t' & E & Hc).
  exists tokens. split; [|done]. unfold tokenize_decoded, mloop, tokenizer_for. cbn [m_utf8_iterator]. unfold css_state in E. cbn [app] in E. by rewrite E.
Qed.

Lemma covers_sources pos cps tokens : covers pos cps tokens -> concat (m_original_source_text <$> tokens) = utf8_encode cps.
Proof.
  induction 1 as [pos token E|pos x rest token tokens _ (Ht & _) _ _ _ IH]; [by injection E as <-|]. rewrite fmap_cons. cbn [concat]. by rewrite IH, Ht, utf8_encode_app.
Qed.

(** ** Preprocessing *)

(** What the tokenizer is given: no carriage return, form feed, null or surrogate *)
Definition preprocessed (cp : Z) : Prop := 0 <= cp <= 0x10FFFF /\ is_filterable cp = false.

Lemma filter_append builder cps cp : preprocessed cp -> Forall preprocessed cps -> builder = utf8_encode cps ->
  exists cps', append_code_point builder cp = utf8_encode cps' /\ Forall preprocessed cps'.
Proof.
  intros [Hc Hp] Hcps ->. exists (cps ++ [cp]). split; [by rewrite append_code_point_encoded, utf8_encode_app, utf8_encode_single by done|].
  apply Forall_app. split; [done|]. constructor; [by split|constructor].
Qed.

Lemma filter_loop_run cps : forall builder cr, scalars cps -> (exists pre, builder = utf8_encode pre /\ Forall preprocessed pre) ->
  exists out, filter_loop builder cr cps = utf8_encode out /\ Forall preprocessed out.
Proof.
  assert (Hadd : forall builder cp, preprocessed cp -> (exists pre, builder = utf8_encode pre /\ Forall preprocessed pre) ->
    exists pre, append_code_point builder cp = utf8_encode pre /\ Forall preprocessed pre).
  { intros builder cp Hcp (pre & Hb & Hpre). by eapply filter_append. }
  assert (Hlf : forall builder, (exists pre, builder = utf8_encode pre /\ Forall preprocessed pre) -> exists pre, builder ++ [10] = utf8_encode pre /\ Forall preprocessed pre).
  { intros builder Hb. rewrite <- append_code_point_ascii by done. by apply Hadd. }
  induction cps as [|cp cps IH]; intros builder cr Hs Hb; [exact Hb|]. apply Forall_cons in Hs as [[Hp Hsc] Hs]. cbn [filter_loop].
  destruct (Z.eqb_spec cp 13) as [->|Hcr]; [destruct cr; apply IH; auto|]. apply IH; [done|].
  set (b := if cr then builder ++ [10] else builder). assert (Hb' : exists pre, b = utf8_encode pre /\ Forall preprocessed pre) by (unfold b; destruct cr; auto).
  clearbody b. destruct (cp =? 10) eqn:E1; [destruct cr; cbn [negb]; auto|]. destruct (cp =? 12) eqn:E2; [auto|].
  destruct (_ || _) eqn:E3; apply Hadd; try done. unfold preprocessed, is_filterable. unfold is_unicode_scalar_value, is_unicode in Hsc. split; [lia|]. apply Z.eqb_neq in Hcr. rewrite Hcr, E2. exact E3.
Qed.

Lemma filter_decoded_run decoded : well_formed_utf8 decoded -> exists cps, filter_decoded decoded = utf8_encode cps /\ Forall preprocessed cps.
Proof.
  intros (cps & Hs & ->). assert (Hr : in_range cps).
  { eapply Forall_impl; [exact Hs|]. unfold is_unicode_scalar_value, is_unicode. intros c Hc. cbn in Hc. lia. }
  unfold filter_decoded. rewrite <- (app_nil_r (utf8_encode cps)), code_points_utf8_encode by done. change (code_points []) with (@nil Z). rewrite !app_nil_r.
  destruct (existsb is_filterable cps) eqn:E.
  - apply filter_loop_run; [done|]. by exists [].
  - exists cps. split; [done|]. apply Forall_forall. intros c Hc. split; [exact (proj1 (Forall_forall _ _) Hr c Hc)|].
    destruct (is_filterable c) eqn:Ef; [|done]. assert (existsb is_filterable cps = true) by (apply existsb_exists; exists c; split; [by apply list_elem_of_In|done]). congruence.
Qed.

End methods.

(** ** From bytes to tokens *)

Lemma css_tokenize_covers `{DecoderTablesLaws} `{SimdutfLaws} `{SimdutfUtf16Laws} `{FastFloatLaws} `{FastFloatDoubleSyntaxLaws} input encoding decoder :
  decoder_for encoding = Some decoder -> decoder <> UTF16BEDecoder -> all_bytes input -> Z.of_nat (length input) < 2 ^ 63 ->
  exists cps tokens, filter_code_points input encoding = Ret (utf8_encode cps) /\ Forall preprocessed cps /\
    css_tokenize input encoding = Ret tokens /\ covers start_of_text cps tokens.
Proof.
  intros He Hd Hin Hfits. destruct (to_utf8_well_formed decoder input Hd Hin Hfits) as (decoded & E & Hw). destruct (filter_decoded_run decoded Hw) as (cps & Ef & Hp).
  assert (Hr : in_range cps) by (eapply Forall_impl; [exact Hp|by intros c [Hc _]]). destruct (tokenize_decoded_covers cps Hr) as (tokens & Et & Hc).
  assert (EF : filter_code_points input encoding = Ret (utf8_encode cps)) by (unfold filter_code_points; rewrite He, E; cbn [res_bind]; by rewrite Ef).
  exists cps, tokens. unfold css_tokenize. rewrite EF. do 3 (split; [done|]). done.
Qed.

(** ** Properties *)

(** C8: tokenizing loses nothing.  Every byte string in every encoding that
    has a decoder (UTF-16BE apart) is decoded and preprocessed to a text without
    carriage returns, form feeds and nulls, and then tokenized: every loop ends,
    no verification fails, and going back never goes before the first code point.
    The tokens' source texts are, in order, the whole text; every token but the last
    has a source text that is not empty, a value that is UTF-8 (surrogates included)
    and the line and column of its first and last code points. *)
Theorem css_tokenize_lossless `{DecoderTablesLaws} `{SimdutfLaws} `{SimdutfUtf16Laws} `{FastFloatLaws} `{FastFloatDoubleSyntaxLaws}
    (input encoding : bytes) (decoder : Decoder) (He : decoder_for encoding = Some decoder)
    (Hd : decoder <> UTF16BEDecoder) (Hin : all_bytes input) (Hfits : Z.of_nat (length input) < 2 ^ 63) :
  exists cps tokens, filter_code_points input encoding = Ret (utf8_encode cps) /\ Forall preprocessed cps /\
    css_tokenize input encoding = Ret tokens /\ covers start_of_text cps tokens /\ concat (m_original_source_text <$> tokens) = utf8_encode cps.
Proof.
  destruct (css_tokenize_covers input encoding decoder He Hd Hin Hfits) as (cps & tokens & Ef & Hp & Et & Hc). exists cps, tokens.
  do 3 (split; [done|]). split; [done|by eapply covers_sources].
Qed.

Lemma css_tokenize_lossless_witness : exists cps tokens,
  filter_code_points (sv "a{width:1.5e1px}") (sv "windows-1252") = Ret (utf8_encode cps) /\ Forall preprocessed cps /\
  css_tokenize (sv "a{width:1.5e1px}") (sv "windows-1252") = Ret tokens /\ covers start_of_text cps tokens /\
  concat (m_original_source_text <$> tokens) = utf8_encode cps.
Proof.
  eapply css_tokenize_lossless; [vm_compute; reflexivity|done|repeat constructor|cbn; lia].
Defined.
