(* ===== verification/CssRoundtrip.v ===== *)
(** * What the CSS serializer prints, the CSS tokenizer reads

    A serialized string is tokenized to one string token with the string, a
    serialized identifier to one ident token with the identifier. *)

From S2P Require Import Prelude CharacterTypes Utf8 Utf16 MemMem Strings Tokens Wtf8 BinarySearch TextCodec Decoders DecoderSafety Ipv6 PatternTokenizer.
From S2P Require Import CodeUnits Lexer FloatTables FloatToDecimal FloatFacts FloatExact FloatTheorems FloatFormat CssTokens CssTokenizer CssTokenizerFacts.
Local Open Scope Z_scope.
Local Open Scope css_scope.

(** ** Pieces: what is printed for one code point *)

Inductive escaped (c : Z) : list Z -> Prop :=
| escaped_character : is_hex_digit c = false -> is_control c = false -> escaped c [92; c]
| escaped_code_point : 0 < c < 128 -> escaped c (92 :: hex_text c ++ [32]).

Definition string_piece (c : Z) (p : list Z) : Prop := escaped c p \/ p = [c] /\ c <> 34 /\ c <> 92 /\ is_control c = false.
Definition ident_piece (c : Z) (p : list Z) : Prop := escaped c p \/ p = [c] /\ is_ident_code_point c = true.

Lemma control_newline c : is_control c = false -> is_newline c = false.
Proof. unfold is_control, is_newline. lia. Qed.

(** An escape, read back *)
Lemma escaped_read c p rest : 0 < c <= 0x10FFFF -> escaped c p ->
  exists d q, p = 92 :: d :: q /\ is_newline d = false /\ in_range (d :: q) /\ escape_text (d :: q ++ rest) = d :: q /\ escape_value (d :: q ++ rest) = c.
Proof.
  intros Hc [Hx Hn|Hs].
  - exists c, []. split; [done|]. split; [by apply control_newline|]. split; [repeat constructor; lia|]. unfold escape_text, escape_value. cbn [hd_cp app]. rewrite Hx. split; [done|].
    replace (is_eof c) with false; [done|]. unfold is_eof, TOKENIZER_EOF. lia.
  - destruct (hex_text_spec c) as (_ & Hx & Hv & Hl); [lia|]. destruct (hex_text c) as [|d q]; [cbn in Hl; lia|]. clear - Hx Hv Hl Hs.
    assert (Hd : Forall (fun c => is_hex_digit c = true) (d :: q)).
    { apply forallb_Forall_iff in Hx. eapply Forall_impl; [exact Hx|]. intros e He. by rewrite hex_digits_equal. }
    destruct (take_while_app is_hex_digit (d :: q) (32 :: rest) Hd eq_refl) as [Et _].
    assert (Ed : escape_digits (d :: (q ++ [32]) ++ rest) = d :: q).
    { unfold escape_digits. rewrite <- app_assoc. change ((d :: q ++ [32] ++ rest)) with ((d :: q) ++ 32 :: rest). rewrite Et. apply take_ge. lia. }
    exists d, (q ++ [32]). split; [done|]. pose proof Hd as Hd'. apply Forall_cons in Hd' as [Hh Hq]. split; [unfold is_hex_digit, is_digit in Hh; unfold is_newline; lia|]. split.
    { change (in_range ((d :: q) ++ [32])). apply Forall_app. split; [|by repeat constructor]. eapply Forall_impl; [exact Hd|].
      intros e He. unfold is_hex_digit, is_digit in He. cbn beta in He. lia. }
    unfold escape_text, escape_value. rewrite Ed. cbn [hd_cp]. rewrite Hh, Hv. rewrite <- app_assoc.
    change (d :: q ++ [32] ++ rest) with ((d :: q) ++ 32 :: rest). rewrite drop_app_length. split; [done|].
    unfold is_unicode_surrogate. destruct (_ || _) eqn:E; [lia|done].
Qed.

Lemma pieces_in_range (piece : Z -> list Z -> Prop) cps ps : (forall c p, 0 < c <= 0x10FFFF -> piece c p -> in_range p) ->
  Forall (fun c => 0 < c <= 0x10FFFF) cps -> Forall2 piece cps ps -> in_range (concat ps).
Proof. intros Hp Hr H2. induction H2 as [|c p cps ps Hc _ IH]; [done|]. apply Forall_cons in Hr as [Hcr Hr]. cbn [concat]. apply Forall_app. split; [by eapply Hp|auto]. Qed.

Lemma escaped_in_range c p : 0 < c <= 0x10FFFF -> escaped c p -> in_range p.
Proof. intros Hc He. destruct (escaped_read c p [] Hc He) as (d & q & -> & _ & Hr & _). by constructor. Qed.

Lemma string_piece_range c p : 0 < c <= 0x10FFFF -> string_piece c p -> in_range p.
Proof. intros Hc [He|[-> _]]; [by eapply escaped_in_range|]. repeat constructor; lia. Qed.

Lemma ident_piece_range c p : 0 < c <= 0x10FFFF -> ident_piece c p -> in_range p.
Proof. intros Hc [He|[-> _]]; [by eapply escaped_in_range|]. repeat constructor; lia. Qed.

(** What a printed identifier looks like to the tokenizer *)
Definition ident_text (cps : list Z) (ps : list (list Z)) : Prop :=
  Forall2 ident_piece cps ps /\ would_start_an_ident_sequence (hd_cp (concat ps), hd_cp (tail (concat ps)), hd_cp (tail (tail (concat ps)))) = true /\
  (hd_cp (concat ps) = 45 -> hd_cp (tail (concat ps)) = 45 -> hd_cp (tail (tail (concat ps))) <> 62).

(** ** Reading pieces *)

Section reading.
Context `{LookupTables} `{Simdutf} `{SimdutfUtf16} `{FastFloatLaws} `{FastFloatDoubleSyntaxLaws}.

Lemma append_encoded r c cps : 0 <= c <= 0x10FFFF -> append_code_point r c ++ utf8_encode cps = r ++ utf8_encode (c :: cps).
Proof. intros Hc. by rewrite append_code_point_encoded, utf8_encode_cons, app_assoc by done. Qed.

Lemma ident_loop_pieces cps ps : Forall2 ident_piece cps ps -> Forall (fun c => 0 < c <= 0x10FFFF) cps -> forall fuel r a, (length (concat ps) < fuel)%nat ->
  spec (ident_sequence_loop fuel r) (concat ps) (fun x v => x = concat ps /\ v = r ++ utf8_encode cps) a.
Proof.
  induction 1 as [|c p cps ps Hp Hps IH]; intros Hr fuel r a Hf; (destruct fuel as [|fuel]; [lia|]); cbn [ident_sequence_loop].
  { apply spec_next_end, spec_ret. by rewrite app_nil_r. }
  apply Forall_cons in Hr as [Hc Hr]. cbn [concat] in *. rewrite length_app in Hf. assert (Hrest : in_range (concat ps)) by (eapply pieces_in_range; [apply ident_piece_range|done..]).
  destruct Hp as [He|[-> Hi]].
  - destruct (escaped_read c p (concat ps) Hc He) as (d & q & -> & Hn & Hq & Et & Ev). cbn [app] in *. cbn [length] in Hf.
    assert (Hall : in_range (d :: q ++ concat ps)) by (change (in_range ((d :: q) ++ concat ps)); by apply Forall_app). assert (Hall' : in_range (92 :: d :: q ++ concat ps)) by by constructor.
    apply spec_next_cons; [done|]. rewrite (hd_not_eof _ _ Hall'). change (is_ident_code_point 92) with false. cbv iota. apply spec_after_twin; [done|].
    replace (is_valid_escape_sequence (92, hd_cp (d :: q ++ concat ps))) with true by (unfold is_valid_escape_sequence; cbn; by rewrite Hn).
    apply spec_after_intro. eapply spec_bind; [by apply escape_spec|]. cbv beta. rewrite Et, Ev. intros x v rest Erest [-> ->].
    change (d :: q ++ concat ps) with ((d :: q) ++ concat ps) in Erest. apply app_inv_head in Erest as <-. eapply spec_weaken; [apply IH; [done|lia]|]. cbv beta.
    intros x v _ _ [-> ->]. split; [done|]. apply append_encoded. lia.
  - cbn [app length] in *. apply spec_next_cons; [constructor; [lia|done]|]. replace (is_eof c) with false by (unfold is_eof, TOKENIZER_EOF; lia). rewrite Hi.
    apply spec_after_intro. eapply spec_weaken; [apply IH; [done|lia]|]. cbv beta. intros x v _ _ [-> ->]. split; [done|]. apply append_encoded. lia.
Qed.

Lemma string_loop_pieces cps ps : Forall2 string_piece cps ps -> Forall (fun c => 0 < c <= 0x10FFFF) cps -> forall fuel r a y, (S (length (concat ps)) < fuel)%nat ->
  spec (string_loop fuel 34 (length a) r) (concat ps ++ [34])
    (fun x token => x = concat ps ++ [34] /\ token = create_string (r ++ utf8_encode cps) (utf8_encode (y ++ concat ps ++ [34]))) (a ++ utf8_encode y).
Proof.
  induction 1 as [|c p cps ps Hp Hps IH]; intros Hr fuel r a y Hf; (destruct fuel as [|fuel]; [lia|]); cbn [string_loop].
  { apply spec_next_cons; [by repeat constructor|]. change (34 =? 34) with true. cbv iota. apply spec_after_intro. rewrite <- app_assoc, <- utf8_encode_app. unfold string_token.
    apply spec_source, spec_ret. by rewrite app_nil_r. }
  apply Forall_cons in Hr as [Hc Hr]. cbn [concat] in *. rewrite length_app in Hf.
  assert (Hrest : in_range (concat ps ++ [34])) by (apply Forall_app; split; [eapply pieces_in_range; [apply string_piece_range|done..]|by repeat constructor]).
  rewrite <- (app_assoc p). destruct Hp as [He|(-> & Hq & Hb & Hn)].
  - destruct (escaped_read c p (concat ps ++ [34]) Hc He) as (d & q & -> & Hn & Hq & Et & Ev). cbn [app] in *. cbn [length] in Hf.
    assert (Hall : in_range (d :: q ++ concat ps ++ [34])) by (change (in_range ((d :: q) ++ concat ps ++ [34])); by apply Forall_app).
    apply spec_next_cons; [by constructor|]. change (92 =? 34) with false. change (is_eof 92) with false. change (is_newline 92) with false. change (92 =? 92) with true. cbv iota.
    apply spec_after_intro, spec_peek; [done|]. cbn [hd_cp]. rewrite (hd_not_eof _ _ Hall), Hn. eapply spec_bind; [by apply escape_spec|]. cbv beta. rewrite Et, Ev.
    intros x v rest Erest [-> ->]. change (d :: q ++ concat ps ++ [34]) with ((d :: q) ++ concat ps ++ [34]) in Erest. apply app_inv_head in Erest as <-.
    rewrite <- !app_assoc, <- !utf8_encode_app. eapply spec_weaken; [apply IH; [done|lia]|]. cbv beta. intros x v _ _ [-> ->]. split; [done|].
    rewrite append_encoded by lia. by rewrite <- app_assoc.
  - cbn [app length] in *. assert (Hall : in_range (c :: concat ps ++ [34])) by (constructor; [lia|done]). apply spec_next_cons; [done|]. rewrite (hd_not_eof _ _ Hall), (control_newline c Hn).
    replace (c =? 34) with false by lia. replace (c =? 92) with false by lia. apply spec_after_intro. rewrite <- !app_assoc, <- !utf8_encode_app.
    eapply spec_weaken; [apply IH; [done|lia]|]. cbv beta. intros x v _ _ [-> ->]. split; [done|]. rewrite append_encoded by lia. by rewrite <- app_assoc.
Qed.

(** ** Reading tokens *)

Lemma no_comment cps a : in_range cps -> hd_cp cps <> 47 -> spec consume_comments cps (fun x _ => x = []) a.
Proof. intros Hr Hh. apply spec_loop. cbn [comments_loop]. apply spec_twin; [done|]. replace (hd_cp cps =? ch "/") with false by lia. by apply spec_ret. Qed.

(** Entering [consume_a_token] in front of a code point that starts no comment *)
Ltac enter_token := unfold consume_a_token; apply spec_offset; eapply spec_bind; [by apply no_comment|]; cbv beta;
  let E := fresh in intros ? [] ? E ->; cbn [app] in E; subst; apply spec_offset; rewrite app_nil_r, Nat.eqb_refl; cbn [negb]; apply spec_next_cons; [done|].

Lemma token_of_ident cps R a : in_range cps -> would_start_an_ident_sequence (hd_cp cps, hd_cp (tail cps), hd_cp (tail (tail cps))) = true ->
  (hd_cp cps = 45 -> hd_cp (tail cps) = 45 -> hd_cp (tail (tail cps)) <> 62) -> spec consume_an_ident_like_token cps R a -> spec consume_a_token cps R a.
Proof.
  intros Hr Hw Hcdc Hi. destruct cps as [|c cps]; [done|]. cbn [hd_cp tail] in *. assert (Hc : c <> 47) by (intros ->; done).
  enter_token. cbn [app]. assert (Hback : spec_after (reconsume_as consume_an_ident_like_token) c cps R a) by by apply spec_after_reconsume.
  destruct (Z.eqb_spec c 45) as [->|Hc45].
  { change (spec_after (consume_hyphen 45 (length a)) 45 cps R a). apply spec_after_triplet; [done|]. unfold would_start_an_ident_sequence in Hw. cbn in Hw.
    replace (would_start_a_number (45, hd_cp cps, hd_cp (tail cps))) with false.
    2:{ unfold would_start_a_number, is_digit. cbn. unfold is_ident_start_code_point, is_valid_escape_sequence in Hw. cbn [fst snd] in Hw. destruct (Z.eqb_spec (hd_cp cps) 92) as [->|]; [done|]. cbn [negb] in Hw. ascii_lia. }
    pose proof Hr as Hr'. apply Forall_cons in Hr' as [_ Hcps]. eapply spec_after_get; [intros; by apply peek_twin_run|]. cbv beta iota. specialize (Hcdc eq_refl).
    replace ((hd_cp cps =? ch "-") && (hd_cp (tail cps) =? ch ">")) with false by lia. apply spec_after_triplet; [done|]. unfold would_start_an_ident_sequence. cbn. by rewrite Hw. }
  destruct (Z.eqb_spec c 92) as [->|Hc92].
  { change (spec_after (consume_reverse_solidus 92 (length a)) 92 cps R a). apply spec_after_twin; [done|]. change (is_valid_escape_sequence (92, hd_cp cps) = true) in Hw. by rewrite Hw. }
  assert (Hs : is_ident_start_code_point c = true).
  { unfold would_start_an_ident_sequence in Hw. replace (c =? ch "-") with false in Hw by lia. replace (c =? 92) with false in Hw by lia. by destruct (is_ident_start_code_point c). }
  rewrite Hs. assert (Hd : is_digit c = false /\ is_whitespace c = false /\ Forall (fun k => (c =? k) = false) [34;35;39;40;41;43;44;46;58;59;60;64;91;93;123;125]).
  { unfold is_ident_start_code_point in Hs. repeat constructor; unfold is_digit, is_whitespace, is_newline; ascii_lia. }
  destruct Hd as (-> & -> & Hk). rewrite !Forall_cons in Hk. destruct_and! Hk. repeat case_match; done.
Qed.
Lemma ident_sequence_read cps ps a : Forall2 ident_piece cps ps -> Forall (fun c => 0 < c <= 0x10FFFF) cps ->
  spec consume_an_ident_sequence (concat ps) (fun x v => x = concat ps /\ v = utf8_encode cps) a.
Proof. intros Hps Hr. apply spec_loop, (ident_loop_pieces cps ps Hps Hr _ []), loop_fuel. eapply pieces_in_range; [apply ident_piece_range|done..]. Qed.

Lemma ident_token_read cps ps a : ident_text cps ps -> Forall (fun c => 0 < c <= 0x10FFFF) cps -> in_range (concat ps) ->
  spec consume_a_token (concat ps) (fun x token => x = concat ps /\ token = create_ident (utf8_encode cps) (utf8_encode (concat ps))) a.
Proof.
  intros (Hps & Hw & Hcdc) Hr Hrange. apply token_of_ident; [done..|]. unfold consume_an_ident_like_token. apply spec_offset. eapply spec_bind; [by apply ident_sequence_read|].
  cbv beta. intros x v rest Erest [-> ->]. rewrite <- (app_nil_r (concat ps)) in Erest at 1. apply app_inv_head in Erest as <-. apply spec_peek; [done|].
  change (hd_cp [] =? ch "(") with false. rewrite andb_false_r. apply spec_source, spec_ret. by rewrite app_nil_r.
Qed.

(** A token that ends with a printed identifier *)
Lemma ident_suffix_read (make : bytes -> bytes -> Token) c cps ps a : Forall2 ident_piece cps ps -> Forall (fun c => 0 < c <= 0x10FFFF) cps ->
  spec_after (do* v := consume_an_ident_sequence in do* source := mget_res (input_since (length a)) in mreturn (make v source)) c (concat ps)
    (fun x token => x = c :: concat ps /\ token = make (utf8_encode cps) (utf8_encode (c :: concat ps))) a.
Proof.
  intros Hps Hr. apply spec_after_intro. eapply spec_bind; [by apply ident_sequence_read|]. cbv beta. intros x v rest Erest [-> ->].
  rewrite <- app_assoc, <- utf8_encode_app. apply spec_source, spec_ret. by rewrite app_nil_r.
Qed.

Lemma at_keyword_read cps ps a : ident_text cps ps -> Forall (fun c => 0 < c <= 0x10FFFF) cps -> in_range (concat ps) ->
  spec consume_a_token (64 :: concat ps) (fun x token => x = 64 :: concat ps /\ token = create_at_keyword (utf8_encode cps) (utf8_encode (64 :: concat ps))) a.
Proof.
  intros (Hps & Hw & _) Hr Hin. assert (Hrange : in_range (64 :: concat ps)) by by constructor. assert (Hne : hd_cp (64 :: concat ps) <> 47) by done.
  enter_token. match goal with |- spec_after _ _ _ ?R _ => change (spec_after (consume_at 64 (length a)) 64 (concat ps) R a) end. unfold consume_at.
  eapply spec_after_get; [intros; by apply peek_triplet_run|]. rewrite Hw. by apply ident_suffix_read.
Qed.

Lemma would_start_hash first second third : would_start_an_ident_sequence (first, second, third) = true ->
  is_ident_code_point first || is_valid_escape_sequence (first, second) = true.
Proof.
  unfold would_start_an_ident_sequence, is_ident_code_point. destruct (Z.eqb_spec first 45) as [->|]; [done|]. destruct (is_ident_start_code_point first); [done|].
  destruct (first =? 92); [|done]. intros ->. apply orb_true_r.
Qed.

Lemma hash_token_read cps ps a : ident_text cps ps -> Forall (fun c => 0 < c <= 0x10FFFF) cps -> in_range (concat ps) ->
  spec consume_a_token (35 :: concat ps) (fun x token => x = 35 :: concat ps /\ token = create_hash (utf8_encode cps) HashId (utf8_encode (35 :: concat ps))) a.
Proof.
  intros (Hps & Hw & _) Hr Hin. assert (Hrange : in_range (35 :: concat ps)) by by constructor. assert (Hne : hd_cp (35 :: concat ps) <> 47) by done.
  enter_token. match goal with |- spec_after _ _ _ ?R _ => change (spec_after (consume_hash 35 (length a)) 35 (concat ps) R a) end. unfold consume_hash.
  eapply spec_after_get; [intros; by apply peek_code_point_run|]. eapply spec_after_get; [intros; by apply peek_twin_run|]. rewrite (would_start_hash _ _ _ Hw).
  eapply spec_after_get; [intros; by apply peek_triplet_run|]. rewrite Hw. by apply (ident_suffix_read (fun v source => create_hash v HashId source)).
Qed.

Lemma string_token_read cps ps a : Forall2 string_piece cps ps -> Forall (fun c => 0 < c <= 0x10FFFF) cps ->
  spec consume_a_token (34 :: concat ps ++ [34])
    (fun x token => x = 34 :: concat ps ++ [34] /\ token = create_string (utf8_encode cps) (utf8_encode (34 :: concat ps ++ [34]))) a.
Proof.
  intros Hps Hr. assert (Hrange : in_range (34 :: concat ps ++ [34])).
  { constructor; [done|]. apply Forall_app. split; [eapply pieces_in_range; [apply string_piece_range|done..]|by repeat constructor]. }
  assert (Hne : hd_cp (34 :: concat ps ++ [34]) <> 47) by done. enter_token. cbn [app]. change (is_whitespace 34) with false. change (34 =? 34) with true. cbv iota.
  apply spec_after_intro. unfold consume_string_token. apply spec_offset. change (utf8_encode [34]) with [34]. rewrite length_app, Nat.add_sub. apply spec_loop.
  eapply spec_weaken; [apply (string_loop_pieces cps ps Hps Hr _ [] a [34])|].
  - rewrite utf8_encode_app, length_app. apply Forall_cons in Hrange as [_ Hrange]. apply Forall_app in Hrange as [Hrange _]. pose proof (encode_length_range _ Hrange). cbn. lia.
  - cbv beta. intros x v _ _ [-> ->]. done.
Qed.

Lemma covers_nil pos tokens : covers pos [] tokens -> exists eof, create_eof_token = Ret eof /\ tokens = [set_position_range eof pos pos].
Proof.
  intros Hc. remember [] as cps eqn:E. destruct Hc as [pos eof He|pos x rest token tokens Hx]; [by exists eof|]. by apply app_eq_nil in E as [-> _].
Qed.

(** A text that is one token *)
Lemma tokenize_one cps token : in_range cps -> cps <> [] -> m_type token <> EndOfFile ->
  spec consume_a_token cps (fun x v => x = cps /\ v = token) [] ->
  exists token' eof, tokenize_decoded (utf8_encode cps) = Ret [token'; eof] /\ m_type eof = EndOfFile /\
    token' = set_position_range token start_of_text (advance_all start_of_text cps).
Proof.
  intros Hr Hne Ht Hs. unfold tokenize_decoded, mloop. change (tokenizer_for (utf8_encode cps)) with (css_state [] cps None start_of_text start_of_text). cbn [m_utf8_iterator css_state].
  pose proof (encode_length_range cps Hr) as Hl. destruct (length (utf8_encode cps)) as [|n] eqn:El; [destruct cps; [done|cbn in Hl; lia]|]. cbn [tokenize_loop].
  rewrite (mbind_run _ _ _ _ _ (mget_run _ _)). destruct (Hs None start_of_text start_of_text) as (x & v & t & E & (rest & p & pp & Ecps & ->) & -> & ->).
  rewrite <- (app_nil_r cps) in Ecps at 1. apply app_inv_head in Ecps as <-. rewrite (mbind_run _ _ _ _ _ E), (mbind_run _ _ _ _ _ (mget_run _ _)). cbn [m_position css_state].
  replace (token_is _ EndOfFile) with false; [|unfold token_is; cbn [m_type set_position_range]; by destruct (m_type token)].
  destruct (tokenize_loop_run (S n) [] ([] ++ utf8_encode cps) p (advance_all start_of_text cps) pp) as (tokens & t' & E' & Hc); [constructor|cbn; lia|].
  rewrite (mbind_run _ _ _ _ _ E'). apply covers_nil in Hc as (eof & He & ->).
  injection He as <-. by eexists _, _.
Qed.
End reading.

(** ** Printing pieces *)

Section printing.
Context `{SimdutfLaws, SimdutfCountLaws}.

Lemma print_character builder c : 0 <= c <= 0x10FFFF -> escape_a_character builder c = builder ++ utf8_encode [92; c].
Proof. intros Hc. unfold escape_a_character. rewrite append_code_point_encoded by done. rewrite <- app_assoc. by rewrite (utf8_encode_cons 92), utf8_encode_single by done. Qed.

Lemma print_code_point builder c : 0 < c < 128 -> escape_a_character_as_code_point builder c = Ret (builder ++ utf8_encode (92 :: hex_text c ++ [32])).
Proof.
  intros Hc. unfold escape_a_character_as_code_point. destruct (hex_text_spec c) as (-> & Hx & _); [lia|]. cbn [res_bind]. rewrite encode_ascii; [done|].
  constructor; [done|]. apply Forall_app. split; [|by repeat constructor]. apply forallb_Forall_iff in Hx. eapply Forall_impl; [exact Hx|]. cbn beta. intros d Hd. split; ascii_lia.
Qed.

Lemma print_string_character builder c : 0 < c <= 0x10FFFF ->
  exists p, serialize_string_character builder c = Ret (builder ++ utf8_encode p) /\ string_piece c p.
Proof.
  intros Hc. unfold serialize_string_character. replace (c =? 0) with false by lia. destruct (is_control c) eqn:Ec.
  { eexists. rewrite print_code_point by (unfold is_control in Ec; lia). split; [done|]. left. constructor. unfold is_control in Ec. lia. }
  destruct (_ || _) eqn:E; eexists.
  - rewrite print_character by lia. split; [done|]. left. constructor; [unfold is_hex_digit, is_digit; lia|done].
  - rewrite append_code_point_encoded, <- utf8_encode_single by lia. split; [done|]. right. split; [done|]. split; [lia|]. split; [lia|done].
Qed.

Lemma print_string_characters cps : Forall (fun c => 0 < c <= 0x10FFFF) cps -> forall builder,
  exists ps, serialize_string_characters builder cps = Ret (builder ++ utf8_encode (concat ps)) /\ Forall2 string_piece cps ps.
Proof.
  induction 1 as [|c cps Hc _ IH]; intros builder; cbn [serialize_string_characters]; [exists []; by rewrite app_nil_r|].
  destruct (print_string_character builder c Hc) as (p & -> & Hp). cbn [res_bind]. destruct (IH (builder ++ utf8_encode p)) as (ps & -> & Hps).
  exists (p :: ps). cbn [concat]. rewrite utf8_encode_app, app_assoc. by split; [|constructor].
Qed.

(** The condition on an unescaped code point at the start of an identifier *)
Definition starts_plainly (first_character length_ : Z) (builder : bytes) (c : Z) : Prop :=
  (builder = [] -> is_digit c = false /\ (c = 45 -> length_ <> 1)) /\ (length builder = 1%nat -> first_character = 45 -> is_digit c = false).

Lemma print_ident_character first_character length_ builder c : 0 < c <= 0x10FFFF ->
  exists p, serialize_ident_character first_character length_ builder c = Ret (builder ++ utf8_encode p) /\
    (escaped c p \/ p = [c] /\ is_ident_code_point c = true /\ starts_plainly first_character length_ builder c).
Proof.
  intros Hc. unfold serialize_ident_character. replace (c =? 0) with false by lia. destruct (is_control c) eqn:Ec.
  { eexists. rewrite print_code_point by (unfold is_control in Ec; lia). split; [done|]. left. constructor. unfold is_control in Ec. lia. }
  destruct (sv_is_empty builder && _ && _) eqn:E1.
  { eexists. rewrite print_code_point by lia. split; [done|]. left. constructor. lia. }
  destruct ((length builder =? 1)%nat && _ && _ && _) eqn:E2.
  { eexists. rewrite print_code_point by lia. split; [done|]. left. constructor. lia. }
  destruct (sv_is_empty builder && (c =? ch "-") && (length_ =? 1)) eqn:E3.
  { eexists. rewrite print_character by lia. split; [done|]. left. constructor; [unfold is_hex_digit, is_digit; lia|done]. }
  destruct (_ || _) eqn:E4; eexists.
  - rewrite append_code_point_encoded, <- utf8_encode_single by lia. split; [done|]. right. split; [done|]. split; [unfold is_ident_code_point, is_ident_start_code_point; ascii_lia|].
    unfold starts_plainly, is_digit. split; [intros ->; cbn [sv_is_empty] in *; lia|]. intros Hl Hf. rewrite Hl in E2. cbn in E2. lia.
  - rewrite print_character by lia. split; [done|]. left. constructor; [unfold is_hex_digit, is_digit; lia|done].
Qed.
Lemma print_ident_characters cps first_character length_ : Forall (fun c => 0 < c <= 0x10FFFF) cps -> forall builder,
  exists ps, serialize_ident_characters first_character length_ builder cps = Ret (builder ++ utf8_encode (concat ps)) /\ Forall2 ident_piece cps ps.
Proof.
  induction 1 as [|c cps Hc _ IH]; intros builder; cbn [serialize_ident_characters]; [exists []; by rewrite app_nil_r|].
  destruct (print_ident_character first_character length_ builder c Hc) as (p & -> & Hp). cbn [res_bind]. destruct (IH (builder ++ utf8_encode p)) as (ps & -> & Hps).
  exists (p :: ps). cbn [concat]. rewrite utf8_encode_app, app_assoc. split; [done|]. constructor; [|done]. destruct Hp as [?|(? & ? & _)]; [by left|by right].
Qed.

Lemma ident_head cps ps : Forall (fun c => 0 < c <= 0x10FFFF) cps -> Forall2 ident_piece cps ps -> hd_cp (concat ps) <> 62.
Proof.
  intros Hr Hps. destruct Hps as [|c p cps' ps' Hp _]; [done|]. apply Forall_cons in Hr as [Hc _]. cbn [concat]. destruct Hp as [He|[-> Hi]].
  - by destruct (escaped_read c p [] Hc He) as (d & q & -> & _).
  - cbn. by intros ->.
Qed.

Lemma escaped_starts c p rest : 0 < c <= 0x10FFFF -> escaped c p ->
  exists d q, p = 92 :: d :: q /\ is_valid_escape_sequence (92, d) = true /\ would_start_an_ident_sequence (92, d, hd_cp (q ++ rest)) = true.
Proof.
  intros Hc He. destruct (escaped_read c p rest Hc He) as (d & q & -> & Hn & _). exists d, q.
  unfold would_start_an_ident_sequence, is_valid_escape_sequence. cbn. by rewrite Hn.
Qed.

Lemma print_identifier cps : Forall (fun c => 0 < c <= 0x10FFFF) cps -> scalars cps -> cps <> [] ->
  exists ps, serialize_an_identifier (utf8_encode cps) = Ret (utf8_encode (concat ps)) /\ ident_text cps ps.
Proof.
  intros Hr Hs Hne. unfold serialize_an_identifier, serialize_an_identifier_into. rewrite utf8_length_encoded by done.
  assert (Hin : in_range cps) by (eapply Forall_impl; [exact Hr|]; cbn; intros; lia).
  rewrite <- (app_nil_r (utf8_encode cps)), code_points_utf8_encode, !app_nil_r by done. destruct cps as [|c cps]; [done|].
  apply Forall_cons in Hin as [Hc _]. destruct (encode_head c cps Hc) as (b0 & tl & -> & -> & _). apply Forall_cons in Hr as [Hc' Hr]. cbn [code_points serialize_ident_characters].
  destruct (print_ident_character c (Z.of_nat (length (c :: cps))) [] c Hc') as (p & -> & Hp). cbn [res_bind app]. destruct Hp as [He|(-> & Hi & Hst & _)].
  { destruct (print_ident_characters cps c (Z.of_nat (length (c :: cps))) Hr (utf8_encode p)) as (ps & -> & Hps). exists (p :: ps). cbn [concat]. rewrite utf8_encode_app.
    split; [done|]. destruct (escaped_starts c p (concat ps) Hc' He) as (d & q & -> & _ & Hw). split; [constructor; [by left|done]|]. by split. }
  destruct Hst as [Hdig Hlen]; [done|]. destruct (Z.eq_dec c 45) as [->|Hc45].
  2:{ destruct (print_ident_characters cps c (Z.of_nat (length (c :: cps))) Hr (utf8_encode [c])) as (ps & -> & Hps). exists ([c] :: ps). cbn [concat]. rewrite utf8_encode_app.
      split; [done|]. split; [constructor; [by right|done]|]. split; [|done]. cbn [concat app hd_cp]. unfold would_start_an_ident_sequence. replace (c =? ch "-") with false by lia.
      unfold is_ident_code_point in Hi. unfold is_digit in Hdig. destruct (is_ident_start_code_point c); [done|]. ascii_lia. }
  destruct cps as [|c2 cps]; [by destruct (Hlen eq_refl)|]. cbn [serialize_ident_characters]. apply Forall_cons in Hr as [Hc2 Hr].
  destruct (print_ident_character 45 (Z.of_nat (length (45 :: c2 :: cps))) (utf8_encode [45]) c2 Hc2) as (p & -> & Hp). cbn [res_bind].
  destruct (print_ident_characters cps 45 (Z.of_nat (length (45 :: c2 :: cps))) Hr (utf8_encode [45] ++ utf8_encode p)) as (ps & -> & Hps). exists ([45] :: p :: ps). cbn [concat].
  rewrite !utf8_encode_app, app_assoc. split; [done|]. destruct Hp as [He|(-> & Hi2 & _ & Hst)].
  - destruct (escaped_starts c2 p (concat ps) Hc2 He) as (d & q & -> & Hv & _). split; [constructor; [by right|constructor; [by left|done]]|]. split; [|done].
    cbn [concat app hd_cp tail]. unfold would_start_an_ident_sequence. rewrite Hv. apply orb_true_r.
  - specialize (Hst eq_refl eq_refl). split; [constructor; [by right|constructor; [by right|done]]|]. cbn [concat app hd_cp tail]. split; [|intros _ _; by eapply ident_head].
    unfold would_start_an_ident_sequence. change (45 =? ch "-") with true. cbv iota. unfold is_ident_code_point in Hi2. unfold is_digit in Hst.
    destruct (is_ident_start_code_point c2); [done|]. ascii_lia.
Qed.
End printing.

(** ** Tokens that print as one token *)

Section tokens.
Context `{LookupTables} `{SimdutfUtf16} `{SimdutfLaws, SimdutfCountLaws} `{FastFloatLaws} `{FastFloatDoubleSyntaxLaws}.

(** [token], whose value is the text of [cps], can be told from its text alone: it
    is a string, a keyword that is not empty, a hash that is an identifier, a
    bracket, a separator, or whitespace. *)
Definition self_delimiting (token : Token) (cps : list Z) : Prop :=
  m_value token = utf8_encode cps /\
  match m_type token with
  | String_ => True
  | Ident | AtKeyword => cps <> []
  | Hash => cps <> [] /\ m_hash_type token = HashId
  | Whitespace | CDO | CDC | Colon | Semicolon | Comma | OpenSquare | CloseSquare | OpenParen | CloseParen | OpenCurly | CloseCurly => cps = []
  | _ => False
  end.

(** A text that is read as [token], up to source text and positions *)
Definition reads_as (text : bytes) (token : Token) : Prop :=
  exists token' eof, tokenize_decoded (filter_decoded text) = Ret [token'; eof] /\ m_type eof = EndOfFile /\
    m_type token' = m_type token /\ m_value token' = m_value token /\ (m_type token = Hash -> m_hash_type token' = m_hash_type token).

Lemma escaped_unfiltered c p : 0 < c <= 0x10FFFF -> is_unicode_surrogate c = false -> escaped c p -> Forall (fun x => is_filterable x = false) p.
Proof.
  intros Hc Hs [_ Hn|Ha].
  - repeat constructor. unfold is_filterable. rewrite Hs. unfold is_control in Hn. lia.
  - constructor; [done|]. apply Forall_app. split; [|by repeat constructor]. destruct (hex_text_spec c) as (_ & Hx & _); [lia|]. apply forallb_Forall_iff in Hx.
    eapply Forall_impl; [exact Hx|]. cbn beta. intros d Hd. unfold is_filterable. ascii_lia.
Qed.

Lemma pieces_unfiltered (piece : Z -> list Z -> Prop) cps ps : Forall (fun c => 0 < c <= 0x10FFFF) cps -> scalars cps ->
  (forall c p, piece c p -> escaped c p \/ p = [c] /\ is_control c = false) -> Forall2 piece cps ps -> Forall (fun x => is_filterable x = false) (concat ps).
Proof.
  intros Hr Hs Hp Hps. induction Hps as [|c p cps ps Hc _ IH]; [done|]. apply Forall_cons in Hr as [Hcr Hr]. apply Forall_cons in Hs as [[_ Hcs] Hs].
  cbn [concat]. apply Forall_app. split; [|auto]. assert (Hsur : is_unicode_surrogate c = false) by (unfold is_unicode_scalar_value in Hcs; by destruct (is_unicode_surrogate c); rewrite ?andb_false_r in Hcs).
  destruct (Hp c p Hc) as [He|[-> Hn]]; [by eapply escaped_unfiltered|]. repeat constructor. unfold is_filterable. rewrite Hsur. unfold is_control in Hn. lia.
Qed.

Lemma unfiltered_text cps : in_range cps -> Forall (fun x => is_filterable x = false) cps -> filter_decoded (utf8_encode cps) = utf8_encode cps.
Proof.
  intros Hr Hf. unfold filter_decoded. rewrite <- (app_nil_r (utf8_encode cps)) at 1 2. rewrite code_points_utf8_encode by done. change (code_points []) with (@nil Z). rewrite !app_nil_r.
  destruct (existsb is_filterable cps) eqn:E; [|done]. apply existsb_exists in E as (c & Hc & E). rewrite Forall_forall in Hf. rewrite Hf in E; [done|]. by apply list_elem_of_In.
Qed.

Lemma reads_as_one text token made : in_range text -> text <> [] -> Forall (fun x => is_filterable x = false) text ->
  spec consume_a_token text (fun x v => x = text /\ v = made) [] -> m_type made <> EndOfFile ->
  m_type made = m_type token -> m_value made = m_value token -> (m_type token = Hash -> m_hash_type made = m_hash_type token) -> reads_as (utf8_encode text) token.
Proof.
  intros Hr Hne Hf Hs Hm Ht Hv Hh. destruct (tokenize_one text made Hr Hne Hm Hs) as (token' & eof & E & He & ->). unfold reads_as. rewrite unfiltered_text by done.
  by eexists _, _.
Qed.

Lemma print_string cps : Forall (fun c => 0 < c <= 0x10FFFF) cps ->
  exists ps, serialize_a_string (utf8_encode cps) = Ret (utf8_encode (34 :: concat ps ++ [34])) /\ Forall2 string_piece cps ps.
Proof.
  intros Hr. assert (Hin : in_range cps) by (eapply Forall_impl; [exact Hr|]; cbn; intros; lia). destruct (print_string_characters cps Hr [34]) as (ps & E & Hps). exists ps.
  split; [|done]. unfold serialize_a_string, serialize_a_string_into. rewrite <- (app_nil_r (utf8_encode cps)), code_points_utf8_encode by done. change (code_points []) with (@nil Z).
  rewrite app_nil_r. cbn [app]. rewrite E. cbn [res_bind]. by rewrite utf8_encode_cons, utf8_encode_app by done.
Qed.

Lemma string_reads cps token : Forall (fun c => 0 < c <= 0x10FFFF) cps -> scalars cps -> m_type token = String_ -> m_value token = utf8_encode cps ->
  exists text, serialize_a_string (m_value token) = Ret text /\ reads_as text token.
Proof.
  intros Hr Hs Ht Hv. destruct (print_string cps Hr) as (ps & E & Hps). rewrite Hv. eexists. split; [exact E|].
  assert (Hin : in_range (concat ps)) by (eapply pieces_in_range; [apply string_piece_range|done..]).
  eapply reads_as_one; [..|by apply string_token_read|done|by rewrite Ht|by rewrite Hv|by rewrite Ht]; [|done|].
  - constructor; [done|]. apply Forall_app. split; [done|by repeat constructor].
  - constructor; [done|]. apply Forall_app. split; [|by repeat constructor]. eapply pieces_unfiltered; [done..| |exact Hps]. intros c p [?|(? & _ & _ & ?)]; [by left|by right].
Qed.

Lemma ident_unfiltered cps ps : Forall (fun c => 0 < c <= 0x10FFFF) cps -> scalars cps -> Forall2 ident_piece cps ps -> Forall (fun x => is_filterable x = false) (concat ps).
Proof.
  intros Hr Hs. apply pieces_unfiltered; [done..|]. intros c p [?|[? Hi]]; [by left|right]. split; [done|].
  unfold is_ident_code_point, is_ident_start_code_point in Hi. unfold is_control. ascii_lia.
Qed.

Lemma ident_reads cps : Forall (fun c => 0 < c <= 0x10FFFF) cps -> scalars cps -> cps <> [] ->
  exists name, serialize_an_identifier (utf8_encode cps) = Ret name /\ (forall token, m_value token = utf8_encode cps ->
    (m_type token = Ident -> reads_as name token) /\ (m_type token = AtKeyword -> reads_as (sv "@" ++ name) token) /\
    (m_type token = Hash -> m_hash_type token = HashId -> reads_as (sv "#" ++ name) token)).
Proof.
  intros Hr Hs Hne. destruct (print_identifier cps Hr Hs Hne) as (ps & E & Hps). eexists. split; [exact E|]. intros token Hv. pose proof Hps as (H2' & Hw & _).
  assert (Hin : in_range (concat ps)) by (eapply pieces_in_range; [apply ident_piece_range|done..]). pose proof (ident_unfiltered cps ps Hr Hs H2') as Hf.
  split; [|split]; intros Ht.
  - eapply reads_as_one; [done| |done|by apply ident_token_read|done|done|done|by rewrite Ht]. intros Enil. by rewrite Enil in Hw.
  - change (sv "@" ++ utf8_encode (concat ps)) with (utf8_encode [64] ++ utf8_encode (concat ps)). rewrite <- encode_cons.
    eapply reads_as_one; [by constructor|done|by constructor|by apply at_keyword_read|done|done|done|by rewrite Ht].
  - intros Hh. change (sv "#" ++ utf8_encode (concat ps)) with (utf8_encode [35] ++ utf8_encode (concat ps)). rewrite <- encode_cons.
    by eapply reads_as_one; [by constructor|done|by constructor|by apply hash_token_read|done|done|done|].
Qed.

Lemma fixed_reads token text : m_value token = [] -> token_to_string token = Ret text ->
  m_type token ∈ [Whitespace; CDO; CDC; Colon; Semicolon; Comma; OpenSquare; CloseSquare; OpenParen; CloseParen; OpenCurly; CloseCurly] -> reads_as text token.
Proof.
  intros Hv E Ht. unfold token_to_string in E. unfold reads_as. rewrite Hv. repeat (apply elem_of_cons in Ht as [Ht|Ht]; [rewrite Ht in E |- *; injection E as <-; by eexists _, _|]).
  by apply elem_of_nil in Ht.
Qed.
End tokens.

(** ** Properties *)

(** C10: serializing and tokenizing round-trip.  The text of a string token, of an
    ident, at-keyword or identifier hash token whose value is not empty, of
    whitespace, a bracket or a separator is, for every value without U+0000, read as
    that one token with the same value and then the end of the input: what needs an
    escape (quotes, backslashes, control characters, a digit or a lone hyphen where an
    identifier starts) gets one, and the escape reads back as the character. *)
Theorem css_token_roundtrip `{LookupTables} `{SimdutfUtf16} `{SimdutfLaws, SimdutfCountLaws} `{FastFloatLaws} `{FastFloatDoubleSyntaxLaws}
    (token : Token) (cps : list Z) (Hs : scalars cps) (Hnull : Forall (fun c => c <> 0) cps) (Hself : self_delimiting token cps) :
  exists text, token_to_string token = Ret text /\ reads_as text token.
Proof.
  assert (Hr : Forall (fun c => 0 < c <= 0x10FFFF) cps).
  { rewrite Forall_forall in Hs, Hnull |- *. intros c Hc. destruct (Hs c Hc) as [Hp Hsc]. specialize (Hnull c Hc). unfold is_unicode_scalar_value, is_unicode in Hsc. lia. }
  destruct Hself as [Hv Ht]. unfold token_to_string. destruct (m_type token) eqn:E; try done.
  all: try (eexists; split; [reflexivity|]; apply fixed_reads; [by rewrite Hv, Ht|by unfold token_to_string; rewrite E|rewrite E; by repeat (apply list_elem_of_here || apply list_elem_of_further)]).
  - destruct (ident_reads cps Hr Hs Ht) as (name & En & Hread). exists name. rewrite Hv. split; [done|]. by apply Hread.
  - destruct (ident_reads cps Hr Hs Ht) as (name & En & Hread). rewrite Hv, En. eexists. split; [done|]. by apply Hread.
  - destruct Ht as [Ht Hh]. destruct (ident_reads cps Hr Hs Ht) as (name & En & Hread). rewrite Hv, Hh, En. eexists. split; [done|]. by apply Hread.
  - by eapply string_reads.
Qed.

Lemma css_token_roundtrip_witness :
  exists text, token_to_string (create_ident (sv "-1 b") []) = Ret text /\ reads_as text (create_ident (sv "-1 b") []).
Proof. by apply (css_token_roundtrip _ (sv "-1 b")); repeat constructor. Defined.

(** ** Divergences *)

(** The type and the text of each token *)
Definition outline (tokens : list Token) : list (TokenType * bytes) := (fun token => (m_type token, m_original_source_text token)) <$> tokens.

(** A comment that is not closed should go on to the end of the input; its last
    code point is left, and tokenized. *)
Theorem unterminated_comment_leaks `{LookupTables} `{Simdutf} `{SimdutfUtf16} `{FastFloat} `{FastFloatDouble} :
  exists tokens, tokenize_decoded (sv "a/*b c") = Ret tokens /\
    outline tokens = [(Ident, sv "a"); (Whitespace, sv "/*b "); (Ident, sv "c"); (EndOfFile, [])].
Proof. eexists. split; vm_compute; reflexivity. Qed.

(** Preprocessing replaces carriage returns by line feeds, but drops one at the
    end of the input. *)
Theorem trailing_carriage_return_dropped : filter_decoded (sv "a" ++ [13]) = sv "a" /\ filter_decoded (sv "a" ++ [13; 13]) = sv "a" ++ [10].
Proof. by vm_compute. Qed.

(** An identifier is appended to a builder that is not empty, as the class of a
    selector is, without the escape of its leading digit, and the text is no longer
    a class selector. *)
Theorem identifier_after_text_not_escaped `{LookupTables} `{SimdutfUtf16} `{Simdutf, SimdutfCount} `{FastFloat} `{FastFloatDouble} :
  serialize_an_identifier (sv "1a") = Ret ([92] ++ sv "31 a") /\ serialize_an_identifier_into (sv ".") (sv "1a") = Ret (sv ".1a").
Proof. by vm_compute. Qed.

(** The value of a hash that is no identifier is printed without escapes. *)
Theorem unrestricted_hash_not_escaped `{LookupTables} `{SimdutfUtf16} `{Simdutf, SimdutfCount} `{FastFloat} `{FastFloatDouble} :
  exists token eof, tokenize_decoded (sv "#1" ++ [92] ++ sv "{") = Ret [token; eof] /\ m_value token = sv "1{" /\ token_to_string token = Ret (sv "#1{") /\
    exists tokens, tokenize_decoded (sv "#1{") = Ret tokens /\ outline tokens = [(Hash, sv "#1"); (OpenCurly, sv "{"); (EndOfFile, [])].
Proof. eexists _, _. split; [vm_compute; reflexivity|]. do 2 (split; [vm_compute; reflexivity|]). eexists. split; vm_compute; reflexivity. Qed.
