(* ===== verification/CssSyntax.v ===== *)
(** * The CSS syntax parser: [LibWeb/CSS/Parser/Parser.cpp], [TokenStream.h],
      [ComponentValue.{h,cpp}], [Types.{h,cpp}] and [RuleContext.cpp]

    The template parameter of a stream is the class [StreamItem], with an instance
    for tokens and one for component values; the methods of the parser run in a
    state monad over [res] whose state is the stream and [m_rule_context].  Parse
    errors only reach the debug log. *)

From S2P Require Import Prelude CharacterTypes Utf8 MemMem Strings Tokens Wtf8 PatternTokenizer.
From S2P Require Import BinarySearch TextCodec Utf16 Decoders FloatTables FloatToDecimal FloatFacts FloatExact FloatTheorems FloatFormat CssTokens.
From S2P Require CssTokenizer.
Local Open Scope Z_scope.

(** ** Component values *)

Inductive ComponentValue :=
| OfToken (token : Token)
| OfFunction (name : bytes) (value : list ComponentValue) (name_token end_token : Token)
| OfBlock (token : Token) (value : list ComponentValue) (end_token : Token)
| GuaranteedInvalidValue.

(** [ComponentValue::is], [is_block] with [is_curly], [is_ident] and [is_delim] *)
Definition value_is (value : ComponentValue) (type : TokenType) : bool :=
  match value with OfToken token => token_is token type | _ => false end.

Definition is_curly_block (value : ComponentValue) : bool :=
  match value with OfBlock token _ _ => token_is token OpenCurly | _ => false end.

(** [Token::delim()]: the first code point of the value *)
Definition delim (token : Token) : res Z :=
  match m_value token with [] => Crash | b0 :: rest => Ret (deref_at b0 rest) end.

Definition is_ident (value : ComponentValue) (ident : bytes) : bool :=
  match value with OfToken token => token_is token Ident && equals_ignoring_ascii_case (m_value token) ident | _ => false end.

Definition is_delim (value : ComponentValue) (code_point : Z) : res bool :=
  match value with
  | OfToken token => if token_is token Delim then let* d := delim token in Ret (d =? code_point) else Ret false
  | _ => Ret false
  end.

(** [ComponentValue::original_source_text] *)
Fixpoint original_source_text (value : ComponentValue) : bytes :=
  let texts := fix texts (values : list ComponentValue) : bytes :=
    match values with [] => [] | value :: values => original_source_text value ++ texts values end in
  match value with
  | OfToken token => m_original_source_text token
  | OfFunction _ value name_token end_token => m_original_source_text name_token ++ texts value ++ m_original_source_text end_token
  | OfBlock token value end_token => m_original_source_text token ++ texts value ++ m_original_source_text end_token
  | GuaranteedInvalidValue => []
  end.

Definition contains_guaranteed_invalid_value : ComponentValue -> bool :=
  fix contains (value : ComponentValue) : bool :=
    match value with
    | OfToken _ => false
    | OfFunction _ value _ _ | OfBlock _ value _ => existsb contains value
    | GuaranteedInvalidValue => true
    end.

Section to_string.
Context `{Simdutf, SimdutfCount}.

(** [ComponentValue::to_string], [SimpleBlock::to_string] and [Function::to_string] *)
Fixpoint component_value_to_string (value : ComponentValue) : res bytes :=
  let texts := fix texts (values : list ComponentValue) : res bytes :=
    match values with
    | [] => Ret []
    | value :: values => let* text := component_value_to_string value in let* rest := texts values in Ret (text ++ rest)
    end in
  match value with
  | OfToken token => token_to_string token
  | OfFunction name value _ _ =>
      let* name := serialize_an_identifier_into [] name in
      let* text := texts value in
      Ret (name ++ [ch "("] ++ text ++ [ch ")"])
  | OfBlock token value _ => let* text := texts value in Ret (bracket_string token ++ text ++ bracket_mirror_string token)
  | GuaranteedInvalidValue => Ret []
  end.
End to_string.

(** ** Streams *)

Class StreamItem (T : Type) := {
  item_is : T -> TokenType -> bool;
  item_token : T -> res Token;
  item_value : T -> ComponentValue;
  make_eof : res T
}.

#[export] Instance token_item : StreamItem Token :=
  {| item_is := token_is; item_token := Ret; item_value := OfToken; make_eof := create_token EndOfFile [] |}.

#[export] Instance component_value_item : StreamItem ComponentValue :=
  {| item_is := value_is;
     item_token := fun value => match value with OfToken token => Ret token | _ => Crash end;
     item_value := fun value => value;
     make_eof := let* token := create_token EndOfFile [] in Ret (OfToken token) |}.

Record TokenStream (T : Type) := {
  m_tokens : list T;
  m_index : nat;
  m_marked_indexes : list nat;
  m_eof : T
}.
Arguments m_tokens {T}. Arguments m_index {T}. Arguments m_marked_indexes {T}. Arguments m_eof {T}.

Section stream.
Context {T : Type} `{StreamItem T}.

Definition token_stream (tokens : list T) : res (TokenStream T) :=
  let* eof := make_eof in Ret {| m_tokens := tokens; m_index := 0; m_marked_indexes := []; m_eof := eof |}.

Definition with_index (s : TokenStream T) (index : nat) : TokenStream T :=
  {| m_tokens := m_tokens s; m_index := index; m_marked_indexes := m_marked_indexes s; m_eof := m_eof s |}.

Definition next_token (s : TokenStream T) : T := default (m_eof s) (m_tokens s !! m_index s).

Definition stream_is_empty (s : TokenStream T) : bool := item_is (next_token s) EndOfFile.

Definition consume_a_token (s : TokenStream T) : T * TokenStream T := (next_token s, with_index s (S (m_index s))).

Definition discard_a_token (s : TokenStream T) : TokenStream T := if stream_is_empty s then s else with_index s (S (m_index s)).

Definition mark (s : TokenStream T) : TokenStream T :=
  {| m_tokens := m_tokens s; m_index := m_index s; m_marked_indexes := m_marked_indexes s ++ [m_index s]; m_eof := m_eof s |}.

(** [Vector::take_last] of the marks *)
Definition take_mark (s : TokenStream T) : res (nat * TokenStream T) :=
  let* index := unwrap (last (m_marked_indexes s)) in
  Ret (index, {| m_tokens := m_tokens s; m_index := m_index s; m_marked_indexes := removelast (m_marked_indexes s); m_eof := m_eof s |}).

Definition restore_a_mark (s : TokenStream T) : res (TokenStream T) := let* (index, s) := take_mark s in Ret (with_index s index).
Definition discard_a_mark (s : TokenStream T) : res (TokenStream T) := let* (_, s) := take_mark s in Ret s.

Fixpoint discard_whitespace_loop (fuel : nat) (s : TokenStream T) : res (TokenStream T) :=
  match fuel with
  | O => Crash
  | S fuel => if item_is (next_token s) Whitespace then discard_whitespace_loop fuel (discard_a_token s) else Ret s
  end.

(** The number of iterations of a loop that moves forward in each *)
Definition stream_fuel (s : TokenStream T) : nat := S (S (length (m_tokens s))).

Definition discard_whitespace (s : TokenStream T) : res (TokenStream T) := discard_whitespace_loop (stream_fuel s) s.

Definition remaining_token_count (s : TokenStream T) : nat := length (m_tokens s) - m_index s.

Definition current_token (s : TokenStream T) : T := match m_index s with O => m_eof s | S index => default (m_eof s) (m_tokens s !! index) end.

Definition peek_token (s : TokenStream T) (offset : nat) : T :=
  if (remaining_token_count s <=? offset)%nat then m_eof s else default (m_eof s) (m_tokens s !! (m_index s + offset)%nat).

Definition reconsume_current_input_token (s : TokenStream T) : TokenStream T := with_index s (m_index s - 1).

Definition of_single_token (token : T) : res (TokenStream T) := token_stream [token].

(** [tokens_since], where [Span::slice] verifies its range *)
Definition tokens_since (s : TokenStream T) (start : nat) : res (list T) :=
  if (m_index s <? start)%nat then Ret []
  else verify (m_index s <=? length (m_tokens s))%nat (Ret (take (m_index s - start) (drop start (m_tokens s)))).
End stream.

(** ** Rules *)

Record Declaration := {
  declaration_name : bytes;
  declaration_value : list ComponentValue;
  declaration_important : bool;
  original_value_text : option bytes;
  original_full_text : option bytes
}.

(** A rule or a list of declarations, for the type [R] of rules *)
Inductive RuleOrDeclarations (R : Type) :=
| OfRule (rule : R)
| OfDeclarations (declarations : list Declaration).
Arguments OfRule {R}. Arguments OfDeclarations {R}.

Inductive Rule :=
| AtRule (name : bytes) (prelude : list ComponentValue) (child_rules_and_lists_of_declarations : list (RuleOrDeclarations Rule)) (is_block_rule : bool)
| QualifiedRule (prelude : list ComponentValue) (declarations : list Declaration) (child_rules : list (RuleOrDeclarations Rule)).

Definition RuleOrListOfDeclarations : Type := RuleOrDeclarations Rule.

(** [Variant<Empty, QualifiedRule, InvalidRuleError>] *)
Inductive QualifiedRuleResult :=
| Nothing
| ARule (rule : Rule)
| InvalidRuleError.

Inductive RuleContext :=
| Unknown | Style | AtMedia | AtFontFace | AtKeyframes | Keyframe | AtSupports | SupportsCondition | AtLayer | AtProperty | AtPage | Margin.

#[export] Instance rule_context_eq_dec : EqDecision RuleContext.
Proof. solve_decision. Defined.

Definition is_margin_rule_name (name : bytes) : bool :=
  is_one_of_ignoring_ascii_case name
    [sv "top-left-corner"; sv "top-left"; sv "top-center"; sv "top-right"; sv "top-right-corner"; sv "bottom-left-corner"; sv "bottom-left";
     sv "bottom-center"; sv "bottom-right"; sv "bottom-right-corner"; sv "left-top"; sv "left-middle"; sv "left-bottom"; sv "right-top";
     sv "right-middle"; sv "right-bottom"].

Definition rule_context_type_for_at_rule (name : bytes) : RuleContext :=
  if equals_ignoring_ascii_case name (sv "media") then AtMedia
  else if equals_ignoring_ascii_case name (sv "font-face") then AtFontFace
  else if equals_ignoring_ascii_case name (sv "keyframes") then AtKeyframes
  else if equals_ignoring_ascii_case name (sv "supports") then AtSupports
  else if equals_ignoring_ascii_case name (sv "layer") then AtLayer
  else if equals_ignoring_ascii_case name (sv "property") then AtProperty
  else if equals_ignoring_ascii_case name (sv "page") then AtPage
  else if is_margin_rule_name name then Margin
  else Unknown.

Definition contains_slow (context : list RuleContext) (type : RuleContext) : bool := existsb (fun x => bool_decide (x = type)) context.

(** [is_valid_in_the_current_context] of a declaration *)
Definition declaration_is_valid (context : list RuleContext) : bool :=
  match last context with
  | None => false
  | Some Unknown => false
  | Some (Style | Keyframe) => true
  | Some (AtLayer | AtMedia | AtSupports) => contains_slow context Style
  | Some (AtFontFace | AtPage | AtProperty | Margin) => true
  | Some AtKeyframes => false
  | Some SupportsCondition => true
  end.

(** [first_is_one_of] of a name *)
Definition name_is_one_of (name : bytes) (names : list bytes) : bool := existsb (fun x => bool_decide (name = x)) names.

(** [is_valid_in_the_current_context] of an at-rule *)
Definition at_rule_is_valid (context : list RuleContext) (name : bytes) : res bool :=
  match last context with
  | None => Ret (negb (is_margin_rule_name name))
  | Some type =>
      if contains_slow context Style then Ret (name_is_one_of name [sv "layer"; sv "media"; sv "supports"])
      else
        match type with
        | Unknown => Ret false
        | Style => Crash
        | AtLayer | AtMedia | AtSupports => Ret (negb (name_is_one_of name [sv "import"; sv "namespace"]))
        | SupportsCondition => Ret false
        | AtPage => Ret (is_margin_rule_name name)
        | AtFontFace | AtKeyframes | Keyframe | AtProperty | Margin => Ret false
        end
  end.

(** [is_valid_in_the_current_context] of a qualified rule *)
Definition qualified_rule_is_valid (context : list RuleContext) : bool :=
  match last context with
  | None => true
  | Some Unknown => false
  | Some Style => true
  | Some (AtLayer | AtMedia | AtSupports) => true
  | Some AtKeyframes => true
  | Some SupportsCondition => false
  | Some (AtFontFace | AtPage | AtProperty | Keyframe | Margin) => false
  end.

Definition is_invalid_custom_property_name_string (string : bytes) : bool := bool_decide (string = sv "--").
Definition is_a_custom_property_name_string (string : bytes) : bool :=
  starts_with string (sv "--") CaseSensitive && negb (is_invalid_custom_property_name_string string).

(** ** The parser's state *)

Record Parser (T : Type) := { m_rule_context : list RuleContext; input : TokenStream T }.
Arguments m_rule_context {T}. Arguments input {T}.

Definition P (T A : Type) : Type := Parser T -> res (A * Parser T).

Section monad.
Context {T : Type}.

Definition preturn {A} (a : A) : P T A := fun p => Ret (a, p).
Definition pbind {A B} (e : P T A) (k : A -> P T B) : P T B := fun p => let* (a, p) := e p in k a p.
Definition plift {A} (e : res A) : P T A := fun p => let* a := e in Ret (a, p).
(** Reading the stream, and changing it *)
Definition pget {A} (f : TokenStream T -> A) : P T A := fun p => Ret (f (input p), p).
Definition pmodify {A} (f : TokenStream T -> res (A * TokenStream T)) : P T A :=
  fun p => let* (a, s) := f (input p) in Ret (a, {| m_rule_context := m_rule_context p; input := s |}).
Definition pstep (f : TokenStream T -> res (TokenStream T)) : P T unit := pmodify (fun s => let* s := f s in Ret (tt, s)).
(** A loop with the fuel for the stream *)
Definition ploop {A} (f : nat -> P T A) : P T A := fun p => f (stream_fuel (input p)) p.

Definition get_rule_context : P T (list RuleContext) := fun p => Ret (m_rule_context p, p).
Definition append_rule_context (type : RuleContext) : P T unit :=
  fun p => Ret (tt, {| m_rule_context := m_rule_context p ++ [type]; input := input p |}).
Definition take_last_rule_context : P T unit :=
  fun p => match m_rule_context p with [] => Crash | _ => Ret (tt, {| m_rule_context := removelast (m_rule_context p); input := input p |}) end.
End monad.

Declare Scope syntax_scope.
Delimit Scope syntax_scope with syntax.
Notation "'do+' x ':=' e 'in' k" := (pbind e (fun x => k)) (at level 10, x pattern, e at level 200, k at level 200) : syntax_scope.
Notation "e ';;+' k" := (pbind e (fun _ => k)) (at level 100, right associativity) : syntax_scope.
Local Open Scope syntax_scope.

Definition pconsume {T} `{StreamItem T} : P T T := pmodify (fun s => Ret (consume_a_token s)).
Definition pdiscard {T} `{StreamItem T} : P T unit := pstep (fun s => Ret (discard_a_token s)).

(** ** Component values of tokens *)

Definition is_open_bracket (token : Token) : bool := token_is token OpenCurly || token_is token OpenSquare || token_is token OpenParen.

Fixpoint simple_block_loop (fuel : nat) (consume : P Token ComponentValue) (token : Token) (ending_token : TokenType) (value : list ComponentValue) :
    P Token ComponentValue :=
  match fuel with
  | O => fun _ => Crash
  | S fuel =>
      do+ next := pget next_token in
      if token_is next EndOfFile || token_is next ending_token then
        do+ end_token := pconsume in
        preturn (OfBlock token value end_token)
      else
        do+ v := consume in
        simple_block_loop fuel consume token ending_token (value ++ [v])
  end.

Definition consume_a_simple_block (consume : P Token ComponentValue) : P Token ComponentValue :=
  do+ next := pget next_token in
  plift (verify (is_open_bracket next) (Ret tt)) ;;+
  let ending_token := mirror_variant next in
  pdiscard ;;+
  ploop (fun fuel => simple_block_loop fuel consume next ending_token []).

Fixpoint function_loop (fuel : nat) (consume : P Token ComponentValue) (name : bytes) (name_token : Token) (value : list ComponentValue) :
    P Token ComponentValue :=
  match fuel with
  | O => fun _ => Crash
  | S fuel =>
      do+ next := pget next_token in
      if token_is next EndOfFile || token_is next CloseParen then
        do+ end_token := pconsume in
        preturn (OfFunction name value name_token end_token)
      else
        do+ v := consume in
        function_loop fuel consume name name_token (value ++ [v])
  end.

Definition consume_a_function (consume : P Token ComponentValue) : P Token ComponentValue :=
  do+ next := pget next_token in
  plift (verify (token_is next Function_) (Ret tt)) ;;+
  do+ name_token := pconsume in
  do+ name := plift (verify (token_is name_token Function_) (Ret (m_value name_token))) in
  ploop (fun fuel => function_loop fuel consume name name_token []).

(** [fuel] bounds the nesting of blocks and functions. *)
Fixpoint component_value_of_tokens (fuel : nat) : P Token ComponentValue :=
  match fuel with
  | O => fun _ => Crash
  | S fuel =>
      do+ next := pget next_token in
      if is_open_bracket next then consume_a_simple_block (component_value_of_tokens fuel)
      else if token_is next Function_ then consume_a_function (component_value_of_tokens fuel)
      else
        do+ token := pconsume in
        preturn (OfToken token)
  end.

(** The variants without a result *)
Fixpoint skip_loop (fuel : nat) (skip : P Token unit) (ending_token : TokenType) : P Token unit :=
  match fuel with
  | O => fun _ => Crash
  | S fuel =>
      do+ next := pget next_token in
      if token_is next EndOfFile || token_is next ending_token then pdiscard
      else skip ;;+ skip_loop fuel skip ending_token
  end.

Definition consume_a_simple_block_and_do_nothing (skip : P Token unit) : P Token unit :=
  do+ next := pget next_token in
  plift (verify (is_open_bracket next) (Ret tt)) ;;+
  let ending_token := mirror_variant next in
  pdiscard ;;+
  ploop (fun fuel => skip_loop fuel skip ending_token).

Definition consume_a_function_and_do_nothing (skip : P Token unit) : P Token unit :=
  do+ next := pget next_token in
  plift (verify (token_is next Function_) (Ret tt)) ;;+
  pdiscard ;;+
  ploop (fun fuel => skip_loop fuel skip CloseParen).

Fixpoint skip_component_value_of_tokens (fuel : nat) : P Token unit :=
  match fuel with
  | O => fun _ => Crash
  | S fuel =>
      do+ next := pget next_token in
      if is_open_bracket next then consume_a_simple_block_and_do_nothing (skip_component_value_of_tokens fuel)
      else if token_is next Function_ then consume_a_function_and_do_nothing (skip_component_value_of_tokens fuel)
      else pdiscard
  end.

(** [consume_a_component_value<T>] and [consume_a_component_value_and_do_nothing<T>] *)
Class ComponentSource (T : Type) `{StreamItem T} := {
  consume_a_component_value : P T ComponentValue;
  consume_a_component_value_and_do_nothing : P T unit
}.

#[export] Instance token_source : ComponentSource Token :=
  {| consume_a_component_value := ploop component_value_of_tokens;
     consume_a_component_value_and_do_nothing := ploop skip_component_value_of_tokens |}.

#[export] Instance component_value_source : ComponentSource ComponentValue :=
  {| consume_a_component_value := pconsume; consume_a_component_value_and_do_nothing := pdiscard |}.

(** ** Lists and declarations *)

Inductive Nested := NestedNo | NestedYes.
Inductive SaveOriginalText := SaveNo | SaveYes.

Section parser.
Context {T : Type} `{StreamItem T} `{!ComponentSource T} `{Simdutf, SimdutfCount}.

Definition is_stop (stop_token : option TokenType) (token : T) : bool :=
  match stop_token with Some type => item_is token type | None => false end.

(** After a closing brace the loop goes on to the next case. *)
Fixpoint list_loop (fuel : nat) (stop_token : option TokenType) (nested : Nested) (values : list ComponentValue) : P T (list ComponentValue) :=
  match fuel with
  | O => fun _ => Crash
  | S fuel =>
      let anything_else values :=
        do+ value := consume_a_component_value in
        list_loop fuel stop_token nested (values ++ [value]) in
      do+ token := pget next_token in
      if item_is token EndOfFile || is_stop stop_token token then preturn values
      else if item_is token CloseCurly then
        match nested with
        | NestedYes => preturn values
        | NestedNo =>
            do+ token := pconsume in
            anything_else (values ++ [item_value token])
        end
      else anything_else values
  end.

Definition consume_a_list_of_component_values (stop_token : option TokenType) (nested : Nested) : P T (list ComponentValue) :=
  ploop (fun fuel => list_loop fuel stop_token nested []).

Fixpoint remnants_loop (fuel : nat) (nested : Nested) : P T unit :=
  match fuel with
  | O => fun _ => Crash
  | S fuel =>
      do+ token := pget next_token in
      if item_is token EndOfFile || item_is token Semicolon then pdiscard
      else if item_is token CloseCurly then
        match nested with NestedYes => preturn tt | NestedNo => pdiscard ;;+ remnants_loop fuel nested end
      else consume_a_component_value_and_do_nothing ;;+ remnants_loop fuel nested
  end.

Definition consume_the_remnants_of_a_bad_declaration (nested : Nested) : P T unit := ploop (fun fuel => remnants_loop fuel nested).

(** Walking backwards from the index [i] until the index is 0 *)
Fixpoint find_important (value : list ComponentValue) (i : nat) : res (option nat) :=
  match i with
  | O => Ret None
  | S j =>
      let* v := at_index value i in
      if is_ident v (sv "important") then Ret (Some i)
      else if negb (value_is v Whitespace) then Ret None
      else find_important value j
  end.

Fixpoint find_bang (value : list ComponentValue) (i : nat) : res (option nat) :=
  match i with
  | O => Ret None
  | S j =>
      let* v := at_index value i in
      let* bang := is_delim v (ch "!") in
      if bang : bool then Ret (Some i)
      else if value_is v Whitespace then find_bang value j
      else Ret None
  end.

(** [Vector::remove] *)
Definition remove_at {A} (index : nat) (l : list A) : res (list A) := verify (index <? length l)%nat (Ret (take index l ++ drop (S index) l)).

(** Step 6: the value without "!important", and whether it was there *)
Definition take_important (value : list ComponentValue) : res (list ComponentValue * bool) :=
  if (2 <=? length value)%nat then
    let* important_index := find_important value (length value - 1) in
    match important_index with
    | None => Ret (value, false)
    | Some important_index =>
        let* bang_index := find_bang value (important_index - 1) in
        match bang_index with
        | None => Ret (value, false)
        | Some bang_index =>
            let* value := remove_at important_index value in
            let* value := remove_at bang_index value in
            Ret (value, true)
        end
    end
  else Ret (value, false).

(** Step 7, from the end *)
Fixpoint drop_leading_whitespace (value : list ComponentValue) : list ComponentValue :=
  match value with
  | v :: rest => if value_is v Whitespace then drop_leading_whitespace rest else value
  | [] => []
  end.
Definition trim_trailing_whitespace (value : list ComponentValue) : list ComponentValue := rev (drop_leading_whitespace (rev value)).

Fixpoint curly_and_other_loop (contains_curly_block contains_non_whitespace : bool) (values : list ComponentValue) : bool :=
  match values with
  | [] => false
  | value :: values =>
      if is_curly_block value then if contains_non_whitespace then true else curly_and_other_loop true contains_non_whitespace values
      else if negb (value_is value Whitespace) then if contains_curly_block then true else curly_and_other_loop contains_curly_block true values
      else curly_and_other_loop contains_curly_block contains_non_whitespace values
  end.

Definition contains_a_curly_block_and_non_whitespace (value : list ComponentValue) : bool := curly_and_other_loop false false value.

Definition source_text_of (values : list ComponentValue) : bytes := concat (original_source_text <$> values).

Fixpoint texts_of_items (items : list T) : res bytes :=
  match items with
  | [] => Ret []
  | item :: items => let* text := component_value_to_string (item_value item) in let* rest := texts_of_items items in Ret (text ++ rest)
  end.

(** Steps 6 to 9, when the value has been consumed *)
Definition finish_declaration (name : bytes) (value : list ComponentValue) (start_token_index : nat) (save_full_text : SaveOriginalText) :
    P T (option Declaration) :=
  do+ (value, important) := plift (take_important value) in
  let value := trim_trailing_whitespace value in
  if is_invalid_custom_property_name_string name then preturn None
  else
    let custom := is_a_custom_property_name_string name in
    if negb custom && contains_a_curly_block_and_non_whitespace value then preturn None
    else
      do+ context := get_rule_context in
      if declaration_is_valid context then
        do+ full_text := match save_full_text with
                         | SaveYes =>
                             do+ tokens := (fun p => let* tokens := tokens_since (input p) start_token_index in Ret (tokens, p)) in
                             do+ text := plift (texts_of_items tokens) in
                             preturn (Some text)
                         | SaveNo => preturn None
                         end in
        preturn (Some {| declaration_name := name; declaration_value := value; declaration_important := important;
                         original_value_text := if custom then Some (source_text_of value) else None; original_full_text := full_text |})
      else preturn None.

Definition consume_a_declaration (nested : Nested) (save_full_text : SaveOriginalText) : P T (option Declaration) :=
  do+ start_token_index := pget m_index in
  do+ next := pget next_token in
  if item_is next Ident then
    do+ item := pconsume in
    do+ token := plift (item_token item) in
    do+ name := plift (verify (token_is token Ident) (Ret (m_value token))) in
    pstep discard_whitespace ;;+
    do+ next := pget next_token in
    if item_is next Colon then
      pdiscard ;;+
      pstep discard_whitespace ;;+
      do+ value := consume_a_list_of_component_values (Some Semicolon) nested in
      finish_declaration name value start_token_index save_full_text
    else
      consume_the_remnants_of_a_bad_declaration nested ;;+
      preturn None
  else
    consume_the_remnants_of_a_bad_declaration nested ;;+
    preturn None.

(** ** Rules *)

(** A block of rules and declarations is a parameter of what calls it. *)
Abbreviation block := (P T (list RuleOrListOfDeclarations)).

(** Whether the rule is valid in the current context *)
Definition finish_at_rule (name : bytes) (prelude : list ComponentValue) (children : list RuleOrListOfDeclarations) (is_block_rule : bool) :
    P T (option Rule) :=
  do+ context := get_rule_context in
  do+ valid := plift (at_rule_is_valid context name) in
  if valid : bool then preturn (Some (AtRule name prelude children is_block_rule)) else preturn None.

Fixpoint at_rule_loop (fuel : nat) (consume_a_block : block) (nested : Nested) (name : bytes) (prelude : list ComponentValue) : P T (option Rule) :=
  match fuel with
  | O => fun _ => Crash
  | S fuel =>
      do+ token := pget next_token in
      if item_is token Semicolon || item_is token EndOfFile then
        pdiscard ;;+
        finish_at_rule name prelude [] false
      else if item_is token CloseCurly then
        match nested with
        | NestedYes => finish_at_rule name prelude [] false
        | NestedNo =>
            do+ item := pconsume in
            at_rule_loop fuel consume_a_block nested name (prelude ++ [item_value item])
        end
      else if item_is token OpenCurly then
        append_rule_context (rule_context_type_for_at_rule name) ;;+
        do+ children := consume_a_block in
        take_last_rule_context ;;+
        finish_at_rule name prelude children true
      else
        do+ value := consume_a_component_value in
        at_rule_loop fuel consume_a_block nested name (prelude ++ [value])
  end.

Definition consume_an_at_rule (consume_a_block : block) (nested : Nested) : P T (option Rule) :=
  do+ next := pget next_token in
  plift (verify (item_is next AtKeyword) (Ret tt)) ;;+
  do+ item := pconsume in
  do+ token := plift (item_token item) in
  do+ name := plift (verify (token_is token AtKeyword) (Ret (m_value token))) in
  ploop (fun fuel => at_rule_loop fuel consume_a_block nested name []).

(** Whether the prelude starts like the declaration of a custom property *)
Definition starts_custom_property (prelude : list ComponentValue) : res bool :=
  let* s := token_stream prelude in
  let* s := discard_whitespace s in
  let (first_non_whitespace, s) := consume_a_token s in
  let* s := discard_whitespace s in
  let (second_non_whitespace, s) := consume_a_token s in
  Ret (match first_non_whitespace with
       | OfToken token => token_is token Ident && starts_with (m_value token) (sv "--") CaseSensitive
       | _ => false
       end && value_is second_non_whitespace Colon).

(** The first list of declarations is the rule's own. *)
Definition split_declarations (children : list RuleOrListOfDeclarations) : list Declaration * list RuleOrListOfDeclarations :=
  match children with
  | OfDeclarations declarations :: children => (declarations, children)
  | _ => ([], children)
  end.

Fixpoint qualified_rule_loop (fuel : nat) (consume_a_block : block) (stop_token : option TokenType) (nested : Nested) (type_of_qualified_rule : RuleContext)
    (prelude : list ComponentValue) : P T QualifiedRuleResult :=
  match fuel with
  | O => fun _ => Crash
  | S fuel =>
      do+ token := pget next_token in
      if item_is token EndOfFile || is_stop stop_token token then preturn Nothing
      else if item_is token CloseCurly then
        match nested with
        | NestedYes => preturn Nothing
        | NestedNo =>
            do+ item := pconsume in
            qualified_rule_loop fuel consume_a_block stop_token nested type_of_qualified_rule (prelude ++ [item_value item])
        end
      else if item_is token OpenCurly then
        do+ custom := plift (starts_custom_property prelude) in
        if custom : bool then
          match nested with
          | NestedYes => consume_the_remnants_of_a_bad_declaration NestedYes ;;+ preturn Nothing
          | NestedNo => do+ _ := consume_a_block in preturn Nothing
          end
        else
          append_rule_context type_of_qualified_rule ;;+
          do+ child_rules := consume_a_block in
          take_last_rule_context ;;+
          let (declarations, child_rules) := split_declarations child_rules in
          do+ context := get_rule_context in
          if qualified_rule_is_valid context then preturn (ARule (QualifiedRule prelude declarations child_rules)) else preturn InvalidRuleError
      else
        do+ value := consume_a_component_value in
        qualified_rule_loop fuel consume_a_block stop_token nested type_of_qualified_rule (prelude ++ [value])
  end.

Definition type_of_qualified_rule (context : list RuleContext) : RuleContext :=
  match last context with Some AtKeyframes => Keyframe | _ => Style end.

Definition consume_a_qualified_rule (consume_a_block : block) (stop_token : option TokenType) (nested : Nested) : P T QualifiedRuleResult :=
  do+ context := get_rule_context in
  ploop (fun fuel => qualified_rule_loop fuel consume_a_block stop_token nested (type_of_qualified_rule context) []).

(** Appending the declarations, if there are any *)
Definition flush_declarations (rules : list RuleOrListOfDeclarations) (declarations : list Declaration) : list RuleOrListOfDeclarations :=
  match declarations with [] => rules | _ => rules ++ [OfDeclarations declarations] end.

Fixpoint blocks_contents_loop (fuel : nat) (consume_a_block : block) (rules : list RuleOrListOfDeclarations) (declarations : list Declaration) : block :=
  match fuel with
  | O => fun _ => Crash
  | S fuel =>
      do+ token := pget next_token in
      if item_is token Whitespace || item_is token Semicolon then pdiscard ;;+ blocks_contents_loop fuel consume_a_block rules declarations
      else if item_is token EndOfFile || item_is token CloseCurly then preturn (flush_declarations rules declarations)
      else if item_is token AtKeyword then
        do+ at_rule := consume_an_at_rule consume_a_block NestedYes in
        let rules := flush_declarations rules declarations in
        blocks_contents_loop fuel consume_a_block (match at_rule with Some rule => rules ++ [OfRule rule] | None => rules end) []
      else
        pstep (fun s => Ret (mark s)) ;;+
        do+ declaration := consume_a_declaration NestedYes SaveNo in
        match declaration with
        | Some declaration =>
            pstep discard_a_mark ;;+
            blocks_contents_loop fuel consume_a_block rules (declarations ++ [declaration])
        | None =>
            pstep restore_a_mark ;;+
            do+ result := consume_a_qualified_rule consume_a_block (Some Semicolon) NestedYes in
            match result with
            | Nothing => blocks_contents_loop fuel consume_a_block rules declarations
            | InvalidRuleError => blocks_contents_loop fuel consume_a_block (flush_declarations rules declarations) []
            | ARule rule => blocks_contents_loop fuel consume_a_block (flush_declarations rules declarations ++ [OfRule rule]) []
            end
        end
  end.

Definition consume_a_blocks_contents (consume_a_block : block) : block :=
  ploop (fun fuel => blocks_contents_loop fuel consume_a_block [] []).

(** [fuel] bounds the nesting of blocks. *)
Fixpoint block_loop (fuel : nat) : block :=
  match fuel with
  | O => fun _ => Crash
  | S fuel =>
      do+ next := pget next_token in
      plift (verify (item_is next OpenCurly) (Ret tt)) ;;+
      pdiscard ;;+
      do+ rules := consume_a_blocks_contents (block_loop fuel) in
      pdiscard ;;+
      preturn rules
  end.

Definition consume_a_block : block := ploop block_loop.

Fixpoint stylesheets_contents_loop (fuel : nat) (rules : list Rule) : P T (list Rule) :=
  match fuel with
  | O => fun _ => Crash
  | S fuel =>
      do+ token := pget next_token in
      if item_is token Whitespace then pdiscard ;;+ stylesheets_contents_loop fuel rules
      else if item_is token EndOfFile then preturn rules
      else if item_is token CDO || item_is token CDC then pdiscard ;;+ stylesheets_contents_loop fuel rules
      else if item_is token AtKeyword then
        do+ at_rule := consume_an_at_rule consume_a_block NestedNo in
        stylesheets_contents_loop fuel (match at_rule with Some rule => rules ++ [rule] | None => rules end)
      else
        do+ result := consume_a_qualified_rule consume_a_block None NestedNo in
        stylesheets_contents_loop fuel (match result with ARule rule => rules ++ [rule] | _ => rules end)
  end.

Definition consume_a_stylesheets_contents : P T (list Rule) := ploop (fun fuel => stylesheets_contents_loop fuel []).
(** ** Entry points *)

Definition parse_a_rule : P T (option Rule) :=
  pstep discard_whitespace ;;+
  do+ next := pget next_token in
  if item_is next EndOfFile then preturn None
  else
    do+ rule := (if item_is next AtKeyword then consume_an_at_rule consume_a_block NestedNo
                 else
                   do+ result := consume_a_qualified_rule consume_a_block None NestedNo in
                   preturn (match result with ARule rule => Some rule | _ => None end)) in
    match rule with
    | None => if item_is next AtKeyword then pstep discard_whitespace ;;+ preturn None else preturn None
    | Some rule =>
        pstep discard_whitespace ;;+
        do+ next := pget next_token in
        preturn (if item_is next EndOfFile then Some rule else None)
    end.

Definition parse_a_declaration : P T (option Declaration) :=
  pstep discard_whitespace ;;+
  consume_a_declaration NestedNo SaveNo.

Definition parse_a_component_value : P T (option ComponentValue) :=
  pstep discard_whitespace ;;+
  do+ empty := pget stream_is_empty in
  if empty : bool then preturn None
  else
    do+ value := consume_a_component_value in
    pstep discard_whitespace ;;+
    do+ empty := pget stream_is_empty in
    preturn (if empty : bool then Some value else None).

Definition parse_a_list_of_component_values : P T (list ComponentValue) := consume_a_list_of_component_values None NestedNo.

Fixpoint comma_separated_loop (fuel : nat) (groups : list (list ComponentValue)) (just_consumed_comma : bool) : P T (list (list ComponentValue)) :=
  match fuel with
  | O => fun _ => Crash
  | S fuel =>
      do+ empty := pget stream_is_empty in
      if empty : bool then preturn (if just_consumed_comma then groups ++ [[]] else groups)
      else
        do+ group := consume_a_list_of_component_values (Some Comma) NestedNo in
        do+ token := pconsume in
        comma_separated_loop fuel (groups ++ [group]) (item_is token Comma)
  end.

Definition parse_a_comma_separated_list_of_component_values : P T (list (list ComponentValue)) := ploop (fun fuel => comma_separated_loop fuel [] false).

(** [Parser::Parser] *)
Definition parser_for (rule_context : list RuleContext) (tokens : list T) : res (Parser T) :=
  let* s := token_stream tokens in
  Ret {| m_rule_context := rule_context; input := s |}.
End parser.

Section sheets.
Context `{LookupTables} `{Simdutf, SimdutfCount} `{SimdutfUtf16} `{FastFloat} `{FastFloatDouble}.

(** [Parser::create] *)
Definition create_parser (rule_context : list RuleContext) (input encoding : bytes) : res (Parser Token) :=
  let* tokens := CssTokenizer.css_tokenize input encoding in
  parser_for rule_context tokens.

(** The rules of a style sheet, as [parse_a_stylesheet] gets them *)
Definition parse_a_stylesheet (input encoding : bytes) : res (list Rule) :=
  let* p := create_parser [] input encoding in
  let* (rules, _) := consume_a_stylesheets_contents p in
  Ret rules.

Definition parse_as_list_of_component_values (rule_context : list RuleContext) (input encoding : bytes) : res (list ComponentValue) :=
  let* p := create_parser rule_context input encoding in
  let* (values, _) := parse_a_list_of_component_values p in
  Ret values.
End sheets.
