(* ===== verification/CssSyntaxFacts.v ===== *)
(** * The CSS syntax parser is total, and loses nothing

    A program logic for the methods of the parser against the interface
    [ComponentSourceLaws] of the two kinds of streams, the specification of every
    method, and that the variants that discard their result read the same tokens. *)

From S2P Require Import Prelude CharacterTypes Utf8 Utf16 MemMem Strings Tokens Wtf8 BinarySearch TextCodec Decoders DecoderSafety PatternTokenizer.
From S2P Require Import CodeUnits Lexer FloatTables FloatToDecimal FloatFacts FloatExact FloatTheorems FloatFormat CssTokens.
From S2P Require CssTokenizer CssTokenizerFacts.
From S2P Require Import CssSyntax.
Local Open Scope Z_scope.
Local Open Scope syntax_scope.

(** ** Items *)

Class StreamItemLaws (T : Type) `{StreamItem T} : Prop := {
  item_is_unique t a b : item_is t a = true -> item_is t b = true -> a = b;
  item_is_token t a : item_is t a = true -> exists token, item_token t = Ret token /\ m_type token = a;
  make_eof_eof : exists e, make_eof = Ret e /\ item_is e EndOfFile = true /\ original_source_text (item_value e) = [];
  item_is_value t a : value_is (item_value t) a = true -> item_is t a = true
}.

Lemma token_is_type token type : token_is token type = true <-> m_type token = type.
Proof. apply bool_decide_eq_true. Qed.

#[export] Instance token_item_laws : StreamItemLaws Token.
Proof.
  split.
  - intros t a b Ha%token_is_type Hb%token_is_type. congruence.
  - intros t a Ha%token_is_type. by exists t.
  - by eexists.
  - done.
Qed.

#[export] Instance component_value_item_laws : StreamItemLaws ComponentValue.
Proof.
  split.
  - intros [token| | |] a b; try done. intros Ha%token_is_type Hb%token_is_type. congruence.
  - intros [token| | |] a; try done. intros Ha%token_is_type. by exists token.
  - by eexists.
  - done.
Qed.

(** A delimiter has a code point. *)
Definition value_ok (v : ComponentValue) : Prop := match v with OfToken token => m_type token = Delim -> m_value token <> [] | _ => True end.

Section logic.
Context {T : Type} `{StreamItemLaws T}.

(** The items before the end of the input *)
Fixpoint before_eof (l : list T) : list T :=
  match l with [] => [] | t :: l => if item_is t EndOfFile then [] else t :: before_eof l end.

(** An item that stands for the end of the input is the last one and has no text. *)
Definition eof_item (e : T) : Prop := item_is e EndOfFile = true /\ original_source_text (item_value e) = [].
Definition tokens_ok (l : list T) : Prop :=
  (l = before_eof l \/ exists e, l = before_eof l ++ [e] /\ eof_item e) /\ Forall (fun t => value_ok (item_value t)) l.
Definition stream_ok (s : TokenStream T) : Prop := tokens_ok (m_tokens s) /\ eof_item (m_eof s).
Definition rest_of (s : TokenStream T) : list T := drop (m_index s) (before_eof (m_tokens s)).

Lemma before_eof_forall l : Forall (fun t => item_is t EndOfFile = false) (before_eof l).
Proof. induction l as [|t l IH]; [constructor|]. cbn. destruct (item_is t EndOfFile) eqn:E; by constructor. Qed.

Lemma next_item s t r : stream_ok s -> rest_of s = t :: r -> next_token s = t /\ item_is t EndOfFile = false /\ value_ok (item_value t).
Proof.
  intros [[Htokens Hval] _] Hr. assert (Hl : before_eof (m_tokens s) !! m_index s = Some t).
  { unfold rest_of in Hr. by rewrite <- (Nat.add_0_r (m_index s)), <- lookup_drop, Hr. }
  assert (Ht : m_tokens s !! m_index s = Some t) by (destruct Htokens as [->|(e & -> & _)]; [done|by apply lookup_app_l_Some]).
  split; [unfold next_token; by rewrite Ht|]. split; [|by eapply Forall_lookup_1 in Hval].
  pose proof (before_eof_forall (m_tokens s)) as Hf. by eapply Forall_lookup_1 in Hf.
Qed.

Lemma eof_value_ok e : eof_item e -> value_ok (item_value e).
Proof.
  intros [He _]. destruct (item_value e) as [token| | |] eqn:E; [|done..]. intros Hd. assert (item_is e Delim = true).
  { apply item_is_value. rewrite E. cbn. by apply token_is_type. }
  by pose proof (item_is_unique _ _ _ He H1).
Qed.

Lemma next_nil s : stream_ok s -> rest_of s = [] -> eof_item (next_token s).
Proof.
  intros [[Htokens _] He] Hr. unfold rest_of in Hr. apply (f_equal length) in Hr. rewrite length_drop in Hr. cbn in Hr. unfold next_token.
  destruct Htokens as [El|(e & El & Hee)].
  - rewrite lookup_ge_None_2; [done|]. rewrite El. lia.
  - rewrite El. destruct (decide (m_index s = length (before_eof (m_tokens s)))) as [->|Hne].
    + by rewrite lookup_app_r, Nat.sub_diag by lia.
    + rewrite lookup_ge_None_2; [done|]. rewrite length_app. cbn. lia.
Qed.

Lemma tail_drop {A} n (l : list A) : drop (S n) l = tail (drop n l).
Proof. revert l. induction n as [|n IH]; intros [|x l]; [done..|]. apply IH. Qed.

Lemma rest_next s : rest_of (with_index s (S (m_index s))) = tail (rest_of s).
Proof. unfold rest_of. cbn [m_index m_tokens with_index]. by rewrite tail_drop. Qed.

Lemma rest_length s : (length (rest_of s) <= length (m_tokens s))%nat.
Proof.
  unfold rest_of. rewrite length_drop. assert (length (before_eof (m_tokens s)) <= length (m_tokens s))%nat; [|lia].
  induction (m_tokens s) as [|t l IH]; [done|]. cbn. destruct (item_is t EndOfFile); cbn; lia.
Qed.

(** ** A program logic

    [pspec f l context Q]: in front of the items [l] and in [context], [f] returns,
    having consumed some [x] of [l], a [v] with [Q x v]; it leaves the context, the
    marks and the list of items as they were. *)

Definition frame (p p' : Parser T) : Prop :=
  m_rule_context p' = m_rule_context p /\ m_tokens (input p') = m_tokens (input p) /\
  m_marked_indexes (input p') = m_marked_indexes (input p) /\ m_eof (input p') = m_eof (input p).

Definition pspec {A} (f : P T A) (l : list T) (context : list RuleContext) (Q : list T -> A -> Prop) : Prop :=
  forall p, stream_ok (input p) -> rest_of (input p) = l -> m_rule_context p = context ->
  exists x v p', f p = Ret (v, p') /\ frame p p' /\ l = x ++ rest_of (input p') /\ Q x v.

Lemma frame_refl p : frame p p.
Proof. done. Qed.

Lemma frame_trans p q r : frame p q -> frame q r -> frame p r.
Proof. intros (H1' & H2' & H3' & H4') (K1 & K2 & K3 & K4). unfold frame. by rewrite K1, K2, K3, K4. Qed.

Lemma frame_ok p q : frame p q -> stream_ok (input p) -> stream_ok (input q).
Proof. intros (_ & Ht & _ & He) Hok. unfold stream_ok. by rewrite Ht, He. Qed.

Section rules.
Context {A B : Type}.
Implicit Types (f : P T B) (k : A -> P T B) (Q R : list T -> B -> Prop).

Lemma pspec_weaken f l ctx Q R : pspec f l ctx Q -> (forall x v rest, l = x ++ rest -> Q x v -> R x v) -> pspec f l ctx R.
Proof. intros Hf HR p Hok Hl Hctx. destruct (Hf p Hok Hl Hctx) as (x & v & p' & E & Hfr & Hx & Hq). exists x, v, p'. do 3 (split; [done|]). by eapply HR. Qed.

Lemma pspec_ret v l ctx Q : Q [] v -> pspec (preturn v) l ctx Q.
Proof. intros Hq p _ Hl _. by exists [], v, p. Qed.

Lemma pspec_bind (e : P T A) k l ctx (R : list T -> A -> Prop) Q : pspec e l ctx R ->
  (forall x v rest, l = x ++ rest -> R x v -> pspec (k v) rest ctx (fun y w => Q (x ++ y) w)) -> pspec (pbind e k) l ctx Q.
Proof.
  intros He Hk p Hok Hl Hctx. destruct (He p Hok Hl Hctx) as (x & v & p' & E & Hfr & Hx & Hq).
  destruct (Hk x v _ Hx Hq p') as (y & w & p'' & E' & Hfr' & Hy & Hq'); [by eapply frame_ok|done|by destruct Hfr as [-> _]|].
  exists (x ++ y), w, p''. split; [unfold pbind; by rewrite E|]. split; [by eapply frame_trans|]. split; [|done]. by rewrite Hx, Hy, app_assoc.
Qed.

Lemma pspec_lift (e : res A) v k l ctx Q : e = Ret v -> pspec (k v) l ctx Q -> pspec (pbind (plift e) k) l ctx Q.
Proof. by intros ->. Qed.

Lemma pspec_context l ctx Q (k' : list RuleContext -> P T B) : pspec (k' ctx) l ctx Q -> pspec (pbind get_rule_context k') l ctx Q.
Proof. intros Hk p Hok Hl Hctx. destruct (Hk p Hok Hl Hctx) as (x & v & p' & E & H'). exists x, v, p'. split; [|done]. unfold pbind, get_rule_context. by rewrite Hctx. Qed.

Lemma pspec_loop (f : nat -> P T B) l ctx Q : (forall n, (S (length l) < n)%nat -> pspec (f n) l ctx Q) -> pspec (ploop f) l ctx Q.
Proof. intros Hf p Hok Hl Hctx. apply Hf; [|done..]. unfold stream_fuel. pose proof (rest_length (input p)) as Hn. rewrite Hl in Hn. lia. Qed.

Lemma pspec_get (g : TokenStream T -> A) k l ctx Q : (forall a, pspec (k a) l ctx Q) -> pspec (pbind (pget g) k) l ctx Q.
Proof. intros Hk p. exact (Hk (g (input p)) p). Qed.

(** *** The next item *)

Lemma pspec_next (k' : T -> P T B) l ctx Q :
  (forall t r, l = t :: r -> item_is t EndOfFile = false -> value_ok (item_value t) -> pspec (k' t) l ctx Q) ->
  (forall e, l = [] -> eof_item e -> pspec (k' e) l ctx Q) -> pspec (pbind (pget next_token) k') l ctx Q.
Proof.
  intros Hc Hn p Hok Hl Hctx. change (pbind (pget next_token) k' p) with (k' (next_token (input p)) p). destruct l as [|t r].
  - apply Hn; [done|by apply next_nil|done..].
  - destruct (next_item _ _ _ Hok Hl) as (E & He & Hv). by eapply Hc; [rewrite E..|done|done|done].
Qed.

Lemma pspec_consume_cons (k' : T -> P T B) t r ctx Q : pspec (k' t) r ctx (fun y w => Q (t :: y) w) -> pspec (pbind pconsume k') (t :: r) ctx Q.
Proof.
  intros Hk p Hok Hl Hctx. destruct (next_item _ _ _ Hok Hl) as (E & _ & _). unfold pbind, pconsume, pmodify, consume_a_token. cbn [res_bind]. rewrite E.
  destruct (Hk {| m_rule_context := m_rule_context p; input := with_index (input p) (S (m_index (input p))) |}) as (y & w & p' & E' & Hfr & Hy & Hq);
    [done|cbn [input]; by rewrite rest_next, Hl|done|]. exists (t :: y), w, p'. split; [done|]. split; [done|]. split; [|done]. cbn. by rewrite Hy.
Qed.

Lemma pspec_consume_nil (k' : T -> P T B) ctx Q : (forall e, eof_item e -> pspec (k' e) [] ctx Q) -> pspec (pbind pconsume k') [] ctx Q.
Proof.
  intros Hk p Hok Hl Hctx. pose proof (next_nil _ Hok Hl) as He. unfold pbind, pconsume, pmodify, consume_a_token. cbn [res_bind].
  destruct (Hk _ He {| m_rule_context := m_rule_context p; input := with_index (input p) (S (m_index (input p))) |}) as (y & w & p' & E' & Hfr & Hy & Hq);
    [done|cbn [input]; by rewrite rest_next, Hl|done|]. by exists y, w, p'.
Qed.
End rules.

Lemma pspec_discard_cons {B} (f : P T B) t r ctx Q : pspec f r ctx (fun y w => Q (t :: y) w) -> pspec (pbind pdiscard (fun _ => f)) (t :: r) ctx Q.
Proof.
  intros Hk p Hok Hl Hctx. destruct (next_item _ _ _ Hok Hl) as (E & He & _). unfold pbind, pdiscard, pstep, pmodify, discard_a_token, stream_is_empty. cbn [res_bind].
  rewrite E, He. destruct (Hk {| m_rule_context := m_rule_context p; input := with_index (input p) (S (m_index (input p))) |}) as (y & w & p' & E' & Hfr & Hy & Hq);
    [done|cbn [input]; by rewrite rest_next, Hl|done|]. exists (t :: y), w, p'. split; [done|]. split; [done|]. split; [|done]. cbn. by rewrite Hy.
Qed.

Lemma pspec_discard_nil {B} (f : P T B) ctx Q : pspec f [] ctx Q -> pspec (pbind pdiscard (fun _ => f)) [] ctx Q.
Proof.
  intros Hk p Hok Hl Hctx. pose proof (next_nil _ Hok Hl) as [He _]. unfold pbind, pdiscard, pstep, pmodify, discard_a_token, stream_is_empty. cbn [res_bind].
  rewrite He. destruct p as [c i]. by apply Hk.
Qed.

(** Consuming or discarding the next item, as a last step *)
Lemma consume_alone l ctx : pspec pconsume l ctx (fun x t => match l with [] => x = [] /\ eof_item t | u :: _ => x = [u] /\ t = u /\ value_ok (item_value u) end).
Proof.
  intros p Hok Hl Hctx. eexists (take 1 l), _, _. split; [done|]. split; [done|]. cbn [input]. rewrite rest_next, Hl. destruct l as [|u r].
  - split; [done|]. split; [done|by apply next_nil].
  - destruct (next_item _ _ _ Hok Hl) as (E & _ & Hv). split; [done|]. split; [done|]. by rewrite E.
Qed.

Lemma discard_alone l ctx : pspec pdiscard l ctx (fun x _ => x = take 1 l).
Proof.
  intros p Hok Hl Hctx. assert (Hs : pspec (pdiscard ;;+ preturn tt) l ctx (fun x _ => x = take 1 l)).
  { destruct l as [|u r]; [by apply pspec_discard_nil, pspec_ret|by apply pspec_discard_cons, pspec_ret]. }
  destruct (Hs p Hok Hl Hctx) as (x & v & p' & E & H'). exists x, v, p'. split; [|done]. unfold pbind, preturn in E. by destruct (pdiscard p) as [[[] ?]|].
Qed.

(** *** Whitespace *)

Lemma discard_whitespace_run n : forall s, stream_ok s -> (length (rest_of s) < n)%nat ->
  exists x index, discard_whitespace_loop n s = Ret (with_index s index) /\ rest_of s = x ++ rest_of (with_index s index).
Proof.
  induction n as [|n IH]; intros s Hok Hn; [lia|]. cbn [discard_whitespace_loop]. destruct (item_is (next_token s) Whitespace) eqn:Ew.
  - destruct (rest_of s) as [|t r] eqn:Er; [destruct (next_nil s Hok Er) as [He _]; by pose proof (item_is_unique _ _ _ He Ew)|].
    destruct (next_item s t r Hok Er) as (E & He & _). unfold discard_a_token, stream_is_empty. rewrite E, He.
    assert (Hr : rest_of (with_index s (S (m_index s))) = r) by by rewrite rest_next, Er.
    destruct (IH (with_index s (S (m_index s)))) as (x & index & E' & Hx); [done|rewrite Hr; cbn in Hn; lia|]. exists (t :: x), index. split; [done|].
    rewrite Hr in Hx. by rewrite Hx.
  - exists [], (m_index s). by destruct s.
Qed.

Lemma pspec_whitespace {B} (f : P T B) l ctx Q : (forall x rest, l = x ++ rest -> pspec f rest ctx (fun y w => Q (x ++ y) w)) ->
  pspec (pbind (pstep discard_whitespace) (fun _ => f)) l ctx Q.
Proof.
  intros Hf p Hok Hl Hctx. destruct (discard_whitespace_run (stream_fuel (input p)) (input p) Hok) as (x & index & E & Hx).
  { unfold stream_fuel. pose proof (rest_length (input p)). lia. }
  unfold pbind, pstep, pmodify, discard_whitespace. rewrite E. cbn [res_bind]. rewrite Hl in Hx.
  destruct (Hf x _ Hx {| m_rule_context := m_rule_context p; input := with_index (input p) index |}) as (y & w & p' & E' & Hfr & Hy & Hq); [done..|].
  exists (x ++ y), w, p'. split; [done|]. split; [done|]. split; [|done]. by rewrite Hx, Hy, app_assoc.
Qed.

(** *** Marks and contexts *)

Lemma take_mark_last (s : TokenStream T) marks index : m_marked_indexes s = marks ++ [index] ->
  take_mark s = Ret (index, {| m_tokens := m_tokens s; m_index := m_index s; m_marked_indexes := marks; m_eof := m_eof s |}).
Proof. intros E. unfold take_mark. by rewrite E, last_snoc, removelast_last. Qed.

(** An attempt, after which the stream goes back if there is no result *)
Lemma pspec_try {A B} (e : P T (option A)) (yes : A -> P T B) (no : P T B) l ctx R Q : pspec e l ctx R ->
  (forall x v rest, l = x ++ rest -> R x (Some v) -> pspec (yes v) rest ctx (fun y w => Q (x ++ y) w)) -> pspec no l ctx Q ->
  pspec (pstep (fun s => Ret (mark s)) ;;+ do+ o := e in match o with Some v => pstep discard_a_mark ;;+ yes v | None => pstep restore_a_mark ;;+ no end) l ctx Q.
Proof.
  intros He Hyes Hno p Hok Hl Hctx. set (q := {| m_rule_context := m_rule_context p; input := mark (input p) |}).
  destruct (He q) as (x & o & [c s] & E & (Hc & Ht & Hm & Heof) & Hx & Hr); [done..|]. cbn [m_rule_context input] in *.
  destruct o as [v|].
  - destruct (Hyes x v _ Hx Hr {| m_rule_context := c; input := {| m_tokens := m_tokens s; m_index := m_index s; m_marked_indexes := m_marked_indexes (input p); m_eof := m_eof s |} |})
      as (y & w & p' & E' & (Hc' & Ht' & Hm' & Heof') & Hy & Hq); [unfold stream_ok; cbn [input m_tokens m_eof]; by rewrite Ht, Heof|done|by cbn; rewrite Hc|].
    exists (x ++ y), w, p'. split.
    + unfold pbind at 1 2, pstep at 1, pmodify at 1. cbn [res_bind]. fold q. rewrite E. cbn [res_bind]. unfold pbind, pstep, pmodify, discard_a_mark. cbn [input].
      rewrite (take_mark_last s (m_marked_indexes (input p)) (m_index (input p)) Hm). exact E'.
    + cbn [m_rule_context input m_tokens m_marked_indexes m_eof] in *. split; [unfold frame; by rewrite Hc', Ht', Hm', Heof'|]. split; [|done]. rewrite Hx. change (rest_of (input {| m_rule_context := c; input := s |})) with (rest_of s).
      rewrite <- app_assoc. f_equal. exact Hy.
  - destruct (Hno {| m_rule_context := c; input := {| m_tokens := m_tokens s; m_index := m_index (input p); m_marked_indexes := m_marked_indexes (input p); m_eof := m_eof s |} |})
      as (y & w & p' & E' & (Hc' & Ht' & Hm' & Heof') & Hy & Hq);
      [unfold stream_ok; cbn [input m_tokens m_eof]; by rewrite Ht, Heof|unfold rest_of; cbn [input m_tokens m_index]; by rewrite Ht|by cbn; rewrite Hc|].
    exists y, w, p'. split.
    + unfold pbind at 1 2, pstep at 1, pmodify at 1. cbn [res_bind]. fold q. rewrite E. cbn [res_bind]. unfold pbind, pstep, pmodify, restore_a_mark. cbn [input].
      rewrite (take_mark_last s (m_marked_indexes (input p)) (m_index (input p)) Hm). exact E'.
    + cbn [m_rule_context input m_tokens m_marked_indexes m_eof] in *. split; [unfold frame; by rewrite Hc', Ht', Hm', Heof'|]. done.
Qed.

(** A part that runs in an inner context *)
Lemma pspec_inner {A B} (type : RuleContext) (e : P T A) (k : A -> P T B) l ctx R Q : pspec e l (ctx ++ [type]) R ->
  (forall x v rest, l = x ++ rest -> R x v -> pspec (k v) rest ctx (fun y w => Q (x ++ y) w)) ->
  pspec (append_rule_context type ;;+ do+ v := e in take_last_rule_context ;;+ k v) l ctx Q.
Proof.
  intros He Hk p Hok Hl Hctx. destruct (He {| m_rule_context := m_rule_context p ++ [type]; input := input p |}) as (x & v & [c s] & E & (Hc & Ht & Hm & Heof) & Hx & Hr);
    [done|done|cbn; by rewrite Hctx|]. cbn [m_rule_context input] in *.
  destruct (Hk x v _ Hx Hr {| m_rule_context := m_rule_context p; input := s |}) as (y & w & p' & E' & (Hc' & Ht' & Hm' & Heof') & Hy & Hq);
    [unfold stream_ok; cbn [input]; by rewrite Ht, Heof|done|done|]. exists (x ++ y), w, p'. split.
  - unfold pbind at 1 2, append_rule_context. cbn [res_bind]. rewrite E. cbn [res_bind]. unfold pbind, take_last_rule_context. cbn [m_rule_context]. rewrite Hc.
    rewrite removelast_last. destruct (m_rule_context p ++ [type]) eqn:En; [by apply app_eq_nil in En as [_ ?]|]. exact E'.
  - cbn [m_rule_context input] in *. split; [unfold frame; by rewrite Hc', Ht', Hm', Heof', Ht, Hm, Heof|]. split; [|done]. rewrite Hx, <- app_assoc. f_equal. exact Hy.
Qed.
End logic.

(** ** The interface of component values *)

(** What a stream promises of its component values: it moves forward unless it is
    at its end, and the value has the text of what was consumed. *)
Definition reads_component {T} `{StreamItem T} (l x : list T) (v : ComponentValue) : Prop :=
  (l <> [] -> x <> []) /\ original_source_text v = source_text_of (item_value <$> x) /\ value_ok v.

Class ComponentSourceLaws (T : Type) `{StreamItemLaws T} `{!ComponentSource T} : Prop := {
  consume_spec l ctx : pspec consume_a_component_value l ctx (reads_component l);
  skip_spec l ctx : pspec consume_a_component_value_and_do_nothing l ctx (fun x _ => l <> [] -> x <> [])
}.

Lemma source_text_app a b : source_text_of (a ++ b) = source_text_of a ++ source_text_of b.
Proof. unfold source_text_of. by rewrite fmap_app, concat_app. Qed.

Lemma source_text_snoc a v : source_text_of (a ++ [v]) = source_text_of a ++ original_source_text v.
Proof. rewrite source_text_app. unfold source_text_of. cbn. by rewrite app_nil_r. Qed.

Lemma block_text token value end_token :
  original_source_text (OfBlock token value end_token) = m_original_source_text token ++ source_text_of value ++ m_original_source_text end_token.
Proof. cbn. do 2 f_equal. induction value as [|v value IH]; [done|]. unfold source_text_of in *. cbn. by rewrite IH. Qed.

Lemma function_text name value name_token end_token :
  original_source_text (OfFunction name value name_token end_token) = m_original_source_text name_token ++ source_text_of value ++ m_original_source_text end_token.
Proof. cbn. do 2 f_equal. induction value as [|v value IH]; [done|]. unfold source_text_of in *. cbn. by rewrite IH. Qed.

#[export] Instance component_value_source_laws : ComponentSourceLaws ComponentValue.
Proof.
  split; intros l ctx.
  - eapply pspec_weaken; [apply consume_alone|]. intros x v _ _ Hv. unfold reads_component. destruct l as [|u r].
    + destruct Hv as [-> He]. split; [done|]. split; [apply He|exact (eof_value_ok v He)].
    + destruct Hv as (-> & -> & Hv). split; [done|]. split; [|done]. unfold source_text_of. cbn. by rewrite app_nil_r.
  - eapply pspec_weaken; [apply discard_alone|]. intros x v _ _ ->. by destruct l.
Qed.

(** ** Component values of tokens *)

Lemma item_text (t : Token) x : source_text_of (OfToken <$> t :: x) = m_original_source_text t ++ source_text_of (OfToken <$> x).
Proof. done. Qed.

Lemma simple_block_loop_spec fuel : forall consume token ending value l ctx,
  (forall l' ctx, (length l' <= length l)%nat -> pspec consume l' ctx (reads_component l')) -> (length l < fuel)%nat ->
  pspec (simple_block_loop fuel consume token ending value) l ctx
    (fun x v => original_source_text v = m_original_source_text token ++ source_text_of value ++ source_text_of (OfToken <$> x) /\ value_ok v).
Proof.
  induction fuel as [|fuel IH]; intros consume token ending value l ctx Hc Hf; [lia|]. cbn [simple_block_loop]. apply pspec_next.
  2:{ intros e -> [He Ht]. cbn [item_is token_item] in He. rewrite He. apply pspec_consume_nil. intros e' [_ Ht']. apply pspec_ret. split; [|done].
      rewrite block_text. cbn in Ht' |- *. by rewrite Ht', !app_nil_r. }
  intros t r -> He Hv. cbn [item_is token_item] in He. rewrite He. destruct (token_is t ending); cbn [orb].
  - apply pspec_consume_cons, pspec_ret. split; [|done]. rewrite block_text, item_text. cbn. by rewrite app_nil_r.
  - eapply pspec_bind; [by apply Hc|]. intros x v rest El (Hx & Ev & _). assert (Hlen : (length rest < length (t :: r))%nat).
    { rewrite El, length_app. destruct x; [by destruct Hx|cbn; lia]. }
    eapply pspec_weaken; [apply IH; [intros l' ctx' Hl; apply Hc; lia|lia]|]. intros y w _ _ [-> Hw]. split; [|done].
    rewrite source_text_snoc, Ev, fmap_app, source_text_app, !app_assoc. done.
Qed.

Lemma function_loop_spec fuel : forall consume name name_token value l ctx,
  (forall l' ctx, (length l' <= length l)%nat -> pspec consume l' ctx (reads_component l')) -> (length l < fuel)%nat ->
  pspec (function_loop fuel consume name name_token value) l ctx
    (fun x v => original_source_text v = m_original_source_text name_token ++ source_text_of value ++ source_text_of (OfToken <$> x) /\ value_ok v).
Proof.
  induction fuel as [|fuel IH]; intros consume name name_token value l ctx Hc Hf; [lia|]. cbn [function_loop]. apply pspec_next.
  2:{ intros e -> [He Ht]. cbn [item_is token_item] in He. rewrite He. apply pspec_consume_nil. intros e' [_ Ht']. apply pspec_ret. split; [|done].
      rewrite function_text. cbn in Ht' |- *. by rewrite Ht', !app_nil_r. }
  intros t r -> He Hv. cbn [item_is token_item] in He. rewrite He. destruct (token_is t CloseParen); cbn [orb].
  - apply pspec_consume_cons, pspec_ret. split; [|done]. rewrite function_text, item_text. cbn. by rewrite app_nil_r.
  - eapply pspec_bind; [by apply Hc|]. intros x v rest El (Hx & Ev & _). assert (Hlen : (length rest < length (t :: r))%nat).
    { rewrite El, length_app. destruct x; [by destruct Hx|cbn; lia]. }
    eapply pspec_weaken; [apply IH; [intros l' ctx' Hl; apply Hc; lia|lia]|]. intros y w _ _ [-> Hw]. split; [|done].
    rewrite source_text_snoc, Ev, fmap_app, source_text_app, !app_assoc. done.
Qed.

Lemma skip_loop_spec fuel : forall skip ending l ctx,
  (forall l' ctx, (length l' <= length l)%nat -> pspec skip l' ctx (fun x _ => l' <> [] -> x <> [])) -> (length l < fuel)%nat ->
  pspec (skip_loop fuel skip ending) l ctx (fun _ _ => True).
Proof.
  induction fuel as [|fuel IH]; intros skip ending l ctx Hc Hf; [lia|]. cbn [skip_loop]. apply pspec_next.
  { intros t r -> He _. destruct (_ || _); [by eapply pspec_weaken; [apply discard_alone|]|]. eapply pspec_bind; [by apply Hc|]. intros x [] rest El Hx.
    assert (Hlen : (length rest < length (t :: r))%nat) by (rewrite El, length_app; destruct x; [by destruct Hx|cbn; lia]).
    apply IH; [intros l' ctx' Hl; apply Hc; lia|lia]. }
  intros e -> [He _]. cbn [item_is token_item] in He. rewrite He. by eapply pspec_weaken; [apply discard_alone|].
Qed.

(** An open bracket, or a function, is not the end of the input. *)
Lemma eof_no_bracket (e : Token) : eof_item e -> is_open_bracket e = false /\ token_is e Function_ = false.
Proof. intros [He _]. apply token_is_type in He. unfold is_open_bracket, token_is. by rewrite He. Qed.

Lemma component_value_of_tokens_spec fuel : forall l ctx, (length l < fuel)%nat -> pspec (component_value_of_tokens fuel) l ctx (reads_component l).
Proof.
  induction fuel as [|fuel IH]; intros l ctx Hf; [lia|]. cbn [component_value_of_tokens]. apply pspec_next.
  2:{ intros e -> He. destruct (eof_no_bracket e He) as [-> ->]. apply pspec_consume_nil. intros e' He'. apply pspec_ret. split; [done|]. split; [apply He'|].
      exact (eof_value_ok e' He'). }
  intros t r -> He Hv. assert (Hsub : forall l' ctx, (length l' <= length r)%nat -> pspec (component_value_of_tokens fuel) l' ctx (reads_component l')).
  { intros l' ctx' Hl. apply IH. cbn in Hf. lia. }
  destruct (is_open_bracket t) eqn:Eo; [|destruct (token_is t Function_) eqn:Ef].
  - unfold consume_a_simple_block. apply pspec_next; [|done]. intros t' r' [= <- <-] _ _. eapply pspec_lift; [by rewrite Eo|]. apply pspec_discard_cons, pspec_loop. intros n Hn.
    eapply pspec_weaken; [apply simple_block_loop_spec; [done|lia]|]. intros x v _ _ [E Hok]. split; [done|]. split; [|done]. by rewrite E.
  - unfold consume_a_function. apply pspec_next; [|done]. intros t' r' [= <- <-] _ _. eapply pspec_lift; [by rewrite Ef|]. apply pspec_consume_cons.
    eapply pspec_lift; [by rewrite Ef|]. apply pspec_loop. intros n Hn.
    eapply pspec_weaken; [apply function_loop_spec; [done|lia]|]. intros x v _ _ [E Hok]. split; [done|]. split; [|done]. by rewrite E.
  - apply pspec_consume_cons, pspec_ret. split; [done|]. split; [|done]. unfold source_text_of. cbn. by rewrite app_nil_r.
Qed.

Lemma skip_component_value_of_tokens_spec fuel : forall l ctx, (length l < fuel)%nat ->
  pspec (skip_component_value_of_tokens fuel) l ctx (fun x _ => l <> [] -> x <> []).
Proof.
  induction fuel as [|fuel IH]; intros l ctx Hf; [lia|]. cbn [skip_component_value_of_tokens]. apply pspec_next.
  2:{ intros e -> He. destruct (eof_no_bracket e He) as [-> ->]. by eapply pspec_weaken; [apply discard_alone|]. }
  intros t r -> He Hv. assert (Hsub : forall l' ctx, (length l' <= length r)%nat -> pspec (skip_component_value_of_tokens fuel) l' ctx (fun x _ => l' <> [] -> x <> [])).
  { intros l' ctx' Hl. apply IH. cbn in Hf. lia. }
  destruct (is_open_bracket t) eqn:Eo; [|destruct (token_is t Function_) eqn:Ef].
  - unfold consume_a_simple_block_and_do_nothing. apply pspec_next; [|done]. intros t' r' [= <- <-] _ _. eapply pspec_lift; [by rewrite Eo|].
    apply pspec_discard_cons, pspec_loop. intros n Hn. eapply pspec_weaken; [apply skip_loop_spec; [done|lia]|]. done.
  - unfold consume_a_function_and_do_nothing. apply pspec_next; [|done]. intros t' r' [= <- <-] _ _. eapply pspec_lift; [by rewrite Ef|].
    apply pspec_discard_cons, pspec_loop. intros n Hn. eapply pspec_weaken; [apply skip_loop_spec; [done|lia]|]. done.
  - eapply pspec_weaken; [apply discard_alone|]. by intros x _ _ _ ->.
Qed.

#[export] Instance token_source_laws : ComponentSourceLaws Token.
Proof.
  split; intros l ctx; apply pspec_loop; intros n Hn; [apply component_value_of_tokens_spec|apply skip_component_value_of_tokens_spec]; lia.
Qed.

(** ** Lists and declarations *)

Section parser.
Context {T : Type} `{ComponentSourceLaws T} `{Simdutf, SimdutfCount}.

Lemma eof_not (e : T) type : eof_item e -> type <> EndOfFile -> item_is e type = false.
Proof. intros [He _] Hne. destruct (item_is e type) eqn:E; [|done]. by pose proof (item_is_unique _ _ _ E He). Qed.

Lemma list_loop_spec fuel : forall stop nested values (l : list T) ctx, (length l < fuel)%nat -> Forall value_ok values ->
  pspec (list_loop fuel stop nested values) l ctx
    (fun x vs => source_text_of vs = source_text_of values ++ source_text_of (item_value <$> x) /\ Forall value_ok vs /\ (stop = None -> nested = NestedNo -> x = l)).
Proof.
  induction fuel as [|fuel IH]; intros stop nested values l ctx Hf Hok; [lia|]. cbn [list_loop].
  assert (Hret : forall l', (stop = None -> nested = NestedNo -> l' = []) -> pspec (preturn values) l' ctx
    (fun x vs => source_text_of vs = source_text_of values ++ source_text_of (item_value <$> x) /\ Forall value_ok vs /\ (stop = None -> nested = NestedNo -> x = l'))).
  { intros l' Hl. apply pspec_ret. split; [by rewrite app_nil_r|]. split; [done|]. intros Hs Hn. symmetry. by apply Hl. }
  assert (Helse : forall vs l', (length l' <= fuel)%nat -> (0 < fuel)%nat -> Forall value_ok vs ->
    pspec (do+ value := consume_a_component_value in list_loop fuel stop nested (vs ++ [value])) l' ctx
    (fun x vs' => source_text_of vs' = source_text_of vs ++ source_text_of (item_value <$> x) /\ Forall value_ok vs' /\ (stop = None -> nested = NestedNo -> x = l'))).
  { intros vs l' Hl H0' Hvs. eapply pspec_bind; [apply consume_spec|]. intros x v rest El (Hx & Ev & Hv). eapply pspec_weaken.
    - apply IH; [|apply Forall_app; split; [done|by constructor]]. subst l'. rewrite length_app in Hl. destruct x as [|u x]; [|cbn in Hl; lia]. destruct rest as [|u rest]; [done|by destruct Hx].
    - intros y w _ _ (-> & Hw & Hall). split; [by rewrite source_text_snoc, Ev, fmap_app, source_text_app, !app_assoc|]. split; [done|]. intros Hs Hn. by rewrite El, (Hall Hs Hn). }
  apply pspec_next; [|intros e -> [He _]; rewrite He; by apply Hret].
  intros t r -> He Hv. rewrite He. cbn [orb]. destruct (is_stop stop t) eqn:Es; [apply Hret; by intros ->|]. cbn [length] in Hf.
  destruct (item_is t CloseCurly); [|apply Helse; [cbn; lia|lia|done]]. destruct nested; [|by apply Hret].
  apply pspec_consume_cons. eapply pspec_weaken; [apply Helse; [lia|lia|apply Forall_app; split; [done|by constructor]]|]. intros x w _ _ (-> & Hw & Hall).
  split; [|split; [done|intros Hs Hn; by rewrite (Hall Hs Hn)]]. rewrite source_text_snoc, fmap_cons, <- app_assoc. done.
Qed.

Lemma list_spec stop nested (l : list T) ctx :
  pspec (consume_a_list_of_component_values stop nested) l ctx
    (fun x vs => source_text_of vs = source_text_of (item_value <$> x) /\ Forall value_ok vs /\ (stop = None -> nested = NestedNo -> x = l)).
Proof. apply pspec_loop. intros n Hn. apply list_loop_spec; [lia|constructor]. Qed.

Lemma remnants_loop_spec fuel : forall nested (l : list T) ctx, (length l < fuel)%nat ->
  pspec (remnants_loop fuel nested) l ctx (fun x _ => forall t r, l = t :: r -> item_is t CloseCurly = false -> x <> []).
Proof.
  induction fuel as [|fuel IH]; intros nested l ctx Hf; [lia|]. cbn [remnants_loop]. apply pspec_next.
  2:{ intros e -> [He _]. rewrite He. by eapply pspec_weaken; [apply discard_alone|]. }
  intros t r -> He Hv. rewrite He. cbn [orb length] in *. destruct (item_is t Semicolon).
  { eapply pspec_weaken; [apply discard_alone|]. by intros x _ _ _ ->. }
  destruct (item_is t CloseCurly) eqn:Ec.
  - destruct nested; [|apply pspec_ret; intros ? ? [= <- <-]; congruence]. apply pspec_discard_cons. by eapply pspec_weaken; [apply IH; lia|].
  - eapply pspec_bind; [apply skip_spec|]. intros x [] rest El Hx. specialize (Hx ltac:(done)). eapply pspec_weaken.
    + apply IH. apply (f_equal length) in El. rewrite length_app in El. destruct x; [done|]. cbn in El. lia.
    + intros y [] _ _ _ t' r' _ _ E. by apply app_eq_nil in E as [-> _].
Qed.

Lemma remnants_spec nested (l : list T) ctx :
  pspec (consume_the_remnants_of_a_bad_declaration nested) l ctx (fun x _ => forall t r, l = t :: r -> item_is t CloseCurly = false -> x <> []).
Proof. apply pspec_loop. intros n Hn. apply remnants_loop_spec. lia. Qed.

Lemma find_important_total value i : (i < length value)%nat -> exists o, find_important value i = Ret o /\ (forall k, o = Some k -> (0 < k <= i)%nat).
Proof.
  induction i as [|i IH]; intros Hi; cbn [find_important]; [by exists None|]. destruct (lookup_lt_is_Some_2 value (S i) Hi) as [v Ev]. unfold at_index.
  rewrite Ev. cbn [unwrap res_bind]. destruct (is_ident v _); [exists (Some (S i)); split; [done|intros k [= <-]; lia]|]. destruct (negb _); [by exists None|].
  destruct IH as (o & -> & Ho); [lia|]. exists o. split; [done|]. intros k Hk. specialize (Ho k Hk). lia.
Qed.

Lemma is_delim_total v c : value_ok v -> exists b, is_delim v c = Ret b.
Proof.
  intros Hv. destruct v as [token| | |]; try by exists false. cbn. destruct (token_is token Delim) eqn:Ed; [|by exists false].
  apply token_is_type in Ed. specialize (Hv Ed). unfold delim. destruct (m_value token) as [|b0 rest]; [done|]. by eexists.
Qed.

Lemma find_bang_total value i : Forall value_ok value -> (i < length value)%nat -> exists o, find_bang value i = Ret o /\ (forall k, o = Some k -> (0 < k <= i)%nat).
Proof.
  intros Hok. induction i as [|i IH]; intros Hi; cbn [find_bang]; [by exists None|]. destruct (lookup_lt_is_Some_2 value (S i) Hi) as [v Ev]. unfold at_index.
  rewrite Ev. cbn [unwrap res_bind]. destruct (is_delim_total v (ch "!")) as [b ->]; [by eapply Forall_lookup_1 in Hok|]. cbn [res_bind].
  destruct b; [exists (Some (S i)); split; [done|intros k [= <-]; lia]|]. destruct (value_is v Whitespace); [|by exists None].
  destruct IH as (o & -> & Ho); [lia|]. exists o. split; [done|]. intros k Hk. specialize (Ho k Hk). lia.
Qed.

Lemma take_important_total value : Forall value_ok value -> exists v b, take_important value = Ret (v, b).
Proof.
  intros Hok. unfold take_important. destruct (Nat.leb_spec 2 (length value)) as [Hl|]; [|by eexists _, _].
  destruct (find_important_total value (length value - 1)) as (o & -> & Ho); [lia|]. cbn [res_bind]. destruct o as [i|]; [|by eexists _, _]. specialize (Ho i eq_refl).
  destruct (find_bang_total value (i - 1) Hok) as (o & -> & Hb); [lia|]. cbn [res_bind]. destruct o as [b|]; [|by eexists _, _]. specialize (Hb b eq_refl).
  unfold remove_at. rewrite (proj2 (Nat.ltb_lt _ _)) by lia. cbn [verify res_bind]. rewrite (proj2 (Nat.ltb_lt _ _)); [by eexists _, _|].
  rewrite length_app, length_take, length_drop. lia.
Qed.

(** A declaration that the parser returns is valid where it is, has not the
    reserved name, and a value without whitespace at its end. *)
Definition declaration_ok (ctx : list RuleContext) (d : Declaration) : Prop :=
  declaration_is_valid ctx = true /\ declaration_name d <> sv "--" /\ (forall v, last (declaration_value d) = Some v -> value_is v Whitespace = false).

Lemma trim_last value v : last (trim_trailing_whitespace value) = Some v -> value_is v Whitespace = false.
Proof.
  unfold trim_trailing_whitespace. assert (Hd : forall l, match drop_leading_whitespace l with w :: _ => value_is w Whitespace = false | [] => True end).
  { induction l as [|w l IH]; [done|]. cbn. by destruct (value_is w Whitespace) eqn:E; [|rewrite E]. }
  specialize (Hd (rev value)). destruct (drop_leading_whitespace (rev value)) as [|w l]; [done|]. cbn [rev]. rewrite last_snoc. by intros [= <-].
Qed.

Lemma finish_declaration_spec name value start (l : list T) ctx : Forall value_ok value ->
  pspec (finish_declaration name value start SaveNo) l ctx (fun x o => forall d, o = Some d -> declaration_ok ctx d).
Proof.
  intros Hok. unfold finish_declaration. destruct (take_important_total value Hok) as (v & b & E). eapply pspec_lift; [exact E|]. cbv beta iota.
  destruct (is_invalid_custom_property_name_string name) eqn:En; [by apply pspec_ret|]. destruct (negb _ && _); [by apply pspec_ret|]. apply pspec_context.
  destruct (declaration_is_valid ctx) eqn:Ed; [|by apply pspec_ret]. eapply pspec_bind; [by apply (pspec_ret _ _ _ (fun _ _ => True))|]. intros x o rest _ _.
  apply pspec_ret. intros d [= <-]. split; [done|]. split; [cbn; by apply bool_decide_eq_false in En|]. apply trim_last.
Qed.

Lemma declaration_spec nested (l : list T) ctx :
  pspec (consume_a_declaration nested SaveNo) l ctx (fun x o => forall d, o = Some d -> x <> [] /\ declaration_ok ctx d).
Proof.
  assert (Hbad : forall l', pspec (consume_the_remnants_of_a_bad_declaration nested ;;+ preturn None) l' ctx (fun x (o : option Declaration) => o = None)).
  { intros l'. eapply pspec_bind; [apply remnants_spec|]. intros x [] rest _ _. by apply pspec_ret. }
  assert (Hbad' : forall l' z, pspec (consume_the_remnants_of_a_bad_declaration nested ;;+ preturn None) l' ctx
    (fun x (o : option Declaration) => forall d, o = Some d -> z ++ x <> [] /\ declaration_ok ctx d)).
  { intros l' z. eapply pspec_weaken; [apply Hbad|]. by intros x o _ _ ->. }
  unfold consume_a_declaration. apply pspec_get. intros start. apply pspec_next; [|intros e -> He; rewrite (eof_not e Ident He) by done; apply (Hbad' [] [])].
  intros t r -> He Hv. destruct (item_is t Ident) eqn:Ei; [|apply (Hbad' _ [])]. apply pspec_consume_cons. destruct (item_is_token t Ident Ei) as (token & Et & Ht).
  eapply pspec_lift; [exact Et|]. eapply pspec_lift; [by rewrite (proj2 (token_is_type token Ident) Ht)|]. apply pspec_whitespace. intros x rest ->. apply pspec_next.
  2:{ intros e -> He'. rewrite (eof_not e Colon He') by done. apply (Hbad' [] (t :: x)). }
  intros t' r' -> _ _. destruct (item_is t' Colon); [|apply (Hbad' _ (t :: x))]. apply pspec_discard_cons, pspec_whitespace. intros y rest ->.
  eapply pspec_bind; [apply list_spec|]. intros z value rest' _ (_ & Hok & _). eapply pspec_weaken; [by apply finish_declaration_spec|].
  intros w o _ _ Ho d Hd. split; [done|by apply Ho].
Qed.

(** ** Rules *)

(** A rule that the parser returns is valid in its context, as are the rules and
    the lists of declarations in its block, in the context of the block; a list of
    declarations is not empty. *)
Inductive rule_ok : list RuleContext -> Rule -> Prop :=
| at_rule_ok ctx name prelude children is_block_rule :
    at_rule_is_valid ctx name = Ret true -> Forall (item_ok (ctx ++ [rule_context_type_for_at_rule name])) children ->
    (is_block_rule = false -> children = []) -> rule_ok ctx (AtRule name prelude children is_block_rule)
| qualified_rule_ok ctx prelude declarations children :
    qualified_rule_is_valid ctx = true -> Forall (declaration_ok (ctx ++ [type_of_qualified_rule ctx])) declarations ->
    Forall (item_ok (ctx ++ [type_of_qualified_rule ctx])) children -> rule_ok ctx (QualifiedRule prelude declarations children)
with item_ok : list RuleContext -> RuleOrListOfDeclarations -> Prop :=
| item_rule_ok ctx rule : rule_ok ctx rule -> item_ok ctx (OfRule rule)
| item_declarations_ok ctx declarations : declarations <> [] -> Forall (declaration_ok ctx) declarations -> item_ok ctx (OfDeclarations declarations).

Lemma contains_last ctx type : last ctx = Some type -> contains_slow ctx type = true.
Proof.
  intros Hl. apply existsb_exists. exists type. split; [|by apply bool_decide_eq_true]. apply list_elem_of_In. by apply last_Some_elem_of.
Qed.

Lemma at_rule_is_valid_total ctx name : exists b, at_rule_is_valid ctx name = Ret b.
Proof.
  unfold at_rule_is_valid. destruct (last ctx) as [type|] eqn:El; [|by eexists]. destruct (contains_slow ctx Style) eqn:Ec; [by eexists|].
  destruct type; try by eexists. apply contains_last in El. congruence.
Qed.

Lemma finish_at_rule_spec name prelude children b (l : list T) ctx :
  Forall (item_ok (ctx ++ [rule_context_type_for_at_rule name])) children -> (b = false -> children = []) ->
  pspec (finish_at_rule name prelude children b) l ctx (fun x o => x = [] /\ forall r, o = Some r -> rule_ok ctx r).
Proof.
  intros Hc Hb. unfold finish_at_rule. apply pspec_context. destruct (at_rule_is_valid_total ctx name) as [v E]. eapply pspec_lift; [exact E|].
  destruct v; apply pspec_ret; (split; [done|]); [|done]. intros r [= <-]. by constructor.
Qed.

(** What a block is expected to do, on at most [n] items *)
Definition block_spec (n : nat) (consume_a_block : P T (list RuleOrListOfDeclarations)) : Prop :=
  forall t r ctx, (length (t :: r) <= n)%nat -> item_is t OpenCurly = true -> pspec consume_a_block (t :: r) ctx (fun x items => x <> [] /\ Forall (item_ok ctx) items).

Lemma at_rule_loop_spec fuel : forall blk n nested name prelude (l : list T) ctx, block_spec n blk -> (length l < fuel)%nat -> (length l <= n)%nat ->
  pspec (at_rule_loop fuel blk nested name prelude) l ctx (fun x o => forall r, o = Some r -> rule_ok ctx r).
Proof.
  induction fuel as [|fuel IH]; intros blk n nested name prelude l ctx Hb Hf Hn; [lia|]. cbn [at_rule_loop].
  assert (Hfin : forall l' ctx', pspec (finish_at_rule name prelude [] false) l' ctx' (fun (_ : list T) o => forall r, o = Some r -> rule_ok ctx' r)).
  { intros l' ctx'. eapply pspec_weaken; [by apply finish_at_rule_spec|]. by intros x o _ _ [_ ?]. }
  apply pspec_next.
  2:{ intros e -> [He _]. rewrite He, orb_true_r. apply pspec_discard_nil, Hfin. }
  intros t r -> He Hv. rewrite He, orb_false_r. cbn [length] in *. destruct (item_is t Semicolon); [apply pspec_discard_cons, Hfin|].
  destruct (item_is t CloseCurly).
  { destruct nested; [|apply Hfin]. apply pspec_consume_cons. eapply IH; [exact Hb|lia|lia]. }
  destruct (item_is t OpenCurly) eqn:Eo.
  - eapply pspec_inner; [by apply Hb|]. intros x children rest _ [_ Hc]. eapply pspec_weaken; [by apply finish_at_rule_spec|]. by intros y o _ _ [_ ?].
  - eapply pspec_bind; [apply consume_spec|]. intros x v rest El (Hx & _). apply (f_equal length) in El. rewrite length_app in El. destruct x; [by destruct Hx|].
    cbn [length] in El. eapply IH; [exact Hb|lia|lia].
Qed.

Lemma at_rule_spec blk n nested t r ctx : block_spec n blk -> item_is t AtKeyword = true -> (length r <= n)%nat ->
  pspec (consume_an_at_rule blk nested) (t :: r) ctx (fun x o => x <> [] /\ forall r, o = Some r -> rule_ok ctx r).
Proof.
  intros Hb Ht Hn. unfold consume_an_at_rule. apply pspec_next; [|done]. intros t' r' [= <- <-] _ _. eapply pspec_lift; [by rewrite Ht|]. apply pspec_consume_cons.
  destruct (item_is_token t AtKeyword Ht) as (token & Et & Hty). eapply pspec_lift; [exact Et|]. eapply pspec_lift; [by rewrite (proj2 (token_is_type token _) Hty)|].
  apply pspec_loop. intros m Hm. eapply pspec_weaken; [eapply at_rule_loop_spec; [exact Hb|lia|lia]|]. by intros x o _ _ Ho.
Qed.

Lemma discard_whitespace_total {U} `{StreamItemLaws U} m : forall s : TokenStream U, item_is (m_eof s) EndOfFile = true -> (length (m_tokens s) - m_index s < m)%nat ->
  exists index, discard_whitespace_loop m s = Ret (with_index s index).
Proof.
  induction m as [|m IH]; intros s He Hm; [lia|]. cbn [discard_whitespace_loop]. destruct (item_is (next_token s) Whitespace) eqn:Ew; [|exists (m_index s); by destruct s].
  unfold discard_a_token, stream_is_empty. destruct (item_is (next_token s) EndOfFile) eqn:Ee; [by pose proof (item_is_unique _ _ _ Ew Ee)|].
  assert (Hi : (m_index s < length (m_tokens s))%nat).
  { apply Nat.lt_nge. intros Hge. unfold next_token in Ee. rewrite lookup_ge_None_2 in Ee by done. cbn in Ee. congruence. }
  destruct (IH (with_index s (S (m_index s)))) as [index E]; [done|cbn; lia|]. by exists index.
Qed.

Lemma starts_custom_property_total prelude : exists b, starts_custom_property prelude = Ret b.
Proof.
  unfold starts_custom_property, token_stream. cbn -[discard_whitespace consume_a_token]. unfold discard_whitespace, stream_fuel at 1.
  match goal with |- context [discard_whitespace_loop _ ?s] => destruct (discard_whitespace_total (stream_fuel s) s) as [index E]; [done|unfold stream_fuel; lia|] end.
  unfold stream_fuel in E at 1. rewrite E. cbn -[discard_whitespace_loop stream_fuel].
  match goal with |- context [discard_whitespace_loop _ ?s] => destruct (discard_whitespace_total (stream_fuel s) s) as [index' E']; [done|unfold stream_fuel; lia|] end.
  rewrite E'. by eexists.
Qed.

Lemma split_declarations_ok ctx children : Forall (item_ok ctx) children ->
  Forall (declaration_ok ctx) (split_declarations children).1 /\ Forall (item_ok ctx) (split_declarations children).2.
Proof.
  destruct 1 as [|item children Hi Hc]; [done|]. destruct item as [rule|declarations]; cbn; [by split; [|constructor]|]. by inversion Hi.
Qed.

(** A qualified rule: what it returns is valid, and it moves forward unless it is in
    front of something that it stops at. *)
Definition qualified_result (ctx : list RuleContext) (stop : option TokenType) (nested : Nested) (l x : list T) (result : QualifiedRuleResult) : Prop :=
  (forall rule, result = ARule rule -> rule_ok ctx rule) /\
  (forall t r, l = t :: r -> is_stop stop t = false -> (item_is t CloseCurly = true -> nested = NestedNo) -> x <> []).

Lemma qualified_rule_loop_spec fuel : forall blk n stop nested prelude (l : list T) ctx, block_spec n blk -> (length l < fuel)%nat -> (length l <= n)%nat ->
  pspec (qualified_rule_loop fuel blk stop nested (type_of_qualified_rule ctx) prelude) l ctx (qualified_result ctx stop nested l).
Proof.
  induction fuel as [|fuel IH]; intros blk n stop nested prelude l ctx Hb Hf Hn; [lia|]. cbn [qualified_rule_loop]. apply pspec_next.
  2:{ intros e -> [He _]. rewrite He. by apply pspec_ret. }
  intros t r -> He Hv. rewrite He. cbn [orb length] in *. destruct (is_stop stop t) eqn:Es; [apply pspec_ret; split; [done|]; intros t' r' [= <- <-]; congruence|].
  destruct (item_is t CloseCurly) eqn:Ec.
  { destruct nested; [|apply pspec_ret; split; [done|]; intros t' r' [= <- <-] _ Hn'; by specialize (Hn' Ec)]. apply pspec_consume_cons.
    eapply pspec_weaken; [eapply IH; [exact Hb|lia|lia]|]. intros x o _ _ [Ho _]. by split. }
  destruct (item_is t OpenCurly) eqn:Eo.
  - destruct (starts_custom_property_total prelude) as [c E]. eapply pspec_lift; [exact E|]. destruct c.
    + destruct nested.
      * eapply pspec_bind; [by apply Hb|]. intros x items rest _ [Hx _]. apply pspec_ret. split; [done|]. by rewrite app_nil_r.
      * eapply pspec_bind; [apply remnants_spec|]. intros x [] rest _ Hx. apply pspec_ret. split; [done|]. rewrite app_nil_r. intros t' r' [= <- <-] _ _. by eapply Hx.
    + eapply pspec_inner; [by apply Hb|]. intros x children rest _ [Hx Hc]. destruct (split_declarations children) as [ds cs] eqn:Esp.
      destruct (split_declarations_ok _ _ Hc) as [Hds Hcs]. rewrite Esp in Hds, Hcs. apply pspec_context. rewrite <- (app_nil_r x) in Hx.
      destruct (qualified_rule_is_valid ctx) eqn:Eq; apply pspec_ret; (split; [|done]); [|done]. intros rule [= <-]. by constructor.
  - eapply pspec_bind; [apply consume_spec|]. intros x v rest El (Hx & _). specialize (Hx ltac:(done)). apply (f_equal length) in El. rewrite length_app in El.
    destruct x as [|u x]; [done|]. cbn [length] in El. eapply pspec_weaken; [eapply IH; [exact Hb|lia|lia]|]. intros y o _ _ [Ho _]. by split.
Qed.

Lemma qualified_rule_spec blk n stop nested (l : list T) ctx : block_spec n blk -> (length l <= n)%nat ->
  pspec (consume_a_qualified_rule blk stop nested) l ctx (qualified_result ctx stop nested l).
Proof. intros Hb Hn. unfold consume_a_qualified_rule. apply pspec_context, pspec_loop. intros m Hm. eapply qualified_rule_loop_spec; [exact Hb|lia|lia]. Qed.

Lemma flush_ok ctx rules declarations : Forall (item_ok ctx) rules -> Forall (declaration_ok ctx) declarations -> Forall (item_ok ctx) (flush_declarations rules declarations).
Proof. intros Hr Hd. destruct declarations as [|d ds]; [done|]. apply Forall_app. split; [done|]. constructor; [by constructor|constructor]. Qed.

Lemma snoc_ok {A} (Q : A -> Prop) l a : Forall Q l -> Q a -> Forall Q (l ++ [a]).
Proof. intros Hl Ha. apply Forall_app. by split; [|constructor]. Qed.

Lemma blocks_contents_loop_spec fuel : forall blk n rules declarations (l : list T) ctx, block_spec n blk -> (length l < fuel)%nat -> (length l <= n)%nat ->
  Forall (item_ok ctx) rules -> Forall (declaration_ok ctx) declarations ->
  pspec (blocks_contents_loop fuel blk rules declarations) l ctx (fun _ items => Forall (item_ok ctx) items).
Proof.
  induction fuel as [|fuel IH]; intros blk n rules declarations l ctx Hb Hf Hn Hr Hd; [lia|]. cbn [blocks_contents_loop].
  assert (Hgo : forall x rest rules declarations, l = x ++ rest -> x <> [] -> Forall (item_ok ctx) rules -> Forall (declaration_ok ctx) declarations ->
    pspec (blocks_contents_loop fuel blk rules declarations) rest ctx (fun _ items => Forall (item_ok ctx) items)).
  { intros x rest rules' declarations' -> Hx Hr' Hd'. rewrite length_app in Hf, Hn. destruct x; [done|]. cbn in Hf, Hn. eapply IH; [exact Hb|lia|lia|done|done]. }
  pose proof (flush_ok ctx rules declarations Hr Hd) as Hfl. apply pspec_next.
  2:{ intros e -> He. rewrite (eof_not e Whitespace He), (eof_not e Semicolon He) by done. destruct He as [-> _]. by apply pspec_ret. }
  intros t r -> He Hv. destruct (item_is t Whitespace || item_is t Semicolon) eqn:Ews; [apply pspec_discard_cons; by apply (Hgo [t] r)|].
  rewrite He. cbn [orb]. destruct (item_is t CloseCurly) eqn:Ec; [by apply pspec_ret|]. destruct (item_is t AtKeyword) eqn:Ea.
  { eapply pspec_bind; [eapply at_rule_spec; [exact Hb|done|cbn in Hn; lia]|]. intros x o rest El [Hx Ho]. eapply Hgo; [exact El|done| |constructor].
    destruct o as [rule|]; [|done]. apply snoc_ok; [done|]. constructor. by apply Ho. }
  eapply pspec_try; [apply declaration_spec| |].
  - intros x d rest El Hx. destruct (Hx d eq_refl) as [Hne Hok]. eapply Hgo; [exact El|done|done|by apply snoc_ok].
  - eapply pspec_bind; [eapply qualified_rule_spec; [exact Hb|done]|]. intros x result rest El [Hres Hx]. apply orb_false_iff in Ews as [_ Esemi].
    specialize (Hx t r eq_refl Esemi ltac:(congruence)). destruct result as [|rule|]; (eapply Hgo; [exact El|done| |]); try done. apply snoc_ok; [done|]. constructor. by apply Hres.
Qed.

Lemma block_loop_spec fuel : block_spec fuel (block_loop fuel).
Proof.
  induction fuel as [|fuel IH]; intros t r ctx Hn Ho; cbn [length] in Hn; [lia|]. cbn [block_loop]. apply pspec_next; [|done]. intros t' r' [= <- <-] _ _.
  eapply pspec_lift; [by rewrite Ho|]. apply pspec_discard_cons. eapply pspec_bind.
  { apply pspec_loop. intros m Hm. eapply blocks_contents_loop_spec; [exact IH|lia|lia|constructor|constructor]. }
  cbv beta. intros x items rest _ Hitems. destruct rest as [|u rest]; [apply pspec_discard_nil|apply pspec_discard_cons]; by apply pspec_ret.
Qed.

Lemma block_ok n : block_spec n consume_a_block.
Proof. intros t r ctx Hn Ho. apply pspec_loop. intros m Hm. apply block_loop_spec; [lia|done]. Qed.

Lemma stylesheets_contents_loop_spec fuel : forall rules (l : list T) ctx, (length l < fuel)%nat -> Forall (rule_ok ctx) rules ->
  pspec (stylesheets_contents_loop fuel rules) l ctx (fun x rules => x = l /\ Forall (rule_ok ctx) rules).
Proof.
  induction fuel as [|fuel IH]; intros rules l ctx Hf Hr; [lia|]. cbn [stylesheets_contents_loop].
  assert (Hgo : forall x rest rules, l = x ++ rest -> x <> [] -> Forall (rule_ok ctx) rules ->
    pspec (stylesheets_contents_loop fuel rules) rest ctx (fun y rules => x ++ y = l /\ Forall (rule_ok ctx) rules)).
  { intros x rest rules' -> Hx Hr'. rewrite length_app in Hf. destruct x; [done|]. cbn in Hf. eapply pspec_weaken; [apply IH; [lia|done]|]. by intros y v _ _ [-> ?]. }
  apply pspec_next.
  2:{ intros e -> He. rewrite (eof_not e Whitespace He) by done. destruct He as [-> _]. by apply pspec_ret. }
  intros t r -> He Hv. destruct (item_is t Whitespace); [apply pspec_discard_cons; by apply (Hgo [t] r)|]. rewrite He.
  destruct (_ || _); [apply pspec_discard_cons; by apply (Hgo [t] r)|]. destruct (item_is t AtKeyword) eqn:Ea.
  - eapply pspec_bind; [eapply at_rule_spec; [apply block_ok|done|done]|]. intros x o rest El [Hx Ho]. eapply Hgo; [exact El|done|].
    destruct o as [rule|]; [|done]. apply snoc_ok; [done|by apply Ho].
  - eapply pspec_bind; [eapply qualified_rule_spec; [apply block_ok|done]|]. intros x result rest El [Hres Hx]. eapply Hgo; [exact El| |].
    + by eapply Hx.
    + destruct result as [|rule|]; try done. apply snoc_ok; [done|by apply Hres].
Qed.
End parser.
