(* ===== verification/CssSyntaxTheorems.v ===== *)
(** * What holds of style sheets as a whole

    Decoding, tokenizing and parsing together; and the variants of the parser's
    methods that discard their result. *)

From S2P Require Import Prelude CharacterTypes Utf8 Utf16 MemMem Strings Tokens Wtf8 BinarySearch TextCodec Decoders DecoderSafety PatternTokenizer.
From S2P Require Import CodeUnits Lexer FloatTables FloatToDecimal FloatFacts FloatExact FloatTheorems FloatFormat CssTokens.
From S2P Require CssTokenizer CssTokenizerFacts.
From S2P Require Import CssSyntax CssSyntaxFacts.
Local Open Scope Z_scope.
Local Open Scope syntax_scope.

(** ** Discarding the result *)

(** Two parsers that read the same items from here: they may differ in how far they
    are past the end of the input. *)
Definition same_rest (p q : Parser Token) : Prop :=
  stream_ok (input p) /\ frame p q /\ rest_of (input p) = rest_of (input q).

#[export] Instance same_rest_transitive : Transitive same_rest.
Proof. intros p q r (Hp & Hf & Hr) (_ & Hf' & Hr'). split; [done|]. split; [by eapply frame_trans|congruence]. Qed.

(** [f] and [g] read the same items: from parsers with the same rest they go to such
    parsers, or both stop. *)
Definition same_reading {A B} (f : P Token A) (g : P Token B) : Prop :=
  forall p q, same_rest p q ->
  match f p, g q with Ret (_, p'), Ret (_, q') => same_rest p' q' | Crash, Crash => True | _, _ => False end.

Lemma reading_bind {A A' B B'} (f : P Token A) (g : P Token A') (k : A -> P Token B) (h : A' -> P Token B') :
  same_reading f g -> (forall a b, same_reading (k a) (h b)) -> same_reading (pbind f k) (pbind g h).
Proof.
  intros Hf Hk p q Hpq. specialize (Hf p q Hpq). unfold pbind. destruct (f p) as [[a p']|], (g q) as [[b q']|]; try done. by apply Hk.
Qed.

Lemma reading_ret {A B} (a : A) (b : B) : same_reading (preturn a) (preturn b).
Proof. by intros p q Hpq. Qed.

Lemma reading_verify {A B} (b : bool) (f : P Token A) (g : P Token B) : same_reading f g ->
  same_reading (plift (verify b (Ret tt)) ;;+ f) (plift (verify b (Ret tt)) ;;+ g).
Proof. intros Hf p q Hpq. destruct b; [by apply Hf|done]. Qed.

Lemma next_types p q : same_rest p q -> m_type (next_token (input p)) = m_type (next_token (input q)).
Proof.
  intros (Hok & Hf & Hr). pose proof (frame_ok p q Hf Hok) as Hok'. destruct (rest_of (input p)) as [|t r] eqn:E; symmetry in Hr.
  - destruct (next_nil _ Hok E) as [He%token_is_type _], (next_nil _ Hok' Hr) as [He'%token_is_type _]. congruence.
  - destruct (next_item _ _ _ Hok E) as [-> _], (next_item _ _ _ Hok' Hr) as [-> _]. done.
Qed.

Lemma reading_next {A B} (k : Token -> P Token A) (h : Token -> P Token B) : (forall t u, m_type t = m_type u -> same_reading (k t) (h u)) ->
  same_reading (pbind (pget next_token) k) (pbind (pget next_token) h).
Proof. intros Hk p q Hpq. exact (Hk _ _ (next_types p q Hpq) p q Hpq). Qed.

Lemma reading_loop {A B} (f : nat -> P Token A) (g : nat -> P Token B) : (forall n, same_reading (f n) (g n)) -> same_reading (ploop f) (ploop g).
Proof.
  intros Hf p q Hpq. unfold ploop. replace (stream_fuel (input q)) with (stream_fuel (input p)); [by apply Hf|]. unfold stream_fuel. by destruct Hpq as (_ & (_ & -> & _) & _).
Qed.

(** Where a step of one item leads *)
Definition steps (f : Parser Token -> Parser Token) : Prop := forall p, stream_ok (input p) -> frame p (f p) /\ rest_of (input (f p)) = tail (rest_of (input p)).

Lemma reading_steps {A B} (f g : Parser Token -> Parser Token) (a : Parser Token -> A) (b : Parser Token -> B) : steps f -> steps g ->
  same_reading (fun p => Ret (a p, f p)) (fun p => Ret (b p, g p)).
Proof.
  intros Hf Hg p q (Hok & Hfr & Hr). destruct (Hf p Hok) as [Ff Rf], (Hg q (frame_ok p q Hfr Hok)) as [Fg Rg]. split; [by eapply frame_ok|].
  split; [|by rewrite Rf, Rg, Hr]. destruct Ff as (E1 & E2 & E3 & E4), Hfr as (F1 & F2 & F3 & F4), Fg as (G1 & G2 & G3 & G4). unfold frame. repeat split; congruence.
Qed.

Lemma steps_consume : steps (fun p => {| m_rule_context := m_rule_context p; input := with_index (input p) (S (m_index (input p))) |}).
Proof. intros p Hok. split; [done|]. apply rest_next. Qed.

Lemma steps_discard : steps (fun p => {| m_rule_context := m_rule_context p; input := discard_a_token (input p) |}).
Proof.
  intros p Hok. unfold discard_a_token, stream_is_empty. cbn [input]. destruct (rest_of (input p)) as [|t r] eqn:Er.
  - destruct (next_nil _ Hok Er) as [-> _]. by split.
  - destruct (next_item _ _ _ Hok Er) as (-> & -> & _). split; [done|]. by rewrite rest_next, Er.
Qed.

Lemma reading_consume_discard : same_reading pconsume (pdiscard (T := Token)).
Proof. exact (reading_steps _ _ (fun p => next_token (input p)) (fun _ => tt) steps_consume steps_discard). Qed.

Lemma reading_discard : same_reading (pdiscard (T := Token)) pdiscard.
Proof. exact (reading_steps _ _ (fun _ => tt) (fun _ => tt) steps_discard steps_discard). Qed.

Lemma token_is_same t u type : m_type t = m_type u -> token_is t type = token_is u type.
Proof. unfold token_is. by intros ->. Qed.

Lemma reading_consume_return {A} (k : Token -> P Token A) : (forall t, same_reading (k t) (preturn tt)) -> same_reading (pbind pconsume k) pdiscard.
Proof.
  intros Hk p q Hpq. pose proof (reading_bind pconsume pdiscard k (fun _ => preturn tt) reading_consume_discard (fun a _ => Hk a) p q Hpq) as Hs.
  unfold pbind in Hs at 2. change (pdiscard q) with (Ret (tt, {| m_rule_context := m_rule_context q; input := discard_a_token (input q) |})) in *. exact Hs.
Qed.

(** The name of a function is consumed after it has been looked at. *)
Lemma reading_name {A B} (k : Token -> P Token A) (h : P Token B) : (forall t, token_is t Function_ = true -> same_reading (k t) h) ->
  same_reading (do+ t := pget next_token in plift (verify (token_is t Function_) (Ret tt)) ;;+ do+ t := pconsume in k t)
    (do+ u := pget next_token in plift (verify (token_is u Function_) (Ret tt)) ;;+ pdiscard ;;+ h).
Proof.
  intros Hk p q Hpq. pose proof (token_is_same _ _ Function_ (next_types p q Hpq)) as Et. change (pbind (pget next_token) ?f p) with (f (next_token (input p)) p).
  change (pbind (pget next_token) ?f q) with (f (next_token (input q)) q). cbv beta. rewrite <- Et. destruct (token_is (next_token (input p)) Function_) eqn:E; [|done].
  exact (Hk _ E _ _ (reading_consume_discard p q Hpq)).
Qed.

Lemma block_loop_reading fuel : forall consume skip token ending value, same_reading consume skip ->
  same_reading (simple_block_loop fuel consume token ending value) (skip_loop fuel skip ending).
Proof.
  induction fuel as [|fuel IH]; intros consume skip token ending value Hc; [done|]. cbn [simple_block_loop skip_loop]. apply reading_next. intros t u Ht.
  rewrite !(token_is_same t u) by done. destruct (_ || _); [apply reading_consume_return; intros; apply reading_ret|]. apply reading_bind; [done|]. intros a b. by apply IH.
Qed.

Lemma function_loop_reading fuel : forall consume skip name name_token value, same_reading consume skip ->
  same_reading (function_loop fuel consume name name_token value) (skip_loop fuel skip CloseParen).
Proof.
  induction fuel as [|fuel IH]; intros consume skip name name_token value Hc; [done|]. cbn [function_loop skip_loop]. apply reading_next. intros t u Ht.
  rewrite !(token_is_same t u) by done. destruct (_ || _); [apply reading_consume_return; intros; apply reading_ret|]. apply reading_bind; [done|]. intros a b. by apply IH.
Qed.

Lemma component_value_reading fuel : same_reading (component_value_of_tokens fuel) (skip_component_value_of_tokens fuel).
Proof.
  induction fuel as [|fuel IH]; [done|]. cbn [component_value_of_tokens skip_component_value_of_tokens]. apply reading_next. intros t u Ht.
  assert (Hb : is_open_bracket t = is_open_bracket u) by (unfold is_open_bracket; by rewrite !(token_is_same t u)). rewrite Hb, !(token_is_same t u) by done.
  destruct (is_open_bracket u); [|destruct (token_is u Function_)].
  - apply reading_next. intros t' u' Ht'. replace (is_open_bracket u') with (is_open_bracket t') by (unfold is_open_bracket; by rewrite !(token_is_same t' u')).
    apply reading_verify, reading_bind; [apply reading_discard|]. intros _ _. replace (mirror_variant u') with (mirror_variant t') by (unfold mirror_variant; by rewrite Ht').
    apply reading_loop. intros n. by apply block_loop_reading.
  - apply reading_name. intros t' Ht'. cbv beta. rewrite Ht'. apply reading_loop. intros n. by apply function_loop_reading.
  - apply reading_consume_return. intros. apply reading_ret.
Qed.

(** ** Tokenized text *)

Lemma covers_stream pos cps tokens : CssTokenizerFacts.covers pos cps tokens ->
  exists front e, tokens = front ++ [e] /\ before_eof tokens = front /\ eof_item e /\ Forall (fun t => value_ok (OfToken t)) tokens /\
    source_text_of (OfToken <$> front) = utf8_encode cps.
Proof.
  induction 1 as [pos token E|pos x rest token tokens Hx (Hs & He & _ & _ & Hd) _ _ _ (front & e & -> & Hb & Heof & Hok & Ht)].
  - injection E as <-. eexists [], _. split; [done|]. split; [done|]. split; [done|]. split; [|done]. by repeat constructor.
  - exists (token :: front), e. split; [done|]. split.
    { cbn [before_eof app item_is token_item]. rewrite Hb. unfold token_is. by rewrite bool_decide_eq_false_2 by done. }
    split; [done|]. split; [by constructor|]. rewrite item_text, Ht, Hs. by rewrite utf8_encode_app.
Qed.

Lemma covers_parser pos cps tokens ctx : CssTokenizerFacts.covers pos cps tokens ->
  exists p, parser_for ctx tokens = Ret p /\ stream_ok (input p) /\ m_rule_context p = ctx /\ source_text_of (OfToken <$> rest_of (input p)) = utf8_encode cps.
Proof.
  intros Hc. destruct (covers_stream _ _ _ Hc) as (front & e & E & Hb & He & Hok & Ht). eexists. split; [done|]. cbn [input m_rule_context]. split; [|split; [done|]].
  - split; [|done]. split; [|done]. right. exists e. cbn [m_tokens]. by rewrite Hb.
  - unfold rest_of. cbn [m_index m_tokens]. by rewrite drop_0, Hb.
Qed.

Section texts.
Context `{DecoderTablesLaws} `{SimdutfLaws, SimdutfCount} `{SimdutfUtf16Laws} `{FastFloatLaws} `{FastFloatDoubleSyntaxLaws}.

Lemma css_text_parser input encoding decoder ctx : decoder_for encoding = Some decoder -> decoder <> UTF16BEDecoder -> all_bytes input -> Z.of_nat (length input) < 2 ^ 63 ->
  exists cps p, CssTokenizer.filter_code_points input encoding = Ret (utf8_encode cps) /\ create_parser ctx input encoding = Ret p /\
    stream_ok (CssSyntax.input p) /\ m_rule_context p = ctx /\ source_text_of (OfToken <$> rest_of (CssSyntax.input p)) = utf8_encode cps.
Proof.
  intros He Hd Hin Hfits. destruct (CssTokenizerFacts.css_tokenize_covers input encoding decoder He Hd Hin Hfits) as (cps & tokens & Ef & _ & Et & Hc).
  destruct (covers_parser _ _ _ ctx Hc) as (p & Ep & Hp). exists cps, p. split; [done|]. split; [|done]. unfold create_parser. by rewrite Et.
Qed.
End texts.

(** ** Entry points *)

Section entries.
Context {T : Type} `{ComponentSourceLaws T} `{Simdutf, SimdutfCount}.

Lemma whitespace_alone {B} (v : B) (l : list T) ctx : pspec (pstep discard_whitespace ;;+ preturn v) l ctx (fun _ w => w = v).
Proof. apply pspec_whitespace. intros x rest _. by apply pspec_ret. Qed.

Lemma parse_a_rule_spec (l : list T) ctx : pspec parse_a_rule l ctx (fun _ o => forall rule, o = Some rule -> rule_ok ctx rule).
Proof.
  unfold parse_a_rule. apply pspec_whitespace. intros x rest _.
  assert (Hend : forall l' rule, rule_ok ctx rule ->
    pspec (pstep discard_whitespace ;;+ do+ next := pget next_token in preturn (if item_is next EndOfFile then Some rule else None)) l' ctx
      (fun (_ : list T) o => forall rule, o = Some rule -> rule_ok ctx rule)).
  { intros l' rule Hr. apply pspec_whitespace. intros y rest' _. apply pspec_get. intros t. apply pspec_ret. destruct (item_is t EndOfFile); [|done]. by intros rule' [= <-]. }
  apply pspec_next; [|intros e -> [-> _]; by apply pspec_ret]. intros t r -> He _. rewrite He.
  eapply (pspec_bind _ _ _ _ (fun _ o => forall rule, o = Some rule -> rule_ok ctx rule)).
  - destruct (item_is t AtKeyword) eqn:Ea.
    + eapply pspec_weaken; [eapply at_rule_spec; [apply block_ok|done|done]|]. by intros y o _ _ [_ Ho].
    + eapply pspec_bind; [eapply qualified_rule_spec; [apply block_ok|done]|]. intros y result rest _ [Hres _]. apply pspec_ret. destruct result as [|rule|]; try done.
      intros rule' [= <-]. by apply Hres.
  - intros y o rest _ Ho. destruct o as [rule|]; [by apply Hend, Ho|]. destruct (item_is t AtKeyword); [|by apply pspec_ret].
    eapply pspec_weaken; [apply whitespace_alone|]. by intros z w _ _ ->.
Qed.

Lemma parse_a_declaration_spec (l : list T) ctx : pspec parse_a_declaration l ctx (fun _ o => forall d, o = Some d -> declaration_ok ctx d).
Proof.
  unfold parse_a_declaration. apply pspec_whitespace. intros x rest _. eapply pspec_weaken; [apply declaration_spec|]. intros y o _ _ Ho d Hd. by apply Ho.
Qed.

Lemma parse_a_component_value_spec (l : list T) ctx : pspec parse_a_component_value l ctx (fun _ _ => True).
Proof.
  unfold parse_a_component_value. apply pspec_whitespace. intros x rest _. apply pspec_get. intros b. destruct b; [by apply pspec_ret|].
  eapply pspec_bind; [apply consume_spec|]. intros y v rest' _ _. apply pspec_whitespace. intros z rest'' _. apply pspec_get. intros b. by apply pspec_ret.
Qed.

Lemma comma_separated_loop_spec fuel : forall groups comma (l : list T) ctx, (length l < fuel)%nat -> pspec (comma_separated_loop fuel groups comma) l ctx (fun _ _ => True).
Proof.
  induction fuel as [|fuel IH]; intros groups comma l ctx Hf; [lia|]. cbn [comma_separated_loop].
  assert (Hcase : forall k, (l = [] -> pspec (k true) l ctx (fun _ (_ : list (list ComponentValue)) => True)) ->
    (l <> [] -> pspec (k false) l ctx (fun _ _ => True)) -> pspec (pbind (pget stream_is_empty) k) l ctx (fun _ _ => True)).
  { intros k Ht Hn p Hok Hl Hctx. change (pbind (pget stream_is_empty) k p) with (k (item_is (next_token (input p)) EndOfFile) p). destruct l as [|t r].
    - destruct (next_nil _ Hok Hl) as [-> _]. by apply Ht.
    - destruct (next_item _ _ _ Hok Hl) as (-> & -> & _). by apply Hn. }
  apply Hcase; [intros _; by apply pspec_ret|]. intros Hne. eapply pspec_bind; [apply list_spec|]. intros x group rest El _.
  destruct rest as [|t rest].
  - apply pspec_consume_nil. intros e _. apply IH. destruct l; [done|cbn in *; lia].
  - apply pspec_consume_cons, IH. apply (f_equal length) in El. rewrite length_app in El. cbn [length] in El. lia.
Qed.

Lemma comma_separated_spec (l : list T) ctx : pspec parse_a_comma_separated_list_of_component_values l ctx (fun _ _ => True).
Proof. apply pspec_loop. intros n Hn. apply comma_separated_loop_spec. lia. Qed.
End entries.

(** ** Properties *)

(** C7: parsing a style sheet is total and respects contexts.  Every byte string in
    every encoding that has a decoder (UTF-16BE apart) is decoded, tokenized and
    parsed: no nesting, unclosed block, missing token or backtracking makes a loop
    run on or a verification fail, and marks and contexts are balanced.  Every rule
    that is returned is valid where it stands, and so is, in the context of its
    block, everything in it: declarations, nested rules and at-rules. *)
Theorem css_stylesheet_parse_safe `{DecoderTablesLaws} `{SimdutfLaws, SimdutfCount} `{SimdutfUtf16Laws} `{FastFloatLaws} `{FastFloatDoubleSyntaxLaws}
    (input encoding : bytes) (decoder : Decoder) (He : decoder_for encoding = Some decoder)
    (Hd : decoder <> UTF16BEDecoder) (Hin : all_bytes input) (Hfits : Z.of_nat (length input) < 2 ^ 63) :
  exists rules, parse_a_stylesheet input encoding = Ret rules /\ Forall (rule_ok []) rules.
Proof.
  destruct (css_text_parser input encoding decoder [] He Hd Hin Hfits) as (cps & p & _ & Ep & Hok & Hctx & _). unfold parse_a_stylesheet. rewrite Ep. cbn [res_bind].
  assert (Hs : pspec consume_a_stylesheets_contents (rest_of (CssSyntax.input p)) [] (fun x rules => x = rest_of (CssSyntax.input p) /\ Forall (rule_ok []) rules)).
  { apply pspec_loop. intros n Hn. apply stylesheets_contents_loop_spec; [lia|constructor]. }
  destruct (Hs p Hok eq_refl Hctx) as (x & rules & p' & E & _ & _ & _ & Hrules). rewrite E. by exists rules.
Qed.

Lemma css_stylesheet_parse_safe_witness :
  exists rules, parse_a_stylesheet (sv "@media x { a { b: c !important } } d { &:e { f: (g } }") (sv "utf-8") = Ret rules /\ Forall (rule_ok []) rules.
Proof. eapply css_stylesheet_parse_safe; [vm_compute; reflexivity|done|repeat constructor|cbn; lia]. Defined.

(** C9: component values keep their text.  The component values of a text, however
    its brackets are nested and whether or not they are closed, have as original
    source texts, one after the other, the whole text after preprocessing. *)
Theorem css_component_values_lossless `{DecoderTablesLaws} `{SimdutfLaws, SimdutfCount} `{SimdutfUtf16Laws} `{FastFloatLaws} `{FastFloatDoubleSyntaxLaws}
    (rule_context : list RuleContext) (input encoding : bytes) (decoder : Decoder) (He : decoder_for encoding = Some decoder)
    (Hd : decoder <> UTF16BEDecoder) (Hin : all_bytes input) (Hfits : Z.of_nat (length input) < 2 ^ 63) :
  exists values text, parse_as_list_of_component_values rule_context input encoding = Ret values /\
    CssTokenizer.filter_code_points input encoding = Ret text /\ concat (original_source_text <$> values) = text.
Proof.
  destruct (css_text_parser input encoding decoder rule_context He Hd Hin Hfits) as (cps & p & Ef & Ep & Hok & Hctx & Ht). unfold parse_as_list_of_component_values.
  rewrite Ep. cbn [res_bind]. destruct (list_spec None NestedNo (rest_of (CssSyntax.input p)) rule_context p Hok eq_refl Hctx) as (x & values & p' & E & _ & Hx & Hs & _ & Hall).
  unfold parse_a_list_of_component_values. rewrite E. exists values, (utf8_encode cps). split; [done|]. split; [done|]. rewrite (Hall eq_refl eq_refl) in Hs.
  change (concat (original_source_text <$> values)) with (source_text_of values). rewrite Hs. exact Ht.
Qed.

Lemma css_component_values_lossless_witness : exists values text,
  parse_as_list_of_component_values [Style] (sv "a(b [c {d} / 1.5em") (sv "utf-8") = Ret values /\
  CssTokenizer.filter_code_points (sv "a(b [c {d} / 1.5em") (sv "utf-8") = Ret text /\ concat (original_source_text <$> values) = text.
Proof. eapply css_component_values_lossless; [vm_compute; reflexivity|done|repeat constructor|cbn; lia]. Defined.

(** C11: the optimised variant is equivalent.  Consuming a component value and
    consuming one and doing nothing, which builds no value, both return, and leave the
    stream in front of the same tokens, with the same marks and contexts; they can
    only differ in how far they are past the end of the input. *)
Theorem css_do_nothing_equivalent (p : Parser Token) (Hok : stream_ok (input p)) :
  exists value p' q', consume_a_component_value p = Ret (value, p') /\ consume_a_component_value_and_do_nothing p = Ret (tt, q') /\ same_rest p' q'.
Proof.
  destruct (consume_spec (rest_of (input p)) (m_rule_context p) p Hok eq_refl eq_refl) as (x & value & p' & E & _).
  destruct (skip_spec (rest_of (input p)) (m_rule_context p) p Hok eq_refl eq_refl) as (y & [] & q' & E' & _).
  exists value, p', q'. split; [done|]. split; [done|]. pose proof (reading_loop _ _ component_value_reading p p) as Hs.
  change (ploop component_value_of_tokens) with (consume_a_component_value (T := Token)) in Hs.
  change (ploop skip_component_value_of_tokens) with (consume_a_component_value_and_do_nothing (T := Token)) in Hs. rewrite E, E' in Hs. by apply Hs.
Qed.

Lemma css_do_nothing_equivalent_witness :
  exists value p' q',
    consume_a_component_value {| m_rule_context := []; input := {| m_tokens := [create_function (sv "f") (sv "f("); create_ident (sv "a") (sv "a")];
      m_index := 0; m_marked_indexes := []; m_eof := plain_token EndOfFile [] default_number HashUnrestricted [] |} |} = Ret (value, p') /\
    consume_a_component_value_and_do_nothing {| m_rule_context := []; input := {| m_tokens := [create_function (sv "f") (sv "f("); create_ident (sv "a") (sv "a")];
      m_index := 0; m_marked_indexes := []; m_eof := plain_token EndOfFile [] default_number HashUnrestricted [] |} |} = Ret (tt, q') /\
    same_rest p' q'.
Proof. apply css_do_nothing_equivalent. split; [split; [by left|by repeat constructor]|done]. Defined.

(** ** Divergences *)

Section divergences.
Context `{LookupTables} `{Simdutf, SimdutfCount} `{SimdutfUtf16} `{FastFloat} `{FastFloatDouble}.

(** The tokens of a text *)
Definition tokens_of (text : bytes) : res (list Token) := CssTokenizer.tokenize_decoded text.

(** A list of component values goes on to the next case after a closing brace: the
    token behind it is taken as a value even if the list should stop there, so that
    a comma does not separate, and the end of the input becomes a value. *)
Theorem closing_brace_swallows_stop :
  (let* tokens := tokens_of (sv "a},b") in let* p := parser_for [] tokens in
   let* (groups, _) := parse_a_comma_separated_list_of_component_values p in Ret (source_text_of <$> groups)) = Ret [sv "a},b"] /\
  (let* tokens := tokens_of (sv "}") in let* p := parser_for [] tokens in
   let* (values, _) := parse_a_list_of_component_values p in Ret ((fun v => value_is v EndOfFile) <$> values)) = Ret [false; true].
Proof. by vm_compute. Qed.

(** The declaration in the parentheses of "@supports (a:}) {}": the end of the input
    is consumed as a value, and taking the source tokens up to there is out of range. *)
Theorem supports_declaration_crashes :
  (let* tokens := tokens_of (sv "(a:})") in let* p := parser_for [] tokens in
   let* (values, _) := parse_a_list_of_component_values p in
   match values with
   | [OfBlock _ value _] =>
       let* p := parser_for [SupportsCondition] value in
       let* (declaration, _) := consume_a_declaration NestedNo SaveYes p in
       Ret declaration
   | _ => Ret None
   end) = Crash.
Proof. by vm_compute. Qed.

(** "!important" is found unless it is the whole value. *)
Theorem lone_important_missed :
  (let* tokens := tokens_of (sv "--a:!important") in let* p := parser_for [Style] tokens in
   let* (declaration, _) := parse_a_declaration p in
   Ret ((fun d => (source_text_of (declaration_value d), declaration_important d)) <$> declaration)) = Ret (Some (sv "!important", false)) /\
  (let* tokens := tokens_of (sv "--a: b!important") in let* p := parser_for [Style] tokens in
   let* (declaration, _) := parse_a_declaration p in
   Ret ((fun d => (source_text_of (declaration_value d), declaration_important d)) <$> declaration)) = Ret (Some (sv "b", true)).
Proof. by vm_compute. Qed.

(** The names of at-rules are compared without regard to case to find their context,
    but with regard to case to find whether they may be nested. *)
Theorem nested_at_rule_case_sensitive :
  rule_context_type_for_at_rule (sv "MEDIA") = AtMedia /\ at_rule_is_valid [Style] (sv "media") = Ret true /\ at_rule_is_valid [Style] (sv "MEDIA") = Ret false /\
  at_rule_is_valid [AtMedia] (sv "import") = Ret false /\ at_rule_is_valid [AtMedia] (sv "IMPORT") = Ret true.
Proof. by vm_compute. Qed.
End divergences.
